(* ===== verification/_CoqProject ===== *)
-Q . S2P
Prelude.v
Bytes.v
Source.v
SourceFacts.v
Comment.v
CommentFacts.v
Lexer.v
LexerFacts.v
LexerQuoted.v
LexerNames.v
Machine.v
Pack.v
PackFacts.v
PackSafe.v
Integer.v
IntegerFacts.v
Rational.v
RationalFacts.v
Decimal.v
DecimalFacts.v
Real.v
RealFacts.v
RealConv.v
Fold.v
FoldFacts.v
Explore.v
ExploreFacts.v
ExploreQueue.v
ExploreReference.v
ExploreQueueFacts.v
ExploreInvariant.v
ExploreFinish.v
ExploreSteps.v
ExploreJobs.v
ExploreResults.v
ExplorePaths.v
ExploreOutcomes.v
Choice.v
ChoiceScan.v
ChoiceFacts.v
Header.v
HeaderFacts.v
Scanner.v
ScannerFacts.v
Syntax.v
Parser.v
Expression.v
ParserFacts.v
ParserWindow.v
Grammar.v
ExpressionFacts.v
ExpressionSound.v
LexerLocal.v
LexerReads.v
Format.v
Relayout.v
FormatFacts.v
FormatTwice.v
Ast.v
AstCodec.v
AstWalk.v
AstWrites.v
AstRoundTrip.v
AstSafe.v
Checker.v
CheckerPlain.v
CheckerStrip.v
CheckerSpec.v
CheckerSteps.v
CheckerInvariant.v
CheckerSample.v
CheckerSound.v
CheckerComplete.v
CheckerTerminates.v
CheckerBounds.v
CheckerAcyclic.v
Footprint.v
FootprintFacts.v
Reduce.v
ReduceSound.v
