(* ===== verification/Prelude.v ===== *)
(** * OpenSysML: a verification library for the language front end and the runtime

    OpenSysML is a tool chain for SysML v2 and KerML written in Go: a lexer and a
    parser, a resolver of names over a symbol graph, the arithmetic of model values,
    executors of state machines and actions with an exploration and a model checker of
    their schedules, and translators and front ends around them. This library models the parts whose
    correctness everything else rests on, and proves what they promise.

    ** Parts, files and code

    All paths are under [src/]. A file [X.v] holds definitions translated from the
    code, under the code's names; [XFacts.v] and the files named after it hold what is
    proved of them.

    - Shared: [Prelude] (literals, results, tactics, lists), [Bytes] (Go's [strings]
      and [bytes] over byte lists), [Machine] (fixed-width integers).
    - Source text ([internal/syntax/source]): [Source], [SourceFacts] - spans, line and
      column positions, languages, quoted text, names and paths; [Comment],
      [CommentFacts] - comment bodies.
    - Lexer ([internal/syntax/lexer]): [Lexer]; [LexerFacts] (progress, tiling,
      operators), [LexerQuoted] (quoted text and comments), [LexerNames] (the tests of
      one name and one number), [LexerLocal] and [LexerReads] (a token depends only on
      the bytes from its start to a few past its end).
    - Parser ([internal/syntax/parser]): [Scanner] ([scanner.go], the stream that hands
      an unreserved keyword on as a name) with [ScannerFacts]; [Parser] ([parser.go],
      the token window, reports, trivia, checkpoints) with [ParserFacts] (the window as
      the list of tokens left, and a total program logic over it) and [ParserWindow]
      (backtracking); [Syntax]
      ([internal/syntax/ast]); [Expression] ([expr.go], with the names of
      [namespace.go] and the multiplicities of [defusage.go]), [Grammar] (the reference
      grammar), [ExpressionFacts] and [ExpressionSound].
    - Formatter ([internal/syntax/format]): [Format] ([format.go], [layout.go]);
      [Relayout] (texts of the same tokens under other white space), [FormatFacts] (the
      writing loop) and [FormatTwice] (the theorems).
    - Snapshot encoding ([internal/syntax/pack]): [Pack], [PackFacts] (round trips),
      [PackSafe] (reading any bytes).
    - Trees in a snapshot ([internal/syntax/ast], [ast/astcodec]): [Ast] (every node type
      as a record, a heap of nodes), [AstCodec] (the encoder and the decoder of node
      tables); [AstWalk] (the collecting pass as a reachability), [AstWrites] (a node's
      fields, written and read), [AstRoundTrip] and [AstSafe]. [Syntax] is the tree an
      expression parse builds, without the sharing a heap has.
    - Model values ([internal/semantic/semantics]): [Integer] ([integer.go]),
      [Rational] ([rational.go]), [Decimal] (the notation), [Real] (the conversions to
      and from binary64), [Fold] (constant folding, [eval.go]), each with its facts.
    - Exploration of schedules ([internal/exec/runtime]): [Explore] ([explore.go], one
      run that follows a plan and records its choices), [ExploreQueue]
      ([explore_queue.go], the jobs on a shared queue); the reference
      ([ExploreReference]), the invariants ([ExploreQueueFacts],
      [ExploreInvariant], [ExploreFinish], [ExploreSteps], [ExploreJobs]) and the
      theorems ([ExploreFacts], [ExploreResults], [ExplorePaths], [ExploreOutcomes]).
    - Choices of a witness ([replay.go]): [Choice] with [ChoiceScan] and [ChoiceFacts] (one
      choice), [Header] (the reader of a header, with its objects, inputs, draws, draw
      policy and clock step) and [HeaderFacts].
    - Model checker ([internal/exec/runtime]): [Checker] ([check.go], the depth-first
      search over the schedules, its bounds, violations and report; the script of
      [check_schedule.go], the moves of [check_moves.go]); [CheckerPlain] and
      [CheckerStrip] (the same search without the probability masses, which never steer
      it), [CheckerSpec] (the schedules, independently of any search), [CheckerSteps]
      and [CheckerInvariant] (what the operations change and keep), [CheckerSample] (an
      instance, with what the theorems do not say), [CheckerBounds] (a bound not hit does not steer the search) and the
      theorems ([CheckerSound], [CheckerComplete], [CheckerTerminates],
      [CheckerAcyclic]).
    - Partial-order reduction ([internal/ir/lower], [internal/exec/runtime]): [Footprint]
      ([footprint.go], when two moves may not commute, a footprint indexed by its flows)
      with [FootprintFacts]; [Reduce] ([check_reduce.go], persistent and sleep sets) and
      [ReduceSound] (the persistent set is the least closed one, and what it keeps).

    ** How they interact

    The lexer cuts the source text into tokens; the scanner reclassifies some by the
    tokens after them; the window buffers what the scanner yields; the productions of
    an expression read the window. The formatter cuts the text with the lexer and
    writes the tokens under white space of its own. The tree codec writes the nodes of a
    heap through a pack writer and reads them through a pack reader. Constant folding
    evaluates the trees over the model values. An exploration runs an executor - a
    parameter here - under plans, and a run's choices are spelled as lines and read back
    for a replay. The model checker makes one executor's move at a time instead, restores
    the state and makes the next; its choice points are those of the exploration. Under
    the reduction it makes, of the moves of a state, the persistent ones not asleep.

    ** What the theorems show

    - Text: positions and offsets convert back and forth; what is written as a quoted
      name, a string, a comment, a path or a reference list is read back.
    - Lexing: it stops on any bytes and its tokens tile them; operators are the longest
      match; a quoted or comment token is what its writer wrote.
    - Parsing: the scanner's queue and the parser's window are invisible (refinement of
      the lexer's token list, any look-ahead and backtracking included); an expression
      parses on any text, and without a report what was consumed derives the tree in
      the reference grammar.
    - Formatting: a text of terminated tokens whose carriage returns all end a line with a
      line feed is never refused and its tokens are kept, under any options; without
      line notes a second pass changes nothing.
    - Encoding: what a stream writes is read back; whatever calls are made of the readers
      of any bytes, none panics and each answers within its type and its bytes.
    - Trees: what is encoded is what is reachable, a node of a type the codec does not
      know is reported and not dropped, and decoding gives the same tree, sharing and
      cycles included; decoding any bytes leaves a heap Go's types allow.
    - Numbers: every representation is canonical and every operation the exact one on
      [Z] and [Q] with its refusals characterised; decimal notation round trips; the
      Real of an exact number is the nearest; a Rational has one form on the wire, and what
      is accepted in it spells the number sent; folding is evaluation.
    - Exploration: whatever the jobs and their interleaving, the result is that of the
      reference order; the prefixes are the behavior's complete paths, one for one;
      it ends, within its bounds.
    - Witnesses: the choices of a run are read back as they were spelled, through the
      reader of the whole header, for names that do not run into the punctuation and lines
      that do not open like another line.
    - Model checking: what a check reports some schedule does, within the bounds; a check
      that hit no bound has left nothing out, so that its verdict "no violation,
      exhaustive" is a proof; without cycles a check that hit no bound but the depth's
      left out no schedule within it; a check of finitely many states ends.
    - Reduction: dependence is symmetric and that of a union is that of a part; the
      persistent set is the least closed one; with footprints that mean what they say,
      persistent and sleep sets lose no state without moves that the schedules reach.

    ** Modelling conventions

    A Go byte is a [Z], a string a list of them. An operation that panics in Go is an
    [option] or an error of a [result]; state is a record passed along, and the parser's
    productions are a state monad. Concurrency is a step relation of the jobs' atomic
    sections. Loops whose recursion is not structural take fuel; the fuel chosen is a
    length (of the source, of the tokens left, of the queue, of the heap) that bounds the
    iterations - the model checker's is any that is enough, as [Check_terminates] shows
    there is -, and a theorem shows the result is produced: the parser's productions
    are built in layers, one for each token there may be, each calling the one below
    only after a token was consumed. Binary64 is the standard library's [SpecFloat].

    ** Parameters

    [strconv]'s shortest decimal text of a binary64 and its quoting, [math.Pow] and the executor of a
    behavior are parameters with the laws their users rely on; what the model checker
    moves is the class [Invoked], with its law [Offering]; what its units may touch is the
    class [Touching], and that independent moves commute the class [Commuting]; the declarations a body
    expression may hold are read through the class [Declarations], whose laws
    ([DeclarationLaws]) the expression theorems assume.

    ** Not modelled

    The grammar of declarations and behaviors ([defusage.go], [behavior.go],
    [succession.go]); the symbol graph, name resolution and the metamodel rules; the
    executors of states and actions; how lowering derives the footprint of a node, and
    the search under the partial-order reduction (a check with properties makes none), where
    sleep sets meet the states visited; the trace and the claims of a witness, and its
    replay; of the model checker also the features named for divergence, a caller's
    stop, the traces, the coverage gaps and the hashing of a state to its key; quantities and units but for their numbers;
    solvers, co-simulation, translators, views, documents and front ends, which are
    input and output around the library or generated code. The manifest lists each
    with its reason. *)
From Stdlib Require Export ZArith Lia Sorting.Sorted.
From Stdlib Require Import Strings.Byte.
From Stdlib Require Strings.String.
From stdpp Require Export base tactics option list numbers sets sorting.
Export (notations) Strings.String.

(** ** Literals

    A Go byte is a [Z] in [0..255] and a Go string or [[]byte] a list of them.
    ["x"%ch] is the code of the character, elaborated to the integer so that
    arithmetic automation sees it; [bs "..."] is the bytes of a string. *)
Abbreviation bytes := (list Z).

Definition chr_parse (l : list Byte.byte) : option Z :=
  match l with [c]%list => Some (Z.of_N (Byte.to_N c)) | _ => None end.
Definition chr_print (z : Z) : option (list Byte.byte) :=
  if (32 <? z)%Z && (z <? 127)%Z then
    match Byte.of_N (Z.to_N z) with Some c => Some [c]%list | None => None end
  else None.
Declare Scope chr_scope.
Delimit Scope chr_scope with ch.
String Notation Z chr_parse chr_print : chr_scope.

Definition bs (s : String.string) : bytes :=
  map (fun c => Z.of_N (Byte.to_N c)) (String.list_byte_of_string s).
Arguments bs s%_string_scope.

(** A value of Go's [byte]. *)
Definition is_byte (c : Z) : Prop := (0 <= c < 256)%Z.

(** ** Results

    A Go function returning a value and an [error]. *)
Inductive result (E A : Type) : Type :=
  | Ok (a : A)
  | Err (e : E).
Arguments Ok {E A} a.
Arguments Err {E A} e.

Definition result_bind {E A B} (m : result E A) (f : A -> result E B) : result E B :=
  match m with Ok a => f a | Err e => Err e end.
Declare Scope result_scope.
Delimit Scope result_scope with res.
Notation "'let?' x ':=' m 'in' k" := (result_bind m (fun x => k))
  (at level 10, x pattern, m at level 100, k at level 200) : result_scope.

Lemma result_bind_ok {E A B} (m : result E A) (f : A -> result E B) b :
  result_bind m f = Ok b <-> exists a, m = Ok a /\ f a = Ok b.
Proof. destruct m; cbn; split; [eauto|by intros (?&[= ->]&?)|done|by intros (?&?&?)]. Qed.

(** ** Tactics *)

(** Split every boolean connective of the context into propositions. *)
Ltac bool_split :=
  repeat match goal with
  | H : context [andb _ _ = true] |- _ => rewrite andb_true_iff in H
  | H : context [andb _ _ = false] |- _ => rewrite andb_false_iff in H
  | H : context [orb _ _ = true] |- _ => rewrite orb_true_iff in H
  | H : context [orb _ _ = false] |- _ => rewrite orb_false_iff in H
  | H : context [negb _ = true] |- _ => rewrite negb_true_iff in H
  | H : context [negb _ = false] |- _ => rewrite negb_false_iff in H
  | H : _ /\ _ |- _ => destruct H
  end.

(** Split a membership in an explicit list into its cases. *)
Ltac elem_cases H :=
  lazymatch type of H with
  | _ ∈ [] => by apply not_elem_of_nil in H
  | _ => apply elem_of_cons in H as [H|H]; [|elem_cases H]
  end.

(** Case on the innermost [if] or [match] scrutinee of the goal, keeping its equation. *)
Ltac case_scrut :=
  match goal with
  | |- context [match ?x with _ => _ end] =>
      lazymatch x with
      | context [match _ with _ => _ end] => fail
      | _ => destruct x eqn:?
      end
  end.
Ltac case_scrut_in H :=
  match type of H with
  | context [match ?x with _ => _ end] =>
      lazymatch x with
      | context [match _ with _ => _ end] => fail
      | _ => destruct x eqn:?
      end
  end.

(** ** Generic lemmas on lists *)

Section list_lemmas.
Context {A : Type}.
Implicit Types (l : list A) (p : A -> bool).

Lemma drop_cons_lookup l i x : l !! i = Some x -> drop i l = x :: drop (S i) l.
Proof. intros H. apply drop_S, H. Qed.

Lemma lookup_drop_head l i : l !! i = head (drop i l).
Proof.
  rewrite <- (Nat.add_0_r i) at 1. rewrite <- lookup_drop.
  by destruct (drop i l).
Qed.

(** The slice [l[i:j]] of a Go string or slice, for in-range bounds. *)
Definition slice l (i j : nat) : list A := take (j - i) (drop i l).

Lemma slice_full l : slice l 0 (length l) = l.
Proof. unfold slice. rewrite drop_0, Nat.sub_0_r. by apply take_ge. Qed.

Lemma slice_empty l i : slice l i i = [].
Proof. unfold slice. by rewrite Nat.sub_diag. Qed.

Lemma length_slice l i j :
  i <= j -> j <= length l -> length (slice l i j) = j - i.
Proof. intros. unfold slice. rewrite length_take, length_drop. lia. Qed.

Lemma slice_app l i j k :
  i <= j -> j <= k -> slice l i j ++ slice l j k = slice l i k.
Proof.
  intros. unfold slice.
  replace (drop j l) with (drop (j - i) (drop i l)) by (rewrite drop_drop; f_equal; lia).
  rewrite take_take_drop. f_equal. lia.
Qed.

Lemma slice_cons l i j x :
  l !! i = Some x -> i < j -> slice l i j = x :: slice l (S i) j.
Proof.
  intros Hx Hij. unfold slice. rewrite (drop_cons_lookup _ _ _ Hx).
  replace (j - i) with (S (j - S i)) by lia. done.
Qed.

Lemma slice_lookup l i j n : n < j - i -> slice l i j !! n = l !! (i + n).
Proof. intros. unfold slice. rewrite lookup_take_lt by lia. by rewrite lookup_drop. Qed.

Lemma slice_app_r l (k : list A) i j : j <= length l -> slice (l ++ k) i j = slice l i j.
Proof.
  intros. unfold slice. destruct (decide (i <= length l)).
  - rewrite drop_app_le by lia. rewrite take_app_le; [done|]. rewrite length_drop. lia.
  - replace (j - i) with 0 by lia. done.
Qed.

Lemma slice_drop_app (src : list A) pos s t :
  drop pos src = s ++ t -> slice src pos (pos + length s) = s.
Proof.
  intros H. unfold slice. rewrite H. replace (pos + length s - pos) with (length s) by lia.
  by rewrite take_app_length.
Qed.

(** [for i < len(l) && p(l[i]) { i++ }]: where the loop stops from [i]. *)
Definition advance_while p l (i : nat) : nat :=
  i + length ((fix go k := match k with
               | [] => [] | x :: k' => if p x then x :: go k' else [] end) (drop i l)).

Lemma advance_while_step p l i :
  advance_while p l i =
    match l !! i with
    | Some x => if p x then advance_while p l (S i) else i
    | None => i
    end.
Proof.
  unfold advance_while. destruct (l !! i) as [x|] eqn:Hx.
  - rewrite (drop_cons_lookup _ _ _ Hx) at 1. destruct (p x); cbn; lia.
  - apply lookup_ge_None_1 in Hx. rewrite drop_ge by lia. cbn. lia.
Qed.

Lemma advance_while_ge p l i : i <= advance_while p l i.
Proof. unfold advance_while. lia. Qed.

Lemma advance_while_le p l i : i <= length l -> advance_while p l i <= length l.
Proof.
  unfold advance_while. intros Hi.
  enough (H : forall k, length ((fix go k := match k with
               | [] => [] | x :: k' => if p x then x :: go k' else [] end) k) <= length k).
  { specialize (H (drop i l)). rewrite length_drop in H. lia. }
  induction k as [|x k IH]; [done|]. destruct (p x); cbn; lia.
Qed.

(** The loop passes exactly a maximal run of bytes that satisfy the test. *)
Lemma advance_while_spec p l i :
  i <= length l ->
  Forall (fun x => p x = true) (slice l i (advance_while p l i)) /\
  (forall x, l !! advance_while p l i = Some x -> p x = false).
Proof.
  remember (length l - i) as n eqn:Hn. revert i Hn.
  induction n as [n IH] using lt_wf_ind; intros i Hn Hi.
  rewrite advance_while_step. destruct (l !! i) as [x|] eqn:Hx.
  - pose proof (lookup_lt_Some _ _ _ Hx). destruct (p x) eqn:Hp.
    + destruct (IH (length l - S i)) with (i := S i) as [H1 H2]; [lia..|].
      pose proof (advance_while_ge p l (S i)).
      split; [|done]. rewrite (slice_cons _ _ _ _ Hx) by lia. by constructor.
    + rewrite slice_empty. split; [done|]. intros y Hy. congruence.
  - rewrite slice_empty. split; [done|]. congruence.
Qed.

Lemma advance_while_stop p l i j :
  i <= j -> j <= length l ->
  Forall (fun x => p x = true) (slice l i j) ->
  (forall x, l !! j = Some x -> p x = false) ->
  advance_while p l i = j.
Proof.
  remember (j - i) as n eqn:Hn. revert i Hn.
  induction n as [|n IH]; intros i Hn Hij Hj Hall Hstop.
  - assert (i = j) as -> by lia. rewrite advance_while_step.
    destruct (l !! j) eqn:E; [|done]. by rewrite Hstop.
  - destruct (lookup_lt_is_Some_2 l i) as [x Hx]; [lia|].
    rewrite (slice_cons _ _ _ _ Hx) in Hall by lia. inversion Hall; subst.
    rewrite advance_while_step, Hx. rewrite H1. apply IH; try done; lia.
Qed.
End list_lemmas.
#[global] Arguments advance_while : simpl never.
#[global] Arguments slice : simpl never.

Lemma forallb_Forall {A} (p : A -> bool) (l : list A) :
  forallb p l = true <-> Forall (fun x => p x = true) l.
Proof.
  induction l as [|x l IH]; [done|]. cbn [forallb]. by rewrite andb_true_iff, IH, Forall_cons.
Qed.

(** Filters that keep everything or nothing. *)
Lemma filter_all {A} (P : A -> Prop) `{!forall x, Decision (P x)} (l : list A) :
  Forall P l -> filter P l = l.
Proof. induction 1 as [|x l Hx HF IH]; [done|]. by rewrite filter_cons_True, IH. Qed.

Lemma filter_none {A} (P : A -> Prop) `{!forall x, Decision (P x)} (l : list A) :
  Forall (fun x => ~ P x) l -> filter P l = [].
Proof. induction 1 as [|x l Hx HF IH]; [done|]. by rewrite filter_cons_False, IH. Qed.
