(* ===== verification/Bytes.v ===== *)
(** * Byte strings

    The operations of Go's [strings] and [bytes] packages the front end uses,
    over byte lists, with the lemmas the components share. *)
From S2P Require Import Prelude.
Local Open Scope Z_scope.

(** [==] on strings. *)
Definition beq (s t : bytes) : bool := bool_decide (s = t).

Lemma beq_true s t : beq s t = true <-> s = t.
Proof. apply bool_decide_eq_true. Qed.
Lemma beq_false s t : beq s t = false <-> s <> t.
Proof. apply bool_decide_eq_false. Qed.

Fixpoint has_prefix (s p : bytes) {struct p} : bool :=
  match p, s with
  | [], _ => true
  | c :: p', d :: s' => (d =? c) && has_prefix s' p'
  | _ :: _, [] => false
  end.

Lemma has_prefix_spec s p : has_prefix s p = true <-> exists t, s = p ++ t.
Proof.
  revert s. induction p as [|c p IH]; intros s; cbn.
  { destruct s; split; eauto. }
  destruct s as [|d s]; [split; [done|by intros (?&?)]|].
  destruct (Z.eqb_spec d c) as [->|Hd]; cbn.
  - rewrite IH. split; intros (t & Ht); exists t; [by rewrite Ht|congruence].
  - split; [done|]. intros (t & Ht). congruence.
Qed.

Lemma has_prefix_app p t : has_prefix (p ++ t) p = true.
Proof. apply has_prefix_spec. eauto. Qed.

Definition trim_prefix (s p : bytes) : bytes :=
  if has_prefix s p then drop (length p) s else s.

Definition has_suffix (s p : bytes) : bool := has_prefix (rev s) (rev p).

Lemma has_suffix_spec s p : has_suffix s p = true <-> exists t, s = t ++ p.
Proof.
  unfold has_suffix. rewrite has_prefix_spec. split; intros [t Ht].
  - exists (rev t). apply (f_equal (@rev Z)) in Ht.
    by rewrite rev_app_distr, !rev_involutive in Ht.
  - exists (rev t). by rewrite Ht, rev_app_distr.
Qed.

Definition trim_suffix (s p : bytes) : bytes :=
  if has_suffix s p then take (length s - length p) s else s.

(** [strings.Index]: the offset of the first occurrence. *)
Fixpoint index (s sub : bytes) : option nat :=
  if has_prefix s sub then Some O
  else match s with
       | [] => None
       | _ :: s' => S <$> index s' sub
       end.

Definition contains (s sub : bytes) : bool := bool_decide (is_Some (index s sub)).

Definition elem (c : Z) (s : bytes) : bool := existsb (Z.eqb c) s.

Lemma elem_spec c s : elem c s = true <-> c ∈ s.
Proof.
  unfold elem. rewrite existsb_exists, list_elem_of_In. split.
  - intros (x & Hx & Heq). apply Z.eqb_eq in Heq. by subst.
  - intros. exists c. by rewrite Z.eqb_refl.
Qed.

(** [strings.Split] at a one-byte separator. *)
Fixpoint split_byte (sep : Z) (s : bytes) : list bytes :=
  match s with
  | [] => [[]]
  | c :: s' =>
      if c =? sep then [] :: split_byte sep s'
      else match split_byte sep s' with
           | [] => [[c]]
           | w :: ws => (c :: w) :: ws
           end
  end.

(** [strings.Split] at a longer separator; [skip] counts the separator bytes
    still to be passed over. *)
Fixpoint split_go (sep : bytes) (skip : nat) (s : bytes) : list bytes :=
  match s with
  | [] => [[]]
  | c :: s' =>
      match skip with
      | S k => split_go sep k s'
      | O =>
          if has_prefix s sep then [] :: split_go sep (length sep - 1) s'
          else match split_go sep O s' with
               | [] => [[c]]
               | w :: ws => (c :: w) :: ws
               end
      end
  end.
Definition split (sep s : bytes) : list bytes := split_go sep O s.

Fixpoint join (sep : bytes) (l : list bytes) : bytes :=
  match l with
  | [] => []
  | [w] => w
  | w :: l' => w ++ sep ++ join sep l'
  end.

Lemma join_cons sep w l : l <> [] -> join sep (w :: l) = w ++ sep ++ join sep l.
Proof. by destruct l. Qed.

Lemma split_byte_nonempty sep s : split_byte sep s <> [].
Proof.
  destruct s as [|c s]; cbn; [done|].
  destruct (c =? sep); [done|]. by destruct (split_byte sep s).
Qed.

Lemma join_split_byte sep s : join [sep] (split_byte sep s) = s.
Proof.
  induction s as [|c s IH]; [done|]. cbn [split_byte].
  pose proof (split_byte_nonempty sep s) as Hne.
  destruct (Z.eqb_spec c sep) as [->|Hc].
  - rewrite join_cons by done. by rewrite IH.
  - destruct (split_byte sep s) as [|w ws]; [done|].
    destruct ws; cbn in *; by rewrite IH.
Qed.

Lemma split_byte_pieces sep s : Forall (fun w => sep ∉ w) (split_byte sep s).
Proof.
  induction s as [|c s IH]; cbn; [repeat constructor; apply not_elem_of_nil|].
  destruct (Z.eqb_spec c sep) as [->|Hc].
  - constructor; [apply not_elem_of_nil|done].
  - destruct (split_byte sep s) as [|w ws]; [constructor; [set_solver|done]|].
    inversion IH; subst. constructor; [set_solver|done].
Qed.

(** A list of separator-free pieces is recovered from its join. *)
Lemma split_byte_join sep l :
  l <> [] -> Forall (fun w => sep ∉ w) l -> split_byte sep (join [sep] l) = l.
Proof.
  intros Hne HF. induction HF as [|w l Hw HF IH]; [done|]. clear Hne.
  assert (Hgen : forall rest, split_byte sep (w ++ rest) =
            match split_byte sep rest with [] => [w] | x :: xs => (w ++ x) :: xs end).
  { clear -Hw. intros rest. induction w as [|c w IH]; cbn.
    - pose proof (split_byte_nonempty sep rest). by destruct (split_byte sep rest).
    - rewrite IH by set_solver.
      destruct (Z.eqb_spec c sep) as [->|]; [set_solver|].
      by destruct (split_byte sep rest). }
  destruct l as [|v l].
  - cbn. rewrite <- (app_nil_r w) at 1. rewrite Hgen. cbn. by rewrite app_nil_r.
  - rewrite join_cons by done. rewrite Hgen. cbn [app split_byte].
    rewrite Z.eqb_refl. rewrite IH by done. by rewrite app_nil_r.
Qed.

(** [strings.TrimLeft(s, cutset)]. *)
Fixpoint trim_left (cutset s : bytes) : bytes :=
  match s with
  | c :: s' => if elem c cutset then trim_left cutset s' else s
  | [] => []
  end.

(** [strings.TrimRight(s, cutset)]. *)
Definition trim_right (cutset s : bytes) : bytes := rev (trim_left cutset (rev s)).

(** [strings.Cut]: the text before and after the first separator, and whether
    there is one. *)
Definition cut (s sep : bytes) : bytes * bytes * bool :=
  match index s sep with
  | Some i => (take i s, drop (i + length sep) s, true)
  | None => (s, [], false)
  end.

(** ** Byte order *)

(** Go's comparison of strings. *)
Fixpoint bytes_leb (s t : bytes) : bool :=
  match s, t with
  | [], _ => true
  | _ :: _, [] => false
  | c :: s', d :: t' => (c <? d) || ((c =? d) && bytes_leb s' t')
  end.
Definition bytes_le (s t : bytes) : Prop := bytes_leb s t = true.
Definition bytes_ltb (s t : bytes) : bool := negb (bytes_leb t s).

#[export] Instance bytes_le_dec : RelDecision bytes_le.
Proof. intros s t. unfold bytes_le. apply _. Defined.

Lemma bytes_le_cons c s d t :
  bytes_le (c :: s) (d :: t) <-> c < d \/ c = d /\ bytes_le s t.
Proof.
  unfold bytes_le. cbn [bytes_leb]. rewrite orb_true_iff, andb_true_iff. by rewrite Z.ltb_lt, Z.eqb_eq.
Qed.

#[export] Instance bytes_le_refl : Reflexive bytes_le.
Proof. intros s. induction s as [|c s IH]; [done|]. apply bytes_le_cons. by right. Qed.

#[export] Instance bytes_le_trans : Transitive bytes_le.
Proof.
  intros s. induction s as [|c s IH]; [done|]. intros [|d t] [|e u]; try done.
  rewrite !bytes_le_cons. intros [H1|[-> H1]] [H2|[-> H2]]; eauto; left; lia.
Qed.

#[export] Instance bytes_le_total : Total bytes_le.
Proof.
  intros s. induction s as [|c s IH]; [by left|]. intros [|d t]; [by right|].
  rewrite !bytes_le_cons. destruct (Z.lt_trichotomy c d) as [H|[->|H]]; [by eauto| |by eauto].
  destruct (IH t); eauto.
Qed.

#[export] Instance bytes_le_antisymm : AntiSymm (=) bytes_le.
Proof.
  intros s. induction s as [|c s IH]; [by intros []|]. intros [|d t]; [done|].
  rewrite !bytes_le_cons. intros [H1|[-> H1]] [H2|[? H2]]; try lia. f_equal. by apply IH.
Qed.

(** ** Trimming *)

(** The encodings of Unicode white space [strings.TrimSpace] removes. *)
Definition space_runes : list bytes :=
  map (fun c => [c]) [9; 10; 11; 12; 13; 32]
  ++ [[194; 133]; [194; 160]; [225; 154; 128]]
  ++ map (fun c => [226; 128; c]) [128; 129; 130; 131; 132; 133; 134; 135; 136; 137; 138; 168; 169; 175]
  ++ [[226; 129; 159]; [227; 128; 128]].

Fixpoint trim_space_left (fuel : nat) (s : bytes) : bytes :=
  match fuel with
  | O => s
  | S fuel' =>
      match find (has_prefix s) space_runes with
      | Some r => trim_space_left fuel' (drop (length r) s)
      | None => s
      end
  end.
Fixpoint trim_space_right (fuel : nat) (s : bytes) : bytes :=
  match fuel with
  | O => s
  | S fuel' =>
      match find (has_suffix s) space_runes with
      | Some r => trim_space_right fuel' (take (length s - length r) s)
      | None => s
      end
  end.
Definition TrimSpace (s : bytes) : bytes :=
  let s := trim_space_left (length s) s in trim_space_right (length s) s.
