(* ===== verification/Source.v ===== *)
(** * Source text: spans, line positions, quoted text and names

    Models [internal/syntax/source]: [source.go] (spans), [lineindex.go]
    (byte offset <-> line and column), [kind.go], [keywords.go], [string.go]
    (escapes and quoted tokens) and [name.go] (names and paths written and read
    as notation). An operation that indexes past a slice in Go panics; here it
    returns [None]. *)
From S2P Require Import Prelude Bytes.
Local Open Scope Z_scope.

(** Control characters the notation names. *)
Abbreviation BS := 8. Abbreviation TAB := 9. Abbreviation NL := 10.
Abbreviation FF := 12. Abbreviation CR := 13. Abbreviation DQ := 34.

(** ** Spans *)

Record Span := { Offset : nat; Len : nat }.

Definition End (s : Span) : nat := (s.(Offset) + s.(Len))%nat.

Definition Contains (s other : Span) : bool :=
  (s.(Offset) <=? other.(Offset))%nat && (End other <=? End s)%nat.

(** [SourceFile.Text]: the slice panics past the end of the content. *)
Definition Text (content : bytes) (sp : Span) : option bytes :=
  if (End sp <=? length content)%nat
  then Some (slice content sp.(Offset) (End sp)) else None.

(** ** Line index *)

Record Pos := { Line : Z; Col : Z }.

Record LineIndex := { lineStarts : list Z }.

Fixpoint newline_starts (i : Z) (content : bytes) : list Z :=
  match content with
  | [] => []
  | b :: content' =>
      if b =? NL then (i + 1) :: newline_starts (i + 1) content'
      else newline_starts (i + 1) content'
  end.

Definition NewLineIndex (content : bytes) : LineIndex :=
  {| lineStarts := 0 :: newline_starts 0 content |}.

(** The binary search of [PosAt]; [None] is an index out of range or a loop
    that outlived its fuel. *)
Fixpoint pos_search (fuel : nat) (starts : list Z) (offset lo hi : Z) : option Z :=
  if lo <? hi then
    match fuel with
    | O => None
    | S fuel' =>
        let mid := Z.quot (lo + hi + 1) 2 in
        match starts !! Z.to_nat mid with
        | None => None
        | Some m =>
            if m <=? offset then pos_search fuel' starts offset mid hi
            else pos_search fuel' starts offset lo (mid - 1)
        end
    end
  else Some lo.

Definition PosAt (li : LineIndex) (offset : Z) : option Pos :=
  match pos_search (length li.(lineStarts)) li.(lineStarts) offset
          0 (Z.of_nat (length li.(lineStarts)) - 1) with
  | None => None
  | Some lo =>
      match li.(lineStarts) !! Z.to_nat lo with
      | None => None
      | Some st => Some {| Line := lo + 1; Col := offset - st + 1 |}
      end
  end.

Definition OffsetAt (li : LineIndex) (p : Pos) : Z :=
  if (p.(Line) <? 1) || (Z.of_nat (length li.(lineStarts)) <? p.(Line)) then -1
  else default 0 (li.(lineStarts) !! Z.to_nat (p.(Line) - 1)) + (p.(Col) - 1).

(** ** Languages *)

Inductive Kind := KindUnknown | KindSysML | KindKerML.
#[export] Instance Kind_eq_dec : EqDecision Kind.
Proof. solve_decision. Defined.

(** [filepath.Ext]: the suffix from the last dot of the last path element. *)
Fixpoint ext_go (acc rest : bytes) : bytes :=
  match rest with
  | [] => []
  | c :: rest' =>
      if c =? "/"%ch then []
      else if c =? "."%ch then c :: acc
      else ext_go (c :: acc) rest'
  end.
Definition Ext (path : bytes) : bytes := ext_go [] (rev path).

Definition KindOf (name : bytes) : Kind :=
  if beq (Ext name) (bs ".sysml") then KindSysML
  else if beq (Ext name) (bs ".kerml") then KindKerML
  else KindUnknown.

(** ** Quoted text *)

Definition IsEscapeChar (c : Z) : bool :=
  elem c ["b"; "t"; "n"; "f"; "r"; DQ; "'"; "\"]%ch.

(** [StringValue] strips the quotes and reads the escapes. *)
Fixpoint unescape_go (raw : bytes) : bytes :=
  match raw with
  | [] => []
  | c :: raw' =>
      if negb (c =? "\"%ch) then c :: unescape_go raw'
      else match raw' with
           | [] => [c]
           | e :: rest =>
               (if e =? "b"%ch then BS
                else if e =? "t"%ch then TAB
                else if e =? "n"%ch then NL
                else if e =? "f"%ch then FF
                else if e =? "r"%ch then CR
                else e) :: unescape_go rest
           end
  end.

Definition Unescape (raw : bytes) : bytes :=
  if negb (elem "\"%ch raw) then raw else unescape_go raw.

Definition StringValue (raw : bytes) : bytes :=
  Unescape
    match raw with
    | q :: _ =>
        if (q =? DQ) || (q =? "'"%ch) then
          if (2 <=? length raw)%nat && bool_decide (last raw = Some q)
          then slice raw 1 (length raw - 1)
          else drop 1 raw
        else raw
    | [] => raw
    end.

(** [quotedText] escapes one byte at a time. *)
Definition escape_byte (quote c : Z) : bytes :=
  if (c =? quote) || (c =? "\"%ch) then ["\"%ch; c]
  else if c =? BS then ["\"; "b"]%ch
  else if c =? TAB then ["\"; "t"]%ch
  else if c =? NL then ["\"; "n"]%ch
  else if c =? FF then ["\"; "f"]%ch
  else if c =? CR then ["\"; "r"]%ch
  else [c].

Definition quotedText (value : bytes) (quote : Z) : bytes :=
  [quote] ++ concat (map (escape_byte quote) value) ++ [quote].

Definition StringText (value : bytes) : bytes := quotedText value DQ.
Definition UnrestrictedNameText (value : bytes) : bytes := quotedText value "'"%ch.

(** ** Keywords and identifiers *)

Definition keywordList : list bytes :=
  map bs
  ["about"; "abstract"; "accept"; "action"; "actor"; "after"; "alias"; "all";
   "allocate"; "allocation"; "analysis"; "and"; "as"; "assert"; "assign"; "assoc";
   "assume"; "at"; "attribute"; "behavior"; "bind"; "binding"; "bool"; "by"; "calc";
   "case"; "chains"; "class"; "classifier"; "comment"; "composite"; "concern";
   "conjugate"; "conjugates"; "conjugation"; "connect"; "connection"; "connector";
   "const"; "constant"; "constraint"; "crosses"; "datatype"; "decide"; "def";
   "default"; "defined"; "dependency"; "derived"; "differences"; "disjoining";
   "disjoint"; "do"; "doc"; "else"; "end"; "entry"; "enum"; "event"; "exhibit"; "exit";
   "expose"; "expr"; "false"; "feature"; "featured"; "featuring"; "filter"; "first";
   "flow"; "for"; "fork"; "frame"; "from"; "function"; "hastype"; "if"; "implies";
   "import"; "in"; "include"; "individual"; "inout"; "interaction"; "interface";
   "intersects"; "inv"; "inverse"; "inverting"; "istype"; "item"; "join"; "language";
   "library"; "locale"; "loop"; "member"; "merge"; "message"; "meta"; "metaclass";
   "metadata"; "multiplicity"; "namespace"; "new"; "nonunique"; "not"; "null";
   "objective"; "occurrence"; "of"; "or"; "ordered"; "out"; "package"; "parallel";
   "part"; "perform"; "port"; "portion"; "predicate"; "private"; "protected"; "public";
   "redefines"; "redefinition"; "ref"; "references"; "render"; "rendering"; "rep";
   "require"; "requirement"; "return"; "satisfy"; "send"; "snapshot"; "specialization";
   "specializes"; "stakeholder"; "standard"; "state"; "step"; "struct";
   "subclassifier"; "subject"; "subset"; "subsets"; "subtype"; "succession";
   "terminate"; "then"; "timeslice"; "to"; "transition"; "true"; "type"; "typed";
   "typing"; "unions"; "until"; "use"; "variant"; "variation"; "verification";
   "verify"; "via"; "view"; "viewpoint"; "when"; "while"; "xor"]%string.

Definition keywordListKerML : list bytes :=
  map bs
  ["about"; "abstract"; "alias"; "all"; "and"; "as"; "assoc"; "behavior"; "binding";
   "bool"; "by"; "chains"; "class"; "classifier"; "comment"; "composite"; "conjugate";
   "conjugates"; "conjugation"; "connector"; "const"; "crosses"; "datatype"; "default";
   "dependency"; "derived"; "differences"; "disjoining"; "disjoint"; "doc"; "else";
   "end"; "expr"; "false"; "feature"; "featured"; "featuring"; "filter"; "first";
   "flow"; "for"; "from"; "function"; "hastype"; "if"; "implies"; "import"; "in";
   "inout"; "interaction"; "intersects"; "inv"; "inverse"; "inverting"; "istype";
   "language"; "library"; "locale"; "member"; "meta"; "metaclass"; "metadata";
   "multiplicity"; "namespace"; "new"; "nonunique"; "not"; "null"; "of"; "or";
   "ordered"; "out"; "package"; "portion"; "predicate"; "private"; "protected";
   "public"; "redefines"; "redefinition"; "references"; "rep"; "return";
   "specialization"; "specializes"; "standard"; "step"; "struct"; "subclassifier";
   "subset"; "subsets"; "subtype"; "succession"; "then"; "to"; "true"; "type"; "typed";
   "typing"; "unions"; "var"; "xor"]%string.

Definition keywordListSysML : list bytes :=
  map bs
  ["about"; "abstract"; "accept"; "action"; "actor"; "after"; "alias"; "all";
   "allocate"; "allocation"; "analysis"; "and"; "as"; "assert"; "assign"; "assume";
   "at"; "attribute"; "bind"; "binding"; "by"; "calc"; "case"; "comment"; "concern";
   "connect"; "connection"; "constant"; "constraint"; "crosses"; "decide"; "def";
   "default"; "defined"; "dependency"; "derived"; "do"; "doc"; "else"; "end"; "entry";
   "enum"; "event"; "exhibit"; "exit"; "expose"; "false"; "filter"; "first"; "flow";
   "for"; "fork"; "frame"; "from"; "hastype"; "if"; "implies"; "import"; "in";
   "include"; "individual"; "inout"; "interface"; "istype"; "item"; "join"; "language";
   "library"; "locale"; "loop"; "merge"; "message"; "meta"; "metadata"; "new";
   "nonunique"; "not"; "null"; "objective"; "occurrence"; "of"; "or"; "ordered"; "out";
   "package"; "parallel"; "part"; "perform"; "port"; "private"; "protected"; "public";
   "redefines"; "ref"; "references"; "render"; "rendering"; "rep"; "require";
   "requirement"; "return"; "satisfy"; "send"; "snapshot"; "specializes";
   "stakeholder"; "standard"; "state"; "subject"; "subsets"; "succession"; "terminate";
   "then"; "timeslice"; "to"; "transition"; "true"; "until"; "use"; "variant";
   "variation"; "verification"; "verify"; "via"; "view"; "viewpoint"; "when"; "while";
   "xor"]%string.

Definition Keywords : list bytes := keywordList.

(** Membership in one of the sets [init] builds from the lists. *)
Definition in_set (s : bytes) (l : list bytes) : bool := existsb (beq s) l.

Definition keywordSet (kind : Kind) : list bytes :=
  match kind with
  | KindKerML => keywordListKerML
  | KindSysML => keywordListSysML
  | KindUnknown => keywordList
  end.

Definition IsKeyword (s : bytes) : bool := in_set s keywordList.
Definition IsKeywordIn (s : bytes) (kind : Kind) : bool := in_set s (keywordSet kind).

Definition IsIdentStart (c : Z) : bool :=
  (c =? "_"%ch) || (("a"%ch <=? c) && (c <=? "z"%ch)) || (("A"%ch <=? c) && (c <=? "Z"%ch)).
Definition IsIdentCont (c : Z) : bool :=
  IsIdentStart c || (("0"%ch <=? c) && (c <=? "9"%ch)).
Definition IsIdentifier (s : bytes) : bool :=
  match s with
  | [] => false
  | c :: s' => IsIdentStart c && forallb IsIdentCont s'
  end.

(** ** Names and paths *)

Definition SEP : bytes := bs "::".

Definition NameText (name : bytes) : bytes :=
  if IsIdentifier name && negb (IsKeyword name) then name
  else ["'"%ch] ++ name ++ ["'"%ch].

Definition QualifiedNameOf (names : list bytes) : bytes := join SEP (map NameText names).

Definition QualifiedNameText (fqn : bytes) : bytes :=
  match fqn with [] => fqn | _ => QualifiedNameOf (split SEP fqn) end.

(** The loop of [readQuotedName] over the text after the opening quote: [name]
    is what was passed, reversed. *)
Fixpoint read_quoted_go (name text : bytes) : option (bytes * bytes) :=
  match text with
  | [] => None
  | c :: text' =>
      if c =? "\"%ch then
        match text' with
        | [] => None
        | e :: text'' => read_quoted_go (e :: c :: name) text''
        end
      else if c =? "'"%ch then Some (rev name, text')
      else read_quoted_go (c :: name) text'
  end.

(** Each reader answers the name, the rest of the text and whether it read one. *)
Definition readQuotedName (text : bytes) : bytes * bytes * bool :=
  match text with
  | [] => ([], [], false)
  | q :: text' =>
      if negb (q =? "'"%ch) then ([], [], false)
      else match read_quoted_go [] text' with
           | None => ([], [], false)
           | Some (name, rest) => (name, rest, negb (beq name []))
           end
  end.

Definition opens_quoted (text : bytes) : bool :=
  match text with [] => true | c :: _ => c =? "'"%ch end.

Definition readName (text : bytes) : bytes * bytes * bool :=
  if opens_quoted text then readQuotedName text
  else
    let stop := default (length text) (index text SEP) in
    let name := take stop text in
    (name, drop stop text, negb (beq name []) && negb (elem "'"%ch name)).

Definition readBasicOrQuotedName (text : bytes) : bytes * bytes * bool :=
  if opens_quoted text then readQuotedName text
  else
    let stop := advance_while IsIdentCont text 0 in
    let name := take stop text in
    (name, drop stop text, IsIdentifier name).

(** The loop of the two path readers, which differ in how a segment is read,
    what joins segments and whether the text may end in a joint; the fuel
    counts segments and each one takes at least one byte. *)
Fixpoint QualifiedNameSegments_go (fuel : nat) (text : bytes) : option (list bytes) :=
  match fuel with
  | O => None
  | S fuel' =>
      let '(name, rest, ok) := readName text in
      if negb ok then None
      else match rest with
           | [] => Some [name]
           | _ =>
               if negb (has_prefix rest SEP) then None
               else cons name <$> QualifiedNameSegments_go fuel' (drop 2 rest)
           end
  end.
Definition QualifiedNameSegments (text : bytes) : option (list bytes) :=
  QualifiedNameSegments_go (S (length text)) text.

Definition MemberPathOf (names : list bytes) : bytes := join (bs ".") (map NameText names).

Fixpoint MemberPathSegments_go (fuel : nat) (text : bytes) : option (list bytes) :=
  match fuel with
  | O => None
  | S fuel' =>
      let '(name, rest, ok) := readBasicOrQuotedName text in
      if negb ok then None
      else match rest with
           | [] => Some [name]
           | _ =>
               if negb (has_prefix rest (bs ".")) || beq rest (bs ".") then None
               else cons name <$> MemberPathSegments_go fuel' (drop 1 rest)
           end
  end.
Definition MemberPathSegments (text : bytes) : option (list bytes) :=
  MemberPathSegments_go (S (length text)) text.

(** [strings.LastIndex]. *)
Fixpoint last_index_go (i : nat) (s sub : bytes) (found : option nat) : option nat :=
  let found' := if has_prefix s sub then Some i else found in
  match s with
  | [] => found'
  | _ :: s' => last_index_go (S i) s' sub found'
  end.
Definition last_index (s sub : bytes) : option nat := last_index_go 0 s sub None.

Definition MetadataPathSegments (path : bytes) : option (list bytes * bytes) :=
  match QualifiedNameSegments path with
  | Some (s0 :: s1 :: more) =>
      let segments := s0 :: s1 :: more in
      Some (take (length segments - 1) segments, default [] (last segments))
  | _ =>
      match last_index path SEP with
      | None => None
      | Some separator =>
          if (separator =? 0)%nat || (length path <=? separator + 2)%nat then None
          else
            match QualifiedNameSegments (take separator path) with
            | None | Some [] => None
            | Some definition =>
                let feature := drop (separator + 2) path in
                Some (definition,
                      match MemberPathSegments feature with
                      | Some [segment] => segment
                      | _ => feature
                      end)
            end
      end
  end.

(** One reference of a typing: the names read, whether a ['.'] joined any, and
    the text after it; [None] where a segment does not read as a name. *)
Fixpoint read_reference (fuel : nat) (rest : bytes) (names : list bytes) (chain : bool)
    : option (list bytes * bool * bytes) :=
  match fuel with
  | O => None
  | S fuel' =>
      let '(name, after, ok) := readBasicOrQuotedName rest in
      if negb ok then None
      else
        let names' := names ++ [name] in
        if has_prefix after SEP then read_reference fuel' (drop 2 after) names' chain
        else if has_prefix after (bs ".") then read_reference fuel' (drop 1 after) names' true
        else Some (names', chain, after)
  end.

Definition strip_lead (rest : bytes) : bytes :=
  trim_prefix (trim_prefix rest (bs "~")) (bs "$::").

Fixpoint ReferenceEndNames_go (fuel : nat) (rest : bytes) : option (list bytes) :=
  match fuel with
  | O => None
  | S fuel' =>
      let conjugated := has_prefix rest (bs "~") in
      match read_reference (S (length rest)) (strip_lead rest) [] false with
      | None => None
      | Some (names, _, after) =>
          let stop := NameText (default [] (last names)) in
          let stop := if conjugated then bs "~" ++ stop else stop in
          match after with
          | [] => Some [stop]
          | _ =>
              if negb (has_prefix after (bs ", ")) then None
              else cons stop <$> ReferenceEndNames_go fuel' (drop 2 after)
          end
      end
  end.
Definition ReferenceEndNames (text : bytes) : bytes :=
  match ReferenceEndNames_go (S (length text)) text with
  | Some ends => join (bs ", ") ends
  | None => text
  end.

Fixpoint ReferenceQualifiedNames_go (fuel : nat) (rest : bytes) : option (list (list bytes)) :=
  match fuel with
  | O => None
  | S fuel' =>
      match read_reference (S (length rest)) (strip_lead rest) [] false with
      | None => None
      | Some (names, chain, after) =>
          let refs := if chain then [] else [names] in
          match after with
          | [] => Some refs
          | _ =>
              if negb (has_prefix after (bs ", ")) then None
              else app refs <$> ReferenceQualifiedNames_go fuel' (drop 2 after)
          end
      end
  end.
(** [nil] for text that does not read as references. *)
Definition ReferenceQualifiedNames (text : bytes) : list (list bytes) :=
  default [] (ReferenceQualifiedNames_go (S (length text)) text).
