(* ===== verification/SourceFacts.v ===== *)
(** * Source text: properties

    Line positions ([lineindex.go]): the binary search always answers the line
    that holds the offset, and offsets and positions convert back and forth.
    Quoted text and names ([string.go], [name.go]): what is written is read
    back exactly. *)
From S2P Require Import Prelude Bytes Source.
Local Open Scope Z_scope.

(** ** Line starts *)

(** The number of line breaks in a text. *)
Definition breaks (content : bytes) : nat := length (filter (fun c => c = NL) content).

Lemma breaks_cons c s : breaks (c :: s) = (if decide (c = NL) then S (breaks s) else breaks s).
Proof. unfold breaks. rewrite filter_cons. by case_decide. Qed.

Lemma breaks_app s t : breaks (s ++ t) = (breaks s + breaks t)%nat.
Proof. unfold breaks. by rewrite filter_app, length_app. Qed.

(** How many line starts lie at or before an offset. *)
Definition starts_upto (starts : list Z) (o : Z) : nat := length (filter (fun s => s <= o) starts).

Lemma newline_starts_bounds i content :
  Forall (fun s => i < s <= i + Z.of_nat (length content)) (newline_starts i content).
Proof.
  revert i. induction content as [|b content IH]; intros i; cbn [newline_starts]; [done|].
  specialize (IH (i + 1)). destruct (b =? NL); cbn [length].
  - constructor; [lia|]. eapply Forall_impl; [done|]. cbn. lia.
  - eapply Forall_impl; [done|]. cbn. lia.
Qed.

Lemma newline_starts_sorted i content : StronglySorted Z.lt (newline_starts i content).
Proof.
  revert i. induction content as [|b content IH]; intros i; cbn [newline_starts]; [constructor|].
  destruct (b =? NL); [|done]. constructor; [done|].
  eapply Forall_impl; [apply newline_starts_bounds|]. cbn. lia.
Qed.

Lemma starts_upto_breaks i content o :
  starts_upto (newline_starts i content) (i + Z.of_nat o) = breaks (take o content).
Proof.
  revert i o. induction content as [|b content IH]; intros i o; cbn [newline_starts].
  { by rewrite take_nil. }
  destruct o as [|o].
  - rewrite Nat2Z.inj_0, Z.add_0_r. cbn.
    pose proof (newline_starts_bounds i (b :: content)) as HF. cbn [newline_starts] in HF.
    unfold starts_upto. apply length_zero_iff_nil.
    destruct (filter _ _) as [|x l] eqn:E; [done|].
    assert (Hx : x ∈ x :: l) by left. rewrite <- E in Hx.
    apply list_elem_of_filter in Hx as [Hx1 Hx2].
    rewrite Forall_forall in HF. specialize (HF _ Hx2). lia.
  - rewrite firstn_cons, breaks_cons.
    replace (i + Z.of_nat (S o)) with ((i + 1) + Z.of_nat o) by lia.
    destruct (Z.eqb_spec b NL) as [->|Hb].
    + rewrite decide_True by done. unfold starts_upto in *.
      rewrite filter_cons_True by lia. cbn. by rewrite IH.
    + rewrite decide_False by done. apply IH.
Qed.

(** ** The binary search *)

Lemma sorted_lookup_lt (l : list Z) i j x y :
  StronglySorted Z.lt l -> l !! i = Some x -> l !! j = Some y -> (i < j)%nat -> x < y.
Proof.
  intros Hs. revert i j. induction Hs as [|z l Hs IH HF]; intros i j Hi Hj Hij; [done|].
  destruct i as [|i], j as [|j]; cbn in *; try lia; simplify_eq.
  - rewrite Forall_forall in HF. apply HF. eapply list_elem_of_lookup_2; eauto.
  - eapply IH; eauto. lia.
Qed.

(** Index [k] is the last line start at or before [o]. *)
Definition last_upto (starts : list Z) (o : Z) (k : nat) : Prop :=
  (exists s, starts !! k = Some s /\ (s <= o \/ k = O)) /\
  (forall j s, (k < j)%nat -> starts !! j = Some s -> o < s).

Lemma pos_search_spec fuel starts o (lo hi : nat) :
  StronglySorted Z.lt starts ->
  (lo <= hi < length starts)%nat -> (hi - lo <= fuel)%nat ->
  (exists s, starts !! lo = Some s /\ (s <= o \/ lo = O)) ->
  (forall j s, (hi < j)%nat -> starts !! j = Some s -> o < s) ->
  exists k, pos_search fuel starts o (Z.of_nat lo) (Z.of_nat hi) = Some (Z.of_nat k)
    /\ last_upto starts o k /\ (k < length starts)%nat.
Proof.
  intros Hs. revert lo hi. induction fuel as [|fuel IH]; intros lo hi Hr Hf Hlo Hhi.
  - cbn. assert (lo = hi) as -> by lia. rewrite Z.ltb_irrefl.
    exists hi. split; [done|]. split; [|lia]. by split.
  - cbn [pos_search]. destruct (Z.ltb_spec (Z.of_nat lo) (Z.of_nat hi)) as [Hlt|Hge].
    2:{ assert (lo = hi) as -> by lia. exists hi. split; [done|]. split; [by split|lia]. }
    assert (Hmid : exists m : nat, Z.quot (Z.of_nat lo + Z.of_nat hi + 1) 2 = Z.of_nat m
                     /\ (lo < m <= hi)%nat).
    { exists (Z.to_nat (Z.quot (Z.of_nat lo + Z.of_nat hi + 1) 2)).
      Z.to_euclidean_division_equations; lia. }
    destruct Hmid as (m & -> & Hm). rewrite Nat2Z.id.
    destruct (lookup_lt_is_Some_2 starts m) as [s Hsm]; [lia|]. rewrite Hsm.
    destruct (Z.leb_spec s o) as [Hle|Hgt].
    + apply IH; [lia|lia| |done]. eauto.
    + replace (Z.of_nat m - 1) with (Z.of_nat (m - 1)) by lia.
      apply IH; [lia|lia|done|]. intros j t Hj Ht.
      destruct (decide (j = m)) as [->|]; [congruence|].
      pose proof (sorted_lookup_lt _ _ _ _ _ Hs Hsm Ht). lia.
Qed.

Lemma starts_sorted content : StronglySorted Z.lt (NewLineIndex content).(lineStarts).
Proof.
  cbn. constructor; [apply newline_starts_sorted|].
  eapply Forall_impl; [apply newline_starts_bounds|]. cbn. lia.
Qed.

Lemma starts_bounds content s :
  s ∈ (NewLineIndex content).(lineStarts) -> 0 <= s <= Z.of_nat (length content).
Proof.
  cbn. intros [->|Hs]%elem_of_cons; [lia|].
  pose proof (newline_starts_bounds 0 content) as HF. rewrite Forall_forall in HF.
  specialize (HF _ Hs). lia.
Qed.

(** The index of the last start at or before [o] counts the starts after the first. *)
Lemma last_upto_count starts o k :
  StronglySorted Z.lt starts -> last_upto starts o k ->
  (forall s, head starts = Some s -> s <= o) ->
  starts_upto starts o = S k.
Proof.
  intros Hs [(s & Hk & Hso) Hafter] Hhead. unfold starts_upto.
  rewrite <- (take_drop (S k) starts), filter_app, length_app.
  assert (Hall : Forall (fun x => x <= o) (take (S k) starts)).
  { apply Forall_forall. intros x Hx. apply list_elem_of_lookup in Hx as [i Hi].
    apply lookup_take_Some in Hi as [Hi Hik].
    destruct Hso as [Hso| ->].
    - destruct (decide (i = k)) as [->|]; [congruence|].
      pose proof (sorted_lookup_lt _ _ _ _ _ Hs Hi Hk). lia.
    - assert (i = O) as -> by lia. apply Hhead. by rewrite head_lookup. }
  assert (Hnone : filter (fun x => x <= o) (drop (S k) starts) = []).
  { apply filter_none, Forall_forall. intros x Hx.
    apply list_elem_of_lookup in Hx as [i Hi]. rewrite lookup_drop in Hi.
    specialize (Hafter (S k + i)%nat x ltac:(lia) Hi). lia. }
  rewrite Hnone. cbn.
  rewrite (filter_all _ _ Hall), length_take.
pose proof (lookup_lt_Some _ _ _ Hk). lia.
Qed.

Lemma PosAt_total content o :
  exists k s, PosAt (NewLineIndex content) o = Some {| Line := Z.of_nat k + 1; Col := o - s + 1 |}
    /\ (NewLineIndex content).(lineStarts) !! k = Some s
    /\ last_upto (NewLineIndex content).(lineStarts) o k.
Proof.
  destruct (pos_search_spec (length (lineStarts (NewLineIndex content)))
              (lineStarts (NewLineIndex content)) o 0
              (length (lineStarts (NewLineIndex content)) - 1)) as (k & Hk & Hl & Hlen).
  - apply starts_sorted.
  - cbn. lia.
  - lia.
  - exists 0. split; [done|]. by right.
  - intros j s Hj Hjs. apply lookup_lt_Some in Hjs. cbn in *. lia.
  - unfold PosAt.
    replace (Z.of_nat (length (lineStarts (NewLineIndex content))) - 1)
      with (Z.of_nat (length (lineStarts (NewLineIndex content)) - 1)) by (cbn; lia).
    change (Z.of_nat 0) with 0 in Hk. rewrite Hk, Nat2Z.id.
    destruct (lookup_lt_is_Some_2 _ _ Hlen) as [s Hs]. rewrite Hs. eauto.
Qed.

(** *** Line and column of an offset *)

Lemma newline_starts_breaks i content s :
  s ∈ newline_starts i content -> content !! Z.to_nat (s - i - 1) = Some NL.
Proof.
  revert i. induction content as [|b content IH]; intros i Hs; cbn [newline_starts] in Hs.
  { by apply not_elem_of_nil in Hs. }
  assert (Hrec : s ∈ newline_starts (i + 1) content ->
            (b :: content) !! Z.to_nat (s - i - 1) = Some NL).
  { intros Hin. pose proof (newline_starts_bounds (i + 1) content) as HF.
    rewrite Forall_forall in HF. specialize (HF _ Hin).
    replace (Z.to_nat (s - i - 1)) with (S (Z.to_nat (s - (i + 1) - 1))) by lia.
    by apply IH. }
  destruct (Z.eqb_spec b NL) as [->|Hb]; [|by apply Hrec].
  apply elem_of_cons in Hs as [->|Hs]; [|by apply Hrec].
  by replace (Z.to_nat (i + 1 - i - 1)) with 0%nat by lia.
Qed.

Lemma starts_upto_line content o :
  starts_upto (NewLineIndex content).(lineStarts) (Z.of_nat o) = S (breaks (take o content)).
Proof.
  unfold starts_upto. cbn [NewLineIndex lineStarts]. rewrite filter_cons_True by lia.
  cbn. f_equal. apply (starts_upto_breaks 0).
Qed.

Lemma last_upto_line content o k :
  last_upto (NewLineIndex content).(lineStarts) (Z.of_nat o) k ->
  k = breaks (take o content).
Proof.
  intros Hl. apply last_upto_count in Hl; [|apply starts_sorted|].
  - rewrite starts_upto_line in Hl. lia.
  - cbn. intros s [= <-]. lia.
Qed.

Lemma last_upto_self starts k s :
  StronglySorted Z.lt starts -> starts !! k = Some s -> last_upto starts s k.
Proof.
  intros Hs Hk. split; [exists s; split; [done|by left]|].
  intros j t Hj Ht. by apply (sorted_lookup_lt _ _ _ _ _ Hs Hk Ht).
Qed.

Lemma breaks_take_slice content i j :
  (i <= j)%nat -> breaks (take j content) = (breaks (take i content) + breaks (slice content i j))%nat.
Proof.
  intros. rewrite <- breaks_app. f_equal.
  change (take i content) with (slice content 0 i ++ [] ) || idtac.
  pose proof (slice_app content 0 i j ltac:(lia) ltac:(done)) as Hs.
  unfold slice at 1 3 in Hs. rewrite !drop_0, !Nat.sub_0_r in Hs. done.
Qed.

(** C38: for every offset of a file, [PosAt] answers: the line counts the line
    breaks before the offset, the column counts the bytes since the start of
    that line, and there is no line break between the two. *)
Theorem PosAt_correct content (o : nat) :
  (o <= length content)%nat ->
  exists start,
    PosAt (NewLineIndex content) (Z.of_nat o)
      = Some {| Line := Z.of_nat (breaks (take o content)) + 1;
                Col := Z.of_nat (o - start) + 1 |}
    /\ (start <= o)%nat
    /\ (start = O \/ content !! (start - 1)%nat = Some NL)
    /\ breaks (slice content start o) = O.
Proof.
  intros Ho. destruct (PosAt_total content (Z.of_nat o)) as (k & s & Hpos & Hk & Hl).
  pose proof (last_upto_line _ _ _ Hl) as Hline.
  pose proof (starts_bounds content s ltac:(eapply list_elem_of_lookup_2; eauto)) as Hs.
  assert (Hso : s <= Z.of_nat o).
  { destruct Hl as [(s' & Hs' & [Hle| ->]) _]; [congruence|]. cbn in Hk. simplify_eq. lia. }
  exists (Z.to_nat s). split_and!.
  - rewrite Hpos, <- Hline. do 2 f_equal. lia.
  - lia.
  - destruct k as [|k]; cbn in Hk; [left; simplify_eq; done|right].
    replace (Z.to_nat s - 1)%nat with (Z.to_nat (s - 0 - 1)) by lia.
    apply newline_starts_breaks. eapply list_elem_of_lookup_2; eauto.
  - pose proof (last_upto_self _ _ _ (starts_sorted content) Hk) as Hself.
    rewrite <- (Z2Nat.id s) in Hself by lia. apply last_upto_line in Hself.
    rewrite (breaks_take_slice content (Z.to_nat s) o) in Hline by lia. lia.
Qed.

Lemma PosAt_correct_witness :
  exists start,
    PosAt (NewLineIndex (bs "ab" ++ [NL] ++ bs "cd")) 4
      = Some {| Line := Z.of_nat (breaks (take 4 (bs "ab" ++ [NL] ++ bs "cd"))) + 1;
                Col := Z.of_nat (4 - start) + 1 |}
    /\ (start <= 4)%nat
    /\ (start = O \/ (bs "ab" ++ [NL] ++ bs "cd") !! (start - 1)%nat = Some NL)
    /\ breaks (slice (bs "ab" ++ [NL] ++ bs "cd") start 4) = O.
Proof. apply (PosAt_correct _ 4). vm_compute. lia. Defined.

Lemma last_upto_unique starts o k k' :
  last_upto starts o k -> last_upto starts o k' -> k = k'.
Proof.
  intros [(s & Hs & Hso) Ha] [(s' & Hs' & Hso') Ha'].
  destruct (lt_eq_lt_dec k k') as [[Hlt|Heq]|Hgt]; [|done|].
  - specialize (Ha _ _ Hlt Hs'). lia.
  - specialize (Ha' _ _ Hgt Hs). lia.
Qed.

Lemma lineStarts_length content :
  length (NewLineIndex content).(lineStarts) = S (breaks content).
Proof.
  cbn. f_equal. generalize 0. induction content as [|c content IH]; intros i; [done|].
  cbn [newline_starts]. rewrite breaks_cons.
  destruct (Z.eqb_spec c NL) as [->|Hc]; [rewrite decide_True by done|rewrite decide_False by done];
    cbn; by rewrite IH.
Qed.

(** [p] is a position of the text: its line exists, its column is at least one
    and the next line, if there is one, starts after it. *)
Definition valid_pos (content : bytes) (p : Pos) : Prop :=
  1 <= p.(Line) <= Z.of_nat (breaks content) + 1 /\ 1 <= p.(Col) /\
  (p.(Line) <= Z.of_nat (breaks content) ->
   OffsetAt (NewLineIndex content) p
     < OffsetAt (NewLineIndex content) {| Line := p.(Line) + 1; Col := 1 |}).

(** Offsets and positions convert back and forth: any offset is recovered
    from its position, and any position of the text from its offset. *)
Lemma OffsetAt_PosAt content :
  (forall o, exists p, PosAt (NewLineIndex content) o = Some p
                       /\ OffsetAt (NewLineIndex content) p = o)
  /\ (forall p, valid_pos content p ->
        PosAt (NewLineIndex content) (OffsetAt (NewLineIndex content) p) = Some p).
Proof.
  split.
  - intros o. destruct (PosAt_total content o) as (k & s & Hpos & Hk & _).
    eexists. split; [done|]. unfold OffsetAt. cbn [Line Col].
    pose proof (lookup_lt_Some _ _ _ Hk) as Hlt.
    rewrite orb_false_intro by lia.
    replace (Z.to_nat (Z.of_nat k + 1 - 1)) with k by lia. rewrite Hk. cbn. lia.
  - intros p (Hline & Hcol & Hnext).
    pose proof (lineStarts_length content) as Hlen.
    set (k := Z.to_nat (p.(Line) - 1)).
    destruct (lookup_lt_is_Some_2 (NewLineIndex content).(lineStarts) k) as [s Hk]; [lia|].
    assert (Hat : OffsetAt (NewLineIndex content) p = s + (p.(Col) - 1)).
    { unfold OffsetAt. rewrite orb_false_intro by lia. fold k. by rewrite Hk. }
    assert (Hl : last_upto (NewLineIndex content).(lineStarts) (s + (p.(Col) - 1)) k).
    { split; [exists s; split; [done|left; lia]|]. intros j t Hj Ht.
      pose proof (lookup_lt_Some _ _ _ Ht) as Hjlt.
      destruct (lookup_lt_is_Some_2 (NewLineIndex content).(lineStarts) (S k)) as [u Hu]; [lia|].
      specialize (Hnext ltac:(lia)). rewrite Hat in Hnext. unfold OffsetAt in Hnext.
      cbn [Line Col] in Hnext. rewrite orb_false_intro in Hnext by lia.
      replace (Z.to_nat (p.(Line) + 1 - 1)) with (S k) in Hnext by lia.
      rewrite Hu in Hnext. cbn in Hnext.
      destruct (decide (j = S k)) as [->|]; [simplify_eq; lia|].
      pose proof (sorted_lookup_lt _ _ _ _ _ (starts_sorted content) Hu Ht). lia. }
    rewrite Hat. destruct (PosAt_total content (s + (p.(Col) - 1))) as (k' & s' & Hpos & Hk' & Hl').
    rewrite (last_upto_unique _ _ _ _ Hl' Hl) in *. simplify_eq. rewrite Hpos.
    destruct p as [l c]; cbn in *. f_equal. f_equal; lia.
Qed.

Lemma OffsetAt_PosAt_witness :
  valid_pos (bs "ab" ++ [NL] ++ bs "cd") {| Line := 1; Col := 3 |} /\
  PosAt (NewLineIndex (bs "ab" ++ [NL] ++ bs "cd"))
    (OffsetAt (NewLineIndex (bs "ab" ++ [NL] ++ bs "cd")) {| Line := 1; Col := 3 |})
  = Some {| Line := 1; Col := 3 |}.
Proof.
  assert (H : valid_pos (bs "ab" ++ [NL] ++ bs "cd") {| Line := 1; Col := 3 |}).
  { repeat split; vm_compute; congruence. }
  split; [exact H|]. apply (proj2 (OffsetAt_PosAt _)). exact H.
Defined.

(** ** Quoted text *)

Definition quote_char (q : Z) : Prop := q = DQ \/ q = "'"%ch.

Lemma unescape_escape_byte q c rest :
  quote_char q -> unescape_go (escape_byte q c ++ rest) = c :: unescape_go rest.
Proof.
  intros Hq. unfold escape_byte.
  destruct (Z.eqb_spec c q) as [->|Hcq]; cbn [orb].
  { destruct Hq as [-> | ->]; reflexivity. }
  destruct (Z.eqb_spec c "\"%ch) as [->|Hcb]; [reflexivity|].
  destruct (Z.eqb_spec c BS) as [->|]; [reflexivity|].
  destruct (Z.eqb_spec c TAB) as [->|]; [reflexivity|].
  destruct (Z.eqb_spec c NL) as [->|]; [reflexivity|].
  destruct (Z.eqb_spec c FF) as [->|]; [reflexivity|].
  destruct (Z.eqb_spec c CR) as [->|]; [reflexivity|].
  cbn. destruct (Z.eqb_spec c 92); [congruence|done].
Qed.

Lemma unescape_escape q v rest :
  quote_char q -> unescape_go (concat (map (escape_byte q) v) ++ rest) = v ++ unescape_go rest.
Proof.
  intros Hq. induction v as [|c v IH]; [done|]. cbn [map concat].
  rewrite <- app_assoc, unescape_escape_byte by done. cbn. by rewrite IH.
Qed.

Lemma unescape_go_plain raw : elem "\"%ch raw = false -> unescape_go raw = raw.
Proof.
  unfold elem. induction raw as [|c raw IH]; [done|]. cbn [existsb unescape_go].
  intros H. apply orb_false_iff in H as [Hc H].
  rewrite Z.eqb_sym in Hc. rewrite Hc. cbn [negb]. by rewrite IH.
Qed.

Lemma Unescape_go raw : Unescape raw = unescape_go raw.
Proof.
  unfold Unescape. destruct (elem _ raw) eqn:E; [done|]. cbn. symmetry. by apply unescape_go_plain.
Qed.

Lemma slice_inner (q : Z) s : slice ([q] ++ s ++ [q]) 1 (length ([q] ++ s ++ [q]) - 1) = s.
Proof.
  unfold slice. cbn [app drop length]. rewrite length_app. cbn.
  rewrite ?drop_0, take_app_le, take_ge by lia. done.
Qed.

(** Unescaping inverts quoting. *)
Lemma quoted_value q v : quote_char q -> StringValue (quotedText v q) = v.
Proof.
  intros Hq. unfold StringValue, quotedText.
  set (body := concat (map (escape_byte q) v)).
  change ([q] ++ body ++ [q]) with (q :: (body ++ [q])). cbv iota beta.
  assert (((q =? DQ) || (q =? "'"%ch)) = true) as -> by (destruct Hq as [-> | ->]; done).
  assert ((2 <=? length (q :: (body ++ [q])))%nat = true) as ->.
  { apply Nat.leb_le. cbn. rewrite length_app. cbn. lia. }
  rewrite bool_decide_eq_true_2 by (change (q :: (body ++ [q])) with ((q :: body) ++ [q]); apply last_snoc).
  cbn [andb]. change (q :: (body ++ [q])) with ([q] ++ body ++ [q]).
  rewrite slice_inner, Unescape_go. unfold body.
  rewrite <- (app_nil_r (concat _)), unescape_escape by done. by rewrite app_nil_r.
Qed.

(** A value written as a string token, or as a quoted name, is the value
    read back from that token, whatever bytes it holds. *)
Lemma StringValue_quotedText q v :
  quote_char q ->
  StringValue (quotedText v q) = v /\ StringValue (StringText v) = v /\ StringValue (UnrestrictedNameText v) = v.
Proof. intros Hq. split_and!; apply quoted_value; [done|by left|by right]. Qed.

Lemma StringValue_quotedText_witness :
  StringValue (quotedText ([DQ; "\"; TAB; 255; 0; "'"]%ch) DQ) = [DQ; "\"; TAB; 255; 0; "'"]%ch.
Proof. apply (StringValue_quotedText DQ). left. reflexivity. Defined.

(** ** Names and paths *)

(** The text of a name as notation carries it: not empty, every backslash
    followed by the character it escapes, no bare quote. *)
Fixpoint raw_content (s : bytes) : bool :=
  match s with
  | [] => true
  | c :: s' =>
      if c =? "\"%ch then match s' with [] => false | _ :: s'' => raw_content s'' end
      else negb (c =? "'"%ch) && raw_content s'
  end.
Definition raw_name (s : bytes) : bool := negb (beq s []) && raw_content s.

Lemma read_quoted_raw s acc rest :
  raw_content s = true ->
  read_quoted_go acc (s ++ "'"%ch :: rest) = Some (rev acc ++ s, rest).
Proof.
  remember (length s) as n eqn:Hn. revert s acc Hn.
  induction n as [n IH] using lt_wf_ind; intros s acc -> Hraw.
  destruct s as [|c s]; cbn [app read_quoted_go].
  { cbn. by rewrite app_nil_r. }
  cbn [raw_content] in Hraw. destruct (c =? "\"%ch).
  - destruct s as [|e s]; [done|]. cbn [app].
    rewrite (IH (length s)) by (cbn; lia || done). cbn [rev].
    by rewrite <- !app_assoc.
  - apply andb_true_iff in Hraw as [Hc Hraw]. apply negb_true_iff in Hc. rewrite Hc.
    rewrite (IH (length s)) by (cbn; lia || done). cbn [rev]. by rewrite <- app_assoc.
Qed.

Lemma readQuotedName_raw s rest :
  raw_name s = true ->
  readQuotedName ((["'"] ++ s ++ ["'"])%ch ++ rest) = (s, rest, true).
Proof.
  unfold raw_name. intros [Hne Hraw]%andb_true_iff.
  change ((["'"] ++ s ++ ["'"])%ch ++ rest) with ("'"%ch :: ((s ++ ["'"%ch]) ++ rest)).
  rewrite <- app_assoc. unfold readQuotedName. cbn [app negb Z.eqb Pos.eqb].
  rewrite read_quoted_raw by done. cbn [rev app]. by rewrite Hne.
Qed.

Lemma ident_start_facts c :
  IsIdentStart c = true -> c <> "'"%ch /\ c <> "~"%ch /\ c <> "$"%ch /\ IsIdentCont c = true.
Proof. unfold IsIdentCont, IsIdentStart. lia. Qed.

Lemma ident_cont_facts c : IsIdentCont c = true -> c <> ":"%ch /\ c <> "'"%ch.
Proof. unfold IsIdentCont, IsIdentStart. lia. Qed.

Lemma identifier_shape s :
  IsIdentifier s = true ->
  exists c s', s = c :: s' /\ IsIdentStart c = true /\ Forall (fun x => IsIdentCont x = true) s.
Proof.
  destruct s as [|c s]; [done|]. cbn. intros [Hc Hs]%andb_true_iff. exists c, s.
  split_and!; [done..|]. constructor; [by destruct (ident_start_facts _ Hc) as (_ & _ & _ & ?)|].
  apply Forall_forall. rewrite forallb_forall in Hs. intros x Hx. apply Hs. by apply list_elem_of_In.
Qed.

(** What may follow a name: nothing, or a byte no basic name holds. *)
Definition after_name (rest : bytes) : Prop :=
  match rest with [] => True | c :: _ => IsIdentCont c = false end.

Lemma opens_quoted_false c s : c <> "'"%ch -> opens_quoted (c :: s) = false.
Proof. cbn. lia. Qed.

Lemma index_no_sep s rest :
  Forall (fun x => IsIdentCont x = true) s ->
  index (s ++ SEP ++ rest) SEP = Some (length s) /\ index s SEP = None.
Proof.
  induction 1 as [|c s Hc Hs [IH1 IH2]]; [done|].
  assert (Hp : forall t, has_prefix (c :: t) SEP = false).
  { intros t. cbn. apply ident_cont_facts in Hc.
    by destruct (Z.eqb_spec c 58); [lia|]. }
  cbn [app index]. by rewrite !Hp, IH1, IH2.
Qed.

Lemma readName_NameText name rest :
  raw_name name = true -> rest = [] \/ (exists r, rest = SEP ++ r) ->
  readName (NameText name ++ rest) = (name, rest, true).
Proof.
  intros Hraw Hrest. unfold NameText. destruct (IsIdentifier name && negb _) eqn:Hid.
  - apply andb_true_iff in Hid as [Hid _].
    destruct (identifier_shape _ Hid) as (c & s & -> & Hc & Hall).
    unfold readName. cbn [app]. rewrite opens_quoted_false by (by destruct (ident_start_facts _ Hc)).
    change (c :: s ++ rest) with ((c :: s) ++ rest).
    assert (default (length ((c :: s) ++ rest)) (index ((c :: s) ++ rest) SEP) = length (c :: s)) as ->.
    { destruct Hrest as [->|[r ->]].
      - rewrite app_nil_r. by rewrite (proj2 (index_no_sep _ [] Hall)).
      - by rewrite (proj1 (index_no_sep _ r Hall)). }
    rewrite take_app_length, drop_app_length.
    assert (elem "'"%ch (c :: s) = false) as ->.
    { apply not_true_iff_false. intros Hin%elem_spec.
      rewrite Forall_forall in Hall. by destruct (ident_cont_facts _ (Hall _ Hin)). }
    done.
  - unfold readName. cbn [app opens_quoted Z.eqb Pos.eqb].
    by apply (readQuotedName_raw name rest).
Qed.

Lemma readBasic_NameText name rest :
  raw_name name = true -> after_name rest ->
  readBasicOrQuotedName (NameText name ++ rest) = (name, rest, true).
Proof.
  intros Hraw Hrest. unfold NameText. destruct (IsIdentifier name && negb _) eqn:Hid.
  - apply andb_true_iff in Hid as [Hid _].
    destruct (identifier_shape _ Hid) as (c & s & -> & Hc & Hall).
    unfold readBasicOrQuotedName. cbn [app].
    rewrite opens_quoted_false by (by destruct (ident_start_facts _ Hc)).
    change (c :: s ++ rest) with ((c :: s) ++ rest).
    rewrite (advance_while_stop _ _ 0 (length (c :: s))).
    + by rewrite take_app_length, drop_app_length, Hid.
    + lia.
    + rewrite length_app. lia.
    + rewrite slice_app_r by done. by rewrite slice_full.
    + intros x. rewrite lookup_app_r, Nat.sub_diag by done.
      destruct rest; [done|]. cbn. by intros [= <-].
  - unfold readBasicOrQuotedName. cbn [app opens_quoted Z.eqb Pos.eqb].
    by apply (readQuotedName_raw name rest).
Qed.

Lemma NameText_nonempty name : name <> [] -> NameText name <> [].
Proof. intros. unfold NameText. by case_match. Qed.

Lemma raw_name_nonempty name : raw_name name = true -> name <> [].
Proof. unfold raw_name. intros [H _]%andb_true_iff. by apply negb_true_iff, beq_false in H. Qed.

Lemma join_length sep (l : list bytes) :
  Forall (fun w => w <> []) l -> (length l <= length (join sep l))%nat.
Proof.
  induction 1 as [|w l Hw Hl IH]; [done|]. destruct w as [|c w]; [done|].
  destruct l as [|v l].
  - cbn. lia.
  - rewrite join_cons by done. rewrite !length_app. cbn [length] in *. lia.
Qed.

Lemma NameTexts_nonempty names :
  Forall (fun n => raw_name n = true) names -> Forall (fun w => w <> []) (map NameText names).
Proof.
  intros H. apply Forall_map. eapply Forall_impl; [done|]. cbn.
  intros n Hn. by apply NameText_nonempty, raw_name_nonempty.
Qed.

Lemma QualifiedNameSegments_join fuel names :
  names <> [] -> Forall (fun n => raw_name n = true) names -> (length names <= fuel)%nat ->
  QualifiedNameSegments_go fuel (join SEP (map NameText names)) = Some names.
Proof.
  intros Hne HF. revert fuel. induction HF as [|n names Hn HF IH]; [done|]. clear Hne.
  intros [|fuel]; [cbn; lia|]. intros Hfuel. cbn [length] in Hfuel.
  destruct names as [|m names].
  - cbn [map join QualifiedNameSegments_go]. rewrite <- (app_nil_r (NameText n)).
    rewrite readName_NameText by auto. done.
  - rewrite map_cons, join_cons by done. cbn [QualifiedNameSegments_go].
    rewrite readName_NameText by eauto. cbn [negb].
    change (SEP ++ ?r) with (":"%ch :: ":"%ch :: r). cbv iota beta.
    cbn [has_prefix SEP Z.eqb Pos.eqb andb negb drop].
    rewrite IH; [done|done|cbn [length] in *; lia].
Qed.

Lemma MemberPathSegments_join fuel names :
  names <> [] -> Forall (fun n => raw_name n = true) names -> (length names <= fuel)%nat ->
  MemberPathSegments_go fuel (join (bs ".") (map NameText names)) = Some names.
Proof.
  intros Hne HF. revert fuel. induction HF as [|n names Hn HF IH]; [done|]. clear Hne.
  intros [|fuel]; [cbn; lia|]. intros Hfuel. cbn [length] in Hfuel.
  destruct names as [|m names].
  - cbn [map join MemberPathSegments_go]. rewrite <- (app_nil_r (NameText n)).
    rewrite readBasic_NameText by done. done.
  - rewrite map_cons, join_cons by done. cbn [MemberPathSegments_go].
    rewrite readBasic_NameText by done. cbn [negb].
    assert (Hjne : join (bs ".") (map NameText (m :: names)) <> []).
    { intros E. pose proof (join_length (bs ".") _ (NameTexts_nonempty _ HF)) as Hl.
      rewrite E in Hl. cbn in Hl. lia. }
    destruct (join (bs ".") (map NameText (m :: names))) as [|c r] eqn:E; [done|].
    change (bs "." ++ ?r) with ("."%ch :: r). cbv iota beta.
    cbn [has_prefix Z.eqb Pos.eqb andb negb drop orb].
    assert (beq ("."%ch :: c :: r) (bs ".") = false) as -> by (by apply beq_false).
    change (has_prefix ("."%ch :: c :: r) (bs ".")) with true. cbn [negb orb].
    rewrite IH; [done|done|cbn [length] in *; lia].
Qed.

(** Names written as a qualified name, or as a member path, are read back
    exactly: one holding [::] or a quote stays one name. *)
Lemma path_segments_roundtrip names :
  names <> [] -> Forall (fun n => raw_name n = true) names ->
  QualifiedNameSegments (QualifiedNameOf names) = Some names
  /\ MemberPathSegments (MemberPathOf names) = Some names.
Proof.
  intros Hne HF. pose proof (NameTexts_nonempty _ HF) as Hw. split.
  - apply QualifiedNameSegments_join; [done..|].
    pose proof (join_length SEP _ Hw) as Hl. rewrite length_map in Hl. unfold QualifiedNameOf. lia.
  - apply MemberPathSegments_join; [done..|].
    pose proof (join_length (bs ".") _ Hw) as Hl. rewrite length_map in Hl. unfold MemberPathOf. lia.
Qed.

Lemma path_segments_roundtrip_witness :
  QualifiedNameSegments (QualifiedNameOf [bs "a::b"; bs "part"; bs "it\'s"; bs "x1"])
    = Some [bs "a::b"; bs "part"; bs "it\'s"; bs "x1"]
  /\ MemberPathSegments (MemberPathOf [bs "a::b"; bs "part"; bs "it\'s"; bs "x1"])
    = Some [bs "a::b"; bs "part"; bs "it\'s"; bs "x1"].
Proof. apply path_segments_roundtrip; [discriminate|repeat constructor]. Defined.

(** ** References of a typing *)

(** What may follow one reference: nothing, or the comma before the next. *)
Definition after_ref (rest : bytes) : Prop := rest = [] \/ exists r, rest = bs ", " ++ r.

Lemma after_ref_name rest : after_ref rest -> after_name rest.
Proof. by intros [->|[r ->]]. Qed.

Lemma read_reference_join fuel names acc chain rest :
  names <> [] -> Forall (fun n => raw_name n = true) names -> after_ref rest ->
  (length names <= fuel)%nat ->
  read_reference fuel (QualifiedNameOf names ++ rest) acc chain = Some (acc ++ names, chain, rest).
Proof.
  intros Hne HF Hrest. revert fuel acc. induction HF as [|n names Hn HF IH]; [done|]. clear Hne.
  intros [|fuel] acc; [cbn; lia|]. intros Hfuel. cbn [length] in Hfuel. unfold QualifiedNameOf in *.
  destruct names as [|m names].
  - cbn [map join read_reference].
    rewrite readBasic_NameText by (done || by apply after_ref_name).
    by destruct Hrest as [->|[r ->]].
  - rewrite map_cons, join_cons, <- !app_assoc by done. cbn [read_reference].
    rewrite readBasic_NameText by done. cbn [negb].
    change (has_prefix (SEP ++ ?r) SEP) with true. cbv iota.
    change (drop 2 (SEP ++ ?r)) with r.
    rewrite IH by (done || cbn [length] in *; lia). by rewrite <- app_assoc.
Qed.

Lemma strip_lead_name n names rest :
  raw_name n = true ->
  strip_lead (QualifiedNameOf (n :: names) ++ rest) = QualifiedNameOf (n :: names) ++ rest
  /\ has_prefix (QualifiedNameOf (n :: names) ++ rest) (bs "~") = false.
Proof.
  intros Hn.
  assert (exists c r, QualifiedNameOf (n :: names) ++ rest = c :: r /\ c <> "~"%ch /\ c <> "$"%ch)
    as (c & r & -> & Ht & Hd).
  { enough (exists c r, NameText n = c :: r /\ c <> "~"%ch /\ c <> "$"%ch) as (c & r & E & Ht & Hd).
    { unfold QualifiedNameOf. destruct names as [|m names];
        cbn [map join]; rewrite E; cbn [app]; eauto. }
    unfold NameText. destruct (IsIdentifier n && negb _) eqn:Hid; [|cbn; eauto].
    apply andb_true_iff in Hid as [Hid _].
    destruct (identifier_shape _ Hid) as (c & s & -> & Hc & _).
    destruct (ident_start_facts _ Hc) as (_ & ? & ? & _). eauto. }
  assert (Hp : has_prefix (c :: r) (bs "~") = false).
  { cbn. by destruct (Z.eqb_spec c 126). }
  split; [|done]. unfold strip_lead, trim_prefix. rewrite Hp. cbn.
  by destruct (Z.eqb_spec c 36).
Qed.

Definition raw_ref (names : list bytes) : Prop :=
  names <> [] /\ Forall (fun n => raw_name n = true) names.

Lemma raw_ref_text names rest :
  raw_ref names ->
  (length names <= length (QualifiedNameOf names ++ rest))%nat
  /\ QualifiedNameOf names <> [].
Proof.
  intros [Hne HF]. pose proof (join_length SEP _ (NameTexts_nonempty _ HF)) as Hl.
  rewrite length_map in Hl. unfold QualifiedNameOf. rewrite length_app. split; [lia|].
  intros E. rewrite E in Hl. destruct names; cbn in Hl; [done|lia].
Qed.

Lemma one_reference names rest :
  raw_ref names -> after_ref rest ->
  has_prefix (QualifiedNameOf names ++ rest) (bs "~") = false /\
  read_reference (S (length (QualifiedNameOf names ++ rest)))
    (strip_lead (QualifiedNameOf names ++ rest)) [] false = Some (names, false, rest).
Proof.
  intros Hr Hrest. pose proof (raw_ref_text names rest Hr) as [Hl _]. destruct Hr as [Hne HF].
  destruct names as [|n names]; [done|]. inversion HF; subst.
  destruct (strip_lead_name n names rest) as [Hs Hp]; [done|]. rewrite Hs, Hp.
  split; [done|]. rewrite read_reference_join by (done || lia). done.
Qed.

Lemma reference_lists fuel refs :
  refs <> [] -> Forall raw_ref refs -> (length refs <= fuel)%nat ->
  ReferenceQualifiedNames_go fuel (join (bs ", ") (map QualifiedNameOf refs)) = Some refs
  /\ ReferenceEndNames_go fuel (join (bs ", ") (map QualifiedNameOf refs))
     = Some (map (fun names => NameText (default [] (last names))) refs).
Proof.
  intros Hne HF. revert fuel. induction HF as [|n refs Hn HF IH]; [done|]. clear Hne.
  intros [|fuel]; [cbn; lia|]. intros Hfuel. cbn [length] in Hfuel.
  destruct refs as [|m refs].
  - cbn [map join]. destruct (one_reference n [] Hn ltac:(by left)) as [Hp Hr].
    rewrite app_nil_r in Hp, Hr.
    cbn [ReferenceQualifiedNames_go ReferenceEndNames_go]. by rewrite Hp, Hr.
  - rewrite map_cons, join_cons by done.
    set (more := join (bs ", ") (map QualifiedNameOf (m :: refs))) in *.
    destruct (one_reference n (bs ", " ++ more) Hn ltac:(right; eauto)) as [Hp Hr].
    cbn [ReferenceQualifiedNames_go ReferenceEndNames_go]. rewrite Hp, Hr.
    change (bs ", " ++ more) with (","%ch :: " "%ch :: more).
    change (has_prefix (","%ch :: " "%ch :: more) (bs ", ")) with true. cbn [negb drop].
    rewrite drop_0. destruct (IH ltac:(done) fuel) as [-> ->]; [cbn [length] in *; lia|]. done.
Qed.

(** A list of references written as the notation writes it is read back as
    the same qualified names, and [ReferenceEndNames] keeps of each the name it
    ends in. *)
Lemma references_roundtrip refs :
  refs <> [] -> Forall raw_ref refs ->
  ReferenceQualifiedNames (join (bs ", ") (map QualifiedNameOf refs)) = refs
  /\ ReferenceEndNames (join (bs ", ") (map QualifiedNameOf refs))
     = join (bs ", ") (map (fun names => NameText (default [] (last names))) refs).
Proof.
  intros Hne HF.
  assert (Hl : (length refs <= S (length (join (bs ", ") (map QualifiedNameOf refs))))%nat).
  { pose proof (join_length (bs ", ") (map QualifiedNameOf refs)) as Hj.
    rewrite length_map in Hj. enough (Forall (fun w => w <> []) (map QualifiedNameOf refs)) by
      (specialize (Hj ltac:(done)); lia).
    apply Forall_map. eapply Forall_impl; [done|]. intros n Hn. by apply (raw_ref_text n [] Hn). }
  destruct (reference_lists _ refs Hne HF Hl) as [H1 H2].
  unfold ReferenceQualifiedNames, ReferenceEndNames. by rewrite H1, H2.
Qed.

Lemma references_roundtrip_witness :
  ReferenceQualifiedNames (join (bs ", ") (map QualifiedNameOf [[bs "A"; bs "b c"]; [bs "x"]]))
    = [[bs "A"; bs "b c"]; [bs "x"]]
  /\ ReferenceEndNames (join (bs ", ") (map QualifiedNameOf [[bs "A"; bs "b c"]; [bs "x"]]))
    = join (bs ", ") (map (fun names => NameText (default [] (last names)))
                        [[bs "A"; bs "b c"]; [bs "x"]]).
Proof.
  apply references_roundtrip; [discriminate|].
  repeat constructor; discriminate.
Defined.

(** ** Keywords *)

Lemma in_set_forall (P : bytes -> bool) l s :
  forallb P l = true -> in_set s l = true -> P s = true.
Proof.
  rewrite forallb_forall. intros H Hs. unfold in_set in Hs. apply existsb_exists in Hs as (x & Hx & E).
  apply beq_true in E as ->. by apply H.
Qed.

(** Every keyword set holds identifiers only, and what either language reserves
    the scanner reserves, the KerML contextual word [var] apart. *)
Theorem keyword_sets s kind :
  IsKeywordIn s kind = true ->
  IsIdentifier s = true /\ (IsKeyword s = true \/ (kind = KindKerML /\ s = bs "var")).
Proof.
  intros Hs. unfold IsKeywordIn in Hs.
  assert (H : (IsIdentifier s && (IsKeyword s || (bool_decide (kind = KindKerML) && beq s (bs "var")))) = true).
  { revert Hs. apply (in_set_forall (fun s => IsIdentifier s &&
      (IsKeyword s || (bool_decide (kind = KindKerML) && beq s (bs "var"))))).
    destruct kind; vm_compute; reflexivity. }
  apply andb_true_iff in H as [H1 H2]. split; [done|].
  apply orb_true_iff in H2 as [H2|H2]; [by left|right].
  apply andb_true_iff in H2 as [H2 H3]. apply bool_decide_eq_true in H2. by apply beq_true in H3.
Qed.

Lemma keyword_sets_witness :
  IsIdentifier (bs "var") = true
  /\ (IsKeyword (bs "var") = true \/ (KindKerML = KindKerML /\ bs "var" = bs "var")).
Proof. apply (keyword_sets (bs "var") KindKerML). vm_compute. reflexivity. Defined.

(** The union the comment of [keywordsUnion] describes leaves out the KerML
    keyword [var]. *)
Lemma keyword_union_omits_var :
  IsKeywordIn (bs "var") KindKerML = true /\ IsKeyword (bs "var") = false
  /\ IsKeywordIn (bs "var") KindUnknown = false.
Proof. by vm_compute. Qed.
