(* ===== verification/Comment.v ===== *)
(** * Comment text

    Models [internal/syntax/source/comment.go]: the body a [/* */] comment gives
    its element, with the offsets its bytes came from, and the writer that
    spells a body as a comment. *)
From S2P Require Import Prelude Bytes Source.
Local Open Scope Z_scope.

(** White space other than line terminators. *)
Definition commentSpace : bytes := [" "%ch; TAB; FF].

(** [mappedByte]: a body byte and its index in the raw comment. *)
Abbreviation mappedByte := (Z * nat)%type.
Abbreviation mline := (list mappedByte).

(** The line loop of [CommentBodyOffsets] over [raw[i:end]]; [line] is the line
    read so far. *)
Fixpoint comment_lines (i : nat) (text : bytes) (line : mline) : list mline :=
  match text with
  | [] => [line]
  | c :: text' =>
      if c =? CR then
        match text' with
        | d :: text'' =>
            if d =? NL then line :: comment_lines (S (S i)) text'' []
            else line :: comment_lines (S i) text' []
        | [] => line :: comment_lines (S i) text' []
        end
      else if c =? NL then line :: comment_lines (S i) text' []
      else comment_lines (S i) text' (line ++ [(c, i)])
  end.

Fixpoint trimLeftMapped (line : mline) (cutset : bytes) : mline :=
  match line with
  | m :: line' => if elem m.1 cutset then trimLeftMapped line' cutset else line
  | [] => []
  end.

(** A later line loses its initial white space, then a star, then one space. *)
Definition strip_margin (line : mline) : mline :=
  match trimLeftMapped line commentSpace with
  | (c, at_) :: line' =>
      if c =? "*"%ch then
        match line' with
        | (d, at') :: line'' => if d =? " "%ch then line'' else line'
        | [] => []
        end
      else (c, at_) :: line'
  | [] => []
  end.

Definition strip_lines (lines : list mline) : list mline :=
  match lines with
  | [] => []
  | l0 :: rest =>
      let lines' := trimLeftMapped l0 commentSpace :: map strip_margin rest in
      match lines' with
      | [] :: (_ :: _) as rest' => rest'
      | _ => lines'
      end
  end.

(** The scan of [lineBreakOffset]: the first line break of [raw[i:i+n]]. *)
Fixpoint break_in (raw : bytes) (i n : nat) : option nat :=
  match n with
  | O => None
  | S n' =>
      match raw !! i with
      | Some c => if (c =? NL) || (c =? CR) then Some i else break_in raw (S i) n'
      | None => None
      end
  end.

Definition lineBreakOffset (raw : bytes) (start stop : nat) (offsets : list nat) (next : mline) : nat :=
  let from := match last offsets with Some o => S o | None => start end in
  let limit := match next with m :: _ => m.2 | [] => stop end in
  default from (break_in raw from (limit - from)).

(** The joining loop: [body] and [offsets] so far; every line but the first
    opens with the break it was joined by. *)
Fixpoint join_lines (raw : bytes) (start stop : nat) (first : bool) (lines : list mline)
    (body : bytes) (offsets : list nat) : bytes * list nat :=
  match lines with
  | [] => (body, offsets ++ [stop])
  | line :: rest =>
      let '(body, offsets) :=
        if first then (body, offsets)
        else (body ++ [NL], offsets ++ [lineBreakOffset raw start stop offsets line]) in
      join_lines raw start stop false rest (body ++ line.*1) (offsets ++ line.*2)
  end.

(** The delimiters come off: where the body starts and ends in [raw]. *)
Definition comment_start (raw : bytes) : nat := if has_prefix raw (bs "/*") then 2 else 0.
Definition comment_stop (raw : bytes) : nat :=
  if (2 <=? length raw - comment_start raw)%nat && has_suffix raw (bs "*/")
  then (length raw - 2)%nat else length raw.

Definition CommentBodyOffsets (raw : bytes) : bytes * list nat :=
  let start := comment_start raw in
  let stop := comment_stop raw in
  join_lines raw start stop true
    (strip_lines (comment_lines start (slice raw start stop) [])) [] [].

Definition CommentBody (raw : bytes) : bytes := (CommentBodyOffsets raw).1.

(** One line of [CommentText]'s loop. *)
Definition margin_line (indent : bytes) (is_last : bool) (line : bytes) : bytes :=
  if is_last && beq line [] then [NL] ++ indent ++ bs " "
  else if beq line [] then [NL] ++ indent ++ bs " *"
  else [NL] ++ indent ++ bs " * " ++ line.

Fixpoint margin_lines (indent : bytes) (lines : list bytes) : bytes :=
  match lines with
  | [] => []
  | line :: rest => margin_line indent (match rest with [] => true | _ => false end) line
                    ++ margin_lines indent rest
  end.

Definition CommentText (body indent : bytes) : option bytes :=
  if contains body (bs "*/") || contains body [CR] then None
  else if beq body [] then Some (bs "/* */")
  else
    let lines := split_byte NL body in
    let l0 := default [] (head lines) in
    let '(opened, lines) :=
      if negb (beq l0 []) && beq (trim_left commentSpace l0) l0
      then (bs "/*" ++ bs " " ++ l0, tail lines) else (bs "/*", lines) in
    Some (opened ++ margin_lines indent lines ++ bs "*/").
