(* ===== verification/CommentFacts.v ===== *)
(** * Comment text: properties

    A body written as a comment is the body read back, and every body byte maps
    back onto the raw text it came from. *)
From S2P Require Import Prelude Bytes Source Comment.
Local Open Scope Z_scope.

(** ** The body without its offsets *)

Lemma join_lines_body raw start stop first lines body offsets :
  (join_lines raw start stop first lines body offsets).1
    = body ++ (if first then [] else match lines with [] => [] | _ => [NL] end)
           ++ join [NL] (map (fmap fst) lines).
Proof.
  revert first body offsets. induction lines as [|line lines IH]; intros first body offsets.
  { cbn. by destruct first; rewrite !app_nil_r. }
  cbn [join_lines]. destruct first.
  - rewrite IH. cbn [map]. destruct lines as [|l2 lines].
    + cbn. by rewrite !app_nil_r.
    + cbn [map]. rewrite (join_cons [NL] (line.*1)) by done. by rewrite <- !app_assoc.
  - rewrite IH. cbn [map]. destruct lines as [|l2 lines].
    + cbn. by rewrite !app_nil_r, <- app_assoc.
    + cbn [map]. rewrite (join_cons [NL] (line.*1)) by done. by rewrite <- !app_assoc.
Qed.

(** The lines of a text without carriage returns are its pieces between breaks. *)
Lemma comment_lines_split i text line :
  CR ∉ text ->
  map (fmap fst) (comment_lines i text line) =
    match split_byte NL text with [] => [] | w :: ws => (line.*1 ++ w) :: ws end.
Proof.
  revert i line. induction text as [|c text IH]; intros i line Hcr; cbn [comment_lines split_byte].
  { cbn. by rewrite app_nil_r. }
  destruct (Z.eqb_spec c CR) as [->|_]; [set_solver|].
  pose proof (split_byte_nonempty NL text) as Hne.
  assert (Hcr' : CR ∉ text) by set_solver.
  destruct (Z.eqb_spec c NL) as [->|Hc].
  - cbn [map]. rewrite IH by done. cbn. rewrite app_nil_r. by destruct (split_byte NL text).
  - rewrite IH by done. rewrite fmap_app. cbn.
    destruct (split_byte NL text); [done|]. by rewrite <- app_assoc.
Qed.

(** The trimming of lines, on bytes alone. *)
Definition strip_margin_bytes (line : bytes) : bytes :=
  match trim_left commentSpace line with
  | c :: line' =>
      if c =? "*"%ch then
        match line' with
        | d :: line'' => if d =? " "%ch then line'' else line'
        | [] => []
        end
      else c :: line'
  | [] => []
  end.

Lemma trimLeftMapped_bytes line cutset :
  (trimLeftMapped line cutset).*1 = trim_left cutset (line.*1).
Proof. induction line as [|[c n] line IH]; [done|]. cbn. by destruct (elem c cutset). Qed.

Lemma strip_margin_bytes_eq line : (strip_margin line).*1 = strip_margin_bytes (line.*1).
Proof.
  unfold strip_margin, strip_margin_bytes. rewrite <- trimLeftMapped_bytes.
  destruct (trimLeftMapped line commentSpace) as [|[c n] l]; [done|]. cbn.
  destruct (c =? 42); [|done]. destruct l as [|[d m] l]; [done|]. cbn. by destruct (d =? 32).
Qed.

(** ** Round trip *)

(** The text a comment margin is made of. *)
Definition blank (s : bytes) : Prop := Forall (fun c => elem c commentSpace = true) s.

Lemma trim_left_blank s t : blank s -> trim_left commentSpace (s ++ t) = trim_left commentSpace t.
Proof. induction 1 as [|c s Hc Hs IH]; [done|]. cbn [app trim_left]. by rewrite Hc. Qed.

Lemma strip_margin_line indent is_last line :
  blank indent ->
  strip_margin_bytes (tail (margin_line indent is_last line)) = line.
Proof.
  intros Hi. unfold strip_margin_bytes, margin_line.
  destruct (beq line []) eqn:El; rewrite ?andb_false_r; cbn [andb].
  - apply beq_true in El as ->. destruct is_last; cbn [app tail andb];
      rewrite trim_left_blank by done; done.
  - cbn [app tail]. rewrite trim_left_blank by done. done.
Qed.

(** A margin line is a line break and a text without one. *)
Lemma margin_line_shape indent is_last line :
  blank indent -> NL ∉ line -> CR ∉ line ->
  margin_line indent is_last line = [NL] ++ tail (margin_line indent is_last line)
  /\ (NL ∉ tail (margin_line indent is_last line))
  /\ (CR ∉ tail (margin_line indent is_last line)).
Proof.
  intros Hi Hnl Hcr.
  assert (Hin : (NL ∉ indent) /\ (CR ∉ indent)).
  { unfold blank in Hi. rewrite Forall_forall in Hi.
    split; intros H; specialize (Hi _ H); by vm_compute in Hi. }
  destruct Hin. unfold margin_line.
  destruct (is_last && beq line []); [|destruct (beq line [])]; cbn [app tail];
    repeat split; rewrite ?elem_of_app; cbn; set_solver.
Qed.

Lemma margin_lines_join indent lines :
  blank indent -> Forall (fun l => NL ∉ l) lines -> Forall (fun l => CR ∉ l) lines ->
  exists rendered,
    margin_lines indent lines = concat (map (fun l => [NL] ++ l) rendered)
    /\ Forall (fun l => NL ∉ l) rendered /\ Forall (fun l => CR ∉ l) rendered
    /\ map strip_margin_bytes rendered = lines.
Proof.
  intros Hi Hnl Hcr. induction lines as [|line rest IH]; [exists []; done|].
  inversion Hnl; inversion Hcr; subst.
  cbn [margin_lines].
  destruct IH as (rendered & -> & R1 & R2 & R3); [done..|].
  set (il := match rest with [] => true | _ => false end).
  destruct (margin_line_shape indent il line) as (Hs & Hn & Hc); [done..|].
  exists (tail (margin_line indent il line) :: rendered). split_and!.
  - cbn [map concat]. by rewrite Hs at 1.
  - by constructor.
  - by constructor.
  - cbn [map]. by rewrite strip_margin_line, R3.
Qed.

Lemma join_breaks first rendered :
  first ++ concat (map (fun l => [NL] ++ l) rendered) = join [NL] (first :: rendered).
Proof.
  revert first. induction rendered as [|r rendered IH]; intros first.
  { cbn. by rewrite app_nil_r. }
  cbn [map concat]. rewrite join_cons by done. rewrite <- IH. by rewrite <- !app_assoc.
Qed.

Lemma comment_delimiters inner :
  let raw := bs "/*" ++ inner ++ bs "*/" in
  comment_start raw = 2%nat /\ slice raw (comment_start raw) (comment_stop raw) = inner.
Proof.
  intros raw.
  assert (Hs : comment_start raw = 2%nat) by reflexivity.
  assert (Hlen : length raw = (length inner + 4)%nat).
  { unfold raw. rewrite !length_app. cbn. lia. }
  assert (Hsuf : has_suffix raw (bs "*/") = true).
  { apply has_suffix_spec. exists (bs "/*" ++ inner). unfold raw. by rewrite app_assoc. }
  split; [done|]. unfold comment_stop. rewrite Hs, Hsuf, andb_true_r, Hlen.
  destruct (2 <=? length inner + 4 - 2)%nat eqn:E; [|apply Nat.leb_gt in E; lia].
  unfold slice. replace (length inner + 4 - 2 - 2)%nat with (length inner) by lia.
  unfold raw. change (drop 2 (bs "/*" ++ ?x)) with (drop 0 x).
  rewrite drop_0, take_app_le, take_ge by lia. done.
Qed.

Lemma join_no_cr l : Forall (fun l => CR ∉ l) l -> CR ∉ join [NL] l.
Proof.
  induction 1 as [|w l Hw Hl IH]; [apply not_elem_of_nil|].
  destruct l as [|v l]; [done|]. rewrite join_cons by done. rewrite !elem_of_app. set_solver.
Qed.

(** The body of a comment whose inner text has the given lines. *)
Lemma CommentBody_lines first rendered :
  Forall (fun l => NL ∉ l) (first :: rendered) -> Forall (fun l => CR ∉ l) (first :: rendered) ->
  CommentBody (bs "/*" ++ join [NL] (first :: rendered) ++ bs "*/")
    = match trim_left commentSpace first, rendered with
      | [], _ :: _ => join [NL] (map strip_margin_bytes rendered)
      | f, _ => join [NL] (f :: map strip_margin_bytes rendered)
      end.
Proof.
  intros Hnl Hcr. set (inner := join [NL] (first :: rendered)).
  assert (Hinner : CR ∉ inner).
  { by apply join_no_cr. }
  destruct (comment_delimiters inner) as [Hs Hsl].
  unfold CommentBody, CommentBodyOffsets. rewrite join_lines_body, Hsl. cbn [app].
  pose proof (comment_lines_split (comment_start (bs "/*" ++ inner ++ bs "*/")) inner [] Hinner) as Hl.
  assert (Hsj : split_byte NL inner = first :: rendered) by (by apply split_byte_join).
  rewrite Hsj in Hl. cbn [fmap list_fmap app] in Hl.
  destruct (comment_lines _ inner []) as [|l0 ls]; [done|]. cbn [map] in Hl.
  injection Hl as Hl0 Hls. unfold strip_lines.
  assert (Hmap : map (fmap fst) (map strip_margin ls) = map strip_margin_bytes rendered).
  { rewrite <- Hls, !map_map. apply map_ext. apply strip_margin_bytes_eq. }
  assert (H0 : (trimLeftMapped l0 commentSpace).*1 = trim_left commentSpace first).
  { by rewrite trimLeftMapped_bytes, Hl0. }
  destruct (trimLeftMapped l0 commentSpace) as [|m l0'] eqn:E0.
  - rewrite <- H0. cbn [fmap list_fmap]. destruct ls as [|l1 ls]; cbn [map] in *.
    + apply (f_equal (@length _)) in Hls. by destruct rendered.
    + destruct rendered; [done|]. rewrite <- Hmap. done.
  - rewrite <- H0. cbn [fmap list_fmap]. cbn [map]. rewrite Hmap. by destruct rendered.
Qed.

Lemma contains_byte (s : bytes) c : contains s [c] = elem c s.
Proof.
  unfold contains. induction s as [|d s IH]; [done|]. cbn [index elem existsb has_prefix].
  rewrite andb_true_r, (Z.eqb_sym c d). destruct (d =? c) eqn:E.
  - by apply bool_decide_eq_true.
  - cbn [orb]. change (existsb (Z.eqb c) s) with (elem c s). rewrite <- IH.
    apply bool_decide_ext. by rewrite fmap_is_Some.
Qed.

Lemma split_byte_elem sep s c w : w ∈ split_byte sep s -> c ∈ w -> c ∈ s.
Proof.
  revert w. induction s as [|d s IH]; intros w; cbn [split_byte].
  { intros ->%list_elem_of_singleton. done. }
  pose proof (split_byte_nonempty sep s) as Hne.
  destruct (d =? sep).
  - intros [->|Hw]%elem_of_cons Hc; [by apply not_elem_of_nil in Hc|]. right. by eapply IH.
  - destruct (split_byte sep s) as [|v vs]; [done|].
    intros [->|Hw]%elem_of_cons Hc.
    + apply elem_of_cons in Hc as [->|Hc]; [by left|]. right. eapply IH; [by left|done].
    + right. eapply IH; [by right|done].
Qed.

(** A body that can be written as a comment is read back exactly, whatever
    its line structure, leading white space or stars, under any margin. *)
Lemma CommentText_roundtrip body indent text :
  blank indent -> CommentText body indent = Some text -> CommentBody text = body.
Proof.
  intros Hi. unfold CommentText.
  destruct (contains body (bs "*/") || contains body [CR]) eqn:Ec; [done|].
  apply orb_false_iff in Ec as [_ Hcr]. rewrite contains_byte in Hcr.
  destruct (beq body []) eqn:Eb.
  { apply beq_true in Eb as ->. by intros [= <-]. }
  set (lines := split_byte NL body).
  assert (Hnl : Forall (fun l => NL ∉ l) lines) by apply split_byte_pieces.
  assert (Hnocr : Forall (fun l => CR ∉ l) lines).
  { apply Forall_forall. intros w Hw Hin. apply not_true_iff_false in Hcr. apply Hcr.
    apply elem_spec. by eapply split_byte_elem. }
  assert (Hjoin : join [NL] lines = body) by apply join_split_byte.
  assert (Hne : lines <> []) by apply split_byte_nonempty.
  destruct lines as [|l0 lines']; [done|]. cbn [head default from_option id tail].
  inversion Hnl as [|? ? Hnl0 Hnl']; inversion Hnocr as [|? ? Hcr0 Hcr']; subst.
  destruct (negb (beq l0 []) && beq (trim_left commentSpace l0) l0) eqn:Ef;
    intros Htext; apply (inj Some) in Htext; subst text.
  - apply andb_true_iff in Ef as [E0 Et]. apply negb_true_iff, beq_false in E0. apply beq_true in Et.
    destruct (margin_lines_join indent lines') as (rendered & -> & R1 & R2 & R3); [done..|].
    rewrite <- !app_assoc. rewrite (app_assoc (bs " ")), (app_assoc (bs " " ++ l0)), join_breaks.
    rewrite CommentBody_lines.
    + change (trim_left commentSpace (bs " " ++ l0)) with (trim_left commentSpace l0).
      rewrite Et, R3. by destruct l0, rendered.
    + constructor; [|done]. rewrite elem_of_app. cbn. set_solver.
    + constructor; [|done]. rewrite elem_of_app. cbn. set_solver.
  - destruct (margin_lines_join indent (l0 :: lines')) as (rendered & -> & R1 & R2 & R3); [done..|].
    rewrite <- (app_nil_l (concat _ ++ _)), (app_assoc []), join_breaks.
    rewrite CommentBody_lines by (constructor; [apply not_elem_of_nil|done]).
    cbn [trim_left]. destruct rendered; [done|]. by rewrite R3.
Qed.

Lemma CommentText_roundtrip_witness :
  CommentBody (bs "/* a" ++ [NL] ++ bs "  *   b" ++ [NL] ++ bs "  */") = bs "a" ++ [NL] ++ bs "  b" ++ [NL].
Proof.
  apply (CommentText_roundtrip _ (bs " ")); [repeat constructor|]. vm_compute. reflexivity.
Defined.

(** ** Provenance *)

Definition is_break (c : Z) : bool := (c =? NL) || (c =? CR).

Local Open Scope nat_scope.

(** Bytes of one line: at increasing indices of [raw] in [lo, hi), none a break. *)
Inductive entries_ok (raw : bytes) : nat -> nat -> mline -> Prop :=
  | entries_nil lo hi : entries_ok raw lo hi []
  | entries_cons lo hi c i line :
      lo <= i < hi -> raw !! i = Some c -> is_break c = false ->
      entries_ok raw (S i) hi line -> entries_ok raw lo hi ((c, i) :: line).

(** Lines of [raw[lo:hi]], each one followed by a break before the next. *)
Inductive lines_ok (raw : bytes) : nat -> nat -> list mline -> Prop :=
  | lines_one lo hi line :
      lo <= hi -> entries_ok raw lo hi line -> lines_ok raw lo hi [line]
  | lines_more lo hi brk c next line rest :
      lo <= brk -> brk < next -> next <= hi ->
      raw !! brk = Some c -> is_break c = true ->
      entries_ok raw lo brk line -> lines_ok raw next hi rest ->
      lines_ok raw lo hi (line :: rest).

Lemma entries_weaken raw lo lo' hi line :
  lo' <= lo -> entries_ok raw lo hi line -> entries_ok raw lo' hi line.
Proof. intros Hlo. destruct 1; econstructor; eauto; lia. Qed.

Lemma entries_tail raw lo hi m line : entries_ok raw lo hi (m :: line) -> entries_ok raw lo hi line.
Proof. inversion 1; subst. eapply entries_weaken; [|done]. lia. Qed.

Lemma entries_snoc raw lo i hi line c :
  entries_ok raw lo i line -> lo <= i -> i < hi -> raw !! i = Some c -> is_break c = false ->
  entries_ok raw lo hi (line ++ [(c, i)]).
Proof.
  intros H. induction H as [lo hi'|lo hi' d j line Hj Hr Hb H IH]; intros; cbn.
  - econstructor; [lia|done..|constructor].
  - econstructor; [lia|done..|]. apply IH; done || lia.
Qed.

Lemma entries_hi raw lo hi hi' line :
  hi <= hi' -> entries_ok raw lo hi line -> entries_ok raw lo hi' line.
Proof. intros Hh. induction 1; econstructor; eauto; lia. Qed.

Lemma lines_weaken raw lo lo' hi lines :
  lo' <= lo -> lines_ok raw lo hi lines -> lines_ok raw lo' hi lines.
Proof.
  intros Hlo. destruct 1.
  - constructor; [lia|]. by eapply entries_weaken.
  - eapply lines_more; [| |done|done|done| |done]; [lia|lia|]. by eapply entries_weaken.
Qed.

(** The line loop cuts the text at its breaks. *)
Lemma comment_lines_ok raw lo i line text :
  entries_ok raw lo i line -> lo <= i ->
  (forall n c, text !! n = Some c -> raw !! (i + n) = Some c) ->
  lines_ok raw lo (i + length text) (comment_lines i text line).
Proof.
  remember (length text) as k eqn:Hk. revert i lo line text Hk.
  induction k as [k IH] using lt_wf_ind; intros i lo line text -> He Hlo Hraw.
  destruct text as [|c text]; cbn [comment_lines].
  { constructor; cbn; [lia|]. eapply entries_hi; [|done]. lia. }
  assert (H0 : raw !! i = Some c) by (rewrite <- (Nat.add_0_r i); by apply Hraw).
  assert (Hnext : forall n d, text !! n = Some d -> raw !! (S i + n) = Some d).
  { intros n d Hn. replace (S i + n) with (i + S n) by lia. by apply Hraw. }
  assert (Hone : is_break c = true ->
            lines_ok raw lo (i + length (c :: text)) (line :: comment_lines (S i) text [])).
  { intros Hb. eapply (lines_more raw lo _ i c (S i)); cbn [length]; try lia; try done.
    replace (i + S (length text)) with (S i + length text) by lia.
    eapply (IH (length text)); cbn; try lia; [constructor|exact Hnext]. }
  destruct (Z.eqb_spec c CR) as [->|Hcr].
  - destruct text as [|d text]; [by apply Hone|].
    destruct (Z.eqb_spec d NL) as [->|]; [|by apply Hone].
    eapply (lines_more raw lo _ i CR (S (S i))); cbn [length]; try lia; try done.
    replace (i + S (S (length text))) with (S (S i) + length text) by lia.
    eapply (IH (length text)); cbn; try lia; [constructor|].
    intros n e Hn. change (raw !! (S (S i) + n) = Some e).
    replace (S (S i) + n) with (i + S (S n)) by lia. by apply Hraw.
  - destruct (Z.eqb_spec c NL) as [->|Hnl]; [by apply Hone|].
    cbn [length]. replace (i + S (length text)) with (S i + length text) by lia.
    eapply (IH (length text)); cbn; try lia; [|exact Hnext].
    eapply entries_snoc; eauto. unfold is_break. lia.
Qed.

Lemma trimLeftMapped_ok raw lo hi line cutset :
  entries_ok raw lo hi line -> entries_ok raw lo hi (trimLeftMapped line cutset).
Proof.
  revert lo. induction line as [|m line IH]; intros lo H; [done|]. cbn.
  destruct (elem m.1 cutset); [|done]. apply IH. by eapply entries_tail.
Qed.

Lemma strip_margin_ok raw lo hi line :
  entries_ok raw lo hi line -> entries_ok raw lo hi (strip_margin line).
Proof.
  intros H%(trimLeftMapped_ok _ _ _ _ commentSpace). unfold strip_margin.
  destruct (trimLeftMapped line commentSpace) as [|[c n] l]; [done|].
  destruct (Z.eqb c 42); [|done]. apply entries_tail in H.
  destruct l as [|[d m] l]; [constructor|]. destruct (Z.eqb d 32); [|done]. by eapply entries_tail.
Qed.

Lemma map_strip_ok raw lo hi lines :
  lines_ok raw lo hi lines -> lines_ok raw lo hi (map strip_margin lines).
Proof.
  induction 1; cbn [map].
  - constructor; [done|]. by apply strip_margin_ok.
  - eapply lines_more; eauto. by apply strip_margin_ok.
Qed.

Lemma strip_lines_ok raw lo hi lines :
  lines_ok raw lo hi lines -> lines_ok raw lo hi (strip_lines lines).
Proof.
  intros H. unfold strip_lines. destruct H as [lo hi line Hle He|lo hi brk c next line rest H1 H2 H3 H4 H5 He Hr].
  - cbn [map]. destruct (trimLeftMapped line commentSpace) eqn:E;
      constructor; try done; rewrite <- E; by apply trimLeftMapped_ok.
  - pose proof (map_strip_ok _ _ _ _ Hr) as Hm.
    assert (Hall : lines_ok raw lo hi (trimLeftMapped line commentSpace :: map strip_margin rest)).
    { eapply lines_more; eauto. by apply trimLeftMapped_ok. }
    destruct (trimLeftMapped line commentSpace); [|done].
    destruct (map strip_margin rest) eqn:E; [done|]. eapply lines_weaken; [|done]. lia.
Qed.

Lemma break_in_spec raw from n b c :
  from <= b < from + n -> raw !! b = Some c -> is_break c = true ->
  exists o d, break_in raw from n = Some o /\ from <= o <= b /\ raw !! o = Some d /\ is_break d = true.
Proof.
  revert from. induction n as [|n IH]; intros from Hb Hc Hbr; [lia|]. cbn [break_in].
  destruct (lookup_lt_is_Some_2 raw from) as [e He].
  { apply lookup_lt_Some in Hc. lia. }
  rewrite He. fold (is_break e). destruct (is_break e) eqn:Ee.
  - exists from, e. split_and!; done || lia.
  - destruct (decide (from = b)) as [->|]; [congruence|].
    destruct (IH (S from)) as (o & d & H1 & H2 & H3 & H4); [lia|done..|].
    exists o, d. split_and!; done || lia.
Qed.

(** A body byte stands for the raw byte at its offset: itself, or a break. *)
Definition stands_for (raw : bytes) (b : Z) (o : nat) : Prop :=
  exists c, raw !! o = Some c /\
    (if is_break c then b = NL else b = c).

Lemma entries_stand raw lo hi line :
  entries_ok raw lo hi line ->
  Forall2 (stands_for raw) line.*1 line.*2 /\ StronglySorted lt line.*2
  /\ Forall (fun o => lo <= o < hi) line.*2.
Proof.
  induction 1 as [|lo hi c i line Hi Hr Hb H (IH1 & IH2 & IH3)]; cbn; [by repeat constructor|].
  split_and!.
  - constructor; [|done]. exists c. by rewrite Hb.
  - constructor; [done|]. eapply Forall_impl; [done|]. cbn. lia.
  - constructor; [lia|]. eapply Forall_impl; [done|]. cbn. lia.
Qed.

Definition next_from (start : nat) (offsets : list nat) : nat :=
  match last offsets with Some o => S o | None => start end.

(** What the joining loop keeps: the bytes written so far stand for raw bytes at
    strictly increasing offsets, all before [bound]. *)
Definition joined (raw body : list Z) (start bound : nat) (offsets : list nat) : Prop :=
  Forall2 (stands_for raw) body offsets /\ StronglySorted lt offsets
  /\ Forall (fun o => o < bound) offsets /\ (offsets <> [] \/ start <= bound).

Lemma joined_from raw body start bound offsets :
  joined raw body start bound offsets -> next_from start offsets <= bound.
Proof.
  intros (_ & _ & Hb & Hs). unfold next_from. destruct (last offsets) as [o|] eqn:E.
  - apply last_Some_elem_of in E. rewrite Forall_forall in Hb. by apply Hb in E.
  - apply last_None in E. destruct Hs; done.
Qed.

Lemma joined_app raw body start bound offsets lo hi line :
  joined raw body start bound offsets -> bound <= lo -> lo <= hi -> entries_ok raw lo hi line ->
  joined raw (body ++ line.*1) start hi (offsets ++ line.*2).
Proof.
  intros (H1 & H2 & H3 & H4) Hlo Hhi He. destruct (entries_stand _ _ _ _ He) as (E1 & E2 & E3).
  split_and!.
  - by apply Forall2_app.
  - apply StronglySorted_app. split_and!; [|done..].
    intros x y Hx Hy. rewrite Forall_forall in H3, E3. specialize (H3 _ Hx). specialize (E3 _ Hy). lia.
  - apply Forall_app. split; (eapply Forall_impl; [done|]); cbn; lia.
  - destruct H4 as [H4|H4]; [left; by destruct offsets|right; lia].
Qed.

Lemma joined_break raw body start bound offsets stop line lo brk c :
  joined raw body start bound offsets -> bound <= brk -> brk < lo -> lo <= stop ->
  raw !! brk = Some c -> is_break c = true -> (line = [] \/ exists hi, entries_ok raw lo hi line) ->
  joined raw (body ++ [NL]) start lo (offsets ++ [lineBreakOffset raw start stop offsets line]).
Proof.
  intros Hj Hb Hlo Hst Hc Hbr Hline. pose proof (joined_from _ _ _ _ _ Hj) as Hfrom.
  assert (exists o d, lineBreakOffset raw start stop offsets line = o
            /\ next_from start offsets <= o <= brk /\ raw !! o = Some d /\ is_break d = true)
    as (o & d & -> & Ho & Hd & Hbd).
  { unfold lineBreakOffset. fold (next_from start offsets).
    set (limit := match line with m :: _ => m.2 | [] => stop end).
    assert (Hlim : brk < limit).
    { unfold limit. destruct line as [|m line]; [lia|]. destruct Hline as [|[hi He]]; [done|].
      inversion He; subst. cbn. lia. }
    destruct (break_in_spec raw (next_from start offsets) (limit - next_from start offsets) brk c)
      as (o & d & E & H1 & H2 & H3); [lia|done..|]. rewrite E. exists o, d. split_and!; done || lia. }
  destruct Hj as (H1 & H2 & H3 & H4). split_and!.
  - apply Forall2_app; [done|]. constructor; [|done]. exists d. by rewrite Hbd.
  - apply StronglySorted_app. split_and!; [|done|repeat constructor].
    intros x y Hx ->%list_elem_of_singleton.
    unfold next_from in Ho. destruct (last offsets) as [m|] eqn:E.
    + assert (x <= m); [|lia]. apply last_Some in E as [l' ->].
      apply StronglySorted_app in H2 as (H2 & _ & _).
      apply elem_of_app in Hx as [Hx|Hx].
      * specialize (H2 x m Hx ltac:(by apply list_elem_of_singleton)). lia.
      * apply list_elem_of_singleton in Hx. lia.
    + apply last_None in E as ->. by apply not_elem_of_nil in Hx.
  - apply Forall_app. split; [|repeat constructor; lia]. eapply Forall_impl; [done|]. cbn. lia.
  - left. by destruct offsets.
Qed.

Lemma lines_le raw lo hi lines : lines_ok raw lo hi lines -> lo <= hi.
Proof. induction 1; lia. Qed.

(** After a break, the remaining lines are joined behind it. *)
Lemma join_lines_rest raw body start brk c next stop lines offsets :
  joined raw body start brk offsets -> raw !! brk = Some c -> is_break c = true -> brk < next ->
  lines_ok raw next stop lines ->
  exists offsets',
    (join_lines raw start stop false lines body offsets).2 = offsets' ++ [stop]
    /\ joined raw (join_lines raw start stop false lines body offsets).1 start stop offsets'.
Proof.
  intros Hj Hc Hb Hn Hl. revert body brk c offsets Hj Hc Hb Hn.
  induction Hl as [lo hi line Hle He|lo hi brk' c' next line rest H1 H2 H3 H4 H5 He Hr IH];
    intros body brk c offsets Hj Hc Hb Hn; cbn [join_lines].
  - eexists. cbn [fst snd]. split; [done|]. eapply joined_app; [|reflexivity|done|done].
    eapply joined_break; eauto.
  - apply (IH _ brk' c'); [|done..]. apply (joined_app _ _ _ lo _ lo brk'); [|lia|lia|done].
    pose proof (lines_le _ _ _ _ Hr). eapply (joined_break _ _ _ brk); eauto; lia.
Qed.

Lemma join_lines_first raw start stop lo lines :
  start <= lo -> lines_ok raw lo stop lines ->
  exists offsets',
    (join_lines raw start stop true lines [] []).2 = offsets' ++ [stop]
    /\ joined raw (join_lines raw start stop true lines [] []).1 start stop offsets'.
Proof.
  intros Hlo Hl.
  assert (Hnil : joined raw [] start lo []) by (split_and!; [constructor..|by right]).
  destruct Hl as [lo hi line Hle He|lo hi brk c next line rest H1 H2 H3 H4 H5 He Hr]; cbn [join_lines].
  - eexists. split; [done|]. by eapply joined_app; [exact Hnil| |done|done].
  - eapply (join_lines_rest _ _ _ brk); [|done|done|done|done].
    by eapply joined_app; [exact Hnil| |done|done].
Qed.

Lemma comment_bounds raw :
  comment_start raw <= comment_stop raw /\ comment_stop raw <= length raw.
Proof.
  unfold comment_stop.
  assert (comment_start raw <= length raw).
  { unfold comment_start. destruct (has_prefix raw (bs "/*")) eqn:E; [|lia].
    apply has_prefix_spec in E as [t ->]. rewrite length_app. cbn. lia. }
  destruct (_ && _) eqn:E; [|lia]. apply andb_true_iff in E as [E _]. apply Nat.leb_le in E. lia.
Qed.

(** Whatever the raw comment text, [CommentBodyOffsets] returns one offset
    per body byte and one more, where the body ends; the offsets strictly
    increase, and each body byte is the raw byte at its offset, or a line feed
    whose offset is a carriage return or a line feed of the raw text. *)
Theorem CommentBodyOffsets_provenance raw :
  exists offsets,
    (CommentBodyOffsets raw).2 = offsets ++ [comment_stop raw]
    /\ Forall2 (stands_for raw) (CommentBody raw) offsets
    /\ StronglySorted lt (offsets ++ [comment_stop raw]).
Proof.
  destruct (comment_bounds raw) as [B1 B2].
  assert (Hl : lines_ok raw (comment_start raw) (comment_stop raw)
            (strip_lines (comment_lines (comment_start raw)
               (slice raw (comment_start raw) (comment_stop raw)) []))).
  { apply strip_lines_ok.
    assert (Hlen : comment_stop raw = comment_start raw
              + length (slice raw (comment_start raw) (comment_stop raw)))
      by (rewrite length_slice by done; lia).
    rewrite Hlen at 1. apply comment_lines_ok; [constructor|lia|].
    intros n c Hc. pose proof (lookup_lt_Some _ _ _ Hc) as Hn.
    rewrite length_slice in Hn by done. by rewrite slice_lookup in Hc. }
  destruct (join_lines_first _ _ _ _ _ (Nat.le_refl _) Hl) as (offsets & E & H1 & H2 & H3 & _).
  exists offsets. split_and!; [done..|]. apply StronglySorted_app.
  split_and!; [|done|repeat constructor].
  intros x y Hx ->%list_elem_of_singleton. rewrite Forall_forall in H3. by apply H3.
Qed.

(** Finding: after an empty first line the break of the body maps to the break
    of the dropped line, not to the one right before the next line. *)
Lemma CommentBodyOffsets_dropped_break :
  CommentBodyOffsets (bs "/*" ++ [NL] ++ [NL] ++ bs "a*/") = ([NL; "a"%ch], [2; 4; 5]).
Proof. reflexivity. Qed.
