(* ===== verification/Lexer.v ===== *)
(** * The lexer

    Models [internal/syntax/lexer]: the token kinds ([token.go]), the scanner
    ([lexer.go]), the keyword table and the locator of bad escapes
    ([keywords.go]), the contextual words ([contextual.go]), the test of a
    declared name ([name.go]) and of a number ([number.go]).

    A [Lexer] is its content and its position; a scan function is a function
    from both to the token and the position after it. *)
From S2P Require Import Prelude Bytes Source.
Local Open Scope Z_scope.

(** ** Tokens *)

Inductive Kind :=
  | Invalid | EOF
  | Identifier | UnrestrictedName | String | Decimal | Real
  | Whitespace | SLNote | MLNote | RegularComment
  | Question | QuestionQ | Pipe | Amp | EqEq | NotEq | EqEqEq | NotEqEq | At | AtAt
  | Lt | Gt | Le | Ge | DotDot | Plus | Minus | Star | Slash | Percent | StarStar
  | Caret | Tilde | Dot | Hash | LParen | RParen | LBracket | RBracket | Arrow
  | DotQuestion | Comma | ColonColon | Dollar | Eq | LBrace | RBrace | Semicolon
  | Colon | ColonEq | ColonGt | ColonGtGt | ColonColonGt | EqGt
  | Keyword | Error.
#[export] Instance token_kind_eq_dec : EqDecision Kind.
Proof. solve_decision. Defined.

(** [kindNames]. *)
Definition Kind_String (k : Kind) : bytes :=
  bs match k with
  | Invalid => "Invalid" | EOF => "EOF" | Identifier => "Identifier"
  | UnrestrictedName => "UnrestrictedName" | String => "String"
  | Decimal => "Decimal" | Real => "Real" | Whitespace => "Whitespace"
  | SLNote => "SLNote" | MLNote => "MLNote" | RegularComment => "RegularComment"
  | Question => "?" | QuestionQ => "??" | Pipe => "|" | Amp => "&"
  | EqEq => "==" | NotEq => "!=" | EqEqEq => "===" | NotEqEq => "!=="
  | At => "@" | AtAt => "@@" | Lt => "<" | Gt => ">" | Le => "<=" | Ge => ">="
  | DotDot => ".." | Plus => "+" | Minus => "-" | Star => "*" | Slash => "/"
  | Percent => "%" | StarStar => "**" | Caret => "^" | Tilde => "~" | Dot => "."
  | Hash => "#" | LParen => "(" | RParen => ")" | LBracket => "[" | RBracket => "]"
  | Arrow => "->" | DotQuestion => ".?" | Comma => "," | ColonColon => "::"
  | Dollar => "$" | Eq => "=" | LBrace => "{" | RBrace => "}" | Semicolon => ";"
  | Colon => ":" | ColonEq => ":=" | ColonGt => ":>" | ColonGtGt => ":>>"
  | ColonColonGt => "::>" | EqGt => "=>" | Keyword => "Keyword" | Error => "Error"
  end%string.

Record Token := {
  tkKind : Kind;
  tkSpan : Span;
  KeywordID : bytes;
  Unterminated : bool;
  BadEscape : bool
}.

Definition IsTrivia (t : Token) : bool :=
  match t.(tkKind) with Whitespace | SLNote | MLNote => true | _ => false end.

(** ** The scanner *)

Record Lexer := { src : bytes; pos : nat }.

Definition New (content : bytes) : Lexer := {| src := content; pos := 0 |}.

Definition span (start stop : nat) : Span := {| Offset := start; Len := stop - start |}.

(** A token of a kind from [start] to the position reached. *)
Definition token (k : Kind) (start stop : nat) : Token * nat :=
  ({| tkKind := k; tkSpan := span start stop; KeywordID := []; Unterminated := false;
      BadEscape := false |}, stop).

Definition peek (src : bytes) (pos n : nat) : Z := default 0 (src !! (pos + n)%nat).

Definition isDigit (c : Z) : bool := ("0"%ch <=? c) && (c <=? "9"%ch).

Definition isSpace (c : Z) : bool :=
  (c =? " "%ch) || (c =? TAB) || (c =? CR) || (c =? NL).

(** The fixed bytes of [canStartToken]. *)
Definition punctuation : bytes :=
  [":"; "-"; "."; "*"; "="; "!"; "<"; ">"; "?"; "@"; "/"; "|"; "&"; "+"; "%"; "^"; "~";
   "#"; "("; ")"; "["; "]"; "{"; "}"; ","; "$"; ";"]%ch.

Definition canStartToken (c : Z) : bool :=
  if isSpace c then true
  else if IsIdentStart c then true
  else if isDigit c then true
  else if (c =? "'"%ch) || (c =? DQ) then true
  else elem c punctuation.

Definition singleCharKind (c : Z) : option Kind :=
  if c =? "|"%ch then Some Pipe else if c =? "&"%ch then Some Amp
  else if c =? "+"%ch then Some Plus else if c =? "%"%ch then Some Percent
  else if c =? "^"%ch then Some Caret else if c =? "~"%ch then Some Tilde
  else if c =? "#"%ch then Some Hash else if c =? "("%ch then Some LParen
  else if c =? ")"%ch then Some RParen else if c =? "["%ch then Some LBracket
  else if c =? "]"%ch then Some RBracket else if c =? "{"%ch then Some LBrace
  else if c =? "}"%ch then Some RBrace else if c =? ","%ch then Some Comma
  else if c =? "$"%ch then Some Dollar else if c =? ";"%ch then Some Semicolon
  else None.

Definition scanError (src : bytes) (start : nat) : Token * nat :=
  token Error start (advance_while (fun c => negb (canStartToken c)) src (S start)).

Definition scanWhitespace (src : bytes) (start : nat) : Token * nat :=
  token Whitespace start (advance_while isSpace src start).

Definition not_break (c : Z) : bool := negb (c =? NL) && negb (c =? CR).

Definition scanSLNote (src : bytes) (start : nat) : Token * nat :=
  let p := advance_while not_break src (start + 2) in
  let p := if bool_decide (src !! p = Some CR) then S p else p in
  let p := if bool_decide (src !! p = Some NL) then S p else p in
  token SLNote start p.

(** [consumeUntilStarSlash] over the bytes from [pos]: the position reached and
    whether a closing delimiter was consumed. *)
Fixpoint star_slash (rest : bytes) (pos : nat) : nat * bool :=
  match rest with
  | [] => (pos, false)
  | c :: rest' =>
      if (c =? "*"%ch) && (default 0 (head rest') =? "/"%ch) then (pos + 2, true)%nat
      else star_slash rest' (S pos)
  end.
Definition consumeUntilStarSlash (src : bytes) (pos : nat) : nat * bool :=
  star_slash (drop pos src) pos.

Definition comment_token (k : Kind) (start : nat) (consumed : nat * bool) : Token * nat :=
  ({| tkKind := k; tkSpan := span start consumed.1; KeywordID := [];
      Unterminated := negb consumed.2; BadEscape := false |}, consumed.1).

Definition scanMLNote (src : bytes) (start : nat) : Token * nat :=
  comment_token MLNote start (consumeUntilStarSlash src (start + 3)).
Definition scanBlockComment (src : bytes) (start : nat) : Token * nat :=
  comment_token RegularComment start (consumeUntilStarSlash src (start + 2)).

(** The loop of [scanQuoted] over the bytes from [pos]. [line_end] is the first
    line break passed with [badEscape] as it was there. *)
Record quoted_end := {
  q_pos : nat; q_closed : bool; q_bad : bool; q_line : option (nat * bool) }.

Definition mark_line (line : option (nat * bool)) (c : Z) (pos : nat) (bad : bool) :=
  match line with
  | Some _ => line
  | None => if (c =? NL) || (c =? CR) then Some (pos, bad) else None
  end.

Fixpoint quoted_loop (quote : Z) (rest : bytes) (pos : nat) (bad : bool)
    (line : option (nat * bool)) : quoted_end :=
  match rest with
  | [] => {| q_pos := pos; q_closed := false; q_bad := bad; q_line := line |}
  | c :: rest' =>
      if c =? "\"%ch then
        match rest' with
        | [] => {| q_pos := S pos; q_closed := false; q_bad := bad; q_line := line |}
        | next :: rest'' =>
            quoted_loop quote rest'' (S (S pos)) (bad || negb (IsEscapeChar next))
              (mark_line line next (S pos) bad)
        end
      else if c =? quote then
        {| q_pos := S pos; q_closed := true; q_bad := bad; q_line := line |}
      else quoted_loop quote rest' (S pos) bad (mark_line line c pos bad)
  end.

Definition scanQuoted (src : bytes) (start : nat) (quote : Z) (k : Kind) : Token * nat :=
  let e := quoted_loop quote (drop (S start) src) (S start) false None in
  if e.(q_closed) then
    ({| tkKind := k; tkSpan := span start e.(q_pos); KeywordID := []; Unterminated := false;
        BadEscape := e.(q_bad) |}, e.(q_pos))
  else
    let '(p, bad) := match e.(q_line) with
                     | Some (line_end, bad_on_line) => (line_end, bad_on_line)
                     | None => (e.(q_pos), e.(q_bad))
                     end in
    ({| tkKind := k; tkSpan := span start p; KeywordID := []; Unterminated := true;
        BadEscape := bad |}, p).

Definition scanIdentOrKeyword (src : bytes) (start : nat) : Token * nat :=
  let p := advance_while IsIdentCont src (S start) in
  let text := slice src start p in
  if in_set text Keywords then
    ({| tkKind := Keyword; tkSpan := span start p; KeywordID := text; Unterminated := false;
        BadEscape := false |}, p)
  else token Identifier start p.

Definition consumeDigits (src : bytes) (pos : nat) : nat := advance_while isDigit src pos.

(** The position after an exponent, and whether there was one. *)
Definition consumeExponent (src : bytes) (pos : nat) : nat * bool :=
  match src !! pos with
  | None => (pos, false)
  | Some c =>
      if negb (c =? "e"%ch) && negb (c =? "E"%ch) then (pos, false)
      else
        let i := S pos in
        let i := match src !! i with
                 | Some s => if (s =? "+"%ch) || (s =? "-"%ch) then S i else i
                 | None => i
                 end in
        match src !! i with
        | Some d => if isDigit d then (consumeDigits src i, true) else (pos, false)
        | None => (pos, false)
        end
  end.

Definition scanNumber (src : bytes) (start : nat) : Token * nat :=
  if bool_decide (src !! start = Some "."%ch) then
    token Real start (consumeExponent src (consumeDigits src (S start))).1
  else
    let p := consumeDigits src start in
    let '(p, isReal) :=
      match src !! p, src !! S p with
      | Some c, Some d =>
          if (c =? "."%ch) && isDigit d then (consumeDigits src (S p), true) else (p, false)
      | _, _ => (p, false)
      end in
    let '(p, isExp) := consumeExponent src p in
    token (if isReal || isExp then Real else Decimal) start p.

(** The operator switch of [Next]: kind and length, longest match first. *)
Definition operator (c p1 p2 : Z) : option (Kind * nat) :=
  if c =? ":"%ch then
    Some (if p1 =? ":"%ch then (if p2 =? ">"%ch then (ColonColonGt, 3%nat) else (ColonColon, 2%nat))
          else if p1 =? "="%ch then (ColonEq, 2%nat)
          else if p1 =? ">"%ch then (if p2 =? ">"%ch then (ColonGtGt, 3%nat) else (ColonGt, 2%nat))
          else (Colon, 1%nat))
  else if c =? "-"%ch then Some (if p1 =? ">"%ch then (Arrow, 2%nat) else (Minus, 1%nat))
  else if c =? "."%ch then
    Some (if p1 =? "?"%ch then (DotQuestion, 2%nat)
          else if p1 =? "."%ch then (DotDot, 2%nat) else (Dot, 1%nat))
  else if c =? "*"%ch then Some (if p1 =? "*"%ch then (StarStar, 2%nat) else (Star, 1%nat))
  else if c =? "="%ch then
    Some (if (p1 =? "="%ch) && (p2 =? "="%ch) then (EqEqEq, 3%nat)
          else if p1 =? "="%ch then (EqEq, 2%nat)
          else if p1 =? ">"%ch then (EqGt, 2%nat) else (Eq, 1%nat))
  else if c =? "!"%ch then
    Some (if (p1 =? "="%ch) && (p2 =? "="%ch) then (NotEqEq, 3%nat)
          else if p1 =? "="%ch then (NotEq, 2%nat) else (Error, 1%nat))
  else if c =? "<"%ch then Some (if p1 =? "="%ch then (Le, 2%nat) else (Lt, 1%nat))
  else if c =? ">"%ch then Some (if p1 =? "="%ch then (Ge, 2%nat) else (Gt, 1%nat))
  else if c =? "?"%ch then Some (if p1 =? "?"%ch then (QuestionQ, 2%nat) else (Question, 1%nat))
  else if c =? "@"%ch then Some (if p1 =? "@"%ch then (AtAt, 2%nat) else (At, 1%nat))
  else if c =? "/"%ch then Some (Slash, 1%nat)
  else None.

Definition next_token (src : bytes) (pos : nat) : Token * nat :=
  match src !! pos with
  | None => ({| tkKind := EOF; tkSpan := {| Offset := length src; Len := 0 |}; KeywordID := [];
                Unterminated := false; BadEscape := false |}, pos)
  | Some c =>
      let p1 := peek src pos 1 in
      let p2 := peek src pos 2 in
      if isSpace c then scanWhitespace src pos
      else if (c =? "/"%ch) && (p1 =? "/"%ch) && (p2 =? "*"%ch) then scanMLNote src pos
      else if (c =? "/"%ch) && (p1 =? "/"%ch) then scanSLNote src pos
      else if (c =? "/"%ch) && (p1 =? "*"%ch) then scanBlockComment src pos
      else if IsIdentStart c then scanIdentOrKeyword src pos
      else if c =? "'"%ch then scanQuoted src pos "'"%ch UnrestrictedName
      else if ("0"%ch <=? c) && (c <=? "9"%ch) then scanNumber src pos
      else if (c =? "."%ch) && ("0"%ch <=? p1) && (p1 <=? "9"%ch) then scanNumber src pos
      else if c =? DQ then scanQuoted src pos DQ String
      else match operator c p1 p2 with
           | Some (k, n) => token k pos (pos + n)
           | None =>
               match singleCharKind c with
               | Some k => token k pos (S pos)
               | None => scanError src pos
               end
           end
  end.

Definition Next (lx : Lexer) : Token * Lexer :=
  let '(t, p) := next_token lx.(src) lx.(pos) in
  (t, {| src := lx.(src); pos := p |}).

(** Pulling tokens up to and including the end of input. *)
Fixpoint tokens (fuel : nat) (lx : Lexer) : option (list Token) :=
  match fuel with
  | O => None
  | S fuel' =>
      let '(t, lx') := Next lx in
      if decide (t.(tkKind) = EOF) then Some [t] else cons t <$> tokens fuel' lx'
  end.

(** ** Around the scanner *)

(** The loop of [InvalidEscapes] from index [i] of the raw text. *)
Fixpoint invalid_escapes (offset i : nat) (raw : bytes) : list Span :=
  match raw with
  | [] => []
  | c :: raw' =>
      match raw' with
      | [] => []
      | e :: raw'' =>
          if negb (c =? "\"%ch) then invalid_escapes offset (S i) raw'
          else (if IsEscapeChar e then [] else [{| Offset := offset + i; Len := 2 |}])
               ++ invalid_escapes offset (S (S i)) raw''
      end
  end.
Definition InvalidEscapes (tok : Span) (raw : bytes) : list Span :=
  invalid_escapes tok.(Offset) 0 raw.

Definition contextualWords : list bytes :=
  map bs ["chain"; "choice"; "deep"; "done"; "history"; "junction"; "shallow"]%string.
Definition contextualKerMLWords : list bytes := [bs "var"].

(** [sort.Strings] is the stable sort by byte order. *)
Definition ContextualWords (kind : Source.Kind) : list bytes :=
  merge_sort bytes_le
    (contextualWords ++ match kind with KindSysML => [] | _ => contextualKerMLWords end).

Definition NotASingleName : bytes := bs "is not a single name".

(** [""] is a name with no problem. *)
Definition NameProblem (name : bytes) : bytes :=
  if beq name [] then bs "is empty"
  else if IsKeyword name then bs "is a keyword"
  else
    let tok := (Next (New name)).1 in
    if negb (bool_decide (tok.(tkKind) = Identifier))
       && negb (bool_decide (tok.(tkKind) = UnrestrictedName)) then bs "is not an identifier"
    else if tok.(Unterminated) then bs "is an unterminated quoted name"
    else if negb (tok.(tkSpan).(Len) =? length name)%nat then NotASingleName
    else [].

Definition isNumberToken (s : bytes) (kind : Kind) : bool :=
  let tok := (Next (New s)).1 in
  bool_decide (tok.(tkKind) = kind) && (tok.(tkSpan).(Len) =? length s)%nat.
Definition IsDecimalValue (s : bytes) : bool := isNumberToken s Decimal.
Definition IsRealValue (s : bytes) : bool := isNumberToken s Real.
