(* ===== verification/LexerFacts.v ===== *)
(** * The lexer: properties

    The tokens tile the source; an operator token is the longest one; a quoted
    token is the quoted text, its bad escapes those [InvalidEscapes] locates;
    the tests of names and numbers accept exactly the notation's. *)
From S2P Require Import Prelude Bytes Source SourceFacts Comment Lexer.
Local Open Scope nat_scope.

(** ** Progress and tiling *)

(** What every scan from [start] returns: a token spanning from [start] to the
    position reached, past [start] and within the source. *)
Definition scanned (src : bytes) (start : nat) (r : Token * nat) : Prop :=
  tkSpan r.1 = span start r.2 /\ start < r.2 <= length src /\ tkKind r.1 <> EOF.

Create HintDb lexer.
#[export] Hint Resolve advance_while_le : lexer.

Lemma scanned_token src k start stop :
  start < stop <= length src -> k <> EOF -> scanned src start (token k start stop).
Proof. done. Qed.

Lemma advance_in (p : Z -> bool) (src : bytes) start i :
  start < i -> i <= length src -> start < advance_while p src i <= length src.
Proof.
  intros. pose proof (advance_while_ge p src i).
  pose proof (advance_while_le p src i ltac:(done)). lia.
Qed.

Lemma peek_bound src pos n c :
  (peek src pos n = c)%Z -> (c <> 0)%Z -> pos + n < length src.
Proof.
  unfold peek. intros <- Hc. destruct (src !! (pos + n)) eqn:E; [|done].
  by apply lookup_lt_Some in E.
Qed.

Lemma scanWhitespace_scanned src start c :
  src !! start = Some c -> isSpace c = true -> scanned src start (scanWhitespace src start).
Proof.
  intros Hc Hs. pose proof (lookup_lt_Some _ _ _ Hc). apply scanned_token; [|done].
  rewrite advance_while_step, Hc, Hs. apply advance_in; lia.
Qed.

Lemma scanSLNote_scanned src start :
  start + 1 < length src -> scanned src start (scanSLNote src start).
Proof.
  intros H. apply scanned_token; [|done].
  pose proof (advance_in not_break src start (start + 2)) as Hp.
  set (p := advance_while not_break src (start + 2)) in *.
  assert (Hstep : forall (q : nat) (x : Z), start < q <= length src ->
            start < (if bool_decide (src !! q = Some x) then S q else q) <= length src).
  { intros q x Hq. case_bool_decide as E; [|lia]. apply lookup_lt_Some in E. lia. }
  by do 2 apply Hstep; apply Hp; lia.
Qed.

Lemma star_slash_bounds rest pos :
  pos <= (star_slash rest pos).1 <= pos + length rest.
Proof.
  revert pos. induction rest as [|c rest IH]; intros pos; cbn [star_slash]; [cbn; lia|].
  destruct (_ && _) eqn:E.
  - destruct rest; [cbn in E; by rewrite andb_false_r in E|]. cbn. lia.
  - specialize (IH (S pos)). cbn [length]. lia.
Qed.

Lemma comment_scanned src k start n :
  k <> EOF -> start < start + n <= length src ->
  scanned src start (comment_token k start (consumeUntilStarSlash src (start + n))).
Proof.
  intros Hk Hn. split; [done|]. split; [|done]. cbn. unfold consumeUntilStarSlash.
  pose proof (star_slash_bounds (drop (start + n) src) (start + n)) as H.
  rewrite length_drop in H. lia.
Qed.

(** The bounds of the quoted loop: where it stops and the line end it keeps. *)
Lemma quoted_loop_bounds q rest pos bad line :
  (forall p b, line = Some (p, b) -> p <= pos) ->
  let e := quoted_loop q rest pos bad line in
  pos <= q_pos e <= pos + length rest
  /\ (forall p b, q_line e = Some (p, b) -> line = Some (p, b) \/ pos <= p <= pos + length rest).
Proof.
  remember (length rest) as n eqn:Hn. revert rest pos bad line Hn.
  induction n as [n IH] using lt_wf_ind; intros rest pos bad line -> Hl.
  assert (Hmark : forall c i b, pos <= i -> forall p b', mark_line line c i b = Some (p, b') ->
            line = Some (p, b') \/ p = i).
  { intros c i b Hi p b'. unfold mark_line. destruct line as [[]|]; [by left|].
    destruct (_ || _); [|done]. intros [= -> _]. by right. }
  destruct rest as [|c rest]; cbn [quoted_loop]; [cbn; split; [lia|]; by left|].
  destruct (c =? "\"%ch)%Z.
  - destruct rest as [|d rest]; cbn [length]; [cbn; split; [lia|]; by left|].
    destruct (IH (length rest) ltac:(cbn; lia) rest (S (S pos)) (bad || negb (IsEscapeChar d))
      (mark_line line d (S pos) bad) eq_refl) as [H1 H2].
    { intros p b H. destruct (Hmark _ (S pos) _ ltac:(lia) _ _ H) as [E| ->]; [|lia].
      specialize (Hl _ _ E). lia. }
    split; [lia|]. intros p b H. destruct (H2 p b H) as [E|]; [|right; lia].
    destruct (Hmark _ (S pos) _ ltac:(lia) _ _ E) as [?|?]; [by left|right; lia].
  - destruct (c =? q)%Z; [cbn; split; [lia|]; by left|].
    destruct (IH (length rest) ltac:(cbn; lia) rest (S pos) bad (mark_line line c pos bad) eq_refl)
      as [H1 H2].
    { intros p b H. destruct (Hmark _ pos _ ltac:(lia) _ _ H) as [E| ->]; [|lia].
      specialize (Hl _ _ E). lia. }
    cbn [length]. split; [lia|]. intros p b H. destruct (H2 p b H) as [E|]; [|right; lia].
    destruct (Hmark _ pos _ ltac:(lia) _ _ E) as [?|?]; [by left|right; lia].
Qed.

Lemma scanQuoted_scanned src start q k :
  k <> EOF -> start < length src -> scanned src start (scanQuoted src start q k).
Proof.
  intros Hk Hs. unfold scanQuoted.
  destruct (quoted_loop_bounds q (drop (S start) src) (S start) false None) as [H1 H2]; [done|].
  rewrite length_drop in H1, H2.
  set (e := quoted_loop _ _ _ _ _) in *. destruct (q_closed e).
  - split; [done|]. split; [cbn; lia|done].
  - destruct (q_line e) as [[p b]|]; (split; [done|]); (split; [cbn|done]).
    + destruct (H2 p b eq_refl) as [|]; [done|lia].
    + lia.
Qed.

Lemma scanIdent_scanned src start :
  start < length src -> scanned src start (scanIdentOrKeyword src start).
Proof.
  intros Hs. unfold scanIdentOrKeyword.
  pose proof (advance_in IsIdentCont src start (S start) ltac:(lia) ltac:(lia)).
  destruct (in_set _ _); (split; [done|]); (split; [cbn; lia|done]).
Qed.

Lemma consumeExponent_bounds src p :
  p <= length src -> p <= (consumeExponent src p).1 <= length src.
Proof.
  intros Hp. unfold consumeExponent. destruct (src !! p) as [c|] eqn:Hc; [|cbn; lia].
  destruct (_ && _); [cbn; lia|].
  set (i := match src !! S p with Some s => _ | None => _ end).
  assert (Hi : S p <= i) by (unfold i; destruct (src !! S p); [destruct (_ || _)|]; lia).
  destruct (src !! i) as [d|] eqn:Hd; [|cbn; lia].
  destruct (isDigit d); [|cbn; lia]. apply lookup_lt_Some in Hd. cbn [fst]. unfold consumeDigits.
  pose proof (advance_while_ge isDigit src i). pose proof (advance_while_le isDigit src i). lia.
Qed.

Lemma consumeDigits_bounds src p :
  p <= length src -> p <= consumeDigits src p <= length src.
Proof.
  intros. unfold consumeDigits. pose proof (advance_while_ge isDigit src p).
  pose proof (advance_while_le isDigit src p). lia.
Qed.

Lemma scanNumber_scanned src start c :
  src !! start = Some c -> (c = "."%ch \/ isDigit c = true) ->
  scanned src start (scanNumber src start).
Proof.
  intros Hc Hcd. pose proof (lookup_lt_Some _ _ _ Hc) as Hlt. unfold scanNumber.
  case_bool_decide as Edot.
  - apply scanned_token; [|done].
    pose proof (consumeDigits_bounds src (S start)).
    pose proof (consumeExponent_bounds src (consumeDigits src (S start))). lia.
  - destruct Hcd as [->|Hd]; [done|].
    assert (Hint : start < consumeDigits src start <= length src).
    { unfold consumeDigits. rewrite advance_while_step, Hc, Hd. by apply advance_in; lia. }
    set (p := consumeDigits src start) in *.
    destruct (match src !! p with Some c => _ | None => _ end) as [p' r'] eqn:E.
    assert (Hp' : start < p' <= length src).
    { destruct (src !! p) as [x|]; [|by simplify_eq]. destruct (src !! S p) as [y|] eqn:Ey; [|by simplify_eq].
      destruct (_ && _); simplify_eq; [|done]. apply lookup_lt_Some in Ey.
      pose proof (consumeDigits_bounds src (S p)). lia. }
    pose proof (consumeExponent_bounds src p') as He.
    destruct (consumeExponent src p') as [p'' x']. cbn in He.
    apply scanned_token; [lia|]. by destruct (r' || x').
Qed.

Lemma operator_bounds src pos c k n :
  src !! pos = Some c -> operator c (peek src pos 1) (peek src pos 2) = Some (k, n) ->
  0 < n /\ pos + n <= length src /\ k <> EOF.
Proof.
  intros Hc. apply lookup_lt_Some in Hc.
  assert (H1 : forall x, (peek src pos 1 =? x)%Z = true -> (x <> 0)%Z -> pos + 1 < length src).
  { intros x Hx Hx0. apply Z.eqb_eq in Hx. by eapply peek_bound. }
  assert (H2 : forall x, (peek src pos 2 =? x)%Z = true -> (x <> 0)%Z -> pos + 2 < length src).
  { intros x Hx Hx0. apply Z.eqb_eq in Hx. by eapply peek_bound. }
  unfold operator. intros H.
  repeat match type of H with
  | (if ?b then _ else _) = _ => destruct b eqn:?
  | Some _ = Some _ => apply (inj Some) in H
  end; try done; simplify_eq; bool_split;
  repeat match goal with
  | E : (peek src pos 1 =? _)%Z = true |- _ => apply H1 in E; [|done]
  | E : (peek src pos 2 =? _)%Z = true |- _ => apply H2 in E; [|done]
  end; (split; [lia|split; [lia|done]]).
Qed.

Lemma next_token_scanned src pos c :
  src !! pos = Some c -> scanned src pos (next_token src pos).
Proof.
  intros Hc. pose proof (lookup_lt_Some _ _ _ Hc) as Hlt. unfold next_token. rewrite Hc.
  assert (Hp : forall n x, (peek src pos n =? x)%Z = true -> (x <> 0)%Z -> pos + n < length src).
  { intros n x Hx Hx0. apply Z.eqb_eq in Hx. by eapply peek_bound. }
  destruct (isSpace c) eqn:E1; [by eapply scanWhitespace_scanned|].
  destruct ((c =? 47) && (peek src pos 1 =? 47) && (peek src pos 2 =? 42))%Z eqn:E2.
  { bool_split. apply comment_scanned; [done|].
    assert (pos + 2 < length src) by (eapply Hp; done). lia. }
  destruct ((c =? 47) && (peek src pos 1 =? 47))%Z eqn:E3.
  { bool_split. apply scanSLNote_scanned. by eapply Hp. }
  destruct ((c =? 47)%Z && (peek src pos 1 =? 42)%Z) eqn:E4.
  { bool_split. apply comment_scanned; [done|].
    assert (pos + 1 < length src) by (eapply Hp; done). lia. }
  destruct (IsIdentStart c); [by apply scanIdent_scanned|].
  destruct (c =? "'"%ch)%Z; [by apply scanQuoted_scanned|].
  destruct ((48 <=? c) && (c <=? 57))%Z eqn:E5; [eapply scanNumber_scanned; eauto|].
  destruct ((c =? 46) && (48 <=? peek src pos 1) && (peek src pos 1 <=? 57))%Z eqn:E6; [bool_split; eapply scanNumber_scanned; [done|left; lia]|].
  destruct (c =? DQ)%Z; [by apply scanQuoted_scanned|].
  destruct (operator _ _ _) as [[k n]|] eqn:E7.
  { apply operator_bounds in E7 as (? & ? & ?); [|done]. apply scanned_token; [lia|done]. }
  destruct (singleCharKind c) as [k|] eqn:E8.
  { apply scanned_token; [lia|]. unfold singleCharKind in E8.
    repeat case_scrut_in E8; congruence. }
  apply scanned_token; [|done]. apply advance_in; lia.
Qed.

Definition EOF_token (content : bytes) : Token :=
  {| tkKind := EOF; tkSpan := {| Offset := length content; Len := 0 |}; KeywordID := [];
     Unterminated := false; BadEscape := false |}.

(** Tokens that follow each other from [pos], none empty, to the end of input. *)
Inductive tiles (content : bytes) : nat -> list Token -> Prop :=
  | tiles_end : tiles content (length content) [EOF_token content]
  | tiles_more pos t rest :
      tkKind t <> EOF -> Offset (tkSpan t) = pos -> 0 < Len (tkSpan t) ->
      End (tkSpan t) <= length content -> tiles content (End (tkSpan t)) rest ->
      tiles content pos (t :: rest).

Definition token_text (content : bytes) (t : Token) : bytes :=
  default [] (Text content (tkSpan t)).

Lemma token_text_span content t start stop :
  tkSpan t = span start stop -> start <= stop <= length content ->
  token_text content t = slice content start stop.
Proof.
  intros Ht Hb. unfold token_text, Text. rewrite Ht. unfold span, End. cbn [Offset Len].
  replace (start + (stop - start)) with stop by lia.
  destruct (stop <=? length content) eqn:E; [done|]. apply Nat.leb_gt in E. lia.
Qed.

Lemma tiles_text content pos toks :
  tiles content pos toks -> concat (map (token_text content) toks) = drop pos content.
Proof.
  induction 1 as [|pos t rest Hk Ho Hl He Ht IH]; cbn [map concat].
  { rewrite app_nil_r, drop_ge by lia. unfold token_text, Text. cbn [tkSpan EOF_token].
    unfold End. cbn [Offset Len]. rewrite Nat.add_0_r, Nat.leb_refl. apply slice_empty. }
  rewrite IH. assert (Hsp : tkSpan t = span pos (End (tkSpan t))).
  { unfold span, End in *. destruct (tkSpan t) as [o l]. cbn in *. subst. f_equal. lia. }
  unfold End in *. rewrite (token_text_span _ _ _ _ Hsp) by lia.
  unfold slice. rewrite <- (take_drop (Offset (tkSpan t) + Len (tkSpan t) - pos) (drop pos content)) at 2.
  f_equal. rewrite drop_drop. f_equal. lia.
Qed.

Lemma Next_end content p :
  length content <= p -> Next {| src := content; pos := p |} = (EOF_token content, {| src := content; pos := p |}).
Proof.
  intros Hp. unfold Next, next_token. cbn [src pos]. by rewrite lookup_ge_None_2.
Qed.

Lemma tokens_from fuel content p :
  p <= length content -> length content - p < fuel ->
  exists toks, tokens fuel {| src := content; pos := p |} = Some toks /\ tiles content p toks.
Proof.
  revert p. induction fuel as [|fuel IH]; intros p Hp Hf; [lia|]. cbn [tokens].
  destruct (decide (p = length content)) as [->|Hne].
  - rewrite Next_end by done. cbn [tkKind EOF_token]. rewrite decide_True by done.
    eexists. split; [done|constructor].
  - destruct (lookup_lt_is_Some_2 content p) as [c Hc]; [lia|].
    destruct (next_token_scanned _ _ _ Hc) as (Hsp & Hb & Hk).
    unfold Next. cbn [src pos]. destruct (next_token content p) as [t p'] eqn:E.
    cbn [fst snd] in *. rewrite decide_False by done.
    assert (He : End (tkSpan t) = p').
    { rewrite Hsp. unfold End, span. cbn. lia. }
    destruct (IH p') as (toks & -> & Ht); [lia..|].
    exists (t :: toks). split; [done|]. constructor; [done|..].
    + by rewrite Hsp.
    + rewrite Hsp. cbn. lia.
    + lia.
    + by rewrite He.
Qed.

(** C18: on any content the lexer stops within one more token than bytes; its
    tokens are non-empty, follow each other from offset 0, and end with the end
    of input, so that their texts concatenate to the content; and at the end it
    returns the same end of input for ever. *)
Theorem tokens_tile content :
  exists toks,
    tokens (S (length content)) (New content) = Some toks
    /\ tiles content 0 toks
    /\ concat (map (token_text content) toks) = content
    /\ (forall lx, lx.(src) = content -> length content <= lx.(pos) ->
          Next lx = (EOF_token content, lx)).
Proof.
  destruct (tokens_from (S (length content)) content 0) as (toks & Ht & Htl); [lia..|].
  exists toks. split_and!; [done|done| |].
  - by rewrite (tiles_text _ _ _ Htl), drop_0.
  - intros [s p] Hs Hp. cbn in *. subst s. by apply Next_end.
Qed.

Lemma tokens_tile_witness :
  tokens 16 (New (bs "part a:>B;")) <> None /\
  Next {| src := bs "part"; pos := 4 |} = (EOF_token (bs "part"), {| src := bs "part"; pos := 4 |}).
Proof.
  split; [vm_compute; discriminate|].
  destruct (tokens_tile (bs "part")) as (toks & _ & _ & _ & H). apply H; [reflexivity|cbn; lia].
Defined.

(** ** Operators *)

(** The kinds of operators and punctuation: the ones [kindNames] spells. *)
Definition operator_kinds : list Kind :=
  [Question; QuestionQ; Pipe; Amp; EqEq; NotEq; EqEqEq; NotEqEq; At; AtAt; Lt; Gt; Le; Ge;
   DotDot; Plus; Minus; Star; Slash; Percent; StarStar; Caret; Tilde; Dot; Hash; LParen;
   RParen; LBracket; RBracket; Arrow; DotQuestion; Comma; ColonColon; Dollar; Eq; LBrace;
   RBrace; Semicolon; Colon; ColonEq; ColonGt; ColonGtGt; ColonColonGt; EqGt].

Definition is_operator (k : Kind) : bool := bool_decide (k ∈ operator_kinds).

(** The operator or punctuation a byte and the two after it begin. *)
Definition op (c p1 p2 : Z) : option (Kind * nat) :=
  match operator c p1 p2 with
  | Some kn => Some kn
  | None => match singleCharKind c with Some k => Some (k, 1) | None => None end
  end.

Lemma op_spelling c p1 p2 k n :
  op c p1 p2 = Some (k, n) ->
  k = Error \/ is_operator k = true /\ Kind_String k = take n [c; p1; p2] /\ 1 <= n <= 3.
Proof.
  unfold op, operator, singleCharKind. intros H.
  repeat match type of H with
  | context [if ?b then _ else _] =>
      lazymatch b with context [if _ then _ else _] => fail | _ => destruct b eqn:? end
  | Some _ = Some _ => apply (inj Some) in H
  end; simplify_eq; bool_split; rewrite ?Z.eqb_eq in *; subst;
  (left; reflexivity) || (right; split_and!; [reflexivity|reflexivity|lia..]) || done.
Qed.

(** Every operator spelling is at most as long as the operator the scanner picks. *)
Lemma op_longest c p1 p2 k' :
  is_operator k' = true -> has_prefix [c; p1; p2] (Kind_String k') = true ->
  exists k n, op c p1 p2 = Some (k, n) /\ k <> Error /\ length (Kind_String k') <= n.
Proof.
  intros Hk Hp.
  assert (Hb : exists t, [c; p1; p2] = Kind_String k' ++ t) by by apply has_prefix_spec.
  clear Hp. destruct Hb as [t Ht].
  destruct k'; try (vm_compute in Hk; discriminate); cbn in Ht; simplify_eq; clear Hk;
  unfold op, operator, singleCharKind; cbn -[Z.eqb];
  repeat match goal with
  | |- context [Z.eqb ?a ?b] =>
      lazymatch b with context [Z.eqb _ _] => fail | _ =>
      let r := eval vm_compute in (Z.eqb a b) in
      lazymatch r with true => change (Z.eqb a b) with true | false => change (Z.eqb a b) with false end end
  end; cbn [andb];
  repeat match goal with
  | |- context [if ?b then _ else _] => destruct b
  end; do 2 eexists; (split; [reflexivity|split; [done|lia]]).
Qed.

Lemma drop_three (src : bytes) pos c :
  src !! pos = Some c ->
  exists t, take 3 (drop pos src) ++ t = [c; peek src pos 1; peek src pos 2]
    /\ Forall (fun x => x = 0%Z) t.
Proof.
  intros Hc. unfold peek. rewrite (drop_cons_lookup _ _ _ Hc).
  destruct (src !! (pos + 1)) as [x|] eqn:Hx.
  - rewrite Nat.add_1_r in Hx. rewrite (drop_cons_lookup _ _ _ Hx).
    replace (pos + 2) with (S (S pos)) by lia.
    destruct (src !! S (S pos)) as [y|] eqn:Hy.
    + exists []. rewrite (drop_cons_lookup _ _ _ Hy). by rewrite app_nil_r.
    + exists [0%Z]. apply lookup_ge_None_1 in Hy. rewrite (drop_ge src) by lia.
      split; [done|by repeat constructor].
  - apply lookup_ge_None_1 in Hx as Hx'. rewrite (drop_ge src (S pos)) by lia.
    rewrite lookup_ge_None_2 by lia. exists [0%Z; 0%Z]. split; [done|by repeat constructor].
Qed.

Lemma spelling_short k : is_operator k = true ->
  1 <= length (Kind_String k) <= 3 /\ 0%Z ∉ Kind_String k.
Proof.
  intros Hk. destruct k; try (vm_compute in Hk; discriminate); clear Hk;
    (split; [cbn; lia|vm_compute; set_solver]).
Qed.

(** A spelling shows in the three bytes the scanner looks at. *)
Lemma spelling_peek src pos c k :
  src !! pos = Some c -> is_operator k = true ->
  has_prefix (drop pos src) (Kind_String k) = true ->
  has_prefix [c; peek src pos 1; peek src pos 2] (Kind_String k) = true.
Proof.
  intros Hc Hk [u Hu]%has_prefix_spec. destruct (spelling_short _ Hk) as [Hlen _].
  destruct (drop_three _ _ _ Hc) as (t & Ht & _). apply has_prefix_spec.
  rewrite <- Ht, Hu, take_app_ge, <- app_assoc by lia. eauto.
Qed.

Lemma op_start c p1 p2 kn :
  op c p1 p2 = Some kn ->
  isSpace c = false /\ IsIdentStart c = false /\ isDigit c = false
  /\ (c =? "'"%ch)%Z = false /\ (c =? DQ)%Z = false.
Proof.
  intros H. assert (Hc : elem c punctuation = true).
  { unfold op, operator, singleCharKind in H.
    repeat match type of H with
    | context [if (c =? ?x)%Z then _ else _] => destruct (Z.eqb_spec c x) as [->|]; [reflexivity|]
    end. done. }
  apply elem_spec in Hc. unfold punctuation in Hc.
  elem_cases Hc; subst c; vm_compute; by split_and!.
Qed.

(** The kinds of the scans that are not operators. *)
Lemma scan_kinds src pos :
  tkKind (scanWhitespace src pos).1 = Whitespace
  /\ tkKind (scanMLNote src pos).1 = MLNote
  /\ tkKind (scanSLNote src pos).1 = SLNote
  /\ tkKind (scanBlockComment src pos).1 = RegularComment
  /\ (forall q k, tkKind (scanQuoted src pos q k).1 = k)
  /\ tkKind (scanIdentOrKeyword src pos).1 ∈ [Keyword; Identifier]
  /\ tkKind (scanNumber src pos).1 ∈ [Real; Decimal]
  /\ tkKind (scanError src pos).1 = Error.
Proof.
  split_and!; try done.
  - intros q k. unfold scanQuoted. set (e := quoted_loop _ _ _ _ _). destruct (q_closed e); [done|]. by destruct (q_line e) as [[]|].
  - unfold scanIdentOrKeyword. destruct (in_set _ _); cbn; set_solver.
  - unfold scanNumber. case_bool_decide; [cbn; set_solver|].
    destruct (match src !! _ with Some _ => _ | None => _ end) as [p r].
    destruct (consumeExponent src p) as [p' x]. destruct (r || x); cbn; set_solver.
Qed.

(** The operator branch of [Next] is taken unless a note, a comment or a real
    number begins there. *)
Lemma next_token_op src pos c :
  src !! pos = Some c ->
  let t := next_token src pos in
  is_operator (tkKind t.1) = true
    \/ (exists k n, op c (peek src pos 1) (peek src pos 2) = Some (k, n) /\ k <> Error) ->
  (c = "/"%ch /\ tkKind t.1 ∈ [SLNote; MLNote; RegularComment])
  \/ (c = "."%ch /\ isDigit (peek src pos 1) = true /\ tkKind t.1 ∈ [Real; Decimal])
  \/ exists k n, op c (peek src pos 1) (peek src pos 2) = Some (k, n) /\ t = token k pos (pos + n).
Proof.
  intros Hc t. subst t. unfold next_token. rewrite Hc.
  set (p1 := peek src pos 1). set (p2 := peek src pos 2). intros H.
  destruct (scan_kinds src pos) as (K1 & K2 & K3 & K4 & K5 & K6 & K7 & K8).
  assert (Hop : forall b, (b = true -> isSpace c = true \/ IsIdentStart c = true \/ isDigit c = true
                 \/ (c =? "'"%ch)%Z = true \/ (c =? DQ)%Z = true) -> b = true ->
               forall k n, op c p1 p2 = Some (k, n) -> False).
  { intros b Hb Hbt k n Ho. apply op_start in Ho as (? & ? & ? & ? & ?).
    destruct (Hb Hbt) as [|[|[|[|]]]]; congruence. }
  destruct (isSpace c) eqn:E1.
  { destruct H as [H|(k & n & Ho & _)]; [by rewrite K1 in H|].
    edestruct Hop; [|exact E1|exact Ho]; auto. }
  destruct ((c =? 47) && (p1 =? 47) && (p2 =? 42))%Z eqn:E2.
  { left. bool_split. split; [lia|]. rewrite K2. set_solver. }
  destruct ((c =? 47) && (p1 =? 47))%Z eqn:E3.
  { left. bool_split. split; [lia|]. rewrite K3. set_solver. }
  destruct ((c =? 47) && (p1 =? 42))%Z eqn:E4.
  { left. bool_split. split; [lia|]. rewrite K4. set_solver. }
  destruct (IsIdentStart c) eqn:E5.
  { destruct H as [H|(k & n & Ho & _)].
    - elem_cases K6; by rewrite K6 in H.
    - edestruct Hop; [|exact E5|exact Ho]; auto. }
  destruct (c =? 39)%Z eqn:E6.
  { destruct H as [H|(k & n & Ho & _)]; [by rewrite K5 in H|].
    edestruct Hop; [|exact E6|exact Ho]; auto. }
  destruct ((48 <=? c) && (c <=? 57))%Z eqn:E7.
  { destruct H as [H|(k & n & Ho & _)].
    - elem_cases K7; by rewrite K7 in H.
    - edestruct Hop; [|exact E7|exact Ho]; auto. }
  destruct ((c =? 46) && (48 <=? p1) && (p1 <=? 57))%Z eqn:E8.
  { right; left. bool_split. split_and!; [lia| |done]. unfold isDigit. lia. }
  destruct (c =? DQ)%Z eqn:E9.
  { destruct H as [H|(k & n & Ho & _)]; [by rewrite K5 in H|].
    edestruct Hop; [|exact E9|exact Ho]; auto. }
  right; right. unfold op. destruct (operator c p1 p2) as [[k n]|] eqn:E10; [by exists k, n|].
  destruct (singleCharKind c) as [k1|] eqn:E11; [exists k1, 1; by rewrite Nat.add_1_r|].
  exfalso. destruct H as [H|(k' & n' & Ho & _)]; [by rewrite K8 in H|].
  unfold op in Ho. by rewrite E10, E11 in Ho.
Qed.

(** A real number, where the byte is a point. *)
Lemma dot_number src pos :
  src !! pos = Some "."%ch -> isDigit (peek src pos 1) = true ->
  tkKind (next_token src pos).1 = Real.
Proof.
  intros Hc Hd. unfold next_token. rewrite Hc.
  unfold isDigit in Hd. set (p1 := peek src pos 1) in *. cbn -[scanNumber].
  rewrite Hd. cbn -[scanNumber]. unfold scanNumber. by rewrite Hc.
Qed.

Lemma op_text src pos c k n :
  src !! pos = Some c -> op c (peek src pos 1) (peek src pos 2) = Some (k, n) ->
  is_operator k = true -> scanned src pos (token k pos (pos + n)) ->
  token_text src (token k pos (pos + n)).1 = Kind_String k.
Proof.
  intros Hc Ho Hk (_ & Hb & _). cbn [snd token] in Hb.
  rewrite (token_text_span _ _ pos (pos + n)) by (done || lia).
  apply op_spelling in Ho as [->|(_ & Hs & Hn)]; [done|]. rewrite Hs.
  destruct (drop_three _ _ _ Hc) as (t & <- & _).
  unfold slice. replace (pos + n - pos) with n by lia.
  rewrite take_app_le by (rewrite length_take, length_drop; lia).
  by rewrite take_take, Nat.min_l by lia.
Qed.

(** An operator token spells its kind. *)
Lemma operator_token_text src pos :
  is_operator (tkKind (next_token src pos).1) = true -> token_text src (next_token src pos).1 = Kind_String (tkKind (next_token src pos).1).
Proof.
  destruct (src !! pos) as [c|] eqn:Hc; [|unfold next_token; by rewrite Hc]. intros Ht.
  pose proof (next_token_scanned _ _ _ Hc) as Hsc. pose proof (next_token_op _ _ _ Hc) as Hop. cbv zeta in Hop.
  destruct (next_token src pos) as [t p'] eqn:Et. cbn [fst] in *.
  destruct Hop as [[_ Hk]|[(_ & _ & Hk)|(k & n & Ho & Heq)]]; [by left|..].
  - elem_cases Hk; by rewrite Hk in Ht.
  - elem_cases Hk; by rewrite Hk in Ht.
  - rewrite Heq in Hsc. injection Heq as -> ->. by eapply op_text.
Qed.

(** An operator or punctuation token spells its kind, and where any operator
    spelling begins, the token is the operator of the longest spelling that
    begins there, except that a slash may begin a note or comment and a point a
    real number. *)
Lemma operator_longest_match src pos :
  let t := (next_token src pos).1 in
  (is_operator (tkKind t) = true -> token_text src t = Kind_String (tkKind t))
  /\ (forall k, is_operator k = true -> has_prefix (drop pos src) (Kind_String k) = true ->
        (k = Slash /\ tkKind t ∈ [SLNote; MLNote; RegularComment])
        \/ (src !! pos = Some "."%ch /\ isDigit (peek src pos 1) = true /\ tkKind t = Real)
        \/ (is_operator (tkKind t) = true
            /\ length (Kind_String k) <= length (Kind_String (tkKind t)))).
Proof.
  cbv zeta. destruct (src !! pos) as [c|] eqn:Hc.
  2:{ unfold next_token. rewrite Hc. split; [done|]. intros k Hk Hp. exfalso.
      apply lookup_ge_None_1 in Hc. rewrite drop_ge in Hp by lia.
      destruct (spelling_short _ Hk) as [Hl _]. destruct (Kind_String k); [cbn in Hl; lia|done]. }
  pose proof (next_token_scanned _ _ _ Hc) as Hsc. pose proof (next_token_op _ _ _ Hc) as Hop.
  pose proof (dot_number src pos) as Hdot. pose proof (operator_token_text src pos) as Htext.
  cbv zeta in Hop. destruct (next_token src pos) as [t p'] eqn:Et. cbn [fst] in *. split.
  - exact Htext.
  - intros k Hk Hp. apply (spelling_peek _ _ _ _ Hc Hk) in Hp as Hp3.
    apply (op_longest _ _ _ _ Hk) in Hp3 as (k1 & n1 & Ho & Hne & Hlen).
    destruct Hop as [[-> Hk']|[(-> & Hd & _)|(k2 & n2 & Ho2 & Heq)]]; [right; eauto|..].
    + left. split; [|done]. unfold op, operator in Ho. cbn in Ho. simplify_eq.
      apply has_prefix_spec in Hp as [u Hu]. rewrite (drop_cons_lookup _ _ _ Hc) in Hu.
      destruct k; try (vm_compute in Hk; discriminate); cbn in Hu; congruence || reflexivity.
    + right; left. split_and!; [done|done|]. by apply Hdot.
    + right; right. rewrite Ho in Ho2. injection Ho2 as <- <-. injection Heq as -> ->. cbn [tkKind].
      apply op_spelling in Ho as [->|(H1 & H2 & H3)]; [congruence|]. split; [done|].
      rewrite H2. rewrite length_take. cbn [length]. lia.
Qed.

Lemma operator_longest_match_witness :
  is_operator ColonGtGt = true /\
  tkKind (next_token (bs "a:>>b") 1).1 = ColonGtGt /\
  length (Kind_String ColonGt) <= length (Kind_String (tkKind (next_token (bs "a:>>b") 1).1)).
Proof.
  split; [reflexivity|]. split; [reflexivity|].
  destruct (operator_longest_match (bs "a:>>b") 1) as [_ H].
  destruct (H ColonGt) as [[Hk _]|[[Hk _]|[_ Hl]]]; [reflexivity|reflexivity|discriminate|discriminate|exact Hl].
Defined.
