(* ===== verification/LexerQuoted.v ===== *)
(** * The lexer: quoted text, comments, names and numbers

    What the scanner reads of the text the writers of [Source] and [Comment]
    produce, and exactly which texts the one-token tests accept. *)
From S2P Require Import Prelude Bytes Source SourceFacts Comment CommentFacts Lexer LexerFacts.
Local Open Scope Z_scope.

(** ** Quoted text *)

(** Text between quotes: every quote and backslash escaped. *)
Fixpoint quoted_body (q : Z) (s : bytes) : bool :=
  match s with
  | [] => true
  | c :: s' =>
      if c =? "\"%ch then match s' with [] => false | _ :: s'' => quoted_body q s'' end
      else negb (c =? q) && quoted_body q s'
  end.

(** Whether a text spells an escape no terminal admits. *)
Fixpoint bad_escapes (s : bytes) : bool :=
  match s with
  | [] => false
  | c :: s' =>
      if c =? "\"%ch then
        match s' with [] => false | e :: s'' => negb (IsEscapeChar e) || bad_escapes s'' end
      else bad_escapes s'
  end.

(** Induction on a text by escapes. *)
Lemma escape_ind (P : bytes -> Prop) :
  P [] -> P ["\"]%ch -> (forall e s, P s -> P ("\"%ch :: e :: s)) ->
  (forall c s, c <> "\"%ch -> P s -> P (c :: s)) -> forall s, P s.
Proof.
  intros H0 H1 H2 H3 s. remember (length s) as n eqn:Hn. revert s Hn.
  induction n as [n IH] using lt_wf_ind; intros [|c s] ->; [done|].
  destruct (decide (c = "\"%ch)) as [->|Hc].
  - destruct s as [|e s]; [done|]. apply H2. eapply IH; [|done]. cbn. lia.
  - apply H3; [done|]. eapply IH; [|done]. cbn. lia.
Qed.

Definition no_break (s : bytes) : bool := forallb not_break s.

Lemma quoted_loop_line q rest pos bad l : q_line (quoted_loop q rest pos bad (Some l)) = Some l.
Proof.
  revert pos bad. induction rest as [| |e s IH|c s Hc IH] using escape_ind; intros pos bad; try done.
  - cbn [quoted_loop]. apply IH.
  - cbn [quoted_loop]. destruct (Z.eqb_spec c "\"%ch); [done|]. destruct (c =? q); [done|]. apply IH.
Qed.

Lemma quoted_loop_closed q body tail pos bad line :
  q <> "\"%ch -> quoted_body q body = true ->
  let e := quoted_loop q (body ++ q :: tail) pos bad line in
  q_pos e = (pos + length body + 1)%nat /\ q_closed e = true
  /\ q_bad e = bad || bad_escapes body.
Proof.
  intros Hq. revert pos bad line.
  induction body as [| |e s IH|c s Hc IH] using escape_ind; intros pos bad line Hb; [| done| |].
  - cbn [app quoted_loop]. destruct (Z.eqb_spec q "\"%ch); [done|]. rewrite Z.eqb_refl.
    cbn. rewrite orb_false_r. split_and!; [lia|done..].
  - cbn [app quoted_loop quoted_body bad_escapes] in *. rewrite Z.eqb_refl in *.
    destruct (IH (S (S pos)) (bad || negb (IsEscapeChar e))
      (mark_line line e (S pos) bad) Hb) as (-> & -> & ->).
    split_and!; [cbn; lia|done|by rewrite orb_assoc].
  - cbn [app quoted_loop quoted_body bad_escapes] in *.
    destruct (Z.eqb_spec c "\"%ch); [done|]. bool_split. rewrite H.
    destruct (IH (S pos) bad (mark_line line c pos bad) H0) as (-> & -> & ->).
    cbn. split_and!; [lia|done..].
Qed.

(** The loop closes only at an unescaped quote; otherwise it keeps the first
    line break and what was bad before it. *)
Definition unclosed_line (rest : bytes) (pos : nat) (bad : bool) (e : quoted_end) : Prop :=
  match q_line e with
  | Some (p, b) => exists line c tail, rest = line ++ c :: tail /\ no_break line = true
      /\ not_break c = false /\ p = (pos + length line)%nat /\ b = bad || bad_escapes line
  | None => no_break rest = true /\ q_pos e = (pos + length rest)%nat
      /\ q_bad e = bad || bad_escapes rest
  end.

Lemma mark_line_break c pos bad :
  mark_line None c pos bad = if not_break c then None else Some (pos, bad).
Proof. unfold mark_line, not_break. by destruct (c =? NL), (c =? CR). Qed.

Lemma quoted_loop_closes q rest pos bad line :
  q_closed (quoted_loop q rest pos bad line) = true ->
  exists body tail, rest = body ++ q :: tail /\ quoted_body q body = true.
Proof.
  revert pos bad line.
  induction rest as [| |e s IH|c s Hc IH] using escape_ind; intros pos bad line H; try done.
  - cbn [quoted_loop] in H. rewrite Z.eqb_refl in H. apply IH in H as (body & tail & -> & Hb).
    by exists ("\"%ch :: e :: body), tail.
  - cbn [quoted_loop] in H. destruct (Z.eqb_spec c "\"%ch) as [|_]; [done|].
    destruct (Z.eqb_spec c q) as [->|Hcq]; [by exists [], s|].
    apply IH in H as (body & tail & -> & Hb). exists (c :: body), tail. split; [done|].
    cbn [quoted_body]. apply Z.eqb_neq in Hc, Hcq. by rewrite Hc, Hcq, Hb.
Qed.

Lemma unclosed_app rest pos bad e pre bad' pos' :
  no_break pre = true -> (pos' = pos + length pre)%nat ->
  (forall s, bad' || bad_escapes s = bad || bad_escapes (pre ++ s)) ->
  unclosed_line rest pos' bad' e -> unclosed_line (pre ++ rest) pos bad e.
Proof.
  intros Hpre -> Hbad. unfold unclosed_line.
  assert (Happ : forall l, no_break l = true -> no_break (pre ++ l) = true).
  { intros l Hl. unfold no_break in *. by rewrite forallb_app, Hpre, Hl. }
  destruct (q_line e) as [[p b]|].
  - intros (line & c & tail & -> & Hn & Hc & -> & ->). exists (pre ++ line), c, tail.
    rewrite length_app, <- app_assoc. split_and!; [done|auto|done|lia|apply Hbad].
  - intros (Hn & -> & ->). rewrite length_app. split_and!; [auto|lia|apply Hbad].
Qed.

Lemma quoted_loop_unclosed q rest pos bad :
  q_closed (quoted_loop q rest pos bad None) = false ->
  unclosed_line rest pos bad (quoted_loop q rest pos bad None).
Proof.
  revert pos bad.
  induction rest as [| |e s IH|c s Hc IH] using escape_ind; intros pos bad.
  - intros _. cbn. rewrite orb_false_r. split_and!; [done|lia|done].
  - intros _. cbn. rewrite orb_false_r. split_and!; [done|lia|done].
  - cbn [quoted_loop]. rewrite Z.eqb_refl, mark_line_break. intros H. destruct (not_break e) eqn:Ee.
    + apply (unclosed_app s _ _ _ ["\"%ch; e] (bad || negb (IsEscapeChar e)) (S (S pos)));
        [cbn; by rewrite Ee|cbn; lia| |by apply IH].
      intros t. cbn [app bad_escapes]. rewrite Z.eqb_refl. by rewrite orb_assoc.
    + unfold unclosed_line. rewrite quoted_loop_line. exists ["\"]%ch, e, s. cbn.
      rewrite orb_false_r. split_and!; [done..|lia|done].
  - cbn [quoted_loop]. destruct (Z.eqb_spec c "\"%ch) as [|_]; [done|].
    destruct (Z.eqb_spec c q) as [->|Hcq]; [done|]. rewrite mark_line_break. intros H.
    destruct (not_break c) eqn:Ec.
    + apply (unclosed_app s _ _ _ [c] bad (S pos)); [cbn; by rewrite Ec|cbn; lia| |by apply IH].
      intros t. cbn. apply Z.eqb_neq in Hc. by rewrite Hc.
    + unfold unclosed_line. rewrite quoted_loop_line. exists [], c, s. cbn.
      rewrite orb_false_r. split_and!; [done..|lia|done].
Qed.

(** [InvalidEscapes] of a text that starts with a quote. *)
Lemma invalid_escapes_bad o i raw : invalid_escapes o i raw <> [] <-> bad_escapes raw = true.
Proof.
  revert i. induction raw as [| |e s IH|c s Hc IH] using escape_ind; intros i; try done.
  - cbn [invalid_escapes bad_escapes]. rewrite Z.eqb_refl. cbn [negb].
    destruct (IsEscapeChar e); [apply IH|done].
  - apply Z.eqb_neq in Hc. cbn [invalid_escapes bad_escapes]. rewrite Hc. cbn [negb].
    destruct s; [done|apply IH].
Qed.

Lemma bad_escapes_app_quoted q body :
  q <> "\"%ch -> quoted_body q body = true -> bad_escapes (body ++ [q]) = bad_escapes body.
Proof.
  intros Hq. induction body as [| |e s IH|c s Hc IH] using escape_ind; intros Hb; try done.
  - cbn. apply Z.eqb_neq in Hq. by rewrite Hq.
  - cbn [app bad_escapes quoted_body] in *. rewrite Z.eqb_refl in *. by rewrite IH.
  - cbn [app bad_escapes quoted_body] in *. apply Z.eqb_neq in Hc. rewrite Hc in *. bool_split. by apply IH.
Qed.

Definition quote_kind (q : Z) : Kind := if q =? DQ then String else UnrestrictedName.

Lemma next_token_quote src pos q :
  quote_char q -> src !! pos = Some q ->
  next_token src pos = scanQuoted src pos q (quote_kind q).
Proof. intros Hq Hs. unfold next_token. rewrite Hs. by destruct Hq as [->| ->]. Qed.

Lemma quote_char_facts q : quote_char q -> q <> "\"%ch /\ not_break q = true.
Proof. by intros [->| ->]. Qed.

(** What a quoted token is, terminated or not. *)
Definition quoted_token (src : bytes) (pos : nat) (q : Z) (r : Token * nat) : Prop :=
  tkKind r.1 = quote_kind q /\ tkSpan r.1 = span pos r.2 /\ KeywordID r.1 = [] /\
  if Unterminated r.1 then
    exists line rest, drop pos src = q :: line ++ rest /\ slice src pos r.2 = q :: line
      /\ no_break line = true
      /\ (rest = [] \/ exists c rest', rest = c :: rest' /\ not_break c = false)
      /\ (forall body tail, drop pos src = q :: body ++ q :: tail -> quoted_body q body = false)
      /\ BadEscape r.1 = bad_escapes line
  else
    exists body tail, drop pos src = q :: body ++ q :: tail /\ quoted_body q body = true
      /\ slice src pos r.2 = q :: body ++ [q] /\ BadEscape r.1 = bad_escapes body.

Lemma scanQuoted_spec src pos q :
  quote_char q -> src !! pos = Some q -> quoted_token src pos q (next_token src pos).
Proof.
  intros Hq Hs. rewrite (next_token_quote _ _ _ Hq Hs).
  destruct (quote_char_facts _ Hq) as [Hq1 Hq2].
  pose proof (drop_cons_lookup _ _ _ Hs) as Hd.
  unfold scanQuoted. set (rest := drop (S pos) src) in *.
  destruct (q_closed (quoted_loop q rest (S pos) false None)) eqn:E.
  - apply quoted_loop_closes in E as (body & tail & Hr & Hb).
    destruct (quoted_loop_closed q body tail (S pos) false None Hq1 Hb) as (H1 & H2 & H3).
    rewrite <- Hr in H1, H3. rewrite H1, H3. split_and!; [done..|]. cbn [Unterminated fst snd].
    exists body, tail. rewrite Hd, Hr. split_and!; [done..| |done].
    replace (S pos + length body + 1)%nat with (pos + length (q :: body ++ [q]))%nat
      by (cbn; rewrite length_app; cbn; lia).
    apply (slice_drop_app _ _ _ tail). rewrite Hd, Hr. cbn. by rewrite <- app_assoc.
  - pose proof (quoted_loop_unclosed _ _ _ _ E) as Hu.
    assert (Hno : forall body tail, drop pos src = q :: body ++ q :: tail -> quoted_body q body = false).
    { intros body tail H. rewrite Hd in H. injection H as H.
      destruct (quoted_body q body) eqn:Eb; [|done].
      destruct (quoted_loop_closed q body tail (S pos) false None Hq1 Eb) as (_ & H2 & _).
      rewrite <- H in H2. congruence. }
    unfold unclosed_line in Hu.
    destruct (q_line (quoted_loop q rest (S pos) false None)) as [[p b]|].
    + destruct Hu as (line & c & tail & Hr & Hn & Hc & -> & ->).
      split_and!; [done..|]. cbn [Unterminated fst snd]. exists line, (c :: tail).
      rewrite Hd, Hr. split_and!; [done| |done|right; eauto|by rewrite <- Hr, <- Hd|done].
      replace (S pos + length line)%nat with (pos + length (q :: line))%nat by (cbn; lia).
      apply (slice_drop_app _ _ _ (c :: tail)). by rewrite Hd, Hr.
    + destruct Hu as (Hn & -> & ->).
      split_and!; [done..|]. cbn [Unterminated fst snd]. exists rest, [].
      rewrite Hd, app_nil_r. split_and!; [done| |done|by left|by rewrite <- Hd|done].
      replace (S pos + length rest)%nat with (pos + length (q :: rest))%nat by (cbn; lia).
      apply (slice_drop_app _ _ _ []). by rewrite Hd, app_nil_r.
Qed.

(** A span that covers a backslash and a character it may not escape. *)
Definition located_escape (src : bytes) (tok s : Span) : Prop :=
  Contains tok s = true /\ Len s = 2%nat /\
  exists e, slice src (Offset s) (End s) = ["\"%ch; e] /\ IsEscapeChar e = false.

Lemma invalid_escapes_at o i raw :
  Forall (fun s => exists n e, s = {| Offset := o + i + n; Len := 2 |}
            /\ raw !! n = Some "\"%ch /\ raw !! S n = Some e /\ IsEscapeChar e = false)
    (invalid_escapes o i raw).
Proof.
  revert i. induction raw as [| |e s IH|c s Hc IH] using escape_ind; intros i; [constructor..| |].
  - cbn [invalid_escapes]. rewrite Z.eqb_refl. cbn [negb]. apply Forall_app. split.
    + destruct (IsEscapeChar e) eqn:E; [done|]. constructor; [|done]. exists 0%nat, e.
      split_and!; [f_equal; lia|done..].
    + eapply Forall_impl; [apply IH|]. intros sp (n & e' & -> & H).
      exists (S (S n)), e'. split; [f_equal; lia|done].
  - apply Z.eqb_neq in Hc. cbn [invalid_escapes]. destruct s as [|d s]; [constructor|].
    rewrite Hc. cbn [negb]. eapply Forall_impl; [apply IH|]. intros sp (n & e' & -> & H).
    exists (S n), e'. split; [f_equal; lia|done].
Qed.

Lemma invalid_escapes_located src start stop :
  (start < stop <= length src)%nat ->
  Forall (located_escape src (span start stop)) (InvalidEscapes (span start stop) (slice src start stop)).
Proof.
  intros Hb. eapply Forall_impl; [apply invalid_escapes_at|].
  intros sp (n & e & -> & H1 & H2 & He).
  assert (Hn : (S n < stop - start)%nat).
  { apply lookup_lt_Some in H2. rewrite length_slice in H2 by lia. done. }
  rewrite slice_lookup in H1, H2 by lia.
  unfold located_escape, Contains, End, span. cbn [Offset Len]. split_and!; [|done|].
  - apply andb_true_iff. split; apply Nat.leb_le; lia.
  - exists e. split; [|done]. rewrite (slice_cons _ _ _ "\"%ch) by (done || (rewrite <- H1; f_equal; lia) || lia).
    rewrite (slice_cons _ _ _ e) by ((rewrite <- H2; f_equal; lia) || lia).
    f_equal. f_equal. unfold slice. by replace (_ - _)%nat with 0%nat by lia.
Qed.

(** C34: at a quote the lexer returns a string or an unrestricted name that runs
    to the first unescaped closing quote, across lines; where there is none, the
    token is unterminated and ends before the first line break or at the end of
    input; and it carries [BadEscape] exactly when [InvalidEscapes] locates one
    in its text, each located span being a backslash and a character the
    notation does not escape. *)
Theorem quoted_token_spec src pos q :
  quote_char q -> src !! pos = Some q ->
  let r := next_token src pos in
  quoted_token src pos q r
  /\ (BadEscape r.1 = true <-> InvalidEscapes (tkSpan r.1) (slice src pos r.2) <> [])
  /\ Forall (located_escape src (tkSpan r.1)) (InvalidEscapes (tkSpan r.1) (slice src pos r.2)).
Proof.
  intros Hq Hs r. pose proof (scanQuoted_spec _ _ _ Hq Hs) as H. fold r in H. split; [done|].
  split.
  2:{ destruct H as (_ & Hsp & _). pose proof (next_token_scanned _ _ _ Hs) as (_ & Hb & _).
      fold r in Hb. rewrite Hsp. by apply invalid_escapes_located. }
  destruct (quote_char_facts _ Hq) as [Hq1 _]. apply Z.eqb_neq in Hq1 as Hq1'.
  unfold InvalidEscapes. rewrite invalid_escapes_bad.
  destruct H as (_ & _ & _ & H). destruct (Unterminated r.1).
  - destruct H as (line & rest & _ & -> & _ & _ & _ & ->). cbn [bad_escapes]. by rewrite Hq1'.
  - destruct H as (body & tail & _ & Hb & -> & ->). cbn [bad_escapes]. rewrite Hq1'.
    by rewrite bad_escapes_app_quoted.
Qed.

Lemma quoted_token_spec_witness :
  quote_char DQ /\ bs "x 'a\q" !! 2%nat = Some "'"%ch
  /\ BadEscape (next_token (bs "x 'a\q") 2).1 = true
  /\ InvalidEscapes (tkSpan (next_token (bs "x 'a\q") 2).1)
       (slice (bs "x 'a\q") 2 (next_token (bs "x 'a\q") 2).2) <> [].
Proof.
  split; [by left|]. split; [reflexivity|]. split; [reflexivity|].
  apply (quoted_token_spec (bs "x 'a\q") 2 "'"%ch); [by right|reflexivity|reflexivity].
Defined.

(** ** Text the writers produce *)

Lemma quoted_body_app q s t :
  quoted_body q s = true -> quoted_body q (s ++ t) = quoted_body q t.
Proof.
  induction s as [| |e s IH|c s Hc IH] using escape_ind; intros H; try done.
  - cbn [app quoted_body] in *. rewrite Z.eqb_refl in *. by apply IH.
  - cbn [app quoted_body] in *. apply Z.eqb_neq in Hc. rewrite Hc in *. bool_split.
    rewrite H. cbn. by apply IH.
Qed.

Lemma bad_escapes_app q s t :
  quoted_body q s = true -> bad_escapes (s ++ t) = bad_escapes s || bad_escapes t.
Proof.
  induction s as [| |e s IH|c s Hc IH] using escape_ind; intros H; try done.
  - cbn [app quoted_body bad_escapes] in *. rewrite Z.eqb_refl in *. rewrite IH by done.
    by rewrite orb_assoc.
  - cbn [app quoted_body bad_escapes] in *. apply Z.eqb_neq in Hc. rewrite Hc in *. bool_split.
    by apply IH.
Qed.

Lemma escape_byte_body q c :
  quote_char q ->
  quoted_body q (escape_byte q c) = true /\ bad_escapes (escape_byte q c) = false.
Proof.
  intros Hq. unfold escape_byte.
  destruct ((c =? q) || (c =? "\"%ch)) eqn:E.
  - cbn. split; [done|]. destruct Hq as [->| ->]; bool_split; rewrite ?Z.eqb_eq in *;
      destruct E as [->| ->]; reflexivity.
  - destruct (c =? BS); [done|]. destruct (c =? TAB); [done|]. destruct (c =? NL); [done|].
    destruct (c =? FF); [done|]. destruct (c =? CR); [done|].
    apply orb_false_iff in E as [E1 E2]. cbn [quoted_body bad_escapes]. by rewrite E1, E2.
Qed.

Lemma escaped_body q v :
  quote_char q ->
  quoted_body q (concat (map (escape_byte q) v)) = true
  /\ bad_escapes (concat (map (escape_byte q) v)) = false.
Proof.
  intros Hq. induction v as [|c v [IH1 IH2]]; [done|]. cbn [map concat].
  destruct (escape_byte_body q c Hq) as [H1 H2].
  rewrite quoted_body_app, (bad_escapes_app q) by done. by rewrite H2, IH2.
Qed.

(** A quoted text is one token of its full length. *)
Lemma quoted_one_token q body tail :
  quote_char q -> quoted_body q body = true ->
  next_token (q :: body ++ q :: tail) 0
  = ({| tkKind := quote_kind q; tkSpan := span 0 (length body + 2); KeywordID := [];
        Unterminated := false; BadEscape := bad_escapes body |}, length body + 2)%nat.
Proof.
  intros Hq Hb. destruct (quote_char_facts _ Hq) as [Hq1 _].
  rewrite (next_token_quote (q :: body ++ q :: tail) 0 q Hq eq_refl). unfold scanQuoted. cbn [drop]. destruct (quoted_loop_closed q body tail 1 false None Hq1 Hb) as (H1 & H2 & H3).
  cbv zeta. cbn [drop]. rewrite drop_0, H1, H2, H3. cbn [orb]. by replace (1 + length body + 1)%nat with (length body + 2)%nat by lia.
Qed.

(** C22: the text written for any value, between double or single quotes, is
    read by the lexer as exactly one token, terminated and without a bad escape,
    whatever follows it; and the value read from that token's text is the value
    written, whatever bytes it holds. *)
Theorem quotedText_one_token q v tail :
  quote_char q ->
  let text := quotedText v q ++ tail in
  next_token text 0
  = ({| tkKind := quote_kind q; tkSpan := span 0 (length (quotedText v q)); KeywordID := [];
        Unterminated := false; BadEscape := false |}, length (quotedText v q))
  /\ StringValue (token_text text (next_token text 0).1) = v.
Proof.
  intros Hq text. destruct (escaped_body q v Hq) as [H1 H2].
  set (body := concat (map (escape_byte q) v)) in *.
  assert (Et : text = q :: body ++ q :: tail) by (unfold text, quotedText; fold body; cbn; by rewrite <- app_assoc).
  assert (El : length (quotedText v q) = (length body + 2)%nat).
  { unfold quotedText. fold body. cbn. rewrite length_app. cbn. lia. }
  assert (En : next_token text 0
    = ({| tkKind := quote_kind q; tkSpan := span 0 (length (quotedText v q)); KeywordID := [];
          Unterminated := false; BadEscape := false |}, length (quotedText v q)))
    by by rewrite Et, quoted_one_token, H2, El.
  split; [done|]. rewrite En. cbn [fst]. rewrite (token_text_span _ _ 0 (length (quotedText v q)));
    [|done|unfold text; rewrite length_app; lia].
  unfold slice, text. rewrite drop_0, Nat.sub_0_r, take_app_length. by apply quoted_value.
Qed.

Lemma quotedText_one_token_witness :
  quote_char "'"%ch /\
  let text := quotedText (bs "it's" ++ [NL]) "'"%ch ++ bs " : A;" in
  tkKind (next_token text 0).1 = UnrestrictedName /\
  StringValue (token_text text (next_token text 0).1) = bs "it's" ++ [NL].
Proof.
  split; [by right|]. intros text.
  destruct (quotedText_one_token "'"%ch (bs "it's" ++ [NL]) (bs " : A;")) as [E V]; [by right|].
  fold text in E, V. split; [by rewrite E|exact V].
Defined.

(** ** Comments *)

(** No closing delimiter in a text, nor one that its last byte would begin. *)
Fixpoint close_free (s : bytes) : bool :=
  match s with
  | [] => true
  | c :: s' => negb ((c =? "*"%ch) && (default 0 (head s') =? "/"%ch)) && close_free s'
  end.

Lemma star_slash_free s tail pos :
  close_free s = true -> star_slash (s ++ bs "*/" ++ tail) pos = (pos + length s + 2, true)%nat.
Proof.
  revert pos. induction s as [|c s IH]; intros pos H.
  - cbn. f_equal. lia.
  - cbn [app star_slash]. cbn [close_free] in H. apply andb_true_iff in H as [H1 H2].
    replace ((c =? 42) && (default 0 (head (s ++ bs "*/" ++ tail)) =? 47)) with false.
    + rewrite IH by done. f_equal. cbn [length]. lia.
    + symmetry. apply negb_true_iff in H1. by destruct s as [|d s]; [cbn; rewrite andb_false_r|].
Qed.

Lemma close_free_app s t :
  close_free s = true -> close_free t = true ->
  (head t <> Some "/"%ch \/ last s <> Some "*"%ch) -> close_free (s ++ t) = true.
Proof.
  intros Hs Ht Hd. induction s as [|c s IH]; [done|].
  cbn [app close_free] in *. apply andb_true_iff in Hs as [H1 H2]. apply andb_true_iff. split.
  - destruct s as [|d s]; [|done]. cbn [app]. apply negb_true_iff, andb_false_iff.
    destruct Hd as [Hd|Hd].
    + right. destruct t as [|e t]; [done|]. cbn in *. apply Z.eqb_neq. congruence.
    + left. apply Z.eqb_neq. cbn in Hd. congruence.
  - apply IH; [done|]. destruct Hd as [|Hd]; [by left|right]. by destruct s.
Qed.

Lemma contains_close s : contains s (bs "*/") = false -> close_free s = true.
Proof.
  unfold contains. intros H%bool_decide_eq_false.
  induction s as [|c s IH]; [done|]. cbn [close_free].
  assert (Hp : has_prefix (c :: s) (bs "*/") = false).
  { destruct (has_prefix (c :: s) (bs "*/")) eqn:E; [|done]. destruct H. cbn [index]. rewrite E. eauto. }
  apply andb_true_iff. split.
  - apply negb_true_iff. destruct s as [|d s]; cbn in *; [by rewrite andb_false_r|].
    destruct (c =? 42); [|done]. destruct (d =? 47); done.
  - apply IH. intros [i Hi]. apply H. cbn [index]. rewrite Hp, Hi. eauto.
Qed.

Lemma split_byte_head sep s w ws : split_byte sep s = w :: ws -> w = [] \/ head w = head s.
Proof.
  destruct s as [|c s]; cbn; [intros [= <- <-]; by left|].
  destruct (c =? sep); [intros [= <- <-]; by left|].
  destruct (split_byte sep s); intros [= <- <-]; by right.
Qed.

Lemma close_free_split sep s :
  close_free s = true -> Forall (fun w => close_free w = true) (split_byte sep s).
Proof.
  induction s as [|c s IH]; [by repeat constructor|]. cbn [close_free split_byte].
  intros [H1 H2]%andb_true_iff. specialize (IH H2). destruct (c =? sep); [by constructor|].
  pose proof (split_byte_head sep s) as Hh.
  destruct (split_byte sep s) as [|w ws]; [constructor; [cbn; by rewrite andb_false_r|done]|].
  inversion IH; subst. constructor; [|done]. cbn [close_free]. apply andb_true_iff. split; [|done].
  destruct (Hh w ws eq_refl) as [->|Hw]; [cbn; by rewrite andb_false_r|by rewrite Hw].
Qed.

Lemma close_free_blank indent : blank indent -> close_free indent = true.
Proof.
  induction 1 as [|c s Hc Hs IH]; [done|]. cbn [close_free]. rewrite IH, andb_true_r.
  destruct (Z.eqb_spec c "*"%ch) as [->|]; [by vm_compute in Hc|done].
Qed.

Lemma margin_lines_free indent lines :
  blank indent -> Forall (fun l => close_free l = true) lines ->
  close_free (margin_lines indent lines) = true /\ head (margin_lines indent lines) <> Some "/"%ch.
Proof.
  intros Hi. induction 1 as [|l lines Hl Hls [IH1 IH2]]; [done|]. cbn [margin_lines].
  pose proof (close_free_blank _ Hi) as Hf.
  assert (Hind : forall s, close_free s = true -> head s <> Some "/"%ch -> close_free ([NL] ++ indent ++ s) = true).
  { intros s Hs Hh. apply (close_free_app [NL]); [done| |by right].
    apply close_free_app; [done..|by left]. }
  split.
  - apply close_free_app; [|done|by left]. unfold margin_line.
    destruct (_ && _); [by apply Hind|]. destruct (beq l []); [by apply Hind|].
    apply Hind; [|done]. apply close_free_app; [done..|by right].
  - unfold margin_line. by destruct (_ && _); [|destruct (beq l [])].
Qed.

Lemma comment_one_token inner tail :
  close_free inner = true ->
  next_token ((bs "/*" ++ inner ++ bs "*/") ++ tail) 0
  = ({| tkKind := RegularComment; tkSpan := span 0 (length inner + 4); KeywordID := [];
        Unterminated := false; BadEscape := false |}, length inner + 4)%nat.
Proof.
  intros Hi. unfold next_token. cbn -[scanBlockComment bs]. unfold scanBlockComment, consumeUntilStarSlash.
  replace (drop (0 + 2) _) with (inner ++ bs "*/" ++ tail) by (cbn; by rewrite drop_0, <- app_assoc).
  rewrite star_slash_free by done. unfold comment_token. cbn [fst snd negb].
  by replace (0 + 2 + length inner + 2)%nat with (length inner + 4)%nat by lia.
Qed.

(** C35: the text [CommentText] writes for a body, under any margin, is read by
    the lexer as exactly one terminated comment token, whatever follows it. *)
Theorem CommentText_one_token body indent text tail :
  blank indent -> CommentText body indent = Some text ->
  next_token (text ++ tail) 0
  = ({| tkKind := RegularComment; tkSpan := span 0 (length text); KeywordID := [];
        Unterminated := false; BadEscape := false |}, length text).
Proof.
  intros Hi. unfold CommentText.
  destruct (contains body (bs "*/") || _) eqn:Ec; [done|]. apply orb_false_iff in Ec as [Ec _].
  apply contains_close in Ec. destruct (beq body []); [intros [= <-]; by rewrite comment_one_token with (inner := bs " ")|].
  apply (close_free_split NL) in Ec. pose proof (split_byte_nonempty NL body) as Hne.
  destruct (split_byte NL body) as [|l0 lines]; [done|].
  apply Forall_cons in Ec as [Hl0 Hls]. cbn [head default from_option id tl].
  assert (Hone : forall inner, close_free inner = true -> text = bs "/*" ++ inner ++ bs "*/" ->
    next_token (text ++ tail) 0
    = ({| tkKind := RegularComment; tkSpan := span 0 (length text); KeywordID := [];
          Unterminated := false; BadEscape := false |}, length text)).
  { intros inner Hf ->. rewrite comment_one_token by done.
    by replace (length (bs "/*" ++ inner ++ bs "*/")) with (length inner + 4)%nat
      by (rewrite !length_app; cbn; lia). }
  destruct (_ && _).
  - intros [= <-]. destruct (margin_lines_free indent lines Hi Hls) as [M1 M2].
    apply (Hone (bs " " ++ l0 ++ margin_lines indent lines)); [|by rewrite <- !app_assoc].
    apply (close_free_app (bs " ")); [done| |by right]. apply close_free_app; [done..|by left].
  - intros [= <-]. destruct (margin_lines_free indent (l0 :: lines) Hi) as [M1 M2]; [by constructor|].
    by apply (Hone (margin_lines indent (l0 :: lines))).
Qed.

Lemma CommentText_one_token_witness :
  blank (bs "  ") /\ CommentText (bs "a/ *") (bs "  ") = Some (bs "/* a/ **/")
  /\ (next_token (bs "/* a/ **/" ++ bs "*/ part") 0).2 = 9%nat.
Proof.
  split; [by repeat constructor|]. split; [reflexivity|].
  rewrite (CommentText_one_token (bs "a/ *") (bs "  ") (bs "/* a/ **/") (bs "*/ part"));
    [reflexivity|by repeat constructor|reflexivity].
Defined.
