(* ===== verification/LexerNames.v ===== *)
(** * The lexer: the tests of one name and of one number

    [NameProblem], [IsDecimalValue] and [IsRealValue] lex one token and compare
    its kind and length; the theorems say which texts they accept. *)
From S2P Require Import Prelude Bytes Source SourceFacts Lexer LexerFacts LexerQuoted.
Local Open Scope Z_scope.

(** The kind of the first token by the byte it starts with. *)
Lemma next_token_kind src pos c :
  src !! pos = Some c ->
  let t := next_token src pos in
  (tkKind t.1 = Identifier -> IsIdentStart c = true)
  /\ (tkKind t.1 = UnrestrictedName -> c = "'"%ch)
  /\ (tkKind t.1 = Decimal \/ tkKind t.1 = Real ->
        (isDigit c = true \/ c = "."%ch /\ isDigit (peek src pos 1) = true)
        /\ t = scanNumber src pos).
Proof.
  intros Hc t. subst t. unfold next_token. rewrite Hc.
  destruct (scan_kinds src pos) as (K1 & K2 & K3 & K4 & K5 & K6 & K7 & K8).
  assert (Hno : forall t, tkKind t <> Identifier -> tkKind t <> UnrestrictedName -> tkKind t <> Decimal ->
    tkKind t <> Real -> forall P Q R : Prop, (tkKind t = Identifier -> P) /\ (tkKind t = UnrestrictedName -> Q)
      /\ (tkKind t = Decimal \/ tkKind t = Real -> R)) by (intros; split_and!; intros; naive_solver).
  set (p1 := peek src pos 1). set (p2 := peek src pos 2).
  destruct (isSpace c); [apply Hno; by rewrite K1|].
  destruct ((c =? 47) && (p1 =? 47) && (p2 =? 42)); [apply Hno; by rewrite K2|].
  destruct ((c =? 47) && (p1 =? 47)); [apply Hno; by rewrite K3|].
  destruct ((c =? 47) && (p1 =? 42)); [apply Hno; by rewrite K4|].
  destruct (IsIdentStart c) eqn:E5.
  { split_and!; [done|..]; intros H; elem_cases K6; rewrite K6 in H; naive_solver. }
  destruct (Z.eqb_spec c "'"%ch) as [->|_]; [rewrite K5; split_and!; naive_solver|].
  destruct ((48 <=? c) && (c <=? 57)) eqn:E7.
  { split_and!; intros H; elem_cases K7; rewrite K7 in H; try done;
      (split; [left; exact E7|done]). }
  destruct ((c =? 46) && (48 <=? p1) && (p1 <=? 57)) eqn:E8.
  { assert (c = "."%ch /\ isDigit p1 = true) by (unfold isDigit; lia).
    split_and!; intros H'; elem_cases K7; rewrite K7 in H'; try done; (split; [by right|done]). }
  destruct (c =? DQ); [apply Hno; by rewrite K5|].
  assert (Hop : forall k n, op c p1 p2 = Some (k, n) ->
    k <> Identifier /\ k <> UnrestrictedName /\ k <> Decimal /\ k <> Real).
  { intros k n Ho. apply op_spelling in Ho as [->|(Hk & _)]; [done|].
    split_and!; intros ->; by vm_compute in Hk. }
  unfold op in Hop. destruct (operator c p1 p2) as [[k n]|].
  { destruct (Hop k n eq_refl) as (? & ? & ? & ?). by apply Hno. }
  destruct (singleCharKind c) as [k|].
  { destruct (Hop k 1%nat eq_refl) as (? & ? & ? & ?). by apply Hno. }
  apply Hno; by rewrite K8.
Qed.

(** ** Names *)

Lemma beq_refl s : beq s s = true.
Proof. by apply beq_true. Qed.

Lemma in_set_spec s l : in_set s l = true <-> s ∈ l.
Proof.
  unfold in_set. rewrite existsb_exists, list_elem_of_In. split.
  - intros (x & Hx & He). apply beq_true in He. by subst.
  - intros. exists s. by rewrite beq_refl.
Qed.

Lemma next_token_ident c s :
  IsIdentStart c = true -> next_token (c :: s) 0 = scanIdentOrKeyword (c :: s) 0.
Proof.
  intros Hc. unfold next_token. cbn -[scanIdentOrKeyword IsIdentStart isSpace Z.eqb].
  replace (isSpace c) with false by (unfold isSpace, IsIdentStart in *; lia).
  replace (c =? 47) with false by (unfold IsIdentStart in *; lia). cbn [andb]. by rewrite Hc.
Qed.

Lemma ident_run c s :
  IsIdentifier (c :: s) = true <->
  IsIdentStart c = true /\ advance_while IsIdentCont (c :: s) 1 = length (c :: s).
Proof.
  cbn [IsIdentifier]. rewrite andb_true_iff. apply and_iff_compat_l. rewrite forallb_Forall.
  destruct (advance_while_spec IsIdentCont (c :: s) 1) as [H1 H2]; [cbn; lia|].
  assert (Hs : slice (c :: s) 1 (length (c :: s)) = s).
  { unfold slice. cbn. rewrite Nat.sub_0_r, drop_0. by apply take_ge. }
  split; intros H.
  - apply advance_while_stop; [cbn; lia|done|by rewrite Hs|].
    intros x Hx. apply lookup_lt_Some in Hx. lia.
  - rewrite H, Hs in H1. done.
Qed.

Lemma keyword_identifier s : IsKeyword s = true -> IsIdentifier s = true.
Proof.
  intros Hk%in_set_spec.
  assert (H : forallb IsIdentifier keywordList = true) by (vm_compute; reflexivity).
  rewrite forallb_Forall, Forall_forall in H. by apply H.
Qed.

Definition single_name (s : bytes) : Prop :=
  (IsIdentifier s = true /\ IsKeyword s = false)
  \/ exists body, s = ["'"%ch] ++ body ++ ["'"%ch] /\ quoted_body "'"%ch body = true.

Lemma single_name_start c s : single_name (c :: s) -> IsIdentStart c = true \/ c = "'"%ch.
Proof.
  intros [[H _]|(body & H & _)]; [left|right; cbn in H; congruence].
  cbn [IsIdentifier] in H. by apply andb_true_iff in H as [H _].
Qed.

Lemma single_name_ident c s :
  IsIdentStart c = true ->
  single_name (c :: s) <-> IsIdentifier (c :: s) = true /\ IsKeyword (c :: s) = false.
Proof.
  intros Hc. split; [|by left]. intros [H|(body & [= -> ->] & _)]; done.
Qed.

Lemma NameProblem_ident c s :
  IsIdentStart c = true -> IsKeyword (c :: s) = false ->
  NameProblem (c :: s) = [] <-> IsIdentifier (c :: s) = true.
Proof.
  intros Hc Hkw. unfold NameProblem. cbn [beq]. rewrite Hkw. unfold Next, New. cbn [src pos].
  rewrite next_token_ident by done. rewrite (ident_run c s). unfold scanIdentOrKeyword.
  pose proof (advance_while_ge IsIdentCont (c :: s) 1) as Hge.
  set (p := advance_while IsIdentCont (c :: s) 1) in *.
  destruct (in_set (slice (c :: s) 0 p) Keywords) eqn:Ek; cbn [fst tkKind tkSpan token Unterminated span Len].
  - rewrite !bool_decide_false by done. cbn [negb andb]. split; [done|]. intros [_ Hp].
    rewrite Hp, slice_full in Ek.
    unfold IsKeyword in Hkw. unfold Keywords in Ek. congruence.
  - rewrite bool_decide_true by done. cbn [negb andb]. rewrite Nat.sub_0_r.
    destruct (Nat.eqb_spec p (length (c :: s))); cbn [negb]; split; intros H; try done.
    by destruct H.
Qed.

Lemma NameProblem_quoted s :
  NameProblem ("'"%ch :: s) = [] <-> single_name ("'"%ch :: s).
Proof.
  assert (Hkw : IsKeyword ("'"%ch :: s) = false).
  { destruct (IsKeyword _) eqn:E; [|done]. by apply keyword_identifier in E. }
  unfold NameProblem. cbn [beq]. rewrite Hkw. unfold Next, New. cbn [src pos].
  destruct (scanQuoted_spec ("'"%ch :: s) 0 "'"%ch) as (Hk & Hsp & _ & Hq); [by right|done|].
  destruct (next_token_scanned ("'"%ch :: s) 0 "'"%ch eq_refl) as (_ & Hb & _).
  destruct (next_token _ 0) as [t p] eqn:Et. cbn [fst snd] in *. rewrite Hk, Hsp.
  cbn [quote_kind]. rewrite (bool_decide_true (UnrestrictedName = UnrestrictedName)) by done.
  rewrite andb_false_r. cbn [span Len]. rewrite Nat.sub_0_r.
  destruct (Unterminated t).
  - destruct Hq as (_ & _ & _ & _ & _ & _ & Hno & _). split; [done|].
    intros [[H _]|(body & H & Hbody)]; [done|].
    rewrite (Hno body [] H) in Hbody. done.
  - destruct Hq as (body & tail & Hs & Hbody & Htext & _).
    change (drop 0 ?l) with l in Hs. destruct (Nat.eqb_spec p (length ("'"%ch :: s))) as [->|Hp]; cbn [negb].
    + split; [intros _|done]. right. exists body. rewrite slice_full in Htext. by split.
    + split; [done|]. intros [[H _]|(body' & H & Hbody')]; [done|]. exfalso. apply Hp.
      injection H as ->.
      rewrite (quoted_one_token "'"%ch body' []) in Et by (by right || done).
      injection Et as _ <-. cbn [length]. rewrite length_app. cbn. lia.
Qed.

Lemma raw_content_body s : quoted_body "'"%ch s = raw_content s.
Proof.
  induction s as [| |e s IH|c s Hc IH] using escape_ind; [done..| |].
  - exact IH.
  - cbn [quoted_body raw_content]. apply Z.eqb_neq in Hc. by rewrite Hc, IH.
Qed.

(** A text has no name problem exactly when it is an identifier that is no
    keyword or an unrestricted name between its quotes; in particular the text
    [NameText] writes for a name has none. *)
Lemma NameProblem_spec :
  (forall s, NameProblem s = [] <-> single_name s)
  /\ (forall name, raw_name name = true -> NameProblem (NameText name) = []).
Proof.
  assert (Hspec : forall s, NameProblem s = [] <-> single_name s).
  { intros [|c s].
    { split; [done|]. intros [[? _]|(body & ? & _)]; done. }
    destruct (IsIdentStart c) eqn:Ec.
    { rewrite single_name_ident by done. destruct (IsKeyword (c :: s)) eqn:Ek.
      - unfold NameProblem. cbn [beq]. rewrite Ek. split; [done|]. by intros [_ ?].
      - rewrite NameProblem_ident by done. naive_solver. }
    destruct (decide (c = "'"%ch)) as [->|Hc]; [apply NameProblem_quoted|].
    split; [|intros [?|?]%single_name_start; congruence].
    unfold NameProblem. cbn [beq]. destruct (IsKeyword (c :: s)); [done|].
    destruct (next_token_kind (c :: s) 0 c eq_refl) as (K1 & K2 & _).
    unfold Next, New. cbn [src pos]. destruct (next_token (c :: s) 0) as [t p]. cbn [fst] in *.
    rewrite !bool_decide_false by (intros Hk; (apply K1 in Hk || apply K2 in Hk); congruence). done. }
  split; [done|]. intros name Hn. apply Hspec. unfold NameText.
  destruct (IsIdentifier name && negb (IsKeyword name)) eqn:E.
  - left. apply andb_true_iff in E as [E1 E2%negb_true_iff]. done.
  - right. exists name. split; [done|]. unfold raw_name in Hn. rewrite raw_content_body. by apply andb_true_iff in Hn as [_ Hn].
Qed.

Lemma NameProblem_spec_witness :
  raw_name (bs "the \'part\'") = true /\ NameProblem (NameText (bs "the \'part\'")) = [].
Proof. split; [reflexivity|]. apply (proj2 NameProblem_spec). reflexivity. Defined.

(** ** Numbers *)

Definition digits (s : bytes) : Prop := Forall (fun c => isDigit c = true) s.

(** An exponent: [e] or [E], a sign or none, and digits. *)
Definition exponent (s : bytes) : Prop :=
  exists c sign ds, s = c :: sign ++ ds /\ (c = "e"%ch \/ c = "E"%ch)
    /\ (sign = [] \/ sign = ["+"]%ch \/ sign = ["-"]%ch) /\ ds <> [] /\ digits ds.

(** A REAL_VALUE: a fraction with or without an exponent, or digits with one. *)
Definition real_value (s : bytes) : Prop :=
  (exists ip fp ex, s = ip ++ "."%ch :: fp ++ ex /\ digits ip /\ digits fp /\ fp <> []
     /\ (ex = [] \/ exponent ex))
  \/ (exists ip ex, s = ip ++ ex /\ digits ip /\ ip <> [] /\ exponent ex).

(** Where the digits from an index end. *)
Lemma consumeDigits_run src i :
  (i <= length src)%nat ->
  exists ds, drop i src = ds ++ drop (consumeDigits src i) src /\ digits ds
    /\ consumeDigits src i = (i + length ds)%nat
    /\ (forall c, src !! consumeDigits src i = Some c -> isDigit c = false).
Proof.
  intros Hi. destruct (advance_while_spec isDigit src i Hi) as [H1 H2].
  pose proof (consumeDigits_bounds src i Hi) as Hb. unfold consumeDigits in *.
  exists (slice src i (advance_while isDigit src i)). split_and!; [|done| |done].
  - unfold slice. set (j := advance_while isDigit src i) in *.
    rewrite <- (take_drop (j - i) (drop i src)) at 1. f_equal. rewrite drop_drop. f_equal. lia.
  - rewrite length_slice by lia. lia.
Qed.

Lemma consumeDigits_stop src i ds rest :
  drop i src = ds ++ rest -> digits ds -> (i <= length src)%nat ->
  (forall c, head rest = Some c -> isDigit c = false) ->
  consumeDigits src i = (i + length ds)%nat.
Proof.
  intros Hd Hds Hi Hr.
  assert (Hlen : (i + length ds <= length src)%nat).
  { apply (f_equal length) in Hd. rewrite length_drop, length_app in Hd. lia. }
  apply advance_while_stop; [lia|done| |].
  - by rewrite (slice_drop_app _ _ _ _ Hd).
  - intros x Hx. apply Hr. rewrite <- Hx, lookup_drop_head, <- drop_drop, Hd. by rewrite drop_app_length.
Qed.

Lemma consumeExponent_found src p :
  (p <= length src)%nat ->
  match consumeExponent src p with
  | (p', true) => exists ex, exponent ex /\ drop p src = ex ++ drop p' src /\ p' = (p + length ex)%nat
  | (p', false) => p' = p
  end.
Proof.
  intros Hp. unfold consumeExponent. destruct (src !! p) as [c|] eqn:Hc; [|done].
  destruct (negb (c =? 101) && negb (c =? 69)) eqn:Ee; [done|].
  assert (Hce : c = "e"%ch \/ c = "E"%ch) by lia.
  set (i := match src !! S p with Some s => _ | None => _ end).
  destruct (src !! i) as [d|] eqn:Hd; [|done]. destruct (isDigit d) eqn:Hdd; [|done].
  assert (Hi : exists sign, (sign = [] \/ sign = ["+"]%ch \/ sign = ["-"]%ch)
            /\ drop (S p) src = sign ++ drop i src /\ i = (S p + length sign)%nat).
  { unfold i. destruct (src !! S p) as [s|] eqn:Hs; [|exists []; cbn; split_and!; [by left|done|lia]].
    destruct ((s =? 43) || (s =? 45)) eqn:Es; [|exists []; cbn; split_and!; [by left|done|lia]].
    exists [s]. split_and!; [|by apply drop_cons_lookup|cbn; lia].
    right. apply orb_true_iff in Es as [->%Z.eqb_eq| ->%Z.eqb_eq]; eauto. }
  destruct Hi as (sign & Hsign & Hdrop & Hi).
  pose proof (lookup_lt_Some _ _ _ Hd) as Hlt.
  destruct (consumeDigits_run src i) as (ds & Hds & Hdig & Hend & _); [lia|].
  exists (c :: sign ++ ds). split_and!.
  - exists c, sign, ds. split_and!; try done. intros ->. cbn in Hds.
    unfold consumeDigits in Hend. rewrite advance_while_step, Hd, Hdd in Hend.
    pose proof (advance_while_ge isDigit src (S i)). cbn in Hend. lia.
  - rewrite (drop_cons_lookup _ _ _ Hc), Hdrop, Hds. cbn. by rewrite <- app_assoc.
  - rewrite Hend, Hi. cbn [length]. rewrite length_app. lia.
Qed.

Lemma consumeExponent_reads src p ex :
  drop p src = ex -> exponent ex -> (p <= length src)%nat ->
  consumeExponent src p = (length src, true).
Proof.
  intros Hd (c & sign & ds & -> & Hc & Hsign & Hne & Hdig) Hp.
  assert (Hsrc : src !! p = Some c) by (rewrite lookup_drop_head, Hd; done).
  rewrite (drop_cons_lookup _ _ _ Hsrc) in Hd. injection Hd as Hd.
  pose proof (lookup_lt_Some _ _ _ Hsrc) as Hlt.
  destruct ds as [|d ds]; [done|]. inversion Hdig as [|? ? Hd1 Hds]; subst.
  assert (Hnot : (d =? 43) || (d =? 45) = false) by (unfold isDigit in Hd1; lia).
  assert (Hend : forall i, drop i src = d :: ds -> (i <= length src)%nat ->
            src !! i = Some d /\ consumeDigits src i = length src).
  { intros i Hi Hil. split; [by rewrite lookup_drop_head, Hi|].
    rewrite (consumeDigits_stop src i (d :: ds) []); [|by rewrite app_nil_r|done|done|done].
    apply (f_equal length) in Hi. rewrite length_drop in Hi. lia. }
  unfold consumeExponent. rewrite Hsrc.
  replace (negb (c =? 101) && negb (c =? 69)) with false by (destruct Hc as [->| ->]; done).
  destruct Hsign as [->|Hsign].
  - cbn [app] in Hd. destruct (Hend (S p) Hd) as [H1 H2]; [lia|]. by rewrite H1, Hnot, H1, Hd1, H2.
  - assert (Hs : exists s, sign = [s] /\ (s =? 43) || (s =? 45) = true).
    { destruct Hsign as [->| ->]; eexists; done. }
    destruct Hs as (s & -> & Hs). cbn [app] in Hd.
    assert (Hss : src !! S p = Some s) by (rewrite lookup_drop_head, Hd; done).
    rewrite (drop_cons_lookup _ _ _ Hss) in Hd. injection Hd as Hd.
    pose proof (lookup_lt_Some _ _ _ Hss) as Hlt2.
    destruct (Hend (S (S p)) Hd) as [H1 H2]; [lia|]. by rewrite Hss, Hs, H1, Hd1, H2.
Qed.

(** The fraction part of [scanNumber]. *)
Definition fraction (src : bytes) (p : nat) : nat * bool :=
  match src !! p, src !! S p with
  | Some c, Some d => if (c =? "."%ch) && isDigit d then (consumeDigits src (S p), true) else (p, false)
  | _, _ => (p, false)
  end.

Lemma fraction_spec src p :
  (p <= length src)%nat ->
  match fraction src p with
  | (p', true) => exists fp, fp <> [] /\ digits fp /\ drop p src = "."%ch :: fp ++ drop p' src
                    /\ p' = (p + 1 + length fp)%nat
  | (p', false) => p' = p /\ (src !! p = Some "."%ch -> isDigit (peek src p 1) = false)
  end.
Proof.
  intros Hp. unfold fraction, peek. rewrite Nat.add_1_r.
  destruct (src !! p) as [c|] eqn:Hc; [|done].
  destruct (src !! S p) as [d|] eqn:Hd; [|done].
  destruct (Z.eqb_spec c 46) as [->|Hne]; cbn [andb]; [|split; [done|congruence]].
  destruct (isDigit d) eqn:Hdd; [|by split].
  pose proof (lookup_lt_Some _ _ _ Hd) as Hlt.
  destruct (consumeDigits_run src (S p)) as (fp & Hfp & Hdig & Hend & _); [lia|].
  exists fp. split_and!; [|done|by rewrite (drop_cons_lookup _ _ _ Hc), Hfp|lia].
  intros ->. unfold consumeDigits in Hend. rewrite advance_while_step, Hd, Hdd in Hend.
  pose proof (advance_while_ge isDigit src (S (S p))). cbn in Hend. lia.
Qed.

Lemma scanNumber_eq src start :
  scanNumber src start =
    if bool_decide (src !! start = Some "."%ch) then
      token Real start (consumeExponent src (consumeDigits src (S start))).1
    else
      let '(p, isReal) := fraction src (consumeDigits src start) in
      let '(p, isExp) := consumeExponent src p in
      token (if isReal || isExp then Real else Decimal) start p.
Proof. reflexivity. Qed.

Lemma next_token_number src pos c :
  src !! pos = Some c ->
  isDigit c = true \/ c = "."%ch /\ isDigit (peek src pos 1) = true ->
  next_token src pos = scanNumber src pos.
Proof.
  intros Hc Hd. unfold next_token. rewrite Hc.
  assert (Hf : isSpace c = false /\ (c =? 47) = false /\ IsIdentStart c = false /\ (c =? 39) = false).
  { unfold isDigit, isSpace, IsIdentStart in *. destruct Hd as [Hd|[-> _]]; split_and!; lia. }
  destruct Hf as (-> & -> & -> & ->). cbn [andb].
  destruct Hd as [Hd|[-> Hd]]; unfold isDigit in Hd; [by rewrite Hd|]. cbn -[scanNumber]. by rewrite Hd.
Qed.

Lemma scanNumber_exponent src p :
  (p <= length src)%nat -> (consumeExponent src p).1 = length src ->
  drop p src = [] /\ (consumeExponent src p).2 = false
  \/ exponent (drop p src) /\ (consumeExponent src p).2 = true.
Proof.
  intros Hp. pose proof (consumeExponent_found src p Hp) as H.
  destruct (consumeExponent src p) as [p' [|]]; cbn [fst snd]; intros ->.
  - destruct H as (ex & He & Hd & _). rewrite drop_all, app_nil_r in Hd. right. by rewrite Hd.
  - left. split; [|done]. apply drop_ge. lia.
Qed.

(** What the scan of a whole text as one number says of it. *)
Lemma scanNumber_sound s c :
  head s = Some c -> isDigit c = true \/ c = "."%ch /\ isDigit (peek s 0 1) = true ->
  let r := scanNumber s 0 in
  r.2 = length s ->
  (tkKind r.1 = Decimal -> digits s) /\ (tkKind r.1 = Real -> real_value s).
Proof.
  intros Hh Hc r. subst r. rewrite scanNumber_eq.
  assert (H0 : s !! 0%nat = Some c) by (by rewrite lookup_drop_head, drop_0).
  pose proof (lookup_lt_Some _ _ _ H0) as Hlen. rewrite H0.
  case_bool_decide as Edot; cbn [token fst snd tkKind].
  - injection Edot as ->. intros Hend. split; [done|intros _]. left.
    destruct Hc as [Hc|[_ Hc]]; [done|].
    destruct (consumeDigits_run s 1) as (fp & Hfp & Hdig & Hp & _); [lia|].
    destruct (scanNumber_exponent s (consumeDigits s 1)) as [[He _]|[He _]];
      [pose proof (consumeDigits_bounds s 1); lia|done|..].
    all: exists [], fp, (drop (consumeDigits s 1) s); cbn [app]; rewrite <- Hfp, <- (drop_cons_lookup _ _ _ H0), drop_0.
    all: split_and!; [done|by constructor|done| |auto].
    all: intros ->; unfold consumeDigits in Hp; rewrite advance_while_step in Hp; unfold peek in Hc; cbn [Nat.add] in Hc;
      destruct (s !! 1%nat) as [d|]; cbn [default from_option id] in Hc; [|done];
      rewrite Hc in Hp; pose proof (advance_while_ge isDigit s 2); cbn in Hp; lia.
  - destruct Hc as [Hc|[-> _]]; [|done].
    destruct (consumeDigits_run s 0) as (ip & Hip & Hdig & Hp & _); [lia|]. rewrite drop_0 in Hip.
    assert (Hne : ip <> []).
    { intros ->. unfold consumeDigits in Hp. rewrite advance_while_step, H0, Hc in Hp.
      pose proof (advance_while_ge isDigit s 1). cbn in Hp. lia. }
    pose proof (consumeDigits_bounds s 0 ltac:(lia)) as Hb.
    pose proof (fraction_spec s (consumeDigits s 0) ltac:(lia)) as Hf.
    destruct (fraction s (consumeDigits s 0)) as [p [|]].
    + destruct Hf as (fp & Hfne & Hfd & Hfp & Hpe).
      assert (Hple : (p <= length s)%nat).
      { apply (f_equal length) in Hfp. cbn [length] in Hfp. rewrite length_app, !length_drop in Hfp. lia. }
      pose proof (scanNumber_exponent s p Hple) as Hx.
      destruct (consumeExponent s p) as [p' x]. cbn [orb token fst snd tkKind] in *.
      intros ->. split; [done|intros _]. left.
      exists ip, fp, (drop p s). rewrite <- Hfp, <- Hip. split_and!; [done..|].
      destruct (Hx eq_refl) as [[? _]|[? _]]; auto.
    + destruct Hf as [-> _]. pose proof (scanNumber_exponent s (consumeDigits s 0) ltac:(lia)) as Hx.
      destruct (consumeExponent s (consumeDigits s 0)) as [p' x]. cbn [orb token fst snd tkKind] in *.
      intros ->. destruct (Hx eq_refl) as [[Hd ->]|[He ->]].
      * split; [|done]. intros _. rewrite Hip, Hd, app_nil_r. done.
      * split; [done|]. intros _. right. exists ip, (drop (consumeDigits s 0) s). by rewrite <- Hip.
Qed.

Lemma digits_head ds rest c :
  digits ds -> ds <> [] -> head (ds ++ rest) = Some c -> isDigit c = true.
Proof. intros Hd Hne Hh. destruct Hd; [done|]. cbn in Hh. congruence. Qed.

Lemma exponent_head ex c : exponent ex -> head ex = Some c -> isDigit c = false.
Proof. intros (c' & sign & ds & -> & Hc & _) [= <-]. by destruct Hc as [->| ->]. Qed.

Lemma drop_end_nil {A} (l : list A) p : (p <= length l)%nat -> drop p l = [] -> p = length l.
Proof. intros Hp H. apply (f_equal length) in H. rewrite length_drop in H. cbn in H. lia. Qed.

(** An exponent, or nothing, up to the end of the text. *)
Lemma consumeExponent_end s p ex :
  drop p s = ex -> (p <= length s)%nat -> ex = [] \/ exponent ex ->
  (consumeExponent s p).1 = length s /\ ((consumeExponent s p).2 = true <-> ex <> []).
Proof.
  intros Hd Hp [->|He].
  - apply drop_end_nil in Hd as ->; [|done]. unfold consumeExponent.
    rewrite lookup_ge_None_2 by done. done.
  - rewrite (consumeExponent_reads s p ex) by done. split; [done|]. split; [|done].
    intros _ ->. by destruct He as (? & ? & ? & ? & _).
Qed.

(** A fraction is read to its last digit. *)
Lemma fraction_reads s p fp rest :
  drop p s = "."%ch :: fp ++ rest -> digits fp -> fp <> [] -> (p <= length s)%nat ->
  (forall c, head rest = Some c -> isDigit c = false) ->
  fraction s p = ((p + 1 + length fp)%nat, true) /\ drop (p + 1 + length fp) s = rest.
Proof.
  intros Hd Hfp Hne Hp Hr.
  assert (H0 : s !! p = Some "."%ch) by (by rewrite lookup_drop_head, Hd).
  pose proof (lookup_lt_Some _ _ _ H0) as Hlt.
  rewrite (drop_cons_lookup _ _ _ H0) in Hd. injection Hd as Hd. split.
  - unfold fraction. rewrite H0, lookup_drop_head, Hd. destruct fp as [|d fp]; [done|].
    cbn [head app]. inversion Hfp as [|? ? Hd1 _]; subst. rewrite Hd1. cbn [andb].
    rewrite (consumeDigits_stop s (S p) (d :: fp) rest) by (done || lia). f_equal. lia.
  - replace (p + 1 + length fp)%nat with (S p + length fp)%nat by lia.
    by rewrite <- drop_drop, Hd, drop_app_length.
Qed.

Lemma scanNumber_decimal s :
  s <> [] -> digits s -> next_token s 0 = token Decimal 0 (length s).
Proof.
  intros Hne Hd. destruct s as [|c s]; [done|]. inversion Hd as [|? ? Hc Hs]; subst.
  rewrite (next_token_number _ _ c) by (done || by left). rewrite scanNumber_eq.
  rewrite bool_decide_false by (intros [= ->]; done).
  rewrite (consumeDigits_stop (c :: s) 0 (c :: s) []) by (done || (cbn; lia) || (by rewrite app_nil_r)).
  cbn [Nat.add]. unfold fraction. rewrite lookup_ge_None_2 by done.
  unfold consumeExponent. by rewrite lookup_ge_None_2 by done.
Qed.

Lemma scanNumber_real s :
  real_value s -> next_token s 0 = token Real 0 (length s).
Proof.
  intros [(ip & fp & ex & Hs & Hip & Hfp & Hne & Hex)|(ip & ex & Hs & Hip & Hne & Hex)].
  - assert (Hr : forall c, head ex = Some c -> isDigit c = false).
    { destruct Hex as [->|Hex]; [done|]. intros c. by apply exponent_head. }
    assert (Hlen : length s = (length ip + 1 + length fp + length ex)%nat).
    { rewrite Hs, length_app. cbn [length]. rewrite length_app. lia. }
    destruct (fraction_reads s (length ip) fp ex) as [Hf Hdrop]; try done; [|lia|].
    { rewrite Hs. by rewrite drop_app_length. }
    destruct (consumeExponent_end s _ ex Hdrop ltac:(lia) Hex) as [He _].
    destruct ip as [|c ip].
    + cbn [app length Nat.add] in *. assert (H0 : s !! 0%nat = Some "."%ch) by by rewrite Hs.
      rewrite (next_token_number _ _ "."%ch) by
        (done || (right; split; [done|]; rewrite Hs; destruct fp; [done|]; inversion Hfp; done)).
      rewrite scanNumber_eq, H0, bool_decide_true by done.
      rewrite (consumeDigits_stop s 1 fp ex) by (done || lia || (rewrite Hs; cbn; by rewrite drop_0)).
      cbn [Nat.add]. by rewrite He.
    + pose proof Hip as [Hc Hip']%Forall_cons. assert (H0 : s !! 0%nat = Some c) by by rewrite Hs.
      rewrite (next_token_number _ _ c) by (done || by left).
      rewrite scanNumber_eq, H0, bool_decide_false by (intros [= ->]; done).
      rewrite (consumeDigits_stop s 0 (c :: ip) ("."%ch :: fp ++ ex)) by
        (done || lia || (by rewrite drop_0) || (by intros ? [= <-])).
      cbn [Nat.add]. rewrite Hf.
      destruct (consumeExponent s _) as [p x]. cbn [fst] in He. by rewrite He.
  - destruct ip as [|c ip]; [done|]. pose proof Hip as [Hc Hip']%Forall_cons.
    assert (H0 : s !! 0%nat = Some c) by by rewrite Hs.
    assert (Hlen : length s = (length (c :: ip) + length ex)%nat) by by rewrite Hs, length_app.
    assert (Hdrop : drop (length (c :: ip)) s = ex) by by rewrite Hs, drop_app_length.
    rewrite (next_token_number _ _ c) by (done || by left).
    rewrite scanNumber_eq, H0, bool_decide_false by (intros [= ->]; done).
    rewrite (consumeDigits_stop s 0 (c :: ip) ex) by
      (done || lia || (by rewrite drop_0) || (intros ?; by apply exponent_head)).
    cbn [Nat.add].
    assert (Hf : fraction s (length (c :: ip)) = (length (c :: ip), false)).
    { unfold fraction. rewrite lookup_drop_head, Hdrop.
      destruct Hex as (e & sign & ds & -> & He & _). cbn [head app].
      destruct (s !! S (length (c :: ip))); [|done]. by destruct He as [->| ->]. }
    rewrite Hf. destruct (consumeExponent_end s _ ex Hdrop ltac:(lia)) as [He Hx]; [by right|].
    destruct (consumeExponent s (length (c :: ip))) as [p x]. cbn [fst snd] in *. rewrite He.
    assert (x = true) as ->; [|done]. apply Hx. intros ->. by destruct Hex as (? & ? & ? & ? & _).
Qed.

(** [IsDecimalValue] accepts exactly the non-empty texts of digits, and
    [IsRealValue] exactly those with a fraction of at least one digit or an
    exponent of at least one digit: [5.] and [1e] are no numbers, [.5] is. *)
Theorem number_values :
  (forall s, IsDecimalValue s = true <-> s <> [] /\ digits s)
  /\ (forall s, IsRealValue s = true <-> real_value s).
Proof.
  assert (Hsound : forall s k, k = Decimal \/ k = Real -> isNumberToken s k = true ->
            s <> [] /\ (k = Decimal -> digits s) /\ (k = Real -> real_value s)).
  { intros s k Hk H. unfold isNumberToken, Next, New in H. cbn [src pos] in H.
    destruct s as [|c s]; [by destruct Hk as [->| ->]|]. split; [done|].
    destruct (next_token_kind (c :: s) 0 c eq_refl) as (_ & _ & K3).
    pose proof (next_token_scanned (c :: s) 0 c eq_refl) as (Hsp & Hb & _).
    destruct (next_token (c :: s) 0) as [t p] eqn:Et. cbn [fst snd] in *.
    apply andb_true_iff in H as [H1%bool_decide_eq_true H2%Nat.eqb_eq].
    rewrite Hsp in H2. cbn [span Len] in H2. rewrite Nat.sub_0_r in H2. subst p k.
    destruct K3 as [Hcd Hsn]; [done|].
    destruct (scanNumber_sound (c :: s) c eq_refl Hcd) as [S1 S2]; [by rewrite <- Hsn|].
    rewrite <- Hsn in S1, S2. cbn [fst] in *. auto. }
  assert (Hcomp : forall s k, next_token s 0 = token k 0 (length s) -> isNumberToken s k = true).
  { intros s k H. unfold isNumberToken, Next, New. cbn [src pos]. rewrite H.
    cbn [token fst tkKind tkSpan span Len]. rewrite bool_decide_true, Nat.sub_0_r by done.
    by rewrite Nat.eqb_refl. }
  split; intros s; split.
  - intros H. destruct (Hsound s Decimal (or_introl eq_refl) H) as (? & ? & _); auto.
  - intros [Hne Hd]. apply Hcomp. by apply scanNumber_decimal.
  - intros H. destruct (Hsound s Real (or_intror eq_refl) H) as (_ & _ & ?); auto.
  - intros H. apply Hcomp. by apply scanNumber_real.
Qed.

Lemma number_values_witness :
  IsRealValue (bs ".5e-3") = true /\ IsRealValue (bs "5.") = false /\ real_value (bs ".5e-3").
Proof.
  split; [reflexivity|]. split; [reflexivity|]. apply (proj2 number_values). reflexivity.
Defined.
