(* ===== verification/Machine.v ===== *)
(** * Machine integers

    Go's fixed-width integers as [Z]: wrap-around, two's complement and the bit
    facts the binary encodings use. *)
From S2P Require Import Prelude.
Local Open Scope Z_scope.

Definition two64 : Z := 2 ^ 64.
Definition uint64 (z : Z) : Z := z mod two64.
(** Two's complement: the signed reading of 64 bits. *)
Definition int64 (z : Z) : Z := (z + 2 ^ 63) mod two64 - 2 ^ 63.

Definition is_uint64 (z : Z) : Prop := 0 <= z < two64.
Definition is_int64 (z : Z) : Prop := - 2 ^ 63 <= z < 2 ^ 63.

Lemma uint64_small z : is_uint64 z -> uint64 z = z.
Proof. unfold is_uint64, uint64. apply Z.mod_small. Qed.

Lemma uint64_range z : is_uint64 (uint64 z).
Proof. apply Z.mod_pos_bound. done. Qed.

Lemma int64_small z : is_int64 z -> int64 z = z.
Proof.
  unfold is_int64, int64, two64. change (2 ^ 64) with (2 ^ 63 + 2 ^ 63).
  intros. rewrite Z.mod_small by lia. lia.
Qed.

Lemma int64_range z : is_int64 (int64 z).
Proof.
  unfold is_int64, int64. pose proof (Z.mod_pos_bound (z + 2 ^ 63) two64 ltac:(done)).
  unfold two64 in *. change (2 ^ 64) with (2 ^ 63 + 2 ^ 63) in *. lia.
Qed.

(** The two readings of the same 64 bits. *)
Lemma int64_add_int64 x y : int64 (x + int64 y) = int64 (x + y).
Proof.
  unfold int64. replace (x + ((y + 2 ^ 63) mod two64 - 2 ^ 63) + 2 ^ 63) with (x + (y + 2 ^ 63) mod two64) by lia.
  rewrite Zplus_mod_idemp_r. do 2 f_equal. lia.
Qed.

Lemma int64_uint64 z : int64 (uint64 z) = int64 z.
Proof. unfold int64, uint64. by rewrite Zplus_mod_idemp_l. Qed.

(** Bits written above the ones already there add. *)
Lemma lor_high x y s :
  0 <= s -> 0 <= x < 2 ^ s -> Z.lor x (Z.shiftl y s) = x + y * 2 ^ s.
Proof.
  intros Hs Hx. rewrite <- Z.shiftl_mul_pow2 by done.
  assert (Hl : Z.land x (Z.shiftl y s) = 0).
  { apply Z.bits_inj'. intros n Hn. rewrite Z.land_spec, Z.bits_0, Z.shiftl_spec by done.
    destruct (Z.lt_ge_cases n s) as [Hlt|Hge].
    - rewrite (Z.testbit_neg_r y) by lia. apply andb_false_r.
    - replace (Z.testbit x n) with false; [done|]. symmetry.
      destruct (decide (x = 0)) as [->|Hx0]; [apply Z.testbit_0_l|].
      apply Z.bits_above_log2; [lia|]. apply Z.log2_lt_pow2; [lia|].
      eapply Z.lt_le_trans; [apply Hx|]. apply Z.pow_le_mono_r; lia. }
  rewrite <- Z.lxor_lor, <- Z.add_nocarry_lxor by done. done.
Qed.

Lemma land_low_bits z n : 0 <= n -> Z.land z (2 ^ n - 1) = z mod 2 ^ n.
Proof. intros. rewrite <- Z.land_ones by done. by rewrite Z.ones_equiv, Z.sub_1_r. Qed.
