(* ===== verification/Pack.v ===== *)
(** * The binary encoding of the library snapshot

    Models [internal/syntax/pack]: the varints of [encoding/binary] it uses,
    [pack.go]'s [Writer] (a body and an interned string table) and [Reader] (a
    position, the table and a sticky error), and [arena.go].

    A read returns [None] where Go would panic (a slice or index out of range);
    a malformed stream is not one, it sets the reader's error. *)
From stdpp Require Import gmap.
From S2P Require Import Prelude Machine.
Local Open Scope Z_scope.

(** ** Varints *)

(** [binary.AppendUvarint]; a 64-bit value takes at most ten bytes. *)
Fixpoint uvarint_bytes (fuel : nat) (v : Z) : bytes :=
  match fuel with
  | O => [v]
  | S fuel' =>
      if v <? 128 then [v]
      else Z.lor (v mod 256) 128 :: uvarint_bytes fuel' (Z.shiftr v 7)
  end.
Definition AppendUvarint (buf : bytes) (v : Z) : bytes := buf ++ uvarint_bytes 9 v.

(** [binary.Uvarint] from its [i]th byte: the value and the bytes read, zero or
    negative where there is none. *)
Fixpoint uvarint_go (buf : bytes) (i x s : Z) : Z * Z :=
  match buf with
  | [] => (0, 0)
  | b :: buf' =>
      if i =? 10 then (0, - (i + 1))
      else if b <? 128 then
        if (i =? 9) && (1 <? b) then (0, - (i + 1))
        else (Z.lor x (uint64 (Z.shiftl b s)), i + 1)
      else uvarint_go buf' (i + 1) (Z.lor x (uint64 (Z.shiftl (Z.land b 127) s))) (s + 7)
  end.
Definition Uvarint (buf : bytes) : Z * Z := uvarint_go buf 0 0 0.

(** Zigzag: [uint64(x) << 1], complemented for a negative number, and back. *)
Definition zigzag (x : Z) : Z :=
  let ux := uint64 (Z.shiftl (uint64 x) 1) in
  if x <? 0 then two64 - 1 - ux else ux.
Definition unzigzag (ux : Z) : Z :=
  let x := int64 (Z.shiftr ux 1) in
  if negb (Z.land ux 1 =? 0) then - x - 1 else x.

Definition AppendVarint (buf : bytes) (x : Z) : bytes := AppendUvarint buf (zigzag x).
Definition Varint (buf : bytes) : Z * Z := let '(ux, n) := Uvarint buf in (unzigzag ux, n).

(** [binary.LittleEndian]: the eight bytes of a 64-bit value. *)
Fixpoint le_bytes (n : nat) (v : Z) : bytes :=
  match n with O => [] | S n' => Z.land v 255 :: le_bytes n' (Z.shiftr v 8) end.
Fixpoint le_value (b : bytes) : Z :=
  match b with [] => 0 | c :: b' => Z.lor c (Z.shiftl (le_value b') 8) end.

(** ** Writer *)

Record stringTable := { ids : gmap bytes Z; table : list bytes; size : nat }.
Record Writer := { body : bytes; strs : stringTable }.

Definition NewWriter : Writer := {| body := []; strs := {| ids := ∅; table := []; size := 0 |} |}.

Definition append (w : Writer) (b : bytes) : Writer := {| body := w.(body) ++ b; strs := w.(strs) |}.

Definition Writer_Uint (w : Writer) (v : Z) : Writer :=
  {| body := AppendUvarint w.(body) v; strs := w.(strs) |}.
Definition Writer_Int (w : Writer) (v : Z) : Writer :=
  {| body := AppendVarint w.(body) v; strs := w.(strs) |}.
(** A count is never negative here; Go panics on one that is. *)
Definition Writer_Len (w : Writer) (n : nat) : Writer := Writer_Uint w (Z.of_nat n).
Definition Writer_Bool (w : Writer) (b : bool) : Writer := append w [if b then 1 else 0].
(** [Float] writes the IEEE-754 bits, which stand for the float here. *)
Definition Writer_Float (w : Writer) (bits : Z) : Writer := append w (le_bytes 8 bits).

Definition Writer_String (w : Writer) (s : bytes) : Writer :=
  let t := w.(strs) in
  match t.(ids) !! s with
  | Some id => Writer_Uint w id
  | None =>
      let id := Z.of_nat (length t.(table)) in
      Writer_Uint
        {| body := w.(body);
           strs := {| ids := <[s := id]> t.(ids); table := t.(table) ++ [s];
                      size := (t.(size) + length s)%nat |} |} id
  end.

(** A section shares the string table and is written behind its length. *)
Definition Writer_Section (w : Writer) (write : Writer -> Writer) : Writer :=
  let sub := write {| body := []; strs := w.(strs) |} in
  append (Writer_Len {| body := w.(body); strs := sub.(strs) |} (length sub.(body))) sub.(body).

Definition Bytes (w : Writer) : bytes :=
  let t := w.(strs) in
  let out := AppendUvarint [] (Z.of_nat (length t.(table))) in
  let out := fold_left (fun out s => AppendUvarint out (Z.of_nat (length s))) t.(table) out in
  let out := fold_left (fun out s => out ++ s) t.(table) out in
  out ++ w.(body).

(** ** Reader *)

(** What was found malformed, and where. *)
Record error := { what : bytes; at_byte : nat }.
Record Reader := { data : bytes; rpos : nat; rtable : list bytes; err : option error }.

(** A read: [None] is a panic. *)
Abbreviation read A := (Reader -> option (A * Reader)).

Definition advance (r : Reader) (n : nat) : Reader :=
  {| data := r.(data); rpos := r.(rpos) + n; rtable := r.(rtable); err := r.(err) |}.

Definition fail (r : Reader) (w : bytes) : Reader :=
  match r.(err) with
  | Some _ => r
  | None => {| data := r.(data); rpos := r.(rpos); rtable := r.(rtable);
               err := Some {| what := w; at_byte := r.(rpos) |} |}
  end.

(** [r.data[r.pos:]]. *)
Definition rest (r : Reader) : option bytes :=
  if (r.(rpos) <=? length r.(data))%nat then Some (drop r.(rpos) r.(data)) else None.

(** The one-byte value the two varint readers take without a loop. *)
Definition one_byte (r : Reader) : option Z :=
  match r.(data) !! r.(rpos) with
  | Some b => if b <? 128 then Some b else None
  | None => None
  end.

Definition read_varint (decode : bytes -> Z * Z) (short : Z -> Z) : read Z := fun r =>
  match r.(err) with
  | Some _ => Some (0, r)
  | None =>
      match one_byte r with
      | Some b => Some (short b, advance r 1)
      | None =>
          b ← rest r;
          let '(v, n) := decode b in
          if n <=? 0 then Some (0, fail r (bs "varint"))
          else Some (v, advance r (Z.to_nat n))
      end
  end.

Definition Reader_Uint : read Z := read_varint Uvarint id.
(** [int64(v>>1) ^ -int64(v&1)] of one byte. *)
Definition Reader_Int : read Z :=
  read_varint Varint (fun v => Z.lxor (Z.shiftr v 1) (- Z.land v 1)).

Definition Reader_Len : read Z := fun r =>
  '(v, r) ← Reader_Uint r;
  match r.(err) with
  | Some _ => Some (int64 v, r)
  | None =>
      b ← rest r;
      if Z.of_nat (length b) <? v then Some (0, fail r (bs "length")) else Some (int64 v, r)
  end.

Definition Reader_Bool : read bool := fun r =>
  match r.(err) with
  | Some _ => Some (false, r)
  | None =>
      match r.(data) !! r.(rpos) with
      | None => Some (false, fail r (bs "bool"))
      | Some b => Some (negb (b =? 0), advance r 1)
      end
  end.

Definition Reader_Float : read Z := fun r =>
  match r.(err) with
  | Some _ => Some (0, r)
  | None =>
      if Z.of_nat (length r.(data)) - Z.of_nat r.(rpos) <? 8 then Some (0, fail r (bs "float"))
      else b ← rest r; Some (le_value (take 8 b), advance r 8)
  end.

Definition Reader_String : read bytes := fun r =>
  '(id, r) ← Reader_Uint r;
  match r.(err) with
  | Some _ => Some ([], r)
  | None =>
      if Z.of_nat (length r.(rtable)) <=? id then Some ([], fail r (bs "string index"))
      else s ← r.(rtable) !! Z.to_nat id; Some (s, r)
  end.

(** The sub-reader over the next section; [r.data[r.pos : r.pos+n]] panics past
    the end. *)
Definition Reader_Section : read Reader := fun r =>
  '(n, r) ← Reader_Len r;
  match r.(err) with
  | Some _ => Some ({| data := []; rpos := 0; rtable := r.(rtable); err := r.(err) |}, r)
  | None =>
      let stop := (r.(rpos) + Z.to_nat n)%nat in
      if (n <? 0) || negb (stop <=? length r.(data))%nat then None
      else Some ({| data := slice r.(data) r.(rpos) stop; rpos := 0; rtable := r.(rtable);
                    err := None |}, advance r (Z.to_nat n))
  end.

Definition Done (r : Reader) : bool :=
  bool_decide (r.(err) = None) && (r.(rpos) =? length r.(data))%nat.

(** The loop of [NewReader] over the table's lengths: [n] left to read, [size]
    the total so far; a failed read ends it with the reader's error. *)
Fixpoint read_lengths (n : nat) (total : Z) (r : Reader) : option (list Z * Z * Reader) :=
  match n with
  | O => Some ([], total, r)
  | S n' =>
      '(l, r) ← Reader_Len r;
      match r.(err) with
      | Some _ => Some ([], total, r)
      | None =>
          if Z.of_nat (length r.(data)) - Z.of_nat r.(rpos) - total <? l
          then Some ([], total, fail r (bs "string table"))
          else
            '(ls, total, r) ← read_lengths n' (total + l) r;
            Some (l :: ls, total, r)
      end
  end.

(** The table's strings, carved from the joined bytes. *)
Fixpoint carve (all : bytes) (lengths : list Z) : option (list bytes) :=
  match lengths with
  | [] => Some []
  | n :: lengths' =>
      if (n <? 0) || (Z.of_nat (length all) <? n) then None
      else t ← carve (drop (Z.to_nat n) all) lengths'; Some (take (Z.to_nat n) all :: t)
  end.

Definition NewReader (d : bytes) : option (result error Reader) :=
  '(count, r) ← Reader_Len {| data := d; rpos := 0; rtable := []; err := None |};
  match r.(err) with
  | Some e => Some (Err e)
  | None =>
      if count <? 0 then None
      else
        '(lengths, total, r) ← read_lengths (Z.to_nat count) 0 r;
        match r.(err) with
        | Some e => Some (Err e)
        | None =>
            if Z.of_nat (length d) - Z.of_nat r.(rpos) <? total
            then match (fail r (bs "string table")).(err) with
                 | Some e => Some (Err e) | None => None end
            else
              t ← carve (slice d r.(rpos) (r.(rpos) + Z.to_nat total)) lengths;
              Some (Ok {| data := d; rpos := r.(rpos) + Z.to_nat total; rtable := t; err := None |})
        end
  end.

(** ** Arena *)

(** A chunk of the heap and the part of it not handed out; [None] is the nil
    chunk. A slice handed out is a chunk, a start and a length. *)
Record Arena := { chunk : option (nat * nat); next_chunk : nat }.
Record taken := { t_chunk : nat; t_start : nat; t_len : nat }.

Definition arenaChunk : nat := 2048.

Definition chunk_left (a : Arena) : nat :=
  match a.(chunk) with Some (_, start) => arenaChunk - start | None => 0 end.

(** [Take n] for [n >= 0]: [None] for the nil slice of no elements. A large
    slice is an allocation of its own; a chunk too short is replaced. *)
Definition Take (a : Arena) (n : nat) : option taken * Arena :=
  if (n =? 0)%nat then (None, a)
  else if (arenaChunk / 4 <? n)%nat then
    (Some {| t_chunk := a.(next_chunk); t_start := 0; t_len := n |},
     {| chunk := a.(chunk); next_chunk := S a.(next_chunk) |})
  else
    let a := if (chunk_left a <? n)%nat
             then {| chunk := Some (a.(next_chunk), 0%nat); next_chunk := S a.(next_chunk) |} else a in
    match a.(chunk) with
    | None => (None, a)
    | Some (c, start) =>
        (Some {| t_chunk := c; t_start := start; t_len := n |},
         {| chunk := Some (c, (start + n)%nat); next_chunk := a.(next_chunk) |})
    end.
