(* ===== verification/PackFacts.v ===== *)
(** * The binary encoding: properties

    A [Codec] is a way to write a type and to read it back, with the law that what was
    written is read back; the instances cover every kind of write of a stream. Every
    read of the [Reader] is [safe] on any data; [PackSafe] puts them together. *)
From stdpp Require Import gmap.
From S2P Require Import Prelude Machine Pack.
Local Open Scope Z_scope.

(** ** Varints *)

Lemma is_byte_forall (p : Z -> bool) :
  forallb p (seqZ 0 256) = true -> forall b, is_byte b -> p b = true.
Proof. intros H b Hb. rewrite forallb_Forall, Forall_forall in H. apply H, elem_of_seqZ. done. Qed.

Lemma continuation_byte v :
  0 <= v -> 128 <= Z.lor (v mod 256) 128 < 256 /\ Z.land (Z.lor (v mod 256) 128) 127 = v mod 128.
Proof.
  intros Hv. assert (Hb : is_byte (v mod 256)) by (apply Z.mod_pos_bound; done).
  assert (Hc : forall b, is_byte b ->
    (128 <=? Z.lor b 128) && (Z.lor b 128 <? 256) && (Z.land (Z.lor b 128) 127 =? b mod 128) = true).
  { apply is_byte_forall. vm_compute. reflexivity. }
  specialize (Hc _ Hb). bool_split.
  replace (v mod 128) with ((v mod 256) mod 128); [lia|].
  change 256 with (128 * 2). rewrite Z.rem_mul_r by lia. rewrite (Z.mul_comm 128).
  rewrite Z_mod_plus_full. apply Z.mod_mod. lia.
Qed.

Lemma uvarint_bytes_length fuel v : (1 <= length (uvarint_bytes fuel v) <= S fuel)%nat.
Proof.
  revert v. induction fuel as [|fuel IH]; intros v; cbn; [lia|].
  destruct (v <? 128); cbn; [lia|]. specialize (IH (Z.shiftr v 7)). lia.
Qed.

Lemma uvarint_bytes_byte fuel v :
  0 <= v < 2 ^ (7 * Z.of_nat (S fuel)) -> Forall is_byte (uvarint_bytes fuel v).
Proof.
  revert v. induction fuel as [|fuel IH]; intros v Hv; cbn [uvarint_bytes].
  { constructor; [|done]. unfold is_byte. change (2 ^ (7 * Z.of_nat 1)) with 128 in Hv. lia. }
  destruct (Z.ltb_spec v 128); [constructor; [unfold is_byte; lia|done]|].
  destruct (continuation_byte v ltac:(lia)) as [Hb _]. constructor; [unfold is_byte; lia|].
  apply IH. rewrite Z.shiftr_div_pow2 by lia. change (2 ^ 7) with 128.
  replace (7 * Z.of_nat (S (S fuel))) with (7 + 7 * Z.of_nat (S fuel)) in Hv by lia.
  rewrite Z.pow_add_r in Hv by lia. change (2 ^ 7) with 128 in Hv.
  split; [apply Z.div_pos; lia|]. apply Z.div_lt_upper_bound; lia.
Qed.

(** Reading what was written, from any byte of the varint on. *)
Lemma uvarint_go_bytes fuel v rest x i :
  i = 9 - Z.of_nat fuel -> 0 <= i -> 0 <= v -> v * 2 ^ (7 * i) < two64 -> 0 <= x < 2 ^ (7 * i) ->
  uvarint_go (uvarint_bytes fuel v ++ rest) i x (7 * i)
    = (x + v * 2 ^ (7 * i), i + Z.of_nat (length (uvarint_bytes fuel v))).
Proof.
  revert v x i. induction fuel as [|fuel IH]; intros v x i Hi Hi0 Hv Hmax Hx.
  - assert (i = 9) as -> by lia. cbn [uvarint_bytes app uvarint_go length].
    change (7 * 9) with 63 in *. unfold two64 in Hmax. change (2 ^ 64) with (2 * 2 ^ 63) in Hmax.
    assert (v < 2) by nia.
    replace (9 =? 10) with false by done. replace (v <? 128) with true by lia.
    replace ((9 =? 9) && (1 <? v)) with false by lia.
    rewrite uint64_small by (unfold is_uint64, two64; rewrite Z.shiftl_mul_pow2 by lia; lia).
    rewrite lor_high by lia. f_equal.
  - cbn [uvarint_bytes]. assert (Hi10 : (i =? 10) = false) by lia.
    assert (Hsh : forall y, 0 <= y -> y <= v ->
              Z.lor x (uint64 (Z.shiftl y (7 * i))) = x + y * 2 ^ (7 * i)).
    { intros y Hy Hyv. rewrite uint64_small; [apply lor_high; lia|].
      unfold is_uint64. rewrite Z.shiftl_mul_pow2 by lia. nia. }
    destruct (Z.ltb_spec v 128) as [Hlt|Hge].
    + cbn [app uvarint_go length]. rewrite Hi10. replace (v <? 128) with true by lia.
      replace ((i =? 9) && (1 <? v)) with false by lia. rewrite Hsh by lia. f_equal.
    + destruct (continuation_byte v Hv) as [Hb Hl]. cbn [app uvarint_go length]. rewrite Hi10.
      replace (Z.lor (v mod 256) 128 <? 128) with false by lia. rewrite Hl.
      assert (Hdm : v = 128 * (v / 128) + v mod 128) by (apply Z.div_mod; lia).
      assert (Hm : 0 <= v mod 128 < 128) by (apply Z.mod_pos_bound; lia).
      assert (Hp : 2 ^ (7 * (i + 1)) = 128 * 2 ^ (7 * i)).
      { replace (7 * (i + 1)) with (7 + 7 * i) by lia. by rewrite Z.pow_add_r by lia. }
      rewrite Hsh by lia. rewrite Z.shiftr_div_pow2 by lia. change (2 ^ 7) with 128.
      replace (7 * i + 7) with (7 * (i + 1)) by lia.
      assert (Hdp : 0 <= v / 128) by (apply Z.div_pos; lia).
      rewrite IH; [f_equal; rewrite ?Hp; lia|lia|lia|done|rewrite Hp; nia|rewrite Hp; nia].
Qed.

Lemma Uvarint_bytes v rest :
  is_uint64 v ->
  Uvarint (uvarint_bytes 9 v ++ rest) = (v, Z.of_nat (length (uvarint_bytes 9 v))).
Proof.
  intros Hv. unfold Uvarint. change 0 with (7 * 0) at 3.
  rewrite uvarint_go_bytes; [f_equal; lia|done|lia|apply Hv|unfold is_uint64 in Hv; lia|done].
Qed.

(** What any varint decoded is: not negative, and read from bytes that are there. *)
Lemma uvarint_go_bounds buf i x s v n :
  Forall is_byte buf -> 0 <= i -> 0 <= x -> 0 <= s ->
  uvarint_go buf i x s = (v, n) -> 0 <= v /\ n <= i + Z.of_nat (length buf).
Proof.
  revert i x s. induction buf as [|b buf IH]; intros i x s Hbuf Hi Hx Hs; cbn [uvarint_go length].
  { intros [= <- <-]. lia. }
  inversion Hbuf as [|? ? Hb Hbuf']; subst. unfold is_byte in Hb.
  assert (Hlor : forall y, 0 <= Z.lor x (uint64 y)).
  { intros y. apply Z.lor_nonneg. split; [done|]. apply uint64_range. }
  destruct (i =? 10); [intros [= <- <-]; lia|].
  destruct (b <? 128).
  - destruct (_ && _); intros [= <- <-]; [lia|]. split; [apply Hlor|lia].
  - intros H. apply IH in H; try done; [lia|lia|lia].
Qed.

(** ** Zigzag *)

Lemma zigzag_value x : is_int64 x -> zigzag x = if x <? 0 then - 2 * x - 1 else 2 * x.
Proof.
  intros Hx. unfold zigzag, is_int64 in *. rewrite Z.shiftl_mul_pow2 by lia. change (2 ^ 1) with 2.
  unfold uint64, two64. change (2 ^ 64) with (2 * 2 ^ 63).
  destruct (Z.ltb_spec x 0).
  - rewrite <- (Z_mod_plus_full x 1). rewrite Z.mul_1_l, (Z.mod_small (x + _)) by lia.
    rewrite <- (Z_mod_plus_full _ (-1)), Z.mod_small by lia. lia.
  - rewrite (Z.mod_small x) by lia. rewrite Z.mod_small by lia. lia.
Qed.

Lemma zigzag_range x : is_int64 x -> is_uint64 (zigzag x).
Proof.
  intros Hx. rewrite zigzag_value by done. unfold is_int64, is_uint64, two64 in *.
  change (2 ^ 64) with (2 * 2 ^ 63). destruct (Z.ltb_spec x 0); lia.
Qed.

Lemma unzigzag_zigzag x : is_int64 x -> unzigzag (zigzag x) = x.
Proof.
  intros Hx. rewrite zigzag_value by done. unfold unzigzag, is_int64 in *.
  assert (Hbit : forall z, Z.land z 1 = z mod 2) by (intros; apply (land_low_bits z 1); lia).
  rewrite Hbit, Z.shiftr_div_pow2 by lia. change (2 ^ 1) with 2.
  destruct (Z.ltb_spec x 0).
  - assert (Hm : (-2 * x - 1) mod 2 = 1) by (Z.to_euclidean_division_equations; lia).
    assert (Hd : (-2 * x - 1) / 2 = - x - 1) by (Z.to_euclidean_division_equations; lia).
    rewrite Hm, Hd. cbn [negb Z.eqb]. rewrite int64_small by (unfold is_int64; lia). lia.
  - assert (Hm : (2 * x) mod 2 = 0) by (Z.to_euclidean_division_equations; lia).
    assert (Hd : (2 * x) / 2 = x) by (Z.to_euclidean_division_equations; lia).
    rewrite Hm, Hd. cbn [negb Z.eqb]. by rewrite int64_small.
Qed.

(** The one-byte readings agree with the decoders. *)
Lemma short_uint b rest : 0 <= b < 128 -> Uvarint (b :: rest) = (b, 1).
Proof.
  intros Hb. assert (H : uvarint_bytes 9 b = [b]) by (cbn; by replace (b <? 128) with true by lia).
  change (b :: rest) with ([b] ++ rest). rewrite <- H. rewrite Uvarint_bytes, H; [done|].
  unfold is_uint64, two64. lia.
Qed.

Lemma short_int b : 0 <= b < 128 -> Z.lxor (Z.shiftr b 1) (- Z.land b 1) = unzigzag b.
Proof.
  intros Hb. apply Z.eqb_eq. revert b Hb.
  assert (H : forall b, is_byte b -> (128 <=? b) || (Z.lxor (Z.shiftr b 1) (- Z.land b 1) =? unzigzag b) = true).
  { apply is_byte_forall. vm_compute. reflexivity. }
  intros b Hb. specialize (H b ltac:(unfold is_byte; lia)).
  apply orb_true_iff in H as [H|H]; [lia|done].
Qed.

Lemma le_value_bytes n v : 0 <= v < 2 ^ (8 * Z.of_nat n) -> le_value (le_bytes n v) = v.
Proof.
  revert v. induction n as [|n IH]; intros v Hv; cbn [le_bytes le_value].
  { change (2 ^ (8 * Z.of_nat 0)) with 1 in Hv. lia. }
  change 255 with (2 ^ 8 - 1). rewrite (land_low_bits v 8) by lia. change (2 ^ 8) with 256. rewrite Z.shiftr_div_pow2 by lia.
  change (2 ^ 8) with 256. replace (8 * Z.of_nat (S n)) with (8 + 8 * Z.of_nat n) in Hv by lia.
  rewrite Z.pow_add_r in Hv by lia. change (2 ^ 8) with 256 in Hv.
  rewrite IH by (split; [apply Z.div_pos; lia|apply Z.div_lt_upper_bound; lia]).
  rewrite lor_high; [|lia|apply Z.mod_pos_bound; lia]. change (2 ^ 8) with 256.
  pose proof (Z.div_mod v 256). lia.
Qed.

(** ** Readers and writers *)

(** A reader within its data; Go slices hold fewer than 2^63 bytes. *)
Definition wf_reader (r : Reader) : Prop :=
  (rpos r <= length (data r))%nat /\ Forall is_byte (data r) /\ Z.of_nat (length (data r)) < 2 ^ 63.

(** The interned ids are the positions of the table. *)
Definition wf_table (t : stringTable) : Prop :=
  forall s id, ids t !! s = Some id <-> 0 <= id /\ table t !! Z.to_nat id = Some s.

(** A read is safe: it does not panic, stays within the data it was given, never
    moves back, and after a failure does nothing but return its zero. *)
Definition safe {A} (get : read A) (zero : A) : Prop :=
  forall r, wf_reader r -> exists a r', get r = Some (a, r')
    /\ wf_reader r' /\ data r' = data r /\ rtable r' = rtable r /\ (rpos r <= rpos r')%nat
    /\ (err r <> None -> a = zero /\ r' = r).

(** [get] reads [a] back where [enc] is next and the table has the strings. *)
Definition decodes {A} (get : read A) (tbl : list bytes) (enc : bytes) (a : A) : Prop :=
  forall r rest, wf_reader r -> err r = None -> tbl `prefix_of` rtable r ->
    drop (rpos r) (data r) = enc ++ rest -> get r = Some (a, advance r (length enc)).

(** What writing [a] adds to a writer. *)
Definition encodes {A} (w w' : Writer) (get : read A) (a : A) : Prop :=
  wf_table (strs w') /\ table (strs w) `prefix_of` table (strs w') /\
  exists enc, body w' = body w ++ enc /\ (1 <= length enc)%nat /\ Forall is_byte enc
    /\ decodes get (table (strs w')) enc a.

Class Codec (A : Type) := {
  put : Writer -> A -> Writer;
  get : read A;
  valid : A -> Prop;
  put_grows : forall w a, table (strs w) `prefix_of` table (strs (put w a))
    /\ (length (body w) < length (body (put w a)))%nat;
  put_get : forall w a, wf_table (strs w) -> valid a ->
    Z.of_nat (length (table (strs (put w a)))) < two64 ->
    Z.of_nat (length (body (put w a))) < 2 ^ 63 -> encodes w (put w a) get a;
}.

Lemma lookup_enc r enc rest c :
  drop (rpos r) (data r) = (c :: enc) ++ rest -> data r !! rpos r = Some c.
Proof. intros H. by rewrite lookup_drop_head, H. Qed.

Lemma rest_wf r : wf_reader r -> Pack.rest r = Some (drop (rpos r) (data r)).
Proof. intros [H _]. unfold Pack.rest. by apply Nat.leb_le in H as ->. Qed.

Lemma advance_wf r n :
  wf_reader r -> (rpos r + n <= length (data r))%nat -> wf_reader (advance r n).
Proof. by intros (H1 & H2 & H3) Hn. Qed.

Lemma fail_wf r w : wf_reader r -> wf_reader (fail r w) /\ data (fail r w) = data r
  /\ rtable (fail r w) = rtable r /\ rpos (fail r w) = rpos r /\ err (fail r w) <> None.
Proof. intros H. unfold fail. by destruct (err r) eqn:E; rewrite ?E. Qed.

Lemma wf_byte r b : wf_reader r -> data r !! rpos r = Some b -> is_byte b.
Proof. intros (_ & H & _) Hb. by eapply Forall_lookup_1 in H. Qed.

Lemma bytes_drop (l : bytes) n : Forall is_byte l -> Forall is_byte (drop n l).
Proof. apply Forall_drop. Qed.

(** A decoder of varints: never negative past the bytes there are. *)
Definition decoder (decode : bytes -> Z * Z) : Prop :=
  forall b v n, Forall is_byte b -> decode b = (v, n) -> n <= Z.of_nat (length b).

Lemma Uvarint_decoder : decoder Uvarint.
Proof.
  intros b v n Hb H. unfold Uvarint in H. apply uvarint_go_bounds in H as [_ H]; try done; lia.
Qed.
Lemma Varint_decoder : decoder Varint.
Proof.
  intros b v n Hb H. unfold Varint in H. destruct (Uvarint b) as [ux m] eqn:E.
  apply (f_equal snd) in H. cbn in H. subst m. by eapply Uvarint_decoder.
Qed.

Lemma read_varint_safe decode short : decoder decode -> safe (read_varint decode short) 0.
Proof.
  intros Hd r Hr. unfold read_varint. destruct (err r) as [e|] eqn:Ee.
  { by exists 0, r. }
  unfold one_byte. rewrite (rest_wf r Hr).
  assert (Hone : forall v, (rpos r + 1 <= length (data r))%nat ->
    exists (a : Z) r', Some (v, advance r 1) = Some (a, r') /\ wf_reader r' /\ data r' = data r
      /\ rtable r' = rtable r /\ (rpos r <= rpos r')%nat /\ (@None error <> None -> a = 0 /\ r' = r)).
  { intros v Hl. exists v, (advance r 1). split_and!; try done; [by apply advance_wf|cbn; lia]. }
  assert (Hslow : exists (a : Z) r',
    (let '(v, n) := decode (drop (rpos r) (data r)) in
     if n <=? 0 then Some (0, fail r (bs "varint")) else Some (v, advance r (Z.to_nat n))) = Some (a, r')
    /\ wf_reader r' /\ data r' = data r /\ rtable r' = rtable r /\ (rpos r <= rpos r')%nat
    /\ (@None error <> None -> a = 0 /\ r' = r)).
  { destruct (decode _) as [v n] eqn:E. destruct (Z.leb_spec n 0).
    - destruct (fail_wf r (bs "varint") Hr) as (F1 & F2 & F3 & F4 & F5).
      exists 0, (fail r (bs "varint")). split_and!; try done. lia.
    - apply Hd in E; [|by apply bytes_drop, Hr]. rewrite length_drop in E. destruct Hr as [Hp Hr].
      exists v, (advance r (Z.to_nat n)). split_and!; try done; [|cbn; lia].
      apply advance_wf; [done|lia]. }
  destruct (data r !! rpos r) as [b|] eqn:Eb; [|exact Hslow].
  destruct (b <? 128); [|exact Hslow]. apply Hone. apply lookup_lt_Some in Eb. lia.
Qed.

(** A varint read whose short form agrees with its decoder. *)
Lemma read_varint_decodes decode short v enc tbl :
  (1 <= length enc)%nat ->
  (forall rest, decode (enc ++ rest) = (v, Z.of_nat (length enc))) ->
  (forall b rest, 0 <= b < 128 -> decode (b :: rest) = (short b, 1)) ->
  decodes (read_varint decode short) tbl enc v.
Proof.
  intros Hlen Hdec Hshort r rest Hr He _ Hd. unfold read_varint. rewrite He. unfold one_byte.
  assert (Hslow : (b ← Pack.rest r; let '(v, n) := decode b in
     if n <=? 0 then Some (0, fail r (bs "varint")) else Some (v, advance r (Z.to_nat n)))
     = Some (v, advance r (length enc))).
  { rewrite (rest_wf r Hr). cbn [mbind option_bind]. rewrite Hd, Hdec.
    replace (Z.of_nat (length enc) <=? 0) with false by lia. by rewrite Nat2Z.id. }
  destruct (data r !! rpos r) as [b|] eqn:Eb; [|exact Hslow].
  destruct (Z.ltb_spec b 128) as [Hb|]; [|exact Hslow].
  pose proof (wf_byte r b Hr Eb) as Hb0. unfold is_byte in Hb0.
  rewrite (drop_cons_lookup _ _ _ Eb) in Hd. destruct enc as [|c enc]; [cbn in Hlen; lia|].
  cbn [app] in Hd. injection Hd as -> Hd.
  specialize (Hdec rest). cbn [app] in Hdec. rewrite Hshort in Hdec by lia.
  injection Hdec as -> Hn. assert (enc = []) as -> by (destruct enc; [done|cbn in Hn; lia]). done.
Qed.

Lemma uint_encodes v tbl : is_uint64 v -> decodes Reader_Uint tbl (uvarint_bytes 9 v) v.
Proof.
  intros Hv. apply read_varint_decodes; [apply uvarint_bytes_length| |].
  - intros rest. by apply Uvarint_bytes.
  - intros b rest Hb. by apply short_uint.
Qed.

Lemma uint_bytes_byte v : is_uint64 v -> Forall is_byte (uvarint_bytes 9 v).
Proof.
  intros Hv. apply uvarint_bytes_byte. unfold is_uint64, two64 in Hv.
  assert (2 ^ 64 < 2 ^ (7 * Z.of_nat 10)) by done. lia.
Qed.

(** ** Codecs *)

Lemma put_uint_law w v :
  wf_table (strs w) -> is_uint64 v -> encodes w (Writer_Uint w v) Reader_Uint v.
Proof.
  intros Hw Hv. split; [done|]. split; [done|]. exists (uvarint_bytes 9 v).
  split_and!; [done|apply uvarint_bytes_length|by apply uint_bytes_byte|by apply uint_encodes].
Qed.

Lemma uint_grows w v : table (strs w) `prefix_of` table (strs (Writer_Uint w v))
  /\ (length (body w) < length (body (Writer_Uint w v)))%nat.
Proof.
  cbn. unfold AppendUvarint. rewrite length_app.
  pose proof (uvarint_bytes_length 9 v). split; [done|lia].
Qed.

#[refine, export] Instance uint_codec : Codec Z := {|
  put := Writer_Uint; get := Reader_Uint; valid := is_uint64;
  put_grows := _; put_get := _ |}.
Proof.
  - intros w v. apply uint_grows.
  - intros w v Hw Hv _ _. by apply put_uint_law.
Defined.

(** A signed integer. *)
Record sint := Sint { sint_val : Z }.

(** A read followed by a pure change of its value. *)
Definition fmap_read {A B} (f : A -> B) (get : read A) : read B := fun r =>
  '(a, r) ← get r; Some (f a, r).

Lemma fmap_decodes {A B} (f : A -> B) (get : read A) tbl enc a :
  decodes get tbl enc a -> decodes (fmap_read f get) tbl enc (f a).
Proof. intros H r rest Hr He Ht Hd. unfold fmap_read. by rewrite (H r rest Hr He Ht Hd). Qed.

#[refine, export] Instance sint_codec : Codec sint := {|
  put w x := Writer_Int w (sint_val x); get := fmap_read Sint Reader_Int;
  valid x := is_int64 (sint_val x); put_grows := _; put_get := _ |}.
Proof.
  - intros w [x]. apply uint_grows.
  - intros w [x] Hw Hx _ _. cbn [sint_val] in *. pose proof (zigzag_range _ Hx) as Hz.
    split; [done|]. split; [done|]. exists (uvarint_bytes 9 (zigzag x)).
    split_and!; [done|apply uvarint_bytes_length|by apply uint_bytes_byte|].
    apply fmap_decodes, read_varint_decodes; [apply uvarint_bytes_length| |].
    + intros rest. unfold Varint. rewrite Uvarint_bytes by done. by rewrite unzigzag_zigzag.
    + intros b rest Hb. unfold Varint. by rewrite short_uint, short_int.
Defined.

Lemma bool_safe : safe Reader_Bool false.
Proof.
  intros r Hr. unfold Reader_Bool. destruct (err r) eqn:Ee; [by exists false, r|].
  destruct (data r !! rpos r) as [b|] eqn:Eb.
  - apply lookup_lt_Some in Eb. eexists _, _. split_and!; [done|apply advance_wf; [done|lia]|done..|cbn; lia|done].
  - destruct (fail_wf r (bs "bool") Hr) as (F1 & F2 & F3 & F4 & _).
    eexists _, _. split_and!; [done..|lia|done].
Qed.

#[refine, export] Instance bool_codec : Codec bool := {|
  put := Writer_Bool; get := Reader_Bool; valid _ := True;
  put_grows := _; put_get := _ |}.
Proof.
  - intros w b. cbn. rewrite length_app. cbn. split; [done|lia].
  - intros w b Hw _ _ _. split; [done|]. split; [done|]. exists [if b then 1 else 0].
    split_and!; [done|done|by destruct b; repeat constructor|].
    intros r rest Hr He _ Hd. unfold Reader_Bool. rewrite He.
    rewrite (lookup_enc r [] rest _ Hd). by destruct b.
Defined.

(** The bits of a float. *)
Record float := Float { bits : Z }.

Lemma le_bytes_length n v : length (le_bytes n v) = n.
Proof. revert v. induction n as [|n IH]; intros v; [done|]. cbn. by rewrite IH. Qed.

Lemma le_bytes_byte n v : 0 <= v -> Forall is_byte (le_bytes n v).
Proof.
  revert v. induction n as [|n IH]; intros v Hv; cbn [le_bytes]; [constructor|]. constructor.
  - change 255 with (2 ^ 8 - 1). rewrite land_low_bits by lia. apply Z.mod_pos_bound. lia.
  - apply IH. by apply Z.shiftr_nonneg.
Qed.

Lemma float_safe : safe Reader_Float 0.
Proof.
  intros r Hr. unfold Reader_Float. destruct (err r) eqn:Ee; [by exists 0, r|].
  destruct (Z.ltb_spec (Z.of_nat (length (data r)) - Z.of_nat (rpos r)) 8).
  - destruct (fail_wf r (bs "float") Hr) as (F1 & F2 & F3 & F4 & _).
    eexists _, _. split_and!; [done..|lia|done].
  - rewrite (rest_wf r Hr). cbn [mbind option_bind]. destruct Hr as [Hp Hr].
    eexists _, _. split_and!; [done|apply advance_wf; [done|lia]|done..|cbn; lia|done].
Qed.

#[refine, export] Instance float_codec : Codec float := {|
  put w f := Writer_Float w (bits f); get := fmap_read Float Reader_Float;
  valid f := is_uint64 (bits f); put_grows := _; put_get := _ |}.
Proof.
  - intros w [f]. cbn. rewrite length_app. cbn. split; [done|lia].
  - intros w [f] Hw Hf _ _. cbn [bits] in *. split; [done|]. split; [done|]. exists (le_bytes 8 f).
    split_and!; [done|rewrite le_bytes_length; lia|apply le_bytes_byte, Hf|].
    apply fmap_decodes. intros r rest Hr He _ Hd. unfold Reader_Float. rewrite He.
    assert (Hlen : (rpos r + 8 <= length (data r))%nat).
    { apply (f_equal length) in Hd. rewrite length_drop, length_app, le_bytes_length in Hd. lia. }
    replace (Z.of_nat (length (data r)) - Z.of_nat (rpos r) <? 8) with false by lia.
    rewrite (rest_wf r Hr). cbn [mbind option_bind]. rewrite Hd, le_bytes_length.
    replace 8%nat with (length (le_bytes 8 f)) at 1 by apply le_bytes_length.
    rewrite take_app_length, le_value_bytes; [done|apply Hf].
Defined.

(** *** Composition *)

Lemma prefix_length_le {A} (l k : list A) : l `prefix_of` k -> (length l <= length k)%nat.
Proof. intros [t ->]. rewrite length_app. lia. Qed.

Lemma decodes_mono {A} (get : read A) tbl tbl' enc a :
  tbl `prefix_of` tbl' -> decodes get tbl enc a -> decodes get tbl' enc a.
Proof. intros Ht H r rest Hr He Ht' Hd. apply (H r rest); [done..| |done]. by etrans. Qed.

Lemma advance_add r n m : advance (advance r n) m = advance r (n + m).
Proof. unfold advance. cbn. by rewrite Nat.add_assoc. Qed.

Lemma drop_enc_length r enc rest :
  wf_reader r -> drop (rpos r) (data r) = enc ++ rest -> (rpos r + length enc <= length (data r))%nat.
Proof.
  intros [Hp _] Hd. apply (f_equal length) in Hd. rewrite length_drop, length_app in Hd. lia.
Qed.

(** After the first part is read, the second is next. *)
Lemma decodes_then {A B C} (get1 : read A) (get2 : A -> read B) (f : A -> B -> C) tbl enc1 enc2 a b :
  decodes get1 tbl enc1 a -> decodes (get2 a) tbl enc2 b ->
  decodes (fun r => '(x, r) ← get1 r; '(y, r) ← get2 x r; Some (f x y, r)) tbl (enc1 ++ enc2) (f a b).
Proof.
  intros H1 H2 r rest Hr He Ht Hd. rewrite <- app_assoc in Hd.
  rewrite (H1 r (enc2 ++ rest) Hr He Ht Hd). cbn [mbind option_bind].
  pose proof (drop_enc_length _ _ _ Hr Hd) as Hl.
  rewrite (H2 (advance r (length enc1)) rest); [|by apply advance_wf|done|done|].
  - cbn [mbind option_bind]. by rewrite advance_add, length_app.
  - cbn. by rewrite <- drop_drop, Hd, drop_app_length.
Qed.

#[refine, export] Instance pair_codec {A B} `{CA : Codec A, CB : Codec B} : Codec (A * B) := {|
  put w p := put (put w p.1) p.2;
  get := fun r => '(x, r) ← get r; '(y, r) ← get r; Some ((x, y), r);
  valid p := valid p.1 /\ valid p.2;
  put_grows := _; put_get := _ |}.
Proof.
  - intros w [a b]. cbn [fst snd]. destruct (put_grows w a) as [G1 G2].
    destruct (put_grows (put w a) b) as [G3 G4]. split; [by etrans|lia].
  - intros w [a b] Hw [Ha Hb] Ht Hl. cbn [fst snd] in *.
    destruct (put_grows (put w a) b) as [G3 G4]. pose proof (prefix_length_le _ _ G3).
    destruct (put_get w a Hw Ha) as (W1 & P1 & enc1 & E1 & L1 & B1 & D1); [lia..|].
    destruct (put_get (put w a) b W1 Hb Ht Hl) as (W2 & P2 & enc2 & E2 & L2 & B2 & D2).
    split; [done|]. split; [by etrans|]. exists (enc1 ++ enc2). split_and!.
    + by rewrite E2, E1, app_assoc.
    + rewrite length_app. lia.
    + by apply Forall_app.
    + apply (decodes_then get (fun _ => get) pair); [by eapply decodes_mono|done].
Defined.

(** *** Strings *)

Lemma wf_table_insert t s :
  wf_table t -> ids t !! s = None ->
  wf_table {| ids := <[s := Z.of_nat (length (table t))]> (ids t); table := table t ++ [s];
              size := size t + length s |}.
Proof.
  intros Ht Hs s' id. cbn [ids table].
  destruct (decide (s = s')) as [<-|Hne].
  - rewrite lookup_insert_eq. split.
    + intros [= <-]. split; [lia|]. rewrite Nat2Z.id. by apply list_lookup_middle.
    + intros [Hid Hl]. f_equal. apply lookup_app_Some in Hl as [Hl|[Hl1 Hl2]].
      * assert (ids t !! s = Some id) by (by apply Ht). congruence.
      * apply list_lookup_singleton_Some in Hl2 as [Hl2 _]. lia.
  - rewrite lookup_insert_ne by done. rewrite (Ht s' id). split.
    + intros [Hid Hl]. split; [done|]. by apply lookup_app_l_Some.
    + intros [Hid Hl]. split; [done|]. apply lookup_app_Some in Hl as [Hl|[Hl1 Hl2]]; [done|].
      apply list_lookup_singleton_Some in Hl2 as [_ Hl2]. congruence.
Qed.

Lemma string_decodes tbl id s :
  0 <= id -> is_uint64 id -> tbl !! Z.to_nat id = Some s ->
  decodes Reader_String tbl (uvarint_bytes 9 id) s.
Proof.
  intros H0 Hid Hs r rest Hr He Ht Hd. unfold Reader_String.
  rewrite (uint_encodes id tbl Hid r rest Hr He Ht Hd). cbn [mbind option_bind advance err].
  rewrite He. apply (prefix_lookup_Some _ _ _ _ Hs) in Ht as Hl. pose proof (lookup_lt_Some _ _ _ Hl).
  change (rtable (advance r (length (uvarint_bytes 9 id)))) with (rtable r).
  replace (Z.of_nat (length (rtable r)) <=? id) with false by lia. by rewrite Hl.
Qed.

Lemma uint_nonneg r v r' : wf_reader r -> Reader_Uint r = Some (v, r') -> 0 <= v.
Proof.
  intros Hr. unfold Reader_Uint, read_varint, one_byte. destruct (err r); [intros [= <- _]; done|].
  assert (Hslow : (b ← Pack.rest r; let '(v, n) := Uvarint b in
     if n <=? 0 then Some (0, fail r (bs "varint")) else Some (v, advance r (Z.to_nat n))) = Some (v, r') -> 0 <= v).
  { rewrite (rest_wf r Hr). cbn [mbind option_bind]. destruct (Uvarint _) as [u n] eqn:E.
    apply uvarint_go_bounds in E as [E _]; [|by apply bytes_drop, Hr|done..].
    destruct (n <=? 0); intros [= <- _]; done. }
  destruct (data r !! rpos r) as [b|] eqn:Eb; [|exact Hslow].
  destruct (b <? 128); [|exact Hslow]. intros [= <- _]. cbn. by apply (wf_byte r b Hr Eb).
Qed.

Lemma string_safe : safe Reader_String [].
Proof.
  intros r Hr. unfold Reader_String.
  destruct (read_varint_safe Uvarint id Uvarint_decoder r Hr) as (id & r1 & E & W & D & T & P & S).
  unfold Reader_Uint. rewrite E. cbn [mbind option_bind].
  destruct (err r1) as [e|] eqn:Ee.
  { exists [], r1. split_and!; try done. intros He. by destruct (S He) as [_ ->]. }
  assert (Hne : err r = None).
  { destruct (err r) eqn:Er; [|done]. destruct S as [_ ->]; [done|]. congruence. }
  destruct (Z.leb_spec (Z.of_nat (length (rtable r1))) id).
  { destruct (fail_wf r1 (bs "string index") W) as (F1 & F2 & F3 & F4 & _).
    eexists _, _. split_and!; [done|done|congruence|congruence|lia|congruence]. }
  pose proof (uint_nonneg r id r1 Hr E).
  destruct (lookup_lt_is_Some_2 (rtable r1) (Z.to_nat id)) as [s Hs]; [lia|].
  rewrite Hs. eexists _, _. split_and!; [done|done|congruence|congruence|lia|congruence].
Qed.

#[refine, export] Instance string_codec : Codec bytes := {|
  put := Writer_String; get := Reader_String; valid _ := True;
  put_grows := _; put_get := _ |}.
Proof.
  - intros w s. unfold Writer_String. destruct (ids (strs w) !! s) as [id|]; [apply uint_grows|].
    destruct (uint_grows {| body := body w; strs := {| ids := <[s:=Z.of_nat (length (table (strs w)))]> (ids (strs w));
      table := table (strs w) ++ [s]; size := size (strs w) + length s |} |} (Z.of_nat (length (table (strs w)))))
      as [G1 G2]. split; [|exact G2]. etrans; [by apply prefix_app_r|exact G1].
  - intros w s Hw _. unfold Writer_String. destruct (ids (strs w) !! s) as [id|] eqn:E; intros Ht Hl.
    + apply Hw in E as [H0 E]. pose proof (lookup_lt_Some _ _ _ E). cbn [Writer_Uint strs] in Ht.
      assert (is_uint64 id) by (unfold is_uint64; lia).
      split; [done|]. split; [done|]. exists (uvarint_bytes 9 id).
      split_and!; [done|apply uvarint_bytes_length|by apply uint_bytes_byte|by apply string_decodes].
    + pose proof (wf_table_insert _ _ Hw E) as Hw'. cbn [Writer_Uint strs table] in Ht.
      rewrite length_app in Ht. cbn in Ht.
      assert (Hid : is_uint64 (Z.of_nat (length (table (strs w))))) by (unfold is_uint64; lia).
      split; [done|]. split; [by apply prefix_app_r|]. eexists.
      split_and!; [done|apply uvarint_bytes_length|by apply uint_bytes_byte|].
      apply string_decodes; [lia|done|]. cbn. rewrite Nat2Z.id. by apply list_lookup_middle.
Defined.

(** *** Lists and sections *)

Lemma len_safe : safe Reader_Len 0.
Proof.
  intros r Hr. unfold Reader_Len.
  destruct (read_varint_safe Uvarint id Uvarint_decoder r Hr) as (v & r1 & E & W & D & T & P & S).
  unfold Reader_Uint. rewrite E. cbn [mbind option_bind].
  destruct (err r1) as [e|] eqn:Ee.
  { exists (int64 v), r1. split_and!; try done. intros He. by destruct (S He) as [-> ->]. }
  assert (Hne : err r = None).
  { destruct (err r) eqn:Er; [|done]. destruct S as [_ ->]; [done|]. congruence. }
  rewrite (rest_wf r1 W). cbn [mbind option_bind]. destruct (_ <? v).
  - destruct (fail_wf r1 (bs "length") W) as (F1 & F2 & F3 & F4 & _).
    eexists _, _. split_and!; [done|done|congruence|congruence|lia|congruence].
  - eexists _, _. split_and!; [done|done|congruence|congruence|lia|congruence].
Qed.

(** A length read is a count of bytes that are left. *)
Lemma len_bound r n r' :
  wf_reader r -> Reader_Len r = Some (n, r') -> err r' = None ->
  0 <= n <= Z.of_nat (length (data r') - rpos r').
Proof.
  intros Hr. unfold Reader_Len.
  destruct (read_varint_safe Uvarint id Uvarint_decoder r Hr) as (v & r1 & E & W & D & T & P & S).
  unfold Reader_Uint. rewrite E. cbn [mbind option_bind]. pose proof (uint_nonneg r v r1 Hr E).
  destruct (err r1) as [e|] eqn:Ee; [intros [= _ <-]; congruence|].
  rewrite (rest_wf r1 W). cbn [mbind option_bind]. rewrite length_drop.
  destruct (Z.ltb_spec (Z.of_nat (length (data r1) - rpos r1)) v).
  - intros [= _ <-]. by destruct (fail_wf r1 (bs "length") W) as (_ & _ & _ & _ & ?).
  - intros [= <- <-] _. destruct W as (_ & _ & W). rewrite int64_small by (unfold is_int64; lia). lia.
Qed.

Lemma len_reads r n rest :
  wf_reader r -> err r = None ->
  drop (rpos r) (data r) = uvarint_bytes 9 (Z.of_nat n) ++ rest -> (n <= length rest)%nat ->
  Reader_Len r = Some (Z.of_nat n, advance r (length (uvarint_bytes 9 (Z.of_nat n)))).
Proof.
  intros Hr He Hd Hn. pose proof (drop_enc_length _ _ _ Hr Hd) as Hl.
  assert (Hlen : (n <= length (data r))%nat).
  { apply (f_equal length) in Hd. rewrite length_drop, length_app in Hd. lia. }
  assert (Hr' := Hr). destruct Hr' as (_ & _ & Hmax).
  assert (Hu : is_uint64 (Z.of_nat n)) by (unfold is_uint64, two64; lia).
  unfold Reader_Len. rewrite (uint_encodes (Z.of_nat n) [] Hu r rest Hr He (prefix_nil _) Hd).
  cbn [mbind option_bind]. change (err (advance r ?k)) with (err r). rewrite He.
  rewrite rest_wf by by apply advance_wf. cbn [mbind option_bind].
  change (data (advance r ?k)) with (data r). change (rpos (advance r ?k)) with (rpos r + k)%nat.
  rewrite <- drop_drop, Hd, drop_app_length.
  replace (Z.of_nat (length rest) <? Z.of_nat n) with false by lia.
  rewrite int64_small by (unfold is_int64; lia). done.
Qed.

(** The loop a caller reads [n] elements with. *)
Fixpoint read_n {A} (get : read A) (n : nat) : read (list A) := fun r =>
  match n with
  | O => Some ([], r)
  | S n' => '(x, r) ← get r; '(l, r) ← read_n get n' r; Some (x :: l, r)
  end.

Definition get_list {A} (get : read A) : read (list A) := fun r =>
  '(n, r) ← Reader_Len r; read_n get (Z.to_nat n) r.

Definition put_list {A} (put : Writer -> A -> Writer) (w : Writer) (l : list A) : Writer :=
  fold_left put l (Writer_Len w (length l)).

Section list_codec.
Context {A : Type} `{CA : Codec A}.

Lemma fold_grows l w :
  table (strs w) `prefix_of` table (strs (fold_left put l w))
  /\ (length (body w) + length l <= length (body (fold_left put l w)))%nat.
Proof using CA.
  revert w. induction l as [|a l IH]; intros w; cbn; [split; [done|lia]|].
  destruct (put_grows w a) as [G1 G2]. destruct (IH (put w a)) as [I1 I2].
  split; [by etrans|lia].
Qed.

Lemma fold_encodes l w :
  wf_table (strs w) -> Forall valid l ->
  Z.of_nat (length (table (strs (fold_left put l w)))) < two64 ->
  Z.of_nat (length (body (fold_left put l w))) < 2 ^ 63 ->
  wf_table (strs (fold_left put l w)) /\
  exists enc, body (fold_left put l w) = body w ++ enc /\ (length l <= length enc)%nat
    /\ Forall is_byte enc
    /\ decodes (read_n get (length l)) (table (strs (fold_left put l w))) enc l.
Proof using CA.
  revert w. induction l as [|a l IH]; intros w Hw Hl Ht Hb.
  { split; [done|]. exists []. cbn. rewrite app_nil_r. split_and!; [done|lia|done|].
    intros r rest Hr He _ _. cbn. by destruct r as [d p t e]; unfold advance; cbn; rewrite Nat.add_0_r. }
  inversion Hl as [|? ? Ha Hl']; subst. cbn [fold_left length] in *.
  destruct (fold_grows l (put w a)) as [G1 G2]. pose proof (prefix_length_le _ _ G1).
  destruct (put_get w a Hw Ha) as (W1 & P1 & enc1 & E1 & L1 & B1 & D1); [lia..|].
  destruct (IH (put w a) W1 Hl' Ht Hb) as (W2 & enc2 & E2 & L2 & B2 & D2).
  split; [done|]. exists (enc1 ++ enc2). split_and!.
  - by rewrite E2, E1, app_assoc.
  - rewrite length_app. lia.
  - by apply Forall_app.
  - apply (decodes_then get (fun _ => read_n get (length l)) cons); [by eapply decodes_mono|done].
Qed.

#[refine, export] Instance list_codec : Codec (list A) | 100 := {|
  put := put_list put; get := get_list get; valid := Forall valid;
  put_grows := _; put_get := _ |}.
Proof.
  - intros w l. destruct (fold_grows l (Writer_Len w (length l))) as [G1 G2].
    destruct (uint_grows w (Z.of_nat (length l))) as [U1 U2]. unfold Writer_Len in *.
    split; [by etrans|]. unfold put_list, Writer_Len. lia.
  - intros w l Hw Hl Ht Hb. unfold put_list in *.
    destruct (fold_grows l (Writer_Len w (length l))) as [G1 G2]. cbn [Writer_Len Writer_Uint strs] in G1.
    destruct (fold_encodes l (Writer_Len w (length l)) Hw Hl Ht Hb) as (W & enc & E & L & B & D).
    split; [done|]. split; [done|].
    assert (Hu : is_uint64 (Z.of_nat (length l))) by (unfold is_uint64, two64; lia).
    exists (uvarint_bytes 9 (Z.of_nat (length l)) ++ enc). split_and!.
    + rewrite E. cbn. unfold AppendUvarint. by rewrite app_assoc.
    + rewrite length_app. pose proof (uvarint_bytes_length 9 (Z.of_nat (length l))). lia.
    + apply Forall_app. split; [by apply uint_bytes_byte|done].
    + intros r rest Hr He Htb Hd. rewrite <- app_assoc in Hd. unfold get_list.
      rewrite (len_reads r (length l) _ Hr He Hd) by (rewrite length_app; lia).
      cbn [mbind option_bind]. rewrite Nat2Z.id. pose proof (drop_enc_length _ _ _ Hr Hd).
      rewrite (D (advance r (length (uvarint_bytes 9 (Z.of_nat (length l))))) rest);
        [by rewrite advance_add, length_app|by apply advance_wf|done|done|].
      cbn. by rewrite <- drop_drop, Hd, drop_app_length.
Defined.
End list_codec.

(** What a section holds, and whether its reader ended with it. *)
Record section A := Section { content : A; complete : bool }.
Arguments Section {A} content complete.
Arguments content {A} _.
Arguments complete {A} _.

Definition get_section {A} (get : read A) : read (section A) := fun r =>
  '(sub, r) ← Reader_Section r;
  '(a, sub) ← get sub;
  Some (Section a (Done sub), r).

Lemma section_reads r enc rest :
  wf_reader r -> err r = None ->
  drop (rpos r) (data r) = uvarint_bytes 9 (Z.of_nat (length enc)) ++ enc ++ rest ->
  Reader_Section r =
    Some ({| data := enc; rpos := 0; rtable := rtable r; err := None |},
          advance r (length (uvarint_bytes 9 (Z.of_nat (length enc))) + length enc)).
Proof.
  intros Hr He Hd. unfold Reader_Section.
  rewrite (len_reads r (length enc) _ Hr He Hd) by (rewrite length_app; lia).
  cbn [mbind option_bind]. change (err (advance r ?k)) with (err r). rewrite He.
  rewrite Nat2Z.id, advance_add. set (k := length (uvarint_bytes 9 (Z.of_nat (length enc)))) in *.
  change (rpos (advance r k)) with (rpos r + k)%nat. change (data (advance r k)) with (data r).
  assert (Hl : (rpos r + k + length enc <= length (data r))%nat).
  { apply (f_equal length) in Hd. rewrite length_drop, !length_app in Hd. unfold k in *.
    destruct Hr as [Hp _]. lia. }
  replace (Z.of_nat (length enc) <? 0) with false by lia.
  apply Nat.leb_le in Hl as ->. cbn [negb orb]. do 3 f_equal.
  apply (slice_drop_app _ _ _ rest). rewrite <- drop_drop, Hd. unfold k. by rewrite drop_app_length.
Qed.

Lemma section_safe r :
  wf_reader r -> exists sub r', Reader_Section r = Some (sub, r')
    /\ wf_reader sub /\ wf_reader r' /\ data r' = data r /\ rtable r' = rtable r
    /\ (rpos r <= rpos r')%nat
    /\ (err r <> None -> err sub <> None /\ r' = r).
Proof.
  intros Hr. unfold Reader_Section.
  destruct (len_safe r Hr) as (n & r1 & E & W & D & T & P & S).
  pose proof (len_bound r n r1 Hr E) as Hn. rewrite E. cbn [mbind option_bind].
  destruct (err r1) as [e|] eqn:Ee.
  { eexists _, r1. split_and!; try done. intros He. by destruct (S He) as [_ ->]. }
  specialize (Hn eq_refl). assert (W' := W). destruct W' as (Wp & Wb & Wl).
  replace (n <? 0) with false by lia.
  assert (Hs : (rpos r1 + Z.to_nat n <= length (data r1))%nat) by lia.
  apply Nat.leb_le in Hs as Hs'. rewrite Hs'. cbn [negb orb].
  assert (Hne : err r = None).
  { destruct (err r) eqn:Er; [|done]. destruct S as [_ ->]; [done|]. congruence. }
  eexists _, _. split_and!; [done| |by apply advance_wf|done|done|cbn; lia|congruence].
  split_and!; cbn [rpos data]; [lia| |].
  - unfold slice. by apply Forall_take, Forall_drop.
  - rewrite length_slice by lia. lia.
Qed.

#[refine, export] Instance section_codec {A} `{CA : Codec A} : Codec (section A) := {|
  put w s := Writer_Section w (fun sub => put sub (content s)); get := get_section get;
  valid s := valid (content s) /\ complete s = true;
  put_grows := _; put_get := _ |}.
Proof.
  - intros w s. destruct (put_grows {| body := []; strs := strs w |} (content s)) as [G1 G2].
    unfold Writer_Section. cbn [append body strs Writer_Len Writer_Uint]. split; [done|].
    unfold AppendUvarint. rewrite !length_app. pose proof (uvarint_bytes_length 9 (Z.of_nat (length (body (put {| body := []; strs := strs w |} (content s)))))). lia.
  - intros w [a c] Hw [Ha Hc] Ht Hl. cbn [content complete] in *. subst c.
    unfold Writer_Section in *. cbn [append body strs Writer_Len Writer_Uint] in *.
    set (sub := put {| body := []; strs := strs w |} a) in *.
    unfold AppendUvarint in *. rewrite !length_app in Hl.
    destruct (put_get {| body := []; strs := strs w |} a Hw Ha) as (W & Pr & enc & E & L & B & D);
      fold sub; [done|lia|]. cbn [body app] in E. fold sub in E, D, Pr, W.
    assert (Hu : is_uint64 (Z.of_nat (length (body sub)))) by (unfold is_uint64, two64; lia).
    split; [done|]. split; [done|]. exists (uvarint_bytes 9 (Z.of_nat (length (body sub))) ++ enc).
    rewrite E in *. split_and!.
    + by rewrite app_assoc.
    + rewrite length_app. lia.
    + apply Forall_app. split; [by apply uint_bytes_byte|done].
    + intros r rest Hr He Htb Hd. rewrite <- app_assoc in Hd. unfold get_section.
      rewrite (section_reads r enc rest Hr He Hd). cbn [mbind option_bind].
      assert (Wsub : wf_reader {| data := enc; rpos := 0; rtable := rtable r; err := None |}).
      { split_and!; [cbn; lia|done|cbn; lia]. }
      rewrite (D _ [] Wsub eq_refl Htb) by (by rewrite app_nil_r).
      cbn [mbind option_bind]. rewrite length_app. do 3 f_equal.
      unfold Done, advance. cbn. by rewrite Nat.eqb_refl.
Defined.

(** ** Streams *)

Definition lengths_bytes (t : list bytes) : bytes :=
  concat (map (fun s => uvarint_bytes 9 (Z.of_nat (length s))) t).

Lemma lengths_bytes_length t : (length t <= length (lengths_bytes t))%nat.
Proof.
  induction t as [|s t IH]; [done|]. unfold lengths_bytes in *. cbn [map concat length].
  rewrite length_app. pose proof (uvarint_bytes_length 9 (Z.of_nat (length s))). lia.
Qed.

Lemma Bytes_eq w :
  Bytes w = uvarint_bytes 9 (Z.of_nat (length (table (strs w))))
            ++ lengths_bytes (table (strs w)) ++ concat (table (strs w)) ++ body w.
Proof.
  unfold Bytes, AppendUvarint. cbn [app].
  assert (H1 : forall l out, fold_left (fun out s => out ++ uvarint_bytes 9 (Z.of_nat (length s))) l out
            = out ++ lengths_bytes l).
  { induction l as [|s l IH]; intros out; cbn; [by rewrite app_nil_r|].
    by rewrite IH, app_assoc. }
  assert (H2 : forall (l : list bytes) out, fold_left (fun out s => out ++ s) l out = out ++ concat l).
  { induction l as [|s l IH]; intros out; cbn; [by rewrite app_nil_r|]. by rewrite IH, app_assoc. }
  by rewrite H1, H2, <- !app_assoc.
Qed.

Lemma read_lengths_reads t total r rest :
  wf_reader r -> err r = None -> 0 <= total ->
  drop (rpos r) (data r) = lengths_bytes t ++ rest ->
  total + Z.of_nat (length (concat t)) <= Z.of_nat (length rest) ->
  read_lengths (length t) total r
  = Some (map (fun s => Z.of_nat (length s)) t, total + Z.of_nat (length (concat t)),
          advance r (length (lengths_bytes t))).
Proof.
  revert total r. induction t as [|s t IH]; intros total r Hr He Ht Hd Hl.
  { cbn. rewrite Z.add_0_r. destruct r. unfold advance. cbn. by rewrite Nat.add_0_r. }
  cbn [lengths_bytes map concat length read_lengths] in *.
  change (concat (map (fun s => uvarint_bytes 9 (Z.of_nat (length s))) t)) with (lengths_bytes t) in *.
  rewrite length_app in Hl. rewrite <- app_assoc in Hd.
  rewrite (len_reads r (length s) _ Hr He Hd) by (rewrite length_app; lia).
  cbn [mbind option_bind]. set (k := length (uvarint_bytes 9 (Z.of_nat (length s)))).
  change (err (advance r k)) with (err r). rewrite He.
  change (data (advance r k)) with (data r). change (rpos (advance r k)) with (rpos r + k)%nat.
  assert (Hlen : (rpos r + k + length (lengths_bytes t) + length rest = length (data r))%nat).
  { apply (f_equal length) in Hd. rewrite length_drop, !length_app in Hd. unfold k. destruct Hr as [Hp _]. lia. }
  assert (Z.of_nat (length s) <= Z.of_nat (length (data r)) - Z.of_nat (rpos r + k) - total)
    by (clearbody k; lia).
  rewrite (proj2 (Z.ltb_ge _ _)) by done.
  rewrite (IH (total + Z.of_nat (length s)) (advance r k)); [| |done|lia| |lia].
  - cbn [mbind option_bind]. rewrite advance_add, !length_app. unfold k. do 3 f_equal. lia.
  - apply advance_wf; [done|lia].
  - change (drop (rpos r + k) (data r) = lengths_bytes t ++ rest).
    rewrite <- drop_drop, Hd. unfold k. by rewrite drop_app_length.
Qed.

Lemma carve_concat t :
  carve (concat t) (map (fun s => Z.of_nat (length s)) t) = Some t.
Proof.
  induction t as [|s t IH]; [done|]. cbn [concat map carve]. rewrite length_app.
  rewrite !(proj2 (Z.ltb_ge _ _)) by lia. cbn [orb].
  rewrite Nat2Z.id, drop_app_length, IH. cbn. by rewrite take_app_length.
Qed.

Lemma NewReader_reads w :
  Forall is_byte (Bytes w) -> Z.of_nat (length (Bytes w)) < 2 ^ 63 ->
  exists r, NewReader (Bytes w) = Some (Ok r) /\ wf_reader r /\ err r = None
    /\ rtable r = table (strs w) /\ drop (rpos r) (data r) = body w.
Proof.
  intros Hb Hlen. pose proof (Bytes_eq w) as HB.
  remember (table (strs w)) as t eqn:Et. unfold NewReader.
  set (r0 := {| data := Bytes w; rpos := 0; rtable := []; err := None |}).
  assert (W0 : wf_reader r0) by (split_and!; [cbn; lia|done|done]).
  assert (Hd : drop (rpos r0) (data r0) = uvarint_bytes 9 (Z.of_nat (length t)) ++ lengths_bytes t ++ concat t ++ body w).
  { cbn. by rewrite drop_0. }
  pose proof (lengths_bytes_length t) as Hlt.
  rewrite (len_reads r0 (length t) _ W0 eq_refl Hd) by (rewrite length_app; lia).
  cbn [mbind option_bind]. remember (length (uvarint_bytes 9 (Z.of_nat (length t)))) as k eqn:Ek.
  cbn [advance err r0]. replace (Z.of_nat (length t) <? 0) with false by lia. rewrite Nat2Z.id.
  pose proof (drop_enc_length _ _ _ W0 Hd) as Hk. rewrite <- Ek in Hk.
  rewrite (read_lengths_reads t 0 _ (concat t ++ body w)); [|by apply (advance_wf r0 k)|done|done| |rewrite length_app; lia].
  2:{ change (drop (rpos r0 + k) (data r0) = lengths_bytes t ++ concat t ++ body w).
      rewrite <- drop_drop, Hd, Ek. by rewrite drop_app_length. }
  cbn [mbind option_bind advance err rpos Nat.add]. rewrite Z.add_0_l, Nat2Z.id.
  change (err r0) with (@None error). change (rpos r0) with 0%nat. cbn [Nat.add].
  assert (Hbl : length (Bytes w) = (k + length (lengths_bytes t) + length (concat t) + length (body w))%nat).
  { rewrite HB, !length_app, <- Ek. lia. }
  rewrite (proj2 (Z.ltb_ge _ _)) by lia.
  assert (Hdr : drop (k + length (lengths_bytes t)) (Bytes w) = concat t ++ body w).
  { rewrite <- drop_drop.
    cbn [rpos data r0] in Hd. rewrite drop_0 in Hd. rewrite Hd, Ek. by rewrite !drop_app_length. }
  rewrite (slice_drop_app _ _ _ _ Hdr), carve_concat. cbn [mbind option_bind].
  eexists. split; [done|]. split_and!; [split_and!; cbn; [lia|done|done]|done|done|].
  cbn. by rewrite <- drop_drop, Hdr, drop_app_length.
Qed.

(** The loop over the table's lengths does not panic on any bytes, and the
    strings it announces are within the bytes left. *)
Lemma read_lengths_safe n total r :
  wf_reader r -> err r = None ->
  exists ls total' r', read_lengths n total r = Some (ls, total', r')
    /\ wf_reader r' /\ data r' = data r
    /\ (err r' = None -> Forall (fun l => 0 <= l) ls /\ total' = total + foldr Z.add 0 ls).
Proof.
  revert total r. induction n as [|n IH]; intros total r Hr He; cbn [read_lengths].
  { exists [], total, r. split_and!; try done. intros _. cbn. split; [constructor|lia]. }
  destruct (len_safe r Hr) as (l & r1 & E & W & D & T & P & _).
  pose proof (len_bound r l r1 Hr E) as Hl. rewrite E. cbn [mbind option_bind].
  destruct (err r1) as [e|] eqn:Ee.
  { exists [], total, r1. split_and!; try done. congruence. }
  specialize (Hl eq_refl). case_match.
  { destruct (fail_wf r1 (bs "string table") W) as (F1 & F2 & _ & _ & F5).
    eexists _, _, _. split_and!; [done|done|congruence|done]. }
  destruct (IH (total + l) r1 W Ee) as (ls & total' & r' & E' & W' & D' & H').
  rewrite E'. cbn [mbind option_bind]. exists (l :: ls), total', r'.
  split_and!; [done|done|congruence|]. intros He'. destruct (H' He') as [H1 H2].
  split; [constructor; [lia|done]|]. cbn [foldr]. lia.
Qed.

Lemma carve_safe all ls :
  Forall (fun l => 0 <= l) ls -> foldr Z.add 0 ls <= Z.of_nat (length all) ->
  is_Some (carve all ls).
Proof.
  intros Hls. revert all. induction Hls as [|l ls Hl Hls IH]; intros all Hsum; [done|].
  cbn [carve foldr] in *.
  assert (Hnn : 0 <= foldr Z.add 0 ls).
  { clear -Hls. induction Hls; cbn [foldr]; lia. }
  rewrite !(proj2 (Z.ltb_ge _ _)) by lia. cbn [orb].
  destruct (IH (drop (Z.to_nat l) all)) as [t Ht]; [rewrite length_drop; lia|].
  rewrite Ht. cbn [mbind option_bind]. eauto.
Qed.

(** [NewReader] panics on no bytes, and a reader it returns is within them. *)
Lemma NewReader_safe d :
  Forall is_byte d -> Z.of_nat (length d) < 2 ^ 63 ->
  exists res, NewReader d = Some res
    /\ match res with Ok r => wf_reader r /\ data r = d /\ err r = None | Err _ => True end.
Proof.
  intros Hb Hl. unfold NewReader.
  set (r0 := {| data := d; rpos := 0; rtable := []; err := None |}).
  assert (W0 : wf_reader r0) by (split_and!; [cbn; lia|done|done]).
  destruct (len_safe r0 W0) as (n & r1 & E & W & D & _).
  pose proof (len_bound r0 n r1 W0 E) as Hn. rewrite E. cbn [mbind option_bind].
  destruct (err r1) as [e|] eqn:Ee; [by eexists|]. specialize (Hn eq_refl).
  rewrite (proj2 (Z.ltb_ge _ _)) by lia.
  destruct (read_lengths_safe (Z.to_nat n) 0 r1 W Ee) as (ls & total & r2 & E2 & W2 & D2 & H2).
  rewrite E2. cbn [mbind option_bind].
  destruct (err r2) as [e|] eqn:Ee2; [by eexists|]. destruct (H2 eq_refl) as [Hls Htot].
  assert (Hnn : 0 <= foldr Z.add 0 ls) by (clear -Hls; induction Hls; cbn [foldr]; lia).
  assert (Hd : data r2 = d) by (rewrite D2, D; done).
  destruct (Z.ltb_spec (Z.of_nat (length d) - Z.of_nat (rpos r2)) total).
  { unfold fail. rewrite Ee2. cbn [err]. by eexists. }
  destruct W2 as (Wp & _). rewrite Hd in Wp.
  destruct (carve_safe (slice d (rpos r2) (rpos r2 + Z.to_nat total)) ls Hls) as [t Ht].
  { rewrite length_slice by lia. lia. }
  rewrite Ht. cbn [mbind option_bind]. eexists. split; [done|]. cbn.
  split; [split_and!; [cbn; lia|done|done]|done].
Qed.

Lemma Bytes_byte w :
  Forall (Forall is_byte) (table (strs w)) -> Forall is_byte (body w) ->
  Z.of_nat (length (Bytes w)) < 2 ^ 63 -> Forall is_byte (Bytes w).
Proof.
  intros Ht Hb Hlen. rewrite Bytes_eq in *. remember (table (strs w)) as t eqn:Et. clear Et.
  rewrite !length_app in Hlen.
  assert (Hcat : forall s, s ∈ t -> (length s <= length (concat t))%nat).
  { clear. induction t as [|u t IH]; intros s Hs; [by apply not_elem_of_nil in Hs|].
    cbn [concat]. rewrite length_app. apply elem_of_cons in Hs as [->|Hs]; [lia|].
    specialize (IH s Hs). lia. }
  pose proof (lengths_bytes_length t) as Hlt.
  rewrite !Forall_app. split_and!; [|..|done].
  - apply uint_bytes_byte. unfold is_uint64, two64. lia.
  - unfold lengths_bytes. apply Forall_concat, Forall_map, Forall_forall. intros s Hs.
    specialize (Hcat s Hs). apply uint_bytes_byte. unfold is_uint64, two64. lia.
  - by apply Forall_concat.
Qed.

(** C23: what is written to a stream is read back: for any codec and any valid
    value, [NewReader] accepts the bytes the writer returns, the read returns
    the value, and the reader is then done, without an error. *)
Theorem stream_roundtrip {A} `{CA : Codec A} (a : A) :
  valid a ->
  let w := put NewWriter a in
  Forall (Forall is_byte) (table (strs w)) -> Z.of_nat (length (Bytes w)) < 2 ^ 63 ->
  exists r r', NewReader (Bytes w) = Some (Ok r) /\ get r = Some (a, r') /\ Done r' = true.
Proof.
  intros Ha w Ht Hlen.
  assert (Hsz : (length (table (strs w)) + length (body w) <= length (Bytes w))%nat).
  { rewrite Bytes_eq, !length_app. pose proof (lengths_bytes_length (table (strs w))). lia. }
  assert (Hw0 : wf_table (strs NewWriter)).
  { intros s id. cbn. rewrite lookup_empty, lookup_nil. split; [done|by intros [_ ?]]. }
  destruct (put_get NewWriter a Hw0 Ha) as (W & _ & enc & E & L & B & D); fold w; [unfold two64; lia|lia|].
  fold w in E, D, W. cbn [NewWriter body app] in E.
  destruct (NewReader_reads w) as (r & Hr & Wr & Er & Tr & Dr).
  { apply Bytes_byte; [done|by rewrite E|done]. }
  { done. }
  exists r, (advance r (length enc)). split; [done|]. split.
  - apply (D r [] Wr Er); [by rewrite Tr|by rewrite Dr, E, app_nil_r].
  - unfold Done, advance. cbn [err rpos data]. rewrite Er, bool_decide_true by done.
    apply Nat.eqb_eq. rewrite E in Dr. apply (f_equal length) in Dr. rewrite length_drop in Dr.
    destruct Wr as [Wr _]. lia.
Qed.

(** A value of every kind of write, nested. *)
Definition sample : list (bytes * section (Z * (sint * (bool * float)))) :=
  [(bs "part", Section (300, (Sint (-5), (true, Float 4607182418800017408))) true);
   (bs "x", Section (0, (Sint 64, (false, Float 0))) true);
   (bs "part", Section (2 ^ 64 - 1, (Sint (- 2 ^ 63), (true, Float 1))) true)].

Lemma stream_roundtrip_witness :
  valid sample /\ table (strs (put NewWriter sample)) = [bs "part"; bs "x"] /\
  exists r r', NewReader (Bytes (put NewWriter sample)) = Some (Ok r)
    /\ get r = Some (sample, r') /\ Done r' = true.
Proof.
  assert (Hv : valid sample).
  { unfold sample. cbn. repeat constructor; cbn; unfold is_uint64, is_int64, two64; lia. }
  split; [exact Hv|]. split; [vm_compute; reflexivity|].
  apply (stream_roundtrip sample Hv).
  - replace (table _) with [bs "part"; bs "x"] by (vm_compute; reflexivity).
    repeat constructor; unfold is_byte; lia.
  - vm_compute. reflexivity.
Defined.

(** ** Arena *)

Definition empty_arena : Arena := {| chunk := None; next_chunk := 0 |}.

Fixpoint Takes (a : Arena) (ns : list nat) : list (option taken) :=
  match ns with
  | [] => []
  | n :: ns' => let '(t, a') := Take a n in t :: Takes a' ns'
  end.

Definition disjoint_slices (s t : taken) : Prop :=
  t_chunk s <> t_chunk t \/ (t_start s + t_len s <= t_start t)%nat
  \/ (t_start t + t_len t <= t_start s)%nat.

(** A slice of [n] elements within its chunk. *)
Definition took (n : nat) (o : option taken) : Prop :=
  match o with
  | None => n = 0%nat
  | Some t => t_len t = n /\ (0 < n)%nat
      /\ ((n <= arenaChunk / 4)%nat -> (t_start t + n <= arenaChunk)%nat)
      /\ ((arenaChunk / 4 < n)%nat -> t_start t = 0%nat)
  end.

(** Nothing handed out later overlaps [t]. *)
Definition behind (t : taken) (a : Arena) : Prop :=
  (t_chunk t < next_chunk a)%nat /\
  match chunk a with
  | Some (c, start) => t_chunk t = c -> (t_start t + t_len t <= start)%nat
  | None => True
  end.

Definition arena_ok (a : Arena) : Prop :=
  match chunk a with Some (c, start) => (c < next_chunk a)%nat /\ (start <= arenaChunk)%nat | None => True end.

Ltac arena_step :=
  cbn [chunk next_chunk t_len t_start t_chunk]; simplify_option_eq;
  repeat match goal with
  | |- _ /\ _ => split
  | |- forall _, _ => intros ?
  | H : Some _ = Some _ |- _ => injection H as <-
  | H : _ /\ _ |- _ => destruct H
  end; cbn [chunk next_chunk t_len t_start t_chunk] in *; try done; try lia.

Lemma Take_step a n :
  arena_ok a ->
  let '(o, a') := Take a n in
  arena_ok a' /\ took n o
  /\ (forall t, behind t a -> behind t a')
  /\ (forall t, o = Some t -> behind t a' /\ forall t', behind t' a -> disjoint_slices t' t).
Proof.
  unfold Take. intros Ha. destruct (Nat.eqb_spec n 0) as [->|Hn]; [by split_and!|].
  unfold arena_ok, took, behind, disjoint_slices, chunk_left in *.
  change (arenaChunk / 4)%nat with 512%nat. change arenaChunk with 2048%nat in *.
  destruct (Nat.ltb_spec 512 n) as [Hbig|Hsmall].
  { destruct (chunk a) as [[c start]|] eqn:E; arena_step. }
  destruct (chunk a) as [[c start]|] eqn:E.
  - destruct (Nat.ltb_spec (2048 - start) n); rewrite ?E; arena_step.
  - replace (0 <? n)%nat with true by (symmetry; apply Nat.ltb_lt; lia). arena_step.
Qed.

Lemma Takes_from a ns given :
  arena_ok a -> Forall (fun t => behind t a) given ->
  Forall2 took ns (Takes a ns)
  /\ ForallOrdPairs disjoint_slices (omap id (Takes a ns))
  /\ Forall (fun t => Forall (fun g => disjoint_slices g t) given) (omap id (Takes a ns)).
Proof.
  revert a given. induction ns as [|n ns IH]; intros a given Ha Hg; [by repeat constructor|].
  cbn [Takes]. pose proof (Take_step a n Ha) as Hs. destruct (Take a n) as [o a'].
  destruct Hs as (Ha' & Ho & Hb & Ht).
  assert (Hg' : Forall (fun t => behind t a') given) by (eapply Forall_impl; [done|exact Hb]).
  destruct o as [t|].
  - destruct (Ht t eq_refl) as [Hbt Hd].
    destruct (IH a' (t :: given) Ha') as (I1 & I2 & I3); [by constructor|].
    change (omap id (Some t :: Takes a' ns)) with (t :: omap id (Takes a' ns)).
    split_and!; [by constructor|constructor; [|done]|constructor].
    + eapply Forall_impl; [exact I3|]. intros u Hu. by inversion Hu.
    + eapply Forall_impl; [exact Hg|]. exact Hd.
    + eapply Forall_impl; [exact I3|]. intros u Hu. by inversion Hu.
  - destruct (IH a' given Ha' Hg') as (I1 & I2 & I3).
    change (omap id (None :: Takes a' ns)) with (omap id (Takes a' ns)).
    split_and!; [by constructor|done|done].
Qed.

(** An arena asked for any lengths hands out, for each, nothing for zero and
    otherwise a slice of exactly that length within a chunk, and no two slices
    it handed out share an element. *)
Lemma Takes_disjoint ns :
  Forall2 took ns (Takes empty_arena ns)
  /\ ForallOrdPairs disjoint_slices (omap id (Takes empty_arena ns)).
Proof.
  destruct (Takes_from empty_arena ns []) as (H1 & H2 & _); [done|constructor|]. done.
Qed.
