(* ===== verification/PackSafe.v ===== *)
(** * Reading any bytes is safe

    Whatever calls are made of the readers of a stream, in whatever order, adapting to
    what was read and in sections within sections: none panics, each stays within the
    bytes of its reader and answers a value of its Go type, and a reader that met a
    malformation moves no further ([reader_safe]). *)
From stdpp Require Import gmap.
From S2P Require Import Prelude Machine Pack PackFacts.
Local Open Scope Z_scope.

(** ** Calls *)

(** A call of a reader's method, and what it answers. *)
Inductive operation := OpUint | OpInt | OpLen | OpBool | OpFloat | OpString | OpSection | OpFail (what : bytes).
Inductive answer := Number (z : Z) | Truth (b : bool) | Text (s : bytes) | Sub (s : Reader) | Nothing.

Definition answering {A} (f : A -> answer) (get : read A) (r : Reader) : option (answer * Reader) :=
  '(a, r) ← get r; Some (f a, r).

Definition call (op : operation) (r : Reader) : option (answer * Reader) :=
  match op with
  | OpUint => answering Number Reader_Uint r
  | OpInt => answering Number Reader_Int r
  | OpLen => answering Number Reader_Len r
  | OpBool => answering Truth Reader_Bool r
  | OpFloat => answering Number Reader_Float r
  | OpString => answering Text Reader_String r
  | OpSection => answering Sub Reader_Section r
  | OpFail w => Some (Nothing, fail r w)
  end.

(** The readers a client of the stream [d] may hold: the one that opened it, any a call
    leaves, and any a section gives - which shares the string table and nothing else,
    so the calls of several interleave as they like. *)
Inductive held (d : bytes) : Reader -> Prop :=
  | held_open r : NewReader d = Some (Ok r) -> held d r
  | held_next r op a r' : held d r -> call op r = Some (a, r') -> held d r'
  | held_section r s r' : held d r -> Reader_Section r = Some (s, r') -> held d s.

(** What Go's types and the reader promise of an answer, the reader left being [r']: a
    64-bit word or integer, a count of bytes that are left, the bits of a binary64, a
    string of the table, or a reader over bytes that were left. *)
Definition answers (op : operation) (r r' : Reader) (a : answer) : Prop :=
  match op, a with
  | OpUint, Number z | OpFloat, Number z => is_uint64 z
  | OpInt, Number z => is_int64 z
  | OpLen, Number z => 0 <= z <= Z.of_nat (length (data r') - rpos r')
  | OpBool, Truth _ => True
  | OpString, Text s => s = [] \/ s ∈ rtable r
  | OpSection, Sub s => rpos s = 0%nat /\ rtable s = rtable r /\
      (err s = None -> data s = slice (data r) (rpos r' - length (data s)) (rpos r') /\
                       (rpos r + length (data s) <= rpos r')%nat)
  | OpFail _, Nothing => err r' <> None
  | _, _ => False
  end.

(** What a failed reader answers: the zero value, or a reader that has failed as well. *)
Definition zero_answer (op : operation) (r : Reader) : answer :=
  match op with
  | OpUint | OpInt | OpLen | OpFloat => Number 0
  | OpBool => Truth false
  | OpString => Text []
  | OpSection => Sub {| data := []; rpos := 0; rtable := rtable r; err := err r |}
  | OpFail _ => Nothing
  end.

(** ** Values *)

Lemma uint64_lor x y : is_uint64 x -> is_uint64 y -> is_uint64 (Z.lor x y).
Proof.
  unfold is_uint64, two64. intros [Hx0 Hx] [Hy0 Hy]. split; [by apply Z.lor_nonneg|].
  destruct (Z.eq_dec (Z.lor x y) 0) as [->|Hne]; [done|].
  assert (0 <= Z.lor x y) by (by apply Z.lor_nonneg). apply Z.log2_lt_pow2; [lia|]. rewrite Z.log2_lor by done.
  assert (forall z, 0 <= z < 2 ^ 64 -> Z.log2 z < 64); [|by apply Z.max_lub_lt; auto].
  intros z Hz. destruct (Z.eq_dec z 0) as [->|]; [done|]. apply Z.log2_lt_pow2; lia.
Qed.

Lemma uvarint_go_word buf i x s : is_uint64 x -> is_uint64 (uvarint_go buf i x s).1.
Proof.
  revert i x s. induction buf as [|b buf IH]; intros i x s Hx; cbn [uvarint_go]; [done|].
  destruct (i =? 10); [done|]. destruct (b <? 128).
  - destruct (_ && _); [done|]. apply uint64_lor; [done|apply uint64_range].
  - apply IH, uint64_lor; [done|apply uint64_range].
Qed.

Lemma unzigzag_range u : is_int64 (unzigzag u).
Proof.
  unfold unzigzag. pose proof (int64_range (Z.shiftr u 1)) as H. unfold is_int64 in *. destruct (negb _); lia.
Qed.

(** What a varint read answers: zero, or what its decoder does. *)
Lemma read_varint_value (P : Z -> Prop) decode short r v r' :
  wf_reader r -> P 0 -> (forall b, P (decode b).1) -> (forall b, 0 <= b < 128 -> P (short b)) ->
  read_varint decode short r = Some (v, r') -> P v.
Proof.
  intros Hr P0 Pd Ps. unfold read_varint. destruct (err r); [by intros [= <- _]|].
  unfold one_byte. rewrite (rest_wf r Hr). cbn [mbind option_bind]. specialize (Pd (drop (rpos r) (data r))).
  destruct (decode _) as [u n]. cbn in Pd.
  assert (Hslow : (if n <=? 0 then Some (0, fail r (bs "varint")) else Some (u, advance r (Z.to_nat n))) = Some (v, r') -> P v)
    by (destruct (n <=? 0); by intros [= <- _]).
  destruct (data r !! rpos r) as [b|] eqn:Eb; [|exact Hslow]. destruct (Z.ltb_spec b 128); [|exact Hslow].
  pose proof (wf_byte r b Hr Eb) as Hb. unfold is_byte in Hb. intros [= <- _]. apply Ps. lia.
Qed.

Lemma uint_word r v r' : wf_reader r -> Reader_Uint r = Some (v, r') -> is_uint64 v.
Proof.
  intros Hr. apply read_varint_value; [done|done|intros b; by apply uvarint_go_word|].
  intros b Hb. unfold id, is_uint64, two64. lia.
Qed.

Lemma int_word r v r' : wf_reader r -> Reader_Int r = Some (v, r') -> is_int64 v.
Proof.
  intros Hr. apply read_varint_value; [done|done| |].
  - intros b. unfold Varint. destruct (Uvarint b). apply unzigzag_range.
  - intros b Hb. rewrite short_int by done. apply unzigzag_range.
Qed.

Lemma le_value_range b : Forall is_byte b -> 0 <= le_value b < 2 ^ (8 * Z.of_nat (length b)).
Proof.
  induction 1 as [|c b Hc _ IH]; [done|]. cbn [le_value length]. unfold is_byte in Hc.
  replace (8 * Z.of_nat (S (length b))) with (8 + 8 * Z.of_nat (length b)) by lia. rewrite Z.pow_add_r by lia.
  rewrite lor_high by (change (2 ^ 8) with 256; lia). change (2 ^ 8) with 256. nia.
Qed.

Lemma float_word r v r' : wf_reader r -> Reader_Float r = Some (v, r') -> is_uint64 v.
Proof.
  intros Hr. unfold Reader_Float. destruct (err r); [by intros [= <- _]|].
  destruct (Z.ltb_spec (Z.of_nat (length (data r)) - Z.of_nat (rpos r)) 8); [by intros [= <- _]|].
  rewrite (rest_wf r Hr). cbn [mbind option_bind]. intros [= <- _].
  assert (Hb : Forall is_byte (take 8 (drop (rpos r) (data r)))) by (apply Forall_take, bytes_drop, Hr).
  apply le_value_range in Hb. rewrite length_take, length_drop in Hb. replace (8 `min` _)%nat with 8%nat in Hb by lia. exact Hb.
Qed.

Lemma string_table r s r' : wf_reader r -> Reader_String r = Some (s, r') -> s = [] \/ s ∈ rtable r.
Proof.
  intros Hr. unfold Reader_String. destruct (read_varint_safe Uvarint id Uvarint_decoder r Hr) as (v & r1 & E & _ & _ & T & _).
  unfold Reader_Uint. rewrite E. cbn [mbind option_bind]. destruct (err r1); [intros [= <- _]; by left|].
  destruct (_ <=? v); [intros [= <- _]; by left|]. rewrite T. destruct (rtable r !! Z.to_nat v) as [x|] eqn:Ex; [|done].
  intros [= <- _]. right. by eapply list_elem_of_lookup_2.
Qed.

Lemma section_part r s r' :
  wf_reader r -> Reader_Section r = Some (s, r') -> rpos s = 0%nat /\ rtable s = rtable r /\
    (err s = None -> data s = slice (data r) (rpos r' - length (data s)) (rpos r') /\
                     (rpos r + length (data s) <= rpos r')%nat).
Proof.
  intros Hr. unfold Reader_Section. destruct (len_safe r Hr) as (n & r1 & E & W & D & T & P & _).
  pose proof (len_bound r n r1 Hr E) as Hn. rewrite E. cbn [mbind option_bind].
  destruct (err r1) as [e|] eqn:Ee; [by intros [= <- _]|]. specialize (Hn eq_refl).
  destruct (_ || _) eqn:Eb; [done|]. apply orb_false_iff in Eb as [_ Eb%negb_false_iff%Nat.leb_le].
  intros [= <- <-]. cbn [rpos rtable err data advance]. split_and!; [done|done|]. intros _.
  rewrite length_slice by lia. rewrite D. split; [f_equal; lia|lia].
Qed.

(** A length, of a failed reader zero. *)
Lemma len_left r n r' : wf_reader r -> Reader_Len r = Some (n, r') -> 0 <= n <= Z.of_nat (length (data r') - rpos r').
Proof.
  intros Hr E. destruct (err r') as [e|] eqn:Ee; [|by apply (len_bound r)]. enough (n = 0) by lia. revert E. unfold Reader_Len.
  destruct (Reader_Uint r) as [[v r1]|] eqn:E1; [|done]. cbn [mbind option_bind]. destruct (err r1) as [e1|] eqn:Ee1.
  - intros [= <- <-]. enough (v = 0) as -> by done. revert E1. unfold Reader_Uint, read_varint. destruct (err r) eqn:Er; [by intros [= <- _]|].
    rewrite (rest_wf r Hr). cbn [mbind option_bind]. destruct (one_byte r); [intros [= _ <-]; cbn in Ee1; congruence|].
    destruct (Uvarint _) as [u k]. destruct (k <=? 0); intros [= <- <-]; [done|cbn in Ee1; congruence].
  - destruct (Pack.rest r1); [|done]. cbn [mbind option_bind]. destruct (_ <? v); intros [= <- <-]; [done|congruence].
Qed.

Lemma section_failed r s : err r <> None -> wf_reader r -> Reader_Section r = Some (s, r) -> s = {| data := []; rpos := 0; rtable := rtable r; err := err r |}.
Proof.
  intros He Hr. unfold Reader_Section. destruct (len_safe r Hr) as (n & r1 & E & _ & _ & _ & _ & Z).
  destruct (Z He) as [-> ->]. rewrite E. cbn [mbind option_bind]. destruct (err r); [|done]. by intros [= <-].
Qed.

Lemma section_failed_data r s r' : Reader_Section r = Some (s, r') -> err s <> None -> data s = [].
Proof.
  unfold Reader_Section. destruct (Reader_Len r) as [[n r1]|]; [|done]. cbn [mbind option_bind].
  destruct (err r1); [by intros [= <- _]|]. destruct (_ || _); [done|]. by intros [= <- _].
Qed.

(** ** Every call *)

Lemma part_of_slice {A} (l : list A) i j : exists p q, l = p ++ slice l i j ++ q.
Proof.
  exists (take i l), (drop (j - i) (drop i l)). unfold slice. by rewrite take_drop, take_drop.
Qed.

Lemma call_safe op r :
  wf_reader r -> exists a r', call op r = Some (a, r') /\ wf_reader r' /\ data r' = data r /\ rtable r' = rtable r
    /\ (rpos r <= rpos r')%nat /\ answers op r r' a /\ (err r <> None -> a = zero_answer op r /\ r' = r).
Proof.
  intros Hr.
  assert (S : forall A (get : read A) z (f : A -> answer),
    safe get z -> (forall a r', get r = Some (a, r') -> answers op r r' (f a)) -> zero_answer op r = f z ->
    exists a r', answering f get r = Some (a, r') /\ wf_reader r' /\ data r' = data r /\ rtable r' = rtable r
      /\ (rpos r <= rpos r')%nat /\ answers op r r' a /\ (err r <> None -> a = zero_answer op r /\ r' = r)).
  { intros A get z f Hs Ha Ez. destruct (Hs r Hr) as (a & r' & E & W & D & T & P & Z). exists (f a), r'. unfold answering. rewrite E.
    split_and!; [done..|by apply Ha|]. intros He. destruct (Z He) as [-> ->]. done. }
  destruct op as [| | | | | | |w]; cbn [call].
  - apply (S _ _ 0); [apply read_varint_safe, Uvarint_decoder|intros a r'; by apply uint_word|done].
  - apply (S _ _ 0); [apply read_varint_safe, Varint_decoder|intros a r'; by apply int_word|done].
  - apply (S _ _ 0); [apply len_safe|intros a r'; by apply len_left|done].
  - by apply (S _ _ false); [apply bool_safe|..].
  - apply (S _ _ 0); [apply float_safe|intros a r'; by apply float_word|done].
  - apply (S _ _ []); [apply string_safe|intros a r'; by apply string_table|done].
  - destruct (section_safe r Hr) as (s & r' & E & Ws & W & D & T & P & Z). exists (Sub s), r'. unfold answering. rewrite E.
    split_and!; [done..|by eapply section_part|]. intros He. destruct (Z He) as [_ ->]. split; [|done].
    by rewrite (section_failed r s He Hr E).
  - destruct (fail_wf r w Hr) as (F1 & F2 & F3 & F4 & F5). exists Nothing, (fail r w). split_and!; [done..|lia|done|].
    intros He. unfold fail. by destruct (err r).
Qed.

(** A reader a client holds is over a part of the stream. *)
Lemma held_within d r :
  Forall is_byte d -> Z.of_nat (length d) < 2 ^ 63 -> held d r -> wf_reader r /\ exists p q, d = p ++ data r ++ q.
Proof.
  intros Hb Hl. induction 1 as [r E|r op a r' _ [W (p & q & Ed)] E|r s r' _ [W (p & q & Ed)] E].
  - destruct (NewReader_safe d Hb Hl) as (res & E' & Hres). rewrite E in E'. injection E' as <-.
    destruct Hres as (W & -> & _). split; [done|]. exists [], []. by rewrite app_nil_r.
  - destruct (call_safe op r W) as (a0 & r0 & E' & W' & D & _). rewrite E in E'. injection E' as <- <-.
    split; [done|]. exists p, q. by rewrite D.
  - destruct (section_safe r W) as (s0 & r0 & E' & Ws & _). rewrite E in E'. injection E' as <- <-. split; [done|].
    destruct (section_part r s r' W E) as (_ & _ & Hs). destruct (err s) eqn:Es.
    + apply section_failed_data in E; [|by rewrite Es]. rewrite E. exists d, []. by rewrite app_nil_r.
    + destruct (Hs eq_refl) as [Hd _]. destruct (part_of_slice (data r) (rpos r' - length (data s)) (rpos r')) as (p' & q' & E').
      rewrite <- Hd in E'. exists (p ++ p'), (q' ++ q). by rewrite Ed, E', !app_assoc.
Qed.

(** C24: reading any bytes at all as a stream never panics. [NewReader] answers a reader
    or an error. Every reader a client comes to hold - by whatever calls, in whatever
    order, of it or of the sections it gave - is within a part of the bytes; on it every
    call answers, a value of its type: a length no more than the bytes left, a string of
    the table, a section over bytes that follow. No call moves back or past the end, and
    once the reader has failed it answers zero values and moves no further. *)
Theorem reader_safe d :
  Forall is_byte d -> Z.of_nat (length d) < 2 ^ 63 ->
  (exists res, NewReader d = Some res) /\
  forall r, held d r -> (exists p q, d = p ++ data r ++ q) /\
    forall op, exists a r', call op r = Some (a, r') /\ data r' = data r /\ rtable r' = rtable r
      /\ (rpos r <= rpos r' <= length (data r))%nat /\ answers op r r' a
      /\ (err r <> None -> a = zero_answer op r /\ r' = r).
Proof.
  intros Hb Hl. split; [destruct (NewReader_safe d Hb Hl) as (res & E & _); by exists res|].
  intros r Hh. destruct (held_within d r Hb Hl Hh) as [W Hd]. split; [done|]. intros op.
  destruct (call_safe op r W) as (a & r' & E & W' & D & T & P & A & Z). exists a, r'.
  split_and!; [done..|rewrite <- D; apply W'|done|done].
Qed.

(** A table of one string, and a section that names another: the string is refused,
    and then the section's reader answers zero values. *)
Lemma reader_safe_witness :
  let d := [1; 1; 97; 2; 0; 5; 1] in
  exists r s r', NewReader d = Some (Ok r) /\ Reader_Section r = Some (s, r') /\ held d s /\ data s = [0; 5] /\
    exists a s1, call OpString s = Some (a, s1) /\ answers OpString s s1 a /\ a = Text (bs "a") /\
    exists b s2, call OpString s1 = Some (b, s2) /\ b = Text [] /\ err s2 <> None /\
    call OpUint s2 = Some (Number 0, s2).
Proof.
  intros d. assert (Hb : Forall is_byte d) by (repeat constructor; unfold is_byte; lia).
  assert (Hl : Z.of_nat (length d) < 2 ^ 63) by done. destruct (reader_safe d Hb Hl) as [_ H].
  eexists _, _, _. split; [vm_compute; reflexivity|]. split; [vm_compute; reflexivity|].
  match goal with |- held d ?s /\ _ => assert (Hs : held d s) end.
  { eapply held_section; [apply held_open; vm_compute; reflexivity|vm_compute; reflexivity]. }
  split; [exact Hs|]. split; [reflexivity|].
  destruct (proj2 (H _ Hs) OpString) as (a & s1 & E1 & _ & _ & _ & A1 & _). exists a, s1. split; [exact E1|]. split; [exact A1|].
  assert (Hs1 : held d s1) by exact (held_next _ _ _ _ _ Hs E1).
  vm_compute in E1. injection E1 as <- <-. split; [reflexivity|].
  destruct (proj2 (H _ Hs1) OpString) as (b & s2 & E2 & _). exists b, s2. split; [exact E2|].
  assert (Hs2 : held d s2) by exact (held_next _ _ _ _ _ Hs1 E2).
  vm_compute in E2. injection E2 as <- <-. split; [reflexivity|]. split; [intros E; discriminate E|].
  destruct (proj2 (H _ Hs2) OpUint) as (c & s3 & E3 & _ & _ & _ & _ & Z).
  destruct Z as [-> ->]; [intros E; discriminate E|]. exact E3.
Defined.
