(* ===== verification/Integer.v ===== *)
(** * Constant values and exact Integers

    Models [internal/semantic/semantics]: the [Value] of a model-level constant
    and its packed form ([eval.go]), the machine-word arithmetic that reports
    overflow ([mulInt], [intPow]), and the unbounded Integers ([integer.go]).

    A [*big.Int] is a [Z] and a [*big.Rat] a pair in lowest terms: the operations
    of [math/big] are exact. A Real is an IEEE 754 binary64 ([SpecFloat]). The
    errors carry the numbers their messages print. *)
From Stdlib Require Import Floats.SpecFloat.
From S2P Require Import Prelude Bytes Machine.
Local Open Scope Z_scope.

(** ** Operators *)

Inductive OperatorKind :=
  | OpInvalid | OpConditional | OpNullCoalesce | OpImplies | OpOr | OpConditionalOr | OpXor
  | OpAnd | OpConditionalAnd | OpEq | OpNeq | OpEqEqEq | OpNeqEqEq | OpHasType | OpIsType
  | OpAt | OpMetaAt | OpAs | OpMeta | OpLt | OpGt | OpLe | OpGe | OpRange | OpAdd | OpSub
  | OpMul | OpDiv | OpMod | OpPow | OpNeg | OpPos | OpBitNot | OpNot | OpAll | OpIndex.
#[export] Instance OperatorKind_eq_dec : EqDecision OperatorKind.
Proof. solve_decision. Defined.

(** ** Library numbers *)

(** [big.Rat]: a numerator over a positive denominator, in lowest terms. *)
Record Rat := { Num : Z; Denom : Z }.

(** [SetFrac] for a nonzero denominator. *)
Definition SetFrac (n d : Z) : Rat :=
  let g := Z.gcd n d in {| Num := Z.sgn d * (n / g); Denom := Z.abs d / g |}.
Definition SetInt (n : Z) : Rat := {| Num := n; Denom := 1 |}.

(** [BitLen]: the bits of the magnitude. *)
Definition BitLen (n : Z) : Z := if n =? 0 then 0 else Z.log2 (Z.abs n) + 1.
Definition IsInt64 (n : Z) : bool := (- 2 ^ 63 <=? n) && (n <? 2 ^ 63).

Definition MaxInt64 : Z := 2 ^ 63 - 1.
Definition MinInt64 : Z := - 2 ^ 63.

(** binary64. *)
Abbreviation prec := 53.
Abbreviation emax := 1024.
Definition f64 (n e : Z) : spec_float := binary_normalize prec emax n e false.

(** [x.Cmp(y)]: -1, 0 or 1. *)
Definition Cmp (x y : Z) : Z := if x <? y then -1 else if y <? x then 1 else 0.

(** ** Values *)

Inductive ValueKind := ValInvalid | ValInt | ValReal | ValBool | ValInfinity | ValRational.
#[export] Instance ValueKind_eq_dec : EqDecision ValueKind.
Proof. solve_decision. Defined.

Record Value := {
  vKind : ValueKind; vBool : bool; den : Z; Int : Z; Real : spec_float; ext : option Rat }.

(** The zero [Value{}]. *)
Definition zero_value : Value :=
  {| vKind := ValInvalid; vBool := false; den := 0; Int := 0; Real := S754_zero false; ext := None |}.

Record Packed := { pKind : ValueKind; Den : Z; Bits : Z; Ext : option Rat }.

Section Packing.
(** [math.Float64bits] and [math.Float64frombits]. *)
Variable Float64bits : spec_float -> Z.
Variable Float64frombits : Z -> spec_float.

Definition Pack (v : Value) : Packed :=
  {| pKind := v.(vKind); Den := v.(den); Ext := v.(ext);
     Bits := match v.(vKind) with
             | ValReal => Float64bits v.(Real)
             | ValBool => if v.(vBool) then 1 else 0
             | _ => uint64 v.(Int)
             end |}.

Definition Unpack (p : Packed) : Value :=
  let v := {| vKind := p.(pKind); vBool := false; den := p.(Den); Int := 0;
              Real := S754_zero false; ext := p.(Ext) |} in
  match p.(pKind) with
  | ValReal => {| vKind := v.(vKind); vBool := v.(vBool); den := v.(den); Int := v.(Int);
                  Real := Float64frombits p.(Bits); ext := v.(ext) |}
  | ValBool => {| vKind := v.(vKind); vBool := negb (p.(Bits) =? 0); den := v.(den);
                  Int := v.(Int); Real := v.(Real); ext := v.(ext) |}
  | _ => {| vKind := v.(vKind); vBool := v.(vBool); den := v.(den); Int := int64 p.(Bits);
            Real := v.(Real); ext := v.(ext) |}
  end.
End Packing.

(** ** Errors *)

Inductive num_error :=
  | ErrArithmeticDomain
  | ErrArithmeticOverflow
  | ErrRealNotation
  | ErrDivisionByZero
  | ErrIntegerSizeLimit (bits maxBits : Z)
  | ErrRationalSizeLimit (bits maxBits : Z).
Abbreviation res A := (result num_error A).

Definition DefaultMaxIntegerBits : Z := Z.shiftl 1 20.
Definition MinMaxIntegerBits : Z := 64.
Definition IntegerSizeExceeded (bits maxBits : Z) : num_error := ErrIntegerSizeLimit bits maxBits.
Definition RationalSizeExceeded (bits maxBits : Z) : num_error := ErrRationalSizeLimit bits maxBits.

(** ** Machine words *)

Definition mulInt (a b : Z) : Z * bool :=
  if (a =? 0) || (b =? 0) then (0, true)
  else if ((a =? MinInt64) && (b =? -1)) || ((b =? MinInt64) && (a =? -1)) then (0, false)
  else
    let res := int64 (a * b) in
    if negb (Z.quot res b =? a) then (0, false) else (res, true).

(** The loop of [intPow]: a 63-bit exponent is halved to zero in as many steps. *)
Fixpoint intPow_loop (fuel : nat) (res a n : Z) : option (Z * bool) :=
  if n <=? 0 then Some (res, true)
  else
    match fuel with
    | O => None
    | S fuel' =>
        let '(res, ok) := if Z.land n 1 =? 1 then mulInt res a else (res, true) in
        if negb ok then Some (0, false)
        else
          let n := Z.shiftr n 1 in
          if n =? 0 then Some (res, true)
          else
            let '(a, ok) := mulInt a a in
            if negb ok then Some (0, false) else intPow_loop fuel' res a n
    end.
Definition intPow (a n : Z) : Z * bool := default (0, false) (intPow_loop 64 1 a n).

Definition int64Arith (op : OperatorKind) (a b : Z) : Z * bool :=
  match op with
  | OpAdd =>
      let res := int64 (a + b) in
      (res, ((b <=? 0) || (a <? res)) && ((0 <=? b) || (res <? a)))
  | OpSub =>
      let res := int64 (a - b) in
      (res, ((0 <=? b) || (a <? res)) && ((b <=? 0) || (res <? a)))
  | OpMul => mulInt a b
  | _ => (0, false)
  end.

(** ** Integers *)

Definition IntValue (i : Z) : Value :=
  {| vKind := ValInt; vBool := false; den := 0; Int := i; Real := S754_zero false; ext := None |}.

(** A Value whose payload is an exact number held in [math/big]. *)
Definition ext_value (k : ValueKind) (r : Rat) : Value :=
  {| vKind := k; vBool := false; den := 0; Int := 0; Real := S754_zero false; ext := Some r |}.

Definition BigIntValue (b : Z) : Value :=
  if IsInt64 b then IntValue b else ext_value ValInt (SetInt b).

Definition digit (c : Z) : bool := ("0"%ch <=? c) && (c <=? "9"%ch).

(** The value of a run of decimal digits, most significant first. *)
Definition decimal (digits : bytes) : Z :=
  fold_left (fun n c => n * 10 + (c - "0"%ch)) digits 0.

(** [strconv.ParseInt(text, 10, 64)] without its range check, and
    [big.Int.SetString(text, 10)]: an optional sign and at least one digit. *)
Definition parse_decimal (text : bytes) : option Z :=
  let '(sign, ds) := match text with
                     | c :: t => if c =? "-"%ch then (-1, t) else if c =? "+"%ch then (1, t) else (1, text)
                     | [] => (1, text)
                     end in
  match ds with
  | [] => None
  | _ => if forallb digit ds then Some (sign * decimal ds) else None
  end.
Definition strconv_ParseInt (text : bytes) : option Z :=
  z ← parse_decimal text; if IsInt64 z then Some z else None.

Definition isIntegerNotation (text : bytes) : bool :=
  let text := match text with
              | c :: t => if (c =? "+"%ch) || (c =? "-"%ch) then t else text
              | [] => text
              end in
  match text with [] => false | _ => forallb digit text end.

Definition ParseInteger (text : bytes) : option Value :=
  match strconv_ParseInt text with
  | Some i => Some (IntValue i)
  | None =>
      if negb (isIntegerNotation text) then None
      else BigIntValue <$> parse_decimal text
  end.

(** [strconv.FormatInt] and [big.Int.String]: a number has no more digits than bits. *)
Fixpoint digits_go (fuel : nat) (n : Z) (acc : bytes) : bytes :=
  match fuel with
  | O => acc
  | S fuel' =>
      let acc := ("0"%ch + n mod 10) :: acc in
      if n <? 10 then acc else digits_go fuel' (n / 10) acc
  end.
Definition decimal_text (z : Z) : bytes :=
  (if z <? 0 then bs "-" else []) ++ digits_go (S (Z.to_nat (BitLen z))) (Z.abs z) [].
Definition FormatInt (v : Value) : bytes :=
  match v.(ext) with Some r => decimal_text r.(Num) | None => decimal_text v.(Int) end.

Definition is_int (v : Value) : bool := bool_decide (v.(vKind) = ValInt).
Definition is_none {A} (o : option A) : bool := match o with None => true | Some _ => false end.

Definition IsBigInt (v : Value) : bool := is_int v && negb (is_none v.(ext)).
Definition Int64 (v : Value) : option Z :=
  if negb (is_int v) || negb (is_none v.(ext)) then None else Some v.(Int).

(** [BigInt], [bigView]: fresh or shared, the Integer [v]. *)
Definition BigInt (v : Value) : Z := match v.(ext) with Some r => r.(Num) | None => v.(Int) end.
Definition BigIntView (v : Value) : option Z := Num <$> v.(ext).
Definition bigView (v : Value) : Z := match v.(ext) with Some r => r.(Num) | None => v.(Int) end.

Definition IntSign (v : Value) : Z :=
  match v.(ext) with
  | Some r => Z.sgn r.(Num)
  | None => if v.(Int) <? 0 then -1 else if 0 <? v.(Int) then 1 else 0
  end.

Definition IntBitLen (v : Value) : Z :=
  match v.(ext) with
  | Some r => BitLen r.(Num)
  | None =>
      if v.(Int) =? MinInt64 then 64
      else let n := if v.(Int) <? 0 then int64 (- v.(Int)) else v.(Int) in BitLen n
  end.

Definition CompareInt (a b : Value) : Z :=
  match a.(ext), b.(ext) with
  | None, None => if a.(Int) <? b.(Int) then -1 else if b.(Int) <? a.(Int) then 1 else 0
  | _, _ => Cmp (bigView a) (bigView b)
  end.

(** The Integer a cell holds, refused when its magnitude exceeds [maxBits]. *)
Definition sizedInt (n maxBits : Z) : res Value :=
  let bits := BitLen n in
  if maxBits <? bits then Err (IntegerSizeExceeded bits maxBits)
  else if IsInt64 n then Ok (IntValue n) else Ok (ext_value ValInt (SetInt n)).

Definition bigIntArith (op : OperatorKind) (a b : Value) (maxBits : Z) : res Value :=
  let x := bigView a in
  let y := bigView b in
  match op with
  | OpAdd => sizedInt (x + y) maxBits
  | OpSub => sizedInt (x - y) maxBits
  | OpMul =>
      if (Z.sgn x =? 0) || (Z.sgn y =? 0) then Ok (IntValue 0)
      else
        let bits := BitLen x + BitLen y - 1 in
        if maxBits <? bits then Err (IntegerSizeExceeded bits maxBits)
        else sizedInt (x * y) maxBits
  | _ => Err ErrArithmeticDomain
  end.

Definition IntArith (op : OperatorKind) (a b : Value) (maxBits : Z) : res Value :=
  match a.(ext), b.(ext) with
  | None, None =>
      let '(r, ok) := int64Arith op a.(Int) b.(Int) in
      if ok then Ok (IntValue r) else bigIntArith op a b maxBits
  | _, _ => bigIntArith op a b maxBits
  end.

Definition IntNeg (v : Value) : Value :=
  if is_none v.(ext) && negb (v.(Int) =? MinInt64) then IntValue (int64 (- v.(Int)))
  else BigIntValue (- bigView v).

Definition IntAbs (v : Value) : Value := if IntSign v <? 0 then IntNeg v else v.

(** Go's [%] and [/] on int64 wrap; the only quotient out of range does not arise. *)
Definition IntRem (a b : Value) : option Value :=
  if IntSign b =? 0 then None
  else match a.(ext), b.(ext) with
       | None, None => Some (IntValue (int64 (Z.rem a.(Int) b.(Int))))
       | _, _ => Some (BigIntValue (Z.rem (bigView a) (bigView b)))
       end.

Definition IntDivTrunc (a b : Value) : option Value :=
  if IntSign b =? 0 then None
  else if is_none a.(ext) && is_none b.(ext) && (negb (a.(Int) =? MinInt64) || negb (b.(Int) =? -1))
  then Some (IntValue (int64 (Z.quot a.(Int) b.(Int))))
  else Some (BigIntValue (Z.quot (bigView a) (bigView b))).

(** The power computed, or refused before it is. *)
Definition big_pow (a n : Value) (maxBits : Z) : res Value :=
  let lowerBits := (IntBitLen a - 1) * bigView n + 1 in
  if negb (IsInt64 lowerBits) || (maxBits <? lowerBits)
  then Err (IntegerSizeExceeded (if IsInt64 lowerBits then lowerBits else MaxInt64) maxBits)
  else sizedInt (bigView a ^ bigView n) maxBits.

Definition small_base (a : Value) (p : Z -> bool) : bool := is_none a.(ext) && p a.(Int).

Definition IntPow (a n : Value) (maxBits : Z) : res Value :=
  let '(r, ok) := match a.(ext), n.(ext) with
                  | None, None => intPow a.(Int) n.(Int)
                  | _, _ => (0, false)
                  end in
  if ok then Ok (IntValue r)
  else if IntSign n =? 0 then Ok (IntValue 1)
  else if small_base a (fun i => (i =? 0) || (i =? 1)) then Ok a
  else if small_base a (fun i => i =? -1) then
    if Z.land (bigView n) 1 =? 0 then Ok (IntValue 1) else Ok a
  else big_pow a n maxBits.
