(* ===== verification/IntegerFacts.v ===== *)
(** * Exact Integers: properties

    The Integer [z] has exactly one representation, [BigIntValue z]; every
    operation on representations is the exact operation on [Z], and the only
    refusal is of a result whose magnitude exceeds the budget. *)
From Stdlib Require Import Floats.SpecFloat.
From S2P Require Import Prelude Bytes Machine Integer.
Local Open Scope Z_scope.

(** ** Bit lengths *)

Lemma BitLen_nonneg z : 0 <= BitLen z.
Proof. unfold BitLen. destruct (z =? 0); [lia|]. pose proof (Z.log2_nonneg (Z.abs z)). lia. Qed.

Lemma BitLen_abs z : BitLen (Z.abs z) = BitLen z.
Proof.
  unfold BitLen. rewrite (Z.abs_eq (Z.abs z)) by lia.
  destruct (Z.eqb_spec z 0), (Z.eqb_spec (Z.abs z) 0); lia.
Qed.

Lemma BitLen_le z k : 0 <= k -> BitLen z <= k <-> Z.abs z < 2 ^ k.
Proof.
  intros Hk. unfold BitLen. destruct (Z.eqb_spec z 0) as [->|Hz].
  - split; [intros _; apply Z.pow_pos_nonneg; lia|lia].
  - rewrite Z.log2_lt_pow2 by lia. lia.
Qed.

Lemma BitLen_gt z k : 0 <= k -> k < BitLen z <-> 2 ^ k <= Z.abs z.
Proof. intros Hk. pose proof (BitLen_le z k Hk). lia. Qed.

Lemma BitLen_pow z : z <> 0 -> 2 ^ (BitLen z - 1) <= Z.abs z < 2 ^ BitLen z.
Proof.
  intros Hz. unfold BitLen. destruct (Z.eqb_spec z 0); [done|].
  rewrite Z.add_simpl_r. rewrite Z.add_1_r. apply Z.log2_spec. lia.
Qed.

Lemma BitLen_pos z : z <> 0 -> 1 <= BitLen z.
Proof. intros Hz. unfold BitLen. destruct (Z.eqb_spec z 0); [done|]. pose proof (Z.log2_nonneg (Z.abs z)). lia. Qed.

(** A product has at least [BitLen x + BitLen y - 1] bits. *)
Lemma BitLen_mul x y : x <> 0 -> y <> 0 -> BitLen x + BitLen y - 1 <= BitLen (x * y).
Proof.
  intros Hx Hy. pose proof (BitLen_pow x Hx). pose proof (BitLen_pow y Hy).
  pose proof (BitLen_pos x Hx). pose proof (BitLen_pos y Hy).
  assert (BitLen x + BitLen y - 2 < BitLen (x * y)); [|lia].
  apply BitLen_gt; [lia|]. rewrite Z.abs_mul.
  replace (BitLen x + BitLen y - 2) with ((BitLen x - 1) + (BitLen y - 1)) by lia.
  rewrite Z.pow_add_r by lia. apply Z.mul_le_mono_nonneg; lia.
Qed.

(** A power has at least [(BitLen x - 1) * n + 1] bits. *)
Lemma BitLen_power x n : x <> 0 -> 0 <= n -> (BitLen x - 1) * n + 1 <= BitLen (x ^ n).
Proof.
  intros Hx Hn. pose proof (BitLen_pow x Hx) as [Hp _]. pose proof (BitLen_pos x Hx).
  assert ((BitLen x - 1) * n < BitLen (x ^ n)); [|lia].
  apply BitLen_gt; [nia|]. rewrite Z.pow_mul_r by lia. rewrite Z.abs_pow.
  apply Z.pow_le_mono_l. split; [apply Z.pow_nonneg; lia|done].
Qed.

Lemma IsInt64_spec z : IsInt64 z = true <-> is_int64 z.
Proof. unfold IsInt64, is_int64. lia. Qed.

Lemma IsInt64_bits z : is_int64 z -> BitLen z <= 64.
Proof.
  intros Hz. apply BitLen_le; [lia|]. unfold is_int64 in Hz.
  change (2 ^ 64) with (2 * 2 ^ 63). lia.
Qed.

(** ** Machine words *)

Lemma int64_wrap z : exists k, int64 z = z - k * 2 ^ 64 /\ is_int64 (int64 z).
Proof.
  exists ((z + 2 ^ 63) / 2 ^ 64). split; [|apply int64_range].
  unfold int64, two64. pose proof (Z.div_mod (z + 2 ^ 63) (2 ^ 64) ltac:(done)). lia.
Qed.

Lemma mulInt_spec a b :
  is_int64 a -> is_int64 b ->
  if IsInt64 (a * b) then mulInt a b = (a * b, true) else mulInt a b = ((mulInt a b).1, false).
Proof.
  intros Ha Hb. unfold mulInt.
  destruct ((a =? 0) || (b =? 0)) eqn:E0.
  { replace (a * b) with 0 by nia. done. }
  assert (Ha0 : a <> 0) by lia. assert (Hb0 : b <> 0) by lia.
  destruct ((a =? MinInt64) && (b =? -1) || (b =? MinInt64) && (a =? -1)) eqn:E1.
  { destruct (IsInt64 (a * b)) eqn:Ei; [|done]. apply IsInt64_spec in Ei.
    unfold is_int64, MinInt64 in *. exfalso. bool_split. destruct E1; bool_split; nia. }
  clear E1. cbv zeta. destruct (int64_wrap (a * b)) as (k & Hk & Hr).
  destruct (IsInt64 (a * b)) eqn:Ei.
  - apply IsInt64_spec in Ei. rewrite int64_small by done.
    rewrite Z.quot_mul, Z.eqb_refl by done. done.
  - destruct (Z.eqb_spec (Z.quot (int64 (a * b)) b) a) as [Hq|]; [|done]. exfalso.
    assert (k <> 0).
    { intros ->. rewrite Z.mul_0_l, Z.sub_0_r in Hk. rewrite Hk in Hr.
      apply IsInt64_spec in Hr. congruence. }
    pose proof (Z.quot_rem (int64 (a * b)) b Hb0) as Hqr. rewrite Hq in Hqr.
    pose proof (Z.rem_bound_abs (int64 (a * b)) b Hb0) as Hrem.
    unfold is_int64 in *. change (2 ^ 64) with (2 * 2 ^ 63) in Hk. nia.
Qed.

Lemma mulInt_true a b r : is_int64 a -> is_int64 b -> mulInt a b = (r, true) -> r = a * b /\ is_int64 r.
Proof.
  intros Ha Hb H. pose proof (mulInt_spec a b Ha Hb) as Hs. destruct (IsInt64 (a * b)) eqn:E.
  - rewrite Hs in H. injection H as <-. split; [done|]. by apply IsInt64_spec.
  - rewrite Hs in H. by injection H.
Qed.

Lemma mulInt_false a b r : is_int64 a -> is_int64 b -> mulInt a b = (r, false) -> ~ is_int64 (a * b).
Proof.
  intros Ha Hb H. pose proof (mulInt_spec a b Ha Hb) as Hs. destruct (IsInt64 (a * b)) eqn:E.
  - rewrite Hs in H. by injection H.
  - intros Hi. apply IsInt64_spec in Hi. congruence.
Qed.

(** The three operators on [Z]. *)
Definition int_op (op : OperatorKind) (x y : Z) : option Z :=
  match op with OpAdd => Some (x + y) | OpSub => Some (x - y) | OpMul => Some (x * y) | _ => None end.

Lemma int64Arith_spec op a b z :
  is_int64 a -> is_int64 b -> int_op op a b = Some z ->
  if IsInt64 z then int64Arith op a b = (z, true) else (int64Arith op a b).2 = false.
Proof.
  intros Ha Hb. destruct op; try done; intros [= <-]; unfold int64Arith.
  - destruct (int64_wrap (a + b)) as (k & Hk & Hr).
    destruct (IsInt64 (a + b)) eqn:E.
    + apply IsInt64_spec in E. rewrite int64_small by done. f_equal. lia.
    + cbn [snd]. assert (~ is_int64 (a + b)) by (rewrite <- IsInt64_spec; congruence).
      unfold is_int64 in *. change (2 ^ 64) with (2 * 2 ^ 63) in Hk. lia.
  - destruct (int64_wrap (a - b)) as (k & Hk & Hr).
    destruct (IsInt64 (a - b)) eqn:E.
    + apply IsInt64_spec in E. rewrite int64_small by done. f_equal. lia.
    + cbn [snd]. assert (~ is_int64 (a - b)) by (rewrite <- IsInt64_spec; congruence).
      unfold is_int64 in *. change (2 ^ 64) with (2 * 2 ^ 63) in Hk. lia.
  - pose proof (mulInt_spec a b Ha Hb) as H. destruct (IsInt64 (a * b)); [done|]. by rewrite H.
Qed.

(** ** Integers *)

(** The Integer [z]. *)
Abbreviation integer := BigIntValue.

Lemma integer_small z : is_int64 z -> integer z = IntValue z.
Proof. intros H%IsInt64_spec. unfold BigIntValue. by rewrite H. Qed.

Lemma integer_cases z :
  (is_int64 z /\ integer z = IntValue z) \/ (~ is_int64 z /\ integer z = ext_value ValInt (SetInt z)).
Proof.
  unfold BigIntValue. destruct (IsInt64 z) eqn:E; [left|right]; (split; [|done]).
  - by apply IsInt64_spec.
  - rewrite <- IsInt64_spec. congruence.
Qed.

Lemma bigView_integer z : bigView (integer z) = z.
Proof. by destruct (integer_cases z) as [[_ ->]|[_ ->]]. Qed.

Lemma integer_inj x y : integer x = integer y -> x = y.
Proof. intros H%(f_equal bigView). by rewrite !bigView_integer in H. Qed.

Lemma IntSign_integer z : IntSign (integer z) = Z.sgn z.
Proof.
  destruct (integer_cases z) as [[_ ->]|[_ ->]]; [|done]. unfold IntSign. cbn.
  destruct (Z.ltb_spec z 0), (Z.ltb_spec 0 z); lia.
Qed.

Lemma IntBitLen_integer z : IntBitLen (integer z) = BitLen z.
Proof.
  destruct (integer_cases z) as [[Hz ->]|[_ ->]]; [|done]. unfold IntBitLen. cbn [ext Int IntValue].
  destruct (Z.eqb_spec z MinInt64) as [->|Hm]; [reflexivity|].
  rewrite <- (BitLen_abs z). f_equal. unfold is_int64, MinInt64 in *.
  destruct (Z.ltb_spec z 0); [rewrite int64_small by (unfold is_int64; lia)|]; lia.
Qed.

(** A result of the exact value [z] under a budget: the Integer [z], or a refusal
    that reports a size beyond the budget the result really has. *)
Definition sized (r : res Value) (z maxBits : Z) : Prop :=
  if BitLen z <=? maxBits then r = Ok (integer z)
  else exists b, r = Err (ErrIntegerSizeLimit b maxBits) /\ maxBits < b <= BitLen z.

Lemma sizedInt_sized z maxBits : sized (sizedInt z maxBits) z maxBits.
Proof.
  unfold sized, sizedInt. destruct (Z.leb_spec (BitLen z) maxBits).
  - rewrite (proj2 (Z.ltb_ge _ _)) by lia. unfold BigIntValue. by destruct (IsInt64 z).
  - rewrite (proj2 (Z.ltb_lt _ _)) by lia. eexists. split; [done|lia].
Qed.

Lemma sized_small z maxBits : 64 <= maxBits -> is_int64 z -> sized (Ok (IntValue z)) z maxBits.
Proof.
  intros Hm Hz. unfold sized. pose proof (IsInt64_bits z Hz).
  rewrite (proj2 (Z.leb_le _ _)) by lia. by rewrite integer_small.
Qed.

Lemma bigIntArith_sized op x y z maxBits :
  64 <= maxBits -> int_op op x y = Some z ->
  sized (bigIntArith op (integer x) (integer y) maxBits) z maxBits.
Proof.
  intros Hm Ho. unfold bigIntArith. rewrite !bigView_integer.
  destruct op; try done; injection Ho as <-; try apply sizedInt_sized.
  destruct ((Z.sgn x =? 0) || (Z.sgn y =? 0)) eqn:E.
  { replace (x * y) with 0 by nia. by apply sized_small. }
  pose proof (BitLen_mul x y ltac:(lia) ltac:(lia)).
  destruct (Z.ltb_spec maxBits (BitLen x + BitLen y - 1)); [|apply sizedInt_sized].
  unfold sized. rewrite (proj2 (Z.leb_gt _ _)) by lia. eexists. split; [done|lia].
Qed.

(** Addition, subtraction and multiplication are exact, or refused for the size
    of their result. *)
Lemma IntArith_exact op x y z maxBits :
  MinMaxIntegerBits <= maxBits -> int_op op x y = Some z ->
  sized (IntArith op (integer x) (integer y) maxBits) z maxBits.
Proof.
  unfold MinMaxIntegerBits. intros Hm Ho. unfold IntArith.
  pose proof (bigIntArith_sized op x y z maxBits Hm Ho) as Hbig.
  destruct (integer_cases x) as [[Hx Ex]|[_ Ex]]; rewrite Ex in *; [|exact Hbig].
  destruct (integer_cases y) as [[Hy Ey]|[_ Ey]]; rewrite Ey in *; [|exact Hbig].
  cbn [ext IntValue Int]. pose proof (int64Arith_spec op x y z Hx Hy Ho) as Hs.
  destruct (IsInt64 z) eqn:Ei.
  - rewrite Hs. apply sized_small; [done|]. by apply IsInt64_spec.
  - destruct (int64Arith op x y) as [r ok]. cbn in Hs. subst ok. exact Hbig.
Qed.

(** ** The other operations *)

Lemma is_none_integer z : is_none (ext (integer z)) = IsInt64 z.
Proof. unfold BigIntValue. by destruct (IsInt64 z). Qed.

Lemma Int_integer z : is_int64 z -> Int (integer z) = z.
Proof. intros Hz. by rewrite integer_small. Qed.

Lemma IntNeg_integer x : IntNeg (integer x) = integer (- x).
Proof.
  unfold IntNeg. rewrite bigView_integer, is_none_integer.
  destruct (IsInt64 x) eqn:E; cbn [andb]; [|done]. apply IsInt64_spec in E.
  rewrite Int_integer by done. destruct (Z.eqb_spec x MinInt64) as [->|Hm]; cbn [negb]; [done|].
  unfold is_int64, MinInt64 in *. rewrite int64_small by (unfold is_int64; lia).
  by rewrite integer_small by (unfold is_int64; lia).
Qed.

Lemma IntAbs_integer x : IntAbs (integer x) = integer (Z.abs x).
Proof.
  unfold IntAbs. rewrite IntSign_integer, IntNeg_integer.
  destruct (Z.ltb_spec (Z.sgn x) 0); f_equal; lia.
Qed.

Lemma Cmp_cases a b : Cmp a b = if a <? b then -1 else if b <? a then 1 else 0.
Proof. reflexivity. Qed.

Lemma CompareInt_integer x y : CompareInt (integer x) (integer y) = Cmp x y.
Proof.
  unfold CompareInt. rewrite !bigView_integer.
  destruct (integer_cases x) as [[_ ->]|[_ ->]], (integer_cases y) as [[_ ->]|[_ ->]]; done.
Qed.

Lemma IntRem_integer x y : y <> 0 -> IntRem (integer x) (integer y) = Some (integer (Z.rem x y)).
Proof.
  intros Hy. unfold IntRem. rewrite IntSign_integer, !bigView_integer.
  replace (Z.sgn y =? 0) with false by lia.
  destruct (integer_cases x) as [[Hx Ex]|[Hx Ex]], (integer_cases y) as [[Hy' Ey]|[Hy' Ey]];
    rewrite Ex, Ey; try done. cbn [ext IntValue Int].
  assert (is_int64 (Z.rem x y)).
  { pose proof (Z.rem_bound_abs x y Hy). unfold is_int64 in *.
    destruct (Z.le_gt_cases 0 x); [pose proof (Z.rem_nonneg x y)|pose proof (Z.rem_nonpos x y)]; lia. }
  by rewrite int64_small, integer_small.
Qed.

Lemma IntDivTrunc_integer x y : y <> 0 -> IntDivTrunc (integer x) (integer y) = Some (integer (Z.quot x y)).
Proof.
  intros Hy. unfold IntDivTrunc. rewrite IntSign_integer, !bigView_integer, !is_none_integer.
  replace (Z.sgn y =? 0) with false by lia.
  destruct (IsInt64 x && IsInt64 y && _) eqn:E; [|done].
  apply andb_true_iff in E as [E Hm]. apply andb_true_iff in E as [Ex Ey].
  apply IsInt64_spec in Ex, Ey. rewrite !Int_integer in * by done.
  assert (is_int64 (Z.quot x y)).
  { unfold is_int64, MinInt64 in *. pose proof (Z.quot_rem x y Hy). pose proof (Z.rem_bound_abs x y Hy).
    assert (Z.abs (Z.quot x y) <= Z.abs x).
    { pose proof (Z.quot_le_upper_bound (Z.abs x) (Z.abs y) (Z.abs x)).
      rewrite <- Z.quot_abs by done. nia. }
    assert (Z.quot x y <> 2 ^ 63); [|lia]. intros Hq. rewrite Hq in *.
    assert (x = - 2 ^ 63 /\ y = -1); [|lia]. nia. }
  by rewrite int64_small, integer_small.
Qed.

(** Negation, magnitude, sign, order, truncated quotient and remainder of
    Integers are those of [Z] on every pair of operands, the least machine word
    included; a zero divisor is the only one refused. *)
Lemma Integer_operations_exact x y :
  IntNeg (integer x) = integer (- x)
  /\ IntAbs (integer x) = integer (Z.abs x)
  /\ IntSign (integer x) = Z.sgn x
  /\ IntBitLen (integer x) = BitLen x
  /\ CompareInt (integer x) (integer y) = Cmp x y
  /\ IntDivTrunc (integer x) (integer y) = (if y =? 0 then None else Some (integer (Z.quot x y)))
  /\ IntRem (integer x) (integer y) = (if y =? 0 then None else Some (integer (Z.rem x y))).
Proof.
  split_and!; [apply IntNeg_integer|apply IntAbs_integer|apply IntSign_integer|apply IntBitLen_integer
              |apply CompareInt_integer|..].
  - destruct (Z.eqb_spec y 0) as [->|]; [done|by apply IntDivTrunc_integer].
  - destruct (Z.eqb_spec y 0) as [->|]; [done|by apply IntRem_integer].
Qed.

(** ** Powers *)

(** The squaring loop returns, within one step per bit, and what it returns as
    the power is the power. *)
Lemma intPow_loop_spec fuel res a n :
  is_int64 res -> is_int64 a -> 0 <= n < 2 ^ Z.of_nat fuel ->
  exists r ok, intPow_loop fuel res a n = Some (r, ok)
    /\ (ok = true -> r = res * a ^ n /\ is_int64 r).
Proof.
  revert res a n. induction fuel as [|fuel IH]; intros res a n Hres Ha Hn; cbn [intPow_loop].
  { assert (n = 0) as -> by (change (2 ^ Z.of_nat 0) with 1 in Hn; lia). cbn.
    exists res, true. split; [done|]. intros _. split; [lia|done]. }
  destruct (Z.leb_spec n 0).
  { assert (n = 0) as -> by lia. exists res, true. split; [done|]. intros _. split; [cbn; lia|done]. }
  assert (Hbit : Z.land n 1 = n mod 2) by (apply (land_low_bits n 1); lia). rewrite Hbit.
  rewrite Z.shiftr_div_pow2 by lia. change (2 ^ 1) with 2.
  assert (Hdm : n = 2 * (n / 2) + n mod 2) by (apply Z.div_mod; lia).
  assert (Hm : n mod 2 = 0 \/ n mod 2 = 1) by (pose proof (Z.mod_pos_bound n 2); lia).
  assert (Hh : 0 <= n / 2 < 2 ^ Z.of_nat fuel).
  { rewrite Nat2Z.inj_succ, Z.pow_succ_r in Hn by lia.
    split; [apply Z.div_pos; lia|apply Z.div_lt_upper_bound; lia]. }
  assert (Hpow : a ^ n = (a * a) ^ (n / 2) * a ^ (n mod 2)).
  { rewrite Hdm at 1. rewrite Z.pow_add_r, Z.pow_mul_r by lia. by rewrite Z.pow_2_r. }
  destruct (if n mod 2 =? 1 then mulInt res a else (res, true)) as [res' ok'] eqn:Emul.
  assert (Hres' : ok' = true -> res' = res * a ^ (n mod 2) /\ is_int64 res').
  { intros ->. destruct Hm as [Hm|Hm]; rewrite Hm in *; cbn [Z.eqb] in Emul.
    - injection Emul as <-. change (a ^ 0) with 1. rewrite Z.mul_1_r. done.
    - apply mulInt_true in Emul as [-> Hr]; [|done..]. rewrite Z.pow_1_r. done. }
  destruct ok'; cbn [negb]; [|by exists 0, false].
  destruct (Hres' eq_refl) as [-> Hr]. cbv zeta.
  destruct (Z.eqb_spec (n / 2) 0) as [Hz|Hz].
  { exists (res * a ^ (n mod 2)), true. split; [done|]. intros _. split; [|done].
    rewrite Hpow, Hz. change ((a * a) ^ 0) with 1. lia. }
  destruct (mulInt a a) as [a' ok2] eqn:Esq. destruct ok2; cbn [negb]; [|by exists 0, false].
  apply mulInt_true in Esq as [-> Ha']; [|done..].
  destruct (IH (res * a ^ (n mod 2)) (a * a) (n / 2) Hr Ha' Hh) as (r & ok & -> & Hok).
  exists r, ok. split; [done|]. intros Ht. destruct (Hok Ht) as [-> Hr']. split; [|done].
  rewrite Hpow. lia.
Qed.

Lemma intPow_true a n r :
  is_int64 a -> is_int64 n -> 0 <= n -> intPow a n = (r, true) -> r = a ^ n /\ is_int64 r.
Proof.
  intros Ha Hn H0. unfold intPow.
  destruct (intPow_loop_spec 64 1 a n) as (r' & ok & -> & Hok); [done|done| |].
  { unfold is_int64 in Hn. change (2 ^ Z.of_nat 64) with (2 * 2 ^ 63). lia. }
  cbn. intros [= -> ->]. destruct (Hok eq_refl) as [-> ?]. split; [lia|done].
Qed.

Lemma big_pow_sized x n maxBits :
  x <> 0 -> 0 <= n -> 64 <= maxBits < MaxInt64 ->
  sized (big_pow (integer x) (integer n) maxBits) (x ^ n) maxBits.
Proof.
  intros Hx Hn Hm. unfold big_pow. rewrite IntBitLen_integer, !bigView_integer.
  pose proof (BitLen_power x n Hx Hn) as Hlow. pose proof (BitLen_pos x Hx).
  set (low := (BitLen x - 1) * n + 1) in *.
  destruct (negb (IsInt64 low) || (maxBits <? low)) eqn:E; [|apply sizedInt_sized].
  assert (Hlow1 : 1 <= low) by (unfold low; nia). clearbody low. unfold sized.
  assert (Hb : maxBits < (if IsInt64 low then low else MaxInt64) <= BitLen (x ^ n)).
  { unfold IsInt64, MaxInt64 in *. destruct ((- 2 ^ 63 <=? low) && (low <? 2 ^ 63)) eqn:Ei; lia. }
  rewrite (proj2 (Z.leb_gt _ _)) by lia. eexists. split; [done|exact Hb].
Qed.

Lemma pow_minus_one n : 0 <= n -> (-1) ^ n = if n mod 2 =? 0 then 1 else -1.
Proof.
  intros Hn. assert (Hdm : n = 2 * (n / 2) + n mod 2) by (apply Z.div_mod; lia).
  assert (0 <= n / 2) by (apply Z.div_pos; lia).
  assert (Hm : n mod 2 = 0 \/ n mod 2 = 1) by (pose proof (Z.mod_pos_bound n 2); lia).
  rewrite Hdm at 1. rewrite Z.pow_add_r, Z.pow_mul_r by lia. change ((-1) ^ 2) with 1.
  rewrite Z.pow_1_l by done. by destruct Hm as [-> | ->].
Qed.

(** Exponentiation is exact, or refused for the size of its result. *)
Lemma IntPow_exact x n maxBits :
  0 <= n -> MinMaxIntegerBits <= maxBits < MaxInt64 ->
  sized (IntPow (integer x) (integer n) maxBits) (x ^ n) maxBits.
Proof.
  unfold MinMaxIntegerBits. intros Hn Hm. unfold IntPow.
  destruct (match ext (integer x), ext (integer n) with
            | None, None => intPow (Int (integer x)) (Int (integer n)) | _, _ => (0, false) end)
    as [r ok] eqn:Ef.
  assert (Hok : ok = true -> r = x ^ n /\ is_int64 r).
  { intros ->. destruct (integer_cases x) as [[Hx Ex]|[_ Ex]]; rewrite Ex in Ef; [|done].
    destruct (integer_cases n) as [[Hn' En]|[_ En]]; rewrite En in Ef; [|done].
    cbn [ext IntValue Int] in Ef. by apply intPow_true. }
  destruct ok. { destruct (Hok eq_refl) as [-> ?]. apply sized_small; done || lia. }
  clear Ef Hok r. rewrite IntSign_integer, bigView_integer. unfold small_base. rewrite !is_none_integer.
  destruct (Z.eqb_spec (Z.sgn n) 0).
  { replace n with 0 by lia. apply sized_small; done || lia. }
  assert (Hsmall : forall p, IsInt64 x && p (Int (integer x)) = true -> is_int64 x /\ p x = true).
  { intros p [H1%IsInt64_spec H2]%andb_true_iff. by rewrite Int_integer in H2. }
  destruct (IsInt64 x && ((Int (integer x) =? 0) || (Int (integer x) =? 1))) eqn:E1.
  { apply (Hsmall (fun i => (i =? 0) || (i =? 1))) in E1 as [Hx Hp].
    rewrite integer_small by done. replace (x ^ n) with x; [apply sized_small; (done || lia)|].
    destruct (decide (x = 0)) as [->|]; [by rewrite Z.pow_0_l by lia|].
    assert (x = 1) as -> by lia. by rewrite Z.pow_1_l. }
  destruct (IsInt64 x && (Int (integer x) =? -1)) eqn:E2.
  { apply (Hsmall (fun i => i =? -1)) in E2 as [Hx Hp]. apply Z.eqb_eq in Hp as ->.
    replace (Z.land n 1) with (n mod 2) by (symmetry; apply (land_low_bits n 1); lia).
    rewrite pow_minus_one by done.
    destruct (n mod 2 =? 0); apply sized_small; done || lia. }
  apply big_pow_sized; [|done|lia]. intros ->. by vm_compute in E1.
Qed.

(** C30: Integer addition, subtraction, multiplication and exponentiation by a
    non-negative Integer are exact: on the representations of [x] and [y] they
    return the representation of the exact result, refusing it exactly when its
    magnitude needs more bits than the budget, with a size beyond the budget that
    the result does need; the machine-word paths, the squaring loop included, stop
    and report every overflow. *)
Theorem Integer_arithmetic_exact x y maxBits :
  MinMaxIntegerBits <= maxBits ->
  (forall op z, int_op op x y = Some z -> sized (IntArith op (integer x) (integer y) maxBits) z maxBits)
  /\ (0 <= y -> maxBits < MaxInt64 -> sized (IntPow (integer x) (integer y) maxBits) (x ^ y) maxBits).
Proof.
  intros Hm. split.
  - intros op z. by apply IntArith_exact.
  - intros Hy Hb. by apply IntPow_exact.
Qed.

Lemma Integer_arithmetic_exact_witness :
  IntArith OpAdd (integer (2 ^ 63 - 1)) (integer 1) 64 = Ok (integer (2 ^ 63)) /\
  IntPow (integer 2) (integer 63) 64 = Ok (integer (2 ^ 63)) /\
  IntPow (integer (-3)) (integer 41) 64 = Err (ErrIntegerSizeLimit 65 64).
Proof.
  destruct (Integer_arithmetic_exact (2 ^ 63 - 1) 1 64) as [Ha _]; [done|].
  destruct (Integer_arithmetic_exact 2 63 64) as [_ Hp]; [done|].
  split_and!; [exact (Ha OpAdd (2 ^ 63) eq_refl)|apply Hp; unfold MaxInt64; lia|vm_compute; reflexivity].
Defined.

(** ** Notation *)

Lemma decimal_snoc ds c : decimal (ds ++ [c]) = decimal ds * 10 + (c - "0"%ch).
Proof. unfold decimal. by rewrite fold_left_app. Qed.

Lemma digits_go_spec fuel n acc :
  0 <= n -> n < 2 ^ Z.of_nat fuel \/ n < 10 -> (0 < fuel)%nat ->
  exists ds, digits_go fuel n acc = ds ++ acc /\ decimal ds = n /\ ds <> []
    /\ Forall (fun c => digit c = true) ds.
Proof.
  revert n acc. induction fuel as [|fuel IH]; intros n acc Hn Hb Hf; [lia|]. cbn [digits_go].
  assert (Hd : forall m, 0 <= m < 10 -> digit ("0"%ch + m) = true) by (unfold digit; lia).
  pose proof (Z.mod_pos_bound n 10 ltac:(lia)).
  destruct (Z.ltb_spec n 10).
  { exists ["0"%ch + n mod 10]. split_and!; [done| |done|by repeat constructor; apply Hd].
    unfold decimal. cbn [fold_left]. rewrite Z.mod_small by lia. lia. }
  assert (Hdm : n = 10 * (n / 10) + n mod 10) by (apply Z.div_mod; lia).
  assert (Hq : 0 <= n / 10) by (apply Z.div_pos; lia).
  destruct (IH (n / 10) (("0"%ch + n mod 10) :: acc)) as (ds & -> & Hv & Hne & HF); [done| | |].
  { left. destruct Hb as [Hb|]; [|lia]. rewrite Nat2Z.inj_succ, Z.pow_succ_r in Hb by lia. lia. }
  { destruct fuel; [|lia]. change (2 ^ Z.of_nat 1) with 2 in Hb. lia. }
  exists (ds ++ ["0"%ch + n mod 10]). split_and!.
  - by rewrite <- app_assoc.
  - rewrite decimal_snoc, Hv. lia.
  - by destruct ds.
  - apply Forall_app. split; [done|]. repeat constructor. by apply Hd.
Qed.

Lemma digits_abs z :
  exists ds, digits_go (S (Z.to_nat (BitLen z))) (Z.abs z) [] = ds /\ decimal ds = Z.abs z /\ ds <> []
    /\ Forall (fun c => digit c = true) ds.
Proof.
  pose proof (BitLen_nonneg z). pose proof (proj1 (BitLen_le z (BitLen z) ltac:(done)) ltac:(lia)).
  destruct (digits_go_spec (S (Z.to_nat (BitLen z))) (Z.abs z) []) as (ds & -> & H1 & H2 & H3); [lia| |lia|].
  { left. rewrite Nat2Z.inj_succ, Z2Nat.id, Z.pow_succ_r by lia. lia. }
  exists ds. by rewrite app_nil_r.
Qed.

Lemma parse_decimal_text z : parse_decimal (decimal_text z) = Some z.
Proof.
  unfold decimal_text, parse_decimal. destruct (digits_abs z) as (ds & -> & Hv & Hne & HF).
  apply forallb_Forall in HF as HF'. destruct ds as [|d ds]; [done|]. inversion HF; subst.
  destruct (Z.ltb_spec z 0).
  - change (bs "-") with ["-"%ch]. cbn [app]. rewrite Z.eqb_refl, HF'. f_equal. lia.
  - cbn [app]. unfold digit in H1. destruct (Z.eqb_spec d "-"%ch) as [->|]; [done|].
    destruct (Z.eqb_spec d "+"%ch) as [->|]; [done|]. rewrite HF'. f_equal. lia.
Qed.

Lemma notation_parses text : is_Some (parse_decimal text) <-> isIntegerNotation text = true.
Proof.
  assert (Hds : forall sign ds, is_Some (match ds with [] => None
              | _ => if forallb digit ds then Some (sign * decimal ds) else None end)
            <-> match ds with [] => false | _ => forallb digit ds end = true).
  { intros sign [|d ds]; [split; [by intros []|done]|].
    destruct (forallb digit (d :: ds)); [by split; eauto|split; [by intros []|done]]. }
  unfold parse_decimal, isIntegerNotation. destruct text as [|c t]; [apply (Hds 1 [])|].
  destruct (c =? "-"%ch), (c =? "+"%ch); cbn [orb];
    first [apply (Hds (-1) t)|apply (Hds 1 t)|apply (Hds 1 (c :: t))].
Qed.

Lemma FormatInt_integer z : FormatInt (integer z) = decimal_text z.
Proof. by destruct (integer_cases z) as [[_ ->]|[_ ->]]. Qed.

Lemma ParseInteger_eq text : ParseInteger text = BigIntValue <$> parse_decimal text.
Proof.
  unfold ParseInteger, strconv_ParseInt. pose proof (notation_parses text) as Hn.
  destruct (parse_decimal text) as [z|]; cbn [mbind option_bind].
  - destruct (IsInt64 z) eqn:E; [cbn; by rewrite integer_small by by apply IsInt64_spec|].
    rewrite (proj1 Hn) by eauto. done.
  - destruct (isIntegerNotation text); [|done]. destruct Hn as [_ Hn]. by destruct Hn.
Qed.

Lemma ParseInteger_text z : ParseInteger (decimal_text z) = Some (integer z).
Proof. by rewrite ParseInteger_eq, parse_decimal_text. Qed.

(** Reading decimal notation is exact at any magnitude: [ParseInteger]
    accepts exactly the optionally signed runs of digits and returns the Integer
    they denote, and what [FormatInt] prints for an Integer is read back as it. *)
Lemma ParseInteger_spec :
  (forall text, ParseInteger text = BigIntValue <$> parse_decimal text)
  /\ (forall text, is_Some (ParseInteger text) <-> isIntegerNotation text = true)
  /\ (forall z, ParseInteger (FormatInt (integer z)) = Some (integer z)).
Proof.
  split_and!; [exact ParseInteger_eq| |].
  - intros text. rewrite ParseInteger_eq, fmap_is_Some. apply notation_parses.
  - intros z. by rewrite FormatInt_integer, ParseInteger_text.
Qed.

(** Packing a constant into three words loses nothing: [Unpack] returns the
    Value packed, for every kind whose unused fields are zero. *)
Lemma Unpack_Pack bits of_bits v :
  of_bits (bits v.(Real)) = v.(Real) -> is_int64 v.(Int) ->
  (v.(vKind) <> ValReal -> v.(Real) = S754_zero false) ->
  (v.(vKind) <> ValBool -> v.(vBool) = false) ->
  (v.(vKind) = ValReal \/ v.(vKind) = ValBool -> v.(Int) = 0) ->
  Unpack of_bits (Pack bits v) = v.
Proof.
  intros Hf Hi Hr Hb Hk. destruct v as [k b d i r e]. cbn in *. unfold Unpack, Pack.
  cbn [pKind Den Bits Ext vKind vBool den Int Real ext].
  assert (Hint : int64 (uint64 i) = i) by (rewrite int64_uint64; by apply int64_small).
  destruct k; cbn; rewrite ?Hf, ?Hint; try (rewrite Hr, Hb by done; reflexivity).
  - rewrite Hb, Hk by auto. done.
  - rewrite Hr, Hk by auto. by destruct b.
Qed.

Lemma Unpack_Pack_witness :
  let v := {| vKind := ValReal; vBool := false; den := 0; Int := 0;
              Real := S754_finite true 5 (-1); ext := None |} in
  Unpack (fun z => if z =? 7 then S754_finite true 5 (-1) else S754_nan)
    (Pack (fun f => match f with S754_nan => 1 | _ => 7 end) v) = v.
Proof.
  intros v. apply (Unpack_Pack _ _ v); [reflexivity| |done|done|done].
  unfold is_int64. cbn. lia.
Defined.
