(* ===== verification/Rational.v ===== *)
(** * Exact Rationals

    Models [internal/semantic/semantics/rational.go]: a Rational held in lowest
    terms, in machine words when its terms fit and as a [big.Rat] otherwise, and
    the exact arithmetic, order, rounding and powers of Integers and Rationals. *)
From Stdlib Require Import Floats.SpecFloat.
From S2P Require Import Prelude Bytes Machine Integer.
Local Open Scope Z_scope.

(** ** [math/big] rationals *)

Definition Rat_Add (x y : Rat) : Rat :=
  SetFrac (x.(Num) * y.(Denom) + y.(Num) * x.(Denom)) (x.(Denom) * y.(Denom)).
Definition Rat_Sub (x y : Rat) : Rat :=
  SetFrac (x.(Num) * y.(Denom) - y.(Num) * x.(Denom)) (x.(Denom) * y.(Denom)).
Definition Rat_Mul (x y : Rat) : Rat := SetFrac (x.(Num) * y.(Num)) (x.(Denom) * y.(Denom)).
(** For a divisor other than zero, which [big.Rat] panics on. *)
Definition Rat_Quo (x y : Rat) : Rat := SetFrac (x.(Num) * y.(Denom)) (x.(Denom) * y.(Num)).
Definition Rat_Neg (x : Rat) : Rat := {| Num := - x.(Num); Denom := x.(Denom) |}.
Definition Rat_Cmp (x y : Rat) : Z := Cmp (x.(Num) * y.(Denom)) (y.(Num) * x.(Denom)).

(** ** Representation *)

Definition MaxUint32 : Z := 2 ^ 32 - 1.

Definition rat_inline (num d : Z) : Value :=
  {| vKind := ValRational; vBool := false; den := d; Int := num; Real := S754_zero false; ext := None |}.

Definition RatValue (r : Rat) : Value :=
  if IsInt64 r.(Num) && negb (r.(Num) =? MinInt64) && (r.(Denom) <=? MaxUint32)
  then rat_inline r.(Num) r.(Denom) else ext_value ValRational r.

Definition abs64 (x : Z) : Z := if x <? 0 then int64 (- x) else x.

(** Euclid's loop; a 63-bit divisor is halved at least every second step. *)
Fixpoint gcd_loop (fuel : nat) (a b : Z) : option Z :=
  if b =? 0 then Some a
  else match fuel with O => None | S fuel' => gcd_loop fuel' b (Z.rem a b) end.
Definition gcd64 (a b : Z) : Z :=
  let a := default 1 (gcd_loop 128 a b) in if a =? 0 then 1 else a.

Definition smallRat (num d : Z) : option Value :=
  if (num =? MinInt64) || (d =? MinInt64) then None
  else
    let '(num, d) := if d <? 0 then (int64 (- num), int64 (- d)) else (num, d) in
    let g := gcd64 (abs64 num) d in
    let '(num, d) := if 1 <? g then (Z.quot num g, Z.quot d g) else (num, d) in
    if MaxUint32 <? d then None else Some (rat_inline num d).

Definition FracValue (num d : Z) : option Value :=
  if d =? 0 then None
  else match smallRat num d with
       | Some v => Some v
       | None => Some (RatValue (SetFrac num d))
       end.

Definition IsRational (v : Value) : bool := bool_decide (v.(vKind) = ValRational).
Definition IsExact (v : Value) : bool := is_int v || IsRational v.

Definition ratView (v : Value) : Rat :=
  match v.(ext) with
  | Some r => r
  | None => if IsRational v then SetFrac v.(Int) v.(den) else SetInt v.(Int)
  end.

Definition small (v : Value) : option (Z * Z) :=
  if IsRational v && is_none v.(ext) then Some (v.(Int), v.(den))
  else if is_int v && is_none v.(ext) && negb (v.(Int) =? MinInt64) then Some (v.(Int), 1)
  else None.

Definition RatNumer (v : Value) : Value :=
  match small v with
  | Some (num, _) => IntValue num
  | None => if is_int v then v
            else match v.(ext) with Some r => BigIntValue r.(Num) | None => zero_value end
  end.
Definition RatDenom (v : Value) : Value :=
  match small v with
  | Some (_, d) => IntValue d
  | None => if is_int v then IntValue 1
            else match v.(ext) with Some r => BigIntValue r.(Denom) | None => zero_value end
  end.

Definition RatSign (v : Value) : Z :=
  if is_int v then IntSign v
  else match v.(ext) with
       | Some r => Z.sgn r.(Num)
       | None => if v.(Int) <? 0 then -1 else if 0 <? v.(Int) then 1 else 0
       end.

Definition RatBitLen (v : Value) : Z :=
  match small v with
  | Some (num, d) => BitLen (abs64 num) + BitLen d
  | None => let r := ratView v in BitLen r.(Num) + BitLen r.(Denom)
  end.

Definition RatIsWhole (v : Value) : bool :=
  if is_int v then true
  else match v.(ext) with Some r => r.(Denom) =? 1 | None => v.(den) =? 1 end.

(** ** Sizes *)

Definition sizedRat (r : Rat) (maxBits : Z) : res Value :=
  let bits := BitLen r.(Num) + BitLen r.(Denom) in
  if maxBits <? bits then Err (RationalSizeExceeded bits maxBits) else Ok (RatValue r).
Definition sizedValue (v : Value) (maxBits : Z) : res Value :=
  let bits := RatBitLen v in
  if maxBits <? bits then Err (RationalSizeExceeded bits maxBits) else Ok v.

Definition RatOf (v : Value) : Value :=
  if IsRational v then v
  else match v.(ext) with
       | None => if negb (v.(Int) =? MinInt64) then rat_inline v.(Int) 1 else RatValue (SetInt v.(Int))
       | Some r => ext_value ValRational r
       end.

(** ** Arithmetic *)

Definition guard_mul (a b : Z) : option Z := let '(r, ok) := mulInt a b in if ok then Some r else None.

(** The multiplication of two machine-word fractions, crosswise reduced. *)
Definition smallRatMul (an ad bn bd : Z) : option Value :=
  let g1 := gcd64 (abs64 an) bd in
  let g2 := gcd64 (abs64 bn) ad in
  n ← guard_mul (Z.quot an g1) (Z.quot bn g2);
  d ← guard_mul (Z.quot ad g2) (Z.quot bd g1);
  smallRat n d.

Definition smallRatArith (op : OperatorKind) (an ad bn bd : Z) : option Value :=
  match op with
  | OpAdd | OpSub =>
      bn ← (if bool_decide (op = OpSub) then
              if bn =? MinInt64 then None else Some (int64 (- bn))
            else Some bn);
      let g := gcd64 ad bd in
      l ← guard_mul an (Z.quot bd g);
      r ← guard_mul bn (Z.quot ad g);
      d ← guard_mul ad (Z.quot bd g);
      let '(n, ok) := int64Arith OpAdd l r in
      if negb ok then None else smallRat n d
  | OpMul => smallRatMul an ad bn bd
  | OpDiv =>
      if bn =? MinInt64 then None
      else
        let '(an, bn) := if bn <? 0 then (int64 (- an), int64 (- bn)) else (an, bn) in
        smallRatMul an ad bd bn
  | _ => None
  end.

Definition bigRatArith (op : OperatorKind) (x y : Rat) (maxBits : Z) : res Value :=
  match op with
  | OpAdd => sizedRat (Rat_Add x y) maxBits
  | OpSub => sizedRat (Rat_Sub x y) maxBits
  | OpMul => sizedRat (Rat_Mul x y) maxBits
  | OpDiv => sizedRat (Rat_Quo x y) maxBits
  | OpMod =>
      let q := Rat_Quo x y in
      let t := Z.quot q.(Num) q.(Denom) in
      sizedRat (Rat_Sub x (Rat_Mul y (SetInt t))) maxBits
  | _ => Err ErrArithmeticDomain
  end.

Definition small_result (op : OperatorKind) (a b : Value) : option Value :=
  '(an, ad) ← small a; '(bn, bd) ← small b; smallRatArith op an ad bn bd.

Definition RatArith (op : OperatorKind) (a b : Value) (maxBits : Z) : res Value :=
  if bool_decide (op = OpDiv \/ op = OpMod) && (RatSign b =? 0) then Err ErrDivisionByZero
  else match small_result op a b with
       | Some v => sizedValue v maxBits
       | None => bigRatArith op (ratView a) (ratView b) maxBits
       end.

Definition RatNeg (v : Value) : Value :=
  if is_int v then IntNeg v
  else match v.(ext) with
       | None => rat_inline (int64 (- v.(Int))) v.(den)
       | Some r => RatValue (Rat_Neg r)
       end.

Definition RatAbs (v : Value) : Value := if RatSign v <? 0 then RatNeg v else v.

Definition CompareRat (a b : Value) : Z :=
  if is_int a && is_int b then CompareInt a b
  else
    match ('(an, ad) ← small a; '(bn, bd) ← small b;
           l ← guard_mul an bd; r ← guard_mul bn ad; Some (l, r)) with
    | Some (l, r) => if l <? r then -1 else if r <? l then 1 else 0
    | None => Rat_Cmp (ratView a) (ratView b)
    end.

(** ** Rounding *)

Definition RatFloor (v : Value) : Value :=
  if is_int v then v
  else match v.(ext) with
       | None =>
           let d := v.(den) in
           let q := Z.quot v.(Int) d in
           IntValue (if negb (Z.rem v.(Int) d =? 0) && (v.(Int) <? 0) then q - 1 else q)
       | Some r => BigIntValue (Z.div r.(Num) r.(Denom))
       end.

Definition RatRound (v : Value) : Value :=
  if is_int v then v
  else match RatArith OpAdd (RatAbs v) (rat_inline 1 2) MaxInt64 with
       | Err _ => zero_value
       | Ok shifted =>
           let n := RatFloor shifted in
           if RatSign v <? 0 then IntNeg n else n
       end.

Definition RatTrunc (v : Value) : Value :=
  if RatSign v <? 0 then IntNeg (RatFloor (RatNeg v)) else RatFloor v.

(** ** Powers *)

(** The bits at least needed by a term of the power. *)
Definition pow_bits (t e : Z) : Z := if Z.abs t =? 1 then 0 else (BitLen t - 1) * e + 1.

Definition RatPow (base n : Value) (maxBits : Z) : res Value :=
  let sign := IntSign n in
  if sign =? 0 then Ok (rat_inline 1 1)
  else if RatSign base =? 0 then
    if sign <? 0 then Err ErrArithmeticDomain else Ok (RatOf base)
  else
    let r := ratView base in
    let num := r.(Num) in
    let d := r.(Denom) in
    if (Z.abs num =? Z.abs d) && (d =? 1) then
      if (0 <? num) || (Z.land (bigView n) 1 =? 0) then Ok (rat_inline 1 1)
      else Ok (rat_inline (-1) 1)
    else
      let e := Z.abs (bigView n) in
      let lower := pow_bits num e + pow_bits d e in
      if negb (IsInt64 lower) || (maxBits <? lower)
      then Err (RationalSizeExceeded (if IsInt64 lower then lower else MaxInt64) maxBits)
      else
        let '(pn, pd) := if sign <? 0 then (d ^ e, num ^ e) else (num ^ e, d ^ e) in
        sizedRat (SetFrac pn pd) maxBits.

(** ** Lowest terms *)

Definition LowestTermsRational (numerator denominator : bytes) : option Value :=
  match ParseInteger numerator, ParseInteger denominator with
  | Some num, Some d =>
      if CompareInt d (IntValue 1) <? 0 then None
      else
        let n := BigInt num in
        let d := BigInt d in
        if negb (Cmp (Z.gcd (Z.abs n) d) 1 =? 0) then None else Some (RatValue (SetFrac n d))
  | _, _ => None
  end.
