(* ===== verification/RationalFacts.v ===== *)
(** * Exact Rationals: properties

    Every rational number has exactly one representation, [rational q], whatever
    fraction it is written as; every operation on representations is the exact
    operation on [Q], and the only refusals are of a zero divisor, of zero to a
    negative power and of a result beyond the size budget. *)
From Stdlib Require Import Floats.SpecFloat QArith Qround Qabs Qpower.
From S2P Require Import Prelude Bytes Machine Integer IntegerFacts Rational.
Local Open Scope Z_scope.

(** ** Fractions in lowest terms *)

Definition qrat (q : Q) : Rat := SetFrac (Qnum q) (QDen q).

Lemma gcd_pos n d : d <> 0 -> 0 < Z.gcd n d.
Proof.
  intros Hd. pose proof (Z.gcd_nonneg n d). assert (Z.gcd n d <> 0); [|lia].
  rewrite Z.gcd_eq_0. lia.
Qed.

Lemma abs_div_gcd n d : d <> 0 -> Z.abs d / Z.gcd n d = Z.abs (d / Z.gcd n d).
Proof.
  intros Hd. pose proof (gcd_pos n d Hd) as Hg. destruct (Z.gcd_divide_r n d) as [b Hb].
  generalize dependent (Z.gcd n d). intros g Hg Hb. subst d.
  rewrite Z.abs_mul, (Z.abs_eq g) by lia. by rewrite !Z.div_mul by lia.
Qed.

Lemma SetFrac_cross n d n' d' :
  d <> 0 -> d' <> 0 -> n * d' = n' * d -> SetFrac n d = SetFrac n' d'.
Proof.
  intros Hd Hd' Hc.
  assert (Hg : forall n d, d <> 0 -> exists g a b, 0 < g /\ Z.gcd a b = 1 /\ b <> 0 /\ n = g * a /\ d = g * b
            /\ SetFrac n d = {| Num := Z.sgn d * a; Denom := Z.abs b |}).
  { clear. intros n d Hd. exists (Z.gcd n d), (n / Z.gcd n d), (d / Z.gcd n d).
    pose proof (Z.gcd_nonneg n d) as H0.
    assert (Hg : Z.gcd n d <> 0) by (rewrite Z.gcd_eq_0; lia).
    destruct (Z.gcd_divide_l n d) as [a Ha]. destruct (Z.gcd_divide_r n d) as [b Hb].
    assert (Ha' : n / Z.gcd n d = a) by (rewrite Ha at 1; by apply Z.div_mul).
    assert (Hb' : d / Z.gcd n d = b) by (rewrite Hb at 1; by apply Z.div_mul).
    assert (b <> 0) by (intros ->; lia).
    split_and!; [lia|by apply Z.gcd_div_gcd|by rewrite Hb'|rewrite Ha'; lia|rewrite Hb'; lia|].
    unfold SetFrac. f_equal. by apply abs_div_gcd. }
  destruct (Hg n d Hd) as (g & a & b & Hg0 & Hab & Hb & -> & -> & ->).
  destruct (Hg n' d' Hd') as (g' & a' & b' & Hg0' & Hab' & Hb' & -> & -> & ->).
  assert (Hx : a * b' = a' * b) by (apply (Z.mul_reg_l _ _ (g * g')); [nia|lia]). clear Hc.
  assert (Hdv : (b | b')).
  { apply (Z.gauss b a b'); [exists a'; lia|by rewrite Z.gcd_comm]. }
  assert (Hdv' : (b' | b)).
  { apply (Z.gauss b' a' b); [exists a; lia|by rewrite Z.gcd_comm]. }
  pose proof (Z.divide_antisym_abs _ _ Hdv Hdv') as Habs.
  assert (Hs : b = b' \/ b = - b') by lia.
  f_equal; [|done]. destruct Hs as [->| ->].
  - assert (a = a') by (apply (Z.mul_reg_r _ _ b'); [done|lia]). subst a.
    by rewrite !Z.sgn_mul, (Z.sgn_pos g), (Z.sgn_pos g') by done.
  - assert (a = - a') by (apply (Z.mul_reg_r _ _ b'); [done|lia]). subst a.
    rewrite !Z.sgn_mul, (Z.sgn_pos g), (Z.sgn_pos g') by done. rewrite Z.sgn_opp. lia.
Qed.

Lemma qrat_frac n d : 0 < d -> qrat (n # Z.to_pos d) = SetFrac n d.
Proof. intros Hd. unfold qrat. cbn [Qnum Qden]. by rewrite Z2Pos.id. Qed.

#[export] Instance qrat_proper : Proper (Qeq ==> eq) qrat.
Proof. intros p q Hpq. apply SetFrac_cross; [done..|exact Hpq]. Qed.

(** The invariant of [big.Rat]. *)
Definition lowest (r : Rat) : Prop := 0 < Denom r /\ Z.gcd (Num r) (Denom r) = 1.

Lemma SetFrac_lowest n d : d <> 0 -> lowest (SetFrac n d).
Proof.
  intros Hd. assert (Hg : Z.gcd n d <> 0) by (rewrite Z.gcd_eq_0; lia).
  pose proof (Z.gcd_nonneg n d) as H0. unfold lowest, SetFrac. cbn [Num Denom].
  rewrite abs_div_gcd by done. split.
  { destruct (Z.gcd_divide_r n d) as [b Hb]. rewrite Hb at 1. rewrite Z.div_mul by done.
    assert (b <> 0) by (intros ->; lia). lia. }
  assert (Hs : Z.sgn d = 1 \/ Z.sgn d = -1) by lia.
  rewrite Z.gcd_abs_r. destruct Hs as [-> | ->].
  - rewrite Z.mul_1_l. by apply Z.gcd_div_gcd.
  - replace (-1 * (n / Z.gcd n d)) with (- (n / Z.gcd n d)) by lia.
    rewrite Z.gcd_opp_l. by apply Z.gcd_div_gcd.
Qed.

Lemma lowest_SetFrac r : lowest r -> SetFrac (Num r) (Denom r) = r.
Proof.
  destruct r as [n d]. unfold lowest, SetFrac. cbn. intros [Hd ->].
  rewrite !Z.div_1_r. f_equal; lia.
Qed.

(** A fraction in lowest terms is the number it denotes. *)
Definition rat_Q (r : Rat) : Q := Num r # Z.to_pos (Denom r).

Lemma qrat_rat_Q r : lowest r -> qrat (rat_Q r) = r.
Proof. intros Hr. unfold rat_Q. rewrite qrat_frac by apply Hr. by apply lowest_SetFrac. Qed.

Lemma qrat_lowest q : lowest (qrat q).
Proof. by apply SetFrac_lowest. Qed.

Lemma SetFrac_rat_Q n d : d <> 0 -> (rat_Q (SetFrac n d) * inject_Z d == inject_Z n)%Q.
Proof.
  intros Hd. destruct (SetFrac_lowest n d Hd) as [Hp _].
  unfold rat_Q, Qeq, Qmult, inject_Z. cbn [Qnum Qden].
  rewrite Pos.mul_1_r, Z.mul_1_r, Z2Pos.id by done.
  unfold SetFrac in *. cbn [Num Denom] in *.
  assert (Hg : Z.gcd n d <> 0) by (rewrite Z.gcd_eq_0; lia).
  destruct (Z.gcd_divide_l n d) as [a Ha]. destruct (Z.gcd_divide_r n d) as [b Hb].
  set (g := Z.gcd n d) in *. clearbody g. subst n d.
  rewrite Z.abs_mul, Z.div_mul by done. pose proof (Z.div_mul (Z.abs b) (Z.abs g) ltac:(lia)).
  rewrite Z.sgn_mul. destruct (Z.lt_trichotomy g 0) as [Hn|[->|Hn]]; [|done|].
  - rewrite (Z.abs_neq g) in * by lia. rewrite Z.mul_opp_r in *.
    assert (Hq : - (Z.abs b * g) / g = - Z.abs b).
    { rewrite <- Z.mul_opp_l. by rewrite Z.div_mul. }
    rewrite Hq. rewrite (Z.sgn_neg g) by done. nia.
  - rewrite (Z.abs_eq g) in * by lia. rewrite Z.div_mul by done. rewrite (Z.sgn_pos g) by done.
    destruct (Z.lt_trichotomy b 0) as [Hb|[->|Hb]]; [|lia|].
    + rewrite Z.sgn_neg, Z.abs_neq by done || lia. lia.
    + rewrite Z.sgn_pos, Z.abs_eq by done || lia. lia.
Qed.

(** ** Machine words *)

Lemma gcd_loop_spec k fuel a b :
  0 <= a -> 0 <= b < 2 ^ Z.of_nat k -> (2 * k <= fuel)%nat -> gcd_loop fuel a b = Some (Z.gcd a b).
Proof.
  revert fuel a b. induction k as [|k IH]; intros fuel a b Ha Hb Hf.
  { assert (b = 0) as -> by (change (2 ^ Z.of_nat 0) with 1 in Hb; lia).
    rewrite Z.gcd_0_r, Z.abs_eq by done. by destruct fuel. }
  assert (Hstep : forall x y, 0 <= x -> 0 < y -> Z.gcd y (Z.rem x y) = Z.gcd x y /\ 0 <= Z.rem x y < y).
  { intros x y Hx Hy. rewrite Z.rem_mod_nonneg by lia. split; [|by apply Z.mod_pos_bound].
    by rewrite Z.gcd_comm, Z.gcd_mod, Z.gcd_comm by lia. }
  destruct fuel as [|[|fuel]]; [lia..|]. cbn [gcd_loop].
  destruct (Z.eqb_spec b 0) as [->|Hb0]; [by rewrite Z.gcd_0_r, Z.abs_eq|].
  destruct (Hstep a b Ha ltac:(lia)) as [<- Hr]. set (r := Z.rem a b) in *.
  destruct (Z.eqb_spec r 0) as [->|Hr0]; [by rewrite Z.gcd_0_r, Z.abs_eq by lia|].
  destruct (Hstep b r ltac:(lia) ltac:(lia)) as [<- Hr2].
  apply IH; [lia| |lia]. split; [lia|]. rewrite Nat2Z.inj_succ, Z.pow_succ_r in Hb by lia.
  pose proof (Z.quot_rem b r Hr0). assert (1 <= Z.quot b r) by (apply Z.quot_le_lower_bound; lia). nia.
Qed.

Lemma gcd64_spec a b : 0 <= a -> 0 < b -> is_int64 b -> gcd64 a b = Z.gcd a b.
Proof.
  intros Ha Hb Hi. unfold gcd64.
  rewrite (gcd_loop_spec 63); [|done|unfold is_int64 in Hi; change (Z.of_nat 63) with 63; lia|lia].
  cbn [default from_option id]. pose proof (gcd_pos a b). destruct (Z.eqb_spec (Z.gcd a b) 0); lia.
Qed.

(** Machine words whose negation is one. *)
Definition word (z : Z) : Prop := - 2 ^ 63 < z < 2 ^ 63.

Lemma word_int64 z : word z -> is_int64 z.
Proof. unfold word, is_int64. lia. Qed.

Lemma word_opp z : word z -> int64 (- z) = - z.
Proof. unfold word. intros. apply int64_small. unfold is_int64. lia. Qed.

Lemma word_MinInt64 z : is_int64 z -> (z =? MinInt64) = false -> word z.
Proof. unfold word, is_int64, MinInt64. lia. Qed.

Lemma abs64_spec z : word z -> abs64 z = Z.abs z.
Proof. intros Hz. unfold abs64. rewrite word_opp by done. destruct (Z.ltb_spec z 0); lia. Qed.

Lemma word_quot z g : word z -> 0 < g -> word (Z.quot z g).
Proof.
  unfold word. intros Hz Hg.
  pose proof (Z.quot_rem z g ltac:(lia)). pose proof (Z.rem_bound_abs z g ltac:(lia)).
  Z.to_euclidean_division_equations. nia.
Qed.

Lemma word_gcd z g : word z -> 0 < g -> (g | z) -> word (z / g) /\ Z.quot z g = z / g.
Proof.
  intros Hz Hg [k ->]. unfold word in *. rewrite Z.quot_mul, Z.div_mul by lia. split; [nia|done].
Qed.

(** ** Representations *)

(** The Rational [q]. *)
Definition rational (q : Q) : Value := RatValue (qrat q).

#[export] Instance rational_proper : Proper (Qeq ==> eq) rational.
Proof. intros p q Hpq. unfold rational. by rewrite Hpq. Qed.

(** The values of the exact numbers: an Integer or a Rational. *)
Inductive exact : Value -> Q -> Prop :=
  | exact_int z : exact (integer z) (inject_Z z)
  | exact_rat q : exact (rational q) q.

Definition fits (r : Rat) : bool :=
  IsInt64 r.(Num) && negb (r.(Num) =? MinInt64) && (r.(Denom) <=? MaxUint32).

Lemma RatValue_eq r : RatValue r = if fits r then rat_inline (Num r) (Denom r) else ext_value ValRational r.
Proof. reflexivity. Qed.

Lemma fits_spec r : 0 < Denom r -> fits r = true <-> word (Num r) /\ Denom r <= MaxUint32.
Proof. intros. unfold fits, IsInt64, word, MinInt64. lia. Qed.

Lemma lowest_inline_view n d :
  0 < d -> Z.gcd n d = 1 -> SetFrac n d = {| Num := n; Denom := d |}.
Proof. intros Hd Hg. by apply (lowest_SetFrac {| Num := n; Denom := d |}). Qed.

Lemma ratView_RatValue r : lowest r -> ratView (RatValue r) = r.
Proof.
  intros Hr. rewrite RatValue_eq. destruct (fits r); [|done]. unfold ratView. cbn.
  by apply lowest_SetFrac.
Qed.

Lemma ratView_exact v q : exact v q -> ratView v = qrat q.
Proof.
  intros [z|p].
  - unfold qrat, inject_Z. cbn [Qnum Qden]. rewrite lowest_inline_view by (done || apply Z.gcd_1_r).
    by destruct (integer_cases z) as [[_ ->]|[_ ->]].
  - apply ratView_RatValue, qrat_lowest.
Qed.

Lemma is_int_integer z : is_int (integer z) = true.
Proof. by destruct (integer_cases z) as [[_ ->]|[_ ->]]. Qed.
Lemma is_int_RatValue r : is_int (RatValue r) = false.
Proof. rewrite RatValue_eq. by destruct (fits r). Qed.
Lemma IsRational_integer z : IsRational (integer z) = false.
Proof. by destruct (integer_cases z) as [[_ ->]|[_ ->]]. Qed.
Lemma IsRational_RatValue r : IsRational (RatValue r) = true.
Proof. rewrite RatValue_eq. by destruct (fits r). Qed.

Lemma is_int_rational q : is_int (rational q) = false.
Proof. apply is_int_RatValue. Qed.

Lemma RatSign_exact v q : exact v q -> RatSign v = Z.sgn (Qnum q).
Proof.
  intros [z|p]; unfold RatSign.
  - by rewrite is_int_integer, IntSign_integer.
  - assert (Hs : Z.sgn (Num (qrat p)) = Z.sgn (Qnum p)).
    { unfold qrat, SetFrac. cbn [Num]. rewrite Z.mul_1_l.
      pose proof (gcd_pos (Qnum p) (QDen p) ltac:(lia)) as Hg.
      destruct (Z.gcd_divide_l (Qnum p) (QDen p)) as [a Ha].
      assert (Hq : Qnum p / Z.gcd (Qnum p) (QDen p) = a) by (rewrite Ha at 1; apply Z.div_mul; lia).
      rewrite Hq. rewrite Ha, Z.sgn_mul, (Z.sgn_pos (Z.gcd _ _)) by done. lia. }
    rewrite <- Hs. unfold rational. rewrite is_int_RatValue, RatValue_eq.
    destruct (fits (qrat p)); [|done]. cbn -[qrat].
    generalize (Num (qrat p)). intros m. destruct (Z.ltb_spec m 0), (Z.ltb_spec 0 m); lia.
Qed.

Lemma small_exact v q n d :
  exact v q -> small v = Some (n, d) ->
  qrat q = {| Num := n; Denom := d |} /\ word n /\ 0 < d <= MaxUint32 /\ Z.gcd n d = 1.
Proof.
  intros [z|p].
  - destruct (integer_cases z) as [[Hz ->]|[_ ->]]; [|done]. unfold small. cbn.
    destruct (Z.eqb_spec z MinInt64); [done|]. intros [= <- <-].
    unfold qrat, inject_Z. cbn [Qnum Qden]. rewrite lowest_inline_view by (done || apply Z.gcd_1_r).
    split_and!; [done|..|apply Z.gcd_1_r]; unfold word, is_int64, MinInt64, MaxUint32 in *; lia.
  - unfold rational. rewrite RatValue_eq. destruct (fits (qrat p)) eqn:Ef; [|done].
    pose proof (qrat_lowest p) as [Hd Hg]. apply fits_spec in Ef as [H1 H2]; [|done].
    unfold small. cbn. intros [= <- <-]. split_and!; try done.
Qed.

(** ** Machine-word fractions *)

Lemma guard_mul_spec a b r : is_int64 a -> is_int64 b -> guard_mul a b = Some r -> r = a * b /\ is_int64 r.
Proof.
  intros Ha Hb. unfold guard_mul. destruct (mulInt a b) as [x ok] eqn:E. destruct ok; [|done].
  intros [= <-]. by apply mulInt_true.
Qed.

Lemma SetFrac_div n d g :
  0 < g -> (g | n) -> (g | d) -> d <> 0 -> SetFrac (n / g) (d / g) = SetFrac n d.
Proof.
  intros Hg [a ->] [b ->] Hd. rewrite !Z.div_mul by lia.
  apply SetFrac_cross; [intros ->; lia|done|lia].
Qed.

Lemma smallRat_spec n d v :
  is_int64 n -> is_int64 d -> d <> 0 -> smallRat n d = Some v -> v = RatValue (SetFrac n d).
Proof.
  intros Hn Hd Hd0. unfold smallRat.
  destruct ((n =? MinInt64) || (d =? MinInt64)) eqn:E; [done|]. apply orb_false_iff in E as [En Ed].
  apply word_MinInt64 in En, Ed; [|done..].
  assert (Hpos : forall n d, word n -> word d -> 0 < d ->
    (let g := gcd64 (abs64 n) d in
     let '(n, d) := if 1 <? g then (Z.quot n g, Z.quot d g) else (n, d) in
     if MaxUint32 <? d then None else Some (rat_inline n d)) = Some v -> v = RatValue (SetFrac n d)).
  { clear. intros n d Hn Hd Hd0. cbv zeta.
    rewrite abs64_spec, gcd64_spec by (done || lia || by apply word_int64). rewrite Z.gcd_abs_l.
    pose proof (gcd_pos n d ltac:(lia)) as Hg.
    destruct (word_gcd n _ Hn Hg (Z.gcd_divide_l n d)) as [Wn Qn].
    destruct (word_gcd d _ Hd Hg (Z.gcd_divide_r n d)) as [Wd Qd].
    assert (Heq : (if 1 <? Z.gcd n d then (Z.quot n (Z.gcd n d), Z.quot d (Z.gcd n d)) else (n, d))
              = (n / Z.gcd n d, d / Z.gcd n d)).
    { rewrite Qn, Qd. destruct (Z.ltb_spec 1 (Z.gcd n d)); [done|].
      replace (Z.gcd n d) with 1 by lia. by rewrite !Z.div_1_r. }
    rewrite Heq.
    assert (Hf : SetFrac n d = {| Num := n / Z.gcd n d; Denom := d / Z.gcd n d |}).
    { unfold SetFrac. rewrite Z.sgn_pos, Z.abs_eq by lia. by rewrite Z.mul_1_l. }
    destruct (Z.ltb_spec MaxUint32 (d / Z.gcd n d)); [done|]. intros [= <-].
    rewrite RatValue_eq, Hf. pose proof (SetFrac_lowest n d ltac:(lia)) as [Hp _]. rewrite Hf in Hp.
    replace (fits _) with true; [done|]. symmetry. by apply fits_spec. }
  destruct (Z.ltb_spec d 0).
  - rewrite !word_opp by done. intros H1. apply Hpos in H1; [|unfold word in *; lia..].
    rewrite H1. f_equal. apply SetFrac_cross; lia.
  - intros H1. apply Hpos in H1; [done|done|done|lia].
Qed.

(** The value of a fraction of machine words. *)
Lemma rational_frac n d : 0 < d -> rational (n # Z.to_pos d) = RatValue (SetFrac n d).
Proof. intros. unfold rational. by rewrite qrat_frac. Qed.

Lemma smallRatMul_spec an ad bn bd v :
  word an -> word bn -> word ad -> word bd -> 0 < ad -> 0 < bd ->
  smallRatMul an ad bn bd = Some v -> v = RatValue (SetFrac (an * bn) (ad * bd)).
Proof.
  intros Han Hbn Had Hbd Had0 Hbd0. unfold smallRatMul.
  rewrite !abs64_spec by done. rewrite !gcd64_spec by (done || lia || by apply word_int64).
  rewrite !Z.gcd_abs_l. set (g1 := Z.gcd an bd). set (g2 := Z.gcd bn ad).
  assert (Hg1 : 0 < g1) by (apply gcd_pos; lia). assert (Hg2 : 0 < g2) by (apply gcd_pos; lia).
  destruct (word_gcd an g1 Han Hg1 (Z.gcd_divide_l _ _)) as [W1 ->].
  destruct (word_gcd bn g2 Hbn Hg2 (Z.gcd_divide_l _ _)) as [W2 ->].
  destruct (word_gcd ad g2 Had Hg2 (Z.gcd_divide_r _ _)) as [W3 ->].
  destruct (word_gcd bd g1 Hbd Hg1 (Z.gcd_divide_r _ _)) as [W4 ->].
  destruct (guard_mul (an / g1) (bn / g2)) as [n|] eqn:En; [|done]. cbn [mbind option_bind].
  apply guard_mul_spec in En as [-> Hn]; [|by apply word_int64..].
  destruct (guard_mul (ad / g2) (bd / g1)) as [d|] eqn:Ed; [|done]. cbn [mbind option_bind].
  apply guard_mul_spec in Ed as [-> Hd]; [|by apply word_int64..].
  destruct (Z.gcd_divide_l an bd) as [a1 Ha1]. destruct (Z.gcd_divide_r an bd) as [b1 Hb1].
  destruct (Z.gcd_divide_l bn ad) as [a2 Ha2]. destruct (Z.gcd_divide_r bn ad) as [b2 Hb2].
  fold g1 in Ha1, Hb1. fold g2 in Ha2, Hb2. clearbody g1 g2. subst an bd bn ad.
  rewrite !Z.div_mul in * by lia.
  assert (0 < b1) by nia. assert (0 < b2) by nia.
  intros H1%smallRat_spec; [|done|done|lia]. rewrite H1. f_equal. apply SetFrac_cross; [lia|nia|ring].
Qed.

(** ** Arithmetic *)

(** The operation on fractions. *)
Definition frac_op (op : OperatorKind) (an ad bn bd : Z) : option (Z * Z) :=
  match op with
  | OpAdd => Some (an * bd + bn * ad, ad * bd)
  | OpSub => Some (an * bd - bn * ad, ad * bd)
  | OpMul => Some (an * bn, ad * bd)
  | OpDiv => Some (an * bd, ad * bn)
  | _ => None
  end.

Lemma small_add_spec an ad bn bd v :
  word an -> word bn -> word ad -> word bd -> 0 < ad -> 0 < bd ->
  (let g := gcd64 ad bd in
   l ← guard_mul an (Z.quot bd g); r ← guard_mul bn (Z.quot ad g); d ← guard_mul ad (Z.quot bd g);
   let '(n, ok) := int64Arith OpAdd l r in if negb ok then None else smallRat n d) = Some v ->
  v = RatValue (SetFrac (an * bd + bn * ad) (ad * bd)).
Proof.
  intros Han Hbn Had Hbd Had0 Hbd0. cbv zeta.
  rewrite gcd64_spec by (done || lia || by apply word_int64). set (g := Z.gcd ad bd).
  assert (Hg : 0 < g) by (apply gcd_pos; lia).
  destruct (word_gcd ad g Had Hg (Z.gcd_divide_l _ _)) as [W1 ->].
  destruct (word_gcd bd g Hbd Hg (Z.gcd_divide_r _ _)) as [W2 ->].
  destruct (guard_mul an (bd / g)) as [l|] eqn:El; [|done]. cbn [mbind option_bind].
  apply guard_mul_spec in El as [-> Hl]; [|by apply word_int64..].
  destruct (guard_mul bn (ad / g)) as [r|] eqn:Er; [|done]. cbn [mbind option_bind].
  apply guard_mul_spec in Er as [-> Hr]; [|by apply word_int64..].
  destruct (guard_mul ad (bd / g)) as [d|] eqn:Ed; [|done]. cbn [mbind option_bind].
  apply guard_mul_spec in Ed as [-> Hd]; [|by apply word_int64..].
  pose proof (int64Arith_spec OpAdd _ _ _ Hl Hr eq_refl) as Hs.
  destruct (IsInt64 (an * (bd / g) + bn * (ad / g))) eqn:Ei.
  2:{ destruct (int64Arith OpAdd (an * (bd / g)) (bn * (ad / g))) as [n ok]. cbn in Hs. by subst ok. }
  rewrite Hs. cbn [negb]. apply IsInt64_spec in Ei.
  destruct (Z.gcd_divide_l ad bd) as [a1 Ha1]. destruct (Z.gcd_divide_r ad bd) as [b1 Hb1].
  fold g in Ha1, Hb1. clearbody g. subst ad bd. rewrite !Z.div_mul in * by lia.
  assert (0 < a1) by nia. assert (0 < b1) by nia.
  intros H1%smallRat_spec; [|done|done|lia]. rewrite H1. f_equal. apply SetFrac_cross; [lia|nia|ring].
Qed.

Lemma smallRatArith_spec op an ad bn bd v :
  word an -> word bn -> word ad -> word bd -> 0 < ad -> 0 < bd -> (op = OpDiv -> bn <> 0) ->
  smallRatArith op an ad bn bd = Some v ->
  exists N D, frac_op op an ad bn bd = Some (N, D) /\ D <> 0 /\ v = RatValue (SetFrac N D).
Proof.
  intros Han Hbn Had Hbd Had0 Hbd0 Hdiv. unfold smallRatArith.
  assert (Hm : forall z, word z -> (z =? MinInt64) = false) by (unfold word, MinInt64; lia).
  destruct op; try done.
  - rewrite bool_decide_false by done. cbn [mbind option_bind]. intros H1.
    eexists _, _. split; [done|]. split; [nia|]. by apply small_add_spec in H1.
  - rewrite bool_decide_true by done. rewrite Hm by done. cbn [mbind option_bind].
    rewrite word_opp by done. intros H1. eexists _, _. split; [done|]. split; [nia|].
    apply small_add_spec in H1; [|done|unfold word in *; lia|done..].
    rewrite H1. do 2 f_equal. lia.
  - intros H1. eexists _, _. split; [done|]. split; [nia|]. by apply smallRatMul_spec in H1.
  - rewrite Hm by done. specialize (Hdiv eq_refl). destruct (Z.ltb_spec bn 0).
    + rewrite !word_opp by done. intros H1. eexists _, _. split; [done|]. split; [nia|].
      apply smallRatMul_spec in H1; [|unfold word in *; lia..].
      rewrite H1. f_equal. apply SetFrac_cross; nia.
    + intros H1. eexists _, _. split; [done|]. split; [nia|].
      apply smallRatMul_spec in H1; [|unfold word in *; lia..]. exact H1.
Qed.

(** [math/big]'s operations on fractions in lowest terms. *)
Lemma rat_Q_qrat q : (rat_Q (qrat q) == q)%Q.
Proof.
  pose proof (SetFrac_rat_Q (Qnum q) (QDen q) ltac:(lia)) as H. fold (qrat q) in H.
  revert H. generalize (rat_Q (qrat q)). intros r H. unfold Qeq, Qmult, inject_Z in *.
  destruct q as [n d], r as [n' d']. cbn in *. lia.
Qed.

Lemma rat_Q_eq x n d :
  0 < Denom x -> 0 < d -> (rat_Q x == n # Z.to_pos d)%Q <-> Num x * d = n * Denom x.
Proof. intros Hx Hd. unfold rat_Q, Qeq. cbn. by rewrite !Z2Pos.id. Qed.

Lemma Rat_op_qrat op p q N D :
  let x := qrat p in let y := qrat q in
  frac_op op (Num x) (Denom x) (Num y) (Denom y) = Some (N, D) ->
  (op = OpDiv -> ~ (q == 0)%Q) ->
  D <> 0 /\ SetFrac N D = qrat (match op with OpAdd => p + q | OpSub => p - q | OpMul => p * q | _ => p / q end)%Q.
Proof.
  intros x y Hf Hdiv.
  assert (Hx : (rat_Q x == p)%Q) by apply rat_Q_qrat. assert (Hy : (rat_Q y == q)%Q) by apply rat_Q_qrat.
  pose proof (qrat_lowest p) as [Dx _]. pose proof (qrat_lowest q) as [Dy _]. fold x in Dx. fold y in Dy.
  clearbody x y.
  destruct op; try done; injection Hf as <- <-.
  1-3: split; [nia|]; rewrite <- Hx, <- Hy; unfold qrat, rat_Q; cbn; apply SetFrac_cross; [nia|lia|];
       rewrite ?Pos2Z.inj_mul, ?Z2Pos.id by done; ring.
  assert (Hn : Num y <> 0).
  { intros H0. apply Hdiv; [done|]. rewrite <- Hy. unfold rat_Q, Qeq. cbn. lia. }
  split; [nia|]. rewrite <- Hx, <- Hy. unfold qrat, rat_Q, Qdiv, Qinv. cbn.
  destruct (Num y) as [|n|n] eqn:En; [done|..]; cbn; apply SetFrac_cross; try lia;
    rewrite ?Pos2Z.inj_mul, ?Z2Pos.id by done; try ring;
    change (Z.neg (Z.to_pos (Denom y))) with (- Z.pos (Z.to_pos (Denom y)));
    change (Z.neg n) with (- Z.pos n); rewrite ?Z2Pos.id by done; ring.
Qed.

(** The quotient rounded toward zero. *)
Definition Qtrunc (q : Q) : Z := Z.quot (Qnum q) (QDen q).

Lemma quot_cross a b c d : 0 < b -> 0 < d -> a * d = c * b -> Z.quot a b = Z.quot c d.
Proof.
  intros Hb Hd He. rewrite <- (Z.quot_mul_cancel_r a b d) by lia.
  rewrite <- (Z.quot_mul_cancel_r c d b) by lia. by rewrite He, (Z.mul_comm b d).
Qed.

#[export] Instance Qtrunc_proper : Proper (Qeq ==> eq) Qtrunc.
Proof. intros p q Hpq. unfold Qtrunc. apply quot_cross; [lia|lia|exact Hpq]. Qed.

Lemma Qtrunc_qrat q : Z.quot (Num (qrat q)) (Denom (qrat q)) = Qtrunc q.
Proof.
  rewrite <- (rat_Q_qrat q) at 3. pose proof (qrat_lowest q) as [H _].
  unfold Qtrunc, rat_Q. cbn [Qnum Qden]. by rewrite Z2Pos.id.
Qed.

(** The five operators on [Q]. *)
Definition q_op (op : OperatorKind) (x y : Q) : option Q :=
  match op with
  | OpAdd => Some (x + y)%Q | OpSub => Some (x - y)%Q | OpMul => Some (x * y)%Q
  | OpDiv => Some (x / y)%Q
  | OpMod => Some (x - y * inject_Z (Qtrunc (x / y)))%Q
  | _ => None
  end.

(** The size of a number: the bits of its two terms in lowest terms. *)
Definition rat_bits (r : Rat) : Z := BitLen (Num r) + BitLen (Denom r).

(** A Rational result under a budget. *)
Definition sized_rat (r : res Value) (q : Q) (maxBits : Z) : Prop :=
  if rat_bits (qrat q) <=? maxBits then r = Ok (rational q)
  else exists b, r = Err (ErrRationalSizeLimit b maxBits) /\ maxBits < b <= rat_bits (qrat q).

Lemma sizedRat_sized r q maxBits : r = qrat q -> sized_rat (sizedRat r maxBits) q maxBits.
Proof.
  intros ->. unfold sized_rat, sizedRat, rat_bits. destruct (Z.leb_spec (BitLen (Num (qrat q)) + BitLen (Denom (qrat q))) maxBits).
  - by rewrite (proj2 (Z.ltb_ge _ _)) by lia.
  - rewrite (proj2 (Z.ltb_lt _ _)) by lia. eexists. split; [done|lia].
Qed.

Lemma RatBitLen_RatValue r : lowest r -> RatBitLen (RatValue r) = rat_bits r.
Proof.
  intros [Hp Hg]. rewrite RatValue_eq. destruct (fits r) eqn:Ef; unfold RatBitLen, rat_bits; [|done].
  apply fits_spec in Ef as [Hw _]; [|done].
  change (small (rat_inline (Num r) (Denom r))) with (Some (Num r, Denom r)).
  cbv beta iota. by rewrite abs64_spec, BitLen_abs.
Qed.

Lemma sizedValue_sized r q maxBits : r = qrat q -> sized_rat (sizedValue (RatValue r) maxBits) q maxBits.
Proof.
  intros ->. unfold sized_rat, sizedValue. rewrite RatBitLen_RatValue by apply qrat_lowest.
  destruct (Z.leb_spec (rat_bits (qrat q)) maxBits).
  - by rewrite (proj2 (Z.ltb_ge _ _)) by lia.
  - rewrite (proj2 (Z.ltb_lt _ _)) by lia. eexists. split; [done|lia].
Qed.

Lemma q_zero y : Z.sgn (Qnum y) = 0 <-> (y == 0)%Q.
Proof. unfold Qeq. cbn. lia. Qed.

Lemma qrat_inject z : qrat (inject_Z z) = SetInt z.
Proof. unfold qrat, inject_Z. cbn [Qnum Qden]. by rewrite lowest_inline_view by (done || apply Z.gcd_1_r). Qed.

(** The three operations as [Rat] functions. *)
Lemma Rat_Add_qrat p q : Rat_Add (qrat p) (qrat q) = qrat (p + q).
Proof. by destruct (Rat_op_qrat OpAdd p q _ _ eq_refl) as [_ <-]. Qed.
Lemma Rat_Sub_qrat p q : Rat_Sub (qrat p) (qrat q) = qrat (p - q).
Proof. by destruct (Rat_op_qrat OpSub p q _ _ eq_refl) as [_ <-]. Qed.
Lemma Rat_Mul_qrat p q : Rat_Mul (qrat p) (qrat q) = qrat (p * q).
Proof. by destruct (Rat_op_qrat OpMul p q _ _ eq_refl) as [_ <-]. Qed.
Lemma Rat_Quo_qrat p q : ~ (q == 0)%Q -> Rat_Quo (qrat p) (qrat q) = qrat (p / q).
Proof. intros Hq. destruct (Rat_op_qrat OpDiv p q _ _ eq_refl) as [_ <-]; [by intros _|done]. Qed.

Lemma bigRatArith_sized op x y z maxBits :
  q_op op x y = Some z -> (op = OpDiv \/ op = OpMod -> ~ (y == 0)%Q) ->
  sized_rat (bigRatArith op (qrat x) (qrat y) maxBits) z maxBits.
Proof.
  intros Hz Hy. destruct op; try done; injection Hz as <-; apply sizedRat_sized.
  - apply Rat_Add_qrat.
  - apply Rat_Sub_qrat.
  - apply Rat_Mul_qrat.
  - apply Rat_Quo_qrat. auto.
  - rewrite Rat_Quo_qrat by auto. rewrite Qtrunc_qrat, <- qrat_inject.
    by rewrite Rat_Mul_qrat, Rat_Sub_qrat.
Qed.

Lemma RatArith_result op a b x y z maxBits :
  exact a x -> exact b y -> q_op op x y = Some z -> (op = OpDiv \/ op = OpMod -> ~ (y == 0)%Q) ->
  sized_rat (RatArith op a b maxBits) z maxBits.
Proof.
  intros Ha Hb Hz Hy. unfold RatArith. rewrite (RatSign_exact b y Hb).
  assert (E : bool_decide (op = OpDiv \/ op = OpMod) && (Z.sgn (Qnum y) =? 0) = false).
  { case_bool_decide as Hop; [|done]. specialize (Hy Hop). cbn [andb].
    apply Z.eqb_neq. by rewrite q_zero. }
  rewrite E.
  rewrite (ratView_exact a x Ha), (ratView_exact b y Hb).
  pose proof (bigRatArith_sized op x y z maxBits Hz Hy) as Hbig.
  unfold small_result. destruct (small a) as [[an ad]|] eqn:Ea; [|exact Hbig].
  destruct (small b) as [[bn bd]|] eqn:Eb; [|exact Hbig]. cbn [mbind option_bind].
  destruct (small_exact a x an ad Ha Ea) as (Ex & W1 & D1 & _).
  destruct (small_exact b y bn bd Hb Eb) as (Ey & W2 & D2 & _).
  destruct (smallRatArith op an ad bn bd) as [v|] eqn:Es; [|exact Hbig].
  assert (Hdiv : op = OpDiv -> ~ (y == 0)%Q) by auto.
  assert (Hbn : op = OpDiv -> bn <> 0).
  { intros Hop ->. apply Hdiv; [done|]. rewrite <- (rat_Q_qrat y), Ey. done. }
  apply smallRatArith_spec in Es as (N & D & Hf & HD & ->);
    [|try done; unfold word, MaxUint32 in *; lia..].
  destruct (Rat_op_qrat op x y N D) as [_ Hq]; [by rewrite Ex, Ey|done|].
  apply sizedValue_sized. rewrite Hq. destruct op; try done; by injection Hz as <-.
Qed.

(** The operations are exact, or refused for a zero divisor or the size of their
    result. *)
Lemma RatArith_exact op a b x y z maxBits :
  exact a x -> exact b y -> q_op op x y = Some z ->
  if bool_decide (op = OpDiv \/ op = OpMod) && (Qnum y =? 0)
  then RatArith op a b maxBits = Err ErrDivisionByZero
  else sized_rat (RatArith op a b maxBits) z maxBits.
Proof.
  intros Ha Hb Hz. destruct (bool_decide (op = OpDiv \/ op = OpMod) && (Qnum y =? 0)) eqn:E.
  - unfold RatArith. rewrite (RatSign_exact b y Hb).
    by replace (Z.sgn (Qnum y) =? 0) with (Qnum y =? 0) by lia; rewrite E.
  - apply (RatArith_result op a b x y); [done..|].
    intros Hop Hy. rewrite bool_decide_true in E by done. apply q_zero in Hy. lia.
Qed.

(** ** Representation *)

Lemma rational_inj p q : rational p = rational q -> (p == q)%Q.
Proof.
  intros H%(f_equal ratView). unfold rational in H. rewrite !ratView_RatValue in H by apply qrat_lowest.
  by rewrite <- (rat_Q_qrat p), H, rat_Q_qrat.
Qed.

Lemma fits_lowest_inline n d :
  word n -> 0 < d <= MaxUint32 -> Z.gcd n d = 1 -> rat_inline n d = rational (n # Z.to_pos d).
Proof.
  intros Hn Hd Hg. rewrite rational_frac by lia. rewrite lowest_inline_view by (done || lia).
  rewrite RatValue_eq. assert (Hf : fits {| Num := n; Denom := d |} = true); [|by rewrite Hf].
  apply fits_spec; cbn; [lia|split; [done|lia]].
Qed.

Lemma SetFrac_qrat n d : d <> 0 -> SetFrac n d = qrat (inject_Z n / inject_Z d).
Proof.
  intros Hd. rewrite <- (qrat_rat_Q (SetFrac n d)) by by apply SetFrac_lowest.
  apply qrat_proper. pose proof (SetFrac_rat_Q n d Hd) as H. rewrite <- H. field.
  intros H0. unfold Qeq, inject_Z in H0. cbn in H0. lia.
Qed.

Lemma SetFrac_rational n d : d <> 0 -> RatValue (SetFrac n d) = rational (inject_Z n / inject_Z d).
Proof. intros Hd. unfold rational. by rewrite SetFrac_qrat. Qed.

Lemma FracValue_rational n d :
  is_int64 n -> is_int64 d ->
  FracValue n d = if d =? 0 then None else Some (rational (inject_Z n / inject_Z d)).
Proof.
  intros Hn Hd. unfold FracValue. destruct (Z.eqb_spec d 0) as [|Hd0]; [done|].
  destruct (smallRat n d) as [v|] eqn:E; [apply smallRat_spec in E as ->; try done|];
    by rewrite SetFrac_rational.
Qed.

Lemma RatOf_exact v q : exact v q -> RatOf v = rational q.
Proof.
  intros [z|p]; unfold RatOf.
  - rewrite IsRational_integer. unfold rational. rewrite qrat_inject.
    assert (Hf : fits (SetInt z) = IsInt64 z && negb (z =? MinInt64)).
    { unfold fits, SetInt. cbn [Num Denom]. by rewrite andb_true_r. }
    destruct (integer_cases z) as [[Hz ->]|[Hz ->]].
    + apply IsInt64_spec in Hz as Hz'. cbn [ext Int IntValue]. rewrite Hz' in Hf.
      destruct (z =? MinInt64); [done|]. by rewrite RatValue_eq, Hf.
    + rewrite <- IsInt64_spec in Hz. apply not_true_iff_false in Hz. cbn [ext ext_value].
      by rewrite RatValue_eq, Hf, Hz.
  - unfold rational. by rewrite IsRational_RatValue.
Qed.

Lemma terms_exact v q :
  exact v q -> RatNumer v = integer (Num (qrat q)) /\ RatDenom v = integer (Denom (qrat q)).
Proof.
  intros Hv. unfold RatNumer, RatDenom. destruct (small v) as [[n d]|] eqn:E.
  - destruct (small_exact v q n d Hv E) as (-> & Hw & Hd & _). cbn [Num Denom].
    split; symmetry; apply integer_small; unfold word, is_int64, MaxUint32 in *; lia.
  - destruct Hv as [z|p].
    + rewrite is_int_integer, qrat_inject. done.
    + unfold rational in *. rewrite is_int_RatValue. rewrite RatValue_eq in *.
      destruct (fits (qrat p)); [done|]. done.
Qed.

Lemma RatBitLen_exact v q : exact v q -> RatBitLen v = rat_bits (qrat q).
Proof.
  intros [z|p]; [|apply RatBitLen_RatValue, qrat_lowest].
  rewrite qrat_inject. unfold RatBitLen, rat_bits.
  destruct (small (integer z)) as [[n d]|] eqn:E.
  - destruct (small_exact _ _ n d (exact_int z) E) as (Hq & Hw & _). rewrite qrat_inject in Hq.
    injection Hq as <- <-. cbn [Num Denom SetInt]. by rewrite abs64_spec, BitLen_abs.
  - by rewrite (ratView_exact _ _ (exact_int z)), qrat_inject.
Qed.

Lemma RatIsWhole_exact v q : exact v q -> RatIsWhole v = (Denom (qrat q) =? 1).
Proof.
  intros [z|p]; unfold RatIsWhole.
  - by rewrite is_int_integer, qrat_inject.
  - unfold rational. rewrite is_int_RatValue, RatValue_eq. by destruct (fits (qrat p)).
Qed.

(** C31: every rational number has one representation: two are equal exactly
    when the numbers are; a fraction of machine words, in any terms and signs, is
    the representation of its value, as is an Integer made a Rational; and the
    accessors read the sign, the two lowest terms, their size and wholeness. *)
Theorem Rational_representation :
  (forall p q, rational p = rational q <-> (p == q)%Q)
  /\ (forall n d, is_int64 n -> is_int64 d ->
        FracValue n d = if d =? 0 then None else Some (rational (inject_Z n / inject_Z d)))
  /\ (forall v q, exact v q ->
        RatOf v = rational q /\ RatSign v = Z.sgn (Qnum q)
        /\ RatNumer v = integer (Num (qrat q)) /\ RatDenom v = integer (Denom (qrat q))
        /\ RatBitLen v = rat_bits (qrat q) /\ RatIsWhole v = (Denom (qrat q) =? 1)).
Proof.
  split_and!.
  - intros p q. split; [apply rational_inj|]. intros Hpq. by rewrite Hpq.
  - apply FracValue_rational.
  - intros v q Hv. destruct (terms_exact v q Hv) as [Hn Hd].
    split_and!; [by apply RatOf_exact|by apply RatSign_exact|done|done|by apply RatBitLen_exact
                |by apply RatIsWhole_exact].
Qed.

Lemma Rational_representation_witness :
  FracValue 6 (-4) = Some (rational (inject_Z 6 / inject_Z (-4))) /\
  rational (inject_Z 6 / inject_Z (-4)) = rational (-3 # 2) /\
  RatOf (integer 5) = rational (inject_Z 5).
Proof.
  split; [apply (proj1 (proj2 Rational_representation)); unfold is_int64; lia|].
  split; [apply (proj1 Rational_representation); reflexivity|].
  apply (proj2 (proj2 Rational_representation)). constructor.
Defined.

(** ** Order and rounding *)

Definition qcmp (p q : Q) : Z := match (p ?= q)%Q with Lt => -1 | Eq => 0 | Gt => 1 end.

#[export] Instance qcmp_proper : Proper (Qeq ==> Qeq ==> eq) qcmp.
Proof. intros p p' Hp q q' Hq. unfold qcmp. by rewrite Hp, Hq. Qed.

Lemma Cmp_compare a b : Cmp a b = match a ?= b with Lt => -1 | Eq => 0 | Gt => 1 end.
Proof.
  unfold Cmp. destruct (Z.compare_spec a b), (Z.ltb_spec a b), (Z.ltb_spec b a); lia.
Qed.

Lemma Rat_Cmp_qrat x y : Rat_Cmp (qrat x) (qrat y) = qcmp x y.
Proof.
  rewrite <- (rat_Q_qrat x) at 2. rewrite <- (rat_Q_qrat y) at 2.
  pose proof (qrat_lowest x) as [Hx _]. pose proof (qrat_lowest y) as [Hy _].
  unfold Rat_Cmp, qcmp, Qcompare, rat_Q. cbn [Qnum Qden]. rewrite !Z2Pos.id by done. apply Cmp_compare.
Qed.

Lemma CompareRat_exact a b x y : exact a x -> exact b y -> CompareRat a b = qcmp x y.
Proof.
  intros Ha Hb. unfold CompareRat. destruct (is_int a && is_int b) eqn:Ei.
  { destruct Ha as [z|p]; [|by rewrite is_int_rational in Ei].
    destruct Hb as [w|p]; [|by rewrite is_int_integer, is_int_rational in Ei].
    rewrite CompareInt_integer, Cmp_compare. unfold qcmp, Qcompare, inject_Z. cbn.
    by rewrite !Z.mul_1_r. }
  rewrite <- Rat_Cmp_qrat. rewrite (ratView_exact a x Ha), (ratView_exact b y Hb).
  destruct (small a) as [[an ad]|] eqn:Ea; [|done]. destruct (small b) as [[bn bd]|] eqn:Eb; [|done].
  destruct (small_exact a x an ad Ha Ea) as (-> & W1 & D1 & _).
  destruct (small_exact b y bn bd Hb Eb) as (-> & W2 & D2 & _).
  cbn [mbind option_bind].
  destruct (guard_mul an bd) as [l|] eqn:El; [|done]. destruct (guard_mul bn ad) as [r|] eqn:Er; [|done].
  apply guard_mul_spec in El as [-> _]; [|unfold word, is_int64, MaxUint32 in *; lia..].
  apply guard_mul_spec in Er as [-> _]; [|unfold word, is_int64, MaxUint32 in *; lia..]. done.
Qed.

Lemma RatNeg_rational q : RatNeg (rational q) = rational (- q).
Proof.
  assert (Hq : qrat (- q) = Rat_Neg (qrat q)).
  { pose proof (qrat_lowest q) as [Hd Hg].
    rewrite <- (qrat_rat_Q (Rat_Neg (qrat q))); [|split; [done|]; cbn; by rewrite Z.gcd_opp_l].
    rewrite <- (rat_Q_qrat q) at 1. done. }
  unfold RatNeg, rational. rewrite is_int_RatValue, Hq. rewrite RatValue_eq.
  destruct (fits (qrat q)) eqn:Ef; [|done]. cbn [ext rat_inline].
  pose proof (qrat_lowest q) as [Hd Hg]. apply fits_spec in Ef as [Hw Hm]; [|done].
  cbn [Int den]. rewrite word_opp by done.
  rewrite RatValue_eq. assert (Hf : fits (Rat_Neg (qrat q)) = true); [|by rewrite Hf].
  apply fits_spec; [done|]. cbn [Num Denom Rat_Neg]. split; [unfold word in *; lia|done].
Qed.

Lemma RatNeg_exact v q : exact v q -> exact (RatNeg v) (- q) /\ is_int (RatNeg v) = is_int v.
Proof.
  intros [z|p].
  - unfold RatNeg. rewrite is_int_integer, IntNeg_integer, is_int_integer. split; [|done].
    change (- inject_Z z)%Q with (inject_Z (- z)). constructor.
  - rewrite RatNeg_rational. split; [constructor|]. unfold rational. by rewrite !is_int_RatValue.
Qed.

Lemma RatAbs_exact v q :
  exact v q -> exists a, exact (RatAbs v) a /\ (a == Qabs q)%Q /\ is_int (RatAbs v) = is_int v.
Proof.
  intros Hv. unfold RatAbs. rewrite (RatSign_exact v q Hv).
  destruct (Z.ltb_spec (Z.sgn (Qnum q)) 0).
  - destruct (RatNeg_exact v q Hv) as [H1 H2]. exists (- q)%Q. split_and!; [done| |done].
    symmetry. apply Qabs_neg. unfold Qle. cbn. lia.
  - exists q. split_and!; [done| |done]. symmetry. apply Qabs_pos. unfold Qle. cbn. lia.
Qed.

Lemma floor_quot n d :
  0 < d -> (if negb (Z.rem n d =? 0) && (n <? 0) then Z.quot n d - 1 else Z.quot n d) = n / d.
Proof.
  intros Hd. pose proof (Z.quot_rem n d ltac:(lia)) as Hq. pose proof (Z.rem_bound_abs n d ltac:(lia)) as Hb.
  destruct (Z.ltb_spec n 0) as [Hn|Hn].
  - pose proof (Z.rem_nonpos n d ltac:(lia) ltac:(lia)).
    destruct (Z.eqb_spec (Z.rem n d) 0) as [H0|H0]; cbn [negb andb].
    + apply Z.div_unique with 0; [lia|]. lia.
    + apply Z.div_unique with (Z.rem n d + d); [lia|]. lia.
  - rewrite andb_false_r. by rewrite Z.quot_div_nonneg by lia.
Qed.

Lemma Qfloor_qrat q : Num (qrat q) / Denom (qrat q) = Qfloor q.
Proof.
  rewrite <- (rat_Q_qrat q) at 3. pose proof (qrat_lowest q) as [H _].
  unfold Qfloor, rat_Q. by rewrite Z2Pos.id.
Qed.

Lemma RatFloor_exact v q : exact v q -> RatFloor v = integer (Qfloor q).
Proof.
  intros [z|p]; unfold RatFloor.
  - rewrite is_int_integer. f_equal. cbn. by rewrite Z.div_1_r.
  - unfold rational. rewrite is_int_RatValue, RatValue_eq. rewrite <- Qfloor_qrat.
    pose proof (qrat_lowest p) as [Hd _]. destruct (fits (qrat p)) eqn:Ef; [|done].
    apply fits_spec in Ef as [Hw _]; [|done]. cbn [ext rat_inline den Int]. cbv zeta.
    rewrite floor_quot by done. symmetry. apply integer_small. unfold word, is_int64 in *.
    split; [apply Z.div_le_lower_bound; nia|apply Z.div_lt_upper_bound; nia].
Qed.

(** Negation, magnitude and order of exact numbers are those of [Q], of the
    operand's kind, across representations and kinds. *)
Lemma CompareRat_order a b x y :
  exact a x -> exact b y ->
  CompareRat a b = qcmp x y
  /\ exact (RatNeg a) (- x) /\ is_int (RatNeg a) = is_int a
  /\ (exists m, exact (RatAbs a) m /\ (m == Qabs x)%Q /\ is_int (RatAbs a) = is_int a).
Proof.
  intros Ha Hb. destruct (RatNeg_exact a x Ha) as [H1 H2].
  split_and!; [by apply CompareRat_exact|done|done|by apply RatAbs_exact].
Qed.

Lemma CompareRat_order_witness :
  CompareRat (rational (1 # 3)) (integer (2 ^ 70)) = qcmp (1 # 3) (inject_Z (2 ^ 70)) /\
  qcmp (1 # 3) (inject_Z (2 ^ 70)) = -1.
Proof. split; [apply CompareRat_order; constructor|vm_compute; reflexivity]. Defined.

Lemma half_rational : rat_inline 1 2 = rational (1 # 2).
Proof. vm_compute. reflexivity. Qed.

Lemma RatArith_add a b x y maxBits :
  exact a x -> exact b y -> sized_rat (RatArith OpAdd a b maxBits) (x + y) maxBits.
Proof. intros Ha Hb. apply (RatArith_result OpAdd a b x y); [done|done|done|by intros [|]]. Qed.

Lemma RatTrunc_exact v q : exact v q -> RatTrunc v = integer (Qtrunc q).
Proof.
  intros Hv. unfold RatTrunc. rewrite (RatSign_exact v q Hv).
  destruct (Z.ltb_spec (Z.sgn (Qnum q)) 0) as [Hn|Hn].
  - destruct (RatNeg_exact v q Hv) as [Hneg _]. rewrite (RatFloor_exact _ _ Hneg), IntNeg_integer.
    f_equal. unfold Qfloor, Qtrunc, Qopp. destruct q as [n d]. cbn in *.
    rewrite <- Z.quot_div_nonneg by lia. rewrite Z.quot_opp_l by lia. lia.
  - rewrite (RatFloor_exact v q Hv). f_equal. unfold Qfloor, Qtrunc. destruct q as [n d]. cbn in *.
    by rewrite Z.quot_div_nonneg by lia.
Qed.

(** Rounding an exact number down, toward zero and to the nearest Integer,
    a half away from zero, gives the Integer of [Q]'s floor, truncation and the
    floor of the magnitude plus a half under the sign. *)
Lemma Rat_rounding v q :
  exact v q -> rat_bits (qrat (Qabs q + (1 # 2))) <= MaxInt64 ->
  RatFloor v = integer (Qfloor q)
  /\ RatTrunc v = integer (Qtrunc q)
  /\ RatRound v = integer (Z.sgn (Qnum q) * Qfloor (Qabs q + (1 # 2))).
Proof.
  intros Hv Hb. split_and!; [by apply RatFloor_exact|by apply RatTrunc_exact|].
  assert (Habs := RatAbs_exact v q Hv). destruct Habs as (a & Ha & Haq & Hai).
  unfold RatRound. destruct (is_int v) eqn:Ei.
  { destruct Hv as [z|p]; [|by rewrite is_int_rational in Ei]. f_equal. unfold Qfloor, inject_Z. cbn.
    change (Z.pos (1 * 2)) with 2. change (1 * 1) with 1.
    replace ((Z.abs z * 2 + 1) / 2) with (Z.abs z); [lia|].
    apply Z.div_unique with 1; lia. }
  rewrite half_rational. pose proof (RatArith_add _ _ _ _ MaxInt64 Ha (exact_rat (1 # 2))) as Hs.
  unfold sized_rat in Hs. rewrite (rational_proper _ _ (Qplus_comp _ _ Haq _ _ (Qeq_refl (1 # 2)))) in Hs.
  rewrite (qrat_proper _ _ (Qplus_comp _ _ Haq _ _ (Qeq_refl (1 # 2)))) in Hs. rewrite (proj2 (Z.leb_le _ _)) in Hs by done.
  rewrite Hs. cbv zeta. rewrite (RatFloor_exact _ _ (exact_rat _)), (RatSign_exact v q Hv).
  assert (Hf : Qfloor (Qabs q + (1 # 2)) = 0 \/ Z.sgn (Qnum q) <> 0).
  { destruct (decide (Z.sgn (Qnum q) = 0)) as [H0|]; [left|by right].
    apply q_zero in H0. rewrite H0. done. }
  destruct (Z.ltb_spec (Z.sgn (Qnum q)) 0); [rewrite IntNeg_integer|]; f_equal; lia.
Qed.

Lemma Rat_rounding_witness :
  RatRound (rational (-5 # 2)) = integer (-3) /\ RatTrunc (rational (-5 # 2)) = integer (-2).
Proof.
  split.
  - apply (Rat_rounding (rational (-5 # 2)) (-5 # 2)); [constructor|vm_compute; discriminate].
  - vm_compute. reflexivity.
Defined.

(** ** Powers *)

Lemma rat_bits_coprime a b :
  b <> 0 -> Z.gcd a b = 1 -> rat_bits (SetFrac a b) = BitLen a + BitLen b.
Proof.
  intros Hb Hg. unfold rat_bits, SetFrac. rewrite Hg, !Z.div_1_r. cbn [Num Denom].
  rewrite BitLen_abs. f_equal. rewrite <- (BitLen_abs (Z.sgn b * a)), <- (BitLen_abs a).
  rewrite Z.abs_mul, <- Z.sgn_abs. f_equal. destruct b; lia.
Qed.

Lemma gcd_pow a b e : 0 <= e -> Z.gcd a b = 1 -> Z.gcd (a ^ e) (b ^ e) = 1.
Proof.
  intros He Hg. by apply Z.coprime_pow_l, Z.coprime_pow_r.
Qed.

Lemma pow_bits_le t e : t <> 0 -> 0 <= e -> pow_bits t e <= BitLen (t ^ e).
Proof.
  intros Ht He. unfold pow_bits. destruct (Z.abs t =? 1); [apply BitLen_nonneg|].
  by apply BitLen_power.
Qed.

Lemma pow_bits_nonneg t e : t <> 0 -> 0 <= e -> 0 <= pow_bits t e.
Proof.
  intros Ht He. unfold pow_bits. destruct (Z.abs t =? 1); [done|].
  pose proof (BitLen_pos t Ht). nia.
Qed.

Lemma Qpower_terms q e :
  0 <= e -> (q ^ e == inject_Z (Num (qrat q) ^ e) / inject_Z (Denom (qrat q) ^ e))%Q.
Proof.
  intros He. rewrite <- (rat_Q_qrat q) at 1. unfold rat_Q. pose proof (qrat_lowest q) as [Hd _].
  rewrite !Zpower_Qpower by done. rewrite <- Qdiv_power.
  by rewrite (Qmake_Qdiv _ (Z.to_pos _)), Z2Pos.id.
Qed.

(** The terms [RatPow] computes are those of the power, and already coprime. *)
Lemma pow_terms q n (pn pd : Z) :
  let num := Num (qrat q) in
  let d := Denom (qrat q) in
  let e := Z.abs n in
  num <> 0 -> (pn, pd) = (if Z.sgn n <? 0 then (d ^ e, num ^ e) else (num ^ e, d ^ e)) ->
  SetFrac pn pd = qrat (q ^ n) /\ rat_bits (qrat (q ^ n)) = BitLen (num ^ e) + BitLen (d ^ e).
Proof.
  intros num d e Hn Hp. pose proof (qrat_lowest q) as [Hd Hg]. fold num d in Hd, Hg.
  assert (He : 0 <= e) by (unfold e; lia).
  assert (num ^ e <> 0) by (by apply Z.pow_nonzero).
  assert (d ^ e <> 0) by (apply Z.pow_nonzero; lia).
  pose proof (gcd_pow num d e He Hg) as Hge. pose proof (Qpower_terms q e He) as Hq.
  destruct (Z.ltb_spec (Z.sgn n) 0); injection Hp as -> ->.
  - assert (E : SetFrac (d ^ e) (num ^ e) = qrat (q ^ n)).
    { rewrite SetFrac_qrat by done. apply qrat_proper. replace n with (- e) by lia.
      rewrite Qpower_opp, Hq. fold num d. unfold Qdiv. rewrite Qinv_mult_distr, Qinv_involutive.
      apply Qmult_comm. }
    split; [done|]. rewrite <- E, rat_bits_coprime; [lia|done|by rewrite Z.gcd_comm].
  - assert (E : SetFrac (num ^ e) (d ^ e) = qrat (q ^ n)).
    { rewrite SetFrac_qrat by done. apply qrat_proper. assert (Hne : n = e) by lia. rewrite Hne, Hq. done. }
    split; [done|]. by rewrite <- E, rat_bits_coprime.
Qed.

Lemma odd_bit a : Z.land a 1 = a mod 2.
Proof. by apply (land_low_bits a 1). Qed.

Lemma Qpower_minus_one n : ((-1 # 1) ^ n == if Z.land n 1 =? 0 then 1 else (-1 # 1))%Q.
Proof.
  assert (Hpos : forall k, 0 <= k -> ((-1 # 1) ^ k == if Z.land k 1 =? 0 then 1 else (-1 # 1))%Q).
  { intros k Hk. change (-1 # 1)%Q with (inject_Z (-1)). rewrite <- Zpower_Qpower by done.
    rewrite pow_minus_one, odd_bit by done.
    by destruct (k mod 2 =? 0). }
  destruct (Z.le_gt_cases 0 n) as [|Hn]; [by apply Hpos|].
  replace n with (- (- n)) at 1 by lia. rewrite Qpower_opp, Hpos by lia.
  rewrite !odd_bit. replace ((- n) mod 2) with (n mod 2) by (Z.to_euclidean_division_equations; lia).
  by destruct (n mod 2 =? 0).
Qed.

Lemma sized_unit s maxBits : s = 1 \/ s = -1 -> 64 <= maxBits -> sized_rat (Ok (rat_inline s 1)) (s # 1) maxBits.
Proof.
  intros [-> | ->] Hm; unfold sized_rat.
  all: match goal with |- context [rat_bits ?r] => replace (rat_bits r) with 2 by (vm_compute; done) end.
  all: rewrite (proj2 (Z.leb_le _ _)) by lia; vm_compute; done.
Qed.

Lemma RatPow_unit q n maxBits (s : Z) :
  64 <= maxBits -> Num (qrat q) = s -> s = 1 \/ s = -1 -> Denom (qrat q) = 1 ->
  sized_rat (if (0 <? s) || (Z.land n 1 =? 0) then Ok (rat_inline 1 1) else Ok (rat_inline (-1) 1))
    (q ^ n) maxBits.
Proof.
  intros Hm Hn Hs Hd.
  assert (Hq : (q == s # 1)%Q) by (rewrite <- (rat_Q_qrat q); unfold rat_Q; by rewrite Hn, Hd).
  assert (E : (q ^ n == if (0 <? s) || (Z.land n 1 =? 0)%Z then 1 else (-1 # 1))%Q).
  { rewrite Hq. destruct Hs as [-> | ->]; [apply Qpower_1|apply Qpower_minus_one]. }
  unfold sized_rat. rewrite (rational_proper _ _ E), (qrat_proper _ _ E).
  destruct ((0 <? s) || _); [apply (sized_unit 1)|apply (sized_unit (-1))]; auto.
Qed.

(** A power by an Integer of either sign is exact, or refused. *)
Lemma RatPow_exact base q n maxBits :
  exact base q -> MinMaxIntegerBits <= maxBits < MaxInt64 ->
  ((q == 0)%Q -> n < 0 -> RatPow base (integer n) maxBits = Err ErrArithmeticDomain)
  /\ (~ (q == 0)%Q \/ 0 <= n -> sized_rat (RatPow base (integer n) maxBits) (q ^ n) maxBits).
Proof.
  unfold MinMaxIntegerBits. intros Hb Hm. unfold RatPow.
  rewrite IntSign_integer, bigView_integer, (RatSign_exact _ _ Hb), (RatOf_exact _ _ Hb).
  rewrite (ratView_exact _ _ Hb).
  assert (Hsg : forall k, Z.sgn k = 0 <-> k = 0) by (intros []; cbn; lia).
  split.
  { intros H0%q_zero Hn. rewrite H0, (proj2 (Z.eqb_neq _ _)) by lia. cbn [Z.eqb].
    by rewrite (proj2 (Z.ltb_lt _ _)) by lia. }
  intros Hd. destruct (Z.eqb_spec (Z.sgn n) 0) as [Hn|Hn].
  { assert (n = 0) as -> by lia. apply (sized_unit 1); [by left|lia]. }
  destruct (Z.eqb_spec (Z.sgn (Qnum q)) 0) as [H0|H0].
  { rewrite q_zero in H0. destruct Hd as [Hd|Hd]; [done|].
    rewrite (proj2 (Z.ltb_ge _ _)) by lia. unfold sized_rat.
    assert (E : (q ^ n == q)%Q) by (rewrite H0; apply Qpower_0; lia).
    rewrite (rational_proper _ _ E), (qrat_proper _ _ E), (qrat_proper _ _ H0).
    by rewrite (proj2 (Z.leb_le _ _)) by (change (rat_bits (qrat 0)) with 1; lia). }
  pose proof (qrat_lowest q) as [Hden _].
  assert (Hnum : Num (qrat q) <> 0).
  { intros E. apply H0. apply q_zero. rewrite <- (rat_Q_qrat q). unfold rat_Q. by rewrite E. }
  destruct ((Z.abs (Num (qrat q)) =? Z.abs (Denom (qrat q))) && (Denom (qrat q) =? 1)) eqn:E1.
  { apply andb_true_iff in E1 as [Ea Eb]. apply (RatPow_unit q n maxBits _); lia. }
  destruct (if Z.sgn n <? 0 then _ else _) as [pn pd] eqn:Ep. symmetry in Ep.
  destruct (pow_terms q n pn pd Hnum Ep) as [Et Ebits].
  pose proof (pow_bits_le (Num (qrat q)) (Z.abs n) Hnum (Z.abs_nonneg n)) as L1.
  pose proof (pow_bits_le (Denom (qrat q)) (Z.abs n) ltac:(lia) (Z.abs_nonneg n)) as L2.
  remember (pow_bits _ _ + pow_bits _ _) as lower eqn:El.
  destruct (negb (IsInt64 lower) || (maxBits <? lower)) eqn:Er; [|by apply sizedRat_sized].
  assert (Hlow : maxBits < lower /\ (IsInt64 lower = false -> MaxInt64 <= lower)).
  { assert (0 <= lower) by (subst lower; apply Z.add_nonneg_nonneg; apply pow_bits_nonneg; lia).
    clear El L1 L2 Ebits Et. unfold IsInt64, MaxInt64 in *.
    destruct (Z.leb_spec (- 2 ^ 63) lower), (Z.ltb_spec lower (2 ^ 63)), (Z.ltb_spec maxBits lower);
      cbn [andb negb orb] in *; split; try discriminate; lia. }
  unfold sized_rat. rewrite (proj2 (Z.leb_gt _ _)) by lia. eexists. split; [done|]. clear Er.
  destruct Hlow as [? Hbig]. destruct (IsInt64 lower); [lia|]. specialize (Hbig eq_refl). lia.
Qed.

(** C29: addition, subtraction, multiplication, division, truncated remainder and
    Integer powers of exact numbers, Integers or Rationals in any combination,
    return the representation of the exact Rational result; they refuse only a
    zero divisor, zero to a negative power and a result whose lowest terms need
    more bits than the budget, with a size they do need; a power is refused before
    it is computed when a bound already shows it. *)
Theorem Rational_arithmetic_exact a b x y maxBits :
  exact a x -> exact b y ->
  (forall op z, q_op op x y = Some z ->
     if bool_decide (op = OpDiv \/ op = OpMod) && (Qnum y =? 0)
     then RatArith op a b maxBits = Err ErrDivisionByZero
     else sized_rat (RatArith op a b maxBits) z maxBits)
  /\ (forall n, MinMaxIntegerBits <= maxBits < MaxInt64 ->
     ((x == 0)%Q -> n < 0 -> RatPow a (integer n) maxBits = Err ErrArithmeticDomain)
     /\ (~ (x == 0)%Q \/ 0 <= n -> sized_rat (RatPow a (integer n) maxBits) (x ^ n) maxBits)).
Proof.
  intros Ha Hb. split.
  - intros op z. by apply RatArith_exact.
  - intros n. by apply RatPow_exact.
Qed.

Lemma Rational_arithmetic_exact_witness :
  RatArith OpMod (integer (-7)) (rational (10 # 4)) 64 = Ok (rational (-2 # 1)) /\
  RatPow (rational (-2 # 3)) (integer (-3)) 64 = Ok (rational (-27 # 8)) /\
  RatPow (rational 0) (integer (-1)) 64 = Err ErrArithmeticDomain.
Proof.
  destruct (Rational_arithmetic_exact (integer (-7)) (rational (10 # 4)) (inject_Z (-7)) (10 # 4) 64) as [Hop _];
    [constructor..|].
  destruct (Rational_arithmetic_exact (rational (-2 # 3)) (rational 0) (-2 # 3) 0 64) as [_ Hpow]; [constructor..|].
  destruct (Rational_arithmetic_exact (rational 0) (rational 0) 0 0 64) as [_ Hzero]; [constructor..|].
  split_and!.
  - exact (Hop OpMod (inject_Z (-7) - (10 # 4) * inject_Z (-2))%Q eq_refl).
  - apply (Hpow (-3)); [unfold MinMaxIntegerBits, MaxInt64; lia|right + left; done].
  - apply (Hzero (-1)); [unfold MinMaxIntegerBits, MaxInt64; lia|done|done].
Defined.
