(* ===== verification/Decimal.v ===== *)
(** * Decimal notation

    Models the decimal text of Rationals and Reals ([internal/semantic/semantics],
    [eval.go], [rational.go] and [quantity.go]): the notation read
    ([isRealNotation], [ParseRational], [ParseRationalText]) and written
    ([FormatRational], [formatDecimal], [FormatConst]). The binary64 conversions
    [strconv.ParseFloat] and [strconv.FormatFloat] are parameters. *)
From Stdlib Require Import Floats.SpecFloat.
From S2P Require Import Prelude Bytes Machine Integer Rational.
Local Open Scope Z_scope.

(** ** Notation *)

(** The number of digits a text begins with, and what follows them. *)
Fixpoint skip_digits (text : bytes) : nat * bytes :=
  match text with
  | c :: t => if digit c then let '(n, rest) := skip_digits t in (S n, rest) else (0%nat, text)
  | [] => (0%nat, [])
  end.
Definition is_sign (c : Z) : bool := (c =? "+"%ch) || (c =? "-"%ch).
Definition skip_sign (text : bytes) : bytes :=
  match text with c :: t => if is_sign c then t else text | [] => [] end.
Definition is_exp (c : Z) : bool := (c =? "e"%ch) || (c =? "E"%ch).

Definition isRealNotation (text : bytes) : bool :=
  let '(whole, rest) := skip_digits (skip_sign text) in
  let '(digits, rest) :=
    match rest with
    | c :: t => if c =? "."%ch then let '(n, rest) := skip_digits t in ((whole + n)%nat, rest) else (whole, rest)
    | [] => (whole, rest)
    end in
  if (digits =? 0)%nat then false
  else
    match rest with
    | c :: t =>
        if is_exp c then
          let '(exponent, rest) := skip_digits (skip_sign t) in
          if (exponent =? 0)%nat then false else match rest with [] => true | _ => false end
        else false
    | [] => true
    end.

(** [strings.ToLower] of the letter [E] alone matters to the cut. *)
Fixpoint before_exp (text : bytes) : bytes :=
  match text with c :: t => if is_exp c then [] else c :: before_exp t | [] => [] end.
Definition isZeroNotation (text : bytes) : bool :=
  negb (existsb (fun c => elem c (bs "123456789")) (before_exp text)).

Section Reals.
(** [strconv.ParseFloat(text, 64)], an overflow being an error, and
    [strconv.FormatFloat(f, format, -1, 64)]. *)
Variable ParseFloat : bytes -> option spec_float.
Variable FormatFloat : spec_float -> Z -> bytes.

Definition ParseReal (text : bytes) : res spec_float :=
  if negb (isRealNotation text) then Err ErrRealNotation
  else match ParseFloat text with
       | None => Err ErrArithmeticOverflow
       | Some x => if SFeqb x (S754_zero false) && negb (isZeroNotation text) then Err ErrArithmeticOverflow else Ok x
       end.

Definition FormatReal (f : spec_float) : bytes :=
  let a := SFabs f in
  let format := if negb (SFeqb f (S754_zero false)) && (SFltb a (f64 7378697629483821 (-66)) || SFleb (f64 (10 ^ 21) 0) a)
                then "g"%ch else "f"%ch in
  let text := FormatFloat f format in
  if existsb (fun c => elem c (bs ".eEnN")) text then text else text ++ bs ".0".
End Reals.

(** ** Reading *)

(** [int64(n)*10 + digit], at its width. *)
Definition word_decimal (digits : bytes) : Z :=
  fold_left (fun n c => int64 (int64 (n * 10) + (c - "0"%ch))) digits 0.

Definition pow10 (k : Z) : Z := Nat.iter (Z.to_nat k) (fun p => int64 (p * 10)) 1.

(** The text around its exponent letter. *)
Fixpoint cut_exp (text : bytes) : bytes * bytes :=
  match text with
  | c :: t => if is_exp c then ([], t) else let '(m, e) := cut_exp t in (c :: m, e)
  | [] => ([], [])
  end.

(** [math.Log2(10)] and the truncation of a product of Reals. *)
Definition log2_10 : spec_float := f64 7480317065143153 (-51).
Definition truncate (f : spec_float) : Z :=
  match f with
  | S754_finite s m e => (if s : bool then -1 else 1) * (if 0 <=? e then Zpos m * 2 ^ e else Zpos m / 2 ^ (- e))
  | _ => 0
  end.
Definition scaled_bits (n : Z) : Z := truncate (SFmul prec emax (f64 n 0) log2_10).

(** The bits the terms of [digits] times a power of ten are taken to need. *)
Definition decimal_bits (digits : bytes) (scale : Z) : Z :=
  int64 (scaled_bits (Z.of_nat (length digits) - 1) + scaled_bits (abs64 scale)).

(** The number of significand digits and power of ten [v], in its size. *)
Definition scaled_value (neg : bool) (digits : bytes) (scale maxBits : Z) : res Value :=
  let lower := decimal_bits digits scale in
  if maxBits <? lower then Err (RationalSizeExceeded lower maxBits)
  else if (-18 <=? scale) && (scale <=? 0) && (length digits <=? 18)%nat then
    let n := default 0 (strconv_ParseInt digits) in
    let n := if neg then int64 (- n) else n in
    sizedValue (default zero_value (FracValue n (pow10 (- scale)))) maxBits
  else
    let n := default 0 (parse_decimal digits) in
    let n := if neg then - n else n in
    let p := 10 ^ abs64 scale in
    sizedRat (if 0 <=? scale then SetInt (n * p) else SetFrac n p) maxBits.

Definition ParseRational (text : bytes) (maxBits : Z) : res Value :=
  if negb (isRealNotation text) then Err ErrRealNotation
  else
    let '(mantissa, exponent) := cut_exp text in
    let '(neg, mantissa) :=
      match mantissa with
      | c :: t => if c =? "-"%ch then (true, t) else if c =? "+"%ch then (false, t) else (false, mantissa)
      | [] => (false, [])
      end in
    let '(whole, frac, _) := cut mantissa (bs ".") in
    if bool_decide (exponent = []) && (length whole + length frac <=? 18)%nat then
      let n := word_decimal (whole ++ frac) in
      let n := if neg then int64 (- n) else n in
      sizedValue (default zero_value (FracValue n (pow10 (Z.of_nat (length frac))))) maxBits
    else
      let digits := trim_left (bs "0") (whole ++ frac) in
      if bool_decide (digits = []) then Ok (rat_inline 0 1)
      else
        let scale := - Z.of_nat (length frac) in
        match (if bool_decide (exponent = []) then Some 0
               else e ← strconv_ParseInt exponent;
                    if (Z.quot MaxInt64 4 <? e) || (e <? Z.quot MinInt64 4) then None else Some e) with
        | None => Err (RationalSizeExceeded MaxInt64 maxBits)
        | Some e =>
            let trimmed := trim_right (bs "0") digits in
            let scale := int64 (scale + e) in
            let scale := int64 (scale + (Z.of_nat (length digits) - Z.of_nat (length trimmed))) in
            scaled_value neg trimmed scale maxBits
        end.

Definition ParseRationalText (text : bytes) (maxBits : Z) : res Value :=
  let '(n, d, ok) := cut text (bs "/") in
  if ok then
    match ParseInteger n, ParseInteger d with
    | Some num, Some d => if IntSign d =? 0 then Err ErrDivisionByZero else RatArith OpDiv num d maxBits
    | _, _ => Err ErrRealNotation
    end
  else ParseRational text maxBits.

(** ** Writing *)

(** How often [p] divides [d], and what is left: [TrailingZeroBits] with the shift
    for 2, the loop of [FormatRational] for 5. *)
Fixpoint divide_out (fuel : nat) (p d : Z) : Z * Z :=
  match fuel with
  | O => (0, d)
  | S fuel' => if d mod p =? 0 then let '(k, r) := divide_out fuel' p (d / p) in (k + 1, r) else (0, d)
  end.

Definition zeros_text (n : Z) : bytes := repeat "0"%ch (Z.to_nat n).

Definition formatDecimal (n k : Z) : bytes :=
  let sign := if n <? 0 then bs "-" else [] in
  let digits := decimal_text (Z.abs n) in
  if beq digits (bs "0") then bs "0.0"
  else
    let trimmed := trim_right (bs "0") digits in
    let k := k - (Z.of_nat (length digits) - Z.of_nat (length trimmed)) in
    let digits := trimmed in
    let len := Z.of_nat (length digits) in
    let exp := len - k - 1 in
    if (exp <? -4) || (21 <=? exp) then
      let mantissa := take 1 digits ++ (if 1 <? len then bs "." ++ drop 1 digits else []) in
      let e := decimal_text (Z.abs exp) in
      let e := if (length e <? 2)%nat then bs "0" ++ e else e in
      sign ++ mantissa ++ bs "e" ++ (if exp <? 0 then bs "-" else bs "+") ++ e
    else if k <=? 0 then sign ++ digits ++ zeros_text (- k) ++ bs ".0"
    else if k <? len then sign ++ take (Z.to_nat (len - k)) digits ++ bs "." ++ drop (Z.to_nat (len - k)) digits
    else sign ++ bs "0." ++ zeros_text (k - len) ++ digits.

Definition FormatRational (v : Value) : bytes :=
  let num := RatNumer v in
  let d := BigInt (RatDenom v) in
  let fuel := Z.to_nat (BitLen d) in
  let '(twos, d1) := divide_out fuel 2 d in
  let '(fives, d2) := divide_out fuel 5 d1 in
  if negb (Cmp d2 1 =? 0) then FormatInt num ++ bs "/" ++ FormatInt (RatDenom v)
  else
    let k := Z.max twos fives in
    formatDecimal (Z.quot (BigInt num * 10 ^ k) d) k.

(** [FormatConst]; [formatReal] is [FormatReal]. *)
Definition FormatConst (formatReal : spec_float -> bytes) (c : Value) : bytes :=
  match c.(vKind) with
  | ValInt => FormatInt c
  | ValReal => formatReal c.(Real)
  | ValRational => FormatRational c
  | ValBool => if c.(vBool) then bs "true" else bs "false"
  | ValInfinity => bs "*"
  | ValInvalid => bs "<unknown const>"
  end.
