(* ===== verification/DecimalFacts.v ===== *)
(** * Decimal notation: properties

    The grammar [isRealNotation] accepts, the number a notation denotes and that
    [ParseRational] reads it exactly, and that what [FormatRational] writes is read
    back. *)
From Stdlib Require Import Floats.SpecFloat QArith Qfield Qpower.
From S2P Require Import Prelude Bytes Machine Integer IntegerFacts Rational RationalFacts Decimal.
Local Open Scope Z_scope.

(** ** The grammar *)

(** Decimal notation: a sign, digits around an optional point, an optional exponent. *)
Record notation := {
  n_sign : bytes; n_whole : bytes; n_point : bool; n_frac : bytes; n_exp : option (Z * bytes * bytes) }.

Definition digits (ds : bytes) : Prop := Forall (fun c => digit c = true) ds.
Definition sign_text (s : bytes) : Prop := s = [] \/ exists c, s = [c] /\ is_sign c = true.

Record notation_wf (n : notation) : Prop := {
  w_sign : sign_text (n_sign n);
  w_whole : digits (n_whole n);
  w_frac : digits (n_frac n);
  w_point : n_point n = false -> n_frac n = [];
  w_some : n_whole n ++ n_frac n <> [];
  w_exp : match n_exp n with
          | Some (c, s, ds) => is_exp c = true /\ sign_text s /\ digits ds /\ ds <> []
          | None => True
          end }.

Definition exp_text (e : option (Z * bytes * bytes)) : bytes :=
  match e with Some (c, s, ds) => c :: s ++ ds | None => [] end.
Definition point_text (p : bool) (frac : bytes) : bytes := if p then "."%ch :: frac else [].
Definition spell (n : notation) : bytes :=
  n_sign n ++ n_whole n ++ point_text (n_point n) (n_frac n) ++ exp_text (n_exp n).

Definition no_digit (t : bytes) : Prop := match t with c :: _ => digit c = false | [] => True end.

Lemma skip_digits_app ds t : digits ds -> no_digit t -> skip_digits (ds ++ t) = (length ds, t).
Proof.
  intros Hd Ht. induction Hd as [|c ds Hc Hd IH]; cbn [app skip_digits].
  - destruct t as [|c t]; [done|]. cbn [skip_digits]. cbn in Ht. by rewrite Ht.
  - by rewrite Hc, IH.
Qed.

Lemma skip_digits_inv t : exists ds rest, skip_digits t = (length ds, rest) /\ t = ds ++ rest /\ digits ds /\ no_digit rest.
Proof.
  induction t as [|c t (ds & rest & E & -> & Hd & Hr)]; cbn [skip_digits].
  - exists [], []. by split_and!; [| |constructor|].
  - destruct (digit c) eqn:Ec.
    + rewrite E. exists (c :: ds), rest. by split_and!; [| |constructor|].
    + exists [], (c :: ds ++ rest). by split_and!; [| |constructor|].
Qed.

Lemma digit_not_sign c : digit c = true -> is_sign c = false.
Proof. unfold digit, is_sign. cbn. lia. Qed.
Lemma digit_not_exp c : digit c = true -> is_exp c = false.
Proof. unfold digit, is_exp. cbn. lia. Qed.

Lemma skip_sign_app s t : sign_text s -> (s = [] -> match t with c :: _ => is_sign c = false | [] => True end) -> skip_sign (s ++ t) = t.
Proof.
  intros [->|(c & -> & Hc)] Ht; cbn [app skip_sign]; [|by rewrite Hc].
  destruct t as [|c t]; [done|]. cbn [skip_sign]. by rewrite Ht.
Qed.

Lemma skip_sign_inv t : exists s, sign_text s /\ t = s ++ skip_sign t.
Proof.
  destruct t as [|c t]; [exists []; by split; [left|]|]. cbn [skip_sign]. destruct (is_sign c) eqn:E.
  - exists [c]. split; [right; by exists c|done].
  - exists []. by split; [left|].
Qed.

(** The exponent, as the end of the notation is read. *)
Lemma exp_read e :
  match e with Some (c, s, ds) => is_exp c = true /\ sign_text s /\ digits ds /\ ds <> [] | None => True end ->
  match exp_text e with
  | c :: t =>
      if is_exp c then
        let '(exponent, rest) := skip_digits (skip_sign t) in
        if (exponent =? 0)%nat then false else match rest with [] => true | _ => false end
      else false
  | [] => true
  end = true /\ no_digit (exp_text e) /\ (match exp_text e with c :: _ => c <> "."%ch /\ is_sign c = false | [] => True end).
Proof.
  destruct e as [[[c s] ds]|]; [|done]. intros (Hc & Hs & Hd & Hne). cbn [exp_text]. rewrite Hc. split_and!.
  - rewrite skip_sign_app; [|done|].
    + rewrite <- (app_nil_r ds), skip_digits_app by done. by destruct ds.
    + intros _. destruct Hd as [|x ds Hx]; [done|]. by apply digit_not_sign.
  - cbn. unfold is_exp in Hc. unfold digit. cbn in *. lia.
  - unfold is_exp in Hc. cbn in Hc. lia.
  - unfold is_exp in Hc. unfold is_sign. cbn in *. lia.
Qed.

Lemma notation_read n : notation_wf n -> isRealNotation (spell n) = true.
Proof.
  intros [Hs Hw Hf Hp Hne He]. unfold isRealNotation, spell.
  destruct (exp_read (n_exp n) He) as (Hread & Hnd & Hh).
  rewrite skip_sign_app; [|done|].
  2:{ intros _. destruct (n_whole n) as [|x w] eqn:Ew; cbn [app]; [|by apply digit_not_sign; inversion Hw].
      destruct (n_point n); cbn [point_text app]; [done|]. rewrite Hp in Hne by done. done. }
  assert (Hnp : no_digit (point_text (n_point n) (n_frac n) ++ exp_text (n_exp n))) by (by destruct (n_point n)).
  rewrite skip_digits_app by done. destruct (n_point n) eqn:Ep; cbn [point_text app].
  - rewrite Z.eqb_refl, skip_digits_app by done.
    rewrite (proj2 (Nat.eqb_neq _ _)); [exact Hread|]. rewrite <- length_app. by destruct (n_whole n ++ n_frac n).
  - rewrite Hp, app_nil_r in Hne by done.
    destruct (exp_text (n_exp n)) as [|c t]; [|destruct Hh as [Hh _]; rewrite (proj2 (Z.eqb_neq _ _) Hh)];
      (rewrite (proj2 (Nat.eqb_neq _ _)); [done|by destruct (n_whole n)]).
Qed.

Lemma notation_inv text : isRealNotation text = true -> exists n, notation_wf n /\ text = spell n.
Proof.
  unfold isRealNotation. destruct (skip_sign_inv text) as (s & Hs & Et).
  destruct (skip_digits_inv (skip_sign text)) as (w & r & Ew & Er & Hw & Hr). rewrite Ew.
  assert (Hend : forall p f r', (p = false -> f = []) -> digits f -> w ++ f <> [] ->
    match r' with
    | c :: t =>
      if is_exp c then
        let '(exponent, rest) := skip_digits (skip_sign t) in
        if (exponent =? 0)%nat then false else match rest with [] => true | _ => false end
      else false
    | [] => true
    end = true -> r = point_text p f ++ r' -> exists n, notation_wf n /\ text = spell n).
  { intros p f r' Hp Hf Hne Hread E. destruct r' as [|c t].
    - exists {| n_sign := s; n_whole := w; n_point := p; n_frac := f; n_exp := None |}.
      split; [by split|]. unfold spell. cbn. rewrite Et at 1. by rewrite Er, E.
    - destruct (is_exp c) eqn:Ec; [|done]. destruct (skip_sign_inv t) as (s2 & Hs2 & Et2).
      destruct (skip_digits_inv (skip_sign t)) as (ds & r2 & Eds & Er2 & Hds & _). rewrite Eds in Hread.
      destruct (Nat.eqb_spec (length ds) 0) as [|Hl]; [done|]. destruct r2; [|done]. rewrite app_nil_r in Er2.
      exists {| n_sign := s; n_whole := w; n_point := p; n_frac := f; n_exp := Some (c, s2, ds) |}.
      split; [split; try done; cbn; split_and!; try done; by intros ->|].
      unfold spell. cbn. rewrite Et at 1. by rewrite Er, E, Et2, Er2. }
  destruct r as [|c t].
  - destruct (Nat.eqb_spec (length w) 0) as [|Hl]; [done|]. intros H. apply (Hend false [] []); try done; [constructor|].
    rewrite app_nil_r. by intros ->.
  - destruct (Z.eqb_spec c "."%ch) as [->|Hc].
    + destruct (skip_digits_inv t) as (f & r' & Ef & Er' & Hf & _). rewrite Ef.
      destruct (Nat.eqb_spec (length w + length f) 0) as [|Hl]; [done|]. intros H.
      apply (Hend true f r'); try done; [|by rewrite Er'].
      intros E%(f_equal length). rewrite length_app in E. done.
    + destruct (Nat.eqb_spec (length w) 0) as [|Hl]; [done|]. intros H. apply (Hend false [] (c :: t)); try done; [constructor|].
      rewrite app_nil_r. by intros ->.
Qed.

(** ** Reading *)

Lemma cut_exp_app m e :
  Forall (fun c => is_exp c = false) m -> match e with Some (c, _, _) => is_exp c = true | None => True end ->
  cut_exp (m ++ exp_text e) = (m, match e with Some (_, s, ds) => s ++ ds | None => [] end).
Proof.
  intros Hm He. induction Hm as [|c m Hc Hm IH]; cbn [app cut_exp].
  - destruct e as [[[c s] ds]|]; [|done]. cbn [exp_text cut_exp]. by rewrite He.
  - by rewrite Hc, IH.
Qed.

Lemma index_byte w c t : c ∉ w -> index (w ++ c :: t) [c] = Some (length w).
Proof.
  induction w as [|x w IH]; intros Hn; cbn [app index length].
  - cbn [has_prefix]. by rewrite Z.eqb_refl.
  - cbn [has_prefix]. rewrite (proj2 (Z.eqb_neq _ _)) by (intros ->; set_solver). cbn [andb].
    rewrite IH by set_solver. done.
Qed.

Lemma index_byte_none w c : c ∉ w -> index w [c] = None.
Proof.
  induction w as [|x w IH]; intros Hn; cbn [index has_prefix]; [done|].
  rewrite (proj2 (Z.eqb_neq _ _)) by (intros ->; set_solver). cbn [andb]. rewrite IH by set_solver. done.
Qed.

Lemma cut_byte w c t : c ∉ w -> cut (w ++ c :: t) [c] = (w, t, true).
Proof.
  intros Hn. unfold cut. rewrite index_byte by done. rewrite take_app_length. cbn [length].
  rewrite drop_app_ge by lia. by replace (length w + 1 - length w)%nat with 1%nat by lia.
Qed.

Lemma digits_no_byte ds c : digits ds -> digit c = false -> c ∉ ds.
Proof. intros H Hc Hin. unfold digits in H. rewrite Forall_forall in H. rewrite H in Hc; done. Qed.

Lemma cut_point w p f :
  digits w -> (p = false -> f = []) -> exists ok, cut (w ++ point_text p f) (bs ".") = (w, f, ok).
Proof.
  intros Hw Hf. change (bs ".") with ["."%ch]. pose proof (digits_no_byte w "."%ch Hw eq_refl) as Hn.
  destruct p; cbn [point_text].
  - exists true. by apply cut_byte.
  - exists false. rewrite app_nil_r, Hf by done. unfold cut. by rewrite index_byte_none.
Qed.

(** The exponent and the number a notation denotes. *)
Definition exp_value (e : option (Z * bytes * bytes)) : Z :=
  match e with Some (_, s, ds) => (if bool_decide (s = ["-"%ch]) then -1 else 1) * decimal ds | None => 0 end.
Definition negative (n : notation) : bool := bool_decide (n_sign n = ["-"%ch]).
Definition significand (n : notation) : Z :=
  (if negative n then -1 else 1) * decimal (n_whole n ++ n_frac n).
Definition value (n : notation) : Q :=
  inject_Z (significand n) * inject_Z 10 ^ (exp_value (n_exp n) - Z.of_nat (length (n_frac n))).

Lemma parse_exp e c s ds :
  e = Some (c, s, ds) -> sign_text s -> digits ds -> ds <> [] -> parse_decimal (s ++ ds) = Some (exp_value e).
Proof.
  intros -> Hs Hd Hne. cbn [exp_value]. pose proof (proj2 (forallb_Forall digit ds) Hd) as Hf.
  unfold parse_decimal. destruct Hs as [->|(x & -> & Hx)]; cbn [app].
  - destruct ds as [|d ds]; [done|]. inversion Hd as [|? ? Hdd]; subst. apply digit_not_sign in Hdd. unfold is_sign in Hdd.
    apply orb_false_iff in Hdd as [-> ->]. rewrite Hf. rewrite bool_decide_false by done. done.
  - unfold is_sign in Hx. destruct (Z.eqb_spec x "-"%ch) as [Ex|Hxn].
    + subst x. destruct ds; [done|]. rewrite Hf. done.
    + destruct (Z.eqb_spec x "+"%ch) as [Ex|]; [subst x|done]. destruct ds; [done|]. rewrite Hf.
      by rewrite bool_decide_false.
Qed.

Lemma decimal_acc ds a : fold_left (fun n c => n * 10 + (c - "0"%ch)) ds a = a * 10 ^ Z.of_nat (length ds) + decimal ds.
Proof.
  unfold decimal. revert a. induction ds as [|d ds IH]; intros a; cbn [fold_left length]; [lia|].
  rewrite IH, (IH (0 * 10 + _)), Nat2Z.inj_succ, Z.pow_succ_r by lia. ring.
Qed.

Lemma decimal_app u v : decimal (u ++ v) = decimal u * 10 ^ Z.of_nat (length v) + decimal v.
Proof. unfold decimal. rewrite fold_left_app. apply decimal_acc. Qed.

Lemma decimal_bound ds : digits ds -> 0 <= decimal ds < 10 ^ Z.of_nat (length ds).
Proof.
  induction ds as [|d ds IH] using rev_ind; intros H; [done|]. apply Forall_app in H as [Hd Hx].
  specialize (IH Hd). inversion Hx as [|? ? Hc _]; subst. rewrite decimal_app, length_app. cbn [length].
  unfold decimal at 2 4. cbn [fold_left]. change (Z.of_nat 1) with 1. rewrite Nat2Z.inj_add. change (Z.of_nat 1) with 1.
  rewrite Z.pow_add_r, Z.pow_1_r by lia. unfold digit in Hc. cbn in Hc |- *. lia.
Qed.

Lemma word_decimal_spec ds : digits ds -> (length ds <= 18)%nat -> word_decimal ds = decimal ds.
Proof.
  unfold word_decimal, decimal. induction ds as [|d ds IH] using rev_ind; intros H Hl; [done|].
  apply Forall_app in H as [Hd Hx]. rewrite length_app in Hl. cbn in Hl. rewrite !fold_left_app. cbn [fold_left].
  rewrite IH by (done || lia). pose proof (decimal_bound ds Hd) as Hb. unfold decimal in Hb.
  assert (10 ^ Z.of_nat (length ds) <= 10 ^ 17) by (apply Z.pow_le_mono_r; lia).
  inversion Hx as [|? ? Hc _]; subst. unfold digit in Hc. cbn in Hc |- *.
  rewrite (int64_small (_ * 10)) by (unfold is_int64; lia). apply int64_small. unfold is_int64. lia.
Qed.

Lemma pow10_spec k : 0 <= k <= 18 -> pow10 k = 10 ^ k.
Proof.
  intros Hk. unfold pow10. rewrite <- (Z2Nat.id k) at 2 by lia. assert (H : (Z.to_nat k <= 18)%nat) by lia.
  induction (Z.to_nat k) as [|n IH]; [done|]. cbn [Nat.iter nat_rect]. change (nat_rect _ _ _ n) with (Nat.iter n (fun p => int64 (p * 10)) 1).
  rewrite IH by lia. rewrite Nat2Z.inj_succ, Z.pow_succ_r by lia.
  assert (0 < 10 ^ Z.of_nat n <= 10 ^ 17) by (split; [lia|apply Z.pow_le_mono_r; lia]).
  rewrite int64_small by (unfold is_int64; lia). lia.
Qed.

Lemma digits_parse ds : digits ds -> ds <> [] -> parse_decimal ds = Some (decimal ds).
Proof.
  intros Hd Hne. pose proof (proj2 (forallb_Forall digit ds) Hd) as Hf. unfold parse_decimal.
  destruct ds as [|d ds]; [done|]. inversion Hd as [|? ? Hdd]; subst. apply digit_not_sign in Hdd. unfold is_sign in Hdd.
  apply orb_false_iff in Hdd as [-> ->]. rewrite Hf. f_equal. lia.
Qed.

Lemma elem_zero c : elem c (bs "0") = (c =? "0"%ch).
Proof. apply orb_false_r. Qed.

Lemma trim_left_zeros ds : digits ds ->
  digits (trim_left (bs "0") ds) /\ decimal (trim_left (bs "0") ds) = decimal ds
  /\ (length (trim_left (bs "0") ds) <= length ds)%nat
  /\ match trim_left (bs "0") ds with c :: _ => c <> "0"%ch | [] => True end.
Proof.
  induction 1 as [|c ds Hc Hd (H1 & H2 & H3 & H4)]; cbn [trim_left]; [by split_and!; [constructor| | |]|].
  rewrite elem_zero. destruct (Z.eqb_spec c "0"%ch) as [E|E].
  - subst c. split_and!; [done| |cbn [length]; lia|done]. by rewrite H2.
  - by split_and!; [constructor| | |].
Qed.

Lemma trim_right_zeros ds : digits ds ->
  exists z, ds = trim_right (bs "0") ds ++ repeat "0"%ch z /\ digits (trim_right (bs "0") ds)
    /\ decimal ds = decimal (trim_right (bs "0") ds) * 10 ^ Z.of_nat z
    /\ match last (trim_right (bs "0") ds) with Some c => c <> "0"%ch | None => True end.
Proof.
  induction ds as [|c ds IH] using rev_ind; intros H.
  - exists 0%nat. by split_and!; [|constructor| |].
  - apply Forall_app in H as [Hd Hx]. inversion Hx as [|? ? Hc _]; subst. destruct (IH Hd) as (z & Ez & H1 & H2 & H3).
    unfold trim_right. rewrite rev_app_distr. cbn [rev app trim_left].
    change (rev (trim_left (bs "0") (rev ds))) with (trim_right (bs "0") ds). rewrite elem_zero. destruct (Z.eqb_spec c "0"%ch) as [E|E].
    + subst c. change (rev (trim_left (bs "0") (rev ds))) with (trim_right (bs "0") ds).
      exists (S z). split_and!; [|done| |done].
      * rewrite Ez at 1. rewrite <- app_assoc. f_equal. by rewrite <- repeat_cons.
      * rewrite decimal_snoc, H2, Nat2Z.inj_succ, Z.pow_succ_r by lia. ring.
    + exists 0%nat. cbn [rev repeat]. rewrite rev_involutive, app_nil_r.
      split_and!; [done|apply Forall_app; by repeat constructor|cbn; lia|]. by rewrite last_snoc.
Qed.

(** ** Powers of ten *)

Lemma ten_nonzero : ~ (inject_Z 10 == 0)%Q.
Proof. by vm_compute. Qed.

Lemma ten_pow k : 0 <= k -> (inject_Z 10 ^ k == inject_Z (10 ^ k))%Q.
Proof. intros Hk. by rewrite Zpower_Qpower. Qed.

Lemma pow_frac n k : 0 <= k -> (inject_Z n / inject_Z (10 ^ k) == inject_Z n * inject_Z 10 ^ (- k))%Q.
Proof. intros Hk. rewrite Qpower_opp, ten_pow by done. reflexivity. Qed.

Lemma pow_whole n k : 0 <= k -> (inject_Z (n * 10 ^ k) == inject_Z n * inject_Z 10 ^ k)%Q.
Proof. intros Hk. by rewrite inject_Z_mult, ten_pow. Qed.

Lemma pow_shift n a k : 0 <= a -> (inject_Z (n * 10 ^ a) * inject_Z 10 ^ k == inject_Z n * inject_Z 10 ^ (k + a))%Q.
Proof. intros Ha. rewrite pow_whole by done. rewrite Qpower_plus by apply ten_nonzero. ring. Qed.

#[export] Instance sized_rat_proper : Proper (eq ==> Qeq ==> eq ==> iff) sized_rat.
Proof.
  intros r ? <- p q Hpq m ? <-. assert (E : qrat p = qrat q) by by rewrite Hpq.
  unfold sized_rat, rational. by rewrite E.
Qed.

Definition signed (neg : bool) (z : Z) : Z := if neg then - z else z.

Lemma FracValue_pow10 n k mb :
  word n -> 0 <= k <= 18 ->
  sized_rat (sizedValue (default zero_value (FracValue n (pow10 k))) mb) (inject_Z n * inject_Z 10 ^ (- k)) mb.
Proof.
  intros Hn Hk. rewrite pow10_spec by done.
  assert (0 < 10 ^ k <= 10 ^ 18) by (split; [lia|apply Z.pow_le_mono_r; lia]).
  rewrite FracValue_rational by (unfold word, is_int64 in *; lia). rewrite (proj2 (Z.eqb_neq _ _)) by lia.
  cbn [default from_option id]. unfold rational. rewrite pow_frac by lia. by apply sizedValue_sized.
Qed.

Lemma scaled_value_sized neg ds scale mb :
  digits ds -> ds <> [] -> word scale -> decimal_bits ds scale <= mb ->
  sized_rat (scaled_value neg ds scale mb) (inject_Z (signed neg (decimal ds)) * inject_Z 10 ^ scale) mb.
Proof.
  intros Hd Hne Hs Hb. unfold scaled_value. rewrite (proj2 (Z.ltb_ge _ _)) by done.
  destruct ((-18 <=? scale) && (scale <=? 0) && (length ds <=? 18)%nat) eqn:E.
  - apply andb_true_iff in E as [E El%Nat.leb_le].
    assert (Hw : 0 <= decimal ds < 10 ^ 18).
    { pose proof (decimal_bound ds Hd). assert (10 ^ Z.of_nat (length ds) <= 10 ^ 18) by (apply Z.pow_le_mono_r; lia). lia. }
    unfold strconv_ParseInt. rewrite digits_parse by done. cbn [mbind option_bind].
    rewrite (proj2 (IsInt64_spec (decimal ds))) by (unfold is_int64; lia). cbn [default from_option id].
    assert (En : (if neg then int64 (- decimal ds) else decimal ds) = signed neg (decimal ds)).
    { destruct neg; cbn; [|done]. apply int64_small. unfold is_int64. lia. }
    rewrite En. replace scale with (- - scale) at 2 by lia. apply FracValue_pow10; [|lia].
    unfold word. destruct neg; cbn; lia.
  - rewrite digits_parse by done. cbn [default from_option id]. rewrite abs64_spec by done.
    change (if neg then - decimal ds else decimal ds) with (signed neg (decimal ds)).
    destruct (Z.leb_spec 0 scale).
    + rewrite Z.abs_eq by done. rewrite <- pow_whole by done. apply sizedRat_sized. by rewrite qrat_inject.
    + rewrite Z.abs_neq by lia. replace scale with (- - scale) at 2 by lia. rewrite <- pow_frac by lia.
      apply sizedRat_sized, SetFrac_qrat. lia.
Qed.

(** The parts a notation is taken into. *)
Lemma ParseRational_parts n mb :
  notation_wf n ->
  ParseRational (spell n) mb =
    let ds := n_whole n ++ n_frac n in
    let neg := negative n in
    if bool_decide (n_exp n = None) && (length ds <=? 18)%nat then
      let m := word_decimal ds in
      let m := if neg then int64 (- m) else m in
      sizedValue (default zero_value (FracValue m (pow10 (Z.of_nat (length (n_frac n)))))) mb
    else
      let ds := trim_left (bs "0") ds in
      if bool_decide (ds = []) then Ok (rat_inline 0 1)
      else
        let e := exp_value (n_exp n) in
        if bool_decide (n_exp n <> None) && (negb (IsInt64 e) || (Z.quot MaxInt64 4 <? e) || (e <? Z.quot MinInt64 4))
        then Err (RationalSizeExceeded MaxInt64 mb)
        else
          let trimmed := trim_right (bs "0") ds in
          let scale := int64 (- Z.of_nat (length (n_frac n)) + e) in
          let scale := int64 (scale + (Z.of_nat (length ds) - Z.of_nat (length trimmed))) in
          scaled_value neg trimmed scale mb.
Proof.
  intros Hn. unfold ParseRational. rewrite notation_read by done. cbn [negb]. destruct Hn as [Hs Hw Hf Hp Hne He].
  assert (Hcut : cut_exp (spell n) = (n_sign n ++ n_whole n ++ point_text (n_point n) (n_frac n),
    match n_exp n with Some (_, s, ds) => s ++ ds | None => [] end)).
  { unfold spell. rewrite !app_assoc. apply cut_exp_app; [|by destruct (n_exp n) as [[[c s] ds]|]; [destruct He|]].
    assert (Hde : forall ds, digits ds -> Forall (fun c => is_exp c = false) ds)
      by (intros ds Hds; eapply Forall_impl; [exact Hds|exact digit_not_exp]).
    rewrite <- app_assoc. apply Forall_app. split; [|apply Forall_app; split; [by apply Hde|]].
    - destruct Hs as [->|(c & -> & Hc)]; [constructor|]. repeat constructor. unfold is_sign in Hc. unfold is_exp. cbn in *. lia.
    - destruct (n_point n); cbn [point_text]; [|constructor]. constructor; [done|by apply Hde]. }
  rewrite Hcut. clear Hcut.
  assert (Hsign : match n_sign n ++ n_whole n ++ point_text (n_point n) (n_frac n) with
      | c :: t => if c =? "-"%ch then (true, t) else if c =? "+"%ch then (false, t)
                  else (false, n_sign n ++ n_whole n ++ point_text (n_point n) (n_frac n))
      | [] => (false, [])
      end = (negative n, n_whole n ++ point_text (n_point n) (n_frac n))).
  { unfold negative. destruct Hs as [->|(c & -> & Hc)]; cbn [app].
    - rewrite bool_decide_false by done. destruct (n_whole n) as [|x w] eqn:Ew; cbn [app].
      + by destruct (n_point n); cbn [point_text].
      + inversion Hw as [|? ? Hx]; subst. apply digit_not_sign in Hx. unfold is_sign in Hx.
        apply orb_false_iff in Hx as [-> ->]. done.
    - unfold is_sign in Hc. destruct (Z.eqb_spec c "-"%ch) as [Ec|]; [subst c; by rewrite bool_decide_true|].
      destruct (Z.eqb_spec c "+"%ch) as [Ec|]; [subst c; by rewrite bool_decide_false|done]. }
  rewrite Hsign. clear Hsign. destruct (cut_point (n_whole n) (n_point n) (n_frac n) Hw Hp) as [ok ->].
  rewrite <- length_app. destruct (n_exp n) as [[[c s] ds]|] eqn:Ee.
  - destruct He as (Hc & Hss & Hds & Hdn). assert (Hex : s ++ ds <> []) by (by destruct ds; [|destruct s]).
    rewrite (bool_decide_false _ Hex), (bool_decide_false (Some (c, s, ds) = None)), (bool_decide_true (Some (c, s, ds) <> None)) by done. cbn [andb].
    unfold strconv_ParseInt. rewrite (parse_exp (n_exp n) c s ds Ee Hss Hds Hdn), Ee. cbn [mbind option_bind].
    destruct (bool_decide (trim_left _ _ = [])); [done|].
    destruct (IsInt64 _); cbn [negb orb mbind option_bind]; [|done]. by destruct (_ || _).
  - rewrite (bool_decide_true (@nil Z = [])), (bool_decide_true (@None (Z * bytes * bytes) = None)) by done.
    rewrite (bool_decide_false (None <> None)) by (intros H; by apply H). done.
Qed.

(** The significand without its outer zeros, and its power of ten. *)
Definition trimmed (n : notation) : bytes := trim_right (bs "0") (trim_left (bs "0") (n_whole n ++ n_frac n)).
Definition scale (n : notation) : Z :=
  exp_value (n_exp n) - Z.of_nat (length (n_frac n))
  + (Z.of_nat (length (trim_left (bs "0") (n_whole n ++ n_frac n))) - Z.of_nat (length (trimmed n))).
Definition short (n : notation) : bool :=
  bool_decide (n_exp n = None) && (length (n_whole n ++ n_frac n) <=? 18)%nat.
Definition is_zero (n : notation) : bool := bool_decide (trimmed n = []).

(** The bits a notation is taken to need before it is read. *)
Definition estimate (n : notation) : Z :=
  if short n || is_zero n then 1 else decimal_bits (trimmed n) (scale n).
Definition exp_fits (n : notation) : bool :=
  short n || is_zero n || ((- 2 ^ 61 <=? exp_value (n_exp n)) && (exp_value (n_exp n) <? 2 ^ 61)).

Lemma significand_parts n :
  notation_wf n ->
  digits (trimmed n)
  /\ (value n == inject_Z (signed (negative n) (decimal (trimmed n))) * inject_Z 10 ^ scale n)%Q
  /\ (bool_decide (trim_left (bs "0") (n_whole n ++ n_frac n) = []) = is_zero n)
  /\ 0 <= Z.of_nat (length (trim_left (bs "0") (n_whole n ++ n_frac n))) - Z.of_nat (length (trimmed n))
       <= Z.of_nat (length (n_whole n ++ n_frac n))
  /\ (is_zero n = true -> decimal (n_whole n ++ n_frac n) = 0).
Proof.
  intros [Hs Hw Hf Hp Hne He]. assert (Hd : digits (n_whole n ++ n_frac n)) by (apply Forall_app; done).
  destruct (trim_left_zeros _ Hd) as (L1 & L2 & L3 & L4).
  destruct (trim_right_zeros _ L1) as (z & Ez & R1 & R2 & R3). fold (trimmed n) in Ez, R1, R2, R3.
  assert (Hlen : length (trim_left (bs "0") (n_whole n ++ n_frac n)) = (length (trimmed n) + z)%nat)
    by (rewrite Ez at 1; by rewrite length_app, repeat_length).
  assert (Hz : bool_decide (trim_left (bs "0") (n_whole n ++ n_frac n) = []) = is_zero n).
  { unfold is_zero. apply bool_decide_ext. split; intros E.
    - unfold trimmed. by rewrite E.
    - rewrite E in Ez. destruct z as [|z]; [done|]. rewrite Ez in L4. done. }
  split_and!; [done| |done|lia|lia|].
  - unfold value, significand, scale. rewrite Hlen.
    replace (Z.of_nat (length (trimmed n) + z) - Z.of_nat (length (trimmed n))) with (Z.of_nat z) by lia.
    rewrite <- L2, R2. unfold signed. destruct (negative n).
    + replace (-1 * (decimal (trimmed n) * 10 ^ Z.of_nat z)) with (- decimal (trimmed n) * 10 ^ Z.of_nat z) by ring.
      by rewrite pow_shift by lia.
    + rewrite Z.mul_1_l. by rewrite pow_shift by lia.
  - intros Hzero. rewrite <- Hz in Hzero. apply bool_decide_eq_true in Hzero. by rewrite <- L2, Hzero.
Qed.

Lemma value_zero n : decimal (n_whole n ++ n_frac n) = 0 -> (value n == 0)%Q.
Proof. intros E. unfold value, significand. rewrite E, Z.mul_0_r. change (inject_Z 0) with 0%Q. ring. Qed.

Lemma ParseRational_sized n mb :
  notation_wf n -> Z.of_nat (length (n_whole n ++ n_frac n)) < 2 ^ 60 -> 1 <= mb ->
  exp_fits n = true -> estimate n <= mb -> sized_rat (ParseRational (spell n) mb) (value n) mb.
Proof.
  intros Hn Hlen Hmb Hfit Hest. rewrite ParseRational_parts by done. cbv zeta.
  destruct (significand_parts n Hn) as (Ht & Hv & Hz & Hdl & Hz0). pose proof Hn as [Hs Hw Hf Hp Hne He].
  assert (Hd : digits (n_whole n ++ n_frac n)) by (by apply Forall_app).
  unfold exp_fits, estimate in *. fold (short n). destruct (short n) eqn:Esh; cbn [orb] in *.
  - unfold short in Esh. apply andb_true_iff in Esh as [Ex%bool_decide_eq_true El%Nat.leb_le].
    rewrite word_decimal_spec by done.
    assert (Hb : 0 <= decimal (n_whole n ++ n_frac n) < 10 ^ 18).
    { pose proof (decimal_bound _ Hd). assert (10 ^ Z.of_nat (length (n_whole n ++ n_frac n)) <= 10 ^ 18) by (apply Z.pow_le_mono_r; lia). lia. }
    rewrite length_app in El.
    assert (Em : (if negative n then int64 (- decimal (n_whole n ++ n_frac n)) else decimal (n_whole n ++ n_frac n)) = significand n).
    { unfold significand. destruct (negative n); [rewrite int64_small by (unfold is_int64; lia)|]; lia. }
    rewrite Em. unfold value. rewrite Ex. cbn [exp_value]. rewrite Z.sub_0_l. apply FracValue_pow10; [|lia].
    unfold word, significand. destruct (negative n); lia.
  - rewrite Hz. destruct (is_zero n) eqn:Ez; cbn [orb] in *.
    + rewrite value_zero by by apply Hz0. unfold sized_rat. change (rat_bits (qrat 0)) with 1.
      rewrite (proj2 (Z.leb_le _ _)) by done. done.
    + apply andb_true_iff in Hfit as [H1%Z.leb_le H2%Z.ltb_lt].
      change (Z.quot MaxInt64 4) with (2 ^ 61 - 1). change (Z.quot MinInt64 4) with (- 2 ^ 61).
      rewrite (proj2 (IsInt64_spec _)) by (unfold is_int64; lia). rewrite !(proj2 (Z.ltb_ge _ _)) by lia.
      cbn [negb orb]. rewrite andb_false_r. fold (trimmed n). rewrite length_app in Hlen.
      rewrite (int64_small (- _ + _)) by (unfold is_int64; lia). rewrite length_app in Hdl.
      rewrite int64_small by (unfold is_int64; lia). rewrite Hv.
      replace (- Z.of_nat (length (n_frac n)) + exp_value (n_exp n) + _) with (scale n) by (unfold scale; lia).
      apply scaled_value_sized; [done| |unfold scale, word; lia|done].
      intros E. unfold is_zero in Ez. by rewrite E in Ez.
Qed.

Lemma spell_length n : notation_wf n -> (length (n_whole n ++ n_frac n) <= length (spell n))%nat.
Proof.
  intros Hn. unfold spell. rewrite !length_app.
  assert (length (n_frac n) <= length (point_text (n_point n) (n_frac n)))%nat; [|lia].
  pose proof (w_point n Hn) as Hp. destruct (n_point n); [cbn; lia|]. by rewrite Hp.
Qed.

(** What is refused before it is read. *)
Lemma ParseRational_refused n mb :
  notation_wf n -> Z.of_nat (length (n_whole n ++ n_frac n)) < 2 ^ 60 -> 1 <= mb ->
  exp_fits n && (estimate n <=? mb) = false -> exists b, ParseRational (spell n) mb = Err (ErrRationalSizeLimit b mb).
Proof.
  intros Hn Hlen Hmb Href. rewrite ParseRational_parts by done. cbv zeta.
  destruct (significand_parts n Hn) as (Ht & _ & Hz & Hdl & _). unfold exp_fits, estimate in Href. fold (short n).
  destruct (short n) eqn:Esh; cbn [orb andb] in Href; [apply Z.leb_gt in Href; lia|]. rewrite Hz.
  destruct (is_zero n) eqn:Ez; cbn [orb andb] in Href; [apply Z.leb_gt in Href; lia|].
  change (Z.quot MaxInt64 4) with (2 ^ 61 - 1). change (Z.quot MinInt64 4) with (- 2 ^ 61).
  destruct ((- 2 ^ 61 <=? exp_value (n_exp n)) && (exp_value (n_exp n) <? 2 ^ 61)) eqn:Ee; cbn [andb] in Href.
  - apply andb_true_iff in Ee as [H1%Z.leb_le H2%Z.ltb_lt]. apply Z.leb_gt in Href.
    rewrite (proj2 (IsInt64_spec _)) by (unfold is_int64; lia). rewrite !(proj2 (Z.ltb_ge _ _)) by lia.
    cbn [negb orb]. rewrite andb_false_r. fold (trimmed n). rewrite length_app in Hlen, Hdl.
    rewrite (int64_small (- _ + _)) by (unfold is_int64; lia). rewrite int64_small by (unfold is_int64; lia).
    replace (- Z.of_nat (length (n_frac n)) + exp_value (n_exp n) + _) with (scale n) by (unfold scale; lia).
    unfold scaled_value. rewrite (proj2 (Z.ltb_lt _ _)) by done. by eexists.
  - assert (Hx : n_exp n <> None) by (intros E; rewrite E in Ee; done).
    rewrite (bool_decide_true _ Hx). cbn [andb].
    assert (E : negb (IsInt64 (exp_value (n_exp n))) || (2 ^ 61 - 1 <? exp_value (n_exp n)) || (exp_value (n_exp n) <? - 2 ^ 61) = true) by lia.
    rewrite E. by eexists.
Qed.

(** C26: [isRealNotation] accepts exactly decimal notation (a sign, digits with an
    optional point among or after them, an optional signed exponent), and
    [ParseRational] refuses anything else, reads what it accepts as exactly the
    number denoted, in lowest terms, and refuses only a number whose terms, or whose
    estimated size, exceed the budget, or whose exponent is out of range. *)
Theorem ParseRational_spec text mb :
  (isRealNotation text = true <-> exists n, notation_wf n /\ text = spell n)
  /\ (isRealNotation text = false -> ParseRational text mb = Err ErrRealNotation)
  /\ (1 <= mb -> forall n, notation_wf n -> text = spell n -> Z.of_nat (length text) < 2 ^ 60 ->
        if exp_fits n && (estimate n <=? mb)
        then sized_rat (ParseRational text mb) (value n) mb
        else exists b, ParseRational text mb = Err (ErrRationalSizeLimit b mb)).
Proof.
  split_and!.
  - split; [apply notation_inv|]. intros (n & Hn & ->). by apply notation_read.
  - intros E. unfold ParseRational. by rewrite E.
  - intros Hmb n Hn -> Hlen. pose proof (spell_length n Hn) as Hl.
    destruct (exp_fits n && (estimate n <=? mb)) eqn:E; [|by apply ParseRational_refused; [|lia| |]].
    apply andb_true_iff in E as [Ef He%Z.leb_le]. by apply ParseRational_sized; [|lia| | |].
Qed.

Lemma ParseRational_spec_witness :
  ParseRational (bs "-1.50e3") 64 = Ok (rational (-1500 # 1)).
Proof.
  destruct (ParseRational_spec (bs "-1.50e3") 64) as (_ & _ & H).
  specialize (H ltac:(lia) {| n_sign := bs "-"; n_whole := bs "1"; n_point := true; n_frac := bs "50"; n_exp := Some ("e"%ch, [], bs "3") |}).
  assert (Hs : sized_rat (ParseRational (bs "-1.50e3") 64) (-1500 # 1) 64); [|exact Hs].
  apply H; [|reflexivity|reflexivity]. split; cbn [n_sign n_whole n_point n_frac n_exp].
  - right. exists "-"%ch. split; reflexivity.
  - repeat constructor.
  - repeat constructor.
  - intros E. discriminate E.
  - intros E. discriminate E.
  - split; [reflexivity|]. split; [by left|]. split; [repeat constructor|]. intros E. discriminate E.
Defined.

(** The size estimated is no lower bound: this one needs 27 bits. *)
Lemma ParseRational_overestimate :
  ParseRational (bs "298023223876953125e-25") 64 = Err (ErrRationalSizeLimit 139 64)
  /\ ParseRational (bs "298023223876953125e-25") 139 = Ok (rational (1 # 2 ^ 25))
  /\ rat_bits (qrat (1 # 2 ^ 25)) = 27.
Proof. by vm_compute. Qed.

(** ** Writing *)

(** The notation [formatDecimal] writes for [n] times 10 to the [-k]. *)
Definition decimal_notation (n k : Z) : notation :=
  let sign := if n <? 0 then bs "-" else [] in
  let ds := decimal_text (Z.abs n) in
  if beq ds (bs "0") then {| n_sign := []; n_whole := bs "0"; n_point := true; n_frac := bs "0"; n_exp := None |}
  else
    let t := trim_right (bs "0") ds in
    let k := k - (Z.of_nat (length ds) - Z.of_nat (length t)) in
    let len := Z.of_nat (length t) in
    let exp := len - k - 1 in
    if (exp <? -4) || (21 <=? exp) then
      let e := decimal_text (Z.abs exp) in
      {| n_sign := sign; n_whole := take 1 t; n_point := 1 <? len; n_frac := drop 1 t;
         n_exp := Some ("e"%ch, if exp <? 0 then bs "-" else bs "+", if (length e <? 2)%nat then bs "0" ++ e else e) |}
    else if k <=? 0 then
      {| n_sign := sign; n_whole := t ++ zeros_text (- k); n_point := true; n_frac := bs "0"; n_exp := None |}
    else if k <? len then
      {| n_sign := sign; n_whole := take (Z.to_nat (len - k)) t; n_point := true;
         n_frac := drop (Z.to_nat (len - k)) t; n_exp := None |}
    else {| n_sign := sign; n_whole := bs "0"; n_point := true; n_frac := zeros_text (k - len) ++ t; n_exp := None |}.

Lemma spell_decimal_notation n k : spell (decimal_notation n k) = formatDecimal n k.
Proof.
  unfold decimal_notation, formatDecimal. cbv zeta. destruct (beq _ _); [done|]. set (t := trim_right _ _).
  set (exp := Z.of_nat (length t) - _ - 1). destruct ((exp <? -4) || (21 <=? exp)).
  - unfold spell. cbn [n_sign n_whole n_point n_frac n_exp exp_text]. f_equal. by rewrite <- app_assoc.
  - destruct (_ <=? 0); [unfold spell; cbn; by rewrite <- app_assoc|].
    destruct (_ <? _); unfold spell; cbn [n_sign n_whole n_point n_frac n_exp exp_text point_text]; by rewrite app_nil_r.
Qed.

Lemma decimal_text_digits z : 0 <= z ->
  digits (decimal_text z) /\ decimal_text z <> [] /\ decimal (decimal_text z) = z.
Proof.
  intros Hz. unfold decimal_text. rewrite (proj2 (Z.ltb_ge _ _)) by done. cbn [app].
  destruct (digits_abs z) as (ds & -> & H1 & H2 & H3). split_and!; [done|done|lia].
Qed.

Lemma digits_zeros n : digits (zeros_text n).
Proof. unfold zeros_text, digits. apply Forall_forall. intros c Hc%list_elem_of_In%repeat_spec. by subst. Qed.

Lemma decimal_repeat n : decimal (repeat "0"%ch n) = 0.
Proof.
  induction n as [|n IH]; [done|]. cbn [repeat].
  change ("0"%ch :: repeat "0"%ch n) with (["0"%ch] ++ repeat "0"%ch n). rewrite decimal_app, IH. done.
Qed.

Lemma decimal_zeros n : decimal (zeros_text n) = 0.
Proof. apply decimal_repeat. Qed.
Lemma length_zeros n : 0 <= n -> Z.of_nat (length (zeros_text n)) = n.
Proof. intros Hn. unfold zeros_text. rewrite repeat_length. lia. Qed.

(** The digits written, in each layout. *)
Lemma decimal_notation_wf n k : notation_wf (decimal_notation n k).
Proof.
  unfold decimal_notation. cbv zeta. destruct (decimal_text_digits (Z.abs n) ltac:(lia)) as (Hd & Hne & Hv).
  assert (Hs : sign_text (if n <? 0 then bs "-" else [])).
  { destruct (n <? 0); [right; by exists "-"%ch|by left]. }
  destruct (beq _ _) eqn:Eb.
  { split; cbn [n_sign n_whole n_point n_frac n_exp]; [by left|by repeat constructor|by repeat constructor|done|done|done]. }
  destruct (trim_right_zeros _ Hd) as (z & Ez & Ht & Hvt & _). set (t := trim_right _ _) in *.
  assert (Htne : t <> []).
  { intros E. rewrite E in Ez, Hvt. rewrite Hv in Hvt. change (decimal []) with 0 in Hvt.
    assert (En : Z.abs n = 0) by lia. rewrite En in Eb. done. }
  assert (Htd : forall m, digits (take m t) /\ digits (drop m t)).
  { intros m. rewrite <- (take_drop m t) in Ht. by apply Forall_app in Ht. }
  set (len := Z.of_nat (length t)). set (k' := k - _). destruct ((_ <? -4) || _) eqn:Eexp.
  - split; cbn [n_sign n_whole n_point n_frac n_exp]; [done|by apply Htd|by apply Htd| | |].
    + intros E. apply Z.ltb_ge in E. apply drop_ge. lia.
    + by rewrite take_drop.
    + destruct (decimal_text_digits (Z.abs (len - k' - 1)) ltac:(lia)) as (He & Hene & _). split_and!.
      * done.
      * destruct (len - k' - 1 <? 0); right; [exists "-"%ch|exists "+"%ch]; split; reflexivity.
      * destruct (_ <? 2)%nat; [|done]. apply Forall_app. by repeat constructor.
      * by destruct (_ <? 2)%nat.
  - destruct (k' <=? 0); [|destruct (k' <? len)].
    + split; cbn [n_sign n_whole n_point n_frac n_exp]; [done| |by repeat constructor|done| |done].
      * apply Forall_app. split; [done|apply digits_zeros].
      * by destruct t.
    + split; cbn [n_sign n_whole n_point n_frac n_exp]; [done|by apply Htd|by apply Htd|done| |done]. by rewrite take_drop.
    + split; cbn [n_sign n_whole n_point n_frac n_exp]; [done|by repeat constructor| |done|done|done].
      apply Forall_app. split; [apply digits_zeros|done].
Qed.

Lemma exp_value_written exp :
  exp_value (Some ("e"%ch, if exp <? 0 then bs "-" else bs "+",
    if (length (decimal_text (Z.abs exp)) <? 2)%nat then bs "0" ++ decimal_text (Z.abs exp) else decimal_text (Z.abs exp))) = exp.
Proof.
  destruct (decimal_text_digits (Z.abs exp) ltac:(lia)) as (_ & _ & Hv). cbn [exp_value].
  assert (E : decimal (if (length (decimal_text (Z.abs exp)) <? 2)%nat then bs "0" ++ decimal_text (Z.abs exp)
                       else decimal_text (Z.abs exp)) = Z.abs exp).
  { destruct (_ <? 2)%nat; [|done]. by rewrite decimal_app, Hv. }
  rewrite E. destruct (Z.ltb_spec exp 0).
  - rewrite bool_decide_true by done. lia.
  - rewrite bool_decide_false by done. lia.
Qed.

Lemma ten_add a b : (inject_Z 10 ^ a * inject_Z 10 ^ b == inject_Z 10 ^ (a + b))%Q.
Proof. rewrite Qpower_plus by exact ten_nonzero. reflexivity. Qed.

Lemma decimal_notation_value n k : (value (decimal_notation n k) == inject_Z n * inject_Z 10 ^ (- k))%Q.
Proof.
  unfold decimal_notation. cbv zeta. destruct (decimal_text_digits (Z.abs n) ltac:(lia)) as (Hd & Hne & Hv).
  destruct (beq _ _) eqn:Eb.
  { apply beq_true in Eb. rewrite Eb in Hv. change (decimal (bs "0")) with 0 in Hv. assert (n = 0) as -> by lia.
    rewrite value_zero by done. change (inject_Z 0) with 0%Q. ring. }
  destruct (trim_right_zeros _ Hd) as (z & Ez & Ht & Hvt & _). set (t := trim_right _ _) in *. rewrite Hv in Hvt.
  assert (Hlen : Z.of_nat (length (decimal_text (Z.abs n))) - Z.of_nat (length t) = Z.of_nat z).
  { rewrite Ez at 1. rewrite length_app, repeat_length. lia. }
  rewrite Hlen. set (len := Z.of_nat (length t)). set (k' := k - Z.of_nat z).
  set (sg := if n <? 0 then -1 else 1).
  assert (Hneg : forall w p f e, (if negative {| n_sign := if n <? 0 then bs "-" else []; n_whole := w; n_point := p; n_frac := f; n_exp := e |}
    then -1 else 1) = sg).
  { intros. unfold negative, sg. cbn [n_sign]. by destruct (n <? 0). }
  assert (Hn : n = sg * (decimal t * 10 ^ Z.of_nat z)) by (unfold sg; destruct (n <? 0) eqn:E; lia).
  assert (Hgoal : forall w p f e E, decimal (w ++ f) = decimal t * 10 ^ E -> 0 <= E ->
    E + (exp_value e - Z.of_nat (length f)) = - k' ->
    (value {| n_sign := if (n <? 0)%Z then bs "-" else []; n_whole := w; n_point := p; n_frac := f; n_exp := e |}
     == inject_Z n * inject_Z 10 ^ (- k))%Q).
  { intros w p f e E HE HE0 Hk. unfold value, significand. rewrite Hneg. cbn [n_whole n_frac n_exp]. rewrite HE.
    rewrite Hn at 1. rewrite !Z.mul_assoc. rewrite !pow_shift by lia.
    replace (exp_value e - Z.of_nat (length f) + E) with (- k + Z.of_nat z) by (unfold k' in Hk; lia). reflexivity. }
  destruct ((_ <? -4) || _) eqn:Eexp.
  - apply (Hgoal _ _ _ _ 0); [rewrite take_drop; lia|lia|]. rewrite exp_value_written, length_drop.
    destruct t; [|unfold len; cbn [length] in *; lia]. exfalso. unfold len in *. cbn in *.
    change (decimal []) with 0 in Hvt. assert (En : Z.abs n = 0) by lia. rewrite En in Eb. done.
  - destruct (Z.leb_spec k' 0); [|destruct (Z.ltb_spec k' len)].
    + apply (Hgoal _ _ _ _ (- k' + 1)); [|lia|cbn [exp_value length bs]; change (Z.of_nat (length (bs "0"))) with 1; lia].
      rewrite decimal_app, decimal_app, decimal_zeros, length_zeros by lia. change (decimal (bs "0")) with 0.
      change (Z.of_nat (length (bs "0"))) with 1. rewrite Z.pow_add_r by lia. lia.
    + apply (Hgoal _ _ _ _ 0); [rewrite take_drop; lia|lia|]. cbn [exp_value]. rewrite length_drop. unfold len in *. lia.
    + apply (Hgoal _ _ _ _ 0); [|lia|].
      * rewrite !decimal_app, decimal_zeros. change (decimal (bs "0")) with 0. lia.
      * cbn [exp_value]. rewrite length_app, Nat2Z.inj_add, length_zeros by lia. unfold len in *. lia.
Qed.

Lemma divide_out_spec fuel p d :
  1 < p -> 0 < d ->
  let '(k, r) := divide_out fuel p d in 0 <= k /\ d = p ^ k * r /\ 0 < r.
Proof.
  intros Hp. revert d. induction fuel as [|fuel IH]; intros d Hd; cbn [divide_out]; [by split_and!; lia|].
  destruct (Z.eqb_spec (d mod p) 0) as [E|]; [|by split_and!; lia].
  assert (Hdp : d = p * (d / p)) by (pose proof (Z.div_mod d p ltac:(lia)); lia).
  assert (Hq : 0 < d / p) by (destruct (Z.le_gt_cases (d / p) 0); [nia|done]).
  specialize (IH (d / p) Hq). destruct (divide_out fuel p (d / p)) as [k r]. destruct IH as (H1 & H2 & H3).
  split_and!; [lia| |done]. rewrite Z.pow_add_r, Z.pow_1_r by lia. rewrite Hdp at 1. rewrite H2 at 1. ring.
Qed.

(** The powers of 2 and 5 in a denominator, and what else divides it. *)
Definition twos_fives (d : Z) : Z * Z * Z :=
  let fuel := Z.to_nat (BitLen d) in
  let '(twos, d1) := divide_out fuel 2 d in
  let '(fives, d2) := divide_out fuel 5 d1 in (twos, fives, d2).

(** The notation a Rational that is a finite decimal is written in. *)
Definition printed (q : Q) : notation :=
  let r := qrat q in
  let '(twos, fives, _) := twos_fives (Denom r) in
  let k := Z.max twos fives in decimal_notation (Z.quot (Num r * 10 ^ k) (Denom r)) k.
Definition finite_decimal (q : Q) : bool := let '(_, _, rest) := twos_fives (Denom (qrat q)) in rest =? 1.

Lemma FormatRational_text q :
  FormatRational (rational q) =
    if finite_decimal q then spell (printed q)
    else decimal_text (Num (qrat q)) ++ bs "/" ++ decimal_text (Denom (qrat q)).
Proof.
  destruct (terms_exact (rational q) q (exact_rat q)) as [En Ed]. unfold FormatRational, finite_decimal, printed, twos_fives.
  rewrite En, Ed. assert (Hb : forall z, BigInt (integer z) = z) by exact bigView_integer. rewrite !Hb.
  destruct (divide_out _ 2 _) as [twos d1]. destruct (divide_out _ 5 d1) as [fives d2].
  rewrite Cmp_cases, !FormatInt_integer, spell_decimal_notation.
  destruct (Z.eqb_spec d2 1) as [->|Hne]; [done|].
  destruct (d2 <? 1) eqn:E1; [done|]. destruct (1 <? d2) eqn:E2; [done|]. lia.
Qed.

Lemma printed_value q : finite_decimal q = true -> (value (printed q) == q)%Q.
Proof.
  unfold finite_decimal, printed, twos_fives. pose proof (qrat_lowest q) as [Hd _].
  pose proof (divide_out_spec (Z.to_nat (BitLen (Denom (qrat q)))) 2 (Denom (qrat q)) ltac:(lia) Hd) as H2.
  destruct (divide_out _ 2 _) as [a d1]. destruct H2 as (Ha & E2 & Hd1).
  pose proof (divide_out_spec (Z.to_nat (BitLen (Denom (qrat q)))) 5 d1 ltac:(lia) Hd1) as H5.
  destruct (divide_out _ 5 d1) as [c d2]. destruct H5 as (Hc & E5 & Hd2). intros ->%Z.eqb_eq. rewrite Z.mul_1_r in E5. subst d1.
  set (k := Z.max a c). rewrite decimal_notation_value.
  assert (Ek : 10 ^ k = Denom (qrat q) * (2 ^ (k - a) * 5 ^ (k - c))).
  { rewrite E2. change 10 with (2 * 5). rewrite Z.pow_mul_l by lia.
    replace k with (a + (k - a)) at 1 by lia. replace k with (c + (k - c)) at 2 by lia.
    rewrite !Z.pow_add_r by lia. ring. }
  assert (Eq : Z.quot (Num (qrat q) * 10 ^ k) (Denom (qrat q)) = Num (qrat q) * (2 ^ (k - a) * 5 ^ (k - c))).
  { rewrite Ek. replace (Num (qrat q) * (Denom (qrat q) * _)) with (Num (qrat q) * (2 ^ (k - a) * 5 ^ (k - c)) * Denom (qrat q)) by ring.
    apply Z.quot_mul. lia. }
  rewrite Eq, <- pow_frac by lia. rewrite Ek.
  transitivity (rat_Q (qrat q)); [|apply rat_Q_qrat].
  assert (0 < 2 ^ (k - a) * 5 ^ (k - c)) by (apply Z.mul_pos_pos; apply Z.pow_pos_nonneg; lia).
  set (m := 2 ^ (k - a) * 5 ^ (k - c)) in *. rewrite !inject_Z_mult. unfold rat_Q.
  rewrite (Qmake_Qdiv (Num (qrat q))), Z2Pos.id by done. field.
  split; intros H0; unfold Qeq, inject_Z in H0; cbn [Qnum Qden] in H0; lia.
Qed.

(** The bytes of decimal text, none a slash. *)
Lemma slash_free ds : digits ds -> "/"%ch ∉ ds.
Proof. intros H. by apply (digits_no_byte ds "/"%ch H). Qed.

Lemma sign_slash_free s : sign_text s -> "/"%ch ∉ s.
Proof. intros [->|(c & -> & Hc)]; [set_solver|]. intros E%list_elem_of_singleton. by subst c. Qed.

Lemma spell_slash_free n : notation_wf n -> "/"%ch ∉ spell n.
Proof.
  intros [Hs Hw Hf Hp Hne He]. unfold spell. rewrite !not_elem_of_app. split_and!.
  - by apply sign_slash_free.
  - by apply slash_free.
  - destruct (n_point n); cbn [point_text]; [|set_solver]. rewrite not_elem_of_cons. split; [done|by apply slash_free].
  - destruct (n_exp n) as [[[c s] ds]|]; cbn [exp_text]; [|set_solver]. destruct He as (Hc & Hss & Hds & _).
    rewrite not_elem_of_cons, not_elem_of_app. split_and!; [by intros <-|by apply sign_slash_free|by apply slash_free].
Qed.

Lemma decimal_text_slash_free z : "/"%ch ∉ decimal_text z.
Proof.
  unfold decimal_text. destruct (digits_abs z) as (ds & -> & _ & _ & Hd). rewrite not_elem_of_app. split.
  - destruct (z <? 0); [|set_solver]. by intros ?%list_elem_of_singleton.
  - by apply slash_free.
Qed.

(** C27: what is written for a Rational is read back as it: as a decimal when it
    is a finite one, in positional or exponent layout, and as a fraction otherwise;
    provided its terms, and for a decimal the reader's size estimate, are within the
    budget. *)
Theorem FormatRational_read q mb :
  rat_bits (qrat q) <= mb -> 1 <= mb ->
  (finite_decimal q = true -> exp_fits (printed q) && (estimate (printed q) <=? mb) = true
     /\ Z.of_nat (length (FormatRational (rational q))) < 2 ^ 60) ->
  ParseRationalText (FormatRational (rational q)) mb = Ok (rational q).
Proof.
  intros Hbits Hmb Hfin. rewrite FormatRational_text in *. unfold ParseRationalText. destruct (finite_decimal q) eqn:Ef.
  - destruct (Hfin eq_refl) as [Hest Hlen]. assert (Hwf : notation_wf (printed q)).
    { unfold printed. destruct (twos_fives _) as [[a c] e]. apply decimal_notation_wf. }
    change (bs "/") with ["/"%ch]. unfold cut. rewrite index_byte_none by by apply spell_slash_free.
    apply andb_true_iff in Hest as [Hfit Hest%Z.leb_le]. pose proof (spell_length _ Hwf) as Hl.
    pose proof (ParseRational_sized (printed q) mb Hwf ltac:(lia) Hmb Hfit Hest) as H.
    rewrite printed_value in H by done. unfold sized_rat in H. by rewrite (proj2 (Z.leb_le _ _)) in H.
  - change (bs "/") with ["/"%ch]. change (["/"%ch] ++ decimal_text (Denom (qrat q))) with ("/"%ch :: decimal_text (Denom (qrat q))).
    rewrite cut_byte by apply decimal_text_slash_free.
    rewrite !ParseInteger_text. cbn [fmap option_fmap option_map]. rewrite IntSign_integer. pose proof (qrat_lowest q) as [Hd _].
    rewrite (proj2 (Z.eqb_neq _ _)) by lia.
    assert (Eq : (inject_Z (Num (qrat q)) / inject_Z (Denom (qrat q)) == q)%Q).
    { rewrite <- (rat_Q_qrat q) at 3. unfold rat_Q. by rewrite (Qmake_Qdiv (Num (qrat q))), Z2Pos.id. }
    pose proof (RatArith_result OpDiv _ _ _ _ _ mb (exact_int (Num (qrat q))) (exact_int (Denom (qrat q))) eq_refl) as H.
    rewrite Eq in H. unfold sized_rat in H. rewrite (proj2 (Z.leb_le _ _)) in H by done. apply H.
    intros _ H0. unfold Qeq, inject_Z in H0. cbn [Qnum Qden] in H0. lia.
Qed.

Lemma FormatRational_read_witness :
  ParseRationalText (FormatRational (rational (-5 # 4))) 64 = Ok (rational (-5 # 4))
  /\ ParseRationalText (FormatRational (rational (1 # 3))) 64 = Ok (rational (1 # 3)).
Proof.
  split; apply FormatRational_read; vm_compute; (discriminate || (intros H; split; reflexivity) || (intros H; discriminate H)).
Defined.
