(* ===== verification/Real.v ===== *)
(** * Exact numbers and Reals

    Models the conversions between exact numbers and binary64
    ([internal/semantic/semantics], [eval.go], [integer.go] and [rational.go]): the
    nearest Real of an Integer or a Rational ([AsReal]), the exact number a Real is
    ([WholeNumber], [IntegerOfReal], [RationalOfReal]), the order of an exact number
    and a Real ([CompareReal]) and the canonical spelling of a Rational
    ([CanonicalRational]). *)
From Stdlib Require Import Floats.SpecFloat.
From S2P Require Import Prelude Bytes Machine Integer Rational Decimal.
Local Open Scope Z_scope.

(** ** [math] and [math/big] *)

Abbreviation fdiv := (SFdiv prec emax).
Definition real_zero : spec_float := S754_zero false.
Definition IsNaN (f : spec_float) : bool := match f with S754_nan => true | _ => false end.
Definition IsInf (f : spec_float) : bool := match f with S754_infinity _ => true | _ => false end.
Definition signed_Z (s : bool) (z : Z) : Z := if s then - z else z.

(** [math.Trunc]. *)
Definition Trunc (f : spec_float) : spec_float :=
  match f with
  | S754_finite s m e =>
      if 0 <=? e then f else binary_normalize prec emax (signed_Z s (Zpos m / 2 ^ (- e))) 0 s
  | _ => f
  end.

(** [big.Float.Cmp] of an Integer and a Real other than a NaN. *)
Definition Float_Cmp (z : Z) (r : spec_float) : Z :=
  match r with
  | S754_zero _ | S754_nan => Cmp z 0
  | S754_infinity s => if s then 1 else -1
  | S754_finite s m e =>
      if 0 <=? e then Cmp z (signed_Z s (Zpos m * 2 ^ e)) else Cmp (z * 2 ^ (- e)) (signed_Z s (Zpos m))
  end.

(** [big.Rat.Float64]: the nearest binary64, ties to even, and whether it is the number. *)
Definition nearest_quotient (n d : Z) : spec_float :=
  if n =? 0 then real_zero
  else let '(m, e, l) := SFdiv_core_binary prec emax (Z.abs n) 0 d 0 in binary_round_aux prec emax (n <? 0) m e l.
Definition is_quotient (f : spec_float) (n d : Z) : bool :=
  match f with
  | S754_zero _ => n =? 0
  | S754_finite s m e =>
      if 0 <=? e then signed_Z s (Zpos m) * 2 ^ e * d =? n else signed_Z s (Zpos m) * d =? n * 2 ^ (- e)
  | _ => false
  end.
Definition Rat_Float64 (r : Rat) : spec_float * bool :=
  let f := nearest_quotient r.(Num) r.(Denom) in (f, is_quotient f r.(Num) r.(Denom)).

(** [big.Rat.SetFloat64] of a finite Real, [big.Float.Int] of a whole one. *)
Definition Rat_SetFloat64 (r : spec_float) : Rat :=
  match r with
  | S754_finite s m e =>
      if 0 <=? e then SetInt (signed_Z s (Zpos m) * 2 ^ e) else SetFrac (signed_Z s (Zpos m)) (2 ^ (- e))
  | _ => SetInt 0
  end.

(** [int64(frac*(1<<53))] and [exp-53] of [math.Frexp]. *)
Definition Frexp53 (r : spec_float) : Z * Z :=
  match r with
  | S754_finite s m e =>
      let d := Zpos (digits2_pos m) in (signed_Z s (Zpos m * 2 ^ (prec - d)), d + e - prec)
  | _ => (0, 0)
  end.

(** [bits.TrailingZeros64] of a number other than zero. *)
Fixpoint pos_zeros (p : positive) : Z := match p with xO q => 1 + pos_zeros q | _ => 0 end.
Definition TrailingZeros64 (n : Z) : Z := match n with Zpos p | Zneg p => pos_zeros p | 0 => 64 end.

(** [cmp.Compare]: a NaN is below every other Real. *)
Definition cmp_Compare (x y : spec_float) : Z :=
  if IsNaN x then (if IsNaN y then 0 else -1)
  else if IsNaN y then 1
  else if SFltb x y then -1 else if SFltb y x then 1 else 0.

(** ** Exact to Real *)

Definition intToFloat (v : Value) : spec_float :=
  match v.(ext) with None => f64 v.(Int) 0 | Some r => f64 r.(Num) 0 end.

Definition ratToFloat (v : Value) : spec_float :=
  match small v with
  | Some (num, d) =>
      if (abs64 num <=? Z.shiftl 1 53) && (d <=? Z.shiftl 1 53) then fdiv (f64 num 0) (f64 d 0)
      else fst (Rat_Float64 (ratView v))
  | None => fst (Rat_Float64 (ratView v))
  end.

(** A Value that is a Real. *)
Definition real_value (f : spec_float) : Value :=
  {| vKind := ValReal; vBool := false; den := 0; Int := 0; Real := f; ext := None |}.

Definition AsReal (v : Value) : spec_float :=
  match v.(vKind) with
  | ValInt => intToFloat v
  | ValRational => ratToFloat v
  | _ => v.(Real)
  end.

(** ** Order *)

Definition CompareIntReal (a : Value) (r : spec_float) : Z :=
  match r with
  | S754_infinity false => -1
  | S754_infinity true => 1
  | _ =>
      if is_none a.(ext) && (- Z.shiftl 1 53 <=? a.(Int)) && (a.(Int) <=? Z.shiftl 1 53) then
        let f := f64 a.(Int) 0 in
        if SFltb f r then -1 else if SFltb r f then 1 else 0
      else Float_Cmp (bigView a) r
  end.

Definition CompareReal (v : Value) (r : spec_float) : Z :=
  if is_int v then CompareIntReal v r else cmp_Compare (ratToFloat v) r.

(** ** Real to exact *)

Definition two63 : spec_float := f64 (2 ^ 63) 0.
Definition min63 : spec_float := f64 MinInt64 0.
Definition outside_int64 (r : spec_float) : bool := SFleb two63 r || SFltb r min63.

Definition WholeNumber (v : Value) : option Z :=
  match v.(vKind) with
  | ValInt => Int64 v
  | ValRational => if negb (RatIsWhole v) then None else Int64 (RatNumer v)
  | ValReal =>
      if negb (SFeqb v.(Real) (Trunc v.(Real))) || outside_int64 v.(Real) then None
      else Some (truncate v.(Real))
  | _ => None
  end.

Definition IntegerOfReal (r : spec_float) : option Value :=
  if IsNaN r || IsInf r || negb (SFeqb r (Trunc r)) then None
  else if outside_int64 r then Some (BigIntValue (truncate r))
  else Some (IntValue (truncate r)).

Definition RationalOfReal (r : spec_float) : option Value :=
  if IsNaN r || IsInf r then None
  else if SFeqb r (Trunc r) && SFltb (SFabs r) (f64 (Z.shiftl 1 53) 0) then Some (rat_inline (truncate r) 1)
  else
    let '(m, e) := Frexp53 r in
    let tz := TrailingZeros64 m in
    let m := Z.shiftr m tz in
    let e := e + tz in
    if (e <? 0) && (-31 <=? e) then Some (rat_inline m (Z.shiftl 1 (- e)))
    else Some (RatValue (Rat_SetFloat64 r)).

(** ** The canonical form *)

Definition BinaryExact (v : Value) : option spec_float :=
  if negb (IsRational v) then None
  else let '(f, exact) := Rat_Float64 (ratView v) in if exact && negb (IsInf f) then Some f else None.

(** [RationalToProto] of [internal/frontend/protoconv]: the numerator and the denominator
    a service sends of a Rational that is no binary64. *)
Definition RationalToProto (v : Value) : bytes * bytes := (FormatInt (RatNumer v), FormatInt (RatDenom v)).

Definition CanonicalRational (numerator denominator : bytes) : option Value :=
  v ← LowestTermsRational numerator denominator;
  match BinaryExact v with Some _ => None | None => Some v end.
