(* ===== verification/RealFacts.v ===== *)
(** * Exact numbers and Reals: properties

    A finite binary64 is a rational number, [real_Q]; Go's comparisons of Reals
    are its order, and the conversions between exact numbers and Reals are read
    off it. *)
From Stdlib Require Import Floats.SpecFloat QArith Qpower.
From S2P Require Import Prelude Bytes Machine Integer IntegerFacts Rational RationalFacts Decimal Real.
Local Open Scope Z_scope.

(** ** The number a Real is *)

Definition is_finite (f : spec_float) : bool :=
  match f with S754_zero _ | S754_finite _ _ _ => true | _ => false end.
Definition real_Q (f : spec_float) : Q :=
  match f with S754_finite s m e => (inject_Z (signed_Z s (Zpos m)) * inject_Z 2 ^ e)%Q | _ => 0%Q end.

(** A binary64 value: what every operation of Go's [float64] yields. *)
Definition valid (f : spec_float) : Prop := valid_binary prec emax f = true.

(** It is a whole number of the least positive Real, [2^-1074]. *)
Definition units (f : spec_float) : Z :=
  match f with S754_finite s m e => signed_Z s (Zpos m * 2 ^ (e + 1074)) | _ => 0 end.

Lemma two_nonzero : ~ (inject_Z 2 == 0)%Q.
Proof. by vm_compute. Qed.
Lemma two_pow k : 0 <= k -> (inject_Z 2 ^ k == inject_Z (2 ^ k))%Q.
Proof. intros Hk. by rewrite Zpower_Qpower. Qed.

Lemma digits_log2 m : Zpos (digits2_pos m) = Z.log2 (Zpos m) + 1.
Proof.
  induction m as [m IH|m IH|]; cbn [digits2_pos]; [| |done].
  - rewrite Pos2Z.inj_succ, IH, (Pos2Z.inj_xI m), Z.log2_succ_double by lia. lia.
  - rewrite Pos2Z.inj_succ, IH, (Pos2Z.inj_xO m), Z.log2_double by lia. lia.
Qed.

Lemma Zdigits2_log2 z : z <> 0 -> Zdigits2 z = Z.log2 (Z.abs z) + 1.
Proof. intros Hz. destruct z; [done|apply digits_log2..]. Qed.

Lemma digits_bounds m : 2 ^ (Zpos (digits2_pos m) - 1) <= Zpos m < 2 ^ Zpos (digits2_pos m).
Proof. rewrite digits_log2, Z.add_simpl_r, Z.add_1_r. apply Z.log2_spec. lia. Qed.

Lemma digits_unique m d : 2 ^ (d - 1) <= Zpos m < 2 ^ d -> 1 <= d -> Zpos (digits2_pos m) = d.
Proof.
  intros [H1 H2] Hd. rewrite digits_log2. rewrite (Z.log2_unique (Zpos m) (d - 1)); [lia|lia|].
  replace (Z.succ (d - 1)) with d by lia. lia.
Qed.

(** The mantissa and exponent of a binary64. *)
Lemma canonical_spec m e :
  canonical_mantissa prec emax m e = true <-> -1074 <= e /\ Zpos m < 2 ^ 53 /\ (-1074 < e -> 2 ^ 52 <= Zpos m).
Proof.
  unfold canonical_mantissa, fexp, emin. pose proof (digits_bounds m) as [H1 H2].
  set (d := Zpos (digits2_pos m)) in *. assert (1 <= d) by (unfold d; lia). rewrite Z.eqb_eq. split.
  - intros He. split_and!; [lia..| |].
    + eapply Z.lt_le_trans; [exact H2|]. apply Z.pow_le_mono_r; lia.
    + intros Hlt. assert (d = 53) as -> by lia. exact H1.
  - intros (He & Hm & Hn). assert (d <= 53).
    { apply Z.le_ngt. intros Hlt. assert (2 ^ 53 <= 2 ^ (d - 1)); [apply Z.pow_le_mono_r; lia|lia]. }
    destruct (Z.eq_dec e (-1074)); [lia|]. assert (53 <= d); [|lia].
    apply Z.le_ngt. intros Hlt. assert (2 ^ d <= 2 ^ 52); [apply Z.pow_le_mono_r; lia|]. lia.
Qed.

Lemma bounded_canonical m e : bounded prec emax m e = true -> canonical_mantissa prec emax m e = true.
Proof. by intros [? _]%andb_true_iff. Qed.

Lemma bounded_spec m e :
  bounded prec emax m e = true <->
  -1074 <= e <= 971 /\ Zpos m < 2 ^ 53 /\ (-1074 < e -> 2 ^ 52 <= Zpos m).
Proof. unfold bounded. rewrite andb_true_iff, canonical_spec, Z.leb_le. lia. Qed.

Lemma real_Q_units f : valid f -> (real_Q f * inject_Z (2 ^ 1074) == inject_Z (units f))%Q.
Proof.
  destruct f as [s|s| |s m e]; intros Hv; cbn [real_Q units]; [by rewrite Qmult_0_l..|].
  apply bounded_spec in Hv as [He _]. rewrite <- (two_pow 1074), <- Qmult_assoc, <- Qpower_plus by (done || apply two_nonzero).
  rewrite two_pow, <- inject_Z_mult by lia. unfold signed_Z. by destruct s; rewrite ?Z.mul_opp_l.
Qed.

Lemma units_Q f g : valid f -> valid g -> (real_Q f ?= real_Q g)%Q = (units f ?= units g).
Proof.
  intros Hf Hg. assert (Hp : (0 < inject_Z (2 ^ 1074))%Q) by reflexivity.
  pose proof (real_Q_units f Hf) as Ef. pose proof (real_Q_units g Hg) as Eg.
  generalize dependent (inject_Z (2 ^ 1074)). intros c Hp Ef Eg.
  destruct (Qcompare_spec (real_Q f) (real_Q g)) as [H|H|H]; symmetry.
  - apply Z.compare_eq_iff, inject_Z_injective. by rewrite <- Ef, <- Eg, H.
  - apply Z.compare_lt_iff. rewrite Zlt_Qlt, <- Ef, <- Eg. by apply Qmult_lt_r.
  - apply Z.compare_gt_iff. rewrite Zlt_Qlt, <- Ef, <- Eg. by apply Qmult_lt_r.
Qed.

(** ** Comparison *)

Lemma valid_finite s m e : valid (S754_finite s m e) <-> bounded prec emax m e = true.
Proof. reflexivity. Qed.

(** The magnitude of a greater exponent is greater. *)
Lemma magnitude_lt m1 e1 m2 e2 :
  bounded prec emax m1 e1 = true -> bounded prec emax m2 e2 = true -> e1 < e2 ->
  Zpos m1 * 2 ^ (e1 + 1074) < Zpos m2 * 2 ^ (e2 + 1074).
Proof.
  intros (He1 & Hm1 & _)%bounded_spec (He2 & _ & Hm2)%bounded_spec He.
  replace (e2 + 1074) with ((e1 + 1074) + (e2 - e1)) by lia. rewrite (Z.pow_add_r 2 (e1 + 1074) (e2 - e1)) by lia.
  assert (0 < 2 ^ (e1 + 1074)) by (apply Z.pow_pos_nonneg; lia).
  assert (2 ^ 1 <= 2 ^ (e2 - e1)) by (apply Z.pow_le_mono_r; lia).
  specialize (Hm2 ltac:(lia)). change (2 ^ 53) with (2 ^ 52 * 2 ^ 1) in Hm1.
  assert (2 ^ 52 * 2 ^ 1 <= Zpos m2 * 2 ^ (e2 - e1)) by (apply Z.mul_le_mono_nonneg; lia).
  rewrite (Z.mul_comm (2 ^ (e1 + 1074)) (2 ^ (e2 - e1))), Z.mul_assoc. apply Z.mul_lt_mono_pos_r; lia.
Qed.

Lemma magnitude_pos m e : -1074 <= e -> 0 < Zpos m * 2 ^ (e + 1074).
Proof. intros He. assert (0 < 2 ^ (e + 1074)) by (apply Z.pow_pos_nonneg; lia). lia. Qed.

Lemma magnitude_same m1 m2 e : -1074 <= e ->
  (Zpos m1 * 2 ^ (e + 1074) ?= Zpos m2 * 2 ^ (e + 1074)) = (Zpos m1 ?= Zpos m2).
Proof. intros He. symmetry. apply Zmult_compare_compat_r. apply Z.lt_gt, Z.pow_pos_nonneg; lia. Qed.

(** Go's order of finite Reals is that of the numbers they are. *)
Lemma SFcompare_units f g :
  valid f -> valid g -> is_finite f = true -> is_finite g = true ->
  SFcompare f g = Some (units f ?= units g).
Proof.
  destruct f as [s1|s1| |s1 m1 e1], g as [s2|s2| |s2 m2 e2]; intros Hf Hg Ff Fg; try discriminate; cbn [SFcompare units].
  - done.
  - pose proof (proj1 (bounded_spec _ _) Hg) as H. pose proof (magnitude_pos m2 e2 ltac:(lia)). f_equal.
    symmetry. destruct s2; cbn [signed_Z]; [apply Z.compare_gt_iff|apply Z.compare_lt_iff]; lia.
  - pose proof (proj1 (bounded_spec _ _) Hf) as H. pose proof (magnitude_pos m1 e1 ltac:(lia)). f_equal.
    symmetry. destruct s1; cbn [signed_Z]; [apply Z.compare_lt_iff|apply Z.compare_gt_iff]; lia.
  - pose proof (proj1 (bounded_spec _ _) Hf) as Bf. pose proof (proj1 (bounded_spec _ _) Hg) as Bg.
    pose proof (magnitude_pos m1 e1 ltac:(lia)). pose proof (magnitude_pos m2 e2 ltac:(lia)). f_equal. symmetry.
    destruct s1, s2; cbn [signed_Z].
    + rewrite Z.compare_opp. destruct (Z.compare_spec e1 e2) as [->|He|He].
      * rewrite magnitude_same by lia. apply Pos.compare_antisym.
      * apply Z.compare_gt_iff. by apply magnitude_lt.
      * apply Z.compare_lt_iff. by apply magnitude_lt.
    + apply Z.compare_lt_iff. lia.
    + apply Z.compare_gt_iff. lia.
    + destruct (Z.compare_spec e1 e2) as [->|He|He].
      * by apply magnitude_same; lia.
      * apply Z.compare_lt_iff. by apply magnitude_lt.
      * apply Z.compare_gt_iff. by apply magnitude_lt.
Qed.

Lemma SFcompare_Q f g :
  valid f -> valid g -> is_finite f = true -> is_finite g = true ->
  SFcompare f g = Some (real_Q f ?= real_Q g)%Q.
Proof. intros. by rewrite SFcompare_units, units_Q. Qed.

(** ** Rounding an exact result *)

Lemma iter_pos_iter {A} (f : A -> A) p x : SpecFloat.iter_pos f p x = Pos.iter f x p.
Proof.
  revert x. induction p as [p IH|p IH|]; intros x; cbn [SpecFloat.iter_pos Pos.iter]; [| |done].
  - by rewrite !IH, !Pos.iter_swap.
  - by rewrite !IH.
Qed.

(** Shifting zeros out loses nothing. *)
Lemma shr_exact p m :
  SpecFloat.iter_pos shr_1 p {| shr_m := Zpos m * 2 ^ Zpos p; shr_r := false; shr_s := false |}
  = {| shr_m := Zpos m; shr_r := false; shr_s := false |}.
Proof.
  rewrite iter_pos_iter. induction p as [|p IH] using Pos.peano_ind; [by rewrite Z.mul_comm|].
  rewrite Pos.iter_succ_r, Pos2Z.inj_succ, Z.pow_succ_r by lia.
  assert (0 < 2 ^ Zpos p) by (apply Z.pow_pos_nonneg; lia).
  replace (Zpos m * (2 * 2 ^ Zpos p)) with (2 * (Zpos m * 2 ^ Zpos p)) by ring.
  destruct (Zpos m * 2 ^ Zpos p) as [|k|k] eqn:E; [lia| |lia].
  change (shr_1 _) with {| shr_m := Zpos k; shr_r := false; shr_s := false |}. exact IH.
Qed.

Lemma shr_fexp_exact q e' m e :
  canonical_mantissa prec emax m e = true -> e' <= e -> q = Zpos m * 2 ^ (e - e') ->
  shr_fexp prec emax q e' loc_Exact = ({| shr_m := Zpos m; shr_r := false; shr_s := false |}, e).
Proof.
  intros Hb He ->. unfold shr_fexp.
  assert (Hd : fexp prec emax (Zdigits2 (Zpos m * 2 ^ (e - e')) + e') = e).
  { assert (0 < 2 ^ (e - e')) by (apply Z.pow_pos_nonneg; lia).
    destruct (Zpos m * 2 ^ (e - e')) as [|q|q] eqn:Eq; [lia| |lia]. cbn [Zdigits2].
    rewrite (digits_unique q (Zpos (digits2_pos m) + (e - e'))); [|rewrite <- Eq|lia].
    - apply Z.eqb_eq in Hb.
      by replace (Zpos (digits2_pos m) + (e - e') + e') with (Zpos (digits2_pos m) + e) by lia.
    - pose proof (digits_bounds m). replace (Zpos (digits2_pos m) + (e - e') - 1) with (Zpos (digits2_pos m) - 1 + (e - e')) by lia.
      rewrite !Z.pow_add_r by lia. split; [apply Z.mul_le_mono_pos_r|apply Z.mul_lt_mono_pos_r]; lia. }
  rewrite Hd. cbn [shr_record_of_loc]. destruct (e - e') as [|p|p] eqn:Ed; [| |lia].
  - cbn [shr]. rewrite Z.mul_1_r. by replace e' with e by lia.
  - cbn [shr]. rewrite shr_exact, <- Ed. by replace (e' + (e - e')) with e by lia.
Qed.

(** An exact result that is a binary64 is that binary64. *)
Lemma round_exact s q e' m e :
  bounded prec emax m e = true -> e' <= e -> q = Zpos m * 2 ^ (e - e') ->
  binary_round_aux prec emax s q e' loc_Exact = S754_finite s m e.
Proof.
  intros Hb He Hq. unfold binary_round_aux. rewrite (shr_fexp_exact q e' m e) by (done || by apply bounded_canonical).
  cbn [shr_m loc_of_shr_record round_nearest_even].
  rewrite (shr_fexp_exact (Zpos m) e m e) by first [by apply bounded_canonical | lia | (rewrite Z.sub_diag; lia)].
  cbn [shr_m]. apply andb_true_iff in Hb as [_ ->]. done.
Qed.

(** ** Rounding yields a binary64 *)

Lemma shr_div p mrs : 0 <= shr_m mrs -> shr_m (SpecFloat.iter_pos shr_1 p mrs) = shr_m mrs / 2 ^ Zpos p.
Proof.
  intros Hm. rewrite iter_pos_iter. revert mrs Hm. induction p as [|p IH] using Pos.peano_ind; intros mrs Hm.
  - cbn [Pos.iter]. destruct mrs as [[|[m|m|]|m] r s]; cbn in Hm |- *; try done.
    + rewrite (Pos2Z.inj_xI m). by apply (Z.div_unique_pos _ _ _ 1); lia.
    + rewrite (Pos2Z.inj_xO m). by apply (Z.div_unique_pos _ _ _ 0); lia.
  - rewrite Pos.iter_succ, Pos2Z.inj_succ, Z.pow_succ_r, Z.mul_comm, <- Z.div_div by lia. rewrite <- IH by done.
    assert (0 <= shr_m (Pos.iter shr_1 mrs p)) by (rewrite IH by done; apply Z.div_pos; lia).
    generalize dependent (Pos.iter shr_1 mrs p). intros [[|[m|m|]|m] r s]; cbn; intros; try done.
    + rewrite (Pos2Z.inj_xI m). by apply (Z.div_unique_pos _ _ _ 1); lia.
    + rewrite (Pos2Z.inj_xO m). by apply (Z.div_unique_pos _ _ _ 0); lia.
Qed.

Lemma shr_fexp_down m e l :
  0 <= m -> e <= fexp prec emax (Zdigits2 m + e) ->
  exists mrs, shr_fexp prec emax m e l = (mrs, fexp prec emax (Zdigits2 m + e))
    /\ shr_m mrs = m / 2 ^ (fexp prec emax (Zdigits2 m + e) - e).
Proof.
  intros Hm He. unfold shr_fexp. set (fe := fexp _ _ _) in *.
  assert (Hr : shr_m (shr_record_of_loc m l) = m) by (by destruct l as [|[]]).
  destruct (fe - e) as [|p|p] eqn:Ed; [| |lia]; cbn [shr]; eexists; (split; [f_equal; lia|]).
  - by rewrite Z.div_1_r.
  - by rewrite shr_div, Hr by (rewrite Hr; lia).
Qed.

Lemma round_cases m l : round_nearest_even m l = m \/ round_nearest_even m l = m + 1.
Proof. destruct l as [|[]]; cbn; [by left| |by left|by right]. destruct (Z.even m); auto. Qed.

(** The mantissa after the first shift, rounded up or not. *)
Lemma shifted_canonical m e :
  let fe := fexp prec emax (Zdigits2 m + e) in
  0 <= m -> e <= fe -> 0 <= m / 2 ^ (fe - e) < 2 ^ 53 /\ -1074 <= fe /\ (-1074 < fe -> 2 ^ 52 <= m / 2 ^ (fe - e)).
Proof.
  intros fe Hm He. destruct (Z.eq_dec m 0) as [->|Hm0].
  { unfold fe, fexp, emin in *. cbn [Zdigits2] in *. rewrite Z.div_0_l by (apply Z.pow_nonzero; lia). lia. }
  assert (Hd : Zdigits2 m = Z.log2 m + 1) by (rewrite Zdigits2_log2, Z.abs_eq by lia; done).
  pose proof (Z.log2_spec m ltac:(lia)) as [L1 L2]. pose proof (Z.log2_nonneg m) as L0.
  assert (Hf : fe = Z.max (Z.log2 m + 1 + e - 53) (-1074)) by (unfold fe, fexp, emin; rewrite Hd; lia). clearbody fe.
  assert (Hp : 0 < 2 ^ (fe - e)) by (apply Z.pow_pos_nonneg; lia).
  split_and!; [by apply Z.div_pos; lia| |lia|].
  - apply Z.div_lt_upper_bound; [done|]. rewrite <- Z.pow_add_r by lia.
    eapply Z.lt_le_trans; [exact L2|]. apply Z.pow_le_mono_r; lia.
  - intros Hlt. apply Z.div_le_lower_bound; [done|]. rewrite <- Z.pow_add_r by lia.
    etransitivity; [|exact L1]. apply Z.pow_le_mono_r; lia.
Qed.

(** A binary64 that is not a NaN. *)
Definition real_number (f : spec_float) : Prop := valid f /\ IsNaN f = false.

Lemma round_valid s m e l :
  0 <= m -> e <= fexp prec emax (Zdigits2 m + e) -> real_number (binary_round_aux prec emax s m e l).
Proof.
  intros Hm He. unfold binary_round_aux. destruct (shr_fexp_down m e l Hm He) as (mrs & -> & Hs).
  destruct (shifted_canonical m e Hm He) as (H1 & H2 & H3). set (fe := fexp _ _ _) in *. clearbody fe.
  rewrite Hs. set (k := m / _) in *. clearbody k.
  assert (Hk : exists k', round_nearest_even k (loc_of_shr_record mrs) = k' /\ (k' = k \/ k' = k + 1))
    by (eexists; split; [done|apply round_cases]).
  destruct Hk as (k' & -> & Hk).
  assert (Hc : k' = 0 \/ exists p e', k' = Zpos p * 2 ^ (e' - fe) /\ fe <= e' /\ canonical_mantissa prec emax p e' = true).
  { destruct (Z.eq_dec k' 0) as [|H0]; [by left|right]. destruct (Z.eq_dec k' (2 ^ 53)) as [E|H53].
    - exists (Z.to_pos (2 ^ 52)), (fe + 1). split_and!; [|lia|].
      + replace (fe + 1 - fe) with 1 by lia. by rewrite E.
      + apply canonical_spec. rewrite Z2Pos.id by done. split_and!; [lia|done|done].
    - exists (Z.to_pos k'), fe. rewrite Z.sub_diag, Z.mul_1_r. split_and!; [lia..|]. apply canonical_spec. lia. }
  destruct Hc as [->|(p & e' & Hp & He' & Hc)].
  - assert (E : shr_fexp prec emax 0 fe loc_Exact = ({| shr_m := 0; shr_r := false; shr_s := false |}, fe)).
    { unfold shr_fexp, fexp, emin. cbn [Zdigits2 shr_record_of_loc]. destruct (Z.max _ _ - fe) as [|q|q] eqn:E; [done| |done]. lia. }
    rewrite E. done.
  - rewrite (shr_fexp_exact _ _ p e') by done. cbn [shr_m]. destruct (e' <=? emax - prec) eqn:El; [|done].
    split; [|done]. unfold valid. cbn [valid_binary]. unfold bounded. by rewrite Hc.
Qed.

(** ** Integers of at most 53 bits *)

Lemma shl_align_pos m e e' : e' <= e ->
  exists m', shl_align m e e' = (m', e') /\ Zpos m' = Zpos m * 2 ^ (e - e').
Proof.
  intros He. unfold shl_align. destruct (e' - e) as [|d|d] eqn:Ed; [|lia|].
  - exists m. split; [f_equal; lia|]. replace (e - e') with 0 by lia. lia.
  - exists (Pos.iter xO m d). split; [done|]. replace (e - e') with (Zpos d) by lia. rewrite Z.mul_comm. apply shift_pos_correct.
Qed.

(** The normalized mantissa and exponent of a whole number. *)
Definition scaled (z : Z) (m : positive) (e : Z) : Prop :=
  bounded prec emax m e = true /\ Zpos m * 2 ^ Z.max e 0 = Z.abs z * 2 ^ Z.max (- e) 0.

Lemma scaled_digits z m e : scaled z m e -> z <> 0 -> Zdigits2 z + 0 = Zpos (digits2_pos m) + e.
Proof.
  intros [Hb He] Hz. rewrite Z.add_0_r. pose proof (digits_bounds m) as Hm.
  rewrite Zdigits2_log2 by done.
  assert (Z.log2 (Zpos m * 2 ^ Z.max e 0) = Z.log2 (Z.abs z * 2 ^ Z.max (- e) 0)) as El by by rewrite He.
  rewrite !Z.log2_mul_pow2 in El by lia. rewrite digits_log2. lia.
Qed.

Lemma f64_scaled z m e : scaled z m e -> z <> 0 -> f64 z 0 = S754_finite (z <? 0) m e.
Proof.
  intros Hs Hz. pose proof (scaled_digits z m e Hs Hz) as Hd. destruct Hs as [Hb He].
  pose proof Hb as Hc. apply andb_true_iff in Hc as [Hc _]. apply Z.eqb_eq in Hc.
  assert (Hround : forall s p, Z.abs z = Zpos p -> binary_round prec emax s p 0 = S754_finite s m e).
  { intros s p Hp. unfold binary_round.
    assert (Zpos (digits2_pos p) + 0 = Zpos (digits2_pos m) + e) as -> by (rewrite <- Hd; destruct z; cbn [Z.abs] in Hp; [done|by injection Hp as ->..]).
    rewrite Hc. destruct (Z.le_gt_cases e 0) as [Hle|Hgt].
    - destruct (shl_align_pos p 0 e Hle) as (p' & -> & Hp').
      apply round_exact; [done|lia|]. rewrite Hp', <- Hp, Z.sub_diag. rewrite Z.max_r, Z.max_l in He by lia.
      rewrite He. by replace (0 - e) with (- e) by lia.
    - replace (shl_align p 0 e) with (p, 0) by (unfold shl_align; rewrite Z.sub_0_r; by destruct e).
      apply round_exact; [done|lia|]. rewrite Z.max_l, Z.max_r in He by lia. rewrite <- Hp, Z.sub_0_r. lia. }
  destruct z as [|p|p]; [done|by apply Hround..].
Qed.

Lemma scaled_exists z : z <> 0 -> Z.abs z <= 2 ^ 53 -> exists m e, scaled z m e /\ 2 ^ 52 <= Zpos m /\ -52 <= e <= 1.
Proof.
  intros Hz Hle. pose proof (Z.log2_spec (Z.abs z) ltac:(lia)) as [L1 L2].
  pose proof (Z.log2_nonneg (Z.abs z)) as L0. assert (L3 : Z.log2 (Z.abs z) <= 53).
  { rewrite <- (Z.log2_pow2 53) by lia. by apply Z.log2_le_mono. }
  set (l := Z.log2 (Z.abs z)) in *. destruct (Z.eq_dec l 53) as [E|Hl].
  - exists (Z.to_pos (2 ^ 52)), 1. split_and!; [|done..]. split; [done|].
    rewrite E in L1. assert (Z.abs z = 2 ^ 53) as -> by lia. done.
  - assert (Hp : 2 ^ 52 <= Z.abs z * 2 ^ (52 - l) < 2 ^ 53).
    { split.
      - replace (2 ^ 52) with (2 ^ l * 2 ^ (52 - l)) by (rewrite <- Z.pow_add_r by lia; f_equal; lia).
        apply Z.mul_le_mono_nonneg_r; [|done]. apply Z.pow_nonneg; lia.
      - replace (2 ^ 53) with (2 ^ Z.succ l * 2 ^ (52 - l)) by (rewrite <- Z.pow_add_r by lia; f_equal; lia).
        apply Z.mul_lt_mono_pos_r; [|done]. apply Z.pow_pos_nonneg; lia. }
    exists (Z.to_pos (Z.abs z * 2 ^ (52 - l))), (l - 52). split_and!; [|rewrite Z2Pos.id; lia|lia..].
    split; [apply bounded_spec|]; rewrite ?Z2Pos.id by lia; [lia|].
    rewrite Z.max_r, Z.max_l by lia. rewrite Z.mul_1_r. do 2 f_equal. lia.
Qed.

(** ** The nearest binary64 of an exact number *)

Lemma new_location_eq b r : 0 < b ->
  new_location b r = if r =? 0 then loc_Exact else loc_Inexact (2 * r ?= b).
Proof.
  intros Hb. unfold new_location, new_location_even, new_location_odd.
  destruct (Z.even b) eqn:Ev; destruct (r =? 0); try done. f_equal.
  assert (Ho : Z.odd b = true) by (by rewrite <- Z.negb_even, Ev). apply Z.odd_spec in Ho as [k ->].
  destruct (Z.compare_spec (2 * r + 1) (2 * k + 1)), (Z.compare_spec (2 * r) (2 * k + 1)); done || lia.
Qed.

(** Where a quotient falls depends on the ratio alone. *)
Lemma location_ratio a b a' b' :
  0 < b -> 0 < b' -> a * b' = a' * b ->
  a / b = a' / b' /\ new_location b (a mod b) = new_location b' (a' mod b').
Proof.
  intros Hb Hb' He.
  assert (Hq : a / b = a' / b').
  { rewrite <- (Z.div_mul_cancel_r a b b'), <- (Z.div_mul_cancel_r a' b' b) by lia. by rewrite He, (Z.mul_comm b). }
  split; [done|]. rewrite !new_location_eq by done.
  assert (Hr : a mod b * b' = a' mod b' * b).
  { pose proof (Z.div_mod a b ltac:(lia)). pose proof (Z.div_mod a' b' ltac:(lia)).
    rewrite !Z.mod_eq by lia. rewrite Hq. nia. }
  destruct (Z.eqb_spec (a mod b) 0), (Z.eqb_spec (a' mod b') 0); [done|nia..|]. f_equal.
  rewrite (Zmult_compare_compat_r (2 * (a mod b)) b b') by lia.
  rewrite (Zmult_compare_compat_r (2 * (a' mod b')) b' b) by lia.
  f_equal; lia.
Qed.

Lemma core_eq n e1 d e2 :
  0 < n -> 0 < d ->
  SFdiv_core_binary prec emax n e1 d e2
  = let e' := Z.min (fexp prec emax (Zdigits2 n + e1 - (Zdigits2 d + e2))) (e1 - e2) in
    let a := n * 2 ^ (e1 - e2 - e') in (a / d, e', new_location d (a mod d)).
Proof.
  intros Hn Hd. unfold SFdiv_core_binary. cbv zeta. set (e' := Z.min _ _). assert (0 <= e1 - e2 - e') by lia.
  destruct (e1 - e2 - e') as [|p|p] eqn:Es; [|rewrite Z.shiftl_mul_pow2 by lia|lia].
  - rewrite Z.mul_1_r. unfold Z.div, Z.modulo. by destruct (Z.div_eucl n d).
  - unfold Z.div, Z.modulo. by destruct (Z.div_eucl _ d).
Qed.

(** The quotient of a division rounds to a binary64. *)
Lemma core_valid s n e1 d e2 :
  0 < n -> 0 < d ->
  real_number (let '(m, e, l) := SFdiv_core_binary prec emax n e1 d e2 in binary_round_aux prec emax s m e l).
Proof.
  intros Hn Hd. rewrite core_eq by done. cbv zeta.
  set (D := Zdigits2 n + e1 - (Zdigits2 d + e2)). set (e' := Z.min _ _).
  assert (HD : D = Z.log2 n + e1 - (Z.log2 d + e2)) by (unfold D; rewrite !Zdigits2_log2, !Z.abs_eq by lia; lia).
  assert (He : e' <= fexp prec emax D /\ e' <= e1 - e2) by (unfold e'; lia). clearbody e' D.
  assert (Ha : Z.log2 (n * 2 ^ (e1 - e2 - e')) = e1 - e2 - e' + Z.log2 n) by (apply Z.log2_mul_pow2; lia).
  assert (0 < 2 ^ (e1 - e2 - e')) by (apply Z.pow_pos_nonneg; lia).
  set (a := n * 2 ^ (e1 - e2 - e')) in *. assert (Ha0 : 0 < a) by (unfold a; lia). clearbody a.
  assert (Hq0 : 0 <= a / d) by (apply Z.div_pos; lia).
  apply round_valid; [done|]. pose proof (Z.log2_spec a Ha0) as [A1 _]. pose proof (Z.log2_spec d Hd) as [_ D2].
  pose proof (Z.log2_nonneg d) as D0. destruct (Z.eq_dec (a / d) 0) as [E|E].
  - rewrite E. cbn [Zdigits2]. apply Z.div_small_iff in E; [|lia].
    assert (Z.log2 a < Z.succ (Z.log2 d)) by (apply (Z.pow_lt_mono_r_iff 2); lia). unfold fexp, emin in *. lia.
  - rewrite Zdigits2_log2, Z.abs_eq by lia. pose proof (Z.log2_spec (a / d) ltac:(lia)) as [_ Q2].
    pose proof (Z.mul_succ_div_gt a d Hd). pose proof (Z.log2_nonneg (a / d)).
    assert (Z.log2 a < Z.succ (Z.log2 d) + Z.succ (Z.log2 (a / d))); [|unfold fexp, emin in *; lia].
    apply (Z.pow_lt_mono_r_iff 2); [lia..|]. rewrite Z.pow_add_r by lia. nia.
Qed.

Lemma digits_53 m : 2 ^ 52 <= Zpos m -> Zpos m < 2 ^ 53 -> Zpos (digits2_pos m) = 53.
Proof. intros. apply digits_unique; lia. Qed.

(** Dividing the nearest Reals of two small Integers gives the nearest Real of
    their quotient. *)
Lemma core_scaled n d m1 e1 m2 e2 :
  0 < n -> 0 < d -> scaled n m1 e1 -> scaled d m2 e2 -> 2 ^ 52 <= Zpos m1 -> 2 ^ 52 <= Zpos m2 ->
  -52 <= e1 <= 1 -> -52 <= e2 <= 1 ->
  SFdiv_core_binary prec emax (Zpos m1) e1 (Zpos m2) e2 = SFdiv_core_binary prec emax n 0 d 0.
Proof.
  intros Hn Hd S1 S2 N1 N2 R1 R2. rewrite !core_eq by lia.
  rewrite (scaled_digits n m1 e1 S1), (scaled_digits d m2 e2 S2) by lia.
  change (Zdigits2 (Zpos ?m)) with (Zpos (digits2_pos m)).
  destruct S1 as [B1 M1], S2 as [B2 M2]. pose proof (proj1 (bounded_spec _ _) B1) as (_ & U1 & _).
  pose proof (proj1 (bounded_spec _ _) B2) as (_ & U2 & _). rewrite (digits_53 m1), (digits_53 m2) by done.
  unfold fexp, emin. cbv zeta. replace (Z.min _ (e1 - e2)) with (e1 - e2 - 53) by lia.
  replace (Z.min _ (0 - 0)) with (e1 - e2 - 53) by lia.
  assert (H : (Zpos m1 * 2 ^ (e1 - e2 - (e1 - e2 - 53))) * d = (n * 2 ^ (0 - 0 - (e1 - e2 - 53))) * Zpos m2).
  { rewrite Z.abs_eq in M1, M2 by lia. apply (Z.mul_reg_r _ _ (2 ^ Z.max e1 0 * 2 ^ Z.max (- e2) 0)); [apply Z.neq_mul_0; split; apply Z.pow_nonzero; lia|].
    transitivity ((Zpos m1 * 2 ^ Z.max e1 0) * (d * 2 ^ Z.max (- e2) 0) * 2 ^ 53); [replace (e1 - e2 - (e1 - e2 - 53)) with 53 by lia; ring|].
    rewrite M1, <- M2.
    transitivity (n * Zpos m2 * (2 ^ Z.max (- e1) 0 * 2 ^ Z.max e2 0 * 2 ^ 53)); [ring|].
    transitivity (n * Zpos m2 * (2 ^ (0 - 0 - (e1 - e2 - 53)) * 2 ^ Z.max e1 0 * 2 ^ Z.max (- e2) 0)); [|ring].
    f_equal. rewrite <- !Z.pow_add_r by lia. f_equal. lia. }
  destruct (location_ratio _ (Zpos m2) _ d ltac:(lia) ltac:(lia) H) as [Eq El]. by rewrite Eq, El.
Qed.

Definition nearest (q : Q) : spec_float := nearest_quotient (Num (qrat q)) (Denom (qrat q)).

Lemma f64_nearest z : f64 z 0 = nearest_quotient z 1.
Proof.
  unfold nearest_quotient. destruct (Z.eqb_spec z 0) as [->|Hz]; [done|].
  rewrite core_eq by lia. change (Zdigits2 1) with 1. cbv zeta. rewrite Z.div_1_r, Z.mod_1_r.
  change (new_location 1 0) with loc_Exact.
  destruct (Z.le_gt_cases (Z.abs z) (2 ^ 53 - 1)) as [Hle|Hgt].
  - destruct (scaled_exists z Hz ltac:(lia)) as (m & e & Hs & Hm & Hr). rewrite (f64_scaled z m e Hs Hz).
    pose proof (scaled_digits z m e Hs Hz) as Hd. destruct Hs as [Hb He].
    pose proof (proj1 (bounded_spec _ _) Hb) as (_ & Hu & _). rewrite (digits_53 m) in Hd by done.
    assert (e <= 0).
    { destruct (Z.le_gt_cases e 0); [done|]. rewrite Z.max_l, Z.max_r, Z.mul_1_r in He by lia.
      assert (2 ^ 1 <= 2 ^ e) by (apply Z.pow_le_mono_r; lia). change (2 ^ 53) with (2 ^ 52 * 2 ^ 1) in Hle. nia. }
    assert (Hda : Zdigits2 (Z.abs z) = 53 + e) by (rewrite <- Hd, Z.add_0_r; by destruct z). rewrite Hda.
    unfold fexp, emin. symmetry. apply round_exact; [done|lia|].
    rewrite Z.max_r, Z.max_l, Z.mul_1_r in He by lia. rewrite He, <- Z.mul_assoc, <- Z.pow_add_r by lia. do 2 f_equal. lia.
  - assert (Hda : 54 <= Zdigits2 (Z.abs z)).
    { rewrite Zdigits2_log2, Z.abs_idemp by lia. assert (53 <= Z.log2 (Z.abs z)); [|lia].
      change 53 with (Z.log2 (2 ^ 53)). apply Z.log2_le_mono. lia. }
    unfold fexp at 1 2, emin. rewrite Z.min_r by lia. rewrite Z.mul_1_r.
    assert (Hround : forall s p, Z.abs z = Zpos p -> binary_round prec emax s p 0 = binary_round_aux prec emax s (Zpos p) 0 loc_Exact).
    { intros s p Hp. unfold binary_round. rewrite Hp in Hda. cbn [Zdigits2] in Hda. unfold shl_align, fexp, emin.
      destruct (Z.max _ _ - 0) eqn:E; [done|done|lia]. }
    destruct z as [|p|p]; [done|by apply Hround..].
Qed.

Lemma scaled_abs z m e : scaled (Z.abs z) m e <-> scaled z m e.
Proof. unfold scaled. by rewrite Z.abs_idemp. Qed.

Lemma small_quotient n d : Z.abs n <= 2 ^ 53 -> 0 < d <= 2 ^ 53 -> fdiv (f64 n 0) (f64 d 0) = nearest_quotient n d.
Proof.
  intros Hn Hd. destruct (scaled_exists d ltac:(lia) ltac:(lia)) as (m2 & e2 & S2 & N2 & R2).
  rewrite (f64_scaled d m2 e2 S2) by lia. rewrite (proj2 (Z.ltb_ge d 0)) by lia.
  unfold nearest_quotient. destruct (Z.eqb_spec n 0) as [->|Hz]; [done|].
  destruct (scaled_exists n Hz Hn) as (m1 & e1 & S1 & N1 & R1). rewrite (f64_scaled n m1 e1 S1 Hz). cbn [SFdiv].
  rewrite (core_scaled (Z.abs n) d m1 e1 m2 e2) by (done || lia || by apply scaled_abs). by rewrite xorb_false_r.
Qed.

Lemma ratToFloat_nearest q : ratToFloat (rational q) = nearest q.
Proof.
  unfold ratToFloat. rewrite (ratView_exact _ q) by constructor. cbn [Rat_Float64 fst].
  destruct (small (rational q)) as [[n d]|] eqn:Es; [|done].
  destruct (small_exact _ q n d ltac:(constructor) Es) as (Eq & Hw & Hd & _).
  rewrite abs64_spec by done. destruct (_ && _) eqn:El; [|done]. change (Z.shiftl 1 53) with (2 ^ 53) in El.
  unfold nearest. rewrite Eq. cbn [Num Denom]. apply small_quotient; lia.
Qed.

Lemma vKind_integer z : vKind (integer z) = ValInt.
Proof. by destruct (integer_cases z) as [[_ ->]|[_ ->]]. Qed.
Lemma vKind_rational q : vKind (rational q) = ValRational.
Proof. unfold rational. rewrite RatValue_eq. by destruct (fits _). Qed.

Lemma AsReal_exact v q : exact v q -> AsReal v = nearest q.
Proof.
  intros [z|p]; unfold AsReal.
  - rewrite vKind_integer. unfold nearest. rewrite qrat_inject. cbn [SetInt Num Denom]. rewrite <- f64_nearest.
    unfold intToFloat. by destruct (integer_cases z) as [[_ ->]|[_ ->]].
  - rewrite vKind_rational. apply ratToFloat_nearest.
Qed.

(** ** Whole Reals *)

Lemma f64_real_Q z : Z.abs z <= 2 ^ 53 ->
  valid (f64 z 0) /\ is_finite (f64 z 0) = true /\ (real_Q (f64 z 0) == inject_Z z)%Q.
Proof.
  intros Hz. destruct (Z.eq_dec z 0) as [->|H0]; [done|].
  destruct (scaled_exists z H0 Hz) as (m & e & Hs & _ & He). rewrite (f64_scaled z m e Hs H0).
  destruct Hs as [Hb Hm]. split_and!; [exact Hb|done|]. cbn [real_Q].
  assert (Hsg : inject_Z (signed_Z (z <? 0) (Zpos m)) = inject_Z (Z.sgn z * Zpos m)).
  { f_equal. unfold signed_Z. destruct (Z.ltb_spec z 0); lia. }
  rewrite Hsg. destruct (Z.le_gt_cases 0 e) as [Hp|Hp].
  - rewrite Z.max_l, Z.max_r, Z.mul_1_r in Hm by lia.
    rewrite two_pow, <- inject_Z_mult, <- Z.mul_assoc, Hm by lia. by rewrite Z.mul_comm, Z.abs_sgn.
  - rewrite Z.max_r, Z.max_l, Z.mul_1_r in Hm by lia.
    replace e with (- (- e)) by lia. rewrite Qpower_opp, two_pow, Hm by lia.
    replace (Z.sgn z * (Z.abs z * 2 ^ (- e))) with (z * 2 ^ (- e)) by (rewrite Z.mul_assoc, (Z.mul_comm (Z.sgn z)), Z.abs_sgn; lia).
    rewrite inject_Z_mult, <- Qmult_assoc, Qmult_inv_r, Qmult_1_r; [done|].
    intros E. apply (proj1 (inject_Z_injective (2 ^ (- e)) 0)) in E. revert E. apply Z.pow_nonzero; lia.
Qed.

Lemma real_Q_whole s m e : 0 <= e -> (real_Q (S754_finite s m e) == inject_Z (signed_Z s (Zpos m) * 2 ^ e))%Q.
Proof. intros He. cbn [real_Q]. by rewrite two_pow, inject_Z_mult. Qed.

Lemma real_Q_frac s m e : e <= 0 -> (real_Q (S754_finite s m e) == signed_Z s (Zpos m) # Z.to_pos (2 ^ (- e)))%Q.
Proof.
  intros He. cbn [real_Q]. assert (0 < 2 ^ (- e)) by (apply Z.pow_pos_nonneg; lia).
  rewrite (Qmake_Qdiv _ (Z.to_pos _)), Z2Pos.id by done. unfold Qdiv.
  by rewrite <- two_pow, <- Qpower_opp, Z.opp_involutive by lia.
Qed.

Lemma truncate_finite s m e :
  truncate (S754_finite s m e) = signed_Z s (if 0 <=? e then Zpos m * 2 ^ e else Zpos m / 2 ^ (- e)).
Proof. unfold truncate, signed_Z. destruct s; lia. Qed.

Lemma signed_mul s a b : signed_Z s (a * b) = signed_Z s a * b.
Proof. destruct s; cbn [signed_Z]; ring. Qed.

Lemma truncate_whole f z : valid f -> is_finite f = true -> (real_Q f == inject_Z z)%Q -> truncate f = z.
Proof.
  destruct f as [s|s| |s m e]; intros Hv Hf Hz; try discriminate.
  { apply (proj1 (inject_Z_injective 0 z)) in Hz. by subst. }
  rewrite truncate_finite. destruct (Z.leb_spec 0 e) as [He|He].
  - rewrite real_Q_whole in Hz by done. apply (proj1 (inject_Z_injective _ _)) in Hz. by rewrite signed_mul.
  - rewrite real_Q_frac in Hz by lia. unfold Qeq, inject_Z in Hz. cbn [Qnum Qden] in Hz.
    assert (0 < 2 ^ (- e)) by (apply Z.pow_pos_nonneg; lia). rewrite Z2Pos.id, Z.mul_1_r in Hz by done.
    destruct s; cbn [signed_Z] in *.
    + replace (Zpos m) with (- z * 2 ^ (- e)) by lia. rewrite Z.div_mul by lia. lia.
    + rewrite Hz, Z.div_mul by lia. done.
Qed.

Lemma Trunc_spec f : valid f -> is_finite f = true ->
  valid (Trunc f) /\ is_finite (Trunc f) = true /\ (real_Q (Trunc f) == inject_Z (truncate f))%Q.
Proof.
  destruct f as [s|s| |s m e]; intros Hv Hf; try done. rewrite truncate_finite. unfold Trunc.
  destruct (Z.leb_spec 0 e) as [He|He].
  - split_and!; [done..|]. rewrite real_Q_whole by done. by rewrite signed_mul.
  - assert (Hp : 2 ^ 1 <= 2 ^ (- e)) by (apply Z.pow_le_mono_r; lia). change (2 ^ 1) with 2 in Hp.
    pose proof (proj1 (bounded_spec _ _) Hv) as (_ & Hm & _).
    assert (0 <= Zpos m / 2 ^ (- e) < Zpos m) by (split; [apply Z.div_pos|apply Z.div_lt]; lia).
    set (k := Zpos m / 2 ^ (- e)) in *. destruct (Z.eq_dec (signed_Z s k) 0) as [E|E].
    + rewrite E. split_and!; [by destruct s..|done].
    + pose proof (f64_real_Q (signed_Z s k) ltac:(destruct s; cbn [signed_Z]; lia)) as Hfr. revert Hfr. unfold f64.
      destruct (signed_Z s k); [done|exact id..].
Qed.

Lemma SFeqb_Q f g : valid f -> valid g -> is_finite f = true -> is_finite g = true ->
  SFeqb f g = true <-> (real_Q f == real_Q g)%Q.
Proof.
  intros. unfold SFeqb. rewrite SFcompare_Q by done. rewrite Qeq_alt. by destruct (real_Q f ?= real_Q g)%Q.
Qed.
Lemma SFltb_Q f g : valid f -> valid g -> is_finite f = true -> is_finite g = true ->
  SFltb f g = true <-> (real_Q f < real_Q g)%Q.
Proof.
  intros. unfold SFltb. rewrite SFcompare_Q by done. rewrite Qlt_alt. by destruct (real_Q f ?= real_Q g)%Q.
Qed.
Lemma SFleb_Q f g : valid f -> valid g -> is_finite f = true -> is_finite g = true ->
  SFleb f g = true <-> (real_Q f <= real_Q g)%Q.
Proof.
  intros. unfold SFleb. rewrite SFcompare_Q by done. rewrite Qle_alt. by destruct (real_Q f ?= real_Q g)%Q.
Qed.

Lemma whole_test f : valid f -> is_finite f = true ->
  SFeqb f (Trunc f) = true <-> exists z, (real_Q f == inject_Z z)%Q.
Proof.
  intros Hv Hf. destruct (Trunc_spec f Hv Hf) as (Tv & Tf & Tq). rewrite SFeqb_Q, Tq by done. split; [eauto|].
  intros [z Hz]. by rewrite (truncate_whole f z).
Qed.

Lemma outside_int64_spec f z : valid f -> is_finite f = true -> (real_Q f == inject_Z z)%Q ->
  outside_int64 f = negb (IsInt64 z).
Proof.
  intros Hv Hf Hz. apply eq_true_iff_eq. unfold outside_int64. rewrite orb_true_iff, SFleb_Q, SFltb_Q by done.
  rewrite Hz. change (real_Q two63) with (inject_Z (2 ^ 52) * inject_Z 2 ^ 11)%Q.
  change (real_Q min63) with (inject_Z (- 2 ^ 52) * inject_Z 2 ^ 11)%Q.
  rewrite two_pow, <- !inject_Z_mult, <- Zle_Qle, <- Zlt_Qlt by done. unfold IsInt64.
  change (2 ^ 52 * 2 ^ 11) with (2 ^ 63). change (- 2 ^ 52 * 2 ^ 11) with (- 2 ^ 63). lia.
Qed.

(** ** Arithmetic yields binary64 values *)

Lemma binary_normalize_valid z e s : valid (binary_normalize prec emax z e s).
Proof.
  assert (Hr : forall s p, valid (binary_round prec emax s p e)).
  { clear s. intros s p. unfold binary_round. set (fe := fexp prec emax _).
    destruct (Z.le_gt_cases fe e) as [Hle|Hgt].
    - destruct (shl_align_pos p e fe Hle) as (p' & -> & Hp'). apply round_valid; [done|].
      cbn [Zdigits2]. rewrite (digits_unique p' (Zpos (digits2_pos p) + (e - fe))); [|rewrite Hp'|lia].
      + replace (Zpos (digits2_pos p) + (e - fe) + fe) with (Zpos (digits2_pos p) + e) by lia. reflexivity.
      + pose proof (digits_bounds p). assert (0 < 2 ^ (e - fe)) by (apply Z.pow_pos_nonneg; lia).
        replace (Zpos (digits2_pos p) + (e - fe) - 1) with (Zpos (digits2_pos p) - 1 + (e - fe)) by lia.
        rewrite !Z.pow_add_r by lia. split; [apply Z.mul_le_mono_nonneg_r|apply Z.mul_lt_mono_pos_r]; lia.
    - replace (shl_align p e fe) with (p, e) by (unfold shl_align; destruct (fe - e) eqn:E; done || lia).
      apply round_valid; [done|]. cbn [Zdigits2]. unfold fe in Hgt. lia. }
  destruct z as [|p|p]; [done|apply Hr..].
Qed.

Lemma SFmul_valid f g : valid f -> valid g -> valid (SFmul prec emax f g).
Proof.
  destruct f as [s1|s1| |s1 m1 e1], g as [s2|s2| |s2 m2 e2]; intros Hf Hg; try done. cbn [SFmul].
  apply round_valid; [done|]. rewrite Zdigits2_log2, Z.abs_eq, Pos2Z.inj_mul by lia.
  pose proof (Z.log2_mul_below (Zpos m1) (Zpos m2) ltac:(lia) ltac:(lia)).
  pose proof (Z.log2_nonneg (Zpos m1)). pose proof (Z.log2_nonneg (Zpos m2)).
  apply bounded_canonical, Z.eqb_eq in Hf, Hg. unfold fexp, emin in *. rewrite !digits_log2 in *. lia.
Qed.

Lemma SFdiv_valid f g : valid f -> valid g -> valid (fdiv f g).
Proof.
  destruct f as [s1|s1| |s1 m1 e1], g as [s2|s2| |s2 m2 e2]; intros Hf Hg; try done. by apply (core_valid (xorb s1 s2)).
Qed.

Lemma SFadd_valid f g : valid f -> valid g -> valid (SFadd prec emax f g).
Proof.
  destruct f as [[]|[]| |s1 m1 e1], g as [[]|[]| |s2 m2 e2]; intros Hf Hg; try done; apply binary_normalize_valid.
Qed.

Lemma SFsub_valid f g : valid f -> valid g -> valid (SFsub prec emax f g).
Proof.
  destruct f as [[]|[]| |s1 m1 e1], g as [[]|[]| |s2 m2 e2]; intros Hf Hg; try done; apply binary_normalize_valid.
Qed.
