(* ===== verification/RealConv.v ===== *)
(** * Conversions between exact numbers and Reals

    The theorems of [Real]: the order of an exact number and a Real, the exact
    number a Real is, and the one form a Rational has on the wire. *)
From Stdlib Require Import Floats.SpecFloat QArith Qpower.
From S2P Require Import Prelude Bytes Machine Integer IntegerFacts Rational RationalFacts Decimal Real RealFacts.
Local Open Scope Z_scope.

(** ** Order *)

(** The order of a number and a Real. *)
Definition order (q : Q) (r : spec_float) : Z :=
  match r with S754_infinity s => if s then 1 else -1 | _ => qcmp q (real_Q r) end.

Lemma qcmp_floats f r : valid f -> valid r -> is_finite f = true -> is_finite r = true ->
  (if SFltb f r then -1 else if SFltb r f then 1 else 0) = qcmp (real_Q f) (real_Q r).
Proof.
  intros Hf Hr Ff Fr. unfold SFltb, qcmp. rewrite !SFcompare_Q, <- (Qcompare_antisym (real_Q f)) by done.
  by destruct (real_Q f ?= real_Q r)%Q.
Qed.

Lemma Cmp_Q a b c d : 0 < b -> 0 < d -> qcmp (a # Z.to_pos b) (c # Z.to_pos d) = Cmp (a * d) (c * b).
Proof. intros. rewrite Cmp_compare. unfold qcmp, Qcompare. cbn [Qnum Qden]. by rewrite !Z2Pos.id. Qed.

Lemma Float_Cmp_order z r : is_finite r = true -> Float_Cmp z r = qcmp (inject_Z z) (real_Q r).
Proof.
  intros Hr. change (inject_Z z) with (z # Z.to_pos 1).
  destruct r as [s|s| |s m e]; try discriminate; cbn [Float_Cmp].
  - change (real_Q _) with (0 # Z.to_pos 1). by rewrite Cmp_Q, Z.mul_1_r.
  - destruct (Z.leb_spec 0 e) as [He|He].
    + rewrite real_Q_whole by done. change (inject_Z ?x) with (x # Z.to_pos 1).
      by rewrite Cmp_Q, !Z.mul_1_r, signed_mul.
    + rewrite real_Q_frac by lia. rewrite Cmp_Q by (done || (apply Z.pow_pos_nonneg; lia)). by rewrite Z.mul_1_r.
Qed.

Lemma CompareIntReal_order z r : valid r -> r <> S754_nan -> CompareIntReal (integer z) r = order (inject_Z z) r.
Proof.
  intros Hv Hn. unfold CompareIntReal. rewrite bigView_integer, is_none_integer.
  change (Z.shiftl 1 53) with (2 ^ 53).
  assert (Hfin : is_finite r = true ->
    (if IsInt64 z && (- 2 ^ 53 <=? Int (integer z)) && (Int (integer z) <=? 2 ^ 53)
     then let f := f64 (Int (integer z)) 0 in if SFltb f r then -1 else if SFltb r f then 1 else 0
     else Float_Cmp z r) = qcmp (inject_Z z) (real_Q r)).
  { intros Hr. rewrite Float_Cmp_order by done. destruct (IsInt64 z) eqn:Ei; [|done]. apply IsInt64_spec in Ei.
    rewrite Int_integer by done. destruct (_ && _) eqn:El; [|done]. cbv zeta.
    destruct (f64_real_Q z ltac:(lia)) as (Fv & Ff & Fq). by rewrite qcmp_floats, Fq. }
  destruct r as [s|[]| |s m e]; try done; by apply Hfin.
Qed.

(** ** The exact number of a Real *)

(** The Integer a number is, when it is one. *)
Definition as_integer (q : Q) : option Z :=
  if Denom (qrat q) =? 1 then Some (Num (qrat q)) else None.

Lemma as_integer_spec q z : as_integer q = Some z <-> (q == inject_Z z)%Q.
Proof.
  unfold as_integer. split.
  - destruct (Z.eqb_spec (Denom (qrat q)) 1) as [Ed|]; [|done]. intros [= <-].
    rewrite <- (rat_Q_qrat q) at 1. unfold rat_Q. by rewrite Ed.
  - intros Hq. rewrite (qrat_proper _ _ Hq), qrat_inject. done.
Qed.

Lemma as_integer_none q : as_integer q = None <-> ~ exists z, (q == inject_Z z)%Q.
Proof.
  split.
  - intros Hn [z Hz%as_integer_spec]. congruence.
  - intros Hn. destruct (as_integer q) as [z|] eqn:E; [|done]. exfalso. apply Hn. exists z. by apply as_integer_spec.
Qed.

(** The number a Real is. *)
Definition number_of (r : spec_float) : option Q := if is_finite r then Some (real_Q r) else None.

Lemma whole_cases r : valid r -> is_finite r = true ->
  (SFeqb r (Trunc r) = true /\ (real_Q r == inject_Z (truncate r))%Q /\ as_integer (real_Q r) = Some (truncate r))
  \/ (SFeqb r (Trunc r) = false /\ as_integer (real_Q r) = None).
Proof.
  intros Hv Hf. destruct (SFeqb r (Trunc r)) eqn:E; [left|right]; split; try done.
  - apply whole_test in E as [z Hz]; [|done..]. rewrite (truncate_whole r z) by done. split; [done|by apply as_integer_spec].
  - apply as_integer_none. intros Hz%whole_test; [congruence|done..].
Qed.

Lemma IntegerOfReal_spec r : valid r -> IntegerOfReal r = (integer <$> (number_of r ≫= as_integer)).
Proof.
  intros Hv. unfold IntegerOfReal, number_of. destruct (is_finite r) eqn:Hf; [|by destruct r].
  replace (IsNaN r || IsInf r) with false by (by destruct r). cbn [orb].
  destruct (whole_cases r Hv Hf) as [(-> & Hq & Hi)|[-> Hi]]; cbn [mbind option_bind]; rewrite Hi; [|done].
  cbn [negb fmap option_fmap option_map]. rewrite (outside_int64_spec r _ Hv Hf Hq). unfold BigIntValue.
  by destruct (IsInt64 (truncate r)).
Qed.

(** A number reduced to an odd numerator over a power of two. *)
Lemma pos_zeros_spec p : exists k, Zpos p = 2 ^ pos_zeros p * k /\ Z.odd k = true /\ 0 < k /\ 0 <= pos_zeros p.
Proof.
  induction p as [p _|p (k & E & Ho & Hk & Hz)|]; cbn [pos_zeros].
  - exists (Zpos p~1). split_and!; try done; lia.
  - exists k. split_and!; [|done..|lia]. rewrite Z.pow_add_r, Pos2Z.inj_xO, E by lia. change (2 ^ 1) with 2. ring.
  - exists 1. by split_and!.
Qed.

Lemma zeros_spec n : n <> 0 ->
  exists k, n = 2 ^ TrailingZeros64 n * k /\ Z.odd k = true /\ 0 <= TrailingZeros64 n /\ Z.shiftr n (TrailingZeros64 n) = k.
Proof.
  intros Hn. assert (H : exists k, n = 2 ^ TrailingZeros64 n * k /\ Z.odd k = true /\ 0 <= TrailingZeros64 n).
  { destruct n as [|p|p]; [done|..]; destruct (pos_zeros_spec p) as (k & E & Ho & Hk & Hz); cbn [TrailingZeros64].
    - by exists k.
    - exists (- k). split_and!; [|by rewrite Z.odd_opp|done]. change (Zneg p) with (- Zpos p). rewrite E at 1. ring. }
  destruct H as (k & E & Ho & Hz). exists k. split_and!; [done..|].
  rewrite Z.shiftr_div_pow2 by done. rewrite E at 1. rewrite Z.mul_comm, Z.div_mul; [done|]. apply Z.pow_nonzero; lia.
Qed.

Lemma odd_coprime k n : Z.odd k = true -> 0 <= n -> Z.gcd k (2 ^ n) = 1.
Proof.
  intros Ho Hn. apply Z.coprime_pow_r; [done|]. apply Z.odd_spec in Ho as [j ->].
  unfold Z.coprime. rewrite Z.gcd_comm, Z.add_comm, Z.mul_comm, Z.gcd_add_mult_diag_r. done.
Qed.

Lemma rat_inline_rational n d : word n -> 0 < d <= MaxUint32 -> Z.gcd n d = 1 -> rat_inline n d = rational (n # Z.to_pos d).
Proof.
  intros Hn Hd Hg. rewrite rational_frac by lia. rewrite lowest_inline_view by (done || lia).
  rewrite RatValue_eq. assert (fits {| Num := n; Denom := d |} = true) as ->; [|done].
  apply fits_spec; cbn [Num Denom]; [lia|]. split; [done|lia].
Qed.

Lemma Rat_SetFloat64_qrat r : is_finite r = true -> Rat_SetFloat64 r = qrat (real_Q r).
Proof.
  destruct r as [s|s| |s m e]; try done; intros _. cbn [Rat_SetFloat64]. destruct (Z.leb_spec 0 e) as [He|He].
  - by rewrite (qrat_proper _ _ (real_Q_whole s m e He)), qrat_inject.
  - rewrite (qrat_proper _ _ (real_Q_frac s m e ltac:(lia))), qrat_frac; [done|]. apply Z.pow_pos_nonneg; lia.
Qed.

(** The mantissa and exponent of [Frexp]. *)
Lemma Frexp53_spec s m e :
  bounded prec emax m e = true ->
  let '(m', e') := Frexp53 (S754_finite s m e) in
  m' <> 0 /\ Z.abs m' < 2 ^ 53 /\ (real_Q (S754_finite s m e) == inject_Z m' * inject_Z 2 ^ e')%Q.
Proof.
  intros (He & Hm & _)%bounded_spec. cbn [Frexp53 real_Q]. pose proof (digits_bounds m) as [D1 D2].
  set (d := Zpos (digits2_pos m)) in *. assert (Hd : d <= 53).
  { apply Z.le_ngt. intros Hlt. assert (2 ^ 53 <= 2 ^ (d - 1)); [apply Z.pow_le_mono_r; lia|lia]. }
  assert (0 < 2 ^ (prec - d)) by (apply Z.pow_pos_nonneg; lia).
  assert (Zpos m * 2 ^ (prec - d) < 2 ^ 53).
  { replace (2 ^ 53) with (2 ^ d * 2 ^ (prec - d)) by (rewrite <- Z.pow_add_r by lia; f_equal; lia). by apply Z.mul_lt_mono_pos_r. }
  split_and!; [destruct s; cbn [signed_Z]; lia..|].
  rewrite signed_mul, inject_Z_mult, <- Qmult_assoc, <- two_pow, <- Qpower_plus by (lia || apply two_nonzero).
  by replace (prec - d + (d + e - prec)) with e by lia.
Qed.

Lemma RationalOfReal_spec r : valid r -> RationalOfReal r = (rational <$> number_of r).
Proof.
  intros Hv. unfold RationalOfReal, number_of. destruct (is_finite r) eqn:Hf; [|by destruct r].
  replace (IsNaN r || IsInf r) with false by (by destruct r). cbn [fmap option_fmap option_map].
  destruct (SFeqb r (Trunc r) && SFltb (SFabs r) (f64 (Z.shiftl 1 53) 0)) eqn:E.
  { apply andb_true_iff in E as [E1 E2]. destruct (whole_cases r Hv Hf) as [(_ & Hq & _)|[? _]]; [|congruence].
    f_equal. rewrite (rational_proper _ _ Hq). apply (rat_inline_rational _ 1); [|done|apply Z.gcd_1_r].
    destruct (f64_real_Q (2 ^ 53) ltac:(done)) as (Fv & Ff & Fq). change (Z.shiftl 1 53) with (2 ^ 53) in E2.
    apply SFltb_Q in E2; [|by destruct r..]. rewrite Fq in E2.
    assert (Hab : (Qabs.Qabs (real_Q r) == real_Q (SFabs r))%Q).
    { destruct r as [| | |s m e]; try done. cbn [SFabs real_Q]. rewrite Qabs.Qabs_Qmult, (Qabs.Qabs_pos (inject_Z 2 ^ e)) by (apply Qpower_pos; done). by destruct s. }
    rewrite <- Hab, Hq in E2. change (Qabs.Qabs (inject_Z ?z)) with (inject_Z (Z.abs z)) in E2. rewrite <- Zlt_Qlt in E2.
    unfold word. lia. }
  destruct r as [s|s| |s m e]; try done. pose proof (Frexp53_spec s m e Hv) as Hfr.
  destruct (Frexp53 (S754_finite s m e)) as [m' e']. destruct Hfr as (Hm0 & Hmb & Hq).
  destruct (zeros_spec m' Hm0) as (k & Ek & Ho & Hz & ->). cbv zeta. set (tz := TrailingZeros64 m') in *.
  destruct ((e' + tz <? 0) && (-31 <=? e' + tz)) eqn:Eb; [|by rewrite Rat_SetFloat64_qrat].
  f_equal. rewrite Z.shiftl_mul_pow2, Z.mul_1_l by lia.
  assert (Hp : 0 < 2 ^ (- (e' + tz))) by (apply Z.pow_pos_nonneg; lia).
  assert (2 ^ (- (e' + tz)) <= 2 ^ 31) by (apply Z.pow_le_mono_r; lia).
  assert (0 < 2 ^ tz) by (apply Z.pow_pos_nonneg; lia).
  rewrite rat_inline_rational; [|unfold word; nia|unfold MaxUint32; lia|apply odd_coprime; [done|lia]].
  apply rational_proper. rewrite Hq, Ek, inject_Z_mult, <- two_pow by done.
  rewrite (Qmult_comm (inject_Z 2 ^ tz)), <- Qmult_assoc, <- Qpower_plus by apply two_nonzero.
  rewrite (Qmake_Qdiv _ (Z.to_pos _)), Z2Pos.id by done. unfold Qdiv.
  rewrite <- two_pow, <- Qpower_opp by lia. by replace (- - (e' + tz)) with (tz + e') by lia.
Qed.

(** The machine word a number is. *)
Definition as_word (q : Q) : option Z := z ← as_integer q; if IsInt64 z then Some z else None.

Lemma RatIsWhole_rational q : RatIsWhole (rational q) = (Denom (qrat q) =? 1).
Proof. unfold RatIsWhole. rewrite is_int_rational. unfold rational. rewrite RatValue_eq. by destruct (fits _). Qed.

Lemma Int64_integer z : Int64 (integer z) = if IsInt64 z then Some z else None.
Proof. unfold Int64. rewrite is_int_integer, is_none_integer. destruct (IsInt64 z) eqn:E; [|done]. by rewrite Int_integer by by apply IsInt64_spec. Qed.

Lemma RatNumer_rational q : RatNumer (rational q) = integer (Num (qrat q)).
Proof.
  unfold RatNumer. destruct (small (rational q)) as [[n d]|] eqn:Es.
  - destruct (small_exact _ q n d ltac:(constructor) Es) as (-> & Hw & _). cbn [Num]. by rewrite integer_small by by apply word_int64.
  - rewrite is_int_rational. unfold small in Es. revert Es. unfold rational. rewrite IsRational_RatValue, RatValue_eq.
    by destruct (fits _).
Qed.

Lemma WholeNumber_exact v q : exact v q -> WholeNumber v = as_word q.
Proof.
  intros [z|p]; unfold WholeNumber, as_word.
  - rewrite vKind_integer, Int64_integer. by rewrite (proj2 (as_integer_spec _ z)).
  - rewrite vKind_rational, RatIsWhole_rational, RatNumer_rational, Int64_integer. unfold as_integer.
    by destruct (Denom (qrat p) =? 1).
Qed.

Lemma WholeNumber_real r : valid r -> WholeNumber (real_value r) = (number_of r ≫= as_word).
Proof.
  intros Hv. unfold WholeNumber, number_of, as_word. cbn [vKind real_value Integer.Real].
  destruct (is_finite r) eqn:Hf; [|by destruct r as [|[]| |]]. cbn [mbind option_bind].
  destruct (whole_cases r Hv Hf) as [(-> & Hq & Hi)|[-> Hi]]; rewrite Hi; [|done].
  cbn [negb orb]. rewrite (outside_int64_spec r _ Hv Hf Hq). cbn [mbind option_bind]. by destruct (IsInt64 (truncate r)).
Qed.

(** ** Rationals that are Reals *)


Lemma nearest_number q : real_number (nearest q).
Proof.
  unfold nearest, nearest_quotient. pose proof (qrat_lowest q) as [Hd _].
  destruct (Z.eqb_spec (Num (qrat q)) 0) as [|Hn]; [done|]. apply core_valid; lia.
Qed.

Lemma nearest_valid q : valid (nearest q).
Proof. apply nearest_number. Qed.






(** ** Properties *)

(** C36: the Real of an exact number is the binary64 nearest to it, whichever of
    the machine-word division and the [math/big] conversion computes it; and an
    exact number and a Real compare exactly when the number is an Integer, and as
    the Real nearest to it otherwise. *)
Theorem AsReal_CompareReal v q r :
  exact v q -> valid r -> r <> S754_nan ->
  AsReal v = nearest q /\ valid (AsReal v)
  /\ CompareReal v r = if is_int v then order q r else cmp_Compare (nearest q) r.
Proof.
  intros Hq Hr Hn. rewrite (AsReal_exact v q Hq). split_and!; [done|apply nearest_valid|]. unfold CompareReal. destruct Hq as [z|p].
  - rewrite is_int_integer. by apply CompareIntReal_order.
  - by rewrite is_int_rational, ratToFloat_nearest.
Qed.

(** [2^53 + 1] is no binary64 and its nearest is [2^53]. *)
Lemma AsReal_CompareReal_witness :
  AsReal (integer (2 ^ 53 + 1)) = f64 (2 ^ 53) 0 /\ CompareReal (integer (2 ^ 53 + 1)) (f64 (2 ^ 53) 0) = 1.
Proof.
  destruct (AsReal_CompareReal (integer (2 ^ 53 + 1)) (inject_Z (2 ^ 53 + 1)) (f64 (2 ^ 53) 0)) as (-> & _ & ->);
    [constructor|vm_compute; reflexivity|intros E; discriminate E|]. split; vm_compute; reflexivity.
Defined.

(** C37: the exact number a Real is: [IntegerOfReal] gives the Integer of a finite
    whole Real at any magnitude, [RationalOfReal] the Rational of any finite Real in
    its one representation, and [WholeNumber] the machine word of a number of any
    kind, exactly when there is one. *)
Theorem Real_conversions r :
  valid r ->
  IntegerOfReal r = (integer <$> (number_of r ≫= as_integer))
  /\ RationalOfReal r = (rational <$> number_of r)
  /\ WholeNumber (real_value r) = (number_of r ≫= as_word)
  /\ (forall v q, exact v q -> WholeNumber v = as_word q).
Proof.
  intros Hv. split_and!; [by apply IntegerOfReal_spec|by apply RationalOfReal_spec|by apply WholeNumber_real|].
  intros v q. apply WholeNumber_exact.
Qed.

Lemma Real_conversions_witness :
  IntegerOfReal (f64 1 100) = Some (integer (2 ^ 100)) /\ WholeNumber (real_value (f64 1 100)) = None
  /\ RationalOfReal (f64 (-3) (-2)) = Some (rational (-3 # 4)).
Proof.
  destruct (Real_conversions (f64 1 100)) as (-> & _ & -> & _); [vm_compute; reflexivity|].
  destruct (Real_conversions (f64 (-3) (-2))) as (_ & -> & _); [vm_compute; reflexivity|].
  split_and!; vm_compute; reflexivity.
Defined.

(** ** The form of a Rational on the wire *)










(** The decimals accepted are not only those sent: a plus sign and leading zeros are. *)
Lemma sent_otherwise_accepted :
  CanonicalRational (bs "01") (bs "3") = Some (rational (1 # 3)) /\ CanonicalRational (bs "+1") (bs "03") = Some (rational (1 # 3)).
Proof. split; vm_compute; reflexivity. Qed.
