(* ===== verification/Fold.v ===== *)
(** * Constant folding

    Models the evaluation of constant expressions ([internal/semantic/semantics],
    [eval.go]): [EvalConst] over the syntax tree of literals and operators, the
    operators on constant values [EvalUnary] and [EvalBinary] the run time shares,
    and exponentiation [Pow]. [math.Pow] is a parameter. *)
From Stdlib Require Import Floats.SpecFloat.
From S2P Require Import Prelude Bytes Machine Integer Rational Decimal Real.
Local Open Scope Z_scope.

(** ** Expressions *)

(** The nodes [evalConst] tells apart. *)
Inductive node :=
  | LiteralInteger (Value : bytes)
  | LiteralReal (Value : bytes)
  | LiteralBool (Value : bool)
  | LiteralInfinity
  | OperatorExpr (Operator : OperatorKind) (Operands : list node)
  | OtherNode.

(** ** Values *)

Definition bool_value (b : bool) : Value :=
  {| vKind := ValBool; vBool := b; den := 0; Int := 0; Real := real_zero; ext := None |}.
Definition infinity_value : Value :=
  {| vKind := ValInfinity; vBool := false; den := 0; Int := 0; Real := real_zero; ext := None |}.

Definition has_kind (v : Value) (k : ValueKind) : bool := bool_decide (v.(vKind) = k).
Definition IsNumeric (v : Value) : bool := has_kind v ValInt || has_kind v ValReal || has_kind v ValRational.
Definition IsUnbounded (v : Value) : bool := has_kind v ValInfinity.

Definition ordinal (v : Value) : option Z :=
  if IsUnbounded v then Some 1 else if IsNumeric v then Some 0 else None.
Definition UnboundedOrder (l r : Value) : option Z :=
  match ordinal l, ordinal r with
  | Some lo, Some ro => Some (if lo =? ro then 0 else if ro <? lo then 1 else -1)
  | _, _ => None
  end.

(** ** Operators *)

Definition EvalUnary (op : OperatorKind) (v : Value) : option Value :=
  match op with
  | OpNeg =>
      if has_kind v ValInt then Some (IntNeg v)
      else if has_kind v ValRational then Some (RatNeg v)
      else if has_kind v ValReal then Some (real_value (SFopp v.(Real)))
      else None
  | OpPos => if IsNumeric v || IsUnbounded v then Some v else None
  | OpNot => if has_kind v ValBool then Some (bool_value (negb v.(vBool))) else None
  | _ => None
  end.

Definition evalBoolOp (op : OperatorKind) (a b : bool) : Value :=
  bool_value match op with
             | OpAnd | OpConditionalAnd => a && b
             | OpOr | OpConditionalOr => a || b
             | OpXor => negb (eqb a b)
             | OpImplies => negb a || b
             | _ => false
             end.

Definition evalEquality (op : OperatorKind) (l r : Value) : option Value :=
  eq ← (if has_kind l ValBool && has_kind r ValBool then Some (eqb l.(vBool) r.(vBool))
        else if IsUnbounded l || IsUnbounded r then order ← UnboundedOrder l r; Some (order =? 0)
        else if has_kind l ValInt && has_kind r ValInt then Some (CompareInt l r =? 0)
        else if IsExact l && IsExact r then Some (CompareRat l r =? 0)
        else if IsExact l && has_kind r ValReal then Some (negb (IsNaN r.(Real)) && (CompareReal l r.(Real) =? 0))
        else if has_kind l ValReal && IsExact r then Some (negb (IsNaN l.(Real)) && (CompareReal r l.(Real) =? 0))
        else if IsNumeric l && IsNumeric r then Some (SFeqb (AsReal l) (AsReal r))
        else None);
  Some (bool_value (if bool_decide (op = OpNeq) then negb eq else eq)).

Definition OrderSatisfies (op : OperatorKind) (order : Z) : option bool :=
  match op with
  | OpLt => Some (order <? 0)
  | OpLe => Some (order <=? 0)
  | OpGt => Some (0 <? order)
  | OpGe => Some (0 <=? order)
  | _ => None
  end.

(** The comparison of two Reals. *)
Definition compare_reals (op : OperatorKind) (lf rf : spec_float) : bool :=
  match op with
  | OpLt => SFltb lf rf
  | OpGt => SFltb rf lf
  | OpLe => SFleb lf rf
  | OpGe => SFleb rf lf
  | _ => false
  end.

(** [OrderSatisfies] with its [ok] dropped. *)
Definition satisfied (op : OperatorKind) (order : Z) : option Value :=
  Some (bool_value (default false (OrderSatisfies op order))).

Definition evalComparison (op : OperatorKind) (l r : Value) : option Value :=
  if IsUnbounded l || IsUnbounded r then
    order ← UnboundedOrder l r; res ← OrderSatisfies op order; Some (bool_value res)
  else if negb (IsNumeric l) || negb (IsNumeric r) then None
  else if has_kind l ValInt && has_kind r ValInt then satisfied op (CompareInt l r)
  else if IsExact l && IsExact r then satisfied op (CompareRat l r)
  else if IsExact l && has_kind r ValReal && negb (IsNaN r.(Real)) then satisfied op (CompareReal l r.(Real))
  else if has_kind l ValReal && IsExact r && negb (IsNaN l.(Real)) then satisfied op (- CompareReal r l.(Real))
  else Some (bool_value (compare_reals op (AsReal l) (AsReal r))).

Definition result_option {A} (r : res A) : option A := match r with Ok a => Some a | Err _ => None end.

Definition evalIntArith (op : OperatorKind) (a b : Value) (maxBits : Z) : option Value :=
  match op with
  | OpAdd | OpSub | OpMul => result_option (IntArith op a b maxBits)
  | OpMod => IntRem a b
  | _ => None
  end.

Definition RealArith (op : OperatorKind) (a b : spec_float) : option spec_float :=
  match op with
  | OpAdd => Some (SFadd prec emax a b)
  | OpSub => Some (SFsub prec emax a b)
  | OpMul => Some (SFmul prec emax a b)
  | OpDiv => if SFeqb b real_zero then None else Some (fdiv a b)
  | _ => None
  end.

Definition evalRealArith (op : OperatorKind) (a b : spec_float) : option Value :=
  res ← RealArith op a b; if IsInf res || IsNaN res then None else Some (real_value res).

Section Folding.
(** [math.Pow]. *)
Variable math_Pow : spec_float -> spec_float -> spec_float.

Definition Pow (l r : Value) (maxBits : Z) : res Value :=
  if negb (IsNumeric l) || negb (IsNumeric r) then Err ErrArithmeticDomain
  else if has_kind l ValInt && has_kind r ValInt && (0 <=? IntSign r) then IntPow l r maxBits
  else if IsExact l && has_kind r ValInt then RatPow l r maxBits
  else
    let base := AsReal l in
    let exp := AsReal r in
    if SFeqb base real_zero && SFltb exp real_zero then Err ErrArithmeticDomain
    else if SFltb base real_zero && negb (SFeqb exp (Trunc exp)) then Err ErrArithmeticDomain
    else
      let res := math_Pow base exp in
      if IsNaN res || IsInf res then Err ErrArithmeticOverflow else Ok (real_value res).

Definition evalArithmetic (op : OperatorKind) (l r : Value) (maxBits : Z) : option Value :=
  if negb (IsNumeric l) || negb (IsNumeric r) then None
  else if bool_decide (op = OpPow) then result_option (Pow l r maxBits)
  else if has_kind l ValInt && has_kind r ValInt && negb (bool_decide (op = OpDiv)) then evalIntArith op l r maxBits
  else if IsExact l && IsExact r then result_option (RatArith op l r maxBits)
  else evalRealArith op (AsReal l) (AsReal r).

Definition evalBinaryWithin (op : OperatorKind) (l r : Value) (maxBits : Z) : option Value :=
  match op with
  | OpAnd | OpConditionalAnd | OpOr | OpConditionalOr | OpXor | OpImplies =>
      if negb (has_kind l ValBool) || negb (has_kind r ValBool) then None
      else Some (evalBoolOp op l.(vBool) r.(vBool))
  | OpEq | OpNeq => evalEquality op l r
  | OpLt | OpGt | OpLe | OpGe => evalComparison op l r
  | OpAdd | OpSub | OpMul | OpDiv | OpMod | OpPow => evalArithmetic op l r maxBits
  | _ => None
  end.

Definition EvalBinary (op : OperatorKind) (l r : Value) : option Value :=
  evalBinaryWithin op l r DefaultMaxIntegerBits.

(** ** Folding *)

Definition evalUnary (eval : node -> option Value) (op : OperatorKind) (operand : node) : option Value :=
  v ← eval operand; EvalUnary op v.

Definition evalBinary (eval : node -> option Value) (op : OperatorKind) (lhs rhs : node) (maxBits : Z) : option Value :=
  l ← eval lhs; r ← eval rhs; evalBinaryWithin op l r maxBits.

(** [eval] is [evalConst] under [maxBits]. *)
Definition evalOperator (eval : node -> option Value) (op : OperatorKind) (operands : list node) (maxBits : Z) : option Value :=
  match op with
  | OpNeg | OpPos | OpNot => match operands with [operand] => evalUnary eval op operand | _ => None end
  | OpConditional =>
      match operands with
      | [c; a; b] =>
          cond ← eval c;
          if negb (has_kind cond ValBool) then None else if cond.(vBool) then eval a else eval b
      | _ => None
      end
  | _ => match operands with [lhs; rhs] => evalBinary eval op lhs rhs maxBits | _ => None end
  end.

Fixpoint evalConst (n : node) (maxBits : Z) : option Value :=
  match n with
  | LiteralInteger text => ParseInteger text
  | LiteralReal text => result_option (ParseRational text maxBits)
  | LiteralBool b => Some (bool_value b)
  | LiteralInfinity => Some infinity_value
  | OperatorExpr op operands => evalOperator (fun n => evalConst n maxBits) op operands maxBits
  | OtherNode => None
  end.

Definition EvalConst (n : node) : option Value := evalConst n DefaultMaxIntegerBits.
Definition EvalWithin (n : node) (maxBits : Z) : option Value := evalConst n maxBits.
End Folding.
