(* ===== verification/FoldFacts.v ===== *)
(** * Constant folding: properties

    What a constant expression denotes is a number, a Real, a truth value or the
    unbounded value, computed by a reference evaluator over [Z] and [Q]; the folder
    computes the representation of the denotation, and declines exactly when there
    is none or the size budget refuses one on the way. *)
From Stdlib Require Import Floats.SpecFloat QArith Qpower.
From S2P Require Import Prelude Bytes Machine Integer IntegerFacts Rational RationalFacts.
From S2P Require Import Decimal DecimalFacts Real RealFacts RealConv Fold.
Local Open Scope Z_scope.

(** ** Denotations *)

Inductive denotation :=
  | DInt (z : Z)
  | DRat (q : Q)
  | DReal (f : spec_float)
  | DBool (b : bool)
  | DInf.

(** The Value of a denotation. *)
Definition value_of (d : denotation) : Value :=
  match d with
  | DInt z => integer z
  | DRat q => rational q
  | DReal f => real_value f
  | DBool b => bool_value b
  | DInf => infinity_value
  end.

(** A Real is a finite binary64. *)
Definition good (d : denotation) : Prop :=
  match d with DReal f => valid f /\ is_finite f = true | _ => True end.

Definition exact_of (d : denotation) : option Q :=
  match d with DInt z => Some (inject_Z z) | DRat q => Some q | _ => None end.

(** The Real a number is taken as. *)
Definition real_of (d : denotation) : option spec_float :=
  match d with DReal f => Some f | _ => nearest <$> exact_of d end.

(** ** Reference operators *)

Definition unop (op : OperatorKind) (d : denotation) : option denotation :=
  match op, d with
  | OpNeg, DInt z => Some (DInt (- z))
  | OpNeg, DRat q => Some (DRat (- q))
  | OpNeg, DReal f => Some (DReal (SFopp f))
  | OpPos, (DInt _ | DRat _ | DReal _ | DInf) => Some d
  | OpNot, DBool b => Some (DBool (negb b))
  | _, _ => None
  end.

Definition bool_op (op : OperatorKind) (a b : bool) : option bool :=
  match op with
  | OpAnd | OpConditionalAnd => Some (a && b)
  | OpOr | OpConditionalOr => Some (a || b)
  | OpXor => Some (xorb a b)
  | OpImplies => Some (implb a b)
  | _ => None
  end.

(** A Real, infinite or not, against a finite one. *)
Definition float_order (f g : spec_float) : Z :=
  match f with S754_infinity s => if s then -1 else 1 | _ => qcmp (real_Q f) (real_Q g) end.

(** The order of two numbers, the unbounded value above all: exact unless a
    Rational meets a Real, which takes the Rational's nearest Real. *)
Definition compare (l r : denotation) : option Z :=
  match l, r with
  | DInf, DInf => Some 0
  | DBool _, _ | _, DBool _ => None
  | DInf, _ => Some 1
  | _, DInf => Some (-1)
  | DReal f, DReal g => Some (qcmp (real_Q f) (real_Q g))
  | DInt z, DReal f => Some (qcmp (inject_Z z) (real_Q f))
  | DReal f, DInt z => Some (qcmp (real_Q f) (inject_Z z))
  | DRat q, DReal f => Some (float_order (nearest q) f)
  | DReal f, DRat q => Some (- float_order (nearest q) f)
  | _, _ => x ← exact_of l; y ← exact_of r; Some (qcmp x y)
  end.

Definition equal (l r : denotation) : option bool :=
  match l, r with DBool a, DBool b => Some (eqb a b) | _, _ => c ← compare l r; Some (c =? 0) end.

Definition order_op (op : OperatorKind) (c : Z) : option bool :=
  match op with
  | OpLt => Some (c <? 0) | OpLe => Some (c <=? 0) | OpGt => Some (0 <? c) | OpGe => Some (0 <=? c)
  | _ => None
  end.

Section Reference.
Variable math_Pow : spec_float -> spec_float -> spec_float.
(** The size budget. *)
Variable mb : Z.

Definition within_int (z : Z) : option denotation := if BitLen z <=? mb then Some (DInt z) else None.
Definition within_rat (q : Q) : option denotation := if rat_bits (qrat q) <=? mb then Some (DRat q) else None.
Definition finite_real (f : spec_float) : option denotation := if is_finite f then Some (DReal f) else None.

(** An undefined operation on Reals. *)
Definition real_pow (f g : spec_float) : option denotation :=
  if SFeqb f real_zero && SFltb g real_zero then None
  else if SFltb f real_zero && negb (SFeqb g (Trunc g)) then None
  else finite_real (math_Pow f g).

Definition real_op (op : OperatorKind) (f g : spec_float) : option denotation :=
  match op with
  | OpAdd => finite_real (SFadd prec emax f g)
  | OpSub => finite_real (SFsub prec emax f g)
  | OpMul => finite_real (SFmul prec emax f g)
  | OpDiv => if SFeqb g real_zero then None else finite_real (SFdiv prec emax f g)
  | OpPow => real_pow f g
  | _ => None
  end.

Definition exact_op (op : OperatorKind) (x y : Q) : option denotation :=
  if bool_decide (op = OpDiv \/ op = OpMod) && (Qnum y =? 0) then None else z ← q_op op x y; within_rat z.

Definition exact_pow (x : Q) (n : Z) : option denotation :=
  if (Qnum x =? 0) && (n <? 0) then None else within_rat (x ^ n).

Definition arith (op : OperatorKind) (l r : denotation) : option denotation :=
  let mixed := f ← real_of l; g ← real_of r; real_op op f g in
  match l, r, op with
  | DInt x, DInt y, OpPow => if 0 <=? y then within_int (x ^ y) else exact_pow (inject_Z x) y
  | DRat x, DInt y, OpPow => exact_pow x y
  | _, _, OpPow => mixed
  | DInt x, DInt y, OpMod => if y =? 0 then None else Some (DInt (Z.rem x y))
  | DInt x, DInt y, (OpAdd | OpSub | OpMul) => z ← int_op op x y; within_int z
  | (DInt _ | DRat _), (DInt _ | DRat _), _ => x ← exact_of l; y ← exact_of r; exact_op op x y
  | _, _, _ => mixed
  end.

Definition binop (op : OperatorKind) (l r : denotation) : option denotation :=
  match op with
  | OpAnd | OpConditionalAnd | OpOr | OpConditionalOr | OpXor | OpImplies =>
      match l, r with DBool a, DBool b => DBool <$> bool_op op a b | _, _ => None end
  | OpEq => DBool <$> equal l r
  | OpNeq => (fun b => DBool (negb b)) <$> equal l r
  | OpLt | OpLe | OpGt | OpGe => c ← compare l r; DBool <$> order_op op c
  | OpAdd | OpSub | OpMul | OpDiv | OpMod | OpPow => arith op l r
  | _ => None
  end.

(** The number a Real literal is read as, within the budget. *)
Definition literal (text : bytes) : option Q := (fun v => rat_Q (ratView v)) <$> result_option (ParseRational text mb).

Fixpoint denote (n : node) : option denotation :=
  match n with
  | LiteralInteger text => DInt <$> parse_decimal text
  | LiteralReal text => DRat <$> literal text
  | LiteralBool b => Some (DBool b)
  | LiteralInfinity => Some DInf
  | OperatorExpr op operands =>
      match operands with
      | [a] => d ← denote a; unop op d
      | [a; b] => l ← denote a; r ← denote b; binop op l r
      | [c; a; b] =>
          if bool_decide (op = OpConditional) then
            match denote c with Some (DBool true) => denote a | Some (DBool false) => denote b | _ => None end
          else None
      | _ => None
      end
  | OtherNode => None
  end.
End Reference.

(** Real literals shorter than the machine's address space. *)
Fixpoint short_literals (n : node) : Prop :=
  match n with
  | LiteralReal text => Z.of_nat (length text) < 2 ^ 60
  | OperatorExpr _ operands => foldr (fun n => and (short_literals n)) True operands
  | _ => True
  end.

(** ** The Values of denotations *)

Lemma has_kind_value d k :
  has_kind (value_of d) k =
    match d, k with
    | DInt _, ValInt | DRat _, ValRational | DReal _, ValReal | DBool _, ValBool | DInf, ValInfinity => true
    | _, _ => false
    end.
Proof.
  unfold has_kind. destruct d; cbn [value_of]; rewrite ?vKind_integer, ?vKind_rational; by destruct k.
Qed.

Lemma is_int_value d : is_int (value_of d) = match d with DInt _ => true | _ => false end.
Proof. exact (eq_trans eq_refl (has_kind_value d ValInt)). Qed.
Lemma IsRational_value d : IsRational (value_of d) = match d with DRat _ => true | _ => false end.
Proof. exact (eq_trans eq_refl (has_kind_value d ValRational)). Qed.
Lemma IsExact_value d : IsExact (value_of d) = match d with DInt _ | DRat _ => true | _ => false end.
Proof. unfold IsExact. rewrite is_int_value, IsRational_value. by destruct d. Qed.
Lemma IsNumeric_value d : IsNumeric (value_of d) = match d with DInt _ | DRat _ | DReal _ => true | _ => false end.
Proof. unfold IsNumeric. rewrite !has_kind_value. by destruct d. Qed.
Lemma IsUnbounded_value d : IsUnbounded (value_of d) = match d with DInf => true | _ => false end.
Proof. unfold IsUnbounded. rewrite has_kind_value. by destruct d. Qed.
Create Rewrite HintDb value_of.
#[export] Hint Rewrite has_kind_value is_int_value IsExact_value IsNumeric_value IsUnbounded_value : value_of.

Lemma exact_value d q : exact_of d = Some q -> exact (value_of d) q.
Proof. destruct d; intros [= <-]; constructor. Qed.

Lemma AsReal_value d f : real_of d = Some f -> AsReal (value_of d) = f.
Proof.
  destruct d; cbn [real_of exact_of fmap option_fmap option_map value_of]; intros [= <-]; [|..|done];
    apply AsReal_exact; constructor.
Qed.

Lemma UnboundedOrder_value l r : (l = DInf \/ r = DInf) -> UnboundedOrder (value_of l) (value_of r) = compare l r.
Proof.
  intros H. unfold UnboundedOrder, ordinal. autorewrite with value_of. destruct H as [-> | ->]; [destruct r|destruct l]; reflexivity.
Qed.

Lemma float_order_spec f g : real_number f -> valid g -> is_finite g = true -> cmp_Compare f g = float_order f g.
Proof.
  intros [Hf Hn] Hg Fg. unfold cmp_Compare, float_order. rewrite Hn.
  replace (IsNaN g) with false by (by destruct g).
  destruct f as [s|[]| |s m e]; [|by destruct g..|done|]; by apply qcmp_floats.
Qed.

(** The order of a number and a finite Real. *)
Lemma CompareReal_value d f q :
  exact_of d = Some q -> valid f -> is_finite f = true ->
  CompareReal (value_of d) f = match d with DInt z => qcmp (inject_Z z) (real_Q f) | _ => float_order (nearest q) f end.
Proof.
  intros Hd Hv Hf. unfold CompareReal. rewrite is_int_value. destruct d; try done; injection Hd as <-; cbn [value_of].
  - rewrite CompareIntReal_order by (done || by destruct f). by destruct f.
  - rewrite ratToFloat_nearest. apply float_order_spec; [apply nearest_number|done..].
Qed.

Lemma qcmp_antisym x y : qcmp y x = - qcmp x y.
Proof. unfold qcmp. rewrite <- Qcompare_antisym. by destruct (x ?= y)%Q. Qed.

(** ** The operators *)

Lemma EvalUnary_spec op d : EvalUnary op (value_of d) = value_of <$> unop op d.
Proof.
  unfold EvalUnary. autorewrite with value_of.
  destruct op, d; try reflexivity; cbn [unop fmap option_fmap option_map value_of]; by rewrite ?IntNeg_integer, ?RatNeg_rational.
Qed.

Lemma evalBoolOp_spec op a b c : bool_op op a b = Some c -> evalBoolOp op a b = bool_value c.
Proof. destruct op; try done; intros [= <-]; by destruct a, b. Qed.

(** The order of two numbers, as the code takes it. *)
Lemma compare_exact l r x y :
  exact_of l = Some x -> exact_of r = Some y -> compare l r = Some (CompareRat (value_of l) (value_of r)).
Proof.
  intros Hl Hr. rewrite (CompareRat_exact _ _ x y) by by apply exact_value.
  destruct l, r; try done; cbn [compare exact_of] in *; by simplify_eq.
Qed.

Lemma compare_mixed l f x :
  exact_of l = Some x -> valid f -> is_finite f = true ->
  compare l (DReal f) = Some (CompareReal (value_of l) f) /\ compare (DReal f) l = Some (- CompareReal (value_of l) f).
Proof.
  intros Hl Hv Hf. rewrite (CompareReal_value l f x) by done.
  destruct l; try done; injection Hl as <-; cbn [compare]; split; try done. by rewrite qcmp_antisym.
Qed.

Lemma finite_not_nan f : is_finite f = true -> IsNaN f = false.
Proof. by destruct f. Qed.

Lemma Cmp_zero c : (Z.opp c =? 0) = (c =? 0).
Proof. lia. Qed.

Lemma SFeqb_order f g : valid f -> valid g -> is_finite f = true -> is_finite g = true ->
  SFeqb f g = (qcmp (real_Q f) (real_Q g) =? 0).
Proof. intros. unfold SFeqb, qcmp. rewrite SFcompare_Q by done. by destruct (real_Q f ?= real_Q g)%Q. Qed.

Lemma compare_reals_order op f g :
  valid f -> valid g -> is_finite f = true -> is_finite g = true ->
  compare_reals op f g = default false (order_op op (qcmp (real_Q f) (real_Q g))).
Proof.
  intros. unfold compare_reals, SFltb, SFleb, qcmp.
  rewrite !SFcompare_Q, <- (Qcompare_antisym (real_Q f)) by done. destruct op; try done; by destruct (real_Q f ?= real_Q g)%Q.
Qed.

Lemma CompareInt_value x y : CompareInt (integer x) (integer y) = qcmp (inject_Z x) (inject_Z y).
Proof. rewrite CompareInt_integer, Cmp_compare. unfold qcmp, Qcompare, inject_Z. cbn. by rewrite !Z.mul_1_r. Qed.

(** Close a case of two numbers of known kinds. *)
Ltac solve_compare :=
  repeat match goal with H : _ /\ _ |- _ => destruct H end;
  match goal with
  | |- context [compare (DInt ?x) (DInt ?y)] => cbn [compare value_of exact_of mbind option_bind]; by rewrite CompareInt_value
  | |- context [compare (DReal ?f) (DReal ?g)] => cbn [compare value_of mbind option_bind AsReal vKind real_value Integer.Real];
      first [by rewrite SFeqb_order|by rewrite compare_reals_order]
  | |- context [compare (DReal ?f) ?l] =>
      destruct (compare_mixed l f _ eq_refl ltac:(done) ltac:(done)) as [_ ->];
      cbn [mbind option_bind]; change (Integer.Real (value_of (DReal f))) with f; by rewrite finite_not_nan, ?Cmp_zero
  | |- context [compare ?l (DReal ?f)] =>
      destruct (compare_mixed l f _ eq_refl ltac:(done) ltac:(done)) as [-> _];
      cbn [mbind option_bind]; change (Integer.Real (value_of (DReal f))) with f; by rewrite finite_not_nan
  | |- context [compare ?l ?r] => by rewrite (compare_exact l r _ _ eq_refl eq_refl)
  end.

Lemma evalEquality_spec op l r :
  good l -> good r -> op = OpEq \/ op = OpNeq ->
  evalEquality op (value_of l) (value_of r) = (fun b => bool_value (if bool_decide (op = OpNeq) then negb b else b)) <$> equal l r.
Proof.
  intros Hl Hr _. unfold evalEquality. set (F := fun b => bool_value _).
  match goal with |- mbind _ ?o = _ => enough (o = equal l r) as -> by by destruct (equal l r) end. clear F.
  autorewrite with value_of. unfold equal.
  destruct l as [x|x|f|b|], r as [y|y|g|c|]; cbn [andb orb]; try reflexivity; cbn [good] in *;
    rewrite ?UnboundedOrder_value by auto; try reflexivity; solve_compare.
Qed.

Definition is_order (op : OperatorKind) : bool := match op with OpLt | OpLe | OpGt | OpGe => true | _ => false end.

Lemma evalComparison_spec op l r :
  good l -> good r -> is_order op = true ->
  evalComparison op (value_of l) (value_of r) = value_of <$> (c ← compare l r; DBool <$> order_op op c).
Proof.
  intros Hl Hr Ho. destruct op; try discriminate; unfold evalComparison, satisfied; autorewrite with value_of.
  all: destruct l as [x|x|f|b|], r as [y|y|g|c|]; cbn [andb orb negb]; try reflexivity; cbn [good] in *;
    rewrite ?UnboundedOrder_value by auto; try reflexivity; solve_compare.
Qed.

(** ** Arithmetic *)

Lemma sized_option r z mb : sized r z mb -> result_option r = value_of <$> within_int mb z.
Proof. unfold sized, within_int. destruct (BitLen z <=? mb); [by intros ->|by intros (b & -> & _)]. Qed.

Lemma sized_rat_option r q mb : sized_rat r q mb -> result_option r = value_of <$> within_rat mb q.
Proof. unfold sized_rat, within_rat. destruct (rat_bits (qrat q) <=? mb); [by intros ->|by intros (b & -> & _)]. Qed.

Lemma finite_real_value f : value_of <$> finite_real f = if IsNaN f || IsInf f then None else Some (real_value f).
Proof. by destruct f. Qed.

Section Arithmetic.
Context (math_Pow : spec_float -> spec_float -> spec_float) (mb : Z).
Context (Hmb : MinMaxIntegerBits <= mb < MaxInt64).

Lemma evalRealArith_spec op f g :
  op <> OpPow -> evalRealArith op f g = value_of <$> real_op math_Pow op f g.
Proof.
  intros Hop. unfold evalRealArith, real_op. destruct op; try done; cbn [RealArith mbind option_bind];
    try (destruct (SFeqb g real_zero); [done|]; cbn [mbind option_bind]); rewrite finite_real_value, orb_comm; done.
Qed.

Lemma RatArith_option op l r x y z :
  exact_of l = Some x -> exact_of r = Some y -> q_op op x y = Some z ->
  result_option (RatArith op (value_of l) (value_of r) mb) = value_of <$> exact_op mb op x y.
Proof.
  intros Hl Hr Hz. unfold exact_op. rewrite Hz. cbn [mbind option_bind].
  pose proof (RatArith_exact op _ _ x y z mb (exact_value _ _ Hl) (exact_value _ _ Hr) Hz) as H.
  destruct (bool_decide _ && _); [by rewrite H|by apply sized_rat_option].
Qed.

Lemma RatPow_option l x n :
  exact_of l = Some x -> result_option (RatPow (value_of l) (integer n) mb) = value_of <$> exact_pow mb x n.
Proof.
  intros Hl. destruct (RatPow_exact _ x n mb (exact_value _ _ Hl) Hmb) as [H0 H1]. unfold exact_pow.
  assert (Hq : Qnum x = 0 <-> (x == 0)%Q) by (rewrite <- q_zero; lia).
  destruct (Z.eqb_spec (Qnum x) 0) as [E|E], (Z.ltb_spec n 0) as [Hn|Hn]; cbn [andb].
  - rewrite H0; [done|by apply Hq|done].
  - apply sized_rat_option, H1. by right.
  - apply sized_rat_option, H1. left. by rewrite <- Hq.
  - apply sized_rat_option, H1. by right.
Qed.

Lemma Pow_real l r f g :
  real_of l = Some f -> real_of r = Some g -> (has_kind (value_of r) ValInt = false \/ exact_of l = None) ->
  result_option (Pow math_Pow (value_of l) (value_of r) mb) = value_of <$> real_pow math_Pow f g.
Proof.
  intros Hl Hr Hk. unfold Pow, real_pow. rewrite (AsReal_value _ _ Hl), (AsReal_value _ _ Hr). autorewrite with value_of in *.
  destruct l as [x|x|a|b|], r as [y|y|c|d|]; try done; try (by destruct Hk); cbn [andb negb orb]; cbv zeta;
    (destruct (SFeqb f real_zero && SFltb g real_zero); [done|]);
    (destruct (SFltb f real_zero && _); [done|]);
    rewrite finite_real_value; by destruct (IsNaN _ || IsInf _).
Qed.

Lemma evalArithmetic_pow l r :
  evalArithmetic math_Pow OpPow (value_of l) (value_of r) mb = value_of <$> arith math_Pow mb OpPow l r.
Proof.
  assert (Hreal : forall f g, real_of l = Some f -> real_of r = Some g -> (has_kind (value_of r) ValInt = false \/ exact_of l = None) ->
    result_option (Pow math_Pow (value_of l) (value_of r) mb) = value_of <$> (f ← real_of l; g ← real_of r; real_op math_Pow OpPow f g)).
  { intros f g Hf Hg Hk. rewrite Hf, Hg. cbn [mbind option_bind real_op]. by apply Pow_real. }
  assert (Hrat : forall x y, exact_of l = Some x -> r = DInt y -> (0 <=? y) && has_kind (value_of l) ValInt = false ->
    result_option (Pow math_Pow (value_of l) (integer y) mb) = value_of <$> exact_pow mb x y).
  { intros x y Hl -> Hk. rewrite <- (RatPow_option l x y Hl). unfold Pow.
    rewrite (has_kind_value (DInt y) ValInt : has_kind (integer y) ValInt = true).
    rewrite (IsNumeric_value (DInt y) : IsNumeric (integer y) = true), IntSign_integer.
    autorewrite with value_of in *. replace (0 <=? Z.sgn y) with (0 <=? y) by lia.
    destruct l; try done. rewrite andb_true_r in Hk. cbn [andb orb negb]. by rewrite Hk. }
  unfold evalArithmetic. rewrite bool_decide_true by done. autorewrite with value_of.
  destruct l as [x|x|f|b|], r as [y|y|g|c|]; cbn [negb orb andb arith]; try done; 
    try (eapply Hreal; [reflexivity..|]; first [by right|by left; rewrite has_kind_value]).
  - destruct (Z.leb_spec 0 y) as [Hy|Hy].
    + rewrite <- (sized_option _ _ _ (IntPow_exact x y mb Hy Hmb)). unfold Pow. autorewrite with value_of. cbn [negb orb andb].
      cbn [value_of]. rewrite IntSign_integer. by rewrite (proj2 (Z.leb_le _ _)) by lia.
    + apply Hrat; [done..|]. by rewrite (proj2 (Z.leb_gt _ _)) by lia.
  - apply Hrat; [done..|]. autorewrite with value_of. apply andb_false_r.
Qed.

Lemma evalArithmetic_spec op l r :
  match op with OpAdd | OpSub | OpMul | OpDiv | OpMod => True | _ => False end ->
  evalArithmetic math_Pow op (value_of l) (value_of r) mb = value_of <$> arith math_Pow mb op l r.
Proof.
  intros Hop. assert (Hreal : forall f g, real_of l = Some f -> real_of r = Some g ->
    evalRealArith op (AsReal (value_of l)) (AsReal (value_of r)) = value_of <$> (f ← real_of l; g ← real_of r; real_op math_Pow op f g)).
  { intros f g Hf Hg. rewrite (AsReal_value _ _ Hf), (AsReal_value _ _ Hg), Hf, Hg. apply evalRealArith_spec. by destruct op. }
  unfold evalArithmetic. rewrite (bool_decide_false (op = OpPow)) by by intros ->. autorewrite with value_of.
  destruct l as [x|x|f|b|], r as [y|y|g|c|]; cbn [negb orb andb].
  all: destruct op; try done; cbn [arith evalIntArith]; try (eapply Hreal; done).
  all: cbn [exact_of mbind option_bind]; try (eapply RatArith_option; reflexivity).
  all: rewrite bool_decide_false by done; cbn [negb value_of].
  all: try (cbn [int_op mbind option_bind]; apply sized_option, IntArith_exact; [apply Hmb|done]).
  destruct (Z.eqb_spec y 0) as [->|Hy]; [done|]. by rewrite IntRem_integer.
Qed.
End Arithmetic.

(** ** Every operator *)

(** [math.Pow] returns a binary64. *)
Definition pow_binary64 (math_Pow : spec_float -> spec_float -> spec_float) : Prop :=
  forall f g, valid (math_Pow f g).

Section Folding.
Context (math_Pow : spec_float -> spec_float -> spec_float) (Hpow : pow_binary64 math_Pow).
Context (mb : Z) (Hmb : MinMaxIntegerBits <= mb < MaxInt64).

Lemma evalBinary_spec op l r :
  good l -> good r -> evalBinaryWithin math_Pow op (value_of l) (value_of r) mb = value_of <$> binop math_Pow mb op l r.
Proof.
  intros Hl Hr. destruct op; try done; cbn [evalBinaryWithin binop];
    try (by apply evalArithmetic_spec); try (by apply evalArithmetic_pow); try (by apply evalComparison_spec).
  7,8: rewrite evalEquality_spec by auto; by destruct (equal l r).
  all: autorewrite with value_of; destruct l, r; try done; cbn [negb orb value_of vBool bool_value];
    by erewrite evalBoolOp_spec.
Qed.

Lemma real_of_valid d f : good d -> real_of d = Some f -> valid f.
Proof. destruct d; cbn; intros Hg [= <-]; [apply nearest_valid..|apply Hg]. Qed.

Lemma finite_real_good f d : valid f -> finite_real f = Some d -> good d.
Proof. unfold finite_real. intros Hv. destruct (is_finite f) eqn:E; [|done]. by intros [= <-]. Qed.

Lemma real_op_good op f g d : valid f -> valid g -> real_op math_Pow op f g = Some d -> good d.
Proof.
  intros Hf Hg. destruct op; try done; cbn [real_op]; try (destruct (SFeqb g real_zero); [done|]).
  1-4: apply finite_real_good; auto using SFadd_valid, SFsub_valid, SFmul_valid, SFdiv_valid.
  unfold real_pow. repeat case_match; try done. by apply finite_real_good.
Qed.

Lemma within_int_good z d : within_int mb z = Some d -> good d.
Proof. unfold within_int. case_match; [by intros [= <-]|done]. Qed.
Lemma within_rat_good q d : within_rat mb q = Some d -> good d.
Proof. unfold within_rat. case_match; [by intros [= <-]|done]. Qed.

Lemma arith_good op l r d : good l -> good r -> arith math_Pow mb op l r = Some d -> good d.
Proof.
  intros Hl Hr. assert (Hm : (f ← real_of l; g ← real_of r; real_op math_Pow op f g) = Some d -> good d).
  { intros (f & Hf & (g & Hg & H)%bind_Some)%bind_Some. 
    eapply real_op_good; [exact (real_of_valid l f Hl Hf)|exact (real_of_valid r g Hr Hg)|exact H]. }
  destruct l, r; cbn [arith]; try (destruct op; exact Hm); destruct op; try exact Hm.
  all: unfold exact_pow, exact_op; cbn [exact_of q_op int_op mbind option_bind]; repeat case_match; try done.
  all: first [apply within_int_good|apply within_rat_good|by intros [= <-]].
Qed.

Lemma binop_good op l r d : good l -> good r -> binop math_Pow mb op l r = Some d -> good d.
Proof.
  intros Hl Hr Hd. destruct (binop math_Pow mb op l r) as [d'|] eqn:E; [|done]. injection Hd as ->.
  destruct op; try done; cbn [binop] in E; try (by apply arith_good in E).
  all: repeat match type of E with
       | _ <$> _ = Some _ => apply fmap_Some in E as (? & _ & ->); done
       | _ ≫= _ = Some _ => apply bind_Some in E as (? & _ & E)
       end.
  all: destruct l, r; try done; by injection E as <-.
Qed.

Lemma unop_good op l d : good l -> unop op l = Some d -> good d.
Proof.
  intros Hl. destruct op, l as [| |f| |]; try done; intros [= <-]; try done. cbn in *. by destruct f.
Qed.

(** ** Expressions *)

Lemma ParseRational_rational text v :
  Z.of_nat (length text) < 2 ^ 60 -> ParseRational text mb = Ok v -> exists q, v = rational q.
Proof.
  intros Hlen Hv. destruct (isRealNotation text) eqn:En; [|unfold ParseRational in Hv; by rewrite En in Hv].
  destruct (notation_inv text En) as (n & Hn & ->). pose proof (spell_length n Hn). unfold MinMaxIntegerBits in Hmb.
  destruct (exp_fits n && (estimate n <=? mb)) eqn:E.
  - apply andb_true_iff in E as [Ef Ee%Z.leb_le].
    pose proof (ParseRational_sized n mb Hn ltac:(lia) ltac:(lia) Ef Ee) as Hs. unfold sized_rat in Hs. rewrite Hv in Hs.
    destruct (_ <=? mb); [injection Hs as ->; eauto|by destruct Hs as (? & ? & _)].
  - destruct (ParseRational_refused n mb Hn ltac:(lia) ltac:(lia) E) as (b & Hb). by rewrite Hb in Hv.
Qed.

Lemma literal_spec text :
  Z.of_nat (length text) < 2 ^ 60 -> result_option (ParseRational text mb) = value_of <$> (DRat <$> literal mb text).
Proof.
  intros Hlen. unfold literal. destruct (ParseRational text mb) as [v|e] eqn:E; [|done].
  destruct (ParseRational_rational text v Hlen E) as [q ->]. cbn [result_option fmap option_fmap option_map value_of].
  rewrite (ratView_exact _ q) by constructor. by rewrite (rational_proper _ _ (rat_Q_qrat q)).
Qed.

(** The folder computes the Value of the denotation, and the denotation is good. *)
Definition folds (n : node) : Prop :=
  evalConst math_Pow n mb = value_of <$> denote math_Pow mb n /\ (forall d, denote math_Pow mb n = Some d -> good d).

Lemma folds_unary op a : folds a -> folds (OperatorExpr op [a]).
Proof.
  intros [He Hg]. unfold folds. cbn [evalConst denote]. split.
  - unfold evalOperator, evalUnary. rewrite He. destruct (denote math_Pow mb a) as [d|]; cbn [fmap option_fmap option_map mbind option_bind];
      [|by destruct op].
    pose proof (EvalUnary_spec op d) as H. destruct op; try exact H; done.
  - intros d (d' & Hd & H)%bind_Some. eapply unop_good; [by apply Hg|exact H].
Qed.

Lemma folds_binary op a b : folds a -> folds b -> folds (OperatorExpr op [a; b]).
Proof.
  intros [Ha Ga] [Hb Gb]. unfold folds. cbn [evalConst denote]. split.
  - unfold evalOperator, evalBinary. rewrite Ha, Hb.
    destruct (denote math_Pow mb a) as [l|] eqn:El; cbn [fmap option_fmap option_map mbind option_bind]; [|by destruct op].
    destruct (denote math_Pow mb b) as [r|] eqn:Er; cbn [fmap option_fmap option_map mbind option_bind]; [|by destruct op].
    pose proof (evalBinary_spec op l r (Ga l eq_refl) (Gb r eq_refl)) as H.
    destruct op; try exact H; done.
  - intros d (l & Hl & (r & Hr & H)%bind_Some)%bind_Some. eapply binop_good; [by apply Ga|by apply Gb|exact H].
Qed.

Lemma folds_conditional op c a b : folds c -> folds a -> folds b -> folds (OperatorExpr op [c; a; b]).
Proof.
  intros [Hc Gc] [Ha Ga] [Hb Gb]. unfold folds. cbn [evalConst denote].
  destruct (decide (op = OpConditional)) as [->|Hop]; [rewrite bool_decide_true by done|rewrite bool_decide_false by done; by destruct op].
  cbn [evalOperator]. rewrite Hc. destruct (denote math_Pow mb c) as [d|]; [|done].
  cbn [fmap option_fmap option_map mbind option_bind]. rewrite has_kind_value.
  destruct d as [| | |[]|]; cbn [negb]; [done|done|done|..|done]; by rewrite ?Ha, ?Hb.
Qed.

Lemma evalConst_folds n : short_literals n -> folds n.
Proof.
  revert n. fix IH 1. intros [text|text|b| |op operands|] Hs; unfold folds.
  - cbn [evalConst denote]. rewrite ParseInteger_eq. by destruct (parse_decimal text); split; try done; intros d [= <-].
  - cbn [evalConst denote]. rewrite literal_spec by exact Hs. split; [done|]. by intros d (q & _ & ->)%fmap_Some_1.
  - by split; [|intros d [= <-]].
  - by split; [|intros d [= <-]].
  - destruct operands as [|a [|b [|c [|x rest]]]]; cbn [short_literals foldr] in Hs; [by destruct op|..|by destruct op].
    + apply folds_unary, IH, Hs.
    + apply folds_binary; apply IH, Hs.
    + apply folds_conditional; apply IH, Hs.
  - done.
Qed.
End Folding.

(** C16: constant folding is evaluation over the integers, the rationals and the
    finite Reals: for any expression it gives the Value of what the expression
    denotes, exact wherever no Real takes part, and declines exactly when an
    operator is undefined on its operands, a Real result is not finite or an exact
    result exceeds the size budget; what it gives is never a NaN or an infinity. *)
Theorem evalConst_denotation math_Pow mb n :
  pow_binary64 math_Pow -> MinMaxIntegerBits <= mb < MaxInt64 -> short_literals n ->
  evalConst math_Pow n mb = value_of <$> denote math_Pow mb n
  /\ (forall d, denote math_Pow mb n = Some d -> good d).
Proof. intros Hp Hm Hn. by apply evalConst_folds. Qed.

(** A power that keeps its base. *)
Definition first_power (f _ : spec_float) : spec_float := if valid_binary prec emax f then f else real_zero.

(** [if 0.1 + 0.2 == 0.3 ? 2 ** 64 else *] is exactly [2 ** 64]. *)
Definition tenths : node :=
  OperatorExpr OpConditional
    [OperatorExpr OpEq [OperatorExpr OpAdd [LiteralReal (bs "0.1"); LiteralReal (bs "0.2")]; LiteralReal (bs "0.3")];
     OperatorExpr OpPow [LiteralInteger (bs "2"); LiteralInteger (bs "64")]; LiteralInfinity].

Lemma evalConst_denotation_witness : evalConst first_power tenths 80 = Some (integer (2 ^ 64)).
Proof.
  destruct (evalConst_denotation first_power 80 tenths) as [-> _].
  - intros f g. unfold first_power. destruct (valid_binary prec emax f) eqn:E; [exact E|vm_compute; reflexivity].
  - unfold MinMaxIntegerBits, MaxInt64. lia.
  - vm_compute. repeat split.
  - vm_compute. reflexivity.
Defined.
