(* ===== verification/Explore.v ===== *)
(** * One exploring run

    Models [internal/exec/runtime/explore.go] and what [choice.go], [scheduler.go]
    and [outcome.go] give it: the choice points a run resolves ([exploreSlot]), the
    run's plan and record ([exploreRun]), the picks of a step's tokens
    ([exploreStep]), and what a run leaves to explore.

    Go's [&slot] pointers into the record are indices here, and a method of a run
    or a step returns the run and the step it leaves. An index out of range, where
    Go panics, is [None]. *)
From Stdlib Require Import Floats.SpecFloat.
From S2P Require Import Prelude Bytes Integer.
Local Open Scope nat_scope.

(** ** Choices *)

Inductive ChoiceKind :=
  | ChoiceTokenOrder | ChoiceDecisionBranch | choiceWriteOrder | ChoiceTransition
  | ChoiceRegionOrder | ChoiceDueOrder | choiceDispatchOrder | choiceEntryOrder
  | choiceExitOrder | choiceStepOrder | choiceEntryStep | choiceStatementOrder
  | choiceGuardOrder.

(** The fields of [ChoicePoint] an exploration reads; the others serve diagnostics. *)
Record ChoicePoint := {
  Kind : ChoiceKind; Step : Z; Where : bytes; Alternatives : list bytes;
  Weights : list spec_float; Drew : spec_float; Drawn : bool }.

Definition no_choice : ChoicePoint :=
  {| Kind := ChoiceTokenOrder; Step := 0; Where := []; Alternatives := []; Weights := [];
     Drew := S754_zero false; Drawn := false |}.

Definition weighted (c : ChoicePoint) : bool :=
  (length c.(Weights) =? length c.(Alternatives)) && (0 <? length c.(Weights)).

Record ChoiceTaken := {
  cKind : ChoiceKind; cStep : Z; cWhere : bytes; cAlternatives : nat; cTaken : nat;
  cAmong : list bytes; cTook : bytes; cWeights : list spec_float; cDrew : spec_float;
  cDrawn : bool }.

(** ** Slots *)

Inductive slotKind := slotPick | slotTokens.
#[export] Instance slotKind_eq_dec : EqDecision slotKind.
Proof. solve_decision. Defined.

Record exploreSlot := {
  kind : slotKind; alternatives : nat; taken : nat; beyond : bool; step : Z;
  tokens : list Z; labels : list bytes; choice : ChoicePoint; described : bool }.

(** A slot as a run faces it. *)
Definition pick_slot (n : nat) : exploreSlot :=
  {| kind := slotPick; alternatives := n; taken := 0; beyond := false; step := 0;
     tokens := []; labels := []; choice := no_choice; described := false |}.
Definition tokens_slot (st : Z) (enabled : list Z) : exploreSlot :=
  {| kind := slotTokens; alternatives := length enabled; taken := 0; beyond := false; step := st;
     tokens := enabled; labels := []; choice := no_choice; described := false |}.

Definition with_taken (s : exploreSlot) (t : nat) (b : bool) : exploreSlot :=
  {| kind := s.(kind); alternatives := s.(alternatives); taken := t; beyond := b; step := s.(step);
     tokens := s.(tokens); labels := s.(labels); choice := s.(choice); described := s.(described) |}.
Definition with_tokens (s : exploreSlot) (n : nat) (toks : list Z) (ls : list bytes) : exploreSlot :=
  {| kind := s.(kind); alternatives := n; taken := s.(taken); beyond := s.(beyond); step := s.(step);
     tokens := toks; labels := ls; choice := s.(choice); described := s.(described) |}.
Definition with_choice (s : exploreSlot) (c : ChoicePoint) : exploreSlot :=
  {| kind := s.(kind); alternatives := s.(alternatives); taken := s.(taken); beyond := s.(beyond);
     step := s.(step); tokens := s.(tokens); labels := s.(labels); choice := c; described := true |}.

(** The same pick, or a step whose tokens able to act include the planned ones. *)
Definition matches (planned faced : exploreSlot) : bool :=
  if negb (bool_decide (planned.(kind) = faced.(kind))) then false
  else match planned.(kind) with
       | slotPick => planned.(alternatives) =? faced.(alternatives)
       | slotTokens => forallb (fun id => bool_decide (id ∈ faced.(tokens))) planned.(tokens)
       end.

(** [alternative %d of %d]. *)
Definition alternative_of (i n : nat) : bytes :=
  bs "alternative " ++ decimal_text (Z.of_nat i) ++ bs " of " ++ decimal_text (Z.of_nat n).

Definition asChoice (s : exploreSlot) : option ChoiceTaken :=
  match s.(kind) with
  | slotTokens =>
      took ← s.(labels) !! s.(taken);
      Some {| cKind := ChoiceTokenOrder; cStep := s.(step); cWhere := []; cAlternatives := s.(alternatives);
              cTaken := s.(taken); cAmong := s.(labels); cTook := took; cWeights := [];
              cDrew := S754_zero false; cDrawn := false |}
  | slotPick =>
      let c := s.(choice) in
      let d := s.(described) in
      let took := if d then default [] (c.(Alternatives) !! s.(taken)) else [] in
      let took := if bool_decide (took = []) then alternative_of (s.(taken) + 1) s.(alternatives) else took in
      let w := d && weighted c in
      Some {| cKind := if d then c.(Kind) else ChoiceDecisionBranch;
              cStep := if d then c.(Step) else 0%Z;
              cWhere := if d then c.(Where) else [];
              cAlternatives := s.(alternatives); cTaken := s.(taken);
              cAmong := if d then c.(Alternatives) else [];
              cTook := took;
              cWeights := if w then c.(Weights) else [];
              cDrew := if w then c.(Drew) else S754_zero false;
              cDrawn := w && c.(Drawn) |}
  end.

(** ** Runs *)

(** How a run left its plan: the choice's number, what it faced and what was
    planned, as the message prints them. *)
Record divergence := { at_choice : nat; faced_slot : exploreSlot; planned_slot : exploreSlot }.

Record exploreRun := {
  prefix : list exploreSlot; depth : nat; record : list exploreSlot; explored : nat;
  depthHit : bool; duplicate : bool; diverged : option divergence }.

Definition start (plan : list exploreSlot) (d : nat) : exploreRun :=
  {| prefix := plan; depth := d; record := []; explored := 0; depthHit := false;
     duplicate := false; diverged := None |}.

Definition set_record (r : exploreRun) (l : list exploreSlot) : exploreRun :=
  {| prefix := r.(prefix); depth := r.(depth); record := l; explored := r.(explored);
     depthHit := r.(depthHit); duplicate := r.(duplicate); diverged := r.(diverged) |}.

Definition set_slot (r : exploreRun) (i : nat) (s : exploreSlot) : exploreRun :=
  set_record r (<[i := s]> r.(record)).

Definition diverge (r : exploreRun) (d : divergence) : exploreRun :=
  match r.(diverged) with
  | Some _ => r
  | None => {| prefix := r.(prefix); depth := r.(depth); record := r.(record); explored := r.(explored);
               depthHit := r.(depthHit); duplicate := r.(duplicate); diverged := Some d |}
  end.

(** The planned alternative within the prefix, the first past it or past the depth
    budget; the slot is recorded as made. *)
Definition resolve (r : exploreRun) (slot : exploreSlot) : exploreRun * exploreSlot :=
  let i := length r.(record) in
  let '(r, slot) :=
    match r.(prefix) !! i with
    | Some planned =>
        if negb (matches planned slot)
        then (diverge r {| at_choice := i + 1; faced_slot := slot; planned_slot := planned |}, slot)
        else
          let slot := with_taken slot planned.(taken) planned.(beyond) in
          (r, if bool_decide (slot.(kind) = slotTokens)
              then with_tokens slot planned.(alternatives) planned.(tokens) slot.(labels) else slot)
    | None =>
        if r.(depth) <=? r.(explored) then (r, with_taken slot slot.(taken) true) else (r, slot)
    end in
  ({| prefix := r.(prefix); depth := r.(depth); record := r.(record) ++ [slot];
      explored := r.(explored) + 1; depthHit := r.(depthHit) || slot.(beyond);
      duplicate := r.(duplicate); diverged := r.(diverged) |}, slot).

Definition pick (r : exploreRun) (n : nat) : exploreRun * nat :=
  let '(r, slot) := resolve r (pick_slot n) in (r, slot.(taken)).

(** The last pick of a record, described. *)
Fixpoint describe_last (l : list exploreSlot) (c : ChoicePoint) : option (list exploreSlot) :=
  match l with
  | [] => None
  | s :: l' =>
      match describe_last l' c with
      | Some l'' => Some (s :: l'')
      | None => match s.(kind) with slotPick => Some (with_choice s c :: l') | slotTokens => None end
      end
  end.
Definition describe (r : exploreRun) (c : ChoicePoint) : exploreRun :=
  set_record r (default r.(record) (describe_last r.(record) c)).

(** [choose] of the scheduler under [explore]: nothing to pick among fewer than two. *)
Definition choose (r : exploreRun) (c : ChoicePoint) (whereOf : option (nat -> bytes)) : exploreRun * nat :=
  let n := length c.(Alternatives) in
  if n <? 2 then (r, 0)
  else
    let '(r, t) := pick r n in
    let c := match whereOf with
             | None => c
             | Some f => {| Kind := c.(Kind); Step := c.(Step); Where := f t;
                            Alternatives := c.(Alternatives); Weights := c.(Weights);
                            Drew := c.(Drew); Drawn := c.(Drawn) |}
             end in
    (describe r c, t).

Inductive follow_error :=
  | FollowDiverged (d : divergence)
  | FollowShort (reached planned : nat).

Definition followed (r : exploreRun) : option follow_error :=
  match r.(diverged) with
  | Some d => Some (FollowDiverged d)
  | None =>
      if length r.(record) <? length r.(prefix)
      then Some (FollowShort (length r.(record)) (length r.(prefix))) else None
  end.

(** [None] where an index is out of range. *)
Definition choices (r : exploreRun) : option (list ChoiceTaken) := mapM asChoice r.(record).

(** The record's choices with an alternative untried within depth, from [i] on. *)
Fixpoint untried (i : nat) (l : list exploreSlot) : list nat :=
  match l with
  | [] => []
  | s :: l' =>
      if s.(beyond) || (s.(alternatives) <=? s.(taken) + 1) then untried (S i) l'
      else i :: untried (S i) l'
  end.
Definition unexplored (r : exploreRun) : list nat :=
  let i := length r.(prefix) - 1 in untried i (drop i r.(record)).

(** What a probe restores. *)
Record mark_state := { m_record : nat; m_explored : nat; m_depthHit : bool; m_diverged : option divergence }.
Definition mark (r : exploreRun) : mark_state :=
  {| m_record := length r.(record); m_explored := r.(explored); m_depthHit := r.(depthHit);
     m_diverged := r.(diverged) |}.
Definition restore (m : mark_state) (r : exploreRun) : exploreRun :=
  {| prefix := r.(prefix); depth := r.(depth); record := take m.(m_record) r.(record);
     explored := m.(m_explored); depthHit := m.(m_depthHit); duplicate := r.(duplicate);
     diverged := m.(m_diverged) |}.

(** ** Steps *)

Record exploreStep := {
  s_step : Z; remaining : list Z; s_held : list Z; slot : option nat; dupBefore : bool;
  moved : bool; s_choice : option exploreSlot }.

Definition sort_ids : list Z -> list Z := merge_sort Z.le.

(** [beginStep]: the tokens of the step, those held last. *)
Definition beginStep (st : Z) (ids held : list Z) : exploreStep :=
  {| s_step := st;
     remaining := sort_ids (filter (fun id => id ∉ held) ids);
     s_held := sort_ids (filter (fun id => id ∈ held) ids);
     slot := None; dupBefore := false; moved := false; s_choice := None |}.

Section Steps.
(** The step's answers: whether a token is able to act now, and its label. *)
Variable enabled : Z -> bool.
Variable label : Z -> bytes.

(** The token to try: [Some None] once there is none, [None] a panic. *)
Definition next (r : exploreRun) (s : exploreStep) : option (exploreRun * exploreStep * option Z) :=
  if s.(moved) then Some (r, s, None)
  else
    match s.(remaining) with
    | [] =>
        match s.(s_held) with
        | [] => Some (r, s, None)
        | id :: held =>
            Some (r, {| s_step := s.(s_step); remaining := []; s_held := held; slot := s.(slot);
                        dupBefore := s.(dupBefore); moved := s.(moved); s_choice := s.(s_choice) |}, Some id)
        end
    | first :: _ =>
        match s.(slot) with
        | Some i =>
            sl ← r.(record) !! i; id ← sl.(tokens) !! sl.(taken); Some (r, s, Some id)
        | None =>
            match filter (fun id => enabled id = true) s.(remaining) with
            | [] => Some (r, s, Some first)
            | [id] => Some (r, s, Some id)
            | able =>
                let dup := r.(duplicate) in
                let '(r, sl) := resolve r (tokens_slot s.(s_step) able) in
                let i := length r.(record) - 1 in
                let r := set_slot r i (with_tokens sl sl.(alternatives) sl.(tokens) (map label sl.(tokens))) in
                id ← sl.(tokens) !! sl.(taken);
                Some (r, {| s_step := s.(s_step); remaining := s.(remaining); s_held := s.(s_held);
                            slot := Some i; dupBefore := dup; moved := s.(moved);
                            s_choice := s.(s_choice) |}, Some id)
            end
        end
    end.
End Steps.

Definition index_of (id : Z) (l : list Z) : option nat := fst <$> list_find (fun x => x = id) l.
Definition remove_id (id : Z) (l : list Z) : list Z :=
  match index_of id l with Some i => delete i l | None => l end.

Definition set_duplicate (r : exploreRun) (d : bool) : exploreRun :=
  {| prefix := r.(prefix); depth := r.(depth); record := r.(record); explored := r.(explored);
     depthHit := r.(depthHit); duplicate := d; diverged := r.(diverged) |}.

(** The open pick without the token that did not act. *)
Definition drop_token (sl : exploreSlot) (id : Z) : exploreSlot :=
  match index_of id sl.(tokens) with
  | Some i => with_tokens sl (sl.(alternatives) - 1) (delete i sl.(tokens)) (delete i sl.(labels))
  | None => sl
  end.

Definition acted (r : exploreRun) (s : exploreStep) (id : Z) (did : bool) : option (exploreRun * exploreStep) :=
  let rest := remove_id id s.(remaining) in
  let upd sl mv ch := {| s_step := s.(s_step); remaining := rest; s_held := s.(s_held); slot := sl;
                         dupBefore := s.(dupBefore); moved := mv; s_choice := ch |} in
  if did then
    match s.(slot) with
    | Some i => sl ← r.(record) !! i; Some (r, upd None true (Some sl))
    | None => Some (r, upd None true s.(s_choice))
    end
  else
    match s.(slot) with
    | None => Some (r, upd None s.(moved) s.(s_choice))
    | Some i =>
        sl ← r.(record) !! i;
        let sl := drop_token sl id in
        if length sl.(tokens) =? 0 then
          let r := set_record r (take i r.(record)) in
          let r := {| prefix := r.(prefix); depth := r.(depth); record := r.(record);
                      explored := r.(explored) - 1; depthHit := r.(depthHit);
                      duplicate := s.(dupBefore); diverged := r.(diverged) |} in
          Some (r, upd None s.(moved) s.(s_choice))
        else if length sl.(tokens) <=? sl.(taken) then
          Some (set_duplicate (set_slot r i (with_taken sl (length sl.(tokens) - 1) sl.(beyond))) true,
                upd (Some i) s.(moved) s.(s_choice))
        else Some (set_slot r i sl, upd (Some i) s.(moved) s.(s_choice))
    end.

(** ** Outcomes *)

(** An output as the two spellings of the object graph give it: rendered, and
    with every name quoted. *)
Record output := { out_name : bytes; rendered : bytes; spelled : bytes }.

(** The observables of a run's outcome, its outputs in name order. *)
Record Outcome := {
  Outputs : list output; FinalState : bytes; StateVisits : list bytes; Terminated : bool;
  o_Err : option bytes; sweepLimit : bool; Scope : list bytes }.
Definition no_outcome : Outcome :=
  {| Outputs := []; FinalState := []; StateVisits := []; Terminated := false; o_Err := None;
     sweepLimit := false; Scope := [] |}.

Fixpoint join (sep : bytes) (parts : list bytes) : bytes :=
  match parts with
  | [] => []
  | [p] => p
  | p :: parts' => p ++ sep ++ join sep parts'
  end.

Section Identity.
(** [strconv.Quote]. *)
Variable Quote : bytes -> bytes.

Definition identity (o : Outcome) : bytes :=
  match o.(o_Err) with
  | Some e => bs "error: " ++ Quote e
  | None =>
      join (bs "; ")
        ([bs "finalState " ++ Quote o.(FinalState)]
         ++ (if o.(Terminated) then [bs "terminated"] else [])
         ++ map (fun v => bs "visit " ++ Quote v) o.(StateVisits)
         ++ map (fun out => Quote out.(out_name) ++ bs " = " ++ out.(spelled)) o.(Outputs))
  end.
End Identity.

Definition Outcome_String (o : Outcome) : bytes :=
  match o.(o_Err) with
  | Some e => bs "error: " ++ e
  | None =>
      let parts :=
        (if o.(Terminated) then [bs "terminated"] else [])
        ++ (if bool_decide (o.(FinalState) = []) then [] else [bs "finalState " ++ o.(FinalState)])
        ++ (if bool_decide (o.(StateVisits) = []) then []
            else [bs "visits " ++ join (bs ", ") o.(StateVisits)])
        ++ map (fun out => out.(out_name) ++ bs " = " ++ out.(rendered)) o.(Outputs) in
      if bool_decide (parts = []) then bs "no outputs" else join (bs "; ") parts
  end.
