(* ===== verification/ExploreFacts.v ===== *)
(** * One exploring run: properties

    A behavior as the tree of the choices it makes: playing it under a plan takes
    the planned alternatives and the first ones after them, and the plans derived
    from what each run leaves unexplored reach every path of the tree once. *)
From Stdlib Require Import Floats.SpecFloat.
From S2P Require Import Prelude Bytes Integer Explore.
Local Open Scope nat_scope.

(** ** Behaviors *)

(** A behavior: the choices it makes, through [choose] or as the move of a step
    all of whose tokens act, and where each leads. *)
Inductive behavior :=
  | Stop (o : Outcome)
  | Choose (c : ChoicePoint) (whereOf : option (nat -> bytes)) (k : nat -> behavior)
  | Move (st : Z) (able : list Z) (label : Z -> bytes) (k : Z -> behavior).

(** One move: the step tries the token the exploration picks, which acts. *)
Definition move (r : exploreRun) (st : Z) (able : list Z) (label : Z -> bytes)
    : option (exploreRun * option Z) :=
  '(r, s, id) ← next (fun _ => true) label r (beginStep st able []);
  match id with
  | None => Some (r, None)
  | Some id => '(r, _) ← acted r s id true; Some (r, Some id)
  end.

(** A run of the behavior; [None] is a panic. *)
Fixpoint play (r : exploreRun) (b : behavior) : option (exploreRun * Outcome) :=
  match b with
  | Stop o => Some (r, o)
  | Choose c whereOf k => let '(r, t) := choose r c whereOf in play r (k t)
  | Move st able label k =>
      '(r, id) ← move r st able label; play r (k (default 0%Z id))
  end.

(** The choices along a path: how many alternatives each had and which was taken,
    the first where the path says nothing. *)
Fixpoint path_of (b : behavior) (ts : list nat) : list (nat * nat) * Outcome :=
  match b with
  | Stop o => ([], o)
  | Choose c _ k =>
      let n := length c.(Alternatives) in
      if n <? 2 then path_of (k 0) ts
      else let '(p, o) := path_of (k (hd 0 ts)) (tl ts) in ((n, hd 0 ts) :: p, o)
  | Move _ able _ k =>
      let toks := sort_ids able in
      let n := length toks in
      if n <? 2 then path_of (k (nth 0 toks 0%Z)) ts
      else let '(p, o) := path_of (k (nth (hd 0 ts) toks 0%Z)) (tl ts) in ((n, hd 0 ts) :: p, o)
  end.

(** A path of the behavior, from its first choice to its end. *)
Definition complete_path (b : behavior) (ts : list nat) : Prop :=
  map snd (path_of b ts).1 = ts /\ Forall (fun '(n, t) => t < n) (path_of b ts).1.

Definition slot_pair (s : exploreSlot) : nat * nat := (s.(alternatives), s.(taken)).

(** What playing fixes of a slot. *)
Definition faced_pick (n : nat) (s : exploreSlot) : Prop := kind s = slotPick /\ alternatives s = n.
Definition faced_tokens (toks : list Z) (s : exploreSlot) : Prop :=
  kind s = slotTokens /\ tokens s = toks /\ alternatives s = length toks.

(** A plan is for the behavior: its slots are those met on the way it takes. *)
Fixpoint plan_for (b : behavior) (plan : list exploreSlot) : Prop :=
  match b with
  | Stop _ => plan = []
  | Choose c _ k =>
      let n := length c.(Alternatives) in
      if n <? 2 then plan_for (k 0) plan
      else match plan with
           | [] => True
           | s :: plan' =>
               faced_pick n s /\ taken s < n /\ beyond s = false /\ plan_for (k (taken s)) plan'
           end
  | Move _ able _ k =>
      let toks := sort_ids able in
      if length toks <? 2 then plan_for (k (nth 0 toks 0%Z)) plan
      else match plan with
           | [] => True
           | s :: plan' =>
               faced_tokens toks s /\ taken s < length toks /\ beyond s = false
               /\ plan_for (k (nth (taken s) toks 0%Z)) plan'
           end
  end.

(** ** A choice made *)

(** The run once it has made one more choice. *)
Definition push (r : exploreRun) (s : exploreSlot) : exploreRun :=
  {| prefix := r.(prefix); depth := r.(depth); record := r.(record) ++ [s];
     explored := r.(explored) + 1; depthHit := r.(depthHit); duplicate := r.(duplicate);
     diverged := r.(diverged) |}.

Definition todo (r : exploreRun) : list exploreSlot := drop (length r.(record)) r.(prefix).

Lemma todo_push r s : todo (push r s) = tl (todo r).
Proof.
  unfold todo. cbn [record prefix push]. rewrite length_app. cbn.
  rewrite <- drop_drop. by destruct (drop (length (record r)) (prefix r)).
Qed.

Lemma todo_lookup r : r.(prefix) !! length r.(record) = head (todo r).
Proof. apply lookup_drop_head. Qed.

Lemma resolve_push r slot :
  beyond slot = false -> taken slot = 0 ->
  match head (todo r) with
  | Some p => matches p slot = true /\ beyond p = false
  | None => r.(explored) < r.(depth)
  end ->
  exists s, resolve r slot = (push r s, s) /\ beyond s = false /\ kind s = kind slot
    /\ taken s = hd 0 (map taken (todo r))
    /\ (kind slot = slotPick -> alternatives s = alternatives slot)
    /\ (kind slot = slotTokens -> match head (todo r) with
          | Some p => tokens s = tokens p /\ alternatives s = alternatives p
          | None => tokens s = tokens slot /\ alternatives s = alternatives slot end).
Proof.
  intros Hb Ht Hp. unfold resolve. rewrite todo_lookup.
  destruct (todo r) as [|p l] eqn:E; cbn [head] in *.
  - rewrite (proj2 (Nat.leb_gt _ _) Hp). exists slot. unfold push. rewrite Hb, orb_false_r. auto 10.
  - destruct Hp as [Hm Hbp]. rewrite Hm. cbn [negb].
    set (s := if bool_decide _ then _ else _).
    assert (Hs : beyond s = false /\ kind s = kind slot /\ taken s = taken p).
    { subst s. case_bool_decide; cbn; auto. }
    destruct Hs as (Hs1 & Hs2 & Hs3). exists s. unfold push. rewrite Hs1, orb_false_r.
    split_and!; [done|done|done|done| |].
    + subst s. intros Hk. cbn [kind with_taken]. by rewrite Hk.
    + subst s. intros Hk. cbn [kind with_taken]. by rewrite Hk.
Qed.

Lemma describe_push r s c :
  kind s = slotPick -> describe (push r s) c = push r (with_choice s c).
Proof.
  intros Hk. unfold describe, push, set_record. cbn [record prefix depth explored depthHit duplicate diverged].
  assert (E : forall l, describe_last (l ++ [s]) c = Some (l ++ [with_choice s c])).
  { induction l as [|x l IH]; cbn [describe_last app]; [by rewrite Hk|by rewrite IH]. }
  by rewrite E.
Qed.

(** Whether the plan's next slot, if any, is the choice faced. *)
Definition expects (P : exploreSlot -> Prop) (n : nat) (r : exploreRun) : Prop :=
  match head (todo r) with
  | Some p => P p /\ taken p < n /\ beyond p = false
  | None => r.(explored) < r.(depth)
  end.

(** A choice made as faced, taking the planned alternative or the first. *)
Definition makes (P : exploreSlot -> Prop) (n : nat) (r : exploreRun) (s : exploreSlot) : Prop :=
  P s /\ beyond s = false /\ alternatives s = n /\ taken s = hd 0 (map taken (todo r))
  /\ taken s < n /\ is_Some (asChoice s).

Lemma makes_taken P n r :
  0 < n -> expects P n r -> hd 0 (map taken (todo r)) < n.
Proof. unfold expects. destruct (todo r); cbn; intros Hn He; [lia|by destruct He as (_ & ? & _)]. Qed.

Lemma asChoice_pick s : kind s = slotPick -> is_Some (asChoice s).
Proof. intros Hk. unfold asChoice. rewrite Hk. by eexists. Qed.

Lemma choose_makes r c w :
  let n := length c.(Alternatives) in
  2 <= n -> expects (faced_pick n) n r ->
  exists s, choose r c w = (push r s, taken s) /\ makes (faced_pick n) n r s.
Proof.
  intros n Hn He. unfold choose. fold n. rewrite (proj2 (Nat.ltb_ge _ _) Hn). unfold pick.
  destruct (resolve_push r (pick_slot n)) as (s & Er & Hb & Hk & Ht & Ha & _); [done|done| |].
  { unfold expects in He. destruct (head (todo r)) as [p|]; [|done]. destruct He as (Hf & _ & Hbp).
    split; [|done]. destruct Hf as [Hkp Hap]. unfold matches. rewrite Hkp.
    cbn [kind pick_slot alternatives]. rewrite bool_decide_true by done. by apply Nat.eqb_eq. }
  rewrite Er. cbn [kind pick_slot] in Hk. rewrite describe_push by done.
  eexists (with_choice s _). split; [reflexivity|]. specialize (Ha eq_refl). cbn [alternatives pick_slot] in Ha.
  unfold makes. cbn [taken beyond alternatives with_choice]. rewrite Ht.
  split_and!; [done|done|done|done|eapply makes_taken; [lia|done]|by apply asChoice_pick].
Qed.

Lemma choose_forced r c w : length c.(Alternatives) < 2 -> choose r c w = (r, 0).
Proof. intros Hn. unfold choose. by rewrite (proj2 (Nat.ltb_lt _ _) Hn). Qed.

Lemma filter_true {A} (l : list A) : filter (fun _ : A => true = true) l = l.
Proof. by apply filter_all, Forall_true. Qed.

Lemma filter_not_nil (l : list Z) : filter (fun id => id ∉ ([] : list Z)) l = l.
Proof. apply filter_all, Forall_true. intros x. apply not_elem_of_nil. Qed.

Lemma begin_remaining st able : remaining (beginStep st able []) = sort_ids able.
Proof. cbn [remaining beginStep]. by rewrite filter_not_nil. Qed.

Lemma begin_held st able : s_held (beginStep st able []) = [].
Proof.
  cbn [s_held beginStep]. assert (E : filter (fun id => id ∈ ([] : list Z)) able = []); [|by rewrite E].
  induction able as [|a l IH]; [done|]. rewrite filter_cons_False; [exact IH|apply not_elem_of_nil].
Qed.

Lemma move_forced r st able label :
  length (sort_ids able) < 2 -> move r st able label = Some (r, head (sort_ids able)).
Proof.
  intros Hn. unfold move, next. rewrite begin_remaining, begin_held. cbn [moved slot beginStep].
  destruct (sort_ids able) as [|a [|b l]] eqn:E; [done| |cbn in Hn; lia].
  rewrite filter_true. cbn [mbind option_bind head]. unfold acted. cbn [slot beginStep]. done.
Qed.

Lemma move_makes r st able label :
  let toks := sort_ids able in
  2 <= length toks -> expects (faced_tokens toks) (length toks) r ->
  exists s, move r st able label = Some (push r s, Some (nth (taken s) toks 0%Z))
    /\ makes (faced_tokens toks) (length toks) r s.
Proof.
  intros toks Hn He. unfold move, next. rewrite begin_remaining. fold toks. cbn [moved slot beginStep].
  destruct toks as [|a [|a' l]] eqn:Etoks; [cbn in Hn; lia|cbn in Hn; lia|]. rewrite filter_true.
  rewrite <- Etoks in *. cbn [s_step beginStep].
  destruct (resolve_push r (tokens_slot st toks)) as (s & Er & Hb & Hk & Ht & _ & Ha); [done|done| |].
  { unfold expects in He. destruct (head (todo r)) as [p|]; [|done]. destruct He as (Hf & _ & Hbp).
    split; [|done]. destruct Hf as (Hkp & Htp & Hap). unfold matches. rewrite Hkp.
    cbn [kind tokens_slot tokens]. rewrite bool_decide_true by done. cbn [negb]. rewrite Htp.
    apply forallb_forall. intros x Hx. apply bool_decide_eq_true. by apply list_elem_of_In. }
  rewrite Er. cbn [kind tokens_slot] in Hk. specialize (Ha eq_refl).
  assert (Hst : tokens s = toks /\ alternatives s = length toks).
  { unfold expects in He. destruct (head (todo r)) as [p|]; [|done].
    destruct He as ((_ & Htp & Hap) & _). destruct Ha as [-> ->]. done. }
  destruct Hst as [Hst Hsa].
  assert (Htk : taken s < length toks) by (rewrite Ht; eapply makes_taken; [lia|done]).
  rewrite Hst. destruct (lookup_lt_is_Some_2 toks (taken s) Htk) as [id Hid]. rewrite Hid.
  cbn [mbind option_bind]. unfold acted. cbn [slot]. unfold set_slot, set_record.
  cbn [record push]. rewrite length_app. cbn [length].
  replace (length (record r) + 1 - 1) with (length (record r)) by lia.
  rewrite insert_app_r_alt by lia. rewrite Nat.sub_diag. cbn [list_insert].
  exists (with_tokens s (alternatives s) toks (map label toks)).
  assert (El : forall x : exploreSlot, (record r ++ <[0 := x]> [s]) !! length (record r) = Some x)
    by (intros x; change (<[0 := x]> [s]) with [x]; by apply list_lookup_middle).
  rewrite El. cbn [mbind option_bind taken with_tokens]. rewrite nth_lookup, Hid. split; [done|].
  unfold makes, faced_tokens. cbn [kind tokens alternatives beyond taken with_tokens].
  split_and!; [done..|]. unfold asChoice. cbn [kind with_tokens labels taken].
  rewrite Hk. rewrite list_lookup_fmap, Hid. by eexists.
Qed.

(** ** Playing a behavior *)

Definition behaved (r : exploreRun) : Prop :=
  r.(explored) = length r.(record) /\ r.(diverged) = None /\ r.(depthHit) = false
  /\ r.(duplicate) = false /\ Forall (fun s => is_Some (asChoice s)) r.(record).

Lemma behaved_push r s : behaved r -> is_Some (asChoice s) -> behaved (push r s).
Proof.
  intros (H1 & H2 & H3 & H4 & H5) Hs. unfold behaved, push. cbn. rewrite H1, length_app. cbn.
  split_and!; [done|done|done|done|]. apply Forall_app. auto.
Qed.

Definition pushes (r : exploreRun) (l : list exploreSlot) : exploreRun := fold_left push l r.

(** What a run of [b] from [r] makes: the slots it adds and its outcome. *)
Definition plays (r : exploreRun) (b : behavior) (l : list exploreSlot) : Prop :=
  let p := path_of b (map taken (todo r)) in
  play r b = Some (pushes r l, p.2) /\ behaved (pushes r l)
  /\ map slot_pair l = p.1 /\ plan_for b l /\ length (todo r) <= length l.

Lemma plays_cons b b' r s n l :
  let ts := map taken (todo r) in
  play r b = play (push r s) b' ->
  path_of b ts = (let '(p, o) := path_of b' (tl ts) in ((n, taken s) :: p, o)) ->
  alternatives s = n -> (plan_for b' l -> plan_for b (s :: l)) ->
  plays (push r s) b' l -> plays r b (s :: l).
Proof.
  intros ts Hplay Hpath Ha Hplan (H1 & H2 & H3 & H4 & H5). unfold plays. fold ts.
  rewrite todo_push in H1, H3, H5. assert (Etl : map taken (tl (todo r)) = tl ts) by (by destruct (todo r)).
  rewrite Etl in H1, H3. rewrite Hpath. destruct (path_of b' (tl ts)) as [p o]. cbn [fst snd] in *.
  rewrite Hplay. change (pushes r (s :: l)) with (pushes (push r s) l).
  split_and!; [done|done| |by apply Hplan|].
  - cbn [map]. unfold slot_pair at 1. by rewrite Ha, H3.
  - destruct (todo r); cbn in *; lia.
Qed.

(** The premises of a choice whose plan and depth allow it. *)
Lemma expects_plan P n r b' m :
  behaved r -> m + length (record r) <= depth r -> 0 < m ->
  match todo r with [] => True | s :: plan' => P s /\ taken s < n /\ beyond s = false /\ plan_for (b' (taken s)) plan' end ->
  expects P n r.
Proof.
  intros (He & _) Hd Hm Hp. unfold expects. destruct (todo r); cbn [head]; [lia|].
  destruct Hp as (? & ? & ? & _). done.
Qed.

Lemma plan_for_nil b : plan_for b [].
Proof.
  induction b as [|c w k IH|st able label k IH]; cbn [plan_for]; [done| |]; by destruct (_ <? 2).
Qed.

Lemma plan_for_tl P n r b' s :
  makes P n r s ->
  match todo r with [] => True | s :: plan' => P s /\ taken s < n /\ beyond s = false /\ plan_for (b' (taken s)) plan' end ->
  plan_for (b' (taken s)) (tl (todo r)).
Proof.
  intros (_ & _ & _ & Ht & _) Hp. rewrite Ht. destruct (todo r); cbn; [apply plan_for_nil|].
  by destruct Hp as (_ & _ & _ & ?).
Qed.

Lemma todo_taken r s : map taken (todo (push r s)) = tl (map taken (todo r)).
Proof. rewrite todo_push. by destruct (todo r). Qed.

(** A choice made leaves what the induction hypothesis asks of the rest. *)
Lemma makes_rest P n r k s p o :
  behaved r -> makes P n r s ->
  match todo r with [] => True | x :: plan' => P x /\ taken x < n /\ beyond x = false /\ plan_for (k (taken x)) plan' end ->
  path_of (k (hd 0 (map taken (todo r)))) (tl (map taken (todo r))) = (p, o) ->
  length (record r) + S (length p) <= depth r ->
  behaved (push r s) /\ plan_for (k (taken s)) (todo (push r s))
  /\ length (record (push r s)) + length (path_of (k (taken s)) (map taken (todo (push r s)))).1 <= depth (push r s).
Proof.
  intros Hr Hm Hp Ep Hd. pose proof (plan_for_tl _ _ _ k s Hm Hp) as Htl.
  destruct Hm as (_ & _ & _ & Ht & _ & Hc). rewrite todo_taken, todo_push, Ht, Ep.
  rewrite Ht in Htl. split_and!; [by apply behaved_push|done|].
  cbn [fst record depth push]. rewrite length_app. cbn. lia.
Qed.

Lemma plays_all b r :
  behaved r -> plan_for b (todo r) ->
  length r.(record) + length (path_of b (map taken (todo r))).1 <= r.(depth) ->
  exists l, plays r b l.
Proof.
  revert r. induction b as [o|c w k IH|st able label k IH]; intros r Hr Hp Hd;
    cbn [plan_for path_of] in Hp, Hd.
  - exists []. unfold plays. by rewrite Hp.
  - set (n := length (Alternatives c)) in *. destruct (n <? 2) eqn:En.
    { destruct (IH 0 r Hr Hp Hd) as (l & Hl). exists l.
      unfold plays in *. cbn [play path_of plan_for]. fold n. rewrite En.
      rewrite choose_forced; [done|by apply Nat.ltb_lt]. }
    destruct (path_of (k (hd 0 (map taken (todo r)))) _) as [p o] eqn:Ep. cbn [fst length] in Hd.
    destruct (choose_makes r c w) as (s & Es & Hm);
      [by apply Nat.ltb_ge|apply (expects_plan _ _ _ k (S (length p))); [done|lia|lia|exact Hp]|].
    destruct (makes_rest _ _ r k s p o Hr Hm Hp Ep Hd) as (R1 & R2 & R3).
    destruct (IH (taken s) (push r s) R1 R2 R3) as (l & Hl).
    destruct Hm as (Hf & Hb & Ha & Ht & Hlt & Hc).
    exists (s :: l). apply (plays_cons _ (k (taken s)) _ _ n); [cbn [play]; by rewrite Es| |done| |done].
    + cbn [path_of]. fold n. by rewrite En, <- Ht.
    + cbn [plan_for]. fold n. by rewrite En.
  - set (toks := sort_ids able) in *. set (n := length toks) in *. destruct (n <? 2) eqn:En.
    { destruct (IH (nth 0 toks 0%Z) r Hr Hp Hd) as (l & Hl). exists l.
      unfold plays in *. cbn [play path_of plan_for]. fold toks n. rewrite En.
      rewrite move_forced by (by apply Nat.ltb_lt). fold toks. by destruct toks. }
    destruct (path_of (k (nth (hd 0 (map taken (todo r))) toks 0%Z)) _) as [p o] eqn:Ep. cbn [fst length] in Hd.
    destruct (move_makes r st able label) as (s & Es & Hm);
      [by apply Nat.ltb_ge|apply (expects_plan _ _ _ (fun t => k (nth t toks 0%Z)) (S (length p))); [done|lia|lia|exact Hp]|].
    destruct (makes_rest _ _ r (fun t => k (nth t toks 0%Z)) s p o Hr Hm Hp Ep Hd) as (R1 & R2 & R3).
    destruct (IH (nth (taken s) toks 0%Z) (push r s) R1 R2 R3) as (l & Hl).
    destruct Hm as (Hf & Hb & Ha & Ht & Hlt & Hc).
    exists (s :: l). apply (plays_cons _ (k (nth (taken s) toks 0%Z)) _ _ n); [cbn [play]; by rewrite Es| |done| |done].
    + cbn [path_of]. fold toks n. by rewrite En, <- Ht.
    + cbn [plan_for]. fold toks n. by rewrite En.
Qed.

Lemma pushes_record r l : record (pushes r l) = record r ++ l.
Proof.
  revert r. induction l as [|s l IH]; intros r; [by rewrite app_nil_r|].
  change (pushes r (s :: l)) with (pushes (push r s) l). rewrite IH. cbn. by rewrite <- app_assoc.
Qed.

Lemma pushes_prefix r l : prefix (pushes r l) = prefix r /\ depth (pushes r l) = depth r.
Proof.
  revert r. induction l as [|s l IH]; intros r; [done|].
  change (pushes r (s :: l)) with (pushes (push r s) l). by destruct (IH (push r s)) as [-> ->].
Qed.

Lemma path_of_own b ts : path_of b (map snd (path_of b ts).1) = path_of b ts.
Proof.
  revert ts. induction b as [o|c w k IH|st able label k IH]; intros ts; cbn [path_of]; [done| |].
  - destruct (_ <? 2); [apply IH|]. destruct (path_of (k (hd 0 ts)) (tl ts)) as [p o] eqn:E.
    cbn [fst map snd hd tl]. specialize (IH (hd 0 ts) (tl ts)). rewrite E in IH. cbn [fst] in IH. by rewrite IH.
  - destruct (_ <? 2); [apply IH|].
    set (id := nth (hd 0 ts) (sort_ids able) 0%Z). destruct (path_of (k id) (tl ts)) as [p o] eqn:E.
    cbn [fst map snd hd tl]. fold id. specialize (IH id (tl ts)). rewrite E in IH. cbn [fst] in IH. by rewrite IH.
Qed.

Lemma plan_for_bounds b l : plan_for b l -> Forall (fun s => taken s < alternatives s /\ beyond s = false) l.
Proof.
  revert l. induction b as [o|c w k IH|st able label k IH]; intros l; cbn [plan_for].
  - intros ->. constructor.
  - destruct (_ <? 2); [apply IH|]. destruct l as [|s l]; [constructor|].
    intros ((_ & Ha) & Ht & Hb & Hl). constructor; [by rewrite Ha|by eapply IH].
  - destruct (_ <? 2); [apply IH|]. destruct l as [|s l]; [constructor|].
    intros ((_ & _ & Ha) & Ht & Hb & Hl). constructor; [by rewrite Ha|by eapply IH].
Qed.

(** A run of [b] under a plan for it, deep enough. *)
Definition deep (b : behavior) (d : nat) : Prop := forall ts, length (path_of b ts).1 <= d.

Lemma run_plays b plan d :
  plan_for b plan -> deep b d ->
  exists l, play (start plan d) b = Some (pushes (start plan d) l, (path_of b (map taken plan)).2)
    /\ behaved (pushes (start plan d) l) /\ map slot_pair l = (path_of b (map taken plan)).1
    /\ plan_for b l /\ length plan <= length l.
Proof.
  intros Hp Hd. destruct (plays_all b (start plan d)) as (l & Hl); [by repeat split; constructor|done|apply Hd|].
  exists l. exact Hl.
Qed.

Lemma taken_pairs l : map taken l = map snd (map slot_pair l).
Proof. by rewrite map_map. Qed.

Lemma record_complete b plan l :
  map slot_pair l = (path_of b (map taken plan)).1 -> plan_for b l ->
  complete_path b (map taken l) /\ path_of b (map taken l) = path_of b (map taken plan).
Proof.
  intros Hl Hp. assert (E : path_of b (map taken l) = path_of b (map taken plan)).
  { rewrite taken_pairs, Hl. apply path_of_own. }
  split; [|done]. unfold complete_path. rewrite E, <- Hl, <- taken_pairs. split; [done|].
  apply Forall_map. eapply Forall_impl; [by apply plan_for_bounds in Hp|]. by intros s [? _].
Qed.

Lemma elem_untried i l j :
  j ∈ untried i l <-> exists s, i <= j /\ l !! (j - i) = Some s /\ beyond s = false /\ taken s + 1 < alternatives s.
Proof.
  revert i. induction l as [|s l IH]; intros i; cbn [untried].
  - split; [by intros ?%not_elem_of_nil|]. intros (s & _ & H & _). by rewrite lookup_nil in H.
  - assert (Hc : j ∈ untried (S i) l <-> exists s', i < j /\ (s :: l) !! (j - i) = Some s' /\ beyond s' = false /\ taken s' + 1 < alternatives s').
    { rewrite IH. split; intros (s' & H1 & H2 & H3); exists s'; (split; [lia|]); (split; [|done]).
      - by replace (j - i) with (S (j - S i)) by lia.
      - by replace (j - i) with (S (j - S i)) in H2 by lia. }
    destruct (beyond s || (alternatives s <=? taken s + 1)) eqn:E.
    + rewrite Hc. split; intros (s' & H1 & H2 & H3 & H4); exists s'; (split; [|done]); [lia|].
      destruct (decide (i = j)) as [->|]; [|lia]. rewrite Nat.sub_diag in H2. injection H2 as <-.
      rewrite H3 in E. apply Nat.leb_le in E. lia.
    + apply orb_false_iff in E as [E1 E2%Nat.leb_gt]. rewrite elem_of_cons, Hc. split.
      * intros [->|(s' & H1 & H2)]; [|exists s'; split; [lia|done]]. exists s. by rewrite Nat.sub_diag.
      * intros (s' & H1 & H2 & H3 & H4). destruct (decide (j = i)) as [->|]; [by left|right].
        exists s'. split; [lia|done].
Qed.

Lemma elem_unexplored r j :
  j ∈ unexplored r <-> exists s, length r.(prefix) - 1 <= j /\ r.(record) !! j = Some s
    /\ beyond s = false /\ taken s + 1 < alternatives s.
Proof.
  unfold unexplored. rewrite elem_untried. split; intros (s & H1 & H2 & H3); exists s; (split; [done|]); (split; [|done]).
  - rewrite lookup_drop in H2. by replace (length (prefix r) - 1 + (j - (length (prefix r) - 1))) with j in H2 by lia.
  - rewrite lookup_drop. by replace (length (prefix r) - 1 + (j - (length (prefix r) - 1))) with j by lia.
Qed.

(** C32: a run of a behavior under a plan for it makes every choice planned, as
    planned, takes the first alternative of every other one, and comes to the
    outcome of that path; it panics nowhere, reports no divergence and has a
    witness, and what it leaves to explore are exactly its choices from its last
    planned one on that have an alternative after the one taken. *)
Theorem run_follows_plan b plan d :
  plan_for b plan -> deep b d ->
  exists r, play (start plan d) b = Some (r, (path_of b (map taken plan)).2)
    /\ map slot_pair r.(record) = (path_of b (map taken plan)).1
    /\ complete_path b (map taken r.(record))
    /\ followed r = None /\ r.(depthHit) = false /\ r.(duplicate) = false /\ is_Some (choices r)
    /\ forall j, j ∈ unexplored r <->
         exists n t, length plan - 1 <= j /\ map slot_pair r.(record) !! j = Some (n, t) /\ t + 1 < n.
Proof.
  intros Hp Hd. destruct (run_plays b plan d Hp Hd) as (l & Hplay & Hb & Hl & Hpl & Hlen).
  exists (pushes (start plan d) l). pose proof (pushes_record (start plan d) l) as Hr.
  destruct (pushes_prefix (start plan d) l) as [Hpre _]. cbn [record start prefix app] in Hr, Hpre.
  destruct (record_complete b plan l Hl Hpl) as [Hc _]. destruct Hb as (H1 & H2 & H3 & H4 & H5).
  rewrite Hr in *. split_and!; [done|done|done| |done|done| |].
  - unfold followed. rewrite H2, Hr, Hpre. by rewrite (proj2 (Nat.ltb_ge _ _) Hlen).
  - unfold choices. rewrite Hr. by apply mapM_is_Some.
  - intros j. rewrite elem_unexplored, Hr, Hpre. apply plan_for_bounds in Hpl. split.
    + intros (s & E1 & E2 & E3 & E4). exists (alternatives s), (taken s).
      by rewrite list_lookup_fmap, E2.
    + intros (n & t & E1 & E2 & E3). rewrite list_lookup_fmap in E2.
      destruct (l !! j) as [s|] eqn:E; [|done]. injection E2 as <- <-. exists s.
      apply Forall_lookup_1 with (i := j) (x := s) in Hpl; [|done]. by destruct Hpl as [_ ?].
Qed.

(** A choice between two, then of two tokens of a step, the second branch planned. *)
Definition tossed : ChoicePoint :=
  {| Kind := ChoiceDecisionBranch; Step := 0; Where := bs "toss"; Alternatives := [bs "heads"; bs "tails"];
     Weights := []; Drew := S754_zero false; Drawn := false |}.
Definition toss : behavior :=
  Choose tossed None (fun t => if t =? 0 then Stop no_outcome else Move 1 [7; 4]%Z (fun _ => bs "token") (fun _ => Stop no_outcome)).

Lemma run_follows_plan_witness :
  exists r, play (start [with_taken (pick_slot 2) 1 false] 9) toss = Some (r, no_outcome)
    /\ map slot_pair r.(record) = [(2, 1); (2, 0)].
Proof.
  destruct (run_follows_plan toss [with_taken (pick_slot 2) 1 false] 9) as (r & H1 & H2 & _).
  - vm_compute. split_and!; (done || lia).
  - intros ts. cbn [path_of toss]. change (length (Alternatives tossed) <? 2) with false. cbn iota.
    destruct (hd 0 ts) as [|n]; vm_compute; lia.
  - by exists r.
Defined.
