(* ===== verification/ExploreQueue.v ===== *)
(** * Exploring with several jobs

    Models [internal/exec/runtime/explore_queue.go]: the queue of prefixes in plan
    order, which jobs take, run and finish concurrently under the queue's mutex,
    the folding of the runs into the exploration's result, and the loop of a job.
    The trie of [explore_probability.go] that folding records into is part of it.

    A prefix is an index into [store], as the Go pointers to it are shared by the
    order, the pending list and the job running it. Each method is one atomic step,
    as the mutex makes it; [system] interleaves the jobs' steps in every way. *)
From Stdlib Require Import Floats.SpecFloat.
From stdpp Require Import gmap.
From S2P Require Import Prelude Bytes Integer Explore.
Local Open Scope nat_scope.

(** ** Results *)

Record ExploreBudget := { b_runs : nat; b_depth : nat }.

(** Why a run gives no outcome: it could not begin, or it left its plan. *)
Inductive prefix_error := SetupError (e : bytes) | NotFollowed (why : follow_error).

Inductive explore_error :=
  | ExploreSetup (e : bytes)
  | ErrExplorationDiverged (run : nat) (why : follow_error)
  | CallerGone.

Record ProbabilityRange := { pr_min : spec_float; pr_max : spec_float }.

Record ExploredOutcome := {
  xOutcome : Outcome; Linearizations : nat; Probability : option ProbabilityRange;
  Witness : option (list ChoiceTaken); WitnessRun : nat }.

Record Exploration := {
  Runs : nat; Outcomes : list ExploredOutcome; BudgetsHit : list bytes;
  Unenumerated : list Z; xScope : list bytes; is_weighted : bool }.
Definition no_exploration : Exploration :=
  {| Runs := 0; Outcomes := []; BudgetsHit := []; Unenumerated := []; xScope := []; is_weighted := false |}.

(** The run of a plan: what the executor's [fresh] and [run] come to. *)
Inductive run_result :=
  | FreshFailed (e : bytes)
  | RunSetupFailed (e : bytes)
  | Ran (replay : exploreRun) (o : Outcome) (gaps : list Z).

Definition mergeGaps (into gaps : list Z) : list Z :=
  merge_sort Z.le (fold_left (fun into g => if bool_decide (g ∈ into) then into else into ++ [g]) gaps into).
Definition scopeWith (scope more : list bytes) : list bytes :=
  merge_sort bytes_le (fold_left (fun sc r => if bool_decide (r ∈ sc) then sc else sc ++ [r]) more scope).

(** ** Probabilities *)

Inductive probabilityNode := PNode {
  n_alternatives : option nat;
  n_shares : option (list spec_float);
  n_children : list (nat * probabilityNode);
  n_outcome : option nat }.
Definition empty_node : probabilityNode := PNode None None [] None.

Definition slotProbabilityShares (s : exploreSlot) : option (list spec_float) :=
  if negb (bool_decide (s.(kind) = slotPick)) || negb s.(described) || negb (weighted s.(choice))
     || (length s.(choice).(Weights) <=? s.(taken))
  then None
  else
    let total := fold_left (SFadd prec emax) s.(choice).(Weights) (S754_zero false) in
    if SFleb total (S754_zero false) then None
    else Some (map (fun w => SFdiv prec emax w total) s.(choice).(Weights)).

(** The association list stands for the map of children. *)
Fixpoint child_at (t : nat) (l : list (nat * probabilityNode)) : option probabilityNode :=
  match l with
  | [] => None
  | (k, n) :: l' => if k =? t then Some n else child_at t l'
  end.
Fixpoint set_child (t : nat) (n : probabilityNode) (l : list (nat * probabilityNode)) : list (nat * probabilityNode) :=
  match l with
  | [] => [(t, n)]
  | (k, m) :: l' => if k =? t then (k, n) :: l' else (k, m) :: set_child t n l'
  end.

(** The path of a run's record through the trie, and whether a choice on it is
    weighted. *)
Fixpoint record_path (node : probabilityNode) (slots : list exploreSlot) (outcome : nat) (leaf : bool)
    : probabilityNode * bool :=
  match slots with
  | [] => (if leaf then PNode node.(n_alternatives) node.(n_shares) node.(n_children) (Some outcome) else node, false)
  | s :: slots' =>
      let alts := match node.(n_alternatives) with
                  | None => s.(alternatives)
                  | Some n => if s.(alternatives) <? n then s.(alternatives) else n
                  end in
      let shares := slotProbabilityShares s in
      let child := default empty_node (child_at s.(taken) node.(n_children)) in
      let '(child, w) := record_path child slots' outcome leaf in
      (PNode (Some alts) (match node.(n_shares) with Some l => Some l | None => shares end)
         (set_child s.(taken) child node.(n_children)) node.(n_outcome),
       negb (is_none shares) || w)
  end.

Definition fmin (a b : spec_float) : spec_float := if SFltb b a then b else a.
Definition fmax (a b : spec_float) : spec_float := if SFltb a b then b else a.

Record probabilityVectors := { v_min : list spec_float; v_max : list spec_float }.
Definition zeros (count : nat) : list spec_float := repeat (S754_zero false) count.
Definition one : spec_float := f64 1 0.

(** A weighted sum over the shares, and the bounds over alternatives a scheduler
    resolves; no share, minimum or maximum here is a NaN or a negative zero. *)
Fixpoint node_probabilities (count : nat) (n : probabilityNode) : probabilityVectors :=
  match n with
  | PNode alts shares ch out =>
      let vecs := (fix go l := match l with
                   | [] => [] | (k, c) :: l' => (k, node_probabilities count c) :: go l' end) ch in
      let at_child t := snd <$> List.find (fun kv => fst kv =? t) vecs in
      match out with
      | Some o => {| v_min := <[o := one]> (zeros count); v_max := <[o := one]> (zeros count) |}
      | None =>
          match shares with
          | Some ((_ :: _) as ss) =>
              let add (pick : probabilityVectors -> list spec_float) :=
                fold_left (fun acc '(t, share) =>
                    match at_child t with
                    | None => acc
                    | Some v => zip_with (fun a x => SFadd prec emax a (SFmul prec emax share x)) acc (pick v)
                    end) (imap pair ss) (zeros count) in
              {| v_min := add v_min; v_max := add v_max |}
          | _ =>
              let bounds :=
                match vecs with
                | [] => {| v_min := zeros count; v_max := zeros count |}
                | (_, v) :: vs =>
                    fold_left (fun acc '(_, w) => {| v_min := zip_with fmin acc.(v_min) w.(v_min);
                                                     v_max := zip_with fmax acc.(v_max) w.(v_max) |}) vs v
                end in
              if match alts with Some a => length ch <? a | None => false end
              then {| v_min := zeros count; v_max := bounds.(v_max) |} else bounds
          end
      end
  end.

(** ** Prefixes *)

Inductive prefixState := prefixQueued | prefixRunning | prefixDone | prefixDropped.
#[export] Instance prefixState_eq_dec : EqDecision prefixState.
Proof. solve_decision. Defined.

Record explorePrefix := {
  p_record : option (list exploreSlot); departs : nat; p_key : list nat; p_index : nat;
  p_state : prefixState; p_replay : option exploreRun; p_outcome : Outcome; p_identity : bytes;
  p_gaps : list Z; p_err : option prefix_error }.

Definition new_prefix (rec : option (list exploreSlot)) (d : nat) (key : list nat) : explorePrefix :=
  {| p_record := rec; departs := d; p_key := key; p_index := 0; p_state := prefixQueued;
     p_replay := None; p_outcome := no_outcome; p_identity := []; p_gaps := []; p_err := None |}.

Definition set_state (st : prefixState) (p : explorePrefix) : explorePrefix :=
  {| p_record := p.(p_record); departs := p.(departs); p_key := p.(p_key); p_index := p.(p_index);
     p_state := st; p_replay := p.(p_replay); p_outcome := p.(p_outcome);
     p_identity := p.(p_identity); p_gaps := p.(p_gaps); p_err := p.(p_err) |}.
Definition set_index (i : nat) (p : explorePrefix) : explorePrefix :=
  {| p_record := p.(p_record); departs := p.(departs); p_key := p.(p_key); p_index := i;
     p_state := p.(p_state); p_replay := p.(p_replay); p_outcome := p.(p_outcome);
     p_identity := p.(p_identity); p_gaps := p.(p_gaps); p_err := p.(p_err) |}.
Definition release (p : explorePrefix) : explorePrefix :=
  {| p_record := p.(p_record); departs := p.(departs); p_key := p.(p_key); p_index := p.(p_index);
     p_state := p.(p_state); p_replay := None; p_outcome := no_outcome;
     p_identity := p.(p_identity); p_gaps := p.(p_gaps); p_err := None |}.
(** The run's answer: the record, which nothing reads any more, goes, and what it
    came to is kept. *)
Definition answered (st : prefixState) (replay : option exploreRun) (o : Outcome) (ident : bytes)
    (gaps : list Z) (e : option prefix_error) (p : explorePrefix) : explorePrefix :=
  {| p_record := None; departs := p.(departs); p_key := p.(p_key); p_index := p.(p_index);
     p_state := st; p_replay := replay; p_outcome := o; p_identity := ident; p_gaps := gaps; p_err := e |}.

(** The record up to the departure, which takes its next alternative. *)
Definition plan_from (record : list exploreSlot) (departs : nat) : list exploreSlot :=
  alter (fun s => with_taken s (s.(taken) + 1) s.(beyond)) departs (take (departs + 1) record).
Definition plan (p : explorePrefix) : list exploreSlot :=
  match p.(p_record) with None => [] | Some rec => plan_from rec p.(departs) end.

(** [slices.Compare(a, b) < 0]. *)
Fixpoint key_lt (a b : list nat) : bool :=
  match a, b with
  | [], [] => false
  | [], _ :: _ => true
  | _ :: _, [] => false
  | x :: a', y :: b' => if x <? y then true else if y <? x then false else key_lt a' b'
  end.
Definition key_before (a b : list nat) : bool :=
  if negb (length a =? length b) then length a <? length b else key_lt a b.
Definition before (p o : explorePrefix) : bool := key_before p.(p_key) o.(p_key).

(** ** The queue *)

Record exploreQueue := {
  budget : ExploreBudget; jobs : nat; store : list explorePrefix;
  order : list nat; frontier : nat; running : nat; pending : list nat; discarded : nat;
  q_beyond : bool; q_done : bool; q_result : Exploration; reached : gmap bytes nat;
  probabilities : probabilityNode; q_depthHit : bool; q_err : option explore_error }.

Definition no_prefix : explorePrefix := new_prefix None 0 [].
Definition at_ (q : exploreQueue) (id : nat) : explorePrefix := default no_prefix (q.(store) !! id).

Definition set_store (q : exploreQueue) (s : list explorePrefix) : exploreQueue :=
  {| budget := q.(budget); jobs := q.(jobs); store := s; order := q.(order); frontier := q.(frontier);
     running := q.(running); pending := q.(pending); discarded := q.(discarded);
     q_beyond := q.(q_beyond); q_done := q.(q_done); q_result := q.(q_result); reached := q.(reached);
     probabilities := q.(probabilities); q_depthHit := q.(q_depthHit); q_err := q.(q_err) |}.
Definition upd (f : explorePrefix -> explorePrefix) (id : nat) (q : exploreQueue) : exploreQueue :=
  set_store q (alter f id q.(store)).

Definition set_order (q : exploreQueue) (o : list nat) (b : bool) : exploreQueue :=
  {| budget := q.(budget); jobs := q.(jobs); store := q.(store); order := o; frontier := q.(frontier);
     running := q.(running); pending := q.(pending); discarded := q.(discarded);
     q_beyond := b; q_done := q.(q_done); q_result := q.(q_result); reached := q.(reached);
     probabilities := q.(probabilities); q_depthHit := q.(q_depthHit); q_err := q.(q_err) |}.
Definition set_runs (q : exploreQueue) (run : nat) (pend : list nat) (disc : nat) (dn : bool) : exploreQueue :=
  {| budget := q.(budget); jobs := q.(jobs); store := q.(store); order := q.(order); frontier := q.(frontier);
     running := run; pending := pend; discarded := disc; q_beyond := q.(q_beyond); q_done := dn;
     q_result := q.(q_result); reached := q.(reached); probabilities := q.(probabilities);
     q_depthHit := q.(q_depthHit); q_err := q.(q_err) |}.

(** The first failure; [q.wake.Broadcast()] is in the step that fails. *)
Definition fail (q : exploreQueue) (e : explore_error) : exploreQueue :=
  {| budget := q.(budget); jobs := q.(jobs); store := q.(store); order := q.(order); frontier := q.(frontier);
     running := q.(running); pending := q.(pending); discarded := q.(discarded);
     q_beyond := q.(q_beyond); q_done := true; q_result := q.(q_result); reached := q.(reached);
     probabilities := q.(probabilities); q_depthHit := q.(q_depthHit);
     q_err := match q.(q_err) with None => Some e | Some e => Some e end |}.

(** The first occurrence taken off the pending list. *)
Fixpoint remove_first (id : nat) (l : list nat) : list nat :=
  match l with [] => [] | x :: l' => if x =? id then l' else x :: remove_first id l' end.
Definition forget (id : nat) (q : exploreQueue) : exploreQueue :=
  set_runs q q.(running) (remove_first id q.(pending)) q.(discarded) q.(q_done).

(** [slices.BinarySearchFunc] over the order: the loop halves [j - i]. *)
Fixpoint search (fuel : nat) (lt : nat -> bool) (l : list nat) (i j : nat) : nat :=
  match fuel with
  | O => i
  | S fuel' =>
      if i <? j then
        let h := (i + j) / 2 in
        if match l !! h with Some id => lt id | None => false end
        then search fuel' lt l (h + 1) j else search fuel' lt l i h
      else i
  end.
Definition search_position (q : exploreQueue) (p : explorePrefix) : nat :=
  let n := length q.(order) in
  search (S n) (fun id => before (at_ q id) p) q.(order) 0 n.

(** A prefix past the runs cut: a started run among them is discarded. *)
Definition drop_prefix (q : exploreQueue) (id : nat) : exploreQueue :=
  let st := (at_ q id).(p_state) in
  let q := if bool_decide (st = prefixRunning \/ st = prefixDone)
           then forget id (set_runs q q.(running) q.(pending) (q.(discarded) + 1) q.(q_done)) else q in
  upd (fun p => release (set_state prefixDropped p)) id q.

(** [q.order[i].index = i], from [i] on. *)
Fixpoint reindex (ids : list nat) (i : nat) (q : exploreQueue) : exploreQueue :=
  match ids with [] => q | id :: ids' => reindex ids' (S i) (upd (set_index i) id q) end.

Definition insert_prefixes (prefixes : list explorePrefix) (q : exploreQueue) : exploreQueue :=
  match prefixes with
  | [] => q
  | first :: _ =>
      let at' := search_position q first in
      let new := seq (length q.(store)) (length prefixes) in
      let ord := take at' q.(order) ++ new ++ drop at' q.(order) in
      let q := set_order (set_store q (q.(store) ++ prefixes)) ord q.(q_beyond) in
      let runs := q.(budget).(b_runs) in
      let q := if runs <? length ord then
                 let q := fold_left drop_prefix (drop runs ord) (set_order q ord true) in
                 set_order q (take runs ord) true
               else q in
      reindex (drop at' q.(order)) at' q
  end.

Definition newExploreQueue (b : ExploreBudget) (njobs : nat) : exploreQueue :=
  insert_prefixes [new_prefix None 0 []]
    {| budget := b; jobs := Nat.max (Nat.min njobs b.(b_runs)) 1; store := []; order := [];
       frontier := 0; running := 0; pending := []; discarded := 0; q_beyond := false; q_done := false;
       q_result := no_exploration; reached := ∅; probabilities := empty_node; q_depthHit := false;
       q_err := None |}.

(** ** Starting runs *)

Definition speculative (q : exploreQueue) : nat :=
  length (filter (fun id => q.(frontier) < (at_ q id).(p_index)) q.(pending)).

(** The loop over [order] from position [i]. *)
Fixpoint first_startable (ids : list nat) (i : nat) (q : exploreQueue) : option nat :=
  match ids with
  | [] => None
  | id :: ids' =>
      if negb (bool_decide ((at_ q id).(p_state) = prefixQueued)) then first_startable ids' (S i) q
      else if (i =? q.(frontier)) || (q.(discarded) + speculative q <? q.(jobs)) then Some id else None
  end.
Definition startable (q : exploreQueue) : option nat :=
  first_startable (drop q.(frontier) q.(order)) q.(frontier) q.

Inductive next_answer := NextPrefix (id : nat) | NextWait | NextOver.

(** One round of [next]: the queue, the answer, and whether it woke the others. *)
Definition next_prefix (stopped : bool) (q : exploreQueue) : exploreQueue * next_answer * bool :=
  if q.(q_done) then (q, NextOver, false)
  else if q.(frontier) =? length q.(order) then
    if q.(running) =? 0 then (set_runs q q.(running) q.(pending) q.(discarded) true, NextOver, true)
    else (q, NextWait, false)
  else if stopped then (fail q CallerGone, NextOver, true)
  else
    match startable q with
    | Some id =>
        let q := upd (set_state prefixRunning) id q in
        (set_runs q (q.(running) + 1) (q.(pending) ++ [id]) q.(discarded) q.(q_done), NextPrefix id, false)
    | None => (q, NextWait, false)
    end.

(** ** Folding *)

Definition bound_statement_orders : bytes := bs "statement orders".

Definition set_fold (q : exploreQueue) (x : Exploration) (seen : gmap bytes nat) (t : probabilityNode) (d : bool)
    : exploreQueue :=
  {| budget := q.(budget); jobs := q.(jobs); store := q.(store); order := q.(order); frontier := q.(frontier);
     running := q.(running); pending := q.(pending); discarded := q.(discarded);
     q_beyond := q.(q_beyond); q_done := q.(q_done); q_result := x; reached := seen;
     probabilities := t; q_depthHit := d; q_err := q.(q_err) |}.

(** What folding threads: the result, the outcomes reached, the trie, the depth flag. *)
Record folded := {
  f_result : Exploration; f_reached : gmap bytes nat; f_trie : probabilityNode; f_depthHit : bool }.

(** A followed run taken into the result as run [run]. *)
Definition fold_run (f : folded) (run : nat) (replay : exploreRun) (o : Outcome) (ident : bytes) (gaps : list Z)
    : folded :=
  let x := f.(f_result) in
  let hits := if o.(sweepLimit) && negb (bool_decide (bound_statement_orders ∈ x.(BudgetsHit)))
              then x.(BudgetsHit) ++ [bound_statement_orders] else x.(BudgetsHit) in
  let '(outs, seen, i, leaf) :=
    match f.(f_reached) !! ident with
    | None =>
        (x.(Outcomes) ++ [{| xOutcome := o; Linearizations := 1; Probability := None; Witness := choices replay; WitnessRun := run |}],
         <[ident := length x.(Outcomes)]> f.(f_reached), length x.(Outcomes), negb replay.(duplicate))
    | Some i =>
        if negb replay.(duplicate)
        then (alter (fun e => {| xOutcome := e.(xOutcome); Linearizations := e.(Linearizations) + 1;
                                 Probability := e.(Probability); Witness := e.(Witness); WitnessRun := e.(WitnessRun) |}) i x.(Outcomes),
              f.(f_reached), i, true)
        else (x.(Outcomes), f.(f_reached), i, false)
    end in
  let '(trie, w) := record_path f.(f_trie) replay.(record) i leaf in
  {| f_result := {| Runs := run; Outcomes := outs; BudgetsHit := hits;
                    Unenumerated := mergeGaps x.(Unenumerated) gaps;
                    xScope := scopeWith x.(xScope) o.(Scope); is_weighted := x.(is_weighted) || w |};
     f_reached := seen; f_trie := trie; f_depthHit := f.(f_depthHit) || replay.(depthHit) |}.

Definition with_frontier (q : exploreQueue) : exploreQueue :=
  let x := q.(q_result) in
  {| budget := q.(budget); jobs := q.(jobs); store := q.(store); order := q.(order); frontier := q.(frontier) + 1;
     running := q.(running); pending := q.(pending); discarded := q.(discarded);
     q_beyond := q.(q_beyond); q_done := q.(q_done);
     q_result := {| Runs := q.(frontier) + 1; Outcomes := x.(Outcomes); BudgetsHit := x.(BudgetsHit);
                    Unenumerated := x.(Unenumerated); xScope := x.(xScope); is_weighted := x.(is_weighted) |};
     reached := q.(reached); probabilities := q.(probabilities); q_depthHit := q.(q_depthHit); q_err := q.(q_err) |}.

Definition fold_of (q : exploreQueue) : folded :=
  {| f_result := q.(q_result); f_reached := q.(reached); f_trie := q.(probabilities); f_depthHit := q.(q_depthHit) |}.

(** The done prefix [id] at the frontier. A failed setup has no replay and a run
    that left its plan has one; [None] where there is neither an error nor a replay,
    which Go would dereference, and for the two combinations [finish] never makes. *)
Definition fold_one (id : nat) (q : exploreQueue) : option (exploreQueue * bool) :=
  let p := at_ q id in
  let q := with_frontier (forget id q) in
  match p.(p_err), p.(p_replay) with
  | Some (SetupError e), None => Some (fail q (ExploreSetup e), false)
  | Some (NotFollowed why), Some _ => Some (fail q (ErrExplorationDiverged q.(frontier) why), false)
  | None, Some replay =>
      let f := fold_run (fold_of q) q.(frontier) replay p.(p_outcome) p.(p_identity) p.(p_gaps) in
      Some (upd release id (set_fold q f.(f_result) f.(f_reached) f.(f_trie) f.(f_depthHit)), true)
  | _, _ => None
  end.

(** The loop of [fold] over the order from the frontier on. *)
Fixpoint fold_loop (ids : list nat) (q : exploreQueue) : option exploreQueue :=
  match ids with
  | [] => Some q
  | id :: ids' =>
      if bool_decide ((at_ q id).(p_state) = prefixDone) then
        '(q, go) ← fold_one id q; if go : bool then fold_loop ids' q else Some q
      else Some q
  end.
Definition fold (q : exploreQueue) : option exploreQueue := fold_loop (drop q.(frontier) q.(order)) q.

(** ** Finishing runs *)

Section Jobs.
(** [strconv.Quote], and the executor: the run that [fresh] and [run] make of a plan. *)
Variable Quote : bytes -> bytes.
Variable execute : list exploreSlot -> run_result.

(** The prefixes a run leaves, sharing its record up to the last departure. *)
Definition children (p : explorePrefix) (replay : exploreRun) : list explorePrefix :=
  let un := unexplored replay in
  let shared := take (default 0 (last un) + 1) replay.(record) in
  imap (fun i d => new_prefix (Some shared) d (p.(p_key) ++ [i])) un.

(** What [work] gives [finish] of the run. *)
Definition run_answer (pl : list exploreSlot) : option exploreRun * Outcome * bytes * list Z * option prefix_error :=
  match execute pl with
  | FreshFailed e | RunSetupFailed e => (None, no_outcome, [], [], Some (SetupError e))
  | Ran replay o gaps =>
      match followed replay with
      | Some why => (Some replay, o, [], gaps, Some (NotFollowed why))
      | None => (Some replay, o, identity Quote o, gaps, None)
      end
  end.

Definition finish (id : nat) (q : exploreQueue) : option exploreQueue :=
  let p := at_ q id in
  let '(replay, o, ident, gaps, e) := run_answer (plan p) in
  let q := set_runs q (q.(running) - 1) q.(pending) q.(discarded) q.(q_done) in
  if bool_decide (p.(p_state) = prefixDropped) || q.(q_done)
  then Some (upd (answered p.(p_state) p.(p_replay) p.(p_outcome) ident gaps p.(p_err)) id q)
  else
    let q := upd (answered prefixDone replay o ident gaps e) id q in
    let q := match e, replay with
             | None, Some r => insert_prefixes (children p r) q
             | _, _ => q
             end in
    fold q.

(** ** Jobs *)

(** A job between its calls: about to ask for a prefix, waiting on the condition
    variable, running a prefix, or returned. *)
Inductive job := Ready | Waiting | Running (id : nat) | Exited.
#[export] Instance job_eq_dec : EqDecision job.
Proof. solve_decision. Defined.

(** The jobs on their queue; whether the caller went away, and whether [watch] has
    woken the jobs since. *)
Record system := { queue : exploreQueue; workers : list job; stopped : bool; watched : bool }.

Definition wake (js : list job) : list job :=
  map (fun j => match j with Waiting => Ready | _ => j end) js.

Definition init (b : ExploreBudget) (njobs : nat) : system :=
  let q := newExploreQueue b njobs in
  {| queue := q; workers := repeat Ready q.(jobs); stopped := false; watched := false |}.

Definition after_next (a : next_answer) : job :=
  match a with NextPrefix id => Running id | NextWait => Waiting | NextOver => Exited end.

Inductive sys_step : system -> system -> Prop :=
  | step_next s j q' a woke :
      s.(workers) !! j = Some Ready ->
      next_prefix s.(stopped) s.(queue) = (q', a, woke) ->
      sys_step s {| queue := q';
                    workers := <[j := after_next a]> (if woke : bool then wake s.(workers) else s.(workers));
                    stopped := s.(stopped); watched := s.(watched) |}
  | step_finish s j id q' :
      s.(workers) !! j = Some (Running id) ->
      finish id s.(queue) = Some q' ->
      sys_step s {| queue := q'; workers := <[j := Ready]> (wake s.(workers));
                    stopped := s.(stopped); watched := s.(watched) |}
  | step_stop s :
      s.(stopped) = false ->
      sys_step s {| queue := s.(queue); workers := s.(workers); stopped := true; watched := false |}
  | step_watch s :
      s.(stopped) = true -> s.(watched) = false ->
      sys_step s {| queue := s.(queue); workers := wake s.(workers); stopped := true; watched := true |}.

(** ** The exploration *)

Fixpoint insert_outcome (o : ExploredOutcome) (l : list ExploredOutcome) : list ExploredOutcome :=
  let lt (a b : ExploredOutcome) :=
    let sa := Outcome_String a.(xOutcome) in
    let sb := Outcome_String b.(xOutcome) in
    if bool_decide (sa = sb) then bytes_ltb (identity Quote a.(xOutcome)) (identity Quote b.(xOutcome))
    else bytes_ltb sa sb in
  match l with
  | [] => [o]
  | x :: l' => if lt o x then o :: l else x :: insert_outcome o l'
  end.
(** [sort.SliceStable]: each outcome behind those it is not less than. *)
Definition sortOutcomes (l : list ExploredOutcome) : list ExploredOutcome :=
  fold_left (fun l o => insert_outcome o l) l [].

(** Each outcome's range, from the trie. *)
Definition setOutcomeProbabilities (root : probabilityNode) (outs : list ExploredOutcome) : list ExploredOutcome :=
  let v := node_probabilities (length outs) root in
  imap (fun i o => {| xOutcome := o.(xOutcome); Linearizations := o.(Linearizations);
                      Probability := Some {| pr_min := nth i v.(v_min) (S754_zero false);
                                             pr_max := nth i v.(v_max) (S754_zero false) |};
                      Witness := o.(Witness); WitnessRun := o.(WitnessRun) |}) outs.

(** What [explore] returns once every job has, from the folded result. *)
Definition assemble (f : folded) (beyond : bool) : Exploration :=
  let x := f.(f_result) in
  let outs := if x.(is_weighted) then setOutcomeProbabilities f.(f_trie) x.(Outcomes) else x.(Outcomes) in
  {| Runs := x.(Runs); Outcomes := sortOutcomes outs;
     BudgetsHit := x.(BudgetsHit) ++ (if beyond then [bs "runs"] else [])
                   ++ (if f.(f_depthHit) then [bs "depth"] else []);
     Unenumerated := x.(Unenumerated); xScope := x.(xScope); is_weighted := x.(is_weighted) |}.

Definition explored_result (q : exploreQueue) : result explore_error Exploration :=
  match q.(q_err) with
  | Some e => Err e
  | None => Ok (assemble (fold_of q) q.(q_beyond))
  end.

Definition Complete (x : Exploration) : bool :=
  bool_decide (x.(BudgetsHit) = []) && bool_decide (x.(Unenumerated) = []).
End Jobs.
