(* ===== verification/ExploreReference.v ===== *)
(** * Exploring in plan order

    The specification of an exploration: runs made one after another, breadth
    first over the prefixes each leaves, the prefixes past the runs budget cut
    ([explore_in_order]). The prefixes form a tree, named by keys; [tree_inv] is
    what holds of any list of them explored in part, in whatever order. *)
From stdpp Require Import gmap.
From S2P Require Import Prelude Bytes Explore ExploreQueue.
Local Open Scope nat_scope.

(** ** Plan order

    The order of the exploration's prefixes: a strict total order in which a prefix
    comes before those derived from it, and prefixes derived from a run before
    those derived from a later one. A list of keys that is sorted and closed
    downwards among the valid keys is determined by its length. *)

Definition Before (a b : list nat) : Prop := key_before a b = true.

Lemma key_lt_irrefl a : key_lt a a = false.
Proof. induction a as [|x a IH]; [done|]. cbn [key_lt]. by rewrite Nat.ltb_irrefl. Qed.

Lemma key_lt_trans a b c : key_lt a b = true -> key_lt b c = true -> key_lt a c = true.
Proof.
  revert b c. induction a as [|x a IH]; intros [|y b] [|z c]; cbn [key_lt]; try done.
  destruct (Nat.ltb_spec x y), (Nat.ltb_spec y x), (Nat.ltb_spec y z), (Nat.ltb_spec z y),
    (Nat.ltb_spec x z), (Nat.ltb_spec z x); try done; try lia. apply IH.
Qed.

Lemma key_lt_total a b : a = b \/ key_lt a b = true \/ key_lt b a = true.
Proof.
  revert b. induction a as [|x a IH]; intros [|y b]; cbn [key_lt]; auto.
  destruct (Nat.ltb_spec x y), (Nat.ltb_spec y x); auto.
  assert (x = y) as -> by lia. destruct (IH b) as [->|[H'|H']]; auto.
Qed.

Lemma Before_spec a b : Before a b <-> length a < length b \/ length a = length b /\ key_lt a b = true.
Proof.
  unfold Before, key_before. destruct (Nat.eqb_spec (length a) (length b)) as [E|E]; cbn [negb].
  - rewrite E. split; [auto|]. intros [|[]]; [lia|done].
  - rewrite Nat.ltb_lt. split; [auto|]. intros [|[]]; [done|lia].
Qed.

Lemma Before_irrefl a : ~ Before a a.
Proof. rewrite Before_spec, key_lt_irrefl. intros [|[]]; [lia|done]. Qed.

Lemma Before_trans a b c : Before a b -> Before b c -> Before a c.
Proof.
  rewrite !Before_spec. intros [|[]] [|[]]; try (left; lia). right. split; [lia|by eapply key_lt_trans].
Qed.

#[export] Instance Before_transitive : Transitive Before.
Proof. intros a b c. apply Before_trans. Qed.

Lemma Before_total a b : a = b \/ Before a b \/ Before b a.
Proof.
  rewrite !Before_spec. destruct (Nat.lt_trichotomy (length a) (length b)) as [|[E|]]; auto.
  rewrite E. destruct (key_lt_total a b) as [|[|]]; auto.
Qed.

Lemma Before_asym a b : Before a b -> ~ Before b a.
Proof. intros H1 H2. by apply (Before_irrefl a), (Before_trans _ b). Qed.

Lemma Before_not a b : key_before a b = false <-> a = b \/ Before b a.
Proof.
  split.
  - intros H. destruct (Before_total a b) as [|[H'|]]; [auto| |auto]. unfold Before in H'. congruence.
  - intros [->|H]; apply not_true_iff_false; [apply Before_irrefl|by apply Before_asym].
Qed.

Lemma Before_child k i : Before k (k ++ [i]).
Proof. apply Before_spec. rewrite length_app. cbn. lia. Qed.

Lemma key_lt_snoc a b i j :
  length a = length b -> key_lt (a ++ [i]) (b ++ [j]) = key_lt a b || (bool_decide (a = b) && (i <? j)).
Proof.
  revert b. induction a as [|x a IH]; intros [|y b] Hl; try done; cbn in Hl.
  - cbn [app key_lt]. rewrite bool_decide_true by done. cbn [orb andb].
    destruct (Nat.ltb_spec i j); [done|]. by destruct (j <? i).
  - cbn [app key_lt]. rewrite IH by lia. destruct (Nat.ltb_spec x y); [done|].
    destruct (Nat.ltb_spec y x).
    { rewrite bool_decide_false; [done|]. intros [= -> ->]. lia. }
    assert (x = y) as -> by lia. f_equal. f_equal. apply bool_decide_ext. split; [by intros ->|by intros [=]].
Qed.

Lemma Before_children a b i j : Before a b -> Before (a ++ [i]) (b ++ [j]).
Proof.
  rewrite !Before_spec, !length_app. cbn. intros [|[E H]]; [lia|right].
  split; [lia|]. rewrite key_lt_snoc by done. by rewrite H.
Qed.

Lemma Before_siblings k i j : Before (k ++ [i]) (k ++ [j]) <-> i < j.
Proof.
  rewrite Before_spec, !length_app. cbn. rewrite key_lt_snoc, key_lt_irrefl, bool_decide_true by done.
  cbn [orb andb]. rewrite Nat.ltb_lt. lia.
Qed.

Lemma Before_nil k : k <> [] -> Before [] k.
Proof. intros H. apply Before_spec. destruct k; cbn; [done|lia]. Qed.

Lemma nil_least k : ~ Before k [].
Proof. rewrite Before_spec. destruct k; cbn; [|lia]. intros [|[]]; [lia|done]. Qed.

(** Between two keys of one family there are only keys of the family. *)
Lemma Before_between k i j y : Before (k ++ [i]) y -> Before y (k ++ [j]) -> exists n, y = k ++ [n].
Proof.
  rewrite !Before_spec, length_app. cbn. destruct y as [|n y' _] using rev_ind.
  { rewrite length_app. cbn. lia. }
  rewrite !length_app. cbn. intros H1 H2.
  assert (E : length k = length y') by lia.
  destruct H1 as [|[_ H1]]; [lia|]. destruct H2 as [|[_ H2]]; [lia|].
  rewrite key_lt_snoc in H1, H2 by lia. exists n. f_equal.
  destruct (decide (y' = k)) as [|Hne]; [done|].
  rewrite bool_decide_false in H1 by congruence. rewrite bool_decide_false in H2 by congruence.
  rewrite orb_false_r in H1, H2. pose proof (key_lt_trans _ _ _ H1 H2) as H3. by rewrite key_lt_irrefl in H3.
Qed.

(** ** Sorted lists of keys *)

Abbreviation SortedKeys := (StronglySorted Before).

Lemma sorted_elem l i j a b :
  SortedKeys l -> l !! i = Some a -> l !! j = Some b -> i < j -> Before a b.
Proof.
  intros Hs. revert i j. induction Hs as [|x l Hs IH HF]; intros i j Hi Hj Hij; [done|].
  destruct j; [lia|]. destruct i; cbn in *.
  - injection Hi as ->. rewrite Forall_lookup in HF. by eapply HF.
  - eapply IH; [done|done|lia].
Qed.

Lemma sorted_NoDup l : SortedKeys l -> NoDup l.
Proof.
  induction 1 as [|x l Hs IH HF]; constructor; [|done]. intros Hx.
  rewrite Forall_forall in HF. by apply HF, Before_irrefl in Hx.
Qed.

Lemma sorted_index l i j a b :
  SortedKeys l -> l !! i = Some a -> l !! j = Some b -> Before a b -> i < j.
Proof.
  intros Hs Hi Hj Hab. destruct (Nat.lt_trichotomy i j) as [|[->|]]; [done| |].
  - rewrite Hi in Hj. injection Hj as ->. by apply Before_irrefl in Hab.
  - exfalso. eapply Before_asym; [exact Hab|]. by eapply sorted_elem.
Qed.

Lemma StronglySorted_app_iff l1 l2 :
  SortedKeys (l1 ++ l2) <-> SortedKeys l1 /\ SortedKeys l2 /\ forall a b, a ∈ l1 -> b ∈ l2 -> Before a b.
Proof.
  induction l1 as [|x l1 IH]; cbn.
  - split; [|by intros (_ & ? & _)]. intros H. split_and!; [constructor|done|]. by intros ? ? ?%not_elem_of_nil.
  - split.
    + intros H. inversion H as [|? ? Hs HF]; subst. apply IH in Hs as (H1 & H2 & H3).
      apply Forall_app in HF as [HF1 HF2]. rewrite Forall_forall in HF2. split_and!; [by constructor|done|].
      intros a b [->|Ha]%elem_of_cons Hb; auto.
    + intros (H1 & H2 & H3). inversion H1 as [|? ? Hs HF]; subst. constructor.
      * apply IH. split_and!; [done|done|]. intros a b Ha. apply H3. by right.
      * apply Forall_app. split; [done|]. apply Forall_forall. intros b Hb. apply H3; [left|done].
Qed.

Section Initial.
Variable valid : list nat -> Prop.

(** The least valid keys, as many as the list has. *)
Record initial (l : list (list nat)) : Prop := {
  initial_sorted : SortedKeys l;
  initial_valid : Forall valid l;
  initial_down : forall k k', k ∈ l -> valid k' -> Before k' k -> k' ∈ l }.

Lemma sorted_prefix (l1 l2 : list (list nat)) :
  SortedKeys l1 -> SortedKeys l2 -> l1 ⊆ l2 ->
  (forall x y, x ∈ l2 -> y ∈ l1 -> Before x y -> x ∈ l1) ->
  l1 = take (length l1) l2.
Proof.
  intros H1. revert l2. induction H1 as [|a l1 H1 IH HF]; intros l2 H2 Hsub Hd; [done|].
  destruct l2 as [|b l2]; [by specialize (Hsub a ltac:(by left)); apply not_elem_of_nil in Hsub|].
  inversion H2 as [|? ? H2' HF2]; subst. rewrite Forall_forall in HF, HF2.
  assert (Hab : a = b).
  { assert (Ha : a ∈ b :: l2) by (apply Hsub; left). apply elem_of_cons in Ha as [->|Ha]; [done|].
    assert (Hb : b ∈ a :: l1) by (apply (Hd b a); [left|left|by apply HF2]).
    apply elem_of_cons in Hb as [->|Hb]; [done|].
    exfalso. by apply (Before_asym a b); [apply HF|apply HF2]. }
  subst b. cbn. f_equal. apply IH; [done| |].
  - intros x Hx. assert (Hx2 : x ∈ a :: l2) by (apply Hsub; by right).
    apply elem_of_cons in Hx2 as [->|]; [|done]. by apply HF, Before_irrefl in Hx.
  - intros x y Hx Hy Hxy. assert (Hx1 : x ∈ a :: l1) by (eapply Hd; [by right|right; exact Hy|done]).
    apply elem_of_cons in Hx1 as [->|]; [|done]. by apply HF2, Before_irrefl in Hx.
Qed.

Lemma initial_prefix l1 l2 :
  initial l1 -> initial l2 -> length l1 <= length l2 -> l1 = take (length l1) l2.
Proof.
  intros [S1 V1 D1] [S2 V2 D2] Hlen. rewrite Forall_forall in V1, V2.
  assert (Hsub : l1 ⊆ l2).
  { destruct (decide (l1 ⊆ l2)) as [|Hn]; [done|exfalso].
    assert (Hx : exists x, x ∈ l1 /\ x ∉ l2).
    { clear -Hn. induction l1 as [|a l IH]; [destruct Hn; by intros x ?%not_elem_of_nil|].
      destruct (decide (a ∈ l2)); [|exists a; split; [left|done]].
      destruct IH as (x & Hx & ?); [|exists x; split; [by right|done]].
      intros Hs. apply Hn. intros y [->|Hy]%elem_of_cons; [done|by apply Hs]. }
    destruct Hx as (x & Hx & Hx2).
    assert (Hsub : l2 ⊆ l1).
    { intros y Hy. destruct (Before_total y x) as [->|[Hyx|Hxy]]; [done| |].
      - eapply D1; [exact Hx|by apply V2|done].
      - destruct Hx2. eapply D2; [exact Hy|by apply V1|done]. }
    assert (Hlt : length (x :: l2) <= length l1).
    { apply submseteq_length, NoDup_submseteq; [by constructor; [|apply sorted_NoDup]|].
      intros y [->|Hy]%elem_of_cons; [done|by apply Hsub]. }
    cbn in Hlt. lia. }
  apply sorted_prefix; [done|done|done|]. intros x y Hx Hy Hxy. eapply D1; [exact Hy|by apply V2|done].
Qed.

(** An initial list that is as long as allowed, or has every valid key, is
    determined. *)
Definition full (n : nat) (l : list (list nat)) : Prop :=
  length l <= n /\ forall k, valid k -> k ∈ l \/ length l = n.

Lemma initial_full n l1 l2 : initial l1 -> full n l1 -> initial l2 -> full n l2 -> l1 = l2.
Proof.
  assert (W : forall a b, initial a -> full n a -> initial b -> full n b -> length a <= length b -> a = b).
  { intros a b Ia [La Fa] Ib [Lb Fb] Hle. pose proof (initial_prefix a b Ia Ib Hle) as E.
    destruct (decide (length a = length b)) as [El|Hn]; [by rewrite E, El, take_ge|exfalso].
    destruct (lookup_lt_is_Some_2 b (length a)) as [k Hk]; [lia|].
    destruct Ib as [Sb Vb Db]. rewrite Forall_forall in Vb.
    destruct (Fa k) as [Hin|]; [by apply Vb; eapply list_elem_of_lookup_2| |lia].
    rewrite E in Hin. apply list_elem_of_lookup in Hin as [i Hi].
    apply lookup_take_Some in Hi as [Hi Hlt]. pose proof (sorted_NoDup _ Sb) as Hnd.
    rewrite NoDup_alt in Hnd. specialize (Hnd _ _ _ Hi Hk). lia. }
  intros I1 F1 I2 F2. destruct (Nat.le_ge_cases (length l1) (length l2)); [by apply W|symmetry; by apply W].
Qed.
End Initial.

Section Reference.
Variable Quote : bytes -> bytes.
Variable execute : list exploreSlot -> run_result.
Variable b : ExploreBudget.

(** ** The tree of prefixes *)

(** The plans of the prefixes a run leaves: none when it failed or left its plan. *)
Definition child_plans (pl : list exploreSlot) : list (list exploreSlot) :=
  match execute pl with
  | Ran replay _ _ =>
      match followed replay with
      | None => map (plan_from replay.(record)) (unexplored replay)
      | Some _ => []
      end
  | _ => []
  end.

(** The prefix a key names: from the root, the ranks of the prefixes derived. *)
Definition plan_at (k : list nat) : option (list exploreSlot) :=
  fold_left (fun acc i => pl ← acc; child_plans pl !! i) k (Some []).

Definition valid (k : list nat) : Prop := is_Some (plan_at k).

Lemma plan_at_snoc k i : plan_at (k ++ [i]) = (pl ← plan_at k; child_plans pl !! i).
Proof. unfold plan_at. by rewrite fold_left_app. Qed.

Lemma valid_nil : valid [].
Proof. by eexists. Qed.

Lemma valid_parent k i : valid (k ++ [i]) -> valid k.
Proof. unfold valid. rewrite plan_at_snoc. destruct (plan_at k); [by eexists|by intros []]. Qed.

Definition child_keys (k : list nat) : list (list nat) :=
  match plan_at k with Some pl => imap (fun i _ => k ++ [i]) (child_plans pl) | None => [] end.

Lemma elem_child_keys k c : c ∈ child_keys k <-> exists i, c = k ++ [i] /\ valid c.
Proof.
  unfold child_keys, valid. split.
  - destruct (plan_at k) as [pl|] eqn:E; [|by intros ?%not_elem_of_nil].
    intros (i & x & -> & Hx)%elem_of_lookup_imap_1. exists i. split; [done|].
    rewrite plan_at_snoc, E. cbn. by rewrite Hx.
  - intros (i & -> & Hv). rewrite plan_at_snoc in Hv. destruct (plan_at k) as [pl|]; [|by destruct Hv].
    destruct Hv as [x Hx]. cbn in Hx. by eapply (elem_of_lookup_imap_2 (fun i _ => k ++ [i])).
Qed.

Lemma child_keys_sorted k : SortedKeys (child_keys k).
Proof.
  unfold child_keys. destruct (plan_at k) as [pl|]; [|constructor].
  enough (H : forall n (l : list (list exploreSlot)), SortedKeys (imap (fun i _ => k ++ [n + i]) l)).
  { apply (H 0). }
  intros n l. revert n. induction l as [|x l IH]; intros n; [constructor|].
  cbn. constructor.
  - assert (E : imap ((fun i _ => k ++ [n + i]) ∘ S) l = imap (fun i _ => k ++ [S n + i]) l).
    { apply imap_ext. intros i y _. cbn. do 3 f_equal. lia. }
    rewrite E. apply IH.
  - apply Forall_forall. intros c (i & y & -> & _)%elem_of_lookup_imap_1. cbn.
    apply Before_siblings. lia.
Qed.

(** ** A tree explored in part *)

(** A key past the cut: the budget is full of keys before it. *)
Definition past (l : list (list nat)) (beyond : bool) (k : list nat) : Prop :=
  beyond = true /\ length l = b.(b_runs) /\ forall x, x ∈ l -> Before x k.

(** The keys held, those whose runs are [done], and whether any was cut. *)
Record tree_inv (l : list (list nat)) (done : list nat -> Prop) (beyond : bool) : Prop := {
  t_sorted : SortedKeys l;
  t_valid : Forall valid l;
  t_len : length l <= b.(b_runs);
  t_parent : forall k i, k ++ [i] ∈ l -> k ∈ l /\ done k;
  t_cover : forall k i, k ∈ l -> done k -> valid (k ++ [i]) -> k ++ [i] ∈ l \/ past l beyond (k ++ [i]);
  t_root : [] ∈ l;
  t_done : forall k, done k -> k ∈ l;
  t_beyond : beyond = true -> exists k, valid k /\ past l beyond k }.

(** Keys queued together, put where plan order has the first of them. *)
Definition splice (l cs : list (list nat)) : list (list nat) :=
  let n := length (filter (fun k => key_before k (hd [] cs) = true) l) in
  take n l ++ cs ++ drop n l.

Lemma split_sorted l k :
  SortedKeys l -> exists l1 l2, l = l1 ++ l2 /\ Forall (fun x => Before x k) l1
    /\ Forall (fun x => x = k \/ Before k x) l2
    /\ length (filter (fun x => key_before x k = true) l) = length l1.
Proof.
  induction 1 as [|x l Hs IH HF]; [exists [], []; by repeat constructor|].
  destruct (key_before x k) eqn:E.
  - destruct IH as (l1 & l2 & -> & H1 & H2 & H3). exists (x :: l1), l2.
    split_and!; [done|by constructor|done|]. rewrite filter_cons_True by done. cbn. by rewrite H3.
  - exists [], (x :: l). split_and!; [done|constructor| |].
    + apply Before_not in E. constructor; [naive_solver|]. eapply Forall_impl; [exact HF|].
      intros y Hy. destruct E as [->|E]; [by right|right; by eapply Before_trans].
    + rewrite filter_none; [done|]. apply Before_not in E. constructor.
      * intros H. destruct E as [->|E]; [by apply Before_irrefl in H|by apply (Before_asym _ _ E)].
      * eapply Forall_impl; [exact HF|]. intros y Hy H.
        assert (Hk : Before x k) by (by eapply Before_trans).
        destruct E as [->|E]; [by apply Before_irrefl in Hk|by apply (Before_asym _ _ E)].
Qed.

(** The children of a key are put between the keys before and after them all. *)
Lemma splice_children l k :
  SortedKeys l -> (forall i, k ++ [i] ∉ l) -> child_keys k <> [] ->
  exists l1 l2, l = l1 ++ l2 /\ splice l (child_keys k) = l1 ++ child_keys k ++ l2
    /\ length (filter (fun x => key_before x (hd [] (child_keys k)) = true) l) = length l1
    /\ SortedKeys (l1 ++ child_keys k ++ l2).
Proof.
  intros Hs Hn Hc. destruct (child_keys k) as [|c cs] eqn:E; [done|].
  destruct (split_sorted l c Hs) as (l1 & l2 & -> & H1 & H2 & H3). exists l1, l2.
  unfold splice. cbn [hd]. rewrite H3, take_app_length, drop_app_length. split_and!; [done|done|done|].
  rewrite Forall_forall in H1, H2. rewrite <- E.
  assert (Hall : forall x, x ∈ child_keys k -> exists i, x = k ++ [i]).
  { intros x (i & -> & _)%elem_child_keys. by eexists. }
  destruct (Hall c ltac:(rewrite E; left)) as [j Hj].
  assert (Hlo : forall a x, a ∈ l1 -> x ∈ child_keys k -> Before a x).
  { intros a x Ha Hx. specialize (H1 a Ha). pose proof (child_keys_sorted k) as Hcs.
    rewrite E in Hcs, Hx. apply elem_of_cons in Hx as [->|Hx]; [done|].
    inversion Hcs as [|? ? _ HF]; subst. rewrite Forall_forall in HF. eapply Before_trans; [exact H1|by apply HF]. }
  assert (Hhi : forall x y, x ∈ child_keys k -> y ∈ l2 -> Before x y).
  { intros x y Hx Hy. destruct (Hall x Hx) as [i Hi]. destruct (Before_total x y) as [->|[|Hyx]]; [|done|].
    - destruct (Hn i). apply elem_of_app. right. by rewrite <- Hi.
    - exfalso. destruct (H2 y Hy) as [->|Hcy].
      + destruct (Hn j). apply elem_of_app. right. by rewrite <- Hj.
      + subst c x. destruct (Before_between _ _ _ _ Hcy Hyx) as [n ->].
        destruct (Hn n). apply elem_of_app. by right. }
  apply StronglySorted_app_iff in Hs as (S1 & S2 & S12). apply StronglySorted_app_iff. split_and!; [done| |].
  - apply StronglySorted_app_iff. split_and!; [apply child_keys_sorted|done|done].
  - intros a x Ha [Hx|Hx]%elem_of_app; auto.
Qed.

Lemma take_sorted n l : SortedKeys l -> SortedKeys (take n l).
Proof. rewrite <- (take_drop n l) at 1. by intros (? & _)%StronglySorted_app_iff. Qed.

(** A key of a sorted list is among the first [n], or they are full and before it. *)
Lemma take_cases n l k :
  SortedKeys l -> k ∈ l -> k ∈ take n l \/ (length (take n l) = n /\ n < length l /\ forall x, x ∈ take n l -> Before x k).
Proof.
  intros Hs Hk. rewrite <- (take_drop n l) in Hk, Hs. apply StronglySorted_app_iff in Hs as (_ & _ & H).
  apply elem_of_app in Hk as [|Hk]; [by left|right].
  assert (n < length l).
  { destruct (decide (n < length l)); [done|]. rewrite drop_ge in Hk by lia. by apply not_elem_of_nil in Hk. }
  split_and!; [rewrite length_take; lia|done|auto].
Qed.

Lemma elem_splice l cs x : x ∈ splice l cs <-> x ∈ l \/ x ∈ cs.
Proof.
  unfold splice. cbv zeta. set (n := length _). rewrite !elem_of_app.
  rewrite <- (take_drop n l) at 3. rewrite elem_of_app. tauto.
Qed.

Lemma length_splice l cs : length (splice l cs) = length l + length cs.
Proof. unfold splice. cbv zeta. rewrite !length_app, length_take, length_drop. lia. Qed.

Lemma splice_sorted l k :
  SortedKeys l -> (forall i, k ++ [i] ∉ l) -> SortedKeys (splice l (child_keys k)).
Proof.
  intros Hs Hn. destruct (decide (child_keys k = [])) as [->|Hne].
  - unfold splice. cbn [app]. by rewrite take_drop.
  - by destruct (splice_children l k Hs Hn Hne) as (l1 & l2 & _ & -> & _ & ?).
Qed.

(** A key past a full list stays past it when more keys are put in and cut. *)
Lemma past_splice l l' n x :
  SortedKeys l -> SortedKeys l' -> l ⊆ l' -> length l = n ->
  (forall y, y ∈ l -> Before y x) -> forall y, y ∈ take n l' -> Before y x.
Proof.
  intros Hs Hs' Hsub Hn Hx y Hy. destruct (Before_total y x) as [Hyx|[|Hyx]]; [|done|]; exfalso.
  all: apply list_elem_of_lookup in Hy as [i Hi]; apply lookup_take_Some in Hi as [Hi Hlt].
  all: assert (Hin : l ⊆ take i l').
  1, 3: intros z Hz; assert (Hzy : Before z y) by (subst; eauto using Before_trans);
    apply Hsub, list_elem_of_lookup in Hz as [j Hj];
    pose proof (sorted_index _ _ _ _ _ Hs' Hj Hi Hzy); apply (list_elem_of_lookup_2 _ j);
    by rewrite lookup_take_lt.
  all: apply NoDup_submseteq in Hin; [|by apply sorted_NoDup]; apply submseteq_length in Hin.
  all: rewrite length_take in Hin; lia.
Qed.

Lemma tree_insert l (done done' : list nat -> Prop) beyond k :
  tree_inv l done beyond -> k ∈ l -> ~ done k ->
  let l' := splice l (child_keys k) in
  let beyond' := beyond || (b.(b_runs) <? length l') in
  (forall x, done' x <-> (done x \/ x = k) /\ x ∈ take b.(b_runs) l') ->
  tree_inv (take b.(b_runs) l') done' beyond'.
Proof.
  intros [Hs Hv Hl Hp Hc Hr Hdn Hb] Hk Hnd l' beyond' Hd'.
  assert (Hno : forall i, k ++ [i] ∉ l) by (intros i Hi; by apply Hp in Hi as [_ ?]).
  assert (Hsub : forall x, x ∈ l' <-> x ∈ l \/ x ∈ child_keys k) by apply elem_splice.
  assert (Hs' : SortedKeys l') by by apply splice_sorted.
  pose proof (length_splice l (child_keys k)) as Hlen. fold l' in Hlen.
  set (n := b_runs b) in *.
  assert (Hv' : forall x, x ∈ l' -> valid x).
  { rewrite Forall_forall in Hv. intros x [Hx|(i & _ & Hx)%elem_child_keys]%Hsub; auto. }
  assert (Hpast : forall x, past l beyond x -> past (take n l') beyond' x).
  { intros x (Eb & E & H). unfold beyond'. rewrite Eb. split_and!; [done|rewrite length_take; lia|].
    apply (past_splice l); [done|done| |done|done]. intros y Hy. apply Hsub. by left. }
  assert (Htake : forall x, x ∈ l' -> x ∈ take n l' \/ past (take n l') beyond' x).
  { intros x Hx. destruct (take_cases n l' x Hs' Hx) as [|(H1 & H2 & H3)]; [by left|right].
    unfold beyond'. rewrite (proj2 (Nat.ltb_lt _ _) H2), orb_true_r. by split_and!. }
  pose proof (subseteq_take n l') as Hin. split.
  - by apply take_sorted.
  - apply Forall_forall. intros x Hx. by apply Hv', Hin.
  - rewrite length_take. lia.
  - intros k' i Hx. pose proof (Hin _ Hx) as Hx'. apply Hsub in Hx'.
    assert (Hpar : k' ∈ l /\ (done k' \/ k' = k)).
    { destruct Hx' as [Hx'|(j & Ej & _)%elem_child_keys]; [apply Hp in Hx' as [? ?]; auto|].
      apply app_inj_tail in Ej as [-> _]. auto. }
    destruct Hpar as [Hk' Hd]. destruct (Htake k') as [Ht|(_ & _ & Ht)]; [apply Hsub; by left| |].
    + split; [done|]. by apply Hd'.
    + exfalso. apply (Before_asym k' (k' ++ [i])); [apply Before_child|by apply Ht].
  - intros k' i Hk' [Hd _]%Hd' Hvc. destruct Hd as [Hd| ->].
    + destruct (Hc k' i (Hdn _ Hd) Hd Hvc) as [Hx|Hx]; [apply Htake, Hsub; by left|right; by apply Hpast].
    + apply Htake, Hsub. right. apply elem_child_keys. by eexists.
  - destruct (Htake []) as [|(_ & Hl1 & Hl2)]; [apply Hsub; by left|done|exfalso].
    destruct (take n l') as [|x t]; [|by apply (nil_least x), Hl2; left].
    cbn in Hl1. assert (0 < length l) by (destruct l; [by apply not_elem_of_nil in Hr|cbn; lia]).
    unfold n in Hl1. lia.
  - by intros x [_ ?]%Hd'.
  - unfold beyond'. destruct beyond eqn:Eb.
    + intros _. destruct Hb as (x & ? & Hx); [done|]. exists x. split; [done|]. by apply Hpast.
    + cbn [orb]. intros Hlt. pose proof (proj1 (Nat.ltb_lt _ _) Hlt) as Hlt'.
      destruct (lookup_lt_is_Some_2 l' n Hlt') as [x Hx]. exists x.
      assert (x ∈ l') by (by eapply list_elem_of_lookup_2). split; [by apply Hv'|].
      destruct (Htake x) as [Hxt|]; [done| |done]. exfalso. apply elem_of_take in Hxt as (j & Hj & Hlt2).
      pose proof (sorted_NoDup _ Hs') as Hnu. rewrite NoDup_alt in Hnu. specialize (Hnu _ _ _ Hj Hx). lia.
Qed.

Lemma tree_initial l done beyond n :
  tree_inv l done beyond -> (forall i k, i < n -> l !! i = Some k -> done k) -> initial valid (take n l).
Proof.
  intros [Hs Hv Hl Hp Hc Hr Hdn Hb] Hd. split; [by apply take_sorted| |].
  { apply Forall_forall. intros x Hx. rewrite Forall_forall in Hv. by apply Hv, (subseteq_take n l). }
  intros k k' Hk Hv' Hlt. revert Hv' Hlt. induction k' as [|i k' IH] using rev_ind; intros Hv' Hlt.
  - apply elem_of_take in Hk as (j & Hj & Hjn). apply list_elem_of_lookup in Hr as [m Hm].
    apply elem_of_take. exists m. split; [done|]. pose proof (sorted_index _ _ _ _ _ Hs Hm Hj Hlt). lia.
  - assert (Hk' : k' ∈ take n l).
    { apply IH; [by eapply valid_parent|]. eapply Before_trans; [apply (Before_child k' i)|done]. }
    apply elem_of_take in Hk as (j & Hj & Hjn). apply elem_of_take in Hk' as (m & Hm & Hmn).
    destruct (Hc k' i) as [Hx|(_ & _ & Hx)]; [by eapply list_elem_of_lookup_2|by eapply Hd|done| |].
    + apply list_elem_of_lookup in Hx as [p Hx]. apply elem_of_take. exists p. split; [done|].
      pose proof (sorted_index _ _ _ _ _ Hs Hx Hj Hlt). lia.
    + exfalso. apply (Before_asym _ _ Hlt), Hx. by eapply list_elem_of_lookup_2.
Qed.

Lemma tree_full l done beyond :
  tree_inv l done beyond -> (forall k, k ∈ l -> done k) ->
  full valid b.(b_runs) l /\ (beyond = true <-> exists k, valid k /\ k ∉ l).
Proof.
  intros Ht Hd. pose proof Ht as [Hs Hv Hl Hp Hc Hr Hdn Hb].
  assert (Hcov : forall k, valid k -> k ∈ l \/ past l beyond k).
  { intros k. induction k as [|i k IH] using rev_ind; intros Hk; [by left|].
    destruct IH as [IH|(H1 & H2 & H3)]; [by eapply valid_parent|by apply Hc; [|apply Hd|]|right].
    split_and!; [done|done|]. intros x Hx. eapply Before_trans; [by apply H3|apply Before_child]. }
  split; [split; [done|]|].
  - intros k Hk. destruct (Hcov k Hk) as [|(_ & ? & _)]; auto.
  - split.
    + intros H. destruct (Hb H) as (k & Hk & _ & _ & Hp'). exists k. split; [done|].
      intros Hin. by apply (Before_irrefl k), Hp'.
    + intros (k & Hk & Hn). destruct (Hcov k Hk) as [|(? & _)]; done.
Qed.

(** ** The reference exploration *)

(** Runs in plan order, [room] of them left: what is queued is folded first to
    last, and the prefixes each run leaves are queued behind, as far as the runs
    budget reaches. *)
Fixpoint explore_in_order (room : nat) (queue : list (list exploreSlot)) (f : folded) (n : nat) (beyond : bool)
    : result explore_error Exploration :=
  match room, queue with
  | S room', pl :: rest =>
      match execute pl with
      | FreshFailed e | RunSetupFailed e => Err (ExploreSetup e)
      | Ran replay o gaps =>
          match followed replay with
          | Some why => Err (ErrExplorationDiverged (n + 1) why)
          | None =>
              let more := rest ++ child_plans pl in
              explore_in_order room' (take room' more) (fold_run f (n + 1) replay o (identity Quote o) gaps)
                (n + 1) (beyond || (room' <? length more))
          end
      end
  | _, _ => Ok (assemble Quote f beyond)
  end.

Definition no_fold : folded :=
  {| f_result := no_exploration; f_reached := ∅; f_trie := empty_node; f_depthHit := false |}.

Definition explore_sequentially : result explore_error Exploration :=
  explore_in_order b.(b_runs) [[]] no_fold 0 false.

(** ** What the reference folds *)

(** The runs of the keys folded in turn, up to the first that gives no outcome. *)
Fixpoint fold_keys (ks : list (list nat)) (f : folded) (n : nat) : result explore_error folded :=
  match ks with
  | [] => Ok f
  | k :: ks' =>
      match execute (default [] (plan_at k)) with
      | FreshFailed e | RunSetupFailed e => Err (ExploreSetup e)
      | Ran replay o gaps =>
          match followed replay with
          | Some why => Err (ErrExplorationDiverged (n + 1) why)
          | None => fold_keys ks' (fold_run f (n + 1) replay o (identity Quote o) gaps) (n + 1)
          end
      end
  end.

Lemma fold_keys_app ks ks' f n :
  fold_keys (ks ++ ks') f n =
    match fold_keys ks f n with Ok f' => fold_keys ks' f' (n + length ks) | Err e => Err e end.
Proof.
  revert f n. induction ks as [|k ks IH]; intros f n; cbn [app fold_keys length].
  - by rewrite Nat.add_0_r.
  - destruct (execute _) as [e|e|r o g]; [done|done|]. destruct (followed r); [done|].
    rewrite IH. destruct (fold_keys ks _ _); [|done]. f_equal. lia.
Qed.

Definition keys_result (ks : list (list nat)) (f : folded) (n : nat) (beyond : bool)
    : result explore_error Exploration :=
  match fold_keys ks f n with Ok f' => Ok (assemble Quote f' beyond) | Err e => Err e end.

Lemma tree_ext l done done' beyond :
  (forall k, done k <-> done' k) -> tree_inv l done beyond -> tree_inv l done' beyond.
Proof.
  intros E [Hs Hv Hl Hp Hc Hr Hdn Hb]. split; try done.
  - intros k i Hk. rewrite <- E. by eapply Hp.
  - intros k i Hk Hd. apply Hc; [done|by apply E].
  - intros k. rewrite <- E. apply Hdn.
Qed.

(** Taken from the front, a prefix's children go last. *)
Lemma tree_front v k rest beyond x i :
  tree_inv (v ++ k :: rest) (.∈ v) beyond -> x ∈ v ++ k :: rest -> Before x (k ++ [i]).
Proof.
  intros Ht Hx. pose proof Ht as [Hs _ _ Hp _ _ _ _]. destruct x as [|j y _] using rev_ind.
  - apply Before_nil. by destruct k.
  - destruct (Hp y j Hx) as [_ Hy]. apply Before_children.
    apply StronglySorted_app_iff in Hs as (_ & _ & Hs). apply Hs; [done|left].
Qed.

Lemma child_keys_plans k pl :
  plan_at k = Some pl -> Forall2 (fun k pl => plan_at k = Some pl) (child_keys k) (child_plans pl).
Proof.
  intros E. apply Forall2_same_length_lookup. unfold child_keys. rewrite E. split; [by rewrite length_imap|].
  intros i c pl' Hc Hp. rewrite list_lookup_imap, Hp in Hc. injection Hc as <-.
  rewrite plan_at_snoc, E. exact Hp.
Qed.

Lemma front_step v k rest queue pl beyond room :
  tree_inv (v ++ k :: rest) (.∈ v) beyond -> length v + S room = b.(b_runs) ->
  plan_at k = Some pl -> Forall2 (fun k pl => plan_at k = Some pl) rest queue ->
  let more := queue ++ child_plans pl in
  let keys := take room (rest ++ child_keys k) in
  tree_inv ((v ++ [k]) ++ keys) (.∈ v ++ [k]) (beyond || (room <? length more))
  /\ Forall2 (fun k pl => plan_at k = Some pl) keys (take room more).
Proof.
  intros Ht Hroom Hk Hq more keys. pose proof (child_keys_plans k pl Hk) as Hc.
  assert (Hmore : Forall2 (fun k pl => plan_at k = Some pl) (rest ++ child_keys k) more) by by apply Forall2_app.
  split; [|by apply Forall2_take].
  assert (Hsp : splice (v ++ k :: rest) (child_keys k) = (v ++ [k]) ++ rest ++ child_keys k).
  { unfold splice. destruct (child_keys k) as [|c cs] eqn:E.
    - cbn [app]. rewrite take_drop, <- app_assoc, app_nil_r. done.
    - cbn [hd]. assert (Hci : c ∈ child_keys k) by (rewrite E; left).
      apply elem_child_keys in Hci as (i & -> & _). cbv zeta. rewrite filter_all.
      + rewrite take_ge, drop_ge, app_nil_r by done. by rewrite <- !app_assoc.
      + apply Forall_forall. intros x Hx. by apply (tree_front v k rest beyond). }
  assert (Hnk : k ∉ v).
  { pose proof (t_sorted _ _ _ Ht) as Hs. apply StronglySorted_app_iff in Hs as (_ & _ & Hs). intros Hkv.
    apply (Before_irrefl k), Hs; [done|left]. }
  pose proof (tree_insert _ (.∈ v) (.∈ v ++ [k]) _ k Ht ltac:(set_solver) Hnk) as Hins. cbv zeta in Hins.
  rewrite Hsp in Hins. rewrite <- Hroom in Hins.
  assert (Etake : take (length v + S room) ((v ++ [k]) ++ rest ++ child_keys k) = (v ++ [k]) ++ keys).
  { rewrite take_app_ge by (rewrite length_app; cbn; lia). f_equal. unfold keys. f_equal. rewrite length_app. cbn. lia. }
  rewrite Etake in Hins.
  replace (length v + S room <? length ((v ++ [k]) ++ rest ++ child_keys k)) with (room <? length more) in Hins.
  - apply Hins. intros x. split; [|set_solver]. intros Hx. split; [set_solver|]. apply elem_of_app. by left.
  - apply Forall2_length in Hmore. rewrite <- Hmore, !length_app. cbn [length].
    apply Bool.eq_iff_eq_true. rewrite !Nat.ltb_lt. lia.
Qed.

Lemma explore_in_order_keys room v q queue f beyond :
  tree_inv (v ++ q) (.∈ v) beyond -> length v + room = b.(b_runs) ->
  Forall2 (fun k pl => plan_at k = Some pl) q queue ->
  exists l beyond', tree_inv (v ++ l) (.∈ v ++ l) beyond'
    /\ explore_in_order room queue f (length v) beyond = keys_result l f (length v) beyond'.
Proof.
  revert v q queue f beyond. induction room as [|room IH]; intros v q queue f beyond Ht Hroom Hq.
  - assert (q = []) as ->.
    { pose proof (t_len _ _ _ Ht) as H. rewrite length_app in H. destruct q; [done|cbn in H; lia]. }
    exists [], beyond. rewrite app_nil_r in *. split; [done|]. inversion Hq; subst. done.
  - destruct Hq as [|k pl rest queue Hk Hq].
    { exists [], beyond. rewrite app_nil_r in *. done. }
    destruct (front_step v k rest queue pl beyond room Ht Hroom Hk Hq) as [Ht' Hq'].
    cbn [explore_in_order]. unfold keys_result.
    assert (Hlen : length (v ++ [k]) = length v + 1) by (rewrite length_app; done).
    assert (Hgo : forall f', exists l beyond', tree_inv (v ++ k :: l) (.∈ v ++ k :: l) beyond' /\
        explore_in_order room (take room (queue ++ child_plans pl)) f' (length v + 1)
          (beyond || (room <? length (queue ++ child_plans pl))) = keys_result l f' (length v + 1) beyond').
    { intros f'. destruct (IH (v ++ [k]) _ _ f' _ Ht' ltac:(lia) Hq') as (l & b' & H1 & H2).
      exists l, b'. rewrite <- app_assoc in H1. rewrite Hlen in H2. by split. }
    destruct (execute pl) as [e|e|r o g] eqn:Ee.
    1, 2: destruct (Hgo f) as (l & b' & H1 & _); exists (k :: l), b'; split; [done|];
      cbn [fold_keys]; rewrite Hk; cbn [default from_option id]; by rewrite Ee.
    destruct (followed r) as [why|] eqn:Ef.
    + destruct (Hgo f) as (l & b' & H1 & _). exists (k :: l), b'. split; [done|].
      cbn [fold_keys]. rewrite Hk. cbn [default from_option id]. by rewrite Ee, Ef.
    + destruct (Hgo (fold_run f (length v + 1) r o (identity Quote o) g)) as (l & b' & H1 & H2).
      exists (k :: l), b'. split; [done|]. rewrite H2. unfold keys_result. cbn [fold_keys]. rewrite Hk.
      cbn [default from_option id]. by rewrite Ee, Ef.
Qed.

Lemma tree_start : 1 <= b.(b_runs) -> tree_inv [[]] (fun _ => False) false.
Proof.
  intros Hr. split.
  - repeat constructor.
  - constructor; [apply valid_nil|constructor].
  - done.
  - intros k i Hk%list_elem_of_singleton. by apply app_nil in Hk as [_ ?].
  - by intros k i _ [].
  - by left.
  - by intros k [].
  - done.
Qed.

Lemma reference_keys :
  1 <= b.(b_runs) ->
  exists l beyond, tree_inv l (.∈ l) beyond /\ explore_sequentially = keys_result l no_fold 0 beyond.
Proof.
  intros Hr. destruct (explore_in_order_keys b.(b_runs) [] [[]] [[]] no_fold false) as (l & b' & H1 & H2).
  - cbn [app]. eapply tree_ext; [|by apply tree_start]. intros k. cbn. set_solver.
  - done.
  - repeat constructor.
  - by exists l, b'.
Qed.
End Reference.
