(* ===== verification/ExploreQueueFacts.v ===== *)
(** * Exploring with several jobs: the queue

    What one atomic step of the queue does to its prefixes: the search for a
    position, an insertion and its cut, and the queue's invariant. *)
From stdpp Require Import gmap.
From S2P Require Import Prelude Bytes Explore ExploreQueue ExploreReference.
Local Open Scope nat_scope.

(** ** Prefixes of the store *)

Lemma filter_same {A} (p p' : A -> bool) (l : list A) :
  (forall x, x ∈ l -> p x = p' x) -> filter (fun x => p x = true) l = filter (fun x => p' x = true) l.
Proof.
  induction l as [|x l IH]; intros H; [done|]. rewrite !filter_cons, (H x) by by left.
  rewrite IH; [done|]. intros y Hy. apply H. by right.
Qed.

Lemma at_upd f id q id' :
  id' < length (store q) -> at_ (upd f id q) id' = if decide (id = id') then f (at_ q id') else at_ q id'.
Proof.
  intros Hlt. unfold at_, upd, set_store. cbn [store].
  destruct (decide (id = id')) as [->|Hne]; [|by rewrite list_lookup_alter_ne].
  rewrite list_lookup_alter_eq. by destruct (lookup_lt_is_Some_2 _ _ Hlt) as [p ->].
Qed.

Lemma length_upd f id q : length (store (upd f id q)) = length (store q).
Proof. unfold upd, set_store. cbn [store]. apply length_alter. Qed.

(** What no operation on prefixes changes. *)
Definition frame (q q' : exploreQueue) : Prop :=
  budget q' = budget q /\ jobs q' = jobs q /\ frontier q' = frontier q /\ running q' = running q
  /\ q_done q' = q_done q /\ fold_of q' = fold_of q /\ q_err q' = q_err q.

Lemma frame_refl q : frame q q.
Proof. by repeat split. Qed.
Lemma frame_trans q1 q2 q3 : frame q1 q2 -> frame q2 q3 -> frame q1 q3.
Proof. unfold frame. intros. destruct_and!. split_and!; congruence. Qed.
#[export] Instance frame_preorder : PreOrder frame.
Proof. split; [exact frame_refl|exact frame_trans]. Qed.

Definition started (p : explorePrefix) : bool :=
  bool_decide (p_state p = prefixRunning \/ p_state p = prefixDone).

Lemma remove_first_elem id l x : NoDup l -> x ∈ remove_first id l <-> x ∈ l /\ x <> id.
Proof.
  induction 1 as [|y l Hy Hl IH]; cbn [remove_first]; [set_solver|].
  destruct (Nat.eqb_spec y id) as [->|Hne]; [set_solver|]. rewrite !elem_of_cons, IH. naive_solver.
Qed.

Lemma remove_first_NoDup id l : NoDup l -> NoDup (remove_first id l).
Proof.
  induction 1 as [|y l Hy Hl IH]; cbn [remove_first]; [constructor|].
  destruct (Nat.eqb_spec y id); [done|]. constructor; [|done]. rewrite remove_first_elem by done. tauto.
Qed.

(** The prefixes past the cut: dropped, and off the pending list if started. *)
Record dropped_spec (ids : list nat) (q q' : exploreQueue) : Prop := {
  d_frame : frame q q';
  d_order : order q' = order q;
  d_beyond : q_beyond q' = q_beyond q;
  d_store : length (store q') = length (store q);
  d_at : forall id, id < length (store q) ->
    at_ q' id = if decide (id ∈ ids) then release (set_state prefixDropped (at_ q id)) else at_ q id;
  d_pending : NoDup (pending q');
  d_elem : forall id, id ∈ pending q' <-> id ∈ pending q /\ ~ (id ∈ ids /\ started (at_ q id) = true);
  d_count : discarded q' = discarded q + length (filter (fun id => started (at_ q id) = true) ids) }.

Lemma drop_one id q :
  NoDup (pending q) -> id < length (store q) -> dropped_spec [id] q (drop_prefix q id).
Proof.
  intros Hnd Hid. unfold drop_prefix.
  set (q1 := if bool_decide _ then _ else q).
  assert (H1 : frame q q1 /\ order q1 = order q /\ q_beyond q1 = q_beyond q /\ store q1 = store q).
  { subst q1. case_bool_decide; by repeat split. }
  destruct H1 as (Hf & Ho & Hb & Hs).
  split.
  - destruct Hf as (?&?&?&?&?&?&?). by repeat split.
  - done.
  - done.
  - by rewrite length_upd, Hs.
  - intros id' Hlt. rewrite at_upd by by rewrite Hs. unfold at_. rewrite Hs.
    destruct (decide (id = id')) as [->|]; destruct (decide (id' ∈ _)) as [Hin|Hin]; try done; exfalso; set_solver.
  - subst q1. cbn. case_bool_decide; cbn; [by apply remove_first_NoDup|done].
  - intros id'. subst q1. unfold started. cbn [upd set_store pending].
    case_bool_decide as Hst; cbn [pending forget set_runs].
    + rewrite remove_first_elem by done. split.
      * intros [H1 H2]. split; [done|]. intros [H3 _]. apply H2. by apply list_elem_of_singleton in H3.
      * intros [H1 H2]. split; [done|]. intros ->. apply H2. split; [by left|].
        by apply bool_decide_eq_true.
    + split; [|tauto]. intros H1. split; [done|]. intros [H3 H4]. apply list_elem_of_singleton in H3 as ->.
      by apply bool_decide_eq_true in H4.
  - subst q1. unfold started. cbn [upd set_store discarded]. rewrite filter_cons, filter_nil.
    case_bool_decide as Hst; cbn [discarded forget set_runs].
    + by rewrite decide_True.
    + rewrite decide_False by done. cbn. lia.
Qed.

Lemma drop_all ids q :
  NoDup (pending q) -> Forall (fun id => id < length (store q)) ids -> NoDup ids ->
  dropped_spec ids q (fold_left drop_prefix ids q).
Proof.
  intros Hnd Hlt Hids. revert q Hnd Hlt. induction Hids as [|id ids Hn Hids IH]; intros q Hnd Hlt; cbn [fold_left].
  - split; [apply frame_refl|done|done|done| |done| |].
    + intros id _. by rewrite decide_False by apply not_elem_of_nil.
    + intros id. split; [|tauto]. intros ?. split; [done|]. intros [Hx _]. by apply not_elem_of_nil in Hx.
    + cbn. lia.
  - inversion Hlt as [|? ? Hid Hlt']; subst.
    pose proof (drop_one id q Hnd Hid) as [F1 O1 B1 S1 A1 P1 E1 C1]. set (q1 := drop_prefix q id) in *.
    destruct (IH q1) as [F2 O2 B2 S2 A2 P2 E2 C2]; [done|by rewrite S1|].
    assert (Hsame : forall x, x ∈ ids -> at_ q1 x = at_ q x).
    { intros x Hx. rewrite Forall_forall in Hlt'. rewrite A1 by by apply Hlt'. rewrite decide_False; [done|].
      intros ->%list_elem_of_singleton. done. }
    split; [by etrans|congruence|congruence|congruence| |done| |].
    + intros x Hx. rewrite A2 by by rewrite S1. rewrite A1 by done.
      destruct (decide (x ∈ ids)) as [Hin|Hin].
      * destruct (decide (x ∈ [id])) as [H1|_]; [by apply list_elem_of_singleton in H1 as ->|].
        by rewrite decide_True by by right.
      * destruct (decide (x ∈ [id])) as [H1|H1].
        -- apply list_elem_of_singleton in H1 as ->. by rewrite decide_True by by left.
        -- rewrite decide_False; [done|]. intros [->|]%elem_of_cons; [apply H1; by left|done].
    + intros x. rewrite E2, E1, (list_elem_of_singleton x id), elem_of_cons.
      destruct (decide (x ∈ ids)) as [Hin|Hin]; [rewrite (Hsame x Hin)|]; naive_solver.
    + rewrite C2, C1. rewrite !filter_cons, filter_nil.
      assert (Ef : filter (fun x => started (at_ q1 x) = true) ids = filter (fun x => started (at_ q x) = true) ids).
      { apply filter_same. intros x Hx. by rewrite Hsame. }
      rewrite Ef. destruct (decide (started (at_ q id) = true)); cbn [length]; lia.
Qed.

Record reindexed (ids : list nat) (i : nat) (q q' : exploreQueue) : Prop := {
  r_frame : frame q q';
  r_order : order q' = order q;
  r_beyond : q_beyond q' = q_beyond q;
  r_store : length (store q') = length (store q);
  r_pending : pending q' = pending q;
  r_discarded : discarded q' = discarded q;
  r_in : forall k id, ids !! k = Some id -> at_ q' id = set_index (i + k) (at_ q id);
  r_out : forall id, id < length (store q) -> id ∉ ids -> at_ q' id = at_ q id }.

Lemma reindex_spec ids i q :
  Forall (fun id => id < length (store q)) ids -> NoDup ids -> reindexed ids i q (reindex ids i q).
Proof.
  intros Hlt Hnd. revert i q Hlt. induction Hnd as [|id ids Hn Hnd IH]; intros i q Hlt; cbn [reindex].
  - by split.
  - inversion Hlt as [|? ? Hid Hlt']; subst. rewrite Forall_forall in Hlt'.
    destruct (IH (S i) (upd (set_index i) id q)) as [F O B S P D I U].
    { apply Forall_forall. intros x Hx. rewrite length_upd. auto. }
    split; [etrans; [|exact F]; by repeat split|done|done|by rewrite S, length_upd|done|done| |].
    + intros [|k] x Hx; cbn in Hx.
      * injection Hx as <-. rewrite U by by rewrite ?length_upd. rewrite at_upd, decide_True by done.
        by rewrite Nat.add_0_r.
      * rewrite (I k x Hx). assert (x ∈ ids) by (by eapply list_elem_of_lookup_2).
        rewrite at_upd by auto. rewrite decide_False by (intros ->; done). f_equal. lia.
    + intros x Hx Hxn. apply not_elem_of_cons in Hxn as [Hne Hxn]. rewrite U by (rewrite ?length_upd; done).
      rewrite at_upd by done. by rewrite decide_False.
Qed.

(** The binary search finds where a monotone test turns false. *)
Lemma search_spec fuel lt l n i j :
  (forall h id, l !! h = Some id -> lt id = true <-> h < n) ->
  i <= n <= j -> j <= length l -> j - i < fuel -> search fuel lt l i j = n.
Proof.
  intros Hm. revert i j. induction fuel as [|fuel IH]; intros i j Hn Hj Hf; [lia|]. cbn [search].
  destruct (Nat.ltb_spec i j) as [Hij|Hij]; [|lia].
  assert (Hh : i <= (i + j) / 2 < j).
  { split; [apply Nat.div_le_lower_bound; lia|apply Nat.div_lt_upper_bound; lia]. }
  destruct (lookup_lt_is_Some_2 l ((i + j) / 2)) as [id Hid]; [lia|]. rewrite Hid.
  destruct (lt id) eqn:E.
  - apply (Hm _ _ Hid) in E. apply IH; lia.
  - assert (~ (i + j) / 2 < n) by (rewrite <- (Hm _ _ Hid); congruence). apply IH; lia.
Qed.

Definition keys (q : exploreQueue) : list (list nat) := map (fun id => p_key (at_ q id)) (order q).

Lemma lookup_keys q i id : order q !! i = Some id -> keys q !! i = Some (p_key (at_ q id)).
Proof. intros H. unfold keys. by rewrite list_lookup_fmap, H. Qed.

Lemma search_position_spec q p :
  SortedKeys (keys q) ->
  search_position q p = length (filter (fun k => key_before k (p_key p) = true) (keys q)).
Proof.
  intros Hs. destruct (split_sorted (keys q) (p_key p) Hs) as (l1 & l2 & E & H1 & H2 & ->).
  rewrite Forall_forall in H1, H2. unfold search_position.
  assert (Hlen : length (order q) = length l1 + length l2).
  { rewrite <- length_app, <- E. unfold keys. by rewrite length_map. }
  apply search_spec; [|lia|lia|lia]. intros h id Hh. apply lookup_keys in Hh. rewrite E in Hh.
  unfold before. split.
  - intros Hb. destruct (decide (h < length l1)); [done|]. rewrite lookup_app_r in Hh by lia.
    apply list_elem_of_lookup_2 in Hh. destruct (H2 _ Hh) as [Heq|Hlt].
    + rewrite Heq in Hb. by apply Before_irrefl in Hb.
    + by apply Before_asym in Hlt.
  - intros Hlt. rewrite lookup_app_l in Hh by done. apply list_elem_of_lookup_2 in Hh. by apply H1.
Qed.

(** ** Insertion *)

(** The queue with the prefixes stored, not yet queued. *)
Definition ext (q : exploreQueue) (ps : list explorePrefix) : exploreQueue := set_store q (store q ++ ps).

Lemma at_ext_old q ps id : id < length (store q) -> at_ (ext q ps) id = at_ q id.
Proof. intros H. unfold at_, ext, set_store. cbn [store]. by rewrite lookup_app_l. Qed.

Lemma at_ext_new q ps i p : ps !! i = Some p -> at_ (ext q ps) (length (store q) + i) = p.
Proof.
  intros H. unfold at_, ext, set_store. cbn [store]. rewrite lookup_app_r by lia.
  replace (length (store q) + i - length (store q)) with i by lia. by rewrite H.
Qed.

Definition new_ids (q : exploreQueue) (ps : list explorePrefix) : list nat := seq (length (store q)) (length ps).

Definition spliced (q : exploreQueue) (ps : list explorePrefix) (n : nat) : list nat :=
  take n (order q) ++ new_ids q ps ++ drop n (order q).

Record inserted (q : exploreQueue) (ps : list explorePrefix) (n : nat) (q' : exploreQueue) : Prop := {
  n_frame : frame q q';
  n_store : length (store q') = length (store q) + length ps;
  n_order : order q' = take (b_runs (budget q)) (spliced q ps n);
  n_beyond : q_beyond q' = q_beyond q || (b_runs (budget q) <? length (spliced q ps n));
  n_at : forall i id, order q' !! i = Some id ->
    at_ q' id = set_index (if n <=? i then i else p_index (at_ (ext q ps) id)) (at_ (ext q ps) id);
  n_dropped : forall id, id ∈ drop (b_runs (budget q)) (spliced q ps n) -> p_state (at_ q' id) = prefixDropped;
  n_other : forall id, id < length (store q) -> id ∉ order q -> at_ q' id = at_ q id;
  n_NoDup : NoDup (pending q');
  n_pending : forall id, id ∈ pending q' <-> id ∈ pending q
    /\ ~ (id ∈ drop (b_runs (budget q)) (spliced q ps n) /\ started (at_ (ext q ps) id) = true);
  n_discarded : discarded q' = discarded q
    + length (filter (fun id => started (at_ (ext q ps) id) = true) (drop (b_runs (budget q)) (spliced q ps n))) }.

Lemma elem_spliced q ps n id : id ∈ spliced q ps n <-> id ∈ order q \/ id ∈ new_ids q ps.
Proof.
  unfold spliced. rewrite !elem_of_app. rewrite <- (take_drop n (order q)) at 3. rewrite elem_of_app. tauto.
Qed.

Lemma new_ids_ge q ps id : id ∈ new_ids q ps <-> length (store q) <= id < length (store q) + length ps.
Proof. unfold new_ids. apply elem_of_seq. Qed.

Lemma spliced_NoDup q ps n :
  NoDup (order q) -> Forall (fun id => id < length (store q)) (order q) -> NoDup (spliced q ps n).
Proof.
  intros Hnd Hlt. rewrite Forall_forall in Hlt. unfold spliced.
  assert (Hp : take n (order q) ++ new_ids q ps ++ drop n (order q) ≡ₚ order q ++ new_ids q ps).
  { rewrite <- (take_drop n (order q)) at 3. rewrite <- app_assoc. apply Permutation_app_head, Permutation_app_comm. }
  rewrite Hp. apply NoDup_app. split_and!; [done| |apply NoDup_seq].
  intros id Hid Hnew%new_ids_ge. specialize (Hlt id Hid). lia.
Qed.

(** The cut alone: what follows the splice, before the positions are renewed. *)
Record cut_spec (q : exploreQueue) (ps : list explorePrefix) (n : nat) (q2 : exploreQueue) : Prop := {
  c_frame : frame q q2;
  c_store : length (store q2) = length (store q) + length ps;
  c_order : order q2 = take (b_runs (budget q)) (spliced q ps n);
  c_beyond : q_beyond q2 = q_beyond q || (b_runs (budget q) <? length (spliced q ps n));
  c_at : forall id, id < length (store q) + length ps -> at_ q2 id =
    if decide (id ∈ drop (b_runs (budget q)) (spliced q ps n))
    then release (set_state prefixDropped (at_ (ext q ps) id)) else at_ (ext q ps) id;
  c_NoDup : NoDup (pending q2);
  c_pending : forall id, id ∈ pending q2 <-> id ∈ pending q
    /\ ~ (id ∈ drop (b_runs (budget q)) (spliced q ps n) /\ started (at_ (ext q ps) id) = true);
  c_discarded : discarded q2 = discarded q
    + length (filter (fun id => started (at_ (ext q ps) id) = true) (drop (b_runs (budget q)) (spliced q ps n))) }.

Definition cut_queue (q : exploreQueue) (ps : list explorePrefix) (n : nat) : exploreQueue :=
  let ord := spliced q ps n in
  let q0 := set_order (ext q ps) ord (q_beyond q) in
  if b_runs (budget q) <? length ord
  then set_order (fold_left drop_prefix (drop (b_runs (budget q)) ord) (set_order q0 ord true))
         (take (b_runs (budget q)) ord) true
  else q0.

Lemma cut_queue_spec q ps n :
  NoDup (order q) -> Forall (fun id => id < length (store q)) (order q) -> NoDup (pending q) ->
  cut_spec q ps n (cut_queue q ps n).
Proof.
  intros Hnd Hlt Hp. unfold cut_queue. cbv zeta. set (ord := spliced q ps n). set (runs := b_runs (budget q)).
  assert (Hord : NoDup ord) by by apply spliced_NoDup.
  assert (Hst : length (store (ext q ps)) = length (store q) + length ps) by (cbn; by rewrite length_app).
  destruct (Nat.ltb_spec runs (length ord)) as [Hr|Hr].
  - assert (Hlt' : Forall (fun id => id < length (store (ext q ps))) (drop runs ord)).
    { apply Forall_forall. intros id Hid. rewrite Hst. assert (Hin : id ∈ ord) by (by eapply subseteq_drop).
      apply elem_spliced in Hin as [Hin|Hin%new_ids_ge]; [|lia].
      rewrite Forall_forall in Hlt. specialize (Hlt id Hin). lia. }
    assert (Hnd' : NoDup (drop runs ord)).
    { rewrite <- (take_drop runs ord) in Hord. by apply NoDup_app in Hord as (_ & _ & ?). }
    destruct (drop_all (drop runs ord) (set_order (ext q ps) ord true) Hp Hlt' Hnd') as [F O B S A P E C].
    split.
    + destruct F as (?&?&?&?&?&?&?). by repeat split.
    + etrans; [exact S|exact Hst].
    + done.
    + fold ord runs. rewrite (proj2 (Nat.ltb_lt _ _) Hr). by rewrite orb_true_r.
    + intros id Hid. apply A. by rewrite <- Hst in Hid.
    + exact P.
    + exact E.
    + exact C.
  - assert (Ed : drop runs ord = []) by (by apply drop_ge). split; fold ord runs.
    + by repeat split.
    + exact Hst.
    + by rewrite take_ge.
    + rewrite (proj2 (Nat.ltb_ge _ _)) by done. by rewrite orb_false_r.
    + intros id _. rewrite Ed, decide_False by apply not_elem_of_nil. done.
    + done.
    + intros id. rewrite Ed. split; [|tauto]. intros Hid. split; [done|]. intros [Hn _]. by apply not_elem_of_nil in Hn.
    + rewrite Ed. cbn. lia.
Qed.

Lemma insert_prefixes_eq q p ps :
  SortedKeys (keys q) ->
  let n := length (filter (fun k => key_before k (p_key p) = true) (keys q)) in
  insert_prefixes (p :: ps) q =
    reindex (drop n (order (cut_queue q (p :: ps) n))) n (cut_queue q (p :: ps) n).
Proof.
  intros Hs n. unfold insert_prefixes. rewrite (search_position_spec q p Hs). fold n. cbv zeta.
  unfold cut_queue, spliced, new_ids, ext. cbv zeta. done.
Qed.

Lemma insert_spec q p ps :
  let n := length (filter (fun k => key_before k (p_key p) = true) (keys q)) in
  SortedKeys (keys q) -> NoDup (order q) -> Forall (fun id => id < length (store q)) (order q) ->
  NoDup (pending q) -> inserted q (p :: ps) n (insert_prefixes (p :: ps) q).
Proof.
  intros n Hs Hnd Hlt Hp. rewrite (insert_prefixes_eq q p ps Hs). fold n. set (l := p :: ps).
  destruct (cut_queue_spec q l n Hnd Hlt Hp) as [F S O B A P E C]. set (q2 := cut_queue q l n) in *.
  set (runs := b_runs (budget q)) in *. set (ord := spliced q l n) in *.
  assert (Hord : NoDup ord) by by apply spliced_NoDup.
  assert (Hin : forall id, id ∈ ord -> id < length (store q2)).
  { intros id Hid. rewrite S. apply elem_spliced in Hid as [Hid|Hid%new_ids_ge]; [|lia].
    rewrite Forall_forall in Hlt. specialize (Hlt id Hid). lia. }
  assert (Hnd2 : NoDup (order q2)).
  { rewrite O. rewrite <- (take_drop runs ord) in Hord. by apply NoDup_app in Hord as (? & _). }
  assert (Hlt2 : Forall (fun id => id < length (store q2)) (drop n (order q2))).
  { apply Forall_forall. intros id Hid. apply Hin. apply (subseteq_take runs ord). rewrite <- O.
    by apply (subseteq_drop n (order q2)). }
  assert (Hnd3 : NoDup (drop n (order q2))).
  { rewrite <- (take_drop n (order q2)) in Hnd2. by apply NoDup_app in Hnd2 as (_ & _ & ?). }
  destruct (reindex_spec (drop n (order q2)) n q2 Hlt2 Hnd3) as [F' O' B' S' P' D' I' U'].
  assert (Hsplit : forall id, id ∈ take runs ord -> id ∉ drop runs ord).
  { rewrite <- (take_drop runs ord) in Hord. by apply NoDup_app in Hord as (_ & ? & _). }
  split.
  - by etrans.
  - by rewrite S', S.
  - by rewrite O', O.
  - by rewrite B', B.
  - rewrite O'. intros i id Hi. assert (Hid : id ∈ take runs ord) by (rewrite <- O; by eapply list_elem_of_lookup_2).
    assert (Ha : at_ q2 id = at_ (ext q l) id).
    { rewrite A by (rewrite <- S; apply Hin; by apply (subseteq_take runs ord)).
      rewrite decide_False; [done|by apply Hsplit]. }
    destruct (Nat.leb_spec n i) as [Hni|Hni].
    + rewrite (I' (i - n) id) by (rewrite lookup_drop; by replace (n + (i - n)) with i by lia).
      rewrite Ha. f_equal. lia.
    + rewrite U'; [rewrite Ha; by destruct (at_ (ext q l) id)| |].
      * apply Hin. by apply (subseteq_take runs ord).
      * intros Hd. apply list_elem_of_lookup in Hd as [j Hj]. rewrite lookup_drop in Hj.
        rewrite NoDup_alt in Hnd2. specialize (Hnd2 _ _ _ Hi Hj). lia.
  - intros id Hid. assert (Hno : id ∉ take runs ord) by (intros H; by apply (Hsplit id H)).
    assert (Hi2 : id < length (store q2)) by (apply Hin; by apply (subseteq_drop runs ord)).
    rewrite U'; [|done|].
    + rewrite A by by rewrite <- S. by rewrite decide_True.
    + intros Hd. apply Hno. rewrite <- O. by apply (subseteq_drop n (order q2)).
  - intros id Hid Hn. assert (Hno : id ∉ ord).
    { intros [H|H%new_ids_ge]%elem_spliced; [done|lia]. }
    rewrite U'; [|rewrite S; lia|].
    + rewrite A by lia. rewrite decide_False; [by apply at_ext_old|]. intros Hd. apply Hno. by apply (subseteq_drop runs ord).
    + intros Hd. apply Hno. apply (subseteq_take runs ord). rewrite <- O. by apply (subseteq_drop n (order q2)).
  - by rewrite P'.
  - intros id. by rewrite P', E.
  - by rewrite D', C.
Qed.
