(* ===== verification/ExploreInvariant.v ===== *)
(** * Exploring with several jobs: the queue's invariant

    What holds of the queue between the jobs' steps, and that starting a run and
    finishing one preserve it. *)
From stdpp Require Import gmap.
From S2P Require Import Prelude Bytes Explore ExploreQueue ExploreReference ExploreQueueFacts.
Local Open Scope nat_scope.

Section Invariant.
Variable Quote : bytes -> bytes.
Variable execute : list exploreSlot -> run_result.
Variable b : ExploreBudget.

Definition done_key (q : exploreQueue) (k : list nat) : Prop :=
  exists id, id ∈ order q /\ p_key (at_ q id) = k /\ p_state (at_ q id) = prefixDone.

Definition started_after (q : exploreQueue) (n : nat) : nat :=
  length (filter (fun id => started (at_ q id) = true) (drop n (order q))).

(** Of every queue, the exploration over or not: the order is a tree explored in
    part, and what is before the frontier has run. *)
Record core (q : exploreQueue) : Prop := {
  q_budget : budget q = b;
  q_ids : Forall (fun id => id < length (store q)) (order q);
  q_tree : tree_inv execute b (keys q) (done_key q) (q_beyond q);
  q_front : frontier q <= length (order q);
  q_folded : forall i id, i < frontier q -> order q !! i = Some id -> p_state (at_ q id) = prefixDone;
  q_discarded : discarded q <= jobs q }.

(** The answer a done prefix holds is that of its plan's run. *)
Definition answer_of (p : explorePrefix) :=
  (p_replay p, p_outcome p, p_identity p, p_gaps p, p_err p).

(** Of a queue not over. *)
Record live (q : exploreQueue) : Prop := {
  l_index : forall i id, order q !! i = Some id -> p_index (at_ q id) = i;
  l_open : forall i id, frontier q <= i -> order q !! i = Some id -> p_state (at_ q id) <> prefixDropped;
  l_plan : forall id, id ∈ order q -> p_state (at_ q id) <> prefixDone ->
    plan_at execute (p_key (at_ q id)) = Some (plan (at_ q id));
  l_answer : forall i id, frontier q <= i -> order q !! i = Some id -> p_state (at_ q id) = prefixDone ->
    answer_of (at_ q id) = run_answer Quote execute (default [] (plan_at execute (p_key (at_ q id))));
  l_NoDup : NoDup (pending q);
  l_pending : forall id, id ∈ pending q <->
    exists i, frontier q <= i /\ order q !! i = Some id /\ started (at_ q id) = true;
  l_spec : discarded q + started_after q (S (frontier q)) <= jobs q;
  l_err : q_err q = None;
  l_fold : fold_keys Quote execute (take (frontier q) (keys q)) no_fold 0 = Ok (fold_of q) }.

(** Nothing is left to fold. *)
Definition stuck (q : exploreQueue) : Prop :=
  forall id, order q !! frontier q = Some id -> p_state (at_ q id) <> prefixDone.

(** Of a queue that is over: everything folded, or the failure that ended it. *)
Definition over (q : exploreQueue) : Prop :=
  match q_err q with
  | None => frontier q = length (order q) /\ fold_keys Quote execute (keys q) no_fold 0 = Ok (fold_of q)
  | Some CallerGone => True
  | Some e => fold_keys Quote execute (take (frontier q) (keys q)) no_fold 0 = Err e
  end.

Definition qinv (q : exploreQueue) : Prop :=
  core q /\ (q_done q = false -> live q /\ stuck q) /\ (q_done q = true -> over q).

Lemma order_NoDup q : core q -> NoDup (order q).
Proof.
  intros [_ _ [Hs _ _ _ _ _ _ _] _ _ _]. apply sorted_NoDup in Hs. unfold keys in Hs.
  by apply NoDup_fmap_1 in Hs.
Qed.

Lemma order_index q i j id : core q -> order q !! i = Some id -> order q !! j = Some id -> i = j.
Proof. intros Hc Hi Hj. pose proof (order_NoDup q Hc) as Hnd. rewrite NoDup_alt in Hnd. by eapply Hnd. Qed.

Lemma order_lt q id : core q -> id ∈ order q -> id < length (store q).
Proof. intros Hc Hid. pose proof (q_ids q Hc) as H. rewrite Forall_forall in H. by apply H. Qed.

Lemma key_inj q x y :
  core q -> x ∈ order q -> y ∈ order q -> p_key (at_ q x) = p_key (at_ q y) -> x = y.
Proof.
  intros Hc [i Hi]%list_elem_of_lookup [j Hj]%list_elem_of_lookup E.
  pose proof (t_sorted _ _ _ _ _ (q_tree q Hc)) as Hs. apply sorted_NoDup in Hs. rewrite NoDup_alt in Hs.
  pose proof (lookup_keys q _ _ Hi) as H1. pose proof (lookup_keys q _ _ Hj) as H2. rewrite E in H1.
  specialize (Hs _ _ _ H1 H2). subst j. congruence.
Qed.

(** ** What folding keeps *)

Record fold_frame (q q' : exploreQueue) : Prop := {
  f_budget : budget q' = budget q;
  f_jobs : jobs q' = jobs q;
  f_order : order q' = order q;
  f_running : running q' = running q;
  f_beyond : q_beyond q' = q_beyond q;
  f_disc : discarded q' = discarded q;
  f_store : length (store q') = length (store q);
  f_prefix : forall id, id < length (store q) ->
    p_key (at_ q' id) = p_key (at_ q id) /\ p_state (at_ q' id) = p_state (at_ q id)
    /\ p_index (at_ q' id) = p_index (at_ q id) /\ plan (at_ q' id) = plan (at_ q id) }.

Lemma fold_frame_refl q : fold_frame q q.
Proof. by split. Qed.

Lemma fold_frame_store q q' :
  budget q' = budget q -> jobs q' = jobs q -> order q' = order q -> running q' = running q ->
  q_beyond q' = q_beyond q -> discarded q' = discarded q -> store q' = store q -> fold_frame q q'.
Proof. intros ? ? ? ? ? ? E. split; try done; [by rewrite E|]. intros id _. unfold at_. by rewrite E. Qed.

Lemma fold_frame_trans q1 q2 q3 : fold_frame q1 q2 -> fold_frame q2 q3 -> fold_frame q1 q3.
Proof.
  intros [A1 A2 A3 A4 A5 A6 A7 A8] [B1 B2 B3 B4 B5 B6 B7 B8]. split; try congruence.
  intros id Hid. destruct (A8 id Hid) as (?&?&?&?). destruct (B8 id) as (?&?&?&?); [lia|].
  split_and!; congruence.
Qed.

Lemma fold_frame_keys q q' : core q -> fold_frame q q' -> keys q' = keys q.
Proof.
  intros Hc F. unfold keys. rewrite (f_order _ _ F). apply map_ext_in. intros id Hid%list_elem_of_In.
  by destruct (f_prefix _ _ F id (order_lt q id Hc Hid)) as (-> & _).
Qed.

Lemma fold_frame_done q q' k : core q -> fold_frame q q' -> done_key q k <-> done_key q' k.
Proof.
  intros Hc F. unfold done_key. rewrite (f_order _ _ F). split; intros (id & Hid & H1 & H2); exists id.
  all: destruct (f_prefix _ _ F id (order_lt q id Hc Hid)) as (E1 & E2 & _); split_and!; congruence.
Qed.

Lemma fold_frame_tree q q' :
  core q -> fold_frame q q' -> tree_inv execute b (keys q') (done_key q') (q_beyond q').
Proof.
  intros Hc F. rewrite (fold_frame_keys q q' Hc F), (f_beyond _ _ F).
  eapply tree_ext; [|by apply q_tree]. intros k. by apply fold_frame_done.
Qed.

Lemma started_frame q q' n : core q -> fold_frame q q' -> started_after q' n = started_after q n.
Proof.
  intros Hc F. unfold started_after. rewrite (f_order _ _ F). f_equal. apply filter_same.
  intros id Hid. unfold started. apply (subseteq_drop n) in Hid.
  by destruct (f_prefix _ _ F id (order_lt q id Hc Hid)) as (_ & -> & _).
Qed.

Lemma started_after_S q n : started_after q (S n) <= started_after q n.
Proof.
  unfold started_after. replace (drop (S n) (order q)) with (tl (drop n (order q))).
  - destruct (drop n (order q)) as [|x l]; [done|]. cbn [tl]. rewrite filter_cons.
    destruct (decide _); cbn; lia.
  - replace (S n) with (n + 1) by lia. rewrite <- drop_drop. by destruct (drop n (order q)).
Qed.

(** ** Folding *)

Lemma take_keys_S q id :
  order q !! frontier q = Some id -> take (S (frontier q)) (keys q) = take (frontier q) (keys q) ++ [p_key (at_ q id)].
Proof. intros H. apply take_S_r. by apply lookup_keys. Qed.

Lemma length_take_keys q : core q -> length (take (frontier q) (keys q)) = frontier q.
Proof.
  intros Hc. rewrite length_take. unfold keys. rewrite length_map. pose proof (q_front q Hc). lia.
Qed.

Lemma fold_of_set f id q (x : folded) :
  fold_of (upd f id (set_fold q (f_result x) (f_reached x) (f_trie x) (f_depthHit x))) = x.
Proof. by destruct x. Qed.

(** The keys' fold, one run further: what [execute] makes of the key's plan. *)
Definition fold_answer (k : list nat) (f : folded) (n : nat) : result explore_error folded :=
  fold_keys Quote execute [k] f n.

Lemma fold_keys_front q id :
  core q -> live q -> order q !! frontier q = Some id ->
  fold_keys Quote execute (take (S (frontier q)) (keys q)) no_fold 0
  = fold_answer (p_key (at_ q id)) (fold_of q) (frontier q).
Proof.
  intros Hc Hl Hid. rewrite (take_keys_S q id Hid), fold_keys_app, (l_fold q Hl), length_take_keys by done. done.
Qed.

(** Folding the done prefix at the frontier: the exploration fails there, or the
    run is in the result and the frontier behind it. *)
Lemma fold_one_spec q id :
  core q -> live q -> q_done q = false -> order q !! frontier q = Some id ->
  p_state (at_ q id) = prefixDone ->
  exists q' go, fold_one id q = Some (q', go) /\ fold_frame q q' /\ frontier q' = S (frontier q) /\
    pending q' = remove_first id (pending q) /\
    match fold_answer (p_key (at_ q id)) (fold_of q) (frontier q) with
    | Ok f => go = true /\ q_done q' = false /\ q_err q' = None /\ fold_of q' = f /\
              (forall id', id' < length (store q) -> id' <> id -> at_ q' id' = at_ q id')
    | Err e => go = false /\ q_done q' = true /\ q_err q' = Some e
    end.
Proof.
  intros Hc Hl Hnd Hid Hst.
  pose proof (l_answer q Hl _ _ (Nat.le_refl _) Hid Hst) as Ha. pose proof (l_err q Hl) as He.
  assert (Hlt : id < length (store q)) by (apply order_lt; [done|by eapply list_elem_of_lookup_2]).
  unfold fold_one, fold_answer. cbn [fold_keys]. unfold run_answer, answer_of in Ha.
  destruct (execute (default [] (plan_at execute (p_key (at_ q id))))) as [e|e|r o g].
  1, 2: injection Ha as -> _ _ _ ->; do 2 eexists; split; [reflexivity|];
    (split; [by apply fold_frame_store|]); (split; [cbn; lia|]); (split; [done|]); cbn; by rewrite He.
  destruct (followed r) as [why|] eqn:Ef.
  - injection Ha as -> _ _ _ ->. do 2 eexists. split; [reflexivity|].
    split; [by apply fold_frame_store|]. split; [cbn; lia|]. split; [done|]. cbn. by rewrite He.
  - injection Ha as -> -> -> -> ->. do 2 eexists. split; [reflexivity|]. split.
    { split; try done; [cbn; by rewrite length_alter|].
      intros id' Hid'. rewrite at_upd by done. change (at_ (set_fold _ _ _ _ _) id') with (at_ q id').
      by destruct (decide (id = id')). }
    split; [cbn; lia|]. split; [done|]. split; [done|]. split; [done|]. split; [done|]. split.
    { transitivity (fold_run (fold_of (with_frontier (forget id q))) (frontier q + 1) r o (identity Quote o) g);
        [|done]. apply fold_of_set. }
    intros id' Hid' Hne. rewrite at_upd by done. by rewrite decide_False.
Qed.

Lemma fold_one_core q id q' :
  core q -> order q !! frontier q = Some id -> p_state (at_ q id) = prefixDone ->
  fold_frame q q' -> frontier q' = S (frontier q) -> core q'.
Proof.
  intros Hc Hid Hst F Hf. pose proof Hc as [Hb Hi Ht Hfr Hfo Hd]. split.
  - by rewrite (f_budget _ _ F).
  - by rewrite (f_order _ _ F), (f_store _ _ F).
  - by apply (fold_frame_tree q).
  - rewrite (f_order _ _ F), Hf. by apply lookup_lt_Some in Hid.
  - rewrite Hf, (f_order _ _ F). intros i x Hlt Hx.
    assert (Hxl : x < length (store q)) by (apply order_lt; [done|by eapply list_elem_of_lookup_2]).
    destruct (f_prefix _ _ F x Hxl) as (_ & -> & _). destruct (decide (i = frontier q)) as [->|].
    + rewrite Hid in Hx. by injection Hx as <-.
    + eapply Hfo; [|exact Hx]. lia.
  - by rewrite (f_disc _ _ F), (f_jobs _ _ F).
Qed.

Lemma fold_one_live q id q' f :
  core q -> live q -> order q !! frontier q = Some id -> p_state (at_ q id) = prefixDone ->
  fold_frame q q' -> frontier q' = S (frontier q) -> pending q' = remove_first id (pending q) ->
  fold_answer (p_key (at_ q id)) (fold_of q) (frontier q) = Ok f ->
  q_err q' = None -> fold_of q' = f ->
  (forall id', id' < length (store q) -> id' <> id -> at_ q' id' = at_ q id') -> live q'.
Proof.
  intros Hc Hl Hid Hst F Hf Hp Hans He Hfo Hat.
  pose proof Hl as [Lx Lo Lp La Ln Lpd Ls _ Lf]. pose proof (f_prefix _ _ F) as Hpre.
  assert (Hlt : forall i x, order q !! i = Some x -> x < length (store q)).
  { intros i x Hx. apply order_lt; [done|by eapply list_elem_of_lookup_2]. }
  split; rewrite ?(f_order _ _ F), ?(fold_frame_keys q q' Hc F), ?Hf.
  - intros i x Hx. destruct (Hpre x (Hlt i x Hx)) as (_ & _ & -> & _). by apply Lx.
  - intros i x Hle Hx. destruct (Hpre x (Hlt i x Hx)) as (_ & -> & _). eapply Lo; [|exact Hx]. lia.
  - intros x Hx. destruct (Hpre x (order_lt q x Hc Hx)) as (-> & -> & _ & ->). by apply Lp.
  - intros i x Hle Hx. assert (x <> id) by (intros ->; pose proof (order_index q _ _ _ Hc Hx Hid); lia).
    rewrite Hat by (try done; by eapply Hlt). eapply La; [|exact Hx]. lia.
  - rewrite Hp. by apply remove_first_NoDup.
  - intros x. rewrite Hp, remove_first_elem, Lpd by done. split.
    + intros [(i & Hle & Hx & Hs) Hne]. exists i. split_and!; [|done|].
      * assert (i <> frontier q); [|lia]. intros ->. rewrite Hid in Hx. congruence.
      * unfold started. destruct (Hpre x (Hlt i x Hx)) as (_ & -> & _). exact Hs.
    + intros (i & Hle & Hx & Hs). split.
      * exists i. split_and!; [lia|done|]. unfold started in *. by destruct (Hpre x (Hlt i x Hx)) as (_ & <- & _).
      * intros ->. pose proof (order_index q _ _ _ Hc Hx Hid). lia.
  - rewrite (started_frame q q' _ Hc F), (f_disc _ _ F), (f_jobs _ _ F).
    pose proof (started_after_S q (S (frontier q))). lia.
  - done.
  - rewrite (fold_keys_front q id Hc Hl Hid), Hans. by rewrite Hfo.
Qed.

Lemma fold_loop_spec ids q :
  core q -> live q -> q_done q = false -> ids = drop (frontier q) (order q) ->
  exists q', fold_loop ids q = Some q' /\ fold_frame q q' /\ qinv q'
    /\ frontier q' + started_after q' (frontier q') = frontier q + started_after q (frontier q).
Proof.
  revert q. induction ids as [|id ids IH]; intros q Hc Hl Hnd Hids; cbn [fold_loop].
  - exists q. split; [done|]. split; [apply fold_frame_refl|]. split; [|done]. split; [done|]. split; [|congruence].
    intros _. split; [done|]. intros id Hid. apply lookup_lt_Some in Hid.
    symmetry in Hids. assert (Hlen : length (drop (frontier q) (order q)) = 0) by by rewrite Hids.
    rewrite length_drop in Hlen. lia.
  - assert (Hid : order q !! frontier q = Some id) by by rewrite lookup_drop_head, <- Hids.
    case_bool_decide as Hst.
    + destruct (fold_one_spec q id Hc Hl Hnd Hid Hst) as (q1 & go & E & F & Hf & Hp & Hans).
      rewrite E. cbn [mbind option_bind].
      assert (Hcount : frontier q1 + started_after q1 (frontier q1) = frontier q + started_after q (frontier q)).
      { rewrite (started_frame q q1 _ Hc F), Hf. unfold started_after. rewrite (drop_S _ _ _ Hid), filter_cons_True.
        - cbn. lia.
        - unfold started. by rewrite Hst. }
      pose proof (fold_one_core q id q1 Hc Hid Hst F Hf) as Hc1.
      destruct (fold_answer _ _ _) as [f|e] eqn:Ea.
      * destruct Hans as (-> & Hd1 & He1 & Hfo & Hat).
        pose proof (fold_one_live q id q1 f Hc Hl Hid Hst F Hf Hp Ea He1 Hfo Hat) as Hl1.
        destruct (IH q1 Hc1 Hl1 Hd1) as (q' & E' & F' & Hq' & Hct).
        { rewrite (f_order _ _ F), Hf. rewrite (drop_S _ _ _ Hid) in Hids. by injection Hids. }
        exists q'. split; [done|]. split; [by eapply fold_frame_trans|]. split; [done|lia].
      * destruct Hans as (-> & Hd1 & He1). exists q1. split; [done|]. split; [done|]. split; [|done]. split; [done|].
        split; [congruence|]. intros _. unfold over. rewrite He1. rewrite (fold_frame_keys q q1 Hc F), Hf.
        rewrite (fold_keys_front q id Hc Hl Hid), Ea. by destruct e.
    + exists q. split; [done|]. split; [apply fold_frame_refl|]. split; [|done]. split; [done|]. split; [|congruence].
      intros _. split; [done|]. intros x Hx. rewrite Hid in Hx. by injection Hx as <-.
Qed.

(** What finishing [id] does to what the other jobs hold. *)
Definition held (q : exploreQueue) (x : nat) : Prop :=
  (x ∈ order q /\ p_state (at_ q x) = prefixRunning) \/ (x ∉ order q /\ p_state (at_ q x) = prefixDropped).

Record effect (q : exploreQueue) (id : nat) (q' : exploreQueue) : Prop := {
  e_budget : budget q' = budget q;
  e_jobs : jobs q' = jobs q;
  e_running : running q' = running q - 1;
  e_store : length (store q) <= length (store q');
  e_held : forall x, x < length (store q) -> x <> id -> held q x -> held q' x;
  e_running_in : q_done q' = false -> forall x, x ∈ order q' -> p_state (at_ q' x) = prefixRunning ->
    x ∈ order q /\ p_state (at_ q x) = prefixRunning /\ x <> id;
  e_count : frontier q' + started_after q' (frontier q') + discarded q'
    = frontier q + started_after q (frontier q) + discarded q }.
End Invariant.
