(* ===== verification/ExploreFinish.v ===== *)
(** * Exploring with several jobs: finishing a run

    A run that ends while the exploration goes on puts its prefixes in the queue:
    the queue keeps its invariant, whatever the other jobs are running. *)
From stdpp Require Import gmap.
From S2P Require Import Prelude Bytes Explore ExploreQueue ExploreReference ExploreQueueFacts.
From S2P Require Import ExploreInvariant.
Local Open Scope nat_scope.

Section Finishing.
Variable Quote : bytes -> bytes.
Variable execute : list exploreSlot -> run_result.
Variable b : ExploreBudget.
Abbreviation core := (core execute b).
Abbreviation live := (live Quote execute).

(** The prefix [id], running at position [i0] of [q]; [q2] holds its answer and
    [q3] the prefixes [ps] it leaves, queued at position [n]. *)
Variables (q q2 q3 : exploreQueue) (id i0 n : nat) (k : list nat) (ps : list explorePrefix).
Hypothesis Hc : core q.
Hypothesis Hl : live q.
Hypothesis Hi0 : order q !! i0 = Some id.
Hypothesis Hstate : p_state (at_ q id) = prefixRunning.
Hypothesis Hkey : p_key (at_ q id) = k.

Hypothesis H2_frame : budget q2 = b /\ jobs q2 = jobs q /\ frontier q2 = frontier q /\ q_done q2 = false
  /\ fold_of q2 = fold_of q /\ q_err q2 = None.
Hypothesis H2_queue : order q2 = order q /\ pending q2 = pending q /\ discarded q2 = discarded q
  /\ q_beyond q2 = q_beyond q /\ length (store q2) = length (store q).
Hypothesis H2_other : forall x, x < length (store q) -> x <> id -> at_ q2 x = at_ q x.
Hypothesis H2_id : p_key (at_ q2 id) = k /\ p_state (at_ q2 id) = prefixDone
  /\ p_index (at_ q2 id) = p_index (at_ q id)
  /\ answer_of (at_ q2 id) = run_answer Quote execute (default [] (plan_at execute k)).

Hypothesis Hins : inserted q2 ps n q3.
Hypothesis Hps : map p_key ps = child_keys execute k.
Hypothesis Hnew : Forall (fun p => p_state p = prefixQueued /\ plan_at execute (p_key p) = Some (plan p)) ps.
Hypothesis Hn : i0 < n <= length (order q).
Hypothesis Hsplice :
  take n (keys q) ++ child_keys execute k ++ drop n (keys q) = splice (keys q) (child_keys execute k).

Abbreviation ord := (spliced q2 ps n).
Abbreviation runs := (b_runs b).
Abbreviation old x := (at_ (ext q2 ps) x).

Lemma fin_i0 : frontier q <= i0.
Proof.
  destruct (decide (i0 < frontier q)) as [Hlt|]; [|lia].
  pose proof (q_folded _ _ _ Hc i0 id Hlt Hi0). congruence.
Qed.

Lemma fin_ord : ord = take n (order q) ++ new_ids q2 ps ++ drop n (order q).
Proof. unfold spliced. destruct H2_queue as (-> & _). done. Qed.

Lemma fin_order3 : order q3 = take runs ord.
Proof. rewrite (n_order _ _ _ _ Hins). by destruct H2_frame as (-> & _). Qed.

Lemma fin_old x : x ∈ order q ->
  p_key (old x) = p_key (at_ q x) /\ started (old x) = started (at_ q x)
  /\ p_index (old x) = p_index (at_ q x) /\ (x <> id -> old x = at_ q x).
Proof.
  intros Hx. assert (Hlt : x < length (store q)) by by eapply order_lt.
  rewrite at_ext_old by (destruct H2_queue as (_ & _ & _ & _ & ->); done).
  destruct (decide (x = id)) as [->|Hne]; [|by rewrite H2_other].
  destruct H2_id as (Ek & Es & Ei & _). unfold started. rewrite Ek, Es, Ei, Hkey, Hstate.
  split_and!; [done|done|done|done].
Qed.

Lemma fin_new x : x ∈ new_ids q2 ps ->
  p_state (old x) = prefixQueued /\ plan_at execute (p_key (old x)) = Some (plan (old x)).
Proof.
  intros Hx%new_ids_ge. destruct (lookup_lt_is_Some_2 ps (x - length (store q2))) as [p Hp]; [lia|].
  replace x with (length (store q2) + (x - length (store q2))) by lia.
  rewrite (at_ext_new q2 ps _ p Hp). rewrite Forall_lookup in Hnew. by eapply Hnew.
Qed.

Lemma fin_elem x : x ∈ ord <-> x ∈ order q \/ x ∈ new_ids q2 ps.
Proof. rewrite elem_spliced. by destruct H2_queue as (-> & _). Qed.

Lemma fin_old_new x : x ∈ order q -> x ∉ new_ids q2 ps.
Proof.
  intros Hx Hnw%new_ids_ge. pose proof (order_lt _ _ _ _ Hc Hx). destruct H2_queue as (_ & _ & _ & _ & E). lia.
Qed.

Lemma fin_NoDup : NoDup ord.
Proof.
  destruct H2_queue as (Eo & _ & _ & _ & El).
  apply spliced_NoDup; rewrite Eo, ?El; [by eapply order_NoDup|by eapply q_ids].
Qed.

Lemma fin_NoDup3 : NoDup (order q3).
Proof.
  rewrite fin_order3. pose proof fin_NoDup as H. rewrite <- (take_drop runs ord) in H.
  by apply NoDup_app in H as (? & _).
Qed.

Lemma fin_at x : x ∈ order q3 ->
  p_key (at_ q3 x) = p_key (old x) /\ p_state (at_ q3 x) = p_state (old x)
  /\ plan (at_ q3 x) = plan (old x) /\ answer_of (at_ q3 x) = answer_of (old x).
Proof. intros [i Hi]%list_elem_of_lookup. by rewrite (n_at _ _ _ _ Hins i x Hi). Qed.

Lemma fin_sub x : x ∈ order q3 -> x ∈ ord.
Proof. rewrite fin_order3. apply subseteq_take. Qed.

(** Before position [n] nothing moved. *)
Lemma fin_low i : i < n -> i < runs -> order q3 !! i = order q !! i.
Proof.
  intros Hi Hr. rewrite fin_order3, lookup_take_lt by done. rewrite fin_ord.
  rewrite lookup_app_l by (rewrite length_take; lia). by apply lookup_take_lt.
Qed.

Lemma fin_len : length (order q) <= runs.
Proof. pose proof (t_len _ _ _ _ _ (q_tree _ _ _ Hc)) as H. unfold keys in H. by rewrite length_map in H. Qed.

Lemma fin_len3 : length (order q) <= length (order q3).
Proof.
  rewrite fin_order3, length_take, fin_ord, !length_app, length_take, length_drop. pose proof fin_len. lia.
Qed.

Lemma fin_keys_ord : map (fun x => p_key (old x)) ord = splice (keys q) (child_keys execute k).
Proof.
  rewrite fin_ord, <- Hsplice, !map_app. unfold keys. rewrite firstn_map, skipn_map.
  assert (Eold : forall l, l ⊆ order q -> map (fun x => p_key (old x)) l = map (fun x => p_key (at_ q x)) l).
  { intros l Hsub. apply map_ext_in. intros x Hx%list_elem_of_In. by apply fin_old, Hsub. }
  rewrite (Eold (take n (order q))) by apply subseteq_take.
  rewrite (Eold (drop n (order q))) by apply subseteq_drop. f_equal. f_equal.
  rewrite <- Hps. unfold new_ids. apply list_eq. intros i. rewrite !list_lookup_fmap.
  destruct (decide (i < length ps)) as [Hlt|Hge].
  - rewrite lookup_seq_lt by done. destruct (lookup_lt_is_Some_2 ps i Hlt) as [p Hp]. rewrite Hp. cbn.
    by rewrite (at_ext_new q2 ps i p Hp).
  - rewrite lookup_seq_ge, (lookup_ge_None_2 ps) by lia. done.
Qed.

Lemma fin_keys : keys q3 = take runs (splice (keys q) (child_keys execute k)).
Proof.
  rewrite <- fin_keys_ord. unfold keys. rewrite fin_order3, firstn_map. apply map_ext_in.
  intros x Hx%list_elem_of_In. rewrite <- fin_order3 in Hx. by destruct (fin_at x Hx) as (-> & _).
Qed.

Lemma fin_done_state x : x ∈ order q -> p_state (old x) = prefixDone <-> p_state (at_ q x) = prefixDone \/ x = id.
Proof.
  intros Hx. destruct (fin_old x Hx) as (_ & _ & _ & E). destruct (decide (x = id)) as [->|Hne].
  - rewrite at_ext_old; [|destruct H2_queue as (_ & _ & _ & _ & ->); by eapply order_lt].
    destruct H2_id as (_ & -> & _). tauto.
  - rewrite E by done. tauto.
Qed.

Lemma fin_done x :
  done_key q3 x <-> (done_key q x \/ x = k) /\ x ∈ take runs (splice (keys q) (child_keys execute k)).
Proof.
  rewrite <- fin_keys. unfold done_key. split.
  - intros (y & Hy & Ek & Es). destruct (fin_at y Hy) as (Ek' & Es' & _). rewrite Ek' in Ek. rewrite Es' in Es.
    assert (Hin : x ∈ keys q3).
    { apply list_elem_of_lookup in Hy as [i Hi]. apply (list_elem_of_lookup_2 _ i).
      rewrite (lookup_keys q3 i y Hi). congruence. }
    split; [|done]. apply fin_sub, fin_elem in Hy as [Hy|Hy]; [|apply fin_new in Hy as [? _]; congruence].
    destruct (fin_old y Hy) as (Eo & _). apply fin_done_state in Es as [Es| ->]; [|right; congruence|done].
    left. exists y. split_and!; [done|congruence|done].
  - intros [Hd Hin]. unfold keys in Hin. apply list_elem_of_fmap in Hin as (y & -> & Hy).
    exists y. split_and!; [done|done|]. destruct (fin_at y Hy) as (Ek' & -> & _).
    pose proof (fin_sub y Hy) as Hy'. apply fin_elem in Hy' as [Hy'|Hy'].
    + apply fin_done_state; [done|]. destruct (fin_old y Hy') as (Eo & _).
      destruct Hd as [(z & Hz & Ez & Sz)|Hk].
      * left. rewrite <- (key_inj execute b q z y); [done|done|done|done|congruence].
      * right. apply (key_inj execute b q); [done|done|by eapply list_elem_of_lookup_2|congruence].
    + exfalso. assert (Hck : p_key (old y) ∈ child_keys execute k).
      { rewrite <- Hps. apply new_ids_ge in Hy'. destruct (lookup_lt_is_Some_2 ps (y - length (store q2))) as [p Hp]; [lia|].
        apply list_elem_of_fmap. exists p. split; [|by eapply list_elem_of_lookup_2].
        replace y with (length (store q2) + (y - length (store q2))) at 1 by lia. by rewrite (at_ext_new q2 ps _ p Hp). }
      apply elem_child_keys in Hck as (j & Ej & _). rewrite Ek' in Hd. destruct Hd as [Hd|Hd].
      * pose proof (t_done _ _ _ _ _ (q_tree _ _ _ Hc) _ Hd) as Hin0. rewrite Ej in Hin0.
        pose proof (t_parent _ _ _ _ _ (q_tree _ _ _ Hc) _ _ Hin0) as [_ (z & Hz & Ez & Sz)].
        assert (z = id); [|congruence]. apply (key_inj execute b q); [done|done|by eapply list_elem_of_lookup_2|congruence].
      * rewrite Hd in Ej. apply (f_equal length) in Ej. rewrite length_app in Ej. cbn in Ej. lia.
Qed.

Lemma fin_not_done : ~ done_key q k.
Proof.
  intros (z & Hz & Ez & Sz). assert (z = id); [|congruence].
  apply (key_inj execute b q); [done|done|by eapply list_elem_of_lookup_2|congruence].
Qed.

Lemma fin_tree : tree_inv execute b (keys q3) (done_key q3) (q_beyond q3).
Proof.
  rewrite fin_keys. assert (Eb : q_beyond q3 = q_beyond q || (runs <? length (splice (keys q) (child_keys execute k)))).
  { rewrite (n_beyond _ _ _ _ Hins), <- fin_keys_ord, length_map.
    destruct H2_queue as (_ & _ & _ & -> & _). by destruct H2_frame as (-> & _). }
  rewrite Eb. apply tree_insert with (done := done_key q); [by apply q_tree| |apply fin_not_done|apply fin_done].
  rewrite <- Hkey. eapply list_elem_of_lookup_2. by apply lookup_keys.
Qed.

Lemma fin_frontier : frontier q3 = frontier q.
Proof.
  destruct (n_frame _ _ _ _ Hins) as (_ & _ & -> & _). by destruct H2_frame as (_ & _ & -> & _).
Qed.

Lemma fin_i0_lt : i0 < runs /\ i0 < length (order q3).
Proof. pose proof (lookup_lt_Some _ _ _ Hi0). pose proof fin_len. pose proof fin_len3. lia. Qed.

Lemma fin_started x : x ∈ ord -> started (old x) = true <-> x ∈ order q /\ started (at_ q x) = true.
Proof.
  intros [Hx|Hx]%fin_elem.
  - destruct (fin_old x Hx) as (_ & -> & _). tauto.
  - destruct (fin_new x Hx) as [Hs _]. unfold started at 1. rewrite Hs. split; [done|].
    intros [Ho _]. by apply fin_old_new in Ho.
Qed.

(** The runs started from a position on are as many as before, dropped ones counted. *)
Lemma fin_count m :
  m <= n -> m <= length (order q3) ->
  discarded q3 + started_after q3 m = discarded q + started_after q m.
Proof.
  intros Hmn Hm3.
  assert (E3 : started_after q3 m
    = length (filter (fun x => started (old x) = true) (drop m (take runs ord)))).
  { unfold started_after. rewrite fin_order3. f_equal. apply filter_same. intros x Hx%subseteq_drop.
    rewrite <- fin_order3 in Hx. unfold started. by destruct (fin_at x Hx) as (_ & -> & _). }
  rewrite E3, (n_discarded _ _ _ _ Hins). destruct H2_frame as (Eb & _). rewrite Eb.
  destruct H2_queue as (_ & _ & -> & _).
  assert (Esplit : drop m ord = drop m (take runs ord) ++ drop runs ord).
  { rewrite <- (take_drop runs ord) at 1. rewrite drop_app_le; [done|]. by rewrite <- fin_order3. }
  assert (E1 : length (filter (fun x => started (old x) = true) (drop m ord)) = started_after q m).
  { rewrite fin_ord. rewrite drop_app_le by (rewrite length_take; lia). rewrite !filter_app, !length_app.
    rewrite (filter_none (fun x => started (old x) = true) (new_ids q2 ps)).
    - cbn [length Nat.add]. unfold started_after. rewrite <- (take_drop (n - m) (drop m (order q))).
      rewrite drop_drop, filter_app, length_app. replace (m + (n - m)) with n by lia.
      rewrite skipn_firstn_comm. f_equal; f_equal; apply filter_same; intros x Hx.
      + apply subseteq_take, subseteq_drop in Hx. by destruct (fin_old x Hx) as (_ & -> & _).
      + apply subseteq_drop in Hx. by destruct (fin_old x Hx) as (_ & -> & _).
    - apply Forall_forall. intros x Hx. unfold started. destruct (fin_new x Hx) as [-> _]. done. }
  rewrite Esplit, filter_app, length_app in E1. lia.
Qed.

Lemma fin_core : core q3.
Proof.
  pose proof fin_i0 as Hf. pose proof fin_i0_lt as [Hr1 Hr2]. split.
  - destruct (n_frame _ _ _ _ Hins) as (-> & _). by destruct H2_frame as (-> & _).
  - rewrite (n_store _ _ _ _ Hins). apply Forall_forall. intros x [Hx|Hx%new_ids_ge]%fin_sub%fin_elem; [|lia].
    pose proof (order_lt _ _ _ _ Hc Hx). destruct H2_queue as (_ & _ & _ & _ & ->). lia.
  - apply fin_tree.
  - rewrite fin_frontier. lia.
  - rewrite fin_frontier. intros i x Hi Hx. pose proof Hx as Hx3. rewrite fin_low in Hx by lia.
    assert (Hin : x ∈ order q3) by by eapply list_elem_of_lookup_2.
    assert (Hino : x ∈ order q) by by eapply list_elem_of_lookup_2.
    destruct (fin_at x Hin) as (_ & -> & _). apply fin_done_state; [done|]. left. by eapply q_folded.
  - pose proof (fin_count (S (frontier q)) ltac:(lia) ltac:(lia)). pose proof (l_spec _ _ _ Hl).
    destruct (n_frame _ _ _ _ Hins) as (_ & -> & _). destruct H2_frame as (_ & -> & _). lia.
Qed.

(** An old prefix from the frontier on is past it in both orders. *)
Lemma fin_index_old i x :
  frontier q <= i -> order q3 !! i = Some x -> x ∈ order q -> exists j, frontier q <= j /\ order q !! j = Some x.
Proof.
  intros Hi Hx [j Hj]%list_elem_of_lookup. exists j. split; [|done].
  destruct (decide (j < frontier q)) as [Hlt|]; [exfalso|lia].
  pose proof fin_i0. pose proof fin_i0_lt as [? ?]. rewrite <- fin_low in Hj by lia.
  pose proof fin_NoDup3 as Hnd. rewrite NoDup_alt in Hnd. specialize (Hnd _ _ _ Hx Hj). lia.
Qed.

Lemma fin_not_dropped x : x ∈ order q -> p_state (at_ q x) <> prefixDropped.
Proof.
  intros [i Hi]%list_elem_of_lookup. destruct (decide (i < frontier q)).
  - rewrite (q_folded _ _ _ Hc i x) by done. done.
  - eapply l_open; [done| |done]. lia.
Qed.

Lemma fin_pending x :
  x ∈ pending q3 <-> exists i, frontier q <= i /\ order q3 !! i = Some x /\ started (at_ q3 x) = true.
Proof.
  rewrite (n_pending _ _ _ _ Hins). destruct H2_frame as (-> & _). destruct H2_queue as (_ & -> & _).
  rewrite (l_pending _ _ _ Hl). split.
  - intros [(j & Hj & Hx & Hs) Hnd]. assert (Hino : x ∈ order q) by by eapply list_elem_of_lookup_2.
    assert (Hord : x ∈ ord) by (apply fin_elem; by left).
    assert (Hs' : started (old x) = true) by by (apply fin_started; [|split]).
    assert (Hin : x ∈ order q3).
    { rewrite fin_order3. rewrite <- (take_drop runs ord) in Hord. apply elem_of_app in Hord as [|Hd]; [done|].
      destruct Hnd. done. }
    pose proof Hin as Hin'. apply list_elem_of_lookup in Hin' as [i Hi]. exists i. split_and!; [|done|].
    + destruct (decide (i < frontier q)) as [Hlt|]; [exfalso|lia]. pose proof fin_i0. pose proof fin_i0_lt as [? ?].
      rewrite fin_low in Hi by lia. pose proof (order_index _ _ _ _ _ _ Hc Hi Hx). lia.
    + unfold started. destruct (fin_at x Hin) as (_ & -> & _). exact Hs'.
  - intros (i & Hi & Hx & Hs). assert (Hin : x ∈ order q3) by by eapply list_elem_of_lookup_2.
    unfold started in Hs. destruct (fin_at x Hin) as (_ & Est & _). rewrite Est in Hs.
    apply (fin_started x (fin_sub x Hin)) in Hs as [Hino Hs].
    destruct (fin_index_old i x Hi Hx Hino) as (j & Hj & Hxj). split; [by exists j|].
    intros [Hd _]. pose proof fin_NoDup as Hnd. rewrite <- (take_drop runs ord) in Hnd.
    apply NoDup_app in Hnd as (_ & Hnd & _). apply (Hnd x); [by rewrite <- fin_order3|done].
Qed.

Lemma fin_live : live q3.
Proof.
  pose proof fin_i0 as Hf. pose proof fin_i0_lt as [Hr1 Hr2].
  destruct (n_frame _ _ _ _ Hins) as (F1 & F2 & F3 & F4 & F5 & F6 & F7).
  destruct H2_frame as (G1 & G2 & G3 & G4 & G5 & G6).
  split; rewrite ?fin_frontier.
  - intros i x Hx. rewrite (n_at _ _ _ _ Hins i x Hx). cbn [p_index set_index].
    destruct (Nat.leb_spec n i) as [|Hlt]; [done|].
    pose proof (lookup_lt_Some _ _ _ Hx) as Hl3. rewrite fin_order3, length_take in Hl3.
    rewrite fin_low in Hx by lia. assert (Hino : x ∈ order q) by by eapply list_elem_of_lookup_2.
    destruct (fin_old x Hino) as (_ & _ & -> & _). by eapply l_index.
  - intros i x Hi Hx. assert (Hin : x ∈ order q3) by by eapply list_elem_of_lookup_2.
    destruct (fin_at x Hin) as (_ & -> & _). pose proof (fin_sub x Hin) as Hs.
    apply fin_elem in Hs as [Ho|Hnw]; [|destruct (fin_new x Hnw) as [-> _]; done].
    destruct (fin_old x Ho) as (_ & _ & _ & E). destruct (decide (x = id)) as [->|Hne].
    + assert (p_state (old id) = prefixDone) as ->; [|done]. apply fin_done_state; [done|by right].
    + rewrite E by done. by apply fin_not_dropped.
  - intros x Hin Hs. destruct (fin_at x Hin) as (-> & Es & -> & _). rewrite Es in Hs.
    pose proof (fin_sub x Hin) as Hsub. apply fin_elem in Hsub as [Ho|Hnw]; [|by apply fin_new].
    assert (Hne : x <> id) by (intros ->; apply Hs, fin_done_state; [done|by right]).
    destruct (fin_old x Ho) as (_ & _ & _ & E). rewrite E in * by done. by eapply l_plan.
  - intros i x Hi Hx Hs. assert (Hin : x ∈ order q3) by by eapply list_elem_of_lookup_2.
    destruct (fin_at x Hin) as (-> & Es & _ & ->). rewrite Es in Hs.
    pose proof (fin_sub x Hin) as Hsub. apply fin_elem in Hsub as [Ho|Hnw]; [|apply fin_new in Hnw as [? _]; congruence].
    destruct (fin_old x Ho) as (Ek & _ & _ & E). destruct (decide (x = id)) as [->|Hne].
    + rewrite Ek, Hkey. rewrite at_ext_old by (destruct H2_queue as (_ & _ & _ & _ & ->); by eapply order_lt).
      by destruct H2_id as (_ & _ & _ & ?).
    + rewrite E in * by done. destruct (fin_index_old i x Hi Hx Ho) as (j & Hj & Hxj). by eapply l_answer.
  - by eapply n_NoDup.
  - apply fin_pending.
  - pose proof (fin_count (S (frontier q)) ltac:(lia) ltac:(lia)) as Hcount. pose proof (l_spec _ _ _ Hl).
    rewrite F2, G2. lia.
  - by rewrite F7.
  - rewrite F6, G5, <- (l_fold _ _ _ Hl). f_equal. apply list_eq. intros i.
    destruct (decide (i < frontier q)) as [Hlt|]; [|by rewrite !lookup_take_ge by lia].
    rewrite !lookup_take_lt by done. unfold keys. rewrite !list_lookup_fmap, fin_low by lia.
    destruct (order q !! i) as [x|] eqn:Ex; [|done]. cbn. f_equal.
    assert (Hino : x ∈ order q) by by eapply list_elem_of_lookup_2.
    assert (Hin : x ∈ order q3) by (rewrite <- fin_low in Ex by lia; by eapply list_elem_of_lookup_2).
    destruct (fin_at x Hin) as (-> & _). by destruct (fin_old x Hino) as (-> & _).
Qed.

Lemma fin_held x : x < length (store q) -> x <> id -> held q x -> held q3 x.
Proof.
  intros Hx Hne Hh. destruct (decide (x ∈ order q)) as [Ho|Ho].
  - destruct Hh as [[_ Hs]|[? _]]; [|done]. destruct (fin_old x Ho) as (_ & _ & _ & E).
    assert (Hord : x ∈ ord) by (apply fin_elem; by left).
    rewrite <- (take_drop runs ord) in Hord. apply elem_of_app in Hord as [Hin|Hd].
    + left. rewrite <- fin_order3 in Hin. split; [done|]. destruct (fin_at x Hin) as (_ & -> & _). by rewrite E.
    + right. split.
      * rewrite fin_order3. pose proof fin_NoDup as Hnd. rewrite <- (take_drop runs ord) in Hnd.
        apply NoDup_app in Hnd as (_ & Hnd & _). intros Hin. by apply (Hnd x).
      * apply (n_dropped _ _ _ _ Hins). by destruct H2_frame as (-> & _).
  - destruct Hh as [[? _]|[_ Hs]]; [done|]. right. destruct H2_queue as (Eo & _ & _ & _ & El). split.
    + intros Hin%fin_sub%fin_elem. destruct Hin as [|Hnw%new_ids_ge]; [done|lia].
    + rewrite (n_other _ _ _ _ Hins); [by rewrite H2_other|lia|by rewrite Eo].
Qed.

Lemma fin_running_in x : x ∈ order q3 -> p_state (at_ q3 x) = prefixRunning ->
  x ∈ order q /\ p_state (at_ q x) = prefixRunning /\ x <> id.
Proof.
  intros Hin Hs. destruct (fin_at x Hin) as (_ & Es & _). rewrite Es in Hs.
  pose proof (fin_sub x Hin) as Hsub. apply fin_elem in Hsub as [Ho|Hnw]; [|destruct (fin_new x Hnw); congruence].
  destruct (fin_old x Ho) as (_ & _ & _ & E).
  assert (Hne : x <> id).
  { intros ->. assert (p_state (old id) = prefixDone) by (apply fin_done_state; [done|by right]). congruence. }
  rewrite E in Hs by done. done.
Qed.
End Finishing.
