(* ===== verification/ExploreSteps.v ===== *)
(** * Exploring with several jobs: the steps of a job

    Handing out a prefix and finishing its run, as the jobs call them: each keeps
    the queue's invariant, and what it does to the prefixes other jobs run. *)
From stdpp Require Import gmap.
From S2P Require Import Prelude Bytes Explore ExploreFacts ExploreQueue ExploreReference.
From S2P Require Import ExploreQueueFacts ExploreInvariant ExploreFinish.
Local Open Scope nat_scope.

Lemma untried_last i l d :
  d ∈ untried i l -> exists m, last (untried i l) = Some m /\ d <= m.
Proof.
  revert i d. induction l as [|s l IH]; intros i d; cbn [untried]; [by intros ?%not_elem_of_nil|].
  destruct (_ || _); [apply IH|].
  assert (Hcons : forall x, x ∈ untried (S i) l ->
    exists m, last (i :: untried (S i) l) = Some m /\ x <= m).
  { intros x Hx. destruct (IH (S i) x Hx) as (m & Hm & Hle). exists m. split; [|done].
    by destruct (untried (S i) l). }
  intros [->|Hd]%elem_of_cons; [|by apply Hcons].
  destruct (untried (S i) l) as [|x t] eqn:E; [by exists i|].
  destruct (Hcons x) as (m & Hm & Hle); [left|]. exists m. split; [done|].
  assert (Hx : x ∈ untried (S i) l) by (rewrite E; left).
  apply elem_untried in Hx as (s' & Hi & _). lia.
Qed.

Lemma plan_from_shared rec m d : d <= m -> plan_from (take (m + 1) rec) d = plan_from rec d.
Proof. intros H. unfold plan_from. rewrite take_take. by replace (Nat.min (d + 1) (m + 1)) with (d + 1) by lia. Qed.

Section Steps.
Variable Quote : bytes -> bytes.
Variable execute : list exploreSlot -> run_result.
Variable b : ExploreBudget.
Abbreviation core := (core execute b).
Abbreviation live := (live Quote execute).
Abbreviation qinv := (qinv Quote execute b).

(** The prefixes a followed run leaves are the children of its key. *)
Lemma children_spec p pl r o g :
  plan_at execute (p_key p) = Some pl -> execute pl = Ran r o g -> followed r = None ->
  map p_key (children p r) = child_keys execute (p_key p) /\
  Forall (fun c => p_state c = prefixQueued /\ plan_at execute (p_key c) = Some (plan c)) (children p r).
Proof.
  intros Hk He Hf. assert (Hcp : child_plans execute pl = map (plan_from (record r)) (unexplored r)).
  { unfold child_plans. by rewrite He, Hf. }
  unfold children, child_keys. rewrite Hk, Hcp. cbv zeta. split.
  - apply list_eq. intros i. rewrite list_lookup_fmap, !list_lookup_imap, list_lookup_fmap.
    by destruct (unexplored r !! i).
  - apply Forall_forall. intros c (i & d & -> & Hd)%elem_of_lookup_imap_1. cbn [p_state p_key new_prefix].
    split; [done|]. rewrite plan_at_snoc, Hk. cbn [mbind option_bind]. rewrite Hcp, list_lookup_fmap, Hd.
    cbn [fmap option_fmap option_map]. f_equal. unfold plan. cbn [p_record departs new_prefix].
    unfold unexplored in Hd |- *. apply list_elem_of_lookup_2 in Hd.
    destruct (untried_last _ _ _ Hd) as (m & -> & Hle). by rewrite plan_from_shared.
Qed.

(** The answer of a plan, and whether it leaves prefixes. *)
Lemma answer_children p :
  plan_at execute (p_key p) = Some (plan p) ->
  match run_answer Quote execute (plan p) with
  | (Some r, _, _, _, None) =>
      map p_key (children p r) = child_keys execute (p_key p) /\
      Forall (fun c => p_state c = prefixQueued /\ plan_at execute (p_key c) = Some (plan c)) (children p r)
  | (None, _, _, _, None) => False
  | _ => child_keys execute (p_key p) = []
  end.
Proof.
  intros Hk. unfold run_answer. destruct (execute (plan p)) as [e|e|r o g] eqn:He.
  1, 2: unfold child_keys, child_plans; by rewrite Hk, He.
  destruct (followed r) as [why|] eqn:Ef.
  - unfold child_keys, child_plans. by rewrite Hk, He, Ef.
  - by eapply children_spec.
Qed.

(** The queue with the answer of [id], and with the prefixes queued. *)
Lemma inserted_nothing q2 :
  NoDup (pending q2) -> (forall i id, order q2 !! i = Some id -> p_index (at_ q2 id) = i) ->
  b_runs (budget q2) >= length (order q2) -> inserted q2 [] (length (order q2)) q2.
Proof.
  intros Hnd Hix Hr. assert (Eo : spliced q2 [] (length (order q2)) = order q2).
  { unfold spliced, new_ids. cbn [length seq app]. apply take_drop. }
  assert (Ee : ext q2 [] = q2) by (unfold ext, set_store; rewrite app_nil_r; by destruct q2).
  split; rewrite ?Eo, ?Ee, ?(drop_ge _ _ Hr), ?(take_ge _ _ Hr).
  - reflexivity.
  - cbn. lia.
  - done.
  - by rewrite (proj2 (Nat.ltb_ge _ _) Hr), orb_false_r.
  - intros i id Hi. rewrite (Hix i id Hi).
    assert (E : (if length (order q2) <=? i then i else i) = i) by (by destruct (_ <=? _)).
    rewrite E, <- (Hix i id Hi). by destruct (at_ q2 id).
  - by intros id ?%not_elem_of_nil.
  - done.
  - done.
  - intros id. split; [|tauto]. intros ?. split; [done|]. intros [Hx _]. by apply not_elem_of_nil in Hx.
  - cbn. lia.
Qed.

Section Run.
Variables (q : exploreQueue) (id i0 : nat).
Hypothesis Hc : core q.
Hypothesis Hl : live q.
Hypothesis Hnd : q_done q = false.
Hypothesis Hi0 : order q !! i0 = Some id.
Hypothesis Hstate : p_state (at_ q id) = prefixRunning.

Variables (replay : option exploreRun) (o : Outcome) (ident : bytes) (gaps : list Z) (e : option prefix_error).
Hypothesis Hans : run_answer Quote execute (plan (at_ q id)) = (replay, o, ident, gaps, e).

Definition with_answer : exploreQueue :=
  upd (answered prefixDone replay o ident gaps e) id
    (set_runs q (running q - 1) (pending q) (discarded q) (q_done q)).
Definition with_children : exploreQueue :=
  match e, replay with
  | None, Some r => insert_prefixes (children (at_ q id) r) with_answer
  | _, _ => with_answer
  end.

Lemma run_plan : plan_at execute (p_key (at_ q id)) = Some (plan (at_ q id)).
Proof. apply (l_plan _ _ _ Hl); [by eapply list_elem_of_lookup_2|congruence]. Qed.

Lemma run_lt : id < length (store q).
Proof. eapply order_lt; [done|]. by eapply list_elem_of_lookup_2. Qed.

Lemma answer_at x : x < length (store q) ->
  at_ with_answer x = if decide (id = x) then answered prefixDone replay o ident gaps e (at_ q x) else at_ q x.
Proof. intros Hx. unfold with_answer. by rewrite at_upd. Qed.

Lemma answer_keys : keys with_answer = keys q.
Proof.
  unfold keys. apply map_ext_in. intros x Hx%list_elem_of_In. rewrite answer_at by by eapply order_lt.
  by destruct (decide (id = x)).
Qed.

(** The position the children take, and what the insertion is. *)
Lemma run_inserted : exists n ps,
  inserted with_answer ps n with_children
  /\ map p_key ps = child_keys execute (p_key (at_ q id))
  /\ Forall (fun c => p_state c = prefixQueued /\ plan_at execute (p_key c) = Some (plan c)) ps
  /\ i0 < n <= length (order q)
  /\ take n (keys q) ++ child_keys execute (p_key (at_ q id)) ++ drop n (keys q)
     = splice (keys q) (child_keys execute (p_key (at_ q id))).
Proof.
  pose proof (answer_children _ run_plan) as Hch. rewrite Hans in Hch.
  pose proof (lookup_lt_Some _ _ _ Hi0) as Hlt.
  assert (Hnone : child_keys execute (p_key (at_ q id)) = [] -> with_children = with_answer -> exists n ps,
    inserted with_answer ps n with_children /\ map p_key ps = child_keys execute (p_key (at_ q id))
    /\ Forall (fun c => p_state c = prefixQueued /\ plan_at execute (p_key c) = Some (plan c)) ps
    /\ i0 < n <= length (order q)
    /\ take n (keys q) ++ child_keys execute (p_key (at_ q id)) ++ drop n (keys q)
       = splice (keys q) (child_keys execute (p_key (at_ q id)))).
  { intros Hck ->. exists (length (order q)), []. rewrite Hck. split_and!; [|done|constructor|lia|lia|].
    - apply (inserted_nothing with_answer); [by apply (l_NoDup _ _ _ Hl)| |].
      + intros i x Hx. rewrite answer_at by (eapply order_lt; [done|by eapply list_elem_of_lookup_2]).
        pose proof (l_index _ _ _ Hl i x Hx). by destruct (decide (id = x)).
      + change (budget with_answer) with (budget q). rewrite (q_budget _ _ _ Hc).
        pose proof (t_len _ _ _ _ _ (q_tree _ _ _ Hc)) as H. unfold keys in H. by rewrite length_map in H.
    - unfold splice. cbn [app]. by rewrite !take_drop. }
  destruct e as [er|] eqn:Ee.
  { apply Hnone; [by destruct replay|]. unfold with_children. by rewrite Ee. }
  destruct replay as [r|] eqn:Er; [|done]. destruct Hch as [Hck Hnew].
  destruct (children (at_ q id) r) as [|c cs] eqn:Ecs.
  { apply Hnone; [by rewrite <- Hck|]. unfold with_children. by rewrite Ee, Er, Ecs. }
  set (n := length (filter (fun k => key_before k (p_key c) = true) (keys with_answer))).
  assert (Hs : SortedKeys (keys q)) by apply (q_tree _ _ _ Hc).
  exists n, (c :: cs). split_and!; [|done|done| | |].
  - unfold with_children. rewrite Ee, Er, Ecs. apply insert_spec; [by rewrite answer_keys| | |].
    + by apply (order_NoDup execute b q).
    + change (order with_answer) with (order q). unfold with_answer. rewrite length_upd. apply (q_ids _ _ _ Hc).
    + apply (l_NoDup _ _ _ Hl).
  - unfold n. rewrite answer_keys.
    destruct (split_sorted (keys q) (p_key c) Hs) as (l1 & l2 & E & H1 & H2 & ->). rewrite Forall_forall in H2.
    destruct (decide (i0 < length l1)) as [|Hge]; [done|exfalso].
    pose proof (lookup_keys q _ _ Hi0) as Hk. rewrite E, lookup_app_r in Hk by lia.
    assert (Hlt' : Before (p_key (at_ q id)) (p_key c)).
    { assert (Hin : p_key c ∈ child_keys execute (p_key (at_ q id))) by (rewrite <- Hck; left).
      apply elem_child_keys in Hin as (j & -> & _). apply Before_child. }
    destruct (H2 _ (list_elem_of_lookup_2 _ _ _ Hk)) as [Heq|Hb].
    + rewrite Heq in Hlt'. by apply Before_irrefl in Hlt'.
    + by apply (Before_asym _ _ Hlt').
  - unfold n. rewrite answer_keys. etrans; [apply length_filter|]. unfold keys. by rewrite length_map.
  - unfold splice. rewrite <- Hck. cbn [map hd]. cbv zeta. unfold n. by rewrite answer_keys.
Qed.

(** The queue before it is folded. *)
Lemma run_finished :
  core with_children /\ live with_children /\ q_done with_children = false
  /\ effect q id with_children /\ frontier with_children = frontier q.
Proof.
  destruct run_inserted as (n & ps & Hins & Hps & Hnew & Hn & Hsp).
  assert (Hfr : budget with_answer = b /\ jobs with_answer = jobs q /\ frontier with_answer = frontier q
    /\ q_done with_answer = false /\ fold_of with_answer = fold_of q /\ q_err with_answer = None).
  { split_and!; try done; [apply (q_budget _ _ _ Hc)|apply (l_err _ _ _ Hl)]. }
  assert (Hqu : order with_answer = order q /\ pending with_answer = pending q
    /\ discarded with_answer = discarded q /\ q_beyond with_answer = q_beyond q
    /\ length (store with_answer) = length (store q)).
  { split_and!; try done. unfold with_answer. by rewrite length_upd. }
  assert (Hot : forall x, x < length (store q) -> x <> id -> at_ with_answer x = at_ q x).
  { intros x Hx Hne. rewrite answer_at by done. by rewrite decide_False by congruence. }
  assert (Hid : p_key (at_ with_answer id) = p_key (at_ q id) /\ p_state (at_ with_answer id) = prefixDone
    /\ p_index (at_ with_answer id) = p_index (at_ q id)
    /\ answer_of (at_ with_answer id)
       = run_answer Quote execute (default [] (plan_at execute (p_key (at_ q id))))).
  { rewrite answer_at by apply run_lt. rewrite decide_True by done. split_and!; try done.
    rewrite run_plan. symmetry. exact Hans. }
  assert (Hcore : core with_children) by (eapply fin_core; first [eassumption|reflexivity]).
  assert (Hlive : live with_children) by (eapply fin_live with (q := q); first [eassumption|reflexivity]).
  assert (Hf : frontier with_children = frontier q).
  { destruct (n_frame _ _ _ _ Hins) as (_ & _ & -> & _). done. }
  destruct (n_frame _ _ _ _ Hins) as (Fb & Fj & _ & Fr & Fd & _ & _).
  split_and!; [done|done|by rewrite Fd| |done]. split.
  - by rewrite Fb.
  - by rewrite Fj.
  - by rewrite Fr.
  - rewrite (n_store _ _ _ _ Hins). unfold with_answer. rewrite length_upd. cbn. lia.
  - intros x Hx Hne Hh.
    eapply fin_held with (q := q); first [eassumption|reflexivity].
  - intros _. eapply fin_running_in; first [eassumption|reflexivity].
  - rewrite Hf. pose proof (q_front _ _ _ Hcore) as Hfc. rewrite Hf in Hfc.
    assert (Hfi : frontier q <= i0) by (eapply fin_i0; first [eassumption|reflexivity]).
    assert (Hct : discarded with_children + started_after with_children (frontier q)
      = discarded q + started_after q (frontier q)) by (eapply fin_count; first [eassumption|reflexivity|lia]). lia.
Qed.

Lemma run_finish :
  exists q', finish Quote execute id q = Some q' /\ qinv q' /\ effect q id q'.
Proof.
  destruct run_finished as (H1 & H2 & H3 & [E1 E2 E3 E4 E5 E6 E7] & H5).
  destruct (fold_loop_spec Quote execute b _ with_children H1 H2 H3 eq_refl) as (q' & Hf & F & Hq & Hct).
  exists q'. split; [|split; [done|]].
  - unfold finish. rewrite Hans.
    assert (E : bool_decide (p_state (at_ q id) = prefixDropped)
      || q_done (set_runs q (running q - 1) (pending q) (discarded q) (q_done q)) = false).
    { rewrite bool_decide_false by (rewrite Hstate; discriminate). exact Hnd. }
    rewrite E. exact Hf.
  - destruct F as [G1 G2 G3 G4 G5 G6 G7 G8]. split.
    + by rewrite G1.
    + by rewrite G2.
    + by rewrite G4.
    + by rewrite G7.
    + intros x Hx Hne Hh. specialize (E5 x Hx Hne Hh).
      destruct (G8 x) as (_ & Es & _); [lia|]. unfold held in *. by rewrite G3, Es.
    + intros _ x Hin Hs. rewrite G3 in Hin. destruct (G8 x) as (_ & Es & _); [by eapply order_lt|].
      rewrite Es in Hs. by apply E6.
    + rewrite G6. rewrite H5 in Hct. rewrite H5 in E7. lia.
Qed.
End Run.

(** ** Finishing, whatever became of the prefix *)

(** Changing a prefix no longer in the order, or the queue being over. *)
Lemma core_same q q' :
  core q -> budget q' = budget q -> jobs q' = jobs q -> order q' = order q -> frontier q' = frontier q ->
  q_beyond q' = q_beyond q -> discarded q' = discarded q -> length (store q) <= length (store q') ->
  (forall x, x ∈ order q -> p_key (at_ q' x) = p_key (at_ q x) /\ p_state (at_ q' x) = p_state (at_ q x)) ->
  core q' /\ keys q' = keys q.
Proof.
  intros Hc Eb Ej Eo Ef Ey Ed Es Hat.
  assert (Ek : keys q' = keys q).
  { unfold keys. rewrite Eo. apply map_ext_in. intros x Hx%list_elem_of_In. by apply Hat. }
  split; [|done]. split.
  - rewrite Eb. by eapply q_budget.
  - rewrite Eo. eapply Forall_impl; [by eapply q_ids|]. cbn. lia.
  - rewrite Ek, Ey. eapply tree_ext; [|by eapply q_tree]. intros k. unfold done_key. rewrite Eo.
    split; intros (x & Hx & E1 & E2); exists x; destruct (Hat x Hx) as [F1 F2]; split_and!; congruence.
  - rewrite Eo, Ef. by eapply q_front.
  - rewrite Eo, Ef. intros i x Hi Hx. destruct (Hat x) as [_ ->]; [by eapply list_elem_of_lookup_2|].
    by eapply q_folded.
  - rewrite Ed, Ej. by eapply q_discarded.
Qed.

Lemma live_same q q' :
  core q -> live q -> jobs q' = jobs q -> order q' = order q -> frontier q' = frontier q ->
  discarded q' = discarded q -> pending q' = pending q -> q_err q' = q_err q -> fold_of q' = fold_of q ->
  keys q' = keys q -> (forall x, x ∈ order q -> at_ q' x = at_ q x) -> live q'.
Proof.
  intros Hc [L1 L2 L3 L4 L5 L6 L7 L8 L9] Ej Eo Ef Ed Ep Ee Efo Ek Hat.
  assert (Hat' : forall i x, order q !! i = Some x -> at_ q' x = at_ q x).
  { intros i x Hx. by apply Hat; eapply list_elem_of_lookup_2. }
  split; rewrite ?Eo, ?Ef, ?Ed, ?Ep, ?Ee, ?Efo, ?Ek, ?Ej; try done.
  - intros i x Hx. rewrite (Hat' i x Hx). by apply L1.
  - intros i x Hi Hx. rewrite (Hat' i x Hx). by eapply L2.
  - intros x Hx. rewrite (Hat x Hx). by apply L3.
  - intros i x Hi Hx. rewrite (Hat' i x Hx). by eapply L4.
  - intros x. rewrite L6. split; intros (i & Hi & Hx & Hs); exists i; split_and!; try done;
      by rewrite (Hat' i x Hx) in *.
  - assert (E : started_after q' (S (frontier q)) = started_after q (S (frontier q))).
    { unfold started_after. rewrite Eo. f_equal. apply filter_same. intros x Hx%subseteq_drop. by rewrite Hat. }
    by rewrite E.
Qed.

Lemma finish_dropped q id :
  qinv q -> id < length (store q) -> q_done q = true \/ p_state (at_ q id) = prefixDropped /\ id ∉ order q ->
  exists q', finish Quote execute id q = Some q' /\ qinv q' /\ q_done q' = q_done q
    /\ q_err q' = q_err q /\ effect q id q'.
Proof.
  intros (Hc & Hl & Ho) Hid Hst. destruct (run_answer Quote execute (plan (at_ q id))) as [[[[r o] ident] gaps] e] eqn:Ea.
  set (f := answered (p_state (at_ q id)) (p_replay (at_ q id)) (p_outcome (at_ q id)) ident gaps (p_err (at_ q id))).
  set (q1 := set_runs q (running q - 1) (pending q) (discarded q) (q_done q)).
  exists (upd f id q1).
  assert (Hat : forall x, x < length (store q) -> at_ (upd f id q1) x = if decide (id = x) then f (at_ q x) else at_ q x)
    by (intros; by rewrite at_upd).
  assert (Hks : forall x, x < length (store q) ->
    p_key (at_ (upd f id q1) x) = p_key (at_ q x) /\ p_state (at_ (upd f id q1) x) = p_state (at_ q x)).
  { intros x Hx. rewrite Hat by done. by destruct (decide (id = x)) as [->|]. }
  destruct (core_same q (upd f id q1) Hc) as [Hc' Ek]; try done.
  { by rewrite length_upd. }
  { intros x Hx. apply Hks. by eapply order_lt. }
  split_and!; [| |done|done|].
  - unfold finish. rewrite Ea. subst f q1. destruct Hst as [Hst|[Hst _]].
    + rewrite Hst, orb_true_r. done.
    + rewrite bool_decide_true by done. done.
  - split; [done|]. split.
    + intros Hnd. change (q_done (upd f id q1)) with (q_done q) in Hnd. destruct (Hl Hnd) as [Hlv Hsk].
      destruct Hst as [|[_ Hno]]; [congruence|].
      assert (Hsame : forall x, x ∈ order q -> at_ (upd f id q1) x = at_ q x).
      { intros x Hx. rewrite Hat by by eapply order_lt. rewrite decide_False; [done|]. by intros ->. }
      split; [by eapply (live_same q)|]. intros x Hx. rewrite Hsame by by eapply list_elem_of_lookup_2. by apply Hsk.
    + intros Hd. specialize (Ho Hd). unfold over in *. rewrite Ek. exact Ho.
  - split; try done.
    + by rewrite length_upd.
    + intros x Hx _ Hh. unfold held in *. destruct (Hks x Hx) as [_ ->]. exact Hh.
    + intros Hnd x Hin Hs. destruct (Hks x) as [_ E]; [by eapply (order_lt execute b q)|]. rewrite E in Hs.
      split_and!; [done|done|]. intros ->. change (q_done (upd f id q1)) with (q_done q) in Hnd.
      destruct Hst as [|[_ ?]]; [congruence|done].
    + change (frontier (upd f id q1)) with (frontier q). change (discarded (upd f id q1)) with (discarded q).
      do 2 f_equal. unfold started_after. change (order (upd f id q1)) with (order q). f_equal.
      apply filter_same. intros x Hx%subseteq_drop. unfold started.
      destruct (Hks x) as [_ ->]; [by eapply (order_lt execute b q)|done].
Qed.

(** ** Handing out a prefix *)

Lemma speculative_spec q : core q -> live q -> speculative q = started_after q (S (frontier q)).
Proof.
  intros Hc Hl. unfold speculative, started_after. apply Permutation_length, NoDup_Permutation.
  - apply NoDup_filter, (l_NoDup _ _ _ Hl).
  - apply NoDup_filter. pose proof (order_NoDup _ _ _ Hc) as Hnd.
    rewrite <- (take_drop (S (frontier q)) (order q)) in Hnd. by apply NoDup_app in Hnd as (_ & _ & ?).
  - intros x. rewrite !list_elem_of_filter, (l_pending _ _ _ Hl). split.
    + intros [Hlt (i & Hi & Hx & Hs)]. split; [done|]. rewrite (l_index _ _ _ Hl i x Hx) in Hlt.
      apply (list_elem_of_lookup_2 _ (i - S (frontier q))). rewrite lookup_drop.
      by replace (S (frontier q) + (i - S (frontier q))) with i by lia.
    + intros [Hs Hx]. apply list_elem_of_lookup in Hx as [j Hj]. rewrite lookup_drop in Hj.
      rewrite (l_index _ _ _ Hl _ x Hj). split; [lia|]. exists (S (frontier q) + j). split_and!; [lia|done|done].
Qed.

Lemma first_startable_spec q ids i id :
  first_startable ids i q = Some id ->
  exists j, ids !! j = Some id /\ p_state (at_ q id) = prefixQueued
    /\ (i + j = frontier q \/ discarded q + speculative q < jobs q).
Proof.
  revert i. induction ids as [|x ids IH]; intros i; cbn [first_startable]; [done|].
  case_bool_decide as Hst; cbn [negb].
  - destruct ((i =? frontier q) || (discarded q + speculative q <? jobs q)) eqn:E; [|done].
    intros [= ->]. exists 0. split_and!; [done|done|]. apply orb_true_iff in E as [E%Nat.eqb_eq|E%Nat.ltb_lt]; [left; lia|by right].
  - intros H. destruct (IH _ H) as (j & Hj & Hs & Ho). exists (S j). split_and!; [done|done|].
    destruct Ho; [left; lia|by right].
Qed.

(** What handing out a prefix does to what the other jobs hold. *)
Record started_effect (q : exploreQueue) (id : nat) (q' : exploreQueue) : Prop := {
  st_order : order q' = order q;
  st_store : length (store q') = length (store q);
  st_jobs : jobs q' = jobs q;
  st_done : q_done q' = false;
  st_running : running q' = running q + 1;
  st_in : id ∈ order q /\ p_state (at_ q id) = prefixQueued;
  st_at : forall x, x < length (store q) -> p_state (at_ q' x) = if decide (id = x) then prefixRunning else p_state (at_ q x);
  st_count : frontier q' + started_after q' (frontier q') + discarded q'
    = frontier q + started_after q (frontier q) + discarded q + 1 }.

Lemma started_running q id i m :
  core q -> order q !! i = Some id -> p_state (at_ q id) = prefixQueued ->
  started_after (upd (set_state prefixRunning) id q) m = started_after q m + (if m <=? i then 1 else 0).
Proof.
  intros Hc Hi Hst. assert (Hlt : forall x, x ∈ order q -> x < length (store q)) by (intros x Hx; by apply (order_lt execute b q)).
  unfold started_after. change (order (upd (set_state prefixRunning) id q)) with (order q).
  assert (Heq : forall l, l ⊆ order q -> ~ id ∈ l ->
    filter (fun x => started (at_ (upd (set_state prefixRunning) id q) x) = true) l
    = filter (fun x => started (at_ q x) = true) l).
  { intros l Hl Hn. apply filter_same. intros x Hx. rewrite at_upd by by apply Hlt, Hl.
    rewrite decide_False; [done|]. by intros ->. }
  pose proof (order_NoDup _ _ _ Hc) as Hnd. rewrite NoDup_alt in Hnd.
  destruct (Nat.leb_spec m i) as [Hm|Hm].
  - assert (Hd : drop m (order q) = slice (order q) m i ++ id :: drop (S i) (order q)).
    { rewrite <- (take_drop (i - m) (drop m (order q))). unfold slice. f_equal.
      rewrite drop_drop. replace (m + (i - m)) with i by lia. by apply drop_S. }
    rewrite Hd, !filter_app, !length_app, !filter_cons.
    assert (E1 : started (at_ (upd (set_state prefixRunning) id q) id) = true).
    { rewrite at_upd by (apply Hlt; by eapply list_elem_of_lookup_2). by rewrite decide_True. }
    assert (E2 : started (at_ q id) <> true) by (unfold started; by rewrite Hst).
    rewrite (decide_True _ _ E1), (decide_False _ _ E2).
    rewrite !Heq; [cbn; lia| | | |].
    + apply subseteq_drop.
    + intros Hin. apply list_elem_of_lookup in Hin as [j Hj]. rewrite lookup_drop in Hj. specialize (Hnd _ _ _ Hi Hj). lia.
    + unfold slice. etrans; [apply subseteq_take|apply subseteq_drop].
    + intros Hin. unfold slice in Hin. apply elem_of_take in Hin as (j & Hj & Hjl). rewrite lookup_drop in Hj.
      specialize (Hnd _ _ _ Hi Hj). lia.
  - rewrite Heq; [lia|apply subseteq_drop|]. intros Hin. apply list_elem_of_lookup in Hin as [j Hj].
    rewrite lookup_drop in Hj. specialize (Hnd _ _ _ Hi Hj). lia.
Qed.

Lemma start_spec q id :
  core q -> live q -> stuck q -> q_done q = false -> startable q = Some id ->
  let q1 := upd (set_state prefixRunning) id q in
  let q' := set_runs q1 (running q1 + 1) (pending q1 ++ [id]) (discarded q1) (q_done q1) in
  qinv q' /\ started_effect q id q'.
Proof.
  intros Hc Hl Hsk Hnd Hst q1 q'. unfold startable in Hst.
  apply first_startable_spec in Hst as (j & Hj & Hst & Hor). rewrite lookup_drop in Hj.
  set (i := frontier q + j) in *. assert (Hin : id ∈ order q) by by eapply list_elem_of_lookup_2.
  assert (Hlt : forall x, x ∈ order q -> x < length (store q)) by (intros x Hx; by apply (order_lt execute b q)).
  assert (Hat : forall x, x < length (store q) ->
    at_ q' x = if decide (id = x) then set_state prefixRunning (at_ q x) else at_ q x) by (intros; by apply at_upd).
  assert (Hsa : forall m, started_after q' m = started_after q m + (if m <=? i then 1 else 0)).
  { intros m. rewrite <- (started_running q id i m Hc Hj Hst). done. }
  assert (Hkeys : keys q' = keys q).
  { unfold keys. apply map_ext_in. intros x Hx%list_elem_of_In. rewrite Hat by by apply Hlt.
    by destruct (decide (id = x)). }
  assert (Hdone : forall x, x ∈ order q -> p_state (at_ q' x) = prefixDone <-> p_state (at_ q x) = prefixDone).
  { intros x Hx. rewrite Hat by by apply Hlt. destruct (decide (id = x)) as [->|]; [|done].
    rewrite Hst. done. }
  assert (Hlen : length (store q') = length (store q)) by apply length_upd.
  split.
  - split; [|split; [|by intros ?; unfold q' in *; cbn in *; congruence]].
    + destruct Hc as [C1 C2 C3 C4 C5 C6]. split; try done.
      * by rewrite Hlen.
      * rewrite Hkeys. eapply tree_ext; [|exact C3]. intros k. unfold done_key.
        split; intros (x & Hx & E1 & E2); exists x; (split; [done|]);
          rewrite Hat in * by (by apply Hlt); destruct (decide (id = x)) as [->|]; try done; cbn in *; congruence.
      * intros i' x Hi' Hx. apply Hdone; [by eapply list_elem_of_lookup_2|]. by eapply C5.
    + intros _. split.
      * pose proof Hl as [L1 L2 L3 L4 L5 L6 L7 L8 L9]. split; try done.
        -- intros i' x Hx. rewrite Hat by (apply Hlt; by eapply list_elem_of_lookup_2).
           pose proof (L1 i' x Hx). by destruct (decide (id = x)).
        -- intros i' x Hi' Hx. rewrite Hat by (apply Hlt; by eapply list_elem_of_lookup_2).
           destruct (decide (id = x)); [done|by eapply L2].
        -- intros x Hx Hs. rewrite Hdone in Hs by done. rewrite Hat by by apply Hlt.
           destruct (decide (id = x)); by apply L3.
        -- intros i' x Hi' Hx Hs. assert (Hx' : x ∈ order q) by by eapply list_elem_of_lookup_2.
           rewrite Hdone in Hs by done. rewrite Hat by by apply Hlt. destruct (decide (id = x)) as [<-|]; [congruence|].
           by eapply L4.
        -- apply NoDup_app. split_and!; [done| |apply NoDup_singleton]. intros x Hx ->%list_elem_of_singleton.
           apply L6 in Hx as (i' & _ & _ & Hs). unfold started in Hs. rewrite Hst in Hs. done.
        -- intros x. cbn [pending q' set_runs]. rewrite elem_of_app, list_elem_of_singleton. split.
           ++ intros [Hx| ->].
              ** apply L6 in Hx as (i' & Hi' & Hx & Hs). exists i'. split_and!; [done|done|].
                 rewrite Hat by (apply Hlt; by eapply list_elem_of_lookup_2).
                 destruct (decide (id = x)); [done|done].
              ** exists i. split_and!; [unfold i; cbn; lia|done|]. rewrite Hat by by apply Hlt.
                 by rewrite decide_True.
           ++ intros (i' & Hi' & Hx & Hs). destruct (decide (id = x)) as [->|Hne]; [by right|left].
              apply L6. exists i'. split_and!; [done|done|].
              rewrite Hat in Hs by (apply Hlt; by eapply list_elem_of_lookup_2). by rewrite decide_False in Hs.
        -- rewrite Hsa. change (frontier q') with (frontier q). change (discarded q') with (discarded q).
           change (jobs q') with (jobs q). rewrite (speculative_spec q Hc Hl) in Hor.
           destruct (Nat.leb_spec (S (frontier q)) i); [|lia]. unfold i in *. lia.
        -- by rewrite Hkeys.
      * intros x Hx. rewrite Hdone by by eapply list_elem_of_lookup_2. by apply Hsk.
  - split; try done.
    + intros x Hx. rewrite Hat by done. by destruct (decide (id = x)).
    + rewrite Hsa. change (frontier q') with (frontier q). change (discarded q') with (discarded q).
      rewrite (proj2 (Nat.leb_le _ _)) by (unfold i; lia). lia.
Qed.

(** The frontier can always be run: it is queued, or a job is running it. *)
Lemma startable_none q :
  core q -> live q -> stuck q -> frontier q < length (order q) -> startable q = None ->
  exists id, id ∈ order q /\ p_state (at_ q id) = prefixRunning.
Proof.
  intros Hc Hl Hsk Hf Hn. destruct (lookup_lt_is_Some_2 (order q) (frontier q) Hf) as [id Hid].
  exists id. split; [by eapply list_elem_of_lookup_2|].
  pose proof (Hsk id Hid) as H1. pose proof (l_open _ _ _ Hl _ _ (Nat.le_refl _) Hid) as H2.
  destruct (p_state (at_ q id)) eqn:E; try done.
  unfold startable in Hn. rewrite (drop_S _ _ _ Hid) in Hn. cbn [first_startable] in Hn.
  rewrite E, Nat.eqb_refl in Hn. done.
Qed.
End Steps.
