(* ===== verification/ExploreJobs.v ===== *)
(** * Exploring with several jobs: the theorems

    Whatever the number of jobs and the order their steps interleave in, an
    exploration ends, never with a job waiting for good, within the bounds its
    budget and jobs set, and comes to the result of exploring in plan order. *)
From stdpp Require Import gmap.
From S2P Require Import Prelude Bytes Explore ExploreFacts ExploreQueue ExploreReference.
From S2P Require Import ExploreQueueFacts ExploreInvariant ExploreFinish ExploreSteps.
Local Open Scope nat_scope.

Definition is_running (j : job) : bool := match j with Running _ => true | _ => false end.
Definition is_ready (j : job) : bool := match j with Ready => true | _ => false end.
Definition is_exited (j : job) : bool := match j with Exited => true | _ => false end.
Definition count (p : job -> bool) (l : list job) : nat := length (filter (fun j => p j = true) l).

Lemma count_insert p l i j j' :
  l !! i = Some j -> count p (<[i := j']> l) + (if p j then 1 else 0) = count p l + (if p j' then 1 else 0).
Proof.
  unfold count. revert i. induction l as [|x l IH]; intros [|i] Hi; try done.
  - injection Hi as ->. cbn [list_insert insert]. change (<[0:=j']> (j :: l)) with (j' :: l).
    rewrite !filter_cons. destruct (p j), (p j'); repeat case_decide; cbn [length]; try done; lia.
  - specialize (IH i Hi). change (<[S i:=j']> (x :: l)) with (x :: <[i:=j']> l).
    rewrite !filter_cons. case_decide; cbn [length]; lia.
Qed.

Lemma count_wake p l : p Waiting = false -> p Ready = false -> count p (wake l) = count p l.
Proof.
  intros H1 H2. unfold count, wake. induction l as [|j l IH]; [done|]. cbn [map]. rewrite !filter_cons.
  destruct j; rewrite ?H1, ?H2; cbn [length];
    try (destruct (decide (p _ = true)); cbn [length]; by rewrite IH); exact IH.
Qed.

Lemma lookup_wake l i : wake l !! i = (fun j => match j with Waiting => Ready | _ => j end) <$> l !! i.
Proof. unfold wake. apply list_lookup_fmap. Qed.

Section Jobs.
Variable Quote : bytes -> bytes.
Variable execute : list exploreSlot -> run_result.
Variable b : ExploreBudget.
Variable njobs : nat.
Abbreviation qinv := (qinv Quote execute b).
Abbreviation step := (sys_step Quote execute).

Record sinv (s : system) : Prop := {
  s_queue : qinv (queue s);
  s_jobs : length (workers s) = jobs (queue s);
  s_njobs : jobs (queue s) = Nat.max (Nat.min njobs (b_runs b)) 1;
  s_running : running (queue s) = count is_running (workers s);
  s_held : forall j id, workers s !! j = Some (Running id) ->
    id < length (store (queue s)) /\ (q_done (queue s) = false -> held (queue s) id);
  s_distinct : forall i j id, workers s !! i = Some (Running id) -> workers s !! j = Some (Running id) -> i = j;
  s_owner : q_done (queue s) = false -> forall id, id ∈ order (queue s) ->
    p_state (at_ (queue s) id) = prefixRunning -> exists j, workers s !! j = Some (Running id);
  s_waiting : forall j, workers s !! j = Some Waiting -> q_done (queue s) = false /\ 0 < running (queue s);
  s_exited : forall j, workers s !! j = Some Exited -> q_done (queue s) = true;
  s_gone : q_err (queue s) = Some CallerGone -> stopped s = true }.

(** The runs ever started, whatever became of them. *)
Definition begun (q : exploreQueue) : nat := frontier q + started_after q (frontier q) + discarded q.

(** ** The start *)

Lemma init_spec :
  1 <= b_runs b ->
  let q := newExploreQueue b njobs in
  qinv q /\ jobs q = Nat.max (Nat.min njobs (b_runs b)) 1 /\ running q = 0 /\ q_done q = false
  /\ q_err q = None /\ begun q = 0 /\ forall id, id ∈ order q -> p_state (at_ q id) = prefixQueued.
Proof.
  intros Hruns. cbv zeta.
  unfold newExploreQueue. set (q0 := {| budget := b |}).
  assert (Hk : keys q0 = []) by done.
  assert (Hf : filter (fun k => key_before k (p_key (new_prefix None 0 [])) = true) (keys q0) = []) by by rewrite Hk.
  pose proof (insert_spec q0 (new_prefix None 0 []) []) as Hins. cbv zeta in Hins.
  rewrite Hf in Hins. cbn [length] in Hins.
  specialize (Hins ltac:(rewrite Hk; constructor) ltac:(constructor) ltac:(constructor) ltac:(constructor)).
  remember (insert_prefixes [new_prefix None 0 []] q0) as q eqn:Eq. clear Eq.
  destruct Hins as [(F1 & F2 & F3 & F4 & F5 & F6 & F7) S O B A _ _ Np Pe D].
  assert (Hord : spliced q0 [new_prefix None 0 []] 0 = [0]) by done.
  rewrite Hord in *. change (b_runs (budget q0)) with (b_runs b) in *.
  assert (Ed : drop (b_runs b) [0] = []) by (apply drop_ge; cbn; lia).
  rewrite take_ge in O by (cbn; lia). rewrite Ed in *. cbn in D.
  rewrite (proj2 (Nat.ltb_ge (b_runs b) (length [0]))) in B by (cbn; lia). cbn in B.
  specialize (A 0 0 ltac:(by rewrite O)).
  change (at_ (ext q0 [new_prefix None 0 []]) 0) with (new_prefix None 0 []) in A. cbn in A.
  assert (Hkeys : keys q = [[]]) by (unfold keys; rewrite O; cbn; by rewrite A).
  assert (Hat : forall i id, order q !! i = Some id -> i = 0 /\ id = 0).
  { intros i id Hi. rewrite O in Hi. apply list_lookup_singleton_Some in Hi as [-> <-]. done. }
  assert (Hst : forall id, id ∈ order q -> p_state (at_ q id) = prefixQueued).
  { intros id Hid. rewrite O in Hid. apply list_elem_of_singleton in Hid as ->. by rewrite A. }
  split_and!; [|by rewrite F2|by rewrite F4|by rewrite F5|by rewrite F7| |done]; [split; [|split]|].
  - split.
    + by rewrite F1.
    + rewrite O, S. repeat constructor.
    + rewrite Hkeys, B. eapply tree_ext; [|by apply tree_start]. intros k. split; [done|].
      intros (id & Hid & _ & Hs). rewrite O in Hid. apply list_elem_of_singleton in Hid as ->. by rewrite A in Hs.
    + rewrite O, F3. cbn. lia.
    + rewrite F3. cbn. lia.
    + rewrite D. cbn. lia.
  - intros _. split.
    + split; rewrite ?F3.
      * intros i id Hi. destruct (Hat i id Hi) as [-> ->]. by rewrite A.
      * intros i id _ Hi. destruct (Hat i id Hi) as [-> ->]. by rewrite A.
      * intros id Hid _. rewrite O in Hid. apply list_elem_of_singleton in Hid as ->. by rewrite A.
      * intros i id _ Hi Hs. destruct (Hat i id Hi) as [-> ->]. by rewrite A in Hs.
      * done.
      * intros id. rewrite Pe. split; [by intros [?%not_elem_of_nil _]|].
        intros (i & _ & Hi & Hs). destruct (Hat i id Hi) as [-> ->]. by rewrite A in Hs.
      * rewrite D. unfold started_after. rewrite O. cbn. lia.
      * by rewrite F7.
      * by rewrite F6.
    + intros id Hi. destruct (Hat _ id Hi) as [_ ->]. by rewrite A.
  - by rewrite F5.
  - unfold begun, started_after. rewrite F3, D, O. cbn. unfold started. by rewrite A.
Qed.

Lemma init_sinv : 1 <= b_runs b -> sinv (init b njobs).
Proof.
  intros Hruns. destruct (init_spec Hruns) as (Hq & Hj & Hr & Hd & He & _ & Hst). unfold init. set (q := newExploreQueue b njobs) in *.
  assert (Hw : forall j w, repeat Ready (jobs q) !! j = Some w -> w = Ready).
  { intros j w Hw. apply list_elem_of_lookup_2, list_elem_of_In, repeat_spec in Hw. done. }
  split; cbn [queue workers stopped].
  - done.
  - apply repeat_length.
  - done.
  - rewrite Hr. unfold count. rewrite filter_none; [done|]. apply Forall_forall. intros j Hin.
    apply list_elem_of_In, repeat_spec in Hin as ->. done.
  - by intros j id Hx%Hw.
  - by intros i j id Hx%Hw.
  - intros _ id Hid Hs. rewrite Hst in Hs by done. done.
  - by intros j Hx%Hw.
  - by intros j Hx%Hw.
  - by rewrite He.
Qed.

(** ** The steps *)

Lemma running_pos s j id : sinv s -> workers s !! j = Some (Running id) -> 0 < running (queue s).
Proof.
  intros Hs Hj. rewrite (s_running s Hs). pose proof (count_insert is_running _ _ _ Ready Hj) as H. cbn in H. lia.
Qed.

Lemma lookup_insert_cases (l : list job) (j i : nat) (w x : job) :
  <[j := w]> l !! i = Some x -> i = j /\ x = w \/ i <> j /\ l !! i = Some x.
Proof.
  intros H. destruct (decide (i = j)) as [->|Hne]; [left|right].
  - apply list_lookup_insert_Some in H as [(_ & ? & _)|[? _]]; done.
  - by rewrite list_lookup_insert_ne in H.
Qed.

(** A job taken off the prefixes it may start, the queue unchanged but over or not. *)
Lemma sinv_next_over s j q' woke :
  sinv s -> workers s !! j = Some Ready -> qinv q' ->
  jobs q' = jobs (queue s) -> running q' = running (queue s) -> q_done q' = true ->
  store q' = store (queue s) ->
  (q_err q' = Some CallerGone -> stopped s = true) ->
  (woke = false -> q_done (queue s) = true) ->
  sinv {| queue := q'; workers := <[j := Exited]> (if woke : bool then wake (workers s) else workers s);
          stopped := stopped s; watched := watched s |}.
Proof.
  intros [S1 S2 S3 S4 S5 S6 S7 S8 S9 S10] Hj Hq' Ej Er Ed Es He Hw.
  set (ws := if woke then wake (workers s) else workers s).
  assert (Hws : forall i w, ws !! i = Some w -> w <> Ready -> w <> Waiting -> workers s !! i = Some w).
  { intros i w Hi Hr1 Hr2. subst ws. destruct woke; [|done]. rewrite lookup_wake in Hi.
    destruct (workers s !! i) as [[]|]; cbn in Hi; congruence. }
  assert (Hwait : forall i, ws !! i <> Some Waiting).
  { intros i Hi. subst ws. destruct woke.
    - rewrite lookup_wake in Hi. destruct (workers s !! i) as [[]|]; cbn in Hi; congruence.
    - destruct (S8 i Hi) as [Hx _]. rewrite Hw in Hx; done. }
  assert (Hlen : length ws = length (workers s)) by (subst ws; destruct woke; [apply length_map|done]).
  assert (Hjs : ws !! j = Some Ready).
  { subst ws. destruct woke; [rewrite lookup_wake, Hj|]; done. }
  split; cbn [queue workers stopped].
  - done.
  - rewrite length_insert. congruence.
  - congruence.
  - rewrite Er, S4. pose proof (count_insert is_running ws j Ready Exited Hjs) as Hc. cbn in Hc.
    assert (E : count is_running ws = count is_running (workers s)); [|lia].
    subst ws. destruct woke; [by apply count_wake|done].
  - intros i id [[_ ?]|[_ Hi]]%lookup_insert_cases; [done|]. apply Hws in Hi; [|done..].
    destruct (S5 i id Hi) as [Hlt _]. rewrite Es. split; [done|]. congruence.
  - intros i i' id [[_ ?]|[_ Hi]]%lookup_insert_cases [[_ ?]|[_ Hi']]%lookup_insert_cases; try done.
    apply Hws in Hi; [|done..]. apply Hws in Hi'; [|done..]. by eapply S6.
  - congruence.
  - intros i [[_ ?]|[_ Hi]]%lookup_insert_cases; [done|]. by apply Hwait in Hi.
  - done.
  - done.
Qed.

(** A job that has to wait: a run is in flight, so its end will wake it. *)
Lemma sinv_next_wait s j :
  sinv s -> workers s !! j = Some Ready -> q_done (queue s) = false -> 0 < running (queue s) ->
  sinv {| queue := queue s; workers := <[j := Waiting]> (workers s); stopped := stopped s; watched := watched s |}.
Proof.
  intros [S1 S2 S3 S4 S5 S6 S7 S8 S9 S10] Hj Hnd Hr. split; cbn [queue workers stopped]; try done.
  - by rewrite length_insert.
  - rewrite S4. pose proof (count_insert is_running _ j _ Waiting Hj) as Hc. cbn in Hc. lia.
  - intros i id [[_ ?]|[_ Hi]]%lookup_insert_cases; [done|]. by eapply S5.
  - intros i i' id [[_ ?]|[_ Hi]]%lookup_insert_cases [[_ ?]|[_ Hi']]%lookup_insert_cases; try done. by eapply S6.
  - intros _ id Hid Hst. destruct (S7 Hnd id Hid Hst) as [i Hi]. exists i.
    rewrite list_lookup_insert_ne; [done|]. intros ->. congruence.
  - intros i [[_ ?]|[_ Hi]]%lookup_insert_cases; [done|]. by eapply S9.
Qed.

(** A job given the prefix [id]. *)
Lemma sinv_next_start s j id q' :
  sinv s -> workers s !! j = Some Ready -> q_done (queue s) = false ->
  qinv q' -> started_effect (queue s) id q' ->
  sinv {| queue := q'; workers := <[j := Running id]> (workers s); stopped := stopped s; watched := watched s |}.
Proof.
  intros Hs Hj Hnd Hq' [E1 E2 E3 E4 E5 [E6 E7] E8 _]. pose proof Hs as [S1 S2 S3 S4 S5 S6 S7 S8 S9 S10].
  pose proof S1 as (Hc & _). assert (Hidl : id < length (store (queue s))) by (by eapply order_lt).
  assert (Hnot : forall i, workers s !! i <> Some (Running id)).
  { intros i Hi. destruct (S5 i id Hi) as [_ Hh]. destruct (Hh Hnd) as [[_ ?]|[? _]]; [congruence|done]. }
  split; cbn [queue workers stopped].
  - done.
  - rewrite length_insert. congruence.
  - congruence.
  - rewrite E5, S4. pose proof (count_insert is_running _ j _ (Running id) Hj) as Hct. cbn in Hct. lia.
  - intros i x [[-> [= ->]]|[_ Hi]]%lookup_insert_cases; rewrite E2; (split; [|intros _]).
    + done.
    + left. rewrite E1. split; [done|]. by rewrite E8, decide_True.
    + by eapply S5.
    + destruct (S5 i x Hi) as [Hx Hh]. specialize (Hh Hnd). unfold held in *. rewrite E1, E8 by done.
      rewrite decide_False; [done|]. intros ->. by apply Hnot in Hi.
  - intros i i' x [[-> [= ->]]|[_ Hi]]%lookup_insert_cases [[-> Hx]|[_ Hi']]%lookup_insert_cases; try done.
    + by apply Hnot in Hi'.
    + injection Hx as ->. by apply Hnot in Hi.
    + by eapply S6.
  - intros _ x Hx Hst. rewrite E1 in Hx. rewrite E8 in Hst by by eapply order_lt.
    destruct (decide (id = x)) as [->|Hne].
    + exists j. apply list_lookup_insert_eq. by apply lookup_lt_Some in Hj.
    + destruct (S7 Hnd x Hx Hst) as [i Hi]. exists i. rewrite list_lookup_insert_ne; [done|]. intros ->. congruence.
  - intros i [[_ ?]|[_ Hi]]%lookup_insert_cases; [done|]. split; [done|]. lia.
  - intros i [[_ ?]|[_ Hi]]%lookup_insert_cases; [done|]. pose proof (S9 i Hi). congruence.
  - intros He. destruct Hq' as (_ & Hl & _). destruct (Hl E4) as [Hlv _]. rewrite (l_err _ _ _ Hlv) in He. done.
Qed.

Lemma sinv_finish s j id q' :
  sinv s -> workers s !! j = Some (Running id) -> qinv q' -> effect (queue s) id q' ->
  (q_done (queue s) = true -> q_done q' = true) ->
  (q_err q' = Some CallerGone -> stopped s = true) ->
  sinv {| queue := q'; workers := <[j := Ready]> (wake (workers s)); stopped := stopped s; watched := watched s |}.
Proof.
  intros Hs Hj Hq' [E1 E2 E3 E4 E5 E6 _] Hdd He. pose proof Hs as [S1 S2 S3 S4 S5 S6 S7 S8 S9 S10].
  assert (Hjw : wake (workers s) !! j = Some (Running id)) by by rewrite lookup_wake, Hj.
  assert (Hws : forall i w, wake (workers s) !! i = Some w -> w <> Ready -> workers s !! i = Some w).
  { intros i w Hi Hr1. rewrite lookup_wake in Hi. destruct (workers s !! i) as [[]|]; cbn in Hi; congruence. }
  split; cbn [queue workers stopped].
  - done.
  - rewrite length_insert. unfold wake. rewrite length_map. congruence.
  - congruence.
  - rewrite E3, S4. pose proof (count_insert is_running _ j _ Ready Hjw) as Hct.
    rewrite count_wake in Hct by done. cbn in Hct. lia.
  - intros i x [[_ ?]|[Hne Hi]]%lookup_insert_cases; [done|]. apply Hws in Hi; [|done].
    destruct (S5 i x Hi) as [Hx Hh]. split; [lia|]. intros Hnd. apply E5; [done| |].
    + intros ->. by rewrite (S6 _ _ _ Hi Hj) in Hne.
    + apply Hh. destruct (q_done (queue s)); [|done]. rewrite Hdd in Hnd; done.
  - intros i i' x [[_ ?]|[_ Hi]]%lookup_insert_cases [[_ ?]|[_ Hi']]%lookup_insert_cases; try done.
    apply Hws in Hi; [|done]. apply Hws in Hi'; [|done]. by eapply S6.
  - intros Hnd x Hx Hst. destruct (E6 Hnd x Hx Hst) as (Hx' & Hst' & Hne).
    assert (Hnd' : q_done (queue s) = false) by (destruct (q_done (queue s)); [rewrite Hdd in Hnd|]; done).
    destruct (S7 Hnd' x Hx' Hst') as [i Hi]. exists i. rewrite list_lookup_insert_ne by (intros ->; congruence).
    by rewrite lookup_wake, Hi.
  - intros i [[_ ?]|[_ Hi]]%lookup_insert_cases; [done|]. rewrite lookup_wake in Hi.
    destruct (workers s !! i) as [[]|]; cbn in Hi; congruence.
  - intros i [[_ ?]|[_ Hi]]%lookup_insert_cases; [done|]. apply Hws in Hi; [|done]. apply Hdd. by eapply S9.
  - done.
Qed.

Lemma sinv_wake s st w :
  sinv s -> (stopped s = true -> st = true) ->
  sinv {| queue := queue s; workers := wake (workers s); stopped := st; watched := w |}.
Proof.
  intros [S1 S2 S3 S4 S5 S6 S7 S8 S9 S10] Hst.
  assert (Hws : forall i x, wake (workers s) !! i = Some x -> x <> Ready -> workers s !! i = Some x).
  { intros i x Hi Hr1. rewrite lookup_wake in Hi. destruct (workers s !! i) as [[]|]; cbn in Hi; congruence. }
  split; cbn [queue workers stopped].
  - done.
  - unfold wake. by rewrite length_map.
  - done.
  - rewrite S4. symmetry. by apply count_wake.
  - intros i x Hi. apply Hws in Hi; [|done]. by eapply S5.
  - intros i i' x Hi Hi'. apply Hws in Hi; [|done]. apply Hws in Hi'; [|done]. by eapply S6.
  - intros Hnd x Hx Hs. destruct (S7 Hnd x Hx Hs) as [i Hi]. exists i. by rewrite lookup_wake, Hi.
  - intros i Hi. rewrite lookup_wake in Hi. destruct (workers s !! i) as [[]|]; cbn in Hi; congruence.
  - intros i Hi. apply Hws in Hi; [|done]. by eapply S9.
  - intros He. apply Hst. by apply S10.
Qed.

(** One round of [next], by a job that is ready. *)
Inductive next_case (s : system) : exploreQueue -> next_answer -> bool -> Prop :=
  | case_over q' woke :
      qinv q' -> jobs q' = jobs (queue s) -> running q' = running (queue s) -> q_done q' = true ->
      store q' = store (queue s) -> begun q' = begun (queue s) ->
      (q_err q' = Some CallerGone -> stopped s = true) ->
      (woke = false -> q_done (queue s) = true) -> next_case s q' NextOver woke
  | case_wait :
      q_done (queue s) = false -> 0 < running (queue s) -> next_case s (queue s) NextWait false
  | case_start id q' :
      q_done (queue s) = false -> qinv q' -> started_effect (queue s) id q' ->
      next_case s q' (NextPrefix id) false.

Lemma next_cases s q' a woke :
  sinv s -> next_prefix (stopped s) (queue s) = (q', a, woke) -> next_case s q' a woke.
Proof.
  intros Hs. pose proof Hs as [S1 S2 S3 S4 S5 S6 S7 S8 S9 S10]. pose proof S1 as (Hc & Hl & Ho).
  unfold next_prefix. destruct (q_done (queue s)) eqn:Ed.
  { intros [= <- <- <-]. by apply case_over. }
  destruct (Hl eq_refl) as [Hlv Hsk].
  destruct (Nat.eqb_spec (frontier (queue s)) (length (order (queue s)))) as [Hf|Hf].
  - destruct (Nat.eqb_spec (running (queue s)) 0) as [Hr|Hr]; intros [= <- <- <-].
    + apply case_over; try done.
      split; [|split; [done|]].
        -- by destruct (core_same execute b (queue s) (set_runs (queue s) (running (queue s)) (pending (queue s))
             (discarded (queue s)) true) Hc) as [? _].
        -- intros _. unfold over. cbn [q_err set_runs]. rewrite (l_err _ _ _ Hlv). split; [done|].
           etransitivity; [|exact (l_fold _ _ _ Hlv)]. f_equal. rewrite take_ge; [done|].
           unfold keys. rewrite length_map. cbn [order set_runs]. lia.
    + apply case_wait; [done|lia].
  - destruct (stopped s) eqn:Est.
    { intros [= <- <- <-]. apply case_over; try done. split; [|split; [done|]].
      - by destruct (core_same execute b (queue s) (fail (queue s) CallerGone) Hc) as [? _].
      - intros _. unfold over. cbn [q_err fail]. by rewrite (l_err _ _ _ Hlv). }
    destruct (startable (queue s)) as [id|] eqn:Esb; intros [= <- <- <-].
    + destruct (start_spec Quote execute b (queue s) id Hc Hlv Hsk Ed Esb) as [Hq' He]. by apply case_start.
    + apply case_wait; [done|]. pose proof (q_front _ _ _ Hc).
      destruct (startable_none Quote execute b (queue s) Hc Hlv Hsk) as (id & Hid & Hst); [lia|done|].
      destruct (S7 eq_refl id Hid Hst) as [j Hj]. by eapply running_pos.
Qed.

(** [finish] never gives up for the caller. *)
Lemma insert_err ps q : q_err (insert_prefixes ps q) = q_err q.
Proof.
  assert (Hd : forall ids q, q_err (fold_left drop_prefix ids q) = q_err q).
  { induction ids as [|id ids IH]; intros q'; [done|]. cbn [fold_left]. rewrite IH. unfold drop_prefix.
    by case_bool_decide. }
  assert (Hr : forall ids i q, q_err (reindex ids i q) = q_err q).
  { induction ids as [|id ids IH]; intros i q'; [done|]. cbn [reindex]. by rewrite IH. }
  unfold insert_prefixes. destruct ps; [done|]. cbv zeta. rewrite Hr.
  destruct (b_runs _ <? _); [|done]. cbn [q_err set_order]. by rewrite Hd.
Qed.

Lemma fold_err ids q q' : fold_loop ids q = Some q' -> q_err q' = Some CallerGone -> q_err q = Some CallerGone.
Proof.
  revert q. induction ids as [|id ids IH]; intros q; cbn [fold_loop]; [by intros [= ->]|].
  case_bool_decide; [|by intros [= ->]]. unfold fold_one.
  destruct (p_err (at_ q id)) as [[]|], (p_replay (at_ q id)); cbn [mbind option_bind]; try done.
  1, 2: intros [= <-]; cbn; by destruct (q_err q).
  intros Hf He. by specialize (IH _ Hf He).
Qed.

Lemma finish_err id q q' :
  finish Quote execute id q = Some q' -> q_err q' = Some CallerGone -> q_err q = Some CallerGone.
Proof.
  unfold finish. destruct (run_answer _ _ _) as [[[[r o] ident] gaps] e]. cbv zeta.
  destruct (bool_decide _ || _); [by intros [= <-]|].
  intros H He. eapply fold_err in H; [|done]. destruct e, r; cbn in H; by rewrite ?insert_err in H.
Qed.

(** [finish] always answers, and keeps the queue's invariant. *)
Lemma finish_cases s j id :
  sinv s -> workers s !! j = Some (Running id) ->
  exists q', finish Quote execute id (queue s) = Some q' /\ qinv q' /\ effect (queue s) id q'
    /\ (q_done (queue s) = true -> q_done q' = true)
    /\ (q_err q' = Some CallerGone -> stopped s = true).
Proof.
  intros Hs Hj. pose proof Hs as [S1 S2 S3 S4 S5 S6 S7 S8 S9 S10]. destruct (S5 j id Hj) as [Hid Hh].
  assert (He : forall q', finish Quote execute id (queue s) = Some q' -> q_err q' = Some CallerGone -> stopped s = true)
    by (intros q' Hf Hg; by eapply S10, finish_err).
  destruct (q_done (queue s)) eqn:Ed.
  - destruct (finish_dropped Quote execute b (queue s) id S1 Hid) as (q' & Hf & Hq & Hd & _ & Hef); [by left|].
    exists q'. split_and!; [done|done|done|congruence|by apply He].
  - destruct (Hh eq_refl) as [[Hin Hst]|[Hno Hst]].
    + pose proof S1 as (Hc & Hl & _). destruct (Hl Ed) as [Hlv Hsk].
      apply list_elem_of_lookup in Hin as [i Hi].
      destruct (run_answer Quote execute (plan (at_ (queue s) id))) as [[[[r o] ident] gaps] e] eqn:Ea.
      edestruct run_finish as (q' & Hf & Hq & Hef); try eassumption.
      exists q'. split_and!; [done|done|done|done|by apply He].
    + destruct (finish_dropped Quote execute b (queue s) id S1 Hid) as (q' & Hf & Hq & Hd & _ & Hef); [by right|].
      exists q'. split_and!; [done|done|done|done|by apply He].
Qed.
End Jobs.
