(* ===== verification/ExploreResults.v ===== *)
(** * Exploring with several jobs: executions

    What holds of every execution of the jobs on their queue, however their steps
    interleave: it stays within the bounds the budget and the jobs set, it ends,
    and it comes to the result of exploring in plan order ([explore_sequentially]). *)
From Stdlib Require Import Floats.SpecFloat.
From stdpp Require Import gmap.
From S2P Require Import Prelude Bytes Explore ExploreFacts ExploreQueue ExploreReference.
From S2P Require Import ExploreQueueFacts ExploreInvariant ExploreFinish ExploreSteps ExploreJobs.
Local Open Scope nat_scope.

(** ** Executions *)

Section Executions.
Variable Quote : bytes -> bytes.
Variable execute : list exploreSlot -> run_result.
Abbreviation step := (sys_step Quote execute).

(** The runs a step begins. *)
Definition begins (s s' : system) : nat := count is_running (workers s') - count is_running (workers s).

(** An execution from [s]: its steps, the runs it begins, and where it comes to. *)
Inductive exec (s : system) : nat -> nat -> system -> Prop :=
  | exec_nil : exec s 0 0 s
  | exec_step n r s1 s2 : exec s n r s1 -> step s1 s2 -> exec s (S n) (r + begins s1 s2) s2.

Definition all_exited (s : system) : Prop := Forall (fun j => j = Exited) (workers s).

(** The step of job [j], if it is not waiting or gone: a schedule is a list of jobs. *)
Definition turn (j : nat) (s : system) : option system :=
  match workers s !! j with
  | Some Ready =>
      let '(q, a, woke) := next_prefix (stopped s) (queue s) in
      Some {| queue := q; workers := <[j := after_next a]> (if woke : bool then wake (workers s) else workers s);
              stopped := stopped s; watched := watched s |}
  | Some (Running id) =>
      q ← finish Quote execute id (queue s);
      Some {| queue := q; workers := <[j := Ready]> (wake (workers s)); stopped := stopped s; watched := watched s |}
  | _ => None
  end.

Fixpoint drive (js : list nat) (s : system) : option system :=
  match js with
  | [] => Some s
  | j :: js' => s' ← turn j s; drive js' s'
  end.

Lemma turn_step j s s' : turn j s = Some s' -> step s s'.
Proof.
  unfold turn. destruct (workers s !! j) as [[]|] eqn:Ej; try done.
  - destruct (next_prefix _ _) as [[q a] woke] eqn:E. intros [= <-]. by econstructor.
  - destruct (finish _ _ _ _) as [q|] eqn:E; [|done]. intros [= <-]. by econstructor.
Qed.

Lemma drive_exec js s0 n r s s' :
  exec s0 n r s -> drive js s = Some s' -> exists n' r', exec s0 n' r' s'.
Proof.
  revert n r s. induction js as [|j js IH]; intros n r s He; cbn [drive]; [intros [= <-]; eauto|].
  destruct (turn j s) as [s1|] eqn:E; [|done]. cbn [mbind option_bind]. apply IH with (n := S n) (r := r + begins s s1).
  econstructor; [done|]. by eapply turn_step.
Qed.
End Executions.

(** ** Invariants of executions *)

Section Reachable.
Variable Quote : bytes -> bytes.
Variable execute : list exploreSlot -> run_result.
Variable b : ExploreBudget.
Variable njobs : nat.
Hypothesis Hruns : 1 <= b_runs b.
Abbreviation sinv := (sinv Quote execute b njobs).
Abbreviation step := (sys_step Quote execute).
Abbreviation exec := (exec Quote execute (init b njobs)).

(** The jobs on the system. *)
Definition J : nat := Nat.max (Nat.min njobs (b_runs b)) 1.

(** The steps left, at most: each begun run still has to end, each job to exit, the
    caller may go away and be noticed, and between any two of these every job may
    find it has to wait. *)
Definition credit (runs : nat) (s : system) : nat :=
  2 * (b_runs b + J - runs) + count is_running (workers s) + (J - count is_exited (workers s))
  + (if stopped s then if watched s then 0 else 1 else 2).
Definition left (runs : nat) (s : system) : nat := credit runs s * S J + count is_ready (workers s).

Lemma count_le p l : count p l <= length l.
Proof. unfold count. apply length_filter. Qed.

(** What a step does to the counts of jobs. *)
Lemma counts_set p (s : system) ws j old new :
  ws !! j = Some old -> count p (<[j := new]> ws) + (if p old then 1 else 0) = count p ws + (if p new then 1 else 0).
Proof. apply count_insert. Qed.

Lemma ready_wake l : count is_ready (wake l) <= length l.
Proof. etrans; [apply count_le|]. unfold wake. by rewrite length_map. Qed.

Lemma begun_bound s : sinv s -> begun (queue s) <= b_runs b + J.
Proof.
  intros [(Hc & _) _ Hj _ _ _ _ _ _ _]. unfold begun, started_after. pose proof (q_discarded _ _ _ Hc).
  pose proof (q_front _ _ _ Hc) as Hf. pose proof (t_len _ _ _ _ _ (q_tree _ _ _ Hc)) as Hl.
  unfold keys in Hl. rewrite length_map in Hl.
  pose proof (length_filter (fun id => started (at_ (queue s) id) = true) (drop (frontier (queue s)) (order (queue s)))) as H1.
  rewrite length_drop in H1. unfold J. lia.
Qed.

Lemma left_credit n n' s s' :
  length (workers s') = J -> credit n' s' < credit n s -> left n' s' < left n s.
Proof.
  intros Hl Hc. unfold left. pose proof (count_le is_ready (workers s')). nia.
Qed.

Lemma left_ready n s s' :
  credit n s' = credit n s -> count is_ready (workers s') < count is_ready (workers s) -> left n s' < left n s.
Proof. intros E H. unfold left. rewrite E. lia. Qed.

(** What every step does. *)
Definition advances (s s' : system) : Prop :=
  sinv s' /\ begun (queue s') = begun (queue s) + begins s s'
  /\ left (begun (queue s')) s' < left (begun (queue s)) s.

Lemma workers_J s : sinv s -> length (workers s) = J.
Proof. intros H. rewrite (s_jobs _ _ _ _ _ H). by rewrite (s_njobs _ _ _ _ _ H). Qed.

(** The counts once job [j] has gone from [old] to [new], the waiting woken or not. *)
Lemma step_counts (s : system) j old new (woke : bool) :
  workers s !! j = Some old -> old <> Waiting ->
  let ws := <[j := new]> (if woke then wake (workers s) else workers s) in
  length ws = length (workers s)
  /\ count is_running ws + (if is_running old then 1 else 0)
     = count is_running (workers s) + (if is_running new then 1 else 0)
  /\ count is_exited ws + (if is_exited old then 1 else 0)
     = count is_exited (workers s) + (if is_exited new then 1 else 0)
  /\ (woke = false -> count is_ready ws + (if is_ready old then 1 else 0)
     = count is_ready (workers s) + (if is_ready new then 1 else 0)).
Proof.
  intros Hj Hw ws. unfold ws. rewrite length_insert.
  assert (Hj' : (if woke then wake (workers s) else workers s) !! j = Some old).
  { destruct woke; [|done]. rewrite lookup_wake, Hj. by destruct old. }
  assert (Hc : forall p, p Waiting = false -> p Ready = false ->
    count p (if woke then wake (workers s) else workers s) = count p (workers s)).
  { intros p H1 H2. destruct woke; [by apply count_wake|done]. }
  split_and!.
  - destruct woke; [|done]. unfold wake. apply length_map.
  - rewrite (counts_set is_running s _ _ _ new Hj'). by rewrite Hc.
  - rewrite (counts_set is_exited s _ _ _ new Hj'). by rewrite Hc.
  - intros ->. apply (counts_set is_ready s _ _ _ new Hj').
Qed.

Lemma advances_next s j q' a woke :
  sinv s -> workers s !! j = Some Ready -> next_prefix (stopped s) (queue s) = (q', a, woke) ->
  advances s {| queue := q'; workers := <[j := after_next a]> (if woke then wake (workers s) else workers s);
                stopped := stopped s; watched := watched s |}.
Proof.
  intros Hs Hj Hn. pose proof (next_cases _ _ _ _ s q' a woke Hs Hn) as Hcase.
  pose proof (workers_J s Hs) as HJ.
  destruct (step_counts s j Ready (after_next a) woke Hj ltac:(done)) as (Cl & Cr & Ce & Cy).
  set (s' := {| queue := q' |}). change (<[j := _]> _) with (workers s') in Cl, Cr, Ce, Cy.
  destruct Hcase as [q1 woke1 Hq' Ej Er Ed Es Eb He Hw|Hnd Hr|id q1 Hnd Hq' Hst]; cbn [after_next is_running is_exited is_ready] in Cr, Ce, Cy.
  - unfold advances. split; [by apply sinv_next_over|]. unfold begins. change (queue s') with q1. rewrite Eb.
    split; [lia|]. apply left_credit; [congruence|]. pose proof (count_le is_exited (workers s')).
    unfold credit. change (stopped s') with (stopped s). change (watched s') with (watched s). lia.
  - unfold advances. split; [by apply sinv_next_wait|]. unfold begins. change (queue s') with (queue s).
    split; [lia|]. specialize (Cy eq_refl). apply left_ready; [|lia]. unfold credit.
    change (stopped s') with (stopped s). change (watched s') with (watched s). lia.
  - assert (Hs' : sinv s') by by eapply sinv_next_start.
    pose proof (begun_bound s' Hs') as Hbd. pose proof (st_count _ _ _ Hst) as Hct.
    change (queue s') with q1 in *. unfold advances. split; [done|]. change (queue s') with q1.
    assert (Eb : begun q1 = begun (queue s) + 1) by exact Hct.
    unfold begins. split; [lia|]. apply left_credit; [congruence|]. rewrite Eb in *. unfold credit.
    change (stopped s') with (stopped s). change (watched s') with (watched s). lia.
Qed.

Lemma step_advances s s' : sinv s -> step s s' -> advances s s'.
Proof.
  intros Hs Hstep. destruct Hstep as [s j q' a woke Hj Hn|s j id q' Hj Hf|s Hst|s Hst Hw].
  - by apply advances_next.
  - destruct (finish_cases _ _ _ _ s j id Hs Hj) as (q2 & Hf2 & Hq & Hef & Hd & He).
    rewrite Hf in Hf2. injection Hf2 as <-. pose proof (workers_J s Hs) as HJ.
    destruct (step_counts s j (Running id) Ready true Hj ltac:(done)) as (Cl & Cr & Ce & _). cbn in Cr, Ce.
    set (s' := {| queue := q' |}). change (<[j := _]> _) with (workers s') in Cl, Cr, Ce.
    unfold advances. split; [by eapply sinv_finish|]. change (queue s') with q'.
    assert (Eb : begun q' = begun (queue s)) by exact (e_count _ _ _ Hef).
    rewrite Eb. unfold begins. split; [lia|]. apply left_credit; [congruence|]. unfold credit.
    change (stopped s') with (stopped s). change (watched s') with (watched s). lia.
  - set (s' := {| queue := queue s |}). assert (Hs' : sinv s').
    { destruct Hs as [S1 S2 S3 S4 S5 S6 S7 S8 S9 S10]. by split. }
    unfold advances. split; [done|]. unfold begins. change (workers s') with (workers s).
    change (queue s') with (queue s). split; [lia|]. apply left_credit; [by apply workers_J|].
    unfold credit. cbn [workers stopped watched s']. rewrite Hst. lia.
  - set (s' := {| queue := queue s |}). assert (Hs' : sinv s') by by apply sinv_wake.
    unfold advances. split; [done|]. unfold begins. change (workers s') with (wake (workers s)).
    change (queue s') with (queue s). rewrite count_wake by done.
    split; [lia|]. apply left_credit; [by apply workers_J|].
    unfold credit. cbn [workers stopped watched s']. rewrite Hst, Hw, !count_wake by done. lia.
Qed.

(** The invariant of an execution, the runs begun and the steps left. *)
Lemma exec_inv n r s :
  exec n r s -> sinv s /\ r = begun (queue s) /\ n + left r s <= left 0 (init b njobs).
Proof.
  induction 1 as [|n r s1 s2 He (IH1 & -> & IH2) Hstep].
  - split; [by apply init_sinv|]. destruct (init_spec Quote execute b njobs Hruns) as (_ & _ & _ & _ & _ & E & _).
    cbn [queue init]. rewrite E. done.
  - destruct (step_advances s1 s2 IH1 Hstep) as (H1 & <- & H3). split_and!; [done|done|lia].
Qed.

Lemma left_init : left 0 (init b njobs) = (2 * b_runs b + 3 * J + 2) * S J + J.
Proof.
  destruct (init_spec Quote execute b njobs Hruns) as (_ & Ej & _). unfold left, credit, init.
  cbn [workers stopped watched]. rewrite Ej. fold J.
  assert (Hc : forall p n, count p (repeat Ready n) = if p Ready then n else 0).
  { intros p n. unfold count. induction n as [|n IH]; [by destruct (p Ready)|]. cbn [repeat].
    rewrite filter_cons. destruct (p Ready) eqn:E; case_decide; cbn [length]; try congruence. }
  rewrite !Hc. cbn [is_running is_exited is_ready]. nia.
Qed.

(** A job that is not waiting or gone can always take its step. *)
Lemma turn_ready s j : workers s !! j = Some Ready -> is_Some (turn Quote execute j s).
Proof.
  intros Hj. unfold turn. rewrite Hj. destruct (next_prefix _ _) as [[q a] woke]. by eexists.
Qed.
Lemma turn_running s j id : sinv s -> workers s !! j = Some (Running id) -> is_Some (turn Quote execute j s).
Proof.
  intros Hs Hj. unfold turn. rewrite Hj. destruct (finish_cases _ _ _ _ s j id Hs Hj) as (q & -> & _). by eexists.
Qed.

Lemma count_pos p l : 0 < count p l -> exists i j, l !! i = Some j /\ p j = true.
Proof.
  unfold count. destruct (filter (fun j => p j = true) l) as [|j t] eqn:E; [cbn; lia|intros _].
  assert (Hj : j ∈ filter (fun j => p j = true) l) by (rewrite E; left).
  apply list_elem_of_filter in Hj as [Hp Hj]. apply list_elem_of_lookup in Hj as [i Hi]. by exists i, j.
Qed.

(** Unless every job has returned, one can take its step. *)
Lemma some_turn s : sinv s -> all_exited s \/ exists j, is_Some (turn Quote execute j s).
Proof.
  intros Hs. destruct (decide (Forall (fun j => j = Exited) (workers s))) as [|Hn]; [by left|right].
  apply not_Forall_Exists in Hn; [|exact _].
  apply Exists_exists in Hn as (w & Hw & Hne). apply list_elem_of_lookup in Hw as [j Hj].
  destruct w as [| |id|]; [| | |by destruct Hne].
  - exists j. by apply turn_ready.
  - destruct (s_waiting _ _ _ _ _ Hs j Hj) as [_ Hr]. rewrite (s_running _ _ _ _ _ Hs) in Hr.
    apply count_pos in Hr as (i & x & Hi & Hx). destruct x; try done. exists i. by eapply turn_running.
  - exists j. by eapply turn_running.
Qed.

(** Left to themselves, the jobs all return. *)
Lemma drive_out s :
  sinv s -> exists js s', drive Quote execute js s = Some s' /\ all_exited s'.
Proof.
  remember (left (begun (queue s)) s) as m eqn:Em. revert s Em.
  induction m as [m IH] using lt_wf_ind. intros s -> Hs.
  destruct (some_turn s Hs) as [He|(j & s1 & Hj)]; [by exists [], s|].
  destruct (step_advances s s1 Hs) as (H1 & _ & H3); [by eapply turn_step|].
  destruct (IH _ H3 s1 eq_refl H1) as (js & s' & Hd & He). exists (j :: js), s'.
  cbn [drive]. by rewrite Hj.
Qed.

(** ** The result *)

(** The keys folded are the reference's first ones, all of them once over. *)
Lemma frontier_keys q l beyond :
  core execute b q -> tree_inv execute b l (.∈ l) beyond -> take (frontier q) (keys q) = take (frontier q) l.
Proof.
  intros Hc Ht. pose proof (q_tree _ _ _ Hc) as Hk.
  assert (I1 : initial (valid execute) (take (frontier q) (keys q))).
  { eapply tree_initial; [exact Hk|]. intros i k Hi Hlk. unfold keys in Hlk. rewrite list_lookup_fmap in Hlk.
    destruct (order q !! i) as [id|] eqn:E; [|done]. injection Hlk as <-. exists id.
    split_and!; [by eapply list_elem_of_lookup_2|done|by eapply (q_folded _ _ _ Hc)]. }
  assert (I2 : initial (valid execute) l).
  { rewrite <- (take_ge l (length l)) by done. eapply tree_initial; [exact Ht|]. intros i k _ Hi.
    by eapply list_elem_of_lookup_2. }
  destruct (tree_full execute b l (.∈ l) beyond Ht) as [[Hl Hf] _]; [done|].
  pose proof (q_front _ _ _ Hc) as Hfr.
  assert (Hlen : length (take (frontier q) (keys q)) = frontier q) by by eapply length_take_keys.
  destruct (decide (frontier q <= length l)) as [Hle|Hgt].
  - assert (E : take (frontier q) (keys q) = take (length (take (frontier q) (keys q))) l).
    { apply (initial_prefix (valid execute)); [done|done|lia]. }
    by rewrite Hlen in E.
  - exfalso. assert (E : l = take (length l) (take (frontier q) (keys q))).
    { apply (initial_prefix (valid execute)); [done|done|lia]. }
    destruct (lookup_lt_is_Some_2 (take (frontier q) (keys q)) (length l)) as [k Hk']; [lia|].
    destruct (Hf k) as [Hin|Hfull].
    + pose proof (initial_valid _ _ I1) as Hv. rewrite Forall_forall in Hv.
      apply Hv. by eapply list_elem_of_lookup_2.
    + rewrite E in Hin. apply list_elem_of_lookup in Hin as [i Hi]. apply lookup_take_Some in Hi as [Hi Hlt].
      pose proof (sorted_NoDup _ (initial_sorted _ _ I1)) as Hnd. rewrite NoDup_alt in Hnd.
      specialize (Hnd _ _ _ Hi Hk'). lia.
    + pose proof (t_len _ _ _ _ _ Hk) as Hkl. unfold keys in *. rewrite length_map in Hkl. lia.
Qed.

Lemma over_result q :
  qinv Quote execute b q -> q_done q = true ->
  explored_result Quote q = explore_sequentially Quote execute b \/ q_err q = Some CallerGone.
Proof.
  intros (Hc & _ & Ho) Hd. specialize (Ho Hd). unfold over in Ho.
  destruct (reference_keys Quote execute b Hruns) as (l & beyond & Ht & ->).
  pose proof (frontier_keys q l beyond Hc Ht) as Hk.
  assert (Herr : forall e, fold_keys Quote execute (take (frontier q) (keys q)) no_fold 0 = Err e ->
    keys_result Quote execute l no_fold 0 beyond = Err e).
  { intros e He. unfold keys_result. rewrite <- (take_drop (frontier q) l), fold_keys_app, <- Hk. by rewrite He. }
  unfold explored_result. destruct (q_err q) as [[e|run why|]|] eqn:Eerr.
  - left. symmetry. by apply Herr.
  - left. symmetry. by apply Herr.
  - by right.
  - left. destruct Ho as [Hf Hfold].
    assert (Hkl : length (keys q) = length (order q)) by apply length_map.
    rewrite (take_ge (keys q)) in Hk by lia.
    assert (Hall : forall k, k ∈ keys q -> done_key q k).
    { intros k Hin. apply list_elem_of_lookup in Hin as [i Hi]. unfold keys in Hi. rewrite list_lookup_fmap in Hi.
      destruct (order q !! i) as [id|] eqn:E; [|done]. injection Hi as <-. exists id.
      split_and!; [by eapply list_elem_of_lookup_2|done|]. eapply (q_folded _ _ _ Hc); [|exact E].
      apply lookup_lt_Some in E. lia. }
    destruct (tree_full execute b _ _ _ (q_tree _ _ _ Hc) Hall) as [Hfull Hb].
    destruct (tree_full execute b l (.∈ l) beyond Ht) as [Hfull' Hb']; [done|].
    assert (El : keys q = l).
    { destruct (decide (length l <= frontier q)) as [Hle|Hgt].
      - by rewrite (take_ge l) in Hk by done.
      - exfalso. destruct (lookup_lt_is_Some_2 l (frontier q)) as [k Hk']; [lia|].
        pose proof (t_valid _ _ _ _ _ Ht) as Hv. rewrite Forall_forall in Hv.
        destruct Hfull as [_ Hfl]. destruct (Hfl k) as [Hin|]; [by apply Hv; eapply list_elem_of_lookup_2| |].
        + rewrite Hk in Hin. apply list_elem_of_lookup in Hin as [i Hi]. apply lookup_take_Some in Hi as [Hi Hlt].
          pose proof (sorted_NoDup _ (t_sorted _ _ _ _ _ Ht)) as Hnd. rewrite NoDup_alt in Hnd.
          specialize (Hnd _ _ _ Hi Hk'). lia.
        + destruct Hfull' as [Hl' _]. lia. }
    rewrite El in Hb, Hfold. unfold keys_result. rewrite Hfold. do 2 f_equal.
    apply Bool.eq_iff_eq_true. by rewrite Hb, Hb'.
Qed.
End Reachable.

(** ** The theorems *)

(** C2: whatever the number of jobs and however their steps interleave, once they
    have all returned the exploration's result is that of exploring in plan order,
    one run after another, outcomes, counts, witnesses, probabilities, scope, bounds
    hit and failures alike; or the caller has gone away, which it then reports. *)
Theorem explore_any_order Quote execute b njobs n r s :
  1 <= b_runs b -> exec Quote execute (init b njobs) n r s -> all_exited s ->
  explored_result Quote (queue s) = explore_sequentially Quote execute b
  \/ stopped s = true /\ explored_result Quote (queue s) = Err CallerGone.
Proof.
  intros Hruns He Hall. destruct (exec_inv Quote execute b njobs Hruns n r s He) as (Hs & _ & _).
  assert (Hd : q_done (queue s) = true).
  { assert (Hlen : 0 < length (workers s)) by (rewrite (workers_J _ _ b njobs s Hs); unfold J; lia).
    destruct (lookup_lt_is_Some_2 (workers s) 0 Hlen) as [w Hw].
    unfold all_exited in Hall. rewrite Forall_lookup in Hall. rewrite (Hall 0 w Hw) in Hw.
    by apply (s_exited _ _ _ _ _ Hs 0). }
  destruct (over_result Quote execute b Hruns (queue s) (s_queue _ _ _ _ _ Hs) Hd) as [E|E]; [by left|right].
  split; [by apply (s_gone _ _ _ _ _ Hs)|]. unfold explored_result. by rewrite E.
Qed.

(** C15: in every state an exploration reaches, the queue holds no more prefixes
    than the runs budget, no more jobs run than there are, no two the same prefix,
    and the runs begun ahead of the frontier and cut never number more than the
    jobs; so an exploration begins at most as many runs as its budget and its jobs
    together. *)
Theorem explore_bounds Quote execute b njobs n r s :
  1 <= b_runs b -> exec Quote execute (init b njobs) n r s ->
  length (order (queue s)) <= b_runs b
  /\ length (workers s) = Nat.max (Nat.min njobs (b_runs b)) 1
  /\ running (queue s) = count is_running (workers s)
  /\ (forall i j id, workers s !! i = Some (Running id) -> workers s !! j = Some (Running id) -> i = j)
  /\ discarded (queue s) <= Nat.max (Nat.min njobs (b_runs b)) 1
  /\ r <= b_runs b + Nat.max (Nat.min njobs (b_runs b)) 1.
Proof.
  intros Hruns He. destruct (exec_inv Quote execute b njobs Hruns n r s He) as (Hs & -> & _).
  pose proof (begun_bound _ _ b njobs Hruns s Hs) as Hb. pose proof (workers_J _ _ b njobs s Hs) as HJ.
  destruct Hs as [(Hc & _) _ Hj Hr _ Hd _ _ _ _].
  pose proof (t_len _ _ _ _ _ (q_tree _ _ _ Hc)) as Hl. unfold keys in Hl. rewrite length_map in Hl.
  pose proof (q_discarded _ _ _ Hc) as Hdis. unfold J in *. split_and!; [done|done|done|done|lia|lia].
Qed.

(** C14: an exploration ends. No execution is longer than a bound its budget and
    its jobs set, no job waits for good (unless all have returned one can take its
    step, and a run that ends is always folded), and from every state reached the
    jobs can all return. *)
Theorem explore_ends Quote execute b njobs n r s :
  1 <= b_runs b -> exec Quote execute (init b njobs) n r s ->
  let jobs := Nat.max (Nat.min njobs (b_runs b)) 1 in
  n <= (2 * b_runs b + 3 * jobs + 2) * S jobs + jobs
  /\ (all_exited s \/ exists j s', turn Quote execute j s = Some s' /\ sys_step Quote execute s s')
  /\ exists js s', drive Quote execute js s = Some s' /\ all_exited s'.
Proof.
  intros Hruns He jobs. destruct (exec_inv Quote execute b njobs Hruns n r s He) as (Hs & -> & Hn).
  rewrite left_init in Hn by done. unfold J in Hn. fold jobs in Hn. split_and!; [lia| |].
  - destruct (some_turn Quote execute b njobs Hruns s Hs) as [|(j & s' & Hj)]; [by left|right].
    exists j, s'. split; [done|]. by eapply turn_step.
  - by eapply (drive_out Quote execute b njobs).
Qed.

(** ** An exploration of two jobs *)

(** A behavior that chooses between two branches, then orders two tokens. *)
Definition ended (x : bytes) : Outcome :=
  {| Outputs := []; FinalState := x; StateVisits := []; Terminated := true; o_Err := None;
     sweepLimit := false; Scope := [] |}.
Definition branches : ChoicePoint :=
  {| Kind := ChoiceDecisionBranch; Step := 0; Where := bs "fork"; Alternatives := [bs "a"; bs "b"];
     Weights := []; Drew := SpecFloat.S754_zero false; Drawn := false |}.
Definition two_choices : behavior :=
  Choose branches None (fun t =>
    Move 1 [7; 4]%Z (fun _ => bs "token") (fun id =>
      Stop (ended (bs (if t =? 0 then "a" else "b") ++ bs (if (id =? 4)%Z then "4" else "7"))))).

(** The executor of a behavior under the depth budget [d]. *)
Definition executes (d : nat) (b : behavior) (plan : list exploreSlot) : run_result :=
  match play (start plan d) b with Some (r, o) => Ran r o [] | None => FreshFailed [] end.

Definition budget3 : ExploreBudget := {| b_runs := 3; b_depth := 5 |}.

(** The second job's run, ahead of the first one's, ends first. *)
Definition schedule : list nat := [0; 1; 0; 0; 1; 1; 0; 0; 1].
Abbreviation explored_ahead := (drive id (executes 5 two_choices) schedule (init budget3 2)).

(** Both jobs return; three runs are in the result, and the fourth is cut. *)
Definition as_expected (s : option system) : bool :=
  match s with
  | Some s =>
      bool_decide (workers s = [Exited; Exited]) && negb (stopped s)
      && match explored_result id (queue s) with
         | Ok x => bool_decide ((Runs x, map (fun o => FinalState (xOutcome o)) (Outcomes x), BudgetsHit x)
                                = (3, [bs "a4"; bs "a7"; bs "b4"], [bs "runs"]))
         | Err _ => false
         end
  | None => false
  end.

Lemma explored_ahead_some : exists s, explored_ahead = Some s /\ workers s = [Exited; Exited] /\ stopped s = false.
Proof.
  assert (H : as_expected explored_ahead = true) by (vm_compute; reflexivity).
  destruct explored_ahead as [s|]; [|discriminate H]. exists s. cbn [as_expected] in H.
  apply andb_true_iff in H as [[H1%bool_decide_eq_true H2%negb_true_iff]%andb_true_iff _]. done.
Qed.

Lemma explored_ahead_exec s :
  explored_ahead = Some s -> exists n r, exec id (executes 5 two_choices) (init budget3 2) n r s.
Proof. intros H. exact (drive_exec _ _ schedule _ 0 0 _ s (exec_nil _ _ _) H). Qed.

Lemma explore_any_order_witness :
  exists n r s, exec id (executes 5 two_choices) (init budget3 2) n r s /\ all_exited s
    /\ explored_result id (queue s) = explore_sequentially id (executes 5 two_choices) budget3.
Proof.
  destruct explored_ahead_some as (s & Hs & Hw & Hst). destruct (explored_ahead_exec s Hs) as (n & r & He).
  assert (Hall : all_exited s) by (unfold all_exited; rewrite Hw; repeat constructor).
  exists n, r, s. split; [done|]. split; [done|].
  destruct (explore_any_order id (executes 5 two_choices) budget3 2 n r s) as [E|[E _]];
    [cbn; lia|done|done|exact E|congruence].
Defined.

Lemma explore_bounds_witness :
  exists n r s, exec id (executes 5 two_choices) (init budget3 2) n r s /\ r <= 5.
Proof.
  destruct explored_ahead_some as (s & Hs & _). destruct (explored_ahead_exec s Hs) as (n & r & He).
  exists n, r, s. split; [done|].
  by destruct (explore_bounds id (executes 5 two_choices) budget3 2 n r s) as (_ & _ & _ & _ & _ & H); [cbn; lia| |].
Defined.

Lemma explore_ends_witness :
  exists js s, drive id (executes 5 two_choices) js (init budget3 2) = Some s /\ all_exited s.
Proof.
  destruct (explore_ends id (executes 5 two_choices) budget3 2 0 0 (init budget3 2)) as (_ & _ & H);
    [cbn; lia|apply exec_nil|exact H].
Defined.
