(* ===== verification/ExplorePaths.v ===== *)
(** * Exploring a behavior: every path once

    The prefixes an exploration of a behavior queues are, one for one, the
    behavior's complete paths: each is the path of the run of one key's plan. *)
From stdpp Require Import gmap.
From S2P Require Import Prelude Bytes Explore ExploreFacts ExploreQueue ExploreReference.
From S2P Require Import ExploreResults.
Local Open Scope nat_scope.

(** ** Paths *)

Definition path_under (b : behavior) (ts : list nat) : list nat := map snd (path_of b ts).1.

Lemma path_of_pad b ts n : path_of b (ts ++ repeat 0 n) = path_of b ts.
Proof.
  assert (Hh : hd 0 (ts ++ repeat 0 n) = hd 0 ts) by (destruct ts; [by destruct n|done]).
  assert (Ht : exists m, tl (ts ++ repeat 0 n) = tl ts ++ repeat 0 m).
  { destruct ts; [|by exists n]. destruct n as [|n]; [by exists 0|by exists n]. }
  revert ts n Hh Ht. induction b as [o|c w k IH|st able label k IH]; intros ts n Hh [m Hm]; cbn [path_of]; [done| |].
  all: assert (IHt : forall x ts n, path_of (k x) (ts ++ repeat 0 n) = path_of (k x) ts)
    by (intros x ts' n'; apply IH; [destruct ts'; [by destruct n'|done]|];
        destruct ts'; [|by exists n']; destruct n' as [|n']; [by exists 0|by exists n']).
  all: destruct (_ <? 2); [by apply IHt|]; rewrite Hh, Hm, IHt; done.
Qed.

Lemma path_cons_nth ts n (p : list (nat * nat)) o :
  (forall j, nth j (map snd (p, o : Outcome).1) 0 = if j <? length (map snd (p, o).1) then nth j (tl ts) 0 else 0) ->
  forall j, nth j (map snd ((n, hd 0 ts) :: p, o).1) 0
    = if j <? length (map snd ((n, hd 0 ts) :: p, o).1) then nth j ts 0 else 0.
Proof.
  intros H j. cbn [fst map length] in *. destruct j as [|j]; cbn [nth]; [by destruct ts|]. rewrite H.
  change (S j <? S (length (map snd p))) with (j <? length (map snd p)).
  destruct (j <? _); [|done]. by destruct ts; [destruct j|].
Qed.

(** The alternative a path takes is the one it was given, the first past them. *)
Lemma path_under_nth b ts j : nth j (path_under b ts) 0 = if j <? length (path_under b ts) then nth j ts 0 else 0.
Proof.
  revert j. unfold path_under. revert ts.
  induction b as [o|c w k IH|st able label k IH]; intros ts; cbn [path_of]; [by intros []| |].
  - destruct (_ <? 2); [apply IH|]. specialize (IH (hd 0 ts) (tl ts)).
    destruct (path_of (k (hd 0 ts)) (tl ts)) as [p o]. by apply path_cons_nth.
  - destruct (_ <? 2); [apply IH|]. set (id := nth (hd 0 ts) (sort_ids able) 0%Z). specialize (IH id (tl ts)).
    destruct (path_of (k id) (tl ts)) as [p o]. by apply path_cons_nth.
Qed.

Lemma path_entry b ts j n t : (path_of b ts).1 !! j = Some (n, t) -> t = nth j ts 0.
Proof.
  intros H. assert (Hl : j < length (path_under b ts)) by (unfold path_under; rewrite length_map; by apply lookup_lt_Some in H).
  pose proof (path_under_nth b ts j) as E. rewrite (proj2 (Nat.ltb_lt _ _) Hl) in E. rewrite <- E.
  unfold path_under. by rewrite nth_lookup, list_lookup_fmap, H.
Qed.

Lemma path_under_own b ts : path_under b (path_under b ts) = path_under b ts.
Proof. unfold path_under. by rewrite path_of_own. Qed.

(** Not ending in a first alternative. *)
Definition stripped (ts : list nat) : Prop := match last ts with Some 0 => False | _ => True end.

Lemma stripped_pad ts ts' n n' :
  stripped ts -> stripped ts' -> ts ++ repeat 0 n = ts' ++ repeat 0 n' -> ts = ts'.
Proof.
  assert (W : forall a b n n', stripped a -> a ++ repeat 0 n = b ++ repeat 0 n' -> length a <= length b).
  { intros a c m m' Ha E. destruct (decide (length a <= length c)) as [|Hn]; [done|exfalso].
    destruct a as [|x a _] using rev_ind; [cbn in Hn; lia|]. unfold stripped in Ha. rewrite last_snoc in Ha.
    assert (E' : (a ++ [x] ++ repeat 0 m) !! length a = Some x) by by apply list_lookup_middle.
    rewrite app_assoc, E, lookup_app_r in E' by (rewrite length_app in Hn; cbn in Hn; lia).
    apply list_elem_of_lookup_2, list_elem_of_In, repeat_spec in E'. by subst x. }
  intros H H' E. assert (El : length ts = length ts').
  { apply Nat.le_antisymm; [by eapply W|by eapply (W ts' ts n' n)]. }
  by apply app_inj_1 in E as [-> _].
Qed.

(** A path is the alternatives it was given, and first ones. *)
Lemma path_under_pad b ts :
  length ts <= length (path_under b ts) ->
  path_under b ts = ts ++ repeat 0 (length (path_under b ts) - length ts).
Proof.
  intros Hl. apply (nth_ext _ _ 0 0).
  - rewrite length_app, repeat_length. lia.
  - intros j Hj. rewrite path_under_nth, (proj2 (Nat.ltb_lt _ _) Hj).
    destruct (decide (j < length ts)) as [Hlt|Hge].
    + by rewrite app_nth1.
    + rewrite (nth_overflow ts), app_nth2 by lia. by rewrite nth_repeat.
Qed.

(** The prefix of a path up to a place past which it takes first alternatives. *)
Lemma path_under_take b ts m :
  path_under b ts = ts -> (forall j, m <= j -> nth j ts 0 = 0) -> path_under b (take m ts) = ts.
Proof.
  intros E H. assert (Ets : ts = take m ts ++ repeat 0 (length ts - m)).
  { rewrite <- (take_drop m ts) at 1. f_equal. apply (nth_ext _ _ 0 0).
    - by rewrite length_drop, repeat_length.
    - intros j Hj. rewrite nth_repeat. etransitivity; [|apply (H (m + j)); lia].
      by rewrite !nth_lookup, lookup_drop. }
  transitivity (path_under b ts); [|done]. unfold path_under. rewrite Ets at 2. by rewrite path_of_pad.
Qed.

(** The choice a path meets depends on what it took before. *)
Lemma path_of_agree b ts ts' m :
  (forall j, j < m -> nth j ts 0 = nth j ts' 0) ->
  forall j, j <= m -> fst <$> (path_of b ts).1 !! j = fst <$> (path_of b ts').1 !! j.
Proof.
  revert ts ts' m. induction b as [o|c w k IH|st able label k IH]; intros ts ts' m H j Hj; cbn [path_of]; [done| |].
  all: destruct (_ <? 2); [by eapply IH|].
  all: assert (Ht : forall j, j < m - 1 -> nth j (tl ts) 0 = nth j (tl ts') 0)
    by (intros i Hi; specialize (H (S i) ltac:(lia)); by destruct ts, ts'; destruct i).
  all: assert (Hh : 0 < m -> hd 0 ts = hd 0 ts') by (intros Hm; specialize (H 0 Hm); by destruct ts, ts').
  - destruct j as [|j]; [by destruct (path_of _ _), (path_of _ _)|]. rewrite (Hh ltac:(lia)).
    specialize (IH (hd 0 ts') (tl ts) (tl ts') (m - 1) Ht j ltac:(lia)).
    by destruct (path_of _ (tl ts)), (path_of _ (tl ts')).
  - destruct j as [|j]; [by destruct (path_of _ _), (path_of _ _)|]. rewrite (Hh ltac:(lia)).
    specialize (IH (nth (hd 0 ts') (sort_ids able) 0%Z) (tl ts) (tl ts') (m - 1) Ht j ltac:(lia)).
    by destruct (path_of _ (tl ts)), (path_of _ (tl ts')).
Qed.

(** A choice met has two alternatives at least. *)
Lemma path_of_alternatives b ts : Forall (fun '(n, _) => 2 <= n) (path_of b ts).1.
Proof.
  revert ts. induction b as [o|c w k IH|st able label k IH]; intros ts; cbn [path_of]; [constructor| |].
  - destruct (_ <? 2) eqn:E; [apply IH|]. apply Nat.ltb_ge in E. specialize (IH (hd 0 ts) (tl ts)).
    destruct (path_of _ _). by constructor.
  - destruct (_ <? 2) eqn:E; [apply IH|]. apply Nat.ltb_ge in E.
    specialize (IH (nth (hd 0 ts) (sort_ids able) 0%Z) (tl ts)). destruct (path_of _ _). by constructor.
Qed.

(** ** Plans *)

(** The plan of the next alternative at a place of a run's record is for the
    behavior too. *)
Lemma plan_for_next bh l m s :
  plan_for bh l -> l !! m = Some s -> taken s + 1 < alternatives s -> plan_for bh (plan_from l m).
Proof.
  assert (Hc : forall (x : exploreSlot) l m, plan_from (x :: l) (S m) = x :: plan_from l m) by done.
  assert (H0 : forall (x : exploreSlot) l, plan_from (x :: l) 0 = [with_taken x (taken x + 1) (beyond x)]) by done.
  revert l m. induction bh as [o|c w k IH|st able label k IH]; intros l m; cbn [plan_for].
  - by intros ->.
  - destruct (_ <? 2); [apply IH|]. destruct l as [|x l]; [done|]. intros ((Hk & Ha) & Ht & Hb & Hl) Hm Hs.
    destruct m as [|m].
    + injection Hm as ->. rewrite H0. unfold faced_pick. cbn [kind alternatives taken beyond with_taken].
      split_and!; [done|done|lia|done|apply plan_for_nil].
    + rewrite Hc. split_and!; [done|done|done|by apply IH].
  - destruct (_ <? 2); [apply IH|]. destruct l as [|x l]; [done|]. intros ((Hk & Hto & Ha) & Ht & Hb & Hl) Hm Hs.
    destruct m as [|m].
    + injection Hm as ->. rewrite H0. unfold faced_tokens. cbn [kind tokens alternatives taken beyond with_taken].
      split_and!; [done|done|done|lia|done|apply plan_for_nil].
    + rewrite Hc. split_and!; [done|done|done|by apply IH].
Qed.

Lemma untried_bound i l j : j ∈ untried i l -> i <= j.
Proof. intros (s & H & _)%elem_untried. done. Qed.

Lemma untried_NoDup i l : NoDup (untried i l).
Proof.
  revert i. induction l as [|s l IH]; intros i; cbn [untried]; [constructor|].
  destruct (_ || _); [apply IH|]. constructor; [|apply IH]. intros H%untried_bound. lia.
Qed.

Lemma plan_from_taken l m s :
  l !! m = Some s -> map taken (plan_from l m) = take m (map taken l) ++ [taken s + 1].
Proof.
  intros Hm. assert (Hl : m < length l) by by apply lookup_lt_Some in Hm.
  unfold plan_from. rewrite Nat.add_1_r, (take_S_r l m s Hm).
  assert (E : length (take m l) = m) by (rewrite length_take; lia).
  rewrite alter_app_r_alt, E, Nat.sub_diag by lia. change (alter ?f 0 [s]) with [f s]. cbn beta.
  rewrite map_app. cbn [map taken with_taken]. by rewrite firstn_map.
Qed.

Section Behavior.
Variable bh : behavior.
Variable d : nat.
Hypothesis Hdeep : deep bh d.
Abbreviation execute := (executes d bh).

(** The run of a plan for the behavior. *)
Record runs_as (pl : list exploreSlot) (r : exploreRun) : Prop := {
  ra_run : execute pl = Ran r (path_of bh (map taken pl)).2 [];
  ra_followed : followed r = None;
  ra_duplicate : duplicate r = false;
  ra_depth : depthHit r = false;
  ra_slots : map slot_pair (record r) = (path_of bh (map taken pl)).1;
  ra_path : map taken (record r) = path_under bh (map taken pl);
  ra_plan : plan_for bh (record r);
  ra_len : length pl <= length (record r);
  ra_unexplored : unexplored r = untried (length pl - 1) (drop (length pl - 1) (record r)) }.

Lemma plan_runs pl : plan_for bh pl -> exists r, runs_as pl r.
Proof.
  intros Hp. destruct (run_plays bh pl d Hp Hdeep) as (l & Hplay & (H1 & H2 & H3 & H4 & H5) & Hl & Hpl & Hlen).
  exists (pushes (start pl d) l). pose proof (pushes_record (start pl d) l) as Hr.
  destruct (pushes_prefix (start pl d) l) as [Hpre _]. cbn [record start prefix app] in Hr, Hpre.
  split; rewrite ?Hr; try done.
  - unfold executes. by rewrite Hplay.
  - unfold followed. rewrite H2, Hr, Hpre. by rewrite (proj2 (Nat.ltb_ge _ _) Hlen).
  - by rewrite taken_pairs, Hl.
  - unfold unexplored. by rewrite Hpre, Hr.
Qed.

Lemma runs_as_det pl r r' : runs_as pl r -> runs_as pl r' -> r = r'.
Proof. intros H H'. pose proof (ra_run _ _ H) as E. rewrite (ra_run _ _ H') in E. by injection E. Qed.

Lemma runs_children pl r : runs_as pl r -> child_plans execute pl = map (plan_from (record r)) (unexplored r).
Proof. intros H. unfold child_plans. by rewrite (ra_run _ _ H), (ra_followed _ _ H). Qed.

(** What a key's plan is. *)
Record good_plan (k : list nat) (pl : list exploreSlot) : Prop := {
  g_for : plan_for bh pl;
  g_stripped : stripped (map taken pl);
  g_sum : sum_list (map taken pl) = length k }.

Lemma sum_snoc l x : sum_list (l ++ [x]) = sum_list l + x.
Proof. rewrite sum_list_with_app. cbn. lia. Qed.
Lemma sum_pad l n : sum_list (l ++ repeat 0 n) = sum_list l.
Proof. rewrite sum_list_with_app. assert (E : sum_list (repeat 0 n) = 0) by (induction n; done). lia. Qed.

Lemma drop_repeat {A} (x : A) n m : drop n (repeat x m) = repeat x (m - n).
Proof. revert m. induction n as [|n IH]; intros [|m]; try done. apply IH. Qed.

Lemma pad_sum l ts n m x :
  l = ts ++ repeat 0 n -> length ts <= S m -> l !! m = Some x -> sum_list (take m l) + x = sum_list ts.
Proof.
  intros -> Hl Hm. pose proof (sum_pad ts n) as E. rewrite <- (take_drop_middle _ _ _ Hm) in E.
  rewrite sum_list_with_app, drop_app_ge in E by done.
  rewrite drop_repeat in E. cbn [sum_list_with] in E.
  pose proof (sum_pad [] (n - (S m - length ts))) as Ez. cbn [app sum_list_with] in Ez. unfold id in *. lia.
Qed.

(** The child of a run at its choice [m]. *)
Record child_at_choice (pl : list exploreSlot) (r : exploreRun) (m : nat) (pl' : list exploreSlot) : Prop := {
  c_slot : exists s, record r !! m = Some s /\ taken s + 1 < alternatives s
    /\ map taken pl' = take m (map taken (record r)) ++ [taken s + 1];
  c_last : length pl - 1 <= m;
  c_plan : pl' = plan_from (record r) m }.

Lemma child_choice pl r i pl' :
  runs_as pl r -> child_plans execute pl !! i = Some pl' ->
  exists m, unexplored r !! i = Some m /\ child_at_choice pl r m pl'.
Proof.
  intros Hr Hi. rewrite (runs_children pl r Hr), list_lookup_fmap in Hi.
  destruct (unexplored r !! i) as [m|] eqn:Em; [|done]. injection Hi as <-. exists m. split; [done|].
  pose proof (list_elem_of_lookup_2 _ _ _ Em) as Hin. rewrite (ra_unexplored _ _ Hr) in Hin.
  apply elem_untried in Hin as (s & Hle & Hs & Hb & Ha).
  rewrite lookup_drop in Hs. replace (length pl - 1 + (m - (length pl - 1))) with m in Hs by lia.
  split; [|done|done]. exists s. split_and!; [done|done|by apply plan_from_taken].
Qed.

Lemma good_child k pl r m pl' i :
  good_plan k pl -> runs_as pl r -> child_at_choice pl r m pl' -> good_plan (k ++ [i]) pl'.
Proof.
  intros [G1 G2 G3] Hr [(s & Hs & Ha & Et) Hle ->]. split.
  - eapply plan_for_next; [apply (ra_plan _ _ Hr)|done|done].
  - unfold stripped. rewrite Et, last_snoc. by destruct (taken s + 1) eqn:E; [lia|].
  - rewrite Et, sum_snoc, length_app, <- G3. cbn [length]. rewrite Nat.add_assoc. f_equal.
    pose proof (ra_path _ _ Hr) as Hp. rewrite path_under_pad in Hp.
    2:{ rewrite length_map, <- Hp, length_map. by apply (ra_len _ _ Hr). }
    assert (Hm : map taken (record r) !! m = Some (taken s)) by by rewrite list_lookup_fmap, Hs.
    eapply pad_sum; [exact Hp| |done]. rewrite length_map. lia.
Qed.

(** Every key's plan is good, and its run follows it. *)
Lemma plan_at_good k pl : plan_at execute k = Some pl -> good_plan k pl.
Proof.
  revert pl. induction k as [|i k IH] using rev_ind; intros pl.
  - intros [= <-]. split; [apply plan_for_nil|done|done].
  - rewrite plan_at_snoc. destruct (plan_at execute k) as [pl0|] eqn:E; [|done]. cbn [mbind option_bind]. intros Hc.
    specialize (IH pl0 eq_refl). destruct (plan_runs pl0 (g_for _ _ IH)) as [r Hr].
    destruct (child_choice pl0 r i pl Hr Hc) as (m & _ & Hm). by eapply good_child.
Qed.

Lemma ra_pad pl r :
  runs_as pl r -> map taken (record r) = map taken pl ++ repeat 0 (length (record r) - length pl).
Proof.
  intros Hr. pose proof (ra_path _ _ Hr) as Hp. pose proof (ra_len _ _ Hr) as Hl.
  rewrite Hp, path_under_pad by (rewrite <- Hp, !length_map; done). by rewrite <- Hp, !length_map.
Qed.

(** A run's path is determined by its first choices, as far as its last departure. *)
Lemma ra_take pl r m :
  runs_as pl r -> length pl <= m -> map taken (record r) = path_under bh (take m (map taken (record r))).
Proof.
  intros Hr Hm. symmetry. apply path_under_take.
  - rewrite (ra_path _ _ Hr). apply path_under_own.
  - intros j Hj. rewrite (ra_pad pl r Hr), app_nth2 by (rewrite length_map; lia). apply nth_repeat.
Qed.

Lemma child_parent pl1 r1 m1 c1 pl2 r2 m2 c2 :
  runs_as pl1 r1 -> child_at_choice pl1 r1 m1 c1 -> stripped (map taken pl1) ->
  runs_as pl2 r2 -> child_at_choice pl2 r2 m2 c2 -> stripped (map taken pl2) ->
  map taken c1 = map taken c2 -> m1 = m2 /\ map taken pl1 = map taken pl2.
Proof.
  intros R1 [(s1 & Hs1 & _ & E1) L1 _] S1 R2 [(s2 & Hs2 & _ & E2) L2 _] S2 E.
  rewrite E1, E2 in E. apply app_inj_tail in E as [Et Ex].
  assert (Hm1 : m1 < length (record r1)) by by apply lookup_lt_Some in Hs1.
  assert (Hm2 : m2 < length (record r2)) by by apply lookup_lt_Some in Hs2.
  assert (m1 = m2) as <-.
  { apply (f_equal length) in Et. rewrite !length_take, !length_map in Et. lia. }
  split; [done|]. assert (Ets : take (S m1) (map taken (record r1)) = take (S m1) (map taken (record r2))).
  { rewrite (take_S_r _ _ (taken s1)) by (by rewrite list_lookup_fmap, Hs1).
    rewrite (take_S_r _ _ (taken s2)) by (by rewrite list_lookup_fmap, Hs2). f_equal; [done|f_equal; lia]. }
  assert (Er : map taken (record r1) = map taken (record r2)).
  { rewrite (ra_take pl1 r1 (S m1) R1), (ra_take pl2 r2 (S m1) R2), Ets by lia. done. }
  rewrite (ra_pad _ _ R1), (ra_pad _ _ R2) in Er. by eapply stripped_pad.
Qed.

(** No two keys have the same plan. *)
Lemma plans_unique k1 k2 pl1 pl2 :
  plan_at execute k1 = Some pl1 -> plan_at execute k2 = Some pl2 -> map taken pl1 = map taken pl2 -> k1 = k2.
Proof.
  revert k2 pl1 pl2. induction k1 as [|i1 k1 IH] using rev_ind; intros k2 pl1 pl2 H1 H2 E.
  - injection H1 as <-. pose proof (g_sum _ _ (plan_at_good k2 pl2 H2)) as Hs. rewrite <- E in Hs.
    cbn in Hs. by destruct k2.
  - destruct k2 as [|i2 k2 _] using rev_ind.
    { injection H2 as <-. pose proof (g_sum _ _ (plan_at_good _ pl1 H1)) as Hs. rewrite E, length_app in Hs.
      cbn in Hs. lia. }
    rewrite plan_at_snoc in H1, H2.
    destruct (plan_at execute k1) as [p1|] eqn:E1; [|done]. destruct (plan_at execute k2) as [p2|] eqn:E2; [|done].
    cbn [mbind option_bind] in H1, H2. pose proof (plan_at_good k1 p1 E1) as G1. pose proof (plan_at_good k2 p2 E2) as G2.
    destruct (plan_runs p1 (g_for _ _ G1)) as [r1 R1]. destruct (plan_runs p2 (g_for _ _ G2)) as [r2 R2].
    destruct (child_choice p1 r1 i1 pl1 R1 H1) as (m1 & Hm1 & C1).
    destruct (child_choice p2 r2 i2 pl2 R2 H2) as (m2 & Hm2 & C2).
    destruct (child_parent p1 r1 m1 pl1 p2 r2 m2 pl2 R1 C1 (g_stripped _ _ G1) R2 C2 (g_stripped _ _ G2) E) as [<- Ep].
    assert (k1 = k2) as <- by by eapply IH. rewrite E1 in E2. injection E2 as <-.
    rewrite (runs_as_det p1 r2 r1 R2 R1) in Hm2. rewrite (ra_unexplored _ _ R1) in Hm1, Hm2.
    pose proof (untried_NoDup (length p1 - 1) (drop (length p1 - 1) (record r1))) as Hnd.
    rewrite NoDup_alt in Hnd. by rewrite (Hnd _ _ _ Hm1 Hm2).
Qed.

(** The last choice of a path that is not its first alternative. *)
Lemma last_departure ts :
  0 < sum_list ts -> exists m x n, ts = take m ts ++ [S x] ++ repeat 0 n /\ m < length ts.
Proof.
  induction ts as [|t ts IH] using rev_ind; [cbn; lia|]. rewrite sum_snoc. intros Hs. destruct t as [|x].
  - destruct IH as (m & x & n & E & Hm); [lia|]. exists m, x, (n + 1). rewrite length_app, take_app_le by lia.
    split; [|lia]. rewrite E at 1. rewrite repeat_app, !app_assoc. done.
  - exists (length ts), x, 0. rewrite take_app_length, length_app. cbn. split; [done|lia].
Qed.

(** One step back along the order of exploration: the path that took one less. *)
Lemma path_before_entries m ts x :
  complete_path bh ts -> m < length ts -> nth m ts 0 = S x ->
  let q := take m ts ++ [x] in
  Forall (fun '(n, t) => t < n) (path_of bh q).1 /\ exists a, (path_of bh q).1 !! m = Some (a, x) /\ S x < a.
Proof.
  intros [Hc Hb] Hm Hmts q. assert (Hl : length (take m ts) = m) by (rewrite length_take; lia).
  rewrite Forall_lookup in Hb. assert (Hag : forall j, j < m -> nth j ts 0 = nth j q 0).
  { intros j Hj. unfold q. rewrite app_nth1 by lia. by rewrite !nth_lookup, lookup_take_lt. }
  assert (Hmq : nth m q 0 = x) by (unfold q; rewrite app_nth2, Hl, Nat.sub_diag by lia; done).
  assert (Hts : forall j n t, (path_of bh ts).1 !! j = Some (n, t) -> nth j ts 0 = t).
  { intros j n t Hj. by rewrite <- Hc, nth_lookup, list_lookup_fmap, Hj. }
  pose proof (path_of_agree bh ts q m Hag) as Hp. split.
  - apply Forall_lookup. intros j [n t] Hj. pose proof (path_entry bh q j n t Hj) as Ht.
    destruct (decide (j <= m)) as [Hjm|Hjm].
    + specialize (Hp j Hjm). rewrite Hj in Hp. destruct ((path_of bh ts).1 !! j) as [[n' t']|] eqn:Ej; [|done].
      injection Hp as ->. pose proof (Hb _ _ Ej) as Hlt. cbn in Hlt. rewrite <- (Hts _ _ _ Ej) in Hlt.
      destruct (decide (j = m)) as [->|]; [rewrite Ht, Hmq; lia|]. rewrite Ht, <- Hag by lia. done.
    + rewrite Ht. unfold q. rewrite nth_overflow by (rewrite length_app; cbn; lia).
      pose proof (path_of_alternatives bh q) as H2. rewrite Forall_lookup in H2. specialize (H2 _ _ Hj). cbn in H2. lia.
  - rewrite <- Hc, length_map in Hm. destruct (lookup_lt_is_Some_2 (path_of bh ts).1 m Hm) as [[a t] Ha].
    pose proof (Hp m ltac:(lia)) as Hpm. rewrite Ha in Hpm. cbn [fmap option_fmap option_map fst] in Hpm.
    destruct ((path_of bh q).1 !! m) as [[a' t']|] eqn:Ea'; [|done]. injection Hpm as ->. exists a'.
    rewrite (path_entry bh q m a' t' Ea'), Hmq. split; [done|].
    pose proof (Hb _ _ Ha) as Hlt. cbn in Hlt. rewrite <- (Hts _ _ _ Ha) in Hlt. lia.
Qed.

Lemma path_before m ts x n :
  complete_path bh ts -> ts = take m ts ++ [S x] ++ repeat 0 n -> m < length ts ->
  let ts' := path_under bh (take m ts ++ [x]) in
  complete_path bh ts' /\ m < length ts' /\ take (S m) ts' = take m ts ++ [x]
  /\ (forall j, m < j -> nth j ts' 0 = 0) /\ exists a, (path_of bh ts').1 !! m = Some (a, x) /\ S x < a.
Proof.
  intros Hc E Hm ts'. assert (Hl : length (take m ts) = m) by (rewrite length_take; lia).
  assert (Hmts : nth m ts 0 = S x) by (rewrite E, app_nth2 by lia; by rewrite Hl, Nat.sub_diag).
  destruct (path_before_entries m ts x Hc Hm Hmts) as (Hf & a & Ha & Hx). set (q := take m ts ++ [x]) in *.
  assert (Eo : path_of bh ts' = path_of bh q) by apply path_of_own.
  assert (Hlt : m < length ts') by (unfold ts', path_under; rewrite length_map; by apply lookup_lt_Some in Ha).
  assert (Hq : length q = S m) by (unfold q; rewrite length_app; cbn; lia).
  assert (Hpad : ts' = q ++ repeat 0 (length ts' - length q)) by (apply path_under_pad; fold ts'; lia).
  split_and!.
  - split; by rewrite Eo.
  - done.
  - rewrite Hpad, <- Hq. by rewrite take_app_length.
  - intros j Hj. rewrite Hpad, app_nth2 by lia. apply nth_repeat.
  - exists a. by rewrite Eo.
Qed.

(** A plan ends where its run last takes another alternative than the first. *)
Lemma plan_short pl r m :
  runs_as pl r -> stripped (map taken pl) -> (forall j, m < j -> nth j (map taken (record r)) 0 = 0) ->
  length pl <= S m.
Proof.
  intros Hr Hs Hz. destruct pl as [|s pl _] using rev_ind; [cbn; lia|]. rewrite length_app. cbn [length].
  destruct (decide (length pl <= m)) as [|Hn]; [lia|exfalso]. specialize (Hz (length pl) ltac:(lia)).
  rewrite (ra_pad _ _ Hr), map_app, <- app_assoc, app_nth2 in Hz by (rewrite length_map; lia).
  rewrite length_map, Nat.sub_diag in Hz. cbn in Hz.
  unfold stripped in Hs. rewrite map_app in Hs. cbn [map] in Hs. by rewrite last_snoc, Hz in Hs.
Qed.

(** A run's choice with an alternative left has its child. *)
Lemma child_exists pl r m a x :
  runs_as pl r -> length pl <= S m -> (path_of bh (map taken (record r))).1 !! m = Some (a, x) -> S x < a ->
  exists i, child_plans execute pl !! i = Some (plan_from (record r) m)
    /\ map taken (plan_from (record r) m) = take m (map taken (record r)) ++ [S x].
Proof.
  intros Hr Hl Ha Hx. rewrite (ra_path _ _ Hr) in Ha. unfold path_under in Ha. rewrite path_of_own in Ha.
  rewrite <- (ra_slots _ _ Hr), list_lookup_fmap in Ha.
  destruct (record r !! m) as [s|] eqn:Es; [|done]. injection Ha as <- <-.
  pose proof (plan_for_bounds _ _ (ra_plan _ _ Hr)) as Hb. rewrite Forall_lookup in Hb. destruct (Hb _ _ Es) as [_ Hbs].
  assert (Hin : m ∈ unexplored r).
  { rewrite (ra_unexplored _ _ Hr). apply elem_untried. exists s. rewrite lookup_drop.
    replace (length pl - 1 + (m - (length pl - 1))) with m by lia. split_and!; [lia|done|done|lia]. }
  apply list_elem_of_lookup in Hin as [i Hi]. exists i. rewrite (runs_children pl r Hr), list_lookup_fmap, Hi.
  split; [done|]. by rewrite (plan_from_taken _ _ _ Es), Nat.add_1_r.
Qed.

(** Every complete path is the path of a key's run. *)
Lemma path_reached ts :
  complete_path bh ts ->
  exists k pl r, plan_at execute k = Some pl /\ runs_as pl r /\ map taken (record r) = ts.
Proof.
  remember (sum_list ts) as n eqn:En. revert ts En. induction n as [|n IH]; intros ts En Hc.
  - destruct (plan_runs [] (plan_for_nil bh)) as [r Hr]. exists [], [], r. split_and!; [done|done|].
    rewrite (ra_path _ _ Hr). change (map taken []) with (take 0 ts). apply path_under_take; [apply Hc|].
    intros j _. clear -En. revert j. induction ts as [|t ts IH]; intros [|j]; cbn [nth sum_list_with] in *; unfold id in *; try lia.
    apply IH. lia.
  - destruct (last_departure ts ltac:(lia)) as (m & x & z & E & Hm).
    destruct (path_before m ts x z Hc E Hm) as (Hc' & Hm' & Ht' & Hz' & a & Ha & Hx).
    set (ts' := path_under bh (take m ts ++ [x])) in *.
    destruct (IH ts') as (k & pl & r & Hk & Hr & Hpath); [|done|].
    { rewrite E, !sum_list_with_app in En. change (repeat 0 z) with ([] ++ repeat 0 z) in En. rewrite sum_pad in En.
      assert (Es : sum_list ts' = sum_list (take m ts ++ [x])).
      { rewrite <- (take_drop (S m) ts'), Ht'. assert (Ed : drop (S m) ts' = repeat 0 (length ts' - S m)).
        { apply (nth_ext _ _ 0 0); [by rewrite length_drop, repeat_length|]. intros j _.
          rewrite nth_repeat, nth_lookup, lookup_drop, <- nth_lookup. apply Hz'. lia. }
        by rewrite Ed, sum_pad. }
      rewrite Es, sum_snoc. cbn in En. lia. }
    pose proof (plan_at_good k pl Hk) as Hg.
    assert (Hlen : length pl <= S m) by (eapply plan_short; [done|apply (g_stripped _ _ Hg)|by rewrite Hpath]).
    rewrite <- Hpath in Ha. destruct (child_exists pl r m a x Hr Hlen Ha Hx) as (i & Hi & Et).
    assert (Hki : plan_at execute (k ++ [i]) = Some (plan_from (record r) m)) by by rewrite plan_at_snoc, Hk.
    destruct (plan_runs _ (g_for _ _ (plan_at_good _ _ Hki))) as [r' Hr'].
    exists (k ++ [i]), (plan_from (record r) m), r'. split_and!; [done|done|]. rewrite (ra_path _ _ Hr'), Et, Hpath.
    assert (Em : take m ts' = take m ts).
    { apply (f_equal (take m)) in Ht'. rewrite take_take, Nat.min_l in Ht' by lia.
      by rewrite take_app_le, take_take, Nat.min_id in Ht' by (rewrite length_take; lia). }
    rewrite Em. transitivity (path_under bh ((take m ts ++ [S x]) ++ repeat 0 z)).
    + unfold path_under. by rewrite path_of_pad.
    + rewrite <- app_assoc, <- E. apply Hc.
Qed.

(** Every key's run is a complete path, and no two keys' runs the same. *)
Lemma key_run k pl :
  plan_at execute k = Some pl ->
  exists r, runs_as pl r /\ complete_path bh (map taken (record r))
    /\ path_of bh (map taken (record r)) = path_of bh (map taken pl).
Proof.
  intros Hk. pose proof (plan_at_good k pl Hk) as Hg. destruct (plan_runs pl (g_for _ _ Hg)) as [r Hr].
  exists r. split; [done|]. by apply record_complete; [apply (ra_slots _ _ Hr)|apply (ra_plan _ _ Hr)].
Qed.

Lemma key_of_path k1 k2 pl1 pl2 r1 r2 :
  plan_at execute k1 = Some pl1 -> runs_as pl1 r1 -> plan_at execute k2 = Some pl2 -> runs_as pl2 r2 ->
  map taken (record r1) = map taken (record r2) -> k1 = k2.
Proof.
  intros H1 R1 H2 R2 E. apply (plans_unique k1 k2 pl1 pl2 H1 H2).
  rewrite (ra_pad _ _ R1), (ra_pad _ _ R2) in E. eapply stripped_pad; [| |exact E];
    eapply g_stripped, plan_at_good; done.
Qed.
End Behavior.

(** C12: exploring a behavior reaches each of its complete paths exactly once: every
    path from its first choice to its end is the path of the run of exactly one
    prefix, which comes to the outcome at that path's end, and the run of every
    prefix is such a path and leaves its plan nowhere. *)
Theorem explores_every_path bh d :
  deep bh d ->
  (forall ts, complete_path bh ts -> exists k, forall k',
     (exists pl r o g, plan_at (executes d bh) k' = Some pl /\ executes d bh pl = Ran r o g
        /\ map taken (record r) = ts /\ o = (path_of bh ts).2) <-> k' = k)
  /\ (forall k pl, plan_at (executes d bh) k = Some pl -> exists r o,
        executes d bh pl = Ran r o [] /\ followed r = None /\ complete_path bh (map taken (record r))).
Proof.
  intros Hd. split.
  - intros ts Hc. destruct (path_reached bh d Hd ts Hc) as (k & pl & r & Hk & Hr & Ht). exists k. intros k'. split.
    + intros (pl' & r' & o & g & Hk' & He & Ht' & _). destruct (key_run bh d Hd k' pl' Hk') as (r2 & Hr2 & _).
      pose proof (ra_run _ _ _ _ Hr2) as E. rewrite He in E. injection E as <- _ _.
      eapply (key_of_path bh d Hd k' k pl' pl r' r); [done..|congruence].
    + intros ->. destruct (key_run bh d Hd k pl Hk) as (r2 & Hr2 & _ & Ep).
      rewrite <- (runs_as_det bh d pl r r2 Hr Hr2), Ht in Ep. rewrite Ep.
      exists pl, r, (path_of bh (map taken pl)).2, []. split_and!; [done|apply Hr|done|done].
  - intros k pl Hk. destruct (key_run bh d Hd k pl Hk) as (r & Hr & Hc & _). exists r, (path_of bh (map taken pl)).2.
    split_and!; [apply Hr|apply Hr|done].
Qed.

Lemma two_choices_deep : deep two_choices 5.
Proof.
  intros ts. vm_compute. lia.
Qed.

Lemma explores_every_path_witness :
  deep two_choices 5 /\ exists k, forall k',
     (exists pl r o g, plan_at (executes 5 two_choices) k' = Some pl /\ executes 5 two_choices pl = Ran r o g
        /\ map taken (record r) = [1; 1] /\ o = (path_of two_choices [1; 1]).2) <-> k' = k.
Proof.
  split; [exact two_choices_deep|]. destruct (explores_every_path two_choices 5 two_choices_deep) as [H _].
  apply H. split; [done|]. repeat constructor.
Defined.
