(* ===== verification/ExploreOutcomes.v ===== *)
(** * Exploring a behavior: what the result says

    An exploration that reached no bound tells the behavior's outcomes: each
    outcome its complete paths come to, once, with the number of paths that come to
    it. *)
From stdpp Require Import gmap.
From S2P Require Import Prelude Bytes Explore ExploreFacts ExploreQueue ExploreReference.
From S2P Require Import ExploreResults ExplorePaths.
Local Open Scope nat_scope.

(** ** Outcomes folded *)

Section Outcomes.
Variable Quote : bytes -> bytes.
Variable bh : behavior.
Variable d : nat.
Hypothesis Hdeep : deep bh d.
Abbreviation execute := (executes d bh).

(** The outcome a path comes to, as outcomes are told apart. *)
Definition comes_to (ts : list nat) : bytes := identity Quote (path_of bh ts).2.
Definition count_of (ident : bytes) (paths : list (list nat)) : nat :=
  length (filter (fun ts => comes_to ts = ident) paths).

(** The outcomes of the paths folded, each with its number of paths. *)
Record tally (outs : list ExploredOutcome) (paths : list (list nat)) : Prop := {
  y_distinct : NoDup (map (fun e => identity Quote (xOutcome e)) outs);
  y_count : Forall (fun e => Linearizations e = count_of (identity Quote (xOutcome e)) paths
                             /\ 0 < Linearizations e) outs;
  y_all : Forall (fun ts => comes_to ts ∈ map (fun e => identity Quote (xOutcome e)) outs) paths }.

(** What folding keeps besides. *)
Record folds (f : folded) (paths : list (list nat)) : Prop := {
  z_tally : tally (Outcomes (f_result f)) paths;
  z_reached : forall ident i, f_reached f !! ident = Some i
    <-> exists e, Outcomes (f_result f) !! i = Some e /\ identity Quote (xOutcome e) = ident;
  z_runs : Runs (f_result f) = length paths;
  z_bounds : Forall (fun h => h = bound_statement_orders) (BudgetsHit (f_result f));
  z_depth : f_depthHit f = false }.

Lemma count_snoc ident paths ts :
  count_of ident (paths ++ [ts]) = count_of ident paths + (if decide (comes_to ts = ident) then 1 else 0).
Proof.
  unfold count_of. rewrite filter_app, length_app, filter_cons, filter_nil. by case_decide.
Qed.

Lemma idents_none outs ident :
  (forall e, e ∈ outs -> identity Quote (xOutcome e) <> ident) -> ident ∉ map (fun e => identity Quote (xOutcome e)) outs.
Proof. intros H (e & -> & He)%list_elem_of_fmap. by apply (H e). Qed.

(** A new outcome, and one more path to an outcome. *)
Lemma tally_new outs paths ts e :
  tally outs paths -> xOutcome e = (path_of bh ts).2 -> Linearizations e = 1 ->
  comes_to ts ∉ map (fun e => identity Quote (xOutcome e)) outs -> tally (outs ++ [e]) (paths ++ [ts]).
Proof.
  intros [Y1 Y2 Y3] Ee El Hn. assert (Ei : identity Quote (xOutcome e) = comes_to ts) by (unfold comes_to; by rewrite Ee).
  split.
  - rewrite map_app. apply NoDup_app. split_and!; [done| |apply NoDup_singleton].
    intros x Hx ->%list_elem_of_singleton. by rewrite Ei in Hx.
  - apply Forall_app. split; [|constructor; [|done]].
    + apply Forall_forall. intros e' He'. rewrite Forall_forall in Y2. destruct (Y2 e' He') as [Hc Hp].
      rewrite count_snoc, decide_False; [by rewrite Nat.add_0_r|]. intros E. apply Hn. rewrite E.
      by apply (list_elem_of_fmap_2 (fun e => identity Quote (xOutcome e))).
    + rewrite Ei, El, count_snoc, decide_True by done. split; [|lia].
      assert (Hz : count_of (comes_to ts) paths = 0); [|by rewrite Hz].
      unfold count_of. rewrite filter_none; [done|]. eapply Forall_impl; [exact Y3|]. cbn. intros ts' Hin E.
      by rewrite E in Hin.
  - rewrite map_app. apply Forall_app. split.
    + eapply Forall_impl; [exact Y3|]. cbn. intros ts' Hin. apply elem_of_app. by left.
    + constructor; [|done]. apply elem_of_app. right. cbn. rewrite Ei. by left.
Qed.

Lemma tally_more outs paths ts i e g :
  tally outs paths -> outs !! i = Some e -> identity Quote (xOutcome e) = comes_to ts ->
  (forall x, xOutcome (g x) = xOutcome x /\ Linearizations (g x) = Linearizations x + 1) ->
  tally (alter g i outs) (paths ++ [ts]).
Proof.
  intros [Y1 Y2 Y3] Hi Ei Hg.
  assert (Em : map (fun e => identity Quote (xOutcome e)) (alter g i outs) = map (fun e => identity Quote (xOutcome e)) outs).
  { apply list_eq. intros j. rewrite !list_lookup_fmap. destruct (decide (i = j)) as [->|Hne].
    - rewrite list_lookup_alter_eq. destruct (outs !! j); [|done]. cbn. by destruct (Hg e0) as [-> _].
    - by rewrite list_lookup_alter_ne. }
  split; rewrite ?Em; [done| |].
  - apply Forall_lookup. intros j x Hx. rewrite Forall_lookup in Y2. rewrite count_snoc.
    destruct (decide (i = j)) as [->|Hne].
    + rewrite list_lookup_alter_eq, Hi in Hx. injection Hx as <-. destruct (Hg e) as [-> ->]. destruct (Y2 j e Hi) as [-> ?].
      rewrite decide_True by done. lia.
    + rewrite list_lookup_alter_ne in Hx by done. rewrite decide_False; [by rewrite Nat.add_0_r; apply (Y2 j)|].
      intros E. rewrite NoDup_alt in Y1. apply Hne, (Y1 i j (comes_to ts)); rewrite list_lookup_fmap.
      * rewrite Hi. by cbn; f_equal.
      * rewrite Hx. by cbn; f_equal.
  - apply Forall_app. split; [done|]. constructor; [|done]. rewrite <- Ei.
    eapply (list_elem_of_fmap_2 (fun e => identity Quote (xOutcome e))), list_elem_of_lookup_2, Hi.
Qed.

Lemma folds_none : folds no_fold [].
Proof. split; try done; [split; constructor|]. intros ident i. split; [done|]. by intros (e & He & _). Qed.

Lemma folds_run f paths r ts :
  folds f paths -> duplicate r = false -> depthHit r = false ->
  folds (fold_run f (length paths + 1) r (path_of bh ts).2 (comes_to ts) []) (paths ++ [ts]).
Proof.
  intros [Z1 Z2 Z3 Z4 Z5] Hdup Hdep. unfold fold_run. rewrite Hdup. cbn [negb].
  set (hits := if _ && _ then _ else _).
  assert (Hh : Forall (fun h => h = bound_statement_orders) hits).
  { subst hits. destruct (_ && _); [|done]. apply Forall_app. by repeat constructor. }
  destruct (f_reached f !! comes_to ts) as [i|] eqn:Er.
  - destruct (proj1 (Z2 _ _) Er) as (e & He & Ei).
    set (outs := alter _ i _). destruct (record_path _ _ _ _) as [trie w] eqn:Et.
    split; cbn [f_result f_reached f_depthHit Outcomes Runs BudgetsHit].
    + by eapply tally_more.
    + intros ident j. rewrite Z2. unfold outs. destruct (decide (i = j)) as [->|Hne].
      * rewrite list_lookup_alter_eq, He. cbn. split; intros (x & Hx & Ex); [injection Hx as <-|injection Hx as <-]; by eexists.
      * by rewrite list_lookup_alter_ne.
    + by rewrite length_app.
    + done.
    + by rewrite Z5, Hdep.
  - destruct (record_path _ _ _ _) as [trie w] eqn:Et.
    assert (Hn : comes_to ts ∉ map (fun e => identity Quote (xOutcome e)) (Outcomes (f_result f))).
    { intros (e & Ee & He)%list_elem_of_fmap. apply list_elem_of_lookup in He as [i Hi].
      rewrite (proj2 (Z2 (comes_to ts) i)) in Er; [done|]. by exists e. }
    split; cbn [f_result f_reached f_depthHit Outcomes Runs BudgetsHit].
    + by apply tally_new.
    + intros ident j. destruct (decide (ident = comes_to ts)) as [->|Hne].
      * rewrite lookup_insert_eq. split.
        -- intros [= <-]. eexists. split; [by apply list_lookup_middle|done].
        -- intros (e & He & Ei). f_equal. destruct (decide (j < length (Outcomes (f_result f)))) as [Hlt|Hge].
           ++ rewrite lookup_app_l in He by done. destruct Hn. rewrite <- Ei.
              by eapply (list_elem_of_fmap_2 (fun e => identity Quote (xOutcome e))), list_elem_of_lookup_2.
           ++ apply lookup_lt_Some in He. rewrite length_app in He. cbn in He. lia.
      * rewrite lookup_insert_ne, Z2 by done. split; intros (e & He & Ei); exists e; (split; [|done]).
        -- rewrite lookup_app_l; [done|by apply lookup_lt_Some in He].
        -- destruct (decide (j < length (Outcomes (f_result f)))) as [Hlt|Hge]; [by rewrite lookup_app_l in He|].
           rewrite lookup_app_r in He by lia. apply list_lookup_singleton_Some in He as [_ <-].
           by destruct Hne.
    + by rewrite length_app.
    + done.
    + by rewrite Z5, Hdep.
Qed.

(** Folding the runs of keys: their paths, none failing. *)
Definition key_path (k ts : list nat) : Prop :=
  exists pl r, plan_at execute k = Some pl /\ runs_as bh d pl r /\ map taken (record r) = ts.

Lemma fold_keys_folds ks pathsk f paths :
  Forall2 key_path ks pathsk -> folds f paths ->
  exists f', fold_keys Quote execute ks f (length paths) = Ok f' /\ folds f' (paths ++ pathsk).
Proof.
  intros Hk. revert f paths. induction Hk as [|k ts ks pathsk (pl & r & Hpl & Hr & Ht) _ IH]; intros f paths Hf.
  - exists f. by rewrite app_nil_r.
  - cbn [fold_keys]. rewrite Hpl. cbn [default from_option id]. rewrite (ra_run _ _ _ _ Hr), (ra_followed _ _ _ _ Hr).
    assert (Ep : path_of bh (map taken pl) = path_of bh ts).
    { destruct (key_run bh d Hdeep k pl Hpl) as (r' & Hr' & _ & E). rewrite <- Ht, <- E. by rewrite (runs_as_det bh d pl r r' Hr Hr'). }
    rewrite Ep. destruct (IH _ (paths ++ [ts]) (folds_run f paths r ts Hf (ra_duplicate _ _ _ _ Hr) (ra_depth _ _ _ _ Hr))) as (f' & Hf' & Hz).
    exists f'. rewrite length_app in Hf'. split; [exact Hf'|]. by rewrite <- app_assoc in Hz.
Qed.

(** ** The result *)

(** Sorting and the probabilities change neither outcomes nor counts. *)
Definition tag (e : ExploredOutcome) : Outcome * nat := (xOutcome e, Linearizations e).

Lemma insert_outcome_perm e l : insert_outcome Quote e l ≡ₚ e :: l.
Proof.
  induction l as [|x l IH]; [done|]. cbn [insert_outcome]. cbv zeta.
  match goal with |- (if ?c then _ else _) ≡ₚ _ => destruct c end; [done|].
  rewrite IH. constructor.
Qed.

Lemma sortOutcomes_perm l : sortOutcomes Quote l ≡ₚ l.
Proof.
  unfold sortOutcomes. enough (H : forall acc, fold_left (fun l o => insert_outcome Quote o l) l acc ≡ₚ acc ++ l) by apply H.
  induction l as [|x l IH]; intros acc; cbn [fold_left]; [by rewrite app_nil_r|].
  rewrite IH, insert_outcome_perm. apply Permutation_middle.
Qed.

Lemma probabilities_tag root l : map tag (setOutcomeProbabilities root l) = map tag l.
Proof.
  unfold setOutcomeProbabilities. cbv zeta. generalize (node_probabilities (length l) root) as v. intros v.
  apply list_eq. intros i. rewrite !list_lookup_fmap, list_lookup_imap. by destruct (l !! i).
Qed.

Lemma tally_tag outs outs' paths : tally outs paths -> map tag outs' ≡ₚ map tag outs -> tally outs' paths.
Proof.
  intros [Y1 Y2 Y3] Hp.
  assert (Hi : map (fun e => identity Quote (xOutcome e)) outs' ≡ₚ map (fun e => identity Quote (xOutcome e)) outs).
  { assert (E : forall l, map (fun e => identity Quote (xOutcome e)) l = map (fun t => identity Quote t.1) (map tag l))
      by (intros l; by rewrite map_map).
    rewrite !E. by apply Permutation_map. }
  split.
  - by rewrite Hi.
  - assert (E : forall l, Forall (fun e => Linearizations e = count_of (identity Quote (xOutcome e)) paths /\ 0 < Linearizations e) l
      <-> Forall (fun t => t.2 = count_of (identity Quote t.1) paths /\ 0 < t.2) (map tag l)) by (intros l; by rewrite Forall_map).
    rewrite E, Hp. by apply E.
  - eapply Forall_impl; [exact Y3|]. cbn. intros ts. by rewrite Hi.
Qed.

Lemma assemble_tally f beyond paths :
  folds f paths ->
  let x := assemble Quote f beyond in
  tally (Outcomes x) paths /\ Runs x = length paths
  /\ (bs "runs" ∈ BudgetsHit x <-> beyond = true).
Proof.
  intros [Z1 Z2 Z3 Z4 Z5] x. split_and!; [|done|].
  - eapply tally_tag; [exact Z1|]. unfold x, assemble. cbn [Outcomes]. rewrite sortOutcomes_perm.
    destruct (is_weighted _); [|done]. by rewrite probabilities_tag.
  - unfold x, assemble. cbn [BudgetsHit]. rewrite Z5, app_nil_r, elem_of_app. split.
    + intros [Hin|Hin]; [|by destruct beyond; [|apply not_elem_of_nil in Hin]].
      rewrite Forall_forall in Z4. apply Z4 in Hin. by vm_compute in Hin.
    + intros ->. right. by left.
Qed.

(** The keys of a list without repetition have the paths of one. *)
Lemma keys_paths ks :
  Forall (valid execute) ks -> NoDup ks ->
  exists paths, Forall2 key_path ks paths /\ NoDup paths /\ Forall (complete_path bh) paths.
Proof.
  induction 1 as [|k ks [pl Hpl] Hv IH]; intros Hnd; [exists []; by repeat constructor|].
  inversion Hnd as [|? ? Hk Hnd']; subst. destruct (IH Hnd') as (paths & H1 & H2 & H3).
  destruct (key_run bh d Hdeep k pl Hpl) as (r & Hr & Hc & _). exists (map taken (record r) :: paths).
  split_and!; [constructor; [by exists pl, r|done]| |by constructor].
  constructor; [|done]. intros Hin. apply list_elem_of_lookup in Hin as [i Hi].
  destruct (Forall2_lookup_r _ _ _ _ _ H1 Hi) as (k' & Hk' & pl' & r' & Hpl' & Hr' & Et).
  apply Hk. apply list_elem_of_lookup. exists i. rewrite Hk'. f_equal.
  by eapply (key_of_path bh d Hdeep k' k pl' pl r' r).
Qed.
End Outcomes.

(** C13: exploring a behavior within any runs budget succeeds, with at most that
    many runs, each of a path of its own, and says it reached the runs bound exactly
    when there were paths left; each outcome it lists comes with the number of the
    explored paths that come to it, and no outcome is listed twice or missing. So
    when the bound is not reached the outcomes are all the behavior's, and the
    counts those of all its complete paths. *)
Theorem explored_outcomes Quote bh d b :
  1 <= b_runs b -> deep bh d ->
  exists x paths, explore_sequentially Quote (executes d bh) b = Ok x
    /\ NoDup paths /\ Forall (complete_path bh) paths
    /\ Runs x = length paths /\ Runs x <= b_runs b
    /\ (bs "runs" ∈ BudgetsHit x <-> exists ts, complete_path bh ts /\ ts ∉ paths)
    /\ NoDup (map (fun e => identity Quote (xOutcome e)) (Outcomes x))
    /\ (forall ident, ident ∈ map (fun e => identity Quote (xOutcome e)) (Outcomes x)
         <-> exists ts, ts ∈ paths /\ identity Quote (path_of bh ts).2 = ident)
    /\ Forall (fun e => Linearizations e
         = length (filter (fun ts => identity Quote (path_of bh ts).2 = identity Quote (xOutcome e)) paths)) (Outcomes x).
Proof.
  intros Hr Hd. destruct (reference_keys Quote (executes d bh) b Hr) as (l & beyond & Ht & ->).
  pose proof (sorted_NoDup _ (t_sorted _ _ _ _ _ Ht)) as Hnd.
  destruct (keys_paths bh d Hd l (t_valid _ _ _ _ _ Ht) Hnd) as (paths & Hk & Hndp & Hc).
  destruct (fold_keys_folds Quote bh d Hd l paths no_fold [] Hk (folds_none Quote bh)) as (f & Hf & Hz).
  unfold keys_result. cbn [length app] in Hf, Hz. rewrite Hf. exists (assemble Quote f beyond), paths.
  destruct (assemble_tally Quote bh f beyond paths Hz) as ([Y1 Y2 Y3] & HR & HB).
  destruct (tree_full _ b l (.∈ l) beyond Ht) as [_ Hbeyond]; [done|].
  pose proof (Forall2_length _ _ _ Hk) as Hlen. pose proof (t_len _ _ _ _ _ Ht) as Hll.
  split_and!; [done|done|done|done|lia| |done| |].
  - rewrite HB, Hbeyond. split.
    + intros (k & [pl Hpl] & Hn). destruct (key_run bh d Hd k pl Hpl) as (r & Hrr & Hcr & _).
      exists (map taken (record r)). split; [done|]. intros Hin. apply list_elem_of_lookup in Hin as [i Hi].
      destruct (Forall2_lookup_r _ _ _ _ _ Hk Hi) as (k' & Hk' & pl' & r' & Hpl' & Hr' & Et).
      apply Hn. apply list_elem_of_lookup. exists i. rewrite Hk'. f_equal.
      by eapply (key_of_path bh d Hd k' k pl' pl r' r).
    + intros (ts & Hts & Hn). destruct (path_reached bh d Hd ts Hts) as (k & pl & r & Hpl & Hrr & Et).
      exists k. split; [by exists pl|]. intros Hin. apply list_elem_of_lookup in Hin as [i Hi].
      destruct (Forall2_lookup_l _ _ _ _ _ Hk Hi) as (ts' & Hts' & pl' & r' & Hpl' & Hr' & Et').
      rewrite Hpl in Hpl'. injection Hpl' as <-. rewrite (runs_as_det bh d pl r' r Hr' Hrr), Et in Et'. subst ts'.
      by eapply Hn, list_elem_of_lookup_2.
  - intros ident. split.
    + intros (e & -> & He)%list_elem_of_fmap. rewrite Forall_forall in Y2. destruct (Y2 e He) as [Hcnt Hpos].
      rewrite Hcnt in Hpos. unfold count_of, comes_to in Hpos.
      destruct (filter _ paths) as [|ts ?] eqn:E; [cbn in Hpos; lia|]. exists ts.
      assert (Hin : ts ∈ ts :: l0) by by left. rewrite <- E in Hin. by apply list_elem_of_filter in Hin as [??].
    + intros (ts & Hts & <-). rewrite Forall_forall in Y3. by apply Y3.
  - eapply Forall_impl; [exact Y2|]. by intros e [? _].
Qed.

Lemma explored_outcomes_witness :
  exists x, explore_sequentially id (executes 5 two_choices) budget3 = Ok x /\ Runs x <= 3.
Proof.
  destruct (explored_outcomes id two_choices 5 budget3) as (x & paths & Hx & _ & _ & _ & Hr & _);
    [cbn; lia|exact two_choices_deep|].
  exists x. by split.
Defined.
