(* ===== verification/Choice.v ===== *)
(** * Choice lines

    Models how a choice of a run is spelled and read back: [ChoiceTaken.String] and
    [FormatChoices] of [internal/exec/runtime/explore.go], and [ParseChoice], its
    label scanner and the splitting of a line of [replay.go]. The number text of
    [strconv] ([FormatWeight], [ParseFloat]) is a parameter. *)
From Stdlib Require Import Floats.SpecFloat.
From S2P Require Import Prelude Bytes Source Integer Explore.
Local Open Scope Z_scope.

(** ** [strings] *)

(** [slices.Index]. *)
Definition slices_Index (l : list bytes) (x : bytes) : option nat := fst <$> list_find (eq x) l.

(** [strings.CutPrefix]. *)
Definition cut_prefix (s p : bytes) : option bytes := if has_prefix s p then Some (drop (length p) s) else None.

(** ** Marks *)

Definition markChoices : bytes := bs "; ".
Definition markFirstOf : bytes := bs " first of ".
Definition markArrow : bytes := bs " -> ".
Definition markList : bytes := bs ", ".
Definition markWhere : bytes := bs ": ".
Definition markAmong : bytes := bs " among ".
Definition markWeight : bytes := bs " p=".
Definition markDrew : bytes := bs " drew ".
Definition linePunctuation : list bytes :=
  [markChoices; markFirstOf; markArrow; markList; markWhere; markAmong; markWeight; markDrew].

Definition dispatchWherePrefix : bytes := bs "events at t=".
Definition stepWherePrefix : bytes := bs "at t=".
Definition entryStepWherePrefix : bytes := bs "entry at t=".
Definition enteringWherePrefix : bytes := bs "entering ".
Definition forkWherePrefix : bytes := bs "fork ".
Definition exitingWherePrefix : bytes := bs "exiting ".
Definition statementsWherePrefix : bytes := bs "statements in ".
Definition guardOrderWherePrefix : bytes := bs "verdict of ".
Definition resultOrderWherePrefix : bytes := bs "result of ".

(** ** Labels *)

Definition labelNeedsQuoting (name : bytes) : bool :=
  match name with
  | [] => true
  | c :: _ => (c =? "'"%ch) || has_prefix name (bs "step ") || negb (beq (TrimSpace name) name)
  end
  || existsb (contains name) linePunctuation || existsb (fun c => elem c [NL; CR]) name.

Definition choiceLabel (name : bytes) : bytes :=
  if labelNeedsQuoting name then UnrestrictedNameText name else name.
Definition choiceLabels (names : list bytes) : bytes := join markList (map choiceLabel names).

Definition nameMayBegin (before : bytes) : bool :=
  match before with [] => true | _ => existsb (has_suffix before) linePunctuation end.

(** The offset, in the text after a quote, of the quote closing it. *)
Fixpoint closing_quote (t : bytes) : option nat :=
  match t with
  | [] => None
  | c :: t' =>
      if c =? "\"%ch then match t' with [] => None | _ :: t'' => (fun i => S (S i)) <$> closing_quote t'' end
      else if c =? "'"%ch then Some O
      else S <$> closing_quote t'
  end.
Definition closingQuote (text : bytes) (open : nat) : option nat :=
  (fun i => (open + 1 + i)%nat) <$> closing_quote (drop (open + 1) text).

(** The scan of [indexMark] at [rest], [before] behind it; [skip] bytes of a quoted
    name are left. *)
Fixpoint index_mark (marks : list bytes) (before : bytes) (skip : nat) (rest : bytes) : option (nat * bytes) :=
  match rest with
  | [] => None
  | c :: t =>
      match skip with
      | S skip' => index_mark marks (before ++ [c]) skip' t
      | O =>
          if (c =? "'"%ch) && nameMayBegin before then
            match closing_quote t with
            | None => None
            | Some k => index_mark marks (before ++ [c]) (S k) t
            end
          else match find (has_prefix rest) marks with
               | Some m => Some (length before, m)
               | None => index_mark marks (before ++ [c]) O t
               end
      end
  end.
Definition indexMark (text : bytes) (marks : list bytes) : option (nat * bytes) := index_mark marks [] O text.

Definition readLabel (text : bytes) (marks : list bytes) : option (bytes * bytes * bytes) :=
  if negb (has_prefix text ["'"%ch]) then
    match indexMark text marks with
    | None => Some (text, [], [])
    | Some (at_, mark) => Some (take at_ text, mark, drop (at_ + length mark) text)
    end
  else
    match closingQuote text 0 with
    | None => None
    | Some e =>
        let name := StringValue (take (e + 1) text) in
        let after := drop (e + 1) text in
        match after with
        | [] => Some (name, [], [])
        | _ => m ← find (has_prefix after) marks; Some (name, m, drop (length m) after)
        end
    end.

(** The loops of [splitChoices] and [splitLabels]: each turn consumes a mark. *)
Fixpoint split_choices (fuel : nat) (line : bytes) : list bytes :=
  match fuel with
  | O => [line]
  | S fuel' =>
      match indexMark line [markChoices] with
      | None => [line]
      | Some (at_, _) => take at_ line :: split_choices fuel' (drop (at_ + length markChoices) line)
      end
  end.
Definition splitChoices (line : bytes) : list bytes := split_choices (length line) line.

Fixpoint split_labels (fuel : nat) (text sep : bytes) : option (list bytes) :=
  '(name, mark, after) ← readLabel text [sep];
  match mark, fuel with
  | [], _ => Some [name]
  | _, O => None
  | _, S fuel' => names ← split_labels fuel' after sep; Some (name :: names)
  end.
Definition splitLabels (text sep : bytes) : option (list bytes) := split_labels (length text) text sep.

(** ** Spelling *)

Definition ChoiceKind_String (k : ChoiceKind) : bytes :=
  bs match k with
     | ChoiceTokenOrder => "token order"
     | ChoiceDecisionBranch => "decision branch"
     | choiceWriteOrder => "write order"
     | ChoiceTransition => "transition"
     | ChoiceRegionOrder => "region order"
     | ChoiceDueOrder => "due order"
     | choiceDispatchOrder => "dispatch order"
     | choiceEntryOrder => "entry order"
     | choiceExitOrder => "exit order"
     | choiceStepOrder => "step order"
     | choiceEntryStep => "entry step"
     | choiceStatementOrder => "statement order"
     | choiceGuardOrder => "guard result"
     end%string.

Definition ChoiceTaken_weighted (c : ChoiceTaken) : bool :=
  (length c.(cWeights) =? c.(cAlternatives))%nat && (0 <? c.(cAlternatives))%nat.

Section Spelling.
(** [strconv.FormatFloat(w, 'g', -1, 64)]. *)
Variable FormatWeight : spec_float -> bytes.

Definition weightedLabels (among : list bytes) (weights : list spec_float) : bytes :=
  join markList (zip_with (fun alt w => choiceLabel alt ++ markWeight ++ FormatWeight w) among weights).

Definition weightedTail (c : ChoiceTaken) : bytes :=
  if negb (ChoiceTaken_weighted c) || negb (length c.(cAmong) =? length c.(cWeights))%nat then []
  else markAmong ++ weightedLabels c.(cAmong) c.(cWeights)
       ++ (if c.(cDrawn) then markDrew ++ FormatWeight c.(cDrew) else []).

Definition step_text (n : Z) : bytes := bs "step " ++ decimal_text n ++ markWhere.
Definition order_text (c : ChoiceTaken) : bytes := choiceLabel c.(cTook) ++ markFirstOf ++ choiceLabels c.(cAmong).
Definition where_text (c : ChoiceTaken) : bytes := choiceLabel c.(cWhere) ++ markWhere ++ order_text c.
Definition branch_text (c : ChoiceTaken) : bytes :=
  choiceLabel c.(cWhere) ++ markArrow ++ choiceLabel c.(cTook) ++ weightedTail c.

Definition ChoiceTaken_String (c : ChoiceTaken) : bytes :=
  match c.(cKind) with
  | ChoiceTokenOrder => step_text c.(cStep) ++ order_text c
  | ChoiceDecisionBranch => step_text c.(cStep) ++ branch_text c
  | ChoiceTransition => branch_text c
  | choiceStatementOrder | choiceGuardOrder =>
      if 0 <? c.(cStep) then step_text c.(cStep) ++ where_text c else where_text c
  | ChoiceRegionOrder | ChoiceDueOrder | choiceDispatchOrder | choiceEntryOrder | choiceExitOrder
  | choiceStepOrder | choiceEntryStep => where_text c
  | choiceWriteOrder => ChoiceKind_String c.(cKind) ++ markArrow ++ choiceLabel c.(cTook)
  end.

Definition FormatChoices (choices : list ChoiceTaken) : bytes :=
  match choices with [] => bs "no choice points" | _ => join (bs "; ") (map ChoiceTaken_String choices) end.
End Spelling.

(** ** Reading *)

Definition unclosedQuote : bytes := bs "a quoted name needs its closing quote, followed by the line's punctuation".
Definition notAChoice : bytes := bs "not a token order, branch, transition, region, due or dispatch order".

(** A choice, or the reason of the [ChoiceParseError]. *)
Abbreviation parsed := (result bytes ChoiceTaken).

Definition not_among (took : bytes) (among : list bytes) : bytes :=
  choiceLabel took ++ bs " is not among " ++ choiceLabels among.

(** The kind of an order outside a step, by where it was made. *)
Definition order_kind (first : bytes) : ChoiceKind :=
  if has_prefix first (bs "t=") then ChoiceDueOrder
  else if has_prefix first dispatchWherePrefix then choiceDispatchOrder
  else if has_prefix first enteringWherePrefix || has_prefix first forkWherePrefix then choiceEntryOrder
  else if has_prefix first exitingWherePrefix then choiceExitOrder
  else if has_prefix first entryStepWherePrefix then choiceEntryStep
  else if has_prefix first statementsWherePrefix then choiceStatementOrder
  else if has_prefix first guardOrderWherePrefix then choiceGuardOrder
  else if has_prefix first resultOrderWherePrefix then choiceStatementOrder
  else if has_prefix first stepWherePrefix then choiceStepOrder
  else ChoiceRegionOrder.

Definition new_choice (k : ChoiceKind) (step : Z) (where_ took : bytes) : ChoiceTaken :=
  {| cKind := k; cStep := step; cWhere := where_; cAlternatives := 0; cTaken := 0; cAmong := [];
     cTook := took; cWeights := []; cDrew := S754_zero false; cDrawn := false |}.

(** Its alternatives, the one taken among them, and their weights. *)
Definition set_among (c : ChoiceTaken) (among : list bytes) (weights : list spec_float) (drew : option spec_float) : parsed :=
  match slices_Index among c.(cTook) with
  | None => Err (not_among c.(cTook) among)
  | Some i =>
      Ok {| cKind := c.(cKind); cStep := c.(cStep); cWhere := c.(cWhere); cAlternatives := length among; cTaken := i;
            cAmong := among; cTook := c.(cTook); cWeights := weights;
            cDrew := default (S754_zero false) drew; cDrawn := bool_decide (is_Some drew) |}
  end.

Definition read_among (c : ChoiceTaken) (after : bytes) : parsed :=
  match splitLabels after markList with None => Err unclosedQuote | Some among => set_among c among [] None end.

Definition parseOrderChoice (step : Z) (first mark after : bytes) : parsed :=
  if beq mark markWhere then
    if (0 <? step) && negb (has_prefix first statementsWherePrefix) &&
       negb (has_prefix first guardOrderWherePrefix) && negb (has_prefix first resultOrderWherePrefix)
    then Err (bs "a step's order names the token, guard, or result first: step <n>: <where>: <took> first of …")
    else
      match readLabel after [markFirstOf] with
      | None => Err unclosedQuote
      | Some (took, mark, after) =>
          if beq mark [] then Err notAChoice else read_among (new_choice (order_kind first) step first took) after
      end
  else if step =? 0 then Err (bs "an order outside a step needs where it was made: <where>: <took> first of …")
  else read_among (new_choice ChoiceTokenOrder step [] first) after.

Section Reading.
(** [strconv.ParseFloat(text, 64)]. *)
Variable ParseFloat : bytes -> option spec_float.

Definition weighted_shape : bytes :=
  bs "a weighted branch lists every alternative with its weight: … among <alt> p=<w>, <alt> p=<w> drew <u>".

(** The loop of [parseWeighted], the alternatives and weights read so far. *)
Fixpoint parse_weighted (fuel : nat) (c : ChoiceTaken) (among : list bytes) (weights : list spec_float) (text : bytes) : parsed :=
  match readLabel text [markWeight] with
  | None => Err unclosedQuote
  | Some (alt, mark, rest) =>
      if beq mark [] then Err weighted_shape
      else
        let '(number, sep, rest) :=
          match indexMark rest [markList; markDrew] with
          | Some (at_, m) => (take at_ rest, m, drop (at_ + length m) rest)
          | None => (rest, [], rest)
          end in
        match ParseFloat number with
        | None => Err (bs "a weight is a number: <alt> p=<w>")
        | Some w =>
            let among := among ++ [alt] in
            let weights := weights ++ [w] in
            if beq sep markList then
              match fuel with O => Err weighted_shape | S fuel' => parse_weighted fuel' c among weights rest end
            else if beq sep markDrew then
              match ParseFloat rest with
              | Some u =>
                  if SFleb (S754_zero false) u && SFltb u (f64 1 0) then set_among c among weights (Some u)
                  else Err (bs "the draw selecting a weighted branch is a number in [0, 1): … drew <u>")
              | None => Err (bs "the draw selecting a weighted branch is a number in [0, 1): … drew <u>")
              end
            else set_among c among weights None
        end
  end.
Definition parseWeighted (c : ChoiceTaken) (text : bytes) : parsed := parse_weighted (length text) c [] [] text.

Definition parseTransitionChoice (step : Z) (first after : bytes) : parsed :=
  match readLabel after [markAmong] with
  | None => Err unclosedQuote
  | Some (took, mark, after) =>
      if beq first [] || beq took [] then Err (bs "a branch or transition needs both sides of ->")
      else
        let c := new_choice (if 0 <? step then ChoiceDecisionBranch else ChoiceTransition) step first took in
        if beq mark markAmong then parseWeighted c after else Ok c
  end.

(** The step a line opens with, and the rest of it. *)
Definition read_step (text : bytes) : result bytes (Z * bytes) :=
  match cut_prefix text (bs "step ") with
  | None => Ok (0, text)
  | Some after =>
      let '(digits, tail, found) := cut after markWhere in
      match strconv_ParseInt digits with
      | Some n => if found && (1 <=? n) then Ok (n, tail)
                  else Err (bs "step needs a positive number and a colon: step <n>: …")
      | None => Err (bs "step needs a positive number and a colon: step <n>: …")
      end
  end.

Definition ParseChoice (text : bytes) : parsed :=
  match read_step (TrimSpace text) with
  | Err e => Err e
  | Ok (step, rest) =>
      match readLabel rest [markFirstOf; markArrow; markWhere] with
      | None => Err unclosedQuote
      | Some (first, mark, after) =>
          if beq mark markFirstOf || beq mark markWhere then parseOrderChoice step first mark after
          else if beq mark markArrow then parseTransitionChoice step first after
          else Err notAChoice
      end
  end.
End Reading.
