(* ===== verification/ChoiceScan.v ===== *)
(** * Choice lines: scanning

    A label is scanned to its end wherever a line may put it: the names a line reads
    back ([clean]), how the marks of the grammar overlap, and what [indexMark],
    [readLabel], [splitLabels] and [TrimSpace] do on spelled text. *)
From Stdlib Require Import Floats.SpecFloat.
From S2P Require Import Prelude Bytes Source SourceFacts Integer IntegerFacts Explore Choice.
Local Open Scope Z_scope.

(** ** Names a line reads back *)

(** A plain name that ends as a mark does but for its space, that begins as one
    does before a quote, or that is the word opening a step, runs into the line's
    punctuation: [labelNeedsQuoting] does not see it. *)
Definition open_ended (name : bytes) : bool := existsb (fun m => has_suffix name (removelast m)) linePunctuation.
Definition begins_open (name : bytes) : bool := existsb (fun m => has_prefix name (tail m ++ bs "'")) linePunctuation.
Definition plain_name (name : bytes) : bool :=
  negb (labelNeedsQuoting name) && negb (open_ended name) && negb (begins_open name) && negb (beq name (bs "step")).
Definition clean (name : bytes) : Prop := labelNeedsQuoting name = true \/ plain_name name = true.

(** ** Marks overlap nowhere *)

(** Neither text goes on otherwise than the other. *)
Definition compatible (s t : bytes) : bool := has_prefix s t || has_prefix t s.

Lemma compatible_app s t u v : s ++ u = t ++ v -> compatible s t = true.
Proof.
  unfold compatible. intros [(k & -> & _)|(k & -> & _)]%app_eq_inv; by rewrite has_prefix_app, ?orb_true_r.
Qed.

Lemma marks_apart m m' : m ∈ linePunctuation -> m' ∈ linePunctuation -> compatible m m' = true -> m = m'.
Proof.
  intros Hm Hm'. assert (H : forallb (fun a => forallb (fun b => negb (compatible a b) || beq a b) linePunctuation) linePunctuation = true)
    by (vm_compute; reflexivity).
  rewrite forallb_forall in H. setoid_rewrite forallb_forall in H.
  specialize (H m (proj1 (list_elem_of_In _ _) Hm) m' (proj1 (list_elem_of_In _ _) Hm')).
  intros Hc. rewrite Hc in H. by apply beq_true in H.
Qed.

(** The end of a mark that begins another is its last byte. *)
Lemma mark_tails m m0 k :
  m ∈ linePunctuation -> m0 ∈ linePunctuation -> (0 < k)%nat -> (S k < length m)%nat -> compatible (drop k m) m0 = false.
Proof.
  intros Hm Hm0 Hk Hl.
  assert (H : forallb (fun a => forallb (fun b => forallb (fun k => negb (compatible (drop k a) b)) (seq 1 (length a - 2))) linePunctuation) linePunctuation = true)
    by (vm_compute; reflexivity).
  rewrite forallb_forall in H. specialize (H m (proj1 (list_elem_of_In _ _) Hm)). rewrite forallb_forall in H.
  specialize (H m0 (proj1 (list_elem_of_In _ _) Hm0)). rewrite forallb_forall in H.
  specialize (H k ltac:(apply in_seq; lia)). by apply negb_true_iff in H.
Qed.

(** The beginning of a mark that ends another is its first byte. *)
Lemma mark_heads m m0 k :
  m ∈ linePunctuation -> m0 ∈ linePunctuation -> (1 < k)%nat -> (k < length m)%nat ->
  compatible (rev (take k m)) (rev m0) = false.
Proof.
  intros Hm Hm0 Hk Hl.
  assert (H : forallb (fun a => forallb (fun b => forallb (fun k => negb (compatible (rev (take k a)) (rev b))) (seq 2 (length a - 2))) linePunctuation) linePunctuation = true)
    by (vm_compute; reflexivity).
  rewrite forallb_forall in H. specialize (H m (proj1 (list_elem_of_In _ _) Hm)). rewrite forallb_forall in H.
  specialize (H m0 (proj1 (list_elem_of_In _ _) Hm0)). rewrite forallb_forall in H.
  specialize (H k ltac:(apply in_seq; lia)). by apply negb_true_iff in H.
Qed.

Lemma mark_shape m : m ∈ linePunctuation -> exists c t, m = c :: t /\ t <> [] /\ c <> "'"%ch /\ 0 <= c < 128.
Proof.
  intros Hm. unfold linePunctuation in Hm.
  repeat (apply elem_of_cons in Hm as [-> | Hm]; [vm_compute; do 2 eexists; split_and!; (reflexivity || discriminate)|]).
  by apply elem_of_nil in Hm.
Qed.

(** ** Scanning *)

(** What may follow a label: nothing, or a mark. *)
Definition marked (rest : bytes) : Prop := rest = [] \/ exists m r, m ∈ linePunctuation /\ rest = m ++ r.

Lemma contains_app u m v : contains (u ++ m ++ v) m = true.
Proof.
  unfold contains. apply bool_decide_eq_true. induction u as [|c u IH]; cbn [app].
  - exists 0%nat. destruct (m ++ v) as [|d t] eqn:E; cbn [index]; rewrite <- ?E.
    + by rewrite (proj2 (has_prefix_spec (m ++ v) m)) by eauto.
    + by rewrite (proj2 (has_prefix_spec (m ++ v) m)) by eauto.
  - destruct IH as [i Hi]. cbn [index]. case_match; [eauto|]. rewrite Hi. cbn. eauto.
Qed.

Lemma plain_no_mark name m u v : plain_name name = true -> m ∈ linePunctuation -> name <> u ++ m ++ v.
Proof.
  unfold plain_name. rewrite !andb_true_iff, !negb_true_iff. intros [[[Hn _] _] _] Hm ->.
  unfold labelNeedsQuoting in Hn. apply orb_false_iff in Hn as [Hn _]. apply orb_false_iff in Hn as [_ Hn].
  assert (E : existsb (contains (u ++ m ++ v)) linePunctuation = true); [|by rewrite E in Hn].
  apply existsb_exists. exists m. split; [by apply list_elem_of_In|apply contains_app].
Qed.

(** No mark begins inside a plain name. *)
Lemma plain_inside name u w rest m :
  plain_name name = true -> name = u ++ w -> w <> [] -> marked rest -> m ∈ linePunctuation -> has_prefix (w ++ rest) m = false.
Proof.
  intros Hp -> Hw Hr Hm. destruct (has_prefix (w ++ rest) m) eqn:E; [|done]. exfalso.
  apply has_prefix_spec in E as [t [(k & -> & _)|(k & -> & ->)]%app_eq_inv].
  { by apply (plain_no_mark _ m u k Hp Hm). }
  destruct k as [|c k].
  { rewrite app_nil_r in Hm. by apply (plain_no_mark _ w u [] Hp Hm); rewrite app_nil_r. }
  assert (0 < length w)%nat by (destruct w; [done|cbn; lia]). destruct k as [|d k].
  - unfold plain_name in Hp. rewrite !andb_true_iff, !negb_true_iff in Hp. destruct Hp as [[[_ Ho] _] _].
    assert (Hop : open_ended (u ++ w) = true); [|by rewrite Hop in Ho].
    apply existsb_exists. exists (w ++ [c]). split; [by apply list_elem_of_In|].
    rewrite removelast_last. apply has_suffix_spec. by exists u.
  - destruct Hr as [Hr|(m0 & r & Hm0 & Hr)]; [done|].
    pose proof (mark_tails _ m0 (length w) Hm Hm0 ltac:(lia) ltac:(rewrite length_app; cbn; lia)) as Hc.
    rewrite drop_app_length in Hc. by rewrite (compatible_app _ _ _ _ Hr) in Hc.
Qed.

(** No name is taken to begin at a quote inside a plain name. *)
Lemma plain_quote before name w v :
  plain_name name = true -> name = w ++ "'"%ch :: v -> w <> [] -> nameMayBegin before = true -> nameMayBegin (before ++ w) = false.
Proof.
  intros Hp -> Hw Hb. destruct (nameMayBegin (before ++ w)) eqn:E; [|done]. exfalso.
  unfold nameMayBegin in E. destruct (before ++ w) as [|c t] eqn:Ebw; [by apply app_nil in Ebw as [_ ->]|]. rewrite <- Ebw in E. clear c t Ebw.
  apply existsb_exists in E as (m & Hm%list_elem_of_In & [t Ht]%has_suffix_spec).
  apply app_eq_inv in Ht as [(k & -> & ->)|(k & -> & ->)].
  2:{ apply (plain_no_mark _ m k ("'"%ch :: v) Hp Hm). by rewrite <- app_assoc. }
  destruct k as [|c k].
  { by apply (plain_no_mark _ w [] ("'"%ch :: v) Hp Hm). }
  destruct k as [|d k].
  - unfold plain_name in Hp. rewrite !andb_true_iff, !negb_true_iff in Hp. destruct Hp as [[_ Ho] _].
    assert (Hop : begins_open (w ++ "'"%ch :: v) = true); [|by rewrite Hop in Ho].
    apply existsb_exists. exists ([c] ++ w). split; [by apply list_elem_of_In|].
    apply has_prefix_spec. exists v. cbn [tail app]. by rewrite <- app_assoc.
  - unfold nameMayBegin in Hb. destruct (t ++ c :: d :: k) as [|x y] eqn:Eb; [by destruct t|]. rewrite <- Eb in Hb.
    apply existsb_exists in Hb as (m0 & Hm0%list_elem_of_In & [b Hb]%has_suffix_spec).
    assert (0 < length w)%nat by (destruct w; [done|cbn; lia]).
    pose proof (mark_heads _ m0 (length (c :: d :: k)) Hm Hm0 ltac:(cbn; lia) ltac:(rewrite length_app; lia)) as Hc.
    rewrite take_app_length in Hc. apply (f_equal (@rev Z)) in Hb. rewrite !rev_app_distr in Hb.
    by rewrite (compatible_app _ _ _ _ Hb) in Hc.
Qed.

Lemma no_mark_find (s : bytes) M : (forall m, m ∈ M -> has_prefix s m = false) -> find (has_prefix s) M = None.
Proof.
  induction M as [|m M IH]; intros H; [done|]. cbn [find]. rewrite H by left. apply IH. intros m' Hm'. apply H. by right.
Qed.

Lemma index_skip M before u r : index_mark M before (length u) (u ++ r) = index_mark M (before ++ u) 0 r.
Proof.
  revert before. induction u as [|c u IH]; intros before; cbn [length app index_mark]; [by rewrite app_nil_r|].
  rewrite IH. by rewrite <- app_assoc.
Qed.

(** The quote closing a quoted name is the one it was written with. *)
Definition escaped (name : bytes) : bytes := concat (map (escape_byte "'"%ch) name).

Lemma closing_byte c t :
  closing_quote (escape_byte "'"%ch c ++ t) = (fun i => length (escape_byte "'"%ch c) + i)%nat <$> closing_quote t.
Proof.
  assert (Hb : forall x, closing_quote (["\"%ch; x] ++ t) = (fun i => 2 + i)%nat <$> closing_quote t) by done.
  unfold escape_byte. destruct ((c =? "'"%ch) || (c =? "\"%ch)) eqn:E; [apply Hb|].
  repeat case_match; try apply Hb. apply orb_false_iff in E as [E1 E2]. cbn [app closing_quote]. by rewrite E1, E2.
Qed.

Lemma closing_escaped name r : closing_quote (escaped name ++ "'"%ch :: r) = Some (length (escaped name)).
Proof.
  unfold escaped. induction name as [|c name IH]; [done|]. cbn [map concat].
  by rewrite <- app_assoc, length_app, closing_byte, IH.
Qed.

Lemma choiceLabel_plain name : plain_name name = true -> choiceLabel name = name.
Proof.
  unfold plain_name, choiceLabel. rewrite !andb_true_iff, !negb_true_iff. by intros [[[-> _] _] _].
Qed.

Lemma choiceLabel_quoted name : labelNeedsQuoting name = true -> choiceLabel name = "'"%ch :: escaped name ++ ["'"%ch].
Proof. unfold choiceLabel. by intros ->. Qed.

Lemma plain_head name : plain_name name = true -> exists c t, name = c :: t /\ c <> "'"%ch.
Proof.
  unfold plain_name, labelNeedsQuoting. destruct name as [|c t]; [done|]. intros H. exists c, t. split; [done|].
  intros ->. done.
Qed.

(** Scanning passes over a label. *)
Lemma scan_label M before name rest :
  M ⊆ linePunctuation -> nameMayBegin before = true -> clean name -> marked rest ->
  index_mark M before 0 (choiceLabel name ++ rest) = index_mark M (before ++ choiceLabel name) 0 rest.
Proof.
  intros HM Hb [Hq|Hp] Hr.
  - rewrite (choiceLabel_quoted name Hq). cbn [app index_mark]. rewrite Hb. cbn [andb Z.eqb Pos.eqb].
    change (("'"%ch =? "'"%ch)) with true. cbn [andb]. rewrite <- app_assoc. cbn [app]. rewrite closing_escaped.
    change ("'"%ch :: rest) with (["'"%ch] ++ rest). rewrite app_assoc.
    replace (S (length (escaped name))) with (length (escaped name ++ ["'"%ch])) by (rewrite length_app; cbn; lia).
    rewrite index_skip. by rewrite <- app_assoc.
  - rewrite (choiceLabel_plain name Hp).
    assert (H : forall w u, name = u ++ w -> index_mark M (before ++ u) 0 (w ++ rest) = index_mark M (before ++ u ++ w) 0 rest).
    { induction w as [|c w IH]; intros u Hu; [by rewrite app_nil_r|]. cbn [app index_mark].
      assert (Hc : (c =? "'"%ch) && nameMayBegin (before ++ u) = false).
      { destruct (Z.eqb_spec c "'"%ch) as [->|]; [|done]. cbn [andb].
        apply (plain_quote before name u w Hp Hu); [|done]. intros ->.
        destruct (plain_head name Hp) as (c & t & E & Hc). rewrite E in Hu. cbn in Hu. by injection Hu as ->. }
      rewrite Hc, no_mark_find.
      - specialize (IH (u ++ [c])). rewrite app_assoc in IH. rewrite IH by by rewrite <- app_assoc. by rewrite <- !app_assoc.
      - intros m Hm. apply (plain_inside name u (c :: w) rest m Hp Hu); [done..|by apply HM]. }
    specialize (H name [] eq_refl). by rewrite app_nil_r in H.
Qed.

(** It passes over text that begins no mark and no name, *)
Lemma scan_text M before u rest :
  Forall (fun c => c <> "'"%ch /\ forall m t, m ∈ M -> m <> c :: t) u -> ~ [] ∈ M ->
  index_mark M before 0 (u ++ rest) = index_mark M (before ++ u) 0 rest.
Proof.
  intros Hu HM. revert before. induction Hu as [|c u [Hc Hm] Hu IH]; intros before; [by rewrite app_nil_r|].
  cbn [app index_mark]. rewrite (proj2 (Z.eqb_neq _ _)) by done. cbn [andb]. rewrite no_mark_find.
  - rewrite IH. by rewrite <- app_assoc.
  - intros m Hin. destruct m as [|d m]; [done|]. cbn [has_prefix].
    rewrite (proj2 (Z.eqb_neq _ _)); [done|]. intros ->. by apply (Hm (d :: m) m Hin).
Qed.

Lemma find_mark M m r : M ⊆ linePunctuation -> m ∈ M -> find (has_prefix (m ++ r)) M = Some m.
Proof.
  intros HM Hm. destruct (find (has_prefix (m ++ r)) M) as [m'|] eqn:Ef.
  - apply find_some in Ef as [Hm'%list_elem_of_In [t' Ht']%has_prefix_spec]. f_equal. symmetry.
    apply marks_apart; [by apply HM..|]. by apply (compatible_app _ _ r t').
  - apply (List.find_none _ _) with (x := m) in Ef; [by rewrite has_prefix_app in Ef|by apply list_elem_of_In].
Qed.

(** and stops at a mark. *)
Lemma scan_mark M before m r :
  M ⊆ linePunctuation -> m ∈ M -> index_mark M before 0 (m ++ r) = Some (length before, m).
Proof.
  intros HM Hm. pose proof (find_mark M m r HM Hm) as Hf. destruct (mark_shape m (HM m Hm)) as (c & t & Em & _ & Hc & _).
  rewrite Em in *. cbn [app index_mark] in *. rewrite (proj2 (Z.eqb_neq _ _)) by done. cbn [andb]. by rewrite Hf.
Qed.

(** ** Labels *)

Lemma nil_not_mark : ~ [] ∈ linePunctuation.
Proof. intros H. by destruct (mark_shape [] H) as (c & t & E & _). Qed.

Lemma mark_marked m r : m ∈ linePunctuation -> marked (m ++ r).
Proof. intros Hm. right. by exists m, r. Qed.

Lemma indexMark_label M name m r :
  M ⊆ linePunctuation -> clean name -> m ∈ M -> indexMark (choiceLabel name ++ m ++ r) M = Some (length (choiceLabel name), m).
Proof.
  intros HM Hn Hm. unfold indexMark. rewrite scan_label; [|done..|by apply mark_marked, HM]. by rewrite scan_mark.
Qed.

(** A quoted name up to its quote. *)
Lemma quoted_read name rest :
  labelNeedsQuoting name = true ->
  has_prefix (choiceLabel name ++ rest) ["'"%ch] = true
  /\ exists e, closingQuote (choiceLabel name ++ rest) 0 = Some e /\ (e + 1)%nat = length (choiceLabel name)
  /\ StringValue (choiceLabel name) = name.
Proof.
  intros Hq. rewrite (choiceLabel_quoted name Hq). split; [done|]. exists (1 + length (escaped name))%nat. split_and!.
  - unfold closingQuote. change (drop (0 + 1) (("'"%ch :: escaped name ++ ["'"%ch]) ++ rest)) with ((escaped name ++ ["'"%ch]) ++ rest).
    rewrite <- app_assoc. cbn [app]. by rewrite closing_escaped.
  - cbn [length]. rewrite length_app. cbn. lia.
  - apply (quoted_value "'"%ch name). by right.
Qed.

Lemma plain_unquoted name rest : plain_name name = true -> has_prefix (name ++ rest) ["'"%ch] = false.
Proof. intros Hp. destruct (plain_head name Hp) as (c & t & -> & Hc). cbn [app has_prefix]. by rewrite (proj2 (Z.eqb_neq _ _)). Qed.

(** A label, and the mark after it, are read back. *)
Lemma readLabel_mark M name m r :
  M ⊆ linePunctuation -> clean name -> m ∈ M -> readLabel (choiceLabel name ++ m ++ r) M = Some (name, m, r).
Proof.
  intros HM Hn Hm. unfold readLabel. pose proof (indexMark_label M name m r HM Hn Hm) as Hi. destruct Hn as [Hq|Hp].
  - destruct (quoted_read name (m ++ r) Hq) as (-> & e & -> & -> & Hv). cbn [negb].
    rewrite take_app_length, drop_app_length, Hv, find_mark by done. cbn [mbind option_bind].
    rewrite drop_app_length. by destruct (mark_shape m (HM m Hm)) as (c & t & -> & _).
  - rewrite (choiceLabel_plain name Hp) in *. rewrite plain_unquoted, Hi by done. cbn [negb].
    rewrite take_app_length, drop_app_add, drop_app_length by done. done.
Qed.

Lemma readLabel_end M name :
  M ⊆ linePunctuation -> clean name -> readLabel (choiceLabel name) M = Some (name, [], []).
Proof.
  intros HM Hn. unfold readLabel. destruct Hn as [Hq|Hp].
  - destruct (quoted_read name [] Hq) as (H1 & e & H2 & H3 & Hv). rewrite app_nil_r in *. rewrite H1, H2, H3. cbn [negb].
    by rewrite take_ge, drop_ge, Hv by lia.
  - rewrite (choiceLabel_plain name Hp). pose proof (plain_unquoted name [] Hp) as Hu. rewrite app_nil_r in Hu. rewrite Hu. cbn [negb].
    assert (Hi : indexMark name M = None).
    { unfold indexMark. pose proof (scan_label M [] name [] HM eq_refl (or_intror Hp) (or_introl eq_refl)) as Hs.
      rewrite (choiceLabel_plain name Hp), app_nil_r in Hs. by rewrite Hs. }
    by rewrite Hi.
Qed.

Lemma label_length name : (0 < length (choiceLabel name))%nat.
Proof.
  unfold choiceLabel. destruct (labelNeedsQuoting name) eqn:E; [cbn; lia|]. by destruct name; [|cbn; lia].
Qed.

(** A list of labels is read back. *)
Lemma splitLabels_labels names :
  Forall clean names -> names <> [] -> splitLabels (choiceLabels names) markList = Some names.
Proof.
  intros Hn Hne. unfold splitLabels. assert (HM : [markList] ⊆ linePunctuation) by (intros m ->%list_elem_of_singleton; repeat (left || right)).
  assert (Hl : forall fuel, (length names <= S fuel)%nat -> split_labels fuel (choiceLabels names) markList = Some names).
  { induction Hn as [|name names Hn Hns IH]; [done|]. intros fuel Hf. unfold choiceLabels. cbn [map join].
    destruct names as [|name' names].
    - cbn [map]. destruct fuel; cbn [split_labels]; by rewrite readLabel_end.
    - cbn [map]. destruct fuel as [|fuel]; [cbn in Hf; lia|]. cbn [split_labels]. rewrite readLabel_mark by (done || by left).
      cbn [mbind option_bind]. change (join markList (choiceLabel name' :: map choiceLabel names)) with (choiceLabels (name' :: names)).
      rewrite IH by (done || cbn in *; lia). done. }
  apply Hl. clear. unfold choiceLabels. induction names as [|name names IH]; cbn [map join length]; [lia|].
  pose proof (label_length name). destruct names as [|name' names]; cbn [map length]; [lia|]. rewrite !length_app.
  cbn [map length] in *. change (length markList) with 2%nat. lia.
Qed.

(** ** White space *)

(** A text no white space begins, or ends. *)
Definition starts (s : bytes) : Prop := find (has_prefix s) space_runes = None.
Definition ends (s : bytes) : Prop := find (has_suffix s) space_runes = None.

Lemma TrimSpace_trimmed s : starts s -> ends s -> TrimSpace s = s.
Proof.
  intros Hs He. unfold TrimSpace. assert (trim_space_left (length s) s = s) as ->.
  { destruct (length s); cbn [trim_space_left]; [done|]. by rewrite Hs. }
  destruct (length s); cbn [trim_space_right]; [done|]. by rewrite He.
Qed.

Lemma rune_nonempty r : r ∈ space_runes -> (0 < length r)%nat.
Proof.
  intros Hr%list_elem_of_In. assert (H : forallb (fun r => 0 <? length r)%nat space_runes = true) by (vm_compute; reflexivity).
  rewrite forallb_forall in H. by apply Nat.ltb_lt, H.
Qed.

Lemma trim_left_length n s : (length (trim_space_left n s) <= length s)%nat.
Proof.
  revert s. induction n as [|n IH]; intros s; cbn [trim_space_left]; [done|]. case_match; [|done].
  etransitivity; [apply IH|]. rewrite length_drop. lia.
Qed.
Lemma trim_right_length n s : (length (trim_space_right n s) <= length s)%nat.
Proof.
  revert s. induction n as [|n IH]; intros s; cbn [trim_space_right]; [done|]. case_match; [|done].
  etransitivity; [apply IH|]. rewrite length_take. lia.
Qed.

Lemma has_prefix_length s p : has_prefix s p = true -> (length p <= length s)%nat.
Proof. intros [t ->]%has_prefix_spec. rewrite length_app. lia. Qed.
Lemma has_suffix_length s p : has_suffix s p = true -> (length p <= length s)%nat.
Proof. intros [t ->]%has_suffix_spec. rewrite length_app. lia. Qed.

Lemma trimmed_ends s : TrimSpace s = s -> starts s /\ ends s.
Proof.
  unfold TrimSpace, starts, ends. intros E.
  destruct (find (has_prefix s) space_runes) as [r|] eqn:Ef.
  { exfalso. pose proof Ef as [Hr%list_elem_of_In Hp]%find_some. pose proof (rune_nonempty r Hr). pose proof (has_prefix_length _ _ Hp).
    assert (Hl : (length (trim_space_left (length s) s) < length s)%nat).
    { destruct (length s) as [|n] eqn:El; [lia|]. cbn [trim_space_left]. rewrite Ef.
      pose proof (trim_left_length n (drop (length r) s)) as H'. rewrite length_drop in H'. lia. }
    pose proof (trim_right_length (length (trim_space_left (length s) s)) (trim_space_left (length s) s)). rewrite E in *. lia. }
  assert (El : trim_space_left (length s) s = s) by (destruct (length s); cbn [trim_space_left]; [done|by rewrite Ef]).
  rewrite El in E. split; [done|]. destruct (find (has_suffix s) space_runes) as [r|] eqn:Eg; [|done]. exfalso.
  pose proof Eg as [Hr%list_elem_of_In Hp]%find_some. pose proof (rune_nonempty r Hr). pose proof (has_suffix_length _ _ Hp).
  destruct (length s) as [|n] eqn:Els; [lia|]. cbn [trim_space_right] in E. rewrite Eg in E.
  pose proof (trim_right_length n (take (length s - length r) s)) as H'. rewrite E, length_take in H'. lia.
Qed.

(** A rune of several bytes has none of ASCII. *)
Lemma rune_bytes r c : r ∈ space_runes -> c ∈ r -> (1 < length r)%nat -> 128 <= c.
Proof.
  intros Hr%list_elem_of_In Hc Hl.
  assert (H : forallb (fun r => (length r <=? 1)%nat || forallb (fun c => 128 <=? c) r) space_runes = true) by (vm_compute; reflexivity).
  rewrite forallb_forall in H. specialize (H r Hr). rewrite (proj2 (Nat.leb_gt _ _)) in H by done. cbn [orb] in H.
  rewrite forallb_forall in H. apply Z.leb_le, H. by apply list_elem_of_In.
Qed.

Lemma mark_ascii m c : m ∈ linePunctuation -> c ∈ m -> c < 128.
Proof.
  intros Hm%list_elem_of_In Hc%list_elem_of_In.
  assert (H : forallb (forallb (fun c => c <? 128)) linePunctuation = true) by (vm_compute; reflexivity).
  rewrite forallb_forall in H. specialize (H m Hm). rewrite forallb_forall in H. by apply Z.ltb_lt, H.
Qed.

Lemma starts_app u rest : starts u -> u <> [] -> marked rest -> starts (u ++ rest).
Proof.
  intros Hs Hu Hr. unfold starts. destruct (find _ _) as [r|] eqn:Ef; [exfalso|done].
  apply find_some in Ef as [Hin [t [(k & -> & _)|(k & -> & ->)]%app_eq_inv]%has_prefix_spec].
  { apply (List.find_none _ _ Hs) in Hin. by rewrite has_prefix_app in Hin. }
  destruct k as [|c k]; [rewrite app_nil_r in Hin; apply (List.find_none _ _ Hs) in Hin|].
  { rewrite (proj2 (has_prefix_spec u u)) in Hin; [done|exists []; by rewrite app_nil_r]. }
  destruct Hr as [?|(m & r & Hm & E)]; [done|]. destruct (mark_shape m Hm) as (d & t' & -> & _ & _ & Hd). injection E as -> _.
  apply list_elem_of_In in Hin. pose proof (rune_bytes _ d Hin ltac:(set_solver)) as Hb. rewrite length_app in Hb. cbn in Hb.
  destruct u; [done|]. cbn in Hb. lia.
Qed.

Lemma ends_after u c v : ends v -> v <> [] -> c < 128 -> ends ((u ++ [c]) ++ v).
Proof.
  intros Hs Hv Hc. unfold ends. destruct (find _ _) as [r|] eqn:Ef; [exfalso|done].
  apply find_some in Ef as [Hin [t [(k & E & ->)|(k & -> & ->)]%app_eq_inv]%has_suffix_spec].
  2:{ apply (List.find_none _ _ Hs) in Hin. rewrite (proj2 (has_suffix_spec _ _)) in Hin; [done|by exists k]. }
  destruct (decide (k = [])) as [->|Hk].
  { apply (List.find_none _ _ Hs) in Hin. rewrite (proj2 (has_suffix_spec _ _)) in Hin; [done|by exists []]. }
  apply list_elem_of_In in Hin. destruct (exists_last Hk) as (k' & d & ->).
  rewrite app_assoc in E. apply app_inj_tail in E as [_ ->].
  pose proof (rune_bytes _ d Hin ltac:(set_solver)) as Hb. rewrite !length_app in Hb. cbn in Hb. destruct v; [done|]. cbn in Hb. lia.
Qed.

Lemma ends_app u m v : ends v -> v <> [] -> m ∈ linePunctuation -> ends (u ++ m ++ v).
Proof.
  intros Hs Hv Hm. destruct (exists_last (l := m)) as (m' & d & ->); [by destruct (mark_shape m Hm) as (? & ? & -> & _)|].
  rewrite app_assoc, app_assoc. apply ends_after; [done..|]. eapply mark_ascii; [exact Hm|]. set_solver.
Qed.
