(* ===== verification/ChoiceFacts.v ===== *)
(** * Choice lines: properties

    A choice is read back as it was spelled ([ParseChoice_String]), and a line splits into
    the choices spelled on it ([splitChoices_parts]) - for the names the spelling quotes
    or that do not run into the punctuation around them. *)
From Stdlib Require Import Floats.SpecFloat.
From S2P Require Import Prelude Bytes Source SourceFacts Integer IntegerFacts Decimal DecimalFacts Explore Choice ChoiceScan.
From S2P Require Import RealFacts.
Local Open Scope Z_scope.

(** ** Numbers *)

(** The bytes of [strconv]'s decimal text. *)
Definition number_text (t : bytes) : Prop := t <> [] /\ Forall (fun c => c ∈ bs "0123456789+-.e") t.

Lemma number_facts t c : number_text t -> c ∈ t -> 43 <= c < 128 /\ c <> ","%ch /\ c <> ";"%ch /\ c <> ":"%ch /\ c <> "'"%ch /\ c <> "="%ch /\ c <> "s"%ch.
Proof.
  intros [_ Ht] Hc. rewrite Forall_forall in Ht. specialize (Ht c Hc). apply list_elem_of_In in Ht.
  assert (H : forallb (fun c => (43 <=? c) && (c <? 128) && forallb (fun d => negb (c =? d)) (bs ",;:'=s")) (bs "0123456789+-.e") = true)
    by (vm_compute; reflexivity).
  rewrite forallb_forall in H. specialize (H c Ht). cbn in H. lia.
Qed.

Lemma number_ends t : number_text t -> starts t /\ ends t.
Proof.
  intros Ht. assert (H : forall r, In r space_runes -> forall t', t <> t' ++ r /\ t <> r ++ t').
  { intros r Hr t'. apply list_elem_of_In in Hr as Hr'. pose proof (rune_nonempty r Hr') as Hl.
    assert (Hbad : forall c, c ∈ r -> c ∈ t -> False).
    { intros c Hc Hct. destruct (number_facts t c Ht Hct) as [Hb _].
      assert (Hx : forallb (forallb (fun c => (c <? 43) || (128 <=? c))) space_runes = true) by (vm_compute; reflexivity).
      rewrite forallb_forall in Hx. specialize (Hx r Hr). rewrite forallb_forall in Hx.
      specialize (Hx c (proj1 (list_elem_of_In _ _) Hc)). lia. }
    destruct r as [|c r]; [cbn in Hl; lia|].
    split; intros E; apply (Hbad c); rewrite ?E; [left|apply elem_of_app; right; left|left|left]. }
  split; unfold starts, ends; (destruct (find _ _) as [r|] eqn:Ef; [exfalso|done]).
  - apply find_some in Ef as [Hr [t' E]%has_prefix_spec]. by destruct (H r Hr t').
  - apply find_some in Ef as [Hr [t' E]%has_suffix_spec]. by destruct (H r Hr t').
Qed.

(** [strconv] prints every finite binary64 in decimal, and reads it back. *)
Definition strconv_floats (FormatWeight : spec_float -> bytes) (ParseFloat : bytes -> option spec_float) : Prop :=
  forall w, valid w -> is_finite w = true -> number_text (FormatWeight w) /\ ParseFloat (FormatWeight w) = Some w.

(** ** Choices a line reads back *)

Definition weight (w : spec_float) : Prop := valid w /\ is_finite w = true.

(** The alternatives, with the one taken. *)
Definition among_wf (c : ChoiceTaken) : Prop :=
  Forall clean c.(cAmong) /\ slices_Index c.(cAmong) c.(cTook) = Some c.(cTaken) /\ c.(cAlternatives) = length c.(cAmong).
Definition unweighted (c : ChoiceTaken) : Prop := c.(cWeights) = [] /\ c.(cDrawn) = false /\ c.(cDrew) = S754_zero false.

Definition order_wf (c : ChoiceTaken) : Prop := clean c.(cTook) /\ among_wf c /\ unweighted c.
Definition where_wf (c : ChoiceTaken) : Prop := clean c.(cWhere) /\ order_wf c /\ order_kind c.(cWhere) = c.(cKind).

(** A branch is spelled with its alternatives when the model weights them. *)
Definition weighted_wf (c : ChoiceTaken) : Prop :=
  among_wf c /\ length c.(cWeights) = length c.(cAmong) /\ Forall weight c.(cWeights)
  /\ (if c.(cDrawn) then weight c.(cDrew) /\ SFleb (S754_zero false) c.(cDrew) = true /\ SFltb c.(cDrew) (f64 1 0) = true
      else c.(cDrew) = S754_zero false).
Definition branch_wf (c : ChoiceTaken) : Prop :=
  clean c.(cWhere) /\ clean c.(cTook) /\ c.(cWhere) <> [] /\ c.(cTook) <> []
  /\ (ChoiceTaken_weighted c = true -> weighted_wf c).

Definition in_step (c : ChoiceTaken) : Prop := 1 <= c.(cStep) < 2 ^ 63.

Definition choice_wf (c : ChoiceTaken) : Prop :=
  match c.(cKind) with
  | ChoiceTokenOrder => in_step c /\ c.(cWhere) = [] /\ order_wf c
  | ChoiceDecisionBranch => in_step c /\ branch_wf c
  | ChoiceTransition => c.(cStep) = 0 /\ branch_wf c
  | choiceStatementOrder | choiceGuardOrder => (c.(cStep) = 0 \/ in_step c) /\ where_wf c
  | choiceWriteOrder => False
  | _ => c.(cStep) = 0 /\ where_wf c
  end.

(** What a line carries of a choice: an unweighted branch loses its alternatives. *)
Definition carried (c : ChoiceTaken) : ChoiceTaken :=
  match c.(cKind) with
  | ChoiceDecisionBranch | ChoiceTransition =>
      if ChoiceTaken_weighted c then c else new_choice c.(cKind) c.(cStep) c.(cWhere) c.(cTook)
  | _ => c
  end.

(** ** The step *)

Lemma step_digits n : 1 <= n -> number_text (decimal_text n) /\ digits (decimal_text n).
Proof.
  intros Hn. destruct (decimal_text_digits n ltac:(lia)) as (Hd & Hne & _). split; [|done]. split; [done|].
  unfold digits in Hd. eapply Forall_impl; [exact Hd|]. intros c Hc. unfold digit in Hc.
  assert (H : forallb (fun k => existsb (Z.eqb (48 + Z.of_nat k)) (bs "0123456789+-.e")) (seq 0 10) = true) by (vm_compute; reflexivity).
  rewrite forallb_forall in H. specialize (H (Z.to_nat (c - 48)) ltac:(apply in_seq; cbn in Hc; lia)).
  apply existsb_exists in H as (d & Hd' & E). apply Z.eqb_eq in E. apply list_elem_of_In. cbn in Hc.
  by replace c with d by lia.
Qed.

Lemma index_text ds r c d : c ∉ ds -> index (ds ++ c :: d :: r) [c; d] = Some (length ds).
Proof.
  induction ds as [|x ds IH]; intros Hc; cbn [app index length has_prefix].
  - by rewrite !Z.eqb_refl.
  - rewrite (proj2 (Z.eqb_neq _ _)) by (intros ->; set_solver). cbn [andb]. by rewrite IH by set_solver.
Qed.

Lemma read_step_text n r : 1 <= n < 2 ^ 63 -> read_step (step_text n ++ r) = Ok (n, r).
Proof.
  intros Hn. unfold read_step, step_text, cut_prefix. rewrite <- app_assoc, has_prefix_app, drop_app_length.
  destruct (step_digits n ltac:(lia)) as [Hnum Hd]. unfold cut. change markWhere with [":"; " "]%ch.
  rewrite <- app_assoc. cbn [app]. rewrite index_text.
  2:{ intros Hin. by destruct (number_facts _ _ Hnum Hin) as (_ & _ & _ & ? & _). }
  rewrite take_app_length, drop_app_add. cbn [length drop]. unfold strconv_ParseInt. rewrite parse_decimal_text.
  cbn [mbind option_bind]. rewrite (proj2 (IsInt64_spec n)) by (unfold Machine.is_int64; lia).
  by rewrite (proj2 (Z.leb_le _ _)) by lia.
Qed.

Lemma plain_no_step name : plain_name name = true -> has_prefix name (bs "step ") = false /\ name <> bs "step".
Proof.
  unfold plain_name. rewrite !andb_true_iff, !negb_true_iff. intros [[[Hn _] _] Hs]. split.
  - unfold labelNeedsQuoting in Hn. apply orb_false_iff in Hn as [[Hn _]%orb_false_iff _]. destruct name; [done|].
    by apply orb_false_iff in Hn as [[_ Hn]%orb_false_iff _].
  - intros ->. done.
Qed.

Lemma mark_head m : m ∈ linePunctuation -> head m ∈ map Some (bs " ;,:").
Proof.
  intros Hm%list_elem_of_In.
  assert (H : forallb (fun m => existsb (fun c => bool_decide (head m = Some c)) (bs " ;,:")) linePunctuation = true) by (vm_compute; reflexivity).
  rewrite forallb_forall in H. specialize (H m Hm). apply existsb_exists in H as (c & Hc & E%bool_decide_eq_true).
  rewrite E. apply list_elem_of_In. by apply in_map.
Qed.

Lemma read_step_none name rest : clean name -> marked rest -> read_step (choiceLabel name ++ rest) = Ok (0, choiceLabel name ++ rest).
Proof.
  intros Hn Hr. unfold read_step, cut_prefix. destruct (has_prefix _ _) eqn:E; [exfalso|done]. destruct Hn as [Hq|Hp].
  { by rewrite (choiceLabel_quoted name Hq) in E. }
  rewrite (choiceLabel_plain name Hp) in E. destruct (plain_no_step name Hp) as [Hs Hs'].
  apply has_prefix_spec in E as [t [(k & -> & _)|(k & E & ->)]%app_eq_inv]; [by rewrite has_prefix_app in Hs|].
  destruct k as [|x k].
  { rewrite app_nil_r in E. rewrite <- E in Hs. done. }
  destruct Hr as [?|(m & r & Hm & Er)]; [done|]. destruct (mark_shape m Hm) as (c & u & -> & _).
  pose proof (mark_head _ Hm) as Hh. cbn [head] in Hh. injection Er as <- _.
  destruct name as [|c1 [|c2 [|c3 [|c4 [|c5 name]]]]]; injection E; intros; subst; try (vm_compute in Hh; by set_solver).
Qed.

(** ** Parts of a line *)

Abbreviation splits := [markChoices].

(** A text a split passes over, where a name may begin and a mark or nothing follows. *)
Definition passes (u : bytes) : Prop :=
  forall before rest, nameMayBegin before = true -> marked rest ->
    index_mark splits before 0 (u ++ rest) = index_mark splits (before ++ u) 0 rest.

(** A part of a spelled choice: neither empty nor ended by white space. *)
Definition part (u : bytes) : Prop := passes u /\ starts u /\ ends u /\ u <> [].

Lemma is_mark m : existsb (beq m) linePunctuation = true -> m ∈ linePunctuation.
Proof. intros (x & Hx & ->%beq_true)%existsb_exists. by apply list_elem_of_In. Qed.
Ltac mark := first [by apply is_mark; vm_compute|by (intros ? ?; set_solver)].

Lemma split_marks : splits ⊆ linePunctuation.
Proof. intros m ->%list_elem_of_singleton. mark. Qed.

Lemma label_part name : clean name -> part (choiceLabel name).
Proof.
  intros Hn. split; [intros before rest Hb Hr; by apply scan_label; [apply split_marks|..]|].
  assert (Hne : choiceLabel name <> []) by (pose proof (label_length name) as H; intros E; rewrite E in H; cbn in H; lia).
  destruct Hn as [Hq|Hp].
  - rewrite (choiceLabel_quoted name Hq) in *. split_and!; [vm_compute; reflexivity| |done].
    unfold ends. change ("'"%ch :: escaped name ++ ["'"%ch]) with (("'"%ch :: escaped name) ++ ["'"%ch]).
    unfold has_suffix. cbn [find]. rewrite rev_app_distr. reflexivity.
  - rewrite (choiceLabel_plain name Hp) in *.
    assert (Ht : TrimSpace name = name).
    { unfold plain_name, labelNeedsQuoting in Hp. rewrite !andb_true_iff, !negb_true_iff in Hp. destruct Hp as [[[H _] _] _].
      destruct name; [done|]. apply orb_false_iff in H as [[[_ H]%orb_false_iff _]%orb_false_iff _].
      apply negb_false_iff in H. by apply beq_true. }
    destruct (trimmed_ends name Ht). done.
Qed.

Lemma text_passes u : Forall (fun c => c <> "'"%ch /\ c <> ";"%ch) u -> passes u.
Proof.
  intros Hu before rest _ _. apply scan_text; [|by intros ?%list_elem_of_singleton].
  eapply Forall_impl; [exact Hu|]. intros c [H1 H2]. split; [done|]. intros m t ->%list_elem_of_singleton E. by injection E as <-.
Qed.

Lemma number_part t : number_text t -> part t.
Proof.
  intros Ht. destruct (number_ends t Ht). split_and!; [|done|done|apply Ht].
  apply text_passes, Forall_forall. intros c Hc. by destruct (number_facts t c Ht Hc) as (_ & _ & ? & _ & ? & _).
Qed.

Lemma nameMayBegin_mark before m : m ∈ linePunctuation -> nameMayBegin (before ++ m) = true.
Proof.
  intros Hm. unfold nameMayBegin. destruct (before ++ m) eqn:E; [done|]. rewrite <- E. apply existsb_exists.
  exists m. split; [by apply list_elem_of_In|]. apply has_suffix_spec. eauto.
Qed.

(** Parts joined by a mark of the choice are a part. *)
Lemma part_app u m v : part u -> m ∈ linePunctuation -> m <> markChoices -> part v -> part (u ++ m ++ v).
Proof.
  intros (Pu & Su & Eu & Nu) Hm Hne (Pv & Sv & Ev & Nv). split_and!.
  - intros before rest Hb Hr. rewrite <- !app_assoc. rewrite Pu by (done || by apply mark_marked).
    rewrite scan_text; [|..|by intros ?%list_elem_of_singleton].
    + rewrite Pv by first [done|by apply nameMayBegin_mark]. by rewrite <- !app_assoc.
    + assert (H : forallb (fun m => beq m markChoices || forallb (fun c => negb (c =? "'"%ch) && negb (c =? ";"%ch)) m) linePunctuation = true)
        by (vm_compute; reflexivity).
      rewrite forallb_forall in H. specialize (H m (proj1 (list_elem_of_In _ _) Hm)).
      rewrite (proj2 (beq_false _ _)) in H by done. cbn [orb] in H. apply forallb_Forall in H.
      eapply Forall_impl; [exact H|]. intros c Hc. split; [intros ->; done|].
      intros m' t ->%list_elem_of_singleton E. by injection E as <-.
  - apply starts_app; [done..|by apply mark_marked].
  - by apply ends_app.
  - by destruct u.
Qed.

Lemma part_join us : us <> [] -> Forall part us -> part (join markList us).
Proof.
  intros Hne Hu. induction Hu as [|u us Hu Hus IH]; [done|]. destruct us as [|u' us]; [done|].
  change (join markList (u :: u' :: us)) with (u ++ markList ++ join markList (u' :: us)).
  apply part_app; [done|mark|done|by apply IH].
Qed.

Lemma labels_part names : names <> [] -> Forall clean names -> part (choiceLabels names).
Proof.
  intros Hne Hn. apply part_join; [by destruct names|]. apply Forall_map. eapply Forall_impl; [exact Hn|]. apply label_part.
Qed.

Lemma part_trim u : part u -> TrimSpace u = u.
Proof. intros (_ & Hs & He & _). by apply TrimSpace_trimmed. Qed.

Lemma step_part n u : 1 <= n -> part u -> part (step_text n ++ u).
Proof.
  intros Hn Hu. unfold step_text.
  replace ((bs "step " ++ decimal_text n ++ markWhere) ++ u) with ((bs "step " ++ decimal_text n) ++ markWhere ++ u) by (by rewrite !app_assoc).
  destruct (step_digits n Hn) as [Hnum _]. apply part_app; [|mark|done|done].
  destruct (number_ends _ Hnum) as [_ He]. split_and!; [| | |done].
  - apply text_passes, Forall_app. split; [repeat constructor; done|]. apply Forall_forall.
    intros c Hc. by destruct (number_facts _ c Hnum Hc) as (_ & _ & ? & _ & ? & _).
  - unfold starts. vm_compute. reflexivity.
  - apply (ends_after (bs "step")); [done|apply Hnum|done].
Qed.

(** ** Reading a choice *)

Lemma join_parts_length us sep : Forall (fun u => u <> []) us -> (length us <= length (join sep us))%nat.
Proof.
  induction 1 as [|u us Hu _ IH]; [done|]. destruct us as [|u' us]; cbn [join length] in *; rewrite ?length_app.
  - destruct u; [done|cbn; lia].
  - destruct u; [done|cbn in *; rewrite ?length_app in *; lia].
Qed.

Section Reading.
Context (FormatWeight : spec_float -> bytes) (ParseFloat : bytes -> option spec_float).
Context (Hfloats : strconv_floats FormatWeight ParseFloat).

Lemma weight_text w : weight w -> number_text (FormatWeight w).
Proof. intros [Hv Hf]. by apply Hfloats. Qed.
Lemma weight_read w : weight w -> ParseFloat (FormatWeight w) = Some w.
Proof. intros [Hv Hf]. by apply Hfloats. Qed.

Lemma among_nonempty c : among_wf c -> c.(cAmong) <> [].
Proof. intros (_ & H & _) E. by rewrite E in H. Qed.

Lemma read_among_order c step : order_wf c -> cStep c = step ->
  read_among (new_choice c.(cKind) step c.(cWhere) c.(cTook)) (choiceLabels c.(cAmong)) = Ok c.
Proof.
  intros (_ & Ha & Hw & Hd & Hdr) <-. unfold read_among. rewrite splitLabels_labels; [|apply Ha|by apply among_nonempty].
  unfold set_among. cbn [new_choice cTook cKind cStep cWhere]. destruct Ha as (_ & -> & Hn).
  rewrite <- Hn. destruct c; cbn in *. by subst.
Qed.

(** The weights of a weighted branch. *)
Definition drew_text (drew : option spec_float) : bytes :=
  match drew with Some u => markDrew ++ FormatWeight u | None => [] end.

Lemma two_marks m : m ∈ [markList; markDrew] -> m = markList \/ m = markDrew.
Proof. set_solver. Qed.

Lemma indexMark_number t rest :
  number_text t -> index_mark [markList; markDrew] [] 0 (t ++ rest) = index_mark [markList; markDrew] t 0 rest.
Proof.
  intros Ht. rewrite scan_text; [done|..|by intros [?|?]%two_marks].
  apply Forall_forall. intros c Hc. destruct (number_facts t c Ht Hc) as (Hb & Hcm & _ & _ & Hq & _). split; [done|].
  intros m s [-> | ->]%two_marks E; injection E as <- _; [done|lia].
Qed.

(** One alternative with its weight, and what the text after it leads to. *)
Lemma weighted_step fuel c among weights alt w rest :
  clean alt -> weight w ->
  rest = [] \/ (exists m r, (m = markList \/ m = markDrew) /\ rest = m ++ r) ->
  parse_weighted ParseFloat fuel c among weights ((choiceLabel alt ++ markWeight ++ FormatWeight w) ++ rest) =
    match cut_prefix rest markList, cut_prefix rest markDrew with
    | Some r, _ => match fuel with O => Err weighted_shape | S fuel' => parse_weighted ParseFloat fuel' c (among ++ [alt]) (weights ++ [w]) r end
    | None, Some r =>
        match ParseFloat r with
        | Some u =>
            if SFleb (S754_zero false) u && SFltb u (f64 1 0) then set_among c (among ++ [alt]) (weights ++ [w]) (Some u)
            else Err (bs "the draw selecting a weighted branch is a number in [0, 1): … drew <u>")
        | None => Err (bs "the draw selecting a weighted branch is a number in [0, 1): … drew <u>")
        end
    | None, None => set_among c (among ++ [alt]) (weights ++ [w]) None
    end.
Proof.
  intros Ha Hw Hrest. pose proof (weight_text w Hw) as Hn. pose proof (weight_read w Hw) as Hr.
  assert (HM : [markWeight] ⊆ linePunctuation) by (intros m ->%list_elem_of_singleton; mark).
  assert (HM2 : [markList; markDrew] ⊆ linePunctuation) by (intros m [-> | ->]%two_marks; mark).
  rewrite <- !app_assoc.
  assert (Hl : readLabel (choiceLabel alt ++ markWeight ++ FormatWeight w ++ rest) [markWeight] = Some (alt, markWeight, FormatWeight w ++ rest))
    by (apply readLabel_mark; [done..|by left]).
  assert (Hi : indexMark (FormatWeight w ++ rest) [markList; markDrew]
    = match cut_prefix rest markList, cut_prefix rest markDrew with
      | Some _, _ => Some (length (FormatWeight w), markList) | None, Some _ => Some (length (FormatWeight w), markDrew) | _, _ => None end).
  { unfold indexMark. rewrite indexMark_number by done. destruct Hrest as [->|(m & r & [-> | ->] & ->)]; [done|..].
    - rewrite scan_mark by (done || left). unfold cut_prefix. by rewrite has_prefix_app.
    - rewrite scan_mark by (done || (right; left)). done. }
  destruct fuel; cbn [parse_weighted]; rewrite Hl; change (beq markWeight []) with false; cbv iota; rewrite Hi.
  all: destruct Hrest as [->|(m & r & [-> | ->] & ->)].
  all: unfold cut_prefix; rewrite ?app_nil_r.
  all: change (has_prefix [] markList) with false; change (has_prefix [] markDrew) with false.
  all: rewrite ?has_prefix_app; try change (has_prefix (markDrew ++ r) markList) with false; cbv iota.
  all: rewrite ?take_app_length, ?drop_app_add, ?drop_app_length, ?Hr; cbv iota.
  all: try done.
Qed.

Definition unit_draw (u : spec_float) : Prop := weight u /\ SFleb (S754_zero false) u = true /\ SFltb u (f64 1 0) = true.

Lemma parse_weighted_labels fuel c among weights alts ws drew :
  Forall clean alts -> Forall weight ws -> length ws = length alts -> alts <> [] -> (length alts <= S fuel)%nat ->
  (forall u, drew = Some u -> unit_draw u) ->
  parse_weighted ParseFloat fuel c among weights (weightedLabels FormatWeight alts ws ++ drew_text drew)
  = set_among c (among ++ alts) (weights ++ ws) drew.
Proof.
  intros Ha. revert fuel among weights ws. induction Ha as [|alt alts Halt Ha IH]; intros fuel among weights ws Hws Hl Hne Hf Hd; [done|].
  destruct Hws as [|w ws Hw Hws]; [done|]. destruct alts as [|alt' alts].
  - destruct ws; [|done]. unfold weightedLabels. cbn [zip_with join]. rewrite weighted_step; [|done..|].
    + destruct drew as [u|]; [|done]. destruct (Hd u eq_refl) as (Hu & H0 & H1). unfold drew_text, cut_prefix.
      change (has_prefix (markDrew ++ FormatWeight u) markList) with false. rewrite has_prefix_app, drop_app_length.
      by rewrite (weight_read u Hu), H0, H1.
    + destruct drew as [u|]; [right|by left]. exists markDrew, (FormatWeight u). auto.
  - destruct ws as [|w' ws]; [done|].
    change (weightedLabels FormatWeight (alt :: alt' :: alts) (w :: w' :: ws)) with
      ((choiceLabel alt ++ markWeight ++ FormatWeight w) ++ markList ++ weightedLabels FormatWeight (alt' :: alts) (w' :: ws)).
    rewrite <- app_assoc, <- (app_assoc markList). rewrite weighted_step; [|done..|right; eauto].
    unfold cut_prefix. rewrite has_prefix_app, drop_app_length. destruct fuel as [|fuel]; [cbn in Hf; lia|].
    rewrite IH; [by rewrite <- !app_assoc|done|cbn in *; lia|done|cbn in *; lia|done].
Qed.

(** ** Each kind of choice *)

Abbreviation choice_marks := [markFirstOf; markArrow; markWhere].

Lemma choice_marks_punctuate : choice_marks ⊆ linePunctuation.
Proof. intros m [-> | [-> | ->%list_elem_of_singleton]%elem_of_cons]%elem_of_cons; mark. Qed.

(** A choice led by a label and a mark, outside a step or in one. *)
Lemma ParseChoice_label name m after :
  clean name -> m ∈ choice_marks -> part (choiceLabel name ++ m ++ after) ->
  ParseChoice ParseFloat (choiceLabel name ++ m ++ after)
  = if beq m markArrow then parseTransitionChoice ParseFloat 0 name after else parseOrderChoice 0 name m after.
Proof.
  intros Hn Hm Hp. unfold ParseChoice. rewrite part_trim by done.
  rewrite read_step_none; [|done|by apply mark_marked, choice_marks_punctuate].
  rewrite readLabel_mark; [|by apply choice_marks_punctuate|done..].
  by apply elem_of_cons in Hm as [-> | [-> | ->%list_elem_of_singleton]%elem_of_cons].
Qed.

Lemma ParseChoice_step n name m after :
  1 <= n < 2 ^ 63 -> clean name -> m ∈ choice_marks -> part (choiceLabel name ++ m ++ after) ->
  ParseChoice ParseFloat (step_text n ++ choiceLabel name ++ m ++ after)
  = if beq m markArrow then parseTransitionChoice ParseFloat n name after else parseOrderChoice n name m after.
Proof.
  intros Hn Hc Hm Hp. unfold ParseChoice. rewrite part_trim by (apply step_part; [lia|done]).
  rewrite read_step_text by done. rewrite readLabel_mark; [|by apply choice_marks_punctuate|done..].
  by apply elem_of_cons in Hm as [-> | [-> | ->%list_elem_of_singleton]%elem_of_cons].
Qed.

(** Orders. *)
Lemma order_part c : order_wf c -> part (order_text c).
Proof.
  intros (Ht & Ha & _). apply part_app; [by apply label_part|mark|done|]. apply labels_part; [by apply among_nonempty|apply Ha].
Qed.
Lemma where_part c : where_wf c -> part (where_text c).
Proof. intros (Hw & Ho & _). apply part_app; [by apply label_part|mark|done|by apply order_part]. Qed.

Lemma parse_where c step :
  where_wf c -> c.(cStep) = step ->
  (0 < step -> c.(cKind) = choiceStatementOrder \/ c.(cKind) = choiceGuardOrder) ->
  parseOrderChoice step c.(cWhere) markWhere (order_text c) = Ok c.
Proof.
  intros (Hw & Ho & Hk) Hs Hkind. unfold parseOrderChoice. change (beq markWhere markWhere) with true. cbv iota.
  assert (E : (0 <? step) && negb (has_prefix c.(cWhere) statementsWherePrefix) && negb (has_prefix c.(cWhere) guardOrderWherePrefix)
              && negb (has_prefix c.(cWhere) resultOrderWherePrefix) = false).
  { destruct (0 <? step) eqn:E; [|done]. apply Z.ltb_lt in E. specialize (Hkind E). rewrite <- Hk in Hkind. unfold order_kind in Hkind.
    repeat case_match; try done; by destruct Hkind. }
  rewrite E. unfold order_text. rewrite readLabel_mark; [|intros m ->%list_elem_of_singleton; mark|apply Ho|by left].
  change (beq markFirstOf []) with false. cbv iota. rewrite Hk. by apply read_among_order.
Qed.

(** Branches. *)
Definition drew (c : ChoiceTaken) : option spec_float := if c.(cDrawn) then Some c.(cDrew) else None.

Lemma weightedTail_text c : ChoiceTaken_weighted c = true -> weighted_wf c ->
  weightedTail FormatWeight c = markAmong ++ weightedLabels FormatWeight c.(cAmong) c.(cWeights) ++ drew_text (drew c).
Proof.
  intros Hw (_ & Hl & _). unfold weightedTail. rewrite Hw, (proj2 (Nat.eqb_eq _ _)) by done. unfold drew. by destruct (cDrawn c).
Qed.

Definition weighted_label (alt : bytes) (w : spec_float) : bytes := choiceLabel alt ++ markWeight ++ FormatWeight w.

Lemma weightedLabels_length alts ws : length ws = length alts -> (length alts <= length (weightedLabels FormatWeight alts ws))%nat.
Proof.
  intros Hl. unfold weightedLabels. rewrite <- (length_zip_with_l_eq weighted_label alts ws) by lia. apply join_parts_length.
  apply Forall_forall. intros u (alt & w & -> & _)%elem_of_zip_with E. apply app_nil in E as [_ [E _]%app_nil]. done.
Qed.

Lemma weighted_labels_part c : weighted_wf c -> part (weightedLabels FormatWeight c.(cAmong) c.(cWeights)).
Proof.
  intros (Ha & Hl & Hw & _). apply part_join.
  - pose proof (among_nonempty c Ha) as Hne. by destruct (cAmong c), (cWeights c).
  - apply Forall_forall. intros u (alt & w & -> & Halt & Hin)%elem_of_zip_with. destruct Ha as [Ha _]. rewrite Forall_forall in Ha; rewrite Forall_forall in Hw.
    apply part_app; [by apply label_part, Ha|mark|done|by apply number_part, weight_text, Hw].
Qed.

Lemma branch_part c : branch_wf c -> part (branch_text FormatWeight c).
Proof.
  intros (Hw & Ht & _ & _ & Hwt). unfold branch_text. apply part_app; [by apply label_part|mark|done|].
  destruct (ChoiceTaken_weighted c) eqn:E.
  2:{ unfold weightedTail. rewrite E. cbn [negb orb]. rewrite app_nil_r. by apply label_part. }
  specialize (Hwt eq_refl). rewrite weightedTail_text by done. apply part_app; [by apply label_part|mark|done|].
  pose proof (weighted_labels_part c Hwt) as Hp. destruct Hwt as (_ & _ & _ & Hd). unfold drew. destruct (cDrawn c); cbn [drew_text].
  - apply part_app; [done|mark|done|]. apply number_part, weight_text, Hd.
  - by rewrite app_nil_r.
Qed.

Lemma parse_branch c step :
  branch_wf c -> c.(cStep) = step -> c.(cKind) = (if 0 <? step then ChoiceDecisionBranch else ChoiceTransition) ->
  parseTransitionChoice ParseFloat step c.(cWhere) (choiceLabel c.(cTook) ++ weightedTail FormatWeight c) = Ok (carried c).
Proof.
  intros (Hw & Ht & Hwe & Hte & Hwt) Hs Hk. unfold parseTransitionChoice.
  assert (HM : [markAmong] ⊆ linePunctuation) by (intros m ->%list_elem_of_singleton; mark).
  assert (Hcar : carried c = if ChoiceTaken_weighted c then c else new_choice c.(cKind) c.(cStep) c.(cWhere) c.(cTook)).
  { unfold carried. by destruct (0 <? step); rewrite Hk. }
  destruct (ChoiceTaken_weighted c) eqn:E.
  - specialize (Hwt eq_refl). rewrite weightedTail_text, readLabel_mark by first [done|by left].
    rewrite !(proj2 (beq_false _ _)) by done. cbn [orb]. change (beq markAmong markAmong) with true. cbv iota zeta.
    destruct Hwt as (Ha & Hl & Hws & Hd). unfold parseWeighted. rewrite parse_weighted_labels; [|apply Ha|done|done|by apply among_nonempty|..].
    + unfold set_among, new_choice. cbn [cTook cKind cStep cWhere app]. rewrite <- Hk, Hcar, <- Hs. destruct Ha as (_ & -> & <-).
      destruct c; unfold drew; cbn in *. by destruct cDrawn; cbn in *; subst.
    + rewrite length_app. pose proof (weightedLabels_length c.(cAmong) c.(cWeights) Hl). lia.
    + intros u. unfold drew. destruct (cDrawn c); [|done]. by intros [= <-].
  - unfold weightedTail. rewrite E. cbn [negb orb]. rewrite app_nil_r, readLabel_end by done.
    rewrite !(proj2 (beq_false _ _)) by done. cbn [orb]. change (beq [] markAmong) with false. cbv iota zeta. by rewrite Hcar, <- Hk, <- Hs.
Qed.

(** ** Lines *)

Lemma choice_part c : choice_wf c -> part (ChoiceTaken_String FormatWeight c).
Proof.
  unfold choice_wf, ChoiceTaken_String. intros Hc.
  assert (Hs : (cStep c = 0 \/ in_step c) /\ where_wf c -> part (if 0 <? cStep c then step_text (cStep c) ++ where_text c else where_text c)).
  { intros [_ Hw]. destruct (0 <? cStep c) eqn:E; [apply step_part; [lia|]|]; by apply where_part. }
  destruct (cKind c); try done; try (apply where_part, Hc); try (by apply Hs).
  all: destruct Hc as [Hs' Hc]; try (apply step_part; [unfold in_step in *; lia|]).
  - apply order_part, Hc.
  - by apply branch_part.
  - by apply branch_part.
Qed.

(** A choice is read back as the line carries it. *)
Lemma ParseChoice_String c : choice_wf c -> ParseChoice ParseFloat (ChoiceTaken_String FormatWeight c) = Ok (carried c).
Proof.
  intros Hc. pose proof (choice_part c Hc) as Hp. unfold choice_wf in Hc. unfold ChoiceTaken_String in *.
  assert (Hw0 : cStep c = 0 /\ where_wf c -> carried c = c -> ParseChoice ParseFloat (where_text c) = Ok (carried c)).
  { intros [Hs Hw] ->. pose proof (where_part c Hw) as Hwp. unfold where_text. rewrite ParseChoice_label; [|apply Hw|set_solver|done].
    change (beq markWhere markArrow) with false. cbv iota. apply parse_where; [done..|lia]. }
  assert (Hw1 : in_step c /\ where_wf c -> c.(cKind) = choiceStatementOrder \/ c.(cKind) = choiceGuardOrder -> carried c = c ->
                ParseChoice ParseFloat (step_text (cStep c) ++ where_text c) = Ok (carried c)).
  { intros [Hs Hw] Hk ->. pose proof (where_part c Hw) as Hwp. unfold where_text. rewrite ParseChoice_step; [|done|apply Hw|set_solver|done].
    change (beq markWhere markArrow) with false. cbv iota. by apply parse_where. }
  assert (Hw2 : (cStep c = 0 \/ in_step c) /\ where_wf c -> c.(cKind) = choiceStatementOrder \/ c.(cKind) = choiceGuardOrder -> carried c = c ->
                ParseChoice ParseFloat (if 0 <? cStep c then step_text (cStep c) ++ where_text c else where_text c) = Ok (carried c)).
  { intros [[Hs|Hs] Hw] Hk Hcar; [rewrite Hs|rewrite (proj2 (Z.ltb_lt _ _)) by (unfold in_step in Hs; lia)]; auto. }
  assert (Hcar : (if match c.(cKind) with ChoiceDecisionBranch | ChoiceTransition => true | _ => false end then True else carried c = c)).
  { unfold carried. by destruct (cKind c). }
  destruct (cKind c) eqn:Hk; try done; try (by apply Hw0); try (by apply Hw2; auto).
  - destruct Hc as (Hs & Hwh & Ho). pose proof (order_part c Ho) as Hop. unfold order_text. rewrite ParseChoice_step; [|done|apply Ho|set_solver|done].
    change (beq markFirstOf markArrow) with false. cbv iota. unfold parseOrderChoice. change (beq markFirstOf markWhere) with false. cbv iota.
    unfold in_step in Hs. rewrite (proj2 (Z.eqb_neq _ _)) by lia. rewrite Hcar, <- Hk, <- Hwh. by apply read_among_order.
  - destruct Hc as (Hs & Hb). pose proof (branch_part c Hb) as Hbp. unfold branch_text. rewrite ParseChoice_step; [|done|apply Hb|set_solver|done].
    change (beq markArrow markArrow) with true. cbv iota. apply parse_branch; [done..|]. unfold in_step in Hs. by rewrite (proj2 (Z.ltb_lt _ _)) by lia.
  - destruct Hc as (Hs & Hb). pose proof (branch_part c Hb) as Hbp. unfold branch_text. rewrite ParseChoice_label; [|apply Hb|set_solver|done].
    change (beq markArrow markArrow) with true. cbv iota. by apply parse_branch.
Qed.

(** A line splits into its choices. *)
Lemma index_part u rest : part u -> marked rest -> index_mark splits [] 0 (u ++ rest) = index_mark splits u 0 rest.
Proof. intros [Hp _] Hr. by apply (Hp []). Qed.

Lemma split_join us fuel :
  us <> [] -> Forall part us -> (length us <= S fuel)%nat -> split_choices fuel (join markChoices us) = us.
Proof.
  intros Hne Hu. revert fuel. induction Hu as [|u us Hu Hus IH]; intros fuel Hf; [done|]. destruct us as [|u' us].
  - cbn [join]. destruct fuel; cbn [split_choices]; [done|]. unfold indexMark.
    pose proof (index_part u [] Hu (or_introl eq_refl)) as E. rewrite app_nil_r in E. by rewrite E.
  - change (join markChoices (u :: u' :: us)) with (u ++ markChoices ++ join markChoices (u' :: us)).
    destruct fuel as [|fuel]; [cbn in Hf; lia|]. cbn [split_choices]. unfold indexMark.
    rewrite index_part by first [done|apply mark_marked; mark]. rewrite scan_mark by first [apply split_marks|by left].
    rewrite take_app_length, drop_app_add, drop_app_length. f_equal. apply IH; [done|cbn in *; lia].
Qed.

Lemma splitChoices_parts us : us <> [] -> Forall part us -> splitChoices (join markChoices us) = us.
Proof.
  intros Hne Hu. apply split_join; [done..|].
  pose proof (join_parts_length us markChoices ltac:(eapply Forall_impl; [exact Hu|]; by intros u (_ & _ & _ & ?))). lia.
Qed.
End Reading.

(** ** Ambiguity *)

(** Why the names excluded are excluded: a name ending in a mark less its last space,
    or beginning in one less its first, is not quoted, and a transition between two
    such is spelled as another. *)
Lemma branch_spelling_ambiguous a b FormatWeight :
  let transition where_ took := new_choice ChoiceTransition 0 where_ took in
  labelNeedsQuoting a = false -> labelNeedsQuoting b = false ->
  labelNeedsQuoting (a ++ bs " ->") = false -> labelNeedsQuoting (bs "-> " ++ b) = false ->
  ChoiceTaken_String FormatWeight (transition (a ++ bs " ->") b) = ChoiceTaken_String FormatWeight (transition a (bs "-> " ++ b)).
Proof.
  intros transition Ha Hb Ha' Hb'. unfold transition, ChoiceTaken_String, branch_text, weightedTail, ChoiceTaken_weighted, choiceLabel, new_choice.
  cbn [cKind cWhere cTook cWeights cAlternatives length Nat.eqb Nat.ltb Nat.leb andb negb orb]. rewrite Ha, Hb, Ha', Hb'.
  by rewrite !app_nil_r, <- !app_assoc.
Qed.

(** ** An example *)

(** Numbers as [<sign><mantissa>e<exponent>]. *)
Definition plain_format (w : spec_float) : bytes :=
  match w with
  | S754_finite s m e => (if s then bs "-" else bs "+") ++ decimal_text (Zpos m) ++ "e"%ch :: decimal_text e
  | S754_zero s => (if s then bs "-" else bs "+") ++ decimal_text 0 ++ "e"%ch :: decimal_text 0
  | _ => bs "inf"
  end.
Definition plain_parse (t : bytes) : option spec_float :=
  match t with
  | [] => None
  | c :: t =>
      let '(m, e) := cut_exp t in
      m ← parse_decimal m; e ← parse_decimal e;
      Some (if m =? 0 then S754_zero (c =? "-"%ch) else S754_finite (c =? "-"%ch) (Z.to_pos m) e)
  end.

Lemma number_byte c : existsb (Z.eqb c) (bs "0123456789+-.e") = true -> c ∈ bs "0123456789+-.e".
Proof. intros (x & Hx & ->%Z.eqb_eq)%existsb_exists. by apply list_elem_of_In. Qed.

Lemma decimal_text_number z : number_text (decimal_text z).
Proof.
  assert (Hn : forall n, 0 <= n -> number_text (decimal_text n)).
  { intros n Hn. destruct (decide (n = 0)) as [->|]; [|apply step_digits; lia]. split; [done|]. change (decimal_text 0) with (bs "0"). constructor; [by apply number_byte|constructor]. }
  destruct (Z.le_gt_cases 0 z) as [Hz|Hz]; [by apply Hn|].
  replace (decimal_text z) with (bs "-" ++ decimal_text (- z)).
  - destruct (Hn (- z) ltac:(lia)) as [Hne Hf]. split; [done|]. constructor; [by apply number_byte|done].
  - unfold decimal_text. rewrite (proj2 (Z.ltb_lt z 0)), (proj2 (Z.ltb_ge (- z) 0)), Z.abs_opp by lia.
    unfold BitLen. rewrite Z.abs_opp. by rewrite !(proj2 (Z.eqb_neq _ _)) by lia.
Qed.

Lemma plain_floats : strconv_floats plain_format plain_parse.
Proof.
  assert (Hs : forall (s : bool) m e, 0 <= m ->
    let t := (if s then bs "-" else bs "+") ++ decimal_text m ++ "e"%ch :: decimal_text e in
    number_text t /\ plain_parse t = Some (if m =? 0 then S754_zero s else S754_finite s (Z.to_pos m) e)).
  { intros s m e Hm. split.
    - split; [by destruct s|]. apply Forall_app. split; [by destruct s; (constructor; [by apply number_byte|constructor])|].
      apply Forall_app. split; [apply decimal_text_number|]. constructor; [by apply number_byte|apply decimal_text_number].
    - destruct (decimal_text_digits m Hm) as (Hd & _).
      assert (Hc : cut_exp (decimal_text m ++ "e"%ch :: decimal_text e) = (decimal_text m, decimal_text e)).
      { pose proof (cut_exp_app (decimal_text m) (Some ("e"%ch, decimal_text e, []))) as H. cbn [exp_text] in H.
        rewrite app_nil_r in H. apply H; [|done]. eapply Forall_impl; [exact Hd|exact digit_not_exp]. }
      change (bs "-") with ["-"%ch]; change (bs "+") with ["+"%ch]. destruct s; cbn [app]; unfold plain_parse; rewrite Hc; cbn [mbind option_bind]; by rewrite !parse_decimal_text. }
  intros w _ Hfin. destruct w as [s| | |s m e]; try done.
  - by destruct (Hs s 0 0 ltac:(lia)) as [? ?].
  - by destruct (Hs s (Zpos m) e ltac:(lia)) as [? ?].
Qed.

(** A step's token order, a drawn branch and a region order, with names to quote. *)
Definition quarter : spec_float := f64 1 (-2).
Definition line_example : list ChoiceTaken :=
  [{| cKind := ChoiceTokenOrder; cStep := 3; cWhere := []; cAlternatives := 2; cTaken := 1; cAmong := [bs "A"; bs "it's; B"];
      cTook := bs "it's; B"; cWeights := []; cDrew := S754_zero false; cDrawn := false |};
   {| cKind := ChoiceDecisionBranch; cStep := 4; cWhere := bs "decision D"; cAlternatives := 2; cTaken := 0; cAmong := [bs "B -> C"; bs "E"];
      cTook := bs "B -> C"; cWeights := [quarter; f64 3 (-2)]; cDrew := quarter; cDrawn := true |};
   {| cKind := ChoiceRegionOrder; cStep := 0; cWhere := bs "state S"; cAlternatives := 1; cTaken := 0; cAmong := [[]];
      cTook := []; cWeights := []; cDrew := S754_zero false; cDrawn := false |}].

Ltac well_formed :=
  cbv [line_example choice_wf in_step order_wf where_wf branch_wf weighted_wf among_wf unweighted weight
       cKind cStep cWhere cAlternatives cTaken cAmong cTook cWeights cDrew cDrawn];
  repeat match goal with
  | |- clean _ => first [by left; vm_compute|by right; vm_compute]
  | |- Forall _ _ => constructor
  | |- _ /\ _ => split
  | |- _ -> _ => intros _
  end; try lia; try discriminate; vm_compute; reflexivity.
