(* ===== verification/Header.v ===== *)
(** * The header of a witness

    Models what precedes the trace of a witness file: [readHeader] and [ParseChoices] of
    [internal/exec/runtime/replay.go] with the readers of its lines - objects, inputs, the
    draw policy ([draw_policy.go]), the clock step ([clock.go]), draws ([modeled.go]) and
    choices ([Choice]) - and the lines [Witness.String] writes the choices on. Each line is
    told by how it opens, in the order the reader tries. An error carries the number of its
    line. [strconv]'s number text and quoting are parameters. An input read has no value
    yet, only its text: the field [Value] of [InputTaken] is left out. *)
From Stdlib Require Import Floats.SpecFloat.
From S2P Require Import Prelude Bytes Source Integer Decimal Real Explore Choice.
Local Open Scope Z_scope.

(** ** What a header holds *)

Record ObjectNamed := { ID : Z; Path : bytes }.
Record InputTaken := { Feature : bytes; Written : bytes }.
Inductive DrawPolicy := DrawRandom | DrawMin | DrawMax | DrawAverage.
Record DrawTaken := { What : bytes; Drawn_value : Value }.

(** The header of a [Witness]. *)
Record WitnessHeader := {
  Objects : list ObjectNamed; Inputs : list InputTaken; Policy : DrawPolicy; ClockStep : spec_float;
  Draws : list DrawTaken; Choices : list ChoiceTaken }.
Definition no_header : WitnessHeader :=
  {| Objects := []; Inputs := []; Policy := DrawRandom; ClockStep := S754_zero false; Draws := []; Choices := [] |}.

(** The errors of the lines: their type, text, line (0 where none is known) and reason. *)
Inductive line_error := objectParseError | inputParseError | drawParseError | clockStepParseError | ChoiceParseError.
Record parse_error := { eType : line_error; eText : bytes; eLine : nat; eReason : bytes }.
Definition line_fails (k : line_error) (text reason : bytes) : parse_error :=
  {| eType := k; eText := text; eLine := 0; eReason := reason |}.
Definition at_line (n : nat) (e : parse_error) : parse_error :=
  {| eType := e.(eType); eText := e.(eText); eLine := n; eReason := e.(eReason) |}.

Definition is_nil {A} (l : list A) : bool := match l with [] => true | _ => false end.

(** [strings.LastIndex], of a separator that is not empty. *)
Fixpoint last_index (s sub : bytes) : option nat :=
  match s with
  | [] => None
  | _ :: t => match last_index t sub with
              | Some i => Some (S i)
              | None => if has_prefix s sub then Some O else None
              end
  end.

Definition objectPrefix : bytes := bs "object #".
Definition inputPrefix : bytes := bs "input ".
Definition drawPolicyPrefix : bytes := bs "draws by ".
Definition clockStepPrefix : bytes := bs "clock steps by ".
Definition drawPrefix : bytes := bs "draw ".
Definition noChoicePoints : bytes := bs "no choice points".

(** ** Objects and inputs *)

Definition ObjectNamed_Number (o : ObjectNamed) : bytes := objectPrefix ++ decimal_text o.(ID).
Definition ObjectNamed_String (o : ObjectNamed) : bytes := objectPrefix ++ decimal_text o.(ID) ++ bs " = " ++ o.(Path).

Definition parseObject (text : bytes) : result parse_error ObjectNamed :=
  let text := TrimSpace text in
  let fail reason := Err (line_fails objectParseError text reason) in
  match cut_prefix text objectPrefix with
  | None => fail (bs "an object line starts with `object #`: object #<n> = <path>")
  | Some rest =>
      let '(digits, path, found) := cut rest (bs " = ") in
      let numbered := bs "an object is numbered from 1 and bound with ` = `: object #<n> = <path>" in
      match strconv_ParseInt digits with
      | None => fail numbered
      | Some id =>
          if negb found || (id <? 1) then fail numbered
          else
            let path := TrimSpace path in
            if is_nil path then fail (bs "the object's path is missing: object #<n> = <path>")
            else Ok {| ID := id; Path := path |}
      end
  end.

(** [strings.ContainsAny], of a blank or a tabulator. *)
Definition blank_in (s : bytes) : bool := existsb (fun c => elem c [" "%ch; TAB]) s.

Definition InputTaken_String (i : InputTaken) : bytes :=
  let feature := if labelNeedsQuoting i.(Feature) || blank_in i.(Feature) then UnrestrictedNameText i.(Feature)
                 else i.(Feature) in
  inputPrefix ++ feature ++ bs " = " ++ i.(Written).

Definition parseInput (text : bytes) : result parse_error InputTaken :=
  let text := TrimSpace text in
  let fail reason := Err (line_fails inputParseError text reason) in
  match cut_prefix text inputPrefix with
  | None => fail (bs "an input line starts with `input `: input <feature> = <value>")
  | Some rest =>
      let quoted := has_prefix rest ["'"%ch] in
      match readLabel rest [bs " = "] with
      | None => fail (bs "the feature's quoted name is left open")
      | Some (feature, mark, written) =>
          let written := TrimSpace written in
          if is_nil mark then fail (bs "an input needs ` = ` between the feature and its value: input <feature> = <value>")
          else if is_nil feature || (negb quoted && blank_in feature)
          then fail (bs "an input names one feature of the action or its performer before ` = `")
          else if is_nil written then fail (bs "an input needs a value after ` = `")
          else Ok {| Feature := feature; Written := written |}
      end
  end.

Section Numbers.
(** [strconv.ParseFloat(text, 64)], [strconv.FormatFloat(f, format, -1, 64)] and
    [strconv.Quote]. *)
Variables (ParseFloat : bytes -> option spec_float) (FormatFloat : spec_float -> Z -> bytes) (Quote : bytes -> bytes).

(** ** Draws and the clock *)

Definition ParseDrawPolicy (text : bytes) : result bytes DrawPolicy :=
  let t := TrimSpace text in
  if beq t (bs "random") then Ok DrawRandom
  else if beq t (bs "min") then Ok DrawMin
  else if beq t (bs "max") then Ok DrawMax
  else if beq t (bs "average") then Ok DrawAverage
  else Err (bs "invalid draw policy: " ++ Quote text ++ bs " is not one of random, min, max, average").

(** The reason a clock step is refused. *)
Definition CheckClockStep (step : spec_float) : option bytes :=
  if IsNaN step || IsInf step || SFltb step (S754_zero false)
  then Some (bs "invalid clock step: a clock steps by a finite, non-negative number of seconds, not " ++ FormatReal FormatFloat step)
  else None.

Definition ParseClockStep (text : bytes) : result bytes spec_float :=
  match ParseFloat (TrimSpace text) with
  | None => Err (bs "invalid clock step: " ++ Quote text ++ bs " is not a number of seconds")
  | Some step => match CheckClockStep step with Some e => Err e | None => Ok step end
  end.

Definition formatDrawn (v : Value) : bytes :=
  match v.(vKind) with
  | ValInt => FormatInt v
  | ValRational => FormatRational v
  | _ => let s := FormatFloat v.(Integer.Real) "g"%ch in
         if existsb (fun c => elem c (bs ".eIN")) s then s else s ++ bs ".0"
  end.
Definition DrawTaken_String (d : DrawTaken) : bytes := drawPrefix ++ d.(What) ++ bs " = " ++ formatDrawn d.(Drawn_value).

(** [semantics.Value{Kind: ValReal, Real: x}]. *)
Definition drawn_real (x : spec_float) : Value :=
  {| vKind := ValReal; vBool := false; den := 0; Int := 0; Integer.Real := x; ext := None |}.

Definition ParseDraw (text : bytes) : result parse_error DrawTaken :=
  let text := TrimSpace text in
  let fail reason := Err (line_fails drawParseError text reason) in
  match cut_prefix text drawPrefix with
  | None => fail (bs "a draw line starts with `draw `: draw <call> = <number>")
  | Some rest =>
      match last_index rest (bs " = ") with
      | None => fail (bs "a draw needs ` = ` between the call and its value: draw <call> = <number>")
      | Some at_ =>
          let what := TrimSpace (take at_ rest) in
          let written := TrimSpace (drop (at_ + length (bs " = ")) rest) in
          if is_nil what then fail (bs "a draw names the call that drew it before ` = `")
          else
            match strconv_ParseInt written with
            | Some n => Ok {| What := what; Drawn_value := IntValue n |}
            | None =>
                match ParseFloat written with
                | None => fail (bs "a draw's value is a number: draw <call> = <number>")
                | Some x =>
                    if is_nil written then fail (bs "a draw's value is a number: draw <call> = <number>")
                    else Ok {| What := what; Drawn_value := drawn_real x |}
                end
            end
      end
  end.

(** ** The lines *)

(** A line of the header: what is read so far, and whether a policy and a step are. *)
Abbreviation reading := (WitnessHeader * bool * bool)%type.

Definition read_object (line : bytes) (w : WitnessHeader) : result parse_error WitnessHeader :=
  match parseObject line with
  | Err e => Err e
  | Ok o =>
      if negb (is_nil w.(Inputs)) || negb (is_nil w.(Draws)) || negb (is_nil w.(Choices))
      then Err (line_fails objectParseError line (bs "objects come before the inputs and the moves, and before the draws"))
      else if existsb (fun seen => seen.(ID) =? o.(ID)) w.(Objects)
      then Err (line_fails objectParseError line (ObjectNamed_Number o ++ bs " is bound twice"))
      else Ok {| Objects := w.(Objects) ++ [o]; Inputs := w.(Inputs); Policy := w.(Policy); ClockStep := w.(ClockStep);
                 Draws := w.(Draws); Choices := w.(Choices) |}
  end.

Definition read_input (line : bytes) (w : WitnessHeader) : result parse_error WitnessHeader :=
  match parseInput line with
  | Err e => Err e
  | Ok i =>
      if negb (is_nil w.(Draws)) || negb (is_nil w.(Choices))
      then Err (line_fails inputParseError line (bs "inputs come before the moves, and before the draws"))
      else Ok {| Objects := w.(Objects); Inputs := w.(Inputs) ++ [i]; Policy := w.(Policy); ClockStep := w.(ClockStep);
                 Draws := w.(Draws); Choices := w.(Choices) |}
  end.

Definition read_policy (line rest : bytes) (policied : bool) (w : WitnessHeader) : result parse_error WitnessHeader :=
  let fail reason := Err (line_fails drawParseError line reason) in
  match ParseDrawPolicy rest with
  | Err reason => fail reason
  | Ok policy =>
      if negb (is_nil w.(Draws)) || negb (is_nil w.(Choices))
      then fail (bs "the draw policy comes before the draws and the moves")
      else if policied then fail (bs "the draw policy is named twice, and a witness draws by one")
      else Ok {| Objects := w.(Objects); Inputs := w.(Inputs); Policy := policy; ClockStep := w.(ClockStep);
                 Draws := w.(Draws); Choices := w.(Choices) |}
  end.

Definition read_step_line (line rest : bytes) (stepped : bool) (w : WitnessHeader) : result parse_error WitnessHeader :=
  let fail reason := Err (line_fails clockStepParseError line reason) in
  match ParseClockStep rest with
  | Err reason => fail reason
  | Ok step =>
      if SFeqb step (S754_zero false) then fail (bs "a continuous clock writes no clock step line")
      else if negb (is_nil w.(Draws)) || negb (is_nil w.(Choices))
      then fail (bs "the clock step comes before the draws and the moves")
      else if stepped then fail (bs "the clock step is named twice, and a run's clock steps by one")
      else Ok {| Objects := w.(Objects); Inputs := w.(Inputs); Policy := w.(Policy); ClockStep := step;
                 Draws := w.(Draws); Choices := w.(Choices) |}
  end.

Definition read_draw (line : bytes) (w : WitnessHeader) : result parse_error WitnessHeader :=
  match ParseDraw line with
  | Err e => Err e
  | Ok d =>
      if negb (is_nil w.(Choices)) then Err (line_fails drawParseError line (bs "draws come before the moves"))
      else Ok {| Objects := w.(Objects); Inputs := w.(Inputs); Policy := w.(Policy); ClockStep := w.(ClockStep);
                 Draws := w.(Draws) ++ [d]; Choices := w.(Choices) |}
  end.

Definition add_choice (w : WitnessHeader) (c : ChoiceTaken) : WitnessHeader :=
  {| Objects := w.(Objects); Inputs := w.(Inputs); Policy := w.(Policy); ClockStep := w.(ClockStep);
     Draws := w.(Draws); Choices := w.(Choices) ++ [c] |}.

(** The choices of a line, one after the other. *)
Fixpoint read_choices (parts : list bytes) (w : WitnessHeader) : result parse_error WitnessHeader :=
  match parts with
  | [] => Ok w
  | part :: parts =>
      match ParseChoice ParseFloat part with
      | Err reason => Err (line_fails ChoiceParseError (TrimSpace part) reason)
      | Ok c => read_choices parts (add_choice w c)
      end
  end.

Definition keeping (policied stepped : bool) (r : result parse_error WitnessHeader) : result parse_error reading :=
  match r with Err e => Err e | Ok w => Ok (w, policied, stepped) end.

(** A line that is not blank, trimmed. *)
Definition read_line (line : bytes) (r : reading) : result parse_error reading :=
  let '(w, policied, stepped) := r in
  if beq line noChoicePoints then Ok r
  else if has_prefix line objectPrefix then keeping policied stepped (read_object line w)
  else if has_prefix line inputPrefix then keeping policied stepped (read_input line w)
  else
    match cut_prefix line drawPolicyPrefix with
    | Some rest => keeping true stepped (read_policy line rest policied w)
    | None =>
        match cut_prefix line clockStepPrefix with
        | Some rest => keeping policied true (read_step_line line rest stepped w)
        | None =>
            if has_prefix line drawPrefix then keeping policied stepped (read_draw line w)
            else keeping policied stepped (read_choices (splitChoices line) w)
        end
    end.

(** The loop of [readHeader] from line [n] on: the header, and whether there is one. *)
Fixpoint read_lines (n : nat) (lines : list bytes) (headed : bool) (r : reading) : result parse_error (WitnessHeader * bool) :=
  match lines with
  | [] => Ok (r.1.1, headed)
  | line :: lines =>
      let line := TrimSpace line in
      if is_nil line then if headed then Ok (r.1.1, headed) else read_lines (S n) lines headed r
      else
        match read_line line r with
        | Err e => Err (at_line n e)
        | Ok r => read_lines (S n) lines true r
        end
  end.
Definition readHeader (text : bytes) : result parse_error (WitnessHeader * bool) :=
  read_lines 1 (split_byte NL text) false (no_header, false, false).

Definition ParseChoices (text : bytes) : result parse_error (list ChoiceTaken) :=
  match readHeader text with
  | Err e => Err e
  | Ok (w, _) =>
      match w.(Objects), w.(Inputs), w.(Draws) with
      | o :: _, _, _ => Err (line_fails objectParseError (ObjectNamed_String o) (bs "a witness naming objects is read by ParseWitness"))
      | _, i :: _, _ => Err (line_fails inputParseError (InputTaken_String i) (bs "a witness with inputs is read by ParseWitness"))
      | _, _, d :: _ => Err (line_fails drawParseError (DrawTaken_String d) (bs "a witness with draws is read by ParseWitness"))
      | _, _, _ => Ok w.(Choices)
      end
  end.

(** The lines [Witness.String] writes for the choices, and the blank line ending them. *)
Definition choice_lines (choices : list ChoiceTaken) : bytes :=
  (if is_nil choices then noChoicePoints ++ [NL] else [])
  ++ concat (map (fun c => ChoiceTaken_String (fun f => FormatFloat f "g"%ch) c ++ [NL]) choices) ++ [NL].
End Numbers.
