(* ===== verification/HeaderFacts.v ===== *)
(** * The header of a witness: properties

    The choices of a run are read back from what [FormatChoices] spells on one line and
    from the lines of a witness, through the reader of a whole header. *)
From Stdlib Require Import Floats.SpecFloat.
From S2P Require Import Prelude Bytes Source Integer Decimal Real Explore Choice ChoiceScan ChoiceFacts Header.
Local Open Scope Z_scope.

(** ** Lines *)

Lemma split_byte_line w rest : NL ∉ w -> split_byte NL (w ++ NL :: rest) = w :: split_byte NL rest.
Proof.
  induction w as [|c w IH]; intros Hw; cbn [app split_byte]; [done|].
  rewrite (proj2 (Z.eqb_neq c NL)) by set_solver. by rewrite IH by set_solver.
Qed.

Lemma split_byte_one w : NL ∉ w -> split_byte NL w = [w].
Proof.
  induction w as [|c w IH]; intros Hw; cbn [split_byte]; [done|].
  rewrite (proj2 (Z.eqb_neq c NL)) by set_solver. by rewrite IH by set_solver.
Qed.

Lemma no_break_app u v : NL ∉ u -> NL ∉ v -> NL ∉ u ++ v.
Proof. set_solver. Qed.

Lemma no_break_text u : forallb (fun c => negb (c =? NL)) u = true -> NL ∉ u.
Proof. intros H Hu. rewrite forallb_Forall, Forall_forall in H. by specialize (H NL Hu). Qed.

Lemma no_break_number t : number_text t -> NL ∉ t.
Proof. intros Ht H. destruct (number_facts t NL Ht H) as [Hb _]. vm_compute in Hb. by destruct Hb. Qed.

Lemma escape_no_break c : NL ∉ escape_byte "'"%ch c.
Proof.
  apply no_break_text. destruct (Z.eqb_spec c NL) as [->|Hc]; [reflexivity|]. apply Z.eqb_neq in Hc.
  unfold escape_byte. repeat match goal with |- context [if ?b then _ else _] => case b end; cbn [forallb]; rewrite ?Hc; reflexivity.
Qed.

Lemma no_break_join us sep : NL ∉ sep -> Forall (fun u => NL ∉ u) us -> NL ∉ join sep us.
Proof.
  intros Hs. induction 1 as [|u us Hu Hus IH]; [set_solver|]. destruct us as [|v us]; [done|].
  change (join sep (u :: v :: us)) with (u ++ sep ++ join sep (v :: us)). by repeat apply no_break_app.
Qed.

(** No spelled name has a line break. *)
Lemma label_no_break name : NL ∉ choiceLabel name.
Proof.
  destruct (labelNeedsQuoting name) eqn:E.
  - rewrite (choiceLabel_quoted name E). change (?x :: ?y ++ ?z) with ([x] ++ y ++ z).
    repeat apply no_break_app; [by apply no_break_text| |by apply no_break_text].
    intros (l & (c & <- & _)%in_map_iff & Hl)%list_elem_of_In%in_concat.
    by apply (escape_no_break c), list_elem_of_In.
  - unfold choiceLabel. rewrite E. unfold labelNeedsQuoting in E. apply orb_false_iff in E as [_ E].
    intros H. apply list_elem_of_In in H. apply not_true_iff_false in E. apply E, existsb_exists. by exists NL.
Qed.

Lemma labels_no_break names : NL ∉ choiceLabels names.
Proof.
  apply no_break_join; [by apply no_break_text|]. apply Forall_map, Forall_true. apply label_no_break.
Qed.

Ltac no_break := repeat lazymatch goal with
  | |- _ ∉ _ ++ _ => apply no_break_app
  | |- _ ∉ choiceLabel _ => apply label_no_break
  | |- _ ∉ choiceLabels _ => apply labels_no_break
  | |- _ => by apply no_break_text
  end.

Section Header.
Context (ParseFloat : bytes -> option spec_float) (FormatFloat : spec_float -> Z -> bytes) (Quote : bytes -> bytes).
Let FormatWeight (f : spec_float) : bytes := FormatFloat f "g"%ch.
Context (Hfloats : strconv_floats FormatWeight ParseFloat).

Local Abbreviation String := (ChoiceTaken_String FormatWeight).

Lemma tail_no_break c : (ChoiceTaken_weighted c = true -> weighted_wf c) -> NL ∉ weightedTail FormatWeight c.
Proof.
  intros Hw. unfold weightedTail. destruct (_ || _) eqn:E; [by apply no_break_text|].
  apply orb_false_iff in E as [E _]. apply negb_false_iff in E. destruct (Hw E) as (_ & _ & Hws & Hd).
  apply no_break_app; [no_break|]. apply no_break_app.
  - unfold weightedLabels. apply no_break_join; [no_break|]. revert Hws. generalize (cAmong c).
    induction (cWeights c) as [|w ws IH]; intros [|a l] Hws; [constructor..|]. inversion Hws; subst. constructor; [|by apply IH].
    no_break. by apply no_break_number, (weight_text FormatWeight ParseFloat).
  - destruct (cDrawn c); [|no_break]. no_break. apply no_break_number, (weight_text FormatWeight ParseFloat); [done|apply Hd].
Qed.

Lemma step_no_break n : 1 <= n -> NL ∉ step_text n.
Proof. intros Hn. unfold step_text. no_break. by apply no_break_number, step_digits. Qed.

Lemma branch_no_break c : branch_wf c -> NL ∉ branch_text FormatWeight c.
Proof. intros (_ & _ & _ & _ & Hw). unfold branch_text. no_break. by apply tail_no_break. Qed.

Lemma where_no_break c : NL ∉ where_text c.
Proof. unfold where_text, order_text. no_break. Qed.

Lemma choice_no_break c : choice_wf c -> NL ∉ String c.
Proof.
  unfold choice_wf, ChoiceTaken_String, in_step, order_text. intros Hc.
  destruct (cKind c); try done; try apply where_no_break.
  - apply no_break_app; [apply step_no_break; lia|no_break].
  - apply no_break_app; [apply step_no_break; lia|apply branch_no_break, Hc].
  - apply branch_no_break, Hc.
  - destruct (0 <? cStep c) eqn:E; [apply Z.ltb_lt in E; apply no_break_app; [apply step_no_break; lia|]|]; apply where_no_break.
  - destruct (0 <? cStep c) eqn:E; [apply Z.ltb_lt in E; apply no_break_app; [apply step_no_break; lia|]|]; apply where_no_break.
Qed.

(** A spelled choice has a mark, and is so no line for none. *)
Lemma choice_marks_in c : choice_wf c -> exists x, x ∈ bs ":>f" /\ x ∈ String c.
Proof.
  assert (Ho : "f"%ch ∈ order_text c).
  { unfold order_text. apply elem_of_app. right. apply elem_of_app. left. right. left. }
  assert (Hw : "f"%ch ∈ where_text c) by (unfold where_text; rewrite !elem_of_app; auto).
  assert (Hb : ">"%ch ∈ branch_text FormatWeight c).
  { unfold branch_text. apply elem_of_app. right. apply elem_of_app. left. right. right. left. }
  assert (Hf : "f"%ch ∈ bs ":>f") by (right; right; left).
  assert (Hg : ">"%ch ∈ bs ":>f") by (right; left).
  unfold choice_wf, ChoiceTaken_String. intros Hc.
  destruct (cKind c); try done; try (by exists "f"%ch); try (by exists ">"%ch).
  - exists "f"%ch. rewrite elem_of_app. auto.
  - exists ">"%ch. rewrite elem_of_app. auto.
  - exists "f"%ch. destruct (0 <? cStep c); rewrite ?elem_of_app; auto.
  - exists "f"%ch. destruct (0 <? cStep c); rewrite ?elem_of_app; auto.
Qed.

(** ** The line of choices *)

Definition header_words : list bytes := [objectPrefix; inputPrefix; drawPolicyPrefix; clockStepPrefix; drawPrefix].

(** The text opens with the word of another line of the header. *)
Definition opens_header (text : bytes) : bool := existsb (has_prefix text) header_words.

Lemma opens_header_join u rest :
  opens_header u = false -> rest = [] \/ head rest = Some ";"%ch -> opens_header (u ++ rest) = false.
Proof.
  intros Hu Hr. apply not_true_iff_false. intros (p & Hp & E)%existsb_exists. apply not_true_iff_false in Hu. apply Hu.
  apply existsb_exists. exists p. split; [done|]. apply has_prefix_spec in E as [t [(k & -> & _)|(k & -> & E)]%app_eq_inv].
  - apply has_prefix_app.
  - destruct k as [|x k]; [rewrite app_nil_r; apply has_prefix_spec; exists []; by rewrite app_nil_r|exfalso].
    destruct Hr as [->|Hr]; [done|]. rewrite E in Hr. injection Hr as ->.
    assert (H : forallb (forallb (fun c => negb (c =? ";"%ch))) header_words = true) by (vm_compute; reflexivity).
    rewrite forallb_forall in H. specialize (H _ Hp). rewrite forallb_app in H. cbn in H. by rewrite andb_false_r in H.
Qed.

Lemma read_choices_texts cs w :
  Forall choice_wf cs ->
  read_choices ParseFloat (map String cs) w = Ok (fold_left add_choice (map carried cs) w).
Proof.
  intros Hcs. revert w. induction Hcs as [|c cs Hc _ IH]; intros w; [done|]. cbn [map read_choices fold_left].
  rewrite (ParseChoice_String FormatWeight ParseFloat Hfloats) by done. apply IH.
Qed.

(** Spelled choices on a line. *)
Definition line_of (cs : list ChoiceTaken) : bytes := join markChoices (map String cs).

Lemma line_cons c cs : exists rest, line_of (c :: cs) = String c ++ rest /\ (rest = [] \/ head rest = Some ";"%ch).
Proof.
  unfold line_of. cbn [map]. destruct (map String cs) as [|u us]; [exists []; cbn [join]; rewrite app_nil_r; auto|].
  exists (markChoices ++ join markChoices (u :: us)). auto.
Qed.

Lemma texts_parts cs : Forall choice_wf cs -> Forall part (map String cs).
Proof. intros H. apply Forall_map. eapply Forall_impl; [exact H|]. intros c. by eapply choice_part. Qed.

Lemma join_trimmed us : us <> [] -> Forall part us -> starts (join markChoices us) /\ ends (join markChoices us).
Proof.
  intros Hne Hu. induction Hu as [|u us (_ & Su & Eu & Nu) Hus IH]; [done|]. destruct us as [|v us]; [done|].
  change (join markChoices (u :: v :: us)) with (u ++ markChoices ++ join markChoices (v :: us)).
  destruct (IH ltac:(done)) as [_ He].
  split; [apply starts_app; [done..|by apply mark_marked, is_mark]|].
  apply ends_app; [done| |by apply is_mark]. inversion Hus as [|? ? (_ & _ & _ & Nv)]; subst. destruct us; [done|]. by destruct v.
Qed.

Lemma line_trimmed cs : cs <> [] -> Forall choice_wf cs -> TrimSpace (line_of cs) = line_of cs /\ line_of cs <> [].
Proof.
  intros Hne H. pose proof (texts_parts cs H) as Hp. destruct (join_trimmed (map String cs)) as [Hs He]; [by destruct cs|done|].
  split; [by apply TrimSpace_trimmed|]. destruct cs as [|c cs]; [done|]. destruct (line_cons c cs) as (rest & -> & _).
  inversion Hp as [|? ? (_ & _ & _ & Nc)]; subst. by destruct (String c).
Qed.

Lemma read_line_choices c cs r :
  Forall choice_wf (c :: cs) -> opens_header (String c) = false ->
  read_line ParseFloat FormatFloat Quote (line_of (c :: cs)) r
    = Ok (fold_left add_choice (map carried (c :: cs)) r.1.1, r.1.2, r.2).
Proof.
  intros Hcs Ho. destruct r as [[w policied] stepped]. unfold read_line. cbn [fst snd].
  assert (Hn : beq (line_of (c :: cs)) noChoicePoints = false).
  { apply beq_false. intros E. inversion Hcs as [|? ? Hc _]; subst. destruct (choice_marks_in c Hc) as (x & Hx & Hin).
    assert (H : x ∈ noChoicePoints) by (rewrite <- E; destruct (line_cons c cs) as (rest & -> & _); apply elem_of_app; by left).
    assert (Hf : forallb (fun x => negb (elem x noChoicePoints)) (bs ":>f") = true) by (vm_compute; reflexivity).
    rewrite forallb_forall in Hf. specialize (Hf x (proj1 (list_elem_of_In _ _) Hx)). apply negb_true_iff, not_true_iff_false in Hf.
    apply Hf, existsb_exists. exists x. split; [by apply list_elem_of_In|apply Z.eqb_refl]. }
  rewrite Hn. assert (Hh : opens_header (line_of (c :: cs)) = false).
  { destruct (line_cons c cs) as (rest & -> & Hr). by apply opens_header_join. }
  unfold opens_header, header_words in Hh. cbn [existsb] in Hh. repeat apply orb_false_iff in Hh as [? Hh].
  unfold cut_prefix. repeat match goal with H : has_prefix _ _ = false |- _ => rewrite H; clear H end.
  unfold line_of. rewrite splitChoices_parts by first [done|by apply texts_parts]. by rewrite read_choices_texts.
Qed.

(** The lines of the choices, up to the blank one. *)
Lemma read_lines_choices n cs rest headed r :
  Forall choice_wf cs -> Forall (fun c => opens_header (String c) = false) cs -> cs <> [] \/ headed = true ->
  read_lines ParseFloat FormatFloat Quote n (map String cs ++ [] :: rest) headed r
    = Ok (fold_left add_choice (map carried cs) r.1.1, true).
Proof.
  intros Hcs Ho Hh. revert n headed r Hh. induction Hcs as [|c cs Hc Hcs IH]; intros n headed r Hh.
  - destruct Hh as [?| ->]; done.
  - inversion Ho as [|? ? Ho1 Ho2]; subst. cbn [map app read_lines].
    destruct (line_trimmed [c] ltac:(done) ltac:(by constructor)) as [Ht Hn]. change (line_of [c]) with (String c) in Ht, Hn.
    rewrite Ht. destruct (String c) as [|b t] eqn:Es; [done|]. cbn [is_nil]. rewrite <- Es in *.
    change (String c) with (line_of [c]). rewrite read_line_choices by (by repeat constructor).
    rewrite IH by auto. done.
Qed.

Lemma read_header_line c cs :
  Forall choice_wf (c :: cs) -> opens_header (String c) = false ->
  readHeader ParseFloat FormatFloat Quote (line_of (c :: cs)) = Ok (fold_left add_choice (map carried (c :: cs)) no_header, true).
Proof.
  intros Hcs Ho. unfold readHeader. rewrite split_byte_one.
  - destruct (line_trimmed (c :: cs) ltac:(done) Hcs) as [Ht Hn]. cbn [read_lines]. rewrite Ht.
    destruct (line_of (c :: cs)) as [|b t] eqn:El; [done|]. cbn [is_nil]. rewrite <- El, read_line_choices by done. done.
  - apply no_break_join; [by apply no_break_text|]. apply Forall_map. eapply Forall_impl; [exact Hcs|]. apply choice_no_break.
Qed.

Lemma choice_lines_split c cs rest :
  Forall choice_wf (c :: cs) ->
  split_byte NL (choice_lines FormatFloat (c :: cs) ++ rest) = map String (c :: cs) ++ [] :: split_byte NL rest.
Proof.
  unfold choice_lines. cbn [is_nil app]. induction 1 as [|d ds Hd _ IH]; [done|].
  cbn [map concat]. rewrite <- !app_assoc in *. cbn [app]. rewrite split_byte_line by by apply choice_no_break.
  f_equal. exact IH.
Qed.

Lemma read_header_lines cs rest :
  Forall choice_wf cs -> Forall (fun c => opens_header (String c) = false) cs ->
  readHeader ParseFloat FormatFloat Quote (choice_lines FormatFloat cs ++ rest)
    = Ok (fold_left add_choice (map carried cs) no_header, true).
Proof.
  intros Hcs Ho. unfold readHeader. destruct cs as [|c cs]; [done|].
  rewrite choice_lines_split by done. apply read_lines_choices; auto.
Qed.
End Header.

Lemma added_choices l w :
  fold_left add_choice l w = {| Objects := w.(Objects); Inputs := w.(Inputs); Policy := w.(Policy);
    ClockStep := w.(ClockStep); Draws := w.(Draws); Choices := w.(Choices) ++ l |}.
Proof.
  revert w. induction l as [|c l IH]; intros w; cbn [fold_left]; [by rewrite app_nil_r; destruct w|].
  rewrite IH. cbn. by rewrite <- app_assoc.
Qed.

(** C28: the choices of a run are read back: [ParseChoices], the reader of a whole witness
    header, gives for the line [FormatChoices] spells for any choices - orders, branches
    and transitions, weighted or not, inside a step or outside, or none - each as the line
    carries it, and so it does for the lines a witness holds them on, whatever follows
    the blank line. This is for well-formed choices ([choice_wf]), whose names are quoted or
    do not run into the line's punctuation (else see [branch_spelling_ambiguous]), none
    spelled with the opening words of another line of the header (else see
    [header_word_misread]), and given that [strconv] reads back the finite binary64
    numbers it prints. *)
Theorem choices_roundtrip ParseFloat FormatFloat Quote (cs : list ChoiceTaken) (rest : bytes) :
  let FormatWeight f := FormatFloat f "g"%ch in
  strconv_floats FormatWeight ParseFloat -> Forall choice_wf cs ->
  Forall (fun c => opens_header (ChoiceTaken_String FormatWeight c) = false) cs ->
  ParseChoices ParseFloat FormatFloat Quote (FormatChoices FormatWeight cs) = Ok (map carried cs) /\
  ParseChoices ParseFloat FormatFloat Quote (choice_lines FormatFloat cs ++ rest) = Ok (map carried cs).
Proof.
  intros FormatWeight Hf Hcs Ho. unfold ParseChoices. split.
  - destruct cs as [|c cs]; [done|]. inversion Ho; subst. change (FormatChoices _ _) with (line_of FormatFloat (c :: cs)).
    rewrite read_header_line by done. by rewrite added_choices.
  - rewrite read_header_lines by done. by rewrite added_choices.
Qed.

(** The binary64 text of the witness, in whatever format. *)
Definition plain_FormatFloat (f : spec_float) (format : Z) : bytes := plain_format f.

Lemma choices_roundtrip_witness :
  Forall choice_wf line_example /\
  FormatChoices plain_format line_example =
    bs "step 3: 'it\'s; B' first of A, 'it\'s; B'; step 4: decision D -> 'B -> C' among 'B -> C' p=+4503599627370496e-54, E p=+6755399441055744e-53 drew +4503599627370496e-54; state S: '' first of ''" /\
  ParseChoices plain_parse plain_FormatFloat id (FormatChoices plain_format line_example) = Ok (map carried line_example) /\
  ParseChoices plain_parse plain_FormatFloat id (choice_lines plain_FormatFloat line_example ++ bs "draw x") = Ok (map carried line_example).
Proof.
  assert (Hwf : Forall choice_wf line_example) by well_formed.
  split; [exact Hwf|]. split; [vm_compute; reflexivity|].
  apply (choices_roundtrip plain_parse plain_FormatFloat id line_example (bs "draw x")); [exact plain_floats|exact Hwf|].
  repeat constructor.
Defined.

(** Why the opening words are excluded: the transition from a place `draw x` is written
    unquoted, and read as a draw line. *)
Lemma header_word_misread :
  let c := new_choice ChoiceTransition 0 (bs "draw x") (bs "b") in
  choice_wf c /\ FormatChoices plain_format [c] = bs "draw x -> b" /\
  ParseChoices plain_parse plain_FormatFloat id (FormatChoices plain_format [c])
    = Err {| eType := drawParseError; eText := bs "draw x -> b"; eLine := 1;
             eReason := bs "a draw needs ` = ` between the call and its value: draw <call> = <number>" |}.
Proof.
  intros c. split; [|split; vm_compute; reflexivity]. split; [done|]. unfold branch_wf.
  split_and!; [right; by vm_compute|right; by vm_compute|done|done|]. intros H. by vm_compute in H.
Qed.

(** A choice made in a step opens with its step. *)
Lemma step_opens_no_header n text : opens_header (step_text n ++ text) = false.
Proof. reflexivity. Qed.
