(* ===== verification/Scanner.v ===== *)
(** * The parser's scanner

    Models [internal/syntax/parser/scanner.go]: the token stream as the parser reads
    it, a keyword the file's own grammar does not reserve handed on as a name. The
    [head] index of the source's queue is what is left of [pending]. *)
From S2P Require Import Prelude Bytes Source Lexer.

Record Scanner := { s_lx : Lexer; s_kind : Source.Kind; pending : list Token }.

Definition NewScanner (content : bytes) (kind : Source.Kind) : Scanner :=
  {| s_lx := New content; s_kind := kind; pending := [] |}.

Definition set_scan (s : Scanner) (lx : Lexer) (q : list Token) : Scanner :=
  {| s_lx := lx; s_kind := s.(s_kind); pending := q |}.

(** The next raw token, from the queue before the lexer. *)
Definition Scanner_take (s : Scanner) : Token * Scanner :=
  match s.(pending) with
  | t :: q => (t, set_scan s s.(s_lx) q)
  | [] => let '(t, lx) := Next s.(s_lx) in (t, set_scan s lx [])
  end.

(** Trivia, and the comments the parser skips with it. *)
Definition skipped (t : Token) : bool := IsTrivia t || bool_decide (t.(tkKind) = RegularComment).

(** The queue's token [i], scanned when it is the next. *)
Definition fetch (i : nat) (s : Scanner) : Token * Scanner :=
  match s.(pending) !! i with
  | Some t => (t, s)
  | None => let '(t, lx) := Next s.(s_lx) in (t, set_scan s lx (s.(pending) ++ [t]))
  end.

(** The loop of [ahead] at the queue's index [i]; out of fuel it returns [last]. *)
Fixpoint ahead_loop (fuel i seen n : nat) (last : Token) (s : Scanner) : Token * Scanner :=
  match fuel with
  | O => (last, s)
  | S fuel' =>
      let '(t, s) := fetch i s in
      if skipped t then ahead_loop fuel' (S i) seen n t s
      else if (seen =? n) || bool_decide (t.(tkKind) = EOF) then (t, s)
      else ahead_loop fuel' (S i) (S seen) n t s
  end.
Definition no_token : Token :=
  {| tkKind := Invalid; tkSpan := {| Offset := 0; Len := 0 |}; KeywordID := []; Unterminated := false; BadEscape := false |}.
Definition ahead (n : nat) (s : Scanner) : Token * Scanner :=
  ahead_loop (S (length s.(s_lx).(src))) 0 0 n no_token s.

Definition Reserves (kind : Source.Kind) (keywordID : bytes) : bool :=
  bool_decide (kind = KindUnknown) || IsKeywordIn keywordID kind.

Definition wordBinaryOpKeywords : list bytes :=
  map bs ["implies"; "or"; "xor"; "and"; "hastype"; "istype"; "as"; "meta"]%string.

Definition continuesDeclaration (t : Token) : bool :=
  match t.(tkKind) with
  | Semicolon | Colon | LBracket | LBrace | Eq | ColonEq | ColonGt | ColonGtGt | ColonColonGt | EqGt | Keyword => true
  | _ => false
  end.

Definition spellsName (t : Token) : bool :=
  match t.(tkKind) with Identifier | UnrestrictedName | Keyword => true | _ => false end.

Definition readsAsName (s : Scanner) : bool * Scanner :=
  let '(next, s) := ahead 0 s in
  match next.(tkKind) with
  | Identifier | UnrestrictedName => (false, s)
  | Keyword => (in_set next.(KeywordID) wordBinaryOpKeywords || beq next.(KeywordID) (bs "else"), s)
  | Lt =>
      let '(t1, s) := ahead 1 s in
      if negb (spellsName t1) then (true, s)
      else
        let '(t2, s) := ahead 2 s in
        if negb (bool_decide (t2.(tkKind) = Gt)) then (true, s)
        else
          let '(after, s) := ahead 3 s in
          if spellsName after then
            let '(after, s) := ahead 4 s in (negb (continuesDeclaration after), s)
          else (negb (continuesDeclaration after), s)
  | Hash => let '(t1, s) := ahead 1 s in (bool_decide (t1.(tkKind) = LParen), s)
  | _ => (true, s)
  end.

Definition as_identifier (t : Token) : Token :=
  {| tkKind := Identifier; tkSpan := t.(tkSpan); KeywordID := []; Unterminated := t.(Unterminated); BadEscape := t.(BadEscape) |}.

Definition Scanner_Next (s : Scanner) : Token * Scanner :=
  let '(tok, s) := Scanner_take s in
  if bool_decide (tok.(tkKind) = Keyword) && negb (Reserves s.(s_kind) tok.(KeywordID)) then
    let '(name, s) := readsAsName s in
    (if name then as_identifier tok else tok, s)
  else (tok, s).
