(* ===== verification/ScannerFacts.v ===== *)
(** * The parser's scanner: properties

    The queue of tokens scanned ahead is invisible: the scanner reads the lexer's
    tokens, each classified by the tokens after it. *)
From S2P Require Import Prelude Bytes Source Lexer LexerFacts Scanner.

(** ** The lexer's tokens *)

(** The tokens a lexer has left before the end of its input. *)
Inductive lexes : Lexer -> list Token -> Prop :=
  | lexes_end lx : length lx.(src) <= lx.(pos) -> lexes lx []
  | lexes_token lx t lx' r :
      Next lx = (t, lx') -> t.(tkKind) <> EOF -> lx.(pos) < lx'.(pos) <= length lx.(src) -> lx'.(src) = lx.(src) ->
      lexes lx' r -> lexes lx (t :: r).

Lemma lexes_from content p : p <= length content -> exists r, lexes {| src := content; pos := p |} r
  /\ forall fuel, length content - p < fuel -> tokens fuel {| src := content; pos := p |} = Some (r ++ [EOF_token content]).
Proof.
  remember (length content - p) as n eqn:En. revert p En. induction (lt_wf n) as [n _ IH]. intros p En Hp.
  destruct (decide (p = length content)) as [->|Hne].
  - exists []. split; [by constructor|]. intros [|fuel] Hf; [lia|]. cbn [tokens]. rewrite Next_end by done. done.
  - destruct (lookup_lt_is_Some_2 content p) as [c Hc]; [lia|].
    destruct (next_token_scanned _ _ _ Hc) as (Hsp & Hb & Hk).
    assert (Hn : Next {| src := content; pos := p |} = ((next_token content p).1, {| src := content; pos := (next_token content p).2 |}))
      by (unfold Next; cbn [src pos]; by destruct (next_token content p)).
    destruct (IH (length content - (next_token content p).2)) with (p := (next_token content p).2) as (r & Hr & Ht); [lia..|].
    exists ((next_token content p).1 :: r). split; [eapply lexes_token; done|].
    intros [|fuel] Hf; [lia|]. cbn [tokens]. rewrite Hn, decide_False by done. by rewrite Ht by lia.
Qed.

Lemma lexes_bound lx r : lexes lx r -> length r <= length lx.(src) - lx.(pos).
Proof. induction 1 as [|lx t lx' r _ _ Hp Hs _ IH]; cbn [length]; [lia|]. rewrite Hs in IH. lia. Qed.

Lemma lexes_not_end lx r : lexes lx r -> Forall (fun t => t.(tkKind) <> EOF) r.
Proof. induction 1; by constructor. Qed.

(** ** The queue *)

Section Queue.
Context (content : bytes).
Abbreviation eof := (EOF_token content).

(** The [i]th token of what is left, the end of input past it. *)
Definition raw (r : list Token) (i : nat) : Token := default eof (r !! i).

(** A scanner with the lexer's tokens [r] left, some of them queued. *)
Definition queued (s : Scanner) (r : list Token) : Prop :=
  s.(s_lx).(src) = content /\ Forall (fun t => t.(tkKind) <> EOF) r /\ length r <= length content /\
  exists r0 k, lexes s.(s_lx) r0 /\ s.(pending) ++ r0 = r ++ replicate k eof.

Lemma raw_replicate r k i t : (r ++ replicate k eof) !! i = Some t -> raw r i = t.
Proof.
  unfold raw. intros [H|[Hl H]]%lookup_app_Some; [by rewrite H|].
  apply lookup_replicate in H as [-> _]. by rewrite lookup_ge_None_2.
Qed.

Lemma Next_lexes lx r : lx.(src) = content -> lexes lx r -> exists lx',
  Next lx = (raw r 0, lx') /\ lx'.(src) = content /\ lexes lx' (tail r).
Proof.
  intros Hs H. destruct H as [lx He|lx t lx' r Hn _ _ Hs' Hr].
  - destruct lx as [s p]. cbn in *. subst s. rewrite Next_end by done. eexists. split; [done|]. split; [done|]. by constructor.
  - exists lx'. split; [done|]. split; [congruence|done].
Qed.

Lemma fetch_spec s r i :
  queued s r -> i <= length s.(pending) ->
  exists s', fetch i s = (raw r i, s') /\ queued s' r /\ s'.(s_kind) = s.(s_kind) /\ S i <= length s'.(pending).
Proof.
  intros (Hs & Hr & Hl & r0 & k & Hlx & E) Hi. unfold fetch. destruct (pending s !! i) as [t|] eqn:Ei.
  - exists s. split_and!; [|by split_and!; eauto|done|by apply lookup_lt_Some in Ei].
    f_equal. symmetry. apply raw_replicate with k. rewrite <- E. by apply lookup_app_l_Some.
  - apply lookup_ge_None in Ei. assert (i = length (pending s)) as -> by lia.
    destruct (Next_lexes _ _ Hs Hlx) as (lx' & Hn & Hs' & Hlx').
    assert (Ht : raw r0 0 = raw r (length (pending s))
              /\ exists k', (pending s ++ [raw r0 0]) ++ tail r0 = r ++ replicate k' eof).
    { destruct r0 as [|t r0]; cbn [tail].
      - rewrite app_nil_r in E. assert (Hp : length (pending s) = length r + k) by (by rewrite E, length_app, length_replicate).
        split; [unfold raw; rewrite !lookup_ge_None_2 by (cbn; lia); done|]. exists (S k).
        rewrite app_nil_r, E, <- app_assoc. f_equal. change [raw [] 0] with (replicate 1 eof). rewrite <- replicate_add. f_equal. lia.
      - split; [|exists k; by rewrite <- app_assoc].
        symmetry. apply raw_replicate with k. rewrite <- E. rewrite lookup_app_r by done. by rewrite Nat.sub_diag. }
    destruct Ht as (Ht & k' & E'). rewrite Hn, Ht. eexists. split; [done|]. unfold set_scan. cbn [s_kind pending].
    split_and!; [|done|rewrite length_app; cbn; lia]. split_and!; [done..|]. exists (tail r0), k'. by rewrite <- Ht.
Qed.

(** What [ahead] looks through: the tokens not skipped. *)
Definition kept (r : list Token) : list Token := filter (fun t => skipped t = false) r.

Lemma kept_nth r i :
  i < length r -> kept (take (S i) r) = kept (take i r) ++ (if skipped (raw r i) then [] else [raw r i]).
Proof.
  intros Hi. destruct (lookup_lt_is_Some_2 r i Hi) as [t Ht]. rewrite (take_S_r _ _ t Ht). unfold kept, raw. rewrite filter_app, Ht. cbn [default].
  f_equal. rewrite filter_cons, filter_nil. change (id t) with t. by destruct (skipped t); case_decide.
Qed.

Lemma ahead_loop_spec s r n fuel i seen last :
  queued s r -> i <= length s.(pending) -> i <= length r -> seen = length (kept (take i r)) -> seen <= n -> length r - i < fuel ->
  exists s', ahead_loop fuel i seen n last s = (raw (kept r) n, s') /\ queued s' r /\ s'.(s_kind) = s.(s_kind).
Proof.
  revert s i seen last. induction fuel as [|fuel IH]; intros s i seen last Hq Hp Hi Hseen Hn Hf; [lia|].
  cbn [ahead_loop]. destruct (fetch_spec s r i Hq Hp) as (s' & -> & Hq' & Hk & Hp').
  destruct (decide (i = length r)) as [->|Hne].
  - assert (raw r (length r) = eof) as -> by (unfold raw; by rewrite lookup_ge_None_2).
    change (skipped eof) with false. cbv iota. rewrite bool_decide_true by done. rewrite orb_true_r.
    exists s'. split_and!; [|done..]. f_equal. unfold raw. rewrite take_ge in Hseen by done. by rewrite lookup_ge_None_2 by lia.
  - pose proof (kept_nth r i ltac:(lia)) as Hkept. destruct (skipped (raw r i)) eqn:Esk.
    + rewrite app_nil_r in Hkept. destruct (IH s' (S i) seen (raw r i) Hq' Hp') as (s2 & -> & Hq2 & Hk2); [lia|by rewrite Hkept|lia..|].
      exists s2. by rewrite Hk2.
    + assert (Hin : raw r i ∈ r).
      { destruct (lookup_lt_is_Some_2 r i) as [t Ht]; [lia|]. unfold raw. rewrite Ht. by eapply list_elem_of_lookup_2. }
      assert (Hneof : tkKind (raw r i) <> EOF).
      { destruct Hq as (_ & Hall & _). rewrite Forall_forall in Hall. by apply Hall. }
      rewrite (bool_decide_false (_ = EOF)) by done. rewrite orb_false_r. destruct (seen =? n) eqn:Es.
      * apply Nat.eqb_eq in Es. exists s'. split_and!; [|done..]. f_equal. unfold raw at 2.
        assert (E : kept r = kept (take (S i) r) ++ kept (drop (S i) r)) by (unfold kept; by rewrite <- filter_app, take_drop).
        rewrite E, Hkept, lookup_app_l by (rewrite length_app; cbn; lia). rewrite lookup_app_r by lia. by replace (n - _) with 0 by lia.
      * apply Nat.eqb_neq in Es. destruct (IH s' (S i) (S seen) (raw r i) Hq' Hp') as (s2 & -> & Hq2 & Hk2).
        { lia. } { rewrite Hkept, length_app. cbn. lia. } { lia. } { lia. }
        exists s2. by rewrite Hk2.
Qed.

Lemma ahead_spec s r n : queued s r ->
  exists s', ahead n s = (raw (kept r) n, s') /\ queued s' r /\ s'.(s_kind) = s.(s_kind).
Proof.
  intros Hq. destruct Hq as (Hs & Hr & Hl & H) eqn:E. unfold ahead. rewrite Hs.
  apply ahead_loop_spec; (done || lia || (rewrite take_0; done) || idtac).
Qed.

(** ** Reading *)

(** Whether the unreserved keyword before [r] is a name: what follows neither names,
    nor qualifies a declaration. *)
Definition name_before (r : list Token) : bool :=
  let k i := raw (kept r) i in
  match (k 0).(tkKind) with
  | Identifier | UnrestrictedName => false
  | Keyword => in_set (k 0).(KeywordID) wordBinaryOpKeywords || beq (k 0).(KeywordID) (bs "else")
  | Lt => negb (spellsName (k 1) && bool_decide ((k 2).(tkKind) = Gt)
                && continuesDeclaration (if spellsName (k 3) then k 4 else k 3))
  | Hash => bool_decide ((k 1).(tkKind) = LParen)
  | _ => true
  end.

Lemma readsAsName_spec s r : queued s r ->
  exists s', readsAsName s = (name_before r, s') /\ queued s' r /\ s'.(s_kind) = s.(s_kind).
Proof.
  intros Hq. unfold readsAsName, name_before. destruct (ahead_spec s r 0 Hq) as (s0 & -> & H0 & K0).
  destruct (tkKind (raw (kept r) 0)); try (by exists s0).
  - destruct (ahead_spec s0 r 1 H0) as (s1 & -> & H1 & K1). destruct (spellsName _); [|exists s1; by rewrite K1]. cbn [negb andb].
    destruct (ahead_spec s1 r 2 H1) as (s2 & -> & H2 & K2). destruct (bool_decide _); [|exists s2; by rewrite K2, K1]. cbn [negb andb].
    destruct (ahead_spec s2 r 3 H2) as (s3 & -> & H3 & K3). destruct (spellsName _); [|exists s3; by rewrite K3, K2, K1].
    destruct (ahead_spec s3 r 4 H3) as (s4 & -> & H4 & K4). exists s4. by rewrite K4, K3, K2, K1.
  - destruct (ahead_spec s0 r 1 H0) as (s1 & -> & H1 & K1). exists s1. by rewrite K1.
Qed.

Definition classified (kind : Source.Kind) (t : Token) (r : list Token) : Token :=
  if bool_decide (t.(tkKind) = Keyword) && negb (Reserves kind t.(KeywordID)) && name_before r then as_identifier t else t.

(** The tokens as the parser reads them. *)
Fixpoint reading (kind : Source.Kind) (r : list Token) : list Token :=
  match r with [] => [] | t :: r' => classified kind t r' :: reading kind r' end.

Lemma raw_app r k i : raw (r ++ replicate k eof) i = raw r i.
Proof.
  destruct ((r ++ replicate k eof) !! i) as [t|] eqn:E.
  - rewrite (raw_replicate _ _ _ _ E). unfold raw. by rewrite E.
  - unfold raw. rewrite E. apply lookup_ge_None in E. rewrite length_app in E. by rewrite lookup_ge_None_2 by lia.
Qed.
Lemma tail_app r k : exists k', tail (r ++ replicate k eof) = tail r ++ replicate k' eof.
Proof. destruct r; cbn [tail app]; [exists (pred k); by destruct k|by exists k]. Qed.

Lemma take_spec s r : queued s r ->
  exists s', Scanner_take s = (raw r 0, s') /\ queued s' (tail r) /\ s'.(s_kind) = s.(s_kind).
Proof.
  intros (Hs & Hr & Hl & r0 & k & Hlx & E). unfold Scanner_take.
  assert (Hr' : Forall (fun t => tkKind t <> EOF) (tail r) /\ length (tail r) <= length content)
    by (destruct Hr; cbn in *; split; (done || lia)).
  destruct Hr' as [Hr' Hl']. destruct (tail_app r k) as [k' Ek]. rewrite <- E in Ek. destruct (pending s) as [|t q] eqn:Ep; cbn [app] in E, Ek.
  - destruct (Next_lexes _ _ Hs Hlx) as (lx' & -> & Hs' & Hlx'). eexists. split; [by rewrite E, raw_app|].
    split; [|done]. split_and!; [done..|]. by exists (tail r0), k'.
  - eexists. split; [by rewrite <- (raw_app r k), <- E|]. split; [|done]. split_and!; [done..|]. by exists r0, k'.
Qed.

(** One token read. *)
Lemma Scanner_Next_spec s r : queued s r ->
  exists s', Scanner_Next s = (raw (reading s.(s_kind) r) 0, s') /\ queued s' (tail r) /\ s'.(s_kind) = s.(s_kind).
Proof.
  intros Hq. unfold Scanner_Next. destruct (take_spec s r Hq) as (s1 & -> & H1 & K1). rewrite K1.
  destruct r as [|t r]; [by exists s1|]. change (raw (t :: r) 0) with t. change (raw (reading (s_kind s) (t :: r)) 0) with (classified (s_kind s) t r).
  unfold classified. destruct (bool_decide _ && negb _); [|by exists s1]. cbn [tail] in *.
  destruct (readsAsName_spec s1 r H1) as (s2 & -> & H2 & K2). exists s2. rewrite K2, K1. by destruct (name_before r).
Qed.
End Queue.

(** The tokens read up to the end of input. *)
Fixpoint scans (fuel : nat) (s : Scanner) : list Token :=
  match fuel with
  | O => []
  | S fuel' => let '(t, s') := Scanner_Next s in if decide (t.(tkKind) = EOF) then [t] else t :: scans fuel' s'
  end.

Lemma queued_new content kind : exists r, queued content (NewScanner content kind) r
  /\ tokens (S (length content)) (New content) = Some (r ++ [EOF_token content]).
Proof.
  destruct (lexes_from content 0) as (r & Hr & Ht); [lia|]. exists r. split; [|apply Ht; lia].
  split; [done|]. split; [by eapply lexes_not_end|]. pose proof (lexes_bound _ _ Hr) as Hb. cbn in Hb. split; [lia|].
  exists r, 0. by rewrite app_nil_r.
Qed.

Lemma reading_not_end content kind r : Forall (fun t => t.(tkKind) <> EOF) r -> Forall (fun t => t.(tkKind) <> EOF) (reading content kind r).
Proof.
  induction 1 as [|t r Ht Hr IH]; constructor; [|done]. unfold classified. by destruct (_ && _).
Qed.

Lemma scans_spec content s r fuel : queued content s r -> length r < fuel ->
  scans fuel s = reading content s.(s_kind) r ++ [EOF_token content].
Proof.
  revert s r. induction fuel as [|fuel IH]; intros s r Hq Hf; [lia|]. cbn [scans].
  destruct (Scanner_Next_spec content s r Hq) as (s' & -> & Hq' & Hk).
  pose proof (reading_not_end content (s_kind s) r ltac:(apply Hq)) as Hne. destruct r as [|t r]; [done|].
  cbn [reading] in *. inversion_clear Hne as [|?? Ht Hne']. change (raw content (classified content (s_kind s) t r :: _) 0) with (classified content (s_kind s) t r).
  rewrite decide_False by done. rewrite (IH s' r Hq') by (cbn in Hf; lia). by rewrite Hk.
Qed.

Lemma reading_spans content kind r : map tkSpan (reading content kind r) = map tkSpan r.
Proof. induction r as [|t r IH]; [done|]. cbn [reading map]. rewrite IH. f_equal. unfold classified. by destruct (_ && _). Qed.

(** C39: the scanner's queue is invisible: on any content the tokens the parser reads
    are the lexer's, one for one, with the same places, each keyword the language
    does not reserve read as a name exactly when the tokens after it - trivia and
    comments left out - say so. *)
Theorem scanner_classifies content kind :
  exists toks,
    tokens (S (length content)) (New content) = Some (toks ++ [EOF_token content])
    /\ scans (S (length content)) (NewScanner content kind) = reading content kind toks ++ [EOF_token content]
    /\ map tkSpan (reading content kind toks) = map tkSpan toks.
Proof.
  destruct (queued_new content kind) as (r & Hq & Ht). exists r. split; [done|]. split.
  - rewrite (scans_spec content _ r) by first [done|destruct Hq as (_ & _ & ? & _); lia]. done.
  - apply reading_spans.
Qed.
