(* ===== verification/Syntax.v ===== *)
(** * The syntax tree of expressions

    Models [internal/syntax/ast]: the nodes of [expr.go], with their positions and
    trivia ([node.go]), and qualified names ([namespace.go]). A node of another
    grammar - a declaration, a documentation - is an [OtherNode]. *)
From S2P Require Import Prelude Bytes Source Integer.

Inductive TriviaKind := TriviaComment | TriviaLineNote | TriviaBlockNote.
Record Trivia := { trKind : TriviaKind; trSpan : Span }.
Record NodeBase := { NodeSpan : Span; leading : list Trivia }.

Record NameSegment := { segText : bytes; segSpan : Span; Chained : bool }.
Record QualifiedName := { qBase : NodeBase; Global : bool; Parts : list NameSegment }.

(** [Multiplicity] and [BodyParam], over the nodes they hold. *)
Record MultiplicityOf (N : Type) := { mSpan : Span; Lower : N; Upper : option N; IsRange : bool }.
Arguments mSpan {N} _.
Arguments Lower {N} _.
Arguments Upper {N} _.
Arguments IsRange {N} _.
Record BodyParamOf (N : Type) := {
  bpName : bytes; bpType : option QualifiedName; bpMultiplicity : option (MultiplicityOf N); bpValue : option N;
  bpIsReference : bool; bpMembers : list (option N); bpRelationships : list N; bpSpan : Span }.
Arguments bpName {N} _.
Arguments bpType {N} _.
Arguments bpMultiplicity {N} _.
Arguments bpValue {N} _.
Arguments bpIsReference {N} _.
Arguments bpMembers {N} _.
Arguments bpRelationships {N} _.
Arguments bpSpan {N} _.

Inductive Node :=
  | LiteralBool (b : NodeBase) (Value : bool)
  | LiteralString (b : NodeBase) (Value : bytes)
  | LiteralInteger (b : NodeBase) (Value : bytes)
  | LiteralReal (b : NodeBase) (Value : bytes)
  | LiteralInfinity (b : NodeBase)
  | NullExpr (b : NodeBase)
  | FeatureReference (b : NodeBase) (Name : option QualifiedName)
  | OperatorExpr (b : NodeBase) (Operator : OperatorKind) (Operands : list Node) (TypeRef : option QualifiedName)
  | FeatureChainExpr (b : NodeBase) (Operand : Node) (Member : option QualifiedName)
  | IndexExpr (b : NodeBase) (Operand Index : Node) (Bracket : bool)
  | InvocationExpr (b : NodeBase) (Operand : option Node) (Type_ : option QualifiedName) (Args : list Node)
      (NamedArgs : list (option QualifiedName * Node)) (BareArgument : bool)
  | CollectExpr (b : NodeBase) (Operand Body : Node)
  | SelectExpr (b : NodeBase) (Operand Body : Node)
  | ConstructorExpr (b : NodeBase) (Type_ : option QualifiedName) (Args : list Node) (NamedArgs : list (option QualifiedName * Node))
  | BodyExpr (b : NodeBase) (Params : list (BodyParamOf Node)) (Members : list (option Node)) (Result : option Node)
  | SequenceExpr (b : NodeBase) (Elements : list Node)
  | MetadataAccessExpr (b : NodeBase) (Ref : QualifiedName)
  | CastExpr (b : NodeBase) (TargetType : option QualifiedName) (Mult : option (MultiplicityOf Node))
  | ErrorNode (b : NodeBase) (Message : bytes)
  | OtherNode (b : NodeBase).

Abbreviation Multiplicity := (MultiplicityOf Node).
Abbreviation BodyParam := (BodyParamOf Node).

(** [Node.Span] and the base every node embeds. *)
Definition base_of (n : Node) : NodeBase :=
  match n with
  | LiteralBool b _ | LiteralString b _ | LiteralInteger b _ | LiteralReal b _ | LiteralInfinity b | NullExpr b
  | FeatureReference b _ | OperatorExpr b _ _ _ | FeatureChainExpr b _ _ | IndexExpr b _ _ _ | InvocationExpr b _ _ _ _ _
  | CollectExpr b _ _ | SelectExpr b _ _ | ConstructorExpr b _ _ _ | BodyExpr b _ _ _ | SequenceExpr b _ | MetadataAccessExpr b _
  | CastExpr b _ _ | ErrorNode b _ | OtherNode b => b
  end.
Definition Node_Span (n : Node) : Span := NodeSpan (base_of n).

Definition with_base (b : NodeBase) (n : Node) : Node :=
  match n with
  | LiteralBool _ v => LiteralBool b v
  | LiteralString _ v => LiteralString b v
  | LiteralInteger _ v => LiteralInteger b v
  | LiteralReal _ v => LiteralReal b v
  | LiteralInfinity _ => LiteralInfinity b
  | NullExpr _ => NullExpr b
  | FeatureReference _ q => FeatureReference b q
  | OperatorExpr _ o l t => OperatorExpr b o l t
  | FeatureChainExpr _ o m => FeatureChainExpr b o m
  | IndexExpr _ o i k => IndexExpr b o i k
  | InvocationExpr _ o t a n k => InvocationExpr b o t a n k
  | CollectExpr _ o y => CollectExpr b o y
  | SelectExpr _ o y => SelectExpr b o y
  | ConstructorExpr _ t a n => ConstructorExpr b t a n
  | BodyExpr _ p m r => BodyExpr b p m r
  | SequenceExpr _ l => SequenceExpr b l
  | MetadataAccessExpr _ q => MetadataAccessExpr b q
  | CastExpr _ t m => CastExpr b t m
  | ErrorNode _ m => ErrorNode b m
  | OtherNode _ => OtherNode b
  end.
Definition SetLeadingTrivia (t : list Trivia) (n : Node) : Node :=
  with_base {| NodeSpan := Node_Span n; leading := t |} n.

(** [metadataAccessRef]: no expression is a [QualifiedName] node. *)
Definition metadataAccessRef (n : Node) : option QualifiedName :=
  match n with FeatureReference _ q => q | _ => None end.
