(* ===== verification/Parser.v ===== *)
(** * The parser's token window

    Models [internal/syntax/parser/parser.go]: the state of a parse, the window of
    tokens it reads ahead in, its diagnostics, trivia and checkpoints. The fields of
    [Parser] only the productions for declarations read are left out. *)
From S2P Require Import Prelude Bytes Source Lexer Scanner Syntax.

(** ** State *)

Record Edit := { editSpan : Span; NewText : bytes }.
Definition Insert (offset : nat) (text : bytes) : Edit := {| editSpan := {| Offset := offset; Len := 0 |}; NewText := text |}.
Record Fix := { Title : bytes; Edits : list Edit; Preferred : bool }.
Record Diagnostic := { dSpan : Span; Message : bytes; Code : bytes; Fixes : list Fix }.

Inductive bodyContext :=
  | bodyOther | bodyInterface | bodyAction | bodyState | bodyCalc | bodyCase | bodyRequirement | bodyViewDef | bodyView
  | bodyPackage | bodySuccession.

Record Window := { buf : list Token; base : nat; ppos : nat }.
Record Reports := { Diagnostics : list Diagnostic; Warnings : list Diagnostic; undefinedOps : list (option Span); typedByCount : nat }.
Record Comments := {
  triv : list Trivia; trivLog : list Trivia; pendingComment : Span; hasPendingComment : bool; bodyEnd : nat;
  comments : list (Span * Token) }.
Record Marks := { memberStarts : list nat; commentBodies : list nat; attachedStarts : list nat; resultEnds : list nat }.

(** [undefinedOps] holds a node by its span. *)
Record Parser := {
  p_src : bytes; p_kind : Source.Kind; p_lx : Scanner; win : Window; checkpoints : nat; rep : Reports; com : Comments; mks : Marks;
  bodyCtx : list bodyContext }.

Definition New_Parser (content : bytes) (kind : Source.Kind) : Parser :=
  {| p_src := content; p_kind := kind; p_lx := NewScanner content kind; win := {| buf := []; base := 0; ppos := 0 |}; checkpoints := 0;
     rep := {| Diagnostics := []; Warnings := []; undefinedOps := []; typedByCount := 0 |};
     com := {| triv := []; trivLog := []; pendingComment := {| Offset := 0; Len := 0 |}; hasPendingComment := false; bodyEnd := 0; comments := [] |};
     mks := {| memberStarts := []; commentBodies := []; attachedStarts := []; resultEnds := [] |}; bodyCtx := [] |}.

Definition set_win (p : Parser) (w : Window) : Parser :=
  {| p_src := p.(p_src); p_kind := p.(p_kind); p_lx := p.(p_lx); win := w; checkpoints := p.(checkpoints); rep := p.(rep); com := p.(com);
     mks := p.(mks); bodyCtx := p.(bodyCtx) |}.
Definition set_lx (p : Parser) (s : Scanner) : Parser :=
  {| p_src := p.(p_src); p_kind := p.(p_kind); p_lx := s; win := p.(win); checkpoints := p.(checkpoints); rep := p.(rep); com := p.(com);
     mks := p.(mks); bodyCtx := p.(bodyCtx) |}.
Definition set_rep (p : Parser) (r : Reports) : Parser :=
  {| p_src := p.(p_src); p_kind := p.(p_kind); p_lx := p.(p_lx); win := p.(win); checkpoints := p.(checkpoints); rep := r; com := p.(com);
     mks := p.(mks); bodyCtx := p.(bodyCtx) |}.
Definition set_com (p : Parser) (c : Comments) : Parser :=
  {| p_src := p.(p_src); p_kind := p.(p_kind); p_lx := p.(p_lx); win := p.(win); checkpoints := p.(checkpoints); rep := p.(rep); com := c;
     mks := p.(mks); bodyCtx := p.(bodyCtx) |}.
Definition set_mks (p : Parser) (m : Marks) : Parser :=
  {| p_src := p.(p_src); p_kind := p.(p_kind); p_lx := p.(p_lx); win := p.(win); checkpoints := p.(checkpoints); rep := p.(rep); com := p.(com);
     mks := m; bodyCtx := p.(bodyCtx) |}.
Definition set_bodyCtx (p : Parser) (c : list bodyContext) : Parser :=
  {| p_src := p.(p_src); p_kind := p.(p_kind); p_lx := p.(p_lx); win := p.(win); checkpoints := p.(checkpoints); rep := p.(rep); com := p.(com);
     mks := p.(mks); bodyCtx := c |}.
Definition set_checkpoints (p : Parser) (n : nat) : Parser :=
  {| p_src := p.(p_src); p_kind := p.(p_kind); p_lx := p.(p_lx); win := p.(win); checkpoints := n; rep := p.(rep); com := p.(com);
     mks := p.(mks); bodyCtx := p.(bodyCtx) |}.

(** The text of a token. *)
Definition src_Text (p : Parser) (sp : Span) : bytes := default [] (Text p.(p_src) sp).

(** ** Diagnostics *)

Definition report (p : Parser) (d : Diagnostic) : Parser :=
  let r := p.(rep) in
  set_rep p {| Diagnostics := r.(Diagnostics) ++ [d]; Warnings := r.(Warnings); undefinedOps := r.(undefinedOps); typedByCount := r.(typedByCount) |}.
Definition errorWithFixes (p : Parser) (sp : Span) (msg : bytes) (fixes : list Fix) : Parser :=
  report p {| dSpan := sp; Message := msg; Code := []; Fixes := fixes |}.
Definition error (p : Parser) (sp : Span) (msg : bytes) : Parser := errorWithFixes p sp msg [].

(** ** The window *)

Definition tokenWindow : nat := 64.

Definition compact (p : Parser) : Parser :=
  let w := p.(win) in
  let dropped : nat := w.(ppos) - w.(base) - 1 in
  if (0 <? p.(checkpoints)) || (dropped <? tokenWindow) || (dropped <? length w.(buf) / 2) then p
  else set_win p {| buf := drop dropped w.(buf); base := w.(base) + dropped; ppos := w.(ppos) |}.

Definition triviaOf (t : Token) : option Trivia :=
  match t.(tkKind) with
  | SLNote => Some {| trKind := TriviaLineNote; trSpan := t.(tkSpan) |}
  | MLNote => Some {| trKind := TriviaBlockNote; trSpan := t.(tkSpan) |}
  | RegularComment => Some {| trKind := TriviaComment; trSpan := t.(tkSpan) |}
  | _ => None
  end.

(** What [fill] does with a token it skips. *)
Definition skip_trivia (p : Parser) (tok : Token) : Parser :=
  let c := p.(com) in
  let tr := match triviaOf tok with Some tr => [tr] | None => [] end in
  let p := set_com p
    {| triv := c.(triv) ++ tr; trivLog := c.(trivLog) ++ (if 0 <? p.(checkpoints) then tr else []);
       pendingComment := if bool_decide (tok.(tkKind) = RegularComment) then tok.(tkSpan) else c.(pendingComment);
       hasPendingComment := bool_decide (tok.(tkKind) = RegularComment) || c.(hasPendingComment);
       bodyEnd := c.(bodyEnd); comments := c.(comments) |} in
  if tok.(Unterminated) then error p tok.(tkSpan) (bs "unterminated comment: missing */") else p.

(** The next token not skipped, and the comments before it. *)
Fixpoint pull (fuel : nat) (spans : list Span) (p : Parser) : option (Token * list Span * Parser) :=
  match fuel with
  | O => None
  | S fuel' =>
      let '(tok, lx) := Scanner_Next p.(p_lx) in
      let p := set_lx p lx in
      if skipped tok then
        pull fuel' (spans ++ (if bool_decide (tok.(tkKind) = RegularComment) then [tok.(tkSpan)] else [])) (skip_trivia p tok)
      else Some (tok, spans, p)
  end.

Definition buffer (p : Parser) (tok : Token) (spans : list Span) : Parser :=
  let w := p.(win) in
  let c := p.(com) in
  set_com (set_win p {| buf := w.(buf) ++ [tok]; base := w.(base); ppos := w.(ppos) |})
    {| triv := c.(triv); trivLog := c.(trivLog); pendingComment := c.(pendingComment); hasPendingComment := c.(hasPendingComment);
       bodyEnd := c.(bodyEnd); comments := c.(comments) ++ map (fun sp => (sp, tok)) spans |}.

(** The loop of [fill], [k] tokens short. *)
Fixpoint fill_loop (k : nat) (p : Parser) : option Parser :=
  match k with
  | O => Some p
  | S k' =>
      '(tok, spans, p) ← pull (S (length p.(p_src))) [] p;
      let p := buffer p tok spans in
      if bool_decide (tok.(tkKind) = EOF) then Some p else fill_loop k' p
  end.
Definition fill (n : nat) (p : Parser) : option Parser :=
  let p := compact p in
  fill_loop (p.(win).(ppos) - p.(win).(base) + n + 1 - length p.(win).(buf)) p.

(** ** The parsing monad

    A production reads and changes the state; [None] is out of fuel. *)
Definition M (A : Type) : Type := Parser -> option (A * Parser).
Definition ret {A} (a : A) : M A := fun p => Some (a, p).
Definition bind {A B} (m : M A) (f : A -> M B) : M B := fun p => '(a, p) ← m p; f a p.
Declare Scope parse_scope.
Delimit Scope parse_scope with parse.
Notation "x ← y ; z" := (bind y (fun x => z)) (at level 20, y at level 100, z at level 200, only parsing) : parse_scope.
Notation "' x ← y ; z" := (bind y (fun x => z)) (at level 20, x pattern, y at level 100, z at level 200, only parsing) : parse_scope.

Definition gets {A} (f : Parser -> A) : M A := fun p => Some (f p, p).
Definition modify (f : Parser -> Parser) : M unit := fun p => Some (tt, f p).

Definition window_token (p : Parser) (n : nat) : option Token := p.(win).(buf) !! (p.(win).(ppos) - p.(win).(base) + n).

Definition peekN (n : nat) : M Token := fun p =>
  match window_token p n with
  | Some t => Some (t, p)
  | None =>
      p ← fill n p;
      match window_token p n with
      | Some t => Some (t, p)
      | None => t ← last p.(win).(buf); Some (t, p)
      end
  end.
Definition peek : M Token := peekN 0.

Definition reportUnterminated (tok : Token) (p : Parser) : Parser :=
  if bool_decide (tok.(tkKind) = UnrestrictedName) then error p tok.(tkSpan) (bs "unterminated name: missing closing '")
  else error p tok.(tkSpan) (bs "unterminated string literal: missing closing " ++ [DQ]).

Definition reportBadEscapes (tok : Token) (p : Parser) : Parser :=
  let terminal := if bool_decide (tok.(tkKind) = UnrestrictedName) then bs "an unrestricted name" else bs "a string" in
  fold_left (fun p sp => error p sp (bs "invalid escape '" ++ src_Text p sp ++ bs "' in " ++ terminal
                                     ++ bs ": only \b \t \n \f \r \" ++ [DQ] ++ bs " \' \\ are admitted"))
    (InvalidEscapes tok.(tkSpan) (src_Text p tok.(tkSpan))) p.

Definition advance : M Token := fun p =>
  p ← (if (length p.(win).(buf) <=? p.(win).(ppos) - p.(win).(base)) then fill 0 p else Some p);
  tok ← window_token p 0;
  if bool_decide (tok.(tkKind) = EOF) then Some (tok, p)
  else
    let w := p.(win) in
    let p := set_win p {| buf := w.(buf); base := w.(base); ppos := S w.(ppos) |} in
    let p := if tok.(Unterminated) then reportUnterminated tok p else p in
    let p := if tok.(BadEscape) then reportBadEscapes tok p else p in
    Some (tok, p).

(** ** Reading tokens *)

Local Open Scope parse_scope.

Definition atEOF : M bool := t ← peek; ret (bool_decide (t.(tkKind) = EOF)).
Definition Parser_Offset : M nat := t ← peek; ret t.(tkSpan).(Offset).
Definition at_ (k : Kind) : M bool := t ← peek; ret (bool_decide (t.(tkKind) = k)).
Definition is_keyword (t : Token) (kw : bytes) : bool := bool_decide (t.(tkKind) = Keyword) && beq t.(KeywordID) kw.
Definition atKeyword (kw : String.string) : M bool := t ← peek; ret (is_keyword t (bs kw)).
Definition peekIsKeyword (n : nat) (kw : String.string) : M bool := t ← peekN n; ret (is_keyword t (bs kw)).

Definition accept (k : Kind) : M (option Token) := b ← at_ k; if b then t ← advance; ret (Some t) else ret None.
Definition accept2 (k : Kind) : M bool := t ← accept k; ret (match t with Some _ => true | None => false end).
Definition acceptKeyword (kw : String.string) : M bool :=
  b ← atKeyword kw; if b then _ ← advance; ret true else ret false.

Definition raise (sp : Span) (msg : bytes) : M unit := modify (fun p => error p sp msg).

Definition expect (k : Kind) (msg : bytes) : M (option Token) :=
  b ← at_ k; if b then t ← advance; ret (Some t) else t ← peek; _ ← raise t.(tkSpan) msg; ret None.
Definition expect2Keyword (kw : String.string) : M bool :=
  b ← acceptKeyword kw;
  if b then ret true else t ← peek; _ ← raise t.(tkSpan) (bs "expected '" ++ bs kw ++ bs "'"); ret false.

(** The last token consumed, while the window holds it. *)
Definition lastToken (p : Parser) : option Token :=
  match p.(win).(ppos) - p.(win).(base) with
  | O => None
  | S i => if S i <=? length p.(win).(buf) then p.(win).(buf) !! i else None
  end.
Definition lastEnd : M nat := last ← gets lastToken; match last with Some t => ret (End t.(tkSpan)) | None => Parser_Offset end.

Definition spanFrom (start : nat) : M Span :=
  stop ← lastEnd;
  body ← gets (fun p => p.(com).(bodyEnd));
  next ← Parser_Offset;
  let stop := if (stop <? body) && (body <=? next) then body else stop in
  let stop := Nat.max stop start in
  ret {| Offset := start; Len := stop - start |}.

Definition insertSemicolonFix : M Fix :=
  stop ← lastEnd; ret {| Title := bs "Insert ';'"; Edits := [Insert stop (bs ";")]; Preferred := true |}.

Definition line_at (p : Parser) (offset : nat) : option Z := Line <$> PosAt (NewLineIndex p.(p_src)) (Z.of_nat offset).

Definition missingTerminator (unexpected missing : bytes) (fixes : list Fix) : M unit :=
  next ← peek;
  last ← gets lastToken;
  match last with
  | None => modify (fun p => errorWithFixes p next.(tkSpan) unexpected fixes)
  | Some last =>
      if last.(Unterminated) then ret tt
      else
        ends ← (if bool_decide (next.(tkKind) = RBrace) || bool_decide (next.(tkKind) = EOF) then ret true
                else
                  a ← gets (fun p => line_at p next.(tkSpan).(Offset));
                  b ← gets (fun p => line_at p (End last.(tkSpan)));
                  ret (default 0%Z b <? default 0%Z a)%Z);
        modify (fun p => if (ends : bool) then errorWithFixes p last.(tkSpan) missing fixes else errorWithFixes p next.(tkSpan) unexpected fixes)
  end.
Definition expectSemicolon (what : bytes) : M bool :=
  b ← accept2 Semicolon;
  if b then ret true
  else
    fix_ ← insertSemicolonFix;
    _ ← missingTerminator (bs "expected ';' after " ++ what) (bs "missing ';' at end of " ++ what) [fix_];
    ret false.

(** ** Trivia, marks and contexts *)

Definition takeTrivia : M (list Trivia) := fun p =>
  let c := p.(com) in
  Some (c.(triv), set_com p {| triv := []; trivLog := c.(trivLog); pendingComment := c.(pendingComment);
                               hasPendingComment := c.(hasPendingComment); bodyEnd := c.(bodyEnd); comments := c.(comments) |}).

Definition takePendingComment : M (option Span) := fun p =>
  let c := p.(com) in
  if c.(hasPendingComment) then
    let sp := c.(pendingComment) in
    let p := set_com p {| triv := c.(triv); trivLog := c.(trivLog); pendingComment := sp; hasPendingComment := false;
                          bodyEnd := End sp; comments := c.(comments) |} in
    Some (Some sp, set_mks p {| memberStarts := p.(mks).(memberStarts); commentBodies := p.(mks).(commentBodies) ++ [sp.(Offset)];
                                attachedStarts := p.(mks).(attachedStarts); resultEnds := p.(mks).(resultEnds) |})
  else Some (None, p).

Definition memberStart : M unit :=
  o ← Parser_Offset;
  modify (fun p => set_mks p {| memberStarts := p.(mks).(memberStarts) ++ [o]; commentBodies := p.(mks).(commentBodies);
                                attachedStarts := p.(mks).(attachedStarts); resultEnds := p.(mks).(resultEnds) |}).
Definition resultEnd : M unit :=
  o ← Parser_Offset;
  modify (fun p => set_mks p {| memberStarts := p.(mks).(memberStarts); commentBodies := p.(mks).(commentBodies);
                                attachedStarts := p.(mks).(attachedStarts); resultEnds := p.(mks).(resultEnds) ++ [o] |}).
Definition attachedStart (o : nat) : M unit :=
  modify (fun p => set_mks p {| memberStarts := p.(mks).(memberStarts); commentBodies := p.(mks).(commentBodies);
                                attachedStarts := p.(mks).(attachedStarts) ++ [o]; resultEnds := p.(mks).(resultEnds) |}).

(** A body of a notation, entered and left. *)
Definition in_body {A} (c : bodyContext) (m : M A) : M A :=
  depth ← gets (fun p => length p.(bodyCtx));
  _ ← modify (fun p => set_bodyCtx p (p.(bodyCtx) ++ [c]));
  a ← m;
  _ ← modify (fun p => set_bodyCtx p (take depth p.(bodyCtx)));
  ret a.

Definition op_slot : M nat := fun p =>
  let r := p.(rep) in
  Some (length r.(undefinedOps),
        set_rep p {| Diagnostics := r.(Diagnostics); Warnings := r.(Warnings); undefinedOps := r.(undefinedOps) ++ [None]; typedByCount := r.(typedByCount) |}).
Definition set_op (slot : nat) (sp : Span) : M unit :=
  modify (fun p => let r := p.(rep) in
    set_rep p {| Diagnostics := r.(Diagnostics); Warnings := r.(Warnings); undefinedOps := <[slot := Some sp]> r.(undefinedOps); typedByCount := r.(typedByCount) |}).

(** ** Misplaced comments *)

Definition codeNonstandardNotation : bytes := bs "nonstandard-notation".
Definition msgMisplacedComment : bytes :=
  bs "a /* */ comment is admitted only where a member may appear (SysML.xtext DefinitionMember/AnnotatingMember); write it before or after this declaration, or as `comment /* … */`".
Definition nat_in (n : nat) (l : list nat) : bool := existsb (Nat.eqb n) l.
Definition comment_admitted (m : Marks) (c : Span * Token) : bool :=
  let '(sp, next) := c in
  let at_next := next.(tkSpan).(Offset) in
  if nat_in sp.(Offset) m.(commentBodies) then true
  else if bool_decide (next.(tkKind) = RBrace) || bool_decide (next.(tkKind) = EOF) then negb (nat_in at_next m.(resultEnds))
  else nat_in at_next m.(memberStarts) && negb (nat_in at_next m.(attachedStarts)).
Definition warn (p : Parser) (sp : Span) (msg code : bytes) : Parser :=
  let r := p.(rep) in
  set_rep p {| Diagnostics := r.(Diagnostics); Warnings := r.(Warnings) ++ [{| dSpan := sp; Message := msg; Code := code; Fixes := [] |}];
               undefinedOps := r.(undefinedOps); typedByCount := r.(typedByCount) |}.
Definition reportMisplacedComments (p : Parser) : Parser :=
  fold_left (fun p' c => if comment_admitted p.(mks) c then p' else warn p' c.1 msgMisplacedComment codeNonstandardNotation)
    p.(com).(comments) p.

(** ** Checkpoints *)

Record parseCheckpoint := {
  cp_pos : nat; diagnosticLen : nat; warningLen : nat; undefinedOpLen : nat; cp_typedByCount : nat; memberStartLen : nat;
  commentBodyLen : nat; attachedLen : nat; resultEndLen : nat; cp_triv : list Trivia; trivLogLen : nat; pendingSpan : Span;
  hadPending : bool; cp_bodyEnd : nat }.

Definition checkpoint (p : Parser) : parseCheckpoint * Parser :=
  ({| cp_pos := p.(win).(ppos); diagnosticLen := length p.(rep).(Diagnostics); warningLen := length p.(rep).(Warnings);
      undefinedOpLen := length p.(rep).(undefinedOps); cp_typedByCount := p.(rep).(typedByCount);
      memberStartLen := length p.(mks).(memberStarts); commentBodyLen := length p.(mks).(commentBodies);
      attachedLen := length p.(mks).(attachedStarts); resultEndLen := length p.(mks).(resultEnds); cp_triv := p.(com).(triv);
      trivLogLen := length p.(com).(trivLog); pendingSpan := p.(com).(pendingComment); hadPending := p.(com).(hasPendingComment);
      cp_bodyEnd := p.(com).(bodyEnd) |}, set_checkpoints p (S p.(checkpoints))).

Definition restore (cp : parseCheckpoint) (p : Parser) : Parser :=
  let r := p.(rep) in
  let c := p.(com) in
  let m := p.(mks) in
  set_win (set_rep (set_com (set_mks p
    {| memberStarts := take cp.(memberStartLen) m.(memberStarts); commentBodies := take cp.(commentBodyLen) m.(commentBodies);
       attachedStarts := take cp.(attachedLen) m.(attachedStarts); resultEnds := take cp.(resultEndLen) m.(resultEnds) |})
    {| triv := cp.(cp_triv) ++ drop cp.(trivLogLen) c.(trivLog); trivLog := c.(trivLog); pendingComment := cp.(pendingSpan);
       hasPendingComment := cp.(hadPending); bodyEnd := cp.(cp_bodyEnd); comments := c.(comments) |})
    {| Diagnostics := take cp.(diagnosticLen) r.(Diagnostics); Warnings := take cp.(warningLen) r.(Warnings);
       undefinedOps := take cp.(undefinedOpLen) r.(undefinedOps); typedByCount := cp.(cp_typedByCount) |})
    {| buf := p.(win).(buf); base := p.(win).(base); ppos := cp.(cp_pos) |}.

Definition release (p : Parser) : Parser :=
  let n := p.(checkpoints) - 1 in
  let c := p.(com) in
  let p := set_checkpoints p n in
  if n =? 0 then
    set_com p {| triv := c.(triv); trivLog := []; pendingComment := c.(pendingComment); hasPendingComment := c.(hasPendingComment);
                 bodyEnd := c.(bodyEnd); comments := c.(comments) |}
  else p.
