(* ===== verification/Expression.v ===== *)
(** * The expression parser

    Models [internal/syntax/parser/expr.go], with the names of [namespace.go] and the
    multiplicities of [defusage.go] it reads. The productions for declarations a body
    expression may hold are an interface, [Declarations].

    The productions are mutually recursive and every recursive call is made after a
    token was consumed: a production of a [layer] calls those of its own layer before
    it consumes one, and those of the layer below after. *)
From S2P Require Import Prelude Bytes Source Integer Lexer Scanner Syntax Parser.
Local Open Scope parse_scope.

(** ** Names *)

Definition reservedWord (kind : Source.Kind) (w : bytes) : bool :=
  IsKeywordIn w match kind with KindUnknown => KindSysML | _ => kind end.

Definition names (kind : Source.Kind) (t : Token) : bool :=
  match t.(tkKind) with
  | Identifier | UnrestrictedName => true
  | Keyword => negb (reservedWord kind t.(KeywordID))
  | _ => false
  end.
Definition atName : M bool := t ← peek; kind ← gets p_kind; ret (names kind t).
Definition atGlobalName : M bool :=
  d ← at_ Dollar; if d then t ← peekN 1; ret (bool_decide (t.(tkKind) = ColonColon)) else ret false.
Definition atNameOrKeyword : M bool := t ← peek; ret (spellsName t).

(** The text of a name token, an unrestricted name's quotes stripped. *)
Definition name_text (t : Token) (text : bytes) : bytes :=
  if bool_decide (t.(tkKind) = UnrestrictedName) && (2 <=? length text) &&
     bool_decide (head text = Some "'"%ch) && bool_decide (last text = Some "'"%ch)
  then slice text 1 (length text - 1) else text.
Definition name_segment : M NameSegment :=
  tok ← advance;
  text ← gets (fun p => src_Text p tok.(tkSpan));
  ret {| segText := name_text tok text; segSpan := tok.(tkSpan); Chained := false |}.
Definition parseNameSegment : M (option NameSegment) :=
  b ← atName; if b then s ← name_segment; ret (Some s) else ret None.
Definition parseNameSegmentRelaxed : M (option NameSegment) :=
  b ← atNameOrKeyword; if b then s ← name_segment; ret (Some s) else ret None.

Definition out_of_fuel {A} : M A := fun _ => None.

(** The segments after the first. *)
Fixpoint name_tail (fuel : nat) (parts : list NameSegment) : M (list NameSegment) :=
  match fuel with
  | O => out_of_fuel
  | S fuel' =>
      b ← at_ ColonColon;
      if negb b then ret parts
      else
        t ← peekN 1;
        if bool_decide (t.(tkKind) = Star) || bool_decide (t.(tkKind) = StarStar) then ret parts
        else
          _ ← advance;
          next ← parseNameSegmentRelaxed;
          match next with
          | None => t ← peek; _ ← raise t.(tkSpan) (bs "expected a name after '::'"); ret parts
          | Some next => name_tail fuel' (parts ++ [next])
          end
  end.
Definition loop_fuel : M nat := gets (fun p => S (length p.(p_src))).

(** [parseQualifiedName] and [parseQualifiedNameRelaxed], over the reading of the first segment. *)
Definition qualified_name (first : M (option NameSegment)) : M (option QualifiedName) :=
  start ← Parser_Offset;
  trivia ← takeTrivia;
  global ← atGlobalName;
  _ ← (if (global : bool) then _ ← advance; _ ← advance; ret tt else ret tt);
  seg ← first;
  match seg with
  | None =>
      if (global : bool) then
        sp ← spanFrom start; ret (Some {| qBase := {| NodeSpan := sp; leading := trivia |}; Global := true; Parts := [] |})
      else t ← peek; _ ← raise t.(tkSpan) (bs "expected a name"); ret None
  | Some seg =>
      fuel ← loop_fuel;
      parts ← name_tail fuel [seg];
      sp ← spanFrom start;
      ret (Some {| qBase := {| NodeSpan := sp; leading := trivia |}; Global := global; Parts := parts |})
  end.
Definition parseQualifiedName : M (option QualifiedName) := qualified_name parseNameSegment.
Definition parseQualifiedNameRelaxed : M (option QualifiedName) := qualified_name parseNameSegmentRelaxed.

(** ** Operators *)

Definition precNullCoalesce : nat := 1.
Definition precImplies : nat := 2.
Definition precOr : nat := 3.
Definition precXor : nat := 4.
Definition precAnd : nat := 5.
Definition precEquality : nat := 6.
Definition precClassify : nat := 7.
Definition precRelational : nat := 8.
Definition precRange : nat := 9.
Definition precAdditive : nat := 10.
Definition precMultiplicative : nat := 11.
Definition precExponent : nat := 12.

Record binOp := { bop : OperatorKind; prec : nat; rightAssoc : bool; classify : bool }.
Definition left_op (o : OperatorKind) (n : nat) : option binOp := Some {| bop := o; prec := n; rightAssoc := false; classify := false |}.
Definition class_op (o : OperatorKind) : option binOp := Some {| bop := o; prec := precClassify; rightAssoc := false; classify := true |}.

Definition keywordOps : list (bytes * option binOp) :=
  [(bs "implies", left_op OpImplies precImplies); (bs "or", left_op OpConditionalOr precOr); (bs "xor", left_op OpXor precXor);
   (bs "and", left_op OpConditionalAnd precAnd); (bs "hastype", class_op OpHasType); (bs "istype", class_op OpIsType);
   (bs "as", class_op OpAs); (bs "meta", class_op OpMeta)].

Definition binaryOpForToken (t : Token) : option binOp :=
  match t.(tkKind) with
  | QuestionQ => left_op OpNullCoalesce precNullCoalesce
  | Pipe => left_op OpOr precOr
  | Amp => left_op OpAnd precAnd
  | EqEq => left_op OpEq precEquality
  | NotEq => left_op OpNeq precEquality
  | EqEqEq => left_op OpEqEqEq precEquality
  | NotEqEq => left_op OpNeqEqEq precEquality
  | At => class_op OpAt
  | AtAt => class_op OpMetaAt
  | Lt => left_op OpLt precRelational
  | Gt => left_op OpGt precRelational
  | Le => left_op OpLe precRelational
  | Ge => left_op OpGe precRelational
  | DotDot => left_op OpRange precRange
  | Plus => left_op OpAdd precAdditive
  | Minus => left_op OpSub precAdditive
  | Star => left_op OpMul precMultiplicative
  | Slash => left_op OpDiv precMultiplicative
  | Percent => left_op OpMod precMultiplicative
  | StarStar | Caret => Some {| bop := OpPow; prec := precExponent; rightAssoc := true; classify := false |}
  | Keyword => match find (fun kv => beq kv.1 t.(KeywordID)) keywordOps with Some kv => kv.2 | None => None end
  | _ => None
  end.
Definition binaryOpFor : M (option binOp) := t ← peek; ret (binaryOpForToken t).

(** ** What starts an expression *)

Definition exprStartKeywords : list bytes := map bs ["null"; "true"; "false"; "new"; "if"; "not"]%string.

Definition atExprStart : M bool :=
  t ← peek; n ← atName; g ← atGlobalName;
  ret (n || g || match t.(tkKind) with
                 | Decimal | Real | String | Star | LParen | LBrace => true
                 | Keyword => in_set t.(KeywordID) exprStartKeywords
                 | _ => false
                 end).
Definition atPrefixOperator : M bool :=
  t ← peek; ret (match t.(tkKind) with Plus | Minus | Tilde => true | _ => is_keyword t (bs "not") end).
Definition atUnaryExprStart : M bool := a ← atExprStart; b ← atPrefixOperator; ret (a || b).

Definition msgExpectedCloseParen : bytes := bs "expected ')'".

(** ** The productions *)

(** What the expression grammar asks of the grammar of declarations. *)
Class Declarations := {
  isKindKeyword : Parser -> Token -> bool;
  parseBodyMember : M (option Node);
  parseDocumentation : nat -> M Node;
  parseRelationships : M (list Node);
  isAttachedMember : Node -> bool }.

(** The productions below a layer. *)
Record Grammar := { g_expression : M Node; g_binary : nat -> M Node; g_unary : M Node; g_base : M Node }.

Section Productions.
Context `{!Declarations}.
Variable below : Grammar.

Definition node_at (start : nat) : M NodeBase := sp ← spanFrom start; ret {| NodeSpan := sp; leading := [] |}.

(** *** Lists *)

Fixpoint sequence_loop (fuel : nat) (close : Kind) (elems : list Node) : M (list Node) :=
  match fuel with
  | O => out_of_fuel
  | S fuel' =>
      b ← at_ Comma;
      if negb b then ret elems
      else
        _ ← advance;
        closed ← at_ close;
        if closed then ret elems else e ← below.(g_expression); sequence_loop fuel' close (elems ++ [e])
  end.
Definition parseSequenceElements (close : Kind) : M (list Node) :=
  e ← below.(g_expression); fuel ← loop_fuel; sequence_loop fuel close [e].
Definition parseSequenceExpr (close : Kind) : M Node :=
  start ← Parser_Offset;
  elems ← parseSequenceElements close;
  match elems with
  | [e] => ret e
  | _ => b ← node_at start; ret (SequenceExpr b elems)
  end.

Fixpoint named_ahead (fuel i : nat) : M bool :=
  match fuel with
  | O => out_of_fuel
  | S fuel' =>
      t ← peekN i;
      if negb (bool_decide (t.(tkKind) = ColonColon)) then ret (bool_decide (t.(tkKind) = Eq))
      else
        t ← peekN (S i);
        if negb (bool_decide (t.(tkKind) = Identifier)) && negb (bool_decide (t.(tkKind) = UnrestrictedName)) then ret false
        else named_ahead fuel' (S (S i))
  end.
Definition namedArgAhead : M bool :=
  b ← atName; if negb b then ret false else fuel ← loop_fuel; named_ahead fuel 1.

Fixpoint named_loop (fuel : nat) (named : list (option QualifiedName * Node)) : M (list (option QualifiedName * Node)) :=
  match fuel with
  | O => out_of_fuel
  | S fuel' =>
      name ← parseQualifiedName;
      _ ← expect Eq (bs "expected '=' in named argument");
      val ← below.(g_expression);
      let named := named ++ [(name, val)] in
      b ← at_ Comma;
      if negb b then ret named else _ ← advance; named_loop fuel' named
  end.
Fixpoint args_loop (fuel : nat) (pos : list Node) : M (list Node) :=
  match fuel with
  | O => out_of_fuel
  | S fuel' =>
      e ← below.(g_expression);
      let pos := pos ++ [e] in
      b ← at_ Comma;
      if negb b then ret pos else _ ← advance; args_loop fuel' pos
  end.
Definition parseArgList : M (list Node * list (option QualifiedName * Node)) :=
  _ ← expect LParen (bs "expected '('");
  closed ← at_ RParen;
  if closed then _ ← advance; ret ([], [])
  else
    named ← namedArgAhead;
    fuel ← loop_fuel;
    args ← (if (named : bool) then l ← named_loop fuel []; ret ([], l) else l ← args_loop fuel []; ret (l, []));
    _ ← expect RParen msgExpectedCloseParen;
    ret args.
Definition parseInvocationTail (start : nat) (recv : option Node) (typ : option QualifiedName) : M Node :=
  '(args, named) ← parseArgList;
  b ← node_at start;
  ret (InvocationExpr b recv typ args named false).
Definition parseConstructor (start : nat) : M Node :=
  _ ← advance;
  qn ← parseQualifiedName;
  open ← at_ LParen;
  '(args, named) ← (if (open : bool) then parseArgList else ret ([], []));
  b ← node_at start;
  ret (ConstructorExpr b qn args named).

(** *** Multiplicities *)

Definition isMultiplicityBoundForm (n : Node) : bool :=
  match n with
  | LiteralInteger _ _ | LiteralReal _ _ | LiteralString _ _ | LiteralBool _ _ | LiteralInfinity _ | FeatureReference _ _ | ErrorNode _ _ => true
  | _ => false
  end.
Definition parseMultiplicityBound : M Node :=
  star ← peek;
  if bool_decide (star.(tkKind) = Star) then _ ← advance; ret (LiteralInfinity {| NodeSpan := star.(tkSpan); leading := [] |})
  else
    prefix ← atPrefixOperator;
    if prefix then
      text ← gets (fun p => src_Text p star.(tkSpan));
      _ ← raise star.(tkSpan) (bs "a multiplicity bound cannot start with '" ++ text ++
            bs "': a bound is a literal or a feature name (KerML.xtext MultiplicityExpressionMember)");
      below.(g_binary) precAdditive
    else
      let parenthesized := bool_decide (star.(tkKind) = LParen) in
      bound ← below.(g_binary) precAdditive;
      _ ← (if parenthesized || negb (isMultiplicityBoundForm bound) then
             sp ← (if parenthesized then spanFrom star.(tkSpan).(Offset) else ret (Node_Span bound));
             raise sp (bs "a multiplicity bound must be a literal or a feature name (KerML.xtext MultiplicityExpressionMember)")
           else ret tt);
      ret bound.
Definition parseMultiplicity : M (option Multiplicity) :=
  t ← peek;
  if negb (bool_decide (t.(tkKind) = LBracket)) then ret None
  else
    let start := t.(tkSpan).(Offset) in
    _ ← advance;
    lower ← parseMultiplicityBound;
    range ← accept2 DotDot;
    upper ← (if (range : bool) then u ← parseMultiplicityBound; ret (Some u) else ret None);
    closing ← expect RBracket (bs "expected ']' to close multiplicity");
    sp ← match closing with
         | Some t => ret {| Offset := start; Len := End t.(tkSpan) - start |}
         | None => spanFrom start
         end;
    ret (Some {| mSpan := sp; Lower := lower; Upper := upper; IsRange := range |}).

(** *** Body expressions *)

Definition atBodyExprMember : M bool :=
  t ← peek;
  if negb (bool_decide (t.(tkKind) = Keyword)) then ret false
  else if in_set t.(KeywordID) (map bs ["public"; "private"; "protected"]%string) then ret true
  else
    kind ← gets (fun p => isKindKeyword p t);
    if negb kind then ret false
    else next ← peekN 1; ret (match next.(tkKind) with Identifier | UnrestrictedName | Lt => true | _ => false end).

Definition markAttached (m : option Node) : M unit :=
  match m with
  | Some n => if isAttachedMember n then attachedStart (Node_Span n).(Offset) else ret tt
  | None => ret tt
  end.

(** The typing of a parameter, [: Type [mult]]. *)
Definition param_typing : M (option QualifiedName * option Multiplicity) :=
  colon ← at_ Colon;
  if (colon : bool) then
    _ ← advance;
    t ← parseQualifiedName;
    open ← at_ LBracket;
    m ← (if (open : bool) then parseMultiplicity else ret None);
    ret (t, m)
  else ret (None, None).

(** The parameter written without [in], [{name : Type; expr}]. *)
Definition shorthand_param : M (list BodyParam) :=
  _ ← memberStart;
  seg ← parseNameSegment;
  params ← match seg with
    | Some seg =>
        '(t, m) ← param_typing;
        ret [{| bpName := seg.(segText); bpType := t; bpMultiplicity := m; bpValue := None; bpIsReference := false; bpMembers := [];
                bpRelationships := []; bpSpan := seg.(segSpan) |}]
    | None => ret []
    end;
  _ ← expectSemicolon (bs "body parameter");
  ret params.

(** The members a parameter's braces hold. *)
Fixpoint member_loop (fuel : nat) (members : list (option Node)) : M (list (option Node)) :=
  match fuel with
  | O => out_of_fuel
  | S fuel' =>
      close ← at_ RBrace;
      eof ← atEOF;
      if close || eof then ret members
      else
        _ ← memberStart;
        pm ← parseBodyMember;
        _ ← markAttached pm;
        member_loop fuel' (members ++ [pm])
  end.
Definition param_members : M (list (option Node)) :=
  open ← at_ LBrace;
  if negb open then ret []
  else
    _ ← advance;
    fuel ← loop_fuel;
    members ← in_body bodyOther (member_loop fuel []);
    _ ← expect RBrace (bs "expected '}'");
    ret members.

(** A parameter past its [in]; [None] when it has no name. *)
Definition in_param : M (option BodyParam) :=
  ref ← acceptKeyword "ref";
  seg ← parseNameSegment;
  match seg with
  | None => t ← peek; _ ← raise t.(tkSpan) (bs "expected a name after 'in' in a body parameter"); ret None
  | Some seg =>
      '(ty, m) ← param_typing;
      rels ← parseRelationships;
      eq ← accept Eq;
      value ← (match eq with Some _ => v ← below.(g_expression); ret (Some v) | None => ret None end);
      members ← param_members;
      ret (Some {| bpName := seg.(segText); bpType := ty; bpMultiplicity := m; bpValue := value; bpIsReference := ref; bpMembers := members;
                   bpRelationships := rels; bpSpan := seg.(segSpan) |})
  end.

(** The parameters and members ahead of the result. *)
Fixpoint body_loop (fuel : nat) (params : list BodyParam) (members : list (option Node)) : M (list BodyParam * list (option Node)) :=
  match fuel with
  | O => out_of_fuel
  | S fuel' =>
      is_in ← atKeyword "in";
      member ← (if (is_in : bool) then ret false else atBodyExprMember);
      if negb is_in && negb member then ret (params, members)
      else
        _ ← memberStart;
        if negb is_in then
          before ← Parser_Offset;
          m ← parseBodyMember;
          now ← Parser_Offset;
          close ← at_ RBrace;
          eof ← atEOF;
          _ ← (if (now =? before) && negb close && negb eof then _ ← advance; ret tt else ret tt);
          body_loop fuel' params (members ++ [m])
        else
          _ ← advance;
          param ← in_param;
          let params := params ++ match param with Some b => [b] | None => [] end in
          _ ← (match last params with
               | Some b => match b.(bpMembers) with [] => expectSemicolon (bs "body parameter") | _ => ret true end
               | None => expectSemicolon (bs "body parameter")
               end);
          body_loop fuel' params members
  end.

(** Its documentation, the parameter written first and the result written last. *)
Definition body_doc : M (list (option Node)) :=
  doc ← atKeyword "doc"; if doc then o ← Parser_Offset; d ← parseDocumentation o; ret [Some d] else ret [].
Definition body_shorthand : M (list BodyParam) :=
  name ← atName;
  colon ← (if (name : bool) then t ← peekN 1; ret (bool_decide (t.(tkKind) = Colon)) else ret false);
  if colon then shorthand_param else ret [].
Definition body_last : M (option Node) :=
  close ← at_ RBrace;
  if close then ret None else _ ← memberStart; r ← below.(g_expression); _ ← resultEnd; ret (Some r).

Definition parseBodyExpr (start : nat) : M Node :=
  _ ← advance;
  in_body bodyOther (
    _ ← memberStart;
    docs ← body_doc;
    params ← body_shorthand;
    fuel ← loop_fuel;
    '(params, members) ← body_loop fuel params docs;
    result ← body_last;
    _ ← expect RBrace (bs "expected '}'");
    b ← node_at start;
    ret (BodyExpr b params members result)).

(** *** Bases *)

Definition parseParenOrSequence (start : nat) : M Node :=
  _ ← advance;
  cast ← acceptKeyword "as";
  if cast then
    target ← parseQualifiedName;
    open ← at_ LBracket;
    mult ← (if (open : bool) then parseMultiplicity else ret None);
    _ ← expect RParen (bs "expected ')' after cast type");
    b ← node_at start;
    ret (CastExpr b target mult)
  else
    closed ← at_ RParen;
    elems ← (if (closed : bool) then ret [] else parseSequenceElements RParen);
    _ ← expect RParen msgExpectedCloseParen;
    match elems with
    | [] => b ← node_at start; ret (NullExpr b)
    | [e] => ret e
    | _ => b ← node_at start; ret (SequenceExpr b elems)
    end.

(** A literal of a kind, over its text. *)
Definition literal (start : nat) (build : NodeBase -> bytes -> Node) : M Node :=
  tok ← advance;
  text ← gets (fun p => src_Text p tok.(tkSpan));
  b ← node_at start;
  ret (build b text).

(** A name, the invocation or the body it introduces. *)
Definition named_base (start : nat) : M Node :=
  keyword ← at_ Keyword;
  qn ← (if (keyword : bool) then
          tok ← advance;
          ret (Some {| qBase := {| NodeSpan := tok.(tkSpan); leading := [] |}; Global := false;
                       Parts := [{| segText := tok.(KeywordID); segSpan := tok.(tkSpan); Chained := false |}] |})
        else parseQualifiedName);
  open ← at_ LParen;
  if open then parseInvocationTail start None qn
  else
    brace ← at_ LBrace;
    body ← (if (brace : bool) then peekIsKeyword 1 "in" else ret false);
    if body then
      bodyStart ← Parser_Offset;
      e ← parseBodyExpr bodyStart;
      b ← node_at start;
      ret (InvocationExpr b None qn [e] [] true)
    else b ← node_at start; ret (FeatureReference b qn).

Definition base_error (start : nat) : M Node :=
  t ← peek;
  _ ← raise t.(tkSpan) (bs "expected an expression");
  _ ← (if match t.(tkKind) with EOF | RParen | RBrace | Semicolon => true | _ => false end then ret tt else _ ← advance; ret tt);
  b ← node_at start;
  ret (ErrorNode b (bs "expected an expression")).

Definition parseBase : M Node :=
  start ← Parser_Offset;
  trivia ← takeTrivia;
  t ← peek;
  global ← atGlobalName;
  n ← (if is_keyword t (bs "null") then _ ← advance; b ← node_at start; ret (NullExpr b)
       else if is_keyword t (bs "true") || is_keyword t (bs "false") then
         tok ← advance; b ← node_at start; ret (LiteralBool b (beq tok.(KeywordID) (bs "true")))
       else if is_keyword t (bs "new") then parseConstructor start
       else match t.(tkKind) with
            | Decimal => literal start LiteralInteger
            | Real => literal start LiteralReal
            | String => literal start LiteralString
            | Star => _ ← advance; b ← node_at start; ret (LiteralInfinity b)
            | LParen => parseParenOrSequence start
            | LBrace => parseBodyExpr start
            | At | AtAt =>
                _ ← advance;
                qn ← parseQualifiedName;
                b ← node_at start;
                ret (OperatorExpr b (if bool_decide (t.(tkKind) = AtAt) then OpMetaAt else OpAt) [] qn)
            | Identifier | UnrestrictedName | Keyword => named_base start
            | _ => if (global : bool) then named_base start else base_error start
            end);
  ret (SetLeadingTrivia trivia n).

(** *** Postfixes *)

Fixpoint parsePostfixes (fuel : nat) (start : nat) (expr : Node) : M Node :=
  match fuel with
  | O => out_of_fuel
  | S fuel' =>
      t ← peek;
      match t.(tkKind) with
      | Dot =>
          _ ← advance;
          brace ← at_ LBrace;
          if brace then
            o ← Parser_Offset; body ← parseBodyExpr o; b ← node_at start; parsePostfixes fuel' start (CollectExpr b expr body)
          else
            meta ← atKeyword "metadata";
            match (if (meta : bool) then metadataAccessRef expr else None) with
            | Some ref => _ ← advance; b ← node_at start; parsePostfixes fuel' start (MetadataAccessExpr b ref)
            | None =>
                member ← parseQualifiedNameRelaxed;
                b ← node_at start;
                let fc := FeatureChainExpr b expr member in
                open ← at_ LParen;
                expr ← (if (open : bool) then parseInvocationTail start (Some fc) None else ret fc);
                parsePostfixes fuel' start expr
            end
      | DotQuestion =>
          _ ← advance;
          brace ← at_ LBrace;
          if negb brace then t ← peek; _ ← raise t.(tkSpan) (bs "expected '{' after '.?'"); ret expr
          else o ← Parser_Offset; body ← parseBodyExpr o; b ← node_at start; parsePostfixes fuel' start (SelectExpr b expr body)
      | Hash =>
          _ ← advance;
          _ ← expect LParen (bs "expected '(' after '#'");
          idx ← parseSequenceExpr RParen;
          _ ← expect RParen msgExpectedCloseParen;
          b ← node_at start;
          parsePostfixes fuel' start (IndexExpr b expr idx false)
      | LBracket =>
          _ ← advance;
          idx ← parseSequenceExpr RBracket;
          _ ← expect RBracket (bs "expected ']'");
          b ← node_at start;
          parsePostfixes fuel' start (IndexExpr b expr idx true)
      | Arrow =>
          _ ← advance;
          typ ← parseQualifiedName;
          open ← at_ LParen;
          brace ← at_ LBrace;
          '(args, named, bare) ←
            (if (open : bool) then '(args, named) ← parseArgList; ret (args, named, false)
             else if (brace : bool) then o ← Parser_Offset; body ← parseBodyExpr o; ret ([body], [], true)
             else
               starts ← atExprStart;
               if starts then e ← below.(g_base); ret ([e], [], true) else ret ([], [], false));
          b ← node_at start;
          parsePostfixes fuel' start (InvocationExpr b (Some expr) typ args named bare)
      | _ => ret expr
      end
  end.
Definition parsePrimary : M Node :=
  start ← Parser_Offset; expr ← parseBase; fuel ← loop_fuel; parsePostfixes fuel start expr.

(** *** Operators *)

Definition prefix_op (t : Token) : option OperatorKind :=
  match t.(tkKind) with
  | Plus => Some OpPos
  | Minus => Some OpNeg
  | Tilde => Some OpBitNot
  | _ => if is_keyword t (bs "not") then Some OpNot else if is_keyword t (bs "all") then Some OpAll else None
  end.
Definition parseUnary : M Node :=
  t ← peek;
  match prefix_op t with
  | None => parsePrimary
  | Some op =>
      _ ← advance;
      slot ← (if bool_decide (op = OpBitNot) then s ← op_slot; ret (Some s) else ret None);
      operand ← below.(g_unary);
      b ← node_at t.(tkSpan).(Offset);
      _ ← match slot with Some s => set_op s b.(NodeSpan) | None => ret tt end;
      ret (OperatorExpr b op [operand] None)
  end.

Fixpoint binary_loop (fuel minPrec start : nat) (left : Node) : M Node :=
  match fuel with
  | O => out_of_fuel
  | S fuel' =>
      o ← binaryOpFor;
      match o with
      | Some o =>
          if o.(prec) <? minPrec then ret left
          else
            _ ← advance;
            if o.(classify) then
              q ← parseQualifiedName; b ← node_at start; binary_loop fuel' minPrec start (OperatorExpr b o.(bop) [left] q)
            else
              right ← below.(g_binary) (if o.(rightAssoc) then o.(prec) else S o.(prec));
              b ← node_at start;
              binary_loop fuel' minPrec start (OperatorExpr b o.(bop) [left; right] None)
      | None => ret left
      end
  end.
Definition parseBinary (minPrec : nat) : M Node :=
  start ← Parser_Offset; left ← parseUnary; fuel ← loop_fuel; binary_loop fuel minPrec start left.

Definition parseConditional : M Node :=
  t ← peek;
  if is_keyword t (bs "if") then
    _ ← advance;
    cond ← below.(g_binary) precNullCoalesce;
    _ ← expect Question (bs "expected '?' in conditional");
    thn ← below.(g_expression);
    _ ← expect2Keyword "else";
    els ← below.(g_expression);
    b ← node_at t.(tkSpan).(Offset);
    ret (OperatorExpr b OpConditional [cond; thn; els] None)
  else parseBinary precNullCoalesce.

Definition layer : Grammar :=
  {| g_expression := parseConditional; g_binary := parseBinary; g_unary := parseUnary; g_base := parseBase |}.
End Productions.

(** ** The parser *)

Section Expressions.
Context `{!Declarations}.

Fixpoint grammar (fuel : nat) : Grammar :=
  match fuel with
  | O => {| g_expression := out_of_fuel; g_binary := fun _ => out_of_fuel; g_unary := out_of_fuel; g_base := out_of_fuel |}
  | S fuel' => layer (grammar fuel')
  end.

(** A layer for each token there may be. *)
Definition ParseExpression : M Node := fun p => (grammar (S (length p.(p_src)))).(g_expression) p.

(** Exactly one expression, read from a file of a kind. *)
Definition ParseOneExpression (kind : Source.Kind) (text : bytes) : option (Node * bool) :=
  match ParseExpression (New_Parser text kind) with
  | None => None
  | Some (expr, p) =>
      if negb (bool_decide (p.(rep).(Diagnostics) = [])) then Some (expr, false)
      else match Parser_Offset p with None => None | Some (offset, _) => Some (expr, offset =? length text) end
  end.
End Expressions.
