(* ===== verification/ParserFacts.v ===== *)
(** * The parser's token window: properties

    The window over the scanner is the list of the tokens not yet consumed: looking
    ahead, compacting and refilling change nothing of it. The rules of a total
    program logic over that list are what the productions are verified with. *)
From S2P Require Import Prelude Bytes Source SourceFacts Lexer LexerFacts Scanner ScannerFacts Syntax Parser.

(** The lexer's tokens before the end of input. *)
Definition lexed (content : bytes) : list Token :=
  match tokens (S (length content)) (New content) with Some l => removelast l | None => [] end.

Section Abstraction.
Context (content : bytes) (kind : Source.Kind).
Abbreviation eof := (EOF_token content).
Abbreviation raw := (ScannerFacts.raw content).

(** ** The abstract state

    The tokens left, and whether the parse has a diagnostic or lexes its way to one. *)

Definition reads (r : list Token) : list Token := reading content kind r.
Definition open_comment (r : list Token) : bool := existsb (fun t => skipped t && t.(Unterminated)) r.

(** A scanner with the tokens [r] of the source left. *)
Definition unread (s : Scanner) (r : list Token) : Prop := queued content s r /\ r `suffix_of` lexed content.
Lemma unread_tail s s' t r : unread s (t :: r) -> queued content s' r -> unread s' r.
Proof. intros [_ Hs] Hq. split; [done|]. etrans; [|exact Hs]. by exists [t]. Qed.

Definition reported (p : Parser) : bool := negb (bool_decide (p.(rep).(Diagnostics) = [])).

(** A token left open was reported when it was consumed. *)
Definition closed (p : Parser) : Prop := forall t, lastToken p = Some t -> t.(Unterminated) = true -> reported p = true.

(** Tokens before the end of input, at increasing places. *)
Definition proper (ts : list Token) : Prop :=
  Forall (fun t => t.(tkKind) <> EOF /\ Offset t.(tkSpan) < length content) ts /\
  StronglySorted (fun a b => Offset a.(tkSpan) < Offset b.(tkSpan)) ts.

Lemma proper_kind ts i t : proper ts -> ts !! i = Some t -> t.(tkKind) <> EOF.
Proof. intros [H _] Hi. rewrite Forall_lookup in H. apply (H i t Hi). Qed.
Lemma proper_tail t ts : proper (t :: ts) -> proper ts.
Proof. intros [H1 H2]. inversion_clear H1. by inversion_clear H2. Qed.
Lemma proper_suffix c ts : proper (c ++ ts) -> proper ts.
Proof. induction c as [|t c IH]; [done|]. intros H%proper_tail. by apply IH. Qed.

(** A place past the tokens consumed. *)
Lemma proper_moved c ts : proper (c ++ ts) -> c <> [] -> Offset (tkSpan (raw (c ++ ts) 0)) < Offset (tkSpan (raw ts 0)).
Proof.
  intros [H1 H2] Hc. destruct c as [|t c]; [done|]. cbn [app] in *. change (raw (t :: c ++ ts) 0) with t.
  inversion_clear H1 as [|?? [_ Ht] _]. inversion_clear H2 as [|?? _ Hs]. destruct ts as [|u ts]; [done|].
  apply Forall_app in Hs as [_ Hs]. by inversion_clear Hs.
Qed.

Definition abs (p : Parser) (ts : list Token) (d : bool) : Prop :=
  p.(p_src) = content /\ p.(p_kind) = kind /\ p.(p_lx).(s_kind) = kind /\
  proper ts /\ length ts <= length content /\
  p.(win).(base) <= p.(win).(ppos) /\ p.(win).(ppos) - p.(win).(base) <= length p.(win).(buf) /\ closed p /\
  exists r k, unread p.(p_lx) r /\
    drop (p.(win).(ppos) - p.(win).(base)) p.(win).(buf) ++ kept (reads r) = ts ++ replicate k eof /\
    d = reported p || open_comment (reads r).

(** ** Pulling a token *)

(** What reading ahead leaves as it was. *)
Definition frame (p q : Parser) : Prop :=
  q.(p_src) = p.(p_src) /\ q.(p_kind) = p.(p_kind) /\ q.(p_lx).(s_kind) = p.(p_lx).(s_kind) /\ q.(win) = p.(win).

Lemma skip_trivia_spec p t :
  frame p (skip_trivia p t) /\ (skip_trivia p t).(p_lx) = p.(p_lx) /\
  reported (skip_trivia p t) = reported p || t.(Unterminated).
Proof.
  unfold reported, skip_trivia, error, errorWithFixes, report. destruct (Unterminated t); cbn -[bool_decide]; split_and!; try done.
  - rewrite orb_true_r. apply negb_true_iff, bool_decide_eq_false. intros E%app_nil. by destruct E.
  - by rewrite orb_false_r.
Qed.

Lemma pull_spec fuel spans p r :
  p.(p_src) = content -> p.(p_lx).(s_kind) = kind -> unread p.(p_lx) r -> length r < fuel ->
  exists spans' q r', pull fuel spans p = Some (raw (kept (reads r)) 0, spans', q) /\ frame p q /\ unread q.(p_lx) r'
    /\ kept (reads r') = tail (kept (reads r))
    /\ reported q || open_comment (reads r') = reported p || open_comment (reads r) /\ (reported p = true -> reported q = true).
Proof.
  revert spans p r. induction fuel as [|fuel IH]; intros spans p r Hsrc Hkind Hq Hf; [lia|]. cbn [pull].
  destruct (Scanner_Next_spec content _ r (proj1 Hq)) as (s & -> & Hq' & Hk). rewrite Hkind in *. destruct r as [|t r].
  { cbn [reading tail] in *. exists spans, (set_lx p s), []. split; [done|]. split; [|by split; [split; [|apply suffix_nil]|]].
    split_and!; try done. cbn. by rewrite Hkind. }
  cbn [tail] in Hq'. apply (unread_tail _ _ _ _ Hq) in Hq'. change (raw (reading content kind (t :: r)) 0) with (classified content kind t r).
  unfold reads at 1 3 5. cbn [reading]. unfold kept. rewrite filter_cons. unfold open_comment at 2. cbn [existsb].
  set (t' := classified content kind t r). destruct (skipped t') eqn:Esk.
  - rewrite decide_False by done. destruct (skip_trivia_spec (set_lx p s) t') as ((F1 & F2 & F3 & F4) & Elx & Ed).
    destruct (IH (spans ++ (if bool_decide (tkKind t' = RegularComment) then [tkSpan t'] else [])) (skip_trivia (set_lx p s) t') r)
      as (spans' & q & r' & -> & (G1 & G2 & G3 & G4) & Hq2 & Hkept & Hd & Hm).
    { by rewrite F1. } { rewrite F3. by cbn. } { by rewrite Elx. } { cbn in Hf. lia. }
    exists spans', q, r'. split; [done|]. cbn in F1, F2, F3, F4. split; [split_and!; congruence|].
    split; [done|]. split; [done|]. split; [rewrite Hd, Ed; by rewrite <- orb_assoc|]. intros Hp. apply Hm. rewrite Ed. by apply orb_true_iff; left.
  - rewrite decide_True by done. exists spans, (set_lx p s), r. split; [done|]. split; [split_and!; cbn; congruence|].
    split; [done|]. split; [done|]. done.
Qed.

(** ** Filling the window *)

Lemma compact_abs p ts d : abs p ts d -> abs (compact p) ts d /\ forall n, window_token (compact p) n = window_token p n.
Proof.
  intros Ha. pose proof Ha as (H1 & H2 & H3 & H4 & H5 & H6 & H7 & Hc & r & k & Hq & E & Hd). unfold compact. cbv zeta. match goal with |- context [if ?c then _ else _] => destruct c eqn:Ec end; [done|].
  apply orb_false_iff in Ec as [[_ Ec]%orb_false_iff _]. apply Nat.ltb_ge in Ec. unfold tokenWindow in Ec.
  set (n := ppos (win p) - base (win p)) in *.
  assert (Hdrop : drop 1 (drop (n - 1) (buf (win p))) = drop n (buf (win p))) by (rewrite drop_drop; f_equal; lia).
  split.
  - split_and!; try done; cbn [win set_win buf base ppos].
    + lia.
    + rewrite length_drop. lia.
    + intros t Hl. apply Hc. unfold lastToken in *. cbn [set_win win buf base ppos] in Hl. rewrite length_drop in Hl.
      replace (ppos (win p) - (base (win p) + (n - 1))) with 1 in Hl by lia. fold n. destruct n as [|i] eqn:En; [lia|].
      rewrite (proj2 (Nat.leb_le _ _)) by lia. rewrite (proj2 (Nat.leb_le _ _)) in Hl by lia. rewrite lookup_drop in Hl.
      by replace (S i - 1 + 0) with i in Hl by lia.
    + exists r, k. split; [done|]. split; [|done]. rewrite <- E. f_equal. rewrite <- Hdrop. f_equal. lia.
  - intros m. unfold window_token. cbn [win set_win buf base ppos]. rewrite lookup_drop. f_equal. lia.
Qed.

Lemma buffer_abs p ts d tok spans r k :
  p.(p_src) = content -> p.(p_kind) = kind -> p.(p_lx).(s_kind) = kind -> proper ts -> length ts <= length content ->
  p.(win).(base) <= p.(win).(ppos) -> p.(win).(ppos) - p.(win).(base) <= length p.(win).(buf) ->
  closed p -> unread p.(p_lx) r ->
  drop (p.(win).(ppos) - p.(win).(base)) p.(win).(buf) ++ [tok] ++ kept (reads r) = ts ++ replicate k eof ->
  d = reported p || open_comment (reads r) ->
  abs (buffer p tok spans) ts d.
Proof.
  intros ?????? Hl Hc. intros. unfold buffer. split_and!; try done; cbn [win set_win set_com buf base ppos].
  - rewrite length_app. lia.
  - intros t Ht. apply Hc. unfold lastToken in *. cbn [win set_win set_com buf base ppos] in Ht. destruct (ppos (win p) - base (win p)) as [|i]; [done|].
    rewrite (proj2 (Nat.leb_le _ _)) by lia. rewrite (proj2 (Nat.leb_le _ _)) in Ht by (rewrite length_app; lia). by rewrite lookup_app_l in Ht by lia.
  - exists r, k. split; [done|]. split; [|done]. rewrite drop_app_le by done. by rewrite <- app_assoc.
Qed.

Lemma kept_eof ts k l l' : l ++ l' = ts ++ replicate k eof -> exists k', l ++ [raw l' 0] ++ tail l' = ts ++ replicate k' eof.
Proof.
  intros E. destruct l' as [|t l']; [|by exists k]. rewrite app_nil_r in E. subst l. exists (S k). cbn [tail]. rewrite <- app_assoc. f_equal.
  change ([raw [] 0] ++ []) with (replicate 1 eof). rewrite <- replicate_add. f_equal. lia.
Qed.

Lemma fill_loop_spec n p ts d :
  abs p ts d -> exists q ext, fill_loop n p = Some q /\ abs q ts d /\ q.(win).(base) = p.(win).(base) /\ q.(win).(ppos) = p.(win).(ppos)
    /\ q.(win).(buf) = p.(win).(buf) ++ ext /\ (length ext = n \/ exists t, last ext = Some t /\ t.(tkKind) = EOF).
Proof.
  revert p. induction n as [|n IH]; intros p Ha.
  { exists p, []. rewrite app_nil_r. cbn. auto 10. }
  destruct Ha as (H1 & H2 & H3 & H4 & H5 & H6 & H7 & Hc & r & k & Hq & E & Hd). cbn [fill_loop].
  destruct (pull_spec (S (length (p_src p))) [] p r) as (spans & q & r' & -> & (F1 & F2 & F3 & F4) & Hq' & Hkept & Hd' & Hm); [done..| |].
  { rewrite H1. destruct Hq as [(_ & _ & ? & _) _]. lia. }
  cbn [mbind option_bind]. destruct (kept_eof _ _ _ _ E) as [k' E']. rewrite <- Hkept in E'.
  set (tok := raw (kept (reads r)) 0) in *.
  assert (Ha : abs (buffer q tok spans) ts d).
  { apply (buffer_abs _ _ _ _ _ r' k'); try congruence; rewrite ?F4; try done.
    intros t Ht Hu. apply Hm. apply (Hc t); [|done]. unfold lastToken in *. by rewrite F4 in Ht. }
  destruct (bool_decide (tkKind tok = EOF)) eqn:Eb.
  - exists (buffer q tok spans), [tok]. split; [done|]. split; [done|]. cbn [win set_com set_win buffer base ppos buf]. rewrite F4.
    split_and!; try done. right. exists tok. split; [done|]. by apply bool_decide_eq_true in Eb.
  - destruct (IH _ Ha) as (q2 & ext & -> & Ha2 & B1 & B2 & B3 & B4). exists q2, (tok :: ext). split; [done|]. split; [done|].
    cbn [win set_com set_win buffer base ppos buf] in *. rewrite F4 in *. split_and!; try done.
    + rewrite B3. by rewrite <- app_assoc.
    + destruct B4 as [B4|(t & B4 & B5)]; [left; cbn; lia|right]. exists t. destruct ext; [done|]. done.
Qed.

(** ** Reading the window *)

Lemma abs_window p ts d n t : abs p ts d -> window_token p n = Some t -> t = raw ts n.
Proof.
  intros (H1 & H2 & H3 & H4 & H5 & H6 & H7 & Hc & r & k & Hq & E & Hd) Hw. unfold window_token in Hw.
  symmetry. apply raw_replicate with k. rewrite <- E. apply lookup_app_l_Some. by rewrite lookup_drop.
Qed.

Lemma peekN_spec p ts d n : abs p ts d -> exists q, peekN n p = Some (raw ts n, q) /\ abs q ts d.
Proof.
  intros Ha. unfold peekN. destruct (window_token p n) as [t|] eqn:E0; [exists p; by rewrite (abs_window _ _ _ _ _ Ha E0)|].
  unfold fill. destruct (compact_abs p ts d Ha) as [Hc Hw]. rewrite <- Hw in E0.
  set (k := ppos (win (compact p)) - base (win (compact p)) + n + 1 - length (buf (win (compact p)))).
  destruct (fill_loop_spec k _ _ _ Hc) as (q & ext & -> & Hq & B1 & B2 & B3 & B4). cbn [mbind option_bind].
  destruct (window_token q n) as [t|] eqn:E1; [exists q; by rewrite (abs_window _ _ _ _ _ Hq E1)|].
  unfold window_token in E0, E1. apply lookup_ge_None in E0, E1. rewrite B1, B2, B3, length_app in E1.
  destruct B4 as [B4|(t & B4 & B5)]; [lia|]. rewrite B3, last_app, B4. cbn [mbind option_bind]. exists q. split; [|done].
  f_equal. f_equal. pose proof Hq as (H1 & H2 & H3 & H4 & H5 & H6 & H7 & Hcl & r & k' & Hqd & E & Hd).
  rewrite B3 in E. rewrite B3, length_app in H7.
  assert (Hin : exists m, m < n /\ (ts ++ replicate k' eof) !! m = Some t).
  { apply last_Some in B4 as [ext' ->]. rewrite length_app in *. cbn [length] in *.
    pose proof Hc as (_ & _ & _ & _ & _ & C6 & C7 & _ & _).
    exists (length (buf (win (compact p))) + length ext' - (ppos (win q) - base (win q))). rewrite B1, B2 in *. split; [lia|].
    rewrite <- E. apply lookup_app_l_Some. rewrite lookup_drop, app_assoc, lookup_app_r; rewrite length_app; [|lia].
    apply list_lookup_singleton_Some. split; [lia|done]. }
  destruct Hin as (m & Hm & Hl). rewrite <- (raw_replicate _ _ _ _ _ Hl).
  assert (Hge : length ts <= m).
  { destruct (decide (m < length ts)) as [Hlt|]; [|lia]. rewrite lookup_app_l in Hl by done. by destruct (proper_kind _ _ _ H4 Hl). }
  unfold ScannerFacts.raw. by rewrite !lookup_ge_None_2 by lia.
Qed.

(** ** Consuming a token *)

Definition text (sp : Span) : bytes := default [] (Text content sp).

(** A token consuming which reports an error. *)
Definition flawed (t : Token) : bool :=
  t.(Unterminated) || t.(BadEscape) && negb (bool_decide (InvalidEscapes t.(tkSpan) (text t.(tkSpan)) = [])).

(** States that differ in their reports. *)
Definition same_input (p q : Parser) : Prop :=
  q.(p_src) = p.(p_src) /\ q.(p_kind) = p.(p_kind) /\ q.(p_lx) = p.(p_lx) /\ q.(win) = p.(win).

Lemma error_spec p sp msg fixes : same_input p (errorWithFixes p sp msg fixes) /\ reported (errorWithFixes p sp msg fixes) = true.
Proof.
  split; [done|]. unfold reported, errorWithFixes, report. cbn [rep set_rep Diagnostics].
  apply negb_true_iff, bool_decide_eq_false. by intros [_ ?]%app_nil.
Qed.

Lemma reports_spec p f (l : list Span) :
  (forall p sp, same_input p (f p sp) /\ reported (f p sp) = true) ->
  same_input p (fold_left f l p) /\ reported (fold_left f l p) = reported p || negb (bool_decide (l = [])).
Proof.
  intros Hf. revert p. induction l as [|sp l IH]; intros p; cbn [fold_left]; [by rewrite orb_false_r|].
  destruct (Hf p sp) as [(F1 & F2 & F3 & F4) Hr]. destruct (IH (f p sp)) as [(G1 & G2 & G3 & G4) Hr'].
  split; [split_and!; congruence|]. rewrite Hr', Hr. cbn. by rewrite orb_true_r.
Qed.

Lemma abs_same p q ts d d' : abs p ts d -> same_input p q -> reported q = reported p || d' -> abs q ts (d || d').
Proof.
  intros (H1 & H2 & H3 & H4 & H5 & H6 & H7 & Hc & r & k & Hq & E & Hd) (F1 & F2 & F3 & F4) Hr.
  split_and!; rewrite ?F4; try congruence.
  { intros t Ht Hu. rewrite Hr. apply orb_true_iff. left. apply (Hc t); [|done]. unfold lastToken in *. by rewrite F4 in Ht. }
  exists r, k. rewrite F3. split_and!; [done..|].
  rewrite Hd, Hr. rewrite <- !orb_assoc. f_equal. by rewrite orb_comm.
Qed.

(** The reports of consuming a token. *)
Definition noted (t : Token) (p : Parser) : Parser :=
  let p := if t.(Unterminated) then reportUnterminated t p else p in
  if t.(BadEscape) then reportBadEscapes t p else p.

Lemma noted_win t p w : noted t (set_win p w) = set_win (noted t p) w.
Proof.
  unfold noted. assert (H : (if Unterminated t then reportUnterminated t (set_win p w) else set_win p w)
                            = set_win (if Unterminated t then reportUnterminated t p else p) w).
  { destruct (Unterminated t); [|done]. unfold reportUnterminated. by destruct (bool_decide (tkKind t = UnrestrictedName)). }
  rewrite H. generalize (if Unterminated t then reportUnterminated t p else p). clear. intros p. destruct (BadEscape t); [|done].
  unfold reportBadEscapes. change (src_Text (set_win p w) (tkSpan t)) with (src_Text p (tkSpan t)).
  generalize (InvalidEscapes (tkSpan t) (src_Text p (tkSpan t))). intros l. revert p.
  induction l as [|sp l IH]; intros p; [done|]. cbn [fold_left]. by rewrite <- IH.
Qed.

Lemma noted_same t p : same_input p (noted t p).
Proof.
  unfold noted. assert (H : same_input p (if Unterminated t then reportUnterminated t p else p)).
  { destruct (Unterminated t); [|done]. unfold reportUnterminated. by destruct (bool_decide (tkKind t = UnrestrictedName)). }
  destruct H as (F1 & F2 & F3 & F4). destruct (BadEscape t); [|done].
  unfold reportBadEscapes. match goal with |- same_input p (fold_left ?f ?l ?q) =>
    destruct (reports_spec q f l) as [(G1 & G2 & G3 & G4) _]; [intros; apply error_spec|] end.
  split_and!; congruence.
Qed.

Lemma noted_spec p ts d t : abs p ts d -> abs (noted t p) ts (d || flawed t) /\ (t.(Unterminated) = true -> reported (noted t p) = true).
Proof.
  intros Ha. assert (Hr : reported (noted t p) = reported p || flawed t).
  { destruct Ha as (H1 & _). unfold noted, flawed, text. rewrite <- H1.
    assert (H : reported (if Unterminated t then reportUnterminated t p else p) = reported p || Unterminated t
                /\ p_src (if Unterminated t then reportUnterminated t p else p) = p_src p).
    { destruct (Unterminated t); [|by rewrite orb_false_r]. rewrite orb_true_r. unfold reportUnterminated.
      destruct (bool_decide (tkKind t = UnrestrictedName)); (split; [apply error_spec|done]). }
    destruct H as [H Hs]. revert H Hs. generalize (if Unterminated t then reportUnterminated t p else p). intros q H Hs.
    destruct (BadEscape t); [|by rewrite orb_false_r]. unfold reportBadEscapes. cbn [andb].
    match goal with |- reported (fold_left ?f ?l ?q) = _ => destruct (reports_spec q f l) as [_ ->]; [intros; apply error_spec|] end.
    rewrite H, orb_assoc. unfold src_Text. by rewrite Hs. }
  split; [apply (abs_same p); [done|apply noted_same|done]|]. intros Hu. rewrite Hr. unfold flawed. rewrite Hu. by rewrite orb_true_r.
Qed.

Lemma advance_spec p ts d : abs p ts d ->
  exists q, advance p = Some (raw ts 0, q) /\ abs q (tail ts) (d || flawed (raw ts 0)).
Proof.
  intros Ha. unfold advance.
  assert (Hfill : exists q, (if length (buf (win p)) <=? ppos (win p) - base (win p) then fill 0 p else Some p) = Some q
                            /\ abs q ts d /\ window_token q 0 = Some (raw ts 0)).
  { destruct (window_token p 0) as [t|] eqn:E0.
    - pose proof (abs_window _ _ _ _ _ Ha E0) as ->. pose proof (lookup_lt_Some _ _ _ E0). rewrite (proj2 (Nat.leb_gt _ _)) by lia. by exists p.
    - pose proof (proj1 (lookup_ge_None _ _) E0) as Hl. rewrite (proj2 (Nat.leb_le _ _)) by lia.
      destruct (peekN_spec p ts d 0 Ha) as (q & Hp & Hq). unfold peekN in Hp. rewrite E0 in Hp.
      destruct (fill 0 p) as [q'|] eqn:Ef; [|done]. cbn [mbind option_bind] in Hp. exists q'. split; [done|].
      unfold fill in Ef. destruct (compact_abs p ts d Ha) as [Hc Hw]. rewrite <- Hw in E0.
      destruct (fill_loop_spec (ppos (win (compact p)) - base (win (compact p)) + 0 + 1 - length (buf (win (compact p)))) _ _ _ Hc) as (q2 & ext & Ef2 & Hq2 & B1 & B2 & B3 & B4). rewrite Ef2 in Ef. injection Ef as <-.
      split; [done|]. unfold window_token in *. apply lookup_ge_None in E0.
      assert (Hne : ext <> []) by (destruct B4 as [B4|(? & B4 & _)]; destruct ext; cbn in *; (done || lia)).
      pose proof Hc as (_ & _ & _ & _ & _ & C6 & C7 & _ & _).
      destruct (lookup_lt_is_Some_2 (buf (win q2)) (ppos (win q2) - base (win q2) + 0)) as [t Ht].
      { rewrite B1, B2, B3, length_app. destruct ext; [done|cbn; lia]. }
      rewrite Ht. f_equal. by apply (abs_window q2 ts d 0). }
  destruct Hfill as (q & -> & Hq & Hw). cbn [mbind option_bind]. rewrite Hw. cbn [mbind option_bind].
  destruct (bool_decide (tkKind (raw ts 0) = EOF)) eqn:Eb.
  - apply bool_decide_eq_true in Eb. destruct ts as [|t ts]; [exists q; split; [done|]; by rewrite orb_false_r|].
    destruct Hq as (_ & _ & _ & H4 & _). by destruct (proper_kind _ 0 t H4).
  - apply bool_decide_eq_false in Eb. destruct ts as [|t ts]; [done|]. change (raw (t :: ts) 0) with t in *. cbn [tail].
    set (q2 := if BadEscape t then _ else _). eexists. split; [done|].
    assert (E2 : q2 = set_win (noted t q) {| buf := buf (win q); base := base (win q); ppos := S (ppos (win q)) |}) by apply noted_win.
    rewrite E2. clear q2 E2. destruct (noted_spec q (t :: ts) d t Hq) as [(H1 & H2 & H3 & H4 & H5 & H6 & H7 & Hc & r & k & Hqd & E & Hd) Hr].
    pose proof (noted_same t q) as (_ & _ & _ & W). rewrite W in *. apply proper_tail in H4. cbn in H5. pose proof Hw as Hw'.
    unfold window_token in Hw'. rewrite Nat.add_0_r in Hw'. pose proof (lookup_lt_Some _ _ _ Hw') as Hlt.
    split_and!; cbn [set_win p_src p_kind p_lx win buf base ppos]; rewrite ?W; try done; try lia.
    + intros t' Ht Hu. unfold lastToken in Ht. cbn [set_win win buf base ppos] in Ht.
      replace (S (ppos (win q)) - base (win q)) with (S (ppos (win q) - base (win q))) in Ht by lia.
      rewrite (proj2 (Nat.leb_le _ _)), Hw' in Ht by lia. injection Ht as <-. by apply Hr.
    + exists r, k. split; [done|]. split; [|done]. rewrite (drop_S _ _ _ Hw') in E. injection E as E. rewrite <- E. f_equal. f_equal. lia.
Qed.

(** ** The program logic *)

Definition wp {A} (m : M A) (Q : A -> list Token -> bool -> Prop) (ts : list Token) (d : bool) : Prop :=
  forall p, abs p ts d -> exists a q ts' d', m p = Some (a, q) /\ abs q ts' d' /\ Q a ts' d'.

Lemma wp_mono {A} (m : M A) Q Q' ts d : (forall a ts' d', Q a ts' d' -> Q' a ts' d') -> wp m Q ts d -> wp m Q' ts d.
Proof. intros HQ Hm p Hp. destruct (Hm p Hp) as (a & q & ts' & d' & ? & ? & ?). eauto 10. Qed.
Lemma wp_ret {A} (a : A) (Q : A -> list Token -> bool -> Prop) ts d : Q a ts d -> wp (ret a) Q ts d.
Proof. intros HQ p Hp. exists a, p, ts, d. done. Qed.
Lemma wp_bind {A B} (m : M A) (f : A -> M B) Q ts d : wp m (fun a => wp (f a) Q) ts d -> wp (bind m f) Q ts d.
Proof.
  intros Hm p Hp. destruct (Hm p Hp) as (a & q & ts' & d' & E & Hq & Hf). destruct (Hf q Hq) as (b & q' & ts2 & d2 & E' & Hq' & HQ).
  exists b, q', ts2, d2. unfold bind. by rewrite E.
Qed.
Lemma wp_peekN n (Q : Token -> list Token -> bool -> Prop) ts d : Q (raw ts n) ts d -> wp (peekN n) Q ts d.
Proof. intros HQ p Hp. destruct (peekN_spec p ts d n Hp) as (q & E & Hq). eauto 10. Qed.
Lemma wp_advance (Q : Token -> list Token -> bool -> Prop) ts d :
  Q (raw ts 0) (tail ts) (d || flawed (raw ts 0)) -> wp advance Q ts d.
Proof. intros HQ p Hp. destruct (advance_spec p ts d Hp) as (q & E & Hq). eauto 10. Qed.
Lemma wp_raise sp msg (Q : unit -> list Token -> bool -> Prop) ts d : Q tt ts true -> wp (raise sp msg) Q ts d.
Proof.
  intros HQ p Hp. exists tt, (error p sp msg), ts, true. split; [done|]. split; [|done]. rewrite <- (orb_true_r d).
  apply (abs_same p); [done|apply error_spec|]. rewrite orb_true_r. apply error_spec.
Qed.

(** A read of the state. *)
Lemma wp_gets {A} (f : Parser -> A) (Q : A -> list Token -> bool -> Prop) ts d : (forall p, abs p ts d -> Q (f p) ts d) -> wp (gets f) Q ts d.
Proof. intros HQ p Hp. exists (f p), p, ts, d. auto. Qed.
(** The tokens left are at increasing places. *)
Lemma wp_proper {A} (m : M A) Q ts d : (proper ts -> wp m Q ts d) -> wp m Q ts d.
Proof. intros Hm p Hp. apply (Hm ltac:(apply Hp) p Hp). Qed.
(** A change of what is not input. *)
Lemma wp_modify f (Q : unit -> list Token -> bool -> Prop) ts d :
  (forall p, same_input p (f p) /\ reported (f p) = reported p) -> Q tt ts d -> wp (modify f) Q ts d.
Proof.
  intros Hf HQ p Hp. exists tt, (f p), ts, d. split; [done|]. split; [|done]. rewrite <- (orb_false_r d).
  apply (abs_same p); [done|apply Hf|]. rewrite orb_false_r. apply Hf.
Qed.
End Abstraction.

(** ** A source as the parser meets it *)

(** The tokens a parse of the source consumes, and whether a comment of it is left open. *)
Definition source_tokens (content : bytes) (kind : Source.Kind) : list Token := kept (reads content kind (lexed content)).
Definition left_open (content : bytes) (kind : Source.Kind) : bool := open_comment (reads content kind (lexed content)).

Definition placed (content : bytes) (t : Token) : Prop := t.(tkKind) <> EOF /\ Offset t.(tkSpan) < length content.
Definition precedes (a b : Token) : Prop := Offset a.(tkSpan) < Offset b.(tkSpan).

Lemma lexes_proper lx r :
  lexes lx r -> proper lx.(src) r /\ Forall (fun t => lx.(pos) <= Offset t.(tkSpan)) r.
Proof.
  induction 1 as [|lx t lx' r Hn Hk Hp Hs Hr [[H1 H2] H3]]; [by repeat constructor|].
  destruct (lookup_lt_is_Some_2 lx.(src) lx.(pos)) as [c Hc]; [lia|].
  pose proof (next_token_scanned _ _ _ Hc) as (Hsp & Hb & _). unfold Next in Hn. destruct (next_token (src lx) (pos lx)) as [t0 p'] eqn:E.
  injection Hn as <- <-. cbn [pos src fst snd] in *.
  assert (Ht : Offset (tkSpan t0) = pos lx) by (by rewrite Hsp).
  split; [split|]; constructor; try done; cbn [pos src]; try lia; [by rewrite Ht; split; [|lia]| |]; eapply Forall_impl; try done; cbn; lia.
Qed.

Lemma reading_proper content kind r : proper content r -> proper content (reading content kind r).
Proof.
  intros [H1 H2]. split; [apply Forall_and; split; [apply reading_not_end; eapply Forall_impl; [exact H1|]; by intros ? []|]|].
  - apply (Forall_map tkSpan (fun sp => Offset sp < length content)). rewrite reading_spans. apply Forall_map. eapply Forall_impl; [exact H1|]; by intros ? [].
  - revert H2. clear. intros H2.
    enough (Hs : forall l l', map tkSpan l = map tkSpan l' -> StronglySorted precedes l -> StronglySorted precedes l') by (by apply (Hs r); [rewrite reading_spans|]).
    induction l as [|a l IH]; intros [|a' l'] E Hl; try done. injection E as Ea E. inversion_clear Hl as [|?? Hs Ha]. constructor; [by apply IH|].
    apply (Forall_map tkSpan (fun sp => Offset (tkSpan a') < Offset sp)). rewrite <- E, <- Ea. by apply Forall_map.
Qed.

Lemma Forall_kept (P : Token -> Prop) r : Forall P r -> Forall P (kept r).
Proof. rewrite !Forall_forall. intros H t [_ Ht]%list_elem_of_filter. by apply H. Qed.
Lemma kept_proper content r : proper content r -> proper content (kept r).
Proof.
  intros [H1 H2]. split; [by apply Forall_kept|]. clear H1. unfold kept.
  induction H2 as [|t r Hr IH Ht]; [constructor|]. rewrite filter_cons. case_decide; [|done]. constructor; [done|]. by apply Forall_kept.
Qed.

Lemma New_Parser_abs content kind :
  abs content kind (New_Parser content kind) (source_tokens content kind) (left_open content kind).
Proof.
  destruct (queued_new content kind) as (r & Hq & Ht).
  assert (lexed content = r) as Er by (unfold lexed; by rewrite Ht, removelast_last). unfold source_tokens, left_open. rewrite Er. pose proof Hq as (_ & _ & Hl & r0 & k & Hlx & E). cbn [NewScanner pending app s_lx] in *.
  assert (k = 0) as ->.
  { destruct k as [|k]; [done|]. pose proof (lexes_not_end _ _ Hlx) as Hne. rewrite E in Hne. apply Forall_app in Hne as [_ Hne]. by inversion_clear Hne. }
  cbn [replicate] in E. rewrite app_nil_r in E. subst r0.
  destruct (lexes_proper _ _ Hlx) as [Hp _]. cbn in Hp.
  split_and!; try done; cbn [New_Parser win base ppos buf]; try lia.
  - by apply kept_proper, reading_proper.
  - etrans; [apply length_filter|]. rewrite <- (length_map tkSpan), reading_spans, length_map. lia.
  - exists r, 0. split; [by split; [|rewrite Er]|]. split; [|done]. cbn [replicate]. by rewrite app_nil_r.
Qed.

Lemma reading_suffix content kind r r' : r' `suffix_of` r -> reading content kind r' `suffix_of` reading content kind r.
Proof.
  intros [c ->]. induction c as [|t c IH]; [done|]. cbn [app reading]. etrans; [exact IH|]. by exists [classified content kind t (c ++ r')].
Qed.

(** What a parse that leaves [ts] says: it reported, or it has nothing to report. *)
Lemma abs_silent content kind p ts d :
  abs content kind p ts d -> left_open content kind = false -> d = reported p.
Proof.
  intros (_ & _ & _ & _ & _ & _ & _ & _ & r & k & [_ Hs] & _ & ->) Hopen. destruct (open_comment (reads content kind r)) eqn:E; [|by rewrite orb_false_r].
  unfold left_open, open_comment, reads in *. destruct (reading_suffix content kind _ _ Hs) as [c Hc]. rewrite Hc, existsb_app, E, orb_true_r in Hopen. done.
Qed.

(** ** Rules for the operations the productions are written with *)

Section Rules.
Context (content : bytes) (kind : Source.Kind).
Abbreviation eof := (EOF_token content).
Abbreviation raw := (ScannerFacts.raw content).
Abbreviation wp := (ParserFacts.wp content kind).
Abbreviation flawed := (ParserFacts.flawed content).
Implicit Types (ts : list Token) (d : bool).

Lemma raw_head ts k : tkKind (raw ts 0) = k -> k <> EOF -> exists t ts', ts = t :: ts' /\ tkKind t = k.
Proof. destruct ts as [|t ts]; [by intros <-|]. intros <- _. by exists t, ts. Qed.
Lemma keyword_head ts kw : is_keyword (raw ts 0) kw = true -> exists t ts', ts = t :: ts' /\ is_keyword t kw = true.
Proof. destruct ts as [|t ts]; [done|]. intros H. by exists t, ts. Qed.

(** ** Looking ahead *)

Lemma wp_peek (Q : Token -> list Token -> bool -> Prop) ts d : Q (raw ts 0) ts d -> wp peek Q ts d.
Proof. apply wp_peekN. Qed.
Lemma wp_atEOF (Q : bool -> list Token -> bool -> Prop) ts d : Q (bool_decide (tkKind (raw ts 0) = EOF)) ts d -> wp atEOF Q ts d.
Proof. intros HQ. by apply wp_bind, wp_peek, wp_ret. Qed.
Lemma wp_Offset (Q : nat -> list Token -> bool -> Prop) ts d : Q (Offset (tkSpan (raw ts 0))) ts d -> wp Parser_Offset Q ts d.
Proof. intros HQ. by apply wp_bind, wp_peek, wp_ret. Qed.
Lemma wp_at k (Q : bool -> list Token -> bool -> Prop) ts d : Q (bool_decide (tkKind (raw ts 0) = k)) ts d -> wp (at_ k) Q ts d.
Proof. intros HQ. by apply wp_bind, wp_peek, wp_ret. Qed.
Lemma wp_atKeyword kw (Q : bool -> list Token -> bool -> Prop) ts d : Q (is_keyword (raw ts 0) (bs kw)) ts d -> wp (atKeyword kw) Q ts d.
Proof. intros HQ. by apply wp_bind, wp_peek, wp_ret. Qed.
Lemma wp_peekIsKeyword n kw (Q : bool -> list Token -> bool -> Prop) ts d :
  Q (is_keyword (raw ts n) (bs kw)) ts d -> wp (peekIsKeyword n kw) Q ts d.
Proof. intros HQ. by apply wp_bind, wp_peekN, wp_ret. Qed.

(** ** Consuming *)

Lemma wp_next t ts d (Q : Token -> list Token -> bool -> Prop) : Q t ts (d || flawed t) -> wp advance Q (t :: ts) d.
Proof. intros HQ. by apply wp_advance. Qed.

Lemma wp_accept k (Q : option Token -> list Token -> bool -> Prop) ts d :
  k <> EOF ->
  (forall t ts', ts = t :: ts' -> tkKind t = k -> Q (Some t) ts' (d || flawed t)) ->
  (tkKind (raw ts 0) <> k -> Q None ts d) -> wp (accept k) Q ts d.
Proof.
  intros Hk Ht Hn. apply wp_bind, wp_at. case_bool_decide as E; [|by apply wp_ret, Hn].
  destruct (raw_head _ _ E Hk) as (t & ts' & -> & Et). apply wp_bind, wp_next, wp_ret. by apply Ht.
Qed.
Lemma wp_accept2 k (Q : bool -> list Token -> bool -> Prop) ts d :
  k <> EOF ->
  (forall t ts', ts = t :: ts' -> tkKind t = k -> Q true ts' (d || flawed t)) ->
  (tkKind (raw ts 0) <> k -> Q false ts d) -> wp (accept2 k) Q ts d.
Proof. intros Hk Ht Hn. apply wp_bind, wp_accept; [done|..]; intros; apply wp_ret; eauto. Qed.
Lemma wp_acceptKeyword kw (Q : bool -> list Token -> bool -> Prop) ts d :
  (forall t ts', ts = t :: ts' -> is_keyword t (bs kw) = true -> Q true ts' (d || flawed t)) ->
  (is_keyword (raw ts 0) (bs kw) = false -> Q false ts d) -> wp (acceptKeyword kw) Q ts d.
Proof.
  intros Ht Hn. apply wp_bind, wp_atKeyword. destruct (is_keyword _ _) eqn:E; [|by apply wp_ret, Hn].
  destruct (keyword_head _ _ E) as (t & ts' & -> & Et). apply wp_bind, wp_next, wp_ret. by apply Ht.
Qed.
Lemma wp_expect k msg (Q : option Token -> list Token -> bool -> Prop) ts d :
  k <> EOF ->
  (forall t ts', ts = t :: ts' -> tkKind t = k -> Q (Some t) ts' (d || flawed t)) ->
  (tkKind (raw ts 0) <> k -> Q None ts true) -> wp (expect k msg) Q ts d.
Proof.
  intros Hk Ht Hn. apply wp_bind, wp_at. case_bool_decide as E.
  - destruct (raw_head _ _ E Hk) as (t & ts' & -> & Et). apply wp_bind, wp_next, wp_ret. by apply Ht.
  - apply wp_bind, wp_peek, wp_bind, wp_raise, wp_ret. by apply Hn.
Qed.
Lemma wp_expect2Keyword kw (Q : bool -> list Token -> bool -> Prop) ts d :
  (forall t ts', ts = t :: ts' -> is_keyword t (bs kw) = true -> Q true ts' (d || flawed t)) ->
  (is_keyword (raw ts 0) (bs kw) = false -> Q false ts true) -> wp (expect2Keyword kw) Q ts d.
Proof.
  intros Ht Hn. apply wp_bind, wp_acceptKeyword; intros; [apply wp_ret; eauto|].
  apply wp_bind, wp_peek, wp_bind, wp_raise, wp_ret. by apply Hn.
Qed.

(** ** Positions and marks *)

Lemma wp_lastEnd (Q : nat -> list Token -> bool -> Prop) ts d : (forall n, Q n ts d) -> wp lastEnd Q ts d.
Proof. intros HQ. apply wp_bind, wp_gets. intros p _. destruct (lastToken p); [by apply wp_ret|by apply wp_Offset]. Qed.
Lemma wp_spanFrom start (Q : Span -> list Token -> bool -> Prop) ts d : (forall sp, Q sp ts d) -> wp (spanFrom start) Q ts d.
Proof. intros HQ. apply wp_bind, wp_lastEnd. intros n. apply wp_bind, wp_gets. intros p _. by apply wp_bind, wp_Offset, wp_ret. Qed.
Lemma wp_loop_fuel (Q : nat -> list Token -> bool -> Prop) ts d :
  (forall n, length ts < n -> Q n ts d) -> wp (gets (fun p => S (length p.(p_src)))) Q ts d.
Proof. intros HQ. apply wp_gets. intros p (H1 & _ & _ & _ & H5 & _). apply HQ. rewrite H1. lia. Qed.
Lemma wp_kind (Q : Source.Kind -> list Token -> bool -> Prop) ts d : Q kind ts d -> wp (gets p_kind) Q ts d.
Proof. intros HQ. apply wp_gets. intros p (_ & H2 & _). by rewrite H2. Qed.
Lemma wp_text sp (Q : bytes -> list Token -> bool -> Prop) ts d : Q (text content sp) ts d -> wp (gets (fun p => src_Text p sp)) Q ts d.
Proof. intros HQ. apply wp_gets. intros p (H1 & _). unfold src_Text. by rewrite H1. Qed.

Lemma wp_takeTrivia (Q : list Trivia -> list Token -> bool -> Prop) ts d : (forall l, Q l ts d) -> wp takeTrivia Q ts d.
Proof.
  intros HQ p Hp. unfold takeTrivia. eexists _, _, ts, d. split; [done|]. split; [|apply HQ]. rewrite <- (orb_false_r d).
  apply (abs_same content kind p); [done..|]. by rewrite orb_false_r.
Qed.
Lemma wp_memberStart (Q : unit -> list Token -> bool -> Prop) ts d : Q tt ts d -> wp memberStart Q ts d.
Proof. intros HQ. by apply wp_bind, wp_Offset, wp_modify. Qed.
Lemma wp_resultEnd (Q : unit -> list Token -> bool -> Prop) ts d : Q tt ts d -> wp resultEnd Q ts d.
Proof. intros HQ. by apply wp_bind, wp_Offset, wp_modify. Qed.
Lemma wp_attachedStart o (Q : unit -> list Token -> bool -> Prop) ts d : Q tt ts d -> wp (attachedStart o) Q ts d.
Proof. intros HQ. by apply wp_modify. Qed.
Lemma wp_in_body {A} c (m : M A) Q ts d : wp m Q ts d -> wp (in_body c m) Q ts d.
Proof.
  intros Hm. apply wp_bind, wp_gets. intros p _. apply wp_bind, wp_modify; [done|]. apply wp_bind. eapply wp_mono; [|exact Hm].
  intros a ts' d' HQ. apply wp_bind, wp_modify; [done|]. by apply wp_ret.
Qed.
Lemma wp_op_slot (Q : nat -> list Token -> bool -> Prop) ts d : (forall n, Q n ts d) -> wp op_slot Q ts d.
Proof.
  intros HQ p Hp. unfold op_slot. eexists _, _, ts, d. split; [done|]. split; [|apply HQ]. rewrite <- (orb_false_r d).
  apply (abs_same content kind p); [done..|]. by rewrite orb_false_r.
Qed.
Lemma wp_set_op n sp (Q : unit -> list Token -> bool -> Prop) ts d : Q tt ts d -> wp (set_op n sp) Q ts d.
Proof. intros HQ. by apply wp_modify. Qed.

(** A missing terminator is reported, now or when the last token was consumed. *)
Lemma wp_missingTerminator a b fixes (Q : unit -> list Token -> bool -> Prop) ts d : Q tt ts true -> wp (missingTerminator a b fixes) Q ts d.
Proof.
  intros HQ. assert (Hraise : forall ts d f (p : Parser -> Span) (m : Parser -> bytes), Q tt ts true ->
    (forall q, f q = errorWithFixes q (p q) (m q) fixes) -> wp (modify f) Q ts d).
  { intros ts' d' f p' m HQ' Hf p Hp. eexists tt, _, ts', true. split; [done|]. split; [|done]. rewrite Hf. rewrite <- (orb_true_r d').
    apply (abs_same content kind p); [done|apply error_spec|]. rewrite orb_true_r. apply error_spec. }
  apply wp_bind, wp_peek, wp_bind. intros p Hp. exists (lastToken p), p, ts, d. split; [done|]. split; [done|].
  destruct (lastToken p) as [t|] eqn:Et; [|by eapply (Hraise _ _ _ (fun _ => _) (fun _ => _))].
  destruct (Unterminated t) eqn:Eu.
  - apply wp_ret. assert (Hd : d = true); [|by rewrite Hd].
    destruct Hp as (_ & _ & _ & _ & _ & _ & _ & Hc & r & k & _ & _ & ->). by rewrite (Hc t Et Eu).
  - apply wp_bind. assert (Hm : forall e, wp (modify (fun p => if (e : bool) then errorWithFixes p (tkSpan t) b fixes
                                 else errorWithFixes p (tkSpan (raw ts 0)) a fixes)) Q ts d).
    { intros [|]; by eapply (Hraise _ _ _ (fun _ => _) (fun _ => _)). }
    destruct (_ || _); [apply wp_ret; exact (Hm true)|]. apply wp_bind, wp_gets. intros q _. apply wp_bind, wp_gets. intros q' _. apply wp_ret. exact (Hm _).
Qed.
Lemma wp_expectSemicolon what (Q : bool -> list Token -> bool -> Prop) ts d :
  (forall t ts', ts = t :: ts' -> tkKind t = Semicolon -> Q true ts' (d || flawed t)) ->
  (tkKind (raw ts 0) <> Semicolon -> Q false ts true) -> wp (expectSemicolon what) Q ts d.
Proof.
  intros Ht Hn. apply wp_bind, wp_accept2; [done|intros; apply wp_ret; eauto|]. intros Hk. apply wp_bind, wp_bind, wp_lastEnd. intros n.
  apply wp_ret, wp_bind, wp_missingTerminator, wp_ret. by apply Hn.
Qed.
End Rules.

Ltac intro_head := let t := fresh "t" in let ts := fresh "ts" in let E := fresh in let Ht := fresh "Ht" in
  intros t ts E Ht; first [injection E as <- <-|subst].
(** Run the primitive operation the goal starts with. *)
Ltac wp_prim :=
  lazymatch goal with
  | |- wp _ _ (bind _ _) _ _ _ => apply wp_bind
  | |- wp _ _ (ret _) _ _ _ => apply wp_ret
  | |- wp _ _ peek _ _ _ => apply wp_peek
  | |- wp _ _ (peekN _) _ _ _ => apply wp_peekN
  | |- wp _ _ atEOF _ _ _ => apply wp_atEOF
  | |- wp _ _ Parser_Offset _ _ _ => apply wp_Offset
  | |- wp _ _ (at_ _) _ _ _ => apply wp_at
  | |- wp _ _ (atKeyword _) _ _ _ => apply wp_atKeyword
  | |- wp _ _ (peekIsKeyword _ _) _ _ _ => apply wp_peekIsKeyword
  | |- wp _ _ advance _ (_ :: _) _ => apply wp_next
  | |- wp _ _ (raise _ _) _ _ _ => apply wp_raise
  | |- wp _ _ (spanFrom _) _ _ _ => apply wp_spanFrom; intros ?
  | |- wp _ _ takeTrivia _ _ _ => apply wp_takeTrivia; intros ?
  | |- wp _ _ memberStart _ _ _ => apply wp_memberStart
  | |- wp _ _ resultEnd _ _ _ => apply wp_resultEnd
  | |- wp _ _ (attachedStart _) _ _ _ => apply wp_attachedStart
  | |- wp _ _ (in_body _ _) _ _ _ => apply wp_in_body
  | |- wp _ _ op_slot _ _ _ => apply wp_op_slot; intros ?
  | |- wp _ _ (set_op _ _) _ _ _ => apply wp_set_op
  | |- wp _ _ (gets p_kind) _ _ _ => apply wp_kind
  | |- wp _ _ (gets (fun p => S (length (p_src p)))) _ _ _ => apply wp_loop_fuel; intros ? ?
  | |- wp _ _ (gets (fun p => src_Text p _)) _ _ _ => apply wp_text
  | |- wp _ _ (accept _) _ _ _ => apply wp_accept; [done|intro_head|intros ?]
  | |- wp _ _ (accept2 _) _ _ _ => apply wp_accept2; [done|intro_head|intros ?]
  | |- wp _ _ (acceptKeyword _) _ _ _ => apply wp_acceptKeyword; [intro_head|intros ?]
  | |- wp _ _ (expect _ _) _ _ _ => apply wp_expect; [done|intro_head|intros ?]
  | |- wp _ _ (expect2Keyword _) _ _ _ => apply wp_expect2Keyword; [intro_head|intros ?]
  | |- wp _ _ (expectSemicolon _) _ _ _ => apply wp_expectSemicolon; [intro_head|intros ?]
  end.
Ltac wp_run := repeat (wp_prim; cbv beta).
