(* ===== verification/ParserWindow.v ===== *)
(** * Backtracking over the token window

    Productions look ahead, consume, and try an alternative under a checkpoint. Over
    any sequence of these the window is a cursor in the list of the source's tokens:
    what it drops, no checkpoint returns to. *)
From S2P Require Import Prelude Bytes Source Lexer LexerFacts Scanner ScannerFacts Syntax Parser ParserFacts.

(** ** Sequences of operations *)

Inductive Op := Peek (n : nat) | Advance | Checkpoint | Restore | Release.

(** The parser with the checkpoints open, the last first; what is restored and
    released is the last. *)
Definition parser_op (o : Op) (stack : list parseCheckpoint) (p : Parser) : option (list Token * list parseCheckpoint * Parser) :=
  match o with
  | Peek n => '(t, p) ← peekN n p; Some ([t], stack, p)
  | Advance => '(t, p) ← advance p; Some ([t], stack, p)
  | Checkpoint => let '(cp, p) := checkpoint p in Some ([], cp :: stack, p)
  | Restore => Some ([], stack, match stack with cp :: _ => restore cp p | [] => p end)
  | Release => Some (match stack with _ :: stack => ([], stack, release p) | [] => ([], [], p) end)
  end.
Fixpoint parser_ops (l : list Op) (stack : list parseCheckpoint) (p : Parser) : option (list Token) :=
  match l with
  | [] => Some []
  | o :: l => '(out, stack, p) ← parser_op o stack p; outs ← parser_ops l stack p; Some (out ++ outs)
  end.

(** The reference: the tokens left, and those left at each checkpoint. *)
Section Cursor.
Context (content : bytes).
Definition cursor_op (o : Op) (saved : list (list Token)) (ts : list Token) : list Token * list (list Token) * list Token :=
  match o with
  | Peek n => ([raw content ts n], saved, ts)
  | Advance => ([raw content ts 0], saved, tail ts)
  | Checkpoint => ([], ts :: saved, ts)
  | Restore => ([], saved, match saved with ts' :: _ => ts' | [] => ts end)
  | Release => ([], tail saved, ts)
  end.
Fixpoint cursor_ops (l : list Op) (saved : list (list Token)) (ts : list Token) : list Token :=
  match l with
  | [] => []
  | o :: l => let '(out, saved, ts) := cursor_op o saved ts in out ++ cursor_ops l saved ts
  end.
End Cursor.

(** ** Growth

    What reading does to the window while a checkpoint is open. *)

Section Growth.
Context (content : bytes) (kind : Source.Kind).
Abbreviation eof := (EOF_token content).
Abbreviation raw := (ScannerFacts.raw content).
Abbreviation abs := (ParserFacts.abs content kind).
Abbreviation unread := (ParserFacts.unread content).
Abbreviation reads := (ParserFacts.reads content kind).

Record grows (p q : Parser) : Prop := {
  grows_base : q.(win).(base) = p.(win).(base);
  grows_checkpoints : q.(checkpoints) = p.(checkpoints);
  grows_reports : p.(rep).(Diagnostics) `prefix_of` q.(rep).(Diagnostics);
  grows_tokens r : unread p.(p_lx) r -> exists ext r', unread q.(p_lx) r' /\ q.(win).(buf) = p.(win).(buf) ++ ext
    /\ forall i, raw (kept (reads r)) i = raw (ext ++ kept (reads r')) i }.

Lemma grows_refl p : grows p p.
Proof. split; try done. intros r Hr. exists [], r. by rewrite app_nil_r. Qed.
Lemma raw_app_r l1 l2 l i : (forall i, raw l1 i = raw l2 i) -> raw (l ++ l1) i = raw (l ++ l2) i.
Proof.
  intros H. unfold ScannerFacts.raw in *. destruct (decide (i < length l)); [by rewrite !lookup_app_l|].
  rewrite !lookup_app_r by lia. apply H.
Qed.
Lemma grows_trans p q s : grows p q -> grows q s -> grows p s.
Proof.
  intros [B1 C1 D1 T1] [B2 C2 D2 T2]. split; [congruence|congruence|by etrans|].
  intros r Hr. destruct (T1 r Hr) as (e1 & r1 & Hr1 & E1 & V1). destruct (T2 r1 Hr1) as (e2 & r2 & Hr2 & E2 & V2).
  exists (e1 ++ e2), r2. split; [done|]. split; [rewrite E2, E1; by rewrite <- app_assoc|].
  intros i. rewrite V1, <- app_assoc. by apply raw_app_r.
Qed.

Lemma skip_trivia_checkpoints p t : checkpoints (skip_trivia p t) = checkpoints p.
Proof. unfold skip_trivia. by destruct (Unterminated t). Qed.
Lemma skip_trivia_reports p t : Diagnostics (rep p) `prefix_of` Diagnostics (rep (skip_trivia p t)).
Proof. unfold skip_trivia. destruct (Unterminated t); [by eexists|done]. Qed.
Lemma ahead_kind n s : s_kind (ahead n s).2 = s_kind s.
Proof.
  enough (Hl : forall fuel s i seen t, s_kind (ahead_loop fuel i seen n t s).2 = s_kind s) by apply Hl. clear s.
  induction fuel as [|fuel IH]; intros s i seen t; cbn [ahead_loop]; [done|].
  assert (Hf : s_kind (fetch i s).2 = s_kind s) by (unfold fetch; destruct (pending s !! i); [done|]; by destruct (Next (s_lx s))).
  destruct (fetch i s) as [t' s']. cbn [snd] in Hf. rewrite <- Hf. destruct (skipped t'); [apply IH|]. destruct (_ || _); [done|apply IH].
Qed.
Lemma readsAsName_kind s : s_kind (readsAsName s).2 = s_kind s.
Proof.
  unfold readsAsName. pose proof (ahead_kind 0 s) as H0. destruct (ahead 0 s) as [t0 s0]. cbn [snd] in H0. rewrite <- H0.
  destruct (tkKind t0); try done.
  - pose proof (ahead_kind 1 s0) as H1. destruct (ahead 1 s0) as [t1 s1]. cbn [snd] in H1. rewrite <- H1. destruct (negb _); [done|].
    pose proof (ahead_kind 2 s1) as H2. destruct (ahead 2 s1) as [t2 s2]. cbn [snd] in H2. rewrite <- H2. destruct (negb _); [done|].
    pose proof (ahead_kind 3 s2) as H3. destruct (ahead 3 s2) as [t3 s3]. cbn [snd] in H3. rewrite <- H3. destruct (spellsName t3); [|done].
    pose proof (ahead_kind 4 s3) as H4. by destruct (ahead 4 s3).
  - pose proof (ahead_kind 1 s0) as H1. by destruct (ahead 1 s0).
Qed.
Lemma Scanner_Next_kind s t s' : Scanner_Next s = (t, s') -> s_kind s' = s_kind s.
Proof.
  unfold Scanner_Next. assert (Ht : s_kind (Scanner_take s).2 = s_kind s) by (unfold Scanner_take; destruct (pending s); [by destruct (Next (s_lx s))|done]).
  destruct (Scanner_take s) as [tok s1]. cbn [snd] in Ht. destruct (_ && _); [|by intros [= _ <-]].
  pose proof (readsAsName_kind s1) as Hr. destruct (readsAsName s1). cbn [snd] in Hr. intros [= _ <-]. congruence.
Qed.
Lemma fold_errors (msg : Parser -> Span -> bytes) l p :
  let q := fold_left (fun p sp => error p sp (msg p sp)) l p in checkpoints q = checkpoints p /\ Diagnostics (rep p) `prefix_of` Diagnostics (rep q).
Proof.
  revert p. induction l as [|sp l IH]; intros p; [done|]. cbn [fold_left]. destruct (IH (error p sp (msg p sp))) as [C D].
  split; [done|]. etrans; [|exact D]. by eexists.
Qed.
Lemma noted_reports t p : checkpoints (noted t p) = checkpoints p /\ Diagnostics (rep p) `prefix_of` Diagnostics (rep (noted t p)).
Proof.
  unfold noted. set (q := if Unterminated t then _ else _).
  assert (Hq : checkpoints q = checkpoints p /\ Diagnostics (rep p) `prefix_of` Diagnostics (rep q)).
  { unfold q, reportUnterminated. destruct (Unterminated t); [|done]. destruct (bool_decide _); (split; [done|by eexists]). }
  destruct Hq as [C D], (BadEscape t); [|done]. unfold reportBadEscapes.
  destruct (fold_errors (fun p sp => bs "invalid escape '" ++ src_Text p sp ++ bs "' in " ++ (if bool_decide (tkKind t = UnrestrictedName) then bs "an unrestricted name" else bs "a string") ++ bs ": only \b \t \n \f \r \" ++ [DQ] ++ bs " \' \\ are admitted")
    (InvalidEscapes (tkSpan t) (src_Text q (tkSpan t))) q) as [C' D'].
  split; [congruence|by etrans].
Qed.

Lemma pull_grows fuel spans p tok spans' q :
  p.(p_lx).(s_kind) = kind -> pull fuel spans p = Some (tok, spans', q) ->
  q.(win) = p.(win) /\ q.(checkpoints) = p.(checkpoints) /\ q.(p_lx).(s_kind) = kind /\ p.(rep).(Diagnostics) `prefix_of` q.(rep).(Diagnostics)
  /\ forall r, unread p.(p_lx) r -> exists r', unread q.(p_lx) r' /\ tok = raw (kept (reads r)) 0 /\ kept (reads r') = tail (kept (reads r)).
Proof.
  revert spans p. induction fuel as [|fuel IH]; intros spans p Hk E; [done|]. cbn [pull] in E.
  destruct (Scanner_Next (p_lx p)) as [t lx] eqn:En.
  assert (Hnext : s_kind lx = kind /\ forall r, unread p.(p_lx) r -> t = raw (reads r) 0 /\ unread lx (tail r)).
  { split; [by eapply Scanner_Next_kind in En as ->|]. intros r [Hq Hs]. destruct (Scanner_Next_spec content _ r Hq) as (s & Es & Hq' & _).
    rewrite En in Es. injection Es as -> ->. split; [by rewrite Hk|]. split; [done|]. destruct r; [done|]. etrans; [|exact Hs]. by eexists [_]. }
  destruct Hnext as [Hk' Hnext]. destruct (skipped t) eqn:Esk.
  - destruct (skip_trivia_spec (set_lx p lx) t) as ((F1 & F2 & F3 & F4) & Elx & _).
    destruct (IH _ (skip_trivia (set_lx p lx) t) ltac:(by rewrite F3) E) as (W & C & K & D & T).
    split; [by rewrite W, F4|]. split; [by rewrite C, skip_trivia_checkpoints|]. split; [done|].
    split; [etrans; [apply (skip_trivia_reports (set_lx p lx) t)|exact D]|].
    intros r Hr. destruct (Hnext r Hr) as [Ht Hr']. destruct (T (tail r)) as (r' & ? & ? & ?); [by rewrite Elx|]. exists r'. split; [done|].
    assert (Hkept : kept (reads r) = kept (reads (tail r))); [|by rewrite Hkept].
    destruct r as [|t0 r]; [done|]. unfold ParserFacts.reads, kept in *. cbn [reading tail] in *. change (raw (?x :: _) 0) with x in Ht. rewrite filter_cons, <- Ht, Esk. done.
  - injection E as <- <- <-. split_and!; try done. intros r Hr. destruct (Hnext r Hr) as [Ht Hr']. exists (tail r). split; [done|].
    destruct r as [|t0 r]; [done|]. unfold ParserFacts.reads, kept in *. cbn [reading tail] in *. change (raw (?x :: _) 0) with x in Ht.
    rewrite filter_cons, <- Ht, Esk. done.
Qed.

Lemma fill_loop_grows n p q : p.(p_lx).(s_kind) = kind -> fill_loop n p = Some q -> grows p q /\ q.(p_lx).(s_kind) = kind.
Proof.
  revert p. induction n as [|n IH]; intros p Hk E; cbn [fill_loop] in E; [injection E as <-; by split; [apply grows_refl|]|].
  destruct (pull _ _ _) as [[[tok spans] q0]|] eqn:Ep; [|done]. cbn [mbind option_bind] in E.
  destruct (pull_grows _ _ _ _ _ _ Hk Ep) as (W & C & K & D & T).
  assert (Hb : grows p (buffer q0 tok spans)).
  { split; cbn [buffer set_com set_win win base checkpoints rep p_lx buf]; [by rewrite W|done|done|].
    intros r Hr. destruct (T r Hr) as (r' & Hr' & -> & Hkept). exists [raw (kept (reads r)) 0], r'. rewrite W. split; [done|]. split; [done|].
    intros i. rewrite Hkept. unfold ScannerFacts.raw. destruct (kept (reads r)) as [|t l]; [|done]. destruct i; done. }
  destruct (bool_decide _); [injection E as <-; done|]. destruct (IH (buffer q0 tok spans) K E) as [G ?]. split; [|done]. by eapply grows_trans.
Qed.

Lemma fill_grows n p q : p.(p_lx).(s_kind) = kind -> fill n p = Some q -> q.(checkpoints) = p.(checkpoints) /\ (0 < p.(checkpoints) -> grows p q).
Proof.
  intros Hk. unfold fill. assert (Hc : p_lx (compact p) = p_lx p /\ checkpoints (compact p) = checkpoints p /\ (0 < checkpoints p -> compact p = p)).
  { unfold compact. cbv zeta. destruct (0 <? checkpoints p) eqn:E; [done|]. apply Nat.ltb_ge in E. cbn [orb]. destruct (_ || _); (split; [done|]; split; [done|lia]). }
  destruct Hc as (Hl & Hc & He). intros E. destruct (fill_loop_grows _ _ _ ltac:(by rewrite Hl) E) as [G _]. split; [by rewrite (grows_checkpoints _ _ G)|].
  intros H. by rewrite He in G.
Qed.
Lemma peekN_grows n p t q :
  p.(p_lx).(s_kind) = kind -> peekN n p = Some (t, q) -> q.(checkpoints) = p.(checkpoints) /\ (0 < p.(checkpoints) -> grows p q).
Proof.
  intros Hk. unfold peekN. destruct (window_token p n); [intros [= _ <-]; split; [done|]; intros _; apply grows_refl|].
  destruct (fill n p) as [q'|] eqn:E; [|done]. cbn [mbind option_bind]. apply fill_grows in E; [|done..].
  destruct (window_token q' n); [by intros [= _ <-]|]. destruct (last _); [|done]. by intros [= _ <-].
Qed.
Lemma advance_grows p t q :
  p.(p_lx).(s_kind) = kind -> advance p = Some (t, q) -> q.(checkpoints) = p.(checkpoints) /\ (0 < p.(checkpoints) -> grows p q).
Proof.
  intros Hk. unfold advance.
  assert (Hf : forall q, (if length (buf (win p)) <=? ppos (win p) - base (win p) then fill 0 p else Some p) = Some q ->
    q.(checkpoints) = p.(checkpoints) /\ (0 < p.(checkpoints) -> grows p q)).
  { intros q'. destruct (_ <=? _); [by apply fill_grows|]. intros [= <-]. split; [done|]. intros _. apply grows_refl. }
  destruct (if _ <=? _ then _ else _) as [q'|]; [|done]. specialize (Hf q' eq_refl). cbn [mbind option_bind].
  destruct (window_token q' 0) as [tok|]; [|done]. cbn [mbind option_bind]. destruct (bool_decide _); [by intros [= _ <-]|].
  set (w := {| buf := _ |}). intros [= _ <-]. change (checkpoints (noted tok (set_win q' w)) = checkpoints p /\ (0 < checkpoints p -> grows p (noted tok (set_win q' w)))).
  rewrite noted_win. destruct (noted_reports tok q') as [C' D'], Hf as [Hc Hf]. split; [by etrans|]. intros H. destruct (Hf H) as [B C D T].
  pose proof (noted_same tok q') as (_ & _ & L & W). split; cbn [set_win win base checkpoints rep p_lx buf]; [done|congruence|by etrans|]. by rewrite L.
Qed.

(** ** What is saved *)

(** The tokens lexed are determined. *)
Lemma lexes_det lx r r' : lexes lx r -> lexes lx r' -> r = r'.
Proof.
  intros H. revert r'. induction H as [lx He|lx t lx' r Hn Hk Hp Hs Hr IH]; intros r' H'; inversion H'; subst; try done; try lia.
  rewrite Hn in *. simplify_eq. f_equal. by apply IH.
Qed.
Lemma unread_det s r r' : unread s r -> unread s r' -> r = r'.
Proof.
  intros [(_ & Hr & _ & l & k & Hl & E) _] [(_ & Hr' & _ & l' & k' & Hl' & E') _]. rewrite (lexes_det _ _ _ Hl' Hl), E in E'. clear E.
  revert r' Hr' E'. induction Hr as [|t r Ht Hr IH]; intros [|t' r'] Hr' E'; try done.
  - destruct k as [|k]; [done|]. inversion_clear Hr'. by injection E' as <- _.
  - destruct k' as [|k']; [done|]. by injection E' as -> _.
  - injection E' as -> E'. f_equal. inversion_clear Hr'. by apply IH.
Qed.

(** The tokens from a place of the window on, the end of input repeated. *)
Definition views (w : Window) (r : list Token) (pos : nat) (ts : list Token) : Prop :=
  forall i, raw (drop (pos - w.(base)) w.(buf) ++ kept (reads r)) i = raw ts i.

Lemma raw_tokens l ts :
  Forall (fun t => t.(tkKind) <> EOF) ts -> (forall i, raw l i = raw ts i) -> exists k, l = ts ++ replicate k eof.
Proof.
  intros Hts. revert l. induction Hts as [|t ts Ht Hts IH]; intros l H.
  - exists (length l). apply list_eq. intros i. specialize (H i). unfold ScannerFacts.raw in H. cbn [app].
    destruct (l !! i) as [t|] eqn:E; [|by rewrite lookup_ge_None_2 by (rewrite length_replicate; by apply lookup_ge_None)].
    cbn in H. subst t. symmetry. apply lookup_replicate. split; [done|]. by eapply lookup_lt_Some.
  - destruct l as [|t' l]; [specialize (H 0); cbn in H; by rewrite <- H in Ht|].
    pose proof (H 0) as H0. cbn in H0. subst t'. destruct (IH l (fun i => H (S i))) as [k ->]. by exists k.
Qed.
Lemma views_tokens w r pos ts :
  proper content ts -> views w r pos ts -> exists k, drop (pos - w.(base)) w.(buf) ++ kept (reads r) = ts ++ replicate k eof.
Proof. intros [Hp _] Hv. apply raw_tokens; [|done]. eapply Forall_impl; [exact Hp|]. by intros t []. Qed.

Definition token_at (w : Window) (pos : nat) : option Token :=
  match pos - w.(base) with O => None | S i => if S i <=? length w.(buf) then w.(buf) !! i else None end.

Record saved (p : Parser) (r : list Token) (cp : parseCheckpoint) (ts : list Token) : Prop := {
  saved_proper : proper content ts /\ length ts <= length content;
  saved_window : p.(win).(base) <= cp.(cp_pos) /\ cp.(cp_pos) - p.(win).(base) <= length p.(win).(buf);
  saved_views : views p.(win) r cp.(cp_pos) ts;
  saved_closed t : token_at p.(win) cp.(cp_pos) = Some t -> t.(Unterminated) = true -> 0 < cp.(diagnosticLen);
  saved_reports : cp.(diagnosticLen) <= length p.(rep).(Diagnostics) }.

Definition inv (p : Parser) (stack : list parseCheckpoint) (sv : list (list Token)) (ts : list Token) : Prop :=
  exists d r, abs p ts d /\ unread p.(p_lx) r /\ p.(checkpoints) = length stack /\ Forall2 (saved p r) stack sv
    /\ StronglySorted (fun a b => b.(diagnosticLen) <= a.(diagnosticLen)) stack.

Lemma saved_grows p q r cp ts : saved p r cp ts -> grows p q -> unread p.(p_lx) r ->
  forall r', unread q.(p_lx) r' -> saved q r' cp ts.
Proof.
  intros [Hp Hw Hv Hc Hr] [B C [l D] T] Hur r' Hr'. destruct (T r Hur) as (ext & r2 & Hr2 & E & V).
  rewrite (unread_det _ _ _ Hr' Hr2). clear r' Hr'. split; [done| | | |].
  - rewrite B, E, length_app. lia.
  - intros i. rewrite <- Hv, B, E. rewrite drop_app_le by lia. rewrite <- app_assoc. symmetry. by apply raw_app_r.
  - intros t Ht. apply Hc. unfold token_at in *. rewrite B, E in Ht. destruct (cp_pos cp - base (win p)) as [|i] eqn:Ei; [done|].
    rewrite (proj2 (Nat.leb_le _ _)) in Ht by (rewrite length_app; lia). rewrite lookup_app_l in Ht by lia.
    by rewrite (proj2 (Nat.leb_le _ _)) by lia.
  - rewrite D, length_app. lia.
Qed.

(** A reading step keeps what is saved. *)
Lemma inv_grows p q stack sv ts ts' d' :
  inv p stack sv ts -> abs q ts' d' -> q.(checkpoints) = p.(checkpoints) /\ (0 < p.(checkpoints) -> grows p q) -> inv q stack sv ts'.
Proof.
  intros (d & r & Ha & Hr & Hc & Hs & Hsort) Hq [Eq Hg].
  pose proof Hq as (_ & _ & _ & _ & _ & _ & _ & _ & r' & _ & Hr' & _). exists d', r'. split_and!; try done; [congruence|].
  destruct stack as [|cp stack]; [by inversion Hs; constructor|]. eapply Forall2_impl; [exact Hs|]. intros cp' ts0 Hcp.
  eapply saved_grows; [exact Hcp|apply Hg; rewrite Hc; cbn; lia|done..].
Qed.
Lemma inv_checkpoint p stack sv ts : inv p stack sv ts -> inv (checkpoint p).2 ((checkpoint p).1 :: stack) (ts :: sv) ts.
Proof.
  intros (d & r & Ha & Hr & Hc & Hs & Hsort). exists d, r.
  pose proof Ha as (_ & _ & _ & H4 & H5 & H6 & H7 & Hcl & r' & k & Hr' & E & _). rewrite (unread_det _ _ _ Hr' Hr) in E.
  cbn [checkpoint fst snd]. split_and!; try done.
  - cbn. lia.
  - constructor.
    + split; cbn [cp_pos diagnosticLen set_checkpoints win rep]; [done|done| |intros t Ht Hu|lia].
      * intros i. rewrite E. apply raw_app.
      * specialize (Hcl t Ht Hu). unfold reported in Hcl. destruct (Diagnostics (rep p)); [done|cbn; lia].
    + eapply Forall2_impl; [exact Hs|]. by intros cp ts0 [].
  - constructor; [done|]. apply Forall_forall. intros cp Hcp. cbn. apply list_elem_of_lookup in Hcp as [i Hi].
    destruct (Forall2_lookup_l _ _ _ _ _ Hs Hi) as (ts0 & _ & Hsv). apply Hsv.
Qed.

Lemma inv_restore p cp stack ts' sv ts : inv p (cp :: stack) (ts' :: sv) ts -> inv (restore cp p) (cp :: stack) (ts' :: sv) ts'.
Proof.
  intros (d & r & Ha & Hr & Hc & Hs & Hsort). inversion_clear Hs as [|???? Hcp Hs']. inversion_clear Hsort as [|?? Hsort' Hle].
  pose proof Ha as (H1 & H2 & H3 & _). destruct Hcp as [[Hp Hl] Hw Hv Hcl Hd].
  assert (Hlen : length (Diagnostics (rep (restore cp p))) = diagnosticLen cp) by (cbn; rewrite length_take; lia).
  exists (reported (restore cp p) || open_comment (reads r)), r. split_and!; try done.
  - destruct (views_tokens _ _ _ _ Hp Hv) as [k E]. split_and!; try done; try apply Hw; [|by exists r, k].
    intros t Ht Hu. specialize (Hcl t Ht Hu). unfold reported. rewrite <- Hlen in Hcl. destruct (Diagnostics _); [cbn in Hcl; lia|done].
  - constructor; [by split; try done; rewrite Hlen|]. rewrite Forall_forall in Hle. apply Forall2_same_length_lookup. split; [by eapply Forall2_length|].
    intros i cp' ts0 Hi Hi0. pose proof (Forall2_lookup_lr _ _ _ _ _ _ Hs' Hi Hi0) as [? ? ? ? ?]. split; try done.
    rewrite Hlen. apply Hle. by eapply list_elem_of_lookup_2.
  - by constructor.
Qed.

Lemma inv_release p cp stack ts' sv ts : inv p (cp :: stack) (ts' :: sv) ts -> inv (release p) stack sv ts.
Proof.
  intros (d & r & Ha & Hr & Hc & Hs & Hsort). inversion_clear Hs as [|???? _ Hs']. inversion_clear Hsort as [|?? Hsort' _].
  assert (Hsame : same_input p (release p) /\ rep (release p) = rep p /\ checkpoints (release p) = checkpoints p - 1).
  { unfold release. cbv zeta. by destruct (_ =? 0). }
  destruct Hsame as ((F1 & F2 & F3 & F4) & Er & Ec). exists d, r. rewrite F3, Ec, Hc. split_and!; try done.
  - rewrite <- (orb_false_r d). apply (abs_same content kind p); [done..|]. unfold reported. by rewrite Er, orb_false_r.
  - cbn. lia.
  - eapply Forall2_impl; [exact Hs'|]. intros cp' ts0 [? ? ? ? ?]. split; rewrite ?F4, ?Er; try done.
Qed.

Lemma op_refines o p stack sv ts :
  inv p stack sv ts -> exists out stack' p' sv' ts', parser_op o stack p = Some (out, stack', p')
    /\ cursor_op content o sv ts = (out, sv', ts') /\ inv p' stack' sv' ts'.
Proof.
  intros Hi. pose proof Hi as (d & r & Ha & Hr & Hc & Hs & Hsort). pose proof Ha as (_ & _ & Hk & _). destruct o as [n| | | |]; cbn [parser_op cursor_op].
  - destruct (peekN_spec _ _ p ts d n Ha) as (q & E & Hq). rewrite E. eexists _, _, _, _, _. split; [done|]. split; [done|].
    eapply inv_grows; [done..|]. by eapply peekN_grows.
  - destruct (advance_spec _ _ p ts d Ha) as (q & E & Hq). rewrite E. eexists _, _, _, _, _. split; [done|]. split; [done|].
    eapply inv_grows; [done..|]. by eapply advance_grows.
  - eexists _, _, _, _, _. split; [done|]. split; [done|]. by apply inv_checkpoint.
  - eexists _, _, _, _, _. split; [done|]. split; [done|]. inversion Hs; subst; [done|]. by eapply inv_restore.
  - inversion Hs; subst; (eexists _, _, _, _, _; split; [done|]; split; [done|]); [done|]. by eapply inv_release.
Qed.
End Growth.

(** C6: the token window is invisible: whatever sequence of looking ahead any
    distance, consuming, and opening, returning to and closing checkpoints, nested
    as deep as one likes, the parser sees the tokens it would see with the whole list
    of the source's tokens in its hands - the end of input for ever past the last -
    though the window drops what is consumed as it goes. *)
Theorem window_refines_cursor content kind l :
  parser_ops l [] (New_Parser content kind) = Some (cursor_ops content l [] (source_tokens content kind)).
Proof.
  assert (Hi : inv content kind (New_Parser content kind) [] [] (source_tokens content kind)).
  { pose proof (New_Parser_abs content kind) as Ha. pose proof Ha as (_ & _ & _ & _ & _ & _ & _ & _ & r & _ & Hr & _).
    eexists _, r. split_and!; (done || constructor). }
  revert Hi. generalize (New_Parser content kind) (source_tokens content kind) (@nil parseCheckpoint) (@nil (list Token)).
  induction l as [|o l IH]; intros p ts stack sv Hi; [done|]. cbn [parser_ops cursor_ops].
  destruct (op_refines content kind o p stack sv ts Hi) as (out & stack' & p' & sv' & ts' & -> & -> & Hi'). cbn [mbind option_bind].
  by rewrite (IH _ _ _ _ Hi').
Qed.

(** ** A report that is lost

    A comment left open is reported when it is skipped, once: under a checkpoint the
    report goes with the attempt, and the comment is not skipped again. *)
Definition state_after (l : list Op) (p : Parser) : option Parser :=
  fold_left (fun s o => '(stack, p) ← s; '(_, stack, p) ← parser_op o stack p; Some (stack, p)) l (Some ([], p)) ≫= (fun s => Some s.2).
Lemma open_comment_unreported :
  let text := bs "a /* b" in
  left_open text KindSysML = true
  /\ (rep <$> state_after [Checkpoint; Advance; Peek 0; Restore; Release; Advance; Peek 0] (New_Parser text KindSysML))
     = Some {| Diagnostics := []; Warnings := []; undefinedOps := []; typedByCount := 0 |}.
Proof. split; vm_compute; reflexivity. Qed.
