(* ===== verification/Grammar.v ===== *)
(** * The expression grammar

    The reference the expression parser is verified against: which tokens a tree is
    written with, by precedence and associativity, whatever the positions of its
    nodes. The grammar of declarations is an interface, [DeclarationTokens]. *)
From S2P Require Import Prelude Bytes Source Integer Lexer Scanner Syntax Parser ParserFacts Expression.

(** What the declarations of a body expression are written with. *)
Class DeclarationTokens := {
  member_tokens : list Token -> option Node -> Prop;
  doc_tokens : list Token -> Node -> Prop;
  rel_tokens : list Token -> list Node -> Prop }.

Section Grammar.
Context (content : bytes) (kind : Source.Kind) `{!DeclarationTokens}.
Implicit Types (c : list Token) (t : Token) (n : Node) (b : NodeBase).

(** ** Names *)

Definition kind_is (k : Kind) t : Prop := tkKind t = k.
Definition word (kw : String.string) t : Prop := is_keyword t (bs kw) = true.

Definition segment t (s : NameSegment) : Prop := s.(segText) = name_text t (text content t.(tkSpan)).

Inductive segments : list Token -> list NameSegment -> Prop :=
  | segments_nil : segments [] []
  | segments_snoc c ss sep t s :
      segments c ss -> kind_is ColonColon sep -> spellsName t = true -> segment t s -> segments (c ++ [sep; t]) (ss ++ [s]).

(** [[$ ::] first (:: name)*]; a lone [$ ::] is a name of no segments. *)
Inductive name_by (first : Token -> bool) : list Token -> option QualifiedName -> Prop :=
  | name_local b t s c ss :
      first t = true -> segment t s -> segments c ss ->
      name_by first (t :: c) (Some {| qBase := b; Global := false; Parts := s :: ss |})
  | name_global b dollar sep t s c ss :
      kind_is Dollar dollar -> kind_is ColonColon sep -> first t = true -> segment t s -> segments c ss ->
      name_by first (dollar :: sep :: t :: c) (Some {| qBase := b; Global := true; Parts := s :: ss |})
  | name_root b dollar sep :
      kind_is Dollar dollar -> kind_is ColonColon sep -> name_by first [dollar; sep] (Some {| qBase := b; Global := true; Parts := [] |}).
Definition name_toks : list Token -> option QualifiedName -> Prop := name_by (names kind).
Definition relaxed_toks : list Token -> option QualifiedName -> Prop := name_by spellsName.

(** ** Operators *)

(** What the right operand of an operator may be built of. *)
Definition next_prec (o : binOp) : nat := if o.(rightAssoc) then o.(prec) else S o.(prec).

(** An operator after an operand the operator [last] built: it binds no tighter than
    what [last] left to its right, unless a type was to its right. *)
Definition follows (last : option binOp) (o : binOp) : Prop :=
  match last with Some o' => o'.(classify) = false -> o.(prec) < next_prec o' | None => True end.

Definition prefix_of t (op : OperatorKind) : Prop := prefix_op t = Some op.

(** ** Expressions *)

(** A sequence of one is its element. *)
Definition seq_node b (es : list Node) : Node := match es with [e] => e | _ => SequenceExpr b es end.
Definition paren_node b (es : list Node) : Node := match es with [] => NullExpr b | _ => seq_node b es end.

Definition bound_start t : bool :=
  match t.(tkKind) with Star | LParen | Plus | Minus | Tilde => false | _ => negb (is_keyword t (bs "not")) end.

(** The last parameter's braces close it without a [;]. *)
Definition ends_in_braces (params : list BodyParam) : bool :=
  match last params with Some p => negb (bool_decide (length p.(bpMembers) = 0)) | None => false end.

Inductive expr : list Token -> Node -> Prop :=
  | expr_if b i q e c1 c2 c3 last cond thn els :
      word "if" i -> binary 1 last c1 cond -> kind_is Question q -> expr c2 thn -> word "else" e -> expr c3 els ->
      expr (i :: c1 ++ q :: c2 ++ e :: c3) (OperatorExpr b OpConditional [cond; thn; els] None)
  | expr_binary last c n : binary 1 last c n -> expr c n
(** [binary m last c n]: operators of precedence [m] up, the outermost [last]. *)
with binary : nat -> option binOp -> list Token -> Node -> Prop :=
  | binary_unary m c n : unary c n -> binary m None c n
  | binary_op m last last' b t o c1 c2 l r :
      binary m last c1 l -> binaryOpForToken t = Some o -> o.(classify) = false -> m <= o.(prec) -> follows last o ->
      binary (next_prec o) last' c2 r ->
      binary m (Some o) (c1 ++ t :: c2) (OperatorExpr b o.(bop) [l; r] None)
  | binary_type m last b t o c1 c2 l q :
      binary m last c1 l -> binaryOpForToken t = Some o -> o.(classify) = true -> m <= o.(prec) -> follows last o ->
      name_toks c2 q ->
      binary m (Some o) (c1 ++ t :: c2) (OperatorExpr b o.(bop) [l] q)
with unary : list Token -> Node -> Prop :=
  | unary_prefix b t op c n : prefix_of t op -> unary c n -> unary (t :: c) (OperatorExpr b op [n] None)
  | unary_primary c n : primary c n -> unary c n
with primary : list Token -> Node -> Prop :=
  | primary_base c n : base_expr c n -> primary c n
  | primary_collect b dot c c' n y : primary c n -> kind_is Dot dot -> body_expr c' y -> primary (c ++ dot :: c') (CollectExpr b n y)
  | primary_metadata b dot t c n q :
      primary c n -> kind_is Dot dot -> word "metadata" t -> metadataAccessRef n = Some q ->
      primary (c ++ [dot; t]) (MetadataAccessExpr b q)
  | primary_chain b dot c c' n q : primary c n -> kind_is Dot dot -> relaxed_toks c' q -> primary (c ++ dot :: c') (FeatureChainExpr b n q)
  | primary_chain_call b b' dot c c1 c2 n q args named :
      primary c n -> kind_is Dot dot -> relaxed_toks c1 q -> arguments c2 args named ->
      primary (c ++ dot :: c1 ++ c2) (InvocationExpr b (Some (FeatureChainExpr b' n q)) None args named false)
  | primary_select b dot c c' n y : primary c n -> kind_is DotQuestion dot -> body_expr c' y -> primary (c ++ dot :: c') (SelectExpr b n y)
  | primary_sequence_index b b' h l r c c' n es :
      primary c n -> kind_is Hash h -> kind_is LParen l -> sequence c' es -> kind_is RParen r ->
      primary (c ++ h :: l :: c' ++ [r]) (IndexExpr b n (seq_node b' es) false)
  | primary_index b b' l r c c' n es :
      primary c n -> kind_is LBracket l -> sequence c' es -> kind_is RBracket r ->
      primary (c ++ l :: c' ++ [r]) (IndexExpr b n (seq_node b' es) true)
  | primary_arrow b a c c' n q : primary c n -> kind_is Arrow a -> name_toks c' q -> primary (c ++ a :: c') (InvocationExpr b (Some n) q [] [] false)
  | primary_arrow_call b a c c1 c2 n q args named :
      primary c n -> kind_is Arrow a -> name_toks c1 q -> arguments c2 args named ->
      primary (c ++ a :: c1 ++ c2) (InvocationExpr b (Some n) q args named false)
  | primary_arrow_body b a c c1 c2 n q y :
      primary c n -> kind_is Arrow a -> name_toks c1 q -> body_expr c2 y -> primary (c ++ a :: c1 ++ c2) (InvocationExpr b (Some n) q [y] [] true)
  | primary_arrow_base b a c c1 c2 n q y :
      primary c n -> kind_is Arrow a -> name_toks c1 q -> base_expr c2 y -> primary (c ++ a :: c1 ++ c2) (InvocationExpr b (Some n) q [y] [] true)
with base_expr : list Token -> Node -> Prop :=
  | base_null b t : word "null" t -> base_expr [t] (NullExpr b)
  | base_true b t : word "true" t -> base_expr [t] (LiteralBool b true)
  | base_false b t : word "false" t -> base_expr [t] (LiteralBool b false)
  | base_new b t c q : word "new" t -> name_toks c q -> base_expr (t :: c) (ConstructorExpr b q [] [])
  | base_new_call b t c c' q args named :
      word "new" t -> name_toks c q -> arguments c' args named -> base_expr (t :: c ++ c') (ConstructorExpr b q args named)
  | base_integer b t : kind_is Decimal t -> base_expr [t] (LiteralInteger b (text content t.(tkSpan)))
  | base_real b t : kind_is Real t -> base_expr [t] (LiteralReal b (text content t.(tkSpan)))
  | base_string b t : kind_is String t -> base_expr [t] (LiteralString b (text content t.(tkSpan)))
  | base_infinity b t : kind_is Star t -> base_expr [t] (LiteralInfinity b)
  | base_cast b l a r c q : kind_is LParen l -> word "as" a -> name_toks c q -> kind_is RParen r -> base_expr (l :: a :: c ++ [r]) (CastExpr b q None)
  | base_cast_mult b l a r c c' q m :
      kind_is LParen l -> word "as" a -> name_toks c q -> multiplicity c' m -> kind_is RParen r ->
      base_expr (l :: a :: c ++ c' ++ [r]) (CastExpr b q (Some m))
  | base_unit b l r : kind_is LParen l -> kind_is RParen r -> base_expr [l; r] (NullExpr b)
  | base_paren b b' l r c es n :
      kind_is LParen l -> sequence c es -> kind_is RParen r -> n = with_base b (seq_node b' es) -> base_expr (l :: c ++ [r]) n
  | base_body c n : body_expr c n -> base_expr c n
  | base_type_test b t c q : kind_is At t -> name_toks c q -> base_expr (t :: c) (OperatorExpr b OpAt [] q)
  | base_metatype_test b t c q : kind_is AtAt t -> name_toks c q -> base_expr (t :: c) (OperatorExpr b OpMetaAt [] q)
  | base_name b c q : base_name_toks c q -> base_expr c (FeatureReference b q)
  | base_call b c c' q args named : base_name_toks c q -> arguments c' args named -> base_expr (c ++ c') (InvocationExpr b None q args named false)
  | base_call_body b c c' q y : base_name_toks c q -> body_expr c' y -> base_expr (c ++ c') (InvocationExpr b None q [y] [] true)
(** A name, or a keyword read as one. *)
with base_name_toks : list Token -> option QualifiedName -> Prop :=
  | base_name_name c q : name_toks c q -> base_name_toks c q
  | base_name_keyword b t sp :
      kind_is Keyword t ->
      base_name_toks [t] (Some {| qBase := b; Global := false; Parts := [{| segText := t.(KeywordID); segSpan := sp; Chained := false |}] |})
(** Expressions between commas, and with a comma to end them. *)
with elements : list Token -> list Node -> Prop :=
  | elements_one c n : expr c n -> elements c [n]
  | elements_more c c' t ns n : elements c ns -> kind_is Comma t -> expr c' n -> elements (c ++ t :: c') (ns ++ [n])
with sequence : list Token -> list Node -> Prop :=
  | sequence_elements c ns : elements c ns -> sequence c ns
  | sequence_comma c t ns : elements c ns -> kind_is Comma t -> sequence (c ++ [t]) ns
with named_args : list Token -> list (option QualifiedName * Node) -> Prop :=
  | named_one c c' e q n : name_toks c q -> kind_is Eq e -> expr c' n -> named_args (c ++ e :: c') [(q, n)]
  | named_more c c1 c2 t e l q n :
      named_args c l -> kind_is Comma t -> name_toks c1 q -> kind_is Eq e -> expr c2 n -> named_args (c ++ t :: c1 ++ e :: c2) (l ++ [(q, n)])
with arguments : list Token -> list Node -> list (option QualifiedName * Node) -> Prop :=
  | arguments_none l r : kind_is LParen l -> kind_is RParen r -> arguments [l; r] [] []
  | arguments_positional l r c ns : kind_is LParen l -> elements c ns -> kind_is RParen r -> arguments (l :: c ++ [r]) ns []
  | arguments_named l r c named : kind_is LParen l -> named_args c named -> kind_is RParen r -> arguments (l :: c ++ [r]) [] named
with bound : list Token -> Node -> Prop :=
  | bound_infinity b t : kind_is Star t -> bound [t] (LiteralInfinity b)
  | bound_expr t c last n : bound_start t = true -> binary precAdditive last (t :: c) n -> isMultiplicityBoundForm n = true -> bound (t :: c) n
with multiplicity : list Token -> Multiplicity -> Prop :=
  | multiplicity_one sp l r c n : kind_is LBracket l -> bound c n -> kind_is RBracket r ->
      multiplicity (l :: c ++ [r]) {| mSpan := sp; Lower := n; Upper := None; IsRange := false |}
  | multiplicity_range sp l r dots c c' n n' : kind_is LBracket l -> bound c n -> kind_is DotDot dots -> bound c' n' -> kind_is RBracket r ->
      multiplicity (l :: c ++ dots :: c' ++ [r]) {| mSpan := sp; Lower := n; Upper := Some n'; IsRange := true |}
with typing : list Token -> option QualifiedName -> option Multiplicity -> Prop :=
  | typing_none : typing [] None None
  | typing_type t c q : kind_is Colon t -> name_toks c q -> typing (t :: c) q None
  | typing_mult t c c' q m : kind_is Colon t -> name_toks c q -> multiplicity c' m -> typing (t :: c ++ c') q (Some m)
with body_expr : list Token -> Node -> Prop :=
  | body_of b l r c0 c1 c2 c3 docs ps params members result :
      kind_is LBrace l -> doc_part c0 docs -> shorthand c1 ps -> body_items ps docs c2 params members -> body_result c3 result -> kind_is RBrace r ->
      body_expr (l :: c0 ++ c1 ++ c2 ++ c3 ++ [r]) (BodyExpr b params members result)
with doc_part : list Token -> list (option Node) -> Prop :=
  | doc_none : doc_part [] []
  | doc_some c n : doc_tokens c n -> doc_part c [Some n]
with shorthand : list Token -> list BodyParam -> Prop :=
  | shorthand_none : shorthand [] []
  | shorthand_typed sp t s semi c q m : names kind t = true -> segment t s -> typing c q m -> kind_is Semicolon semi ->
      shorthand (t :: c ++ [semi])
        [{| bpName := s.(segText); bpType := q; bpMultiplicity := m; bpValue := None; bpIsReference := false; bpMembers := [];
            bpRelationships := []; bpSpan := sp |}]
with body_items : list BodyParam -> list (option Node) -> list Token -> list BodyParam -> list (option Node) -> Prop :=
  | items_none ps ms : body_items ps ms [] ps ms
  | items_member ps ms c c' ps' ms' m : body_items ps ms c ps' ms' -> member_tokens c' m -> body_items ps ms (c ++ c') ps' (ms' ++ [m])
  | items_param ps ms c c' ps' ms' i semi p :
      body_items ps ms c ps' ms' -> word "in" i -> parameter c' p ->
      (if ends_in_braces (ps' ++ [p]) then semi = [] else exists t, semi = [t] /\ kind_is Semicolon t) ->
      body_items ps ms (c ++ i :: c' ++ semi) (ps' ++ [p]) ms'
with parameter : list Token -> BodyParam -> Prop :=
  | parameter_of sp ref t s c1 c2 c3 c4 q m rels value members isref :
      (if isref : bool then exists r, ref = [r] /\ word "ref" r else ref = []) ->
      names kind t = true -> segment t s -> typing c1 q m -> rel_tokens c2 rels -> param_value c3 value -> param_braces c4 members ->
      parameter (ref ++ t :: c1 ++ c2 ++ c3 ++ c4)
        {| bpName := s.(segText); bpType := q; bpMultiplicity := m; bpValue := value; bpIsReference := isref; bpMembers := members;
           bpRelationships := rels; bpSpan := sp |}
with param_value : list Token -> option Node -> Prop :=
  | value_none : param_value [] None
  | value_some e c n : kind_is Eq e -> expr c n -> param_value (e :: c) (Some n)
with param_braces : list Token -> list (option Node) -> Prop :=
  | braces_none : param_braces [] []
  | braces_some l r c members : kind_is LBrace l -> brace_members c members -> kind_is RBrace r -> param_braces (l :: c ++ [r]) members
with brace_members : list Token -> list (option Node) -> Prop :=
  | members_none : brace_members [] []
  | members_more c c' ms m : brace_members c ms -> member_tokens c' m -> brace_members (c ++ c') (ms ++ [m])
with body_result : list Token -> option Node -> Prop :=
  | result_none : body_result [] None
  | result_some c n : expr c n -> body_result c (Some n).
End Grammar.
