(* ===== verification/ExpressionFacts.v ===== *)
(** * The expression parser: what it reads

    The productions are total, and without a report they consume what the grammar
    derives. *)
From S2P Require Import Prelude Bytes Source Integer Lexer LexerFacts Scanner ScannerFacts Syntax Parser ParserFacts Expression Grammar.

(** ** Consumption *)

Section Eats.
Context (content : bytes).

(** The tokens consumed derive the result, unless something was reported. *)
Definition clean (c : list Token) : Prop := Forall (fun t => flawed content t = false) c.
Definition eats {A} (G : list Token -> A -> Prop) (ts : list Token) (d : bool) (a : A) (ts' : list Token) (d' : bool) : Prop :=
  exists c, ts = c ++ ts' /\ (d' = false -> d = false /\ clean c /\ G c a).

Lemma eats_mono {A} (G G' : list Token -> A -> Prop) ts d a ts' d' :
  (forall c, G c a -> G' c a) -> eats G ts d a ts' d' -> eats G' ts d a ts' d'.
Proof. intros HG (c & -> & H). exists c. split; [done|]. intros Hd. destruct (H Hd) as (? & ? & ?). auto. Qed.
End Eats.

(** The tokens of [l] before [r]. *)
Ltac prefix l r :=
  match l with
  | r => constr:(@nil Token)
  | ?t :: ?l' => let p := prefix l' r in constr:(t :: p)
  | ?c ++ r => constr:(c)
  | ?c ++ ?l' => let p := prefix l' r in constr:(c ++ p)
  end.
(** What having no report says of each step. *)
Ltac unwind :=
  repeat match goal with
  | H : _ || _ = false |- _ => apply orb_false_iff in H as [? ?]
  | H : true = false |- _ => discriminate H
  | H : ?d = false, H' : ?d = false -> _ |- _ => specialize (H' H)
  | H : _ /\ _ |- _ => destruct H
  end.
Ltac clean_tac := unfold clean in *; repeat first [assumption|apply Forall_cons; split|apply Forall_app; split|apply Forall_nil; exact I].
Ltac norm_app := repeat (progress (cbn [app]; rewrite <- ?app_assoc)).
Ltac norm_app_in H := repeat (progress (cbn [app] in H; rewrite <- ?app_assoc in H)).
(** Give the tokens consumed, leaving what they derive. *)
Ltac eaten :=
  lazymatch goal with
  | |- exists c, ?l = c ++ ?r /\ _ =>
      let p := prefix l r in exists p; split; [norm_app; reflexivity|intros ?; unwind; (split; [assumption|split; [clean_tac|]])]
  end.
Ltac done_eating := unfold eats; eaten.
Ltac len := repeat (progress (cbn [length app] in *; rewrite ?length_app in *)); lia.

(** ** Names *)

Section Names.
Context (content : bytes) (kind : Source.Kind).
Abbreviation wp := (ParserFacts.wp content kind).
Abbreviation raw := (ScannerFacts.raw content).
Abbreviation eats := (eats content).
Implicit Types (ts : list Token) (d : bool).

Lemma name_segment_spec t ts d (Q : NameSegment -> list Token -> bool -> Prop) :
  (forall s, segment content t s -> Q s ts (d || flawed content t)) -> wp name_segment Q (t :: ts) d.
Proof. intros HQ. unfold name_segment. wp_run. by apply HQ. Qed.

(** Reading the first segment of a name [first] admits. *)
Definition reads_first (first : Token -> bool) (m : M (option NameSegment)) : Prop :=
  forall ts d (Q : option NameSegment -> list Token -> bool -> Prop),
    (forall t ts' s, ts = t :: ts' -> first t = true -> segment content t s -> Q (Some s) ts' (d || flawed content t)) ->
    (first (raw ts 0) = false -> Q None ts d) -> wp m Q ts d.

Lemma parseNameSegment_first : reads_first (names kind) parseNameSegment.
Proof.
  intros ts d Q HS HN. unfold parseNameSegment, atName. wp_run. destruct (names kind (raw ts 0)) eqn:E; [|by apply wp_ret, HN].
  destruct ts as [|t ts]; [done|]. apply wp_bind, name_segment_spec. intros s Hs. apply wp_ret. by eapply HS.
Qed.
Lemma parseNameSegmentRelaxed_first : reads_first spellsName parseNameSegmentRelaxed.
Proof.
  intros ts d Q HS HN. unfold parseNameSegmentRelaxed, atNameOrKeyword. wp_run. destruct (spellsName (raw ts 0)) eqn:E; [|by apply wp_ret, HN].
  destruct ts as [|t ts]; [done|]. apply wp_bind, name_segment_spec. intros s Hs. apply wp_ret. by eapply HS.
Qed.

Lemma name_tail_spec fuel s0 c0 ss0 ts d :
  length ts < fuel -> segments content c0 ss0 ->
  wp (name_tail fuel (s0 :: ss0)) (eats (fun c ps => exists ss, ps = s0 :: ss /\ segments content (c0 ++ c) ss) ts d) ts d.
Proof.
  revert c0 ss0 ts d. induction fuel as [|fuel IH]; intros c0 ss0 ts d Hf Hc; [lia|]. cbn [name_tail].
  assert (Hret : wp (ret (s0 :: ss0)) (eats (fun c ps => exists ss, ps = s0 :: ss /\ segments content (c0 ++ c) ss) ts d) ts d).
  { apply wp_ret. exists []. split; [done|]. intros Hd. split; [done|]. split; [constructor|]. exists ss0. by rewrite app_nil_r. }
  wp_run. case_bool_decide as E; cbn [negb]; [|done]. wp_run. destruct (_ || _); [done|].
  destruct (raw_head _ _ _ E ltac:(done)) as (sep & ts1 & -> & Hsep). wp_run. apply parseNameSegmentRelaxed_first.
  - intros t ts2 s -> Ht Hs. eapply wp_mono; [|apply (IH (c0 ++ [sep; t])); [len|by constructor]].
    intros ps ts' d' (c & -> & Hd). done_eating.
    match goal with H : exists ss, _ |- _ => destruct H as (ss & -> & Hss) end. exists ss. split; [done|]. by rewrite <- app_assoc in Hss.
  - intros _. wp_run. exists [sep]. split; [done|]. intros Hd. discriminate.
Qed.

Lemma qualified_name_spec first m ts d :
  reads_first first m -> wp (qualified_name m) (eats (name_by content first) ts d) ts d.
Proof.
  intros Hm. unfold qualified_name, atGlobalName. wp_run.
  assert (Hrest : forall (global : bool) pre ts' d', (d' = false -> d = false /\ clean content pre) ->
    (if global then exists a b, pre = [a; b] /\ kind_is Dollar a /\ kind_is ColonColon b else pre = []) -> ts = pre ++ ts' ->
    wp m (fun seg => wp (
        match seg with
        | None =>
            if (global : bool) then
              sp ← spanFrom (Offset (tkSpan (raw ts 0))); ret (Some {| qBase := {| NodeSpan := sp; leading := l |}; Global := true; Parts := [] |})
            else t ← peek; _ ← raise t.(tkSpan) (bs "expected a name"); ret None
        | Some seg =>
            fuel ← loop_fuel;
            parts ← name_tail fuel [seg];
            sp ← spanFrom (Offset (tkSpan (raw ts 0)));
            ret (Some {| qBase := {| NodeSpan := sp; leading := l |}; Global := global; Parts := parts |})
        end)%parse (eats (name_by content first) ts d)) ts' d').
  { intros global pre ts' d' Hd Hpre ->. apply Hm.
    - intros t ts2 s -> Ht Hs. unfold loop_fuel. wp_run. eapply wp_mono; [|by apply (name_tail_spec _ _ [] []); [|constructor]].
      cbv beta. intros ps ts3 d3 (c & -> & Hc). wp_run. exists (pre ++ t :: c). split; [by rewrite <- app_assoc|].
      intros Hd3. unwind. split; [done|]. split; [clean_tac|]. match goal with H : exists ss, _ |- _ => destruct H as (ss & -> & Hss) end.
      destruct global; [destruct Hpre as (a & b & -> & Ha & Hb)|subst pre]; by constructor.
    - intros _. destruct global; wp_run.
      + destruct Hpre as (a & b & -> & Ha & Hb). exists [a; b]. split; [done|]. intros Hd3. unwind. split; [done|]. split; [done|]. by constructor.
      + exists pre. split; [done|]. done. }
  case_bool_decide as E.
  - destruct (raw_head _ _ _ E ltac:(done)) as (a & ts1 & -> & Ha). wp_run. case_bool_decide as E'.
    + destruct (raw_head content ts1 _ E' ltac:(done)) as (b & ts2 & -> & Hb). wp_run.
      apply (Hrest true [a; b]); [|by exists a, b|done]. intros Hd. unwind. split; [done|]. clean_tac.
    + wp_run. apply (Hrest false []); [|done|done]. intros Hd. split; [done|constructor].
  - wp_run. apply (Hrest false []); [|done|done]. intros Hd. split; [done|constructor].
Qed.

Lemma parseQualifiedName_spec ts d : wp parseQualifiedName (eats (name_toks content kind) ts d) ts d.
Proof. apply qualified_name_spec, parseNameSegment_first. Qed.
Lemma parseQualifiedNameRelaxed_spec ts d : wp parseQualifiedNameRelaxed (eats (relaxed_toks content) ts d) ts d.
Proof. apply qualified_name_spec, parseNameSegmentRelaxed_first. Qed.
End Names.

(** ** The interface of declarations *)

Class DeclarationLaws (content : bytes) (kind : Source.Kind) `{!Declarations, !DeclarationTokens} := {
  member_law ts d :
    wp content kind parseBodyMember (fun m ts' d' =>
      eats content member_tokens ts d m ts' d' /\
      (ts <> [] -> tkKind (raw content ts 0) <> RBrace -> length ts' < length ts)) ts d;
  member_nonempty m : ~ member_tokens [] m;
  doc_law start ts d :
    is_keyword (raw content ts 0) (bs "doc") = true -> wp content kind (parseDocumentation start) (eats content doc_tokens ts d) ts d;
  rel_law ts d : wp content kind parseRelationships (eats content rel_tokens ts d) ts d }.

(** Use what a production consumes. *)
Ltac call H :=
  eapply wp_mono; [|eapply H; try len; try done]; cbv beta;
  let a := fresh "a" in let ts' := fresh "ts" in let d' := fresh "d" in let c := fresh "c" in let Hc := fresh "Hc" in let E := fresh in
  intros a ts' d' (c & E & Hc);
  lazymatch type of E with ?l = _ => first [subst l|pose proof (f_equal (@length Token) E); rewrite E; clear E] end.
(** Nothing reported later was reported before. *)
Ltac failed := unfold eats; eaten; fail.
Ltac head_of H := destruct (raw_head _ _ _ H ltac:(done)) as (?t & ?ts & -> & ?Ht).

Section Productions.
Context (content : bytes) (kind : Source.Kind) `{!Declarations, !DeclarationTokens, !DeclarationLaws content kind}.
Abbreviation wp := (ParserFacts.wp content kind).
Abbreviation raw := (ScannerFacts.raw content).
Abbreviation eats := (eats content).
Implicit Types (ts : list Token) (d : bool).

(** No operator of precedence [m] up follows. *)
Definition stops (m : nat) ts : Prop :=
  match binaryOpForToken (raw ts 0) with Some o => o.(prec) < m | None => True end.
Definition binary_post (m : nat) ts d (a : Node) ts' d' : Prop :=
  exists c, ts = c ++ ts' /\ (d' = false -> d = false /\ clean content c /\ (exists last, binary content kind m last c a) /\ stops m ts').

(** The productions of a layer, on fewer than [n] tokens. *)
Record good (n : nat) (g : Grammar) : Prop := {
  expression_good ts d : length ts < n -> wp g.(g_expression) (eats (expr content kind) ts d) ts d;
  binary_good m ts d : length ts < n -> wp (g.(g_binary) m) (binary_post m ts d) ts d;
  unary_good ts d : length ts < n -> wp g.(g_unary) (eats (unary content kind) ts d) ts d;
  base_good ts d : length ts < n -> wp g.(g_base) (eats (base_expr content kind) ts d) ts d }.

(** A derivation is of at least a token. *)
Lemma name_by_cons first c q : name_by content first c q -> c <> [].
Proof. by destruct 1. Qed.
Lemma base_cons c a : base_expr content kind c a -> c <> [].
Proof.
  assert (Hq : forall c q, base_name_toks content kind c q -> c <> []) by (intros ?? [?? Hn|]; [by apply name_by_cons in Hn|done]).
  assert (Hb : forall c a, body_expr content kind c a -> c <> []) by (by intros ?? []).
  destruct 1; try done; try (by eapply Hb); try (by eapply Hq); intros [E _]%app_nil; by eapply Hq.
Qed.
Lemma primary_cons c a : primary content kind c a -> c <> [].
Proof. induction 1; [by eapply base_cons|..]; by intros [_ ?]%app_nil. Qed.
Lemma unary_cons c a : unary content kind c a -> c <> [].
Proof. destruct 1; [done|by eapply primary_cons]. Qed.
Lemma binary_cons m last c a : binary content kind m last c a -> c <> [].
Proof. induction 1; [by eapply unary_cons|..]; by intros [_ ?]%app_nil. Qed.

Context (n : nat) (below : Grammar) (Hbelow : good n below).

Lemma wp_node_at start (Q : NodeBase -> list Token -> bool -> Prop) ts d : (forall b, Q b ts d) -> wp (node_at start) Q ts d.
Proof. intros HQ. unfold node_at. wp_run. apply HQ. Qed.

Ltac run := repeat first [wp_prim; cbv beta|apply wp_node_at; intros ?|progress (cbn [negb andb orb])].

(** *** Lists *)

Lemma sequence_loop_spec fuel close es ts d c0 :
  length ts < fuel -> length ts < n -> close <> EOF ->
  wp (sequence_loop below fuel close es)
    (fun es' ts' d' => exists c, ts = c ++ ts' /\ (d' = false -> d = false /\ clean content c /\
      (elements content kind c0 es -> sequence content kind (c0 ++ c) es'))) ts d.
Proof.
  intros Hf Hn Hclose. revert es ts d c0 Hf Hn. induction fuel as [|fuel IH]; intros es ts d c0 Hf Hn; [lia|]. cbn [sequence_loop]. wp_run.
  case_bool_decide as E; cbn [negb].
  2:{ wp_run. exists []. split; [done|]. intros Hd. split; [done|]. split; [constructor|]. rewrite app_nil_r. by constructor. }
  head_of E. wp_run. case_bool_decide as E'.
  - wp_run. eaten. intros He. by constructor.
  - wp_run. call (expression_good _ _ Hbelow). eapply wp_mono; [|eapply (IH (es ++ [a]) _ _ (c0 ++ t :: c)); len].
    intros es' ts2 d2 (c2 & -> & Hc2). eaten. intros He. match goal with H : elements _ _ _ _ -> _ |- _ => specialize (H ltac:(by constructor)) end.
    by rewrite <- app_assoc in *.
Qed.

Lemma parseSequenceElements_spec close ts d :
  length ts < n -> close <> EOF -> wp (parseSequenceElements below close) (eats (sequence content kind) ts d) ts d.
Proof.
  intros Hn Hclose. unfold parseSequenceElements, loop_fuel. wp_run. call (expression_good _ _ Hbelow). wp_run.
  eapply wp_mono; [|eapply (sequence_loop_spec _ _ _ _ _ c); (done || len)].
  intros es ts2 d2 (c2 & -> & Hc2). done_eating. match goal with H : elements _ _ _ _ -> _ |- _ => apply H end. by constructor.
Qed.

Lemma parseSequenceExpr_spec close ts d :
  length ts < n -> close <> EOF ->
  wp (parseSequenceExpr below close) (eats (fun c a => exists b es, sequence content kind c es /\ a = seq_node b es) ts d) ts d.
Proof.
  intros Hn Hclose. unfold parseSequenceExpr. wp_run. call parseSequenceElements_spec.
  destruct a as [|e [|e' es]]; run; done_eating; [by exists b, []|by exists (base_of e), [e]|by exists b, (e :: e' :: es)].
Qed.

Lemma named_ahead_spec fuel i ts d (Q : bool -> list Token -> bool -> Prop) :
  0 < fuel -> length ts < fuel + i -> (forall b, Q b ts d) -> wp (named_ahead fuel i) Q ts d.
Proof.
  intros H0f Hf HQ. revert i H0f Hf. induction fuel as [|fuel IH]; intros i H0f Hf; [lia|]. cbn [named_ahead]. run.
  case_bool_decide as E; run; [|apply HQ]. destruct (_ && _); run; [apply HQ|].
  assert (Hi : i < length ts).
  { destruct (decide (i < length ts)); [done|]. exfalso. unfold ScannerFacts.raw in E. by rewrite lookup_ge_None_2 in E by lia. }
  apply IH; lia.
Qed.

Lemma namedArgAhead_spec ts d (Q : bool -> list Token -> bool -> Prop) : (forall b, Q b ts d) -> wp namedArgAhead Q ts d.
Proof.
  intros HQ. unfold namedArgAhead, atName, loop_fuel. run. destruct (names kind (raw ts 0)); run; [|apply HQ]. apply named_ahead_spec; [lia|lia|done].
Qed.

(** Lists read up to a comma. *)
Definition named_upto (c : list Token) (l : list (option QualifiedName * Node)) : Prop :=
  c = [] /\ l = [] \/ exists c' t, c = c' ++ [t] /\ kind_is Comma t /\ named_args content kind c' l.
Definition elements_upto (c : list Token) (l : list Node) : Prop :=
  c = [] /\ l = [] \/ exists c' t, c = c' ++ [t] /\ kind_is Comma t /\ elements content kind c' l.

Lemma named_more_upto c l c1 q e c2 v :
  named_upto c l -> name_toks content kind c1 q -> kind_is Eq e -> expr content kind c2 v ->
  named_args content kind (c ++ c1 ++ e :: c2) (l ++ [(q, v)]).
Proof.
  intros [[-> ->]|(c' & t & -> & Ht & Hl)] Hq He Hv; [by constructor|]. rewrite <- app_assoc. cbn [app]. by constructor.
Qed.
Lemma elements_more_upto c l c1 v : elements_upto c l -> expr content kind c1 v -> elements content kind (c ++ c1) (l ++ [v]).
Proof. intros [[-> ->]|(c' & t & -> & Ht & Hl)] Hv; [by constructor|]. rewrite <- app_assoc. cbn [app]. by constructor. Qed.

Lemma named_loop_spec fuel l ts d c0 :
  length ts < fuel -> length ts < n ->
  wp (named_loop below fuel l)
    (fun l' ts' d' => exists c, ts = c ++ ts' /\ (d' = false -> d = false /\ clean content c /\
      (named_upto c0 l -> named_args content kind (c0 ++ c) l'))) ts d.
Proof.
  revert l ts d c0. induction fuel as [|fuel IH]; intros l ts d c0 Hf Hn; [lia|]. cbn [named_loop]. run.
  call parseQualifiedName_spec. run.
  - call (expression_good _ _ Hbelow). run. case_bool_decide as E; cbn [negb].
    + head_of E. run. eapply wp_mono; [|eapply (IH _ _ _ (c0 ++ c ++ t :: c1 ++ [t0])); len].
      intros l' ts2 d2 (c2 & -> & Hc2). eaten. intros Hl.
      match goal with H : named_upto _ _ -> _ |- _ => norm_app_in H; apply H end.
      right. exists (c0 ++ c ++ t :: c1), t0. split; [by rewrite <- !app_assoc|]. split; [done|]. by apply named_more_upto.
    + run. eaten. intros Hl. by apply named_more_upto.
  - call (expression_good _ _ Hbelow). run. case_bool_decide as E'; cbn [negb]; [head_of E'; run|run; eaten].
    eapply wp_mono; [|eapply (IH _ _ _ []); len]. intros l' ts2 d2 (c2 & -> & Hc2). eaten.
Qed.

Lemma args_loop_spec fuel l ts d c0 :
  length ts < fuel -> length ts < n ->
  wp (args_loop below fuel l)
    (fun l' ts' d' => exists c, ts = c ++ ts' /\ (d' = false -> d = false /\ clean content c /\
      (elements_upto c0 l -> elements content kind (c0 ++ c) l'))) ts d.
Proof.
  revert l ts d c0. induction fuel as [|fuel IH]; intros l ts d c0 Hf Hn; [lia|]. cbn [args_loop]. run.
  call (expression_good _ _ Hbelow). run. case_bool_decide as E; cbn [negb].
  - head_of E. run. eapply wp_mono; [|eapply (IH _ _ _ (c0 ++ c ++ [t])); len].
    intros l' ts2 d2 (c2 & -> & Hc2). eaten. intros Hl.
    match goal with H : elements_upto _ _ -> _ |- _ => rewrite <- !app_assoc in H; apply H end.
    right. exists (c0 ++ c), t. split; [by rewrite app_assoc|]. split; [done|]. by apply elements_more_upto.
  - run. eaten. intros Hl. by apply elements_more_upto.
Qed.

(** [parseArgList] and what follows it, at the parenthesis. *)
Lemma parseArgList_spec t ts d :
  kind_is LParen t -> length ts < n ->
  wp (parseArgList below) (eats (fun c a => arguments content kind c a.1 a.2) (t :: ts) d) (t :: ts) d.
Proof.
  intros Ht Hn. unfold parseArgList, loop_fuel. run; [|done]. case_bool_decide as E.
  { head_of E. run. done_eating. by constructor. }
  run. apply namedArgAhead_spec. intros [|]; run.
  - eapply wp_mono; [|eapply (named_loop_spec _ _ _ _ []); len]. intros l ts' d' (c & -> & Hc). run.
    + done_eating. apply arguments_named; [done| |done]. match goal with H : named_upto _ _ -> _ |- _ => apply H end. by left.
    + eexists (t :: c). split; [done|]. done.
  - eapply wp_mono; [|eapply (args_loop_spec _ _ _ _ []); len]. intros l ts' d' (c & -> & Hc). run.
    + done_eating. apply arguments_positional; [done| |done]. match goal with H : elements_upto _ _ -> _ |- _ => apply H end. by left.
    + eexists (t :: c). split; [done|]. done.
Qed.

Lemma parseInvocationTail_spec start recv typ t ts d :
  kind_is LParen t -> length ts < n ->
  wp (parseInvocationTail below start recv typ)
    (eats (fun c a => exists b args named, arguments content kind c args named /\ a = InvocationExpr b recv typ args named false) (t :: ts) d) (t :: ts) d.
Proof. intros Ht Hn. unfold parseInvocationTail. run. call parseArgList_spec. destruct a as [args named]. run. done_eating. eauto. Qed.

Lemma parseConstructor_spec start t ts d :
  word "new" t -> length ts < n -> wp (parseConstructor below start) (eats (base_expr content kind) (t :: ts) d) (t :: ts) d.
Proof.
  intros Ht Hn. unfold parseConstructor. run. call parseQualifiedName_spec. run. case_bool_decide as E.
  - head_of E. call parseArgList_spec. destruct a0 as [args named]. run. done_eating. by constructor.
  - run. done_eating. by constructor.
Qed.

(** *** Multiplicities *)

Lemma parseMultiplicityBound_spec ts d : length ts < n -> wp (parseMultiplicityBound below) (eats (bound content kind) ts d) ts d.
Proof.
  intros Hn. unfold parseMultiplicityBound, atPrefixOperator. run. case_bool_decide as E; [head_of E; run; done_eating; by constructor|]. run.
  assert (Hfail : forall ts1 d1, length ts1 < n -> wp (below.(g_binary) precAdditive) (eats (bound content kind) ts1 d1) ts1 true).
  { intros ts1 d1 H1. eapply wp_mono; [|by apply (binary_good _ _ Hbelow)]. intros a ts' d' (c & -> & Hc). done_eating. }
  destruct (match tkKind (raw ts 0) with Plus | Minus | Tilde => true | _ => _ end) eqn:Ep; run; [by apply Hfail|].
  eapply wp_mono; [|by apply (binary_good _ _ Hbelow)]. intros a ts' d' (c & -> & Hc). run.
  destruct (_ || _) eqn:Eb; run.
  - destruct (bool_decide _); run; done_eating.
  - apply orb_false_iff in Eb as [Eb Ef]. apply negb_false_iff in Ef. done_eating.
    match goal with H : exists last, _ |- _ => destruct H as [last Hl] end. pose proof (binary_cons _ _ _ _ Hl) as Hne.
    destruct c as [|t c]; [done|]. cbn [app] in *. change (raw (t :: c ++ ts') 0) with t in *. apply bound_expr with last; [|done..].
    unfold bound_start. apply bool_decide_eq_false in Eb. destruct (tkKind t); try done; by rewrite Ep.
Qed.

Lemma parseMultiplicity_spec t ts d :
  kind_is LBracket t -> length ts < n ->
  wp (parseMultiplicity below) (eats (fun c a => exists m, a = Some m /\ multiplicity content kind c m) (t :: ts) d) (t :: ts) d.
Proof.
  intros Ht Hn. unfold parseMultiplicity. run. change (raw (t :: ts) 0) with t. rewrite bool_decide_true by done. run.
  call parseMultiplicityBound_spec. run; [call parseMultiplicityBound_spec; run|..]; done_eating; eexists; (split; [done|]); by constructor.
Qed.

(** *** Body expressions *)

Lemma atBodyExprMember_spec ts d (Q : bool -> list Token -> bool -> Prop) :
  (forall b, (b = true -> kind_is Keyword (raw ts 0)) -> Q b ts d) -> wp atBodyExprMember Q ts d.
Proof.
  intros HQ. unfold atBodyExprMember. run. case_bool_decide as E; run; [|by apply HQ]. destruct (in_set _ _); run; [by apply HQ|].
  apply wp_gets. intros p _. destruct (isKindKeyword p (raw ts 0)); run; by apply HQ.
Qed.

Lemma markAttached_spec m (Q : unit -> list Token -> bool -> Prop) ts d : Q tt ts d -> wp (markAttached m) Q ts d.
Proof. intros HQ. unfold markAttached. destruct m as [a|]; [destruct (isAttachedMember a)|]; by run. Qed.

Lemma param_typing_spec ts d :
  length ts < n -> wp (param_typing below) (eats (fun c a => typing content kind c a.1 a.2) ts d) ts d.
Proof.
  intros Hn. unfold param_typing. run. case_bool_decide as E; run; [|exists []; split; [done|]; intros; split; [done|]; split; [constructor|constructor]].
  head_of E. run. call parseQualifiedName_spec. run. case_bool_decide as E'.
  - head_of E'. call parseMultiplicity_spec. run. done_eating.
    match goal with H : exists m, _ |- _ => destruct H as (m & -> & Hm) end. by constructor.
  - run. done_eating. by constructor.
Qed.

Lemma shorthand_param_spec ts d :
  names kind (raw ts 0) = true -> length ts < n -> wp (shorthand_param below) (eats (shorthand content kind) ts d) ts d.
Proof.
  intros Ht Hn. unfold shorthand_param. run. apply parseNameSegment_first; [|by rewrite Ht].
  intros t ts' s -> Ht' Hs. run. call param_typing_spec. destruct a as [q m]. run; [|done_eating]. done_eating. by constructor.
Qed.

Lemma member_loop_spec fuel ms ts d c0 :
  length ts < fuel ->
  wp (member_loop fuel ms)
    (fun ms' ts' d' => exists c, ts = c ++ ts' /\ (d' = false -> d = false /\ clean content c /\
      (brace_members content kind c0 ms -> brace_members content kind (c0 ++ c) ms'))) ts d.
Proof.
  revert ms ts d c0. induction fuel as [|fuel IH]; intros ms ts d c0 Hf; [lia|]. cbn [member_loop]. run.
  destruct (bool_decide _ || bool_decide _) eqn:E; run.
  { exists []. split; [done|]. intros Hd. split; [done|]. split; [constructor|]. by rewrite app_nil_r. }
  apply orb_false_iff in E as [E1%bool_decide_eq_false E2%bool_decide_eq_false].
  eapply wp_mono; [|apply member_law]. intros m ts' d' [(c & Ets & Hc) Hlt]. cbv beta. apply wp_bind, markAttached_spec.
  eapply wp_mono; [|apply (IH _ _ _ (c0 ++ c))].
  2:{ assert (ts <> []) by (intros ->; done). specialize (Hlt ltac:(done) E1). lia. }
  intros ms' ts2 d2 (c2 & -> & Hc2). subst ts. eaten. intros Hms.
  match goal with H : brace_members _ _ _ _ -> _ |- _ => norm_app_in H; apply H end. by constructor.
Qed.

Lemma param_members_spec ts d : length ts < n -> wp param_members (eats (param_braces content kind) ts d) ts d.
Proof.
  intros Hn. unfold param_members, loop_fuel. run. case_bool_decide as E; run; [|exists []; split; [done|]; intros; split; [done|]; split; [constructor|constructor]].
  head_of E. run. eapply wp_mono; [|apply (member_loop_spec _ _ _ _ []); len]. intros ms ts' d' (c & -> & Hc). run; [|done_eating].
  run. done_eating. constructor; [done| |done]. match goal with H : brace_members _ _ _ _ -> _ |- _ => apply H end. constructor.
Qed.

Lemma in_param_spec ts d :
  length ts < n -> wp (in_param below) (eats (fun c a => exists p, a = Some p /\ parameter content kind c p) ts d) ts d.
Proof.
  intros Hn. unfold in_param.
  assert (Hrest : forall (isref : bool) ref ts' d', ts = ref ++ ts' -> (d' = false -> d = false /\ clean content ref) ->
    (if isref then exists r, ref = [r] /\ word "ref" r else ref = []) ->
    wp parseNameSegment (fun seg => wp (match seg with
        | None => t ← peek; _ ← raise t.(tkSpan) (bs "expected a name after 'in' in a body parameter"); ret None
        | Some seg =>
            '(ty, m) ← param_typing below;
            rels ← parseRelationships;
            eq ← accept Eq;
            value ← (match eq with Some _ => v ← below.(g_expression); ret (Some v) | None => ret None end);
            members ← param_members;
            ret (Some {| bpName := seg.(segText); bpType := ty; bpMultiplicity := m; bpValue := value; bpIsReference := isref; bpMembers := members;
                         bpRelationships := rels; bpSpan := seg.(segSpan) |})
        end)%parse (eats (fun c a => exists p, a = Some p /\ parameter content kind c p) ts d)) ts' d').
  { intros isref ref ts' d' -> Hd Href. apply parseNameSegment_first; [|intros _; run; exists ref; split; [done|done]].
    intros t ts1 s -> Ht Hs. run. call param_typing_spec. destruct a as [q m]. cbn [fst snd] in *. run.
    eapply wp_mono; [|apply rel_law]. intros rels ts2 d2 (c2 & -> & Hc2). run.
    - call (expression_good _ _ Hbelow). run. call param_members_spec. run. done_eating. eexists. split; [done|].
      apply (parameter_of content kind _ ref t s c c2 (t0 :: c0) c1); try done. by constructor.
    - call param_members_spec. run. exists (ref ++ t :: c ++ c2 ++ c0). split; [by norm_app|]. intros Hd'. unwind. split; [done|]. split; [clean_tac|].
      eexists. split; [done|]. apply (parameter_of content kind _ ref t s c c2 [] c0); try done. constructor. }
  run; [apply (Hrest true [t]); [done|intros ?; unwind; split; [done|clean_tac]|by exists t]|apply (Hrest false []); [done|intros; split; [done|constructor]|done]].
Qed.

Lemma last_snoc {A} (l : list A) x : last (l ++ [x]) = Some x.
Proof. by rewrite last_app. Qed.

Lemma body_loop_spec fuel ps ms ts d c0 ps0 ms0 :
  length ts < fuel -> length ts < n ->
  wp (body_loop below fuel ps ms)
    (fun a ts' d' => exists c, ts = c ++ ts' /\ (d' = false -> d = false /\ clean content c /\
      (body_items content kind ps0 ms0 c0 ps ms -> body_items content kind ps0 ms0 (c0 ++ c) a.1 a.2))) ts d.
Proof.
  revert ps ms ts d c0. induction fuel as [|fuel IH]; intros ps ms ts d c0 Hf Hn; [lia|]. cbn [body_loop]. run.
  assert (Hstop : wp (ret (ps, ms)) (fun a ts' d' => exists c, ts = c ++ ts' /\ (d' = false -> d = false /\ clean content c /\
      (body_items content kind ps0 ms0 c0 ps ms -> body_items content kind ps0 ms0 (c0 ++ c) a.1 a.2))) ts d).
  { run. exists []. split; [done|]. intros Hd. split; [done|]. split; [constructor|]. by rewrite app_nil_r. }
  destruct (is_keyword (raw ts 0) (bs "in")) eqn:Ein.
  - destruct (keyword_head _ _ _ Ein) as (i & ts1 & -> & Hi). run. call in_param_spec. run.
    destruct a as [b|].
    + rewrite last_snoc. destruct (bpMembers b) eqn:Eb; run.
      * eapply wp_mono; [|apply (IH _ _ _ _ (c0 ++ i :: c ++ [t])); len]. intros a ts2 d2 (c2 & -> & Hc2). eaten. intros Hb.
        match goal with H : body_items _ _ _ _ _ _ _ -> _ |- _ => norm_app_in H; apply H end.
        match goal with H : exists p, _ |- _ => destruct H as (p & [= <-] & Hp) end. apply items_param; try done.
        unfold ends_in_braces. rewrite last_snoc, Eb. by exists t.
      * eapply wp_mono; [|apply (IH _ _ _ _ []); len]. intros a ts2 d2 (c2 & -> & Hc2). eaten.
      * eapply wp_mono; [|apply (IH _ _ _ _ (c0 ++ i :: c)); len]. intros a ts2 d2 (c2 & -> & Hc2). eaten. intros Hb.
        match goal with H : body_items _ _ _ _ _ _ _ -> _ |- _ => norm_app_in H; apply H end.
        match goal with H : exists p, _ |- _ => destruct H as (p & [= <-] & Hp) end.
        pose proof (items_param content kind ps0 ms0 c0 c ps ms i [] b Hb Hi Hp) as Hit. rewrite app_nil_r in Hit. apply Hit.
        unfold ends_in_braces. rewrite last_snoc, Eb. done.
    + assert (Hno : forall Q ts2 d2, (forall ts3 d3, length ts3 <= length ts2 -> (d3 = false -> d2 = false) -> (exists c, ts2 = c ++ ts3) -> wp (body_loop below fuel (ps ++ []) ms) Q ts3 d3) ->
        wp (match last (ps ++ []) with
            | Some b => match b.(bpMembers) with [] => expectSemicolon (bs "body parameter") | _ => ret true end
            | None => expectSemicolon (bs "body parameter")
            end) (fun _ => wp (body_loop below fuel (ps ++ []) ms) Q) ts2 d2).
      { intros Q ts2 d2 HQ. assert (Hsemi : wp (expectSemicolon (bs "body parameter")) (fun _ => wp (body_loop below fuel (ps ++ []) ms) Q) ts2 d2).
        { run; apply HQ; [len|by intros [? ?]%orb_false_iff|by exists [t]|done|done|by exists []]. }
        destruct (last (ps ++ [])) as [b|]; [|done]. destruct (bpMembers b); [done|]. run. apply HQ; [done|done|by exists []]. }
      apply Hno. intros ts3 d3 Hl Hd3 [c3 ->]. eapply wp_mono; [|apply (IH _ _ _ _ []); len].
      intros a ts2 d2 (c2 & -> & Hc2). exists (i :: c ++ c3 ++ c2). split; [by norm_app|]. intros Hd2. unwind.
      match goal with H : exists p, _ |- _ => by destruct H as (p & ? & _) end.
  - run. apply atBodyExprMember_spec. intros [|] Hk; cbn [negb andb]; [|exact Hstop]. run. specialize (Hk eq_refl).
    apply wp_proper. intros Hp. eapply wp_mono; [|apply member_law]. intros m ts' d' [(c & -> & Hc) Hlt]. run.
    assert (Hne : c <> []).
    { intros ->. cbn [app] in *. destruct ts' as [|t ts']; [done|]. specialize (Hlt ltac:(done)). rewrite Hk in Hlt. specialize (Hlt ltac:(done)). lia. }
    pose proof (proper_moved content _ _ Hp Hne) as Hmove. rewrite (proj2 (Nat.eqb_neq _ _)) by lia. run.
    assert (0 < length c) by (destruct c; [done|cbn; lia]).
    eapply wp_mono; [|apply (IH _ _ _ _ (c0 ++ c)); len]. intros a ts2 d2 (c2 & -> & Hc2). eaten. intros Hb.
    match goal with H : body_items _ _ _ _ _ _ _ -> _ |- _ => norm_app_in H; apply H end. by constructor.
Qed.

Lemma eats_nothing {A} (G : list Token -> A -> Prop) ts d a : G [] a -> eats G ts d a ts d.
Proof. intros HG. exists []. split; [done|]. intros Hd. split; [done|]. by split; [constructor|]. Qed.

Lemma body_doc_spec ts d : wp body_doc (eats (doc_part content kind) ts d) ts d.
Proof.
  unfold body_doc. run. destruct (is_keyword _ _) eqn:E; run; [|apply eats_nothing; constructor].
  eapply wp_mono; [|by apply doc_law]. intros a ts' d' (c & -> & Hc). run. done_eating. by constructor.
Qed.
Lemma body_shorthand_spec ts d : length ts < n -> wp (body_shorthand below) (eats (shorthand content kind) ts d) ts d.
Proof.
  intros Hn. unfold body_shorthand, atName. run.
  destruct (names kind (raw ts 0)) eqn:E; run; [|apply eats_nothing; constructor].
  case_bool_decide; run; [by apply shorthand_param_spec|apply eats_nothing; constructor].
Qed.
Lemma body_last_spec ts d : length ts < n -> wp (body_last below) (eats (body_result content kind) ts d) ts d.
Proof.
  intros Hn. unfold body_last. run. case_bool_decide; run; [apply eats_nothing; constructor|]. call (expression_good _ _ Hbelow). run.
  done_eating. by constructor.
Qed.

Lemma parseBodyExpr_spec start t ts d :
  kind_is LBrace t -> length ts < n -> wp (parseBodyExpr below start) (eats (body_expr content kind) (t :: ts) d) (t :: ts) d.
Proof.
  intros Ht Hn. unfold parseBodyExpr, loop_fuel. run. eapply wp_mono; [|apply body_doc_spec]. intros docs ts1 d1 (c0 & -> & Hc0).
  run. call body_shorthand_spec. run. rename a into ps. rename c into c1.
  eapply wp_mono; [|apply (body_loop_spec _ _ _ _ _ [] ps docs); len]. intros [ps' ms'] ts2 d2 (c2 & -> & Hc2). cbn [fst snd] in *.
  run. call body_last_spec. run; [|done_eating]. done_eating. apply (body_of content kind _ t t0 c0 c1 c2 c docs ps); try done.
  match goal with H : body_items _ _ _ _ _ _ _ -> _ |- _ => apply H end. constructor.
Qed.

(** *** Bases *)

Lemma parseParenOrSequence_spec start t ts d :
  kind_is LParen t -> length ts < n ->
  wp (parseParenOrSequence below start) (eats (fun c a => forall b, base_expr content kind c (with_base b a)) (t :: ts) d) (t :: ts) d.
Proof.
  intros Ht Hn. unfold parseParenOrSequence. run.
  - call parseQualifiedName_spec. run. case_bool_decide as E.
    + head_of E. call parseMultiplicity_spec. run; [|done_eating]. done_eating. intros b'.
      match goal with H : exists m, _ |- _ => destruct H as (m & -> & Hm) end. by constructor.
    + run; [|done_eating]. done_eating. intros b'. by constructor.
  - case_bool_decide as E.
    + head_of E. run; [|done]. done_eating. intros b'. by constructor.
    + call parseSequenceElements_spec. run; [|destruct a as [|? [|? ?]]; run; done_eating].
      assert (Hp : forall b' a', a' = paren_node b' a -> eats (fun c a0 => forall b, base_expr content kind c (with_base b a0)) (t :: c ++ t0 :: ts) d a' ts (d0 || flawed content t0)).
      { intros b' a' ->. done_eating. intros b2. apply (base_paren content kind b2 b' t t0 c a); try done.
        destruct a; [|done]. exfalso.
        match goal with H : sequence _ _ _ _ |- _ => inversion H as [?? He|??? He]; subst; inversion He; by destruct ns end. }
      destruct a as [|e [|e' es]]; run; [by eapply (Hp b)|by eapply (Hp (base_of e))|by eapply (Hp b)].
Qed.

Lemma with_base_twice b b' a : with_base b (with_base b' a) = with_base b a.
Proof. by destruct a. Qed.
Lemma rebased c a b : base_expr content kind c a -> base_expr content kind c (with_base b a).
Proof.
  destruct 1; cbn [with_base]; try by constructor.
  - subst. rewrite with_base_twice. by eapply base_paren.
  - apply base_body. match goal with H : body_expr _ _ _ _ |- _ => destruct H end. cbn [with_base]. by econstructor.
Qed.

(** A base, wherever its node is. *)
Abbreviation based := (eats (fun c a => forall b, base_expr content kind c (with_base b a))).
Lemma based_base (m : M Node) ts d : wp m (eats (base_expr content kind) ts d) ts d -> wp m (based ts d) ts d.
Proof. apply wp_mono. intros a ts' d'. apply eats_mono. intros c Hc b. by apply rebased. Qed.

Lemma literal_base_spec start build t ts d :
  (forall b, base_expr content kind [t] (build b (text content t.(tkSpan)))) -> wp (literal start build) (eats (base_expr content kind) (t :: ts) d) (t :: ts) d.
Proof. intros Hb. unfold literal. run. done_eating. apply Hb. Qed.

Lemma base_error_spec start G ts d : wp (base_error start) (eats G ts d) ts d.
Proof.
  unfold base_error. run.
  assert (Hskip : forall (m : bool), (ts = [] -> m = true) ->
    wp (if m then ret tt else _ ← advance; ret tt)%parse
      (fun _ => wp (b ← node_at start; ret (ErrorNode b (bs "expected an expression")))%parse (eats G ts d)) ts true).
  { intros [|] Hm; run; [by exists []|]. destruct ts as [|t ts]; [by specialize (Hm eq_refl)|]. run. by exists [t]. }
  apply Hskip. by intros ->.
Qed.

(** The rest of a base once its name is read. *)
Lemma named_rest_spec start (qn : option QualifiedName) c0 ts0 d0 ts d :
  length ts <= n -> ts0 = c0 ++ ts -> (d = false -> d0 = false /\ clean content c0 /\ base_name_toks content kind c0 qn) ->
  wp (if bool_decide (tkKind (raw ts 0) = LParen) then parseInvocationTail below start None qn
      else
        brace ← at_ LBrace;
        body ← (if (brace : bool) then peekIsKeyword 1 "in" else ret false);
        if (body : bool) then
          bodyStart ← Parser_Offset;
          e ← parseBodyExpr below bodyStart;
          b ← node_at start;
          ret (InvocationExpr b None qn [e] [] true)
        else b ← node_at start; ret (FeatureReference b qn))%parse (eats (base_expr content kind) ts0 d0) ts d.
Proof.
  intros Hn -> Hc0. case_bool_decide as E.
  { head_of E. call parseInvocationTail_spec. done_eating.
    match goal with H : exists b args named, _ |- _ => destruct H as (b & args & named & Ha & ->) end. by constructor. }
  run. case_bool_decide as E'.
  - head_of E'. run. destruct (is_keyword _ _); run; [|done_eating; by constructor].
    call parseBodyExpr_spec. run. done_eating. by constructor.
  - run. done_eating. by constructor.
Qed.

Lemma named_base_spec start ts d : length ts <= n -> wp (named_base below start) (eats (base_expr content kind) ts d) ts d.
Proof.
  intros Hn. unfold named_base. run. case_bool_decide as E.
  - head_of E. run. apply (named_rest_spec _ _ [t]); [len|done|]. intros Hd. unwind. split; [done|]. split; [clean_tac|]. by constructor.
  - call parseQualifiedName_spec. apply wp_bind, wp_at, (named_rest_spec _ _ c); [len|done|]. intros Hd. unwind. split; [done|]. split; [done|]. by constructor.
Qed.

Lemma atGlobalName_spec ts d (Q : bool -> list Token -> bool -> Prop) : (forall b, Q b ts d) -> wp atGlobalName Q ts d.
Proof. intros HQ. unfold atGlobalName. run. case_bool_decide; by run. Qed.

Lemma parseBase_spec ts d : length ts <= n -> wp (parseBase below) (eats (base_expr content kind) ts d) ts d.
Proof.
  intros Hn. unfold parseBase. run. apply atGlobalName_spec. intros global. apply wp_bind.
  match goal with |- wp ?m _ _ _ => enough (Hm : wp m (based ts d) ts d) end.
  { eapply wp_mono; [|exact Hm]. intros a ts' d' (c & -> & Hc). apply wp_ret. done_eating. by unfold SetLeadingTrivia. }
  destruct (is_keyword _ (bs "null")) eqn:E1; [destruct (keyword_head _ _ _ E1) as (t & ts1 & -> & Ht); run; done_eating; intros b'; by constructor|].
  destruct (is_keyword _ (bs "true") || _) eqn:E2.
  { assert (Hk : exists t ts1, ts = t :: ts1 /\ (is_keyword t (bs "true") = true \/ is_keyword t (bs "false") = true)).
    { apply orb_true_iff in E2 as [E2|E2]; destruct (keyword_head _ _ _ E2) as (t & ts1 & -> & Ht); exists t, ts1; auto. }
    destruct Hk as (t & ts1 & -> & Ht). run. done_eating. intros b'. cbn [with_base]. destruct (beq (KeywordID t) (bs "true")) eqn:Et.
    - apply base_true. unfold word, is_keyword in *. by destruct Ht as [?%andb_true_iff|?%andb_true_iff]; destruct_and!; apply andb_true_iff.
    - destruct Ht as [[_ Ht]%andb_true_iff|Ht]; [congruence|by constructor]. }
  destruct (is_keyword _ (bs "new")) eqn:E3; [destruct (keyword_head _ _ _ E3) as (t & ts1 & -> & Ht); apply based_base, parseConstructor_spec; [done|len]|].
  destruct (tkKind (raw ts 0)) eqn:E; try (destruct global; [by apply based_base, named_base_spec|apply base_error_spec]).
  all: try (by apply based_base, named_base_spec); head_of E.
  1-3: apply based_base, literal_base_spec; intros b; by constructor.
  1-2: run; call parseQualifiedName_spec; run; done_eating; intros b'; by constructor.
  - run. done_eating. intros b'. by constructor.
  - apply parseParenOrSequence_spec; [done|len].
  - apply based_base. eapply wp_mono; [|apply parseBodyExpr_spec; [done|len]]. intros a ts' d'. apply eats_mono. by constructor.
Qed.
(** *** Postfixes *)

(** Tokens that extend the primary [c0] reads. *)
Definition extends c0 (e : Node) ts d (a : Node) ts' d' : Prop :=
  exists c, ts = c ++ ts' /\ (d' = false -> d = false /\ clean content c /\ (primary content kind c0 e -> primary content kind (c0 ++ c) a)).

(** Go round the loop with what the primary has grown by. *)
Ltac again IH c0 c :=
  eapply wp_mono; [|apply (IH _ _ _ (c0 ++ c)); len];
  let a := fresh "a" in let ts2 := fresh "ts" in let d2 := fresh "d" in let c2 := fresh "c" in let Hc2 := fresh "Hc" in
  intros a ts2 d2 (c2 & -> & Hc2); unfold extends in *; eaten; intros Hprimary;
  match goal with H : primary _ _ (c0 ++ _) _ -> _ |- _ => norm_app_in H; apply H end.

Lemma atExprStart_spec ts d (Q : bool -> list Token -> bool -> Prop) : (forall b, Q b ts d) -> wp atExprStart Q ts d.
Proof. intros HQ. unfold atExprStart, atName. run. apply atGlobalName_spec. intros b. run. apply HQ. Qed.

Lemma parsePostfixes_spec fuel start e ts d c0 :
  length ts < fuel -> length ts <= n -> wp (parsePostfixes below fuel start e) (extends c0 e ts d) ts d.
Proof.
  revert e ts d c0. induction fuel as [|fuel IH]; intros e ts d c0 Hf Hn; [lia|]. cbn [parsePostfixes]. run.
  assert (Hstop : wp (ret e) (extends c0 e ts d) ts d).
  { run. exists []. split; [done|]. intros Hd. split; [done|]. split; [constructor|]. by rewrite app_nil_r. }
  destruct (tkKind (raw ts 0)) eqn:E; try exact Hstop; head_of E.
  - run. case_bool_decide as E1.
    { head_of E1. run. call parseBodyExpr_spec. run. again IH c0 (t :: c). by apply primary_collect. }
    run. destruct (if is_keyword _ _ then metadataAccessRef e else None) eqn:Em.
    { destruct (is_keyword _ _) eqn:Ek in Em; [|done]. destruct (keyword_head _ _ _ Ek) as (m & ts1 & -> & Hm). run.
      again IH c0 [t; m]. by eapply primary_metadata. }
    run. call parseQualifiedNameRelaxed_spec. run. case_bool_decide as E2.
    + head_of E2. call parseInvocationTail_spec. again IH c0 (t :: c ++ c1).
      match goal with H : exists b args named, _ |- _ => destruct H as (b' & args & named & Ha & ->) end. by apply primary_chain_call.
    + run. again IH c0 (t :: c). by apply primary_chain.
  - run.
    + call parseSequenceExpr_spec. run; match goal with H : exists b es, _ |- _ => idtac | _ => idtac end.
      * again IH c0 (t :: t0 :: c ++ [t1]). match goal with H : exists b es, _ |- _ => destruct H as (b' & es & Hes & ->) end. by apply primary_sequence_index.
      * again IH c0 (t :: t0 :: c).
    + call parseSequenceExpr_spec. run; [again IH c0 (t :: c ++ [t0])|again IH c0 (t :: c)].
  - run. call parseSequenceExpr_spec. run; [|again IH c0 (t :: c)].
    again IH c0 (t :: c ++ [t0]). match goal with H : exists b es, _ |- _ => destruct H as (b' & es & Hes & ->) end. by apply primary_index.
  - run. call parseQualifiedName_spec. run. case_bool_decide as E1.
    { head_of E1. run. call parseArgList_spec. destruct a0 as [args named]. cbn [fst snd] in *. run.
      again IH c0 (t :: c ++ c1). by apply primary_arrow_call. }
    case_bool_decide as E2.
    { head_of E2. run. call parseBodyExpr_spec. run. again IH c0 (t :: c ++ c1). by apply primary_arrow_body. }
    run. apply atExprStart_spec. intros [|]; run.
    + call (base_good _ _ Hbelow). run. again IH c0 (t :: c ++ c1). by apply primary_arrow_base.
    + again IH c0 (t :: c). by apply primary_arrow.
  - run. case_bool_decide as E1; run.
    + head_of E1. call parseBodyExpr_spec. run. again IH c0 (t :: c). by apply primary_select.
    + by exists [t].
Qed.
Lemma parsePrimary_spec ts d : length ts <= n -> wp (parsePrimary below) (eats (primary content kind) ts d) ts d.
Proof.
  intros Hn. unfold parsePrimary, loop_fuel. run. call parseBase_spec. run.
  eapply wp_mono; [|apply (parsePostfixes_spec _ _ _ _ _ c); len]. intros a' ts2 d2 (c2 & -> & Hc2). done_eating.
  match goal with H : primary _ _ _ _ -> _ |- _ => apply H end. by constructor.
Qed.

(** *** Operators *)

Lemma prefix_of_cons ts op : prefix_op (raw ts 0) = Some op -> exists t ts', ts = t :: ts' /\ prefix_of t op.
Proof. destruct ts as [|t ts]; [done|]. intros E. by exists t, ts. Qed.
Lemma binary_op_cons ts o : binaryOpForToken (raw ts 0) = Some o -> exists t ts', ts = t :: ts' /\ binaryOpForToken t = Some o.
Proof. destruct ts as [|t ts]; [done|]. intros E. by exists t, ts. Qed.

Lemma parseUnary_spec ts d : length ts <= n -> wp (parseUnary below) (eats (unary content kind) ts d) ts d.
Proof.
  intros Hn. unfold parseUnary. run. destruct (prefix_op (raw ts 0)) as [op|] eqn:E.
  - destruct (prefix_of_cons _ _ E) as (t & ts1 & -> & Ht). run.
    assert (Hop : forall slot : option nat, wp (below.(g_unary)) (fun operand => wp (
        b ← node_at (Offset (tkSpan (raw (t :: ts1) 0)));
        _ ← match slot with Some s => set_op s b.(NodeSpan) | None => ret tt end;
        ret (OperatorExpr b op [operand] None))%parse (eats (unary content kind) (t :: ts1) d)) ts1 (d || flawed content t)).
    { intros slot. call (unary_good _ _ Hbelow). run. destruct slot; run; done_eating; by constructor. }
    case_bool_decide; run; [exact (Hop (Some _))|exact (Hop None)].
  - eapply wp_mono; [|by apply parsePrimary_spec]. intros a ts' d'. apply eats_mono. by constructor.
Qed.

(** What [last] left of the operators to come. *)
Definition follows_all (last : option binOp) ts : Prop :=
  match last with Some o => o.(classify) = false -> stops (next_prec o) ts | None => True end.
Lemma follows_head last t ts o : follows_all last (t :: ts) -> binaryOpForToken t = Some o -> follows last o.
Proof.
  intros Hall E. destruct last as [o'|]; [|done]. intros Hc. specialize (Hall Hc). unfold stops in Hall. change (raw (t :: ts) 0) with t in Hall.
  by rewrite E in Hall.
Qed.

Lemma binary_loop_spec fuel m start left last ts d c0 :
  length ts < fuel -> length ts <= n ->
  wp (binary_loop below fuel m start left)
    (fun a ts' d' => exists c, ts = c ++ ts' /\ (d' = false -> d = false /\ clean content c /\
      (binary content kind m last c0 left -> follows_all last ts -> (exists last, binary content kind m last (c0 ++ c) a) /\ stops m ts'))) ts d.
Proof.
  revert left last ts d c0. induction fuel as [|fuel IH]; intros left last ts d c0 Hf Hn; [lia|]. cbn [binary_loop]. unfold binaryOpFor. run.
  assert (Hstop : stops m ts -> wp (ret left) (fun a ts' d' => exists c, ts = c ++ ts' /\ (d' = false -> d = false /\ clean content c /\
      (binary content kind m last c0 left -> follows_all last ts -> (exists last, binary content kind m last (c0 ++ c) a) /\ stops m ts'))) ts d).
  { intros Hs. run. exists []. split; [done|]. intros Hd. split; [done|]. split; [constructor|]. intros Hb _. rewrite app_nil_r. eauto. }
  destruct (binaryOpForToken (raw ts 0)) as [o|] eqn:E; [|apply Hstop; unfold stops; by rewrite E].
  destruct (Nat.ltb_spec (prec o) m) as [Hlt|Hge]; [apply Hstop; unfold stops; by rewrite E|].
  destruct (binary_op_cons _ _ E) as (t & ts1 & -> & Ht). run. destruct (classify o) eqn:Ec.
  - run. call parseQualifiedName_spec. run. eapply wp_mono; [|apply (IH _ (Some o) _ _ (c0 ++ t :: c)); len].
    intros a' ts2 d2 (c2 & -> & Hc2). eaten. intros Hb Hfl. match goal with H : binary _ _ _ _ (c0 ++ _) _ -> _ |- _ => norm_app_in H; apply H end.
    + eapply binary_type; try done. by eapply follows_head.
    + intros Hc'. congruence.
  - run. eapply wp_mono; [|apply (binary_good _ _ Hbelow); len]. intros r ts' d' (c & -> & Hc). run.
    eapply wp_mono; [|apply (IH _ (Some o) _ _ (c0 ++ t :: c)); len].
    intros a' ts2 d2 (c2 & -> & Hc2). eaten. intros Hb Hfl. match goal with H : binary _ _ _ _ (c0 ++ _) _ -> _ |- _ => norm_app_in H; apply H end.
    + match goal with H : exists last, _ |- _ => destruct H as [last' Hr] end. eapply binary_op; try done. by eapply follows_head.
    + by intros _.
Qed.

Lemma parseBinary_spec m ts d : length ts <= n -> wp (parseBinary below m) (binary_post m ts d) ts d.
Proof.
  intros Hn. unfold parseBinary, loop_fuel. run. call parseUnary_spec. run.
  eapply wp_mono; [|apply (binary_loop_spec _ _ _ _ None _ _ c); len]. intros a' ts2 d2 (c2 & -> & Hc2). unfold binary_post. eaten.
  match goal with H : binary _ _ _ _ _ _ -> _ |- _ => apply H end; [by constructor|done].
Qed.

Lemma parseConditional_spec ts d : length ts <= n -> wp (parseConditional below) (eats (expr content kind) ts d) ts d.
Proof.
  intros Hn. unfold parseConditional. run. destruct (is_keyword _ _) eqn:E.
  - destruct (keyword_head _ _ _ E) as (i & ts1 & -> & Hi). run.
    eapply wp_mono; [|apply (binary_good _ _ Hbelow); len]. intros cond ts' d' (c & -> & Hc). run.
    + call (expression_good _ _ Hbelow). run; (call (expression_good _ _ Hbelow)); run; done_eating.
      match goal with H : exists last, _ |- _ => destruct H as [last Hl] end. by eapply expr_if.
    + call (expression_good _ _ Hbelow). run; (call (expression_good _ _ Hbelow)); run; done_eating.
  - eapply wp_mono; [|by apply parseBinary_spec]. intros a ts' d' (c & -> & Hc). done_eating.
    match goal with H : exists last, _ |- _ => destruct H as [last Hl] end. by eapply expr_binary.
Qed.

Lemma layer_good : good (S n) (layer below).
Proof.
  split; intros; cbn [layer g_expression g_binary g_unary g_base];
    [apply parseConditional_spec|apply parseBinary_spec|apply parseUnary_spec|apply parseBase_spec]; lia.
Qed.
End Productions.

Lemma grammar_good content kind `{!Declarations, !DeclarationTokens, !DeclarationLaws content kind} n : good content kind n (grammar n).
Proof. induction n as [|n IH]; [by split; intros; lia|]. by apply layer_good. Qed.
