(* ===== verification/ExpressionSound.v ===== *)
(** * The expression parser: soundness

    Whole parses: of any text the parser returns a tree, and the tokens of the tree
    it returns without a report derive it in the reference grammar. *)
From S2P Require Import Prelude Bytes Source Integer Lexer LexerFacts Scanner ScannerFacts Syntax Parser ParserFacts Expression Grammar ExpressionFacts.

Section Sound.
Context (content : bytes) (kind : Source.Kind) `{!Declarations, !DeclarationTokens, !DeclarationLaws content kind}.
Abbreviation toks := (source_tokens content kind).

Lemma ParseExpression_eats : exists a p ts d,
  ParseExpression (New_Parser content kind) = Some (a, p) /\ abs content kind p ts d
  /\ eats content (expr content kind) toks (left_open content kind) a ts d.
Proof.
  pose proof (New_Parser_abs content kind) as Habs. unfold ParseExpression. cbn [p_src New_Parser].
  assert (Hl : length toks < S (length content)) by (destruct Habs as (_ & _ & _ & _ & Hl & _); lia).
  destruct (expression_good _ _ _ _ (grammar_good content kind (S (length content))) toks (left_open content kind) Hl _ Habs)
    as (a & p & ts & d & E & Hp & Ha).
  exists a, p, ts, d. done.
Qed.
End Sound.

(** C3: every text parses: the expression parser, on any text of either language,
    reads a tree off the front of its tokens, without running out of the fuel that
    stands for its recursion. Unless it reports something - and a comment the source
    leaves open is reported - those tokens are well formed and derive the tree in the
    reference grammar: by precedence and associativity, every argument list, body,
    multiplicity and postfix included. *)
Theorem ParseExpression_sound content kind `{!Declarations, !DeclarationTokens, !DeclarationLaws content kind} :
  exists a p c rest,
    ParseExpression (New_Parser content kind) = Some (a, p) /\ source_tokens content kind = c ++ rest
    /\ (p.(rep).(Diagnostics) = [] -> left_open content kind = false ->
        expr content kind c a /\ Forall (fun t => flawed content t = false) c).
Proof.
  destruct (ParseExpression_eats content kind) as (a & p & ts & d & E & Hp & c & Hc & Ha). exists a, p, c, ts.
  split; [done|]. split; [done|]. intros Hd Ho. rewrite (abs_silent _ _ _ _ _ Hp Ho) in Ha.
  destruct (Ha ltac:(by unfold reported; rewrite Hd)) as (_ & ? & ?). done.
Qed.

(** C40: [ParseOneExpression] answers on any text, and a tree it accepts is what all
    the text's tokens derive: nothing is left over. *)
Theorem ParseOneExpression_whole text kind `{!Declarations, !DeclarationTokens, !DeclarationLaws text kind} :
  exists a ok, ParseOneExpression kind text = Some (a, ok)
    /\ (ok = true -> left_open text kind = false -> expr text kind (source_tokens text kind) a).
Proof.
  destruct (ParseExpression_eats text kind) as (a & p & ts & d & E & Hp & c & Hc & Ha). unfold ParseOneExpression. rewrite E.
  case_bool_decide as Hd; cbn [negb]; [|by exists a, false].
  destruct (wp_Offset text kind (fun n ts' _ => n = Offset (tkSpan (raw text ts 0)) /\ ts' = ts) ts d ltac:(done) p Hp)
    as (n & q & ts' & d' & -> & _ & -> & ->).
  eexists a, _. split; [done|]. intros Hn%Nat.eqb_eq Ho. rewrite (abs_silent _ _ _ _ _ Hp Ho) in Ha.
  destruct (Ha ltac:(by unfold reported; rewrite Hd)) as (_ & _ & He). rewrite Hc. destruct ts as [|t ts]; [by rewrite app_nil_r|].
  destruct Hp as (_ & _ & _ & [Hall _] & _). inversion_clear Hall as [|?? [_ Hlt] _]. cbn in Hn. lia.
Qed.

(** ** A parser of no declarations *)

#[local] Instance no_declarations : Declarations := {
  isKindKeyword := fun _ _ => false;
  parseBodyMember := (
    t ← peek;
    _ ← raise t.(tkSpan) (bs "expected a member");
    _ ← (if match t.(tkKind) with EOF | RBrace => true | _ => false end then ret tt else _ ← advance; ret tt);
    ret None)%parse;
  parseDocumentation := fun start => (_ ← raise {| Offset := start; Len := 0 |} (bs "expected a member"); ret (OtherNode {| NodeSpan := {| Offset := start; Len := 0 |}; leading := [] |}))%parse;
  parseRelationships := ret [];
  isAttachedMember := fun _ => false }.
#[local] Instance no_tokens : DeclarationTokens := {
  member_tokens := fun _ _ => False; doc_tokens := fun _ _ => False; rel_tokens := fun c l => c = [] /\ l = [] }.
Lemma no_declarations_laws content kind : DeclarationLaws content kind.
Proof.
  split.
  - intros ts d. cbn [parseBodyMember no_declarations]. apply wp_proper. intros Hp. wp_run.
    assert (Hskip : forall b : bool, (b = true -> ts = [] \/ tkKind (raw content ts 0) = RBrace) -> (b = false -> ts <> []) ->
      wp content kind (if b then ret tt else _ ← advance; ret tt)%parse (fun _ => wp content kind (ret None) (fun m ts' d' =>
        eats content member_tokens ts d m ts' d' /\ (ts <> [] -> tkKind (raw content ts 0) <> RBrace -> length ts' < length ts))) ts true).
    { intros [|] Hb Hne.
      - wp_run. split; [by exists []|]. intros Hne' Hk. by destruct (Hb eq_refl).
      - destruct ts as [|t ts]; [by specialize (Hne eq_refl)|]. wp_run. split; [by exists [t]|]. cbn. lia. }
    apply Hskip; [|by destruct ts]. destruct ts as [|t ts]; [by left|]. change (raw content (t :: ts) 0) with t.
    pose proof (proper_kind _ _ 0 t Hp eq_refl) as Hk. destruct (tkKind t); try done; auto.
  - by intros m [].
  - intros start ts d _. cbn [parseDocumentation no_declarations]. wp_run. by exists [].
  - intros ts d. cbn [parseRelationships no_declarations]. wp_run. exists []. split; [done|]. intros Hd. split; [done|]. by split; [constructor|].
Qed.

(** The tokens of a text of all the layers. *)
Definition sample_text : bytes := bs "a.b + f(x = 2) * -c[i] ** 2 ?? (1, 2)->collect {in x; x + 1} as T"%string.

Lemma ParseExpression_sound_witness :
  exists a p c rest,
    ParseExpression (New_Parser sample_text KindSysML) = Some (a, p) /\ source_tokens sample_text KindSysML = c ++ rest
    /\ (p.(rep).(Diagnostics) = [] -> left_open sample_text KindSysML = false ->
        expr sample_text KindSysML c a /\ Forall (fun t => flawed sample_text t = false) c).
Proof. exact (@ParseExpression_sound sample_text KindSysML _ _ (no_declarations_laws _ _)). Defined.
Lemma ParseOneExpression_whole_witness :
  exists a ok, ParseOneExpression KindSysML sample_text = Some (a, ok)
    /\ (ok = true -> left_open sample_text KindSysML = false -> expr sample_text KindSysML (source_tokens sample_text KindSysML) a).
Proof. exact (@ParseOneExpression_whole sample_text KindSysML _ _ (no_declarations_laws _ _)). Defined.
(** The sample is such a text. *)
Lemma sample_accepted : option_map snd (ParseOneExpression KindSysML sample_text) = Some true /\ left_open sample_text KindSysML = false.
Proof. split; vm_compute; reflexivity. Qed.
