(* ===== verification/LexerLocal.v ===== *)
(** * The lexer: locality

    A token depends on the text from its start to a few bytes past its end: where it
    starts does not matter, nor what follows it beyond the first byte that no token
    goes on over. *)
From S2P Require Import Prelude Bytes Source SourceFacts Comment CommentFacts Lexer LexerFacts LexerQuoted.
Local Open Scope nat_scope.

(** ** Where a token starts *)

Definition shifted (n : nat) (r : Token * nat) : Token * nat :=
  ({| tkKind := r.1.(tkKind); tkSpan := {| Offset := n + r.1.(tkSpan).(Offset); Len := r.1.(tkSpan).(Len) |}; KeywordID := r.1.(KeywordID);
      Unterminated := r.1.(Unterminated); BadEscape := r.1.(BadEscape) |}, n + r.2).

Section Shift.
Context (pre s : bytes).
Abbreviation n := (length pre).

Lemma shift_sub a b : n + a - (n + b) = a - b.
Proof. lia. Qed.
Lemma shift_lookup i : (pre ++ s) !! (n + i) = s !! i.
Proof. rewrite lookup_app_r by lia. f_equal. lia. Qed.
Lemma shift_peek i k : peek (pre ++ s) (n + i) k = peek s i k.
Proof. unfold peek. by rewrite <- Nat.add_assoc, shift_lookup. Qed.
Lemma shift_drop i : drop (n + i) (pre ++ s) = drop i s.
Proof. rewrite drop_app_ge by lia. f_equal. lia. Qed.
Lemma shift_advance p i : advance_while p (pre ++ s) (n + i) = n + advance_while p s i.
Proof. unfold advance_while. rewrite shift_drop. lia. Qed.
Lemma shift_slice i j : slice (pre ++ s) (n + i) (n + j) = slice s i j.
Proof. unfold slice. rewrite shift_drop. f_equal. lia. Qed.
Lemma shift_token k i j : token k (n + i) (n + j) = shifted n (token k i j).
Proof. unfold token, shifted, span. cbn. do 3 f_equal. lia. Qed.
Lemma shift_star_slash rest pos : star_slash rest (n + pos) = (n + (star_slash rest pos).1, (star_slash rest pos).2).
Proof.
  revert pos. induction rest as [|c rest IH]; intros pos; cbn [star_slash]; [done|]. destruct (_ && _); [cbn; f_equal; lia|].
  rewrite <- IH. f_equal. lia.
Qed.
Lemma shift_comment k i (r : nat * bool) : comment_token k (n + i) (n + r.1, r.2) = shifted n (comment_token k i r).
Proof. unfold comment_token, shifted, span. cbn. do 3 f_equal. lia. Qed.

Definition shift_line (l : option (nat * bool)) : option (nat * bool) := (fun x => (n + x.1, x.2)) <$> l.
Lemma shift_quoted_loop q rest pos bad line :
  quoted_loop q rest (n + pos) bad (shift_line line) =
  let e := quoted_loop q rest pos bad line in {| q_pos := n + q_pos e; q_closed := q_closed e; q_bad := q_bad e; q_line := shift_line (q_line e) |}.
Proof.
  assert (Hm : forall c i b l, mark_line (shift_line l) c (n + i) b = shift_line (mark_line l c i b)).
  { intros c i b [[]|]; [done|]. unfold mark_line. cbn. by destruct (_ || _). }
  remember (length rest) as m eqn:Em. revert rest pos bad line Em. induction (lt_wf m) as [m _ IH]. intros rest pos bad line ->.
  destruct rest as [|c rest]; [done|]. cbn [quoted_loop]. destruct (c =? "\"%ch)%Z.
  - destruct rest as [|c' rest]; [by rewrite <- Nat.add_succ_r|]. rewrite <- !Nat.add_succ_r, Hm. by apply (IH (length rest)); [cbn; lia|].
  - destruct (c =? q)%Z; [by rewrite <- Nat.add_succ_r|]. rewrite <- !Nat.add_succ_r, Hm. by apply (IH (length rest)); [cbn; lia|].
Qed.
Lemma shift_quoted i q k : scanQuoted (pre ++ s) (n + i) q k = shifted n (scanQuoted s i q k).
Proof.
  unfold scanQuoted. rewrite <- Nat.add_succ_r, shift_drop. change None with (shift_line None). rewrite shift_quoted_loop. cbv zeta.
  change (shift_line None) with (@None (nat * bool)).
  set (e := quoted_loop _ _ _ _ _). cbn [q_closed q_line q_pos q_bad]. unfold shifted, span. destruct (q_closed e); [cbn; by rewrite shift_sub|].
  destruct (q_line e) as [[p b]|]; cbn; by rewrite shift_sub.
Qed.
Lemma shift_exponent i : consumeExponent (pre ++ s) (n + i) = (n + (consumeExponent s i).1, (consumeExponent s i).2).
Proof.
  unfold consumeExponent, consumeDigits. rewrite <- !Nat.add_succ_r, !shift_lookup. destruct (s !! i) as [c|]; [|done].
  destruct (_ && _); [done|].
  assert (Hj : forall j, match (pre ++ s) !! (n + j) with
                         | Some d => if isDigit d then (advance_while isDigit (pre ++ s) (n + j), true) else (n + i, false)
                         | None => (n + i, false) end
               = (n + (match s !! j with Some d => if isDigit d then (advance_while isDigit s j, true) else (i, false) | None => (i, false) end).1,
                  (match s !! j with Some d => if isDigit d then (advance_while isDigit s j, true) else (i, false) | None => (i, false) end).2)).
  { intros j. rewrite shift_lookup. destruct (s !! j) as [d|]; [|done]. destruct (isDigit d); [|done]. by rewrite shift_advance. }
  set (t := s !! S i). clearbody t. destruct t as [x|]; [|apply Hj]. destruct (_ || _); apply Hj.
Qed.
Lemma shift_number i : scanNumber (pre ++ s) (n + i) = shifted n (scanNumber s i).
Proof.
  unfold scanNumber, consumeDigits. rewrite <- !Nat.add_succ_r, shift_lookup, !shift_advance. case_bool_decide.
  - rewrite shift_exponent. cbn [fst]. apply shift_token.
  - rewrite <- !Nat.add_succ_r, !shift_lookup, shift_advance.
    set (p := advance_while isDigit s i).
    assert (Hend : forall q r, (let '(p, x) := consumeExponent (pre ++ s) (n + q) in token (if r || x then Real else Decimal) (n + i) p)
                          = shifted n (let '(p, x) := consumeExponent s q in token (if r || x then Real else Decimal) i p)).
    { intros q r. rewrite shift_exponent. destruct (consumeExponent s q). apply shift_token. }
    destruct (s !! p) as [c|]; [|apply Hend]. destruct (s !! S p) as [d|]; [|apply Hend]. destruct (_ && _); [|apply Hend].
    apply (Hend (advance_while isDigit s (S p)) true).
Qed.

Lemma shift_ident i : scanIdentOrKeyword (pre ++ s) (n + i) = shifted n (scanIdentOrKeyword s i).
Proof.
  unfold scanIdentOrKeyword. rewrite <- Nat.add_succ_r, shift_advance, shift_slice. destruct (in_set _ _); [|apply shift_token].
  unfold shifted, span. cbn. by rewrite shift_sub.
Qed.
Lemma shift_note i : scanSLNote (pre ++ s) (n + i) = shifted n (scanSLNote s i).
Proof.
  unfold scanSLNote. rewrite <- Nat.add_assoc, shift_advance.
  assert (Hb : forall j x, (if bool_decide ((pre ++ s) !! (n + j) = Some x) then S (n + j) else n + j) = n + (if bool_decide (s !! j = Some x) then S j else j)).
  { intros j x. rewrite shift_lookup. case_bool_decide; lia. }
  rewrite Hb, Hb. apply shift_token.
Qed.
Lemma shift_until k i j : comment_token k (n + i) (consumeUntilStarSlash (pre ++ s) (n + j)) = shifted n (comment_token k i (consumeUntilStarSlash s j)).
Proof. unfold consumeUntilStarSlash. rewrite shift_drop, shift_star_slash. apply shift_comment. Qed.

Lemma next_token_shift i : i < length s -> next_token (pre ++ s) (n + i) = shifted n (next_token s i).
Proof.
  intros Hi. destruct (lookup_lt_is_Some_2 s i Hi) as [c Hc]. unfold next_token. rewrite shift_lookup, Hc, !shift_peek.
  destruct (isSpace c); [unfold scanWhitespace; rewrite shift_advance; apply shift_token|].
  destruct (_ && _ && _); [unfold scanMLNote; rewrite <- Nat.add_assoc; apply shift_until|].
  destruct (_ && _); [apply shift_note|].
  destruct (_ && _); [unfold scanBlockComment; rewrite <- Nat.add_assoc; apply shift_until|].
  destruct (IsIdentStart c); [apply shift_ident|]. destruct (c =? "'"%ch)%Z; [apply shift_quoted|].
  destruct (_ && _); [apply shift_number|]. destruct (_ && _); [apply shift_number|]. destruct (c =? DQ)%Z; [apply shift_quoted|].
  destruct (operator _ _ _) as [[k m]|]; [rewrite <- Nat.add_assoc; apply shift_token|].
  destruct (singleCharKind c); [rewrite <- Nat.add_succ_r; apply shift_token|].
  unfold scanError. rewrite <- Nat.add_succ_r, shift_advance. apply shift_token.
Qed.
End Shift.

(** ** What follows a token *)

(** A byte no token goes on over, once it has begun with another. *)
Definition neutral (c : Z) : bool := isSpace c || elem c ["("; ")"; "["; "]"; "{"; "}"; ";"; ","]%ch.
Definition neutral_head (r : bytes) : Prop := match r with c :: _ => neutral c = true | [] => True end.

(** Texts alike up to a neutral byte, or over [n] bytes. *)
Inductive alike : nat -> bytes -> bytes -> Prop :=
  | alike_enough r r' : alike 0 r r'
  | alike_neutral n r r' : neutral_head r -> neutral_head r' -> alike n r r'
  | alike_cons n c r r' : alike n r r' -> alike (S n) (c :: r) (c :: r').

Lemma alike_refl n r : alike n r r.
Proof. revert r. induction n as [|n IH]; intros [|c r]; [constructor..|by constructor|by constructor]. Qed.
Lemma alike_sym n r r' : alike n r r' -> alike n r' r.
Proof. induction 1; by constructor. Qed.
Lemma alike_le m n r r' : m <= n -> alike n r r' -> alike m r r'.
Proof. intros Hm H. revert m Hm. induction H as [r r'|n r r'|n c r r' H IH]; intros m Hm; [assert (m = 0) as -> by lia; constructor|by constructor|].
  destruct m as [|m]; [constructor|]. apply alike_cons, IH. lia. Qed.
Lemma alike_app n w r r' : alike n r r' -> alike n (w ++ r) (w ++ r').
Proof. induction w as [|c w IH]; [done|]. intros H. cbn [app]. apply alike_le with (S n); [lia|]. by apply alike_cons, IH. Qed.

(** A test neutral bytes fail gives the same on the byte that follows. *)
Definition head_fails (p : Z -> bool) (r : bytes) : Prop := forall c, r !! 0 = Some c -> p c = false.
Lemma alike_head n p r r' : alike (S n) r r' -> (forall c, neutral c = true -> p c = false) -> head_fails p r -> head_fails p r'.
Proof.
  intros H Hp Hr c Hc. remember (S n) as m eqn:E. destruct H as [|? r r' _ Hn|m x r r' H]; [done| |by apply Hr].
  destruct r' as [|x r']; [done|]. injection Hc as ->. by apply Hp.
Qed.

Lemma neutral_cases (P : Z -> Prop) :
  P 32%Z -> P 9%Z -> P 13%Z -> P 10%Z -> P "("%ch -> P ")"%ch -> P "["%ch -> P "]"%ch -> P "{"%ch -> P "}"%ch -> P ";"%ch -> P ","%ch ->
  forall c, neutral c = true -> P c.
Proof.
  intros. unfold neutral, isSpace in *. cbn [elem existsb] in *.
  repeat match goal with H : _ || _ = true |- _ => apply orb_true_iff in H as [H|H] end; try done;
  match goal with H : (_ =? _)%Z = true |- _ => apply Z.eqb_eq in H; by subst end.
Qed.
Ltac by_neutral := apply neutral_cases; reflexivity.
Lemma neutral_digit c : neutral c = true -> isDigit c = false.
Proof. revert c. by_neutral. Qed.
Lemma neutral_ident c : neutral c = true -> IsIdentCont c = false.
Proof. revert c. by_neutral. Qed.
Lemma neutral_start c : neutral c = true -> negb (canStartToken c) = false.
Proof. revert c. by_neutral. Qed.
Lemma neutral_is c x : neutral c = true -> neutral x = false -> (c =? x)%Z = false.
Proof. intros Hc Hx. apply Z.eqb_neq. by intros ->; rewrite Hx in Hc. Qed.

(** ** The scans *)

Section Scans.
Context (w r r' : bytes).

Lemma app_lookup_in i : i < length w -> (w ++ r) !! i = (w ++ r') !! i.
Proof. intros Hi. by rewrite !lookup_app_l. Qed.
Lemma app_lookup_end i : (w ++ r) !! (length w + i) = r !! i.
Proof. apply shift_lookup. Qed.

(** A loop that stops by the end of the token. *)
Lemma advance_local p i j :
  i <= j -> j <= length w -> advance_while p (w ++ r) i = j -> (j = length w -> head_fails p r') -> advance_while p (w ++ r') i = j.
Proof.
  intros Hij Hj E Hhead. destruct (advance_while_spec p (w ++ r) i) as [Hall Hstop]; [rewrite length_app; lia|]. rewrite E in *.
  apply advance_while_stop; [done|rewrite length_app; lia| |].
  - rewrite slice_app_r in * by done. done.
  - intros c Hc. destruct (decide (j = length w)) as [->|Hne].
    + apply Hhead; [done|]. by rewrite <- (Nat.add_0_r (length w)), shift_lookup in Hc.
    + apply Hstop. by rewrite (app_lookup_in j) by lia.
Qed.
Lemma advance_head p i j :
  i <= length (w ++ r) -> advance_while p (w ++ r) i = j -> j = length w -> head_fails p r.
Proof.
  intros Hi E -> c Hc. destruct (advance_while_spec p (w ++ r) i Hi) as [_ Hstop]. apply Hstop. by rewrite E, <- (Nat.add_0_r (length w)), shift_lookup.
Qed.
Lemma advance_alike p i :
  alike 3 r r' -> (forall c, neutral c = true -> p c = false) -> i <= length w ->
  advance_while p (w ++ r) i = length w -> advance_while p (w ++ r') i = length w.
Proof.
  intros Ha Hp Hi E. apply advance_local; [done..|]. intros _. eapply alike_head; [done..|]. eapply advance_head; [|done..].
  rewrite length_app. lia.
Qed.
End Scans.

(** *** Numbers *)

(** An exponent begins a text. *)
Definition digit_head (r : bytes) : bool := match r with d :: _ => isDigit d | [] => false end.
Definition exponent_at (r : bytes) : bool :=
  match r with
  | e :: r => ((e =? "e"%ch) || (e =? "E"%ch))%Z
      && match r with s :: r' => if ((s =? "+"%ch) || (s =? "-"%ch))%Z then digit_head r' else isDigit s | [] => false end
  | [] => false
  end.
Lemma exponent_alike r r' : alike 3 r r' -> exponent_at r = exponent_at r'.
Proof.
  assert (Hd : forall n s s', alike (S n) s s' -> digit_head s = digit_head s').
  { intros n s s' H. inversion H as [|? ? ? H1 H2|? ? ? ? H']; subst; [|done].
    destruct s as [|c s], s' as [|c' s']; cbn in *; rewrite ?neutral_digit by done; done. }
  intros H. inversion H as [|? ? ? H1 H2|? c s s' H']; subst.
  { destruct r as [|c s], r' as [|c' s']; cbn [exponent_at]; cbn in H1, H2; rewrite ?(neutral_is c), ?(neutral_is c') by done; done. }
  cbn [exponent_at]. f_equal. inversion H' as [|? ? ? H1 H2|? c2 t t' H2]; subst; [|by rewrite (Hd _ _ _ H2)].
  destruct s as [|d s], s' as [|d' s']; cbn in *; rewrite ?(neutral_is d), ?(neutral_is d') by done; cbn; rewrite ?neutral_digit by done; done.
Qed.

(** Where an exponent's digits begin. *)
Definition exponent_digits (r : bytes) : nat :=
  match r with _ :: s :: _ => if ((s =? "+"%ch) || (s =? "-"%ch))%Z then 2 else 1 | _ => 1 end.
Lemma consumeExponent_at r :
  consumeExponent r 0 = if exponent_at r then (advance_while isDigit r (exponent_digits r), true) else (0, false).
Proof.
  unfold consumeExponent, consumeDigits. destruct r as [|e r]; [done|]. cbn [lookup list_lookup exponent_at].
  assert (He : negb (e =? "e"%ch)%Z && negb (e =? "E"%ch)%Z = negb ((e =? "e"%ch)%Z || (e =? "E"%ch)%Z)) by (by rewrite negb_orb).
  rewrite He. destruct (_ || _); [|done]. cbn [negb andb]. destruct r as [|x r]; [done|]. cbn [lookup list_lookup exponent_digits].
  destruct (_ || _); cbn [lookup list_lookup]; [|done]. by destruct r.
Qed.
Lemma exponent_past r : exponent_at r = true -> exponent_digits r < advance_while isDigit r (exponent_digits r).
Proof.
  intros H. rewrite advance_while_step. destruct r as [|e [|x r]]; [done|by cbn in H; rewrite andb_false_r in H|]. cbn [exponent_at exponent_digits] in *.
  apply andb_true_iff in H as [_ H]. destruct (_ || _); cbn [lookup list_lookup].
  - destruct r as [|d r]; [done|]. cbn in *. rewrite H. pose proof (advance_while_ge isDigit (e :: x :: d :: r) 3). lia.
  - rewrite H. pose proof (advance_while_ge isDigit (e :: x :: r) 2). lia.
Qed.

Lemma exponent_local0 w r r' b : alike 3 r r' -> consumeExponent (w ++ r) 0 = (length w, b) -> consumeExponent (w ++ r') 0 = (length w, b).
Proof.
  intros Ha. rewrite !consumeExponent_at. destruct (exponent_at (w ++ r)) eqn:E.
  - intros [= Hj <-]. pose proof (exponent_past _ E) as Hp. rewrite Hj in Hp. destruct w as [|e w]; [cbn in Hp; lia|].
    assert (Hd : exponent_digits (e :: w ++ r) = exponent_digits (e :: w ++ r') /\ exponent_at (e :: w ++ r') = true).
    { destruct w as [|x w]; [unfold exponent_digits in Hp; cbn in Hp; destruct r; [|destruct (_ || _)]; lia|].
      cbn [app exponent_digits exponent_at] in *. split; [done|]. apply andb_true_iff in E as [-> E]. cbn [andb].
      destruct (_ || _); [|done]. destruct w; [cbn in Hp; lia|done]. }
    destruct Hd as [Hd He]. cbn [app] in *. rewrite He, <- Hd. f_equal. apply (advance_alike (e :: w) r r'); try done; [apply neutral_digit|lia].
  - intros [= Hw <-]. symmetry in Hw. apply length_zero_iff_nil in Hw as ->. cbn [app] in *. by rewrite <- (exponent_alike r r'), E.
Qed.
Lemma exponent_local w r r' i b :
  alike 3 r r' -> i <= length w -> consumeExponent (w ++ r) i = (length w, b) -> consumeExponent (w ++ r') i = (length w, b).
Proof.
  intros Ha Hi. assert (Hw : exists pre u, w = pre ++ u /\ i = length pre).
  { exists (take i w), (drop i w). rewrite take_drop, length_take. split; [done|lia]. }
  destruct Hw as (pre & u & -> & ->). rewrite <- !app_assoc, !length_app.
  pose proof (shift_exponent pre (u ++ r) 0) as E1. pose proof (shift_exponent pre (u ++ r') 0) as E2. rewrite Nat.add_0_r in E1, E2. rewrite E1, E2.
  destruct (consumeExponent (u ++ r) 0) as [j x] eqn:Ej. cbn [fst snd]. intros [= E <-]. assert (j = length u) as -> by lia.
  by rewrite (exponent_local0 u r r' x).
Qed.

Lemma digits_local w r r' i p :
  alike 3 r r' -> i <= p -> p <= length w -> consumeDigits (w ++ r) i = p -> consumeDigits (w ++ r') i = p.
Proof.
  intros Ha Hi Hp E. eapply advance_local; [done..|]. intros ->. eapply alike_head; [exact Ha|apply neutral_digit|].
  eapply advance_head; [|done..]. rewrite length_app. lia.
Qed.

(** A fraction begins a text. *)
Definition fraction_at (r : bytes) : bool := match r with c :: d :: _ => (c =? "."%ch)%Z && isDigit d | _ => false end.
Lemma fraction_alike r r' : alike 3 r r' -> fraction_at r = fraction_at r'.
Proof.
  intros H. inversion H as [|? ? ? H1 H2|? c s s' H']; subst.
  { destruct r as [|c [|? s]], r' as [|c' [|? s']]; cbn [fraction_at]; cbn in H1, H2; rewrite ?(neutral_is c), ?(neutral_is c') by done; done. }
  inversion H' as [|? ? ? H1 H2|? c2 t t' H2]; subst; [|done].
  destruct s as [|d s], s' as [|d' s']; cbn [fraction_at]; cbn in H1, H2; rewrite ?(neutral_digit d), ?(neutral_digit d'), ?andb_false_r by done; done.
Qed.
Lemma fraction_lookup s p (A : Type) (a b : A) :
  match s !! p, s !! S p with Some c, Some d => if (c =? "."%ch)%Z && isDigit d then a else b | _, _ => b end
  = if fraction_at (drop p s) then a else b.
Proof.
  rewrite <- (Nat.add_0_r p) at 1. rewrite <- lookup_drop. replace (S p) with (p + 1) by lia. rewrite <- lookup_drop.
  by destruct (drop p s) as [|c [|d u]].
Qed.
Lemma alike_drop n w r r' p : alike n r r' -> p <= length w -> alike n (drop p (w ++ r)) (drop p (w ++ r')).
Proof. intros Ha Hp. rewrite !drop_app_le by done. by apply alike_app. Qed.

Lemma consumeExponent_ge s p : p <= (consumeExponent s p).1.
Proof.
  unfold consumeExponent, consumeDigits. destruct (s !! p) as [c|]; [|done]. destruct (_ && _); [done|].
  assert (Hd : forall i, p <= i -> p <= (match s !! i with Some d => if isDigit d then (advance_while isDigit s i, true) else (p, false) | None => (p, false) end).1).
  { intros i Hi. destruct (s !! i) as [d|]; [|done]. destruct (isDigit d); [|done]. pose proof (advance_while_ge isDigit s i). cbn. lia. }
  apply Hd. destruct (s !! S p) as [x|]; [destruct (_ || _)|]; lia.
Qed.
Lemma scanNumber_local c w r r' t :
  alike 3 r r' -> scanNumber ((c :: w) ++ r) 0 = (t, length (c :: w)) -> scanNumber ((c :: w) ++ r') 0 = (t, length (c :: w)).
Proof.
  intros Ha Hs. remember (c :: w) as v eqn:Ev. assert (Hv : 1 <= length v) by (subst; cbn; lia).
  unfold scanNumber in *. assert (Hc : forall x, (v ++ x) !! 0 = Some c) by (by subst). rewrite Hc in *.
  assert (Hexp : forall p, p <= (consumeExponent (v ++ r) p).1) by (intros p; apply consumeExponent_ge).
  assert (Hdig : forall p, p <= consumeDigits (v ++ r) p) by (intros p; apply advance_while_ge).
  case_bool_decide.
  - pose proof (Hdig 1). set (p := consumeDigits (v ++ r) 1) in *. pose proof (Hexp p).
    destruct (consumeExponent (v ++ r) p) as [j x] eqn:Ej. injection Hs as Ht Hl. cbn [fst] in *. subst j.
    rewrite (digits_local v r r' 1 p) by (done || lia). subst t. by rewrite (exponent_local v r r' p x) by (done || lia).
  - pose proof (Hdig 0). set (p := consumeDigits (v ++ r) 0) in *. rewrite fraction_lookup in *.
    pose proof (Hdig (S p)). destruct (fraction_at (drop p (v ++ r))) eqn:Ef.
    + set (q := consumeDigits (v ++ r) (S p)) in *. pose proof (Hexp q). destruct (consumeExponent (v ++ r) q) as [j x] eqn:Ej.
      injection Hs as Ht Hl. cbn [fst] in *. subst j. rewrite (digits_local v r r' 0 p) by (done || lia).
      rewrite <- (fraction_alike (drop p (v ++ r))), Ef by (apply alike_drop; [done|lia]).
      rewrite (digits_local v r r' (S p) q) by (done || lia). subst t. by rewrite (exponent_local v r r' q x) by (done || lia).
    + pose proof (Hexp p). destruct (consumeExponent (v ++ r) p) as [j x] eqn:Ej.
      injection Hs as Ht Hl. cbn [fst] in *. subst j. rewrite (digits_local v r r' 0 p) by (done || lia).
      rewrite <- (fraction_alike (drop p (v ++ r))), Ef by (apply alike_drop; [done|lia]).
      subst t. by rewrite (exponent_local v r r' p x) by (done || lia).
Qed.
