(* ===== verification/LexerReads.v ===== *)
(** * The lexer: a token under other white space

    When the text of a token still reads as that token before another text. *)
From S2P Require Import Prelude Bytes Source SourceFacts Comment CommentFacts Lexer LexerFacts LexerQuoted LexerLocal.
Local Open Scope nat_scope.

(** [w] is read as one token of a kind where [r] follows it. *)
Definition reads (k : Kind) (w r : bytes) : Prop :=
  exists t, next_token (w ++ r) 0 = (t, length w) /\ tkKind t = k /\ Unterminated t = false.

(** ** The branch [Next] takes *)

Inductive branch := InSpace | InMLNote | InSLNote | InComment | InIdent | InName | InNumber | InString | InOperator (k : Kind) (n : nat) | InError.
Definition dispatch (c p1 p2 : Z) : branch :=
  if isSpace c then InSpace
  else if (c =? "/"%ch)%Z && (p1 =? "/"%ch)%Z && (p2 =? "*"%ch)%Z then InMLNote
  else if (c =? "/"%ch)%Z && (p1 =? "/"%ch)%Z then InSLNote
  else if (c =? "/"%ch)%Z && (p1 =? "*"%ch)%Z then InComment
  else if IsIdentStart c then InIdent
  else if (c =? "'"%ch)%Z then InName
  else if isDigit c then InNumber
  else if (c =? "."%ch)%Z && isDigit p1 then InNumber
  else if (c =? DQ)%Z then InString
  else match operator c p1 p2 with
       | Some (k, n) => InOperator k n
       | None => match singleCharKind c with Some k => InOperator k 1 | None => InError end
       end.
Definition scan (b : branch) (s : bytes) : Token * nat :=
  match b with
  | InSpace => scanWhitespace s 0
  | InMLNote => scanMLNote s 0
  | InSLNote => scanSLNote s 0
  | InComment => scanBlockComment s 0
  | InIdent => scanIdentOrKeyword s 0
  | InName => scanQuoted s 0 "'"%ch UnrestrictedName
  | InNumber => scanNumber s 0
  | InString => scanQuoted s 0 DQ String
  | InOperator k n => token k 0 n
  | InError => scanError s 0
  end.
Definition branch_at (s : bytes) : branch := match s with c :: _ => dispatch c (peek s 0 1) (peek s 0 2) | [] => InError end.
Lemma next_token_branch s : s <> [] -> next_token s 0 = scan (branch_at s) s.
Proof.
  destruct s as [|c s]; [done|]. intros _. unfold next_token, branch_at, dispatch. cbn [lookup list_lookup].
  set (p1 := peek _ _ 1). set (p2 := peek _ _ 2). rewrite <- (andb_assoc (c =? "."%ch)%Z). change (("0"%ch <=? p1)%Z && (p1 <=? "9"%ch)%Z) with (isDigit p1).
  change (("0"%ch <=? c)%Z && (c <=? "9"%ch)%Z) with (isDigit c).
  repeat match goal with |- (if ?b then _ else _) = scan (if ?b then _ else _) _ => destruct b; [done|] end.
  destruct (operator c p1 p2) as [[k n]|]; [done|]. by destruct (singleCharKind c).
Qed.

(** A byte that leaves a one-byte operator as it is. *)
Definition quiet (c : Z) : bool := neutral c || (c =? 0)%Z.
Lemma quiet_is c x : quiet c = true -> quiet x = false -> (c =? x)%Z = false.
Proof. intros Hc Hx. apply Z.eqb_neq. by intros ->; rewrite Hx in Hc. Qed.
Lemma quiet_digit c : quiet c = true -> isDigit c = false.
Proof. unfold quiet. intros [H|H]%orb_true_iff; [by apply neutral_digit|]. apply Z.eqb_eq in H. by subst. Qed.

Ltac quiet_tests p :=
  rewrite ?(quiet_is p "/"%ch), ?(quiet_is p "*"%ch), ?(quiet_is p ":"%ch), ?(quiet_is p ">"%ch), ?(quiet_is p "="%ch),
    ?(quiet_is p "?"%ch), ?(quiet_is p "."%ch), ?(quiet_is p "@"%ch), ?(quiet_digit p) by done;
  change (isDigit 0) with false; repeat change (0 =? ?x)%Z with false; rewrite ?andb_false_r; cbn [andb].
Lemma dispatch_quiet c p1 p2 : quiet p1 = true -> dispatch c p1 p2 = dispatch c 0 0.
Proof. intros H. unfold dispatch, operator. quiet_tests p1. done. Qed.
Lemma dispatch_quiet2 c p1 p2 : quiet p2 = true -> dispatch c p1 p2 = dispatch c p1 0.
Proof. intros H. unfold dispatch, operator. quiet_tests p2. done. Qed.

Lemma neutral_peek r : neutral_head r -> quiet (default 0%Z (r !! 0)) = true.
Proof. destruct r as [|c r]; [done|]. cbn. unfold quiet. by intros ->. Qed.
Lemma branch_alike c s s' : alike 2 s s' -> branch_at (c :: s) = branch_at (c :: s').
Proof.
  intros H. unfold branch_at, peek. cbn [Nat.add lookup list_lookup]. inversion H as [|? ? ? H1 H2|? d t t' H']; subst.
  { rewrite (dispatch_quiet _ (default 0%Z (s !! 0))), (dispatch_quiet _ (default 0%Z (s' !! 0))) by by apply neutral_peek. done. }
  cbn [lookup list_lookup default]. inversion H' as [|? ? ? H1 H2|? d2 t2 t2' H2]; subst; [|done].
  by rewrite (dispatch_quiet2 _ _ (default 0%Z (t !! 0))), (dispatch_quiet2 _ _ (default 0%Z (t' !! 0))) by by apply neutral_peek.
Qed.

(** ** Tokens that depend on what follows *)

(** Kinds that neither white space, notes, comments nor quotes delimit. *)
Definition plain (k : Kind) : bool :=
  match k with Whitespace | SLNote | MLNote | RegularComment | UnrestrictedName | String | EOF => false | _ => true end.

Lemma plain_scan b s t n : scan b s = (t, n) -> plain (tkKind t) = true -> match b with InIdent | InNumber | InOperator _ _ | InError => True | _ => False end.
Proof.
  destruct (scan_kinds s 0) as (K1 & K2 & K3 & K4 & K5 & _). 
  intros Hs Hk. apply (f_equal (fun r => tkKind r.1)) in Hs. cbn [fst] in Hs. rewrite <- Hs in Hk.
  by destruct b; cbn [scan] in *; rewrite ?K1, ?K2, ?K3, ?K4, ?K5 in Hk.
Qed.

Lemma ident_local c w r r' t :
  alike 3 r r' -> scanIdentOrKeyword ((c :: w) ++ r) 0 = (t, length (c :: w)) -> scanIdentOrKeyword ((c :: w) ++ r') 0 = (t, length (c :: w)).
Proof.
  intros Ha Hs. unfold scanIdentOrKeyword in *. assert (Hp : advance_while IsIdentCont ((c :: w) ++ r) 1 = length (c :: w)).
  { destruct (in_set _ _); exact (f_equal snd Hs). }
  rewrite (advance_alike (c :: w) r r' IsIdentCont 1); [|done|apply neutral_ident|cbn; lia|done]. rewrite Hp in Hs.
  rewrite slice_app_r in * by done. done.
Qed.
Lemma error_local c w r r' t :
  alike 3 r r' -> scanError ((c :: w) ++ r) 0 = (t, length (c :: w)) -> scanError ((c :: w) ++ r') 0 = (t, length (c :: w)).
Proof.
  intros Ha Hs. unfold scanError in *. pose proof (f_equal snd Hs) as Hp. unfold token in Hp. cbn [snd] in Hp. rewrite Hp in Hs.
  by rewrite (advance_alike (c :: w) r r' _ 1); [|done|apply neutral_start|cbn; lia|done].
Qed.

Theorem reads_alike k w r r' : plain k = true -> w <> [] -> alike 3 r r' -> reads k w r -> reads k w r'.
Proof.
  intros Hk Hw Ha (t & Ht & Hkt & Hu). exists t. split; [|done]. destruct w as [|c w]; [done|].
  rewrite next_token_branch in * by done. cbn [app] in *.
  rewrite <- (branch_alike c (w ++ r) (w ++ r')) by (apply alike_app, (alike_le 2 3); [lia|done]).
  subst k. pose proof (plain_scan _ _ _ _ Ht Hk) as Hb. destruct (branch_at _); try done; cbn [scan] in *.
  - by apply (ident_local c w r).
  - by apply (scanNumber_local c w r).
  - by apply (error_local c w r).
Qed.

(** ** Their bytes *)

Definition inked (c : Z) : Prop := isSpace c = false.
(** No white space between two positions. *)
Definition inked_in (s : bytes) (i j : nat) : Prop := forall k c, i <= k < j -> s !! k = Some c -> inked c.
Lemma inked_join s i j k : inked_in s i j -> inked_in s j k -> inked_in s i k.
Proof. intros H1 H2 m c Hm. destruct (decide (m < j)); [apply H1; lia|apply H2; lia]. Qed.
Lemma inked_one s i : (forall c, s !! i = Some c -> inked c) -> inked_in s i (S i).
Proof. intros H m c Hm. assert (m = i) as -> by lia. apply H. Qed.
Lemma inked_none s i : inked_in s i i.
Proof. intros m c Hm. lia. Qed.
Lemma inked_advance p s i : (forall c, isSpace c = true -> p c = false) -> i <= length s -> inked_in s i (advance_while p s i).
Proof.
  intros Hp Hi m c Hm Hc. destruct (advance_while_spec p s i Hi) as [Hall _].
  assert (Hx : slice s i (advance_while p s i) !! (m - i) = Some c) by (rewrite slice_lookup by lia; by replace (i + (m - i)) with m by lia).
  pose proof (Forall_lookup_1 _ _ _ _ Hall Hx) as Hpc. cbn in Hpc. destruct (isSpace c) eqn:E; [|done]. by rewrite Hp in Hpc.
Qed.
Lemma space_neutral c : isSpace c = true -> neutral c = true.
Proof. unfold neutral. by intros ->. Qed.
Lemma inked_digits s i : i <= length s -> inked_in s i (consumeDigits s i).
Proof. intros Hi. apply inked_advance; [|done]. intros c Hc. by apply neutral_digit, space_neutral. Qed.
Lemma inked_digit c : isDigit c = true -> inked c.
Proof. intros H. unfold inked. destruct (isSpace c) eqn:E; [|done]. by rewrite neutral_digit in H by by apply space_neutral. Qed.
Lemma inked_exponent s i : i <= length s -> inked_in s i (consumeExponent s i).1.
Proof.
  intros Hi. unfold consumeExponent. destruct (s !! i) as [c|] eqn:Hc; [|apply inked_none]. destruct (_ && _) eqn:E; [apply inked_none|].
  assert (H1 : inked_in s i (S i)).
  { apply inked_one. rewrite Hc. intros x [= <-]. unfold inked. destruct (isSpace c) eqn:Es; [|done].
    rewrite (neutral_is c "e"%ch), (neutral_is c "E"%ch) in E by (done || by apply space_neutral). done. }
  destruct (s !! S i) as [x|] eqn:Hx; [|rewrite Hx; apply inked_none].
  assert (Hd : forall j, inked_in s i j -> inked_in s i (match s !! j with Some d => if isDigit d then (consumeDigits s j, true) else (i, false) | None => (i, false) end).1).
  { intros j Hj. destruct (s !! j) as [d|] eqn:Hd; [|apply inked_none]. destruct (isDigit d); [|apply inked_none].
    apply (inked_join _ _ j); [done|]. apply inked_digits. apply lookup_lt_Some in Hd. lia. }
  apply Hd. destruct (_ || _) eqn:Es; [|done]. apply (inked_join _ _ (S i)); [done|]. apply inked_one. rewrite Hx. intros y [= <-].
  unfold inked. destruct (isSpace x) eqn:Ex; [|done].
  rewrite (neutral_is x "+"%ch), (neutral_is x "-"%ch) in Es by (done || by apply space_neutral). done.
Qed.
Lemma inked_number s c : s !! 0 = Some c -> inked c -> inked_in s 0 (scanNumber s 0).2.
Proof.
  intros Hc Hi. pose proof (lookup_lt_Some _ _ _ Hc). unfold scanNumber. rewrite Hc.
  assert (H0 : inked_in s 0 1) by (apply inked_one; rewrite Hc; by intros x [= <-]).
  assert (Hexp : forall j b, j <= length s -> inked_in s 0 j ->
    inked_in s 0 (let '(p, x) := consumeExponent s j in token (if b || x then Real else Decimal) 0 p).2).
  { intros j b Hj Hin. pose proof (inked_exponent s j Hj) as He. destruct (consumeExponent s j) as [p x]. by apply (inked_join _ _ j). }
  pose proof (consumeDigits_bounds s 0) as B0. pose proof (consumeDigits_bounds s 1) as B1.
  case_bool_decide.
  - apply (inked_join _ _ (consumeDigits s 1)); [|apply inked_exponent; lia]. apply (inked_join _ _ 1); [done|apply inked_digits; lia].
  - set (p := consumeDigits s 0) in *. assert (Hp : inked_in s 0 p) by (apply inked_digits; lia).
    destruct (s !! p) as [x|] eqn:Hx; [|apply Hexp; [lia|done]]. destruct (s !! S p) as [d|] eqn:Hd; [|apply Hexp; [lia|done]].
    destruct (_ && _) eqn:E; [|apply Hexp; [lia|done]]. apply lookup_lt_Some in Hd. apply (Hexp _ true); [apply consumeDigits_bounds; lia|].
    apply (inked_join _ _ p); [done|]. apply (inked_join _ _ (S p)); [|apply inked_digits; lia]. apply inked_one. rewrite Hx. intros y [= <-].
    apply andb_true_iff in E as [E _]. apply Z.eqb_eq in E. by subst.
Qed.

Lemma dispatch_space c p1 p2 : isSpace c = true -> dispatch c p1 p2 = InSpace.
Proof. unfold dispatch. by intros ->. Qed.
(** White space begins no other token. *)
Lemma reads_head k c w r : k <> Whitespace -> reads k (c :: w) r -> inked c.
Proof.
  intros Hk (t & Ht & Hkt & _). unfold inked. destruct (isSpace c) eqn:E; [|done]. rewrite next_token_branch in Ht by done.
  cbn [app branch_at] in Ht. rewrite dispatch_space in Ht by done. cbn [scan] in Ht. apply (f_equal fst) in Ht. cbn in Ht. by subst.
Qed.

Lemma reads_text k w r t : w <> [] -> next_token (w ++ r) 0 = (t, length w) -> tkKind t = k -> tkSpan t = span 0 (length w) /\ token_text (w ++ r) t = w.
Proof.
  intros Hw Ht Hk. destruct w as [|c w]; [done|]. pose proof (next_token_scanned ((c :: w) ++ r) 0 c eq_refl) as (Hs & Hb & _).
  rewrite Ht in *. cbn [fst snd] in *. split; [done|]. rewrite (token_text_span _ _ _ _ Hs) by lia. by rewrite slice_app_r, slice_full.
Qed.

(** An operator is its spelling. *)
Lemma reads_operator k w r : is_operator k = true -> w <> [] -> reads k w r -> w = Kind_String k.
Proof.
  intros Hk Hw (t & Ht & Hkt & _). destruct (reads_text k w r t Hw Ht Hkt) as [_ <-]. subst k.
  replace t with (next_token (w ++ r) 0).1 in * by by rewrite Ht. by apply operator_token_text.
Qed.
Lemma operator_spelling_inked k : is_operator k = true -> Forall inked (Kind_String k).
Proof. intros Hk. destruct k; try (vm_compute in Hk; discriminate); clear Hk; repeat constructor. Qed.
Lemma op_error_one c p1 p2 n : op c p1 p2 = Some (Error, n) -> n = 1.
Proof.
  unfold op, operator, singleCharKind. intros H.
  repeat match type of H with
  | context [if ?b then _ else _] => lazymatch b with context [if _ then _ else _] => fail | _ => destruct b end
  end; congruence.
Qed.
Lemma dispatch_op c p1 p2 k n : dispatch c p1 p2 = InOperator k n -> op c p1 p2 = Some (k, n).
Proof.
  unfold dispatch, op. repeat match goal with |- (if ?b then _ else _) = _ -> _ => destruct b; [done|] end.
  destruct (operator c p1 p2) as [[k' n']|]; [by intros [= <- <-]|]. destruct (singleCharKind c); [by intros [= <- <-]|done].
Qed.

(** No white space inside. *)
Lemma reads_inked k w r : plain k = true -> w <> [] -> reads k w r -> Forall inked w.
Proof.
  intros Hk Hw Hr. destruct w as [|c w]; [done|]. assert (Hc : inked c) by (eapply reads_head; [|exact Hr]; by intros ->).
  destruct (is_operator k) eqn:Hop.
  { rewrite (reads_operator k (c :: w) r) by done. by apply operator_spelling_inked. }
  destruct Hr as (t & Ht & Hkt & _). subst k.
  assert (Hin : inked_in ((c :: w) ++ r) 0 (length (c :: w))).
  2:{ apply Forall_lookup. intros i x Hi. pose proof (lookup_lt_Some _ _ _ Hi). apply (Hin i); [lia|]. by rewrite lookup_app_l. }
  rewrite next_token_branch in Ht by done. set (s := (c :: w) ++ r) in *.
  assert (Hs0 : s !! 0 = Some c) by done. assert (H0 : inked_in s 0 1) by (apply inked_one; rewrite Hs0; by intros x [= <-]).
  assert (Hs1 : 1 <= length s) by (unfold s; cbn; lia).
  replace (length (c :: w)) with (scan (branch_at s) s).2 by by rewrite Ht.
  pose proof (plain_scan _ _ _ _ Ht Hk) as Hp. destruct (branch_at s) as [| | | | | | | |k n|] eqn:Hb; try done; cbn [scan] in *.
  - apply (inked_join _ _ 1); [done|]. unfold scanIdentOrKeyword. destruct (in_set _ _); cbn [token snd];
      (apply inked_advance; [|done]; intros x Hx; by apply neutral_ident, space_neutral).
  - by apply (inked_number s c).
  - cbn [token snd]. apply dispatch_op in Hb. injection Ht as <- _. cbn [tkKind] in *.
    destruct (op_spelling _ _ _ _ _ Hb) as [->|[Ho _]]; [|congruence]. apply op_error_one in Hb. by subst n.
  - apply (inked_join _ _ 1); [done|]. apply inked_advance; [|done]. intros x Hx. by apply neutral_start, space_neutral.
Qed.

(** ** Tokens that close themselves *)

Lemma dispatch_slash c p1 p2 b :
  dispatch c p1 p2 = b -> match b with InMLNote => [c; p1; p2] = bs "//*" | InSLNote => [c; p1] = bs "//" /\ p2 <> "*"%ch | InComment => [c; p1] = bs "/*"
                          | InName => c = "'"%ch | InString => c = DQ | _ => True end.
Proof.
  intros <-. unfold dispatch. destruct (isSpace c); [done|]. destruct (Z.eqb_spec c "/"%ch) as [->|]; cbn [andb].
  - destruct (Z.eqb_spec p1 "/"%ch) as [->|]; cbn [andb]; [by destruct (Z.eqb_spec p2 "*"%ch) as [->|]|].
    destruct (Z.eqb_spec p1 "*"%ch) as [->|]; [done|]. cbn. done.
  - destruct (IsIdentStart c); [done|]. destruct (Z.eqb_spec c "'"%ch); [done|]. destruct (isDigit c); [done|]. destruct (_ && _); [done|].
    destruct (Z.eqb_spec c DQ); [done|]. destruct (operator c p1 p2) as [[]|]; [done|]. by destruct (singleCharKind c).
Qed.
Lemma branch_slash s :
  match branch_at s with
  | InMLNote => exists t, s = bs "//*" ++ t
  | InSLNote => exists t, s = bs "//" ++ t /\ head t <> Some "*"%ch
  | InComment => exists t, s = bs "/*" ++ t
  | InName => exists t, s = "'"%ch :: t
  | InString => exists t, s = DQ :: t
  | _ => True
  end.
Proof.
  destruct s as [|c [|p1 [|p2 s]]]; unfold branch_at; [done|..];
    match goal with |- context [dispatch ?c ?a ?b] => pose proof (dispatch_slash c a b _ eq_refl) as H; destruct (dispatch c a b) end;
    try done; unfold peek in *; cbn in *.
  all: first [by simplify_eq | by destruct H as [H _]; simplify_eq | destruct H as [H Hp]; simplify_eq; eexists; split; [reflexivity|cbn; congruence] | simplify_eq; eexists; reflexivity].
Qed.

Definition comment_open (k : Kind) : bytes := match k with MLNote => bs "//*" | _ => bs "/*" end.
Lemma star_slash_closes rest pos j : star_slash rest pos = (j, true) ->
  exists body tail, rest = body ++ bs "*/" ++ tail /\ close_free body = true /\ j = pos + length body + 2.
Proof.
  revert pos. induction rest as [|c rest IH]; intros pos; cbn [star_slash]; [done|]. destruct (_ && _) eqn:E.
  - intros [= <-]. apply andb_true_iff in E as [Hc Hd]. apply Z.eqb_eq in Hc as ->. apply Z.eqb_eq in Hd.
    destruct rest as [|d rest]; [done|]. cbn in Hd. subst d. exists [], rest. split_and!; [done|done|cbn; lia].
  - intros H. apply IH in H as (body & tail & -> & Hb & ->). exists (c :: body), tail. split_and!; [done| |cbn; lia].
    cbn [close_free]. rewrite Hb, andb_true_r. apply negb_true_iff. destruct body as [|d body]; [cbn; by rewrite andb_false_r|done].
Qed.

(** A comment is its delimiters around a text without the closing one. *)
Lemma comment_shape k o w r rest t :
  w ++ r = o ++ rest -> comment_token k 0 (consumeUntilStarSlash (w ++ r) (length o)) = (t, length w) -> Unterminated t = false ->
  exists body, w = o ++ body ++ bs "*/" /\ close_free body = true.
Proof.
  intros E Hs Hu. unfold consumeUntilStarSlash in Hs. rewrite E, drop_app_length in Hs.
  destruct (star_slash rest (length o)) as [j x] eqn:Ex. unfold comment_token in Hs. cbn [fst snd] in Hs. injection Hs as <- ->. cbn in Hu.
  destruct x; [|done]. apply star_slash_closes in Ex as (body & tail & -> & Hb & Hj). exists body. split; [|done].
  replace (o ++ body ++ bs "*/" ++ tail) with ((o ++ body ++ bs "*/") ++ tail) in E by (by rewrite <- !app_assoc).
  apply app_inj_1 in E as [-> _]; [done|]. rewrite !length_app. cbn [length bs]. cbn. lia.
Qed.
(** The branch a delimited token was read in. *)
Definition kind_branch (k : Kind) : option branch :=
  match k with
  | MLNote => Some InMLNote | SLNote => Some InSLNote | RegularComment => Some InComment
  | UnrestrictedName => Some InName | String => Some InString | _ => None
  end.
Lemma branch_kind s b : s <> [] -> kind_branch (tkKind (scan (branch_at s) s).1) = Some b -> branch_at s = b.
Proof.
  intros Hs. destruct (scan_kinds s 0) as (K1 & K2 & K3 & K4 & K5 & K6 & K7 & K8). destruct (branch_at s) as [| | | | | | | |k n|] eqn:Hb; cbn [scan].
  9:{ destruct s as [|c s]; [done|]. apply dispatch_op, op_spelling in Hb as [->|[Ho _]]; [done|]. by destruct k. }
  all: rewrite ?K1, ?K2, ?K3, ?K4, ?K5, ?K8; try (cbn; congruence); elem_cases K6; elem_cases K7; rewrite ?K6, ?K7; done.
Qed.
Lemma reads_scan k b w r : kind_branch k = Some b -> w <> [] -> reads k w r ->
  branch_at (w ++ r) = b /\ exists t, scan b (w ++ r) = (t, length w) /\ Unterminated t = false.
Proof.
  intros Hk Hw (t & Ht & Hkt & Hu). assert (Hne : w ++ r <> []) by (by destruct w). rewrite next_token_branch in Ht by done.
  assert (Hb : branch_at (w ++ r) = b) by (apply branch_kind; [done|by rewrite Ht, <- Hk, <- Hkt]). rewrite Hb in Ht. eauto.
Qed.

Lemma reads_comment k w r :
  (k = MLNote \/ k = RegularComment) -> w <> [] -> reads k w r -> exists body, w = comment_open k ++ body ++ bs "*/" /\ close_free body = true.
Proof.
  intros Hk Hw Hr. pose proof (branch_slash (w ++ r)) as Hs.
  destruct Hk as [-> | ->].
  - apply (reads_scan MLNote InMLNote) in Hr as [Hb (t & Ht & Hu)]; [|done..]. rewrite Hb in Hs. destruct Hs as [rest Hs].
    by eapply (comment_shape MLNote (bs "//*")).
  - apply (reads_scan RegularComment InComment) in Hr as [Hb (t & Ht & Hu)]; [|done..]. rewrite Hb in Hs. destruct Hs as [rest Hs].
    by eapply (comment_shape RegularComment (bs "/*")).
Qed.
Lemma comment_reads k body r : (k = MLNote \/ k = RegularComment) -> close_free body = true -> reads k (comment_open k ++ body ++ bs "*/") r.
Proof.
  intros Hk Hb. set (w := comment_open k ++ body ++ bs "*/").
  exists {| tkKind := k; tkSpan := span 0 (length w); KeywordID := []; Unterminated := false; BadEscape := false |}. split; [|done]. subst w.
  assert (Hstar : forall o, star_slash (drop (length o) (o ++ body ++ bs "*/" ++ r)) (length o) = (length (o ++ body ++ bs "*/"), true)).
  { intros o. rewrite drop_app_length, star_slash_free by done. f_equal. rewrite !length_app. cbn. lia. }
  rewrite <- !app_assoc. destruct Hk as [-> | ->].
  - transitivity (comment_token MLNote 0 (consumeUntilStarSlash (bs "//*" ++ body ++ bs "*/" ++ r) (length (bs "//*")))); [reflexivity|].
    unfold consumeUntilStarSlash. rewrite (Hstar (bs "//*")). reflexivity.
  - transitivity (comment_token RegularComment 0 (consumeUntilStarSlash (bs "/*" ++ body ++ bs "*/" ++ r) (length (bs "/*")))); [reflexivity|].
    unfold consumeUntilStarSlash. rewrite (Hstar (bs "/*")). reflexivity.
Qed.

(** A quoted text is one between its quotes. *)
Lemma quoted_shape q k w r t rest :
  q <> "\"%ch -> w ++ r = q :: rest -> scanQuoted (w ++ r) 0 q k = (t, length w) -> Unterminated t = false ->
  exists body, w = q :: body ++ [q] /\ quoted_body q body = true.
Proof.
  intros Hq E Hs Hu. unfold scanQuoted in Hs. rewrite E in Hs. cbn [drop] in Hs. rewrite drop_0 in Hs.
  destruct (q_closed (quoted_loop q rest 1 false None)) eqn:Hc.
  2:{ destruct (q_line _) as [[]|] in Hs; injection Hs as <- _; done. }
  apply quoted_loop_closes in Hc as (body & tail & -> & Hb). exists body. split; [|done].
  destruct (quoted_loop_closed q body tail 1 false None Hq Hb) as (Hp & _). rewrite Hp in Hs. injection Hs as _ Hl.
  replace (q :: body ++ q :: tail) with ((q :: body ++ [q]) ++ tail) in E by (cbn; by rewrite <- app_assoc).
  apply app_inj_1 in E as [-> _]; [done|]. rewrite <- Hl. cbn. rewrite length_app. cbn. lia.
Qed.
Definition quote_of (k : Kind) : Z := match k with String => DQ | _ => "'"%ch end.
Lemma reads_quoted k w r :
  (k = UnrestrictedName \/ k = String) -> w <> [] -> reads k w r -> exists body, w = quote_of k :: body ++ [quote_of k] /\ quoted_body (quote_of k) body = true.
Proof.
  intros Hk Hw Hr. pose proof (branch_slash (w ++ r)) as Hs. destruct Hk as [-> | ->].
  - apply (reads_scan UnrestrictedName InName) in Hr as [Hb (t & Ht & Hu)]; [|done..]. rewrite Hb in Hs. destruct Hs as [rest Hs]. by eapply quoted_shape.
  - apply (reads_scan String InString) in Hr as [Hb (t & Ht & Hu)]; [|done..]. rewrite Hb in Hs. destruct Hs as [rest Hs]. by eapply quoted_shape.
Qed.
Lemma quoted_reads k body r :
  (k = UnrestrictedName \/ k = String) -> quoted_body (quote_of k) body = true -> reads k (quote_of k :: body ++ [quote_of k]) r.
Proof.
  intros Hk Hb. set (q := quote_of k) in *. assert (Hq : quote_char q /\ quote_kind q = k) by (destruct Hk as [-> | ->]; split; [by right|done|by left|done]).
  destruct Hq as [Hq Hqk]. unfold reads. cbn [app]. rewrite <- app_assoc. cbn [app]. rewrite quoted_one_token by done. rewrite Hqk.
  eexists. split; [apply f_equal2; [reflexivity|cbn; rewrite length_app; cbn; lia]|by split].
Qed.

(** A note runs to its line break. *)
Definition note_break (brk : bytes) : Prop := brk = [NL] \/ brk = [CR; NL].
Definition break_head (tail : bytes) : bytes :=
  match tail with
  | c :: tail' => if (c =? CR)%Z then CR :: (if has_prefix tail' [NL] then [NL] else []) else if (c =? NL)%Z then [NL] else []
  | [] => []
  end.
Definition ends_line (tail : bytes) : Prop := head_fails not_break tail.
Lemma line_split s : exists body tail, s = body ++ tail /\ no_break body = true /\ ends_line tail.
Proof.
  induction s as [|c s (body & tail & -> & Hb & Ht)]; [by exists [], []|]. destruct (not_break c) eqn:E.
  - exists (c :: body), tail. unfold no_break. cbn. by rewrite E.
  - exists [], (c :: body ++ tail). split_and!; [done..|]. by intros x [= <-].
Qed.
Lemma note_scan body tail :
  no_break body = true -> ends_line tail -> scanSLNote (bs "//" ++ body ++ tail) 0 = token SLNote 0 (length (bs "//" ++ body ++ break_head tail)).
Proof.
  intros Hb Ht. unfold scanSLNote. set (s := bs "//" ++ body ++ tail). set (p := length (bs "//" ++ body)).
  assert (Hs : forall i, s !! (p + i) = tail !! i) by (intros i; unfold s, p; rewrite app_assoc; apply shift_lookup).
  assert (Hp : advance_while not_break s (0 + 2) = p).
  { apply advance_while_stop; [cbn; lia|unfold s, p; rewrite app_assoc, !length_app; cbn; lia| |].
    - apply forallb_Forall. replace (slice s (0 + 2) p) with body; [done|]. unfold s, p. symmetry.
      replace (length (bs "//" ++ body)) with (2 + length body) by done. by apply (slice_drop_app _ 2 body tail).
    - rewrite <- (Nat.add_0_r p), Hs. apply Ht. }
  pose proof (Hs 0) as Hs0. pose proof (Hs 1) as Hs1. rewrite Nat.add_0_r in Hs0. rewrite Nat.add_1_r in Hs1.
  rewrite Hp, Hs0. f_equal. rewrite app_assoc, length_app. fold p. clear Hp Hs. clearbody s p.
  destruct tail as [|c tail]; cbn [lookup list_lookup break_head] in *; [rewrite (bool_decide_false (None = Some CR)), Hs0 by done; case_bool_decide; [done|cbn; lia]|].
  destruct (Z.eqb_spec c CR) as [->|Hc].
  - rewrite (bool_decide_true (Some CR = Some CR)), Hs1 by done. destruct tail as [|d tail]; [case_bool_decide; [done|cbn; lia]|].
    cbn [lookup list_lookup has_prefix]. destruct (Z.eqb_spec d NL) as [->|Hd]; cbn; case_bool_decide; simplify_eq; lia.
  - rewrite (bool_decide_false (Some c = Some CR)), Hs0 by congruence. destruct (Z.eqb_spec c NL) as [->|]; cbn; case_bool_decide; simplify_eq; lia.
Qed.
Lemma reads_note w r :
  w <> [] -> reads SLNote w r ->
  exists body tail, w = bs "//" ++ body ++ break_head tail /\ no_break body = true /\ head (body ++ tail) <> Some "*"%ch /\ ends_line tail
    /\ tail = break_head tail ++ r.
Proof.
  intros Hw Hr. pose proof (branch_slash (w ++ r)) as Hs.
  apply (reads_scan SLNote InSLNote) in Hr as [Hb (t & Ht & Hu)]; [|done..]. rewrite Hb in Hs. destruct Hs as (rest & Hs & Hh). cbn [scan] in Ht.
  destruct (line_split rest) as (body & tail & -> & Hn & Hl). rewrite Hs, note_scan in Ht by done. injection Ht as _ Hlen.
  assert (Htail : exists r', tail = break_head tail ++ r').
  { destruct tail as [|c tail]; [by exists []|]. cbn [break_head]. destruct (Z.eqb_spec c CR) as [->|].
    - destruct (has_prefix tail [NL]) eqn:E; [|by exists tail]. apply has_prefix_spec in E as [r' ->]. by exists r'.
    - destruct (Z.eqb_spec c NL) as [->|]; [by exists tail|by eexists]. }
  destruct Htail as [r' Hr']. rewrite Hr' in Hs. rewrite !app_assoc in Hs. apply app_inj_1 in Hs as [-> ->].
  - exists body, tail. rewrite <- app_assoc. done.
  - rewrite <- Hlen. by rewrite <- app_assoc.
Qed.
Lemma note_reads body brk r :
  no_break body = true -> head body <> Some "*"%ch -> note_break brk -> reads SLNote (bs "//" ++ body ++ brk) r.
Proof.
  intros Hb Hh Hbrk. assert (Hl : ends_line (brk ++ r)) by (destruct Hbrk as [-> | ->]; by intros c [= <-]).
  assert (Hbr : break_head (brk ++ r) = brk) by (by destruct Hbrk as [-> | ->]).
  exists {| tkKind := SLNote; tkSpan := span 0 (length (bs "//" ++ body ++ brk)); KeywordID := []; Unterminated := false; BadEscape := false |}.
  split; [|done]. rewrite next_token_branch by done. rewrite <- !app_assoc.
  assert (Hbranch : branch_at (bs "//" ++ body ++ brk ++ r) = InSLNote).
  { destruct body as [|c body]; [by destruct Hbrk as [-> | ->]|]. cbn. unfold dispatch, peek. cbn. destruct (Z.eqb_spec c "*"%ch) as [->|]; [done|].
    by destruct c as [|c|c]. }
  rewrite Hbranch. cbn [scan]. rewrite note_scan by done. by rewrite Hbr.
Qed.

(** A kind whose tokens end where they do whatever follows. *)
Definition bracket_kinds : list Kind := [LParen; RParen; LBracket; RBracket; LBrace; RBrace; Semicolon; Comma].
Definition self_closed (k : Kind) : bool :=
  match k with MLNote | RegularComment | UnrestrictedName | String => true | _ => bool_decide (k ∈ bracket_kinds) end.
Lemma bracket_reads k r : k ∈ bracket_kinds -> reads k (Kind_String k) r.
Proof. intros H. elem_cases H; subst k; (eexists; split; [reflexivity|done]). Qed.
Lemma reads_closed k w r r' : self_closed k = true -> w <> [] -> reads k w r -> reads k w r'.
Proof.
  intros Hk Hw Hr. destruct (decide (k ∈ bracket_kinds)) as [Hb|Hb].
  - assert (is_operator k = true) by (elem_cases Hb; by subst k). rewrite (reads_operator k w r) by done. by apply bracket_reads.
  - unfold self_closed in Hk. rewrite bool_decide_false in Hk by done. destruct k; try done.
    + apply reads_quoted in Hr as (body & -> & Hbody); [|by left|done]. apply (quoted_reads UnrestrictedName); [by left|done].
    + apply reads_quoted in Hr as (body & -> & Hbody); [|by right|done]. apply (quoted_reads String); [by right|done].
    + apply reads_comment in Hr as (body & -> & Hbody); [|by left|done]. apply (comment_reads MLNote); [by left|done].
    + apply reads_comment in Hr as (body & -> & Hbody); [|by right|done]. apply (comment_reads RegularComment); [by right|done].
Qed.

(** White space is one token up to a byte of another. *)
Lemma space_reads s r : s <> [] -> Forall (fun c => isSpace c = true) s -> head_fails isSpace r -> reads Whitespace s r.
Proof.
  intros Hs Hall Hr. destruct s as [|c s]; [done|]. exists (token Whitespace 0 (length (c :: s))).1. split; [|done]. rewrite next_token_branch by done.
  cbn [app branch_at]. rewrite dispatch_space by (by inversion Hall). cbn [scan]. unfold scanWhitespace.
  rewrite (advance_while_stop isSpace (c :: s ++ r) 0 (length (c :: s))); [done|lia|cbn; rewrite length_app; lia| |].
  - change (c :: s ++ r) with ((c :: s) ++ r). by rewrite slice_app_r, slice_full.
  - intros x Hx. apply Hr. change (c :: s ++ r) with ((c :: s) ++ r) in Hx. by rewrite <- (Nat.add_0_r (length _)), shift_lookup in Hx.
Qed.
