(* ===== verification/Format.v ===== *)
(** * The formatter

    Models [internal/syntax/format]: [format.go], which rewrites the white space
    between the tokens of a text, and [layout.go], which decides where the statements
    of a body break. *)
From S2P Require Import Prelude Bytes Source Lexer.

(** ** Options *)

Record Options := { IndentWidth : Z; UseTabs : bool; BreakStatements : bool }.
Definition DefaultOptions : Options := {| IndentWidth := 4; UseTabs := false; BreakStatements := false |}.
Definition ConvertOptions : Options := {| IndentWidth := 4; UseTabs := false; BreakStatements := true |}.
Inductive format_error := ErrNotIdempotent.

(** ** Line endings *)

(** [bytes.Count] of ["\n"] and of ["\r\n"]. *)
Fixpoint count_nl (s : bytes) : nat := match s with [] => 0 | c :: s' => (if (c =? NL)%Z then 1 else 0) + count_nl s' end.
Fixpoint count_crlf (s : bytes) : nat :=
  match s with
  | [] => 0
  | c :: s' => (if (c =? CR)%Z && has_prefix s' [NL] then 1 else 0) + count_crlf s'
  end.
Definition dominantNewline (src : bytes) : bytes :=
  let crlf := count_crlf src in if count_nl src - crlf <? crlf then [CR; NL] else [NL].

(** [strings.ReplaceAll(text, "\r\n", "\n")] and [strings.ReplaceAll(text, "\n", nl)]. *)
Fixpoint crlf_to_nl (s : bytes) : bytes :=
  match s with
  | [] => []
  | c :: s' => if (c =? CR)%Z && has_prefix s' [NL] then crlf_to_nl s' else c :: crlf_to_nl s'
  end.
Definition nl_to (nl s : bytes) : bytes := flat_map (fun c => if (c =? NL)%Z then nl else [c]) s.
Definition normalizeNewlines (text nl : bytes) : bytes :=
  if elem NL text then nl_to nl (crlf_to_nl text) else text.

Definition keepsLineEndings (k : Kind) : bool := match k with String | UnrestrictedName => true | _ => false end.

(** ** Tokens *)

Definition tokenize (src : bytes) : list Token :=
  match tokens (S (length src)) (New src) with Some l => removelast l | None => [] end.
(** [src[tok.Span.Offset:tok.Span.End()]]. *)
Definition token_text (src : bytes) (t : Token) : bytes := slice src t.(tkSpan).(Offset) (End t.(tkSpan)).

Definition isComment (k : Kind) : bool := match k with SLNote | MLNote | RegularComment => true | _ => false end.

Definition kind_in (k : Kind) (l : list Kind) : bool := bool_decide (k ∈ l).
Definition infix : list Kind :=
  [Pipe; Amp; EqEq; NotEq; EqEqEq; NotEqEq; Lt; Gt; Le; Ge; DotDot; Plus; Minus; Star; Slash; Percent; StarStar; Caret; Dot; Arrow;
   DotQuestion; Comma; ColonColon; Eq; Colon; ColonEq; ColonGt; ColonGtGt; ColonColonGt; EqGt].
Definition incompleteBefore (k : Kind) : bool :=
  kind_in k (infix ++ [LParen; LBracket; Question; QuestionQ; Tilde; At; AtAt; Hash; Dollar]).
Definition continuesAfter (k : Kind) : bool := kind_in k infix.

(** ** Braces *)

Inductive braceKind := exprBody | singleBody | multiBody.
#[export] Instance braceKind_eq_dec : EqDecision braceKind.
Proof. solve_decision. Defined.
Inductive breakKind := noBreak | breakNext | breakUnlessJoined.

Record openBrace := { at_kind : nat; code : bool; comment : bool }.
Record braceClassifier := { kinds : list braceKind; stack : list openBrace; brackets : nat; last_kind : Kind; invoked : bool }.

Definition set_top (c : braceClassifier) (b : openBrace) (stack : list openBrace) : braceClassifier :=
  {| kinds := c.(kinds); stack := b :: stack; brackets := c.(brackets); last_kind := c.(last_kind); invoked := c.(invoked) |}.
Definition noteContent (c : braceClassifier) (k : Kind) : braceClassifier :=
  match c.(stack) with
  | [] => c
  | b :: rest =>
      match k with
      | RegularComment => set_top c {| at_kind := b.(at_kind); code := b.(code); comment := true |} rest
      | RBrace => c
      | _ => set_top c {| at_kind := b.(at_kind); code := true; comment := b.(comment) |} rest
      end
  end.

(** The kind of the innermost open brace. *)
Definition kind_of (c : braceClassifier) (b : openBrace) : braceKind := default exprBody (c.(kinds) !! b.(at_kind)).
Definition set_kinds (c : braceClassifier) (l : list braceKind) : braceClassifier :=
  {| kinds := l; stack := c.(stack); brackets := c.(brackets); last_kind := c.(last_kind); invoked := c.(invoked) |}.
Definition set_stack (c : braceClassifier) (l : list openBrace) : braceClassifier :=
  {| kinds := c.(kinds); stack := l; brackets := c.(brackets); last_kind := c.(last_kind); invoked := c.(invoked) |}.

Definition open_brace (c : braceClassifier) : braceClassifier :=
  let in_expr := match c.(stack) with b :: _ => bool_decide (kind_of c b = exprBody) | [] => false end in
  let operand := (0 <? c.(brackets)) || in_expr || incompleteBefore c.(last_kind) || c.(invoked)
                 || match c.(last_kind) with Invalid | Semicolon | LBrace => true | _ => false end in
  let c := if operand then c
           else match c.(stack) with b :: _ => set_kinds c (<[b.(at_kind) := multiBody]> c.(kinds)) | [] => c end in
  let c := set_kinds c (c.(kinds) ++ [if operand then exprBody else singleBody]) in
  set_stack c ({| at_kind := length c.(kinds) - 1; code := false; comment := false |} :: c.(stack)).

Definition close_brace (c : braceClassifier) : braceClassifier :=
  match c.(stack) with
  | [] => c
  | b :: rest =>
      let c := if b.(comment) && b.(code) && bool_decide (kind_of c b = singleBody)
               then set_kinds c (<[b.(at_kind) := multiBody]> c.(kinds)) else c in
      set_stack c rest
  end.

Definition set_brackets (c : braceClassifier) (n : nat) : braceClassifier :=
  {| kinds := c.(kinds); stack := c.(stack); brackets := n; last_kind := c.(last_kind); invoked := c.(invoked) |}.
(** One token of [classifyBraces]. *)
Definition classify_token (c : braceClassifier) (tok : Token) : braceClassifier :=
  if IsTrivia tok then c
  else
    let c := noteContent c tok.(tkKind) in
    let c := match tok.(tkKind) with
             | LParen | LBracket => set_brackets c (S c.(brackets))
             | RParen | RBracket => set_brackets c (c.(brackets) - 1)
             | LBrace => open_brace c
             | RBrace => close_brace c
             | Semicolon =>
                 match c.(stack) with
                 | b :: _ => if bool_decide (kind_of c b = singleBody) then set_kinds c (<[b.(at_kind) := multiBody]> c.(kinds)) else c
                 | [] => c
                 end
             | _ => c
             end in
    {| kinds := c.(kinds); stack := c.(stack); brackets := c.(brackets);
       last_kind := if bool_decide (tok.(tkKind) = RegularComment) then c.(last_kind) else tok.(tkKind);
       invoked := match tok.(tkKind) with Arrow => true | Identifier | ColonColon => c.(invoked) | _ => false end |}.
Definition classifyBraces (toks : list Token) : list braceKind :=
  kinds (fold_left classify_token toks {| kinds := []; stack := []; brackets := 0; last_kind := Invalid; invoked := false |}).

(** ** The formatter's state *)

Record formatter := {
  f_buf : bytes; depth : nat; atLineStart : bool; pendingNL : nat; pendingWS : bool; prev : Kind; started : bool; lastCode : Kind;
  openComment : bool; braces : list braceKind; open : list braceKind; owed : breakKind; stmtKeyword : bytes; stmtLen : nat; afterEntry : bool }.

(** The innermost open brace; [open] holds the last first. *)
Definition innermost (f : formatter) : braceKind := match f.(open) with k :: _ => k | [] => multiBody end.

Definition joinsStatement (tok : Token) (after : Kind) (afterEntry : bool) : bool :=
  let closed := bool_decide (after = RBrace) in
  match tok.(tkKind) with
  | Semicolon | Comma | RParen | RBracket => true
  | Pipe | Amp | EqEq | NotEq | EqEqEq | NotEqEq | Lt | Gt | Le | Ge | DotDot | Plus | Minus | Star | Slash | Percent | StarStar | Caret
  | Dot | Arrow | DotQuestion | Question | QuestionQ => closed
  | Keyword =>
      if beq tok.(KeywordID) (bs "then") then closed || afterEntry
      else if in_set tok.(KeywordID) (map bs ["else"; "until"]%string) then true
      else in_set tok.(KeywordID) (map bs ["and"; "or"; "xor"; "implies"; "istype"; "hastype"; "as"]%string) && closed
  | _ => false
  end.

Definition breakBefore (f : formatter) (tok : Token) : bool :=
  if IsTrivia tok then false
  else match f.(owed) with
       | breakNext => true
       | breakUnlessJoined =>
           if bool_decide (tok.(tkKind) = LBrace) then negb (bool_decide (f.(lastCode) = RBrace))
           else negb (joinsStatement tok f.(lastCode) f.(afterEntry))
       | noBreak => bool_decide (tok.(tkKind) = RBrace) && bool_decide (innermost f = multiBody)
       end.

(** The statement part of the state. *)
Definition set_statement (f : formatter) (braces open : list braceKind) (kw : bytes) (len : nat) (entry : bool) : formatter :=
  {| f_buf := f.(f_buf); depth := f.(depth); atLineStart := f.(atLineStart); pendingNL := f.(pendingNL); pendingWS := f.(pendingWS);
     prev := f.(prev); started := f.(started); lastCode := f.(lastCode); openComment := f.(openComment); braces := braces; open := open;
     owed := f.(owed); stmtKeyword := kw; stmtLen := len; afterEntry := entry |}.
Definition trackStatement (f : formatter) (tok : Token) : breakKind * formatter :=
  match tok.(tkKind) with
  | SLNote | MLNote => (f.(owed), f)
  | RegularComment => (if bool_decide (innermost f = multiBody) then breakNext else f.(owed), f)
  | LBrace =>
      let kind := match f.(braces) with k :: _ => k | [] => exprBody end in
      let f := set_statement f (tail f.(braces)) (kind :: f.(open)) f.(stmtKeyword) 0 f.(afterEntry) in
      (if bool_decide (kind = multiBody) then breakNext else noBreak, f)
  | RBrace =>
      let f' := set_statement f f.(braces) (tail f.(open)) f.(stmtKeyword) 0 f.(afterEntry) in
      (match f.(open) with k :: _ => if bool_decide (k = exprBody) then noBreak else breakUnlessJoined | [] => noBreak end, f')
  | Semicolon =>
      let f := set_statement f f.(braces) f.(open) f.(stmtKeyword) 0 ((f.(stmtLen) =? 1) && beq f.(stmtKeyword) (bs "entry")) in
      (if bool_decide (innermost f = exprBody) then noBreak else breakUnlessJoined, f)
  | _ =>
      (noBreak, set_statement f f.(braces) f.(open) (if f.(stmtLen) =? 0 then tok.(KeywordID) else f.(stmtKeyword)) (S f.(stmtLen)) f.(afterEntry))
  end.

(** ** Writing *)

Section Writing.
Context (src : bytes) (opts : Options) (nl : bytes).

Fixpoint trailing_newlines (fuel : nat) (b : bytes) : nat :=
  match fuel with
  | O => 0
  | S fuel' => if has_suffix b nl then S (trailing_newlines fuel' (take (length b - length nl) b)) else 0
  end.
Definition trailingNewlines (f : formatter) : nat := trailing_newlines (length f.(f_buf)) f.(f_buf).

Definition wantSpace (f : formatter) (tok : Token) : bool :=
  match tok.(tkKind) with
  | Semicolon | Comma | RParen | RBracket => false
  | _ => match f.(prev) with LParen | LBracket => false | _ => true end
  end.

Definition continues (f : formatter) (tok : Token) : bool :=
  match tok.(tkKind) with
  | LBrace | RBrace | RParen | RBracket => false
  | _ =>
      match f.(lastCode) with
      | Semicolon | LBrace | RBrace => false
      | _ => incompleteBefore f.(lastCode) || continuesAfter tok.(tkKind)
      end
  end.

(** What [writeIndent] writes. *)
Definition writeIndent (depth : nat) (continuation : bool) : bytes :=
  let depth := if continuation then S depth else depth in
  if opts.(UseTabs) then replicate depth TAB else replicate (depth * Z.to_nat opts.(IndentWidth)) " "%ch.

(** The line breaks or the space [emit] writes before a token, and whether a line
    starts there. *)
Definition separator (f : formatter) (tok : Token) : bytes * bool :=
  if 0 <? f.(pendingNL) then
    (if f.(started) then concat (replicate ((if 1 <? f.(pendingNL) then 2 else 1) - trailingNewlines f) nl) else [], true)
  else (if f.(pendingWS) && f.(started) && negb f.(atLineStart) && wantSpace f tok then [" "%ch] else [], f.(atLineStart)).

Definition emitted_text (tok : Token) : bytes :=
  let text := token_text src tok in if keepsLineEndings tok.(tkKind) then text else normalizeNewlines text nl.

(** [strings.TrimSpace] of the last line is empty, where there is more than one. *)
Definition blank_last_line (text : bytes) : bool :=
  match split_byte NL text with [_] => false | l => beq (TrimSpace (List.last l [])) [] end.

Definition emit (f : formatter) (tok : Token) : formatter :=
  let depth := if bool_decide (tok.(tkKind) = RBrace) then f.(depth) - 1 else f.(depth) in
  let breaks := opts.(BreakStatements) && (f.(pendingNL) =? 0) && f.(started) && breakBefore f tok in
  let f := {| f_buf := f.(f_buf); depth := depth; atLineStart := f.(atLineStart); pendingNL := if breaks then 1 else f.(pendingNL);
              pendingWS := f.(pendingWS); prev := f.(prev); started := f.(started); lastCode := f.(lastCode); openComment := f.(openComment);
              braces := f.(braces); open := f.(open); owed := f.(owed); stmtKeyword := f.(stmtKeyword); stmtLen := f.(stmtLen);
              afterEntry := f.(afterEntry) |} in
  let '(sep, line) := separator f tok in
  let indent := if line then writeIndent depth (continues f tok) else [] in
  let text := emitted_text tok in
  let '(owed, f') := if opts.(BreakStatements) then trackStatement f tok else (f.(owed), f) in
  {| f_buf := f.(f_buf) ++ sep ++ indent ++ text; depth := if bool_decide (tok.(tkKind) = LBrace) then S depth else depth;
     atLineStart := elem NL text && blank_last_line text; pendingNL := 0; pendingWS := false; prev := tok.(tkKind); started := true;
     lastCode := if isComment tok.(tkKind) then f.(lastCode) else tok.(tkKind); openComment := tok.(Unterminated); braces := f'.(braces);
     open := f'.(open); owed := owed; stmtKeyword := f'.(stmtKeyword); stmtLen := f'.(stmtLen); afterEntry := f'.(afterEntry) |}.

(** White space is counted, every other token written. *)
Definition run_token (f : formatter) (tok : Token) : formatter :=
  if bool_decide (tok.(tkKind) = Whitespace) then
    let n := count_nl (token_text src tok) in
    {| f_buf := f.(f_buf); depth := f.(depth); atLineStart := f.(atLineStart); pendingNL := f.(pendingNL) + n;
       pendingWS := f.(pendingWS) || (n =? 0); prev := f.(prev); started := f.(started); lastCode := f.(lastCode);
       openComment := f.(openComment); braces := f.(braces); open := f.(open); owed := f.(owed); stmtKeyword := f.(stmtKeyword);
       stmtLen := f.(stmtLen); afterEntry := f.(afterEntry) |}
  else emit f tok.

Definition new_formatter (braces : list braceKind) : formatter :=
  {| f_buf := []; depth := 0; atLineStart := true; pendingNL := 0; pendingWS := false; prev := Invalid; started := false; lastCode := Invalid;
     openComment := false; braces := braces; open := []; owed := noBreak; stmtKeyword := []; stmtLen := 0; afterEntry := false |}.

Definition run (toks : list Token) : bytes :=
  let f := fold_left run_token toks (new_formatter (if opts.(BreakStatements) then classifyBraces toks else [])) in
  if f.(started) && negb f.(openComment) then trim_right [CR; NL] f.(f_buf) ++ nl else f.(f_buf).
End Writing.

(** ** The safety net *)

Definition significant_token (src : bytes) (tok : Token) : bytes :=
  let text := token_text src tok in
  let text := if keepsLineEndings tok.(tkKind) then text else normalizeNewlines text [NL] in
  let text := if bool_decide (tok.(tkKind) = SLNote) then trim_suffix text [NL] else text in
  Kind_String tok.(tkKind) ++ bs " " ++ text.
Definition significant (src : bytes) : list bytes :=
  map (significant_token src) (filter (fun t => t.(tkKind) <> Whitespace) (tokenize src)).
Definition sameTokens (before after : bytes) : bool := bool_decide (significant before = significant after).

Definition Source_ (src : bytes) (opts : Options) : bytes * option format_error :=
  let opts := {| IndentWidth := if (opts.(IndentWidth) <=? 0)%Z then DefaultOptions.(IndentWidth) else opts.(IndentWidth);
                 UseTabs := opts.(UseTabs); BreakStatements := opts.(BreakStatements) |} in
  let out := run src opts (dominantNewline src) (tokenize src) in
  if negb (sameTokens src out) then (src, Some ErrNotIdempotent) else (out, None).
