(* ===== verification/Relayout.v ===== *)
(** * Texts with the same tokens

    A text as the kinds and texts of its tokens, and when the text made of the same
    tokens under other white space is read as them again. *)
From S2P Require Import Prelude Bytes Source SourceFacts Lexer LexerFacts LexerQuoted LexerLocal LexerReads Format.
Local Open Scope nat_scope.

(** ** Pieces *)

Definition piece : Type := Kind * bytes.
Definition piece_of (src : bytes) (t : Token) : piece := (tkKind t, token_text src t).
Definition pieces (src : bytes) : list piece := map (piece_of src) (tokenize src).
Definition text_of (l : list piece) : bytes := concat l.*2.

(** Each piece is read where the rest follows it. *)
Fixpoint chained (l : list piece) : Prop :=
  match l with
  | [] => True
  | p :: l' => p.2 <> [] /\ reads p.1 p.2 (text_of l') /\ chained l'
  end.

Definition terminated (src : bytes) : Prop := Forall (fun t => Unterminated t = false) (tokenize src).

Lemma next_at pre s : s <> [] -> next_token (pre ++ s) (length pre) = shifted (length pre) (next_token s 0).
Proof. intros Hs. rewrite <- (Nat.add_0_r (length pre)) at 1. apply next_token_shift. by destruct s; [|cbn; lia]. Qed.
Lemma shifted_text pre s t n :
  tkSpan t = span 0 n -> token_text (pre ++ s) (shifted (length pre) (t, n)).1 = slice s 0 n.
Proof.
  intros Ht. unfold Format.token_text, shifted, End. cbn. rewrite Ht. cbn [span Offset Len]. rewrite <- Nat.add_assoc. rewrite shift_slice. f_equal. lia.
Qed.

(** Pulling the tokens of a chain of pieces gives them back. *)
Lemma chain_pulled l pre fuel :
  chained l -> length (text_of l) < fuel ->
  exists toks, tokens fuel {| src := pre ++ text_of l; pos := length pre |} = Some (toks ++ [EOF_token (pre ++ text_of l)])
    /\ map (piece_of (pre ++ text_of l)) toks = l /\ Forall (fun t => Unterminated t = false) toks.
Proof.
  revert pre fuel. induction l as [|[k w] l IH]; intros pre fuel Hl Hf; (destruct fuel as [|fuel]; [lia|]); cbn [tokens].
  { rewrite Next_end by (rewrite length_app; cbn; lia). exists []. by rewrite decide_True. }
  destruct Hl as (Hw & Hr & Hl). cbn [fst snd] in *. change (text_of ((k, w) :: l)) with (w ++ text_of l) in *.
  destruct Hr as (t & Ht & Hk & Hu). destruct (reads_text k w (text_of l) t Hw Ht Hk) as [Hspan Htext].
  unfold Next. cbn [Lexer.src pos]. rewrite next_at, Ht by (by destruct w). unfold shifted. cbn [fst snd].
  rewrite decide_False by (cbn; intros E; destruct w as [|c w]; [done|]; pose proof (next_token_scanned ((c :: w) ++ text_of l) 0 c eq_refl) as (_ & _ & Hne); by rewrite Ht in Hne).
  destruct (IH (pre ++ w) fuel Hl) as (toks & E & Hm & Hall); [rewrite length_app in Hf; destruct w; [done|cbn in Hf; lia]|].
  rewrite <- app_assoc, length_app in E. rewrite E. eexists (_ :: toks). split; [reflexivity|]. split; [|constructor; [done|done]].
  cbn [map]. rewrite <- app_assoc in Hm. rewrite Hm. f_equal. unfold piece_of. f_equal; [done|].
  etransitivity; [by apply (shifted_text pre (w ++ text_of l) t (length w))|]. by rewrite slice_app_r, slice_full.
Qed.
Lemma chain_pieces l : chained l -> pieces (text_of l) = l /\ terminated (text_of l).
Proof.
  intros Hl. destruct (chain_pulled l [] (S (length (text_of l))) Hl) as (toks & E & Hm & Hall); [lia|].
  unfold pieces, terminated, tokenize, New. cbn [app length] in E. rewrite E. rewrite removelast_last. done.
Qed.

(** The pieces of a text whose tokens are all terminated are a chain. *)
Lemma pulled_chain s pre fuel :
  length s < fuel ->
  exists toks, tokens fuel {| src := pre ++ s; pos := length pre |} = Some (toks ++ [EOF_token (pre ++ s)])
    /\ text_of (map (piece_of (pre ++ s)) toks) = s
    /\ (Forall (fun t => Unterminated t = false) toks -> chained (map (piece_of (pre ++ s)) toks)).
Proof.
  revert s pre. induction fuel as [|fuel IH]; intros s pre Hf; [lia|]. cbn [tokens]. destruct s as [|c s].
  { rewrite Next_end by (rewrite length_app; cbn; lia). exists []. by rewrite decide_True. }
  remember (c :: s) as s0 eqn:Es. assert (Hs : s0 <> []) by (by subst). unfold Next. cbn [Lexer.src pos]. rewrite next_at by done.
  pose proof (next_token_scanned s0 0 c ltac:(by subst)) as (Hspan & Hb & Hk). destruct (next_token s0 0) as [t n] eqn:Ht. cbn [fst snd] in *.
  pose proof (shifted_text pre s0 t n Hspan) as Htext. unfold shifted in *. cbn [fst snd] in *. rewrite decide_False by done.
  set (w := take n s0). set (r := drop n s0). assert (E0 : s0 = w ++ r) by (symmetry; apply take_drop).
  assert (Hw : length w = n) by (unfold w; rewrite length_take; lia).
  assert (Htok : slice s0 0 n = w) by (unfold slice, w; by rewrite drop_0, Nat.sub_0_r). rewrite Htok in Htext. clearbody w r. subst n.
  destruct (IH r (pre ++ w)) as (toks & E & Hm & Hall); [rewrite E0, length_app in Hf; lia|].
  rewrite <- app_assoc, <- E0, length_app in E. rewrite E. rewrite <- app_assoc, <- E0 in Hm, Hall. eexists (_ :: toks). split; [reflexivity|].
  cbn [map]. unfold piece_of at 1 3. rewrite Htext. cbn [tkKind]. split.
  - change (w ++ text_of (map (piece_of (pre ++ s0)) toks) = s0). by rewrite Hm.
  - intros Ht'. inversion Ht' as [|? ? Hu Hrest]; subst x l. cbn [Unterminated] in Hu. split_and!; [|exists t|by apply Hall]; cbn [fst snd].
    + intros ->. cbn in Hb. lia.
    + by rewrite Hm, <- E0.
Qed.
Lemma pieces_chain src : terminated src -> chained (pieces src) /\ text_of (pieces src) = src.
Proof.
  destruct (pulled_chain src [] (S (length src))) as (toks & E & Hm & Hall); [lia|]. cbn [app length] in E, Hm, Hall.
  unfold terminated, pieces, tokenize, New. rewrite E, removelast_last. auto.
Qed.

(** ** Line breaks *)

(** Every carriage return is followed by a line feed. *)
Fixpoint no_bare_cr (s : bytes) : bool := match s with [] => true | c :: s' => (negb (c =? CR)%Z || has_prefix s' [NL]) && no_bare_cr s' end.
Lemma no_bare_app_r a b : no_bare_cr (a ++ b) = true -> no_bare_cr b = true.
Proof. induction a as [|c a IH]; [done|]. cbn. intros [_ H]%andb_true_iff. by apply IH. Qed.
Lemma no_bare_app_l a x b : no_bare_cr ((a ++ [x]) ++ b) = true -> x <> CR -> no_bare_cr (a ++ [x]) = true.
Proof.
  intros H Hx. induction a as [|c a IH]; cbn [app no_bare_cr] in *.
  - apply Z.eqb_neq in Hx. by rewrite Hx.
  - apply andb_true_iff in H as [H1 H2]. apply andb_true_iff. split; [|by apply IH]. destruct a; [cbn in *|done]. done.
Qed.
Lemma crlf_to_nl_no_cr s : no_bare_cr s = true -> CR ∉ crlf_to_nl s.
Proof.
  induction s as [|c s IH]; cbn [no_bare_cr crlf_to_nl]; [intros _; apply not_elem_of_nil|]. intros [H1 H2]%andb_true_iff.
  destruct (Z.eqb_spec c CR) as [->|Hc]; cbn in *; [rewrite H1; by apply IH|]. rewrite not_elem_of_cons. split; [done|by apply IH].
Qed.
Lemma crlf_to_nl_id s : CR ∉ s -> crlf_to_nl s = s.
Proof.
  induction s as [|c s IH]; [done|]. rewrite not_elem_of_cons. intros [Hc Hs]. cbn. destruct (Z.eqb_spec c CR); [congruence|]. cbn. by rewrite IH.
Qed.
Lemma nl_to_lf s : nl_to [NL] s = s.
Proof. induction s as [|c s IH]; [done|]. unfold nl_to in *. cbn. rewrite IH. by destruct (Z.eqb_spec c NL) as [->|]. Qed.
Lemma nl_to_app nl a b : nl_to nl (a ++ b) = nl_to nl a ++ nl_to nl b.
Proof. apply flat_map_app. Qed.
Lemma crlf_to_nl_nl_to nl s : note_break nl -> CR ∉ s -> crlf_to_nl (nl_to nl s) = s.
Proof.
  intros [-> | ->] Hs; [by rewrite nl_to_lf, crlf_to_nl_id|]. induction s as [|c s IH]; [done|]. apply not_elem_of_cons in Hs as [Hc Hs].
  unfold nl_to in *. cbn. destruct (Z.eqb_spec c NL) as [->|]; cbn; [by rewrite IH|]. destruct (Z.eqb_spec c CR); [congruence|]. cbn. by rewrite IH.
Qed.
Lemma crlf_to_nl_app a x b : x <> CR -> crlf_to_nl ((a ++ [x]) ++ b) = crlf_to_nl (a ++ [x]) ++ crlf_to_nl b.
Proof.
  intros Hx. apply Z.eqb_neq in Hx. induction a as [|c a IH]; cbn [app crlf_to_nl]; [by rewrite Hx|].
  rewrite IH. assert (Hp : has_prefix ((a ++ [x]) ++ b) [NL] = has_prefix (a ++ [x]) [NL]) by (by destruct a). rewrite Hp. by destruct (_ && _).
Qed.
Lemma crlf_to_nl_elem s : elem NL (crlf_to_nl s) = elem NL s.
Proof.
  unfold elem. induction s as [|c s IH]; [done|]. cbn [crlf_to_nl]. destruct (Z.eqb_spec c CR) as [->|]; cbn [andb]; [destruct (has_prefix s [NL])|]; cbn [existsb]; by rewrite IH.
Qed.
Lemma nl_to_elem nl s : note_break nl -> elem NL (nl_to nl s) = elem NL s.
Proof.
  intros Hnl. unfold elem, nl_to. induction s as [|c s IH]; [done|]. cbn [flat_map]. rewrite existsb_app, IH. cbn [existsb].
  destruct (Z.eqb_spec c NL) as [->|]; [by destruct Hnl as [-> | ->]|]. cbn [existsb]. by rewrite orb_false_r.
Qed.
(** Changing the line breaks of a text twice changes them once. *)
Lemma normalize_twice nl s : note_break nl -> no_bare_cr s = true -> normalizeNewlines (normalizeNewlines s nl) [NL] = normalizeNewlines s [NL].
Proof.
  intros Hnl Hs. unfold normalizeNewlines. destruct (elem NL s) eqn:E; [|by rewrite E].
  rewrite nl_to_elem, crlf_to_nl_elem, E by done. by rewrite crlf_to_nl_nl_to by (try apply crlf_to_nl_no_cr; done).
Qed.

(** ** The text written for a token *)

Definition layout_text (nl : bytes) (p : piece) : bytes := if keepsLineEndings p.1 then p.2 else normalizeNewlines p.2 nl.
Lemma emitted_layout src nl t : emitted_text src nl t = layout_text nl (piece_of src t).
Proof. done. Qed.

Lemma has_prefix_one s c : has_prefix s [c] = true <-> head s = Some c.
Proof.
  rewrite has_prefix_spec. split; [by intros [t ->]|]. destruct s as [|d s]; [done|]. intros [= ->]. by exists s.
Qed.
Lemma crlf_to_nl_before a b : head b <> Some NL -> crlf_to_nl (a ++ b) = crlf_to_nl a ++ crlf_to_nl b.
Proof.
  intros Hb. induction a as [|c a IH]; [done|]. cbn [app crlf_to_nl]. rewrite IH.
  assert (Hp : has_prefix (a ++ b) [NL] = has_prefix a [NL]).
  { destruct a as [|d a]; [|done]. cbn [app]. destruct (has_prefix b [NL]) eqn:E; [|done]. by apply has_prefix_one in E. }
  rewrite Hp. by destruct (_ && _).
Qed.
Lemma close_free_crlf s : close_free s = true -> close_free (crlf_to_nl s) = true /\ (head (crlf_to_nl s) = Some "/"%ch -> head s = Some "/"%ch).
Proof.
  induction s as [|c s IH]; [done|]. cbn [close_free crlf_to_nl]. intros [H1 H2]%andb_true_iff. destruct (IH H2) as [IH1 IH2].
  destruct (Z.eqb_spec c CR) as [->|Hc]; cbn [andb].
  - destruct (has_prefix s [NL]) eqn:E; [|split; [|done]; cbn [close_free]; rewrite IH1; done]. split; [done|].
    intros H%IH2. apply has_prefix_one in E. congruence.
  - split; [|done]. cbn [close_free]. rewrite IH1, andb_true_r. apply negb_true_iff in H1. apply negb_true_iff. apply andb_false_iff in H1 as [->|H1]; [done|].
    apply andb_false_iff. right. apply Z.eqb_neq in H1. apply Z.eqb_neq. intros H. apply H1.
    destruct (crlf_to_nl s) as [|d u] eqn:E; cbn in H; [done|]. subst d. by rewrite IH2.
Qed.
Lemma close_free_nl_to nl s : note_break nl -> close_free s = true -> close_free (nl_to nl s) = true /\ (head (nl_to nl s) = Some "/"%ch -> head s = Some "/"%ch).
Proof.
  intros Hnl. induction s as [|c s IH]; [done|]. cbn [close_free]. intros [H1 H2]%andb_true_iff. destruct (IH H2) as [IH1 IH2].
  unfold nl_to in *. cbn [flat_map]. destruct (Z.eqb_spec c NL) as [->|Hc].
  - destruct Hnl as [-> | ->]; cbn [app close_free]; rewrite IH1; done.
  - split; [|done]. cbn [app close_free]. rewrite IH1, andb_true_r. apply negb_true_iff in H1. apply negb_true_iff. apply andb_false_iff in H1 as [->|H1]; [done|].
    apply andb_false_iff. right. apply Z.eqb_neq in H1. apply Z.eqb_neq. intros H. apply H1.
    destruct (flat_map _ s) as [|d u] eqn:E; cbn in H; [done|]. subst d. by rewrite IH2.
Qed.

(** A comment's own line breaks. *)
Definition conv (nl s : bytes) : bytes := nl_to nl (crlf_to_nl s).
Lemma conv_head nl c s : note_break nl -> exists d u, conv nl (c :: s) = d :: u /\ (d = c \/ (neutral c = true /\ neutral d = true)).
Proof.
  intros Hnl. unfold conv. assert (Hto : forall x t, exists d u, nl_to nl (x :: t) = d :: u /\ (d = x \/ (x = NL /\ neutral d = true))).
  { intros x t. unfold nl_to. cbn. destruct (Z.eqb_spec x NL) as [->|]; [|by eauto].
    destruct Hnl as [-> | ->]; do 2 eexists; (split; [reflexivity|]); [by left|by right]. }
  assert (H : exists x t, crlf_to_nl (c :: s) = x :: t /\ (x = c \/ (c = CR /\ x = NL))).
  { cbn [crlf_to_nl]. destruct (Z.eqb_spec c CR) as [->|]; [|by eauto]. cbn [andb]. destruct (has_prefix s [NL]) eqn:E; [|by eauto].
    apply has_prefix_spec in E as [t ->]. exists NL, (crlf_to_nl t). split; [done|by right]. }
  destruct H as (x & t & -> & Hx). destruct (Hto x t) as (d & u & -> & Hd). exists d, u. split; [done|].
  destruct Hx as [->|[Hc Hx]], Hd as [->|[Hx' Hd]]; subst; first [by left|by right].
Qed.
Lemma comment_layout nl k w r :
  note_break nl -> (k = MLNote \/ k = RegularComment) -> w <> [] -> reads k w r ->
  (forall r', reads k (layout_text nl (k, w)) r') /\ (forall s s', alike 3 (w ++ s) (layout_text nl (k, w) ++ s'))
  /\ exists u, layout_text nl (k, w) = u ++ bs "/".
Proof.
  intros Hnl Hk Hw Hr. apply reads_comment in Hr as (body & -> & Hb); [|done..].
  assert (H : exists body', layout_text nl (k, comment_open k ++ body ++ bs "*/") = comment_open k ++ body' ++ bs "*/" /\ close_free body' = true
            /\ (body' = body \/ body' = conv nl body)).
  { unfold layout_text. cbn [fst snd]. assert (keepsLineEndings k = false) as -> by (by destruct Hk as [-> | ->]). unfold normalizeNewlines.
    destruct (elem NL _); [|by exists body; eauto]. exists (conv nl body). split_and!; [| |by right].
    - assert (Ho : nl_to nl (crlf_to_nl (comment_open k)) = comment_open k) by (by destruct Hk as [-> | ->]).
      assert (Happ : crlf_to_nl (comment_open k ++ body ++ bs "*/") = crlf_to_nl (comment_open k) ++ crlf_to_nl (body ++ bs "*/")).
      { destruct Hk as [-> | ->]; [apply (crlf_to_nl_app (bs "//") "*"%ch)|apply (crlf_to_nl_app (bs "/") "*"%ch)]; done. }
      rewrite Happ, (crlf_to_nl_before body), !nl_to_app, Ho by done. done.
    - by apply close_free_nl_to; [|apply close_free_crlf]. }
  destruct H as (body' & -> & Hb' & Hbb). split_and!.
  - intros r'. by apply comment_reads.
  - intros s s'. destruct Hk as [-> | ->]; [do 3 apply alike_cons; apply alike_enough|]. do 2 apply alike_cons.
    destruct body as [|c body]; [by destruct Hbb as [-> | ->]; apply alike_cons, alike_enough|].
    destruct Hbb as [-> | ->]; [by apply alike_cons, alike_enough|]. destruct (conv_head nl c body Hnl) as (d & u & -> & [->|[H1 H2]]).
    + by apply alike_cons, alike_enough.
    + by apply alike_neutral.
  - exists (comment_open k ++ body' ++ bs "*"). by rewrite <- !app_assoc.
Qed.

Lemma inked_no_nl w : Forall inked w -> elem NL w = false.
Proof. unfold elem. induction 1 as [|c w Hc Hw IH]; [done|]. cbn [existsb]. rewrite IH, orb_false_r. apply Z.eqb_neq. by intros <-. Qed.
(** Other tokens are written as they are. *)
Lemma layout_same nl k w r :
  k <> SLNote -> k <> MLNote -> k <> RegularComment -> k <> Whitespace -> w <> [] -> reads k w r -> layout_text nl (k, w) = w.
Proof.
  intros H1 H2 H3 H4 Hw Hr. unfold layout_text. cbn [fst snd]. destruct (keepsLineEndings k) eqn:E; [done|]. unfold normalizeNewlines.
  destruct (plain k) eqn:Hp; [by rewrite (inked_no_nl w) by by eapply reads_inked|]. destruct k; try done.
  destruct Hr as (t & Ht & Hk & _). destruct w as [|c w]; [done|]. pose proof (next_token_scanned ((c :: w) ++ r) 0 c eq_refl) as (_ & _ & Hne). by rewrite Ht in Hne.
Qed.

(** ** Texts laid out again *)

(** A token and the white space before it, as they were and as they are written. *)
Record item := { ws_in : bytes; it : piece; ws_out : bytes; text_out : bytes }.
Definition it_kind (i : item) : Kind := i.(it).1.
Definition src_of (l : list item) (e : bytes) : bytes := concat (map (fun i => i.(ws_in) ++ i.(it).2) l) ++ e.
Definition out_of (l : list item) (e : bytes) : bytes := concat (map (fun i => i.(ws_out) ++ i.(text_out)) l) ++ e.
Definition spaces (s : bytes) : Prop := Forall (fun c => isSpace c = true) s.
Definition ws_piece (s : bytes) : list piece := match s with [] => [] | _ => [(Whitespace, s)] end.
Definition out_pieces (l : list item) (e : bytes) : list piece :=
  concat (map (fun i => ws_piece i.(ws_out) ++ [(it_kind i, i.(text_out))]) l) ++ ws_piece e.

(** After these, white space may come and go. *)
Definition loose (k : Kind) : bool := bool_decide (k ∈ [LParen; LBracket; LBrace; RBrace; Semicolon; RegularComment; MLNote; SLNote]).
Definition gap (p : option Kind) (i : item) : Prop :=
  match p with Some k => loose k = false -> (i.(ws_in) = [] <-> i.(ws_out) = []) \/ it_kind i ∈ bracket_kinds | None => True end.
Definition note_layout (nl w w' : bytes) : Prop :=
  exists body brk, w = bs "//" ++ body ++ brk /\ no_break body = true /\ head body <> Some "*"%ch /\ (brk = [] \/ note_break brk) /\ w' = bs "//" ++ body ++ nl.
Definition written (nl : bytes) (p : piece) (w' : bytes) : Prop := if decide (p.1 = SLNote) then note_layout nl p.2 w' else w' = layout_text nl p.

Fixpoint relaid (nl : bytes) (p : option Kind) (l : list item) (e : bytes) : Prop :=
  match l with
  | [] => True
  | i :: l' =>
      spaces i.(ws_in) /\ spaces i.(ws_out) /\ it_kind i <> Whitespace /\ i.(it).2 <> [] /\ reads (it_kind i) i.(it).2 (src_of l' e)
      /\ gap p i /\ written nl i.(it) i.(text_out) /\ relaid nl (Some (it_kind i)) l' e
  end.

(** The same, but for the texts written. *)
Fixpoint spaced (p : option Kind) (l : list item) (e : bytes) : Prop :=
  match l with
  | [] => True
  | i :: l' =>
      spaces i.(ws_in) /\ spaces i.(ws_out) /\ it_kind i <> Whitespace /\ i.(it).2 <> [] /\ reads (it_kind i) i.(it).2 (src_of l' e)
      /\ gap p i /\ spaced (Some (it_kind i)) l' e
  end.
Lemma spaced_relaid nl p l e : spaced p l e -> Forall (fun i => written nl i.(it) i.(text_out)) l -> relaid nl p l e.
Proof. revert p. induction l as [|i l IH]; intros p H Hw; [done|]. inversion Hw; subst. destruct H as (? & ? & ? & ? & ? & ? & ?). split_and!; auto. Qed.

Lemma src_of_cons i l e : src_of (i :: l) e = i.(ws_in) ++ i.(it).2 ++ src_of l e.
Proof. unfold src_of. cbn. by rewrite <- !app_assoc. Qed.
Lemma out_of_cons i l e : out_of (i :: l) e = i.(ws_out) ++ i.(text_out) ++ out_of l e.
Proof. unfold out_of. cbn. by rewrite <- !app_assoc. Qed.
Lemma spaces_neutral s t : spaces s -> s <> [] -> neutral_head (s ++ t).
Proof. intros H Hs. destruct s as [|c s]; [done|]. inversion H; subst. by apply space_neutral. Qed.
Lemma spaces_end s : spaces s -> neutral_head s.
Proof. intros H. destruct s as [|c s]; [done|]. inversion H; subst. by apply space_neutral. Qed.
Lemma bracket_neutral k t : k ∈ bracket_kinds -> neutral_head (Kind_String k ++ t).
Proof. intros H. elem_cases H; by subst k. Qed.
Lemma bracket_operator k : k ∈ bracket_kinds -> is_operator k = true.
Proof. intros H. elem_cases H; by subst k. Qed.
Lemma brk_neutral brk t : note_break brk -> neutral_head (brk ++ t).
Proof. by intros [-> | ->]. Qed.

Section Relaid.
Context (nl e e' : bytes).
Context (Hnl : note_break nl) (He : spaces e) (He' : spaces e').

Definition comment_kind (k : Kind) : Prop := k = MLNote \/ k = RegularComment.
#[local] Instance comment_kind_dec k : Decision (comment_kind k).
Proof. unfold comment_kind. apply _. Defined.

(** A note without a line break ends the text. *)
Lemma note_unbroken body r : no_break body = true -> reads SLNote (bs "//" ++ body) r -> r = [].
Proof.
  intros Hb Hr. apply reads_note in Hr as (body2 & tail & E1 & E2 & _ & E4 & E5); [|done]. apply app_inv_head in E1. subst body.
  unfold no_break in Hb. rewrite forallb_app in Hb. apply andb_true_iff in Hb as [_ Hb].
  destruct tail as [|c tail]; [by destruct r|]. exfalso. specialize (E4 c eq_refl). unfold not_break in E4. cbn [break_head] in Hb.
  destruct (Z.eqb_spec c CR) as [->|]; [done|]. destruct (Z.eqb_spec c NL) as [->|]; done.
Qed.
Lemma loose_cases j : loose j = true -> j ∈ bracket_kinds \/ comment_kind j \/ j = SLNote.
Proof.
  intros H. destruct j; try (vm_compute in H; discriminate H); first [left; by apply (bool_decide_eq_true_1 _)|right; by (left; left)|right; left; by right|by right; right|idtac].
Qed.
Lemma bracket_closed j : j ∈ bracket_kinds -> self_closed j = true.
Proof. intros H. elem_cases H; by subst j. Qed.
(** A token other than a note or comment keeps its text. *)
Lemma written_same k w w' r :
  k <> SLNote -> ~ comment_kind k -> k <> Whitespace -> w <> [] -> reads k w r -> written nl (k, w) w' -> w' = w.
Proof.
  intros H1 H2 H3 Hw Hr. unfold written. rewrite decide_False by done. intros ->. unfold comment_kind in H2. eapply layout_same; [naive_solver..].
Qed.
Lemma written_comment k w w' : comment_kind k -> written nl (k, w) w' -> w' = layout_text nl (k, w).
Proof. intros Hk. unfold written. by destruct Hk as [-> | ->]. Qed.

Lemma written_note w w' : written nl (SLNote, w) w' -> note_layout nl w w'.
Proof. unfold written. by rewrite decide_True. Qed.

(** What follows a token, before and after, is alike where white space may not come and go. *)
Lemma relaid_alike l k : loose k = false -> relaid nl (Some k) l e -> alike 3 (src_of l e) (out_of l e').
Proof.
  revert k. induction l as [|i l IH]; intros k Hk Hl; [by apply alike_neutral; apply spaces_end|].
  destruct Hl as (Hin & Hout & Hws & Hne & Hr & Hgap & Hw & Hl). rewrite src_of_cons, out_of_cons. destruct i as [wi [j w] wo w']. unfold it_kind, gap in *.
  cbn [ws_in ws_out it text_out fst snd it_kind] in *. destruct (decide (j ∈ bracket_kinds)) as [Hb|Hb].
  { assert (Hbn : j <> SLNote /\ ~ comment_kind j) by (elem_cases Hb; subst j; split; [done|by intros [|]| ..]; try done; by intros [|]).
    rewrite (written_same j w w' (src_of l e)) by naive_solver. rewrite (reads_operator j w (src_of l e)) by (try apply bracket_operator; done).
    assert (Hn : forall s t, spaces s -> neutral_head (s ++ Kind_String j ++ t)).
    { intros s t Hs. destruct s as [|c s]; [by apply bracket_neutral|by apply spaces_neutral]. }
    by apply alike_neutral; apply Hn. }
  destruct (Hgap Hk) as [Hiff|]; [|done]. destruct (decide (wi = [])) as [->|Hwi].
  2:{ apply alike_neutral; apply spaces_neutral; try done. naive_solver. }
  rewrite (proj1 Hiff) by done. cbn [app]. destruct (decide (comment_kind j)) as [Hc|Hc].
  { rewrite (written_comment j w w') by done. destruct (comment_layout nl j w (src_of l e)) as (_ & Ha & _); [done..|apply Ha]. }
  destruct (decide (j = SLNote)) as [->|Hs].
  { apply written_note in Hw as (body & brk & -> & Hb1 & Hb2 & Hbrk & ->).
    rewrite <- !app_assoc. do 2 apply alike_cons. destruct body as [|c body]; [|by apply alike_cons, alike_enough].
    apply alike_neutral; [|exact (brk_neutral nl _ Hnl)]. destruct Hbrk as [->|Hbrk]; [|exact (brk_neutral brk _ Hbrk)].
    by rewrite (note_unbroken [] (src_of l e)). }
  rewrite (written_same j w w' (src_of l e)) by done. apply alike_app. eapply IH; [|done]. destruct (loose j) eqn:El; [|done].
  by destruct (loose_cases j El) as [|[|]].
Qed.

(** A token still reads where what follows it is laid out again. *)
Lemma relaid_reads i l : relaid nl None (i :: l) e -> relaid nl (Some (it_kind i)) l e -> reads (it_kind i) i.(text_out) (out_of l e') /\ i.(text_out) <> [].
Proof.
  intros (Hin & Hout & Hws & Hne & Hr & _ & Hw & _) Hl. destruct i as [wi [j w] wo w']. unfold it_kind in *. cbn [ws_in ws_out it text_out fst snd] in *.
  destruct (decide (comment_kind j)) as [Hc|Hc].
  { rewrite (written_comment j w w') by done. destruct (comment_layout nl j w (src_of l e)) as (Hr' & _ & (u & Hu)); [done..|]. split; [apply Hr'|].
    rewrite Hu. by intros [_ ?]%app_eq_nil. }
  destruct (decide (j = SLNote)) as [->|Hs].
  { apply written_note in Hw as (body & brk & -> & Hb1 & Hb2 & Hbrk & ->). split; [by apply note_reads|done]. }
  rewrite (written_same j w w' (src_of l e)) by done. split; [|done]. destruct (self_closed j) eqn:Ej; [by apply (reads_closed j w (src_of l e))|].
  apply (reads_alike j w (src_of l e)); [|done| |done].
  - destruct j; try done; try (destruct Hc; by first [left|right]).
    destruct Hr as (t & Ht & Hk & _). destruct w as [|c w]; [done|]. pose proof (next_token_scanned ((c :: w) ++ src_of l e) 0 c eq_refl) as (_ & _ & Hn). by rewrite Ht in Hn.
  - apply (relaid_alike l j); [|done]. destruct (loose j) eqn:El; [|done]. destruct (loose_cases j El) as [Hb|[|]]; [|done..].
    by rewrite (bracket_closed j) in Ej.
Qed.

Lemma text_ws s : text_of (ws_piece s) = s.
Proof. destruct s; [done|]. unfold text_of. cbn. by rewrite app_nil_r. Qed.
Lemma text_of_app a b : text_of (a ++ b) = text_of a ++ text_of b.
Proof. unfold text_of. by rewrite fmap_app, concat_app. Qed.
Lemma text_out_pieces l : text_of (out_pieces l e') = out_of l e'.
Proof.
  unfold out_pieces, out_of. rewrite text_of_app, text_ws. f_equal. induction l as [|i l IH]; [done|]. cbn [map concat].
  rewrite !text_of_app, text_ws, IH. unfold text_of at 1. cbn. by rewrite app_nil_r.
Qed.
Lemma chained_ws s l : spaces s -> head_fails isSpace (text_of l) -> chained l -> chained (ws_piece s ++ l).
Proof. intros Hs Hh Hl. destruct s as [|c s]; [done|]. split_and!; [done| |done]. by apply space_reads. Qed.
Lemma chained_out l p : relaid nl p l e -> chained (out_pieces l e').
Proof.
  revert p. induction l as [|i l IH]; intros p Hl.
  { unfold out_pieces. cbn [map concat app]. rewrite <- (app_nil_r (ws_piece e')). by apply chained_ws. }
  assert (Hi : relaid nl None (i :: l) e) by (destruct Hl as (? & ? & ? & ? & ? & ? & ? & ?); by split_and!).
  destruct Hl as (_ & Hout & Hws & _ & _ & _ & _ & Hl). destruct (relaid_reads i l Hi Hl) as [Hr Hne].
  unfold out_pieces. cbn [map concat]. rewrite <- !app_assoc. fold (out_pieces l e'). apply chained_ws; [done| |].
  - cbn [app]. change (text_of ((it_kind i, text_out i) :: out_pieces l e')) with (text_out i ++ text_of (out_pieces l e')).
    destruct (text_out i) as [|c u] eqn:Eu; [done|]. intros x [= <-]. by eapply reads_head.
  - cbn [app]. split_and!; [done| |by eapply IH]. cbn [fst snd]. by rewrite text_out_pieces.
Qed.

(** The text laid out again is read as the same tokens. *)
Lemma relaid_pieces l p : relaid nl p l e -> pieces (out_of l e') = out_pieces l e' /\ terminated (out_of l e').
Proof. intros Hl. rewrite <- text_out_pieces. apply chain_pieces. by eapply chained_out. Qed.
End Relaid.
