(* ===== verification/FormatFacts.v ===== *)
(** * The formatter: properties

    Formatting keeps every token: on a text whose tokens are all terminated and
    whose carriage returns all end lines, under any options, the formatter writes the
    source's tokens in their order, so its own comparison never refuses the output. *)
From S2P Require Import Prelude Bytes Source SourceFacts Lexer LexerFacts LexerQuoted LexerLocal LexerReads Format Relayout.
Local Open Scope nat_scope.

(** ** The last line of a text *)

Lemma has_prefix_snoc u x r : x ∉ r -> r <> [] -> has_prefix (u ++ [x]) r = true -> exists t, u = r ++ t.
Proof.
  intros Hx Hr [t Ht]%has_prefix_spec. destruct t as [|y t' _] using rev_ind.
  - rewrite app_nil_r in Ht. destruct Hx. rewrite <- Ht. set_solver.
  - rewrite app_assoc in Ht. apply app_inj_tail in Ht as [-> ->]. by exists t'.
Qed.
Lemma trim_space_keeps x s : Forall (fun r : bytes => (x ∉ r) /\ r <> []) space_runes -> TrimSpace (s ++ [x]) <> [].
Proof.
  intros Hx. assert (Hl : forall n u, exists u', trim_space_left n (u ++ [x]) = u' ++ [x]).
  { induction n as [|n IH]; intros u; [by exists u|]. cbn [trim_space_left]. destruct (find _ _) as [r|] eqn:E; [|by exists u].
    apply find_some in E as [Hin Hp]. rewrite Forall_forall in Hx. destruct (Hx r) as [H1 H2]; [by apply list_elem_of_In|].
    apply has_prefix_snoc in Hp as [t ->]; [|done..]. rewrite <- app_assoc, drop_app_length. apply IH. }
  unfold TrimSpace. destruct (Hl (length (s ++ [x])) s) as [u' ->]. assert (Hr : forall n, trim_space_right n (u' ++ [x]) = u' ++ [x]).
  { intros [|n]; [done|]. cbn [trim_space_right]. destruct (find _ _) as [r|] eqn:E; [|done]. apply find_some in E as [Hin Hp].
    rewrite Forall_forall in Hx. destruct (Hx r) as [H1 H2]; [by apply list_elem_of_In|]. apply has_suffix_spec in Hp as [t Ht].
    destruct r as [|y r' _] using rev_ind; [done|]. rewrite app_assoc in Ht. apply app_inj_tail in Ht as [_ ->]. destruct H1. set_solver. }
  rewrite Hr. by intros [_ ?]%app_eq_nil.
Qed.
Lemma split_byte_snoc sep u x : x <> sep -> exists l v, split_byte sep (u ++ [x]) = l ++ [v ++ [x]].
Proof.
  intros Hx. induction u as [|c u (l & v & IH)]; cbn [app split_byte].
  - exists [], []. apply Z.eqb_neq in Hx. by rewrite Hx.
  - rewrite IH. destruct (c =? sep)%Z; [by exists ([] :: l), v|]. destruct l as [|w l]; [by exists [], (c :: v)|by exists ((c :: w) :: l), v].
Qed.
(** A text that ends with a byte that is not white space has no blank last line. *)
Definition solid (x : Z) : Prop := x <> NL /\ Forall (fun r : bytes => (x ∉ r) /\ r <> []) space_runes.
Lemma solid_not_blank u x : solid x -> blank_last_line (u ++ [x]) = false.
Proof.
  intros [Hn Hx]. unfold blank_last_line. destruct (split_byte_snoc NL u x Hn) as (l & v & ->).
  destruct l as [|w l]; [done|]. cbn [app]. destruct (l ++ [v ++ [x]]) eqn:E; [done|]. rewrite <- E. clear E.
  replace (List.last (w :: l ++ [v ++ [x]]) []) with (v ++ [x]) by (symmetry; apply (List.last_last (w :: l))).
  apply beq_false. by apply trim_space_keeps.
Qed.

(** ** The end of a written token *)

Lemma reads_not_eof k w r : w <> [] -> reads k w r -> k <> EOF.
Proof.
  intros Hw (t & Ht & <- & _). destruct w as [|c w]; [done|]. pose proof (next_token_scanned ((c :: w) ++ r) 0 c eq_refl) as (_ & _ & Hne). by rewrite Ht in Hne.
Qed.
Definition space_byte (x : Z) : bool := existsb (elem x) space_runes.
Lemma solid_test x : x <> NL -> space_byte x = false -> solid x.
Proof.
  intros Hn Hx. split; [done|]. apply Forall_forall. intros r Hr. split.
  - intros Hin. unfold space_byte in Hx. assert (existsb (elem x) space_runes = true); [|congruence].
    apply existsb_exists. exists r. split; [by apply list_elem_of_In|by apply elem_spec].
  - intros ->. by apply (bool_decide_eq_true_2 _) in Hr; vm_compute in Hr.
Qed.
Lemma solid_slash : solid "/"%ch.
Proof. by apply solid_test. Qed.
Lemma solid_quote k : solid (quote_of k).
Proof. assert (solid DQ /\ solid "'"%ch) as [??] by (split; by apply solid_test). by destruct k. Qed.
Lemma layout_end nl k w r :
  note_break nl -> k <> SLNote -> k <> Whitespace -> w <> [] -> reads k w r ->
  exists u x, layout_text nl (k, w) = u ++ [x] /\ inked x /\ elem NL (layout_text nl (k, w)) && blank_last_line (layout_text nl (k, w)) = false.
Proof.
  intros Hnl Hk Hws Hw Hr. assert (Hsolid : forall s u x, s = u ++ [x] -> solid x -> inked x ->
    exists u x, s = u ++ [x] /\ inked x /\ elem NL s && blank_last_line s = false).
  { intros s u x -> Hx Hi. exists u, x. by rewrite solid_not_blank, andb_false_r. }
  destruct (decide (comment_kind k)) as [Hc|Hc].
  { destruct (comment_layout nl k w r) as (_ & _ & u & Hu); [done..|]. apply (Hsolid _ u "/"%ch); [done|apply solid_slash|done]. }
  unfold comment_kind in Hc. rewrite (layout_same nl k w r) by naive_solver. destruct (plain k) eqn:Hp.
  - pose proof (reads_inked k w r Hp Hw Hr) as Hi. destruct w as [|x u _] using rev_ind; [done|]. exists u, x. rewrite (inked_no_nl _ Hi).
    apply Forall_app in Hi as [_ Hi]. inversion Hi; subst. done.
  - assert (Hq : k = UnrestrictedName \/ k = String).
    { pose proof (reads_not_eof k w r Hw Hr). destruct k; try done; [by left|by right|destruct Hc; by left|destruct Hc; by right]. }
    apply reads_quoted in Hr as (body & -> & _); [|done..]. apply (Hsolid _ (quote_of k :: body) (quote_of k)); [done|apply solid_quote|].
    by destruct Hq as [-> | ->].
Qed.
(** Text without line breaks is left as it is. *)
Lemma line_bytes body : no_break body = true -> Forall (fun c => c <> NL /\ c <> CR) body.
Proof.
  unfold no_break. intros H%forallb_Forall. eapply Forall_impl; [done|]. intros c Hc. unfold not_break in Hc. cbn in Hc. split; intros ->; done.
Qed.
Lemma crlf_to_nl_line body t : Forall (fun c => c <> NL /\ c <> CR) body -> crlf_to_nl (body ++ t) = body ++ crlf_to_nl t.
Proof.
  induction 1 as [|c s [H1 H2] Hs IH]; [done|]. cbn [app crlf_to_nl]. destruct (Z.eqb_spec c CR); [done|]. cbn [andb]. by rewrite IH.
Qed.
Lemma nl_to_line nl body t : Forall (fun c => c <> NL /\ c <> CR) body -> nl_to nl (body ++ t) = body ++ nl_to nl t.
Proof.
  intros Hb. rewrite nl_to_app. f_equal. unfold nl_to. induction Hb as [|c s [H1 H2] Hs IH]; [done|]. cbn [flat_map]. destruct (Z.eqb_spec c NL); [done|].
  cbn [app]. by rewrite IH.
Qed.
Lemma elem_line body : Forall (fun c => c <> NL /\ c <> CR) body -> elem NL body = false.
Proof. unfold elem. induction 1 as [|c s [H1 H2] Hs IH]; [done|]. cbn [existsb]. rewrite IH, orb_false_r. apply Z.eqb_neq. congruence. Qed.
Lemma normalize_note nl body brk :
  no_break body = true -> note_break brk -> normalizeNewlines (bs "//" ++ body ++ brk) nl = bs "//" ++ body ++ nl.
Proof.
  intros Hb Hbrk. assert (Hl : Forall (fun c => c <> NL /\ c <> CR) (bs "//" ++ body)) by (apply Forall_app; split; [by repeat constructor|by apply line_bytes]).
  unfold normalizeNewlines. rewrite !app_assoc. unfold elem. rewrite existsb_app. assert (existsb (Z.eqb NL) brk = true) as -> by (by destruct Hbrk as [-> | ->]).
  rewrite orb_true_r, crlf_to_nl_line, nl_to_line by done. f_equal. destruct Hbrk as [-> | ->]; apply app_nil_r.
Qed.
Lemma normalize_line nl body : no_break body = true -> normalizeNewlines (bs "//" ++ body) nl = bs "//" ++ body.
Proof.
  intros Hb. unfold normalizeNewlines. rewrite elem_line; [done|]. apply Forall_app. split; [by repeat constructor|by apply line_bytes].
Qed.

(** A note's line break is the formatter's, or it ends the text. *)
Lemma note_layout_text nl w r :
  no_bare_cr (w ++ r) = true -> w <> [] -> reads SLNote w r ->
  exists body brk, w = bs "//" ++ body ++ brk /\ no_break body = true /\ head body <> Some "*"%ch
    /\ ((brk = [] /\ r = [] /\ layout_text nl (SLNote, w) = bs "//" ++ body) \/ (note_break brk /\ layout_text nl (SLNote, w) = bs "//" ++ body ++ nl)).
Proof.
  intros Hcr Hw Hr. pose proof Hr as Hr0. apply reads_note in Hr as (body & tail & -> & Hb & Hh & He & Ht); [|done].
  exists body, (break_head tail). split_and!; [done|done|by destruct body|]. unfold layout_text. cbn [fst snd keepsLineEndings].
  assert (Hcases : break_head tail = [] \/ note_break (break_head tail)).
  { rewrite <- !app_assoc, <- Ht in Hcr. do 2 apply no_bare_app_r in Hcr. destruct tail as [|c tail]; [by left|]. specialize (He c eq_refl).
    cbn [no_bare_cr break_head] in *. unfold not_break in He. apply andb_true_iff in Hcr as [Hcr _]. destruct (Z.eqb_spec c CR) as [->|].
    - cbn [negb orb] in Hcr. rewrite Hcr. right. by right.
    - destruct (Z.eqb_spec c NL) as [->|]; [right; by left|done]. }
  destruct Hcases as [E|Hbrk]; [left|right; split; [done|by apply normalize_note]].
  rewrite E, app_nil_r in *. split_and!; [done|by eapply note_unbroken|by apply normalize_line].
Qed.

Lemma space_piece w r : w <> [] -> reads Whitespace w r -> spaces w.
Proof.
  intros Hw (t & Ht & Hk & _). rewrite next_token_branch in Ht by (by destruct w). set (s := w ++ r) in *.
  destruct (scan_kinds s 0) as (K1 & K2 & K3 & K4 & K5 & K6 & K7 & K8).
  pose proof (f_equal (fun x => tkKind x.1) Ht) as Hx. cbn [fst] in Hx. rewrite Hk in Hx.
  destruct (branch_at s) as [| | | | | | | |j n|] eqn:Hb; cbn [scan] in *; rewrite ?K2, ?K3, ?K4, ?K5, ?K8 in Hx; try done;
    try (rewrite Hx in *; elem_cases K6; done); try (rewrite Hx in *; elem_cases K7; done).
  - pose proof (f_equal snd Ht) as Hn. unfold scanWhitespace, token in Hn. cbn [snd] in Hn.
    destruct (advance_while_spec isSpace s 0) as [Hall _]; [lia|]. rewrite Hn in Hall. unfold s in Hall. by rewrite slice_app_r, slice_full in Hall.
  - destruct w as [|c w]; [done|]. apply dispatch_op, op_spelling in Hb as [->|[Ho _]]; cbn in Hx; [done|]. by rewrite Hx in Ho.
Qed.

(** ** The formatter's state *)

Section Run.
Context (src nl : bytes) (opts : Options).
Context (Hnl : note_break nl).

(** After a token: only a note leaves a blank end, and a break is owed only where
    white space may come. *)
Definition settled (f : formatter) : Prop :=
  if f.(started) then
    (exists b x, f.(f_buf) = b ++ [x] /\ (f.(prev) <> SLNote -> inked x))
    /\ (f.(prev) <> SLNote -> f.(atLineStart) = false) /\ (f.(owed) <> noBreak -> opts.(BreakStatements) = true /\ loose f.(prev) = true)
  else f.(f_buf) = [] /\ f.(owed) = noBreak.
(** White space seen since the last token. *)
Definition pending (f : formatter) (s : bytes) : Prop := spaces s /\ (s = [] <-> f.(pendingNL) = 0 /\ f.(pendingWS) = false).
Definition last_of (f : formatter) : option Kind := if f.(started) then Some f.(prev) else None.

Lemma run_space f s t w :
  settled f -> pending f s -> piece_of src t = (Whitespace, w) -> w <> [] -> spaces w ->
  settled (run_token src opts nl f t) /\ pending (run_token src opts nl f t) (s ++ w) /\ f_buf (run_token src opts nl f t) = f_buf f
  /\ last_of (run_token src opts nl f t) = last_of f.
Proof.
  intros Hf [Hs Hp] [= Hk Hw] Hne Hsp. unfold run_token. rewrite bool_decide_true by done. rewrite Hw. split_and!; [done| |done|done].
  split; [by apply Forall_app|]. cbn. split.
  - by intros [_ ?]%app_eq_nil.
  - intros [H1 H2]. exfalso. apply orb_false_iff in H2 as [_ H2]. apply Nat.eqb_neq in H2. lia.
Qed.

Lemma spaces_indent d c : spaces (writeIndent opts d c).
Proof. unfold writeIndent. by destruct (UseTabs opts); apply Forall_replicate. Qed.
Lemma spaces_nl : spaces nl.
Proof. destruct Hnl as [-> | ->]; by repeat constructor. Qed.
Lemma spaces_breaks n : spaces (concat (replicate n nl)).
Proof. apply Forall_concat, Forall_replicate, spaces_nl. Qed.
Lemma trailing_note f : settled f -> f.(started) = true -> 0 < trailingNewlines nl f -> f.(prev) = SLNote.
Proof.
  intros Hf Hst Ht. unfold settled in Hf. rewrite Hst in Hf. destruct Hf as [(b & x & Hb & Hx) _].
  destruct (decide (f.(prev) = SLNote)) as [|Hne]; [done|]. specialize (Hx Hne). exfalso. unfold trailingNewlines in Ht.
  destruct (length (f_buf f)); [cbn in Ht; lia|]. cbn [trailing_newlines] in Ht. destruct (has_suffix (f_buf f) nl) eqn:E; [|lia].
  apply has_suffix_spec in E as [u Hu]. assert (exists nl', nl = nl' ++ [NL]) as [nl' Hn] by (destruct Hnl as [-> | ->]; [by exists []|by exists [CR]]).
  rewrite Hn, Hb, app_assoc in Hu. apply app_inj_tail in Hu as [_ ->]. done.
Qed.

(** The kinds that [wantSpace] and [breakBefore] decide by. *)
Lemma wantSpace_cases f t : wantSpace f t = true \/ tkKind t ∈ bracket_kinds \/ loose f.(prev) = true.
Proof.
  unfold wantSpace. destruct (tkKind t) eqn:E; try (right; left; by apply (bool_decide_eq_true_1 _));
    (destruct (prev f) eqn:Ep; try (by left); right; right; reflexivity).
Qed.
Lemma breakBefore_cases f t : breakBefore f t = true -> f.(owed) <> noBreak \/ tkKind t ∈ bracket_kinds.
Proof.
  unfold breakBefore. destruct (IsTrivia t); [done|]. destruct (owed f); [|by left|by left]. intros [H _]%andb_true_iff. apply bool_decide_eq_true in H.
  right. rewrite H. by apply (bool_decide_eq_true_1 _).
Qed.
Lemma track_owed f t : (trackStatement f t).1 <> noBreak -> loose (tkKind t) = true.
Proof. unfold trackStatement. destruct (tkKind t) eqn:E; done || (intros _; reflexivity). Qed.

Definition breaks_at (f : formatter) (t : Token) : bool := opts.(BreakStatements) && (f.(pendingNL) =? 0) && f.(started) && breakBefore f t.
(** The white space [emit] writes before a token. *)
Definition emitted_space (f : formatter) (t : Token) : bytes :=
  let n := if breaks_at f t then 1 else f.(pendingNL) in
  let depth := if bool_decide (tkKind t = RBrace) then f.(depth) - 1 else f.(depth) in
  if 0 <? n then (if f.(started) then concat (replicate ((if 1 <? n then 2 else 1) - trailingNewlines nl f) nl) else []) ++ writeIndent opts depth (continues f t)
  else (if f.(pendingWS) && f.(started) && negb f.(atLineStart) && wantSpace f t then [" "%ch] else [])
       ++ (if f.(atLineStart) then writeIndent opts depth (continues f t) else []).
Lemma emit_buf f t : f_buf (emit src opts nl f t) = f_buf f ++ emitted_space f t ++ layout_text nl (piece_of src t).
Proof.
  rewrite <- emitted_layout. unfold emit, emitted_space. fold (breaks_at f t). set (b := breaks_at f t). unfold separator. cbn [pendingNL started pendingWS atLineStart].
  destruct (0 <? (if b then 1 else pendingNL f)); cbn; destruct (if BreakStatements opts then _ else _); cbn; by rewrite <- !app_assoc.
Qed.
Lemma emitted_spaces f t : spaces (emitted_space f t).
Proof.
  unfold emitted_space. destruct (0 <? _); apply Forall_app; (split; [|try apply spaces_indent]).
  - destruct (started f); [apply spaces_breaks|constructor].
  - destruct (_ && _); by repeat constructor.
  - destruct (atLineStart f); [apply spaces_indent|constructor].
Qed.
(** White space comes or goes only where it may. *)
Lemma emitted_gap f s t :
  settled f -> pending f s -> f.(started) = true -> loose f.(prev) = false -> (s = [] <-> emitted_space f t = []) \/ tkKind t ∈ bracket_kinds.
Proof.
  intros Hf [_ Hp] Hst Hl. assert (Hnote : f.(prev) <> SLNote) by (by intros E; rewrite E in Hl).
  pose proof (trailing_note f Hf Hst) as Htr. unfold settled in Hf. rewrite Hst in Hf. destruct Hf as (_ & Hline & Howed).
  destruct (decide (tkKind t ∈ bracket_kinds)) as [|Hb]; [by right|left]. unfold emitted_space. rewrite (Hline Hnote), Hst.
  assert (Hbr : breaks_at f t = false).
  { destruct (breaks_at f t) eqn:E; [|done]. unfold breaks_at in E. apply andb_true_iff in E as [_ E].
    apply breakBefore_cases in E as [E|]; [|done]. apply Howed in E as [_ E]. congruence. }
  rewrite Hbr. destruct (Nat.ltb_spec 0 (pendingNL f)) as [Hn|Hn].
  - split; [intros E; apply Hp in E; lia|]. intros [E _]%app_eq_nil. exfalso. assert (trailingNewlines nl f = 0) as E0.
    { destruct (trailingNewlines nl f); [done|]. destruct Hnote. apply Htr. lia. }
    rewrite E0 in E. destruct (1 <? pendingNL f); cbn in E; by destruct Hnl as [E1|E1]; rewrite E1 in E.
  - rewrite app_nil_r. destruct (wantSpace_cases f t) as [Hw|[|]]; [|done|congruence]. rewrite Hw, Hp. cbn [negb]. rewrite !andb_true_r.
    destruct (pendingWS f); split; intros H; try done; [by destruct H|split; [lia|done]].
Qed.

Lemma layout_last k w r :
  k <> Whitespace -> w <> [] -> reads k w r -> no_bare_cr (w ++ r) = true ->
  exists u x, layout_text nl (k, w) = u ++ [x] /\ (k <> SLNote -> inked x)
    /\ (k <> SLNote -> elem NL (layout_text nl (k, w)) && blank_last_line (layout_text nl (k, w)) = false).
Proof.
  intros Hk Hw Hr Hcr. destruct (decide (k = SLNote)) as [->|Hn].
  - assert (Hne : layout_text nl (SLNote, w) <> []).
    { destruct (note_layout_text nl w r) as (body & brk & _ & _ & _ & [(_ & _ & ->)|(_ & ->)]); done. }
    destruct (exists_last Hne) as (u & x & ->). by exists u, x.
  - destruct (layout_end nl k w r) as (u & x & -> & Hx & Hb); [done..|]. by exists u, x.
Qed.
Lemma emit_owed f t :
  (f.(owed) <> noBreak -> opts.(BreakStatements) = true) -> owed (emit src opts nl f t) <> noBreak -> opts.(BreakStatements) = true /\ loose (tkKind t) = true.
Proof.
  intros Hf. unfold emit. set (f1 := {| f_buf := _ |}). destruct (separator _ _ _). pose proof (track_owed f1 t) as Ht.
  destruct (BreakStatements opts); [|intros Ho; by specialize (Hf Ho)]. destruct (trackStatement f1 t). cbn. auto.
Qed.
Lemma run_emit f s t k w r :
  settled f -> pending f s -> piece_of src t = (k, w) -> k <> Whitespace -> w <> [] -> reads k w r -> no_bare_cr (w ++ r) = true ->
  let f' := run_token src opts nl f t in
  f_buf f' = f_buf f ++ emitted_space f t ++ layout_text nl (k, w) /\ settled f' /\ pending f' [] /\ last_of f' = Some k /\ f'.(openComment) = Unterminated t.
Proof.
  intros Hf Hp Ht Hk Hw Hr Hcr f'. subst f'. unfold run_token. pose proof Ht as Ht'. injection Ht' as Hkt Hwt. rewrite bool_decide_false by congruence.
  rewrite emit_buf, Ht. split; [done|].
  destruct (layout_last k w r) as (u & x & Hu & Hx & Hline); [done..|].
  assert (Hemit : started (emit src opts nl f t) = true /\ prev (emit src opts nl f t) = k /\ pendingNL (emit src opts nl f t) = 0
      /\ pendingWS (emit src opts nl f t) = false /\ openComment (emit src opts nl f t) = Unterminated t
      /\ atLineStart (emit src opts nl f t) = elem NL (layout_text nl (k, w)) && blank_last_line (layout_text nl (k, w))).
  { rewrite <- Ht, <- emitted_layout. unfold emit. destruct (separator _ _ _). by destruct (if BreakStatements opts then _ else _). }
  destruct Hemit as (E1 & E2 & E3 & E4 & E5 & E6). split_and!; [| |by unfold last_of; rewrite E1, E2|done].
  - unfold settled. rewrite E1, E2, E6, emit_buf, Ht, Hu. split_and!; [exists (f_buf f ++ emitted_space f t ++ u), x|by rewrite <- Hu|].
    + by rewrite <- !app_assoc.
    + intros Ho. rewrite <- Hkt. eapply emit_owed; [|done]. unfold settled in Hf. destruct (started f); [intros H; by apply Hf in H as [? _]|]. by destruct Hf as [_ ->].
  - split; [constructor|]. by rewrite E3, E4.
Qed.

Definition token_pieces (l : list piece) : list piece := filter (fun p => p.1 <> Whitespace) l.
Definition written_by (l : list item) : Prop := Forall (fun i => i.(text_out) = layout_text nl i.(it)) l.
Definition out_body (l : list item) : bytes := concat (map (fun i => i.(ws_out) ++ i.(text_out)) l).

(** *** The white space as a function *)

(** The state but for what was written and what is pending. *)
Definition lay_of (f : formatter) : formatter :=
  {| f_buf := []; depth := f.(depth); atLineStart := f.(atLineStart); pendingNL := 0; pendingWS := false; prev := f.(prev); started := f.(started);
     lastCode := f.(lastCode); openComment := false; braces := f.(braces); open := f.(open); owed := f.(owed); stmtKeyword := f.(stmtKeyword);
     stmtLen := f.(stmtLen); afterEntry := f.(afterEntry) |}.
Definition lay_with (f : formatter) (s : bytes) : formatter :=
  {| f_buf := []; depth := f.(depth); atLineStart := f.(atLineStart); pendingNL := count_nl s; pendingWS := negb (bool_decide (s = [])); prev := f.(prev);
     started := f.(started); lastCode := f.(lastCode); openComment := false; braces := f.(braces); open := f.(open); owed := f.(owed);
     stmtKeyword := f.(stmtKeyword); stmtLen := f.(stmtLen); afterEntry := f.(afterEntry) |}.
Definition keyword_of (p : piece) : bytes := if bool_decide (p.1 = Keyword) then p.2 else [].
Definition piece_token (p : piece) : Token :=
  {| tkKind := p.1; tkSpan := span 0 (length p.2); KeywordID := keyword_of p; Unterminated := false; BadEscape := false |}.
Definition keyworded (t : Token) : Prop := KeywordID t = keyword_of (piece_of src t).
(** The white space written before a token after [s], and the state after it. *)
Definition lay_space (y : formatter) (s : bytes) (p : piece) : bytes := emitted_space (lay_with y s) (piece_token p).
Definition lay_next (y : formatter) (p : piece) : formatter := lay_of (emit p.2 opts nl y (piece_token p)).
Fixpoint laid (y : formatter) (l : list item) : Prop :=
  match l with
  | [] => True
  | i :: l' => i.(ws_out) = lay_space y i.(ws_in) i.(it) /\ laid (lay_next y i.(it)) l'
  end.
Definition pending_nl (f : formatter) (s : bytes) : Prop := f.(pendingNL) = count_nl s.

Lemma count_nl_app a b : count_nl (a ++ b) = count_nl a + count_nl b.
Proof. induction a as [|c a IH]; [done|]. cbn. rewrite IH. lia. Qed.
Lemma breakBefore_lay f s t : keyworded t -> breakBefore f t = breakBefore (lay_with (lay_of f) s) (piece_token (piece_of src t)).
Proof. intros Hk. unfold breakBefore, joinsStatement. cbn [KeywordID piece_token]. by rewrite <- Hk. Qed.
Lemma emitted_lay f s t :
  keyworded t -> settled f -> pending f s -> pending_nl f s -> f.(prev) <> SLNote -> emitted_space f t = lay_space (lay_of f) s (piece_of src t).
Proof.
  intros Hkw Hf [_ Hp] Hn Hprev. unfold pending_nl in Hn. unfold lay_space, emitted_space, breaks_at.
  rewrite (breakBefore_lay f s t Hkw). cbn [pendingNL started lay_with lay_of]. rewrite Hn.
  change (continues (lay_with (lay_of f) s) (piece_token (piece_of src t))) with (continues f t).
  change (wantSpace (lay_with (lay_of f) s) (piece_token (piece_of src t))) with (wantSpace f t).
  assert (Htr : started f = true -> trailingNewlines nl f = 0).
  { intros Hst. destruct (trailingNewlines nl f) eqn:E; [done|]. destruct Hprev. apply trailing_note; [done..|lia]. }
  assert (Hws : count_nl s = 0 -> pendingWS f = negb (bool_decide (s = []))).
  { intros H0. case_bool_decide as Hs; [by apply Hp in Hs as [_ ->]|]. destruct (pendingWS f) eqn:E; [done|]. destruct Hs. apply Hp. split; [lia|done]. }
  cbn [tkKind piece_token piece_of fst depth atLineStart pendingWS lay_with lay_of]. destruct (started f) eqn:Hst.
  - rewrite (Htr eq_refl). destruct (count_nl s) eqn:Ec; [by rewrite Hws|]. by rewrite (andb_false_r _ : BreakStatements opts && (S n =? 0) = false).
  - rewrite !andb_false_r. cbn [andb]. by destruct (count_nl s).
Qed.
Lemma emit_lay f t : keyworded t -> lay_of (emit src opts nl f t) = lay_next (lay_of f) (piece_of src t).
Proof.
  intros Hk. unfold lay_next. assert (Htext : emitted_text (piece_of src t).2 nl (piece_token (piece_of src t)) = emitted_text src nl t).
  { unfold emitted_text. assert (H : token_text (piece_of src t).2 (piece_token (piece_of src t)) = token_text src t); [|by rewrite H].
    unfold token_text at 1. unfold piece_token, span, End. cbn [tkSpan Offset Len]. rewrite Nat.add_0_l, Nat.sub_0_r. apply slice_full. }
  unfold emit. rewrite Htext. destruct (separator _ _ _) as [s1 l1]. destruct (separator _ _ _) as [s2 l2].
  destruct (BreakStatements opts); [|done]. unfold trackStatement. cbn [KeywordID piece_token]. rewrite <- Hk. cbn [tkKind piece_token piece_of fst].
  unfold innermost. cbn [open set_statement lay_of]. by destruct (tkKind t); cbn [fst snd]; try reflexivity; destruct (open f).
Qed.

(** What the loop writes for the pieces of a text. *)
Lemma run_items toks f s :
  chained (map (piece_of src) toks) -> Forall (fun t => Unterminated t = false) toks -> Forall keyworded toks ->
  no_bare_cr (text_of (map (piece_of src) toks)) = true -> settled f -> pending f s ->
  f.(openComment) = false ->
  exists l e, spaced (last_of f) l e /\ written_by l /\ spaces e /\ s ++ text_of (map (piece_of src) toks) = src_of l e
    /\ token_pieces (map (piece_of src) toks) = map it l
    /\ (pending_nl f s -> f.(prev) <> SLNote -> Forall (fun i => it_kind i <> SLNote) l -> laid (lay_of f) l)
    /\ let f' := fold_left (run_token src opts nl) toks f in
       f_buf f' = f_buf f ++ out_body l /\ f'.(started) = f.(started) || negb (bool_decide (l = [])) /\ f'.(openComment) = false.
Proof.
  revert f s. induction toks as [|t toks IH]; intros f s Hc Hterm Hkw Hcr Hf Hp Hopen.
  { exists [], s. change (out_body []) with (@nil Z). change (text_of (map (piece_of src) [])) with (@nil Z). rewrite !app_nil_r. cbn [fold_left].
    rewrite bool_decide_true, orb_false_r by done. split_and!; try done; [constructor|apply Hp]. }
  cbn [map] in *. destruct (piece_of src t) as [k w] eqn:Ht. change (text_of ((k, w) :: ?l)) with (w ++ text_of l) in *.
  destruct Hc as (Hw & Hr & Hc).  inversion Hterm as [|? ? Hu Hterm']; subst. inversion Hkw as [|? ? Hkt Hkw']; subst. cbn [fst snd fold_left] in *.
  apply no_bare_app_r in Hcr as Hcr'. destruct (decide (k = Whitespace)) as [->|Hk].
  - destruct (run_space f s t w) as (Hf' & Hp' & Hb & Hl); [done..|by eapply space_piece|].
    destruct (IH (run_token src opts nl f t) (s ++ w)) as (l & e & H1 & H2 & H3 & H4 & H5 & H9 & H6 & H7 & H8); try done.
    { unfold run_token. rewrite bool_decide_true; [done|by injection Ht]. }
    assert (Hrt : pendingNL (run_token src opts nl f t) = pendingNL f + count_nl w /\ lay_of (run_token src opts nl f t) = lay_of f
             /\ prev (run_token src opts nl f t) = prev f /\ started (run_token src opts nl f t) = started f).
    { injection Ht as Hk <-. unfold run_token. by rewrite bool_decide_true. }
    destruct Hrt as (R1 & R2 & R3 & R4). exists l, e. rewrite <- Hl, app_assoc. split_and!; try done; [|by rewrite H6, Hb|by rewrite H7, R4].
    intros B2 B3 B4. rewrite <- R2. apply H9; [|by rewrite R3|done]. unfold pending_nl in *. by rewrite R1, B2, count_nl_app.
  - destruct (run_emit f s t k w (text_of (map (piece_of src) toks))) as (Hb & Hf' & Hp' & Hl & Ho); [done..|].
    destruct (IH (run_token src opts nl f t) []) as (l & e & H1 & H2 & H3 & H4 & H5 & H9 & H6 & H7 & H8); try done; [by rewrite Ho|].
    set (i := {| ws_in := s; it := (k, w); ws_out := emitted_space f t; text_out := layout_text nl (k, w) |}). exists (i :: l), e.
    assert (Hs : started (run_token src opts nl f t) = true) by (unfold last_of in Hl; by destruct (started (run_token _ _ _ _ _))).
    split_and!; [| |done| | | | | |done].
    + cbn [spaced]. cbn [app] in H4. rewrite <- H4. rewrite Hl in H1. split_and!; try done; [apply Hp|apply emitted_spaces|].
      unfold gap, last_of. destruct (started f) eqn:Es; [|done]. intros El. destruct (emitted_gap f s t) as [|Hb']; [done..|by left|].
      right. by injection Ht as <- _.
    + by constructor.
    + rewrite src_of_cons, <- H4. done.
    + unfold token_pieces in *. rewrite filter_cons_True by done. cbn [map]. f_equal. exact H5.
    + intros B2 B3 B4. apply Forall_cons_1 in B4 as [B4 B5].
      assert (Hrun : run_token src opts nl f t = emit src opts nl f t) by (unfold run_token; injection Ht as E _; by rewrite bool_decide_false by congruence).
      unfold i. cbn [laid ws_out ws_in it]. split; [by rewrite (emitted_lay f s t), Ht|]. rewrite <- Ht, <- emit_lay, <- Hrun by done.
      apply H9; [exact (proj1 (proj1 (proj2 Hp') eq_refl))| |done]. unfold last_of in Hl. rewrite Hs in Hl. injection Hl as ->. exact B4.
    + rewrite H6, Hb. unfold out_body. cbn [map concat]. by rewrite <- !app_assoc.
    + rewrite H7, Hs, (bool_decide_false (i :: l = [])) by done. by rewrite orb_true_r.
Qed.
End Run.

(** ** The end of the text *)

Lemma trim_right_end cut u x : elem x cut = false -> trim_right cut (u ++ [x]) = u ++ [x].
Proof. intros Hx. unfold trim_right. rewrite rev_app_distr. cbn [rev app trim_left]. rewrite Hx. cbn [rev]. by rewrite rev_involutive. Qed.
Lemma trim_right_drop cut u v : forallb (fun c => elem c cut) v = true -> trim_right cut (u ++ v) = trim_right cut u.
Proof.
  intros Hv. unfold trim_right. rewrite rev_app_distr. f_equal. induction v as [|c v IH] using rev_ind; [done|].
  rewrite forallb_app in Hv. apply andb_true_iff in Hv as [Hv Hc]. cbn in Hc. rewrite andb_true_r in Hc.
  rewrite rev_app_distr. cbn [rev app trim_left]. rewrite Hc. by apply IH.
Qed.

Section Finish.
Context (nl : bytes).
Context (Hnl : note_break nl).

(** A note the formatter wrote, under the line break [run] ends the text with. *)
Definition ended (i : item) : item :=
  if decide (it_kind i = SLNote) then {| ws_in := i.(ws_in); it := i.(it); ws_out := i.(ws_out); text_out := trim_right [CR; NL] i.(text_out) ++ nl |} else i.
Fixpoint end_break (l : list item) : bytes :=
  match l with [] => nl | [i] => if decide (it_kind i = SLNote) then [] else nl | _ :: l' => end_break l' end.

Lemma trim_breaks u : trim_right [CR; NL] (u ++ nl) = trim_right [CR; NL] u.
Proof. apply trim_right_drop. by destruct Hnl as [-> | ->]. Qed.
Lemma trim_line u body : no_break body = true -> trim_right [CR; NL] (u ++ bs "//" ++ body) = u ++ bs "//" ++ body.
Proof.
  intros Hb. assert (Hn : bs "//" ++ body <> []) by done. assert (Hl : no_break (bs "//" ++ body) = true) by (unfold no_break in *; by rewrite forallb_app, Hb).
  destruct (exists_last Hn) as (v & x & E). rewrite E in *. rewrite app_assoc. apply trim_right_end. unfold no_break in Hl. rewrite forallb_app in Hl.
  apply andb_true_iff in Hl as [_ Hl]. cbn in Hl. rewrite andb_true_r in Hl. unfold not_break in Hl. apply andb_true_iff in Hl as [H1 H2].
  apply negb_true_iff in H1, H2. unfold elem. cbn [existsb]. by rewrite H1, H2.
Qed.
Lemma inked_kept x : inked x -> elem x [CR; NL] = false.
Proof. intros Hx. destruct (elem x [CR; NL]) eqn:E; [|done]. apply elem_spec in E. elem_cases E; by subst x. Qed.

Lemma ended_note i r :
  it_kind i = SLNote -> text_out i = layout_text nl (it i) -> (it i).2 <> [] -> reads SLNote (it i).2 r -> no_bare_cr ((it i).2 ++ r) = true ->
  written nl (it i) (text_out (ended i)) /\ (r <> [] -> ended i = i) /\ forall u, trim_right [CR; NL] (u ++ text_out i) ++ nl = u ++ text_out (ended i).
Proof.
  intros Hk Ht Hw Hr Hcr. destruct i as [wi [k w] wo w']. unfold it_kind, ended, written in *. cbn [it fst snd text_out ws_in ws_out] in *. subst k.
  unfold it_kind. cbn [it fst]. rewrite !decide_True by done. cbn [text_out].
  destruct (note_layout_text nl w r) as (body & brk & -> & Hb & Hh & Hbrk); [done..|].
  assert (Ht' : trim_right [CR; NL] w' = bs "//" ++ body).
  { rewrite Ht. destruct Hbrk as [(_ & _ & ->)|(_ & ->)]; [by apply (trim_line [])|]. rewrite (app_assoc _ body), trim_breaks. by apply (trim_line []). }
  rewrite Ht'. split_and!.
  - exists body, brk. rewrite <- app_assoc. split_and!; try done. destruct Hbrk as [[? _]|[? _]]; [by left|by right].
  - intros Hne. f_equal. rewrite Ht. destruct Hbrk as [(_ & ? & _)|(_ & ->)]; [done|by rewrite <- app_assoc].
  - intros u. rewrite Ht, (app_assoc u). f_equal. destruct Hbrk as [(_ & _ & ->)|(_ & ->)]; [by apply trim_line|].
    rewrite (app_assoc _ body), (app_assoc u), trim_breaks. by apply trim_line.
Qed.
Lemma ended_other i r :
  it_kind i <> SLNote -> it_kind i <> Whitespace -> text_out i = layout_text nl (it i) -> (it i).2 <> [] -> reads (it_kind i) (it i).2 r ->
  ended i = i /\ written nl (it i) (text_out i) /\ forall u, trim_right [CR; NL] (u ++ text_out i) = u ++ text_out i.
Proof.
  intros Hk Hws Ht Hw Hr. unfold ended. rewrite decide_False by done. split; [done|]. destruct i as [wi [k w] wo w']. unfold it_kind, written in *.
  cbn [it fst snd text_out] in *. rewrite decide_False by done. split; [done|]. intros u. rewrite Ht.
  destruct (layout_end nl k w r) as (v & x & -> & Hx & _); [done..|]. rewrite app_assoc. apply trim_right_end. by apply inked_kept.
Qed.

Lemma ended_it i : it (ended i) = it i.
Proof. unfold ended. by case_decide. Qed.
Lemma ended_ws i : ws_out (ended i) = ws_out i.
Proof. unfold ended. by case_decide. Qed.
Lemma ended_split i r :
  it_kind i <> Whitespace -> text_out i = layout_text nl (it i) -> (it i).2 <> [] -> reads (it_kind i) (it i).2 r -> no_bare_cr ((it i).2 ++ r) = true ->
  written nl (it i) (text_out (ended i)) /\ (r <> [] -> ended i = i)
  /\ forall u, trim_right [CR; NL] (u ++ text_out i) ++ nl = u ++ text_out (ended i) ++ end_break [i].
Proof.
  intros Hws Ht Hw Hr Hcr. cbn [end_break]. destruct (decide (it_kind i = SLNote)) as [Hk|Hk].
  - rewrite Hk in Hr. destruct (ended_note i r) as (H1 & H2 & H3); [done..|]. split_and!; [done..|]. intros u. by rewrite app_nil_r.
  - destruct (ended_other i r) as (H1 & H2 & H3); [done..|]. rewrite H1. split_and!; [done..|]. intros u. by rewrite H3, app_assoc.
Qed.

Lemma ended_src l e : src_of (map ended l) e = src_of l e.
Proof. induction l as [|i l IH]; [done|]. cbn [map]. rewrite !src_of_cons, IH, ended_it. unfold ended. by case_decide. Qed.
Lemma ended_unchanged l : Forall (fun i => it_kind i <> SLNote) l -> map ended l = l.
Proof. induction 1 as [|i l Hi Hl IH]; [done|]. cbn [map]. rewrite IH. unfold ended. by rewrite decide_False. Qed.
Lemma end_break_nl l : Forall (fun i => it_kind i <> SLNote) l -> end_break l = nl.
Proof. induction 1 as [|i l Hi Hl IH]; [done|]. cbn [end_break]. destruct l; [by rewrite decide_False|done]. Qed.
Lemma spaces_end_break l : spaces (end_break l).
Proof.
  assert (spaces nl) by by apply spaces_nl. induction l as [|i [|j l] IH]; [done| |exact IH]. cbn [end_break]. case_decide; [constructor|done].
Qed.
Lemma ended_spaced p l e : spaced p l e -> spaced p (map ended l) e.
Proof.
  assert (Hi : forall i, ws_in (ended i) = ws_in i /\ ws_out (ended i) = ws_out i /\ it (ended i) = it i) by (intros i; unfold ended; by case_decide).
  revert p. induction l as [|i l IH]; intros p; [done|]. cbn [map spaced]. unfold gap, it_kind. destruct (Hi i) as (-> & -> & ->). rewrite ended_src. naive_solver.
Qed.
Lemma ended_text p l e u :
  spaced p l e -> written_by nl l -> no_bare_cr (src_of l e) = true ->
  Forall (fun i => written nl (it i) (text_out i)) (map ended l)
  /\ (l <> [] -> trim_right [CR; NL] (u ++ out_body l) ++ nl = u ++ out_of (map ended l) (end_break l)).
Proof.
  revert p u. induction l as [|i l IH]; intros p u Hl Hw Hcr; [by split; [constructor|]|]. destruct Hl as (_ & _ & Hws & Hne & Hr & _ & Hl).
  apply Forall_cons_1 in Hw as [Hi Hw]. rewrite src_of_cons in Hcr. apply no_bare_app_r in Hcr. pose proof (no_bare_app_r _ _ Hcr) as Hcr'.
  destruct (IH _ (u ++ ws_out i ++ text_out i) Hl Hw Hcr') as [IH1 IH2]. cbn [map]. unfold out_body. cbn [map concat]. fold (out_body l).
  destruct (ended_split i (src_of l e)) as (H1 & H2 & H3); [done..|]. split; [by constructor; [rewrite ended_it|]|]. intros _. destruct l as [|j l].
  - unfold out_body, out_of. cbn [map concat]. rewrite !app_nil_r, app_assoc, H3, ended_ws. by rewrite <- !app_assoc.
  - rewrite H2; [|destruct Hl as (_ & _ & _ & Hj & _); rewrite src_of_cons; intros E; apply app_eq_nil in E as [_ E]; apply app_eq_nil in E as [E _]; done].
    rewrite out_of_cons. replace (u ++ (ws_out i ++ text_out i) ++ out_body (j :: l)) with ((u ++ ws_out i ++ text_out i) ++ out_body (j :: l)) by (by rewrite <- !app_assoc).
    rewrite IH2 by done. by rewrite <- !app_assoc.
Qed.
End Finish.

(** ** Keywords *)

(** A keyword's identifier is its text. *)
Lemma next_keyworded src p : keyworded src (next_token src p).1.
Proof.
  unfold keyworded. destruct (src !! p) as [c|] eqn:Hc; [|unfold next_token; by rewrite Hc].
  destruct (next_token_scanned _ _ _ Hc) as (Hs & Hb & _). unfold keyword_of, piece_of. cbn [fst snd].
  assert (Ht : token_text src (next_token src p).1 = slice src p (next_token src p).2).
  { unfold token_text. rewrite Hs. unfold span, End. cbn [Offset Len]. f_equal. lia. }
  rewrite Ht. clear Ht Hs Hb. unfold next_token. rewrite Hc. set (p1 := peek src p 1). set (p2 := peek src p 2).
  assert (Hop : forall k n, op c p1 p2 = Some (k, n) -> k <> Keyword).
  { intros k n Ho ->. by apply op_spelling in Ho as [|[Ho _]]. }
  unfold op in Hop. repeat match goal with |- context [if ?b then scanWhitespace _ _ else _] => destruct b; [done|] end.
  destruct (_ && _ && _); [done|]. destruct (_ && _); [done|]. destruct (_ && _); [done|].
  destruct (IsIdentStart c). { unfold scanIdentOrKeyword. by destruct (in_set _ _). }
  assert (Hq : forall q k, k <> Keyword -> let r := scanQuoted src p q k in KeywordID r.1 = (if bool_decide (tkKind r.1 = Keyword) then slice src p r.2 else [])).
  { intros q k Hk. unfold scanQuoted. destruct (q_closed _); [|destruct (q_line _) as [[]|]]; cbn; by rewrite bool_decide_false. }
  destruct (c =? "'"%ch)%Z; [by apply Hq|].
  assert (Hn : let r := scanNumber src p in KeywordID r.1 = (if bool_decide (tkKind r.1 = Keyword) then slice src p r.2 else [])).
  { unfold scanNumber. case_bool_decide; [done|]. destruct (match src !! _ with Some _ => _ | None => _ end) as [q r]. destruct (consumeExponent src q) as [q' x]. by destruct (r || x). }
  destruct (_ && _); [exact Hn|]. destruct (_ && _); [exact Hn|]. destruct (c =? DQ)%Z; [by apply Hq|].
  destruct (operator c p1 p2) as [[k n]|]; [cbn; rewrite bool_decide_false; [done|by eapply Hop]|].
  destruct (singleCharKind c) as [k|]; [|done]. cbn. rewrite bool_decide_false; [done|by eapply Hop].
Qed.
Lemma tokenize_keyworded src : Forall (keyworded src) (tokenize src).
Proof.
  unfold tokenize, New. generalize (S (length src)). generalize 0. intros p n. destruct (tokens n _) as [l|] eqn:E; [|constructor].
  assert (H : Forall (keyworded src) l).
  { revert p l E. induction n as [|n IH]; intros p l; [done|]. cbn [tokens]. unfold Next. cbn [Lexer.src pos]. pose proof (next_keyworded src p) as Hk.
    destruct (next_token src p) as [t p']. case_decide; [intros [= <-]; by repeat constructor|].
    destruct (tokens n _) as [l'|] eqn:E'; [|done]. intros [= <-]. constructor; [done|by eapply IH]. }
  clear E. induction H as [|t l Ht H IH]; [constructor|]. cbn [removelast]. destruct l; [constructor|by constructor].
Qed.

(** ** Formatting keeps the tokens *)

Lemma new_settled opts b : settled opts (new_formatter b).
Proof. done. Qed.
Lemma new_pending b : pending (new_formatter b) [].
Proof. by split; [constructor|]. Qed.

(** The output is the source laid out again. *)
Lemma run_relaid src nl opts :
  note_break nl -> terminated src -> no_bare_cr src = true ->
  exists l e e', relaid nl None l e /\ spaces e /\ spaces e' /\ src = src_of l e /\ run src opts nl (tokenize src) = out_of l e'
    /\ token_pieces (pieces src) = map it l
    /\ (Forall (fun i => it_kind i <> SLNote) l ->
        laid nl opts (lay_of (new_formatter (if opts.(BreakStatements) then classifyBraces (tokenize src) else []))) l /\ e' = match l with [] => [] | _ => nl end).
Proof.
  intros Hnl Hterm Hcr. destruct (pieces_chain src Hterm) as [Hc Htext]. set (f := new_formatter (if BreakStatements opts then classifyBraces (tokenize src) else [])).
  destruct (run_items src nl opts Hnl (tokenize src) f []) as (l & e & H1 & H2 & H3 & H4 & H5 & H9 & H6 & H7 & H8);
    [done|done|apply tokenize_keyworded|by rewrite <- Htext in Hcr|apply new_settled|apply new_pending|done|].
  change (map (piece_of src) (tokenize src)) with (pieces src) in *. cbn [app] in H4. rewrite Htext in H4.
  unfold run. fold f. rewrite H6, H7, H8. cbn [negb]. rewrite andb_true_r. change (started f) with false. change (f_buf f) with (@nil Z). cbn [orb app].
  destruct (bool_decide (l = [])) eqn:El.
  - apply bool_decide_eq_true in El as ->. exists [], e, []. split_and!; try done. constructor.
  - apply bool_decide_eq_false in El. cbn [negb]. rewrite H4 in Hcr. destruct (ended_text nl Hnl _ _ _ [] H1 H2 Hcr) as [Hw Hb].
    exists (map (ended nl) l), e, (end_break nl l). split_and!; [|done| | | | |].
    + apply spaced_relaid; [by apply ended_spaced|done].
    + by apply spaces_end_break.
    + by rewrite ended_src.
    + by apply Hb.
    + rewrite H5, map_map. apply map_ext. intros i. by rewrite ended_it.
    + intros B2. assert (B3 : Forall (fun i => it_kind i <> SLNote) l).
      { clear -B2. induction l as [|i l IH]; [done|]. cbn [map] in B2. apply Forall_cons_1 in B2 as [B1 B2]. constructor; [|by apply IH].
        unfold it_kind in *. by rewrite ended_it in B1. }
      rewrite ended_unchanged, end_break_nl by done. split; [|by destruct l]. apply H9; try done.
Qed.

(** What [significant] reads of a piece. *)
Definition sig_piece (p : piece) : bytes :=
  let text := layout_text [NL] p in Kind_String p.1 ++ bs " " ++ (if bool_decide (p.1 = SLNote) then trim_suffix text [NL] else text).
Lemma significant_pieces src : significant src = map sig_piece (token_pieces (pieces src)).
Proof.
  unfold significant, pieces, token_pieces. induction (tokenize src) as [|t l IH]; [done|]. cbn [map].
  destruct (decide (tkKind t = Whitespace)) as [E|E].
  - rewrite filter_cons_False by tauto. rewrite IH. symmetry. f_equal. apply filter_cons_False. cbn. tauto.
  - rewrite filter_cons_True by done. cbn [map]. rewrite IH. symmetry. etransitivity; [apply (f_equal (map sig_piece)), filter_cons_True; done|]. done.
Qed.
Lemma trim_suffix_nl s : trim_suffix (s ++ [NL]) [NL] = s.
Proof.
  unfold trim_suffix. assert (has_suffix (s ++ [NL]) [NL] = true) as -> by (apply has_suffix_spec; eauto).
  rewrite length_app. cbn [length]. replace (length s + 1 - 1) with (length s) by lia. apply take_app_length.
Qed.
Lemma trim_suffix_line s : no_break s = true -> trim_suffix (bs "//" ++ s) [NL] = bs "//" ++ s.
Proof.
  intros Hs. unfold trim_suffix. destruct (has_suffix _ _) eqn:E; [|done]. exfalso. apply has_suffix_spec in E as [t E].
  destruct s as [|x u _] using rev_ind; [by destruct t as [|? [|? [|]]]|]. rewrite app_assoc in E. apply app_inj_tail in E as [_ ->].
  unfold no_break in Hs. rewrite forallb_app in Hs. apply andb_true_iff in Hs as [_ Hs]. done.
Qed.
(** It is the same of a token and of the text written for it. *)
Lemma sig_written nl k w w' r :
  note_break nl -> k <> Whitespace -> w <> [] -> reads k w r -> no_bare_cr (w ++ r) = true -> written nl (k, w) w' -> sig_piece (k, w') = sig_piece (k, w).
Proof.
  intros Hnl Hk Hw Hr Hcr H. unfold sig_piece. cbn [fst]. do 2 f_equal. destruct (decide (k = SLNote)) as [->|Hn].
  - apply written_note in H as (body & brk & -> & Hb & _ & Hbrk & ->). unfold layout_text. cbn [fst snd keepsLineEndings]. rewrite bool_decide_true by done.
    rewrite (normalize_note [NL] body nl), (app_assoc _ body), trim_suffix_nl by done.
    destruct Hbrk as [->|Hbrk]; [rewrite app_nil_r, normalize_line, trim_suffix_line by done; done|].
    by rewrite normalize_note, (app_assoc _ body), trim_suffix_nl by done.
  - rewrite bool_decide_false by done. destruct (decide (comment_kind k)) as [Hc|Hc].
    + rewrite (written_comment nl k w w') by done. unfold layout_text. cbn [fst snd]. assert (keepsLineEndings k = false) as -> by (by destruct Hc as [-> | ->]).
      apply normalize_twice; [done|]. apply reads_comment in Hr as (body & -> & _); [|done..].
      replace (comment_open k ++ body ++ bs "*/") with ((comment_open k ++ body ++ bs "*") ++ ["/"%ch]) in * by (by rewrite <- !app_assoc).
      by eapply no_bare_app_l.
    + by rewrite (written_same nl k w w' r).
Qed.
Lemma sig_relaid nl p l e : note_break nl -> relaid nl p l e -> no_bare_cr (src_of l e) = true ->
  map sig_piece (map (fun i => (it_kind i, text_out i)) l) = map sig_piece (map it l).
Proof.
  intros Hnl. revert p. induction l as [|i l IH]; intros p Hl Hcr; [done|]. destruct Hl as (_ & _ & Hws & Hne & Hr & _ & Hw & Hl).
  rewrite src_of_cons in Hcr. apply no_bare_app_r in Hcr. cbn [map]. rewrite (IH _ Hl) by (by eapply no_bare_app_r). f_equal.
  destruct i as [wi [k w] wo w']. by eapply sig_written.
Qed.
Lemma out_token_pieces nl p l e e' : relaid nl p l e -> token_pieces (out_pieces l e') = map (fun i => (it_kind i, text_out i)) l.
Proof.
  assert (Hf : forall s m, token_pieces (ws_piece s ++ m) = token_pieces m) by (by intros [|c s] m).
  unfold out_pieces. revert p. induction l as [|i l IH]; intros p Hl; [cbn; rewrite <- (app_nil_r (ws_piece e')); apply Hf|].
  destruct Hl as (_ & _ & Hws & _ & _ & _ & _ & Hl). cbn [map concat]. rewrite <- !app_assoc, Hf, <- (IH _ Hl). cbn [app].
  by apply filter_cons_True.
Qed.
Lemma run_significant src nl opts :
  note_break nl -> terminated src -> no_bare_cr src = true ->
  significant (run src opts nl (tokenize src)) = significant src /\ terminated (run src opts nl (tokenize src)).
Proof.
  intros Hnl Hterm Hcr. destruct (run_relaid src nl opts) as (l & e & e' & Hl & He & He' & Hs & -> & Hp & _); [done..|].
  destruct (relaid_pieces nl e e' Hnl He He' l None Hl) as [Hout Ht]. split; [|done].
  rewrite !significant_pieces, Hout, (out_token_pieces nl None l e e' Hl), Hp. by eapply sig_relaid; [| |rewrite <- Hs].
Qed.
