(* ===== verification/FormatTwice.v ===== *)
(** * The formatter, twice

    On a text without carriage returns and line notes, formatting what was formatted
    changes nothing. A line note is the exception: the
    blank line after it goes at the second pass. *)
From S2P Require Import Prelude Bytes Source SourceFacts Lexer LexerFacts LexerQuoted LexerLocal LexerReads Format Relayout FormatFacts.
Local Open Scope nat_scope.

(** ** White space is where it was *)

Lemma spaces_unique a b x y :
  spaces a -> spaces b -> (forall c, head x = Some c -> inked c) -> (forall c, head y = Some c -> inked c) -> a ++ x = b ++ y -> a = b /\ x = y.
Proof.
  intros Ha Hb Hx Hy. revert b Hb. induction Ha as [|c a Hc Ha IH]; intros b Hb E.
  - destruct Hb as [|d b Hd Hb]; [done|]. exfalso. cbn in E. subst x. specialize (Hx d eq_refl). unfold inked in Hx. congruence.
  - destruct Hb as [|d b Hd Hb].
    + exfalso. cbn in E. subst y. specialize (Hy c eq_refl). unfold inked in Hy. congruence.
    + cbn in E. injection E as -> E. by destruct (IH b Hb E) as [-> ->].
Qed.

Definition tokened (p : piece) : Prop := forall c, head p.2 = Some c -> inked c.
Lemma items_unique l e l2 e2 :
  Forall (fun i => spaces i.(ws_out) /\ i.(text_out) <> [] /\ tokened (it_kind i, i.(text_out))) l -> Forall (fun i => spaces i.(ws_in)) l2 -> spaces e -> spaces e2 ->
  map it l2 = map (fun i => (it_kind i, i.(text_out))) l -> src_of l2 e2 = out_of l e -> map ws_in l2 = map ws_out l.
Proof.
  intros Hl Hl2 He He2. revert l2 Hl2. induction Hl as [|i l (Hws & Hne & Htok) Hl IH]; intros l2 Hl2 Hit E.
  - by apply map_eq_nil in Hit as ->.
  - destruct Hl2 as [|j l2 Hj Hl2]; [done|]. cbn [map] in *. injection Hit as Hij Hit. rewrite src_of_cons, out_of_cons, Hij in E. cbn [snd] in E.
    assert (Hh : forall t c, head (text_out i ++ t) = Some c -> inked c) by (intros t c; destruct (text_out i); [done|]; apply Htok).
    destruct (spaces_unique _ _ _ _ Hj Hws (Hh _) (Hh _) E) as [Hw E2]. apply app_inv_head in E2. rewrite Hw. f_equal. by apply IH.
Qed.

Lemma relaid_tokens nl e p l :
  note_break nl -> spaces e -> relaid nl p l e ->
  Forall (fun i => spaces i.(ws_out) /\ i.(text_out) <> [] /\ tokened (it_kind i, i.(text_out))) l /\ Forall (fun i => spaces i.(ws_in)) l.
Proof.
  intros Hnl He. revert p. induction l as [|i l IH]; intros p Hl; [done|].
  assert (Hi : relaid nl None (i :: l) e) by (destruct Hl as (? & ? & ? & ? & ? & ? & ? & ?); by split_and!).
  destruct Hl as (Hin & Hout & Hws & _ & _ & _ & _ & Hl). destruct (IH _ Hl) as [IH1 IH2]. split; [|by constructor]. constructor; [|done].
  destruct (relaid_reads nl e [] Hnl He (Forall_nil_2 _) i l Hi Hl) as [Hr Hne]. split_and!; [done..|]. intros c Hc. cbn [snd] in Hc.
  destruct (text_out i) as [|d w]; [done|]. injection Hc as <-. by eapply reads_head.
Qed.

(** ** The white space of a line is its own *)

Section Twice.
Context (opts : Options).
Abbreviation lf := [NL].

Lemma count_nl_indent d c : count_nl (writeIndent opts d c) = 0.
Proof. unfold writeIndent. assert (H : forall n x, x <> NL -> count_nl (replicate n x) = 0).
  { intros n x Hx. induction n as [|n IH]; [done|]. cbn. apply Z.eqb_neq in Hx. by rewrite Hx. }
  destruct (UseTabs opts); by apply H. Qed.
(** At a line's start only before the first token. *)
Definition mid_line (y : formatter) : Prop := y.(atLineStart) = negb y.(started).
Definition lay_indent (y : formatter) (p : piece) : bytes :=
  writeIndent opts (if bool_decide (p.1 = RBrace) then y.(depth) - 1 else y.(depth)) (continues y (piece_token p)).
Definition lay_breaks (y : formatter) (n : nat) (p : piece) : nat :=
  if opts.(BreakStatements) && (n =? 0) && breakBefore y (piece_token p) then 1 else n.
Lemma lay_breaks_pos y n p : lay_breaks y (S n) p = S n.
Proof. unfold lay_breaks. by rewrite andb_false_r. Qed.
Lemma lay_space_mid y s p :
  mid_line y -> lay_space lf opts y s p =
  if y.(started) then
    let n := lay_breaks y (count_nl s) p in
    if 0 <? n then replicate (if 1 <? n then 2 else 1) NL ++ lay_indent y p
    else if negb (bool_decide (s = [])) && wantSpace y (piece_token p) then [" "%ch] else []
  else lay_indent y p.
Proof.
  unfold mid_line, lay_space, emitted_space, breaks_at, lay_breaks. cbn [atLineStart started pendingNL pendingWS lay_with depth tkKind piece_token]. intros ->.
  change (trailingNewlines lf (lay_with y s)) with 0. rewrite Nat.sub_0_r.
  change (continues (lay_with y s)) with (continues y). change (wantSpace (lay_with y s)) with (wantSpace y). change (breakBefore (lay_with y s)) with (breakBefore y).
  fold (lay_indent y p). destruct (started y); cbn [negb].
  - rewrite app_nil_r, !andb_true_r. set (n := if _ && _ then _ else _). destruct (0 <? n); [|done]. by destruct (1 <? n).
  - rewrite !andb_false_r. cbn [andb app]. by destruct (0 <? count_nl s).
Qed.
Lemma lay_space_again y s p : mid_line y -> lay_space lf opts y (lay_space lf opts y s p) p = lay_space lf opts y s p.
Proof.
  intros Hy. rewrite (lay_space_mid y (lay_space _ _ _ _ _)), !(lay_space_mid y s) by done. destruct (started y); [|done]. cbv zeta.
  destruct (0 <? lay_breaks y (count_nl s) p) eqn:En.
  - rewrite count_nl_app, (count_nl_indent _ _ : count_nl (lay_indent y p) = 0).
    destruct (1 <? lay_breaks y (count_nl s) p); [change (count_nl (replicate 2 NL) + 0) with 2|change (count_nl (replicate 1 NL) + 0) with 1]; by rewrite lay_breaks_pos.
  - assert (H0 : lay_breaks y (count_nl s) p = 0) by (apply Nat.ltb_ge in En; lia).
    assert (Hc : lay_breaks y 0 p = 0).
    { unfold lay_breaks in *. destruct (count_nl s); [done|]. rewrite andb_false_r in H0. done. }
    set (r := if negb _ && _ then _ else _). assert (count_nl r = 0) as -> by (subst r; by destruct (_ && _)). rewrite Hc. cbn [Nat.ltb Nat.leb].
    subst r. destruct (wantSpace y (piece_token p)); [rewrite !andb_true_r; by destruct (negb (bool_decide (s = [])))|by rewrite !andb_false_r].
Qed.
Lemma lay_next_line y p :
  atLineStart (lay_next lf opts y p) = elem NL (layout_text lf p) && blank_last_line (layout_text lf p) /\ started (lay_next lf opts y p) = true.
Proof.
  assert (Ht : emitted_text p.2 lf (piece_token p) = layout_text lf p).
  { unfold emitted_text, layout_text. assert (H : token_text p.2 (piece_token p) = p.2); [|by rewrite H].
    unfold token_text, piece_token, span, End. cbn [tkSpan Offset Len]. rewrite Nat.add_0_l, Nat.sub_0_r. apply slice_full. }
  rewrite <- Ht. unfold lay_next, emit. destruct (separator _ _ _). by destruct (if BreakStatements opts then _ else _).
Qed.
Lemma laid_again y l l2 :
  mid_line y -> laid lf opts y l -> laid lf opts y l2 -> map ws_in l2 = map ws_out l -> map it l2 = map it l ->
  Forall (fun i => elem NL (layout_text lf i.(it)) && blank_last_line (layout_text lf i.(it)) = false) l -> map ws_out l2 = map ws_out l.
Proof.
  revert y l2. induction l as [|i l IH]; intros y l2 Hy H1 H2 Hw Hk Hall; destruct l2 as [|j l2]; try done.
  cbn [map laid] in *. destruct H1 as [E1 H1], H2 as [E2 H2]. injection Hw as Ew Hw. injection Hk as Ek Hk. inversion Hall as [|? ? Hi Hall']; subst.
  rewrite E2, Ew, Ek, E1, lay_space_again by done. f_equal. rewrite Ek in H2. apply (IH (lay_next lf opts y (it i)) l2); try done.
  unfold mid_line. destruct (lay_next_line y (it i)) as [-> ->]. by rewrite Hi.
Qed.
End Twice.

(** ** Formatting twice *)

Lemma no_cr_bare s : CR ∉ s -> no_bare_cr s = true.
Proof.
  induction s as [|c s IH]; [done|]. rewrite not_elem_of_cons. intros [Hc Hs]. cbn [no_bare_cr]. rewrite IH, andb_true_r by done.
  destruct (Z.eqb_spec c CR); [congruence|done].
Qed.
Lemma no_cr_dominant s : CR ∉ s -> dominantNewline s = [NL].
Proof.
  intros Hs. unfold dominantNewline. assert (count_crlf s = 0) as ->; [|by rewrite (proj2 (Nat.ltb_ge _ _)) by lia].
  induction s as [|c s IH]; [done|]. apply not_elem_of_cons in Hs as [Hc Hs]. cbn [count_crlf]. rewrite IH by done.
  destruct (Z.eqb_spec c CR); [congruence|done].
Qed.
Lemma layout_lf p : CR ∉ p.2 -> layout_text [NL] p = p.2.
Proof.
  intros Hp. unfold layout_text. destruct (keepsLineEndings _); [done|]. unfold normalizeNewlines. destruct (elem NL _); [|done].
  by rewrite crlf_to_nl_id, nl_to_lf.
Qed.
Lemma no_cr_items l e : CR ∉ src_of l e -> Forall (fun i => CR ∉ i.(it).2) l.
Proof.
  induction l as [|i l IH]; [done|]. rewrite src_of_cons, !not_elem_of_app. intros (_ & Hi & Hl). constructor; [done|by apply IH].
Qed.
(** Under line feeds, every token but a note keeps its text. *)
Lemma relaid_same_text p l e :
  relaid [NL] p l e -> Forall (fun i => it_kind i <> SLNote) l -> CR ∉ src_of l e ->
  map text_out l = map (fun i => i.(it).2) l
  /\ Forall (fun i => elem NL (layout_text [NL] i.(it)) && blank_last_line (layout_text [NL] i.(it)) = false) l.
Proof.
  intros Hl Hn Hcr. apply no_cr_items in Hcr. revert p Hl. induction Hn as [|i l Hi Hn IH]; intros p Hl; [done|]. inversion Hcr as [|? ? Hc Hcr']; subst.
  destruct Hl as (_ & _ & Hws & Hne & Hr & _ & Hw & Hl). destruct (IH Hcr' _ Hl) as [IH1 IH2]. unfold written in Hw. rewrite decide_False in Hw by exact Hi.
  split; [cbn [map]; by rewrite IH1, Hw, layout_lf|]. constructor; [|done].
  destruct i as [wi [k w] wo w']. by destruct (layout_end [NL] k w (src_of l e)) as (u & x & _ & _ & ?); [left|..].
Qed.

Lemma out_of_maps l l2 e : map ws_out l2 = map ws_out l -> map text_out l2 = map text_out l -> out_of l2 e = out_of l e.
Proof.
  unfold out_of. revert l2. induction l as [|i l IH]; intros [|j l2] Hw Ht; try done. injection Hw as Ew Hw. injection Ht as Et Ht.
  specialize (IH l2 Hw Ht). apply app_inv_tail in IH. cbn [map concat]. by rewrite Ew, Et, IH.
Qed.
Definition plain_space (s : bytes) : Prop := CR ∉ s.
Lemma lay_space_no_cr opts y s p : CR ∉ lay_space [NL] opts y s p.
Proof.
  assert (Hind : forall d c, CR ∉ writeIndent opts d c).
  { intros d c. unfold writeIndent. destruct (UseTabs opts); intros H; by apply elem_of_replicate in H as [? _]. }
  assert (Hnl : forall n, CR ∉ concat (replicate n [NL])).
  { induction n as [|n IH]; [apply not_elem_of_nil|]. cbn. by rewrite not_elem_of_cons. }
  unfold lay_space, emitted_space. destruct (0 <? _); rewrite not_elem_of_app; (split; [|done || (destruct (atLineStart _); [done|apply not_elem_of_nil])]).
  - destruct (started _); [done|apply not_elem_of_nil].
  - destruct (_ && _); set_solver.
Qed.
Lemma out_no_cr opts y l : laid [NL] opts y l -> Forall (fun i => CR ∉ i.(text_out)) l -> CR ∉ out_of l (match l with [] => [] | _ => [NL] end).
Proof.
  intros Hl Ht. assert (Hb : CR ∉ concat (map (fun i => i.(ws_out) ++ i.(text_out)) l)).
  { revert y Hl. induction Ht as [|i l Hi Ht IH]; intros y Hl; [apply not_elem_of_nil|]. cbn [map concat laid] in *. destruct Hl as [E Hl].
    rewrite !not_elem_of_app. rewrite E. split_and!; [apply lay_space_no_cr|done|by eapply IH]. }
  unfold out_of. rewrite not_elem_of_app. split; [done|]. destruct l; set_solver.
Qed.

Definition no_notes (src : bytes) : Prop := Forall (fun t => tkKind t <> SLNote) (tokenize src).
Lemma no_notes_items src l : no_notes src -> token_pieces (pieces src) = map it l -> Forall (fun i => it_kind i <> SLNote) l.
Proof.
  intros Hn Hp. assert (Hall : Forall (fun p => p.1 <> SLNote) (map it l)).
  { rewrite <- Hp. apply Forall_forall. intros p Hin. apply list_elem_of_filter in Hin as [_ Hin]. revert p Hin. apply Forall_forall.
    unfold pieces. unfold no_notes in Hn. induction Hn; constructor; done. }
  clear Hp Hn. induction l as [|i l IH]; [done|]. inversion Hall; subst. constructor; [done|by apply IH].
Qed.
(** The kinds of braces are those of the tokens, whatever the white space. *)
Lemma classify_pieces src toks :
  classifyBraces toks = kinds (fold_left (fun c k => classify_token c (piece_token (k, []))) (map fst (token_pieces (map (piece_of src) toks)))
                                 {| kinds := []; stack := []; brackets := 0; last_kind := Invalid; invoked := false |}).
Proof.
  unfold classifyBraces. f_equal. generalize {| kinds := []; stack := []; brackets := 0; last_kind := Invalid; invoked := false |}.
  unfold token_pieces. induction toks as [|t toks IH]; intros c; [done|]. cbn [map fold_left]. destruct (decide (tkKind t = Whitespace)) as [E|E].
  - assert (Hf : forall l : list piece, filter (fun p => p.1 <> Whitespace) (piece_of src t :: l) = filter (fun p => p.1 <> Whitespace) l).
    { intros l. apply filter_cons_False. cbn. tauto. }
    rewrite Hf, <- IH. f_equal. unfold classify_token, IsTrivia. by rewrite E.
  - assert (Hf : forall l : list piece, filter (fun p => p.1 <> Whitespace) (piece_of src t :: l) = piece_of src t :: filter (fun p => p.1 <> Whitespace) l).
    { intros l. by apply filter_cons_True. }
    rewrite Hf. cbn [map fold_left]. by rewrite <- IH.
Qed.
Lemma same_items l : map text_out l = map (fun i => i.(it).2) l -> map (fun i => (it_kind i, text_out i)) l = map it l.
Proof.
  induction l as [|i l IH]; [done|]. cbn [map]. intros [= E H]. rewrite IH, E by done. f_equal. unfold it_kind. by destruct (it i).
Qed.
Lemma run_twice src opts :
  CR ∉ src -> terminated src -> no_notes src ->
  let out := run src opts [NL] (tokenize src) in run out opts [NL] (tokenize out) = out /\ CR ∉ out.
Proof.
  intros Hcr Hterm Hn out. assert (Hnl : note_break [NL]) by (by left).
  destruct (run_relaid src [NL] opts Hnl Hterm (no_cr_bare _ Hcr)) as (l & e & e' & Hl & He & He' & Hs & Hrun & Hp & Hlay). fold out in Hrun.
  pose proof (no_notes_items _ _ Hn Hp) as Hk. destruct (Hlay Hk) as [Hlaid Hend]. rewrite Hs in Hcr.
  destruct (relaid_same_text None l e Hl Hk Hcr) as [Htext Hblank].
  assert (Hcr' : CR ∉ out).
  { rewrite Hrun, Hend. eapply out_no_cr; [done|]. apply no_cr_items in Hcr. clear -Htext Hcr. induction l as [|i l IH]; [done|].
    injection Htext as E Htext. inversion Hcr; subst. constructor; [by rewrite E|by apply IH]. }
  split; [|done]. destruct (relaid_pieces [NL] e e' Hnl He He' l None Hl) as [Hpieces Hterm2]. rewrite <- Hrun in Hpieces, Hterm2.
  destruct (run_relaid out [NL] opts Hnl Hterm2 (no_cr_bare _ Hcr')) as (l2 & e2 & e2' & Hl2 & He2 & He2' & Hs2 & -> & Hp2 & Hlay2).
  rewrite Hpieces, (out_token_pieces [NL] None l e e' Hl) in Hp2. pose proof (same_items l Htext) as Hsame. rewrite Hsame in Hp2. symmetry in Hp2.
  assert (Hclass : classifyBraces (tokenize out) = classifyBraces (tokenize src)).
  { rewrite (classify_pieces out), (classify_pieces src). fold (pieces out) (pieces src). rewrite Hpieces, (out_token_pieces [NL] None l e e' Hl), Hp. by rewrite Hsame. }
  assert (Hk2 : Forall (fun i => it_kind i <> SLNote) l2).
  { clear -Hp2 Hk. revert l2 Hp2. induction Hk as [|i l Hi Hk IH]; intros [|j l2] E; try done. injection E as E1 E2.
    constructor; [unfold it_kind in *; by rewrite E1|by apply IH]. }
  destruct (Hlay2 Hk2) as [Hlaid2 ->]. rewrite Hclass in Hlaid2.
  pose proof Hcr' as Hcr2. rewrite Hs2 in Hcr2. destruct (relaid_same_text None l2 e2 Hl2 Hk2 Hcr2) as [Htext2 _].
  assert (Htexts : map text_out l2 = map text_out l).
  { rewrite Htext2, Htext. apply (f_equal (map snd)) in Hp2. by rewrite !map_map in Hp2. }
  destruct (relaid_tokens [NL] e None l Hnl He Hl) as [Hok _]. destruct (relaid_tokens [NL] e2 None l2 Hnl He2 Hl2) as [_ Hin2].
  assert (Hws : map ws_in l2 = map ws_out l).
  { apply (items_unique l e' l2 e2); try done; [by rewrite Hsame|by rewrite <- Hs2, Hrun]. }
  assert (Hws2 : map ws_out l2 = map ws_out l) by (eapply (laid_again opts _ l l2); [|exact Hlaid|exact Hlaid2|done..]; done).
  rewrite Hrun, Hend, <- (out_of_maps l l2) by done. f_equal. destruct l, l2; done.
Qed.

(** ** [Source] *)

Lemma dominant_break src : note_break (dominantNewline src).
Proof. unfold dominantNewline. destruct (_ <? _); [by right|by left]. Qed.
Definition effective (opts : Options) : Options :=
  {| IndentWidth := if (opts.(IndentWidth) <=? 0)%Z then DefaultOptions.(IndentWidth) else opts.(IndentWidth); UseTabs := opts.(UseTabs);
     BreakStatements := opts.(BreakStatements) |}.
Lemma Source_run src opts :
  terminated src -> no_bare_cr src = true -> Source_ src opts = (run src (effective opts) (dominantNewline src) (tokenize src), None).
Proof.
  intros Ht Hcr. destruct (run_significant src (dominantNewline src) (effective opts) (dominant_break src) Ht Hcr) as [Hs _].
  unfold Source_. fold (effective opts). unfold sameTokens. by rewrite bool_decide_true by done.
Qed.

(** C8: on a text whose tokens are all terminated and whose carriage returns are all
    followed by line feeds, under any options, statement breaks included, formatting
    succeeds, and the output is read as the source's tokens, each of the same kind and
    text up to the line breaks of notes and comments, in the same order and all
    terminated. *)
Theorem Source_keeps_tokens src opts :
  terminated src -> no_bare_cr src = true ->
  exists out, Source_ src opts = (out, None) /\ significant out = significant src /\ terminated out.
Proof.
  intros Ht Hcr. exists (run src (effective opts) (dominantNewline src) (tokenize src)). split; [by apply Source_run|].
  apply run_significant; [apply dominant_break|done|done].
Qed.
Definition messy : bytes := bs "part  def A{/*x*/attribute   x:Real;port p{ }}  // end" ++ [CR; NL] ++ bs "a=1..2 ;".
Lemma Source_keeps_tokens_witness :
  terminated messy /\ no_bare_cr messy = true /\ exists out, Source_ messy ConvertOptions = (out, None) /\ significant out = significant messy /\ terminated out.
Proof.
  assert (H : terminated messy) by (unfold terminated; apply (bool_decide_eq_true_1 _); vm_compute; reflexivity).
  split; [exact H|]. split; [reflexivity|]. apply (Source_keeps_tokens messy ConvertOptions); [exact H|reflexivity].
Defined.

(** C17: under any options, on a text of terminated tokens without carriage returns and
    line notes, formatting twice is formatting once: the breaks between statements, the
    indentation and the blank lines of the first pass are those of the second. *)
Theorem Source_idempotent src opts :
  CR ∉ src -> terminated src -> no_notes src ->
  exists out, Source_ src opts = (out, None) /\ Source_ out opts = (out, None).
Proof.
  intros Hcr Ht Hn. destruct (run_twice src (effective opts) Hcr Ht Hn) as [Htwice Hcr'].
  destruct (run_significant src [NL] (effective opts) (or_introl eq_refl) Ht (no_cr_bare _ Hcr)) as [_ Ht'].
  eexists. split; [apply Source_run; [done|by apply no_cr_bare]|]. rewrite (no_cr_dominant src) by done.
  rewrite Source_run by (done || by apply no_cr_bare). rewrite no_cr_dominant by done. by rewrite Htwice.
Qed.
Definition untidy : bytes := bs "part def A  {" ++ [NL; NL; NL; NL] ++ bs "attribute x : Real =" ++ [NL] ++ bs "1 +( 2 ) ;  }" ++ [NL; NL].
Lemma Source_idempotent_witness :
  CR ∉ untidy /\ terminated untidy /\ no_notes untidy
  /\ exists out, Source_ untidy ConvertOptions = (out, None) /\ Source_ out ConvertOptions = (out, None).
Proof.
  assert (H1 : CR ∉ untidy) by (apply (bool_decide_eq_true_1 _); vm_compute; reflexivity).
  assert (H2 : terminated untidy) by (unfold terminated; apply (bool_decide_eq_true_1 _); vm_compute; reflexivity).
  assert (H3 : no_notes untidy) by (unfold no_notes; apply (bool_decide_eq_true_1 _); vm_compute; reflexivity).
  split; [exact H1|]. split; [exact H2|]. split; [exact H3|]. apply (Source_idempotent untidy ConvertOptions); [exact H1|exact H2|exact H3].
Defined.

(** ** Where it does not hold *)

(** The blank line after a line note is kept at one pass and dropped at the next. *)
Lemma blank_line_after_note :
  let src := bs "//a" ++ [NL; NL; NL] ++ bs "x;" ++ [NL] in
  let out := bs "//a" ++ [NL; NL] ++ bs "x;" ++ [NL] in
  Source_ src DefaultOptions = (out, None) /\ Source_ out DefaultOptions = (bs "//a" ++ [NL] ++ bs "x;" ++ [NL], None).
Proof. split; vm_compute; reflexivity. Qed.
(** A carriage return that ends no line is refused as a bug of the formatter. *)
Lemma bare_cr_refused :
  let src := bs "// a" ++ [CR] in Source_ src DefaultOptions = (src, Some ErrNotIdempotent).
Proof. vm_compute. reflexivity. Qed.
(** Line endings kept in strings outvote the others once blank lines are gone. *)
Lemma line_endings_outvoted :
  let src := bs "'a" ++ [NL] ++ bs "b" ++ [NL] ++ bs "c';" ++ [CR; NL; CR; NL; CR; NL; CR; NL] in
  let out := (Source_ src DefaultOptions).1 in dominantNewline src = [CR; NL] /\ dominantNewline out = [NL].
Proof. split; vm_compute; reflexivity. Qed.
