(* ===== verification/Ast.v ===== *)
(** * The syntax tree

    Models the node types of [internal/syntax/ast] ([behavior.go], [defusage.go],
    [expr.go], [metadata.go], [namespace.go], [node.go]): one record per struct, its
    fields prefixed with the struct's name, and [Node] for the interface over the
    pointers to them. A pointer is an address of a heap of nodes, nil is [None]; a
    nil pointer held in an interface is not told from a nil interface, which no
    function modelled here does. An [int] is a [Z], its width in [in_range]. The
    inline storage of a one-segment name is its slice of segments. *)
From S2P Require Import Prelude Machine.
Local Open Scope Z_scope.

(** ** Shared parts *)

Abbreviation ref := (option nat).

(** [source.Span], whose fields are Go [int]s. *)
Record Span := { Offset : Z; Len : Z }.
Definition zeroSpan : Span := {| Offset := 0; Len := 0 |}.

Record Trivia := { Trivia_Kind : Z; Trivia_Span : Span }.
Record NodeBase := { NodeSpan : Span; leading : list Trivia; trailing : list Trivia }.
Definition zeroBase : NodeBase := {| NodeSpan := zeroSpan; leading := []; trailing := [] |}.

Record Identification := { Identification_ShortName : bytes;
  Identification_ShortNameSpan : Span; Identification_Name : bytes;
  Identification_NameSpan : Span }.
Definition zeroIdent : Identification :=
  {| Identification_ShortName := []; Identification_ShortNameSpan := zeroSpan;
     Identification_Name := []; Identification_NameSpan := zeroSpan |}.

Record NameSegment := { NameSegment_Text : bytes; NameSegment_Span : Span;
  NameSegment_Chained : bool }.
Record NamedArg := { NamedArg_Name : ref; NamedArg_Value : ref }.
Record BodyParam := { BodyParam_Name : bytes; BodyParam_Type : ref;
  BodyParam_Multiplicity : ref; BodyParam_Value : ref; BodyParam_IsReference : bool;
  BodyParam_Members : list ref; BodyParam_Relationships : list ref; BodyParam_Span : Span }.

(** ** The node types *)

Record AcceptActionUsage := { AcceptActionUsage_NodeBase : NodeBase;
  AcceptActionUsage_Name : bytes; AcceptActionUsage_ParamName : bytes;
  AcceptActionUsage_ParamType : ref }.
Record AcceptEvent := { AcceptEvent_NodeBase : NodeBase; AcceptEvent_SignalType : ref;
  AcceptEvent_Subsets : ref; AcceptEvent_Payload : ref }.
Record ActionExecutionNode := { ActionExecutionNode_NodeBase : NodeBase;
  ActionExecutionNode_Name : bytes; ActionExecutionNode_ActionRef : ref;
  ActionExecutionNode_Expression : ref }.
Record Alias := { Alias_NodeBase : NodeBase; Alias_Visibility : Z;
  Alias_Ident : Identification; Alias_For : ref; Alias_Body : list ref; Alias_HasBody : bool }.
Record AssignmentActionNode := { AssignmentActionNode_NodeBase : NodeBase;
  AssignmentActionNode_Target : ref; AssignmentActionNode_Value : ref }.
Record AssumeMember := { AssumeMember_NodeBase : NodeBase; AssumeMember_Prefixes : list ref;
  AssumeMember_Expression : ref; AssumeMember_Reference : ref; AssumeMember_Body : list ref;
  AssumeMember_Ident : Identification; AssumeMember_DeclSpan : Span;
  AssumeMember_Relationships : list ref; AssumeMember_Multiplicity : ref;
  AssumeMember_Value : ref; AssumeMember_ValueOperatorSpan : Span;
  AssumeMember_ValueIsDefault : bool; AssumeMember_ValueIsInitial : bool;
  AssumeMember_HasBody : bool }.
Record BodyExpr := { BodyExpr_NodeBase : NodeBase; BodyExpr_Params : list BodyParam;
  BodyExpr_Members : list ref; BodyExpr_Result : ref }.
Record CallEvent := { CallEvent_NodeBase : NodeBase; CallEvent_Operation : ref;
  CallEvent_Parameters : list NameSegment }.
Record CastExpr := { CastExpr_NodeBase : NodeBase; CastExpr_TargetType : ref;
  CastExpr_Multiplicity : ref }.
Record ChangeEvent := { ChangeEvent_NodeBase : NodeBase; ChangeEvent_Condition : ref }.
Record CollectExpr := { CollectExpr_NodeBase : NodeBase; CollectExpr_Operand : ref;
  CollectExpr_Body : ref }.
Record Comment := { Comment_NodeBase : NodeBase; Comment_Ident : Identification;
  Comment_About : list ref; Comment_Locale : bytes; Comment_BodySpan : Span }.
Record ConnectorEnd := { ConnectorEnd_NodeBase : NodeBase; ConnectorEnd_Target : ref;
  ConnectorEnd_Multiplicity : ref; ConnectorEnd_Reference : ref;
  ConnectorEnd_Relationships : list ref }.
Record ConstraintMember := { ConstraintMember_NodeBase : NodeBase;
  ConstraintMember_IsAssert : bool; ConstraintMember_Keyword : bytes;
  ConstraintMember_IsNegated : bool; ConstraintMember_Expression : ref;
  ConstraintMember_Name : bytes; ConstraintMember_Body : list ref;
  ConstraintMember_Terminator : Span }.
Record ConstructorExpr := { ConstructorExpr_NodeBase : NodeBase; ConstructorExpr_Type : ref;
  ConstructorExpr_Args : list ref; ConstructorExpr_NamedArgs : list NamedArg }.
Record ControlFlowEdge := { ControlFlowEdge_NodeBase : NodeBase; ControlFlowEdge_Source : ref;
  ControlFlowEdge_Target : ref; ControlFlowEdge_Guard : ref; ControlFlowEdge_IsElse : bool;
  ControlFlowEdge_SourceMember : ref; ControlFlowEdge_TargetMember : ref;
  ControlFlowEdge_SourceImplied : bool; ControlFlowEdge_TargetImplied : bool }.
Record CrossFeatureMember := { CrossFeatureMember_NodeBase : NodeBase;
  CrossFeatureMember_Direction : Z; CrossFeatureMember_IsDerived : bool;
  CrossFeatureMember_IsAbstract : bool; CrossFeatureMember_IsVariation : bool;
  CrossFeatureMember_IsComposite : bool; CrossFeatureMember_IsPortion : bool;
  CrossFeatureMember_IsVariable : bool; CrossFeatureMember_IsConstant : bool;
  CrossFeatureMember_IsReference : bool; CrossFeatureMember_Ident : Identification;
  CrossFeatureMember_Multiplicity : ref; CrossFeatureMember_IsOrdered : bool;
  CrossFeatureMember_IsNonunique : bool; CrossFeatureMember_Relationships : list ref }.
Record DecisionNode := { DecisionNode_NodeBase : NodeBase; DecisionNode_Prefixes : list ref;
  DecisionNode_Name : bytes; DecisionNode_NameSpan : Span; DecisionNode_Members : list ref;
  DecisionNode_HasBody : bool }.
Record DefinitionNode := { Definition_NodeBase : NodeBase; Definition_Prefixes : list ref;
  Definition_Kind : Z; Definition_Keyword : bytes; Definition_HasDefKeyword : bool;
  Definition_IsAbstract : bool; Definition_IsVariation : bool; Definition_IsAll : bool;
  Definition_IsConstant : bool; Definition_IsEvent : bool; Definition_IsIndividual : bool;
  Definition_IndividualKeyword : Span; Definition_IsParallel : bool; Definition_Visibility : Z;
  Definition_Ident : Identification; Definition_Multiplicity : ref;
  Definition_Relationships : list ref; Definition_Members : list ref; Definition_HasBody : bool }.
Record Dependency := { Dependency_NodeBase : NodeBase; Dependency_Prefixes : list ref;
  Dependency_Ident : Identification; Dependency_Clients : list ref;
  Dependency_Suppliers : list ref; Dependency_Body : list ref; Dependency_HasBody : bool }.
Record DoMember := { DoMember_NodeBase : NodeBase; DoMember_Actions : list ref }.
Record Documentation := { Documentation_NodeBase : NodeBase;
  Documentation_Ident : Identification; Documentation_Locale : bytes;
  Documentation_BodySpan : Span }.
Record EntryMember := { EntryMember_NodeBase : NodeBase; EntryMember_Actions : list ref }.
Record ErrorNode := { ErrorNode_NodeBase : NodeBase; ErrorNode_Message : bytes }.
Record ExitMember := { ExitMember_NodeBase : NodeBase; ExitMember_Actions : list ref }.
Record FeatureChainExpr := { FeatureChainExpr_NodeBase : NodeBase;
  FeatureChainExpr_Operand : ref; FeatureChainExpr_Member : ref }.
Record FeatureReference := { FeatureReference_NodeBase : NodeBase; FeatureReference_Name : ref }.
Record FilterMember := { FilterMember_NodeBase : NodeBase; FilterMember_Condition : ref }.
Record FinalNode := { FinalNode_NodeBase : NodeBase }.
Record FlowEnds := { FlowEnds_NodeBase : NodeBase; FlowEnds_From : ref; FlowEnds_To : ref;
  FlowEnds_Payload : ref; FlowEnds_PayloadDecl : ref; FlowEnds_PayloadMultiplicity : ref }.
Record ForkNode := { ForkNode_NodeBase : NodeBase; ForkNode_Prefixes : list ref;
  ForkNode_Name : bytes; ForkNode_NameSpan : Span; ForkNode_Members : list ref;
  ForkNode_HasBody : bool }.
Record IfActionNode := { IfActionNode_NodeBase : NodeBase; IfActionNode_Condition : ref;
  IfActionNode_Then : ref; IfActionNode_Else : ref }.
Record IfBranchNode := { IfBranchNode_NodeBase : NodeBase; IfBranchNode_Kind : Z;
  IfBranchNode_Body : list ref }.
Record Import := { Import_NodeBase : NodeBase; Import_Visibility : Z; Import_IsAll : bool;
  Import_Kind : Z; Import_Imported : ref; Import_IsRecursive : bool; Import_FilterExpr : ref;
  Import_Body : list ref; Import_HasBody : bool; Import_IsExpose : bool }.
Record IndexExpr := { IndexExpr_NodeBase : NodeBase; IndexExpr_Operand : ref;
  IndexExpr_Index : ref; IndexExpr_Bracket : bool }.
Record InitialNode := { InitialNode_NodeBase : NodeBase; InitialNode_First : ref;
  InitialNode_Successor : ref; InitialNode_Guard : ref; InitialNode_TargetMultiplicity : ref;
  InitialNode_Members : list ref; InitialNode_HasBody : bool }.
Record InvocationExpr := { InvocationExpr_NodeBase : NodeBase; InvocationExpr_Operand : ref;
  InvocationExpr_Type : ref; InvocationExpr_Args : list ref;
  InvocationExpr_NamedArgs : list NamedArg; InvocationExpr_BareArgument : bool }.
Record JoinNode := { JoinNode_NodeBase : NodeBase; JoinNode_Prefixes : list ref;
  JoinNode_Name : bytes; JoinNode_NameSpan : Span; JoinNode_Members : list ref;
  JoinNode_HasBody : bool }.
Record LiteralBool := { LiteralBool_NodeBase : NodeBase; LiteralBool_Value : bool }.
Record LiteralInfinity := { LiteralInfinity_NodeBase : NodeBase }.
Record LiteralInteger := { LiteralInteger_NodeBase : NodeBase; LiteralInteger_Value : bytes }.
Record LiteralReal := { LiteralReal_NodeBase : NodeBase; LiteralReal_Value : bytes }.
Record LiteralString := { LiteralString_NodeBase : NodeBase; LiteralString_Value : bytes }.
Record Membership := { Membership_NodeBase : NodeBase; Membership_Visibility : Z;
  Membership_IsTypeFeature : bool; Membership_Member : ref }.
Record MergeNode := { MergeNode_NodeBase : NodeBase; MergeNode_Prefixes : list ref;
  MergeNode_Name : bytes; MergeNode_NameSpan : Span; MergeNode_Members : list ref;
  MergeNode_HasBody : bool }.
Record MetadataAccessExpr := { MetadataAccessExpr_NodeBase : NodeBase;
  MetadataAccessExpr_Ref : ref }.
Record Multiplicity := { Multiplicity_NodeBase : NodeBase; Multiplicity_Lower : ref;
  Multiplicity_Upper : ref; Multiplicity_IsRange : bool }.
Record MultiplicityDecl := { MultiplicityDecl_NodeBase : NodeBase;
  MultiplicityDecl_Ident : Identification; MultiplicityDecl_Range : ref;
  MultiplicityDecl_Subsets : ref; MultiplicityDecl_Members : list ref;
  MultiplicityDecl_HasBody : bool }.
Record Namespace := { Namespace_NodeBase : NodeBase; Namespace_Prefixes : list ref;
  Namespace_Ident : Identification; Namespace_Members : list ref; Namespace_HasBody : bool }.
Record NullExpr := { NullExpr_NodeBase : NodeBase }.
Record ObjectFlowEdge := { ObjectFlowEdge_NodeBase : NodeBase; ObjectFlowEdge_Source : ref;
  ObjectFlowEdge_Target : ref }.
Record OperatorExpr := { OperatorExpr_NodeBase : NodeBase; OperatorExpr_Operator : Z;
  OperatorExpr_Operands : list ref; OperatorExpr_TypeRef : ref }.
Record Package := { Package_NodeBase : NodeBase; Package_Prefixes : list ref;
  Package_Ident : Identification; Package_IsLibrary : bool; Package_IsStandard : bool;
  Package_Members : list ref; Package_HasBody : bool }.
Record PerformActionNode := { PerformActionNode_NodeBase : NodeBase;
  PerformActionNode_ActionRef : ref }.
Record PrefixMetadata := { PrefixMetadata_NodeBase : NodeBase;
  PrefixMetadata_Ident : Identification; PrefixMetadata_Type : ref;
  PrefixMetadata_Body : list ref; PrefixMetadata_HasBody : bool;
  PrefixMetadata_About : list ref; PrefixMetadata_TypedBy : Span }.
Record PseudostateNode := { PseudostateNode_NodeBase : NodeBase; PseudostateNode_Kind : Z;
  PseudostateNode_Name : bytes; PseudostateNode_Keyword : bytes }.
Record QualifiedName := { QualifiedName_NodeBase : NodeBase; QualifiedName_Global : bool;
  QualifiedName_Parts : list NameSegment }.
Record Relationship := { Relationship_NodeBase : NodeBase; Relationship_Kind : Z;
  Relationship_Target : ref; Relationship_Conjugated : bool; Relationship_Multiplicity : ref;
  Relationship_TypedBy : Span }.
Record RelationshipMember := { RelationshipMember_NodeBase : NodeBase;
  RelationshipMember_Ident : Identification; RelationshipMember_Kind : Z;
  RelationshipMember_Keyword : bytes; RelationshipMember_PrefixKeyword : bytes;
  RelationshipMember_Source : ref; RelationshipMember_Target : ref;
  RelationshipMember_Conjugated : bool; RelationshipMember_Visibility : Z;
  RelationshipMember_Members : list ref; RelationshipMember_HasBody : bool }.
Record RequireMember := { RequireMember_NodeBase : NodeBase; RequireMember_Prefixes : list ref;
  RequireMember_Expression : ref; RequireMember_Reference : ref; RequireMember_Body : list ref;
  RequireMember_Ident : Identification; RequireMember_DeclSpan : Span;
  RequireMember_Relationships : list ref; RequireMember_Multiplicity : ref;
  RequireMember_Value : ref; RequireMember_ValueOperatorSpan : Span;
  RequireMember_ValueIsDefault : bool; RequireMember_ValueIsInitial : bool;
  RequireMember_HasBody : bool }.
Record RootNamespace := { RootNamespace_NodeBase : NodeBase; RootNamespace_Members : list ref;
  RootNamespace_UndefinedOperators : list ref; RootNamespace_TypedBy : Z }.
Record SelectExpr := { SelectExpr_NodeBase : NodeBase; SelectExpr_Operand : ref;
  SelectExpr_Body : ref }.
Record SendStatement := { SendStatement_NodeBase : NodeBase; SendStatement_Message : ref;
  SendStatement_Target : ref; SendStatement_IsVia : bool; SendStatement_Receiver : ref;
  SendStatement_Members : list ref; SendStatement_HasBody : bool }.
Record SequenceExpr := { SequenceExpr_NodeBase : NodeBase; SequenceExpr_Elements : list ref }.
Record StateNode := { StateNode_NodeBase : NodeBase; StateNode_Name : bytes;
  StateNode_Entry : list ref; StateNode_Do : list ref; StateNode_Exit : list ref;
  StateNode_Substates : list ref; StateNode_Regions : list ref }.
Record StateRegion := { StateRegion_NodeBase : NodeBase; StateRegion_Name : bytes;
  StateRegion_States : list ref }.
Record SubjectMember := { SubjectMember_NodeBase : NodeBase; SubjectMember_Prefixes : list ref;
  SubjectMember_Ident : Identification; SubjectMember_TypeRef : ref;
  SubjectMember_Multiplicity : ref; SubjectMember_Relationships : list ref;
  SubjectMember_Body : list ref; SubjectMember_BindingExpr : ref;
  SubjectMember_ValueOperatorSpan : Span; SubjectMember_ValueIsDefault : bool;
  SubjectMember_ValueIsInitial : bool; SubjectMember_HasBody : bool }.
Record SubstateMember := { SubstateMember_NodeBase : NodeBase; SubstateMember_Name : bytes;
  SubstateMember_NameSpan : Span }.
Record SuccessionEdge := { SuccessionEdge_NodeBase : NodeBase; SuccessionEdge_Source : ref;
  SuccessionEdge_Target : ref; SuccessionEdge_SourceMultiplicity : ref;
  SuccessionEdge_TargetMultiplicity : ref; SuccessionEdge_SourceMember : ref;
  SuccessionEdge_TargetMember : ref; SuccessionEdge_SourceImplied : bool;
  SuccessionEdge_TargetImplied : bool; SuccessionEdge_Members : list ref;
  SuccessionEdge_HasBody : bool }.
Record TerminateStatement := { TerminateStatement_NodeBase : NodeBase;
  TerminateStatement_Target : ref }.
Record TextualRepresentation := { TextualRepresentation_NodeBase : NodeBase;
  TextualRepresentation_Ident : Identification; TextualRepresentation_Language : bytes;
  TextualRepresentation_BodySpan : Span }.
Record TimeEvent := { TimeEvent_NodeBase : NodeBase; TimeEvent_Duration : ref;
  TimeEvent_Absolute : bool }.
Record TransitionEdge := { TransitionEdge_NodeBase : NodeBase; TransitionEdge_Source : ref;
  TransitionEdge_Target : ref; TransitionEdge_Trigger : ref; TransitionEdge_Guard : ref;
  TransitionEdge_Effect : list ref }.
Record TransitionMember := { TransitionMember_NodeBase : NodeBase;
  TransitionMember_Name : bytes; TransitionMember_NameSpan : Span;
  TransitionMember_Source : ref; TransitionMember_Target : ref; TransitionMember_Trigger : ref;
  TransitionMember_TriggerSpan : Span; TransitionMember_Guard : ref;
  TransitionMember_Effect : list ref; TransitionMember_HasEffect : bool;
  TransitionMember_Via : ref; TransitionMember_TargetMultiplicity : ref;
  TransitionMember_Members : list ref; TransitionMember_HasBody : bool;
  TransitionMember_IsSuccession : bool }.
Record Usage := { Usage_NodeBase : NodeBase; Usage_Prefixes : list ref; Usage_Kind : Z;
  Usage_Keyword : bytes; Usage_PrefixKeyword : bytes; Usage_IsAbstract : bool;
  Usage_IsVariation : bool; Usage_IsVariant : bool; Usage_IsReference : bool;
  Usage_IsVariable : bool; Usage_IsAll : bool; Usage_IsEnd : bool; Usage_IsChain : bool;
  Usage_IsConstant : bool; Usage_IsEvent : bool; Usage_IsIndividual : bool;
  Usage_IndividualKeyword : Span; Usage_Portion : Z; Usage_IsAccept : bool;
  Usage_IsBodyParameter : bool; Usage_IsActionNode : bool; Usage_IsTerminate : bool;
  Usage_Terminates : ref; Usage_IsResult : bool; Usage_IsNegated : bool;
  Usage_DeclaresRequirement : bool; Usage_Visibility : Z; Usage_Direction : Z;
  Usage_IsComposite : bool; Usage_IsPortion : bool; Usage_IsParallel : bool;
  Usage_IsDerived : bool; Usage_IsOrdered : bool; Usage_IsNonunique : bool;
  Usage_Ident : Identification; Usage_Relationships : list ref; Usage_Multiplicity : ref;
  Usage_CrossFeature : ref; Usage_Value : ref; Usage_ValueOperatorSpan : Span;
  Usage_ValueIsDefault : bool; Usage_ValueIsInitial : bool; Usage_Members : list ref;
  Usage_HasBody : bool; Usage_ConnectorEnds : list ref; Usage_FlowEnds : ref }.
Record WhileLoopActionNode := { WhileLoopActionNode_NodeBase : NodeBase;
  WhileLoopActionNode_Kind : Z; WhileLoopActionNode_Condition : ref;
  WhileLoopActionNode_Body : list ref; WhileLoopActionNode_Until : ref;
  WhileLoopActionNode_Variable : Identification;
  WhileLoopActionNode_VariableRelationships : list ref; WhileLoopActionNode_Collection : ref }.

(** A pointer to a struct of the package; [Foreign] is a type the package does not
    declare, by its name. *)
Inductive Node := | NAcceptActionUsage (n : AcceptActionUsage) | NAcceptEvent (n : AcceptEvent)
  | NActionExecutionNode (n : ActionExecutionNode) | NAlias (n : Alias)
  | NAssignmentActionNode (n : AssignmentActionNode) | NAssumeMember (n : AssumeMember)
  | NBodyExpr (n : BodyExpr) | NCallEvent (n : CallEvent) | NCastExpr (n : CastExpr)
  | NChangeEvent (n : ChangeEvent) | NCollectExpr (n : CollectExpr) | NComment (n : Comment)
  | NConnectorEnd (n : ConnectorEnd) | NConstraintMember (n : ConstraintMember)
  | NConstructorExpr (n : ConstructorExpr) | NControlFlowEdge (n : ControlFlowEdge)
  | NCrossFeatureMember (n : CrossFeatureMember) | NDecisionNode (n : DecisionNode)
  | NDefinition (n : DefinitionNode) | NDependency (n : Dependency) | NDoMember (n : DoMember)
  | NDocumentation (n : Documentation) | NEntryMember (n : EntryMember)
  | NErrorNode (n : ErrorNode) | NExitMember (n : ExitMember)
  | NFeatureChainExpr (n : FeatureChainExpr) | NFeatureReference (n : FeatureReference)
  | NFilterMember (n : FilterMember) | NFinalNode (n : FinalNode) | NFlowEnds (n : FlowEnds)
  | NForkNode (n : ForkNode) | NIfActionNode (n : IfActionNode)
  | NIfBranchNode (n : IfBranchNode) | NImport (n : Import) | NIndexExpr (n : IndexExpr)
  | NInitialNode (n : InitialNode) | NInvocationExpr (n : InvocationExpr)
  | NJoinNode (n : JoinNode) | NLiteralBool (n : LiteralBool)
  | NLiteralInfinity (n : LiteralInfinity) | NLiteralInteger (n : LiteralInteger)
  | NLiteralReal (n : LiteralReal) | NLiteralString (n : LiteralString)
  | NMembership (n : Membership) | NMergeNode (n : MergeNode)
  | NMetadataAccessExpr (n : MetadataAccessExpr) | NMultiplicity (n : Multiplicity)
  | NMultiplicityDecl (n : MultiplicityDecl) | NNamespace (n : Namespace)
  | NNullExpr (n : NullExpr) | NObjectFlowEdge (n : ObjectFlowEdge)
  | NOperatorExpr (n : OperatorExpr) | NPackage (n : Package)
  | NPerformActionNode (n : PerformActionNode) | NPrefixMetadata (n : PrefixMetadata)
  | NPseudostateNode (n : PseudostateNode) | NQualifiedName (n : QualifiedName)
  | NRelationship (n : Relationship) | NRelationshipMember (n : RelationshipMember)
  | NRequireMember (n : RequireMember) | NRootNamespace (n : RootNamespace)
  | NSelectExpr (n : SelectExpr) | NSendStatement (n : SendStatement)
  | NSequenceExpr (n : SequenceExpr) | NStateNode (n : StateNode)
  | NStateRegion (n : StateRegion) | NSubjectMember (n : SubjectMember)
  | NSubstateMember (n : SubstateMember) | NSuccessionEdge (n : SuccessionEdge)
  | NTerminateStatement (n : TerminateStatement)
  | NTextualRepresentation (n : TextualRepresentation) | NTimeEvent (n : TimeEvent)
  | NTransitionEdge (n : TransitionEdge) | NTransitionMember (n : TransitionMember)
  | NUsage (n : Usage) | NWhileLoopActionNode (n : WhileLoopActionNode)
  | Foreign (T : bytes).

(** ** Their kinds *)

(** [kind numbers the concrete node types; a stream stores nodes grouped by kind]. *)
Inductive kind := | kindAcceptActionUsage | kindAcceptEvent | kindActionExecutionNode
  | kindAlias | kindAssignmentActionNode | kindAssumeMember | kindBodyExpr | kindCallEvent
  | kindCastExpr | kindChangeEvent | kindCollectExpr | kindComment | kindConnectorEnd
  | kindConstraintMember | kindConstructorExpr | kindControlFlowEdge | kindCrossFeatureMember
  | kindDecisionNode | kindDefinition | kindDependency | kindDoMember | kindDocumentation
  | kindEntryMember | kindErrorNode | kindExitMember | kindFeatureChainExpr
  | kindFeatureReference | kindFilterMember | kindFinalNode | kindFlowEnds | kindForkNode
  | kindIfActionNode | kindIfBranchNode | kindImport | kindIndexExpr | kindInitialNode
  | kindInvocationExpr | kindJoinNode | kindLiteralBool | kindLiteralInfinity
  | kindLiteralInteger | kindLiteralReal | kindLiteralString | kindMembership | kindMergeNode
  | kindMetadataAccessExpr | kindMultiplicity | kindMultiplicityDecl | kindNamespace
  | kindNullExpr | kindObjectFlowEdge | kindOperatorExpr | kindPackage | kindPerformActionNode
  | kindPrefixMetadata | kindPseudostateNode | kindQualifiedName | kindRelationship
  | kindRelationshipMember | kindRequireMember | kindRootNamespace | kindSelectExpr
  | kindSendStatement | kindSequenceExpr | kindStateNode | kindStateRegion | kindSubjectMember
  | kindSubstateMember | kindSuccessionEdge | kindTerminateStatement
  | kindTextualRepresentation | kindTimeEvent | kindTransitionEdge | kindTransitionMember
  | kindUsage | kindWhileLoopActionNode
  | numKinds.

#[export] Instance kind_eq_dec : EqDecision kind.
Proof. solve_decision. Defined.

(** The kinds before [numKinds], in their order. *)
Definition kinds : list kind :=
  [kindAcceptActionUsage; kindAcceptEvent;
   kindActionExecutionNode; kindAlias; kindAssignmentActionNode; kindAssumeMember;
   kindBodyExpr; kindCallEvent; kindCastExpr; kindChangeEvent; kindCollectExpr; kindComment;
   kindConnectorEnd; kindConstraintMember; kindConstructorExpr; kindControlFlowEdge;
   kindCrossFeatureMember; kindDecisionNode; kindDefinition; kindDependency; kindDoMember;
   kindDocumentation; kindEntryMember; kindErrorNode; kindExitMember; kindFeatureChainExpr;
   kindFeatureReference; kindFilterMember; kindFinalNode; kindFlowEnds; kindForkNode;
   kindIfActionNode; kindIfBranchNode; kindImport; kindIndexExpr; kindInitialNode;
   kindInvocationExpr; kindJoinNode; kindLiteralBool; kindLiteralInfinity; kindLiteralInteger;
   kindLiteralReal; kindLiteralString; kindMembership; kindMergeNode; kindMetadataAccessExpr;
   kindMultiplicity; kindMultiplicityDecl; kindNamespace; kindNullExpr; kindObjectFlowEdge;
   kindOperatorExpr; kindPackage; kindPerformActionNode; kindPrefixMetadata;
   kindPseudostateNode; kindQualifiedName; kindRelationship; kindRelationshipMember;
   kindRequireMember; kindRootNamespace; kindSelectExpr; kindSendStatement; kindSequenceExpr;
   kindStateNode; kindStateRegion; kindSubjectMember; kindSubstateMember; kindSuccessionEdge;
   kindTerminateStatement; kindTextualRepresentation; kindTimeEvent; kindTransitionEdge;
   kindTransitionMember; kindUsage; kindWhileLoopActionNode].

Definition kind_number (k : kind) : nat :=
  match k with
  | kindAcceptActionUsage => 0
  | kindAcceptEvent => 1 | kindActionExecutionNode => 2 | kindAlias => 3
  | kindAssignmentActionNode => 4 | kindAssumeMember => 5 | kindBodyExpr => 6
  | kindCallEvent => 7 | kindCastExpr => 8 | kindChangeEvent => 9 | kindCollectExpr => 10
  | kindComment => 11 | kindConnectorEnd => 12 | kindConstraintMember => 13
  | kindConstructorExpr => 14 | kindControlFlowEdge => 15 | kindCrossFeatureMember => 16
  | kindDecisionNode => 17 | kindDefinition => 18 | kindDependency => 19 | kindDoMember => 20
  | kindDocumentation => 21 | kindEntryMember => 22 | kindErrorNode => 23
  | kindExitMember => 24 | kindFeatureChainExpr => 25 | kindFeatureReference => 26
  | kindFilterMember => 27 | kindFinalNode => 28 | kindFlowEnds => 29 | kindForkNode => 30
  | kindIfActionNode => 31 | kindIfBranchNode => 32 | kindImport => 33 | kindIndexExpr => 34
  | kindInitialNode => 35 | kindInvocationExpr => 36 | kindJoinNode => 37
  | kindLiteralBool => 38 | kindLiteralInfinity => 39 | kindLiteralInteger => 40
  | kindLiteralReal => 41 | kindLiteralString => 42 | kindMembership => 43
  | kindMergeNode => 44 | kindMetadataAccessExpr => 45 | kindMultiplicity => 46
  | kindMultiplicityDecl => 47 | kindNamespace => 48 | kindNullExpr => 49
  | kindObjectFlowEdge => 50 | kindOperatorExpr => 51 | kindPackage => 52
  | kindPerformActionNode => 53 | kindPrefixMetadata => 54 | kindPseudostateNode => 55
  | kindQualifiedName => 56 | kindRelationship => 57 | kindRelationshipMember => 58
  | kindRequireMember => 59 | kindRootNamespace => 60 | kindSelectExpr => 61
  | kindSendStatement => 62 | kindSequenceExpr => 63 | kindStateNode => 64
  | kindStateRegion => 65 | kindSubjectMember => 66 | kindSubstateMember => 67
  | kindSuccessionEdge => 68 | kindTerminateStatement => 69 | kindTextualRepresentation => 70
  | kindTimeEvent => 71 | kindTransitionEdge => 72 | kindTransitionMember => 73
  | kindUsage => 74 | kindWhileLoopActionNode => 75
  | numKinds => 76
  end%nat.

(** The kind of a node a pointer leads to; a nil reference has none. *)
Definition kindOf (node : Node) : kind :=
  match node with
  | NAcceptActionUsage _ => kindAcceptActionUsage
  | NAcceptEvent _ => kindAcceptEvent
  | NActionExecutionNode _ => kindActionExecutionNode
  | NAlias _ => kindAlias
  | NAssignmentActionNode _ => kindAssignmentActionNode
  | NAssumeMember _ => kindAssumeMember
  | NBodyExpr _ => kindBodyExpr
  | NCallEvent _ => kindCallEvent
  | NCastExpr _ => kindCastExpr
  | NChangeEvent _ => kindChangeEvent
  | NCollectExpr _ => kindCollectExpr
  | NComment _ => kindComment
  | NConnectorEnd _ => kindConnectorEnd
  | NConstraintMember _ => kindConstraintMember
  | NConstructorExpr _ => kindConstructorExpr
  | NControlFlowEdge _ => kindControlFlowEdge
  | NCrossFeatureMember _ => kindCrossFeatureMember
  | NDecisionNode _ => kindDecisionNode
  | NDefinition _ => kindDefinition
  | NDependency _ => kindDependency
  | NDoMember _ => kindDoMember
  | NDocumentation _ => kindDocumentation
  | NEntryMember _ => kindEntryMember
  | NErrorNode _ => kindErrorNode
  | NExitMember _ => kindExitMember
  | NFeatureChainExpr _ => kindFeatureChainExpr
  | NFeatureReference _ => kindFeatureReference
  | NFilterMember _ => kindFilterMember
  | NFinalNode _ => kindFinalNode
  | NFlowEnds _ => kindFlowEnds
  | NForkNode _ => kindForkNode
  | NIfActionNode _ => kindIfActionNode
  | NIfBranchNode _ => kindIfBranchNode
  | NImport _ => kindImport
  | NIndexExpr _ => kindIndexExpr
  | NInitialNode _ => kindInitialNode
  | NInvocationExpr _ => kindInvocationExpr
  | NJoinNode _ => kindJoinNode
  | NLiteralBool _ => kindLiteralBool
  | NLiteralInfinity _ => kindLiteralInfinity
  | NLiteralInteger _ => kindLiteralInteger
  | NLiteralReal _ => kindLiteralReal
  | NLiteralString _ => kindLiteralString
  | NMembership _ => kindMembership
  | NMergeNode _ => kindMergeNode
  | NMetadataAccessExpr _ => kindMetadataAccessExpr
  | NMultiplicity _ => kindMultiplicity
  | NMultiplicityDecl _ => kindMultiplicityDecl
  | NNamespace _ => kindNamespace
  | NNullExpr _ => kindNullExpr
  | NObjectFlowEdge _ => kindObjectFlowEdge
  | NOperatorExpr _ => kindOperatorExpr
  | NPackage _ => kindPackage
  | NPerformActionNode _ => kindPerformActionNode
  | NPrefixMetadata _ => kindPrefixMetadata
  | NPseudostateNode _ => kindPseudostateNode
  | NQualifiedName _ => kindQualifiedName
  | NRelationship _ => kindRelationship
  | NRelationshipMember _ => kindRelationshipMember
  | NRequireMember _ => kindRequireMember
  | NRootNamespace _ => kindRootNamespace
  | NSelectExpr _ => kindSelectExpr
  | NSendStatement _ => kindSendStatement
  | NSequenceExpr _ => kindSequenceExpr
  | NStateNode _ => kindStateNode
  | NStateRegion _ => kindStateRegion
  | NSubjectMember _ => kindSubjectMember
  | NSubstateMember _ => kindSubstateMember
  | NSuccessionEdge _ => kindSuccessionEdge
  | NTerminateStatement _ => kindTerminateStatement
  | NTextualRepresentation _ => kindTextualRepresentation
  | NTimeEvent _ => kindTimeEvent
  | NTransitionEdge _ => kindTransitionEdge
  | NTransitionMember _ => kindTransitionMember
  | NUsage _ => kindUsage
  | NWhileLoopActionNode _ => kindWhileLoopActionNode
  | Foreign _ => numKinds
  end.

(** What a reference of a typed field may lead to: a pointer's one struct, or the
    implementations of [TriggerEvent]. *)
Definition pointer (k k' : kind) : bool := bool_decide (k = k').
Definition TriggerEvent (k : kind) : bool :=
  match k with
  | kindTimeEvent | kindChangeEvent | kindAcceptEvent | kindCallEvent => true
  | _ => false
  end.

(** The node [make] leaves in a block of a kind. *)
Definition zero_node (k : kind) : option Node :=
  match k with
  | kindAcceptActionUsage => Some (NAcceptActionUsage (Build_AcceptActionUsage zeroBase [] []
        None))
  | kindAcceptEvent => Some (NAcceptEvent (Build_AcceptEvent zeroBase None None None))
  | kindActionExecutionNode => Some (NActionExecutionNode (Build_ActionExecutionNode zeroBase
        [] None None))
  | kindAlias => Some (NAlias (Build_Alias zeroBase 0 zeroIdent None [] false))
  | kindAssignmentActionNode => Some (NAssignmentActionNode (Build_AssignmentActionNode
        zeroBase None None))
  | kindAssumeMember => Some (NAssumeMember (Build_AssumeMember zeroBase [] None None []
        zeroIdent zeroSpan [] None None zeroSpan false false false))
  | kindBodyExpr => Some (NBodyExpr (Build_BodyExpr zeroBase [] [] None))
  | kindCallEvent => Some (NCallEvent (Build_CallEvent zeroBase None []))
  | kindCastExpr => Some (NCastExpr (Build_CastExpr zeroBase None None))
  | kindChangeEvent => Some (NChangeEvent (Build_ChangeEvent zeroBase None))
  | kindCollectExpr => Some (NCollectExpr (Build_CollectExpr zeroBase None None))
  | kindComment => Some (NComment (Build_Comment zeroBase zeroIdent [] [] zeroSpan))
  | kindConnectorEnd => Some (NConnectorEnd (Build_ConnectorEnd zeroBase None None None []))
  | kindConstraintMember => Some (NConstraintMember (Build_ConstraintMember zeroBase false []
        false None [] [] zeroSpan))
  | kindConstructorExpr => Some (NConstructorExpr (Build_ConstructorExpr zeroBase None [] []))
  | kindControlFlowEdge => Some (NControlFlowEdge (Build_ControlFlowEdge zeroBase None None
        None false None None false false))
  | kindCrossFeatureMember => Some (NCrossFeatureMember (Build_CrossFeatureMember zeroBase 0
        false false false false false false false false zeroIdent None false false []))
  | kindDecisionNode => Some (NDecisionNode (Build_DecisionNode zeroBase [] [] zeroSpan []
        false))
  | kindDefinition => Some (NDefinition (Build_DefinitionNode zeroBase [] 0 [] false false
        false false false false false zeroSpan false 0 zeroIdent None [] [] false))
  | kindDependency => Some (NDependency (Build_Dependency zeroBase [] zeroIdent [] [] [] false))
  | kindDoMember => Some (NDoMember (Build_DoMember zeroBase []))
  | kindDocumentation => Some (NDocumentation (Build_Documentation zeroBase zeroIdent []
        zeroSpan))
  | kindEntryMember => Some (NEntryMember (Build_EntryMember zeroBase []))
  | kindErrorNode => Some (NErrorNode (Build_ErrorNode zeroBase []))
  | kindExitMember => Some (NExitMember (Build_ExitMember zeroBase []))
  | kindFeatureChainExpr => Some (NFeatureChainExpr (Build_FeatureChainExpr zeroBase None None))
  | kindFeatureReference => Some (NFeatureReference (Build_FeatureReference zeroBase None))
  | kindFilterMember => Some (NFilterMember (Build_FilterMember zeroBase None))
  | kindFinalNode => Some (NFinalNode (Build_FinalNode zeroBase))
  | kindFlowEnds => Some (NFlowEnds (Build_FlowEnds zeroBase None None None None None))
  | kindForkNode => Some (NForkNode (Build_ForkNode zeroBase [] [] zeroSpan [] false))
  | kindIfActionNode => Some (NIfActionNode (Build_IfActionNode zeroBase None None None))
  | kindIfBranchNode => Some (NIfBranchNode (Build_IfBranchNode zeroBase 0 []))
  | kindImport => Some (NImport (Build_Import zeroBase 0 false 0 None false None [] false false))
  | kindIndexExpr => Some (NIndexExpr (Build_IndexExpr zeroBase None None false))
  | kindInitialNode => Some (NInitialNode (Build_InitialNode zeroBase None None None None []
        false))
  | kindInvocationExpr => Some (NInvocationExpr (Build_InvocationExpr zeroBase None None [] []
        false))
  | kindJoinNode => Some (NJoinNode (Build_JoinNode zeroBase [] [] zeroSpan [] false))
  | kindLiteralBool => Some (NLiteralBool (Build_LiteralBool zeroBase false))
  | kindLiteralInfinity => Some (NLiteralInfinity (Build_LiteralInfinity zeroBase))
  | kindLiteralInteger => Some (NLiteralInteger (Build_LiteralInteger zeroBase []))
  | kindLiteralReal => Some (NLiteralReal (Build_LiteralReal zeroBase []))
  | kindLiteralString => Some (NLiteralString (Build_LiteralString zeroBase []))
  | kindMembership => Some (NMembership (Build_Membership zeroBase 0 false None))
  | kindMergeNode => Some (NMergeNode (Build_MergeNode zeroBase [] [] zeroSpan [] false))
  | kindMetadataAccessExpr => Some (NMetadataAccessExpr (Build_MetadataAccessExpr zeroBase None))
  | kindMultiplicity => Some (NMultiplicity (Build_Multiplicity zeroBase None None false))
  | kindMultiplicityDecl => Some (NMultiplicityDecl (Build_MultiplicityDecl zeroBase zeroIdent
        None None [] false))
  | kindNamespace => Some (NNamespace (Build_Namespace zeroBase [] zeroIdent [] false))
  | kindNullExpr => Some (NNullExpr (Build_NullExpr zeroBase))
  | kindObjectFlowEdge => Some (NObjectFlowEdge (Build_ObjectFlowEdge zeroBase None None))
  | kindOperatorExpr => Some (NOperatorExpr (Build_OperatorExpr zeroBase 0 [] None))
  | kindPackage => Some (NPackage (Build_Package zeroBase [] zeroIdent false false [] false))
  | kindPerformActionNode => Some (NPerformActionNode (Build_PerformActionNode zeroBase None))
  | kindPrefixMetadata => Some (NPrefixMetadata (Build_PrefixMetadata zeroBase zeroIdent None
        [] false [] zeroSpan))
  | kindPseudostateNode => Some (NPseudostateNode (Build_PseudostateNode zeroBase 0 [] []))
  | kindQualifiedName => Some (NQualifiedName (Build_QualifiedName zeroBase false []))
  | kindRelationship => Some (NRelationship (Build_Relationship zeroBase 0 None false None
        zeroSpan))
  | kindRelationshipMember => Some (NRelationshipMember (Build_RelationshipMember zeroBase
        zeroIdent 0 [] [] None None false 0 [] false))
  | kindRequireMember => Some (NRequireMember (Build_RequireMember zeroBase [] None None []
        zeroIdent zeroSpan [] None None zeroSpan false false false))
  | kindRootNamespace => Some (NRootNamespace (Build_RootNamespace zeroBase [] [] 0))
  | kindSelectExpr => Some (NSelectExpr (Build_SelectExpr zeroBase None None))
  | kindSendStatement => Some (NSendStatement (Build_SendStatement zeroBase None None false
        None [] false))
  | kindSequenceExpr => Some (NSequenceExpr (Build_SequenceExpr zeroBase []))
  | kindStateNode => Some (NStateNode (Build_StateNode zeroBase [] [] [] [] [] []))
  | kindStateRegion => Some (NStateRegion (Build_StateRegion zeroBase [] []))
  | kindSubjectMember => Some (NSubjectMember (Build_SubjectMember zeroBase [] zeroIdent None
        None [] [] None zeroSpan false false false))
  | kindSubstateMember => Some (NSubstateMember (Build_SubstateMember zeroBase [] zeroSpan))
  | kindSuccessionEdge => Some (NSuccessionEdge (Build_SuccessionEdge zeroBase None None None
        None None None false false [] false))
  | kindTerminateStatement => Some (NTerminateStatement (Build_TerminateStatement zeroBase None))
  | kindTextualRepresentation => Some (NTextualRepresentation (Build_TextualRepresentation
        zeroBase zeroIdent [] zeroSpan))
  | kindTimeEvent => Some (NTimeEvent (Build_TimeEvent zeroBase None false))
  | kindTransitionEdge => Some (NTransitionEdge (Build_TransitionEdge zeroBase None None None
        None []))
  | kindTransitionMember => Some (NTransitionMember (Build_TransitionMember zeroBase []
        zeroSpan None None None zeroSpan None [] false None None [] false false))
  | kindUsage => Some (NUsage (Build_Usage zeroBase [] 0 [] [] false false false false false
        false false false false false false zeroSpan 0 false false false false None false false
        false 0 0 false false false false false false zeroIdent [] None None None zeroSpan
        false false [] false [] None))
  | kindWhileLoopActionNode => Some (NWhileLoopActionNode (Build_WhileLoopActionNode zeroBase 0
        None [] None zeroIdent [] None))
  | numKinds => None
  end.

(** ** What a node holds *)

(** The references of a node, in the order of its fields. *)
Definition arg_refs (a : NamedArg) : list ref := [a.(NamedArg_Name); a.(NamedArg_Value)].
Definition param_refs (p : BodyParam) : list ref :=
  [p.(BodyParam_Type)] ++ [p.(BodyParam_Multiplicity)] ++ [p.(BodyParam_Value)] ++
  p.(BodyParam_Members) ++ p.(BodyParam_Relationships).

Definition refs (node : Node) : list ref :=
  match node with
  | NAcceptActionUsage n => [n.(AcceptActionUsage_ParamType)]
  | NAcceptEvent n => [n.(AcceptEvent_SignalType)] ++ [n.(AcceptEvent_Subsets)] ++
      [n.(AcceptEvent_Payload)]
  | NActionExecutionNode n => [n.(ActionExecutionNode_ActionRef)] ++
      [n.(ActionExecutionNode_Expression)]
  | NAlias n => [n.(Alias_For)] ++ n.(Alias_Body)
  | NAssignmentActionNode n => [n.(AssignmentActionNode_Target)] ++
      [n.(AssignmentActionNode_Value)]
  | NAssumeMember n => n.(AssumeMember_Prefixes) ++ [n.(AssumeMember_Expression)] ++
      [n.(AssumeMember_Reference)] ++ n.(AssumeMember_Body) ++
      n.(AssumeMember_Relationships) ++ [n.(AssumeMember_Multiplicity)] ++
      [n.(AssumeMember_Value)]
  | NBodyExpr n => concat (map param_refs n.(BodyExpr_Params)) ++ n.(BodyExpr_Members) ++
      [n.(BodyExpr_Result)]
  | NCallEvent n => [n.(CallEvent_Operation)]
  | NCastExpr n => [n.(CastExpr_TargetType)] ++ [n.(CastExpr_Multiplicity)]
  | NChangeEvent n => [n.(ChangeEvent_Condition)]
  | NCollectExpr n => [n.(CollectExpr_Operand)] ++ [n.(CollectExpr_Body)]
  | NComment n => n.(Comment_About)
  | NConnectorEnd n => [n.(ConnectorEnd_Target)] ++ [n.(ConnectorEnd_Multiplicity)] ++
      [n.(ConnectorEnd_Reference)] ++ n.(ConnectorEnd_Relationships)
  | NConstraintMember n => [n.(ConstraintMember_Expression)] ++ n.(ConstraintMember_Body)
  | NConstructorExpr n => [n.(ConstructorExpr_Type)] ++ n.(ConstructorExpr_Args) ++
      concat (map arg_refs n.(ConstructorExpr_NamedArgs))
  | NControlFlowEdge n => [n.(ControlFlowEdge_Source)] ++ [n.(ControlFlowEdge_Target)] ++
      [n.(ControlFlowEdge_Guard)] ++ [n.(ControlFlowEdge_SourceMember)] ++
      [n.(ControlFlowEdge_TargetMember)]
  | NCrossFeatureMember n => [n.(CrossFeatureMember_Multiplicity)] ++
      n.(CrossFeatureMember_Relationships)
  | NDecisionNode n => n.(DecisionNode_Members) ++ n.(DecisionNode_Prefixes)
  | NDefinition n => n.(Definition_Prefixes) ++ [n.(Definition_Multiplicity)] ++
      n.(Definition_Relationships) ++ n.(Definition_Members)
  | NDependency n => n.(Dependency_Prefixes) ++ n.(Dependency_Clients) ++
      n.(Dependency_Suppliers) ++ n.(Dependency_Body)
  | NDoMember n => n.(DoMember_Actions)
  | NDocumentation _ => []
  | NEntryMember n => n.(EntryMember_Actions)
  | NErrorNode _ => []
  | NExitMember n => n.(ExitMember_Actions)
  | NFeatureChainExpr n => [n.(FeatureChainExpr_Operand)] ++ [n.(FeatureChainExpr_Member)]
  | NFeatureReference n => [n.(FeatureReference_Name)]
  | NFilterMember n => [n.(FilterMember_Condition)]
  | NFinalNode _ => []
  | NFlowEnds n => [n.(FlowEnds_From)] ++ [n.(FlowEnds_To)] ++ [n.(FlowEnds_Payload)] ++
      [n.(FlowEnds_PayloadDecl)] ++ [n.(FlowEnds_PayloadMultiplicity)]
  | NForkNode n => n.(ForkNode_Members) ++ n.(ForkNode_Prefixes)
  | NIfActionNode n => [n.(IfActionNode_Condition)] ++ [n.(IfActionNode_Then)] ++
      [n.(IfActionNode_Else)]
  | NIfBranchNode n => n.(IfBranchNode_Body)
  | NImport n => [n.(Import_Imported)] ++ [n.(Import_FilterExpr)] ++ n.(Import_Body)
  | NIndexExpr n => [n.(IndexExpr_Operand)] ++ [n.(IndexExpr_Index)]
  | NInitialNode n => [n.(InitialNode_First)] ++ [n.(InitialNode_Successor)] ++
      [n.(InitialNode_Guard)] ++ [n.(InitialNode_TargetMultiplicity)] ++
      n.(InitialNode_Members)
  | NInvocationExpr n => [n.(InvocationExpr_Operand)] ++ [n.(InvocationExpr_Type)] ++
      n.(InvocationExpr_Args) ++ concat (map arg_refs n.(InvocationExpr_NamedArgs))
  | NJoinNode n => n.(JoinNode_Members) ++ n.(JoinNode_Prefixes)
  | NLiteralBool _ => []
  | NLiteralInfinity _ => []
  | NLiteralInteger _ => []
  | NLiteralReal _ => []
  | NLiteralString _ => []
  | NMembership n => [n.(Membership_Member)]
  | NMergeNode n => n.(MergeNode_Members) ++ n.(MergeNode_Prefixes)
  | NMetadataAccessExpr n => [n.(MetadataAccessExpr_Ref)]
  | NMultiplicity n => [n.(Multiplicity_Lower)] ++ [n.(Multiplicity_Upper)]
  | NMultiplicityDecl n => [n.(MultiplicityDecl_Range)] ++ [n.(MultiplicityDecl_Subsets)] ++
      n.(MultiplicityDecl_Members)
  | NNamespace n => n.(Namespace_Prefixes) ++ n.(Namespace_Members)
  | NNullExpr _ => []
  | NObjectFlowEdge n => [n.(ObjectFlowEdge_Source)] ++ [n.(ObjectFlowEdge_Target)]
  | NOperatorExpr n => n.(OperatorExpr_Operands) ++ [n.(OperatorExpr_TypeRef)]
  | NPackage n => n.(Package_Prefixes) ++ n.(Package_Members)
  | NPerformActionNode n => [n.(PerformActionNode_ActionRef)]
  | NPrefixMetadata n => [n.(PrefixMetadata_Type)] ++ n.(PrefixMetadata_Body) ++
      n.(PrefixMetadata_About)
  | NPseudostateNode _ => []
  | NQualifiedName _ => []
  | NRelationship n => [n.(Relationship_Target)] ++ [n.(Relationship_Multiplicity)]
  | NRelationshipMember n => [n.(RelationshipMember_Source)] ++
      [n.(RelationshipMember_Target)] ++ n.(RelationshipMember_Members)
  | NRequireMember n => n.(RequireMember_Prefixes) ++ [n.(RequireMember_Expression)] ++
      [n.(RequireMember_Reference)] ++ n.(RequireMember_Body) ++
      n.(RequireMember_Relationships) ++ [n.(RequireMember_Multiplicity)] ++
      [n.(RequireMember_Value)]
  | NRootNamespace n => n.(RootNamespace_Members) ++ n.(RootNamespace_UndefinedOperators)
  | NSelectExpr n => [n.(SelectExpr_Operand)] ++ [n.(SelectExpr_Body)]
  | NSendStatement n => [n.(SendStatement_Message)] ++ [n.(SendStatement_Target)] ++
      [n.(SendStatement_Receiver)] ++ n.(SendStatement_Members)
  | NSequenceExpr n => n.(SequenceExpr_Elements)
  | NStateNode n => n.(StateNode_Entry) ++ n.(StateNode_Do) ++ n.(StateNode_Exit) ++
      n.(StateNode_Substates) ++ n.(StateNode_Regions)
  | NStateRegion n => n.(StateRegion_States)
  | NSubjectMember n => n.(SubjectMember_Prefixes) ++ [n.(SubjectMember_TypeRef)] ++
      [n.(SubjectMember_Multiplicity)] ++ n.(SubjectMember_Relationships) ++
      n.(SubjectMember_Body) ++ [n.(SubjectMember_BindingExpr)]
  | NSubstateMember _ => []
  | NSuccessionEdge n => [n.(SuccessionEdge_Source)] ++ [n.(SuccessionEdge_Target)] ++
      [n.(SuccessionEdge_SourceMultiplicity)] ++ [n.(SuccessionEdge_TargetMultiplicity)] ++
      [n.(SuccessionEdge_SourceMember)] ++ [n.(SuccessionEdge_TargetMember)] ++
      n.(SuccessionEdge_Members)
  | NTerminateStatement n => [n.(TerminateStatement_Target)]
  | NTextualRepresentation _ => []
  | NTimeEvent n => [n.(TimeEvent_Duration)]
  | NTransitionEdge n => [n.(TransitionEdge_Source)] ++ [n.(TransitionEdge_Target)] ++
      [n.(TransitionEdge_Trigger)] ++ [n.(TransitionEdge_Guard)] ++ n.(TransitionEdge_Effect)
  | NTransitionMember n => [n.(TransitionMember_Source)] ++ [n.(TransitionMember_Target)] ++
      [n.(TransitionMember_Trigger)] ++ [n.(TransitionMember_Guard)] ++
      n.(TransitionMember_Effect) ++ [n.(TransitionMember_Via)] ++
      [n.(TransitionMember_TargetMultiplicity)] ++ n.(TransitionMember_Members)
  | NUsage n => n.(Usage_Prefixes) ++ n.(Usage_Relationships) ++ [n.(Usage_Multiplicity)] ++
      [n.(Usage_CrossFeature)] ++ [n.(Usage_Terminates)] ++ [n.(Usage_Value)] ++
      n.(Usage_Members) ++ n.(Usage_ConnectorEnds) ++ [n.(Usage_FlowEnds)]
  | NWhileLoopActionNode n => [n.(WhileLoopActionNode_Condition)] ++
      n.(WhileLoopActionNode_Body) ++ [n.(WhileLoopActionNode_Until)] ++
      n.(WhileLoopActionNode_VariableRelationships) ++ [n.(WhileLoopActionNode_Collection)]
  | Foreign _ => []
  end.

(** The same node with other addresses. *)
Definition map_arg (f : ref -> ref) (a : NamedArg) : NamedArg :=
  {| NamedArg_Name := f a.(NamedArg_Name); NamedArg_Value := f a.(NamedArg_Value) |}.
Definition map_param (f : ref -> ref) (p : BodyParam) : BodyParam :=
  {| BodyParam_Name := p.(BodyParam_Name); BodyParam_Type := f p.(BodyParam_Type);
     BodyParam_Multiplicity := f p.(BodyParam_Multiplicity);
     BodyParam_Value := f p.(BodyParam_Value); BodyParam_IsReference := p.(BodyParam_IsReference);
     BodyParam_Members := map f p.(BodyParam_Members);
     BodyParam_Relationships := map f p.(BodyParam_Relationships);
     BodyParam_Span := p.(BodyParam_Span) |}.

Definition map_refs (f : ref -> ref) (node : Node) : Node :=
  match node with
  | NAcceptActionUsage n => NAcceptActionUsage
      {| AcceptActionUsage_NodeBase := n.(AcceptActionUsage_NodeBase);
         AcceptActionUsage_Name := n.(AcceptActionUsage_Name);
         AcceptActionUsage_ParamName := n.(AcceptActionUsage_ParamName);
         AcceptActionUsage_ParamType := f n.(AcceptActionUsage_ParamType) |}
  | NAcceptEvent n => NAcceptEvent
      {| AcceptEvent_NodeBase := n.(AcceptEvent_NodeBase);
         AcceptEvent_SignalType := f n.(AcceptEvent_SignalType);
         AcceptEvent_Subsets := f n.(AcceptEvent_Subsets);
         AcceptEvent_Payload := f n.(AcceptEvent_Payload) |}
  | NActionExecutionNode n => NActionExecutionNode
      {| ActionExecutionNode_NodeBase := n.(ActionExecutionNode_NodeBase);
         ActionExecutionNode_Name := n.(ActionExecutionNode_Name);
         ActionExecutionNode_ActionRef := f n.(ActionExecutionNode_ActionRef);
         ActionExecutionNode_Expression := f n.(ActionExecutionNode_Expression) |}
  | NAlias n => NAlias
      {| Alias_NodeBase := n.(Alias_NodeBase); Alias_Visibility := n.(Alias_Visibility);
         Alias_Ident := n.(Alias_Ident); Alias_For := f n.(Alias_For);
         Alias_Body := map f n.(Alias_Body); Alias_HasBody := n.(Alias_HasBody) |}
  | NAssignmentActionNode n => NAssignmentActionNode
      {| AssignmentActionNode_NodeBase := n.(AssignmentActionNode_NodeBase);
         AssignmentActionNode_Target := f n.(AssignmentActionNode_Target);
         AssignmentActionNode_Value := f n.(AssignmentActionNode_Value) |}
  | NAssumeMember n => NAssumeMember
      {| AssumeMember_NodeBase := n.(AssumeMember_NodeBase);
         AssumeMember_Prefixes := map f n.(AssumeMember_Prefixes);
         AssumeMember_Expression := f n.(AssumeMember_Expression);
         AssumeMember_Reference := f n.(AssumeMember_Reference);
         AssumeMember_Body := map f n.(AssumeMember_Body);
         AssumeMember_Ident := n.(AssumeMember_Ident);
         AssumeMember_DeclSpan := n.(AssumeMember_DeclSpan);
         AssumeMember_Relationships := map f n.(AssumeMember_Relationships);
         AssumeMember_Multiplicity := f n.(AssumeMember_Multiplicity);
         AssumeMember_Value := f n.(AssumeMember_Value);
         AssumeMember_ValueOperatorSpan := n.(AssumeMember_ValueOperatorSpan);
         AssumeMember_ValueIsDefault := n.(AssumeMember_ValueIsDefault);
         AssumeMember_ValueIsInitial := n.(AssumeMember_ValueIsInitial);
         AssumeMember_HasBody := n.(AssumeMember_HasBody) |}
  | NBodyExpr n => NBodyExpr
      {| BodyExpr_NodeBase := n.(BodyExpr_NodeBase);
         BodyExpr_Params := map (map_param f) n.(BodyExpr_Params);
         BodyExpr_Members := map f n.(BodyExpr_Members);
         BodyExpr_Result := f n.(BodyExpr_Result) |}
  | NCallEvent n => NCallEvent
      {| CallEvent_NodeBase := n.(CallEvent_NodeBase);
         CallEvent_Operation := f n.(CallEvent_Operation);
         CallEvent_Parameters := n.(CallEvent_Parameters) |}
  | NCastExpr n => NCastExpr
      {| CastExpr_NodeBase := n.(CastExpr_NodeBase);
         CastExpr_TargetType := f n.(CastExpr_TargetType);
         CastExpr_Multiplicity := f n.(CastExpr_Multiplicity) |}
  | NChangeEvent n => NChangeEvent
      {| ChangeEvent_NodeBase := n.(ChangeEvent_NodeBase);
         ChangeEvent_Condition := f n.(ChangeEvent_Condition) |}
  | NCollectExpr n => NCollectExpr
      {| CollectExpr_NodeBase := n.(CollectExpr_NodeBase);
         CollectExpr_Operand := f n.(CollectExpr_Operand);
         CollectExpr_Body := f n.(CollectExpr_Body) |}
  | NComment n => NComment
      {| Comment_NodeBase := n.(Comment_NodeBase); Comment_Ident := n.(Comment_Ident);
         Comment_About := map f n.(Comment_About); Comment_Locale := n.(Comment_Locale);
         Comment_BodySpan := n.(Comment_BodySpan) |}
  | NConnectorEnd n => NConnectorEnd
      {| ConnectorEnd_NodeBase := n.(ConnectorEnd_NodeBase);
         ConnectorEnd_Target := f n.(ConnectorEnd_Target);
         ConnectorEnd_Multiplicity := f n.(ConnectorEnd_Multiplicity);
         ConnectorEnd_Reference := f n.(ConnectorEnd_Reference);
         ConnectorEnd_Relationships := map f n.(ConnectorEnd_Relationships) |}
  | NConstraintMember n => NConstraintMember
      {| ConstraintMember_NodeBase := n.(ConstraintMember_NodeBase);
         ConstraintMember_IsAssert := n.(ConstraintMember_IsAssert);
         ConstraintMember_Keyword := n.(ConstraintMember_Keyword);
         ConstraintMember_IsNegated := n.(ConstraintMember_IsNegated);
         ConstraintMember_Expression := f n.(ConstraintMember_Expression);
         ConstraintMember_Name := n.(ConstraintMember_Name);
         ConstraintMember_Body := map f n.(ConstraintMember_Body);
         ConstraintMember_Terminator := n.(ConstraintMember_Terminator) |}
  | NConstructorExpr n => NConstructorExpr
      {| ConstructorExpr_NodeBase := n.(ConstructorExpr_NodeBase);
         ConstructorExpr_Type := f n.(ConstructorExpr_Type);
         ConstructorExpr_Args := map f n.(ConstructorExpr_Args);
         ConstructorExpr_NamedArgs := map (map_arg f) n.(ConstructorExpr_NamedArgs) |}
  | NControlFlowEdge n => NControlFlowEdge
      {| ControlFlowEdge_NodeBase := n.(ControlFlowEdge_NodeBase);
         ControlFlowEdge_Source := f n.(ControlFlowEdge_Source);
         ControlFlowEdge_Target := f n.(ControlFlowEdge_Target);
         ControlFlowEdge_Guard := f n.(ControlFlowEdge_Guard);
         ControlFlowEdge_IsElse := n.(ControlFlowEdge_IsElse);
         ControlFlowEdge_SourceMember := f n.(ControlFlowEdge_SourceMember);
         ControlFlowEdge_TargetMember := f n.(ControlFlowEdge_TargetMember);
         ControlFlowEdge_SourceImplied := n.(ControlFlowEdge_SourceImplied);
         ControlFlowEdge_TargetImplied := n.(ControlFlowEdge_TargetImplied) |}
  | NCrossFeatureMember n => NCrossFeatureMember
      {| CrossFeatureMember_NodeBase := n.(CrossFeatureMember_NodeBase);
         CrossFeatureMember_Direction := n.(CrossFeatureMember_Direction);
         CrossFeatureMember_IsDerived := n.(CrossFeatureMember_IsDerived);
         CrossFeatureMember_IsAbstract := n.(CrossFeatureMember_IsAbstract);
         CrossFeatureMember_IsVariation := n.(CrossFeatureMember_IsVariation);
         CrossFeatureMember_IsComposite := n.(CrossFeatureMember_IsComposite);
         CrossFeatureMember_IsPortion := n.(CrossFeatureMember_IsPortion);
         CrossFeatureMember_IsVariable := n.(CrossFeatureMember_IsVariable);
         CrossFeatureMember_IsConstant := n.(CrossFeatureMember_IsConstant);
         CrossFeatureMember_IsReference := n.(CrossFeatureMember_IsReference);
         CrossFeatureMember_Ident := n.(CrossFeatureMember_Ident);
         CrossFeatureMember_Multiplicity := f n.(CrossFeatureMember_Multiplicity);
         CrossFeatureMember_IsOrdered := n.(CrossFeatureMember_IsOrdered);
         CrossFeatureMember_IsNonunique := n.(CrossFeatureMember_IsNonunique);
         CrossFeatureMember_Relationships := map f n.(CrossFeatureMember_Relationships) |}
  | NDecisionNode n => NDecisionNode
      {| DecisionNode_NodeBase := n.(DecisionNode_NodeBase);
         DecisionNode_Prefixes := map f n.(DecisionNode_Prefixes);
         DecisionNode_Name := n.(DecisionNode_Name);
         DecisionNode_NameSpan := n.(DecisionNode_NameSpan);
         DecisionNode_Members := map f n.(DecisionNode_Members);
         DecisionNode_HasBody := n.(DecisionNode_HasBody) |}
  | NDefinition n => NDefinition
      {| Definition_NodeBase := n.(Definition_NodeBase);
         Definition_Prefixes := map f n.(Definition_Prefixes);
         Definition_Kind := n.(Definition_Kind); Definition_Keyword := n.(Definition_Keyword);
         Definition_HasDefKeyword := n.(Definition_HasDefKeyword);
         Definition_IsAbstract := n.(Definition_IsAbstract);
         Definition_IsVariation := n.(Definition_IsVariation);
         Definition_IsAll := n.(Definition_IsAll);
         Definition_IsConstant := n.(Definition_IsConstant);
         Definition_IsEvent := n.(Definition_IsEvent);
         Definition_IsIndividual := n.(Definition_IsIndividual);
         Definition_IndividualKeyword := n.(Definition_IndividualKeyword);
         Definition_IsParallel := n.(Definition_IsParallel);
         Definition_Visibility := n.(Definition_Visibility);
         Definition_Ident := n.(Definition_Ident);
         Definition_Multiplicity := f n.(Definition_Multiplicity);
         Definition_Relationships := map f n.(Definition_Relationships);
         Definition_Members := map f n.(Definition_Members);
         Definition_HasBody := n.(Definition_HasBody) |}
  | NDependency n => NDependency
      {| Dependency_NodeBase := n.(Dependency_NodeBase);
         Dependency_Prefixes := map f n.(Dependency_Prefixes);
         Dependency_Ident := n.(Dependency_Ident);
         Dependency_Clients := map f n.(Dependency_Clients);
         Dependency_Suppliers := map f n.(Dependency_Suppliers);
         Dependency_Body := map f n.(Dependency_Body);
         Dependency_HasBody := n.(Dependency_HasBody) |}
  | NDoMember n => NDoMember
      {| DoMember_NodeBase := n.(DoMember_NodeBase);
         DoMember_Actions := map f n.(DoMember_Actions) |}
  | NDocumentation n => NDocumentation n
  | NEntryMember n => NEntryMember
      {| EntryMember_NodeBase := n.(EntryMember_NodeBase);
         EntryMember_Actions := map f n.(EntryMember_Actions) |}
  | NErrorNode n => NErrorNode n
  | NExitMember n => NExitMember
      {| ExitMember_NodeBase := n.(ExitMember_NodeBase);
         ExitMember_Actions := map f n.(ExitMember_Actions) |}
  | NFeatureChainExpr n => NFeatureChainExpr
      {| FeatureChainExpr_NodeBase := n.(FeatureChainExpr_NodeBase);
         FeatureChainExpr_Operand := f n.(FeatureChainExpr_Operand);
         FeatureChainExpr_Member := f n.(FeatureChainExpr_Member) |}
  | NFeatureReference n => NFeatureReference
      {| FeatureReference_NodeBase := n.(FeatureReference_NodeBase);
         FeatureReference_Name := f n.(FeatureReference_Name) |}
  | NFilterMember n => NFilterMember
      {| FilterMember_NodeBase := n.(FilterMember_NodeBase);
         FilterMember_Condition := f n.(FilterMember_Condition) |}
  | NFinalNode n => NFinalNode n
  | NFlowEnds n => NFlowEnds
      {| FlowEnds_NodeBase := n.(FlowEnds_NodeBase); FlowEnds_From := f n.(FlowEnds_From);
         FlowEnds_To := f n.(FlowEnds_To); FlowEnds_Payload := f n.(FlowEnds_Payload);
         FlowEnds_PayloadDecl := f n.(FlowEnds_PayloadDecl);
         FlowEnds_PayloadMultiplicity := f n.(FlowEnds_PayloadMultiplicity) |}
  | NForkNode n => NForkNode
      {| ForkNode_NodeBase := n.(ForkNode_NodeBase);
         ForkNode_Prefixes := map f n.(ForkNode_Prefixes); ForkNode_Name := n.(ForkNode_Name);
         ForkNode_NameSpan := n.(ForkNode_NameSpan);
         ForkNode_Members := map f n.(ForkNode_Members);
         ForkNode_HasBody := n.(ForkNode_HasBody) |}
  | NIfActionNode n => NIfActionNode
      {| IfActionNode_NodeBase := n.(IfActionNode_NodeBase);
         IfActionNode_Condition := f n.(IfActionNode_Condition);
         IfActionNode_Then := f n.(IfActionNode_Then);
         IfActionNode_Else := f n.(IfActionNode_Else) |}
  | NIfBranchNode n => NIfBranchNode
      {| IfBranchNode_NodeBase := n.(IfBranchNode_NodeBase);
         IfBranchNode_Kind := n.(IfBranchNode_Kind);
         IfBranchNode_Body := map f n.(IfBranchNode_Body) |}
  | NImport n => NImport
      {| Import_NodeBase := n.(Import_NodeBase); Import_Visibility := n.(Import_Visibility);
         Import_IsAll := n.(Import_IsAll); Import_Kind := n.(Import_Kind);
         Import_Imported := f n.(Import_Imported);
         Import_IsRecursive := n.(Import_IsRecursive);
         Import_FilterExpr := f n.(Import_FilterExpr); Import_Body := map f n.(Import_Body);
         Import_HasBody := n.(Import_HasBody); Import_IsExpose := n.(Import_IsExpose) |}
  | NIndexExpr n => NIndexExpr
      {| IndexExpr_NodeBase := n.(IndexExpr_NodeBase);
         IndexExpr_Operand := f n.(IndexExpr_Operand);
         IndexExpr_Index := f n.(IndexExpr_Index); IndexExpr_Bracket := n.(IndexExpr_Bracket) |}
  | NInitialNode n => NInitialNode
      {| InitialNode_NodeBase := n.(InitialNode_NodeBase);
         InitialNode_First := f n.(InitialNode_First);
         InitialNode_Successor := f n.(InitialNode_Successor);
         InitialNode_Guard := f n.(InitialNode_Guard);
         InitialNode_TargetMultiplicity := f n.(InitialNode_TargetMultiplicity);
         InitialNode_Members := map f n.(InitialNode_Members);
         InitialNode_HasBody := n.(InitialNode_HasBody) |}
  | NInvocationExpr n => NInvocationExpr
      {| InvocationExpr_NodeBase := n.(InvocationExpr_NodeBase);
         InvocationExpr_Operand := f n.(InvocationExpr_Operand);
         InvocationExpr_Type := f n.(InvocationExpr_Type);
         InvocationExpr_Args := map f n.(InvocationExpr_Args);
         InvocationExpr_NamedArgs := map (map_arg f) n.(InvocationExpr_NamedArgs);
         InvocationExpr_BareArgument := n.(InvocationExpr_BareArgument) |}
  | NJoinNode n => NJoinNode
      {| JoinNode_NodeBase := n.(JoinNode_NodeBase);
         JoinNode_Prefixes := map f n.(JoinNode_Prefixes); JoinNode_Name := n.(JoinNode_Name);
         JoinNode_NameSpan := n.(JoinNode_NameSpan);
         JoinNode_Members := map f n.(JoinNode_Members);
         JoinNode_HasBody := n.(JoinNode_HasBody) |}
  | NLiteralBool n => NLiteralBool n
  | NLiteralInfinity n => NLiteralInfinity n
  | NLiteralInteger n => NLiteralInteger n
  | NLiteralReal n => NLiteralReal n
  | NLiteralString n => NLiteralString n
  | NMembership n => NMembership
      {| Membership_NodeBase := n.(Membership_NodeBase);
         Membership_Visibility := n.(Membership_Visibility);
         Membership_IsTypeFeature := n.(Membership_IsTypeFeature);
         Membership_Member := f n.(Membership_Member) |}
  | NMergeNode n => NMergeNode
      {| MergeNode_NodeBase := n.(MergeNode_NodeBase);
         MergeNode_Prefixes := map f n.(MergeNode_Prefixes);
         MergeNode_Name := n.(MergeNode_Name); MergeNode_NameSpan := n.(MergeNode_NameSpan);
         MergeNode_Members := map f n.(MergeNode_Members);
         MergeNode_HasBody := n.(MergeNode_HasBody) |}
  | NMetadataAccessExpr n => NMetadataAccessExpr
      {| MetadataAccessExpr_NodeBase := n.(MetadataAccessExpr_NodeBase);
         MetadataAccessExpr_Ref := f n.(MetadataAccessExpr_Ref) |}
  | NMultiplicity n => NMultiplicity
      {| Multiplicity_NodeBase := n.(Multiplicity_NodeBase);
         Multiplicity_Lower := f n.(Multiplicity_Lower);
         Multiplicity_Upper := f n.(Multiplicity_Upper);
         Multiplicity_IsRange := n.(Multiplicity_IsRange) |}
  | NMultiplicityDecl n => NMultiplicityDecl
      {| MultiplicityDecl_NodeBase := n.(MultiplicityDecl_NodeBase);
         MultiplicityDecl_Ident := n.(MultiplicityDecl_Ident);
         MultiplicityDecl_Range := f n.(MultiplicityDecl_Range);
         MultiplicityDecl_Subsets := f n.(MultiplicityDecl_Subsets);
         MultiplicityDecl_Members := map f n.(MultiplicityDecl_Members);
         MultiplicityDecl_HasBody := n.(MultiplicityDecl_HasBody) |}
  | NNamespace n => NNamespace
      {| Namespace_NodeBase := n.(Namespace_NodeBase);
         Namespace_Prefixes := map f n.(Namespace_Prefixes);
         Namespace_Ident := n.(Namespace_Ident);
         Namespace_Members := map f n.(Namespace_Members);
         Namespace_HasBody := n.(Namespace_HasBody) |}
  | NNullExpr n => NNullExpr n
  | NObjectFlowEdge n => NObjectFlowEdge
      {| ObjectFlowEdge_NodeBase := n.(ObjectFlowEdge_NodeBase);
         ObjectFlowEdge_Source := f n.(ObjectFlowEdge_Source);
         ObjectFlowEdge_Target := f n.(ObjectFlowEdge_Target) |}
  | NOperatorExpr n => NOperatorExpr
      {| OperatorExpr_NodeBase := n.(OperatorExpr_NodeBase);
         OperatorExpr_Operator := n.(OperatorExpr_Operator);
         OperatorExpr_Operands := map f n.(OperatorExpr_Operands);
         OperatorExpr_TypeRef := f n.(OperatorExpr_TypeRef) |}
  | NPackage n => NPackage
      {| Package_NodeBase := n.(Package_NodeBase);
         Package_Prefixes := map f n.(Package_Prefixes); Package_Ident := n.(Package_Ident);
         Package_IsLibrary := n.(Package_IsLibrary);
         Package_IsStandard := n.(Package_IsStandard);
         Package_Members := map f n.(Package_Members); Package_HasBody := n.(Package_HasBody) |}
  | NPerformActionNode n => NPerformActionNode
      {| PerformActionNode_NodeBase := n.(PerformActionNode_NodeBase);
         PerformActionNode_ActionRef := f n.(PerformActionNode_ActionRef) |}
  | NPrefixMetadata n => NPrefixMetadata
      {| PrefixMetadata_NodeBase := n.(PrefixMetadata_NodeBase);
         PrefixMetadata_Ident := n.(PrefixMetadata_Ident);
         PrefixMetadata_Type := f n.(PrefixMetadata_Type);
         PrefixMetadata_Body := map f n.(PrefixMetadata_Body);
         PrefixMetadata_HasBody := n.(PrefixMetadata_HasBody);
         PrefixMetadata_About := map f n.(PrefixMetadata_About);
         PrefixMetadata_TypedBy := n.(PrefixMetadata_TypedBy) |}
  | NPseudostateNode n => NPseudostateNode n
  | NQualifiedName n => NQualifiedName n
  | NRelationship n => NRelationship
      {| Relationship_NodeBase := n.(Relationship_NodeBase);
         Relationship_Kind := n.(Relationship_Kind);
         Relationship_Target := f n.(Relationship_Target);
         Relationship_Conjugated := n.(Relationship_Conjugated);
         Relationship_Multiplicity := f n.(Relationship_Multiplicity);
         Relationship_TypedBy := n.(Relationship_TypedBy) |}
  | NRelationshipMember n => NRelationshipMember
      {| RelationshipMember_NodeBase := n.(RelationshipMember_NodeBase);
         RelationshipMember_Ident := n.(RelationshipMember_Ident);
         RelationshipMember_Kind := n.(RelationshipMember_Kind);
         RelationshipMember_Keyword := n.(RelationshipMember_Keyword);
         RelationshipMember_PrefixKeyword := n.(RelationshipMember_PrefixKeyword);
         RelationshipMember_Source := f n.(RelationshipMember_Source);
         RelationshipMember_Target := f n.(RelationshipMember_Target);
         RelationshipMember_Conjugated := n.(RelationshipMember_Conjugated);
         RelationshipMember_Visibility := n.(RelationshipMember_Visibility);
         RelationshipMember_Members := map f n.(RelationshipMember_Members);
         RelationshipMember_HasBody := n.(RelationshipMember_HasBody) |}
  | NRequireMember n => NRequireMember
      {| RequireMember_NodeBase := n.(RequireMember_NodeBase);
         RequireMember_Prefixes := map f n.(RequireMember_Prefixes);
         RequireMember_Expression := f n.(RequireMember_Expression);
         RequireMember_Reference := f n.(RequireMember_Reference);
         RequireMember_Body := map f n.(RequireMember_Body);
         RequireMember_Ident := n.(RequireMember_Ident);
         RequireMember_DeclSpan := n.(RequireMember_DeclSpan);
         RequireMember_Relationships := map f n.(RequireMember_Relationships);
         RequireMember_Multiplicity := f n.(RequireMember_Multiplicity);
         RequireMember_Value := f n.(RequireMember_Value);
         RequireMember_ValueOperatorSpan := n.(RequireMember_ValueOperatorSpan);
         RequireMember_ValueIsDefault := n.(RequireMember_ValueIsDefault);
         RequireMember_ValueIsInitial := n.(RequireMember_ValueIsInitial);
         RequireMember_HasBody := n.(RequireMember_HasBody) |}
  | NRootNamespace n => NRootNamespace
      {| RootNamespace_NodeBase := n.(RootNamespace_NodeBase);
         RootNamespace_Members := map f n.(RootNamespace_Members);
         RootNamespace_UndefinedOperators := map f n.(RootNamespace_UndefinedOperators);
         RootNamespace_TypedBy := n.(RootNamespace_TypedBy) |}
  | NSelectExpr n => NSelectExpr
      {| SelectExpr_NodeBase := n.(SelectExpr_NodeBase);
         SelectExpr_Operand := f n.(SelectExpr_Operand);
         SelectExpr_Body := f n.(SelectExpr_Body) |}
  | NSendStatement n => NSendStatement
      {| SendStatement_NodeBase := n.(SendStatement_NodeBase);
         SendStatement_Message := f n.(SendStatement_Message);
         SendStatement_Target := f n.(SendStatement_Target);
         SendStatement_IsVia := n.(SendStatement_IsVia);
         SendStatement_Receiver := f n.(SendStatement_Receiver);
         SendStatement_Members := map f n.(SendStatement_Members);
         SendStatement_HasBody := n.(SendStatement_HasBody) |}
  | NSequenceExpr n => NSequenceExpr
      {| SequenceExpr_NodeBase := n.(SequenceExpr_NodeBase);
         SequenceExpr_Elements := map f n.(SequenceExpr_Elements) |}
  | NStateNode n => NStateNode
      {| StateNode_NodeBase := n.(StateNode_NodeBase); StateNode_Name := n.(StateNode_Name);
         StateNode_Entry := map f n.(StateNode_Entry); StateNode_Do := map f n.(StateNode_Do);
         StateNode_Exit := map f n.(StateNode_Exit);
         StateNode_Substates := map f n.(StateNode_Substates);
         StateNode_Regions := map f n.(StateNode_Regions) |}
  | NStateRegion n => NStateRegion
      {| StateRegion_NodeBase := n.(StateRegion_NodeBase);
         StateRegion_Name := n.(StateRegion_Name);
         StateRegion_States := map f n.(StateRegion_States) |}
  | NSubjectMember n => NSubjectMember
      {| SubjectMember_NodeBase := n.(SubjectMember_NodeBase);
         SubjectMember_Prefixes := map f n.(SubjectMember_Prefixes);
         SubjectMember_Ident := n.(SubjectMember_Ident);
         SubjectMember_TypeRef := f n.(SubjectMember_TypeRef);
         SubjectMember_Multiplicity := f n.(SubjectMember_Multiplicity);
         SubjectMember_Relationships := map f n.(SubjectMember_Relationships);
         SubjectMember_Body := map f n.(SubjectMember_Body);
         SubjectMember_BindingExpr := f n.(SubjectMember_BindingExpr);
         SubjectMember_ValueOperatorSpan := n.(SubjectMember_ValueOperatorSpan);
         SubjectMember_ValueIsDefault := n.(SubjectMember_ValueIsDefault);
         SubjectMember_ValueIsInitial := n.(SubjectMember_ValueIsInitial);
         SubjectMember_HasBody := n.(SubjectMember_HasBody) |}
  | NSubstateMember n => NSubstateMember n
  | NSuccessionEdge n => NSuccessionEdge
      {| SuccessionEdge_NodeBase := n.(SuccessionEdge_NodeBase);
         SuccessionEdge_Source := f n.(SuccessionEdge_Source);
         SuccessionEdge_Target := f n.(SuccessionEdge_Target);
         SuccessionEdge_SourceMultiplicity := f n.(SuccessionEdge_SourceMultiplicity);
         SuccessionEdge_TargetMultiplicity := f n.(SuccessionEdge_TargetMultiplicity);
         SuccessionEdge_SourceMember := f n.(SuccessionEdge_SourceMember);
         SuccessionEdge_TargetMember := f n.(SuccessionEdge_TargetMember);
         SuccessionEdge_SourceImplied := n.(SuccessionEdge_SourceImplied);
         SuccessionEdge_TargetImplied := n.(SuccessionEdge_TargetImplied);
         SuccessionEdge_Members := map f n.(SuccessionEdge_Members);
         SuccessionEdge_HasBody := n.(SuccessionEdge_HasBody) |}
  | NTerminateStatement n => NTerminateStatement
      {| TerminateStatement_NodeBase := n.(TerminateStatement_NodeBase);
         TerminateStatement_Target := f n.(TerminateStatement_Target) |}
  | NTextualRepresentation n => NTextualRepresentation n
  | NTimeEvent n => NTimeEvent
      {| TimeEvent_NodeBase := n.(TimeEvent_NodeBase);
         TimeEvent_Duration := f n.(TimeEvent_Duration);
         TimeEvent_Absolute := n.(TimeEvent_Absolute) |}
  | NTransitionEdge n => NTransitionEdge
      {| TransitionEdge_NodeBase := n.(TransitionEdge_NodeBase);
         TransitionEdge_Source := f n.(TransitionEdge_Source);
         TransitionEdge_Target := f n.(TransitionEdge_Target);
         TransitionEdge_Trigger := f n.(TransitionEdge_Trigger);
         TransitionEdge_Guard := f n.(TransitionEdge_Guard);
         TransitionEdge_Effect := map f n.(TransitionEdge_Effect) |}
  | NTransitionMember n => NTransitionMember
      {| TransitionMember_NodeBase := n.(TransitionMember_NodeBase);
         TransitionMember_Name := n.(TransitionMember_Name);
         TransitionMember_NameSpan := n.(TransitionMember_NameSpan);
         TransitionMember_Source := f n.(TransitionMember_Source);
         TransitionMember_Target := f n.(TransitionMember_Target);
         TransitionMember_Trigger := f n.(TransitionMember_Trigger);
         TransitionMember_TriggerSpan := n.(TransitionMember_TriggerSpan);
         TransitionMember_Guard := f n.(TransitionMember_Guard);
         TransitionMember_Effect := map f n.(TransitionMember_Effect);
         TransitionMember_HasEffect := n.(TransitionMember_HasEffect);
         TransitionMember_Via := f n.(TransitionMember_Via);
         TransitionMember_TargetMultiplicity := f n.(TransitionMember_TargetMultiplicity);
         TransitionMember_Members := map f n.(TransitionMember_Members);
         TransitionMember_HasBody := n.(TransitionMember_HasBody);
         TransitionMember_IsSuccession := n.(TransitionMember_IsSuccession) |}
  | NUsage n => NUsage
      {| Usage_NodeBase := n.(Usage_NodeBase); Usage_Prefixes := map f n.(Usage_Prefixes);
         Usage_Kind := n.(Usage_Kind); Usage_Keyword := n.(Usage_Keyword);
         Usage_PrefixKeyword := n.(Usage_PrefixKeyword);
         Usage_IsAbstract := n.(Usage_IsAbstract); Usage_IsVariation := n.(Usage_IsVariation);
         Usage_IsVariant := n.(Usage_IsVariant); Usage_IsReference := n.(Usage_IsReference);
         Usage_IsVariable := n.(Usage_IsVariable); Usage_IsAll := n.(Usage_IsAll);
         Usage_IsEnd := n.(Usage_IsEnd); Usage_IsChain := n.(Usage_IsChain);
         Usage_IsConstant := n.(Usage_IsConstant); Usage_IsEvent := n.(Usage_IsEvent);
         Usage_IsIndividual := n.(Usage_IsIndividual);
         Usage_IndividualKeyword := n.(Usage_IndividualKeyword);
         Usage_Portion := n.(Usage_Portion); Usage_IsAccept := n.(Usage_IsAccept);
         Usage_IsBodyParameter := n.(Usage_IsBodyParameter);
         Usage_IsActionNode := n.(Usage_IsActionNode);
         Usage_IsTerminate := n.(Usage_IsTerminate);
         Usage_Terminates := f n.(Usage_Terminates); Usage_IsResult := n.(Usage_IsResult);
         Usage_IsNegated := n.(Usage_IsNegated);
         Usage_DeclaresRequirement := n.(Usage_DeclaresRequirement);
         Usage_Visibility := n.(Usage_Visibility); Usage_Direction := n.(Usage_Direction);
         Usage_IsComposite := n.(Usage_IsComposite); Usage_IsPortion := n.(Usage_IsPortion);
         Usage_IsParallel := n.(Usage_IsParallel); Usage_IsDerived := n.(Usage_IsDerived);
         Usage_IsOrdered := n.(Usage_IsOrdered); Usage_IsNonunique := n.(Usage_IsNonunique);
         Usage_Ident := n.(Usage_Ident); Usage_Relationships := map f n.(Usage_Relationships);
         Usage_Multiplicity := f n.(Usage_Multiplicity);
         Usage_CrossFeature := f n.(Usage_CrossFeature); Usage_Value := f n.(Usage_Value);
         Usage_ValueOperatorSpan := n.(Usage_ValueOperatorSpan);
         Usage_ValueIsDefault := n.(Usage_ValueIsDefault);
         Usage_ValueIsInitial := n.(Usage_ValueIsInitial);
         Usage_Members := map f n.(Usage_Members); Usage_HasBody := n.(Usage_HasBody);
         Usage_ConnectorEnds := map f n.(Usage_ConnectorEnds);
         Usage_FlowEnds := f n.(Usage_FlowEnds) |}
  | NWhileLoopActionNode n => NWhileLoopActionNode
      {| WhileLoopActionNode_NodeBase := n.(WhileLoopActionNode_NodeBase);
         WhileLoopActionNode_Kind := n.(WhileLoopActionNode_Kind);
         WhileLoopActionNode_Condition := f n.(WhileLoopActionNode_Condition);
         WhileLoopActionNode_Body := map f n.(WhileLoopActionNode_Body);
         WhileLoopActionNode_Until := f n.(WhileLoopActionNode_Until);
         WhileLoopActionNode_Variable := n.(WhileLoopActionNode_Variable);
         WhileLoopActionNode_VariableRelationships := map f n.(WhileLoopActionNode_VariableRelationships);
         WhileLoopActionNode_Collection := f n.(WhileLoopActionNode_Collection) |}
  | Foreign _ => node
  end.

(** The references of the typed fields lead where [has] says they do. *)
Definition arg_typed (has : (kind -> bool) -> ref -> bool) (a : NamedArg) : bool :=
  has (pointer kindQualifiedName) a.(NamedArg_Name).
Definition param_typed (has : (kind -> bool) -> ref -> bool) (p : BodyParam) : bool :=
  has (pointer kindQualifiedName) p.(BodyParam_Type) &&
  has (pointer kindMultiplicity) p.(BodyParam_Multiplicity) &&
  forallb (has (pointer kindRelationship)) p.(BodyParam_Relationships).

Definition well_typed (has : (kind -> bool) -> ref -> bool) (node : Node) : bool :=
  match node with
  | NAcceptActionUsage n => has (pointer kindQualifiedName) n.(AcceptActionUsage_ParamType)
  | NAcceptEvent n => has (pointer kindQualifiedName) n.(AcceptEvent_SignalType) &&
      has (pointer kindUsage) n.(AcceptEvent_Payload)
  | NActionExecutionNode n => has (pointer kindQualifiedName) n.(ActionExecutionNode_ActionRef)
  | NAlias n => has (pointer kindQualifiedName) n.(Alias_For)
  | NAssignmentActionNode _ => true
  | NAssumeMember n => forallb (has (pointer kindPrefixMetadata)) n.(AssumeMember_Prefixes) &&
      has (pointer kindQualifiedName) n.(AssumeMember_Reference) &&
      forallb (has (pointer kindRelationship)) n.(AssumeMember_Relationships) &&
      has (pointer kindMultiplicity) n.(AssumeMember_Multiplicity)
  | NBodyExpr n => forallb (param_typed has) n.(BodyExpr_Params)
  | NCallEvent n => has (pointer kindQualifiedName) n.(CallEvent_Operation)
  | NCastExpr n => has (pointer kindQualifiedName) n.(CastExpr_TargetType) &&
      has (pointer kindMultiplicity) n.(CastExpr_Multiplicity)
  | NChangeEvent _ => true
  | NCollectExpr _ => true
  | NComment n => forallb (has (pointer kindQualifiedName)) n.(Comment_About)
  | NConnectorEnd n => has (pointer kindMultiplicity) n.(ConnectorEnd_Multiplicity) &&
      forallb (has (pointer kindRelationship)) n.(ConnectorEnd_Relationships)
  | NConstraintMember _ => true
  | NConstructorExpr n => has (pointer kindQualifiedName) n.(ConstructorExpr_Type) &&
      forallb (arg_typed has) n.(ConstructorExpr_NamedArgs)
  | NControlFlowEdge n => has (pointer kindQualifiedName) n.(ControlFlowEdge_Source) &&
      has (pointer kindQualifiedName) n.(ControlFlowEdge_Target)
  | NCrossFeatureMember n =>
      has (pointer kindMultiplicity) n.(CrossFeatureMember_Multiplicity) &&
      forallb (has (pointer kindRelationship)) n.(CrossFeatureMember_Relationships)
  | NDecisionNode n => forallb (has (pointer kindPrefixMetadata)) n.(DecisionNode_Prefixes)
  | NDefinition n => forallb (has (pointer kindPrefixMetadata)) n.(Definition_Prefixes) &&
      has (pointer kindMultiplicity) n.(Definition_Multiplicity) &&
      forallb (has (pointer kindRelationship)) n.(Definition_Relationships)
  | NDependency n => forallb (has (pointer kindPrefixMetadata)) n.(Dependency_Prefixes) &&
      forallb (has (pointer kindQualifiedName)) n.(Dependency_Clients) &&
      forallb (has (pointer kindQualifiedName)) n.(Dependency_Suppliers)
  | NDoMember _ => true
  | NDocumentation _ => true
  | NEntryMember _ => true
  | NErrorNode _ => true
  | NExitMember _ => true
  | NFeatureChainExpr n => has (pointer kindQualifiedName) n.(FeatureChainExpr_Member)
  | NFeatureReference n => has (pointer kindQualifiedName) n.(FeatureReference_Name)
  | NFilterMember _ => true
  | NFinalNode _ => true
  | NFlowEnds n => has (pointer kindUsage) n.(FlowEnds_PayloadDecl) &&
      has (pointer kindMultiplicity) n.(FlowEnds_PayloadMultiplicity)
  | NForkNode n => forallb (has (pointer kindPrefixMetadata)) n.(ForkNode_Prefixes)
  | NIfActionNode n => has (pointer kindIfBranchNode) n.(IfActionNode_Then) &&
      has (pointer kindIfBranchNode) n.(IfActionNode_Else)
  | NIfBranchNode _ => true
  | NImport n => has (pointer kindQualifiedName) n.(Import_Imported)
  | NIndexExpr _ => true
  | NInitialNode n => has (pointer kindQualifiedName) n.(InitialNode_First) &&
      has (pointer kindQualifiedName) n.(InitialNode_Successor) &&
      has (pointer kindMultiplicity) n.(InitialNode_TargetMultiplicity)
  | NInvocationExpr n => has (pointer kindQualifiedName) n.(InvocationExpr_Type) &&
      forallb (arg_typed has) n.(InvocationExpr_NamedArgs)
  | NJoinNode n => forallb (has (pointer kindPrefixMetadata)) n.(JoinNode_Prefixes)
  | NLiteralBool _ => true
  | NLiteralInfinity _ => true
  | NLiteralInteger _ => true
  | NLiteralReal _ => true
  | NLiteralString _ => true
  | NMembership _ => true
  | NMergeNode n => forallb (has (pointer kindPrefixMetadata)) n.(MergeNode_Prefixes)
  | NMetadataAccessExpr n => has (pointer kindQualifiedName) n.(MetadataAccessExpr_Ref)
  | NMultiplicity _ => true
  | NMultiplicityDecl n => has (pointer kindMultiplicity) n.(MultiplicityDecl_Range) &&
      has (pointer kindQualifiedName) n.(MultiplicityDecl_Subsets)
  | NNamespace n => forallb (has (pointer kindPrefixMetadata)) n.(Namespace_Prefixes)
  | NNullExpr _ => true
  | NObjectFlowEdge n => has (pointer kindQualifiedName) n.(ObjectFlowEdge_Source) &&
      has (pointer kindQualifiedName) n.(ObjectFlowEdge_Target)
  | NOperatorExpr n => has (pointer kindQualifiedName) n.(OperatorExpr_TypeRef)
  | NPackage n => forallb (has (pointer kindPrefixMetadata)) n.(Package_Prefixes)
  | NPerformActionNode _ => true
  | NPrefixMetadata n => has (pointer kindQualifiedName) n.(PrefixMetadata_Type) &&
      forallb (has (pointer kindQualifiedName)) n.(PrefixMetadata_About)
  | NPseudostateNode _ => true
  | NQualifiedName _ => true
  | NRelationship n => has (pointer kindMultiplicity) n.(Relationship_Multiplicity)
  | NRelationshipMember _ => true
  | NRequireMember n =>
      forallb (has (pointer kindPrefixMetadata)) n.(RequireMember_Prefixes) &&
      has (pointer kindQualifiedName) n.(RequireMember_Reference) &&
      forallb (has (pointer kindRelationship)) n.(RequireMember_Relationships) &&
      has (pointer kindMultiplicity) n.(RequireMember_Multiplicity)
  | NRootNamespace n =>
      forallb (has (pointer kindOperatorExpr)) n.(RootNamespace_UndefinedOperators)
  | NSelectExpr _ => true
  | NSendStatement _ => true
  | NSequenceExpr _ => true
  | NStateNode n => forallb (has (pointer kindStateRegion)) n.(StateNode_Regions)
  | NStateRegion _ => true
  | NSubjectMember n =>
      forallb (has (pointer kindPrefixMetadata)) n.(SubjectMember_Prefixes) &&
      has (pointer kindQualifiedName) n.(SubjectMember_TypeRef) &&
      has (pointer kindMultiplicity) n.(SubjectMember_Multiplicity) &&
      forallb (has (pointer kindRelationship)) n.(SubjectMember_Relationships)
  | NSubstateMember _ => true
  | NSuccessionEdge n => has (pointer kindQualifiedName) n.(SuccessionEdge_Source) &&
      has (pointer kindQualifiedName) n.(SuccessionEdge_Target) &&
      has (pointer kindMultiplicity) n.(SuccessionEdge_SourceMultiplicity) &&
      has (pointer kindMultiplicity) n.(SuccessionEdge_TargetMultiplicity)
  | NTerminateStatement _ => true
  | NTextualRepresentation _ => true
  | NTimeEvent _ => true
  | NTransitionEdge n => has (pointer kindQualifiedName) n.(TransitionEdge_Source) &&
      has (pointer kindQualifiedName) n.(TransitionEdge_Target) &&
      has TriggerEvent n.(TransitionEdge_Trigger)
  | NTransitionMember n => has (pointer kindQualifiedName) n.(TransitionMember_Source) &&
      has (pointer kindQualifiedName) n.(TransitionMember_Target) &&
      has (pointer kindQualifiedName) n.(TransitionMember_Via) &&
      has (pointer kindMultiplicity) n.(TransitionMember_TargetMultiplicity)
  | NUsage n => forallb (has (pointer kindPrefixMetadata)) n.(Usage_Prefixes) &&
      forallb (has (pointer kindRelationship)) n.(Usage_Relationships) &&
      has (pointer kindMultiplicity) n.(Usage_Multiplicity) &&
      has (pointer kindCrossFeatureMember) n.(Usage_CrossFeature) &&
      has (pointer kindTerminateStatement) n.(Usage_Terminates) &&
      forallb (has (pointer kindConnectorEnd)) n.(Usage_ConnectorEnds) &&
      has (pointer kindFlowEnds) n.(Usage_FlowEnds)
  | NWhileLoopActionNode n =>
      forallb (has (pointer kindRelationship)) n.(WhileLoopActionNode_VariableRelationships)
  | Foreign _ => true
  end.

(** The [int]s of a node are 64 bits wide. *)
Definition int_in_range (z : Z) : bool := (- 2 ^ 63 <=? z) && (z <? 2 ^ 63).
Definition span_in_range (s : Span) : bool := int_in_range s.(Offset) && int_in_range s.(Len).
Definition trivia_in_range (t : Trivia) : bool :=
  int_in_range t.(Trivia_Kind) && span_in_range t.(Trivia_Span).
Definition base_in_range (b : NodeBase) : bool :=
  span_in_range b.(NodeSpan) && forallb trivia_in_range b.(leading) && forallb trivia_in_range b.(trailing).
Definition ident_in_range (i : Identification) : bool :=
  span_in_range i.(Identification_ShortNameSpan) && span_in_range i.(Identification_NameSpan).
Definition segment_in_range (s : NameSegment) : bool := span_in_range s.(NameSegment_Span).
Definition param_in_range (p : BodyParam) : bool := span_in_range p.(BodyParam_Span).

Definition in_range (node : Node) : bool :=
  match node with
  | NAcceptActionUsage n => base_in_range n.(AcceptActionUsage_NodeBase)
  | NAcceptEvent n => base_in_range n.(AcceptEvent_NodeBase)
  | NActionExecutionNode n => base_in_range n.(ActionExecutionNode_NodeBase)
  | NAlias n => base_in_range n.(Alias_NodeBase) && int_in_range n.(Alias_Visibility) &&
      ident_in_range n.(Alias_Ident)
  | NAssignmentActionNode n => base_in_range n.(AssignmentActionNode_NodeBase)
  | NAssumeMember n => base_in_range n.(AssumeMember_NodeBase) &&
      ident_in_range n.(AssumeMember_Ident) && span_in_range n.(AssumeMember_DeclSpan) &&
      span_in_range n.(AssumeMember_ValueOperatorSpan)
  | NBodyExpr n => base_in_range n.(BodyExpr_NodeBase) &&
      forallb param_in_range n.(BodyExpr_Params)
  | NCallEvent n => base_in_range n.(CallEvent_NodeBase) &&
      forallb segment_in_range n.(CallEvent_Parameters)
  | NCastExpr n => base_in_range n.(CastExpr_NodeBase)
  | NChangeEvent n => base_in_range n.(ChangeEvent_NodeBase)
  | NCollectExpr n => base_in_range n.(CollectExpr_NodeBase)
  | NComment n => base_in_range n.(Comment_NodeBase) && ident_in_range n.(Comment_Ident) &&
      span_in_range n.(Comment_BodySpan)
  | NConnectorEnd n => base_in_range n.(ConnectorEnd_NodeBase)
  | NConstraintMember n => base_in_range n.(ConstraintMember_NodeBase) &&
      span_in_range n.(ConstraintMember_Terminator)
  | NConstructorExpr n => base_in_range n.(ConstructorExpr_NodeBase)
  | NControlFlowEdge n => base_in_range n.(ControlFlowEdge_NodeBase)
  | NCrossFeatureMember n => base_in_range n.(CrossFeatureMember_NodeBase) &&
      int_in_range n.(CrossFeatureMember_Direction) &&
      ident_in_range n.(CrossFeatureMember_Ident)
  | NDecisionNode n => base_in_range n.(DecisionNode_NodeBase) &&
      span_in_range n.(DecisionNode_NameSpan)
  | NDefinition n => base_in_range n.(Definition_NodeBase) &&
      int_in_range n.(Definition_Kind) && span_in_range n.(Definition_IndividualKeyword) &&
      int_in_range n.(Definition_Visibility) && ident_in_range n.(Definition_Ident)
  | NDependency n => base_in_range n.(Dependency_NodeBase) &&
      ident_in_range n.(Dependency_Ident)
  | NDoMember n => base_in_range n.(DoMember_NodeBase)
  | NDocumentation n => base_in_range n.(Documentation_NodeBase) &&
      ident_in_range n.(Documentation_Ident) && span_in_range n.(Documentation_BodySpan)
  | NEntryMember n => base_in_range n.(EntryMember_NodeBase)
  | NErrorNode n => base_in_range n.(ErrorNode_NodeBase)
  | NExitMember n => base_in_range n.(ExitMember_NodeBase)
  | NFeatureChainExpr n => base_in_range n.(FeatureChainExpr_NodeBase)
  | NFeatureReference n => base_in_range n.(FeatureReference_NodeBase)
  | NFilterMember n => base_in_range n.(FilterMember_NodeBase)
  | NFinalNode n => base_in_range n.(FinalNode_NodeBase)
  | NFlowEnds n => base_in_range n.(FlowEnds_NodeBase)
  | NForkNode n => base_in_range n.(ForkNode_NodeBase) && span_in_range n.(ForkNode_NameSpan)
  | NIfActionNode n => base_in_range n.(IfActionNode_NodeBase)
  | NIfBranchNode n => base_in_range n.(IfBranchNode_NodeBase) &&
      int_in_range n.(IfBranchNode_Kind)
  | NImport n => base_in_range n.(Import_NodeBase) && int_in_range n.(Import_Visibility) &&
      int_in_range n.(Import_Kind)
  | NIndexExpr n => base_in_range n.(IndexExpr_NodeBase)
  | NInitialNode n => base_in_range n.(InitialNode_NodeBase)
  | NInvocationExpr n => base_in_range n.(InvocationExpr_NodeBase)
  | NJoinNode n => base_in_range n.(JoinNode_NodeBase) && span_in_range n.(JoinNode_NameSpan)
  | NLiteralBool n => base_in_range n.(LiteralBool_NodeBase)
  | NLiteralInfinity n => base_in_range n.(LiteralInfinity_NodeBase)
  | NLiteralInteger n => base_in_range n.(LiteralInteger_NodeBase)
  | NLiteralReal n => base_in_range n.(LiteralReal_NodeBase)
  | NLiteralString n => base_in_range n.(LiteralString_NodeBase)
  | NMembership n => base_in_range n.(Membership_NodeBase) &&
      int_in_range n.(Membership_Visibility)
  | NMergeNode n => base_in_range n.(MergeNode_NodeBase) &&
      span_in_range n.(MergeNode_NameSpan)
  | NMetadataAccessExpr n => base_in_range n.(MetadataAccessExpr_NodeBase)
  | NMultiplicity n => base_in_range n.(Multiplicity_NodeBase)
  | NMultiplicityDecl n => base_in_range n.(MultiplicityDecl_NodeBase) &&
      ident_in_range n.(MultiplicityDecl_Ident)
  | NNamespace n => base_in_range n.(Namespace_NodeBase) && ident_in_range n.(Namespace_Ident)
  | NNullExpr n => base_in_range n.(NullExpr_NodeBase)
  | NObjectFlowEdge n => base_in_range n.(ObjectFlowEdge_NodeBase)
  | NOperatorExpr n => base_in_range n.(OperatorExpr_NodeBase) &&
      int_in_range n.(OperatorExpr_Operator)
  | NPackage n => base_in_range n.(Package_NodeBase) && ident_in_range n.(Package_Ident)
  | NPerformActionNode n => base_in_range n.(PerformActionNode_NodeBase)
  | NPrefixMetadata n => base_in_range n.(PrefixMetadata_NodeBase) &&
      ident_in_range n.(PrefixMetadata_Ident) && span_in_range n.(PrefixMetadata_TypedBy)
  | NPseudostateNode n => base_in_range n.(PseudostateNode_NodeBase) &&
      int_in_range n.(PseudostateNode_Kind)
  | NQualifiedName n => base_in_range n.(QualifiedName_NodeBase) &&
      forallb segment_in_range n.(QualifiedName_Parts)
  | NRelationship n => base_in_range n.(Relationship_NodeBase) &&
      int_in_range n.(Relationship_Kind) && span_in_range n.(Relationship_TypedBy)
  | NRelationshipMember n => base_in_range n.(RelationshipMember_NodeBase) &&
      ident_in_range n.(RelationshipMember_Ident) &&
      int_in_range n.(RelationshipMember_Kind) &&
      int_in_range n.(RelationshipMember_Visibility)
  | NRequireMember n => base_in_range n.(RequireMember_NodeBase) &&
      ident_in_range n.(RequireMember_Ident) && span_in_range n.(RequireMember_DeclSpan) &&
      span_in_range n.(RequireMember_ValueOperatorSpan)
  | NRootNamespace n => base_in_range n.(RootNamespace_NodeBase) &&
      int_in_range n.(RootNamespace_TypedBy)
  | NSelectExpr n => base_in_range n.(SelectExpr_NodeBase)
  | NSendStatement n => base_in_range n.(SendStatement_NodeBase)
  | NSequenceExpr n => base_in_range n.(SequenceExpr_NodeBase)
  | NStateNode n => base_in_range n.(StateNode_NodeBase)
  | NStateRegion n => base_in_range n.(StateRegion_NodeBase)
  | NSubjectMember n => base_in_range n.(SubjectMember_NodeBase) &&
      ident_in_range n.(SubjectMember_Ident) &&
      span_in_range n.(SubjectMember_ValueOperatorSpan)
  | NSubstateMember n => base_in_range n.(SubstateMember_NodeBase) &&
      span_in_range n.(SubstateMember_NameSpan)
  | NSuccessionEdge n => base_in_range n.(SuccessionEdge_NodeBase)
  | NTerminateStatement n => base_in_range n.(TerminateStatement_NodeBase)
  | NTextualRepresentation n => base_in_range n.(TextualRepresentation_NodeBase) &&
      ident_in_range n.(TextualRepresentation_Ident) &&
      span_in_range n.(TextualRepresentation_BodySpan)
  | NTimeEvent n => base_in_range n.(TimeEvent_NodeBase)
  | NTransitionEdge n => base_in_range n.(TransitionEdge_NodeBase)
  | NTransitionMember n => base_in_range n.(TransitionMember_NodeBase) &&
      span_in_range n.(TransitionMember_NameSpan) &&
      span_in_range n.(TransitionMember_TriggerSpan)
  | NUsage n => base_in_range n.(Usage_NodeBase) && int_in_range n.(Usage_Kind) &&
      span_in_range n.(Usage_IndividualKeyword) && int_in_range n.(Usage_Portion) &&
      int_in_range n.(Usage_Visibility) && int_in_range n.(Usage_Direction) &&
      ident_in_range n.(Usage_Ident) && span_in_range n.(Usage_ValueOperatorSpan)
  | NWhileLoopActionNode n => base_in_range n.(WhileLoopActionNode_NodeBase) &&
      int_in_range n.(WhileLoopActionNode_Kind) &&
      ident_in_range n.(WhileLoopActionNode_Variable)
  | Foreign _ => true
  end.

(** ** Heaps *)

(** Whether a reference is nil or leads to a node of a kind [T] accepts. *)
Definition points (h : list Node) (T : kind -> bool) (r : ref) : bool :=
  match r with
  | None => true
  | Some p => match h !! p with Some n => T (kindOf n) | None => false end
  end.

(** A heap Go's type system allows: no reference dangles, and those of typed
    fields lead to their types. *)
Definition typed_heap (h : list Node) : bool :=
  forallb (fun n => forallb (points h (fun _ => true)) (refs n) && well_typed (points h) n) h.
