(* ===== verification/AstCodec.v ===== *)
(** * The binary form of syntax trees

    Models [internal/syntax/ast/astcodec]: [codec.go]'s [Encoder] and [Decoder] and
    the switches of [nodes.go]. An encoder step is a state transformer over the
    encoder, a decoder step one over a reader and the offset of the last span.
    [None] is a Go panic; in [node] also fuel that ran out, which its callers choose
    above the size of the heap.

    The arenas slices are taken from ([Pack.Take]) only choose addresses, which lists
    do not have. *)
From stdpp Require Import gmap.
From S2P Require Import Prelude Machine Pack Ast.
Local Open Scope Z_scope.

Declare Scope codec_scope.
Delimit Scope codec_scope with codec.
Local Open Scope codec_scope.

(** ** Encoder *)

(** [ErrUnknownNode], wrapped with the node's type. *)
Inductive codec_error := ErrUnknownNode (T : bytes).

Record Encoder := {
  ew : Writer;
  e_ids : gmap nat Z;        (* by the node's address *)
  byKind : list (list nat);  (* the addresses of each kind *)
  collecting : bool;
  e_last : Z;
  e_err : option codec_error;
}.

Definition NewEncoder (w : Writer) : Encoder :=
  {| ew := w; e_ids := ∅; byKind := map (fun _ => []) kinds; collecting := false;
     e_last := 0; e_err := None |}.

Abbreviation step := (Encoder -> option Encoder).
Definition skip : step := Some.
Definition seq (s1 s2 : step) : step := fun e => e ← s1 e; s2 e.
Notation "s1 ;; s2" := (seq s1 s2) (at level 100, s2 at level 200, right associativity) : codec_scope.

Definition with_writer (e : Encoder) (w : Writer) : Encoder :=
  {| ew := w; e_ids := e.(e_ids); byKind := e.(byKind); collecting := e.(collecting);
     e_last := e.(e_last); e_err := e.(e_err) |}.
Definition with_last (e : Encoder) (last : Z) : Encoder :=
  {| ew := e.(ew); e_ids := e.(e_ids); byKind := e.(byKind); collecting := e.(collecting);
     e_last := last; e_err := e.(e_err) |}.
Definition with_err (e : Encoder) (x : codec_error) : Encoder :=
  {| ew := e.(ew); e_ids := e.(e_ids); byKind := e.(byKind); collecting := e.(collecting);
     e_last := e.(e_last); e_err := Some x |}.

(** The writes of [e.w]. *)
Definition writing (f : Writer -> Writer) : step := fun e => Some (with_writer e (f e.(ew))).
Definition Uint (v : Z) : step := writing (fun w => Writer_Uint w v).
Definition Int (v : Z) : step := writing (fun w => Writer_Int w v).
Definition Len (n : nat) : step := writing (fun w => Writer_Len w n).
Definition Bool (b : bool) : step := writing (fun w => Writer_Bool w b).
Definition String (s : bytes) : step := writing (fun w => Writer_String w s).

(** [for _, x := range l { f(x) }]. *)
Fixpoint each {A} (f : A -> step) (l : list A) : step :=
  match l with
  | [] => skip
  | x :: l' => f x;; each f l'
  end.

Definition span (s : Span) : step := fun e =>
  (Int (int64 (s.(Offset) - e.(e_last)));; Int s.(Ast.Len);;
   fun e => Some (with_last e s.(Offset))) e.

Definition trivia (ts : list Trivia) : step :=
  Len (length ts);; each (fun t => Int t.(Trivia_Kind);; span t.(Trivia_Span)) ts.

Definition base (b : NodeBase) : step :=
  span b.(NodeSpan);; trivia b.(leading);; trivia b.(trailing).

Definition ident (id : Identification) : step :=
  String id.(Identification_ShortName);; span id.(Identification_ShortNameSpan);;
  String id.(Identification_Name);; span id.(Identification_NameSpan).

Definition segments (segs : list NameSegment) : step :=
  Len (length segs);;
  each (fun s => String s.(NameSegment_Text);; span s.(NameSegment_Span);; Bool s.(NameSegment_Chained)) segs.

(** *** The fields of a node

    [node] writes a reference; the slices of typed pointers are written as those of
    the interface are. *)
Section field_writers.
Variable node : ref -> step.

Definition nodes (ns : list ref) : step := Len (length ns);; each node ns.
Definition rels (ns : list ref) : step := Len (length ns);; each node ns.
Definition prefixes (ns : list ref) : step := Len (length ns);; each node ns.
Definition qnames (ns : list ref) : step := Len (length ns);; each node ns.
Definition regions (ns : list ref) : step := Len (length ns);; each node ns.
Definition ends (ns : list ref) : step := Len (length ns);; each node ns.
Definition operatorExprs (ns : list ref) : step := Len (length ns);; each node ns.

Definition namedArgs (args : list NamedArg) : step :=
  Len (length args);;
  each (fun a => node a.(NamedArg_Name);; node a.(NamedArg_Value)) args.

Definition params (ps : list BodyParam) : step :=
  Len (length ps);;
  each (fun p =>
    String p.(BodyParam_Name);; node p.(BodyParam_Type);; node p.(BodyParam_Multiplicity);;
    node p.(BodyParam_Value);; Bool p.(BodyParam_IsReference);; nodes p.(BodyParam_Members);;
    rels p.(BodyParam_Relationships);; span p.(BodyParam_Span)) ps.

Definition encodeFields (n : Node) : step :=
  match n with
  | NAcceptActionUsage n =>
      base n.(AcceptActionUsage_NodeBase);; String n.(AcceptActionUsage_Name);;
      String n.(AcceptActionUsage_ParamName);; node n.(AcceptActionUsage_ParamType)
  | NAcceptEvent n =>
      base n.(AcceptEvent_NodeBase);; node n.(AcceptEvent_SignalType);;
      node n.(AcceptEvent_Subsets);; node n.(AcceptEvent_Payload)
  | NActionExecutionNode n =>
      base n.(ActionExecutionNode_NodeBase);; String n.(ActionExecutionNode_Name);;
      node n.(ActionExecutionNode_ActionRef);; node n.(ActionExecutionNode_Expression)
  | NAlias n =>
      base n.(Alias_NodeBase);; Int n.(Alias_Visibility);; ident n.(Alias_Ident);;
      node n.(Alias_For);; nodes n.(Alias_Body);; Bool n.(Alias_HasBody)
  | NAssignmentActionNode n =>
      base n.(AssignmentActionNode_NodeBase);; node n.(AssignmentActionNode_Target);;
      node n.(AssignmentActionNode_Value)
  | NAssumeMember n =>
      base n.(AssumeMember_NodeBase);; prefixes n.(AssumeMember_Prefixes);;
      node n.(AssumeMember_Expression);; node n.(AssumeMember_Reference);;
      nodes n.(AssumeMember_Body);; ident n.(AssumeMember_Ident);;
      span n.(AssumeMember_DeclSpan);; rels n.(AssumeMember_Relationships);;
      node n.(AssumeMember_Multiplicity);; node n.(AssumeMember_Value);;
      span n.(AssumeMember_ValueOperatorSpan);; Bool n.(AssumeMember_ValueIsDefault);;
      Bool n.(AssumeMember_ValueIsInitial);; Bool n.(AssumeMember_HasBody)
  | NBodyExpr n =>
      base n.(BodyExpr_NodeBase);; params n.(BodyExpr_Params);; nodes n.(BodyExpr_Members);;
      node n.(BodyExpr_Result)
  | NCallEvent n =>
      base n.(CallEvent_NodeBase);; node n.(CallEvent_Operation);;
      segments n.(CallEvent_Parameters)
  | NCastExpr n =>
      base n.(CastExpr_NodeBase);; node n.(CastExpr_TargetType);;
      node n.(CastExpr_Multiplicity)
  | NChangeEvent n =>
      base n.(ChangeEvent_NodeBase);; node n.(ChangeEvent_Condition)
  | NCollectExpr n =>
      base n.(CollectExpr_NodeBase);; node n.(CollectExpr_Operand);; node n.(CollectExpr_Body)
  | NComment n =>
      base n.(Comment_NodeBase);; ident n.(Comment_Ident);; qnames n.(Comment_About);;
      String n.(Comment_Locale);; span n.(Comment_BodySpan)
  | NConnectorEnd n =>
      base n.(ConnectorEnd_NodeBase);; node n.(ConnectorEnd_Target);;
      node n.(ConnectorEnd_Multiplicity);; node n.(ConnectorEnd_Reference);;
      rels n.(ConnectorEnd_Relationships)
  | NConstraintMember n =>
      base n.(ConstraintMember_NodeBase);; Bool n.(ConstraintMember_IsAssert);;
      String n.(ConstraintMember_Keyword);; Bool n.(ConstraintMember_IsNegated);;
      node n.(ConstraintMember_Expression);; String n.(ConstraintMember_Name);;
      nodes n.(ConstraintMember_Body);; span n.(ConstraintMember_Terminator)
  | NConstructorExpr n =>
      base n.(ConstructorExpr_NodeBase);; node n.(ConstructorExpr_Type);;
      nodes n.(ConstructorExpr_Args);; namedArgs n.(ConstructorExpr_NamedArgs)
  | NControlFlowEdge n =>
      base n.(ControlFlowEdge_NodeBase);; node n.(ControlFlowEdge_Source);;
      node n.(ControlFlowEdge_Target);; node n.(ControlFlowEdge_Guard);;
      Bool n.(ControlFlowEdge_IsElse);; node n.(ControlFlowEdge_SourceMember);;
      node n.(ControlFlowEdge_TargetMember);; Bool n.(ControlFlowEdge_SourceImplied);;
      Bool n.(ControlFlowEdge_TargetImplied)
  | NCrossFeatureMember n =>
      base n.(CrossFeatureMember_NodeBase);; Int n.(CrossFeatureMember_Direction);;
      Bool n.(CrossFeatureMember_IsDerived);; Bool n.(CrossFeatureMember_IsAbstract);;
      Bool n.(CrossFeatureMember_IsVariation);; Bool n.(CrossFeatureMember_IsComposite);;
      Bool n.(CrossFeatureMember_IsPortion);; Bool n.(CrossFeatureMember_IsVariable);;
      Bool n.(CrossFeatureMember_IsConstant);; Bool n.(CrossFeatureMember_IsReference);;
      ident n.(CrossFeatureMember_Ident);; node n.(CrossFeatureMember_Multiplicity);;
      Bool n.(CrossFeatureMember_IsOrdered);; Bool n.(CrossFeatureMember_IsNonunique);;
      rels n.(CrossFeatureMember_Relationships)
  | NDecisionNode n =>
      base n.(DecisionNode_NodeBase);; String n.(DecisionNode_Name);;
      span n.(DecisionNode_NameSpan);; nodes n.(DecisionNode_Members);;
      Bool n.(DecisionNode_HasBody);; prefixes n.(DecisionNode_Prefixes)
  | NDefinition n =>
      base n.(Definition_NodeBase);; prefixes n.(Definition_Prefixes);;
      Int n.(Definition_Kind);; String n.(Definition_Keyword);;
      Bool n.(Definition_HasDefKeyword);; Bool n.(Definition_IsAbstract);;
      Bool n.(Definition_IsVariation);; Bool n.(Definition_IsAll);;
      Bool n.(Definition_IsConstant);; Bool n.(Definition_IsEvent);;
      Bool n.(Definition_IsIndividual);; span n.(Definition_IndividualKeyword);;
      Bool n.(Definition_IsParallel);; Int n.(Definition_Visibility);;
      ident n.(Definition_Ident);; node n.(Definition_Multiplicity);;
      rels n.(Definition_Relationships);; nodes n.(Definition_Members);;
      Bool n.(Definition_HasBody)
  | NDependency n =>
      base n.(Dependency_NodeBase);; prefixes n.(Dependency_Prefixes);;
      ident n.(Dependency_Ident);; qnames n.(Dependency_Clients);;
      qnames n.(Dependency_Suppliers);; nodes n.(Dependency_Body);; Bool n.(Dependency_HasBody)
  | NDoMember n =>
      base n.(DoMember_NodeBase);; nodes n.(DoMember_Actions)
  | NDocumentation n =>
      base n.(Documentation_NodeBase);; ident n.(Documentation_Ident);;
      String n.(Documentation_Locale);; span n.(Documentation_BodySpan)
  | NEntryMember n =>
      base n.(EntryMember_NodeBase);; nodes n.(EntryMember_Actions)
  | NErrorNode n =>
      base n.(ErrorNode_NodeBase);; String n.(ErrorNode_Message)
  | NExitMember n =>
      base n.(ExitMember_NodeBase);; nodes n.(ExitMember_Actions)
  | NFeatureChainExpr n =>
      base n.(FeatureChainExpr_NodeBase);; node n.(FeatureChainExpr_Operand);;
      node n.(FeatureChainExpr_Member)
  | NFeatureReference n =>
      base n.(FeatureReference_NodeBase);; node n.(FeatureReference_Name)
  | NFilterMember n =>
      base n.(FilterMember_NodeBase);; node n.(FilterMember_Condition)
  | NFinalNode n =>
      base n.(FinalNode_NodeBase)
  | NFlowEnds n =>
      base n.(FlowEnds_NodeBase);; node n.(FlowEnds_From);; node n.(FlowEnds_To);;
      node n.(FlowEnds_Payload);; node n.(FlowEnds_PayloadDecl);;
      node n.(FlowEnds_PayloadMultiplicity)
  | NForkNode n =>
      base n.(ForkNode_NodeBase);; String n.(ForkNode_Name);; span n.(ForkNode_NameSpan);;
      nodes n.(ForkNode_Members);; Bool n.(ForkNode_HasBody);; prefixes n.(ForkNode_Prefixes)
  | NIfActionNode n =>
      base n.(IfActionNode_NodeBase);; node n.(IfActionNode_Condition);;
      node n.(IfActionNode_Then);; node n.(IfActionNode_Else)
  | NIfBranchNode n =>
      base n.(IfBranchNode_NodeBase);; Int n.(IfBranchNode_Kind);; nodes n.(IfBranchNode_Body)
  | NImport n =>
      base n.(Import_NodeBase);; Int n.(Import_Visibility);; Bool n.(Import_IsAll);;
      Int n.(Import_Kind);; node n.(Import_Imported);; Bool n.(Import_IsRecursive);;
      node n.(Import_FilterExpr);; nodes n.(Import_Body);; Bool n.(Import_HasBody);;
      Bool n.(Import_IsExpose)
  | NIndexExpr n =>
      base n.(IndexExpr_NodeBase);; node n.(IndexExpr_Operand);; node n.(IndexExpr_Index);;
      Bool n.(IndexExpr_Bracket)
  | NInitialNode n =>
      base n.(InitialNode_NodeBase);; node n.(InitialNode_First);;
      node n.(InitialNode_Successor);; node n.(InitialNode_Guard);;
      node n.(InitialNode_TargetMultiplicity);; nodes n.(InitialNode_Members);;
      Bool n.(InitialNode_HasBody)
  | NInvocationExpr n =>
      base n.(InvocationExpr_NodeBase);; node n.(InvocationExpr_Operand);;
      node n.(InvocationExpr_Type);; nodes n.(InvocationExpr_Args);;
      namedArgs n.(InvocationExpr_NamedArgs);; Bool n.(InvocationExpr_BareArgument)
  | NJoinNode n =>
      base n.(JoinNode_NodeBase);; String n.(JoinNode_Name);; span n.(JoinNode_NameSpan);;
      nodes n.(JoinNode_Members);; Bool n.(JoinNode_HasBody);; prefixes n.(JoinNode_Prefixes)
  | NLiteralBool n =>
      base n.(LiteralBool_NodeBase);; Bool n.(LiteralBool_Value)
  | NLiteralInfinity n =>
      base n.(LiteralInfinity_NodeBase)
  | NLiteralInteger n =>
      base n.(LiteralInteger_NodeBase);; String n.(LiteralInteger_Value)
  | NLiteralReal n =>
      base n.(LiteralReal_NodeBase);; String n.(LiteralReal_Value)
  | NLiteralString n =>
      base n.(LiteralString_NodeBase);; String n.(LiteralString_Value)
  | NMembership n =>
      base n.(Membership_NodeBase);; Int n.(Membership_Visibility);;
      Bool n.(Membership_IsTypeFeature);; node n.(Membership_Member)
  | NMergeNode n =>
      base n.(MergeNode_NodeBase);; String n.(MergeNode_Name);; span n.(MergeNode_NameSpan);;
      nodes n.(MergeNode_Members);; Bool n.(MergeNode_HasBody);;
      prefixes n.(MergeNode_Prefixes)
  | NMetadataAccessExpr n =>
      base n.(MetadataAccessExpr_NodeBase);; node n.(MetadataAccessExpr_Ref)
  | NMultiplicity n =>
      base n.(Multiplicity_NodeBase);; node n.(Multiplicity_Lower);;
      node n.(Multiplicity_Upper);; Bool n.(Multiplicity_IsRange)
  | NMultiplicityDecl n =>
      base n.(MultiplicityDecl_NodeBase);; ident n.(MultiplicityDecl_Ident);;
      node n.(MultiplicityDecl_Range);; node n.(MultiplicityDecl_Subsets);;
      nodes n.(MultiplicityDecl_Members);; Bool n.(MultiplicityDecl_HasBody)
  | NNamespace n =>
      base n.(Namespace_NodeBase);; prefixes n.(Namespace_Prefixes);;
      ident n.(Namespace_Ident);; nodes n.(Namespace_Members);; Bool n.(Namespace_HasBody)
  | NNullExpr n =>
      base n.(NullExpr_NodeBase)
  | NObjectFlowEdge n =>
      base n.(ObjectFlowEdge_NodeBase);; node n.(ObjectFlowEdge_Source);;
      node n.(ObjectFlowEdge_Target)
  | NOperatorExpr n =>
      base n.(OperatorExpr_NodeBase);; Int n.(OperatorExpr_Operator);;
      nodes n.(OperatorExpr_Operands);; node n.(OperatorExpr_TypeRef)
  | NPackage n =>
      base n.(Package_NodeBase);; prefixes n.(Package_Prefixes);; ident n.(Package_Ident);;
      Bool n.(Package_IsLibrary);; Bool n.(Package_IsStandard);; nodes n.(Package_Members);;
      Bool n.(Package_HasBody)
  | NPerformActionNode n =>
      base n.(PerformActionNode_NodeBase);; node n.(PerformActionNode_ActionRef)
  | NPrefixMetadata n =>
      base n.(PrefixMetadata_NodeBase);; ident n.(PrefixMetadata_Ident);;
      node n.(PrefixMetadata_Type);; nodes n.(PrefixMetadata_Body);;
      Bool n.(PrefixMetadata_HasBody);; qnames n.(PrefixMetadata_About);;
      span n.(PrefixMetadata_TypedBy)
  | NPseudostateNode n =>
      base n.(PseudostateNode_NodeBase);; Int n.(PseudostateNode_Kind);;
      String n.(PseudostateNode_Name);; String n.(PseudostateNode_Keyword)
  | NQualifiedName n =>
      base n.(QualifiedName_NodeBase);; Bool n.(QualifiedName_Global);;
      segments n.(QualifiedName_Parts)
  | NRelationship n =>
      base n.(Relationship_NodeBase);; Int n.(Relationship_Kind);;
      node n.(Relationship_Target);; Bool n.(Relationship_Conjugated);;
      node n.(Relationship_Multiplicity);; span n.(Relationship_TypedBy)
  | NRelationshipMember n =>
      base n.(RelationshipMember_NodeBase);; ident n.(RelationshipMember_Ident);;
      Int n.(RelationshipMember_Kind);; String n.(RelationshipMember_Keyword);;
      String n.(RelationshipMember_PrefixKeyword);; node n.(RelationshipMember_Source);;
      node n.(RelationshipMember_Target);; Bool n.(RelationshipMember_Conjugated);;
      Int n.(RelationshipMember_Visibility);; nodes n.(RelationshipMember_Members);;
      Bool n.(RelationshipMember_HasBody)
  | NRequireMember n =>
      base n.(RequireMember_NodeBase);; prefixes n.(RequireMember_Prefixes);;
      node n.(RequireMember_Expression);; node n.(RequireMember_Reference);;
      nodes n.(RequireMember_Body);; ident n.(RequireMember_Ident);;
      span n.(RequireMember_DeclSpan);; rels n.(RequireMember_Relationships);;
      node n.(RequireMember_Multiplicity);; node n.(RequireMember_Value);;
      span n.(RequireMember_ValueOperatorSpan);; Bool n.(RequireMember_ValueIsDefault);;
      Bool n.(RequireMember_ValueIsInitial);; Bool n.(RequireMember_HasBody)
  | NRootNamespace n =>
      base n.(RootNamespace_NodeBase);; nodes n.(RootNamespace_Members);;
      operatorExprs n.(RootNamespace_UndefinedOperators);; Int n.(RootNamespace_TypedBy)
  | NSelectExpr n =>
      base n.(SelectExpr_NodeBase);; node n.(SelectExpr_Operand);; node n.(SelectExpr_Body)
  | NSendStatement n =>
      base n.(SendStatement_NodeBase);; node n.(SendStatement_Message);;
      node n.(SendStatement_Target);; Bool n.(SendStatement_IsVia);;
      node n.(SendStatement_Receiver);; nodes n.(SendStatement_Members);;
      Bool n.(SendStatement_HasBody)
  | NSequenceExpr n =>
      base n.(SequenceExpr_NodeBase);; nodes n.(SequenceExpr_Elements)
  | NStateNode n =>
      base n.(StateNode_NodeBase);; String n.(StateNode_Name);; nodes n.(StateNode_Entry);;
      nodes n.(StateNode_Do);; nodes n.(StateNode_Exit);; nodes n.(StateNode_Substates);;
      regions n.(StateNode_Regions)
  | NStateRegion n =>
      base n.(StateRegion_NodeBase);; String n.(StateRegion_Name);;
      nodes n.(StateRegion_States)
  | NSubjectMember n =>
      base n.(SubjectMember_NodeBase);; prefixes n.(SubjectMember_Prefixes);;
      ident n.(SubjectMember_Ident);; node n.(SubjectMember_TypeRef);;
      node n.(SubjectMember_Multiplicity);; rels n.(SubjectMember_Relationships);;
      nodes n.(SubjectMember_Body);; node n.(SubjectMember_BindingExpr);;
      span n.(SubjectMember_ValueOperatorSpan);; Bool n.(SubjectMember_ValueIsDefault);;
      Bool n.(SubjectMember_ValueIsInitial);; Bool n.(SubjectMember_HasBody)
  | NSubstateMember n =>
      base n.(SubstateMember_NodeBase);; String n.(SubstateMember_Name);;
      span n.(SubstateMember_NameSpan)
  | NSuccessionEdge n =>
      base n.(SuccessionEdge_NodeBase);; node n.(SuccessionEdge_Source);;
      node n.(SuccessionEdge_Target);; node n.(SuccessionEdge_SourceMultiplicity);;
      node n.(SuccessionEdge_TargetMultiplicity);; node n.(SuccessionEdge_SourceMember);;
      node n.(SuccessionEdge_TargetMember);; Bool n.(SuccessionEdge_SourceImplied);;
      Bool n.(SuccessionEdge_TargetImplied);; nodes n.(SuccessionEdge_Members);;
      Bool n.(SuccessionEdge_HasBody)
  | NTerminateStatement n =>
      base n.(TerminateStatement_NodeBase);; node n.(TerminateStatement_Target)
  | NTextualRepresentation n =>
      base n.(TextualRepresentation_NodeBase);; ident n.(TextualRepresentation_Ident);;
      String n.(TextualRepresentation_Language);; span n.(TextualRepresentation_BodySpan)
  | NTimeEvent n =>
      base n.(TimeEvent_NodeBase);; node n.(TimeEvent_Duration);; Bool n.(TimeEvent_Absolute)
  | NTransitionEdge n =>
      base n.(TransitionEdge_NodeBase);; node n.(TransitionEdge_Source);;
      node n.(TransitionEdge_Target);; node n.(TransitionEdge_Trigger);;
      node n.(TransitionEdge_Guard);; nodes n.(TransitionEdge_Effect)
  | NTransitionMember n =>
      base n.(TransitionMember_NodeBase);; String n.(TransitionMember_Name);;
      span n.(TransitionMember_NameSpan);; node n.(TransitionMember_Source);;
      node n.(TransitionMember_Target);; node n.(TransitionMember_Trigger);;
      span n.(TransitionMember_TriggerSpan);; node n.(TransitionMember_Guard);;
      nodes n.(TransitionMember_Effect);; Bool n.(TransitionMember_HasEffect);;
      node n.(TransitionMember_Via);; node n.(TransitionMember_TargetMultiplicity);;
      nodes n.(TransitionMember_Members);; Bool n.(TransitionMember_HasBody);;
      Bool n.(TransitionMember_IsSuccession)
  | NUsage n =>
      base n.(Usage_NodeBase);; prefixes n.(Usage_Prefixes);; Int n.(Usage_Kind);;
      String n.(Usage_Keyword);; String n.(Usage_PrefixKeyword);; Bool n.(Usage_IsAbstract);;
      Bool n.(Usage_IsVariation);; Bool n.(Usage_IsVariant);; Bool n.(Usage_IsReference);;
      Bool n.(Usage_IsVariable);; Bool n.(Usage_IsAll);; Bool n.(Usage_IsEnd);;
      Bool n.(Usage_IsChain);; Bool n.(Usage_IsConstant);; Bool n.(Usage_IsEvent);;
      Bool n.(Usage_IsIndividual);; span n.(Usage_IndividualKeyword);; Int n.(Usage_Portion);;
      Bool n.(Usage_IsAccept);; Bool n.(Usage_IsBodyParameter);; Bool n.(Usage_IsActionNode);;
      Bool n.(Usage_IsTerminate);; Bool n.(Usage_IsResult);; Bool n.(Usage_IsNegated);;
      Bool n.(Usage_DeclaresRequirement);; Int n.(Usage_Visibility);; Int n.(Usage_Direction);;
      Bool n.(Usage_IsComposite);; Bool n.(Usage_IsPortion);; Bool n.(Usage_IsParallel);;
      Bool n.(Usage_IsDerived);; Bool n.(Usage_IsOrdered);; Bool n.(Usage_IsNonunique);;
      ident n.(Usage_Ident);; rels n.(Usage_Relationships);; node n.(Usage_Multiplicity);;
      node n.(Usage_CrossFeature);; node n.(Usage_Terminates);; node n.(Usage_Value);;
      span n.(Usage_ValueOperatorSpan);; Bool n.(Usage_ValueIsDefault);;
      Bool n.(Usage_ValueIsInitial);; nodes n.(Usage_Members);; Bool n.(Usage_HasBody);;
      ends n.(Usage_ConnectorEnds);; node n.(Usage_FlowEnds)
  | NWhileLoopActionNode n =>
      base n.(WhileLoopActionNode_NodeBase);; Int n.(WhileLoopActionNode_Kind);;
      node n.(WhileLoopActionNode_Condition);; nodes n.(WhileLoopActionNode_Body);;
      node n.(WhileLoopActionNode_Until);; ident n.(WhileLoopActionNode_Variable);;
      rels n.(WhileLoopActionNode_VariableRelationships);;
      node n.(WhileLoopActionNode_Collection)
  | Foreign _ => skip
  end.
End field_writers.

(** *** References *)

Definition is_None {A} (o : option A) : bool := match o with None => true | Some _ => false end.

(** [e.ids[n] = 0], and [n] behind the nodes of its kind. *)
Definition record_node (e : Encoder) (p : nat) (k : kind) : Encoder :=
  {| ew := e.(ew); e_ids := <[p := 0]> e.(e_ids);
     byKind := alter (fun l => l ++ [p]) (kind_number k) e.(byKind);
     collecting := e.(collecting); e_last := e.(e_last); e_err := e.(e_err) |}.

(** [%T] of a node, asked of the unknown only. *)
Definition type_of (n : Node) : bytes := match n with Foreign T => T | _ => [] end.

(** [node] over the nodes of a heap. *)
Fixpoint node (heap : list Node) (fuel : nat) (r : ref) : step := fun e =>
  match r with
  | None => Uint 0 e
  | Some p =>
      n ← heap !! p;
      let k := kindOf n in
      if bool_decide (k = numKinds) then
        Uint 0 (if is_None e.(e_err) then with_err e (ErrUnknownNode (type_of n)) else e)
      else if negb e.(collecting) then Uint (default 0 (e.(e_ids) !! p)) e
      else match e.(e_ids) !! p with
           | Some _ => Some e
           | None =>
               match fuel with
               | O => None
               | S fuel' => encodeFields (node heap fuel') n (record_node e p k)
               end
           end
  end.

(** A walk records a node before it goes deeper, so it is never deeper than the heap
    has nodes. *)
Definition walk_fuel (heap : list Node) : nat := S (length heap).

(** [for _, nodes := range e.byKind { for _, n := range nodes { e.ids[n] = id; id++ } }]. *)
Fixpoint number (ids : gmap nat Z) (id : Z) (ps : list nat) : gmap nat Z :=
  match ps with
  | [] => ids
  | p :: ps' => number (<[p := id]> ids) (id + 1) ps'
  end.

(** [e.w, e.collecting, e.last = ...]. *)
Definition collect_mode (e : Encoder) : Encoder :=
  {| ew := NewWriter; e_ids := e.(e_ids); byKind := e.(byKind); collecting := true;
     e_last := e.(e_last); e_err := e.(e_err) |}.
Definition write_mode (e : Encoder) (w : Writer) : Encoder :=
  {| ew := w; e_ids := number e.(e_ids) 1 (concat e.(byKind)); byKind := e.(byKind);
     collecting := false; e_last := 0; e_err := e.(e_err) |}.

(** The fields of the recorded nodes; while writing, [node] does not walk. *)
Definition fields_of (heap : list Node) (ps : list nat) : step :=
  each (fun p e => n ← heap !! p; encodeFields (node heap 0) n e) ps.

(** The section's function is run on the section's empty writer. *)
Definition Encode (heap : list Node) (roots : list ref) : step := fun e =>
  let body := e.(ew) in
  e ← each (node heap (walk_fuel heap)) roots (collect_mode e);
  let e := write_mode e body in
  e ← (Len (length kinds);; each (fun ps => Len (length ps)) e.(byKind)) e;
  let body := e.(ew) in
  e ← fields_of heap (concat e.(byKind)) (with_writer e {| Pack.body := []; strs := body.(strs) |});
  Some (with_writer e (Writer_Section body (fun _ => e.(ew)))).

Definition ID (heap : list Node) (e : Encoder) (r : ref) : option (Z * bool) :=
  match r with
  | None => Some (0, true)
  | Some p =>
      n ← heap !! p;
      if bool_decide (kindOf n = numKinds) then Some (0, true)
      else match e.(e_ids) !! p with Some id => Some (id, true) | None => Some (0, false) end
  end.

(** The addresses of the set [Reachable] answers. *)
Definition Reachable (heap : list Node) (roots : list ref) : option (gset nat) :=
  e ← each (node heap (walk_fuel heap)) roots
        {| ew := NewWriter; e_ids := ∅; byKind := map (fun _ => []) kinds; collecting := true;
           e_last := 0; e_err := None |};
  Some (dom e.(e_ids)).

(** ** Decoder *)

Record Decoder := {
  head : Reader;
  fields : option Reader;  (* the section holding the fields, after [Allocate] *)
  table : list ref;        (* by table index; the first is nil *)
  d_heap : list Node;      (* the nodes it allocated *)
  d_last : Z;
}.

Definition NewDecoder (r : Reader) : Decoder :=
  {| head := r; fields := None; table := []; d_heap := []; d_last := 0 |}.

(** A read of [d.r], with [d.last]. *)
Abbreviation dec A := (Z -> read (A * Z)).
Definition ret {A} (a : A) : dec A := fun last r => Some ((a, last), r).
Definition dbind {A B} (m : dec A) (f : A -> dec B) : dec B := fun last r =>
  '((a, last), r) ← m last r; f a last r.
Notation "'let*' x := m 'in' k" := (dbind m (fun x => k))
  (at level 10, x name, m at level 100, k at level 200) : codec_scope.
Definition reading {A} (get : read A) : dec A := fun last r =>
  '(a, r) ← get r; Some ((a, last), r).

Definition d_Uint : dec Z := reading Reader_Uint.
Definition d_Int : dec Z := reading Reader_Int.
Definition d_Len : dec Z := reading Reader_Len.
Definition d_Bool : dec bool := reading Reader_Bool.
Definition d_String : dec bytes := reading Reader_String.
Definition d_fail (what : bytes) : dec unit := reading (fun r => Some (tt, fail r what)).

(** [for i := range out { out[i] = f() }] over a slice of [n]. *)
Fixpoint times {A} (f : dec A) (n : nat) : dec (list A) :=
  match n with
  | O => ret []
  | S n' => let* x := f in let* l := times f n' in ret (x :: l)
  end.
(** The slice [Take(d.r.Len())] makes, which panics below zero, filled. *)
Definition filled_slice {A} (f : dec A) : dec (list A) :=
  let* n := d_Len in
  if n <? 0 then (fun _ _ => None) else times f (Z.to_nat n).

Definition d_span : dec Span := fun last r =>
  (let* offset := d_Int in
   let* length := d_Int in
   fun _ r => let offset := int64 (last + offset) in
              Some (({| Offset := offset; Ast.Len := length |}, offset), r)) last r.

Definition d_trivia : dec (list Trivia) :=
  filled_slice (let* k := d_Int in let* s := d_span in ret {| Trivia_Kind := k; Trivia_Span := s |}).

Definition d_base : dec NodeBase :=
  let* s := d_span in
  let* l := d_trivia in
  let* t := d_trivia in
  ret {| NodeSpan := s; leading := l; trailing := t |}.

Definition d_ident : dec Identification :=
  let* short := d_String in
  let* shortSpan := d_span in
  let* name := d_String in
  let* nameSpan := d_span in
  ret {| Identification_ShortName := short; Identification_ShortNameSpan := shortSpan;
         Identification_Name := name; Identification_NameSpan := nameSpan |}.

Definition d_segment : dec NameSegment :=
  let* text := d_String in
  let* s := d_span in
  let* chained := d_Bool in
  ret {| NameSegment_Text := text; NameSegment_Span := s; NameSegment_Chained := chained |}.

Definition d_segments : dec (list NameSegment) := filled_slice d_segment.

(** A lone segment is read into the node's own storage. *)
Definition d_parts : dec (list NameSegment) :=
  let* n := d_Len in
  if n =? 1 then let* s := d_segment in ret [s]
  else if n <? 0 then (fun _ _ => None) else times d_segment (Z.to_nat n).

(** *** References

    The table and, for [typed]'s type assertion, the heap the nodes are in. *)
Section references.
Variable tbl : list ref.
Variable heap : list Node.

Definition lookup_node (id : Z) : ref * bool :=
  if Z.of_nat (length tbl) <=? id then (None, false)
  else (default None (tbl !! Z.to_nat id), true).

Definition d_node : dec ref :=
  let* id := d_Uint in
  let '(n, ok) := lookup_node id in
  if ok then ret n else let* _ := d_fail (bs "node index") in ret n.

Definition typed (T : kind -> bool) : dec ref :=
  let* n := d_node in
  match n with
  | None => ret None
  | Some _ =>
      if points heap T n then ret n
      else let* _ := d_fail (bs "node type") in ret None
  end.

Definition d_nodes : dec (list ref) := filled_slice d_node.
Definition d_rels : dec (list ref) := filled_slice (typed (pointer kindRelationship)).
Definition d_prefixes : dec (list ref) := filled_slice (typed (pointer kindPrefixMetadata)).
Definition d_qnames : dec (list ref) := filled_slice (typed (pointer kindQualifiedName)).
Definition d_regions : dec (list ref) := filled_slice (typed (pointer kindStateRegion)).
Definition d_ends : dec (list ref) := filled_slice (typed (pointer kindConnectorEnd)).
Definition d_operatorExprs : dec (list ref) := filled_slice (typed (pointer kindOperatorExpr)).

Definition d_namedArgs : dec (list NamedArg) :=
  filled_slice (let* name := typed (pointer kindQualifiedName) in
         let* value := d_node in
         ret {| NamedArg_Name := name; NamedArg_Value := value |}).

Definition d_params : dec (list BodyParam) :=
  filled_slice (
    let* n_Name := d_String in
    let* n_Type := typed (pointer kindQualifiedName) in
    let* n_Multiplicity := typed (pointer kindMultiplicity) in
    let* n_Value := d_node in
    let* n_IsReference := d_Bool in
    let* n_Members := d_nodes in
    let* n_Relationships := d_rels in
    let* n_Span := d_span in
    ret {| BodyParam_Name := n_Name; BodyParam_Type := n_Type;
           BodyParam_Multiplicity := n_Multiplicity; BodyParam_Value := n_Value;
           BodyParam_IsReference := n_IsReference; BodyParam_Members := n_Members;
           BodyParam_Relationships := n_Relationships; BodyParam_Span := n_Span |}).

Definition decodeFields (n : Node) : dec Node :=
  match n with
  | NAcceptActionUsage _ =>
      let* n_NodeBase := d_base in let* n_Name := d_String in let* n_ParamName := d_String in
      let* n_ParamType := typed (pointer kindQualifiedName) in ret (NAcceptActionUsage {|
        AcceptActionUsage_NodeBase := n_NodeBase; AcceptActionUsage_Name := n_Name;
        AcceptActionUsage_ParamName := n_ParamName; AcceptActionUsage_ParamType := n_ParamType |})
  | NAcceptEvent _ =>
      let* n_NodeBase := d_base in let* n_SignalType := typed (pointer kindQualifiedName) in
      let* n_Subsets := d_node in let* n_Payload := typed (pointer kindUsage) in
      ret (NAcceptEvent {|
        AcceptEvent_NodeBase := n_NodeBase; AcceptEvent_SignalType := n_SignalType;
        AcceptEvent_Subsets := n_Subsets; AcceptEvent_Payload := n_Payload |})
  | NActionExecutionNode _ =>
      let* n_NodeBase := d_base in let* n_Name := d_String in
      let* n_ActionRef := typed (pointer kindQualifiedName) in let* n_Expression := d_node in
      ret (NActionExecutionNode {|
        ActionExecutionNode_NodeBase := n_NodeBase; ActionExecutionNode_Name := n_Name;
        ActionExecutionNode_ActionRef := n_ActionRef;
        ActionExecutionNode_Expression := n_Expression |})
  | NAlias _ =>
      let* n_NodeBase := d_base in let* n_Visibility := d_Int in let* n_Ident := d_ident in
      let* n_For := typed (pointer kindQualifiedName) in let* n_Body := d_nodes in
      let* n_HasBody := d_Bool in ret (NAlias {|
        Alias_NodeBase := n_NodeBase; Alias_Visibility := n_Visibility; Alias_Ident := n_Ident;
        Alias_For := n_For; Alias_Body := n_Body; Alias_HasBody := n_HasBody |})
  | NAssignmentActionNode _ =>
      let* n_NodeBase := d_base in let* n_Target := d_node in let* n_Value := d_node in
      ret (NAssignmentActionNode {|
        AssignmentActionNode_NodeBase := n_NodeBase; AssignmentActionNode_Target := n_Target;
        AssignmentActionNode_Value := n_Value |})
  | NAssumeMember _ =>
      let* n_NodeBase := d_base in let* n_Prefixes := d_prefixes in
      let* n_Expression := d_node in let* n_Reference := typed (pointer kindQualifiedName) in
      let* n_Body := d_nodes in let* n_Ident := d_ident in let* n_DeclSpan := d_span in
      let* n_Relationships := d_rels in
      let* n_Multiplicity := typed (pointer kindMultiplicity) in let* n_Value := d_node in
      let* n_ValueOperatorSpan := d_span in let* n_ValueIsDefault := d_Bool in
      let* n_ValueIsInitial := d_Bool in let* n_HasBody := d_Bool in ret (NAssumeMember {|
        AssumeMember_NodeBase := n_NodeBase; AssumeMember_Prefixes := n_Prefixes;
        AssumeMember_Expression := n_Expression; AssumeMember_Reference := n_Reference;
        AssumeMember_Body := n_Body; AssumeMember_Ident := n_Ident;
        AssumeMember_DeclSpan := n_DeclSpan; AssumeMember_Relationships := n_Relationships;
        AssumeMember_Multiplicity := n_Multiplicity; AssumeMember_Value := n_Value;
        AssumeMember_ValueOperatorSpan := n_ValueOperatorSpan;
        AssumeMember_ValueIsDefault := n_ValueIsDefault;
        AssumeMember_ValueIsInitial := n_ValueIsInitial; AssumeMember_HasBody := n_HasBody |})
  | NBodyExpr _ =>
      let* n_NodeBase := d_base in let* n_Params := d_params in let* n_Members := d_nodes in
      let* n_Result := d_node in ret (NBodyExpr {|
        BodyExpr_NodeBase := n_NodeBase; BodyExpr_Params := n_Params;
        BodyExpr_Members := n_Members; BodyExpr_Result := n_Result |})
  | NCallEvent _ =>
      let* n_NodeBase := d_base in let* n_Operation := typed (pointer kindQualifiedName) in
      let* n_Parameters := d_segments in ret (NCallEvent {|
        CallEvent_NodeBase := n_NodeBase; CallEvent_Operation := n_Operation;
        CallEvent_Parameters := n_Parameters |})
  | NCastExpr _ =>
      let* n_NodeBase := d_base in let* n_TargetType := typed (pointer kindQualifiedName) in
      let* n_Multiplicity := typed (pointer kindMultiplicity) in ret (NCastExpr {|
        CastExpr_NodeBase := n_NodeBase; CastExpr_TargetType := n_TargetType;
        CastExpr_Multiplicity := n_Multiplicity |})
  | NChangeEvent _ =>
      let* n_NodeBase := d_base in let* n_Condition := d_node in ret (NChangeEvent {|
        ChangeEvent_NodeBase := n_NodeBase; ChangeEvent_Condition := n_Condition |})
  | NCollectExpr _ =>
      let* n_NodeBase := d_base in let* n_Operand := d_node in let* n_Body := d_node in
      ret (NCollectExpr {|
        CollectExpr_NodeBase := n_NodeBase; CollectExpr_Operand := n_Operand;
        CollectExpr_Body := n_Body |})
  | NComment _ =>
      let* n_NodeBase := d_base in let* n_Ident := d_ident in let* n_About := d_qnames in
      let* n_Locale := d_String in let* n_BodySpan := d_span in ret (NComment {|
        Comment_NodeBase := n_NodeBase; Comment_Ident := n_Ident; Comment_About := n_About;
        Comment_Locale := n_Locale; Comment_BodySpan := n_BodySpan |})
  | NConnectorEnd _ =>
      let* n_NodeBase := d_base in let* n_Target := d_node in
      let* n_Multiplicity := typed (pointer kindMultiplicity) in let* n_Reference := d_node in
      let* n_Relationships := d_rels in ret (NConnectorEnd {|
        ConnectorEnd_NodeBase := n_NodeBase; ConnectorEnd_Target := n_Target;
        ConnectorEnd_Multiplicity := n_Multiplicity; ConnectorEnd_Reference := n_Reference;
        ConnectorEnd_Relationships := n_Relationships |})
  | NConstraintMember _ =>
      let* n_NodeBase := d_base in let* n_IsAssert := d_Bool in let* n_Keyword := d_String in
      let* n_IsNegated := d_Bool in let* n_Expression := d_node in let* n_Name := d_String in
      let* n_Body := d_nodes in let* n_Terminator := d_span in ret (NConstraintMember {|
        ConstraintMember_NodeBase := n_NodeBase; ConstraintMember_IsAssert := n_IsAssert;
        ConstraintMember_Keyword := n_Keyword; ConstraintMember_IsNegated := n_IsNegated;
        ConstraintMember_Expression := n_Expression; ConstraintMember_Name := n_Name;
        ConstraintMember_Body := n_Body; ConstraintMember_Terminator := n_Terminator |})
  | NConstructorExpr _ =>
      let* n_NodeBase := d_base in let* n_Type := typed (pointer kindQualifiedName) in
      let* n_Args := d_nodes in let* n_NamedArgs := d_namedArgs in ret (NConstructorExpr {|
        ConstructorExpr_NodeBase := n_NodeBase; ConstructorExpr_Type := n_Type;
        ConstructorExpr_Args := n_Args; ConstructorExpr_NamedArgs := n_NamedArgs |})
  | NControlFlowEdge _ =>
      let* n_NodeBase := d_base in let* n_Source := typed (pointer kindQualifiedName) in
      let* n_Target := typed (pointer kindQualifiedName) in let* n_Guard := d_node in
      let* n_IsElse := d_Bool in let* n_SourceMember := d_node in
      let* n_TargetMember := d_node in let* n_SourceImplied := d_Bool in
      let* n_TargetImplied := d_Bool in ret (NControlFlowEdge {|
        ControlFlowEdge_NodeBase := n_NodeBase; ControlFlowEdge_Source := n_Source;
        ControlFlowEdge_Target := n_Target; ControlFlowEdge_Guard := n_Guard;
        ControlFlowEdge_IsElse := n_IsElse; ControlFlowEdge_SourceMember := n_SourceMember;
        ControlFlowEdge_TargetMember := n_TargetMember;
        ControlFlowEdge_SourceImplied := n_SourceImplied;
        ControlFlowEdge_TargetImplied := n_TargetImplied |})
  | NCrossFeatureMember _ =>
      let* n_NodeBase := d_base in let* n_Direction := d_Int in let* n_IsDerived := d_Bool in
      let* n_IsAbstract := d_Bool in let* n_IsVariation := d_Bool in
      let* n_IsComposite := d_Bool in let* n_IsPortion := d_Bool in
      let* n_IsVariable := d_Bool in let* n_IsConstant := d_Bool in
      let* n_IsReference := d_Bool in let* n_Ident := d_ident in
      let* n_Multiplicity := typed (pointer kindMultiplicity) in let* n_IsOrdered := d_Bool in
      let* n_IsNonunique := d_Bool in let* n_Relationships := d_rels in
      ret (NCrossFeatureMember {|
        CrossFeatureMember_NodeBase := n_NodeBase; CrossFeatureMember_Direction := n_Direction;
        CrossFeatureMember_IsDerived := n_IsDerived;
        CrossFeatureMember_IsAbstract := n_IsAbstract;
        CrossFeatureMember_IsVariation := n_IsVariation;
        CrossFeatureMember_IsComposite := n_IsComposite;
        CrossFeatureMember_IsPortion := n_IsPortion;
        CrossFeatureMember_IsVariable := n_IsVariable;
        CrossFeatureMember_IsConstant := n_IsConstant;
        CrossFeatureMember_IsReference := n_IsReference; CrossFeatureMember_Ident := n_Ident;
        CrossFeatureMember_Multiplicity := n_Multiplicity;
        CrossFeatureMember_IsOrdered := n_IsOrdered;
        CrossFeatureMember_IsNonunique := n_IsNonunique;
        CrossFeatureMember_Relationships := n_Relationships |})
  | NDecisionNode _ =>
      let* n_NodeBase := d_base in let* n_Name := d_String in let* n_NameSpan := d_span in
      let* n_Members := d_nodes in let* n_HasBody := d_Bool in let* n_Prefixes := d_prefixes in
      ret (NDecisionNode {|
        DecisionNode_NodeBase := n_NodeBase; DecisionNode_Prefixes := n_Prefixes;
        DecisionNode_Name := n_Name; DecisionNode_NameSpan := n_NameSpan;
        DecisionNode_Members := n_Members; DecisionNode_HasBody := n_HasBody |})
  | NDefinition _ =>
      let* n_NodeBase := d_base in let* n_Prefixes := d_prefixes in let* n_Kind := d_Int in
      let* n_Keyword := d_String in let* n_HasDefKeyword := d_Bool in
      let* n_IsAbstract := d_Bool in let* n_IsVariation := d_Bool in let* n_IsAll := d_Bool in
      let* n_IsConstant := d_Bool in let* n_IsEvent := d_Bool in
      let* n_IsIndividual := d_Bool in let* n_IndividualKeyword := d_span in
      let* n_IsParallel := d_Bool in let* n_Visibility := d_Int in let* n_Ident := d_ident in
      let* n_Multiplicity := typed (pointer kindMultiplicity) in
      let* n_Relationships := d_rels in let* n_Members := d_nodes in
      let* n_HasBody := d_Bool in ret (NDefinition {|
        Definition_NodeBase := n_NodeBase; Definition_Prefixes := n_Prefixes;
        Definition_Kind := n_Kind; Definition_Keyword := n_Keyword;
        Definition_HasDefKeyword := n_HasDefKeyword; Definition_IsAbstract := n_IsAbstract;
        Definition_IsVariation := n_IsVariation; Definition_IsAll := n_IsAll;
        Definition_IsConstant := n_IsConstant; Definition_IsEvent := n_IsEvent;
        Definition_IsIndividual := n_IsIndividual;
        Definition_IndividualKeyword := n_IndividualKeyword;
        Definition_IsParallel := n_IsParallel; Definition_Visibility := n_Visibility;
        Definition_Ident := n_Ident; Definition_Multiplicity := n_Multiplicity;
        Definition_Relationships := n_Relationships; Definition_Members := n_Members;
        Definition_HasBody := n_HasBody |})
  | NDependency _ =>
      let* n_NodeBase := d_base in let* n_Prefixes := d_prefixes in let* n_Ident := d_ident in
      let* n_Clients := d_qnames in let* n_Suppliers := d_qnames in let* n_Body := d_nodes in
      let* n_HasBody := d_Bool in ret (NDependency {|
        Dependency_NodeBase := n_NodeBase; Dependency_Prefixes := n_Prefixes;
        Dependency_Ident := n_Ident; Dependency_Clients := n_Clients;
        Dependency_Suppliers := n_Suppliers; Dependency_Body := n_Body;
        Dependency_HasBody := n_HasBody |})
  | NDoMember _ =>
      let* n_NodeBase := d_base in let* n_Actions := d_nodes in ret (NDoMember {|
        DoMember_NodeBase := n_NodeBase; DoMember_Actions := n_Actions |})
  | NDocumentation _ =>
      let* n_NodeBase := d_base in let* n_Ident := d_ident in let* n_Locale := d_String in
      let* n_BodySpan := d_span in ret (NDocumentation {|
        Documentation_NodeBase := n_NodeBase; Documentation_Ident := n_Ident;
        Documentation_Locale := n_Locale; Documentation_BodySpan := n_BodySpan |})
  | NEntryMember _ =>
      let* n_NodeBase := d_base in let* n_Actions := d_nodes in ret (NEntryMember {|
        EntryMember_NodeBase := n_NodeBase; EntryMember_Actions := n_Actions |})
  | NErrorNode _ =>
      let* n_NodeBase := d_base in let* n_Message := d_String in ret (NErrorNode {|
        ErrorNode_NodeBase := n_NodeBase; ErrorNode_Message := n_Message |})
  | NExitMember _ =>
      let* n_NodeBase := d_base in let* n_Actions := d_nodes in ret (NExitMember {|
        ExitMember_NodeBase := n_NodeBase; ExitMember_Actions := n_Actions |})
  | NFeatureChainExpr _ =>
      let* n_NodeBase := d_base in let* n_Operand := d_node in
      let* n_Member := typed (pointer kindQualifiedName) in ret (NFeatureChainExpr {|
        FeatureChainExpr_NodeBase := n_NodeBase; FeatureChainExpr_Operand := n_Operand;
        FeatureChainExpr_Member := n_Member |})
  | NFeatureReference _ =>
      let* n_NodeBase := d_base in let* n_Name := typed (pointer kindQualifiedName) in
      ret (NFeatureReference {|
        FeatureReference_NodeBase := n_NodeBase; FeatureReference_Name := n_Name |})
  | NFilterMember _ =>
      let* n_NodeBase := d_base in let* n_Condition := d_node in ret (NFilterMember {|
        FilterMember_NodeBase := n_NodeBase; FilterMember_Condition := n_Condition |})
  | NFinalNode _ =>
      let* n_NodeBase := d_base in ret (NFinalNode {|
        FinalNode_NodeBase := n_NodeBase |})
  | NFlowEnds _ =>
      let* n_NodeBase := d_base in let* n_From := d_node in let* n_To := d_node in
      let* n_Payload := d_node in let* n_PayloadDecl := typed (pointer kindUsage) in
      let* n_PayloadMultiplicity := typed (pointer kindMultiplicity) in ret (NFlowEnds {|
        FlowEnds_NodeBase := n_NodeBase; FlowEnds_From := n_From; FlowEnds_To := n_To;
        FlowEnds_Payload := n_Payload; FlowEnds_PayloadDecl := n_PayloadDecl;
        FlowEnds_PayloadMultiplicity := n_PayloadMultiplicity |})
  | NForkNode _ =>
      let* n_NodeBase := d_base in let* n_Name := d_String in let* n_NameSpan := d_span in
      let* n_Members := d_nodes in let* n_HasBody := d_Bool in let* n_Prefixes := d_prefixes in
      ret (NForkNode {|
        ForkNode_NodeBase := n_NodeBase; ForkNode_Prefixes := n_Prefixes;
        ForkNode_Name := n_Name; ForkNode_NameSpan := n_NameSpan;
        ForkNode_Members := n_Members; ForkNode_HasBody := n_HasBody |})
  | NIfActionNode _ =>
      let* n_NodeBase := d_base in let* n_Condition := d_node in
      let* n_Then := typed (pointer kindIfBranchNode) in
      let* n_Else := typed (pointer kindIfBranchNode) in ret (NIfActionNode {|
        IfActionNode_NodeBase := n_NodeBase; IfActionNode_Condition := n_Condition;
        IfActionNode_Then := n_Then; IfActionNode_Else := n_Else |})
  | NIfBranchNode _ =>
      let* n_NodeBase := d_base in let* n_Kind := d_Int in let* n_Body := d_nodes in
      ret (NIfBranchNode {|
        IfBranchNode_NodeBase := n_NodeBase; IfBranchNode_Kind := n_Kind;
        IfBranchNode_Body := n_Body |})
  | NImport _ =>
      let* n_NodeBase := d_base in let* n_Visibility := d_Int in let* n_IsAll := d_Bool in
      let* n_Kind := d_Int in let* n_Imported := typed (pointer kindQualifiedName) in
      let* n_IsRecursive := d_Bool in let* n_FilterExpr := d_node in let* n_Body := d_nodes in
      let* n_HasBody := d_Bool in let* n_IsExpose := d_Bool in ret (NImport {|
        Import_NodeBase := n_NodeBase; Import_Visibility := n_Visibility;
        Import_IsAll := n_IsAll; Import_Kind := n_Kind; Import_Imported := n_Imported;
        Import_IsRecursive := n_IsRecursive; Import_FilterExpr := n_FilterExpr;
        Import_Body := n_Body; Import_HasBody := n_HasBody; Import_IsExpose := n_IsExpose |})
  | NIndexExpr _ =>
      let* n_NodeBase := d_base in let* n_Operand := d_node in let* n_Index := d_node in
      let* n_Bracket := d_Bool in ret (NIndexExpr {|
        IndexExpr_NodeBase := n_NodeBase; IndexExpr_Operand := n_Operand;
        IndexExpr_Index := n_Index; IndexExpr_Bracket := n_Bracket |})
  | NInitialNode _ =>
      let* n_NodeBase := d_base in let* n_First := typed (pointer kindQualifiedName) in
      let* n_Successor := typed (pointer kindQualifiedName) in let* n_Guard := d_node in
      let* n_TargetMultiplicity := typed (pointer kindMultiplicity) in
      let* n_Members := d_nodes in let* n_HasBody := d_Bool in ret (NInitialNode {|
        InitialNode_NodeBase := n_NodeBase; InitialNode_First := n_First;
        InitialNode_Successor := n_Successor; InitialNode_Guard := n_Guard;
        InitialNode_TargetMultiplicity := n_TargetMultiplicity;
        InitialNode_Members := n_Members; InitialNode_HasBody := n_HasBody |})
  | NInvocationExpr _ =>
      let* n_NodeBase := d_base in let* n_Operand := d_node in
      let* n_Type := typed (pointer kindQualifiedName) in let* n_Args := d_nodes in
      let* n_NamedArgs := d_namedArgs in let* n_BareArgument := d_Bool in
      ret (NInvocationExpr {|
        InvocationExpr_NodeBase := n_NodeBase; InvocationExpr_Operand := n_Operand;
        InvocationExpr_Type := n_Type; InvocationExpr_Args := n_Args;
        InvocationExpr_NamedArgs := n_NamedArgs; InvocationExpr_BareArgument := n_BareArgument |})
  | NJoinNode _ =>
      let* n_NodeBase := d_base in let* n_Name := d_String in let* n_NameSpan := d_span in
      let* n_Members := d_nodes in let* n_HasBody := d_Bool in let* n_Prefixes := d_prefixes in
      ret (NJoinNode {|
        JoinNode_NodeBase := n_NodeBase; JoinNode_Prefixes := n_Prefixes;
        JoinNode_Name := n_Name; JoinNode_NameSpan := n_NameSpan;
        JoinNode_Members := n_Members; JoinNode_HasBody := n_HasBody |})
  | NLiteralBool _ =>
      let* n_NodeBase := d_base in let* n_Value := d_Bool in ret (NLiteralBool {|
        LiteralBool_NodeBase := n_NodeBase; LiteralBool_Value := n_Value |})
  | NLiteralInfinity _ =>
      let* n_NodeBase := d_base in ret (NLiteralInfinity {|
        LiteralInfinity_NodeBase := n_NodeBase |})
  | NLiteralInteger _ =>
      let* n_NodeBase := d_base in let* n_Value := d_String in ret (NLiteralInteger {|
        LiteralInteger_NodeBase := n_NodeBase; LiteralInteger_Value := n_Value |})
  | NLiteralReal _ =>
      let* n_NodeBase := d_base in let* n_Value := d_String in ret (NLiteralReal {|
        LiteralReal_NodeBase := n_NodeBase; LiteralReal_Value := n_Value |})
  | NLiteralString _ =>
      let* n_NodeBase := d_base in let* n_Value := d_String in ret (NLiteralString {|
        LiteralString_NodeBase := n_NodeBase; LiteralString_Value := n_Value |})
  | NMembership _ =>
      let* n_NodeBase := d_base in let* n_Visibility := d_Int in
      let* n_IsTypeFeature := d_Bool in let* n_Member := d_node in ret (NMembership {|
        Membership_NodeBase := n_NodeBase; Membership_Visibility := n_Visibility;
        Membership_IsTypeFeature := n_IsTypeFeature; Membership_Member := n_Member |})
  | NMergeNode _ =>
      let* n_NodeBase := d_base in let* n_Name := d_String in let* n_NameSpan := d_span in
      let* n_Members := d_nodes in let* n_HasBody := d_Bool in let* n_Prefixes := d_prefixes in
      ret (NMergeNode {|
        MergeNode_NodeBase := n_NodeBase; MergeNode_Prefixes := n_Prefixes;
        MergeNode_Name := n_Name; MergeNode_NameSpan := n_NameSpan;
        MergeNode_Members := n_Members; MergeNode_HasBody := n_HasBody |})
  | NMetadataAccessExpr _ =>
      let* n_NodeBase := d_base in let* n_Ref := typed (pointer kindQualifiedName) in
      ret (NMetadataAccessExpr {|
        MetadataAccessExpr_NodeBase := n_NodeBase; MetadataAccessExpr_Ref := n_Ref |})
  | NMultiplicity _ =>
      let* n_NodeBase := d_base in let* n_Lower := d_node in let* n_Upper := d_node in
      let* n_IsRange := d_Bool in ret (NMultiplicity {|
        Multiplicity_NodeBase := n_NodeBase; Multiplicity_Lower := n_Lower;
        Multiplicity_Upper := n_Upper; Multiplicity_IsRange := n_IsRange |})
  | NMultiplicityDecl _ =>
      let* n_NodeBase := d_base in let* n_Ident := d_ident in
      let* n_Range := typed (pointer kindMultiplicity) in
      let* n_Subsets := typed (pointer kindQualifiedName) in let* n_Members := d_nodes in
      let* n_HasBody := d_Bool in ret (NMultiplicityDecl {|
        MultiplicityDecl_NodeBase := n_NodeBase; MultiplicityDecl_Ident := n_Ident;
        MultiplicityDecl_Range := n_Range; MultiplicityDecl_Subsets := n_Subsets;
        MultiplicityDecl_Members := n_Members; MultiplicityDecl_HasBody := n_HasBody |})
  | NNamespace _ =>
      let* n_NodeBase := d_base in let* n_Prefixes := d_prefixes in let* n_Ident := d_ident in
      let* n_Members := d_nodes in let* n_HasBody := d_Bool in ret (NNamespace {|
        Namespace_NodeBase := n_NodeBase; Namespace_Prefixes := n_Prefixes;
        Namespace_Ident := n_Ident; Namespace_Members := n_Members;
        Namespace_HasBody := n_HasBody |})
  | NNullExpr _ =>
      let* n_NodeBase := d_base in ret (NNullExpr {|
        NullExpr_NodeBase := n_NodeBase |})
  | NObjectFlowEdge _ =>
      let* n_NodeBase := d_base in let* n_Source := typed (pointer kindQualifiedName) in
      let* n_Target := typed (pointer kindQualifiedName) in ret (NObjectFlowEdge {|
        ObjectFlowEdge_NodeBase := n_NodeBase; ObjectFlowEdge_Source := n_Source;
        ObjectFlowEdge_Target := n_Target |})
  | NOperatorExpr _ =>
      let* n_NodeBase := d_base in let* n_Operator := d_Int in let* n_Operands := d_nodes in
      let* n_TypeRef := typed (pointer kindQualifiedName) in ret (NOperatorExpr {|
        OperatorExpr_NodeBase := n_NodeBase; OperatorExpr_Operator := n_Operator;
        OperatorExpr_Operands := n_Operands; OperatorExpr_TypeRef := n_TypeRef |})
  | NPackage _ =>
      let* n_NodeBase := d_base in let* n_Prefixes := d_prefixes in let* n_Ident := d_ident in
      let* n_IsLibrary := d_Bool in let* n_IsStandard := d_Bool in let* n_Members := d_nodes in
      let* n_HasBody := d_Bool in ret (NPackage {|
        Package_NodeBase := n_NodeBase; Package_Prefixes := n_Prefixes;
        Package_Ident := n_Ident; Package_IsLibrary := n_IsLibrary;
        Package_IsStandard := n_IsStandard; Package_Members := n_Members;
        Package_HasBody := n_HasBody |})
  | NPerformActionNode _ =>
      let* n_NodeBase := d_base in let* n_ActionRef := d_node in ret (NPerformActionNode {|
        PerformActionNode_NodeBase := n_NodeBase; PerformActionNode_ActionRef := n_ActionRef |})
  | NPrefixMetadata _ =>
      let* n_NodeBase := d_base in let* n_Ident := d_ident in
      let* n_Type := typed (pointer kindQualifiedName) in let* n_Body := d_nodes in
      let* n_HasBody := d_Bool in let* n_About := d_qnames in let* n_TypedBy := d_span in
      ret (NPrefixMetadata {|
        PrefixMetadata_NodeBase := n_NodeBase; PrefixMetadata_Ident := n_Ident;
        PrefixMetadata_Type := n_Type; PrefixMetadata_Body := n_Body;
        PrefixMetadata_HasBody := n_HasBody; PrefixMetadata_About := n_About;
        PrefixMetadata_TypedBy := n_TypedBy |})
  | NPseudostateNode _ =>
      let* n_NodeBase := d_base in let* n_Kind := d_Int in let* n_Name := d_String in
      let* n_Keyword := d_String in ret (NPseudostateNode {|
        PseudostateNode_NodeBase := n_NodeBase; PseudostateNode_Kind := n_Kind;
        PseudostateNode_Name := n_Name; PseudostateNode_Keyword := n_Keyword |})
  | NQualifiedName _ =>
      let* n_NodeBase := d_base in let* n_Global := d_Bool in let* n_Parts := d_parts in
      ret (NQualifiedName {|
        QualifiedName_NodeBase := n_NodeBase; QualifiedName_Global := n_Global;
        QualifiedName_Parts := n_Parts |})
  | NRelationship _ =>
      let* n_NodeBase := d_base in let* n_Kind := d_Int in let* n_Target := d_node in
      let* n_Conjugated := d_Bool in let* n_Multiplicity := typed (pointer kindMultiplicity) in
      let* n_TypedBy := d_span in ret (NRelationship {|
        Relationship_NodeBase := n_NodeBase; Relationship_Kind := n_Kind;
        Relationship_Target := n_Target; Relationship_Conjugated := n_Conjugated;
        Relationship_Multiplicity := n_Multiplicity; Relationship_TypedBy := n_TypedBy |})
  | NRelationshipMember _ =>
      let* n_NodeBase := d_base in let* n_Ident := d_ident in let* n_Kind := d_Int in
      let* n_Keyword := d_String in let* n_PrefixKeyword := d_String in
      let* n_Source := d_node in let* n_Target := d_node in let* n_Conjugated := d_Bool in
      let* n_Visibility := d_Int in let* n_Members := d_nodes in let* n_HasBody := d_Bool in
      ret (NRelationshipMember {|
        RelationshipMember_NodeBase := n_NodeBase; RelationshipMember_Ident := n_Ident;
        RelationshipMember_Kind := n_Kind; RelationshipMember_Keyword := n_Keyword;
        RelationshipMember_PrefixKeyword := n_PrefixKeyword;
        RelationshipMember_Source := n_Source; RelationshipMember_Target := n_Target;
        RelationshipMember_Conjugated := n_Conjugated;
        RelationshipMember_Visibility := n_Visibility; RelationshipMember_Members := n_Members;
        RelationshipMember_HasBody := n_HasBody |})
  | NRequireMember _ =>
      let* n_NodeBase := d_base in let* n_Prefixes := d_prefixes in
      let* n_Expression := d_node in let* n_Reference := typed (pointer kindQualifiedName) in
      let* n_Body := d_nodes in let* n_Ident := d_ident in let* n_DeclSpan := d_span in
      let* n_Relationships := d_rels in
      let* n_Multiplicity := typed (pointer kindMultiplicity) in let* n_Value := d_node in
      let* n_ValueOperatorSpan := d_span in let* n_ValueIsDefault := d_Bool in
      let* n_ValueIsInitial := d_Bool in let* n_HasBody := d_Bool in ret (NRequireMember {|
        RequireMember_NodeBase := n_NodeBase; RequireMember_Prefixes := n_Prefixes;
        RequireMember_Expression := n_Expression; RequireMember_Reference := n_Reference;
        RequireMember_Body := n_Body; RequireMember_Ident := n_Ident;
        RequireMember_DeclSpan := n_DeclSpan; RequireMember_Relationships := n_Relationships;
        RequireMember_Multiplicity := n_Multiplicity; RequireMember_Value := n_Value;
        RequireMember_ValueOperatorSpan := n_ValueOperatorSpan;
        RequireMember_ValueIsDefault := n_ValueIsDefault;
        RequireMember_ValueIsInitial := n_ValueIsInitial; RequireMember_HasBody := n_HasBody |})
  | NRootNamespace _ =>
      let* n_NodeBase := d_base in let* n_Members := d_nodes in
      let* n_UndefinedOperators := d_operatorExprs in let* n_TypedBy := d_Int in
      ret (NRootNamespace {|
        RootNamespace_NodeBase := n_NodeBase; RootNamespace_Members := n_Members;
        RootNamespace_UndefinedOperators := n_UndefinedOperators;
        RootNamespace_TypedBy := n_TypedBy |})
  | NSelectExpr _ =>
      let* n_NodeBase := d_base in let* n_Operand := d_node in let* n_Body := d_node in
      ret (NSelectExpr {|
        SelectExpr_NodeBase := n_NodeBase; SelectExpr_Operand := n_Operand;
        SelectExpr_Body := n_Body |})
  | NSendStatement _ =>
      let* n_NodeBase := d_base in let* n_Message := d_node in let* n_Target := d_node in
      let* n_IsVia := d_Bool in let* n_Receiver := d_node in let* n_Members := d_nodes in
      let* n_HasBody := d_Bool in ret (NSendStatement {|
        SendStatement_NodeBase := n_NodeBase; SendStatement_Message := n_Message;
        SendStatement_Target := n_Target; SendStatement_IsVia := n_IsVia;
        SendStatement_Receiver := n_Receiver; SendStatement_Members := n_Members;
        SendStatement_HasBody := n_HasBody |})
  | NSequenceExpr _ =>
      let* n_NodeBase := d_base in let* n_Elements := d_nodes in ret (NSequenceExpr {|
        SequenceExpr_NodeBase := n_NodeBase; SequenceExpr_Elements := n_Elements |})
  | NStateNode _ =>
      let* n_NodeBase := d_base in let* n_Name := d_String in let* n_Entry := d_nodes in
      let* n_Do := d_nodes in let* n_Exit := d_nodes in let* n_Substates := d_nodes in
      let* n_Regions := d_regions in ret (NStateNode {|
        StateNode_NodeBase := n_NodeBase; StateNode_Name := n_Name; StateNode_Entry := n_Entry;
        StateNode_Do := n_Do; StateNode_Exit := n_Exit; StateNode_Substates := n_Substates;
        StateNode_Regions := n_Regions |})
  | NStateRegion _ =>
      let* n_NodeBase := d_base in let* n_Name := d_String in let* n_States := d_nodes in
      ret (NStateRegion {|
        StateRegion_NodeBase := n_NodeBase; StateRegion_Name := n_Name;
        StateRegion_States := n_States |})
  | NSubjectMember _ =>
      let* n_NodeBase := d_base in let* n_Prefixes := d_prefixes in let* n_Ident := d_ident in
      let* n_TypeRef := typed (pointer kindQualifiedName) in
      let* n_Multiplicity := typed (pointer kindMultiplicity) in
      let* n_Relationships := d_rels in let* n_Body := d_nodes in
      let* n_BindingExpr := d_node in let* n_ValueOperatorSpan := d_span in
      let* n_ValueIsDefault := d_Bool in let* n_ValueIsInitial := d_Bool in
      let* n_HasBody := d_Bool in ret (NSubjectMember {|
        SubjectMember_NodeBase := n_NodeBase; SubjectMember_Prefixes := n_Prefixes;
        SubjectMember_Ident := n_Ident; SubjectMember_TypeRef := n_TypeRef;
        SubjectMember_Multiplicity := n_Multiplicity;
        SubjectMember_Relationships := n_Relationships; SubjectMember_Body := n_Body;
        SubjectMember_BindingExpr := n_BindingExpr;
        SubjectMember_ValueOperatorSpan := n_ValueOperatorSpan;
        SubjectMember_ValueIsDefault := n_ValueIsDefault;
        SubjectMember_ValueIsInitial := n_ValueIsInitial; SubjectMember_HasBody := n_HasBody |})
  | NSubstateMember _ =>
      let* n_NodeBase := d_base in let* n_Name := d_String in let* n_NameSpan := d_span in
      ret (NSubstateMember {|
        SubstateMember_NodeBase := n_NodeBase; SubstateMember_Name := n_Name;
        SubstateMember_NameSpan := n_NameSpan |})
  | NSuccessionEdge _ =>
      let* n_NodeBase := d_base in let* n_Source := typed (pointer kindQualifiedName) in
      let* n_Target := typed (pointer kindQualifiedName) in
      let* n_SourceMultiplicity := typed (pointer kindMultiplicity) in
      let* n_TargetMultiplicity := typed (pointer kindMultiplicity) in
      let* n_SourceMember := d_node in let* n_TargetMember := d_node in
      let* n_SourceImplied := d_Bool in let* n_TargetImplied := d_Bool in
      let* n_Members := d_nodes in let* n_HasBody := d_Bool in ret (NSuccessionEdge {|
        SuccessionEdge_NodeBase := n_NodeBase; SuccessionEdge_Source := n_Source;
        SuccessionEdge_Target := n_Target;
        SuccessionEdge_SourceMultiplicity := n_SourceMultiplicity;
        SuccessionEdge_TargetMultiplicity := n_TargetMultiplicity;
        SuccessionEdge_SourceMember := n_SourceMember;
        SuccessionEdge_TargetMember := n_TargetMember;
        SuccessionEdge_SourceImplied := n_SourceImplied;
        SuccessionEdge_TargetImplied := n_TargetImplied; SuccessionEdge_Members := n_Members;
        SuccessionEdge_HasBody := n_HasBody |})
  | NTerminateStatement _ =>
      let* n_NodeBase := d_base in let* n_Target := d_node in ret (NTerminateStatement {|
        TerminateStatement_NodeBase := n_NodeBase; TerminateStatement_Target := n_Target |})
  | NTextualRepresentation _ =>
      let* n_NodeBase := d_base in let* n_Ident := d_ident in let* n_Language := d_String in
      let* n_BodySpan := d_span in ret (NTextualRepresentation {|
        TextualRepresentation_NodeBase := n_NodeBase; TextualRepresentation_Ident := n_Ident;
        TextualRepresentation_Language := n_Language;
        TextualRepresentation_BodySpan := n_BodySpan |})
  | NTimeEvent _ =>
      let* n_NodeBase := d_base in let* n_Duration := d_node in let* n_Absolute := d_Bool in
      ret (NTimeEvent {|
        TimeEvent_NodeBase := n_NodeBase; TimeEvent_Duration := n_Duration;
        TimeEvent_Absolute := n_Absolute |})
  | NTransitionEdge _ =>
      let* n_NodeBase := d_base in let* n_Source := typed (pointer kindQualifiedName) in
      let* n_Target := typed (pointer kindQualifiedName) in
      let* n_Trigger := typed TriggerEvent in let* n_Guard := d_node in
      let* n_Effect := d_nodes in ret (NTransitionEdge {|
        TransitionEdge_NodeBase := n_NodeBase; TransitionEdge_Source := n_Source;
        TransitionEdge_Target := n_Target; TransitionEdge_Trigger := n_Trigger;
        TransitionEdge_Guard := n_Guard; TransitionEdge_Effect := n_Effect |})
  | NTransitionMember _ =>
      let* n_NodeBase := d_base in let* n_Name := d_String in let* n_NameSpan := d_span in
      let* n_Source := typed (pointer kindQualifiedName) in
      let* n_Target := typed (pointer kindQualifiedName) in let* n_Trigger := d_node in
      let* n_TriggerSpan := d_span in let* n_Guard := d_node in let* n_Effect := d_nodes in
      let* n_HasEffect := d_Bool in let* n_Via := typed (pointer kindQualifiedName) in
      let* n_TargetMultiplicity := typed (pointer kindMultiplicity) in
      let* n_Members := d_nodes in let* n_HasBody := d_Bool in let* n_IsSuccession := d_Bool in
      ret (NTransitionMember {|
        TransitionMember_NodeBase := n_NodeBase; TransitionMember_Name := n_Name;
        TransitionMember_NameSpan := n_NameSpan; TransitionMember_Source := n_Source;
        TransitionMember_Target := n_Target; TransitionMember_Trigger := n_Trigger;
        TransitionMember_TriggerSpan := n_TriggerSpan; TransitionMember_Guard := n_Guard;
        TransitionMember_Effect := n_Effect; TransitionMember_HasEffect := n_HasEffect;
        TransitionMember_Via := n_Via;
        TransitionMember_TargetMultiplicity := n_TargetMultiplicity;
        TransitionMember_Members := n_Members; TransitionMember_HasBody := n_HasBody;
        TransitionMember_IsSuccession := n_IsSuccession |})
  | NUsage _ =>
      let* n_NodeBase := d_base in let* n_Prefixes := d_prefixes in let* n_Kind := d_Int in
      let* n_Keyword := d_String in let* n_PrefixKeyword := d_String in
      let* n_IsAbstract := d_Bool in let* n_IsVariation := d_Bool in
      let* n_IsVariant := d_Bool in let* n_IsReference := d_Bool in
      let* n_IsVariable := d_Bool in let* n_IsAll := d_Bool in let* n_IsEnd := d_Bool in
      let* n_IsChain := d_Bool in let* n_IsConstant := d_Bool in let* n_IsEvent := d_Bool in
      let* n_IsIndividual := d_Bool in let* n_IndividualKeyword := d_span in
      let* n_Portion := d_Int in let* n_IsAccept := d_Bool in
      let* n_IsBodyParameter := d_Bool in let* n_IsActionNode := d_Bool in
      let* n_IsTerminate := d_Bool in let* n_IsResult := d_Bool in
      let* n_IsNegated := d_Bool in let* n_DeclaresRequirement := d_Bool in
      let* n_Visibility := d_Int in let* n_Direction := d_Int in
      let* n_IsComposite := d_Bool in let* n_IsPortion := d_Bool in
      let* n_IsParallel := d_Bool in let* n_IsDerived := d_Bool in
      let* n_IsOrdered := d_Bool in let* n_IsNonunique := d_Bool in let* n_Ident := d_ident in
      let* n_Relationships := d_rels in
      let* n_Multiplicity := typed (pointer kindMultiplicity) in
      let* n_CrossFeature := typed (pointer kindCrossFeatureMember) in
      let* n_Terminates := typed (pointer kindTerminateStatement) in let* n_Value := d_node in
      let* n_ValueOperatorSpan := d_span in let* n_ValueIsDefault := d_Bool in
      let* n_ValueIsInitial := d_Bool in let* n_Members := d_nodes in
      let* n_HasBody := d_Bool in let* n_ConnectorEnds := d_ends in
      let* n_FlowEnds := typed (pointer kindFlowEnds) in ret (NUsage {|
        Usage_NodeBase := n_NodeBase; Usage_Prefixes := n_Prefixes; Usage_Kind := n_Kind;
        Usage_Keyword := n_Keyword; Usage_PrefixKeyword := n_PrefixKeyword;
        Usage_IsAbstract := n_IsAbstract; Usage_IsVariation := n_IsVariation;
        Usage_IsVariant := n_IsVariant; Usage_IsReference := n_IsReference;
        Usage_IsVariable := n_IsVariable; Usage_IsAll := n_IsAll; Usage_IsEnd := n_IsEnd;
        Usage_IsChain := n_IsChain; Usage_IsConstant := n_IsConstant;
        Usage_IsEvent := n_IsEvent; Usage_IsIndividual := n_IsIndividual;
        Usage_IndividualKeyword := n_IndividualKeyword; Usage_Portion := n_Portion;
        Usage_IsAccept := n_IsAccept; Usage_IsBodyParameter := n_IsBodyParameter;
        Usage_IsActionNode := n_IsActionNode; Usage_IsTerminate := n_IsTerminate;
        Usage_Terminates := n_Terminates; Usage_IsResult := n_IsResult;
        Usage_IsNegated := n_IsNegated; Usage_DeclaresRequirement := n_DeclaresRequirement;
        Usage_Visibility := n_Visibility; Usage_Direction := n_Direction;
        Usage_IsComposite := n_IsComposite; Usage_IsPortion := n_IsPortion;
        Usage_IsParallel := n_IsParallel; Usage_IsDerived := n_IsDerived;
        Usage_IsOrdered := n_IsOrdered; Usage_IsNonunique := n_IsNonunique;
        Usage_Ident := n_Ident; Usage_Relationships := n_Relationships;
        Usage_Multiplicity := n_Multiplicity; Usage_CrossFeature := n_CrossFeature;
        Usage_Value := n_Value; Usage_ValueOperatorSpan := n_ValueOperatorSpan;
        Usage_ValueIsDefault := n_ValueIsDefault; Usage_ValueIsInitial := n_ValueIsInitial;
        Usage_Members := n_Members; Usage_HasBody := n_HasBody;
        Usage_ConnectorEnds := n_ConnectorEnds; Usage_FlowEnds := n_FlowEnds |})
  | NWhileLoopActionNode _ =>
      let* n_NodeBase := d_base in let* n_Kind := d_Int in let* n_Condition := d_node in
      let* n_Body := d_nodes in let* n_Until := d_node in let* n_Variable := d_ident in
      let* n_VariableRelationships := d_rels in let* n_Collection := d_node in
      ret (NWhileLoopActionNode {|
        WhileLoopActionNode_NodeBase := n_NodeBase; WhileLoopActionNode_Kind := n_Kind;
        WhileLoopActionNode_Condition := n_Condition; WhileLoopActionNode_Body := n_Body;
        WhileLoopActionNode_Until := n_Until; WhileLoopActionNode_Variable := n_Variable;
        WhileLoopActionNode_VariableRelationships := n_VariableRelationships;
        WhileLoopActionNode_Collection := n_Collection |})
  | Foreign _ => ret n
  end.
End references.

(** *** The table *)

(** A block of [count] nodes of kind [k] behind the heap, and their addresses behind
    the table. *)
Definition alloc (k : kind) (count : nat) (h : list Node) (out : list ref) : list Node * list ref :=
  match zero_node k with
  | Some z => (h ++ repeat z count, out ++ map Some (List.seq (length h) count))
  | None => (h, out)
  end.

Fixpoint alloc_all (ks : list kind) (counts : list Z) (h : list Node) (out : list ref) : list Node * list ref :=
  match ks, counts with
  | k :: ks', c :: counts' =>
      let '(h, out) := alloc k (Z.to_nat c) h out in alloc_all ks' counts' h out
  | _, _ => (h, out)
  end.

(** The loop over [counts], with [total]. *)
Fixpoint read_counts (n : nat) (total : Z) (r : Reader) : option (list Z * Z * Reader) :=
  match n with
  | O => Some ([], total, r)
  | S n' =>
      '(c, r) ← Reader_Len r;
      '(cs, total, r) ← read_counts n' (int64 (total + c)) r;
      Some (c :: cs, total, r)
  end.

Definition with_head (d : Decoder) (r : Reader) : Decoder :=
  {| head := r; fields := d.(fields); table := d.(table); d_heap := d.(d_heap); d_last := d.(d_last) |}.

(** [make] panics when the capacity [total+1] is below the length. *)
Definition Allocate (d : Decoder) : option Decoder :=
  '(n, r) ← Reader_Len d.(head);
  if negb (n =? Z.of_nat (length kinds)) then Some (with_head d (fail r (bs "node kind count")))
  else
    '(counts, total, r) ← read_counts (length kinds) 0 r;
    '(sub, r) ← Reader_Section r;
    let d := {| head := r; fields := Some sub; table := d.(table); d_heap := d.(d_heap);
                d_last := d.(d_last) |} in
    match r.(err) with
    | Some _ => Some d
    | None =>
        if int64 (total + 1) <? 1 then None
        else
          let '(h, out) := alloc_all kinds counts d.(d_heap) [None] in
          Some {| head := r; fields := Some sub; table := out; d_heap := h; d_last := d.(d_last) |}
    end.

(** The loop of [Fill] over [d.table[1:]]; an error ends it. *)
Fixpoint fill (tbl : list ref) (ps : list ref) (h : list Node) (last : Z) (r : Reader) : option (list Node * Z * Reader) :=
  match ps with
  | [] => Some (h, last, if Done r then r else fail r (bs "bytes after the node fields"))
  | p :: ps' =>
      p ← p;
      n ← h !! p;
      '((n, last), r) ← decodeFields tbl h n last r;
      let h := <[p := n]> h in
      match r.(err) with
      | Some _ => Some (h, last, r)
      | None => fill tbl ps' h last r
      end
  end.

Definition Fill (d : Decoder) : option Decoder :=
  match d.(fields), d.(table) with
  | Some r, _ :: ps =>
      '(h, last, r) ← fill d.(table) ps d.(d_heap) d.(d_last) r;
      Some {| head := d.(head); fields := Some r; table := d.(table); d_heap := h; d_last := last |}
  | _, _ => Some d
  end.

Definition Decode (d : Decoder) : option Decoder := d ← Allocate d; Fill d.

Definition Err (d : Decoder) : option error :=
  match d.(head).(err), d.(fields) with
  | Some e, _ => Some e
  | None, None => None
  | None, Some r => r.(err)
  end.

Definition Decoder_Node (d : Decoder) (id : Z) : ref * bool := lookup_node d.(table) id.
