(* ===== verification/AstWalk.v ===== *)
(** * Collecting the nodes of a tree: properties

    Writing the fields of a node does to the tables of an encoder what visiting the
    node's references does ([encodeFields_covers]); so the collecting pass is a
    depth-first walk, which marks the nodes reachable from its roots and no others. *)
From stdpp Require Import gmap.
From S2P Require Import Prelude Machine Pack Ast AstCodec.
Local Open Scope codec_scope.

Create HintDb covers.

(** ** What a step does beside writing *)

(** Two encoders that differ in what they wrote only. *)
Definition quiet (e1 e2 : Encoder) : Prop :=
  e_ids e1 = e_ids e2 /\ byKind e1 = byKind e2 /\ collecting e1 = collecting e2 /\ e_err e1 = e_err e2.

#[export] Instance quiet_equivalence : Equivalence quiet.
Proof. unfold quiet. split; [done|intros ?? (?&?&?&?)|intros ??? (?&?&?&?) (?&?&?&?)]; split_and!; congruence. Qed.

Definition quietly : option Encoder -> option Encoder -> Prop := option_Forall2 quiet.

#[export] Instance quietly_equivalence : Equivalence quietly.
Proof.
  unfold quietly. split.
  - intros [e|]; constructor. done.
  - intros ?? H. inversion H; subst; constructor. by symmetry.
  - intros ??? H1 H2. inversion H1; subst; inversion H2; subst; constructor. by etrans.
Qed.

Lemma each_app {A} (f : A -> step) l1 l2 e : each f (l1 ++ l2) e = (each f l1;; each f l2) e.
Proof.
  revert e. induction l1 as [|x l1 IH]; intros e; [done|]. cbn. unfold seq.
  destruct (f x e) as [e'|]; [|done]. cbn. apply IH.
Qed.

Section covers.
Variable node : ref -> step.
Hypothesis node_quiet : forall r e1 e2, quiet e1 e2 -> quietly (node r e1) (node r e2).

(** [s] does to the tables what [node] does along [l]. *)
Definition covers (s : step) (l : list ref) : Prop :=
  forall e1 e2, quiet e1 e2 -> quietly (s e1) (each node l e2).

Lemma covers_seq s1 s2 l1 l2 : covers s1 l1 -> covers s2 l2 -> covers (s1;; s2) (l1 ++ l2).
Proof.
  intros H1 H2 e1 e2 Hq. rewrite each_app. unfold seq. specialize (H1 _ _ Hq).
  inversion H1 as [e1' e2' Hq' E1 E2|E1 E2]; cbn; [by apply H2|constructor].
Qed.

Lemma covers_node r : covers (node r) [r].
Proof.
  intros e1 e2 Hq. cbn. unfold seq, skip.
  destruct (node_quiet r e1 e2 Hq); by constructor.
Qed.

Lemma covers_writing f : covers (writing f) [].
Proof. intros e1 e2 Hq. by constructor. Qed.

Hint Extern 2 (covers _ _) => apply covers_writing : covers.

Lemma covers_span s : covers (span s) [].
Proof. intros e1 e2 Hq. by constructor. Qed.

Lemma covers_each {A} (f : A -> step) (g : A -> list ref) l :
  (forall x, covers (f x) (g x)) -> covers (each f l) (concat (map g l)).
Proof.
  intros H. induction l as [|x l IH]; cbn [each map concat]; [intros e1 e2 Hq; by constructor|].
  by apply covers_seq.
Qed.

Lemma covers_none {A} (f : A -> step) l : (forall x, covers (f x) []) -> covers (each f l) [].
Proof.
  intros H. replace (@nil ref) with (concat (map (fun _ : A => @nil ref) l)); [by apply covers_each|].
  induction l; [done|]. by cbn.
Qed.

Lemma covers_eq s l l' : covers s l -> l = l' -> covers s l'.
Proof. by intros ? <-. Qed.

Hint Resolve covers_span : covers.

(** A step after one that writes only. *)
Lemma covers_after s1 s2 l : covers s1 [] -> covers s2 l -> covers (s1;; s2) l.
Proof. apply (covers_seq s1 s2 []). Qed.

Lemma covers_nodes ns : covers (nodes node ns) ns.
Proof using node_quiet.
  apply covers_after; [apply covers_writing|].
  eapply covers_eq; [apply (covers_each node (fun r => [r])), covers_node|].
  induction ns; [done|]. cbn. by f_equal.
Qed.

Lemma covers_trivia ts : covers (trivia ts) [].
Proof.
  apply covers_after; [apply covers_writing|]. apply covers_none. intros t.
  apply covers_after; auto with covers nocore.
Qed.

Lemma covers_base b : covers (base b) [].
Proof. apply covers_after; [|apply covers_after]; auto using covers_trivia with covers. Qed.

Lemma covers_ident i : covers (ident i) [].
Proof. do 3 (apply covers_after; [auto with covers nocore|]). apply covers_span. Qed.

Lemma covers_segments l : covers (segments l) [].
Proof.
  apply covers_after; [apply covers_writing|]. apply covers_none. intros s.
  do 2 (apply covers_after; [auto with covers nocore|]). apply covers_writing.
Qed.

Lemma covers_namedArgs l : covers (namedArgs node l) (concat (map arg_refs l)).
Proof using node_quiet.
  apply covers_after; [apply covers_writing|]. apply covers_each. intros a.
  apply (covers_seq _ _ [_] [_]); apply covers_node.
Qed.

Hint Resolve covers_base covers_ident covers_segments covers_node
  covers_nodes covers_namedArgs : covers.
Ltac covers_steps :=
  lazymatch goal with
  | |- covers (_;; _) _ => eapply covers_seq; [eauto with covers nocore|covers_steps]
  | |- _ => eauto with covers nocore
  end.
Ltac covers := eapply covers_eq; [covers_steps|cbn [app]; rewrite ?app_nil_r; reflexivity].

Lemma covers_params l : covers (params node l) (concat (map param_refs l)).
Proof using node_quiet.
  apply covers_after; [apply covers_writing|]. apply covers_each. intros p.
  unfold rels. fold (nodes node (BodyParam_Relationships p)). unfold param_refs. covers.
Qed.
Hint Resolve covers_params : covers.

(** The fields of a node, of any of the types. *)
Lemma encodeFields_covers n : covers (encodeFields node n) (refs n).
Proof using node_quiet.
  destruct n as [n|n|n|n|n|n|n|n|n|n|n|n|n|n|n|n|n|n|n|n|n|n|n|n|n|n|n|n|n|n|n|n|n|n|n|n|n|n
    |n|n|n|n|n|n|n|n|n|n|n|n|n|n|n|n|n|n|n|n|n|n|n|n|n|n|n|n|n|n|n|n|n|n|n|n|n|n|T];
  cbn [encodeFields refs]; [covers..|]. intros e1 e2 Hq. by constructor.
Qed.
End covers.

(** ** Reachability *)

Section heap.
Variable heap : list Node.

Definition edge (p q : nat) : Prop := exists n, heap !! p = Some n /\ Some q ∈ refs n.
Definition reaches : nat -> nat -> Prop := rtc edge.
Definition reachable (roots : list ref) (p : nat) : Prop := exists q, Some q ∈ roots /\ reaches q p.

(** A node of a type the codec knows, or does not. *)
Definition known (p : nat) : Prop := exists n, heap !! p = Some n /\ kindOf n <> numKinds.
Definition unknown (p : nat) (T : bytes) : Prop := heap !! p = Some (Foreign T).

Definition in_heap (rs : list ref) : Prop := forall p, Some p ∈ rs -> is_Some (heap !! p).
(** No reference dangles. *)
Definition closed : Prop := forall p n, heap !! p = Some n -> in_heap (refs n).

Lemma kind_foreign n : kindOf n = numKinds <-> exists T, n = Foreign T.
Proof. split; [destruct n; try done; eauto|by intros [T ->]]. Qed.

Lemma kind_number_bound n : kindOf n <> numKinds -> kind_number (kindOf n) < length kinds.
Proof. intros H. apply Nat.ltb_lt. destruct (kindOf n); done. Qed.

Lemma edge_known p q : edge p q -> known p.
Proof.
  intros (n & Hp & Hq). exists n. split; [done|]. intros [T ->]%kind_foreign. by apply not_elem_of_nil in Hq.
Qed.

(** *** The tables of an encoder that collects *)

Abbreviation seen e := (dom (D := gset nat) (e_ids e)).

Record marks_ok (e : Encoder) : Prop := {
  ok_collecting : collecting e = true;
  ok_length : length (byKind e) = length kinds;
  ok_nodup : NoDup (concat (byKind e));
  ok_seen : forall p, p ∈ concat (byKind e) <-> p ∈ seen e;
  ok_kind : forall i l p, byKind e !! i = Some l -> p ∈ l ->
    exists n, heap !! p = Some n /\ kindOf n <> numKinds /\ kind_number (kindOf n) = i;
}.

(** What visiting [rs] does: the marks grow by nodes reachable from [rs], and
    everything next to them is marked; an unknown node is what the error reports. *)
Record walked (rs : list ref) (e e' : Encoder) : Prop := {
  w_grows : seen e ⊆ seen e';
  w_closed : forall p q, p ∈ seen e' -> p ∉ seen e -> edge p q -> known q -> q ∈ seen e';
  w_roots : forall q, Some q ∈ rs -> known q -> q ∈ seen e';
  w_sound : forall p, p ∈ seen e' -> p ∉ seen e -> known p /\ reachable rs p;
  w_keeps : e_err e <> None -> e_err e' = e_err e;
  w_blames : forall T, e_err e = None -> e_err e' = Some (ErrUnknownNode T) ->
    exists q, reachable rs q /\ unknown q T;
  w_clean : forall q T, e_err e' = None -> unknown q T ->
    (Some q ∉ rs) /\ forall p, p ∈ seen e' -> p ∉ seen e -> ~ edge p q;
}.

Lemma marks_same e1 e2 :
  e_ids e1 = e_ids e2 -> byKind e1 = byKind e2 -> collecting e1 = collecting e2 -> marks_ok e1 -> marks_ok e2.
Proof. intros E1 E2 E3 [H1 H2 H3 H4 H5]. split; rewrite <- ?E1, <- ?E2, <- ?E3; done. Qed.

Lemma marks_quiet e1 e2 : quiet e1 e2 -> marks_ok e1 -> marks_ok e2.
Proof. intros (E1 & E2 & E3 & E4). by apply marks_same. Qed.

Lemma walked_quiet rs e e1 e2 : quiet e1 e2 -> walked rs e e1 -> walked rs e e2.
Proof.
  intros (E1 & E2 & E3 & E4) [H1 H2 H3 H4 H5 H6 H7].
  split; rewrite <- ?E1, <- ?E4; done.
Qed.

Lemma reachable_app_l rs rs' p : reachable rs p -> reachable (rs ++ rs') p.
Proof. intros (q & Hq & H). exists q. split; [|done]. apply elem_of_app. by left. Qed.
Lemma reachable_app_r rs rs' p : reachable rs' p -> reachable (rs ++ rs') p.
Proof. intros (q & Hq & H). exists q. split; [|done]. apply elem_of_app. by right. Qed.

Lemma walked_nothing e : walked [] e e.
Proof.
  split; try done.
  - intros q Hq. by apply not_elem_of_nil in Hq.
  - congruence.
  - intros q T _ _. split; [apply not_elem_of_nil|done].
Qed.

(** References that mark nothing: nil, and to a node marked before. *)
Lemma walked_none e : walked [None] e e.
Proof.
  destruct (walked_nothing e) as [? ? ? ? ? ? ?]. split; try done; [|congruence|].
  - intros q Hq%list_elem_of_singleton. done.
  - intros q T _ _. split; [by intros Hq%list_elem_of_singleton|done].
Qed.

Lemma walked_seen e p : known p -> p ∈ seen e -> walked [Some p] e e.
Proof.
  intros (n & Hp & Hk) Hs. destruct (walked_nothing e) as [? ? ? ? ? ? ?]. split; try done; [|congruence|].
  - intros q Hq%list_elem_of_singleton. by injection Hq as ->.
  - intros q T _ Hq. split; [|done]. intros He%list_elem_of_singleton. injection He as ->.
    unfold unknown in Hq. rewrite Hp in Hq. by injection Hq as ->.
Qed.

Lemma walked_app rs rs' e e1 e2 : walked rs e e1 -> walked rs' e1 e2 -> walked (rs ++ rs') e e2.
Proof.
  intros [G1 C1 R1 S1 K1 B1 N1] [G2 C2 R2 S2 K2 B2 N2].
  assert (Hkeep : e_err e2 = None -> e_err e1 = None).
  { intros H. destruct (e_err e1) eqn:E; [|done]. rewrite K2 in H by congruence. congruence. }
  split.
  - set_solver.
  - intros p q Hp Hn He Hk. destruct (decide (p ∈ seen e1)); [|by eapply C2]. apply G2. by eapply C1.
  - intros q [Hq|Hq]%elem_of_app Hk; [apply G2; by apply R1|by apply R2].
  - intros p Hp Hn. destruct (decide (p ∈ seen e1)) as [H|H].
    + destruct (S1 p H Hn). auto using reachable_app_l.
    + destruct (S2 p Hp H). auto using reachable_app_r.
  - intros H. rewrite K2; rewrite K1; done.
  - intros T Hn H2. destruct (e_err e1) as [[T1]|] eqn:E1.
    + rewrite K2 in H2 by done. injection H2 as ->.
      destruct (B1 T Hn eq_refl) as (q & ? & ?). eauto using reachable_app_l.
    + destruct (B2 T eq_refl H2) as (q & ? & ?). eauto using reachable_app_r.
  - intros q T Hn Hq. destruct (N1 q T (Hkeep Hn) Hq) as [A1 A2]. destruct (N2 q T Hn Hq) as [A3 A4].
    split; [rewrite elem_of_app; tauto|]. intros p Hp Hs.
    destruct (decide (p ∈ seen e1)); [by apply A2|by apply A4].
Qed.

(** *** One node *)

Lemma concat_alter (L : list (list nat)) i p q :
  i < length L -> p ∈ concat (alter (fun l => l ++ [q]) i L) <-> p = q \/ p ∈ concat L.
Proof.
  revert i. induction L as [|l L IH]; intros [|i] Hi; cbn in Hi; try lia.
  - cbn. rewrite !elem_of_app, list_elem_of_singleton. tauto.
  - cbn. rewrite !elem_of_app. change (p ∈ concat (alter (fun l => l ++ [q]) i L)) with
      (p ∈ concat (alter (fun l => l ++ [q]) i L)). rewrite IH by lia. tauto.
Qed.

Lemma concat_alter_nodup (L : list (list nat)) i q :
  i < length L -> NoDup (concat L) -> q ∉ concat L -> NoDup (concat (alter (fun l => l ++ [q]) i L)).
Proof.
  revert i. induction L as [|l L IH]; intros [|i] Hi Hn Hq; cbn in Hi; try lia; cbn in *;
    rewrite elem_of_app in Hq; apply NoDup_app in Hn as (N1 & N2 & N3).
  - rewrite <- app_assoc. apply NoDup_app. split_and!; [done| |].
    + intros x Hx [H|H]%elem_of_app; [|by eapply N2].
      apply list_elem_of_singleton in H as ->. tauto.
    + cbn. constructor; tauto.
  - apply NoDup_app. split_and!; [done| |apply IH; [lia|done|tauto]].
    intros x Hx H. apply concat_alter in H as [->|H]; [tauto|by eapply N2|lia].
Qed.

Lemma marks_record e p n :
  marks_ok e -> heap !! p = Some n -> kindOf n <> numKinds -> p ∉ seen e ->
  marks_ok (record_node e p (kindOf n)).
Proof.
  intros [H1 H2 H3 H4 H5] Hp Hk Hn. pose proof (kind_number_bound n Hk) as Hb.
  split; cbn [record_node collecting byKind e_ids].
  - done.
  - by rewrite length_alter.
  - apply concat_alter_nodup; [lia|done|]. by rewrite H4.
  - intros q. rewrite concat_alter by lia. rewrite dom_insert_L, H4. set_solver.
  - intros i l q Hi Hq. destruct (decide (i = kind_number (kindOf n))) as [->|Hne].
    + rewrite list_lookup_alter_eq in Hi. destruct (byKind e !! _) as [l0|] eqn:E; [|done].
      cbn in Hi. injection Hi as <-. apply elem_of_app in Hq as [Hq|Hq]; [by eapply H5|].
      apply list_elem_of_singleton in Hq as ->. eauto.
    + rewrite list_lookup_alter_ne in Hi by done. by eapply H5.
Qed.

Lemma walked_node e e' p n :
  heap !! p = Some n -> kindOf n <> numKinds -> p ∉ seen e ->
  walked (refs n) (record_node e p (kindOf n)) e' -> walked [Some p] e e'.
Proof.
  intros Hp Hk Hn [G C R S K B N]. cbn [record_node e_ids e_err] in *. rewrite dom_insert_L in *.
  assert (Hme : seen e' = seen e' ∪ {[p]}) by set_solver.
  assert (Hcase : forall x, x ∈ seen e' -> x ∉ seen e -> x = p \/ x ∉ {[p]} ∪ seen e).
  { intros x Hx Hx'. destruct (decide (x = p)); [by left|right; set_solver]. }
  assert (Hvia : forall x, reachable (refs n) x -> reachable [Some p] x).
  { intros x (q & Hq & H). exists p. split; [by left|]. eapply rtc_l; [|done]. exists n. done. }
  assert (Hedge : forall q, edge p q -> Some q ∈ refs n).
  { intros q (n' & E & Hq). congruence. }
  split.
  - set_solver.
  - intros x q Hx Hs He Hkq. destruct (Hcase x Hx Hs) as [->|Hx']; [apply R; auto|by eapply C].
  - intros q Hq%list_elem_of_singleton _. injection Hq as ->. set_solver.
  - intros x Hx Hs. destruct (Hcase x Hx Hs) as [->|Hx'].
    + split; [by exists n|]. exists p. split; [by left|constructor].
    + destruct (S x Hx Hx'). auto.
  - done.
  - intros T H1 H2. destruct (B T H1 H2) as (q & ? & ?). eauto.
  - intros q T H1 H2. destruct (N q T H1 H2) as [A1 A2]. split.
    + intros Hq%list_elem_of_singleton. injection Hq as ->. unfold unknown in H2. rewrite Hp in H2. by injection H2 as ->.
    + intros x Hx Hs. destruct (Hcase x Hx Hs) as [->|Hx']; [intros He; by apply A1, Hedge|by apply A2].
Qed.

(** ** The walk *)

Lemma node_quiet fuel r e1 e2 : quiet e1 e2 -> quietly (node heap fuel r e1) (node heap fuel r e2).
Proof.
  revert r e1 e2. induction fuel as [|fuel IH]; intros [p|] e1 e2 Hq; cbn [node];
    try by (constructor; destruct Hq as (? & ? & ? & ?)).
  all: destruct (heap !! p) as [n|]; [|constructor]; cbn [mbind option_bind].
  all: assert (Hq' := Hq); destruct Hq' as (E1 & E2 & E3 & E4); rewrite E1, E3, E4.
  all: destruct (bool_decide _); [constructor; destruct (is_None _); split_and!; done|].
  all: destruct (negb _); [by constructor|]; destruct (e_ids e2 !! p); [by constructor|].
  { constructor. }
  assert (Hr : quiet (record_node e1 p (kindOf n)) (record_node e2 p (kindOf n))).
  { unfold quiet, record_node. cbn. by rewrite E1, E2, E3, E4. }
  etrans; [by apply (encodeFields_covers _ IH n _ (record_node e2 p (kindOf n)))|].
  symmetry. by apply (encodeFields_covers _ IH).
Qed.

(** The nodes a walk has not marked. *)
Definition unseen (e : Encoder) : nat := length heap - base.size (seen e).

Lemma seen_in_heap e : marks_ok e -> seen e ⊆ set_seq 0 (length heap).
Proof.
  intros H p Hp. apply elem_of_set_seq. split; [lia|].
  apply (ok_seen e H) in Hp. apply list_elem_of_In, in_concat in Hp as (l & Hl & Hp).
  apply list_elem_of_In, list_elem_of_lookup in Hl as [i Hi].
  destruct (ok_kind e H i l p Hi) as (n & Hn & _); [by apply list_elem_of_In|].
  by eapply lookup_lt_Some.
Qed.

Lemma size_set_seq (k : nat) : base.size (set_seq (C := gset nat) 0 k) = k.
Proof.
  induction k as [|k IH]; [done|].
  rewrite set_seq_S_end_union_L, size_union, IH, size_singleton; [lia|].
  intros x Hx%elem_of_singleton Hx'%elem_of_set_seq. lia.
Qed.

Lemma unseen_record e p k : marks_ok e -> p < length heap -> p ∉ seen e ->
  unseen (record_node e p k) < unseen e.
Proof.
  intros H Hp Hn. unfold unseen, record_node. cbn [e_ids]. rewrite dom_insert_L.
  rewrite size_union, size_singleton by set_solver.
  assert (Hs : {[p]} ∪ seen e ⊆ set_seq 0 (length heap)).
  { pose proof (seen_in_heap e H). apply union_subseteq. split; [|done].
    intros x ->%elem_of_singleton. apply elem_of_set_seq. lia. }
  apply subseteq_size in Hs. rewrite size_set_seq, size_union, size_singleton in Hs by set_solver. lia.
Qed.

Lemma unseen_grows e e' : seen e ⊆ seen e' -> unseen e' <= unseen e.
Proof. intros H%subseteq_size. unfold unseen. lia. Qed.

Lemma walked_unknown e n p :
  heap !! p = Some n -> kindOf n = numKinds ->
  walked [Some p] e (if is_None (e_err e) then with_err e (ErrUnknownNode (type_of n)) else e).
Proof.
  intros Hp Hk. apply kind_foreign in Hk as [T ->]. cbn [type_of].
  assert (Hself : unknown p T /\ reachable [Some p] p).
  { split; [done|]. exists p. split; [by left|constructor]. }
  destruct (e_err e) as [x|] eqn:E; cbn [is_None]; split; cbn [with_err e_ids e_err]; try done.
  all: try (intros q Hq%list_elem_of_singleton; injection Hq as ->; intros (n & H1 & H2);
            rewrite Hp in H1; injection H1 as <-; by destruct H2).
  all: try congruence.
  intros T' _ [= ->]. exists p. tauto.
Qed.

(** What the walk of any references does, where that of the nodes below a fresh
    one does. *)
Definition walks_from (fuel : nat) : Prop := forall rs e,
  in_heap rs -> marks_ok e -> unseen e < fuel ->
  exists e', each (node heap fuel) rs e = Some e' /\ marks_ok e' /\ walked rs e e'.

Lemma walk_fresh fuel e p n :
  closed -> walks_from fuel -> marks_ok e -> unseen e < S fuel ->
  heap !! p = Some n -> kindOf n <> numKinds -> p ∉ seen e ->
  exists e', encodeFields (node heap fuel) n (record_node e p (kindOf n)) = Some e'
    /\ marks_ok e' /\ walked [Some p] e e'.
Proof.
  intros Hc Hw He Hf Hp Hk Hn.
  pose proof (unseen_record e p (kindOf n) He (lookup_lt_Some _ _ _ Hp) Hn) as Hu.
  destruct (Hw (refs n) (record_node e p (kindOf n))) as (e1 & E1 & M1 & W1);
    [by apply (Hc p)|by apply marks_record|lia|].
  pose proof (encodeFields_covers _ (node_quiet fuel) n _ _ (reflexivity (record_node e p (kindOf n)))) as Hcov.
  rewrite E1 in Hcov. inversion Hcov as [e' e1' Hq E E'|]; subst.
  exists e'. split; [done|]. symmetry in Hq. split; [by eapply marks_quiet|].
  apply (walked_node e e' p n Hp Hk Hn). by eapply walked_quiet.
Qed.

Lemma walk_one fuel e r :
  closed -> (forall f, fuel = S f -> walks_from f) -> in_heap [r] -> marks_ok e -> unseen e < fuel ->
  exists e', node heap fuel r e = Some e' /\ marks_ok e' /\ walked [r] e e'.
Proof.
  intros Hc Hw Hr He Hf. destruct fuel as [|fuel]; [lia|]. specialize (Hw fuel eq_refl).
  destruct r as [p|]; cbn [node].
  2:{ exists (with_writer e (Writer_Uint (ew e) 0)).
      split_and!; [done|by eapply (marks_quiet e)|by apply (walked_quiet _ _ e), walked_none]. }
  destruct (Hr p) as [n Hn]; [by left|]. rewrite Hn. cbn [mbind option_bind].
  case_bool_decide as Hk.
  { pose proof (walked_unknown e n p Hn Hk) as Hu.
    set (e1 := if is_None (e_err e) then _ else _) in *. exists (with_writer e1 (Writer_Uint (ew e1) 0)).
    split_and!; [done| |by apply (walked_quiet _ _ e1)].
    apply (marks_same e); try (unfold e1; by destruct (is_None _)); done. }
  rewrite (ok_collecting e He). cbn [negb].
  destruct (e_ids e !! p) as [x|] eqn:E.
  { exists e. split_and!; [done..|]. apply walked_seen; [by exists n|]. by apply elem_of_dom. }
  apply walk_fresh; try done. by apply not_elem_of_dom.
Qed.

Lemma walks fuel : closed -> walks_from fuel.
Proof.
  intros Hc. induction fuel as [|fuel IHf]; intros rs e Hrs He Hf; [lia|].
  revert e He Hf. induction rs as [|r rs IHr]; intros e He Hf.
  { exists e. split_and!; [done..|apply walked_nothing]. }
  destruct (walk_one (S fuel) e r Hc) as (e1 & E1 & M1 & W1); try done.
  { by intros f [= <-]. }
  { intros p Hp%list_elem_of_singleton. apply Hrs. subst r. by left. }
  pose proof (unseen_grows _ _ (w_grows _ _ _ W1)).
  destruct IHr with (e := e1) as (e2 & E2 & M2 & W2); [|done|lia|].
  { intros p Hp. apply Hrs. by right. }
  exists e2. cbn [each]. unfold seq. rewrite E1. cbn [mbind option_bind].
  split_and!; [done..|]. by apply (walked_app [r] rs e e1).
Qed.

(** A walk from no marks finds what is reachable, and no more. *)
Lemma walked_reachable rs e e' p :
  seen e = ∅ -> walked rs e e' -> (p ∈ seen e' <-> known p /\ reachable rs p).
Proof.
  intros He W. assert (Hn : forall q, q ∉ seen e) by (rewrite He; set_solver). split.
  - intros Hp. by apply (w_sound _ _ _ W).
  - intros (Hk & q & Hq & Hr). assert (Hkq : known q).
    { destruct Hr as [|q x p Hqx _]; [done|]. by eapply edge_known. }
    apply (w_roots _ _ _ W) in Hq; [|done]. clear Hkq.
    induction Hr as [|q x p Hqx Hr IH]; [done|]. apply IH; [done|].
    apply (w_closed _ _ _ W q); [done..|]. destruct Hr as [|x y p Hxy _]; [done|]. by eapply edge_known.
Qed.

(** It ends in an error exactly if an unknown node is reachable, and names one. *)
Lemma walked_err rs e e' :
  seen e = ∅ -> e_err e = None -> walked rs e e' ->
  match e_err e' with
  | None => forall q T, reachable rs q -> ~ unknown q T
  | Some (ErrUnknownNode T) => exists q, reachable rs q /\ unknown q T
  end.
Proof.
  intros He Hn W. destruct (e_err e') as [[T]|] eqn:E; [by apply (w_blames _ _ _ W)|].
  intros q T (q0 & Hq0 & Hr) Hq. destruct (w_clean _ _ _ W q T E Hq) as [A1 A2].
  apply rtc_inv_r in Hr as [<-|(x & Hx & He')]; [done|].
  apply (A2 x); [|by rewrite He|done]. apply (walked_reachable rs e); [done|done|].
  split; [by eapply edge_known|by exists q0].
Qed.

(** A walk on a new encoder. *)
Definition fresh (e : Encoder) : Prop :=
  e_ids e = ∅ /\ byKind e = map (fun _ => []) kinds /\ collecting e = true /\ e_err e = None.

Lemma fresh_marks e : fresh e -> marks_ok e.
Proof.
  assert (Hc : concat (map (fun _ : kind => @nil nat) kinds) = []) by (vm_compute; reflexivity).
  intros (E1 & E2 & E3 & _). split; rewrite ?E1, ?E2; [done|by rewrite length_map|rewrite Hc; constructor| |].
  - intros p. rewrite Hc, dom_empty_L. split; [by intros ?%not_elem_of_nil|by intros ?%not_elem_of_empty].
  - intros i l p Hi Hp. rewrite list_lookup_fmap in Hi. destruct (kinds !! i); [|done].
    injection Hi as <-. by apply not_elem_of_nil in Hp.
Qed.

Lemma walk_fresh_all roots e :
  closed -> in_heap roots -> fresh e ->
  exists ec, each (node heap (walk_fuel heap)) roots e = Some ec /\ marks_ok ec
    /\ (forall p, p ∈ seen ec <-> known p /\ reachable roots p)
    /\ match e_err ec with
       | None => forall q T, reachable roots q -> ~ unknown q T
       | Some (ErrUnknownNode T) => exists q, reachable roots q /\ unknown q T
       end.
Proof.
  intros Hc Hr Hf. pose proof (fresh_marks e Hf) as M. destruct Hf as (E1 & _ & _ & E4).
  assert (H0 : seen e = ∅) by (rewrite E1; apply dom_empty_L).
  destruct (walks (walk_fuel heap) Hc roots e Hr M) as (ec & E & Mc & W).
  { unfold unseen, walk_fuel. rewrite H0, size_empty. lia. }
  exists ec. split_and!; [done|done| |by eapply walked_err].
  intros p. by apply (walked_reachable roots e).
Qed.

Lemma fresh_collect w : fresh (collect_mode (NewEncoder w)).
Proof. done. Qed.

(** *** After the walk *)

(** Writing a reference records nothing, and reports an unknown node only where
    none was. *)
Lemma write_refs l e :
  in_heap l -> collecting e = false ->
  exists e', each (node heap 0) l e = Some e' /\ collecting e' = false
    /\ (e_err e <> None -> e_err e' = e_err e)
    /\ ((forall q T, Some q ∈ l -> ~ unknown q T) -> e_err e' = e_err e).
Proof.
  revert e. induction l as [|r l IH]; intros e Hl Hc; [by exists e|].
  assert (H1 : exists e1, node heap 0 r e = Some e1 /\ collecting e1 = false
    /\ (e_err e <> None -> e_err e1 = e_err e)
    /\ ((forall q T, Some q ∈ [r] -> ~ unknown q T) -> e_err e1 = e_err e)).
  { destruct r as [p|]; cbn [node]; [|by eexists].
    destruct (Hl p) as [n Hn]; [by left|]. rewrite Hn. cbn [mbind option_bind]. case_bool_decide as Hk.
    - apply kind_foreign in Hk as [T ->]. eexists. split; [done|]. unfold is_None.
      destruct (e_err e) eqn:Ee; cbn [with_writer with_err collecting e_err]; split_and!; try done.
      intros H. destruct (H p T); [by left|done].
    - rewrite Hc. cbn [negb]. by eexists. }
  destruct H1 as (e1 & E1 & C1 & K1 & N1). destruct (IH e1) as (e2 & E2 & C2 & K2 & N2); [|done|].
  { intros p Hp. apply Hl. by right. }
  exists e2. cbn [each]. unfold seq. rewrite E1. split_and!; [exact E2|done| |].
  - intros H. rewrite K2; rewrite K1; done.
  - intros H. rewrite N2, N1; [done| |]; intros q T Hq; apply (H q T).
    + apply list_elem_of_singleton in Hq as ->. by left.
    + by right.
Qed.

Lemma write_fields ps e :
  closed -> (forall p, p ∈ ps -> is_Some (heap !! p)) -> collecting e = false ->
  exists e', fields_of heap ps e = Some e'
    /\ (e_err e <> None -> e_err e' = e_err e)
    /\ ((forall p q T, p ∈ ps -> edge p q -> ~ unknown q T) -> e_err e' = e_err e).
Proof.
  intros Hcl. unfold fields_of. revert e. induction ps as [|p ps IH]; intros e Hps Hc; [by exists e|].
  destruct (Hps p) as [n Hn]; [by left|]. cbn [each]. unfold seq at 1. rewrite Hn. cbn [mbind option_bind].
  destruct (write_refs (refs n) e) as (e0 & E0 & C0 & K0 & N0); [by apply (Hcl p)|done|].
  pose proof (encodeFields_covers _ (node_quiet 0) n e e ltac:(done)) as Hcov. rewrite E0 in Hcov.
  inversion Hcov as [e1 e1' (_ & _ & Q1 & Q2) E1 E1'|]; subst.
  assert (E : encodeFields (node heap 0) n e = Some e1) by (symmetry; exact E1).
  rewrite E. cbn [mbind option_bind].
  destruct (IH e1) as (e2 & E2 & K2 & N2); [by intros q Hq; apply Hps; right|congruence|].
  exists e2. split; [exact E2|]. split.
  - intros H. rewrite K2; rewrite Q2, K0; done.
  - intros H. rewrite N2, Q2, N0; [done| |]; [intros q T Hq; apply (H p); [by left|by exists n]|].
    intros x q T Hx. apply H. by right.
Qed.

Lemma lens_total {A} (L : list (list A)) e :
  exists e', each (fun l => Len (length l)) L e = Some e' /\ collecting e' = collecting e
    /\ byKind e' = byKind e /\ e_err e' = e_err e.
Proof.
  revert e. induction L as [|l L IH]; intros e; [by exists e|]. cbn [each]. unfold seq, Len, writing.
  cbn [mbind option_bind]. destruct (IH (with_writer e (Writer_Len (ew e) (length l)))) as (e' & ? & ? & ? & ?).
  by exists e'.
Qed.
End heap.

(** C21: [Reachable] answers the nodes of the codec's types that references lead to
    from the roots, whatever the sharing and the cycles, and no others. *)
Theorem Reachable_exact heap roots :
  closed heap -> in_heap heap roots ->
  exists s, Reachable heap roots = Some s /\ forall p, p ∈ s <-> known heap p /\ reachable heap roots p.
Proof.
  intros Hc Hr. unfold Reachable.
  destruct (walk_fresh_all heap roots {| ew := NewWriter; e_ids := ∅; byKind := map (fun _ => []) kinds;
    collecting := true; e_last := 0; e_err := None |} Hc Hr) as (ec & E & _ & H & _); [done|].
  rewrite E. by eexists.
Qed.

(** C20: encoding any nodes ends, and reports an error exactly if a node of a type
    the codec does not know is reachable from the roots, naming the type of one;
    no node is dropped silently. *)
Theorem Encode_reports heap roots w :
  closed heap -> in_heap heap roots ->
  exists e, Encode heap roots (NewEncoder w) = Some e /\
    match e_err e with
    | None => forall p T, reachable heap roots p -> ~ unknown heap p T
    | Some (ErrUnknownNode T) => exists p, reachable heap roots p /\ unknown heap p T
    end.
Proof.
  intros Hc Hr. destruct (walk_fresh_all heap roots _ Hc Hr (fresh_collect w)) as (ec & E & M & Hseen & Herr).
  unfold Encode. rewrite E. cbn [mbind option_bind].
  destruct (lens_total (byKind ec) (with_writer (write_mode ec (ew (NewEncoder w)))
    (Writer_Len (ew (write_mode ec (ew (NewEncoder w)))) (length kinds)))) as (e1 & E1 & C1 & K1 & X1).
  unfold seq. cbn [Len writing mbind option_bind]. change (byKind (write_mode ec _)) with (byKind ec).
  rewrite E1. cbn [mbind option_bind]. rewrite K1. cbn [with_writer write_mode byKind collecting e_err] in *.
  assert (Hps : forall p, p ∈ concat (byKind ec) <-> known heap p /\ reachable heap roots p).
  { intros p. by rewrite (ok_seen heap ec M), Hseen. }
  destruct (write_fields heap (concat (byKind ec)) (with_writer e1 {| body := []; strs := strs (ew e1) |}) Hc)
    as (e2 & E2 & K2 & N2); [|done|].
  { intros p Hp. apply Hps in Hp as [(n & Hn & _) _]. by exists n. }
  rewrite E2. eexists. split; [done|]. cbn [with_writer e_err] in *. rewrite X1 in K2, N2.
  destruct (e_err ec) as [[T]|]; [by rewrite K2|]. rewrite N2; [done|].
  intros p q T Hp Hq. apply Herr. apply Hps in Hp as [_ (x & Hx & Hrt)]. exists x. split; [done|]. by eapply rtc_r.
Qed.

(** A tree with a node shared and referring to itself, a node nothing leads to, and one
    of a type the codec does not know. *)
Definition at_span (offset length : Z) : NodeBase :=
  {| NodeSpan := {| Offset := offset; Ast.Len := length |};
     leading := [{| Trivia_Kind := 1; Trivia_Span := {| Offset := 0; Ast.Len := 4 |} |}]; trailing := [] |}.
Definition sample_tree : list Node :=
  [NQualifiedName {| QualifiedName_NodeBase := at_span 9 1; QualifiedName_Global := true;
     QualifiedName_Parts := [{| NameSegment_Text := bs "x"; NameSegment_Span := {| Offset := 9; Ast.Len := 1 |};
       NameSegment_Chained := false |}] |};
   NFeatureReference {| FeatureReference_NodeBase := at_span 9 1; FeatureReference_Name := Some 0 |};
   NSequenceExpr {| SequenceExpr_NodeBase := at_span 5 12;
     SequenceExpr_Elements := [Some 1; None; Some 2; Some 1] |};
   NErrorNode {| ErrorNode_NodeBase := at_span 0 1; ErrorNode_Message := bs "unread" |};
   NCollectExpr {| CollectExpr_NodeBase := at_span 2 7; CollectExpr_Operand := Some 2; CollectExpr_Body := Some 5 |};
   Foreign (bs "main.Node")].

Lemma sample_closed : closed sample_tree.
Proof.
  intros p n Hp q Hq. assert (H : forallb (fun n => forallb (points sample_tree (fun _ => true)) (refs n)) sample_tree = true)
    by (vm_compute; reflexivity).
  rewrite forallb_Forall, Forall_lookup in H. specialize (H p n Hp). rewrite forallb_Forall, Forall_forall in H.
  specialize (H _ Hq). unfold points in H. by destruct (sample_tree !! q).
Qed.

Lemma sample_roots p : p < 6 -> in_heap sample_tree [Some p].
Proof. intros Hp q Hq%list_elem_of_singleton. injection Hq as ->. by apply lookup_lt_is_Some_2. Qed.

Lemma Reachable_exact_witness :
  Reachable sample_tree [Some 4] = Some {[0; 1; 2; 4]} /\
  exists s, Reachable sample_tree [Some 4] = Some s
    /\ forall p, p ∈ s <-> known sample_tree p /\ reachable sample_tree [Some 4] p.
Proof.
  split; [vm_compute; reflexivity|].
  apply (Reachable_exact sample_tree [Some 4]); [apply sample_closed|apply sample_roots; lia].
Defined.

Lemma Encode_reports_witness :
  e_err <$> Encode sample_tree [Some 2] (NewEncoder NewWriter) = Some None /\
  e_err <$> Encode sample_tree [Some 4] (NewEncoder NewWriter) = Some (Some (ErrUnknownNode (bs "main.Node"))) /\
  exists e, Encode sample_tree [Some 4] (NewEncoder NewWriter) = Some e /\
    match e_err e with
    | None => forall p T, reachable sample_tree [Some 4] p -> ~ unknown sample_tree p T
    | Some (ErrUnknownNode T) => exists p, reachable sample_tree [Some 4] p /\ unknown sample_tree p T
    end.
Proof.
  split; [vm_compute; reflexivity|]. split; [vm_compute; reflexivity|].
  apply (Encode_reports sample_tree [Some 4] NewWriter); [apply sample_closed|apply sample_roots; lia].
Defined.
