(* ===== verification/AstWrites.v ===== *)
(** * Writing a node and reading it back: properties

    [writes s d a]: where the encoder wrote with [s], the decoder reads [a] with [d].
    It composes along the fields of a node, so that for every node type the fields
    read are those written ([encodeFields_writes]), references renamed to the
    decoder's nodes. *)
From stdpp Require Import gmap.
From S2P Require Import Prelude Machine Pack PackFacts Ast AstCodec AstWalk.
Local Open Scope Z_scope.
Local Open Scope codec_scope.

Create HintDb writes.

(** ** Reads in sequence *)

Lemma decodes_dbind {A B} (m : dec A) (f : A -> dec B) last a last1 b t enc1 enc2 :
  decodes (m last) t enc1 (a, last1) -> decodes (f a last1) t enc2 b ->
  decodes (dbind m f last) t (enc1 ++ enc2) b.
Proof.
  intros H1 H2 r rest Hr He Ht Hd. rewrite <- app_assoc in Hd. unfold dbind.
  rewrite (H1 r (enc2 ++ rest) Hr He Ht Hd). cbn [mbind option_bind].
  pose proof (drop_enc_length _ _ _ Hr Hd) as Hl.
  rewrite (H2 (advance r (length enc1)) rest); [|by apply advance_wf|done|done|].
  - by rewrite advance_add, length_app.
  - cbn. by rewrite <- drop_drop, Hd, drop_app_length.
Qed.

Lemma decodes_nothing {A} (d : read A) t a : (forall r, d r = Some (a, r)) -> decodes d t [] a.
Proof.
  intros H r rest _ _ _ _. rewrite H. destruct r. unfold advance. cbn. by rewrite Nat.add_0_r.
Qed.

Lemma decodes_reading {A} (get : read A) t enc a last :
  decodes get t enc a -> decodes (reading get last) t enc (a, last).
Proof. intros H r rest Hr He Ht Hd. unfold reading. by rewrite (H r rest Hr He Ht Hd). Qed.

(** ** The relation *)

(** What any write does to a writer: at least [k] bytes more. *)
Definition grows (k : nat) (w w' : Writer) : Prop :=
  Pack.table (strs w) `prefix_of` Pack.table (strs w') /\ (length (body w) + k <= length (body w'))%nat.

Lemma grows_then k1 k2 w1 w2 w3 : grows k1 w1 w2 -> grows k2 w2 w3 -> grows (k1 + k2) w1 w3.
Proof. intros [P1 L1] [P2 L2]. split; [by etrans|lia]. Qed.

(** A stream within Go's limits. *)
Definition fits (w : Writer) : Prop :=
  Z.of_nat (length (Pack.table (strs w))) < two64 /\ Z.of_nat (length (body w)) < 2 ^ 63.

Lemma fits_grows k w w' : grows k w w' -> fits w' -> fits w.
Proof. intros [P L] [F1 F2]. apply prefix_length_le in P. split; lia. Qed.

Definition lays {A} (w w' : Writer) (get : read A) (a : A) : Prop :=
  wf_table (strs w') /\
  exists enc, body w' = body w ++ enc /\ Forall is_byte enc /\ decodes get (Pack.table (strs w')) enc a.

Section writes.
(** The ids of the nodes, and that there are fewer than a stream has bytes. *)
Variable ids : gmap nat Z.
Variable small : Prop.

Definition writes {A} (k : nat) (s : step) (d : dec A) (a : A) : Prop :=
  forall e, collecting e = false -> e_ids e = ids ->
  exists w' last', s e = Some (with_last (with_writer e w') last') /\ grows k (ew e) w' /\
    (small -> wf_table (strs (ew e)) -> fits w' -> lays (ew e) w' (d (e_last e)) (a, last')).

Lemma writes_bind {A B} k1 k2 s1 s2 (d : dec A) (f : A -> dec B) a b :
  writes k1 s1 d a -> writes k2 s2 (f a) b -> writes (k1 + k2) (s1;; s2) (dbind d f) b.
Proof.
  intros H1 H2 e Hc Hi. destruct (H1 e Hc Hi) as (w1 & l1 & E1 & G1 & L1).
  destruct (H2 (with_last (with_writer e w1) l1)) as (w2 & l2 & E2 & G2 & L2); [done..|].
  exists w2, l2. unfold seq. rewrite E1. cbn [mbind option_bind]. rewrite E2.
  split; [done|]. cbn [with_last with_writer ew e_last] in *. split; [by eapply grows_then|].
  intros Hs Hw Hf. destruct (L1 Hs Hw) as (W1 & enc1 & B1 & Y1 & D1); [by eapply fits_grows|].
  destruct (L2 Hs W1 Hf) as (W2 & enc2 & B2 & Y2 & D2).
  split; [done|]. exists (enc1 ++ enc2). split_and!.
  - by rewrite B2, B1, app_assoc.
  - by apply Forall_app.
  - eapply decodes_dbind; [|exact D2]. eapply decodes_mono; [apply G2|exact D1].
Qed.

Lemma writes_weaken {A} k k' s (d : dec A) a : writes k s d a -> (k' <= k)%nat -> writes k' s d a.
Proof.
  intros H Hk e Hc Hi. destruct (H e Hc Hi) as (w1 & l1 & E1 & [G1 G2] & L1).
  exists w1, l1. split_and!; [done|split; [done|lia]|done].
Qed.

(** A field before others. *)
Lemma writes_next {A B} s1 s2 (d : dec A) (f : A -> dec B) a b :
  writes 1 s1 d a -> writes 1 s2 (f a) b -> writes 1 (s1;; s2) (dbind d f) b.
Proof. intros H1 H2. eapply writes_weaken; [by eapply writes_bind|lia]. Qed.

(** A step that writes nothing, and a read of nothing. *)
Lemma writes_skip {A} (a : A) : writes 0 skip (ret a) a.
Proof.
  intros e Hc Hi. exists (ew e), (e_last e). split; [by destruct e|]. split; [split; [done|lia]|].
  intros _ Hw _. split; [done|]. exists []. rewrite app_nil_r. split_and!; [done..|].
  by apply decodes_nothing.
Qed.

(** The last field. *)
Lemma writes_last {A B} s (d : dec A) (f : A -> B) a b :
  writes 1 s d a -> b = f a -> writes 1 s (let* x := d in ret (f x)) b.
Proof.
  intros H -> e Hc Hi. pose proof (writes_bind _ _ _ _ _ (fun x => ret (f x)) _ _ H (writes_skip (f a)) e Hc Hi) as Hb.
  unfold seq, skip in Hb. by destruct (s e).
Qed.

(** ** Leaves *)

(** What a codec of the pack writes. *)
Lemma writes_codec {A} `{CA : Codec A} (a : A) :
  valid a -> writes 1 (writing (fun w => put w a)) (reading get) a.
Proof.
  intros Hv e Hc Hi. exists (put (ew e) a), (e_last e). split; [by destruct e|].
  destruct (put_grows (ew e) a) as [G1 G2]. split; [split; [done|lia]|].
  intros _ Hw [F1 F2]. destruct (put_get (ew e) a Hw Hv F1 F2) as (W & _ & enc & E & _ & Y & D).
  split; [done|]. exists enc. split_and!; [done..|]. by apply decodes_reading.
Qed.

Lemma writes_Uint v : is_uint64 v -> writes 1 (Uint v) d_Uint v.
Proof. apply (writes_codec (CA := uint_codec)). Qed.
Lemma writes_Bool b : writes 1 (Bool b) d_Bool b.
Proof. by apply (writes_codec (CA := bool_codec)). Qed.
Lemma writes_String s : writes 1 (String s) d_String s.
Proof. by apply (writes_codec (CA := string_codec)). Qed.

Lemma int_in_range_spec z : int_in_range z = true <-> is_int64 z.
Proof. unfold int_in_range, is_int64. rewrite andb_true_iff, Z.leb_le, Z.ltb_lt. done. Qed.

Lemma writes_Int v : int_in_range v = true -> writes 1 (Int v) d_Int v.
Proof.
  intros Hv%int_in_range_spec e Hc Hi.
  destruct (writes_codec (CA := sint_codec) (Sint v) Hv e Hc Hi) as (w1 & l1 & E & G & L).
  exists w1, l1. split; [exact E|]. split; [done|]. intros Hs Hw Hf.
  destruct (L Hs Hw Hf) as (W & enc & B & Y & D). split; [done|]. exists enc. split_and!; [done..|].
  intros r rest Hr He Ht Hd. specialize (D r rest Hr He Ht Hd). unfold d_Int, reading in *.
  cbn [get sint_codec] in D. unfold fmap_read in D. destruct (Reader_Int r) as [[x r']|]; [|done].
  cbn in D |- *. by simplify_eq.
Qed.

Lemma writes_each {A B} (f : A -> step) (d : dec B) (g : A -> B) l :
  Forall (fun x => writes 1 (f x) d (g x)) l ->
  writes (length l) (each f l) (times d (length l)) (map g l).
Proof.
  induction 1 as [|x l Hx Hl IH]; [apply writes_skip|]. cbn [each length times map].
  apply (writes_bind 1 (length l)) with (a := g x); [done|].
  intros e Hc Hi.
  pose proof (writes_bind _ 0 _ skip _ (fun l => ret (g x :: l)) _ (g x :: map g l) IH (writes_skip _) e Hc Hi) as Hb.
  unfold seq, skip in Hb. rewrite Nat.add_0_r in Hb. by destruct (each f l e).
Qed.

(** A count, and as many. *)
Lemma writes_counted {A B} (f : A -> step) (d : dec B) (g : A -> B) l :
  Forall (fun x => writes 1 (f x) d (g x)) l ->
  writes 1 (Len (length l);; each f l) (filled_slice d) (map g l).
Proof.
  intros Hl e Hc Hi. set (w1 := Writer_Len (ew e) (length l)).
  destruct (writes_each f d g l Hl (with_writer e w1)) as (w2 & l2 & E2 & G2 & L2); [done..|].
  cbn [with_writer with_last ew e_last] in *.
  exists w2, l2. unfold seq, Len, writing. cbn [mbind option_bind]. fold w1.
  split; [exact E2|].
  assert (G1 : grows 1 (ew e) w1).
  { destruct (uint_grows (ew e) (Z.of_nat (length l))) as [P L]. split; [done|]. unfold w1, Writer_Len. lia. }
  split; [destruct G1, G2; split; [by etrans|lia]|].
  intros Hs Hw Hf. destruct (L2 Hs Hw Hf) as (W2 & enc & Hb & Y & D). split; [done|].
  exists (uvarint_bytes 9 (Z.of_nat (length l)) ++ enc).
  assert (Hle : (length l <= length enc)%nat).
  { destruct G2 as [_ G2]. rewrite Hb, length_app in G2. lia. }
  assert (Hu : is_uint64 (Z.of_nat (length l))).
  { destruct Hf as [_ Hf]. rewrite Hb, length_app in Hf. unfold is_uint64, two64. lia. }
  split_and!.
  - rewrite Hb. unfold w1, Writer_Len, Writer_Uint, AppendUvarint. cbn [body]. by rewrite app_assoc.
  - apply Forall_app. split; [by apply uint_bytes_byte|done].
  - intros r rest Hr He Ht Hd. rewrite <- app_assoc in Hd. unfold filled_slice, dbind, d_Len, reading.
    rewrite (len_reads r (length l) _ Hr He Hd) by (rewrite length_app; lia).
    cbn [mbind option_bind]. rewrite (proj2 (Z.ltb_ge _ _)) by lia. rewrite Nat2Z.id.
    pose proof (drop_enc_length _ _ _ Hr Hd).
    rewrite (D (advance r (length (uvarint_bytes 9 (Z.of_nat (length l))))) rest);
      [by rewrite advance_add, length_app|by apply advance_wf|done|done|].
    cbn. by rewrite <- drop_drop, Hd, drop_app_length.
Qed.

Lemma writes_times_refs {A} (f : A -> step) (d : dec A) l :
  Forall (fun x => writes 1 (f x) d x) l -> writes 1 (Len (length l);; each f l) (filled_slice d) l.
Proof. intros H. rewrite <- (map_id l) at 3. by apply writes_counted. Qed.

(** ** Parts without references *)

(** Spans are relative to the last one, modulo the width of an [int]. *)
Lemma writes_span s : span_in_range s = true -> writes 1 (span s) d_span s.
Proof.
  intros [Ho Hl]%andb_prop e Hc Hi. unfold span, d_span.
  set (v := int64 (Offset s - e_last e)).
  assert (Hv : int_in_range v = true) by apply int_in_range_spec, int64_range.
  assert (Hback : int64 (e_last e + v) = Offset s).
  { unfold v. rewrite int64_add_int64. replace (e_last e + (Offset s - e_last e)) with (Offset s) by lia.
    apply int64_small. by apply int_in_range_spec. }
  set (fin := fun (offset length _ : Z) (r : Reader) =>
     let o := int64 (e_last e + offset) in Some (({| Offset := o; Ast.Len := length |}, o), r)).
  assert (H : writes 1 (Int v;; Int (Ast.Len s);; fun e => Some (with_last e (Offset s)))
                (let* o := d_Int in let* l := d_Int in fin o l) s).
  { apply writes_next with (a := v); [by apply writes_Int|].
    eapply writes_weaken; [apply (writes_bind 1 0) with (a := Ast.Len s); [by apply writes_Int|]|lia].
    intros e' _ _. exists (ew e'), (Offset s). split; [done|]. split; [split; [done|lia]|].
    intros _ Hw _. split; [done|]. exists []. rewrite app_nil_r. split_and!; [done..|].
    apply decodes_nothing. intros r. unfold fin. rewrite Hback. by destruct s. }
  exact (H e Hc Hi).
Qed.
Hint Resolve writes_Bool writes_String writes_Int writes_span : writes.

Lemma writes_trivia ts : forallb trivia_in_range ts = true -> writes 1 (trivia ts) d_trivia ts.
Proof.
  intros H%forallb_Forall. apply writes_times_refs. eapply Forall_impl; [exact H|].
  intros [k s] [Hk Hs]%andb_prop. eapply writes_next; [by apply writes_Int|].
  apply writes_last with (a := s); [by apply writes_span|done].
Qed.

Lemma writes_base b : base_in_range b = true -> writes 1 (base b) d_base b.
Proof.
  intros [[Hs Hl]%andb_prop Ht]%andb_prop. destruct b as [s l t].
  eapply writes_next; [by apply writes_span|]. eapply writes_next; [by apply writes_trivia|].
  apply writes_last with (a := t); [by apply writes_trivia|done].
Qed.

Lemma writes_ident i : ident_in_range i = true -> writes 1 (ident i) d_ident i.
Proof.
  intros [H1 H2]%andb_prop. destruct i as [s1 p1 s2 p2].
  eapply writes_next; [by apply writes_String|]. eapply writes_next; [by apply writes_span|].
  eapply writes_next; [by apply writes_String|].
  apply writes_last with (a := p2); [by apply writes_span|done].
Qed.

Lemma writes_segment s :
  segment_in_range s = true ->
  writes 1 (String (NameSegment_Text s);; span (NameSegment_Span s);; Bool (NameSegment_Chained s)) d_segment s.
Proof.
  intros H. destruct s as [t p c]. eapply writes_next; [by apply writes_String|].
  eapply writes_next; [by apply writes_span|].
  apply writes_last with (a := c); [by apply writes_Bool|done].
Qed.

Lemma writes_segments l : forallb segment_in_range l = true -> writes 1 (segments l) d_segments l.
Proof.
  intros H%forallb_Forall. apply writes_times_refs. eapply Forall_impl; [exact H|]. apply writes_segment.
Qed.

Lemma writes_ext {A} k s (d d' : dec A) a :
  (forall last r, d last r = d' last r) -> writes k s d a -> writes k s d' a.
Proof.
  intros Hd H e Hc Hi. destruct (H e Hc Hi) as (w' & l' & E & G & L).
  exists w', l'. split_and!; [done..|]. intros Hs Hw Hf.
  destruct (L Hs Hw Hf) as (W & enc & B & Y & D). split; [done|]. exists enc. split_and!; [done..|].
  intros r rest Hr He Ht Hdr. rewrite <- Hd. by eapply D.
Qed.

Lemma writes_parts l : forallb segment_in_range l = true -> writes 1 (segments l) d_parts l.
Proof.
  intros H. apply (writes_ext _ _ d_segments); [|by apply writes_segments].
  intros last r. unfold d_segments, filled_slice, d_parts, dbind. destruct (d_Len last r) as [[[n l0] r0]|]; [|done].
  cbn [mbind option_bind]. destruct (Z.eqb_spec n 1) as [->|_]; [|done].
  change (times d_segment 1 l0 r0 = dbind d_segment (fun s => ret [s]) l0 r0).
  cbn [times]. unfold dbind. destruct (d_segment l0 r0) as [[[s l1] r1]|]; done.
Qed.
Hint Resolve writes_base writes_ident writes_segments writes_parts : writes.

(** ** References

    The encoder's heap and the decoder's, whose table has the nodes in the order of
    their ids. *)
Section references.
Variables (heap dheap : list Node) (tbl : list ref).

(** The decoder's address of a node of the encoder's heap. *)
Definition renamed (r : ref) : ref :=
  p ← r; id ← ids !! p; Some (Z.to_nat id - 1)%nat.

(** A reference the decoder can follow. *)
Definition ready (r : ref) : Prop :=
  match r with
  | None => True
  | Some p => exists n n' id, heap !! p = Some n /\ kindOf n <> numKinds /\ ids !! p = Some id
      /\ 1 <= id < Z.of_nat (length tbl) /\ tbl !! Z.to_nat id = Some (Some (Z.to_nat id - 1)%nat)
      /\ dheap !! (Z.to_nat id - 1)%nat = Some n' /\ kindOf n' = kindOf n
  end.

Hypothesis tbl_nil : tbl !! 0%nat = Some None.
Hypothesis tbl_small : small -> Z.of_nat (length tbl) <= 2 ^ 63.

Lemma lookup_renamed r : ready r ->
  lookup_node tbl (match r with Some p => default 0 (ids !! p) | None => 0 end) = (renamed r, true).
Proof using tbl_nil.
  unfold lookup_node. destruct r as [p|]; cbn [ready renamed mbind option_bind].
  - intros (n & n' & id & _ & _ & Hid & Hb & Ht & _). rewrite Hid. cbn [from_option Datatypes.id mbind option_bind].
    rewrite (proj2 (Z.leb_gt (Z.of_nat (length tbl)) id)) by lia. by rewrite Ht.
  - intros _. pose proof (lookup_lt_Some _ _ _ tbl_nil) as Hl.
    rewrite (proj2 (Z.leb_gt (Z.of_nat (length tbl)) 0)) by lia.
    change (Z.to_nat 0) with 0%nat. by rewrite tbl_nil.
Qed.

(** The id of a reference is written; [small] bounds it. *)
Lemma writes_id r : ready r -> writes 1 (node heap 0 r) d_Uint (match r with Some p => default 0 (ids !! p) | None => 0 end).
Proof using tbl_small.
  intros Hr e Hc Hi.
  set (v := match r with Some p => default 0 (ids !! p) | None => 0 end).
  assert (E : node heap 0 r e = Uint v e).
  { destruct r as [p|]; [|done]. destruct Hr as (n & n' & id & Hp & Hk & _).
    cbn [node]. rewrite Hp. cbn [mbind option_bind]. rewrite bool_decide_false by done.
    rewrite Hc. cbn [negb]. by rewrite Hi. }
  rewrite E. exists (Writer_Uint (ew e) v), (e_last e). split; [by destruct e|].
  split; [destruct (uint_grows (ew e) v); split; [done|lia]|].
  intros Hs Hw _. assert (Hv : is_uint64 v).
  { unfold v, is_uint64, two64. destruct r as [p|]; [|done].
    destruct Hr as (n & n' & id & _ & _ & Hid & Hb & _). rewrite Hid. cbn. specialize (tbl_small Hs). lia. }
  destruct (put_uint_law (ew e) v Hw Hv) as (W & _ & enc & B & _ & Y & D).
  split; [done|]. exists enc. split_and!; [done..|]. by apply decodes_reading.
Qed.

Lemma writes_node r : ready r -> writes 1 (node heap 0 r) (d_node tbl) (renamed r).
Proof using tbl_nil tbl_small.
  intros Hr e Hc Hi. unfold d_node.
  pose proof (writes_bind 1 0 _ skip _ (fun id => let '(n, ok) := lookup_node tbl id in
     if ok then ret n else let* _ := d_fail (bs "node index") in ret n) _ (renamed r) (writes_id r Hr)) as H.
  cbn beta in H. rewrite (lookup_renamed r Hr) in H. specialize (H (writes_skip _) e Hc Hi).
  unfold seq, skip in H. by destruct (node heap 0 r e).
Qed.

Lemma writes_typed T r :
  ready r -> points heap T r = true -> writes 1 (node heap 0 r) (typed tbl dheap T) (renamed r).
Proof using tbl_nil tbl_small.
  intros Hr HT e Hc Hi. unfold typed.
  pose proof (writes_bind 1 0 _ skip _ (fun n => match n with
     | None => ret None
     | Some _ => if points dheap T n then ret n else let* _ := d_fail (bs "node type") in ret None
     end) _ (renamed r) (writes_node r Hr)) as H.
  cbn beta in H.
  assert (Hm : writes 0 skip (match renamed r with
     | None => ret None
     | Some _ => if points dheap T (renamed r) then ret (renamed r) else let* _ := d_fail (bs "node type") in ret None
     end) (renamed r)).
  { destruct r as [p|]; [|apply writes_skip].
    destruct Hr as (n & n' & id & Hp & Hk & Hid & Hb & Ht & Hd & Hkk).
    cbn [renamed mbind option_bind]. rewrite Hid. cbn [mbind option_bind points] in *.
    rewrite Hd, Hkk. rewrite Hp in HT. rewrite HT. apply writes_skip. }
  specialize (H Hm e Hc Hi). unfold seq, skip in H. by destruct (node heap 0 r e).
Qed.

Lemma writes_refs (d : dec ref) l :
  Forall (fun r => writes 1 (node heap 0 r) d (renamed r)) l ->
  writes 1 (Len (length l);; each (node heap 0) l) (filled_slice d) (map renamed l).
Proof. apply writes_counted. Qed.

Lemma writes_nodes l : Forall ready l -> writes 1 (nodes (node heap 0) l) (d_nodes tbl) (map renamed l).
Proof using tbl_nil tbl_small.
  intros H. apply writes_refs. eapply Forall_impl; [exact H|]. apply writes_node.
Qed.

(** The slices of typed pointers. *)
Lemma writes_pointers T l :
  Forall ready l -> forallb (points heap T) l = true ->
  writes 1 (nodes (node heap 0) l) (filled_slice (typed tbl dheap T)) (map renamed l).
Proof using tbl_nil tbl_small.
  rewrite forallb_Forall, !Forall_forall. intros H HT. apply writes_refs, Forall_forall.
  intros r Hr. apply writes_typed; auto.
Qed.

Lemma writes_namedArgs l :
  Forall ready (concat (map arg_refs l)) -> forallb (arg_typed (points heap)) l = true ->
  writes 1 (namedArgs (node heap 0) l) (d_namedArgs tbl dheap) (map (map_arg renamed) l).
Proof using tbl_nil tbl_small.
  intros H HT%forallb_Forall. apply writes_counted. induction l as [|a l IH]; [constructor|].
  cbn [map concat] in H. apply Forall_app in H as [Ha Hl]. inversion HT as [|? ? Ta Tl]; subst.
  constructor; [|by apply IH]. unfold arg_refs in Ha. rewrite Forall_cons, Forall_singleton in Ha.
  destruct Ha as [H1 H2]. unfold arg_typed in Ta.
  eapply writes_next; [by apply writes_typed|]. apply writes_last with (a := renamed (NamedArg_Value a)); [by apply writes_node|done].
Qed.
Hint Resolve writes_node writes_typed writes_nodes writes_namedArgs : writes.
Hint Extern 1 (writes _ (rels _ _) _ _) => apply writes_pointers : writes.
Hint Extern 1 (writes _ (prefixes _ _) _ _) => apply writes_pointers : writes.
Hint Extern 1 (writes _ (qnames _ _) _ _) => apply writes_pointers : writes.
Hint Extern 1 (writes _ (regions _ _) _ _) => apply writes_pointers : writes.
Hint Extern 1 (writes _ (ends _ _) _ _) => apply writes_pointers : writes.
Hint Extern 1 (writes _ (operatorExprs _ _) _ _) => apply writes_pointers : writes.

(** The fields of a struct in turn. *)
Ltac writes_fields :=
  lazymatch goal with
  | |- writes _ (_;; _) _ _ => eapply writes_next; [solve [eauto with writes nocore]|cbn beta; writes_fields]
  | |- writes _ _ _ _ =>
      eapply writes_last;
      [solve [eauto with writes nocore]
      |first [reflexivity | match goal with |- _ ?n = _ => destruct n; reflexivity end]]
  end.

Lemma writes_params l :
  Forall ready (concat (map param_refs l)) -> forallb (param_typed (points heap)) l = true ->
  forallb param_in_range l = true ->
  writes 1 (params (node heap 0) l) (d_params tbl dheap) (map (map_param renamed) l).
Proof using tbl_nil tbl_small.
  intros H HT%forallb_Forall HR%forallb_Forall. apply writes_counted. induction l as [|a l IH]; [constructor|].
  cbn [map concat] in H. apply Forall_app in H as [Ha Hl]. inversion HT as [|? ? Ta Tl]; subst.
  inversion HR as [|? ? Ra Rl]; subst. constructor; [|by apply IH].
  unfold param_refs in Ha. unfold param_typed in Ta. unfold param_in_range in Ra. rewrite !Forall_app, !Forall_singleton in Ha.
  bool_split. writes_fields.
Qed.
Hint Resolve writes_params : writes.

(** The fields of any node the codec knows. *)
Lemma encodeFields_writes n :
  kindOf n <> numKinds -> Forall ready (refs n) -> well_typed (points heap) n = true -> in_range n = true ->
  writes 1 (encodeFields (node heap 0) n) (decodeFields tbl dheap n) (map_refs renamed n).
Proof using tbl_nil tbl_small.
  intros Hk Hr HT HR.
  destruct n as [n|n|n|n|n|n|n|n|n|n|n|n|n|n|n|n|n|n|n|n|n|n|n|n|n|n|n|n|n|n|n|n|n|n|n|n|n|n
    |n|n|n|n|n|n|n|n|n|n|n|n|n|n|n|n|n|n|n|n|n|n|n|n|n|n|n|n|n|n|n|n|n|n|n|n|n|n|T];
  cbn [encodeFields decodeFields map_refs refs well_typed in_range] in *; [..|by destruct Hk];
  rewrite ?Forall_app, ?Forall_singleton in Hr; bool_split; writes_fields.
Qed.
End references.
End writes.
