(* ===== verification/AstRoundTrip.v ===== *)
(** * Trees through a stream: properties

    A tree that is encoded and decoded is the same tree: the decoder's nodes are the
    reachable ones, one for each, with their fields, and their references lead to
    each other as the encoder's do ([Encode_Decode]). *)
From stdpp Require Import gmap.
From S2P Require Import Prelude Machine Pack PackFacts Ast AstCodec AstWalk AstWrites.
Local Open Scope Z_scope.
Local Open Scope codec_scope.

(** ** Ids *)

Lemma number_not m i ps p : p ∉ ps -> number m i ps !! p = m !! p.
Proof.
  revert m i. induction ps as [|q ps IH]; intros m i Hp; [done|]. cbn [number].
  apply not_elem_of_cons in Hp as [Hq Hp]. rewrite IH by done. by rewrite lookup_insert_ne.
Qed.

Lemma number_at m i ps j p :
  NoDup ps -> ps !! j = Some p -> number m i ps !! p = Some (i + Z.of_nat j).
Proof.
  revert m i j. induction ps as [|q ps IH]; intros m i j Hn Hj; [done|]. cbn [number].
  apply NoDup_cons in Hn as [Hq Hn]. destruct j as [|j]; cbn in Hj.
  - injection Hj as ->. rewrite number_not by done. rewrite lookup_insert_eq. f_equal. lia.
  - rewrite (IH _ _ j) by done. f_equal. lia.
Qed.

Lemma number_inv m i ps p id :
  (forall q, is_Some (m !! q) -> q ∈ ps) -> NoDup ps -> number m i ps !! p = Some id ->
  exists j, ps !! j = Some p /\ id = i + Z.of_nat j.
Proof.
  intros Hm Hn Hp. destruct (decide (p ∈ ps)) as [Hin|Hout].
  - apply list_elem_of_lookup in Hin as [j Hj]. exists j. split; [done|].
    rewrite (number_at _ _ _ j) in Hp by done. congruence.
  - rewrite number_not in Hp by done. destruct Hout. apply Hm. by exists id.
Qed.

(** ** The nodes' fields *)

(** A block's nodes are told by their kind. *)
Lemma decodeFields_zero tbl h z :
  kindOf z <> numKinds ->
  Some (decodeFields tbl h z) = decodeFields tbl h <$> zero_node (kindOf z).
Proof. destruct z; (reflexivity || (intros Hz; by destruct Hz)). Qed.

Lemma decodeFields_kind tbl h z n :
  kindOf z = kindOf n -> kindOf n <> numKinds -> decodeFields tbl h z = decodeFields tbl h n.
Proof.
  intros Hz Hn. pose proof (decodeFields_zero tbl h n Hn) as E1.
  rewrite <- Hz in E1, Hn. rewrite <- (decodeFields_zero tbl h z Hn) in E1. congruence.
Qed.

Lemma fill_step tbl p ps h last r n n' last' r' :
  h !! p = Some n -> decodeFields tbl h n last r = Some ((n', last'), r') -> err r' = None ->
  fill tbl (Some p :: ps) h last r = fill tbl ps (<[p := n']> h) last' r'.
Proof.
  intros Hp Hd He. cbn [fill mbind option_bind]. rewrite Hp. cbn [mbind option_bind].
  rewrite Hd. cbn [mbind option_bind]. by rewrite He.
Qed.

Section fields.
Variables (heap : list Node) (order : list nat) (ids : gmap nat Z).

Definition table_of (k : nat) : list ref := None :: map Some (List.seq 0 k).
Abbreviation tbl := (table_of (length order)).

(** The nodes have the ids of their places, and refer to each other only. *)
Record numbered : Prop := {
  n_ids : forall j p, order !! j = Some p -> ids !! p = Some (1 + Z.of_nat j);
  n_known : forall p, p ∈ order -> known heap p;
  n_refs : forall p n q, p ∈ order -> heap !! p = Some n -> Some q ∈ refs n -> q ∈ order;
  n_typed : forall p n, heap !! p = Some n -> well_typed (points heap) n = true;
  n_range : forall p n, heap !! p = Some n -> in_range n = true;
}.
Hypothesis num : numbered.

Definition few : Prop := Z.of_nat (length order) < 2 ^ 63.

(** A node of the kind of the one at [p], and the copy of that one. *)
Definition like (p : nat) (n' : Node) : Prop := exists n, heap !! p = Some n /\ kindOf n' = kindOf n.
Definition image (p : nat) (n' : Node) : Prop :=
  exists n, heap !! p = Some n /\ n' = map_refs (renamed ids) n.

Lemma map_refs_kind f n : kindOf (map_refs f n) = kindOf n.
Proof. by destruct n. Qed.

Lemma image_like p n' : image p n' -> like p n'.
Proof. intros (n & Hp & ->). exists n. by rewrite map_refs_kind. Qed.

Lemma table_lookup j k : (j < k)%nat -> table_of k !! S j = Some (Some j).
Proof.
  intros H. change ((Some <$> List.seq 0 k) !! j = Some (Some j)).
  rewrite list_lookup_fmap, lookup_seq_lt by done. done.
Qed.

Lemma refs_ready dheap p n :
  p ∈ order -> heap !! p = Some n -> Forall2 like order dheap -> Forall (ready ids heap dheap tbl) (refs n).
Proof using num.
  intros Hp Hn Hd. apply Forall_forall. intros [q|] Hq; [|done].
  assert (Hin : q ∈ order) by (eapply (n_refs num); eauto).
  destruct (n_known num q Hin) as (nq & Hnq & Hk). apply list_elem_of_lookup in Hin as [j Hj].
  destruct (Forall2_lookup_l _ _ _ _ _ Hd Hj) as (n' & Hd' & nq' & Hnq' & Hk').
  pose proof (lookup_lt_Some _ _ _ Hj) as Hlt.
  replace nq' with nq in * by congruence. exists nq, n', (1 + Z.of_nat j).
  replace (Z.to_nat (1 + Z.of_nat j)) with (S j) by lia. cbn [Nat.sub]. rewrite Nat.sub_0_r.
  split_and!; try done; [by apply (n_ids num)|lia| |by apply table_lookup].
  unfold table_of. cbn [length]. rewrite length_map, length_seq. lia.
Qed.

(** One node's fields. *)
Lemma node_writes dheap p n n0 :
  p ∈ order -> heap !! p = Some n -> kindOf n0 = kindOf n -> Forall2 like order dheap ->
  writes ids few 1 (encodeFields (node heap 0) n) (decodeFields tbl dheap n0) (map_refs (renamed ids) n).
Proof using num.
  intros Hp Hn Hk Hd. destruct (n_known num p Hp) as (n' & Hn' & Hk').
  replace n' with n in * by congruence. rewrite (decodeFields_kind tbl dheap n0 n) by done.
  apply encodeFields_writes; [done| |done|by eapply refs_ready|by eapply (n_typed num)|by eapply (n_range num)].
  unfold few, table_of. cbn [length]. rewrite length_map, length_seq. lia.
Qed.

(** What the fields of [ps] leave, for the reads from its first byte to its end. *)
Definition filled (done ps : list nat) (fs zs fs' : list Node) (e : Encoder) (w' : Writer) (last' : Z) : Prop :=
  wf_table (strs w') /\
  exists enc, body w' = body (ew e) ++ enc /\ Forall is_byte enc /\
    forall r, wf_reader r -> err r = None -> Pack.table (strs w') `prefix_of` rtable r ->
      drop (rpos r) (data r) = enc ->
      fill tbl (map Some (List.seq (length done) (length ps))) (fs ++ zs) (e_last e) r
      = Some (fs ++ fs', last', advance r (length enc)).

Lemma filled_nothing done fs e : wf_table (strs (ew e)) -> filled done [] fs [] [] e (ew e) (e_last e).
Proof.
  intros Hw. split; [done|]. exists []. rewrite app_nil_r. split_and!; [done..|].
  intros r Hr He _ Hd. cbn [length List.seq map fill]. rewrite app_nil_r.
  assert (HD : Done r = true).
  { unfold Done. rewrite bool_decide_true by done. apply (f_equal length) in Hd. rewrite length_drop in Hd.
    destruct Hr as [Hp _]. cbn in Hd |- *. apply Nat.eqb_eq. lia. }
  rewrite HD. destruct r. unfold advance. cbn. by rewrite Nat.add_0_r.
Qed.

Lemma filled_cons done p ps n z fs zs fs' e w1 l1 w2 l2 :
  length done = length fs -> heap !! p = Some n ->
  lays (ew e) w1 (decodeFields tbl (fs ++ z :: zs) z (e_last e)) (map_refs (renamed ids) n, l1) ->
  Pack.table (strs w1) `prefix_of` Pack.table (strs w2) ->
  filled (done ++ [p]) ps (fs ++ [map_refs (renamed ids) n]) zs fs' (with_last (with_writer e w1) l1) w2 l2 ->
  filled done (p :: ps) fs (z :: zs) (map_refs (renamed ids) n :: fs') e w2 l2.
Proof.
  intros Hl Hp (W1 & enc1 & B1 & Y1 & D1) Hpre (W2 & enc2 & B2 & Y2 & D2). cbn [with_last with_writer ew e_last] in *.
  split; [done|]. exists (enc1 ++ enc2). split_and!; [by rewrite B2, B1, app_assoc|by apply Forall_app|].
  intros r Hr He Ht Hd. cbn [length List.seq map].
  pose proof (drop_enc_length _ _ _ Hr Hd) as Hb.
  assert (Hz : (fs ++ z :: zs) !! length done = Some z) by (rewrite Hl; by apply list_lookup_middle).
  rewrite (fill_step _ _ _ _ _ _ _ _ _ _ Hz (D1 r enc2 Hr He ltac:(by etrans) Hd) He).
  rewrite Hl, insert_app_r_alt, Nat.sub_diag by lia. cbn [insert list_insert].
  replace (fs ++ map_refs (renamed ids) n :: zs) with ((fs ++ [map_refs (renamed ids) n]) ++ zs) by (by rewrite <- app_assoc).
  assert (Hr1 : wf_reader (advance r (length enc1))) by (apply advance_wf; [done|lia]).
  assert (Hd1 : drop (rpos r + length enc1) (data r) = enc2) by (by rewrite <- drop_drop, Hd, drop_app_length).
  specialize (D2 _ Hr1 He Ht Hd1). rewrite !length_app in D2. cbn [length] in D2.
  rewrite Nat.add_1_r, Hl in D2. rewrite D2.
  by rewrite advance_add, length_app, <- app_assoc.
Qed.

Lemma fields_fill ps done fs zs e :
  order = done ++ ps -> Forall2 image done fs -> Forall2 like ps zs ->
  collecting e = false -> e_ids e = ids ->
  exists w' last' fs', fields_of heap ps e = Some (with_last (with_writer e w') last')
    /\ grows (length ps) (ew e) w' /\ Forall2 image ps fs'
    /\ (few -> wf_table (strs (ew e)) -> fits w' -> filled done ps fs zs fs' e w' last').
Proof using num.
  revert done fs zs e. induction ps as [|p ps IH]; intros done fs zs e Ho Hf Hz Hc Hi.
  { apply Forall2_nil_inv_l in Hz as ->. exists (ew e), (e_last e), []. split; [by destruct e|]. split; [split; [done|cbn; lia]|]. split; [constructor|].
    intros _ Hw _. by apply filled_nothing. }
  apply Forall2_cons_inv_l in Hz as (z & zs' & Hz1 & Hz & ->). destruct Hz1 as (n & Hn & Hk).
  assert (Hin : p ∈ order) by (rewrite Ho, elem_of_app; right; by left).
  assert (Hall : Forall2 like order (fs ++ z :: zs')).
  { rewrite Ho. apply Forall2_app; [eapply Forall2_impl; [exact Hf|exact image_like]|].
    constructor; [by exists n|done]. }
  destruct (node_writes (fs ++ z :: zs') p n z Hin Hn Hk Hall e Hc Hi) as (w1 & l1 & E1 & G1 & L1).
  destruct (IH (done ++ [p]) (fs ++ [map_refs (renamed ids) n]) zs' (with_last (with_writer e w1) l1))
    as (w2 & l2 & fs' & E2 & G2 & F2 & L2); try done.
  { by rewrite <- app_assoc. }
  { apply Forall2_app; [done|]. constructor; [by exists n|done]. }
  cbn [with_last with_writer ew e_last] in *.
  exists w2, l2, (map_refs (renamed ids) n :: fs'). cbn [fields_of each]. unfold seq. rewrite Hn. cbn [mbind option_bind].
  rewrite E1. cbn [mbind option_bind]. split_and!; [exact E2|by apply (grows_then 1 (length ps) _ w1)|constructor; [by exists n|done]|].
  intros Hs Hw Hfit. destruct (L1 Hs Hw ltac:(by eapply fits_grows)) as [W1 L1'].
  apply (filled_cons done p ps n z fs zs' fs' e w1 l1); [by eapply Forall2_length|done|by split|apply G2|].
  apply L2; done.
Qed.
End fields.

(** ** The table's head *)

Definition counts_bytes (L : list (list nat)) : bytes :=
  concat (map (fun ps => uvarint_bytes 9 (Z.of_nat (length ps))) L).

Lemma counts_written (L : list (list nat)) e :
  each (fun ps => Len (length ps)) L e =
    Some (with_writer e {| body := body (ew e) ++ counts_bytes L; strs := strs (ew e) |}).
Proof.
  revert e. induction L as [|l L IH]; intros e; cbn [each].
  - unfold skip. cbn. rewrite app_nil_r. destruct e as [w ? ? ? ? ?]. by destruct w.
  - unfold seq, Len, writing. cbn [mbind option_bind]. rewrite IH. cbn. unfold AppendUvarint.
    by rewrite <- app_assoc.
Qed.

Lemma counts_bytes_length L : (length L <= length (counts_bytes L))%nat.
Proof.
  induction L as [|l L IH]; [done|]. unfold counts_bytes in *. cbn [map concat length].
  rewrite length_app. pose proof (uvarint_bytes_length 9 (Z.of_nat (length l))). lia.
Qed.

Lemma counts_byte L :
  Z.of_nat (length (concat L)) < two64 -> Forall is_byte (counts_bytes L).
Proof.
  induction L as [|l L IH]; intros H; [constructor|]. cbn [concat] in H. rewrite length_app in H.
  apply Forall_app. split; [apply uint_bytes_byte; unfold is_uint64; lia|apply IH; lia].
Qed.

Lemma length_in_concat {A} (l : list A) L : l ∈ L -> (length l <= length (concat L))%nat.
Proof.
  induction L as [|k L IH]; intros H; [by apply not_elem_of_nil in H|]. cbn [concat]. rewrite length_app.
  apply elem_of_cons in H as [->|H]; [lia|]. specialize (IH H). lia.
Qed.

Lemma read_counts_reads (L : list (list nat)) total r rest :
  wf_reader r -> err r = None -> drop (rpos r) (data r) = counts_bytes L ++ rest ->
  (length (concat L) <= length rest)%nat -> 0 <= total -> total + Z.of_nat (length (concat L)) < 2 ^ 63 ->
  read_counts (length L) total r =
    Some (map (fun ps => Z.of_nat (length ps)) L, total + Z.of_nat (length (concat L)), advance r (length (counts_bytes L))).
Proof.
  revert total r. induction L as [|l L IH]; intros total r Hr He Hd Hl H0 Hm.
  { cbn. rewrite Z.add_0_r. destruct r. unfold advance. cbn. by rewrite Nat.add_0_r. }
  cbn [concat] in Hl, Hm. rewrite length_app in Hl, Hm.
  change (counts_bytes (l :: L)) with (uvarint_bytes 9 (Z.of_nat (length l)) ++ counts_bytes L) in *.
  rewrite <- app_assoc in Hd. cbn [read_counts length map].
  rewrite (len_reads r (length l) _ Hr He Hd) by (rewrite length_app; lia). cbn [mbind option_bind].
  pose proof (drop_enc_length _ _ _ Hr Hd) as Hb.
  rewrite int64_small by (unfold is_int64; lia).
  rewrite IH; [|by apply advance_wf|done| |lia|lia|lia].
  - cbn [mbind option_bind]. rewrite advance_add, length_app. cbn [concat]. rewrite length_app.
    do 3 f_equal. lia.
  - cbn. by rewrite <- drop_drop, Hd, drop_app_length.
Qed.

(** ** The blocks *)

Fixpoint blocks (ks : list kind) (L : list (list nat)) : list Node :=
  match ks, L with
  | k :: ks', l :: L' =>
      match zero_node k with Some z => repeat z (length l) | None => [] end ++ blocks ks' L'
  | _, _ => []
  end.

Lemma zero_kind k : k <> numKinds -> exists z, zero_node k = Some z /\ kindOf z = k.
Proof. destruct k; intros H; try (eexists; split; reflexivity). by destruct H. Qed.

Lemma kinds_known k : k ∈ kinds -> k <> numKinds.
Proof.
  assert (H : forallb (fun k => bool_decide (k <> numKinds)) kinds = true) by (vm_compute; reflexivity).
  rewrite forallb_Forall, Forall_forall in H. intros Hk. specialize (H k Hk). by apply bool_decide_eq_true in H.
Qed.

Lemma kinds_number k : k <> numKinds -> kinds !! kind_number k = Some k.
Proof. destruct k; intros H; try reflexivity. by destruct H. Qed.

Lemma alloc_all_blocks ks (L : list (list nat)) h out :
  (forall k, k ∈ ks -> k <> numKinds) -> length ks = length L ->
  alloc_all ks (map (fun l => Z.of_nat (length l)) L) h out =
    (h ++ blocks ks L, out ++ map Some (List.seq (length h) (length (concat L)))).
Proof.
  revert L h out. induction ks as [|k ks IH]; intros [|l L] h out Hk Hl; try done.
  { cbn. by rewrite !app_nil_r. }
  cbn [map alloc_all blocks concat]. unfold alloc.
  destruct (zero_kind k) as (z & Hz & _); [apply Hk; by left|]. rewrite Hz, Nat2Z.id.
  rewrite IH; [|intros; apply Hk; by right|by injection Hl].
  rewrite length_app, repeat_length, length_app, <- !app_assoc. do 2 f_equal.
  rewrite <- map_app. f_equal. by rewrite seq_app.
Qed.

Lemma repeat_like heap k z l :
  kindOf z = k -> (forall p, p ∈ l -> exists n, heap !! p = Some n /\ kindOf n = k) ->
  Forall2 (like heap) l (repeat z (length l)).
Proof.
  intros Hz. induction l as [|p l IH]; intros H; cbn; [constructor|]. constructor.
  - destruct (H p) as (n & Hn & Hk); [by left|]. exists n. split; [done|congruence].
  - apply IH. intros q Hq. apply H. by right.
Qed.

Lemma blocks_like heap ks (L : list (list nat)) :
  (forall k, k ∈ ks -> k <> numKinds) -> length ks = length L ->
  (forall i l p, L !! i = Some l -> p ∈ l -> exists n, heap !! p = Some n /\ ks !! i = Some (kindOf n)) ->
  Forall2 (like heap) (concat L) (blocks ks L).
Proof.
  revert L. induction ks as [|k ks IH]; intros [|l L] Hk Hl H; try done.
  cbn [concat blocks]. destruct (zero_kind k) as (z & Hz & Hkz); [apply Hk; by left|]. rewrite Hz.
  apply Forall2_app.
  - apply (repeat_like heap k); [done|]. intros p Hp. destruct (H 0%nat l p) as (n & Hn & E); [done..|].
    exists n. split; [done|]. by injection E.
  - apply IH; [intros; apply Hk; by right|by injection Hl|]. intros i l' p Hi Hp. by apply (H (S i) l' p).
Qed.

Lemma marked_blocks heap e :
  marks_ok heap e -> Forall2 (like heap) (concat (byKind e)) (blocks kinds (byKind e)).
Proof.
  intros M. apply blocks_like; [apply kinds_known|symmetry; apply (ok_length _ _ M)|].
  intros i l p Hi Hp. destruct (ok_kind _ _ M i l p Hi Hp) as (n & Hn & Hk & <-).
  exists n. split; [done|]. by apply kinds_number.
Qed.

(** ** Decoding a table *)

Definition table_bytes (L : list (list nat)) (enc : bytes) : bytes :=
  uvarint_bytes 9 (Z.of_nat (length kinds)) ++ counts_bytes L ++ uvarint_bytes 9 (Z.of_nat (length enc)) ++ enc.

Definition sub_reader (enc : bytes) (t : list bytes) : Reader :=
  {| data := enc; rpos := 0; rtable := t; err := None |}.

Lemma Allocate_reads (L : list (list nat)) enc r rest :
  wf_reader r -> err r = None -> length L = length kinds ->
  drop (rpos r) (data r) = table_bytes L enc ++ rest -> (length (concat L) <= length enc)%nat ->
  Allocate (NewDecoder r) =
    Some {| head := advance r (length (table_bytes L enc)); fields := Some (sub_reader enc (rtable r));
            table := table_of (length (concat L)); d_heap := blocks kinds L; d_last := 0 |}.
Proof.
  intros Hr He HL Hd HN. assert (Hmax : Z.of_nat (length (data r)) < 2 ^ 63) by apply Hr.
  assert (Hlen : (length (table_bytes L enc ++ rest) <= length (data r))%nat).
  { rewrite <- Hd, length_drop. lia. }
  unfold table_bytes in *. rewrite <- !app_assoc in Hd. rewrite !length_app in Hlen.
  pose proof (uvarint_bytes_length 9 (Z.of_nat (length kinds))) as HU.
  unfold Allocate. cbn [NewDecoder head].
  pose proof (counts_bytes_length L) as HC.
  rewrite (len_reads r (length kinds) _ Hr He Hd) by (rewrite length_app; lia).
  cbn [mbind option_bind]. rewrite Z.eqb_refl. cbn [negb].
  pose proof (drop_enc_length _ _ _ Hr Hd) as Hb1.
  set (r1 := advance r (length (uvarint_bytes 9 (Z.of_nat (length kinds))))).
  assert (W1 : wf_reader r1) by (by apply advance_wf).
  assert (Hd1 : drop (rpos r1) (data r1) = counts_bytes L ++ uvarint_bytes 9 (Z.of_nat (length enc)) ++ enc ++ rest).
  { cbn. by rewrite <- drop_drop, Hd, drop_app_length. }
  rewrite <- HL, (read_counts_reads L 0 r1 _ W1 He Hd1) by (rewrite ?length_app; lia).
  cbn [mbind option_bind]. pose proof (drop_enc_length _ _ _ W1 Hd1) as Hb2.
  set (r2 := advance r1 (length (counts_bytes L))).
  assert (W2 : wf_reader r2) by (by apply advance_wf).
  assert (Hd2 : drop (rpos r2) (data r2) = uvarint_bytes 9 (Z.of_nat (length enc)) ++ enc ++ rest).
  { change (drop (rpos r1 + length (counts_bytes L)) (data r1) = uvarint_bytes 9 (Z.of_nat (length enc)) ++ enc ++ rest).
    by rewrite <- drop_drop, Hd1, drop_app_length. }
  rewrite (section_reads r2 enc rest W2 He Hd2). cbn [mbind option_bind].
  change (err (advance r2 ?k)) with (err r). rewrite He.
  rewrite int64_small by (unfold is_int64; lia).
  rewrite (proj2 (Z.ltb_ge (0 + Z.of_nat (length (concat L)) + 1) 1)) by lia.
  rewrite (alloc_all_blocks kinds L _ _ kinds_known) by done. cbn [d_heap app length].
  unfold r2, r1. rewrite !advance_add, !length_app. unfold table_of, sub_reader. by rewrite HL, ?Nat.add_assoc.
Qed.

Lemma Decode_reads (L : list (list nat)) enc r rest fs last' :
  wf_reader r -> err r = None -> length L = length kinds ->
  drop (rpos r) (data r) = table_bytes L enc ++ rest -> (length (concat L) <= length enc)%nat ->
  fill (table_of (length (concat L))) (map Some (List.seq 0 (length (concat L)))) (blocks kinds L) 0
       (sub_reader enc (rtable r)) = Some (fs, last', advance (sub_reader enc (rtable r)) (length enc)) ->
  Decode (NewDecoder r) =
    Some {| head := advance r (length (table_bytes L enc));
            fields := Some (advance (sub_reader enc (rtable r)) (length enc));
            table := table_of (length (concat L)); d_heap := fs; d_last := last' |}.
Proof.
  intros Hr He HL Hd HN Hf. unfold Decode. rewrite (Allocate_reads L enc r rest) by done.
  cbn [mbind option_bind]. unfold Fill. cbn [fields table d_heap d_last head]. unfold table_of at 1.
  cbn [table_of] in Hf. rewrite Hf. done.
Qed.

(** ** Encoding a table *)

(** What [Encode] does after its walk left [ec]. *)
Lemma Encode_after heap roots w ec :
  each (node heap (walk_fuel heap)) roots (collect_mode (NewEncoder w)) = Some ec ->
  marks_ok heap ec ->
  let order := concat (byKind ec) in
  let ids := number (e_ids ec) 1 order in
  numbered heap order ids ->
  exists e last' fs, Encode heap roots (NewEncoder w) = Some e /\ e_ids e = ids /\ e_err e = e_err ec
    /\ Forall2 (image heap ids) order fs
    /\ (wf_table (strs w) -> fits (ew e) ->
        wf_table (strs (ew e)) /\
        exists enc, body (ew e) = body w ++ table_bytes (byKind ec) enc
          /\ Forall is_byte (table_bytes (byKind ec) enc) /\ (length order <= length enc)%nat
          /\ forall r, wf_reader r -> err r = None -> Pack.table (strs (ew e)) `prefix_of` rtable r ->
               drop (rpos r) (data r) = enc ->
               fill (table_of (length order)) (map Some (List.seq 0 (length order))) (blocks kinds (byKind ec)) 0 r
               = Some (fs, last', advance r (length enc))).
Proof.
  intros Hwalk M order ids Hnum. unfold Encode. cbn [ew NewEncoder]. rewrite Hwalk. cbn [mbind option_bind].
  set (e0 := write_mode ec w). set (wh := {| body := body w ++ uvarint_bytes 9 (Z.of_nat (length kinds)) ++ counts_bytes (byKind ec); strs := strs w |}).
  assert (E1 : (Len (length kinds);; each (fun ps => Len (length ps)) (byKind e0)) e0 = Some (with_writer e0 wh)).
  { unfold seq, Len, writing. cbn [mbind option_bind]. change (byKind e0) with (byKind ec).
    rewrite counts_written. unfold wh. cbn. unfold AppendUvarint. by rewrite <- app_assoc. }
  rewrite E1. cbn [mbind option_bind]. clear E1.
  set (es := with_writer (with_writer e0 wh) {| body := []; strs := strs (ew (with_writer e0 wh)) |}).
  destruct (fields_fill heap order ids Hnum order [] [] (blocks kinds (byKind ec)) es)
    as (ws & last' & fs & E2 & G2 & F2 & L2); [done|constructor|by apply marked_blocks|done|done|].
  change (concat (byKind (with_writer e0 wh))) with order. fold es. rewrite E2. cbn [mbind option_bind].
  eexists _, last', fs. split_and!; [done|done|done|done|].
  cbn [with_writer with_last ew e_ids es wh e0 write_mode strs body] in *.
  intros Hw [F1 F3]. cbn [Writer_Section append Writer_Len Writer_Uint body strs] in *.
  unfold wh, AppendUvarint in *. cbn [body] in *. rewrite !length_app in F3.
  destruct G2 as [_ G2]. cbn [length Nat.add body] in G2.
  assert (Hsm : few order) by (unfold few; lia).
  destruct (L2 Hsm Hw) as (W & enc & B & Y & D); [by split; [|lia]|]. change (body ws = enc) in B.
  split; [done|]. exists enc. rewrite B in *. unfold table_bytes. rewrite <- !app_assoc.
  assert (Hu : is_uint64 (Z.of_nat (length enc))) by (unfold is_uint64, two64; lia).
  split_and!; [done| |lia|exact D].
  rewrite !Forall_app. split_and!; [by apply uint_bytes_byte|apply counts_byte; fold order; unfold two64; lia|by apply uint_bytes_byte|done].
Qed.

(** ** The tree decoded *)

Lemma map_arg_ext f g a : (forall r, f r = g r) -> map_arg f a = map_arg g a.
Proof. intros H. unfold map_arg. by rewrite !H. Qed.

Lemma map_param_ext f g p : (forall r, f r = g r) -> map_param f p = map_param g p.
Proof. intros H. unfold map_param. by rewrite !H, !(map_ext f g H). Qed.

Lemma map_refs_ext f g n : (forall r, f r = g r) -> map_refs f n = map_refs g n.
Proof.
  intros H. pose proof (fun a => map_arg_ext f g a H) as Ha. pose proof (fun p => map_param_ext f g p H) as Hp.
  destruct n; cbn [map_refs];
    rewrite ?H, ?(map_ext f g H), ?(map_ext _ _ Ha), ?(map_ext _ _ Hp); reflexivity.
Qed.

(** The node the decoder has for one of the encoder's, by the id between them. *)
Definition decoded_ref (heap : list Node) (e : Encoder) (d : Decoder) (r : ref) : ref :=
  match ID heap e r with Some (id, _) => fst (Decoder_Node d id) | None => None end.

(** The decoder's nodes are those reachable from the roots, one for each, with the
    same fields and with references to the copies of what they lead to. *)
Record same_tree (heap : list Node) (roots : list ref) (e : Encoder) (d : Decoder) : Prop := {
  st_node : forall p n, reachable heap roots p -> heap !! p = Some n ->
    exists id a, ID heap e (Some p) = Some (id, true) /\ Decoder_Node d id = (Some a, true)
      /\ d_heap d !! a = Some (map_refs (decoded_ref heap e d) n);
  st_only : forall a, (a < length (d_heap d))%nat ->
    exists p, reachable heap roots p /\ decoded_ref heap e d (Some p) = Some a;
  st_apart : forall p q, reachable heap roots p -> reachable heap roots q ->
    decoded_ref heap e d (Some p) = decoded_ref heap e d (Some q) -> p = q;
}.

Lemma typed_closed heap : typed_heap heap = true -> closed heap /\ forall p n, heap !! p = Some n -> well_typed (points heap) n = true.
Proof.
  unfold typed_heap. rewrite forallb_Forall, Forall_lookup. intros H. split.
  - intros p n Hp q Hq. specialize (H p n Hp). apply andb_prop in H as [H _].
    rewrite forallb_Forall, Forall_forall in H. specialize (H _ Hq). cbn in H. by destruct (heap !! q).
  - intros p n Hp. by specialize (H p n Hp) as [_ ?]%andb_prop.
Qed.

Section tree.
Variables (heap : list Node) (roots : list ref).
Hypothesis Htyped : typed_heap heap = true.
Hypothesis Hrange : forallb in_range heap = true.
Hypothesis Hroots : in_heap heap roots.
Hypothesis Hknown : forall p T, reachable heap roots p -> ~ unknown heap p T.

Lemma reachable_in p : reachable heap roots p -> exists n, heap !! p = Some n /\ kindOf n <> numKinds.
Proof using Htyped Hroots Hknown.
  intros Hp. assert (Hin : is_Some (heap !! p)).
  { destruct Hp as (q & Hq & Hr). apply rtc_inv_r in Hr as [<-|(x & _ & n & Hx & Hr)]; [by apply Hroots|].
    by eapply (proj1 (typed_closed heap Htyped)). }
  destruct Hin as [n Hn]. exists n. split; [done|]. intros [T ->]%kind_foreign. by eapply Hknown.
Qed.

(** The walk of [Encode] over this tree. *)
Lemma walk_all w : exists ec,
  each (node heap (walk_fuel heap)) roots (collect_mode (NewEncoder w)) = Some ec
  /\ marks_ok heap ec /\ e_err ec = None /\ forall p, p ∈ concat (byKind ec) <-> reachable heap roots p.
Proof using Htyped Hroots Hknown.
  destruct (walk_fresh_all heap roots _ (proj1 (typed_closed heap Htyped)) Hroots (fresh_collect w))
    as (ec & E & M & Hs & He).
  exists ec. split_and!; [done..| |].
  - destruct (e_err ec) as [[T]|]; [|done]. destruct He as (q & Hq & Hu). by destruct (Hknown q T Hq).
  - intros p. rewrite (ok_seen heap ec M), Hs. split; [by intros [_ ?]|]. intros Hp. split; [|done]. by apply reachable_in.
Qed.

Lemma walk_numbered ec :
  marks_ok heap ec -> (forall p, p ∈ concat (byKind ec) <-> reachable heap roots p) ->
  numbered heap (concat (byKind ec)) (number (e_ids ec) 1 (concat (byKind ec))).
Proof using Htyped Hrange Hroots Hknown.
  intros M Hr. split.
  - intros j p Hj. apply number_at; [apply M|done].
  - intros p Hp. apply reachable_in. by apply Hr.
  - intros p n q Hp Hn Hq. apply Hr. apply Hr in Hp as (x & Hx & Hrt). exists x. split; [done|].
    eapply rtc_r; [done|]. by exists n.
  - apply typed_closed, Htyped.
  - intros p n Hp. rewrite forallb_Forall, Forall_lookup in Hrange. by eapply Hrange.
Qed.

Lemma image_same_tree ec e d :
  marks_ok heap ec -> (forall p, p ∈ concat (byKind ec) <-> reachable heap roots p) ->
  e_ids e = number (e_ids ec) 1 (concat (byKind ec)) ->
  table d = table_of (length (concat (byKind ec))) ->
  Forall2 (image heap (e_ids e)) (concat (byKind ec)) (d_heap d) ->
  same_tree heap roots e d.
Proof using Htyped Hroots Hknown.
  intros M Hr Hids Htbl Himg. pose proof (ok_nodup heap ec M) as Hn. set (order := concat (byKind ec)) in *.
  assert (Hat : forall j p, order !! j = Some p -> e_ids e !! p = Some (1 + Z.of_nat j)).
  { intros j p Hj. rewrite Hids. by apply number_at. }
  assert (Hnode : forall j, (j < length order)%nat -> Decoder_Node d (1 + Z.of_nat j) = (Some j, true)).
  { intros j Hj. unfold Decoder_Node, lookup_node. rewrite Htbl, (proj2 (Z.leb_gt _ _)).
    - replace (Z.to_nat (1 + Z.of_nat j)) with (S j) by lia. by rewrite table_lookup.
    - unfold table_of. cbn [length]. rewrite length_map, length_seq. lia. }
  assert (Hnil : Decoder_Node d 0 = (None, true)).
  { unfold Decoder_Node, lookup_node. rewrite Htbl. done. }
  assert (Hid : forall j p, order !! j = Some p -> ID heap e (Some p) = Some (1 + Z.of_nat j, true)).
  { intros j p Hj. destruct (reachable_in p) as (n & Hp & Hk); [by apply Hr, (list_elem_of_lookup_2 _ j)|].
    cbn [ID mbind option_bind]. rewrite Hp. cbn [mbind option_bind]. rewrite bool_decide_false by done. by rewrite (Hat j). }
  assert (Href : forall r, decoded_ref heap e d r = renamed (e_ids e) r).
  { intros [p|]; [|unfold decoded_ref; cbn [ID]; by rewrite Hnil]. cbn [renamed mbind option_bind].
    destruct (decide (p ∈ order)) as [[j Hj]%list_elem_of_lookup|Hout].
    - unfold decoded_ref. rewrite (Hid j p Hj), (Hat j p Hj), Hnode by (by eapply lookup_lt_Some).
      cbn. f_equal. lia.
    - assert (Hno : e_ids e !! p = None).
      { rewrite Hids, number_not by done. apply not_elem_of_dom. by rewrite <- (ok_seen heap ec M p). }
      unfold decoded_ref. cbn [ID mbind option_bind]. rewrite Hno. destruct (heap !! p); [|done].
      cbn [mbind option_bind]. by destruct (bool_decide _); rewrite Hnil. }
  split.
  - intros p n Hp Hn'. apply Hr, list_elem_of_lookup in Hp as [j Hj].
    destruct (Forall2_lookup_l _ _ _ _ _ Himg Hj) as (n' & Hd & n0 & Hn0 & ->).
    exists (1 + Z.of_nat j), j. split_and!; [by apply Hid|apply Hnode; by eapply lookup_lt_Some|].
    rewrite Hd. f_equal. replace n0 with n by congruence. apply map_refs_ext. intros r. by rewrite Href.
  - intros a Ha. rewrite <- (Forall2_length _ _ _ Himg) in Ha.
    destruct (lookup_lt_is_Some_2 order a Ha) as [p Hp]. exists p. split; [by apply Hr, (list_elem_of_lookup_2 _ a)|].
    unfold decoded_ref. by rewrite (Hid a p Hp), Hnode.
  - intros p q [i Hi]%Hr%list_elem_of_lookup [j Hj]%Hr%list_elem_of_lookup. rewrite !Href. cbn [renamed mbind option_bind].
    rewrite (Hat i p Hi), (Hat j q Hj). cbn [mbind option_bind]. intros [= H]. assert (i = j) as -> by lia. congruence.
Qed.
End tree.

(** ** Whole streams *)

Lemma new_table : wf_table (strs NewWriter).
Proof. intros s id. cbn. rewrite lookup_empty, lookup_nil. split; [done|by intros [_ ?]]. Qed.

Lemma Bytes_fits w : Z.of_nat (length (Bytes w)) < 2 ^ 63 -> fits w.
Proof.
  rewrite Bytes_eq, !length_app. pose proof (lengths_bytes_length (Pack.table (strs w))).
  unfold fits, two64. lia.
Qed.

Lemma advance_done r enc :
  wf_reader r -> err r = None -> drop (rpos r) (data r) = enc -> Done (advance r (length enc)) = true.
Proof.
  intros [Hp _] He Hd. unfold Done. rewrite bool_decide_true by done. cbn. apply Nat.eqb_eq.
  apply (f_equal length) in Hd. rewrite length_drop in Hd. lia.
Qed.

(** C4: a tree of known nodes, encoded and decoded, is the same tree, whatever its
    sharing and cycles: encoding succeeds without an error, and where the stream is
    within Go's limits a reader opens it, decoding it fails nowhere and leaves
    nothing unread, and the decoder's nodes are the reachable ones, one for each,
    with their fields and with their references to each other. *)
Theorem Encode_Decode heap roots :
  typed_heap heap = true -> forallb in_range heap = true -> in_heap heap roots ->
  (forall p T, reachable heap roots p -> ~ unknown heap p T) ->
  exists e, Encode heap roots (NewEncoder NewWriter) = Some e /\ e_err e = None /\
    (Forall (Forall is_byte) (Pack.table (strs (ew e))) -> Z.of_nat (length (Bytes (ew e))) < 2 ^ 63 ->
     exists r d, NewReader (Bytes (ew e)) = Some (Ok r) /\ Decode (NewDecoder r) = Some d
       /\ Err d = None /\ Done (head d) = true /\ same_tree heap roots e d).
Proof.
  intros Ht Hr Hroots Hk. destruct (walk_all heap roots Ht Hroots Hk NewWriter) as (ec & E & M & Herr & Hin).
  destruct (Encode_after heap roots NewWriter ec E M (walk_numbered heap roots Ht Hr Hroots Hk ec M Hin))
    as (e & last' & fs & E' & Hids & He & Himg & Hread).
  exists e. split; [done|]. split; [by rewrite He|]. intros Hs Hlen.
  destruct (Hread new_table (Bytes_fits _ Hlen)) as (Hw & enc & Hb & Hy & Hn & Hfill).
  cbn [NewWriter body app] in Hb.
  destruct (NewReader_reads (ew e)) as (r & Er & Wr & Hre & Hrt & Hrd);
    [apply Bytes_byte; [done|by rewrite Hb|done]|done|].
  assert (Hsub : wf_reader (sub_reader enc (rtable r))).
  { destruct (Bytes_fits _ Hlen) as [_ Hbody]. rewrite Hb in *. unfold table_bytes in *.
    rewrite !length_app in Hbody. rewrite !Forall_app in Hy. split_and!; cbn; [lia|tauto|lia]. }
  eexists r, _. split; [done|]. split; [|split_and!].
  - apply (Decode_reads (byKind ec) enc r [] fs last'); try done; [by apply M|by rewrite app_nil_r, Hrd|].
    apply Hfill; [done|done|by rewrite Hrt|done].
  - unfold Err. cbn [head fields advance err]. by rewrite Hre.
  - cbn [head]. apply advance_done; [done|done|by rewrite Hrd].
  - eapply image_same_tree; try done. by rewrite Hids.
Qed.

Lemma sample_edges x y : edge sample_tree x y -> (x < 4)%nat -> (y < 4)%nat.
Proof.
  intros (n & Hn & Hy) Hx.
  do 4 (destruct x as [|x]; [injection Hn as <-; cbn in Hy; elem_cases Hy; try done; injection Hy as ->; lia|]). lia.
Qed.

Lemma sample_known p T : reachable sample_tree [Some 2%nat] p -> ~ unknown sample_tree p T.
Proof.
  intros (q & Hq%list_elem_of_singleton & Hr). injection Hq as ->.
  assert (Hin : forall x, reaches sample_tree x p -> (x < 4)%nat -> (p < 4)%nat).
  { clear Hr. intros x Hr. induction Hr as [|x y z Hxy _ IH]; [done|]. intros Hx. apply IH. by eapply sample_edges. }
  specialize (Hin _ Hr ltac:(lia)). unfold unknown. do 4 (destruct p as [|p]; [done|]). lia.
Qed.

Lemma Encode_Decode_witness :
  typed_heap sample_tree = true /\ forallb in_range sample_tree = true /\
  exists e, Encode sample_tree [Some 2%nat] (NewEncoder NewWriter) = Some e /\ e_err e = None /\
    exists r d, NewReader (Bytes (ew e)) = Some (Ok r) /\ Decode (NewDecoder r) = Some d
      /\ Err d = None /\ Done (head d) = true /\ same_tree sample_tree [Some 2%nat] e d.
Proof.
  assert (Ht : typed_heap sample_tree = true) by (vm_compute; reflexivity).
  assert (Hr : forallb in_range sample_tree = true) by (vm_compute; reflexivity).
  split; [exact Ht|]. split; [exact Hr|].
  assert (Hc : match Encode sample_tree [Some 2%nat] (NewEncoder NewWriter) with
    | Some e => forallb (forallb (fun b => (0 <=? b) && (b <? 256))) (Pack.table (strs (ew e)))
                && (Z.of_nat (length (Bytes (ew e))) <? 2 ^ 63)
    | None => false end = true) by (vm_compute; reflexivity).
  destruct (Encode_Decode sample_tree [Some 2%nat] Ht Hr) as (e & E & He & H).
  - apply sample_roots. lia.
  - intros p T. apply sample_known.
  - exists e. split; [exact E|]. split; [exact He|]. rewrite E in Hc. apply andb_prop in Hc as [Hb Hl].
    apply H; [|lia]. rewrite forallb_Forall in Hb. eapply Forall_impl; [exact Hb|]. intros s Hs.
    rewrite forallb_Forall in Hs. eapply Forall_impl; [exact Hs|]. intros b Hbb. unfold is_byte. bool_split. lia.
Defined.
