(* ===== verification/AstSafe.v ===== *)
(** * Decoding any bytes: properties

    [gives d P]: the read [d] never panics and what it answers satisfies [P]. For every
    node type the fields read lead to nodes of their types, so that whatever the
    bytes, the decoder's nodes are a heap Go's types allow ([Decode_safe]). *)
From stdpp Require Import gmap.
From S2P Require Import Prelude Machine Pack PackFacts Ast AstCodec AstWalk AstWrites AstRoundTrip.
Local Open Scope Z_scope.
Local Open Scope codec_scope.

Create HintDb gives.

(** ** Lengths *)

Lemma uint_err r v r' : wf_reader r -> Reader_Uint r = Some (v, r') -> err r' <> None -> v = 0.
Proof.
  intros Hr. unfold Reader_Uint, read_varint, one_byte. destruct (err r) eqn:Ee; [by intros [= <- _]|].
  assert (Hslow : (b ← Pack.rest r; let '(v, n) := Uvarint b in
     if n <=? 0 then Some (0, fail r (bs "varint")) else Some (v, advance r (Z.to_nat n))) = Some (v, r') ->
     err r' <> None -> v = 0).
  { rewrite (rest_wf r Hr). cbn [mbind option_bind]. destruct (Uvarint _) as [u n].
    destruct (n <=? 0); intros [= <- <-]; [done|]. cbn. by rewrite Ee. }
  destruct (data r !! rpos r) as [b|]; [|exact Hslow]. destruct (b <? 128); [|exact Hslow].
  intros [= <- <-]. cbn. by rewrite Ee.
Qed.

(** A length is never negative, nor more than the data. *)
Lemma len_value r n r' :
  wf_reader r -> Reader_Len r = Some (n, r') -> 0 <= n <= Z.of_nat (length (data r)).
Proof.
  intros Hr H. destruct (err r') as [x|] eqn:E.
  - revert H. unfold Reader_Len.
    destruct (read_varint_safe Uvarint id Uvarint_decoder r Hr) as (v & r1 & E1 & W & D & _).
    unfold Reader_Uint. rewrite E1. cbn [mbind option_bind]. destruct (err r1) eqn:Ee.
    + assert (v = 0) as -> by (apply (uint_err r v r1 Hr E1); by rewrite Ee). intros [= <- _]. change (int64 0) with 0. lia.
    + rewrite (rest_wf r1 W). cbn [mbind option_bind]. destruct (_ <? v); intros [= <- <-]; [lia|congruence].
  - pose proof (len_bound r n r' Hr H E) as Hb.
    destruct (len_safe r Hr) as (n' & r1 & E1 & W & D & _). rewrite E1 in H. injection H as <- <-.
    rewrite <- D. lia.
Qed.

(** ** The relation *)

(** A reader that went on within the same data. *)
Definition onward (r r' : Reader) : Prop :=
  wf_reader r' /\ data r' = data r /\ rtable r' = rtable r /\ (rpos r <= rpos r')%nat.

Lemma onward_trans r1 r2 r3 : onward r1 r2 -> onward r2 r3 -> onward r1 r3.
Proof. intros (W1 & D1 & T1 & P1) (W2 & D2 & T2 & P2). split_and!; [done|congruence|congruence|lia]. Qed.

Definition gives {A} (d : dec A) (P : A -> Prop) : Prop :=
  forall last r, wf_reader r -> exists a last' r', d last r = Some ((a, last'), r') /\ onward r r' /\ P a.

Lemma gives_ret {A} (a : A) (P : A -> Prop) : P a -> gives (ret a) P.
Proof. intros HP last r Hr. exists a, last, r. by split_and!. Qed.

Lemma gives_bind {A B} (d : dec A) (f : A -> dec B) P Q :
  gives d P -> (forall a, P a -> gives (f a) Q) -> gives (dbind d f) Q.
Proof.
  intros Hd Hf last r Hr. destruct (Hd last r Hr) as (a & l1 & r1 & E1 & O1 & Pa).
  destruct (Hf a Pa l1 r1 (proj1 O1)) as (b & l2 & r2 & E2 & O2 & Qb).
  exists b, l2, r2. unfold dbind. rewrite E1. cbn [mbind option_bind].
  split_and!; [done|by eapply onward_trans|done].
Qed.

Lemma gives_impl {A} (d : dec A) (P Q : A -> Prop) : gives d P -> (forall a, P a -> Q a) -> gives d Q.
Proof. intros H HPQ last r Hr. destruct (H last r Hr) as (a & l & r' & ? & ? & ?). eauto 8. Qed.

Definition any {A} (_ : A) : Prop := True.

Lemma gives_reading {A} (get : read A) z : safe get z -> gives (reading get) any.
Proof.
  intros H last r Hr. destruct (H r Hr) as (a & r' & E & W & D & T & P & _).
  exists a, last, r'. unfold reading. rewrite E. by split_and!.
Qed.

Lemma gives_Uint : gives d_Uint any.
Proof. eapply gives_reading, read_varint_safe, Uvarint_decoder. Qed.
Lemma gives_Int : gives d_Int any.
Proof. eapply gives_reading, read_varint_safe, Varint_decoder. Qed.
Lemma gives_Bool : gives d_Bool any.
Proof. eapply gives_reading, bool_safe. Qed.
Lemma gives_String : gives d_String any.
Proof. eapply gives_reading, string_safe. Qed.

Lemma gives_Len : gives d_Len (fun n => 0 <= n).
Proof.
  intros last r Hr. destruct (len_safe r Hr) as (n & r' & E & W & D & T & P & _).
  pose proof (len_value r n r' Hr E). exists n, last, r'. unfold d_Len, reading. rewrite E.
  split_and!; [done..|lia].
Qed.

Lemma gives_fail w : gives (d_fail w) any.
Proof.
  intros last r Hr. destruct (fail_wf r w Hr) as (F1 & F2 & F3 & F4 & _).
  exists tt, last, (fail r w). split; [done|]. split; [|done].
  split; [exact F1|]. split_and!; [done|done|lia].
Qed.

Lemma gives_times {A} (d : dec A) P n : gives d P -> gives (times d n) (Forall P).
Proof.
  intros H. induction n as [|n IH]; cbn [times]; [by apply gives_ret|].
  eapply gives_bind; [exact H|]. intros x Hx. eapply gives_bind; [exact IH|]. intros l Hl.
  apply gives_ret. by constructor.
Qed.

Lemma gives_taken {A} (d : dec A) P : gives d P -> gives (filled_slice d) (Forall P).
Proof.
  intros H. eapply gives_bind; [apply gives_Len|]. intros n Hn.
  rewrite (proj2 (Z.ltb_ge n 0)) by done. by apply gives_times.
Qed.
#[local] Hint Resolve gives_Int gives_Bool gives_String : gives.

(** Fields in turn, of which nothing is asked. *)
Ltac gives_fields :=
  repeat (eapply gives_bind; [solve [eauto with gives nocore]|intros ? ?]); apply gives_ret.

Lemma gives_span : gives d_span any.
Proof.
  intros last r Hr. unfold d_span.
  apply (gives_bind d_Int (fun offset => let* length := d_Int in fun _ r => let o := int64 (last + offset) in
    Some (({| Offset := o; Ast.Len := length |}, o), r)) any any gives_Int); [|done].
  intros o _. apply (gives_bind d_Int _ any any gives_Int). intros l _ last' r' Hr'.
  eexists _, _, _. split; [done|]. by split_and!.
Qed.
#[local] Hint Resolve gives_span : gives.

Lemma gives_trivia : gives d_trivia any.
Proof. eapply gives_impl; [apply (gives_taken _ any); gives_fields|]; done. Qed.
#[local] Hint Resolve gives_trivia : gives.

Lemma gives_base : gives d_base any.
Proof. unfold d_base. by gives_fields. Qed.
Lemma gives_ident : gives d_ident any.
Proof. unfold d_ident. by gives_fields. Qed.
Lemma gives_segment : gives d_segment any.
Proof. unfold d_segment. by gives_fields. Qed.
Lemma gives_segments : gives d_segments any.
Proof. eapply gives_impl; [apply (gives_taken _ any), gives_segment|done]. Qed.

Lemma gives_parts : gives d_parts any.
Proof.
  eapply gives_bind; [apply gives_Len|]. intros n Hn. destruct (n =? 1).
  - eapply gives_bind; [apply gives_segment|]. intros. by apply gives_ret.
  - rewrite (proj2 (Z.ltb_ge n 0)) by done.
    eapply gives_impl; [apply (gives_times _ any), gives_segment|done].
Qed.
#[local] Hint Resolve gives_base gives_ident gives_segments gives_parts : gives.

(** ** References *)

Section references.
Variables (tbl : list ref) (heap : list Node).
Definition somewhere : ref -> Prop := fun r => points heap (fun _ => true) r = true.
Hypothesis tbl_heap : Forall somewhere tbl.

Lemma gives_node : gives (d_node tbl) somewhere.
Proof using tbl_heap.
  eapply gives_bind; [apply gives_Uint|]. intros id _. destruct (lookup_node tbl id) as [n ok] eqn:E.
  assert (Hn : somewhere n).
  { unfold lookup_node in E. destruct (_ <=? id); injection E as <- _; [done|].
    destruct (tbl !! Z.to_nat id) as [r|] eqn:Er; [|done]. rewrite Forall_lookup in tbl_heap. by eapply tbl_heap. }
  destruct ok; [by apply gives_ret|]. eapply gives_bind; [apply gives_fail|]. intros. by apply gives_ret.
Qed.

Definition to (T : kind -> bool) (r : ref) : Prop := points heap T r = true /\ somewhere r.

Lemma gives_typed T : gives (typed tbl heap T) (to T).
Proof using tbl_heap.
  eapply gives_bind; [apply gives_node|]. intros [p|] Hp; [|by apply gives_ret].
  destruct (points heap T (Some p)) eqn:E; [by apply gives_ret|].
  eapply gives_bind; [apply gives_fail|]. intros. by apply gives_ret.
Qed.

Definition all_to (T : kind -> bool) (l : list ref) : Prop :=
  forallb (points heap T) l = true /\ Forall somewhere l.

Lemma gives_nodes : gives (d_nodes tbl) (Forall somewhere).
Proof using tbl_heap. apply gives_taken, gives_node. Qed.

Lemma gives_pointers T : gives (filled_slice (typed tbl heap T)) (all_to T).
Proof using tbl_heap.
  eapply gives_impl; [apply gives_taken, gives_typed|]. intros l Hl.
  unfold all_to. rewrite forallb_Forall. split; eapply Forall_impl; try exact Hl; by intros r [? ?].
Qed.
Hint Resolve gives_node gives_typed gives_nodes : gives.
Hint Extern 1 (gives (d_rels _ _) _) => apply gives_pointers : gives.
Hint Extern 1 (gives (d_prefixes _ _) _) => apply gives_pointers : gives.
Hint Extern 1 (gives (d_qnames _ _) _) => apply gives_pointers : gives.
Hint Extern 1 (gives (d_regions _ _) _) => apply gives_pointers : gives.
Hint Extern 1 (gives (d_ends _ _) _) => apply gives_pointers : gives.
Hint Extern 1 (gives (d_operatorExprs _ _) _) => apply gives_pointers : gives.

Definition all_args (l : list NamedArg) : Prop :=
  forallb (arg_typed (points heap)) l = true /\ Forall somewhere (concat (map arg_refs l)).
Definition all_params (l : list BodyParam) : Prop :=
  forallb (param_typed (points heap)) l = true /\ Forall somewhere (concat (map param_refs l)).

(** What the reads answered, as conditions on references and as the typing. *)
Ltac answers :=
  repeat match goal with
  | H : to _ _ |- _ => destruct H
  | H : all_to _ _ |- _ => destruct H
  | H : all_args _ |- _ => destruct H
  | H : all_params _ |- _ => destruct H
  end;
  rewrite ?Forall_app, ?Forall_singleton, ?Forall_cons, ?andb_true_iff;
  repeat match goal with |- _ /\ _ => split end;
  first [assumption | reflexivity | constructor].

Lemma gives_namedArgs : gives (d_namedArgs tbl heap) all_args.
Proof using tbl_heap.
  eapply gives_impl.
  - apply (gives_taken _ (fun a => arg_typed (points heap) a = true /\ Forall somewhere (arg_refs a))).
    gives_fields. unfold arg_typed, arg_refs. cbn [NamedArg_Name NamedArg_Value]. answers.
  - intros l Hl. unfold all_args, all_params. rewrite forallb_Forall, Forall_concat, Forall_map. split; eapply Forall_impl; try exact Hl; by intros r [? ?].
Qed.

Lemma gives_params : gives (d_params tbl heap) all_params.
Proof using tbl_heap.
  eapply gives_impl.
  - apply (gives_taken _ (fun p => param_typed (points heap) p = true /\ Forall somewhere (param_refs p))).
    gives_fields. unfold param_typed, param_refs.
    cbn [BodyParam_Type BodyParam_Multiplicity BodyParam_Value BodyParam_Members BodyParam_Relationships]. answers.
  - intros l Hl. unfold all_args, all_params. rewrite forallb_Forall, Forall_concat, Forall_map. split; eapply Forall_impl; try exact Hl; by intros r [? ?].
Qed.
Hint Resolve gives_namedArgs gives_params : gives.

(** A node as the decoder reads it: of its block's kind, its references in the heap
    and of their fields' types. *)
Definition sound_node (k : kind) (n : Node) : Prop :=
  kindOf n = k /\ well_typed (points heap) n = true /\ Forall somewhere (refs n).

Lemma decodeFields_gives n : kindOf n <> numKinds -> gives (decodeFields tbl heap n) (sound_node (kindOf n)).
Proof using tbl_heap.
  intros Hk. destruct n; cbn [decodeFields kindOf]; [..|by destruct Hk];
    gives_fields; unfold sound_node; cbn [kindOf well_typed refs]; split_and!; try reflexivity; answers.
Qed.
End references.

(** ** Heaps being filled *)

(** The node kinds of a heap, which filling it keeps. *)
Definition same_kinds (h h' : list Node) : Prop := map kindOf h = map kindOf h'.

Lemma points_kinds h h' T r : same_kinds h h' -> points h T r = points h' T r.
Proof.
  intros H. destruct r as [p|]; [|done]. cbn. apply (f_equal (fun l => l !! p)) in H.
  change (map kindOf ?l) with (kindOf <$> l) in H. rewrite !list_lookup_fmap in H.
  destruct (h !! p), (h' !! p); cbn in H; congruence.
Qed.

Lemma insert_kinds h p n n' : h !! p = Some n -> kindOf n' = kindOf n -> same_kinds (<[p := n']> h) h.
Proof.
  intros Hp Hk. unfold same_kinds. change (map kindOf ?l) with (kindOf <$> l).
  rewrite list_fmap_insert, Hk. apply list_insert_id. by rewrite list_lookup_fmap, Hp.
Qed.

(** A node whose references fit the heap, of a type the codec knows. *)
Definition fits_heap (h : list Node) (n : Node) : Prop := sound_node h (kindOf n) n /\ kindOf n <> numKinds.

(** The typing reads the references' kinds only. *)
Lemma arg_typed_ext f g a : (forall T r, f T r = g T r) -> arg_typed f a = arg_typed g a.
Proof. intros H. apply H. Qed.
Lemma forallb_ext {A} (p q : A -> bool) l : (forall x, p x = q x) -> forallb p l = forallb q l.
Proof. intros H. induction l as [|x l IH]; [done|]. cbn. by rewrite H, IH. Qed.
Lemma param_typed_ext f g p : (forall T r, f T r = g T r) -> param_typed f p = param_typed g p.
Proof. intros H. unfold param_typed. by rewrite !H, (forallb_ext _ _ _ (H (pointer kindRelationship))). Qed.

Lemma well_typed_ext f g n : (forall T r, f T r = g T r) -> well_typed f n = well_typed g n.
Proof.
  intros H. pose proof (fun T l => forallb_ext _ _ l (H T)) as Hl.
  pose proof (fun l => forallb_ext _ _ l (fun a => arg_typed_ext f g a H)) as Ha.
  pose proof (fun l => forallb_ext _ _ l (fun a => param_typed_ext f g a H)) as Hp.
  destruct n; cbn [well_typed]; rewrite ?H, ?Hl, ?Ha, ?Hp; reflexivity.
Qed.

Lemma fits_heap_kinds h h' n : same_kinds h h' -> fits_heap h n -> fits_heap h' n.
Proof.
  intros H ((K & T & R) & U). pose proof (fun T r => points_kinds h h' T r H) as Hp.
  split; [|done]. split_and!; [done|by rewrite <- (well_typed_ext _ _ n Hp)|].
  eapply Forall_impl; [exact R|]. intros r Hr. unfold somewhere in *. by rewrite <- Hp.
Qed.

Lemma fits_typed_heap h : Forall (fits_heap h) h -> typed_heap h = true.
Proof.
  intros H. unfold typed_heap. rewrite forallb_Forall. eapply Forall_impl; [exact H|].
  intros n ((_ & T & R) & _). rewrite T, andb_true_r, forallb_Forall. exact R.
Qed.

Lemma zero_fits h k z : zero_node k = Some z -> fits_heap h z.
Proof.
  intros H. assert (Hz : kindOf z <> numKinds) by (destruct k; (discriminate H || injection H as <-); done).
  split; [|done]. destruct k; (discriminate H || injection H as <-); split_and!; try done; repeat constructor.
Qed.

Lemma fill_safe tbl ps h last r :
  Forall (somewhere h) tbl -> Forall (fun q => exists p, q = Some p /\ (p < length h)%nat) ps ->
  Forall (fits_heap h) h -> wf_reader r ->
  exists h' last' r', fill tbl ps h last r = Some (h', last', r')
    /\ same_kinds h' h /\ Forall (fits_heap h') h' /\ wf_reader r'.
Proof.
  revert h last r. induction ps as [|q ps IH]; intros h last r Ht Hps Hh Hr.
  { cbn [fill]. eexists h, last, _. split; [done|]. split_and!; [done..|].
    destruct (Done r); [done|]. by apply fail_wf. }
  inversion Hps as [|? ? (p & -> & Hp) Hps']; subst. destruct (lookup_lt_is_Some_2 h p Hp) as [n Hn].
  assert (Hk : kindOf n <> numKinds) by (rewrite Forall_lookup in Hh; by eapply Hh).
  destruct (decodeFields_gives tbl h Ht n Hk last r Hr) as (n' & l1 & r1 & E & (W1 & _) & Sn).
  pose proof (insert_kinds h p n n' Hn (proj1 Sn)) as Hs.
  assert (Hh' : Forall (fits_heap (<[p := n']> h)) (<[p := n']> h)).
  { apply Forall_insert.
    - eapply Forall_impl; [exact Hh|]. intros x. by apply fits_heap_kinds.
    - apply (fits_heap_kinds h); [done|]. split; [by rewrite (proj1 Sn)|by rewrite (proj1 Sn)]. }
  cbn [fill mbind option_bind]. rewrite Hn. cbn [mbind option_bind]. rewrite E. cbn [mbind option_bind].
  destruct (err r1); [by eexists _, _, _|].
  destruct (IH (<[p := n']> h) l1 r1) as (h2 & l2 & r2 & E2 & K2 & F2 & W2); try done.
  - eapply Forall_impl; [exact Ht|]. intros x Hx. unfold somewhere in *. by rewrite (points_kinds _ h).
  - by rewrite length_insert.
  - exists h2, l2, r2. split_and!; try done. by etrans.
Qed.

(** ** Any bytes *)

Lemma read_counts_safe n total r :
  wf_reader r -> 0 <= total -> total + Z.of_nat n * Z.of_nat (length (data r)) < 2 ^ 63 - 1 ->
  exists cs total' r', read_counts n total r = Some (cs, total', r') /\ wf_reader r' /\ data r' = data r
    /\ length cs = n /\ Forall (fun c => 0 <= c) cs /\ 0 <= total' < 2 ^ 63 - 1.
Proof.
  revert total r. induction n as [|n IH]; intros total r Hr H0 Hm.
  { exists [], total, r. split_and!; try done. lia. }
  destruct (len_safe r Hr) as (c & r1 & E & W & D & _). pose proof (len_value r c r1 Hr E) as Hc.
  cbn [read_counts]. rewrite E. cbn [mbind option_bind].
  assert (Hs : int64 (total + c) = total + c) by (apply int64_small; unfold is_int64; nia).
  destruct (IH (int64 (total + c)) r1 W) as (cs & t & r2 & E2 & W2 & D2 & L2 & F2 & B2); [lia|rewrite D; nia|].
  rewrite E2. cbn [mbind option_bind]. exists (c :: cs), t, r2.
  split_and!; [done|done|congruence|cbn; lia|constructor; [lia|done]|lia|lia].
Qed.

Lemma alloc_all_safe ks counts h out h0 out0 :
  alloc_all ks counts h out = (h0, out0) ->
  Forall (fun n => kindOf n <> numKinds /\ forall h, fits_heap h n) h ->
  Forall (fun n => kindOf n <> numKinds /\ forall h, fits_heap h n) h0
  /\ exists k, length h0 = (length h + k)%nat /\ out0 = out ++ map Some (List.seq (length h) k).
Proof.
  revert counts h out. induction ks as [|k ks IH]; intros [|c cs] h out; cbn [alloc_all];
    try (intros [= <- <-] Hh; split; [done|]; exists 0%nat; rewrite app_nil_r; split; [lia|done]).
  unfold alloc. destruct (zero_node k) as [z|] eqn:Ez; [|apply IH].
  intros E Hh. apply IH in E as (F & m & L & ->).
  - rewrite length_app, repeat_length in *. split; [done|]. exists (Z.to_nat c + m)%nat. split; [lia|].
    by rewrite <- app_assoc, <- map_app, seq_app.
  - apply Forall_app. split; [done|]. apply Forall_forall. intros x Hx.
    apply list_elem_of_In, repeat_spec in Hx as ->.
    split; [by apply (zero_fits [] k)|]. intros h'. by eapply zero_fits.
Qed.

(** The nodes and the table of a decoder fit each other. *)
Definition decoder_ok (d : Decoder) : Prop :=
  Forall (fits_heap (d_heap d)) (d_heap d) /\
  (table d = [] \/ table d = table_of (length (d_heap d))).

Lemma Allocate_safe r :
  wf_reader r -> Z.of_nat (length (data r)) < 2 ^ 56 ->
  exists d, Allocate (NewDecoder r) = Some d /\ decoder_ok d
    /\ (forall sub, fields d = Some sub -> wf_reader sub).
Proof.
  intros Hr Hlen. unfold Allocate. cbn [NewDecoder head table d_heap d_last].
  destruct (len_safe r Hr) as (n & r1 & E1 & W1 & D1 & _). rewrite E1. cbn [mbind option_bind].
  assert (Hnil : forall x f, decoder_ok {| head := x; fields := f; table := []; d_heap := []; d_last := 0 |}).
  { intros x f. split; [constructor|by left]. }
  destruct (negb _).
  { eexists. split; [done|]. split; [apply Hnil|done]. }
  destruct (read_counts_safe (length kinds) 0 r1 W1) as (cs & t & r2 & E2 & W2 & D2 & L2 & F2 & B2); [lia| |].
  { rewrite D1. change (length kinds) with 76%nat. lia. }
  rewrite E2. cbn [mbind option_bind].
  destruct (section_safe r2 W2) as (sub & r3 & E3 & W3 & _). rewrite E3. cbn [mbind option_bind].
  destruct (err r3).
  { eexists. split; [done|]. split; [apply Hnil|by intros ? [= <-]]. }
  rewrite int64_small by (unfold is_int64; lia). rewrite (proj2 (Z.ltb_ge (t + 1) 1)) by lia.
  destruct (alloc_all kinds cs [] [None]) as [h out] eqn:Ea.
  apply alloc_all_safe in Ea as (F & k & Lk & ->); [|constructor].
  eexists. split; [done|]. split; [|by intros ? [= <-]]. split; cbn [d_heap table].
  - eapply Forall_impl; [exact F|]. by intros x [_ ?].
  - right. cbn in Lk |- *. by rewrite Lk.
Qed.

Lemma table_of_somewhere h : Forall (somewhere h) (table_of (length h)).
Proof.
  constructor; [done|]. apply Forall_forall. intros q Hq.
  apply list_elem_of_In, in_map_iff in Hq as (p & <- & Hp). apply in_seq in Hp.
  destruct (lookup_lt_is_Some_2 h p) as [n Hn]; [lia|]. unfold somewhere. cbn. by rewrite Hn.
Qed.

Lemma table_somewhere d : decoder_ok d -> Forall (somewhere (d_heap d)) (table d).
Proof. intros [_ [->| ->]]; [constructor|apply table_of_somewhere]. Qed.

Lemma Fill_safe d :
  decoder_ok d -> (forall sub, fields d = Some sub -> wf_reader sub) ->
  exists d', Fill d = Some d' /\ decoder_ok d'.
Proof.
  intros Hok Hf. pose proof (table_somewhere d Hok) as Hsome. assert (Hok' := Hok).
  destruct Hok as [Hh Ht]. unfold Fill. destruct (fields d) as [sub|] eqn:Ef; [|by exists d].
  destruct Ht as [Ht|Ht]; rewrite Ht in Hsome |- *; [by exists d|].
  cbn [table_of] in *. change (None :: map Some (List.seq 0 (length (d_heap d)))) with (table_of (length (d_heap d))) in *.
  destruct (fill_safe (table_of (length (d_heap d))) (map Some (List.seq 0 (length (d_heap d)))) (d_heap d) (d_last d) sub)
    as (h' & l' & r' & E & K & F & W); [done| |done|by apply Hf|].
  { apply Forall_forall. intros q Hq. apply list_elem_of_In, in_map_iff in Hq as (p & <- & Hp).
    apply in_seq in Hp. exists p. split; [done|lia]. }
  rewrite E. cbn [mbind option_bind]. eexists. split; [done|]. split; cbn [d_heap table]; [done|right].
  f_equal. apply (f_equal length) in K. by rewrite !length_map in K.
Qed.

(** C19: decoding any bytes never panics: where a reader opens the stream, the decoder
    answers, with an error or without, and its nodes are of the codec's types, their
    references lead to each other, and those of typed fields to their types; so does
    the node at every index. *)
Theorem Decode_safe (data : bytes) :
  Forall is_byte data -> Z.of_nat (length data) < 2 ^ 56 ->
  exists res, NewReader data = Some res /\
    forall r, res = Ok r ->
      exists d, Decode (NewDecoder r) = Some d /\ typed_heap (d_heap d) = true
        /\ Forall (fun n => kindOf n <> numKinds) (d_heap d)
        /\ forall id, points (d_heap d) (fun _ => true) (fst (Decoder_Node d id)) = true.
Proof.
  intros Hb Hlen. destruct (NewReader_safe data Hb) as (res & E & Hres); [lia|].
  exists res. split; [done|]. intros r ->. destruct Hres as (Hr & Hd & _).
  destruct (Allocate_safe r Hr) as (d & Ea & [Hh Ht] & Hf); [by rewrite Hd|].
  destruct (Fill_safe d) as (d' & Ed & [Hh' Ht']); [by split|done|]. unfold Decode. rewrite Ea.
  exists d'. split; [done|]. split; [by apply fits_typed_heap|]. split.
  { eapply Forall_impl; [exact Hh'|]. by intros n [_ ?]. }
  intros id. unfold Decoder_Node, lookup_node. destruct (_ <=? id); [done|].
  destruct (table d' !! Z.to_nat id) as [q|] eqn:Eq; [|done].
  pose proof (table_somewhere d' ltac:(by split)) as Hs. rewrite Forall_lookup in Hs. by apply (Hs _ _ Eq).
Qed.

(** A stream cut short: the counts of its nodes, and a section without their fields. *)
Lemma Decode_safe_witness :
  let data := [0; 76] ++ repeat 0 74 ++ [1; 0; 2; 6; 3] in
  (match NewReader data with
   | Some (Ok r) => Decode (NewDecoder r) ≫= fun d => Some (Err d, map kindOf (d_heap d))
   | _ => None end) = Some (Some {| what := bs "varint"; at_byte := 2 |}, [kindUsage]) /\
  exists res, NewReader data = Some res /\
    forall r, res = Ok r ->
      exists d, Decode (NewDecoder r) = Some d /\ typed_heap (d_heap d) = true
        /\ Forall (fun n => kindOf n <> numKinds) (d_heap d)
        /\ forall id, points (d_heap d) (fun _ => true) (fst (Decoder_Node d id)) = true.
Proof.
  intros data. split; [vm_compute; reflexivity|].
  apply (Decode_safe data); [|vm_compute; reflexivity].
  apply Forall_forall. intros b Hb. assert (H : forallb (fun b => (0 <=? b) && (b <? 256)) data = true) by (vm_compute; reflexivity).
  rewrite forallb_Forall, Forall_forall in H. specialize (H b Hb). unfold is_byte. bool_split. lia.
Defined.
