(* ===== verification/Checker.v ===== *)
(** * The model checker's search

    Models [internal/exec/runtime/check.go]: the depth-first search over the
    schedules of an invocation, with its visited states, its bounds, its violations
    and their masses, its finals, and the report it assembles. The search is the
    unreduced one ([persistent] answers every move), which is the one a check with
    properties makes; it is not stopped by its caller, and no [Diverge] name is
    given.

    What the search moves is the class [Invoked]. A start and a move resolve choice
    points as they run ([choices]); their picks are the script of [check_schedule.go].
    A state is its canonical form, so the key of a state is the state. The snapshot
    of a frame is its state with the schedule that led to it, which is what the
    witness of a violation records. The searcher's frames are a list with the top of
    the stack first; Go's pointer to the top frame is that head. *)
From Stdlib Require Import Floats.SpecFloat.
From stdpp Require Import gmap.
From S2P Require Import Prelude Bytes Integer Rational Real Explore ExploreQueue.
Local Open Scope nat_scope.

(** Sorting by a name. *)
Definition by_key {A} (k : A -> bytes) (a b : A) : Prop := bytes_le (k a) (k b).
#[export] Instance by_key_dec {A} (k : A -> bytes) : RelDecision (by_key k).
Proof. intros a b. unfold by_key. apply _. Defined.

Definition is_nil {A} (l : list A) : bool := match l with [] => true | _ => false end.

(** ** Choice points and scripts *)

(** A piece of the run: it ends, or faces a choice point and goes on with the
    alternative taken. *)
Inductive choices (A : Type) :=
  | Ends (a : A)
  | Draws (c : ChoicePoint) (k : nat -> choices A).
Arguments Ends {A}. Arguments Draws {A}.

(** The run under the picks: how it ends, the choice points past the picks, and every
    choice point with the alternative taken. A pick that is no alternative is refused. *)
Fixpoint follow {A} (refused : A) (t : choices A) (picks : list nat)
    : A * list ChoicePoint * list (ChoicePoint * nat) :=
  match t with
  | Ends a => (a, [], [])
  | Draws c k =>
      match picks with
      | [] => let '(a, drawn, faced) := follow refused (k 0) [] in (a, c :: drawn, (c, 0) :: faced)
      | p :: picks =>
          if length c.(Alternatives) <=? p then (refused, [], [])
          else let '(a, drawn, faced) := follow refused (k p) picks in (a, drawn, (c, p) :: faced)
      end
  end.

(** The picks taking each other alternative of the choice points drawn past [picks],
    those before it at their first alternative. *)
Definition siblings (picks : list nat) (drawn : list ChoicePoint) : list (list nat) :=
  concat (imap (fun i (c : ChoicePoint) => map (fun alt => picks ++ replicate i 0 ++ [alt])
                                (seq 1 (length c.(Alternatives) - 1))) drawn).

(** ** Bounds *)

(** [CheckBudget]: 0 leaves either unbounded. *)
Record CheckBudget := { Depth : nat; States : nat }.
(** The executor budgets a schedule's moves are counted against; 0 is no bound. *)
Record Budgets := { MaxActionSteps : Z; MaxStateEvents : Z; MaxDoSteps : Z }.

Inductive moveKind :=
  | movePlain | moveJoin | moveResume | moveAccept | moveTrigger | moveDecision
  | moveDispatch | moveDoStep | moveEntry.
#[export] Instance moveKind_eq_dec : EqDecision moveKind.
Proof. solve_decision. Defined.

Record spending := { actionSteps : Z; events : Z; doSteps : Z }.
Definition unspent : spending := {| actionSteps := 0; events := 0; doSteps := 0 |}.

Definition BoundSteps := bs "steps".
Definition BoundActionSteps := bs "actionSteps".
Definition BoundEvents := bs "events".
Definition BoundDoSteps := bs "doSteps".
Definition BoundElements := bs "elements".
Definition BoundBehaviors := bs "behaviors".
Definition boundStatementOrders := bs "statement orders".

Definition over (max n : Z) : bool := ((0 <? max) && (max <? n))%Z.

Definition spend (s : spending) (kind : moveKind) (budgets : Budgets) : spending * bytes * bool :=
  match kind with
  | moveDispatch =>
      let n := (s.(events) + 1)%Z in
      ({| actionSteps := s.(actionSteps); events := n; doSteps := s.(doSteps) |},
       BoundEvents, over budgets.(MaxStateEvents) n)
  | moveDoStep =>
      let n := (s.(doSteps) + 1)%Z in
      ({| actionSteps := s.(actionSteps); events := s.(events); doSteps := n |},
       BoundDoSteps, over budgets.(MaxDoSteps) n)
  | _ =>
      let n := (s.(actionSteps) + 1)%Z in
      ({| actionSteps := n; events := s.(events); doSteps := s.(doSteps) |},
       BoundActionSteps, over budgets.(MaxActionSteps) n)
  end.

(** The errors the search tells apart. *)
Inductive sentinel :=
  | errBehaviorBudget | ErrStepLimitExceeded | ErrActionStepLimitExceeded
  | ErrStateEventLimitExceeded | ErrDoStepLimitExceeded | ErrElementLimitExceeded
  | errStatementOrderSweepLimit | ErrCheckRefused | ErrActionDeadlock | ErrAcceptDeadlock.
#[export] Instance sentinel_eq_dec : EqDecision sentinel.
Proof. solve_decision. Defined.

(** ** Moves *)

(** One executor acting one unit: a token of an action, or a machine's dispatch or do step. *)
Record unitOf {Executor Node : Type} := {
  Owner : Executor; Token : Z; MNode : Node; MKind : moveKind }.
Arguments unitOf : clear implicits.

Record enabledMove {Executor Node : Type} := {
  moved : unitOf Executor Node; Picks : list nat; Label : bytes }.
Arguments enabledMove : clear implicits.

Record searchMove {Executor Node : Type} := {
  move_ : enabledMove Executor Node; name : bytes }.
Arguments searchMove : clear implicits.

#[export] Instance unitOf_eq_dec {Executor Node} `{EqDecision Executor, EqDecision Node} :
  EqDecision (unitOf Executor Node).
Proof. solve_decision. Defined.

(** ** The invocation under check *)

(** Where a start or a move ends: the settled state, or the error it raised. *)
Inductive ending (State Error : Type) := Settled (s : State) | Raised (e : Error).
Arguments Settled {State Error}. Arguments Raised {State Error}.

(** How a start ends: an invocation that was not set up (with every other error before
    the search that fails the check), one that failed to start, or one begun and settled. *)
Inductive beginning (State Error : Type) :=
  | NotSetUp (e : Error) | NotStarted (e : Error) | Begun (o : ending State Error).
Arguments NotSetUp {State Error}. Arguments NotStarted {State Error}. Arguments Begun {State Error}.

(** One spelling of a completed state, under one order of its statements. *)
Record spelledCheckFinal := {
  sf_values : gmap bytes bytes; sf_spelled : bytes; sf_identity : bytes; sf_scope : list bytes }.

(** What the search asks of the invocation. *)
Class Invoked (State Executor Node Error : Type) := {
  begin : choices (beginning State Error);
  enabledMoves : State -> list (enabledMove Executor Node);
  (** The canonical names of an executor and of a token in a state. *)
  executorName : State -> Executor -> bytes;
  tokenName : State -> Executor -> Z -> bytes;
  (** Making a unit's move and settling. *)
  make : State -> unitOf Executor Node -> choices (ending State Error);
  (** The error of a selected move the run did not make. *)
  refusal : Error;
  (** [errors.Is]. *)
  Is : Error -> sentinel -> bool;
  (** The spellings of a completed state, and whether the sweep over the statement
      orders ended early. *)
  spellFinalVariants : State -> list spelledCheckFinal * bool }.

(** A property: its answer at a state, and the error evaluating it leaves. *)
Record CheckProperty {State Error : Type} := {
  pName : bytes; Holds : State -> bool * option Error }.
Arguments CheckProperty : clear implicits.

(** ** Violations, finals and reports *)

Inductive ViolationKind := ViolationProperty | violationDeadlock | ViolationFailure.
#[export] Instance ViolationKind_eq_dec : EqDecision ViolationKind.
Proof. solve_decision. Defined.

(** The picks of the start and the moves made, each a unit with its picks. *)
Record Schedule {Executor Node : Type} := {
  startPicks : list nat; made : list (unitOf Executor Node * list nat) }.
Arguments Schedule : clear implicits.

(** The schedule a finding is replayed by, with the property it is about and the error
    it ends in. *)
Record Witness {Executor Node Error : Type} := {
  wSchedule : Schedule Executor Node; wProperty : bytes; wFails : option Error }.
Arguments Witness : clear implicits.

Record Violation {Executor Node Error : Type} := {
  VKind : ViolationKind; VName : bytes; Err : option Error; VDepth : nat;
  VWitness : Witness Executor Node Error; Mass : spec_float }.
Arguments Violation : clear implicits.

Record CheckFinal {Executor Node Error : Type} := {
  fOutcome : bytes; fValues : gmap bytes bytes; fWitness : Witness Executor Node Error;
  fIdentity : bytes }.
Arguments CheckFinal : clear implicits.

Record DivergentValue {Executor Node Error : Type} := {
  dValue : bytes; dWitness : Witness Executor Node Error }.
Arguments DivergentValue : clear implicits.
Record Divergence {Executor Node Error : Type} := {
  dFeature : bytes; dValues : list (DivergentValue Executor Node Error) }.
Arguments Divergence : clear implicits.

Inductive CheckVerdict := CheckExhaustive | CheckWithinBounds | CheckViolation | CheckDivergent.
#[export] Instance CheckVerdict_eq_dec : EqDecision CheckVerdict.
Proof. solve_decision. Defined.

Record CheckReport {Executor Node Error : Type} := {
  Verdict : CheckVerdict; RStates : nat; RMoves : nat; RMaxDepth : nat; RBoundsHit : list bytes;
  Violations : list (Violation Executor Node Error);
  Divergent : list (Divergence Executor Node Error);
  Finals : list (CheckFinal Executor Node Error);
  RScope : list bytes; MassBounded : bool }.
Arguments CheckReport : clear implicits.

(** ** The state of a search *)

Record visitedState := {
  explored : gset bytes; depth : nat; cut : bool; violated : list bytes;
  entry : spec_float; entryViolated : list bytes; below : gmap nat spec_float; exact : bool }.

(** A state of the run with the schedule that led to it. *)
Record Snapshot {State Executor Node : Type} := { here : State; via : Schedule Executor Node }.
Arguments Snapshot : clear implicits.

Record checkFrame {State Executor Node : Type} := {
  snap : Snapshot State Executor Node; fDepth : nat; spent : spending;
  all : list (searchMove Executor Node); moves : list (searchMove Executor Node); next : nat;
  full : bool; fCut : bool; mass : spec_float; units : list (Executor * nat);
  fViolated : list bytes; inexact_ : bool }.
Arguments checkFrame : clear implicits.

Definition zero : spec_float := S754_zero false.
Definition one : spec_float := f64 1 0.
Definition fadd := SFadd prec emax.
Definition fmul := SFmul prec emax.
Definition float64 (n : nat) : spec_float := f64 (Z.of_nat n) 0.

(** [shareOf(c, i)]. *)
Definition shareOf (c : ChoicePoint) (i : nat) : spec_float :=
  let n := length c.(Alternatives) in
  let uniform := SFdiv prec emax one (float64 n) in
  if n =? 0 then one
  else match c.(Weights) !! i with
       | Some w =>
           if weighted c then
             let total := fold_left fadd c.(Weights) zero in
             if SFltb zero total then SFdiv prec emax w total else uniform
           else uniform
       | None => uniform
       end.

Definition sameNames (a b : list bytes) : bool :=
  forallb (fun n => bool_decide (n ∈ b)) a && forallb (fun n => bool_decide (n ∈ a)) b.

Section Search.
Context {State Executor Node Error : Type}.
Context `{EqDecision State, !Countable State, EqDecision Executor, EqDecision Node}.
Context `{Inv : Invoked State Executor Node Error}.
Variables (budget : CheckBudget) (budgets : Budgets) (props : list (CheckProperty State Error)).
Implicit Types (s : State) (e : Error).

Local Abbreviation Move := (searchMove Executor Node).
Local Abbreviation Frame := (checkFrame State Executor Node).
Local Abbreviation Snap := (Snapshot State Executor Node).
Local Abbreviation Sched := (Schedule Executor Node).
Local Abbreviation Viol := (Violation Executor Node Error).
Local Abbreviation Wit := (Witness Executor Node Error).
Local Abbreviation Fin := (CheckFinal Executor Node Error).

Record checker := {
  visited : gmap State visitedState; onStack : gmap State nat; stack : list Frame;
  nMoves : nat; maxDepth : nat; bounds : list bytes;
  violations : list Viol; finals : gmap bytes nat; results : list Fin;
  revisit : bool; leftOut : bool; scope : list bytes }.

Definition with_visited (c : checker) (v : gmap State visitedState) : checker :=
  {| visited := v; onStack := c.(onStack); stack := c.(stack); nMoves := c.(nMoves); maxDepth := c.(maxDepth);
     bounds := c.(bounds); violations := c.(violations); finals := c.(finals); results := c.(results);
     revisit := c.(revisit); leftOut := c.(leftOut); scope := c.(scope) |}.
Definition with_stack (c : checker) (l : list Frame) : checker :=
  {| visited := c.(visited); onStack := c.(onStack); stack := l; nMoves := c.(nMoves); maxDepth := c.(maxDepth);
     bounds := c.(bounds); violations := c.(violations); finals := c.(finals); results := c.(results);
     revisit := c.(revisit); leftOut := c.(leftOut); scope := c.(scope) |}.
Definition with_onStack (c : checker) (m : gmap State nat) : checker :=
  {| visited := c.(visited); onStack := m; stack := c.(stack); nMoves := c.(nMoves); maxDepth := c.(maxDepth);
     bounds := c.(bounds); violations := c.(violations); finals := c.(finals); results := c.(results);
     revisit := c.(revisit); leftOut := c.(leftOut); scope := c.(scope) |}.
Definition with_counts (c : checker) (n d : nat) : checker :=
  {| visited := c.(visited); onStack := c.(onStack); stack := c.(stack); nMoves := n; maxDepth := d;
     bounds := c.(bounds); violations := c.(violations); finals := c.(finals); results := c.(results);
     revisit := c.(revisit); leftOut := c.(leftOut); scope := c.(scope) |}.
Definition with_bounds (c : checker) (l : list bytes) : checker :=
  {| visited := c.(visited); onStack := c.(onStack); stack := c.(stack); nMoves := c.(nMoves); maxDepth := c.(maxDepth);
     bounds := l; violations := c.(violations); finals := c.(finals); results := c.(results);
     revisit := c.(revisit); leftOut := c.(leftOut); scope := c.(scope) |}.
Definition with_violations (c : checker) (l : list Viol) : checker :=
  {| visited := c.(visited); onStack := c.(onStack); stack := c.(stack); nMoves := c.(nMoves); maxDepth := c.(maxDepth);
     bounds := c.(bounds); violations := l; finals := c.(finals); results := c.(results);
     revisit := c.(revisit); leftOut := c.(leftOut); scope := c.(scope) |}.
Definition with_finals (c : checker) (m : gmap bytes nat) (l : list Fin) (sc : list bytes) : checker :=
  {| visited := c.(visited); onStack := c.(onStack); stack := c.(stack); nMoves := c.(nMoves); maxDepth := c.(maxDepth);
     bounds := c.(bounds); violations := c.(violations); finals := m; results := l;
     revisit := c.(revisit); leftOut := c.(leftOut); scope := sc |}.
Definition with_flags (c : checker) (r l : bool) : checker :=
  {| visited := c.(visited); onStack := c.(onStack); stack := c.(stack); nMoves := c.(nMoves); maxDepth := c.(maxDepth);
     bounds := c.(bounds); violations := c.(violations); finals := c.(finals); results := c.(results);
     revisit := r; leftOut := l; scope := c.(scope) |}.

Definition with_seen (v : visitedState) (names : gset bytes) (d : nat) (b : bool) : visitedState :=
  {| explored := names; depth := d; cut := b; violated := v.(violated); entry := v.(entry);
     entryViolated := v.(entryViolated); below := v.(below); exact := v.(exact) |}.
Definition with_violated (v : visitedState) (l : list bytes) : visitedState :=
  {| explored := v.(explored); depth := v.(depth); cut := v.(cut); violated := l; entry := v.(entry);
     entryViolated := v.(entryViolated); below := v.(below); exact := v.(exact) |}.
Definition with_below (v : visitedState) (m : gmap nat spec_float) (b : bool) : visitedState :=
  {| explored := v.(explored); depth := v.(depth); cut := v.(cut); violated := v.(violated); entry := v.(entry);
     entryViolated := v.(entryViolated); below := m; exact := b |}.
Definition with_moves (f : Frame) (a m : list Move) (n : nat) (b : bool) : Frame :=
  {| snap := f.(snap); fDepth := f.(fDepth); spent := f.(spent); all := a; moves := m; next := n; full := b;
     fCut := f.(fCut); mass := f.(mass); units := f.(units); fViolated := f.(fViolated); inexact_ := f.(inexact_) |}.
Definition with_marks (f : Frame) (ct ix : bool) : Frame :=
  {| snap := f.(snap); fDepth := f.(fDepth); spent := f.(spent); all := f.(all); moves := f.(moves); next := f.(next);
     full := f.(full); fCut := ct; mass := f.(mass); units := f.(units); fViolated := f.(fViolated); inexact_ := ix |}.
Definition with_spent (f : Frame) (sp : spending) : Frame :=
  {| snap := f.(snap); fDepth := f.(fDepth); spent := sp; all := f.(all); moves := f.(moves); next := f.(next);
     full := f.(full); fCut := f.(fCut); mass := f.(mass); units := f.(units); fViolated := f.(fViolated);
     inexact_ := f.(inexact_) |}.

Definition key (f : Frame) : State := f.(snap).(here).

(** What a change of the frame on top makes of the search. *)
Definition on_top (g : Frame -> Frame) (c : checker) : checker :=
  match c.(stack) with [] => c | f :: rest => with_stack c (g f :: rest) end.
Definition on_seen (s : State) (g : visitedState -> visitedState) (c : checker) : checker :=
  with_visited c (alter g s c.(visited)).

(** ** Masses *)

(** [inexact] marks the state searched from. *)
Definition inexact : checker -> checker := on_top (fun f => with_marks f f.(fCut) true).

Definition hit (bound : bytes) (c : checker) : checker :=
  inexact (if bool_decide (bound ∈ c.(bounds)) then c else with_bounds c (c.(bounds) ++ [bound])).

Definition add_mass (m : spec_float) (v : Viol) : Viol :=
  {| VKind := v.(VKind); VName := v.(VName); Err := v.(Err); VDepth := v.(VDepth);
     VWitness := v.(VWitness); Mass := fadd v.(Mass) m |}.
Definition with_mass (m : spec_float) (v : Viol) : Viol :=
  {| VKind := v.(VKind); VName := v.(VName); Err := v.(Err); VDepth := v.(VDepth);
     VWitness := v.(VWitness); Mass := m |}.

(** [spread(i, mass)]: the violation's mass, and what every state on the stack holds below it. *)
Definition spread (i : nat) (m : spec_float) (c : checker) : checker :=
  let c := with_violations c (alter (add_mass m) i c.(violations)) in
  fold_left (fun c f => on_seen (key f) (fun v =>
     with_below v (<[i := fadd (default zero (v.(below) !! i)) m]> v.(below)) v.(exact)) c) c.(stack) c.

(** [carry]: the share of a path reaching a searched state again. *)
Definition carry (seen : visitedState) (m : spec_float) (vs : list bytes) (c : checker) : checker * bool :=
  if negb seen.(exact) || SFleb seen.(entry) zero || negb (sameNames vs seen.(entryViolated)) then (c, false)
  else (fold_left (fun c '(i, b) => spread i (SFdiv prec emax (fmul m b) seen.(entry)) c)
          (map_to_list seen.(below)) c, true).

(** The violation of the property named, if the search found one. *)
Definition found_property (n : bytes) (l : list Viol) : option nat :=
  fst <$> list_find (fun v => v.(VKind) = ViolationProperty /\ v.(VName) = n) l.

Definition credit (n : bytes) (m : spec_float) (c : checker) : checker :=
  match found_property n c.(violations) with Some i => spread i m c | None => c end.

(** ** Violations *)

(** [violate]: a property is reported once, by the shorter of the schedules reported. *)
Definition violate (v : Viol) (c : checker) : checker :=
  let m := v.(Mass) in
  match (if bool_decide (v.(VKind) = ViolationProperty) then found_property v.(VName) c.(violations) else None) with
  | Some i =>
      let c := match c.(violations) !! i with
               | Some w => if v.(VDepth) <? w.(VDepth)
                           then with_violations c (<[i := with_mass w.(Mass) v]> c.(violations)) else c
               | None => c
               end in
      spread i m c
  | None =>
      let c := with_violations c (c.(violations) ++ [with_mass zero v]) in
      spread (length c.(violations) - 1) m c
  end.

(** The schedule so far. *)
Definition witness (w : Sched) : Wit := {| wSchedule := w; wProperty := []; wFails := None |}.
Definition failing (w : Sched) (e : Error) : Wit := {| wSchedule := w; wProperty := []; wFails := Some e |}.
Definition about (p : bytes) (w : Wit) : Wit :=
  {| wSchedule := w.(wSchedule); wProperty := p; wFails := w.(wFails) |}.

Definition boundOf (e : Error) : option bytes :=
  if Is e errBehaviorBudget then Some BoundBehaviors
  else if Is e ErrStepLimitExceeded then Some BoundSteps
  else if Is e ErrActionStepLimitExceeded then Some BoundActionSteps
  else if Is e ErrStateEventLimitExceeded then Some BoundEvents
  else if Is e ErrDoStepLimitExceeded then Some BoundDoSteps
  else if Is e ErrElementLimitExceeded then Some BoundElements
  else None.

(** [failed]: a budget is a bound, a refused move fails the check, anything else is a
    violation of the schedule. *)
Definition failed (e : Error) (w : Sched) (d : nat) (m : spec_float) (c : checker) : checker * option Error :=
  match boundOf e with
  | Some b => (hit b c, None)
  | None =>
      if Is e ErrCheckRefused then (c, Some e)
      else
        let k := if Is e ErrActionDeadlock || Is e ErrAcceptDeadlock then violationDeadlock else ViolationFailure in
        (violate {| VKind := k; VName := []; Err := Some e; VDepth := d; VWitness := failing w e; Mass := m |} c, None)
  end.

(** ** Properties and finals *)

(** [evaluate]: a sweep over statement orders that ended early is a bound. *)
Definition evaluate (p : CheckProperty State Error) (s : State) (c : checker) : checker * bool * option Error :=
  match p.(Holds) s with
  | (holds, Some e) =>
      if Is e errStatementOrderSweepLimit then (hit boundStatementOrders c, holds, None) else (c, holds, Some e)
  | (holds, None) => (c, holds, None)
  end.

Definition property_at (r : Snap) (d : nat) (m : spec_float) (vs : list bytes) (c : checker)
    (p : CheckProperty State Error) : checker :=
  let '(c, holds, err) := evaluate p r.(here) c in
  match err with
  | Some e =>
      violate {| VKind := ViolationFailure; VName := p.(pName); Err := Some e; VDepth := d;
                 VWitness := about p.(pName) (failing r.(via) e); Mass := m |} c
  | None =>
      if holds then c
      else
        let c := on_seen r.(here) (fun v =>
                   if bool_decide (p.(pName) ∈ v.(violated)) then v
                   else with_violated v (v.(violated) ++ [p.(pName)])) c in
        if bool_decide (p.(pName) ∈ vs) then c
        else violate {| VKind := ViolationProperty; VName := p.(pName); Err := None; VDepth := d;
                        VWitness := about p.(pName) (witness r.(via)); Mass := m |} c
  end.
Definition properties (r : Snap) (d : nat) (m : spec_float) (vs : list bytes) (c : checker) : checker :=
  fold_left (property_at r d m vs) props c.

(** [final] records the outcomes of a complete schedule not reached before. *)
Definition final_one (r : Snap) (c : checker) (f : spelledCheckFinal) : checker :=
  let sc := scopeWith c.(scope) f.(sf_scope) in
  match c.(finals) !! f.(sf_identity) with
  | Some _ => with_finals c c.(finals) c.(results) sc
  | None =>
      with_finals c (<[f.(sf_identity) := length c.(results)]> c.(finals))
        (c.(results) ++ [{| fOutcome := f.(sf_spelled); fValues := f.(sf_values);
                            fWitness := witness r.(via); fIdentity := f.(sf_identity) |}]) sc
  end.
Definition final (r : Snap) (c : checker) : checker :=
  let '(fs, early) := spellFinalVariants r.(here) in
  fold_left (final_one r) fs (if early then hit boundStatementOrders c else c).

(** ** Moves of a state *)

(** [name pick N]. *)
Definition pick_name (n : bytes) (pick : nat) : bytes := n ++ bs " pick " ++ decimal_text (Z.of_nat pick + 1).

Definition named (s : State) (m : enabledMove Executor Node) : Move :=
  let u := m.(moved) in
  let n := executorName s u.(Owner) ++ bs ": " ++
           (if (u.(Token) =? 0)%Z then m.(Label) else tokenName s u.(Owner) u.(Token)) in
  {| move_ := m; name := fold_left pick_name m.(Picks) n |}.

Definition movesOf (s : State) : list Move := merge_sort (by_key name) (map (named s) (enabledMoves s)).

Definition unit_of (m : Move) : unitOf Executor Node := m.(move_).(moved).
Definition picks_of (m : Move) : list nat := m.(move_).(Picks).
Definition same (m o : Move) : bool :=
  bool_decide (unit_of m = unit_of o) && bool_decide (picks_of m = picks_of o).
Definition containsMove (l : list Move) (m : Move) : bool := existsb (same m) l.

(** How many units of its own the moves of each executor span. *)
Definition ownerUnits (l : list Move) : list (Executor * nat) :=
  let owners := remove_dups (map (fun m => (unit_of m).(Owner)) l) in
  map (fun o => (o, length (remove_dups (map (fun m => (unit_of m).(Token))
                             (filter (fun m => (unit_of m).(Owner) = o) l))))) owners.
Definition units_of (o : Executor) (l : list (Executor * nat)) : nat :=
  match list_find (fun p => p.1 = o) l with Some (_, p) => p.2 | None => 0 end.

(** ** Frames *)

(** The move [m] with the further picks [ps]. *)
Definition with_picks (m : Move) (ps : list nat) : Move :=
  {| move_ := {| moved := unit_of m; Picks := picks_of m ++ ps; Label := m.(move_).(Label) |};
     name := fold_left pick_name ps m.(name) |}.

Definition index_same (m : Move) (l : list Move) : option nat := fst <$> list_find (fun x => same m x = true) l.
Definition insert_at {A} (i : nat) (x l : list A) : list A := take i l ++ x ++ drop i l.

(** The lists [all] and [moves] of a frame once a move drew choice points past its picks. *)
Definition revealed (m : Move) (drawn : list ChoicePoint) (a ms : list Move) (n : nat) : list Move * list Move :=
  match map (with_picks m) (siblings [] drawn) with
  | [] => (a, ms)
  | more =>
      let at_ := match index_same m a with Some i => S i | None => 0 end in
      (insert_at at_ more a, insert_at n more ms)
  end.
Definition reveal (m : Move) (drawn : list ChoicePoint) (f : Frame) : Frame :=
  let l := revealed m drawn f.(all) f.(moves) f.(next) in
  with_moves f l.1 l.2 f.(next) f.(full).

(** [expand]: every enabled move, each once. *)
Definition expanded (a ms : list Move) : list Move :=
  fold_left (fun l m => if containsMove l m then l else l ++ [m]) a ms.
Definition expand (f : Frame) : Frame :=
  if f.(full) then f else with_moves f f.(all) (expanded f.(all) f.(moves)) f.(next) true.

(** [cut] marks the frame on top and its state. *)
Definition cut_top (c : checker) : checker :=
  match c.(stack) with
  | [] => c
  | f :: _ => on_seen (key f) (fun v => with_seen v v.(explored) v.(depth) true)
                (on_top (fun f => with_marks f true f.(inexact_)) c)
  end.

Definition names_of (l : list Move) : gset bytes := list_to_set (map name l).
Definition mark (l : list Move) (v : visitedState) : visitedState :=
  with_seen v (v.(explored) ∪ names_of l) v.(depth) v.(cut).
Definition wanted (v : visitedState) (l : list Move) : list Move :=
  filter (fun m => m.(name) ∉ v.(explored)) l.

(** ** Visiting a state *)

(** [visit]: [None] where the states bound keeps the search out, else whether the state
    was visited before. *)
Definition visit (r : Snap) (d : nat) (m : spec_float) (vs : list bytes) (c : checker) : checker * option bool :=
  let s := r.(here) in
  match c.(visited) !! s with
  | None =>
      if (0 <? budget.(States)) && (budget.(States) <=? size c.(visited)) then (hit (bs "states") c, None)
      else
        let seen := {| explored := ∅; depth := d; cut := false; violated := []; entry := m;
                       entryViolated := vs; below := ∅; exact := false |} in
        (properties r d m vs (with_visited c (<[s := seen]> c.(visited))), Some false)
  | Some seen =>
      let '(c, carried) := carry seen m vs c in
      let c := if carried then c else inexact (with_flags c true c.(leftOut)) in
      let c := fold_left (fun c n => if bool_decide (n ∈ vs) then c else credit n m c) seen.(violated) c in
      let c := if d <? seen.(depth)
               then on_seen s (fun v => if v.(cut) then with_seen v ∅ d false
                                        else with_seen v v.(explored) d v.(cut)) c
               else c in
      (c, Some true)
  end.

Definition complete (r : Snap) (d : nat) (m : spec_float) (vs : list bytes) (c : checker) : checker :=
  match visit r d m vs c with
  | (c, None) => c
  | (c, Some was) =>
      final r (if was then c else on_seen r.(here) (fun v => with_below v v.(below) true) c)
  end.

(** [enter]: the frame to search the state from, if anything remains to explore. *)
Definition enter (r : Snap) (d : nat) (m : spec_float) (vs : list bytes) (c : checker) : checker * option Frame :=
  match visit r d m vs c with
  | (c, None) => (c, None)
  | (c, Some was) =>
      match c.(visited) !! r.(here) with
      | None => (c, None)
      | Some seen =>
          let l := movesOf r.(here) in
          let ms := if was then wanted seen l else l in
          if was && is_nil ms then (c, None)
          else
            (on_seen r.(here) (mark ms) c,
             Some {| snap := r; fDepth := d; spent := unspent; all := l; moves := ms; next := 0; full := false;
                     fCut := false; mass := m; units := ownerUnits l; fViolated := vs ++ seen.(violated);
                     inexact_ := false |})
      end
  end.

(** ** The search *)

Definition terminal (s : State) : bool := is_nil (enabledMoves s).

Definition push (f : Frame) (c : checker) : checker :=
  with_stack (with_onStack c (partial_alter (fun n => Some (S (default 0 n))) (key f) c.(onStack))) (f :: c.(stack)).

(** The mass of a schedule making the move from the frame. *)
Definition move_mass (f : Frame) (m : Move) (faced : list (ChoicePoint * nat)) : spec_float :=
  let share n := SFdiv prec emax n in
  fold_left (fun x '(c, i) => fmul x (shareOf c i)) faced
    (share (share f.(mass) (float64 (max (length f.(units)) 1)))
           (float64 (max (units_of (unit_of m).(Owner) f.(units)) 1))).

(** [take]: making the move [m] from the frame [f] on top. *)
Definition take_move (f : Frame) (m : Move) (c : checker) : checker * option Error :=
  let d := S f.(fDepth) in
  if (0 <? budget.(Depth)) && (budget.(Depth) <? d) then (cut_top (hit (bs "depth") c), None)
  else
    let '(sp, bound, exceeded) := spend f.(spent) (unit_of m).(MKind) budgets in
    if exceeded then (cut_top (hit bound c), None)
    else
      let s := f.(snap).(here) in
      let '(o, drawn, faced) := follow (Raised refusal) (make s (unit_of m)) (picks_of m) in
      let c := on_top (reveal m drawn) (with_counts c (S c.(nMoves)) (max c.(maxDepth) d)) in
      let x := move_mass f m faced in
      let w := {| startPicks := f.(snap).(via).(startPicks);
                  made := f.(snap).(via).(made) ++ [(unit_of m, picks_of m)] |} in
      match o with
      | Raised e => failed e w d x c
      | Settled t =>
          if terminal t then (complete {| here := t; via := w |} d x f.(fViolated) c, None)
          else
            let '(c, child) := enter {| here := t; via := w |} d x f.(fViolated) c in
            let c := match c.(visited) !! t with
                     | Some seen => if seen.(cut) then cut_top c else c
                     | None => c
                     end in
            let c := if 0 <? default 0 (c.(onStack) !! t) then on_top expand c else c in
            (match child with Some g => push (with_spent g sp) c | None => c end, None)
      end.

(** A frame with no move left: its end, and what it leaves to the frame below. *)
Definition pop (f : Frame) (rest : list Frame) (c : checker) : checker :=
  let short := length f.(moves) <? length f.(all) in
  let c := with_stack (with_onStack c (alter pred (key f) c.(onStack))) rest in
  let c := if negb f.(full) && short then with_flags c c.(revisit) true else c in
  let c := if f.(inexact_) || f.(fCut) || short then inexact c
           else on_seen (key f) (fun v => if v.(depth) =? f.(fDepth) then with_below v v.(below) true else v) c in
  if f.(fCut) then cut_top c else c.

(** One turn of the loop of [search]. *)
Definition search_step (c : checker) : checker * option Error :=
  match c.(stack) with
  | [] => (c, None)
  | f :: rest =>
      match f.(moves) !! f.(next) with
      | None => (pop f rest c, None)
      | Some m =>
          let f := with_moves f f.(all) f.(moves) (S f.(next)) f.(full) in
          let c := on_seen (key f) (fun v => with_seen v (v.(explored) ∪ {[m.(name)]}) v.(depth) v.(cut))
                     (with_stack c (f :: rest)) in
          take_move f m c
      end
  end.

(** The loop, for as many turns as the fuel; [None] when it runs out. *)
Fixpoint search_loop (fuel : nat) (c : checker) : option (checker * option Error) :=
  match c.(stack) with
  | [] => Some (c, None)
  | _ =>
      match fuel with
      | 0 => None
      | S fuel =>
          match search_step c with
          | (c, Some e) => Some (with_stack c [], Some e)
          | (c, None) => search_loop fuel c
          end
      end
  end.

(** [search]: from the state the start settled in. *)
Definition search_start (o : ending State Error) (picks : list nat) (m : spec_float) (c : checker)
    : checker * option Error :=
  let w := {| startPicks := picks; made := [] |} in
  match o with
  | Raised e => failed e w 0 m c
  | Settled s =>
      if terminal s then (complete {| here := s; via := w |} 0 m [] c, None)
      else match enter {| here := s; via := w |} 0 m [] c with
           | (c, Some f) => (push f c, None)
           | (c, None) => (c, None)
           end
  end.

(** [searchFrom]: with the picks of the start not taken yet; [None] when out of fuel. *)
Definition searchFrom (fuel : nat) (picks : list nat) (c : checker)
    : option (checker * option Error * list (list nat)) :=
  let '(o, drawn, faced) := follow (NotSetUp refusal) begin picks in
  let m := fold_left (fun x '(c, i) => fmul x (shareOf c i)) faced one in
  let more := siblings picks drawn in
  match o with
  | NotSetUp e => Some (c, Some e, [])
  | NotStarted e =>
      Some (violate {| VKind := ViolationFailure; VName := []; Err := Some e; VDepth := 0;
                       VWitness := failing {| startPicks := picks; made := [] |} e; Mass := m |} c, None, more)
  | Begun o =>
      match search_start o picks m c with
      | (c, Some e) => Some (c, Some e, [])
      | (c, None) =>
          match search_loop fuel c with
          | None => None
          | Some (c, Some e) => Some (c, Some e, [])
          | Some (c, None) => Some (c, None, more)
          end
      end
  end.

(** The loop of [Check] over the ways of resolving the start, in the order found. *)
Fixpoint check_loop (fuel n : nat) (starts : list (list nat)) (c : checker) : option (checker * option Error) :=
  match starts with
  | [] => Some (c, None)
  | picks :: starts =>
      match n with
      | 0 => None
      | S n =>
          match searchFrom fuel picks c with
          | None => None
          | Some (c, Some e, _) => Some (c, Some e)
          | Some (c, None, more) => check_loop fuel n (starts ++ more) c
          end
      end
  end.

(** ** The report *)

Definition new_checker : checker :=
  {| visited := ∅; onStack := ∅; stack := []; nMoves := 0; maxDepth := 0; bounds := []; violations := [];
     finals := ∅; results := []; revisit := false; leftOut := false; scope := [] |}.

(** [byFeature] of [divergences]: each value of each feature with the first final reaching it. *)
Definition value_witnesses (fs : list Fin) : gmap bytes (gmap bytes Wit) :=
  fold_left (fun by_ f =>
      union_with (fun old new => Some (old ∪ new)) by_ ((fun v => {[v := f.(fWitness)]}) <$> f.(fValues))) fs ∅.

Definition divergences (fs : list Fin) : list (Divergence Executor Node Error) :=
  let several := filter (fun p : bytes * gmap bytes Wit => 2 <= size p.2) (map_to_list (value_witnesses fs)) in
  map (fun p => {| dFeature := p.1;
                   dValues := map (fun q => {| dValue := q.1; dWitness := q.2 |})
                                (merge_sort (by_key fst) (map_to_list p.2)) |})
    (merge_sort (by_key fst) several).

Definition result (c : checker) : CheckReport Executor Node Error :=
  let fs := merge_sort (by_key fIdentity) c.(results) in
  let div := divergences fs in
  {| Verdict := if negb (is_nil c.(violations)) then CheckViolation
                else if negb (is_nil div) then CheckDivergent
                else if negb (is_nil c.(bounds)) then CheckWithinBounds
                else CheckExhaustive;
     RStates := size c.(visited); RMoves := c.(nMoves); RMaxDepth := c.(maxDepth); RBoundsHit := c.(bounds);
     Violations := c.(violations); Divergent := div; Finals := fs; RScope := c.(scope);
     MassBounded := negb (is_nil c.(bounds)) || c.(revisit) || c.(leftOut) |}.

(** [Check]; [None] when the fuel runs out, which is no outcome of the program. *)
Definition Check (fuel : nat) : option (CheckReport Executor Node Error + Error) :=
  match check_loop fuel fuel [[]] new_checker with
  | None => None
  | Some (_, Some e) => Some (inr e)
  | Some (c, None) => Some (inl (result c))
  end.
End Search.
Arguments checker State Executor Node Error {_ _}.
