(* ===== verification/CheckerPlain.v ===== *)
(** * The search without its masses

    The search of [Checker] with the probability masses left out: the abstract machine
    the theorems on the search are proved of. [strip] forgets the masses, and
    [Check_strip] shows that the search of [Checker] does, step for step, what the
    plain one does: the masses never steer it. *)
From Stdlib Require Import Floats.SpecFloat.
From stdpp Require Import gmap.
From S2P Require Import Prelude Bytes Integer Rational Real Explore ExploreQueue Checker.
Local Open Scope nat_scope.

Record pseen := { p_explored : gset bytes; p_depth : nat; p_cut : bool; p_violated : list bytes }.

Record pframe {State Executor Node : Type} := {
  p_snap : Snapshot State Executor Node; p_d : nat; p_spent : spending;
  p_all : list (searchMove Executor Node); p_moves : list (searchMove Executor Node); p_next : nat;
  p_full : bool; p_fcut : bool; p_fviolated : list bytes }.
Arguments pframe : clear implicits.

Record pviolation {Executor Node Error : Type} := {
  p_kind : ViolationKind; p_name : bytes; p_err : option Error; p_vdepth : nat;
  p_witness : Witness Executor Node Error }.
Arguments pviolation : clear implicits.

Section Plain.
Context {State Executor Node Error : Type}.
Context `{EqDecision State, !Countable State, EqDecision Executor, EqDecision Node}.
Context `{Inv : Invoked State Executor Node Error}.
Variables (budget : CheckBudget) (budgets : Budgets) (props : list (CheckProperty State Error)).
Implicit Types (s : State) (e : Error).

Local Abbreviation Move := (searchMove Executor Node).
Local Abbreviation Snap := (Snapshot State Executor Node).
Local Abbreviation Sched := (Schedule Executor Node).
Local Abbreviation Frame := (pframe State Executor Node).
Local Abbreviation Viol := (pviolation Executor Node Error).
Local Abbreviation Fin := (CheckFinal Executor Node Error).

Record plain := {
  p_visited : gmap State pseen; p_onStack : gmap State nat; p_stack : list Frame;
  p_nMoves : nat; p_maxDepth : nat; p_bounds : list bytes; p_violations : list Viol;
  p_finals : gmap bytes nat; p_results : list Fin; p_scope : list bytes }.

Definition set_visited (c : plain) (v : gmap State pseen) : plain :=
  {| p_visited := v; p_onStack := c.(p_onStack); p_stack := c.(p_stack); p_nMoves := c.(p_nMoves);
     p_maxDepth := c.(p_maxDepth); p_bounds := c.(p_bounds); p_violations := c.(p_violations);
     p_finals := c.(p_finals); p_results := c.(p_results); p_scope := c.(p_scope) |}.
Definition set_stack (c : plain) (m : gmap State nat) (l : list Frame) : plain :=
  {| p_visited := c.(p_visited); p_onStack := m; p_stack := l; p_nMoves := c.(p_nMoves);
     p_maxDepth := c.(p_maxDepth); p_bounds := c.(p_bounds); p_violations := c.(p_violations);
     p_finals := c.(p_finals); p_results := c.(p_results); p_scope := c.(p_scope) |}.
Definition set_counts (c : plain) (n d : nat) : plain :=
  {| p_visited := c.(p_visited); p_onStack := c.(p_onStack); p_stack := c.(p_stack); p_nMoves := n;
     p_maxDepth := d; p_bounds := c.(p_bounds); p_violations := c.(p_violations);
     p_finals := c.(p_finals); p_results := c.(p_results); p_scope := c.(p_scope) |}.
Definition set_found (c : plain) (b : list bytes) (v : list Viol) : plain :=
  {| p_visited := c.(p_visited); p_onStack := c.(p_onStack); p_stack := c.(p_stack); p_nMoves := c.(p_nMoves);
     p_maxDepth := c.(p_maxDepth); p_bounds := b; p_violations := v;
     p_finals := c.(p_finals); p_results := c.(p_results); p_scope := c.(p_scope) |}.
Definition set_finals (c : plain) (m : gmap bytes nat) (l : list Fin) (sc : list bytes) : plain :=
  {| p_visited := c.(p_visited); p_onStack := c.(p_onStack); p_stack := c.(p_stack); p_nMoves := c.(p_nMoves);
     p_maxDepth := c.(p_maxDepth); p_bounds := c.(p_bounds); p_violations := c.(p_violations);
     p_finals := m; p_results := l; p_scope := sc |}.

Definition p_key (f : Frame) : State := f.(p_snap).(here).
Definition seen_with (v : pseen) (names : gset bytes) (d : nat) (b : bool) : pseen :=
  {| p_explored := names; p_depth := d; p_cut := b; p_violated := v.(p_violated) |}.
Definition frame_with (f : Frame) (a m : list Move) (n : nat) (b ct : bool) : Frame :=
  {| p_snap := f.(p_snap); p_d := f.(p_d); p_spent := f.(p_spent); p_all := a; p_moves := m; p_next := n;
     p_full := b; p_fcut := ct; p_fviolated := f.(p_fviolated) |}.

Definition on_ptop (g : Frame -> Frame) (c : plain) : plain :=
  match c.(p_stack) with [] => c | f :: rest => set_stack c c.(p_onStack) (g f :: rest) end.
Definition on_pseen (s : State) (g : pseen -> pseen) (c : plain) : plain :=
  set_visited c (alter g s c.(p_visited)).

(** ** Operations *)

Definition phit (b : bytes) (c : plain) : plain :=
  if bool_decide (b ∈ c.(p_bounds)) then c else set_found c (c.(p_bounds) ++ [b]) c.(p_violations).

Definition pfound (n : bytes) (l : list Viol) : option nat :=
  fst <$> list_find (fun v => v.(p_kind) = ViolationProperty /\ v.(p_name) = n) l.

Definition pviolate (v : Viol) (c : plain) : plain :=
  match (if bool_decide (v.(p_kind) = ViolationProperty) then pfound v.(p_name) c.(p_violations) else None) with
  | Some i =>
      match c.(p_violations) !! i with
      | Some w => if v.(p_vdepth) <? w.(p_vdepth) then set_found c c.(p_bounds) (<[i := v]> c.(p_violations)) else c
      | None => c
      end
  | None => set_found c c.(p_bounds) (c.(p_violations) ++ [v])
  end.

Definition failure_kind (e : Error) : ViolationKind :=
  if Is e ErrActionDeadlock || Is e ErrAcceptDeadlock then violationDeadlock else ViolationFailure.

Definition pfailed (e : Error) (w : Sched) (d : nat) (c : plain) : plain * option Error :=
  match boundOf e with
  | Some b => (phit b c, None)
  | None =>
      if Is e ErrCheckRefused then (c, Some e)
      else (pviolate {| p_kind := failure_kind e; p_name := []; p_err := Some e; p_vdepth := d;
                        p_witness := failing w e |} c, None)
  end.

Definition pproperty (r : Snap) (d : nat) (vs : list bytes) (c : plain) (p : CheckProperty State Error) : plain :=
  let '(holds, err) := p.(Holds) r.(here) in
  let early := match err with Some e => Is e errStatementOrderSweepLimit | None => false end in
  let c := if early then phit boundStatementOrders c else c in
  match (if early then None else err) with
  | Some e => pviolate {| p_kind := ViolationFailure; p_name := p.(pName); p_err := Some e; p_vdepth := d;
                          p_witness := about p.(pName) (failing r.(via) e) |} c
  | None =>
      if holds then c
      else
        let c := on_pseen r.(here) (fun v =>
                   if bool_decide (p.(pName) ∈ v.(p_violated)) then v
                   else {| p_explored := v.(p_explored); p_depth := v.(p_depth); p_cut := v.(p_cut);
                           p_violated := v.(p_violated) ++ [p.(pName)] |}) c in
        if bool_decide (p.(pName) ∈ vs) then c
        else pviolate {| p_kind := ViolationProperty; p_name := p.(pName); p_err := None; p_vdepth := d;
                         p_witness := about p.(pName) (witness r.(via)) |} c
  end.
Definition pproperties (r : Snap) (d : nat) (vs : list bytes) (c : plain) : plain :=
  fold_left (pproperty r d vs) props c.

Definition pfinal_one (r : Snap) (c : plain) (f : spelledCheckFinal) : plain :=
  let sc := scopeWith c.(p_scope) f.(sf_scope) in
  match c.(p_finals) !! f.(sf_identity) with
  | Some _ => set_finals c c.(p_finals) c.(p_results) sc
  | None =>
      set_finals c (<[f.(sf_identity) := length c.(p_results)]> c.(p_finals))
        (c.(p_results) ++ [{| fOutcome := f.(sf_spelled); fValues := f.(sf_values);
                              fWitness := witness r.(via); fIdentity := f.(sf_identity) |}]) sc
  end.
Definition pfinal (r : Snap) (c : plain) : plain :=
  let '(fs, early) := spellFinalVariants r.(here) in
  fold_left (pfinal_one r) fs (if early then phit boundStatementOrders c else c).

Definition pcut_top (c : plain) : plain :=
  match c.(p_stack) with
  | [] => c
  | f :: _ => on_pseen (p_key f) (fun v => seen_with v v.(p_explored) v.(p_depth) true)
                (on_ptop (fun f => frame_with f f.(p_all) f.(p_moves) f.(p_next) f.(p_full) true) c)
  end.

(** A shorter schedule to a visited state, which is searched again if a bound cut it. *)
Definition nearer (d : nat) (v : pseen) : pseen :=
  if v.(p_cut) then seen_with v ∅ d false else seen_with v v.(p_explored) d v.(p_cut).

Definition pvisit (r : Snap) (d : nat) (vs : list bytes) (c : plain) : plain * option bool :=
  match c.(p_visited) !! r.(here) with
  | None =>
      if (0 <? budget.(States)) && (budget.(States) <=? size c.(p_visited)) then (phit (bs "states") c, None)
      else
        let seen := {| p_explored := ∅; p_depth := d; p_cut := false; p_violated := [] |} in
        (pproperties r d vs (set_visited c (<[r.(here) := seen]> c.(p_visited))), Some false)
  | Some seen => (if d <? seen.(p_depth) then on_pseen r.(here) (nearer d) c else c, Some true)
  end.

Definition pcomplete (r : Snap) (d : nat) (vs : list bytes) (c : plain) : plain :=
  match pvisit r d vs c with
  | (c, None) => c
  | (c, Some _) => pfinal r c
  end.

Definition penter (r : Snap) (d : nat) (vs : list bytes) (c : plain) : plain * option Frame :=
  match pvisit r d vs c with
  | (c, None) => (c, None)
  | (c, Some was) =>
      match c.(p_visited) !! r.(here) with
      | None => (c, None)
      | Some seen =>
          let l := movesOf r.(here) in
          let ms := if was then filter (fun m => m.(name) ∉ seen.(p_explored)) l else l in
          if was && is_nil ms then (c, None)
          else
            (on_pseen r.(here) (fun v => seen_with v (v.(p_explored) ∪ names_of ms) v.(p_depth) v.(p_cut)) c,
             Some {| p_snap := r; p_d := d; p_spent := unspent; p_all := l; p_moves := ms; p_next := 0;
                     p_full := false; p_fcut := false; p_fviolated := vs ++ seen.(p_violated) |})
      end
  end.

Definition ppush (f : Frame) (c : plain) : plain :=
  set_stack c (partial_alter (fun n => Some (S (default 0 n))) (p_key f) c.(p_onStack)) (f :: c.(p_stack)).

Definition longer (w : Sched) (m : Move) : Sched :=
  {| startPicks := w.(startPicks); made := w.(made) ++ [(unit_of m, picks_of m)] |}.

Definition preveal (m : Move) (drawn : list ChoicePoint) (f : Frame) : Frame :=
  let l := revealed m drawn f.(p_all) f.(p_moves) f.(p_next) in
  frame_with f l.1 l.2 f.(p_next) f.(p_full) f.(p_fcut).
Definition pexpand (f : Frame) : Frame :=
  if f.(p_full) then f
  else frame_with f f.(p_all) (expanded f.(p_all) f.(p_moves)) f.(p_next) true f.(p_fcut).

(** What a move that settled leaves: the state it reached entered or completed. *)
Definition parrive (r : Snap) (d : nat) (vs : list bytes) (sp : spending) (c : plain) : plain :=
  if terminal r.(here) then pcomplete r d vs c
  else
    let '(c, child) := penter r d vs c in
    let c := match c.(p_visited) !! r.(here) with
             | Some seen => if seen.(p_cut) then pcut_top c else c
             | None => c
             end in
    let c := if 0 <? default 0 (c.(p_onStack) !! r.(here)) then on_ptop pexpand c else c in
    match child with
    | Some g => ppush {| p_snap := g.(p_snap); p_d := g.(p_d); p_spent := sp; p_all := g.(p_all);
                         p_moves := g.(p_moves); p_next := g.(p_next); p_full := g.(p_full);
                         p_fcut := g.(p_fcut); p_fviolated := g.(p_fviolated) |} c
    | None => c
    end.

Definition ptake (f : Frame) (m : Move) (c : plain) : plain * option Error :=
  let d := S f.(p_d) in
  if (0 <? budget.(Depth)) && (budget.(Depth) <? d) then (pcut_top (phit (bs "depth") c), None)
  else
    let '(sp, bound, exceeded) := spend f.(p_spent) (unit_of m).(MKind) budgets in
    if exceeded then (pcut_top (phit bound c), None)
    else
      let '(o, drawn, _) := follow (Raised refusal) (make (p_key f) (unit_of m)) (picks_of m) in
      let c := on_ptop (preveal m drawn) (set_counts c (S c.(p_nMoves)) (max c.(p_maxDepth) d)) in
      let w := longer f.(p_snap).(via) m in
      match o with
      | Raised e => pfailed e w d c
      | Settled t => (parrive {| here := t; via := w |} d f.(p_fviolated) sp c, None)
      end.

Definition ppop (f : Frame) (rest : list Frame) (c : plain) : plain :=
  let c := set_stack c (alter pred (p_key f) c.(p_onStack)) rest in
  if f.(p_fcut) then pcut_top c else c.

Definition pstep (c : plain) : plain * option Error :=
  match c.(p_stack) with
  | [] => (c, None)
  | f :: rest =>
      match f.(p_moves) !! f.(p_next) with
      | None => (ppop f rest c, None)
      | Some m =>
          let f := frame_with f f.(p_all) f.(p_moves) (S f.(p_next)) f.(p_full) f.(p_fcut) in
          ptake f m (on_pseen (p_key f) (fun v => seen_with v (v.(p_explored) ∪ {[m.(name)]}) v.(p_depth) v.(p_cut))
                      (set_stack c c.(p_onStack) (f :: rest)))
      end
  end.

Fixpoint ploop (fuel : nat) (c : plain) : option (plain * option Error) :=
  match c.(p_stack) with
  | [] => Some (c, None)
  | _ =>
      match fuel with
      | 0 => None
      | S fuel =>
          match pstep c with
          | (c, Some e) => Some (set_stack c c.(p_onStack) [], Some e)
          | (c, None) => ploop fuel c
          end
      end
  end.

Definition pstart (o : ending State Error) (picks : list nat) (c : plain) : plain * option Error :=
  let w := {| startPicks := picks; made := [] |} in
  match o with
  | Raised e => pfailed e w 0 c
  | Settled s =>
      if terminal s then (pcomplete {| here := s; via := w |} 0 [] c, None)
      else match penter {| here := s; via := w |} 0 [] c with
           | (c, Some f) => (ppush f c, None)
           | (c, None) => (c, None)
           end
  end.

Definition pfrom (fuel : nat) (picks : list nat) (c : plain)
    : option (plain * option Error * list (list nat)) :=
  let '(o, drawn, _) := follow (NotSetUp refusal) begin picks in
  let more := siblings picks drawn in
  match o with
  | NotSetUp e => Some (c, Some e, [])
  | NotStarted e =>
      Some (pviolate {| p_kind := ViolationFailure; p_name := []; p_err := Some e; p_vdepth := 0;
                        p_witness := failing {| startPicks := picks; made := [] |} e |} c, None, more)
  | Begun o =>
      match pstart o picks c with
      | (c, Some e) => Some (c, Some e, [])
      | (c, None) =>
          match ploop fuel c with
          | None => None
          | Some (c, Some e) => Some (c, Some e, [])
          | Some (c, None) => Some (c, None, more)
          end
      end
  end.

Fixpoint pcheck_loop (fuel n : nat) (starts : list (list nat)) (c : plain) : option (plain * option Error) :=
  match starts with
  | [] => Some (c, None)
  | picks :: starts =>
      match n with
      | 0 => None
      | S n =>
          match pfrom fuel picks c with
          | None => None
          | Some (c, Some e, _) => Some (c, Some e)
          | Some (c, None, more) => pcheck_loop fuel n (starts ++ more) c
          end
      end
  end.

Definition new_plain : plain :=
  {| p_visited := ∅; p_onStack := ∅; p_stack := []; p_nMoves := 0; p_maxDepth := 0; p_bounds := [];
     p_violations := []; p_finals := ∅; p_results := []; p_scope := [] |}.

(** ** Forgetting the masses *)

Definition strip_seen (v : visitedState) : pseen :=
  {| p_explored := v.(explored); p_depth := v.(depth); p_cut := v.(cut); p_violated := v.(violated) |}.
Definition strip_frame (f : checkFrame State Executor Node) : Frame :=
  {| p_snap := f.(snap); p_d := f.(fDepth); p_spent := f.(spent); p_all := f.(all); p_moves := f.(moves);
     p_next := f.(next); p_full := f.(full); p_fcut := f.(fCut); p_fviolated := f.(fViolated) |}.
Definition strip_violation (v : Violation Executor Node Error) : Viol :=
  {| p_kind := v.(VKind); p_name := v.(VName); p_err := v.(Err); p_vdepth := v.(VDepth); p_witness := v.(VWitness) |}.
Definition strip (c : checker State Executor Node Error) : plain :=
  {| p_visited := strip_seen <$> c.(visited); p_onStack := c.(onStack); p_stack := map strip_frame c.(stack);
     p_nMoves := c.(nMoves); p_maxDepth := c.(maxDepth); p_bounds := c.(bounds);
     p_violations := map strip_violation c.(violations); p_finals := c.(finals); p_results := c.(results);
     p_scope := c.(scope) |}.
End Plain.
Arguments plain State Executor Node Error {_ _}.
