(* ===== verification/CheckerStrip.v ===== *)
(** * The masses never steer the search

    [strip] commutes with every operation of the search, up to the search itself. *)
From Stdlib Require Import Floats.SpecFloat.
From stdpp Require Import gmap.
From S2P Require Import Prelude Bytes Integer Rational Real Explore ExploreQueue Checker CheckerPlain.
Local Open Scope nat_scope.

Create HintDb strip.

Section Strip.
Context {State Executor Node Error : Type}.
Context `{EqDecision State, !Countable State, EqDecision Executor, EqDecision Node}.
Context `{Inv : Invoked State Executor Node Error}.
Variables (budget : CheckBudget) (budgets : Budgets) (props : list (CheckProperty State Error)).
Implicit Types (s : State) (c : checker State Executor Node Error).

Lemma strip_on_top g h c :
  (forall f, strip_frame (g f) = h (strip_frame f)) -> strip (on_top g c) = on_ptop h (strip c).
Proof.
  intros E. unfold on_top, on_ptop, strip. destruct c as [v o [|f st] ?????????]; cbn; [done|].
  unfold set_stack. cbn. by rewrite E.
Qed.

Lemma strip_on_top_same g c : (forall f, strip_frame (g f) = strip_frame f) -> strip (on_top g c) = strip c.
Proof.
  intros E. unfold on_top, strip. destruct c as [v o [|f st] ?????????]; cbn; [done|]. by rewrite E.
Qed.

Lemma strip_on_seen s g h c :
  (forall v, strip_seen (g v) = h (strip_seen v)) -> strip (on_seen s g c) = on_pseen s h (strip c).
Proof.
  intros E. unfold on_seen, on_pseen, strip, set_visited. cbn. f_equal. apply map_eq. intros t.
  rewrite lookup_fmap. destruct (decide (s = t)) as [->|N].
  - rewrite !lookup_alter_eq, lookup_fmap. destruct (_ !! t); cbn; [by rewrite E|done].
  - by rewrite !lookup_alter_ne, lookup_fmap by done.
Qed.

Lemma strip_on_seen_same s g c : (forall v, strip_seen (g v) = strip_seen v) -> strip (on_seen s g c) = strip c.
Proof.
  intros E. rewrite (strip_on_seen s g id) by done. unfold on_pseen, set_visited. rewrite alter_id by done.
  by destruct c.
Qed.

Lemma strip_inexact c : strip (inexact c) = strip c.
Proof. by apply strip_on_top_same. Qed.

Lemma strip_hit b c : strip (hit b c) = phit b (strip c).
Proof. unfold hit. rewrite strip_inexact. unfold phit. cbn [p_bounds strip]. by case_bool_decide. Qed.

Lemma strip_with_violations l c :
  strip (with_violations c l) = set_found (strip c) c.(bounds) (map strip_violation l).
Proof. done. Qed.

Lemma strip_alter_mass m i (l : list (Violation Executor Node Error)) :
  map strip_violation (alter (add_mass m) i l) = map strip_violation l.
Proof. revert i. induction l as [|v l IH]; intros [|i]; cbn; [done..|]. f_equal. apply IH. Qed.

Lemma strip_fold {A} (g : checker State Executor Node Error -> A -> checker State Executor Node Error) l c :
  (forall c x, strip (g c x) = strip c) -> strip (fold_left g l c) = strip c.
Proof. intros E. revert c. induction l as [|x l IH]; intros c; [done|]. cbn. by rewrite IH. Qed.

Lemma strip_spread i m c : strip (spread i m c) = strip c.
Proof.
  unfold spread. rewrite strip_fold by (intros; by apply strip_on_seen_same).
  rewrite strip_with_violations, strip_alter_mass. by destruct c.
Qed.

Lemma strip_carry seen m vs c : strip (carry seen m vs c).1 = strip c.
Proof.
  unfold carry. destruct (_ || _ || _); [done|]. cbn [fst]. apply strip_fold. intros c' [i b]. apply strip_spread.
Qed.

Lemma strip_credit n m c : strip (credit n m c) = strip c.
Proof. unfold credit. destruct (found_property _ _); [apply strip_spread|done]. Qed.

Lemma strip_found n (l : list (Violation Executor Node Error)) : pfound n (map strip_violation l) = found_property n l.
Proof.
  unfold pfound, found_property. induction l as [|v l IH]; [done|]. cbn [map list_find strip_violation p_kind p_name].
  destruct (decide _); [done|].
  destruct (list_find _ (map _ _)) as [[]|], (list_find _ l) as [[]|]; cbn in *; congruence.
Qed.

Lemma strip_violate v c : strip (violate v c) = pviolate (strip_violation v) (strip c).
Proof.
  unfold violate, pviolate. cbn [strip strip_violation p_kind p_name p_violations p_vdepth p_bounds].
  rewrite strip_found. destruct (if bool_decide _ then _ else _) as [i|].
  - rewrite strip_spread. rewrite list_lookup_fmap. destruct (c.(violations) !! i) as [w|]; cbn [fmap option_fmap option_map]; [|done].
    cbn [strip_violation p_vdepth]. destruct (_ <? _); [|done]. rewrite strip_with_violations, list_fmap_insert. done.
  - rewrite strip_spread, strip_with_violations, map_app. done.
Qed.

Lemma strip_failed e w d m c :
  (strip (failed e w d m c).1, (failed e w d m c).2) = pfailed e w d (strip c).
Proof.
  unfold failed, pfailed. destruct (boundOf e); [cbn [fst snd]; by rewrite strip_hit|].
  destruct (Is e ErrCheckRefused); [done|]. cbn [fst snd]. by rewrite strip_violate.
Qed.

Lemma strip_property r d m vs c p : strip (property_at r d m vs c p) = pproperty r d vs (strip c) p.
Proof.
  unfold property_at, pproperty, evaluate. destruct (Holds p (here r)) as [h [e|]]; [destruct (Is e _)|].
  2: by rewrite strip_violate.
  all: rewrite <- ?strip_hit; destruct h; [done|].
  all: rewrite <- (strip_on_seen _ (fun v => if bool_decide (pName p ∈ violated v) then v
                                             else with_violated v (violated v ++ [pName p])))
    by (intros v; cbn [strip_seen p_violated]; by case_bool_decide).
  all: case_bool_decide; [done|apply strip_violate].
Qed.

Lemma strip_properties r d m vs c : strip (properties props r d m vs c) = pproperties props r d vs (strip c).
Proof.
  unfold properties, pproperties. revert c. induction props as [|p ps IH]; intros c; [done|].
  cbn [fold_left]. by rewrite IH, strip_property.
Qed.

Lemma strip_final r c : strip (final r c) = pfinal r (strip c).
Proof.
  unfold final, pfinal. destruct (spellFinalVariants (here r)) as [fs early].
  assert (E : strip (if early then hit boundStatementOrders c else c) = if early then phit boundStatementOrders (strip c) else strip c)
    by (destruct early; [apply strip_hit|done]).
  rewrite <- E. generalize (if early then hit boundStatementOrders c else c). clear E c.
  induction fs as [|f fs IH]; intros c; [done|]. cbn [fold_left]. rewrite IH. f_equal.
  unfold final_one, pfinal_one. cbn [strip p_finals]. by destruct (_ !! _).
Qed.

Lemma strip_cut_top c : strip (cut_top c) = pcut_top (strip c).
Proof.
  unfold cut_top, pcut_top. cbn [strip p_stack]. destruct c.(stack) as [|f st] eqn:Es; [done|]. cbn [map].
  rewrite (strip_on_seen _ _ (fun v => seen_with v v.(p_explored) v.(p_depth) true)) by done.
  unfold p_key. cbn [strip_frame p_snap]. f_equal. by apply strip_on_top.
Qed.

Lemma strip_visit r d m vs c :
  (strip (visit budget props r d m vs c).1, (visit budget props r d m vs c).2) = pvisit budget props r d vs (strip c).
Proof.
  unfold visit, pvisit. cbn [strip p_visited]. rewrite lookup_fmap, map_size_fmap.
  destruct (c.(visited) !! here r) as [seen|] eqn:Ev; cbn [fmap option_fmap option_map].
  - pose proof (strip_carry seen m vs c) as Ec. destruct (carry seen m vs c) as [c1 b]. cbn [fst] in Ec. rewrite <- Ec.
    cbn [fst snd]. f_equal. set (c2 := if b then c1 else _).
    assert (E2 : strip c2 = strip c1) by (subst c2; destruct b; [done|by rewrite strip_inexact]).
    set (c3 := fold_left _ seen.(violated) c2).
    assert (E3 : strip c3 = strip c1).
    { subst c3. rewrite strip_fold, E2; [done|]. intros c' n. case_bool_decide; [done|apply strip_credit]. }
    cbn [strip_seen p_depth]. destruct (d <? depth seen); [|done].
    rewrite <- E3. apply strip_on_seen. intros v. unfold nearer. cbn [strip_seen p_cut]. by destruct (cut v).
  - destruct (_ && _); cbn [fst snd]; f_equal; [apply strip_hit|]. rewrite strip_properties. f_equal.
    unfold strip, with_visited, set_visited. cbn. by rewrite fmap_insert.
Qed.

Lemma strip_complete r d m vs c : strip (complete budget props r d m vs c) = pcomplete budget props r d vs (strip c).
Proof.
  unfold complete, pcomplete. rewrite <- (strip_visit r d m).
  destruct (visit _ _ _ _ _ _ _) as [c1 [was|]]; cbn [fst snd]; [|done].
  rewrite strip_final. f_equal. destruct was; [done|]. by apply strip_on_seen_same.
Qed.

Lemma strip_enter r d m vs c :
  (strip (enter budget props r d m vs c).1, strip_frame <$> (enter budget props r d m vs c).2)
  = penter budget props r d vs (strip c).
Proof.
  unfold enter, penter. rewrite <- (strip_visit r d m).
  destruct (visit _ _ _ _ _ _ _) as [c1 [was|]]; cbn [fst snd]; [|done].
  cbn [strip p_visited]. rewrite lookup_fmap. destruct (visited c1 !! here r) as [seen|]; cbn [fmap option_fmap option_map]; [|done].
  unfold wanted. cbn [strip_seen p_explored p_violated]. cbv zeta.
  destruct (was && is_nil _); [done|]. cbn [fst snd].
  f_equal. by apply strip_on_seen.
Qed.

Lemma strip_push f c : strip (push f c) = ppush (strip_frame f) (strip c).
Proof. done. Qed.

Lemma strip_take f m c :
  (strip (take_move budget budgets props f m c).1, (take_move budget budgets props f m c).2)
  = ptake budget budgets props (strip_frame f) m (strip c).
Proof.
  unfold take_move, ptake. cbn [strip_frame p_d p_spent p_snap p_fviolated].
  destruct (_ && _); [cbn [fst snd]; by rewrite strip_cut_top, strip_hit|].
  destruct (spend _ _ _) as [[sp b] [|]]; [cbn [fst snd]; by rewrite strip_cut_top, strip_hit|].
  unfold p_key. cbn [strip_frame p_snap].
  destruct (follow _ _ _) as [[o drawn] faced].
  set (c1 := on_top _ _).
  assert (E1 : strip c1 = on_ptop (preveal m drawn)
    (set_counts (strip c) (S (p_nMoves (strip c))) (max (p_maxDepth (strip c)) (S (fDepth f))))).
  { subst c1. by rewrite (strip_on_top _ (preveal m drawn)). }
  rewrite <- E1. clearbody c1. clear E1. unfold longer.
  destruct o as [t|e]; [|apply strip_failed].
  unfold parrive. cbn [here]. destruct (terminal t); cbn [fst snd]; [by rewrite strip_complete|].
  rewrite <- (strip_enter _ _ (move_mass f m faced)).
  destruct (enter _ _ _ _ _ _ _) as [c2 child]; cbn [fst snd]. f_equal.
  set (c3 := match visited c2 !! t with Some _ => _ | None => c2 end).
  assert (E3 : strip c3 = match p_visited (strip c2) !! t with
            | Some seen => if p_cut seen then pcut_top (strip c2) else strip c2 | None => strip c2 end).
  { subst c3. cbn [strip p_visited]. rewrite lookup_fmap. destruct (visited c2 !! t) as [seen|]; [|done].
    cbn [fmap option_fmap option_map strip_seen p_cut]. destruct (cut seen); [apply strip_cut_top|done]. }
  rewrite <- E3. cbn [strip p_onStack]. set (c4 := if _ <? _ then _ else c3).
  assert (E4 : strip c4 = if 0 <? default 0 (onStack c3 !! t) then on_ptop pexpand (strip c3) else strip c3).
  { subst c4. destruct (_ <? _); [|done]. apply strip_on_top. intros g. unfold expand, pexpand. cbn. by destruct (full g). }
  rewrite <- E4. by destruct child.
Qed.

Lemma strip_pop f rest c :
  strip (pop f rest c) = ppop (strip_frame f) (map strip_frame rest) (strip c).
Proof.
  unfold pop, ppop. cbv zeta. cbn [strip_frame p_fcut].
  set (c1 := with_stack (with_onStack c (alter pred (key f) (onStack c))) rest).
  assert (E1 : strip c1 = set_stack (strip c) (alter pred (p_key (strip_frame f)) (p_onStack (strip c))) (map strip_frame rest)) by done.
  rewrite <- E1. clearbody c1. set (c2 := if negb _ && _ then _ else c1).
  assert (E2 : strip c2 = strip c1) by (subst c2; by destruct (_ && _)).
  set (c3 := if _ || _ || _ then inexact c2 else _).
  assert (E3 : strip c3 = strip c1).
  { subst c3. rewrite <- E2. destruct (_ || _ || _); [apply strip_inexact|]. apply strip_on_seen_same.
    intros v. by destruct (_ =? _). }
  destruct (fCut f); [|done]. by rewrite strip_cut_top, E3.
Qed.

Lemma strip_step c :
  (strip (search_step budget budgets props c).1, (search_step budget budgets props c).2)
  = pstep budget budgets props (strip c).
Proof.
  unfold search_step, pstep. cbn [strip p_stack]. destruct (stack c) as [|f rest] eqn:Es; [done|].
  cbn [map strip_frame p_moves p_next]. destruct (moves f !! next f) as [m|]; [|cbn [fst snd]; f_equal; apply strip_pop].
  rewrite strip_take. f_equal. by apply strip_on_seen.
Qed.

Lemma strip_loop fuel c :
  (fun p => (strip p.1, p.2)) <$> search_loop budget budgets props fuel c = ploop budget budgets props fuel (strip c).
Proof.
  revert c. induction fuel as [|fuel IH]; intros c; cbn [search_loop ploop strip p_stack];
    destruct (stack c) as [|f rest] eqn:Es; cbn [map]; [done..|].
  pose proof (strip_step c) as E. destruct (search_step _ _ _ c) as [c1 [e|]]; cbn [fst snd] in E; rewrite <- E; [done|].
  apply IH.
Qed.

Lemma strip_start o picks m c :
  (strip (search_start budget props o picks m c).1, (search_start budget props o picks m c).2)
  = pstart budget props o picks (strip c).
Proof.
  unfold search_start, pstart. destruct o as [s|e]; [|apply strip_failed].
  destruct (terminal s); cbn [fst snd]; [by rewrite strip_complete|].
  rewrite <- (strip_enter _ _ m). by destruct (enter _ _ _ _ _ _ _) as [c1 [f|]].
Qed.

Lemma strip_from fuel picks c :
  (fun p => (strip p.1.1, p.1.2, p.2)) <$> searchFrom budget budgets props fuel picks c
  = pfrom budget budgets props fuel picks (strip c).
Proof.
  unfold searchFrom, pfrom. destruct (follow _ begin picks) as [[[e|e|o] drawn] faced]; [done| |].
  - cbn [fmap option_fmap option_map fst snd]. by rewrite strip_violate.
  - pose proof (strip_start o picks (fold_left (fun x '(c, i) => fmul x (shareOf c i)) faced one) c) as E.
    destruct (search_start _ _ _ _ _ c) as [c1 [e|]]; cbn [fst snd] in E; rewrite <- E; [done|].
    rewrite <- strip_loop. by destruct (search_loop _ _ _ fuel c1) as [[c2 [e|]]|].
Qed.

Lemma strip_check_loop fuel n starts c :
  (fun p => (strip p.1, p.2)) <$> check_loop budget budgets props fuel n starts c
  = pcheck_loop budget budgets props fuel n starts (strip c).
Proof.
  revert starts c. induction n as [|n IH]; intros [|picks starts] c; cbn [check_loop pcheck_loop]; [done..|].
  rewrite <- strip_from. destruct (searchFrom _ _ _ fuel picks c) as [[[c1 [e|]] more]|]; cbn; [done| |done].
  apply IH.
Qed.

(** The report read off the plain search: all of it but the masses. *)
Lemma Check_strip fuel (r : CheckReport Executor Node Error) :
  Check budget budgets props fuel = Some (inl r) ->
  exists p : plain State Executor Node Error, pcheck_loop budget budgets props fuel fuel [[]] new_plain = Some (p, None) /\
    r.(RStates) = size p.(p_visited) /\ r.(RMoves) = p.(p_nMoves) /\ r.(RMaxDepth) = p.(p_maxDepth) /\
    r.(RBoundsHit) = p.(p_bounds) /\ map strip_violation r.(Violations) = p.(p_violations) /\
    r.(Finals) = merge_sort (by_key fIdentity) p.(p_results) /\ r.(Divergent) = divergences r.(Finals) /\
    r.(Verdict) = (if negb (is_nil p.(p_violations)) then CheckViolation
                   else if negb (is_nil r.(Divergent)) then CheckDivergent
                   else if negb (is_nil p.(p_bounds)) then CheckWithinBounds else CheckExhaustive).
Proof.
  unfold Check. pose proof (strip_check_loop fuel fuel [[]] new_checker) as E.
  assert (E0 : @strip State Executor Node Error _ _ new_checker = new_plain).
  { unfold strip, new_plain. cbn. by rewrite fmap_empty. }
  rewrite E0 in E.
  destruct (check_loop _ _ _ _ _ _ _) as [[c [e|]]|]; [done| |done]. intros [= <-].
  exists (strip c). split; [by rewrite <- E|]. cbn. rewrite map_size_fmap. split_and!; try done.
  by destruct (violations c).
Qed.
End Strip.

(** ** More fuel *)

Section Fuel.
Context {State Executor Node Error : Type}.
Context `{EqDecision State, !Countable State, EqDecision Executor, EqDecision Node}.
Context `{Inv : Invoked State Executor Node Error}.
Variables (budget : CheckBudget) (budgets : Budgets) (props : list (CheckProperty State Error)).

Lemma search_loop_more n n' (c : checker State Executor Node Error) res :
  search_loop budget budgets props n c = Some res -> n <= n' -> search_loop budget budgets props n' c = Some res.
Proof.
  revert n' c. induction n as [|n IH]; intros [|n'] c E Hn; cbn [search_loop] in *; destruct (stack c); try done; try lia.
  destruct (search_step _ _ _ c) as [c1 [e|]]; [done|]. apply IH; [done|lia].
Qed.

Lemma searchFrom_more n n' picks (c : checker State Executor Node Error) res :
  searchFrom budget budgets props n picks c = Some res -> n <= n' -> searchFrom budget budgets props n' picks c = Some res.
Proof.
  intros E Hn. unfold searchFrom in *. destruct (follow _ begin picks) as [[[e|e|o] drawn] faced]; [done..|].
  destruct (search_start _ _ _ _ _ _) as [c1 [e|]]; [done|].
  destruct (search_loop budget budgets props n c1) as [res1|] eqn:E1; [|done].
  by rewrite (search_loop_more _ _ _ _ E1 Hn).
Qed.

Lemma check_loop_more n n' k k' starts (c : checker State Executor Node Error) res :
  check_loop budget budgets props n k starts c = Some res -> n <= n' -> k <= k' ->
  check_loop budget budgets props n' k' starts c = Some res.
Proof.
  intros E Hn. revert k' starts c E. induction k as [|k IH]; intros [|k'] [|picks starts] c E Hk; cbn [check_loop] in *; try done; try lia.
  destruct (searchFrom budget budgets props n picks c) as [res1|] eqn:E1; [|done].
  rewrite (searchFrom_more _ _ _ _ _ E1 Hn). destruct res1 as [[c1 [e|]] more]; [done|]. apply IH; [done|lia].
Qed.

Lemma Check_more n n' (res : CheckReport Executor Node Error + Error) :
  Check budget budgets props n = Some res -> n <= n' -> Check budget budgets props n' = Some res.
Proof.
  unfold Check. intros E Hn. destruct (check_loop budget budgets props n n [[]] new_checker) as [x|] eqn:E1; [|done].
  by rewrite (check_loop_more n n' n n' _ _ _ E1 Hn Hn).
Qed.
End Fuel.
