(* ===== verification/CheckerSpec.v ===== *)
(** * The schedules of an invocation

    What the search of [Checker] is to find: the schedules of an invocation, every
    choice point of its start and of its moves resolved by one of the alternatives,
    independently of any search. With it, that the picks a run is given and those
    revealed by what it drew past them split what is left to resolve between them. *)
From stdpp Require Import gmap.
From S2P Require Import Prelude Bytes Explore Checker.
Local Open Scope nat_scope.

(** ** Resolving choice points *)

Section Choices.
Context {A : Type}.
Implicit Types (t : choices A) (a refused : A) (ps : list nat).

(** The picks resolve every choice point faced, and the run ends in [a]. *)
Inductive resolves : choices A -> list nat -> A -> Prop :=
  | resolves_end a : resolves (Ends a) [] a
  | resolves_draw c k i ps a :
      i < length c.(Alternatives) -> resolves (k i) ps a -> resolves (Draws c k) (i :: ps) a.

(** With the choice points past the picks at their first alternative. *)
Definition takes t ps a : Prop := exists n, resolves t (ps ++ replicate n 0) a.

(** Every choice point has an alternative. *)
Inductive offers : choices A -> Prop :=
  | offers_end a : offers (Ends a)
  | offers_draw c k :
      1 <= length c.(Alternatives) -> (forall i, i < length c.(Alternatives) -> offers (k i)) -> offers (Draws c k).

(** What is left once the picks are taken; [None] where one is no alternative. *)
Fixpoint sub_at t ps : option (choices A) :=
  match ps, t with
  | [], _ => Some t
  | _, Ends _ => None
  | p :: ps, Draws c k => if p <? length c.(Alternatives) then sub_at (k p) ps else None
  end.

Fixpoint leaves t : nat :=
  match t with
  | Ends _ => 1
  | Draws c k => sum_list (map (fun i => leaves (k i)) (seq 0 (length c.(Alternatives))))
  end.

Lemma siblings_cons ps c drawn :
  siblings [] (c :: drawn)
  = map (fun alt => [alt]) (seq 1 (length c.(Alternatives) - 1)) ++ map (cons 0) (siblings [] drawn).
Proof.
  unfold siblings. cbn [imap concat app replicate]. f_equal.
  rewrite concat_map. f_equal. unfold imap at 1. rewrite fmap_imap. apply imap_ext. intros i x _.
  cbn. by rewrite map_map.
Qed.

Lemma siblings_prefix ps drawn : siblings ps drawn = map (app ps) (siblings [] drawn).
Proof.
  unfold siblings. rewrite concat_map. f_equal. rewrite fmap_imap. apply imap_ext. intros i x _.
  cbn. by rewrite map_map.
Qed.

Lemma sub_at_nil t : sub_at t [] = Some t.
Proof. by destruct t. Qed.

Lemma sub_at_app t ps qs t' : sub_at t ps = Some t' -> sub_at t (ps ++ qs) = sub_at t' qs.
Proof.
  revert t. induction ps as [|p ps IH]; intros t H.
  - by destruct t; injection H as <-.
  - destruct t as [a|c k]; [done|]. cbn [sub_at app] in *. destruct (_ <? _); [by apply IH|done].
Qed.

Lemma sub_at_offers t ps t' : offers t -> sub_at t ps = Some t' -> offers t'.
Proof.
  revert t. induction ps as [|p ps IH]; intros t Ht H; [by destruct t; injection H as <-|].
  destruct Ht as [a|c k Hc Hk]; [done|]. cbn [sub_at] in H. destruct (Nat.ltb_spec p (length (Alternatives c))); [|done].
  eauto.
Qed.

Lemma sub_at_resolves t ps t' qs a : sub_at t ps = Some t' -> resolves t (ps ++ qs) a <-> resolves t' qs a.
Proof.
  revert t. induction ps as [|p ps IH]; intros t H.
  - by destruct t; cbn in H; injection H as <-.
  - destruct t as [b|c k]; cbn [sub_at] in H; [done|]. destruct (Nat.ltb_spec p (length (Alternatives c))); [|done].
    rewrite <- (IH _ H). split; [intros R; by inversion R; subst|by constructor].
Qed.

Lemma leaves_pos t : offers t -> 1 <= leaves t.
Proof.
  induction 1 as [a|c k Hc Hk IH]; cbn; [done|].
  destruct (length _) as [|n]; [lia|]. cbn. specialize (IH 0). lia.
Qed.

(** ** What a run under picks reveals *)

Lemma follow_sub refused t ps t' :
  sub_at t ps = Some t' -> (follow refused t ps).1 = (follow refused t' []).1.
Proof.
  revert t. induction ps as [|p ps IH]; intros t H; [by destruct t; injection H as <-|].
  destruct t as [a|c k]; [done|]. cbn [sub_at] in H. destruct (Nat.ltb_spec p (length (Alternatives c))); [|done]. cbn [follow].
  rewrite (proj2 (Nat.leb_gt _ _)) by done. rewrite <- (IH _ H). by destruct (follow _ _ ps) as [[? ?] ?].
Qed.

Lemma follow_first refused t : offers t -> takes t [] (follow refused t []).1.1.
Proof.
  unfold takes. induction 1 as [a|c k Hc Hk IH]; [exists 0; constructor|].
  destruct (IH 0) as [n Hn]; [lia|]. exists (S n). cbn [follow].
  destruct (follow refused (k 0) []) as [[b d] f]. cbn. constructor; [lia|done].
Qed.

Lemma follow_takes refused t ps :
  offers t -> is_Some (sub_at t ps) -> takes t ps (follow refused t ps).1.1.
Proof.
  intros Ht [t' E]. rewrite (follow_sub _ _ _ _ E).
  destruct (follow_first refused t') as [n Hn]; [by eapply sub_at_offers|].
  exists n. by apply (sub_at_resolves _ _ _ _ _ E).
Qed.

Lemma elem_of_siblings_cons c drawn x :
  x ∈ siblings [] (c :: drawn)
  <-> (exists alt, 1 <= alt < length c.(Alternatives) /\ x = [alt]) \/ (exists y, y ∈ siblings [] drawn /\ x = 0 :: y).
Proof.
  rewrite (siblings_cons []), elem_of_app, !list_elem_of_fmap. f_equiv.
  - f_equiv. intros alt. rewrite elem_of_seq. split; intros [H1 H2]; split; (done || lia).
  - f_equiv. intros y. tauto.
Qed.

Lemma siblings_valid_first refused t x :
  offers t -> x ∈ siblings [] (follow refused t []).1.2 -> is_Some (sub_at t x).
Proof.
  intros Ht. revert x. induction Ht as [a|c k Hc Hk IH]; intros x; [by intros ?%elem_of_nil|].
  specialize (IH 0 ltac:(lia)). cbn [follow]. destruct (follow refused (k 0) []) as [[b d] f]. cbn [fst snd] in *.
  rewrite elem_of_siblings_cons. intros [(alt & Ha & ->)|(y & Hy & ->)]; cbn [sub_at].
  - rewrite (proj2 (Nat.ltb_lt _ _)) by lia. destruct (k alt); by eexists.
  - rewrite (proj2 (Nat.ltb_lt _ _)) by lia. by apply IH.
Qed.

Lemma siblings_valid refused t ps x :
  offers t -> is_Some (sub_at t ps) -> x ∈ siblings [] (follow refused t ps).1.2 -> is_Some (sub_at t (ps ++ x)).
Proof.
  intros Ht [t' E]. rewrite (follow_sub _ _ _ _ E), (sub_at_app _ _ _ _ E).
  apply siblings_valid_first. by eapply sub_at_offers.
Qed.

Lemma siblings_cover_first refused t qs a :
  resolves t qs a ->
  a = (follow refused t []).1.1 \/ exists x r, x ∈ siblings [] (follow refused t []).1.2 /\ qs = x ++ r.
Proof.
  induction 1 as [a|c k i qs a Hi Hr IH]; [by left|]. cbn [follow]. destruct i as [|i].
  - destruct (follow refused (k 0) []) as [[b d] f]. cbn [fst snd] in *.
    destruct IH as [IH|(x & r & Hx & ->)]; [by left|]. right. exists (0 :: x), r.
    rewrite elem_of_siblings_cons. split; [right; by exists x|done].
  - right. exists [S i], qs. destruct (follow refused (k 0) []) as [[b d] f]. cbn [fst snd].
    rewrite elem_of_siblings_cons. split; [left; exists (S i); split; [lia|done]|done].
Qed.

(** Every way of resolving what the picks leave is the run's own, or one of the revealed picks'. *)
Lemma siblings_cover refused t ps qs a :
  is_Some (sub_at t ps) -> resolves t (ps ++ qs) a ->
  a = (follow refused t ps).1.1 \/ exists x r, x ∈ siblings [] (follow refused t ps).1.2 /\ qs = x ++ r.
Proof.
  intros [t' E] R. rewrite (follow_sub _ _ _ _ E). apply siblings_cover_first. by apply (sub_at_resolves _ _ _ _ _ E).
Qed.

Definition left_at t ps : nat := match sub_at t ps with Some t' => leaves t' | None => 0 end.

Lemma siblings_leaves_first refused t :
  offers t -> leaves t = S (sum_list (map (left_at t) (siblings [] (follow refused t []).1.2))).
Proof.
  induction 1 as [a|c k Hc Hk IH]; [done|].
  specialize (IH 0 ltac:(lia)). cbn [follow]. destruct (follow refused (k 0) []) as [[b d] f]. cbn [fst snd] in *.
  rewrite (siblings_cons []), map_app, sum_list_with_app, !map_map. cbn [leaves].
  destruct (length (Alternatives c)) as [|n] eqn:En; [lia|]. cbn [seq map sum_list]. rewrite IH.
  replace (S n - 1) with n by lia.
  assert (E1 : map (fun y => left_at (Draws c k) (0 :: y)) (siblings [] d) = map (left_at (k 0)) (siblings [] d)).
  { apply map_ext. intros y. unfold left_at. cbn [sub_at]. by rewrite En. }
  rewrite E1. enough (E2 : map (fun i => left_at (Draws c k) [i]) (seq 1 n) = map (fun i => leaves (k i)) (seq 1 n)).
  { rewrite E2. cbn [id]. unfold id. lia. }
  apply map_ext_in. intros i [Hi1 Hi2]%in_seq. unfold left_at. cbn [sub_at]. rewrite En.
  rewrite (proj2 (Nat.ltb_lt _ _)) by lia. by destruct (k i).
Qed.

Lemma siblings_leaves refused t ps :
  offers t -> is_Some (sub_at t ps) ->
  left_at t ps = S (sum_list (map (fun x => left_at t (ps ++ x)) (siblings [] (follow refused t ps).1.2))).
Proof.
  intros Ht [t' E]. unfold left_at at 1. rewrite E, (follow_sub _ _ _ _ E).
  rewrite (siblings_leaves_first refused) by (by eapply sub_at_offers). f_equal. f_equal.
  apply map_ext. intros x. unfold left_at. by rewrite (sub_at_app _ _ _ _ E).
Qed.
End Choices.

(** ** Schedules *)

(** What the search relies on of the invocation: a choice point offers an alternative,
    and the picks naming an enabled move among its siblings are alternatives. *)
Class Offering {State Executor Node Error} (Inv : Invoked State Executor Node Error) : Prop := {
  begin_offers : offers begin;
  make_offers s u : offers (make s u);
  enabled_picks s m : m ∈ enabledMoves s -> is_Some (sub_at (make s m.(moved)) m.(Picks)) }.

Section Schedules.
Context {State Executor Node Error : Type}.
Context `{Inv : Invoked State Executor Node Error}.

(** A schedule and where it ends, every choice point past its picks at its first
    alternative: the start and no move, or a schedule to a settled state and an enabled
    move of it. A start that fails ends a schedule of no move. *)
Inductive scheduled : Schedule Executor Node -> ending State Error -> Prop :=
  | scheduled_start ps o :
      takes begin ps (Begun o) -> scheduled {| startPicks := ps; made := [] |} o
  | scheduled_unstarted ps e :
      takes begin ps (NotStarted e) -> scheduled {| startPicks := ps; made := [] |} (Raised e)
  | scheduled_move w s m ps o :
      scheduled w (Settled s) -> m ∈ enabledMoves s -> takes (make s m.(moved)) (m.(Picks) ++ ps) o ->
      scheduled {| startPicks := w.(startPicks); made := w.(made) ++ [(m.(moved), m.(Picks) ++ ps)] |} o.

Definition reachable (s : State) : Prop := exists w, scheduled w (Settled s).

(** An error some schedule ends in. *)
Definition raised (e : Error) : Prop := exists w, scheduled w (Raised e).
End Schedules.
