(* ===== verification/CheckerSteps.v ===== *)
(** * What the operations of the search change

    Each operation of the plain search only adds to what was found ([grows]); those that
    visit a state leave the stack alone ([same_stack]). The lemmas here say what each
    leaves, for the invariants of the files that follow. *)
From stdpp Require Import gmap.
From S2P Require Import Prelude Bytes Explore ExploreQueue Checker CheckerPlain CheckerSpec.
Local Open Scope nat_scope.

Section Steps.
Context {State Executor Node Error : Type}.
Context `{EqDecision State, !Countable State, EqDecision Executor, EqDecision Node}.
Context `{Inv : Invoked State Executor Node Error}.
Variables (budget : CheckBudget) (budgets : Budgets) (props : list (CheckProperty State Error)).
Implicit Types (s : State) (c : plain State Executor Node Error) (r : Snapshot State Executor Node)
  (f : pframe State Executor Node) (m : searchMove Executor Node) (v : pviolation Executor Node Error)
  (p : CheckProperty State Error).

(** ** What was found *)

(** A property's violation is reported. *)
Definition said c (n : bytes) : Prop :=
  exists v, v ∈ c.(p_violations) /\ v.(p_kind) = ViolationProperty /\ v.(p_name) = n.
(** A failure or a deadlock with the error is reported. *)
Definition told c (n : bytes) (e : Error) : Prop :=
  exists v, v ∈ c.(p_violations) /\ v.(p_kind) <> ViolationProperty /\ v.(p_name) = n /\ v.(p_err) = Some e.

Record grows c c' : Prop := {
  g_visited : forall s, is_Some (c.(p_visited) !! s) -> is_Some (c'.(p_visited) !! s);
  g_bounds : c'.(p_bounds) = [] -> c.(p_bounds) = [];
  g_said : forall n, said c n -> said c' n;
  g_told : forall n e, told c n e -> told c' n e;
  g_results : forall g, g ∈ c.(p_results) -> g ∈ c'.(p_results) }.

#[export] Instance grows_preorder : PreOrder grows.
Proof.
  split; [by intros c|]. intros c1 c2 c3 [] []. by constructor; eauto.
Qed.

Definition same_stack c c' : Prop :=
  c'.(p_stack) = c.(p_stack) /\ c'.(p_onStack) = c.(p_onStack) /\ c'.(p_nMoves) = c.(p_nMoves) /\ c'.(p_maxDepth) = c.(p_maxDepth).
#[export] Instance same_stack_preorder : PreOrder same_stack.
Proof. split; unfold same_stack; [done|]. intros c1 c2 c3. intuition congruence. Qed.

(** Growing by nothing but what the two differ in. *)
Lemma grows_same c c' :
  (forall s, is_Some (c.(p_visited) !! s) -> is_Some (c'.(p_visited) !! s)) -> c'.(p_bounds) = c.(p_bounds) ->
  c'.(p_violations) = c.(p_violations) -> c'.(p_results) = c.(p_results) -> grows c c'.
Proof. intros H1 H2 H3 H4. constructor; unfold said, told; rewrite ?H2, ?H3, ?H4; auto. Qed.

Lemma grows_set_counts c n d : grows c (set_counts c n d).
Proof. by apply grows_same. Qed.
Lemma grows_set_stack c o l : grows c (set_stack c o l).
Proof. by apply grows_same. Qed.
Lemma grows_on_ptop g c : grows c (on_ptop g c).
Proof. unfold on_ptop. by destruct c.(p_stack). Qed.
Lemma on_pseen_dom g s c t : is_Some ((on_pseen s g c).(p_visited) !! t) <-> is_Some (c.(p_visited) !! t).
Proof. unfold on_pseen, set_visited. cbn. apply lookup_alter_is_Some. Qed.
Lemma grows_on_pseen g s c : grows c (on_pseen s g c).
Proof. apply grows_same; [|done..]. intros t. by rewrite on_pseen_dom. Qed.
Lemma grows_pcut_top c : grows c (pcut_top c).
Proof. unfold pcut_top. destruct c.(p_stack); [done|]. by rewrite <- grows_on_pseen, <- grows_on_ptop. Qed.

Lemma phit_bounds b c : (phit b c).(p_bounds) <> [].
Proof.
  unfold phit. case_bool_decide as E; cbn; [|by destruct (p_bounds c)]. intros E'. rewrite E' in E. by apply elem_of_nil in E.
Qed.
Lemma grows_phit b c : grows c (phit b c).
Proof.
  constructor; try (unfold phit, said, told; by case_bool_decide; cbn; eauto).
  intros E. by destruct (phit_bounds b c).
Qed.
Lemma same_stack_phit b c : same_stack c (phit b c).
Proof. unfold phit. by case_bool_decide. Qed.
Lemma phit_visited b c : (phit b c).(p_visited) = c.(p_visited).
Proof. unfold phit. by case_bool_decide. Qed.
Lemma phit_violations b c : (phit b c).(p_violations) = c.(p_violations).
Proof. unfold phit. by case_bool_decide. Qed.
Lemma phit_finals b c : (phit b c).(p_finals) = c.(p_finals) /\ (phit b c).(p_results) = c.(p_results).
Proof. unfold phit. by case_bool_decide. Qed.

(** Only the violations differ. *)
Definition only_violations c c' : Prop := exists l, c' = set_found c c.(p_bounds) l.

Lemma pfound_Some n (l : list (pviolation Executor Node Error)) i :
  pfound n l = Some i -> exists v, l !! i = Some v /\ v.(p_kind) = ViolationProperty /\ v.(p_name) = n.
Proof.
  unfold pfound. intros (x & E & ->)%fmap_Some. destruct x as [j v]. apply list_find_Some in E as (E1 & [E2 E3] & _). by exists v.
Qed.

Lemma pviolate_only v c : only_violations c (pviolate v c).
Proof.
  unfold pviolate, only_violations. destruct (if bool_decide _ then _ else _) as [i|]; [|by eexists].
  destruct (c.(p_violations) !! i); [|exists c.(p_violations); by destruct c].
  destruct (_ <? _); [by eexists|exists c.(p_violations); by destruct c].
Qed.

(** The violations after one is reported: the one, in place of a longer one of the same
    property or after the others; or none, where a shorter one of the property is known. *)
Lemma pviolate_cases v c :
  (exists w i, c.(p_violations) !! i = Some w /\ w.(p_kind) = ViolationProperty /\ v.(p_kind) = ViolationProperty /\
     w.(p_name) = v.(p_name) /\
     ((v.(p_vdepth) < w.(p_vdepth) /\ (pviolate v c).(p_violations) = <[i := v]> c.(p_violations)) \/
      (w.(p_vdepth) <= v.(p_vdepth) /\ (pviolate v c).(p_violations) = c.(p_violations)))) \/
  (pviolate v c).(p_violations) = c.(p_violations) ++ [v].
Proof.
  unfold pviolate. destruct (if bool_decide _ then _ else _) as [i|] eqn:E; [|by right].
  left. case_bool_decide as Ek; [|done]. destruct (pfound_Some _ _ _ E) as (w & Ew & Kw & Nw). exists w, i.
  rewrite Ew. destruct (Nat.ltb_spec (p_vdepth v) (p_vdepth w)); cbn; naive_solver.
Qed.

Lemma pviolate_elem v c w : w ∈ (pviolate v c).(p_violations) -> w = v \/ w ∈ c.(p_violations).
Proof.
  destruct (pviolate_cases v c) as [(u & i & Eu & _ & _ & _ & [[_ ->]|[_ ->]])| ->]; intros Hw; [|by right|].
  - apply list_elem_of_lookup in Hw as [j Hj]. apply list_lookup_insert_Some in Hj as [(<- & -> & _)|[_ Hj]]; [by left|].
    right. by apply list_elem_of_lookup_2 in Hj.
  - apply elem_of_app in Hw as [Hw|Hw]; [by right|]. apply list_elem_of_singleton in Hw. by left.
Qed.

Lemma grows_pviolate v c : grows c (pviolate v c).
Proof.
  destruct (pviolate_only v c) as [l El].
  assert (Hk : forall w, w ∈ c.(p_violations) -> w.(p_kind) <> ViolationProperty -> w ∈ (pviolate v c).(p_violations)).
  { intros w Hw Kw. destruct (pviolate_cases v c) as [(u & i & Eu & Ku & _ & _ & [[_ ->]|[_ ->]])| ->]; [|done|].
    - apply list_elem_of_lookup in Hw as [j Hj]. apply list_elem_of_lookup. exists j.
      rewrite list_lookup_insert_ne; [done|]. intros ->. congruence.
    - apply elem_of_app. by left. }
  constructor; rewrite ?El; cbn; try done; rewrite <- ?El.
  - intros n (w & Hw & Kw & Nw). destruct (pviolate_cases v c) as [(u & i & Eu & Ku & Kv & Nu & [[_ E]|[_ E]])|E].
    + unfold said. rewrite E. apply list_elem_of_lookup in Hw as [j Hj]. destruct (decide (i = j)) as [->|N].
      * exists v. split; [apply list_elem_of_lookup; exists j; apply list_lookup_insert_eq; by eapply lookup_lt_Some|].
        split; [done|]. congruence.
      * exists w. split; [|done]. apply list_elem_of_lookup. exists j. by rewrite list_lookup_insert_ne.
    + exists w. by rewrite E.
    + exists w. rewrite E, elem_of_app. by auto.
  - intros n e (w & Hw & Kw & Nw). exists w. split; [by apply Hk|done].
Qed.

Lemma pviolate_said v c : v.(p_kind) = ViolationProperty -> said (pviolate v c) v.(p_name).
Proof.
  intros Kv. unfold said. destruct (pviolate_cases v c) as [(u & i & Eu & Ku & _ & Nu & [[_ ->]|[_ ->]])| ->].
  - exists v. split; [apply list_elem_of_lookup; exists i; apply list_lookup_insert_eq; by eapply lookup_lt_Some|done].
  - exists u. split; [by eapply list_elem_of_lookup_2|done].
  - exists v. split; [|done]. apply elem_of_app. right. by apply list_elem_of_singleton.
Qed.

Lemma pviolate_told v c e : v.(p_kind) <> ViolationProperty -> v.(p_err) = Some e -> told (pviolate v c) v.(p_name) e.
Proof.
  intros Kv Ev. destruct (pviolate_cases v c) as [(u & i & _ & _ & ? & _)|E]; [done|].
  exists v. rewrite E. split; [|done]. apply elem_of_app. right. by apply list_elem_of_singleton.
Qed.

Lemma pviolate_fields v c :
  (pviolate v c).(p_visited) = c.(p_visited) /\ (pviolate v c).(p_stack) = c.(p_stack) /\
  (pviolate v c).(p_onStack) = c.(p_onStack) /\ (pviolate v c).(p_bounds) = c.(p_bounds) /\
  (pviolate v c).(p_finals) = c.(p_finals) /\ (pviolate v c).(p_results) = c.(p_results).
Proof. by destruct (pviolate_only v c) as [l ->]. Qed.
Lemma same_stack_pviolate v c : same_stack c (pviolate v c).
Proof. by destruct (pviolate_only v c) as [l ->]. Qed.

(** ** Evaluating the properties *)

Definition marks (x : pseen) : gset bytes * nat * bool := (x.(p_explored), x.(p_depth), x.(p_cut)).
Definition marks_at c s : option (gset bytes * nat * bool) := marks <$> c.(p_visited) !! s.
Definition same_marks c c' : Prop := forall s, marks_at c' s = marks_at c s.
#[export] Instance same_marks_preorder : PreOrder same_marks.
Proof. split; unfold same_marks; [done|]. intros c1 c2 c3 H1 H2 s. by rewrite H2. Qed.

Lemma marks_at_dom c s : is_Some (marks_at c s) <-> is_Some (c.(p_visited) !! s).
Proof. unfold marks_at. by rewrite fmap_is_Some. Qed.

Lemma same_marks_size c c' : same_marks c c' -> size c'.(p_visited) = size c.(p_visited).
Proof.
  intros H. rewrite <- !(size_dom (D := gset State)). f_equal. apply set_eq. intros s.
  by rewrite !elem_of_dom, <- !marks_at_dom, H.
Qed.

(** Neither the stack, nor the marks of the visited states, nor the finals change. *)
Record quiet c c' : Prop := {
  quiet_stack : same_stack c c'; quiet_grows : grows c c'; quiet_marks : same_marks c c';
  quiet_finals : c'.(p_finals) = c.(p_finals); quiet_results : c'.(p_results) = c.(p_results) }.
#[export] Instance quiet_preorder : PreOrder quiet.
Proof.
  split; [by intros c|]. intros c1 c2 c3 [] []. split; try congruence; by etrans.
Qed.

Lemma quiet_phit b c : quiet c (phit b c).
Proof.
  split; [apply same_stack_phit|apply grows_phit|intros s; unfold marks_at; by rewrite phit_visited|..]; apply phit_finals.
Qed.
Lemma quiet_pviolate v c : quiet c (pviolate v c).
Proof.
  pose proof (pviolate_fields v c) as (E & _ & _ & _ & ? & ?).
  split; [apply same_stack_pviolate|apply grows_pviolate|intros s; unfold marks_at; by rewrite E|done..].
Qed.
Lemma quiet_on_pseen g s c : (forall x, marks (g x) = marks x) -> quiet c (on_pseen s g c).
Proof.
  intros Hg. split; [done|apply grows_on_pseen| |done..].
  intros t. unfold marks_at, on_pseen, set_visited. cbn. destruct (decide (s = t)) as [->|N].
  - rewrite lookup_alter_eq. destruct (_ !! t); cbn; [by rewrite Hg|done].
  - by rewrite lookup_alter_ne.
Qed.

Definition judged c s p : Prop :=
  match p.(Holds) s with
  | (holds, Some e) =>
      if Is e errStatementOrderSweepLimit then c.(p_bounds) <> [] /\ (holds = false -> said c p.(pName))
      else told c p.(pName) e
  | (false, None) => said c p.(pName)
  | (true, None) => True
  end.
Lemma judged_grows c c' s p : grows c c' -> judged c s p -> judged c' s p.
Proof.
  intros []. unfold judged. destruct (Holds p s) as [[] [e|]]; [destruct (Is e _)|done|destruct (Is e _)|auto]; auto.
  all: intros [H1 H2]; split; auto.
Qed.

(** Every name remembered on a visited state is a violation found. *)
Definition seen_said c : Prop :=
  forall s x n, c.(p_visited) !! s = Some x -> n ∈ x.(p_violated) -> said c n.

Lemma seen_said_same c c' : c'.(p_visited) = c.(p_visited) -> grows c c' -> seen_said c -> seen_said c'.
Proof. intros E [] H s x n. rewrite E. eauto. Qed.

Definition falsified (n : bytes) (v : pseen) : pseen :=
  if bool_decide (n ∈ v.(p_violated)) then v
  else {| p_explored := v.(p_explored); p_depth := v.(p_depth); p_cut := v.(p_cut); p_violated := v.(p_violated) ++ [n] |}.

Lemma pproperty_spec r d vs c p :
  (forall n, n ∈ vs -> said c n) -> seen_said c ->
  quiet c (pproperty r d vs c p) /\ seen_said (pproperty r d vs c p) /\ judged (pproperty r d vs c p) r.(here) p /\
  (forall v, v ∈ (pproperty r d vs c p).(p_violations) -> v ∈ c.(p_violations) \/
     v.(p_vdepth) = d /\ v.(p_name) = p.(pName) /\ v.(p_witness).(wSchedule) = r.(via) /\
     (v.(p_kind) = ViolationProperty /\ (p.(Holds) r.(here)).1 = false /\ v.(p_err) = None \/
      v.(p_kind) = ViolationFailure /\ is_Some v.(p_err) /\ (p.(Holds) r.(here)).2 = v.(p_err))).
Proof.
  intros Hvs Hsaid. unfold pproperty. destruct (Holds p (here r)) as [holds err] eqn:Eh. cbn [fst snd].
  set (early := match err with Some e => _ | None => false end).
  set (c1 := if early then phit _ c else c).
  assert (Q1 : quiet c c1) by (subst c1; destruct early; [apply quiet_phit|done]).
  assert (V1 : c1.(p_violations) = c.(p_violations)) by (subst c1; destruct early; [apply phit_violations|done]).
  assert (S1 : seen_said c1).
  { subst c1. destruct early; [|done]. eapply seen_said_same; [apply phit_visited|apply grows_phit|done]. }
  assert (B1 : early = true -> c1.(p_bounds) <> []) by (subst c1; intros ->; apply phit_bounds).
  destruct (if early then None else err) as [e|] eqn:Ee.
  - destruct early eqn:Eearly; [done|]. subst err. split_and!.
    + etrans; [exact Q1|apply quiet_pviolate].
    + eapply seen_said_same; [apply pviolate_fields|apply grows_pviolate|done].
    + unfold judged. rewrite Eh. destruct holds; subst early; rewrite Eearly; by apply (pviolate_told (Build_pviolation _ _ _ _ _ _ _ _)).
    + intros v [->|Hv]%pviolate_elem; [right; cbn; naive_solver|left; by rewrite <- V1].
  - assert (Hj : forall c', grows c1 c' -> said c' p.(pName) \/ holds = true -> judged c' r.(here) p).
    { intros c' G Hs. unfold judged. rewrite Eh. destruct err as [e|]; [|by destruct holds, Hs].
      subst early. destruct (Is e _); [|done]. enough (p_bounds c' <> [] /\ (holds = false -> said c' (pName p))) by by destruct holds.
      split; [intros E; by destruct (B1 eq_refl), (g_bounds _ _ G E)|by destruct Hs as [?| ->]]. }
    destruct holds; [split_and!; try done; [apply Hj; [done|by right]|intros v Hv; left; by rewrite <- V1]|].
    fold (falsified (pName p)). set (c2 := on_pseen (here r) (falsified (pName p)) c1).
    assert (Q2 : quiet c1 c2).
    { apply quiet_on_pseen. intros v. unfold falsified. by case_bool_decide. }
    assert (S2 : forall c', grows c1 c' -> c'.(p_visited) = c2.(p_visited) -> said c' (pName p) -> seen_said c').
    { intros c' G E Hs s v n. rewrite E. subst c2. unfold on_pseen, set_visited. cbn.
      intros [(<- & w & Hw & ->)|[_ Hw]]%lookup_alter_Some Hn; [|eapply G; eauto].
      unfold falsified in Hn. case_bool_decide; [eapply G; eauto|]. cbn in Hn.
      apply elem_of_app in Hn as [Hn|Hn]; [eapply G; eauto|]. apply list_elem_of_singleton in Hn. by subst n. }
    case_bool_decide as Hin.
    + assert (Hs : said c2 (pName p)) by (apply Q2, Q1; auto).
      split_and!; [by etrans|by apply S2; [apply Q2|..]|apply Hj; [apply Q2|by left]|].
      intros v Hv. left. by rewrite <- V1.
    + set (v := Build_pviolation _ _ _ _ _ _ _ _).
      assert (Hs : said (pviolate v c2) (pName p)) by (by apply (pviolate_said v)).
      assert (Q3 : quiet c1 (pviolate v c2)) by (etrans; [exact Q2|apply quiet_pviolate]).
      split_and!; [by etrans|apply S2; [apply Q3|apply pviolate_fields|done]|apply Hj; [apply Q3|by left]|].
      intros w [->|Hw]%pviolate_elem; [right; subst v; cbn; naive_solver|]. left. by rewrite <- V1.
Qed.

(** A violation of a property, or a failure to evaluate one, at the state of a snapshot. *)
Definition judged_false r d v : Prop :=
  v.(p_vdepth) = d /\ v.(p_witness).(wSchedule) = r.(via) /\
  exists p, p ∈ props /\ v.(p_name) = p.(pName) /\
   (v.(p_kind) = ViolationProperty /\ (p.(Holds) r.(here)).1 = false /\ v.(p_err) = None \/
    v.(p_kind) = ViolationFailure /\ is_Some v.(p_err) /\ (p.(Holds) r.(here)).2 = v.(p_err)).

Lemma pproperties_spec r d vs c :
  (forall n, n ∈ vs -> said c n) -> seen_said c ->
  quiet c (pproperties props r d vs c) /\ seen_said (pproperties props r d vs c) /\
  (forall p, p ∈ props -> judged (pproperties props r d vs c) r.(here) p) /\
  (forall v, v ∈ (pproperties props r d vs c).(p_violations) -> v ∈ c.(p_violations) \/ judged_false r d v).
Proof.
  unfold pproperties.
  enough (H : forall l c, l ⊆ props -> (forall n, n ∈ vs -> said c n) -> seen_said c ->
    quiet c (fold_left (pproperty r d vs) l c) /\ seen_said (fold_left (pproperty r d vs) l c) /\
    (forall p, p ∈ l -> judged (fold_left (pproperty r d vs) l c) r.(here) p) /\
    (forall v, v ∈ (fold_left (pproperty r d vs) l c).(p_violations) -> v ∈ c.(p_violations) \/ judged_false r d v))
    by (intros; by apply H).
  clear c. induction l as [|p l IH]; intros c Hl Hvs Hs; cbn [fold_left].
  { split_and!; [done|done|by intros ? ?%elem_of_nil|by auto]. }
  destruct (pproperty_spec r d vs c p Hvs Hs) as (Q & S & J & V).
  destruct (IH (pproperty r d vs c p)) as (Q' & S' & J' & V'); [set_solver|intros n Hn; apply Q; auto|done|].
  split_and!; [by etrans|done| |].
  - intros q [->|Hq]%elem_of_cons; [|by apply J']. eapply judged_grows; [apply Q'|done].
  - intros v Hv. destruct (V' v Hv) as [Hv'|]; [|by right]. destruct (V v Hv') as [|(? & ? & ? & ?)]; [by left|].
    right. split_and!; try done. exists p. split; [set_solver|done].
Qed.

(** ** Recording finals *)

Definition finals_ok c : Prop :=
  (forall i, is_Some (c.(p_finals) !! i) <-> exists g, g ∈ c.(p_results) /\ g.(fIdentity) = i) /\
  NoDup (map fIdentity c.(p_results)).

Definition final_of r (g : CheckFinal Executor Node Error) : Prop :=
  exists x, x ∈ (spellFinalVariants r.(here)).1 /\ g.(fOutcome) = x.(sf_spelled) /\ g.(fValues) = x.(sf_values) /\
    g.(fIdentity) = x.(sf_identity) /\ g.(fWitness) = witness r.(via).

Definition finals_at c s : Prop :=
  forall x, x ∈ (spellFinalVariants s).1 -> exists g, g ∈ c.(p_results) /\ g.(fIdentity) = x.(sf_identity).

Lemma finals_at_grows c c' s : grows c c' -> finals_at c s -> finals_at c' s.
Proof. intros [] H f Hf. destruct (H f Hf) as (g & ? & ?). eauto. Qed.

(** What recording finals leaves as it was. *)
Definition only_finals c c' : Prop :=
  same_stack c c' /\ grows c c' /\ c'.(p_visited) = c.(p_visited) /\ c'.(p_violations) = c.(p_violations).

Lemma pfinal_one_spec r c (f : spelledCheckFinal) :
  finals_ok c -> f ∈ (spellFinalVariants r.(here)).1 ->
  only_finals c (pfinal_one r c f) /\ finals_ok (pfinal_one r c f) /\
  (exists g, g ∈ (pfinal_one r c f).(p_results) /\ g.(fIdentity) = f.(sf_identity)) /\
  (forall g, g ∈ (pfinal_one r c f).(p_results) -> g ∈ c.(p_results) \/ final_of r g).
Proof.
  intros [Hi Hn] Hf. unfold pfinal_one. destruct (c.(p_finals) !! sf_identity f) as [i|] eqn:E.
  - assert (G : grows c (set_finals c c.(p_finals) c.(p_results) (scopeWith (p_scope c) (sf_scope f)))) by by apply grows_same.
    split_and!; [by split_and!|by split|apply Hi; by rewrite E|by left].
  - set (g := {| fOutcome := _ |}). assert (Hg : final_of r g) by (exists f; by split_and!).
    split_and!; [split_and!; [done| |done..]|split| |].
    + constructor; try done. intros x Hx. cbn. apply elem_of_app. by left.
    + intros i. cbn. rewrite lookup_insert_is_Some'. rewrite Hi. split.
      * intros [<-|(x & Hx & Ex)]; [exists g|exists x]; (split; [|done]); apply elem_of_app; [right|by left].
        by apply list_elem_of_singleton.
      * intros (x & [Hx|Hx]%elem_of_app & Ex); [right; by exists x|left]. apply list_elem_of_singleton in Hx. by subst x.
    + cbn. rewrite map_app. apply NoDup_app. split_and!; [done| |by apply NoDup_singleton].
      intros i Hx Hx'. apply list_elem_of_singleton in Hx' as ->. cbn in Hx. apply list_elem_of_fmap in Hx as (x & Ex & Hx).
      assert (is_Some (p_finals c !! sf_identity f)) as [? E'] by (apply Hi; by exists x). congruence.
    + exists g. split; [|done]. apply elem_of_app. right. by apply list_elem_of_singleton.
    + intros x [Hx|Hx]%elem_of_app; [by left|right]. apply list_elem_of_singleton in Hx. by subst x.
Qed.

#[export] Instance only_finals_preorder : PreOrder only_finals.
Proof.
  split; unfold only_finals; [done|]. intros c1 c2 c3 (?&?&?&?) (?&?&?&?). split_and!; try congruence; by etrans.
Qed.

Lemma pfinal_spec r c :
  finals_ok c ->
  only_finals c (pfinal r c) /\ finals_ok (pfinal r c) /\ finals_at (pfinal r c) r.(here) /\
  (forall g, g ∈ (pfinal r c).(p_results) -> g ∈ c.(p_results) \/ final_of r g).
Proof.
  unfold pfinal, finals_at. intros H0. destruct (spellFinalVariants (here r)) as [fs early] eqn:Es.
  set (c1 := if early then _ else c).
  assert (O1 : only_finals c c1 /\ finals_ok c1 /\ c1.(p_results) = c.(p_results)).
  { subst c1. destruct early; [|done]. destruct (phit_finals boundStatementOrders c) as [F1 F2]. split_and!; [| |done].
    - split_and!; [apply same_stack_phit|apply grows_phit|apply phit_visited|apply phit_violations].
    - unfold finals_ok. by rewrite F1, F2. }
  destruct O1 as (O1 & H1 & R1). cbn [fst].
  enough (H : forall l c, l ⊆ (spellFinalVariants (here r)).1 -> finals_ok c ->
    only_finals c (fold_left (pfinal_one r) l c) /\ finals_ok (fold_left (pfinal_one r) l c) /\
    (forall x, x ∈ l -> exists g, g ∈ (fold_left (pfinal_one r) l c).(p_results) /\ g.(fIdentity) = x.(sf_identity)) /\
    (forall g, g ∈ (fold_left (pfinal_one r) l c).(p_results) -> g ∈ c.(p_results) \/ final_of r g)).
  { destruct (H fs c1) as (A & B & C & D); [by rewrite Es|done|]. rewrite R1 in D. split_and!; try done. by etrans. }
  clear. induction l as [|f l IH]; intros c Hl Hc; cbn [fold_left].
  { split_and!; [done|done|by intros ? ?%elem_of_nil|auto]. }
  destruct (pfinal_one_spec r c f Hc) as (A & B & (g & Hg & Eg) & D); [set_solver|].
  destruct (IH (pfinal_one r c f)) as (A' & B' & C' & D'); [set_solver|done|].
  split_and!; [by etrans|done| |].
  - intros x [->|Hx]%elem_of_cons; [|by apply C']. exists g. split; [by apply A'|done].
  - intros x Hx. destruct (D' x Hx) as [Hx'|]; [|by right]. by apply D.
Qed.

(** ** Visiting and entering a state *)

Definition depth_at c s : option nat := p_depth <$> c.(p_visited) !! s.
Lemma depth_at_marks c s : depth_at c s = (fun x => x.1.2) <$> marks_at c s.
Proof. unfold depth_at, marks_at. by destruct (_ !! s). Qed.

Definition cut_at c s : option bool := p_cut <$> c.(p_visited) !! s.
Lemma cut_at_marks c s : cut_at c s = (fun x => x.2) <$> marks_at c s.
Proof. unfold cut_at, marks_at. by destruct (_ !! s). Qed.

(** What visiting a state leaves of the rest. *)
Record visits r d c c' : Prop := {
  vi_stack : same_stack c c'; vi_grows : grows c c'; vi_finals : c'.(p_finals) = c.(p_finals);
  vi_results : c'.(p_results) = c.(p_results); vi_said : seen_said c';
  vi_violations v : v ∈ c'.(p_violations) -> v ∈ c.(p_violations) \/ judged_false r d v;
  vi_marks s : s <> r.(here) -> marks_at c' s = marks_at c s }.

Definition within_states c : Prop := budget.(States) = 0 \/ size c.(p_visited) < budget.(States).

Lemma marks_at_on_pseen g s c t :
  marks_at (on_pseen s g c) t = if decide (s = t) then marks <$> (g <$> c.(p_visited) !! t) else marks_at c t.
Proof.
  unfold marks_at, on_pseen, set_visited. cbn. destruct (decide (s = t)) as [->|N].
  - by rewrite lookup_alter_eq.
  - by rewrite lookup_alter_ne.
Qed.

Lemma on_pseen_said g s c : (forall x, (g x).(p_violated) = x.(p_violated)) -> seen_said c -> seen_said (on_pseen s g c).
Proof.
  intros Hg H t x n. unfold on_pseen, set_visited, said. cbn.
  intros [(<- & y & Hy & ->)|[_ Hx]]%lookup_alter_Some; [rewrite Hg|]; intros Hn; by eapply H.
Qed.

Lemma visits_refl r d c : seen_said c -> visits r d c c.
Proof. intros Hs. split; try done. by left. Qed.

Lemma visits_on_pseen g r d c :
  (forall x, (g x).(p_violated) = x.(p_violated)) -> seen_said c -> visits r d c (on_pseen r.(here) g c).
Proof.
  intros Hg Hs. split; [done|apply grows_on_pseen|done|done|by apply on_pseen_said|by left|].
  intros s Hne. rewrite marks_at_on_pseen. by rewrite decide_False.
Qed.

Lemma visits_trans r d c1 c2 c3 : visits r d c1 c2 -> visits r d c2 c3 -> visits r d c1 c3.
Proof.
  intros [] []. split; try congruence; try (by etrans); try done.
  - intros v Hv. destruct (vi_violations1 v Hv); [|by right]. auto.
  - intros s Hs. by rewrite vi_marks1, vi_marks0.
Qed.

Lemma nearer_violated d (x : pseen) : (nearer d x).(p_violated) = x.(p_violated).
Proof. unfold nearer. by destruct (p_cut x). Qed.

Lemma pvisit_spec r d vs c :
  (forall n, n ∈ vs -> said c n) -> seen_said c ->
  visits r d c (pvisit budget props r d vs c).1 /\
  match (pvisit budget props r d vs c).2 with
  | None => (pvisit budget props r d vs c).1.(p_visited) = c.(p_visited) /\ c.(p_visited) !! r.(here) = None /\
            (pvisit budget props r d vs c).1.(p_bounds) <> [] /\ 0 < budget.(States)
  | Some false => c.(p_visited) !! r.(here) = None /\ within_states c /\
      marks_at (pvisit budget props r d vs c).1 r.(here) = Some (∅, d, false) /\
      (forall p, p ∈ props -> judged (pvisit budget props r d vs c).1 r.(here) p)
  | Some true => exists x, c.(p_visited) !! r.(here) = Some x /\
      (pvisit budget props r d vs c).1 = if d <? x.(p_depth) then on_pseen r.(here) (nearer d) c else c
  end.
Proof.
  intros Hvs Hs. unfold pvisit. destruct (c.(p_visited) !! here r) as [x|] eqn:Ex; cbn [fst snd].
  - split; [|by exists x]. destruct (_ <? _); [apply visits_on_pseen; [apply nearer_violated|done]|by apply visits_refl].
  - destruct (_ && _) eqn:El; cbn [fst snd].
    + destruct (quiet_phit (bs "states") c). split; [split; try done|split_and!; [apply phit_visited|done|apply phit_bounds|]].
      3: { apply andb_true_iff in El as [El _]. by apply Nat.ltb_lt. }
      * by eapply seen_said_same; [apply phit_visited|..].
      * intros v. rewrite phit_violations. by left.
    + set (x := {| p_explored := _ |}). set (c1 := set_visited c _).
      assert (S1 : seen_said c1).
      { intros s y n. cbn. intros [[<- <-]|[_ Hy]]%lookup_insert_Some Hn; [by apply elem_of_nil in Hn|exact (Hs s y n Hy Hn)]. }
      assert (G1 : grows c c1).
      { apply grows_same; [|done..]. intros s Hx. cbn. apply lookup_insert_is_Some'. by right. }
      destruct (pproperties_spec r d vs c1) as (Q & S & J & V); [intros n Hn; apply G1; auto|done|].
      assert (M1 : forall s, marks_at c1 s = if decide (here r = s) then Some (∅, d, false) else marks_at c s).
      { intros s. unfold marks_at, c1. cbn. destruct (decide (here r = s)) as [<-|N];
          [by rewrite lookup_insert_eq|by rewrite lookup_insert_ne]. }
      destruct Q as [Q1 Q2 Q3 Q4 Q5].
        split; [split; [exact Q1|by etrans|exact Q4|exact Q5|exact S|exact V|]|split_and!; [done| | |done]].
      * intros s Hne. rewrite Q3, M1. by rewrite decide_False.
      * unfold within_states. apply andb_false_iff in El as [El|El];
          [apply Nat.ltb_ge in El; left; lia|apply Nat.leb_gt in El; by right].
      * rewrite Q3, M1. by rewrite decide_True.
Qed.

(** Every move of a visited state with a move is marked explored. *)
Definition all_marked c : Prop :=
  forall s mk, terminal s = false -> marks_at c s = Some mk -> names_of (movesOf s) ⊆ mk.1.1.

(** The frame of a state entered with every move to make. *)
Definition fresh r d (vs : list bytes) : pframe State Executor Node :=
  {| p_snap := r; p_d := d; p_spent := unspent; p_all := movesOf r.(here); p_moves := movesOf r.(here); p_next := 0;
     p_full := false; p_fcut := false; p_fviolated := vs |}.

(** How entering a state ends: kept out by the states bound, with nothing to search
    again, or with a frame for a state that is new or nearer than it was. *)
Definition entered r d c c' (child : option (pframe State Executor Node)) : Prop :=
  match child with
  | None => (c'.(p_visited) = c.(p_visited) /\ c.(p_visited) !! r.(here) = None /\ c'.(p_bounds) <> [] /\ 0 < budget.(States)) \/
            exists n, depth_at c r.(here) = Some n /\ depth_at c' r.(here) = Some (min d n) /\
              cut_at c' r.(here) = cut_at c r.(here) /\ (cut_at c r.(here) = Some true -> n <= d)
  | Some f => exists vs, f = fresh r d vs /\ (forall n, n ∈ vs -> said c' n) /\ depth_at c' r.(here) = Some d /\
      ((c.(p_visited) !! r.(here) = None /\ within_states c /\ forall p, p ∈ props -> judged c' r.(here) p) \/
       exists n, depth_at c r.(here) = Some n /\ d < n /\ cut_at c r.(here) = Some true) /\
      cut_at c' r.(here) = Some false
  end.

Definition mark_all (l : list (searchMove Executor Node)) (x : pseen) : pseen :=
  seen_with x (x.(p_explored) ∪ names_of l) x.(p_depth) x.(p_cut).

Lemma names_of_elem m l : m ∈ l -> m.(name) ∈ names_of l.
Proof. intros H. apply elem_of_list_to_set, list_elem_of_fmap. by exists m. Qed.

Lemma is_nil_nil {A} (l : list A) : is_nil l = true <-> l = [].
Proof. by destruct l. Qed.

Lemma movesOf_elem s m : m ∈ movesOf s <-> exists e, e ∈ enabledMoves s /\ m = named s e.
Proof.
  unfold movesOf. rewrite merge_sort_Permutation. change (map (named s)) with (fmap (M := list) (named s)).
  rewrite list_elem_of_fmap. naive_solver.
Qed.

Lemma movesOf_nil s : movesOf s = [] <-> terminal s = true.
Proof.
  unfold terminal. rewrite is_nil_nil. split; intros H.
  - destruct (enabledMoves s) as [|e l] eqn:E; [done|]. exfalso.
    assert (Hin : named s e ∈ movesOf s) by (apply movesOf_elem; exists e; rewrite E; split; [left|done]).
    rewrite H in Hin. by apply elem_of_nil in Hin.
  - unfold movesOf. by rewrite H.
Qed.

Lemma all_marked_visits r d c c' mk :
  visits r d c c' -> all_marked c -> marks_at c' r.(here) = Some mk ->
  (terminal r.(here) = false -> names_of (movesOf r.(here)) ⊆ mk.1.1) -> all_marked c'.
Proof.
  intros V H E Hm s mk' Hs Es. destruct (decide (s = here r)) as [->|N]; [|apply H; [done|by rewrite <- (vi_marks _ _ _ _ V)]].
  rewrite E in Es. injection Es as <-. auto.
Qed.

(** The frame for the moves not explored yet, when all or none of them are. *)
Lemma penter_after r d vs c c1 was x :
  pvisit budget props r d vs c = (c1, Some was) -> c1.(p_visited) !! r.(here) = Some x -> terminal r.(here) = false ->
  x.(p_explored) = ∅ \/ (was = true /\ names_of (movesOf r.(here)) ⊆ x.(p_explored)) ->
  penter budget props r d vs c =
    if bool_decide (x.(p_explored) = ∅) then (on_pseen r.(here) (mark_all (movesOf r.(here))) c1, Some (fresh r d (vs ++ x.(p_violated))))
    else (c1, None).
Proof.
  intros Ev Ex Ht Hall. unfold penter. rewrite Ev, Ex. cbv zeta.
  assert (Hne : movesOf (here r) <> []) by (rewrite movesOf_nil; congruence).
  case_bool_decide as E.
  - assert (Ef : filter (fun m => m.(name) ∉ x.(p_explored)) (movesOf (here r)) = movesOf (here r)).
    { apply filter_all, Forall_forall. intros m _. rewrite E. apply not_elem_of_empty. }
    rewrite Ef. replace (if was then _ else _) with (movesOf (here r)) by (by destruct was).
    destruct (is_nil (movesOf (here r))) eqn:En; [by apply is_nil_nil in En|]. by rewrite andb_false_r.
  - destruct Hall as [|[-> Hall]]; [done|].
    assert (Ef : filter (fun m => m.(name) ∉ x.(p_explored)) (movesOf (here r)) = []).
    { apply filter_none, Forall_forall. intros m Hm Hn. apply Hn, Hall. by apply names_of_elem. }
    by rewrite Ef.
Qed.

Lemma names_of_nonempty s : terminal s = false -> names_of (movesOf s) <> ∅.
Proof.
  intros Ht E. destruct (movesOf s) as [|m l] eqn:Em; [apply movesOf_nil in Em; congruence|].
  assert (H : name m ∈ names_of (m :: l)) by (apply names_of_elem; left). rewrite E in H. by apply not_elem_of_empty in H.
Qed.

Lemma mark_all_keeps s l c :
  depth_at (on_pseen s (mark_all l) c) s = depth_at c s /\
  cut_at (on_pseen s (mark_all l) c) s = cut_at c s /\
  forall x, c.(p_visited) !! s = Some x ->
    marks_at (on_pseen s (mark_all l) c) s = Some (x.(p_explored) ∪ names_of l, x.(p_depth), x.(p_cut)).
Proof.
  rewrite depth_at_marks, cut_at_marks, marks_at_on_pseen, decide_True by done. unfold depth_at, cut_at.
  destruct (p_visited c !! s); split_and!; try done. by intros x [= ->].
Qed.

(** Entering a state afresh: marked with every move. *)
Lemma entering_fresh r d vs c c1 x :
  visits r d c c1 -> all_marked c -> c1.(p_visited) !! r.(here) = Some x -> x.(p_explored) = ∅ -> x.(p_depth) = d ->
  x.(p_cut) = false -> (forall n, n ∈ vs -> said c n) ->
  visits r d c (on_pseen r.(here) (mark_all (movesOf r.(here))) c1) /\
  all_marked (on_pseen r.(here) (mark_all (movesOf r.(here))) c1) /\
  (forall n, n ∈ vs ++ x.(p_violated) -> said (on_pseen r.(here) (mark_all (movesOf r.(here))) c1) n) /\
  depth_at (on_pseen r.(here) (mark_all (movesOf r.(here))) c1) r.(here) = Some d /\
  cut_at (on_pseen r.(here) (mark_all (movesOf r.(here))) c1) r.(here) = Some false.
Proof.
  intros V M Ex E0 Ed Ect Hvs. destruct (mark_all_keeps (here r) (movesOf (here r)) c1) as (D & Dc & K). specialize (K x Ex).
  assert (V' : visits r d c (on_pseen r.(here) (mark_all (movesOf r.(here))) c1)).
  { eapply visits_trans; [exact V|]. apply visits_on_pseen; [done|apply V]. }
  split_and!; [done| | | |rewrite Dc; unfold cut_at; rewrite Ex; cbn; by rewrite Ect].
  - eapply all_marked_visits; [done..|]. intros _. cbn. set_solver.
  - intros n [Hn|Hn]%elem_of_app; [apply V'; auto|]. apply (grows_on_pseen _ _ c1). by eapply (vi_said _ _ _ _ V).
  - rewrite D. unfold depth_at. rewrite Ex. cbn. by rewrite Ed.
Qed.

Lemma penter_spec r d vs c c' child :
  (forall n, n ∈ vs -> said c n) -> seen_said c -> all_marked c -> terminal r.(here) = false ->
  penter budget props r d vs c = (c', child) ->
  visits r d c c' /\ all_marked c' /\ entered r d c c' child.
Proof.
  intros Hvs Hs M Ht E. destruct (pvisit_spec r d vs c Hvs Hs) as [V W].
  destruct (pvisit budget props r d vs c) as [c1 [[|]|]] eqn:Ev; cbn [fst snd] in *.
  - destruct W as (x & Ex & Ec1).
    assert (Hx : names_of (movesOf (here r)) ⊆ p_explored x).
    { apply (M (here r) (marks x)); [done|]. unfold marks_at. by rewrite Ex. }
    assert (Hne : p_explored x <> ∅) by (pose proof (names_of_nonempty _ Ht); set_solver).
    destruct ((d <? p_depth x) && p_cut x) eqn:Er.
    + apply andb_true_iff in Er as [Ed Ecut]. rewrite Ed in Ec1. apply Nat.ltb_lt in Ed.
      assert (Ex1 : p_visited c1 !! here r = Some (seen_with x ∅ d false)).
      { subst c1. unfold on_pseen, set_visited. cbn. rewrite lookup_alter_eq, Ex. cbn. unfold nearer. by rewrite Ecut. }
      rewrite (penter_after _ _ _ _ _ _ _ Ev Ex1 Ht), bool_decide_true in E by (done || by left).
      injection E as <- <-. destruct (entering_fresh r d vs c c1 _ V M Ex1) as (A & B & C & D & Dc); [done..|].
      split_and!; [done|done|]. exists (vs ++ p_violated x). split_and!; [done|done|done| |done]. right. exists (p_depth x).
      unfold depth_at, cut_at. rewrite Ex. split_and!; [done|done|]. cbn. by rewrite Ecut.
    + assert (Ex1 : exists x1, p_visited c1 !! here r = Some x1 /\ p_explored x1 = p_explored x /\ p_depth x1 = min d (p_depth x) /\
        p_cut x1 = p_cut x /\ (p_cut x = true -> p_depth x <= d)).
      { subst c1. destruct (Nat.ltb_spec d (p_depth x)); [|exists x; split_and!; [done|done|lia|done|done]].
        cbn in Er. exists (seen_with x (p_explored x) d (p_cut x)). unfold on_pseen, set_visited. cbn. rewrite lookup_alter_eq, Ex. cbn.
        unfold nearer. rewrite Er. split_and!; [done|done|cbn; lia|done|congruence]. }
      destruct Ex1 as (x1 & Ex1 & Ee & Ed1 & Ec2 & Ec3).
      rewrite (penter_after _ _ _ _ _ _ _ Ev Ex1 Ht), bool_decide_false in E by (try congruence; right; by rewrite Ee).
      injection E as <- <-. split_and!; [done| |].
      * eapply (all_marked_visits _ _ _ _ (marks x1)); [done|done|unfold marks_at; by rewrite Ex1|]. intros _. cbn. by rewrite Ee.
      * right. exists (p_depth x). unfold depth_at, cut_at. rewrite Ex, Ex1. cbn. rewrite Ed1, Ec2. split_and!; try done.
        intros [= E1]. auto.
  - destruct W as (W1 & W2 & W3 & W4). unfold marks_at in W3. apply fmap_Some in W3 as (x & Ex & Em). injection Em as E0 Ed Ect.
    rewrite (penter_after _ _ _ _ _ _ _ Ev Ex Ht), bool_decide_true in E by (done || by left).
    injection E as <- <-. destruct (entering_fresh r d vs c c1 _ V M Ex) as (A & B & C & D & Dc); [done..|].
    split_and!; [done|done|]. exists (vs ++ p_violated x). split_and!; [done|done|done| |done]. left. split_and!; [done|done|].
    intros p Hp. eapply judged_grows; [apply grows_on_pseen|]. auto.
  - unfold penter in E. rewrite Ev in E. injection E as <- <-. destruct W as (W1 & W2 & W3 & W4). split_and!; [done| |by left].
    intros s mk. unfold marks_at. rewrite W1. by apply M.
Qed.

Lemma pcomplete_spec r d vs c :
  (forall n, n ∈ vs -> said c n) -> seen_said c -> finals_ok c -> all_marked c -> terminal r.(here) = true ->
  let c' := pcomplete budget props r d vs c in
  same_stack c c' /\ grows c c' /\ seen_said c' /\ all_marked c' /\ finals_ok c' /\
  (forall v, v ∈ c'.(p_violations) -> v ∈ c.(p_violations) \/ judged_false r d v) /\
  (forall g, g ∈ c'.(p_results) -> g ∈ c.(p_results) \/ final_of r g) /\
  (forall s, s <> r.(here) -> marks_at c' s = marks_at c s) /\
  ((c'.(p_bounds) <> [] /\ 0 < budget.(States)) /\ c'.(p_visited) = c.(p_visited) \/
   finals_at c' r.(here) /\
   ((c.(p_visited) !! r.(here) = None /\ within_states c /\ depth_at c' r.(here) = Some d /\
     forall p, p ∈ props -> judged c' r.(here) p) \/
    exists n, depth_at c r.(here) = Some n /\ depth_at c' r.(here) = Some (min d n)) /\
   (cut_at c r.(here) <> Some true -> cut_at c' r.(here) = Some false)).
Proof.
  intros Hvs Hs Hf M Ht c'. destruct (pvisit_spec r d vs c Hvs Hs) as [V W]. subst c'. unfold pcomplete.
  destruct (pvisit budget props r d vs c) as [c1 was]; cbn [fst snd] in *. destruct V as [V1 V2 V3 V4 V5 V6 V7].
  assert (Hf1 : finals_ok c1) by (unfold finals_ok; by rewrite V3, V4).
  assert (M1 : all_marked c1).
  { intros s mk Hst Es. destruct (decide (s = here r)) as [->|N]; [congruence|]. apply M; [done|]. by rewrite <- V7. }
  destruct was as [was|].
  2: { destruct W as (W1 & W2 & W3 & W4). rewrite V4. split_and!; try done; auto. }
  destruct (pfinal_spec r c1 Hf1) as ((F1 & F2 & F3 & F4) & Hf2 & Hat & Hnew).
  assert (Mk : forall s, marks_at (pfinal r c1) s = marks_at c1 s) by (intros s; unfold marks_at; by rewrite F3).
  assert (Dp : forall s, depth_at (pfinal r c1) s = depth_at c1 s) by (intros s; unfold depth_at; by rewrite F3).
  split_and!; [by etrans|by etrans|by eapply seen_said_same| |done|by rewrite F4|rewrite <- V4; done| |].
  - intros s mk Hst. rewrite Mk. by apply M1.
  - intros s N. rewrite Mk. auto.
  - right. assert (Cp : cut_at (pfinal r c1) (here r) = cut_at c1 (here r)) by (unfold cut_at; by rewrite F3).
    split_and!; [done| |]; rewrite ?Dp, ?Cp.
    2: { destruct was; [|destruct W as (_ & _ & W3 & _); intros _; by rewrite cut_at_marks, W3].
      destruct W as (x & Ex & ->). intros N. assert (Ect : p_cut x = false).
      { unfold cut_at in N. rewrite Ex in N. cbn in N. by destruct (p_cut x). }
      destruct (d <? p_depth x); rewrite !cut_at_marks; [|unfold marks_at; rewrite Ex; cbn; by rewrite Ect].
      rewrite marks_at_on_pseen, decide_True, Ex by done. cbn. unfold nearer. rewrite Ect. cbn. by rewrite ?Ect. }
    destruct was.
    + right. destruct W as (x & Ex & ->). exists (p_depth x). unfold depth_at at 1. rewrite Ex. split; [done|].
      rewrite depth_at_marks. destruct (Nat.ltb_spec d (p_depth x)).
      * rewrite marks_at_on_pseen, decide_True, Ex by done. cbn. unfold nearer. destruct (p_cut x); cbn; f_equal; lia.
      * unfold marks_at. rewrite Ex. cbn. f_equal. lia.
    + left. destruct W as (W1 & W2 & W3 & W4). split_and!; [done|done|by rewrite depth_at_marks, W3|].
      intros p Hp. eapply judged_grows; [exact F2|]. auto.
Qed.
End Steps.
