(* ===== verification/CheckerInvariant.v ===== *)
(** * The invariant of the search

    Whatever the search has found, a schedule of the invocation leads to: every frame,
    visited state, violation and final is that of a schedule, within the bounds ([wf]). *)
From stdpp Require Import gmap.
From S2P Require Import Prelude Bytes Explore ExploreQueue Checker CheckerPlain CheckerSpec CheckerSteps.
Local Open Scope nat_scope.

Section Invariant.
Context {State Executor Node Error : Type}.
Context `{EqDecision State, !Countable State, EqDecision Executor, EqDecision Node}.
Context `{Inv : Invoked State Executor Node Error} `{!Offering Inv}.
Variables (budget : CheckBudget) (budgets : Budgets) (props : list (CheckProperty State Error)).
Implicit Types (s : State) (c : plain State Executor Node Error) (r : Snapshot State Executor Node)
  (f : pframe State Executor Node) (m : searchMove Executor Node) (v : pviolation Executor Node Error)
  (p : CheckProperty State Error) (w : Schedule Executor Node) (e : Error).

(** ** Schedules found *)

(** The schedule makes as many moves, within the depth bound. *)
Definition long w (d : nat) : Prop := length w.(made) = d /\ (budget.(Depth) = 0 \/ d <= budget.(Depth)).

(** A state found with the schedule to it. *)
Definition found r d : Prop := scheduled r.(via) (Settled r.(here)) /\ long r.(via) d.

Definition sound_violation v : Prop :=
  long v.(p_witness).(wSchedule) v.(p_vdepth) /\
  ((exists s p, scheduled v.(p_witness).(wSchedule) (Settled s) /\ p ∈ props /\ v.(p_name) = p.(pName) /\
     (v.(p_kind) = ViolationProperty /\ (p.(Holds) s).1 = false /\ v.(p_err) = None \/
      v.(p_kind) = ViolationFailure /\ is_Some v.(p_err) /\ (p.(Holds) s).2 = v.(p_err))) \/
   (exists e, scheduled v.(p_witness).(wSchedule) (Raised e) /\ v.(p_err) = Some e /\ v.(p_name) = [] /\
     v.(p_kind) <> ViolationProperty)).

Definition sound_final (g : CheckFinal Executor Node Error) : Prop :=
  exists s x, scheduled g.(fWitness).(wSchedule) (Settled s) /\ terminal s = true /\
    x ∈ (spellFinalVariants s).1 /\ g.(fOutcome) = x.(sf_spelled) /\ g.(fValues) = x.(sf_values) /\
    g.(fIdentity) = x.(sf_identity).

(** A move of a state: an enabled one, with picks its choice points offer. *)
Definition legal s m : Prop :=
  is_Some (sub_at (make s (unit_of m)) (picks_of m)) /\
  exists a, a ∈ enabledMoves s /\ unit_of m = a.(moved) /\ exists x, picks_of m = a.(Picks) ++ x.

Record frame_ok c f : Prop := {
  fo_found : found f.(p_snap) f.(p_d);
  fo_visited : is_Some (c.(p_visited) !! p_key f);
  fo_live : terminal (p_key f) = false;
  fo_all m : m ∈ f.(p_all) -> legal (p_key f) m /\ containsMove f.(p_moves) m = true;
  fo_moves m : m ∈ f.(p_moves) -> legal (p_key f) m;
  fo_next : f.(p_next) <= length f.(p_moves);
  fo_said n : n ∈ f.(p_fviolated) -> said c n }.

(** What does not depend on the stack. *)
Record base c : Prop := {
  b_reachable s : is_Some (c.(p_visited) !! s) -> reachable s;
  b_marked : all_marked c; b_said : seen_said c; b_finals : finals_ok c;
  b_violations v : v ∈ c.(p_violations) -> sound_violation v;
  b_results g : g ∈ c.(p_results) -> sound_final g;
  b_states : budget.(States) = 0 \/ size c.(p_visited) <= budget.(States) }.

Record wf c : Prop := {
  wf_base : base c; wf_frames : Forall (frame_ok c) c.(p_stack);
  wf_maxDepth : budget.(Depth) = 0 \/ c.(p_maxDepth) <= budget.(Depth) }.

Lemma frame_ok_grows c c' f : grows c c' -> frame_ok c f -> frame_ok c' f.
Proof. intros [] []. by constructor; auto. Qed.

Lemma frames_grow c c' l : grows c c' -> Forall (frame_ok c) l -> Forall (frame_ok c') l.
Proof. intros G H. eapply Forall_impl; [exact H|]. intros f. by apply frame_ok_grows. Qed.

Lemma base_same c c' :
  c'.(p_visited) = c.(p_visited) -> c'.(p_violations) = c.(p_violations) -> c'.(p_finals) = c.(p_finals) ->
  c'.(p_results) = c.(p_results) -> base c -> base c'.
Proof.
  intros E1 E2 E3 E4 []. constructor; unfold seen_said, said, finals_ok, all_marked, marks_at in *;
    rewrite ?E1, ?E2, ?E3, ?E4; done.
Qed.

(** A violation added that a schedule leads to. *)
Lemma base_pviolate v c : sound_violation v -> base c -> base (pviolate v c).
Proof.
  intros Hv []. pose proof (grows_pviolate v c) as G. pose proof (pviolate_fields v c) as (E1 & _ & _ & _ & E2 & E3).
  constructor; rewrite ?E1, ?E3; try done.
  - unfold all_marked, marks_at. by rewrite E1.
  - by eapply seen_said_same.
  - unfold finals_ok. by rewrite E2, E3.
  - intros u [->|Hu]%pviolate_elem; auto.
Qed.

Lemma base_phit b c : base c -> base (phit b c).
Proof. apply base_same; [apply phit_visited|apply phit_violations|apply phit_finals..]. Qed.

Lemma all_marked_on_pseen g s c :
  (forall x, x.(p_explored) ⊆ (g x).(p_explored)) -> all_marked c -> all_marked (on_pseen s g c).
Proof.
  intros Hg H t mk Ht. rewrite marks_at_on_pseen. case_decide as E; [|by apply H].
  destruct (c.(p_visited) !! t) as [x|] eqn:Ex; [|done]. intros [= <-]. cbn. etrans; [|apply Hg].
  apply (H t (marks x) Ht). unfold marks_at. by rewrite Ex.
Qed.

Lemma size_on_pseen g s c : size (on_pseen s g c).(p_visited) = size c.(p_visited).
Proof.
  rewrite <- !(size_dom (D := gset State)). unfold on_pseen, set_visited. cbn. by rewrite dom_alter_L.
Qed.

Lemma base_on_pseen g s c :
  (forall x, x.(p_explored) ⊆ (g x).(p_explored) /\ (g x).(p_violated) = x.(p_violated)) -> base c -> base (on_pseen s g c).
Proof.
  intros Hg []. constructor; try done.
  - intros t. rewrite on_pseen_dom. auto.
  - apply all_marked_on_pseen; [apply Hg|done].
  - apply on_pseen_said; [apply Hg|done].
  - by rewrite size_on_pseen.
Qed.

(** ** Frames *)

Lemma wf_on_ptop g c : (forall f, frame_ok c f -> frame_ok c (g f)) -> wf c -> wf (on_ptop g c).
Proof.
  intros Hg [B F D]. unfold on_ptop. destruct (p_stack c) as [|f l] eqn:Es; [by constructor; rewrite ?Es|].
  constructor; [by eapply base_same; [..|exact B]| |done]. cbn. inversion F; subst.
  constructor; [apply (frame_ok_grows c); [apply grows_set_stack|auto]|]. by apply (frames_grow c); [apply grows_set_stack|].
Qed.

Lemma frame_ok_flags c f b ct : frame_ok c f -> frame_ok c (frame_with f f.(p_all) f.(p_moves) f.(p_next) b ct).
Proof. by intros []. Qed.

Lemma wf_same c c' :
  c'.(p_visited) = c.(p_visited) -> c'.(p_violations) = c.(p_violations) -> c'.(p_finals) = c.(p_finals) ->
  c'.(p_results) = c.(p_results) -> c'.(p_stack) = c.(p_stack) -> c'.(p_maxDepth) = c.(p_maxDepth) ->
  grows c c' -> wf c -> wf c'.
Proof.
  intros E1 E2 E3 E4 E5 E6 G [B F D]. constructor; [by eapply base_same|rewrite E5; by eapply frames_grow|by rewrite E6].
Qed.

Lemma wf_phit b c : wf c -> wf (phit b c).
Proof.
  apply wf_same; [apply phit_visited|apply phit_violations|apply phit_finals|apply phit_finals|apply same_stack_phit..|apply grows_phit].
Qed.

Lemma wf_on_pseen g s c :
  (forall x, x.(p_explored) ⊆ (g x).(p_explored) /\ (g x).(p_violated) = x.(p_violated)) -> wf c -> wf (on_pseen s g c).
Proof.
  intros Hg [B F D]. constructor; [by apply base_on_pseen|apply (frames_grow c); [apply grows_on_pseen|done]|done].
Qed.

Lemma wf_pcut_top c : wf c -> wf (pcut_top c).
Proof.
  intros W. unfold pcut_top. destruct (p_stack c) as [|f l]; [done|]. apply wf_on_pseen; [done|].
  apply wf_on_ptop; [|done]. intros g. apply frame_ok_flags.
Qed.

Lemma wf_pviolate v c : sound_violation v -> wf c -> wf (pviolate v c).
Proof.
  intros Hv [B F D]. pose proof (same_stack_pviolate v c) as (E1 & _ & _ & E2).
  constructor; [by apply base_pviolate| |by rewrite E2]. rewrite E1. eapply frames_grow; [apply grows_pviolate|done].
Qed.

Lemma containsMove_app l k m : containsMove (l ++ k) m = containsMove l m || containsMove k m.
Proof. apply existsb_app. Qed.

Lemma containsMove_elem l m : m ∈ l -> containsMove l m = true.
Proof.
  intros H. unfold containsMove. apply existsb_exists. exists m. split; [by apply list_elem_of_In|].
  unfold same. by rewrite !bool_decide_true.
Qed.

Lemma expanded_same a ms : (forall m, m ∈ a -> containsMove ms m = true) -> expanded a ms = ms.
Proof.
  unfold expanded. induction a as [|m a IH]; intros H; [done|]. cbn [fold_left]. rewrite H by left.
  apply IH. intros x Hx. apply H. by right.
Qed.

(** Every enabled move is among the frame's already. *)
Lemma pexpand_ok c f : frame_ok c f -> pexpand f = frame_with f f.(p_all) f.(p_moves) f.(p_next) true f.(p_fcut).
Proof.
  intros F. unfold pexpand. destruct (p_full f) eqn:E; [rewrite <- E; by destruct f|].
  rewrite expanded_same; [done|]. intros m Hm. by apply (fo_all _ _ F).
Qed.

Lemma elem_of_insert_at {A} i (x l : list A) y : y ∈ insert_at i x l <-> y ∈ x \/ y ∈ l.
Proof. unfold insert_at. rewrite !elem_of_app. rewrite <- (take_drop i l) at 3. rewrite elem_of_app. tauto. Qed.

Lemma containsMove_insert_at i x l m : containsMove (insert_at i x l) m = containsMove x m || containsMove l m.
Proof.
  unfold insert_at. rewrite <- (take_drop i l) at 3. rewrite !containsMove_app. by destruct (containsMove x m), (containsMove (take i l) m).
Qed.

Lemma revealed_cases m drawn a ms n :
  exists i, revealed m drawn a ms n
    = (insert_at i (map (with_picks m) (siblings [] drawn)) a, insert_at n (map (with_picks m) (siblings [] drawn)) ms).
Proof.
  unfold revealed. destruct (map (with_picks m) (siblings [] drawn)) as [|y more] eqn:E; [|by eexists].
  exists 0. unfold insert_at. rewrite !app_nil_l, !take_drop. done.
Qed.

Lemma legal_sibling s m x refused :
  legal s m -> x ∈ siblings [] (follow refused (make s (unit_of m)) (picks_of m)).1.2 -> legal s (with_picks m x).
Proof.
  intros [Hs (a & Ha & Eu & y & Ey)] Hx. unfold legal, with_picks, unit_of, picks_of in *. cbn in *. split.
  - eapply siblings_valid; [apply make_offers|done..].
  - exists a. split_and!; [done..|]. exists (y ++ x). by rewrite Ey, app_assoc.
Qed.

Lemma preveal_ok c f m refused :
  frame_ok c f -> legal (p_key f) m ->
  frame_ok c (preveal m (follow refused (make (p_key f) (unit_of m)) (picks_of m)).1.2 f).
Proof.
  intros [F1 F2 F3 F4 F5 F6 F7] Hm. unfold preveal.
  destruct (revealed_cases m (follow refused (make (p_key f) (unit_of m)) (picks_of m)).1.2 f.(p_all) f.(p_moves) f.(p_next)) as [i ->].
  set (more := map _ _).
  assert (Hmore : forall x, x ∈ more -> legal (p_key f) x).
  { intros x (y & -> & Hy)%list_elem_of_fmap. by eapply legal_sibling. }
  constructor; cbn [frame_with p_all p_moves p_next p_fviolated fst snd p_snap p_d]; try done.
  - intros x Hx. rewrite containsMove_insert_at. apply elem_of_insert_at in Hx as [Hx|Hx].
    + split; [auto|]. by rewrite containsMove_elem.
    + destruct (F4 x Hx) as [? ->]. split; [done|]. by rewrite orb_true_r.
  - intros x [Hx|Hx]%elem_of_insert_at; auto.
  - unfold insert_at. rewrite !length_app, length_take, length_drop. lia.
Qed.

(** ** States reached *)

Lemma size_one_more c c' s :
  within_states budget c \/ is_Some (c.(p_visited) !! s) -> (forall t, t <> s -> marks_at c' t = marks_at c t) ->
  budget.(States) = 0 \/ size c.(p_visited) <= budget.(States) ->
  budget.(States) = 0 \/ size c'.(p_visited) <= budget.(States).
Proof.
  intros Hw Hm Hs. rewrite <- !(size_dom (D := gset State)) in Hs |- *.
  assert (Hsub : forall t, t <> s -> t ∈ dom c'.(p_visited) -> t ∈ dom c.(p_visited)).
  { intros t N. rewrite !elem_of_dom, <- !marks_at_dom, Hm; done. }
  destruct (decide (s ∈ dom c.(p_visited))) as [Hin|Hn].
  - destruct Hs as [|Hs]; [by left|right]. etrans; [|exact Hs]. apply subseteq_size. intros t Ht.
    destruct (decide (t = s)) as [->|]; auto.
  - destruct Hw as [[|Hw]|Hw]; [by left|right|by apply elem_of_dom in Hw].
    rewrite <- (size_dom (D := gset State)) in Hw.
    assert (dom c'.(p_visited) ⊆ {[s]} ∪ dom c.(p_visited)) as Hd%subseteq_size.
    { intros t Ht. destruct (decide (t = s)) as [->|]; set_solver. }
    rewrite size_union, size_singleton in Hd by set_solver. lia.
Qed.

Lemma judged_false_sound r d v : found r d -> judged_false props r d v -> sound_violation v.
Proof.
  intros [F L] (E1 & E2 & p & Hp & En & H). split; [by rewrite E1, E2|]. left. exists (here r), p. by rewrite E2.
Qed.

Lemma reachable_found r d : found r d -> reachable r.(here).
Proof. intros [F _]. by exists (via r). Qed.

Lemma base_visited c c' r d :
  found r d -> base c -> seen_said c' -> all_marked c' -> finals_ok c' ->
  (forall v, v ∈ c'.(p_violations) -> v ∈ c.(p_violations) \/ judged_false props r d v) ->
  (forall g, g ∈ c'.(p_results) -> g ∈ c.(p_results) \/ sound_final g) ->
  (forall s, s <> r.(here) -> marks_at c' s = marks_at c s) ->
  within_states budget c \/ is_Some (c.(p_visited) !! r.(here)) \/ c'.(p_visited) = c.(p_visited) -> base c'.
Proof.
  intros F B H1 H2 H3 H4 H5 H6 H7. constructor; try done.
  - intros s Hs. destruct (decide (s = here r)) as [->|N]; [by eapply reachable_found|].
    apply B. by rewrite <- marks_at_dom, <- H6, marks_at_dom.
  - intros v Hv. destruct (H4 v Hv); [by apply B|by eapply judged_false_sound].
  - intros g Hg. destruct (H5 g Hg); [by apply B|done].
  - assert (H7' : (within_states budget c \/ is_Some (c.(p_visited) !! r.(here))) \/ c'.(p_visited) = c.(p_visited)) by tauto.
    destruct H7' as [H7'| ->]; [by eapply size_one_more; [..|apply B]|apply B].
Qed.

Lemma depth_at_visited c s n : depth_at c s = Some n -> is_Some (c.(p_visited) !! s).
Proof. unfold depth_at. intros H. apply fmap_is_Some with (f := p_depth). by rewrite H. Qed.

Lemma base_penter r d vs c c' child :
  found r d -> (forall n, n ∈ vs -> said c n) -> base c -> terminal r.(here) = false ->
  penter budget props r d vs c = (c', child) -> base c'.
Proof.
  intros F Hvs B Ht E. destruct (penter_spec budget props r d vs c c' child) as (V & M & W); [done|apply B..|done|done|].
  pose proof (vi_results _ _ _ _ _ V) as Er. eapply base_visited; [done|done|apply V|done| |apply V|by rewrite Er; left|apply V|].
  - unfold finals_ok. rewrite (vi_finals _ _ _ _ _ V), Er. apply B.
  - destruct child as [g|]; cbn in W.
    + destruct W as (? & _ & _ & _ & [(_ & ? & _)|(n & ? & _)] & _); [by left|right; left]. by eapply depth_at_visited.
    + destruct W as [(? & _)|(n & ? & _)]; [by right; right|right; left]. by eapply depth_at_visited.
Qed.

Lemma final_of_sound r d g : found r d -> terminal r.(here) = true -> final_of r g -> sound_final g.
Proof. intros [F _] Ht (x & Hx & ? & ? & ? & E). exists (here r), x. by rewrite E. Qed.

Lemma base_pcomplete r d vs c :
  found r d -> (forall n, n ∈ vs -> said c n) -> base c -> terminal r.(here) = true ->
  base (pcomplete budget props r d vs c).
Proof.
  intros F Hvs B Ht.
  destruct (pcomplete_spec budget props r d vs c) as (_ & _ & A1 & A2 & A3 & A4 & A5 & A6 & A7); [done|apply B..|done|].
  eapply base_visited; [done..| |done|].
  - intros g Hg. destruct (A5 g Hg); [by left|right]. by eapply final_of_sound.
  - destruct A7 as [[_ ?]|(_ & [(_ & ? & _)|(n & ? & _)] & _)]; [by right; right|by left|right; left]. by eapply depth_at_visited.
Qed.

Lemma fresh_ok c r d vs :
  found r d -> is_Some (c.(p_visited) !! r.(here)) -> terminal r.(here) = false -> (forall n, n ∈ vs -> said c n) ->
  frame_ok c (fresh r d vs).
Proof.
  intros F Hv Ht Hs.
  assert (L : forall m, m ∈ movesOf (here r) -> legal (here r) m).
  { intros m (a & Ha & ->)%movesOf_elem. split; [by apply (enabled_picks _ a)|].
    exists a. split_and!; [done..|]. exists []. by rewrite app_nil_r. }
  constructor; cbn; try done; [|lia]. intros m Hm. split; [by apply L|by apply containsMove_elem].
Qed.

(** ** The steps *)

Lemma wf_stack c c' : same_stack c c' -> grows c c' -> base c' -> wf c -> wf c'.
Proof.
  intros (E1 & _ & _ & E2) G B' [B F D]. constructor; [done|rewrite E1; by eapply frames_grow|by rewrite E2].
Qed.

Lemma wf_ppush c g : frame_ok c g -> wf c -> wf (ppush g c).
Proof.
  intros Hg [B F D]. constructor; [by eapply base_same; [..|exact B]| |done].
  constructor; [|by apply (frames_grow c); [apply grows_set_stack|]].
  by apply (frame_ok_grows c); [apply grows_set_stack|].
Qed.

Lemma wf_parrive r d vs sp c :
  found r d -> (forall n, n ∈ vs -> said c n) -> wf c -> wf (parrive budget props r d vs sp c).
Proof.
  intros F Hvs W. unfold parrive. destruct (terminal (here r)) eqn:Ht.
  - destruct (pcomplete_spec budget props r d vs c) as (S & G & _); [done|apply W..|done|].
    eapply wf_stack; [done|done|by apply base_pcomplete; try apply W|done].
  - destruct (penter budget props r d vs c) as [c1 child] eqn:Ep.
    destruct (penter_spec budget props r d vs c c1 child) as (V & M & X); [done|apply W..|done|done|].
    assert (W1 : wf c1) by (eapply wf_stack; [apply V|apply V|by eapply base_penter; try apply W|done]).
    set (c2 := match p_visited c1 !! here r with Some _ => _ | None => c1 end).
    assert (W2 : wf c2 /\ grows c1 c2).
    { subst c2. destruct (_ !! _) as [x|]; [|done]. destruct (p_cut x); [|done]. split; [by apply wf_pcut_top|apply grows_pcut_top]. }
    destruct W2 as [W2 G2]. set (c3 := if _ <? _ then _ else c2).
    assert (W3 : wf c3 /\ grows c1 c3).
    { subst c3. destruct (_ <? _); [|done]. split; [|etrans; [exact G2|apply grows_on_ptop]].
      apply wf_on_ptop; [|done]. intros f Hf. rewrite (pexpand_ok _ _ Hf). by apply frame_ok_flags. }
    destruct W3 as [W3 G3]. destruct child as [g|]; [|done]. apply wf_ppush; [|done].
    destruct X as (l & -> & Hl & Hd & _). cbn.
    assert (Hf : frame_ok c3 (fresh r d l)); [|by destruct Hf].
    apply fresh_ok; [done| |done|intros n Hn; apply G3; auto]. apply G3. by eapply depth_at_visited.
Qed.

Lemma longer_long w m d : long w d -> budget.(Depth) = 0 \/ S d <= budget.(Depth) -> long (longer w m) (S d).
Proof. intros [L _] H. unfold long, longer. cbn. rewrite length_app. cbn. split; [lia|done]. Qed.

Lemma longer_scheduled w s m refused :
  scheduled w (Settled s) -> legal s m ->
  scheduled (longer w m) (follow refused (make s (unit_of m)) (picks_of m)).1.1.
Proof.
  intros Hw [Hs (a & Ha & Eu & x & Ex)]. unfold longer. rewrite Eu, Ex in *.
  eapply scheduled_move; [done|done|]. apply follow_takes; [apply make_offers|done].
Qed.

Lemma wf_pfailed e w d c c' :
  scheduled w (Raised e) -> long w d -> wf c -> pfailed e w d c = (c', None) -> wf c'.
Proof.
  intros Hw Hl W. unfold pfailed. destruct (boundOf e); [intros [= <-]; by apply wf_phit|].
  destruct (Is e ErrCheckRefused); [done|]. intros [= <-]. apply wf_pviolate; [|done].
  split; [done|]. right. exists e. split_and!; [done..|]. cbn. unfold failure_kind. by destruct (_ || _).
Qed.

Lemma depth_open d :
  (0 <? budget.(Depth)) && (budget.(Depth) <? S d) = false -> budget.(Depth) = 0 \/ S d <= budget.(Depth).
Proof. intros [E|E]%andb_false_iff; [apply Nat.ltb_ge in E; left; lia|apply Nat.ltb_ge in E; by right]. Qed.

Lemma wf_ptake f m c l c' :
  c.(p_stack) = f :: l -> legal (p_key f) m -> wf c -> ptake budget budgets props f m c = (c', None) -> wf c'.
Proof.
  intros Es Hm W. pose proof (wf_frames _ W) as Hf. rewrite Es in Hf. apply Forall_cons_1 in Hf as [Hf _].
  destruct (fo_found _ _ Hf) as [Fs Fl]. unfold ptake.
  destruct (_ && _) eqn:Eb; [intros [= <-]; by apply wf_pcut_top, wf_phit|]. apply depth_open in Eb.
  destruct (spend _ _ _) as [[sp b] [|]]; [intros [= <-]; by apply wf_pcut_top, wf_phit|].
  pose proof (longer_scheduled _ _ _ (Raised refusal) Fs Hm) as Hs. fold (p_key f) in Hs.
  pose proof (preveal_ok c f m (Raised refusal) Hf Hm) as Hr.
  destruct (follow _ _ _) as [[o drawn] faced]. cbn [fst snd] in *.
  set (c1 := on_ptop (preveal m drawn) _).
  assert (W1 : wf c1).
  { subst c1. unfold on_ptop. cbn. rewrite Es. destruct W as [B F D]. constructor; [by eapply base_same; [..|exact B]| |cbn; lia].
    cbn. rewrite Es in F. apply Forall_cons_1 in F as [_ F].
    constructor; [apply (frame_ok_grows c); [by apply grows_same|done]|]. apply (frames_grow c); [by apply grows_same|done]. }
  destruct o as [t|e]; [|intros E; by eapply wf_pfailed; [..|exact E]; [done|apply longer_long|]].
  intros [= <-]. apply wf_parrive; [split; [done|by apply longer_long]| |done].
  intros n Hn. apply (fo_said _ _ Hf) in Hn. unfold c1, on_ptop, said. cbn. by rewrite Es.
Qed.

Lemma frame_ok_next c f n b ct :
  frame_ok c f -> n <= length f.(p_moves) -> frame_ok c (frame_with f f.(p_all) f.(p_moves) n b ct).
Proof. by intros []. Qed.

Lemma wf_pstep c c' : wf c -> pstep budget budgets props c = (c', None) -> wf c'.
Proof.
  intros W. unfold pstep. pose proof (wf_frames _ W) as F.
  destruct c.(p_stack) as [|f l] eqn:Es; [by intros [= <-]|]. apply Forall_cons_1 in F as [Hf F].
  assert (Hst : forall o k, Forall (frame_ok c) k -> wf (set_stack c o k)).
  { intros o k Hk. constructor; [by eapply base_same; [..|apply W]|by apply (frames_grow c); [apply grows_set_stack|]|apply W]. }
  destruct (p_moves f !! p_next f) as [m|] eqn:Em.
  - assert (Hn : S (p_next f) <= length (p_moves f)) by (apply lookup_lt_Some in Em; lia).
    intros E. refine (wf_ptake _ m _ l _ _ _ _ E); [reflexivity| |].
    + apply (fo_moves _ _ Hf). by eapply list_elem_of_lookup_2.
    + apply wf_on_pseen; [intros x; cbn; set_solver|]. apply Hst. constructor; [by apply frame_ok_next|done].
  - intros [= <-]. unfold ppop. destruct (p_fcut f); [apply wf_pcut_top|]; by apply Hst.
Qed.

(** ** Changes of the marks alone *)

Definition same_work f g : Prop :=
  g.(p_snap) = f.(p_snap) /\ g.(p_moves) = f.(p_moves) /\ g.(p_next) = f.(p_next).

(** Nothing but the marks of a bound, of a full frame and of explored moves differ. *)
Record touched c c' : Prop := {
  t_frames : Forall2 same_work c.(p_stack) c'.(p_stack);
  t_depth s : depth_at c' s = depth_at c s;
  t_grows : grows c c' }.

#[local] Instance same_work_refl : Reflexive same_work.
Proof. by intros f. Qed.
#[local] Instance same_work_trans : Transitive same_work.
Proof. intros f g h (E1 & E2 & E3) (E4 & E5 & E6). unfold same_work. by rewrite E4, E5, E6. Qed.

#[export] Instance touched_preorder : PreOrder touched.
Proof.
  split; [intros c; by split|]. intros c1 c2 c3 [F1 D1 G1] [F2 D2 G2]. split; [|intros s; by rewrite D2|by etrans].
  by etrans.
Qed.

Lemma touched_on_ptop g c :
  (forall f l, c.(p_stack) = f :: l -> same_work f (g f)) -> touched c (on_ptop g c).
Proof.
  intros Hg. split; [|intros s|apply grows_on_ptop]; unfold on_ptop; destruct (p_stack c) as [|f l] eqn:Es; cbn; rewrite ?Es;
    try done. constructor; [by eapply Hg|done].
Qed.

Lemma touched_on_pseen g s c : (forall x, (g x).(p_depth) = x.(p_depth)) -> touched c (on_pseen s g c).
Proof.
  intros Hg. split; [done| |apply grows_on_pseen]. intros t. rewrite !depth_at_marks, marks_at_on_pseen. unfold marks_at.
  case_decide; [|done]. destruct (_ !! t); cbn; [by rewrite Hg|done].
Qed.

Lemma touched_pcut_top c : touched c (pcut_top c).
Proof.
  unfold pcut_top. destruct (p_stack c) eqn:Es; [done|]. etrans; [|by apply touched_on_pseen].
  by apply touched_on_ptop.
Qed.

Lemma touched_pexpand c : wf c -> touched c (on_ptop pexpand c).
Proof.
  intros W. apply touched_on_ptop. intros f l Es. pose proof (wf_frames _ W) as F. rewrite Es in F.
  apply Forall_cons_1 in F as [F _]. by rewrite (pexpand_ok _ _ F).
Qed.

Lemma touched_dom c c' s : touched c c' -> is_Some (c'.(p_visited) !! s) <-> is_Some (c.(p_visited) !! s).
Proof. intros T. pose proof (t_depth _ _ T s) as E. unfold depth_at in E. by rewrite <- !(fmap_is_Some p_depth), E. Qed.

Definition respent (sp : spending) f : pframe State Executor Node :=
  {| p_snap := f.(p_snap); p_d := f.(p_d); p_spent := sp; p_all := f.(p_all); p_moves := f.(p_moves);
     p_next := f.(p_next); p_full := f.(p_full); p_fcut := f.(p_fcut); p_fviolated := f.(p_fviolated) |}.

(** A move to a state with moves: the state entered, marks changed, its frame pushed if any. *)
Lemma parrive_enters r d vs sp c :
  wf c -> found r d -> (forall n, n ∈ vs -> said c n) -> terminal r.(here) = false ->
  exists c1 child c3, visits props r d c c1 /\ entered budget props r d c c1 child /\ touched c1 c3 /\
    parrive budget props r d vs sp c = match child with Some g => ppush (respent sp g) c3 | None => c3 end /\
    wf c1 /\ exists b : bool, c3 = (fun c2 => if b then on_ptop pexpand c2 else c2)
                             (if bool_decide (cut_at c1 r.(here) = Some true) then pcut_top c1 else c1).
Proof.
  intros W F Hvs Ht. unfold parrive. rewrite Ht.
  destruct (penter budget props r d vs c) as [c1 child] eqn:Ep.
  destruct (penter_spec budget props r d vs c c1 child) as (V & M & X); [done|apply W..|done|done|].
  assert (W1 : wf c1) by (eapply wf_stack; [apply V|apply V|by eapply base_penter; try apply W|done]).
  exists c1, child.
  replace (match p_visited c1 !! here r with Some _ => _ | None => c1 end)
    with (if bool_decide (cut_at c1 (here r) = Some true) then pcut_top c1 else c1).
  2: { unfold cut_at. destruct (p_visited c1 !! here r) as [x|]; [|done]. cbn.
    destruct (p_cut x); [by rewrite bool_decide_true|by rewrite bool_decide_false]. }
  set (c2 := if bool_decide _ then _ else c1).
  assert (T2 : wf c2 /\ touched c1 c2).
  { subst c2. case_bool_decide; [|done]. split; [by apply wf_pcut_top|apply touched_pcut_top]. }
  destruct T2 as [W2 T2]. exists (if 0 <? default 0 (p_onStack c2 !! here r) then on_ptop pexpand c2 else c2).
  split_and!; [done|done| |by destruct child|done|by eexists]. destruct (_ <? _); [|done]. etrans; [exact T2|by apply touched_pexpand].
Qed.

(** ** The loops *)

Lemma ploop_inv (P : plain State Executor Node Error -> Prop) fuel c c' :
  (forall c c', P c -> pstep budget budgets props c = (c', None) -> P c') ->
  P c -> ploop budget budgets props fuel c = Some (c', None) -> P c' /\ c'.(p_stack) = [].
Proof.
  intros Hstep. revert c. induction fuel as [|fuel IH]; intros c Hc; cbn [ploop];
    destruct (p_stack c) as [|f l] eqn:Es; try done; try (intros [= <-]; done).
  destruct (pstep _ _ _ c) as [c1 [e|]] eqn:E; [done|]. apply IH. by eapply Hstep.
Qed.

(** One way of resolving the start: it failed to start, or began and was searched from. *)
Lemma pfrom_inv fuel picks c c' more :
  pfrom budget budgets props fuel picks c = Some (c', None, more) ->
  more = siblings picks (follow (NotSetUp refusal) begin picks).1.2 /\
  ((exists e, (follow (NotSetUp refusal) begin picks).1.1 = NotStarted e /\
      c' = pviolate {| p_kind := ViolationFailure; p_name := []; p_err := Some e; p_vdepth := 0;
                       p_witness := failing {| startPicks := picks; made := [] |} e |} c) \/
   (exists o c1, (follow (NotSetUp refusal) begin picks).1.1 = Begun o /\
      pstart budget props o picks c = (c1, None) /\ ploop budget budgets props fuel c1 = Some (c', None))).
Proof.
  unfold pfrom. destruct (follow _ begin picks) as [[[e|e|o] drawn] faced]; cbn [fst snd]; [done| |].
  - intros [= <- <-]. split; [done|left]. by exists e.
  - destruct (pstart _ _ _ _ _) as [c1 [e|]] eqn:Es; [done|].
    destruct (ploop _ _ _ fuel c1) as [[c2 [e|]]|] eqn:El; try done. intros [= <- <-]. split; [done|right]. by exists o, c1.
Qed.

Lemma pcheck_loop_inv (P : list (list nat) -> plain State Executor Node Error -> Prop) fuel n starts c c' :
  (forall picks starts c c' more, P (picks :: starts) c ->
     pfrom budget budgets props fuel picks c = Some (c', None, more) -> P (starts ++ more) c') ->
  P starts c -> pcheck_loop budget budgets props fuel n starts c = Some (c', None) -> P [] c'.
Proof.
  intros Hstep. revert starts c. induction n as [|n IH]; intros [|picks starts] c Hc; cbn [pcheck_loop];
    try done; try (by intros [= <-]).
  destruct (pfrom _ _ _ fuel picks c) as [[[c1 [e|]] more]|] eqn:E; [done| |done]. apply IH. by eapply Hstep.
Qed.

Definition start_legal (picks : list nat) : Prop :=
  is_Some (sub_at (begin : choices (beginning State Error)) picks).

Lemma start_siblings (refused : beginning State Error) picks x :
  start_legal picks -> x ∈ siblings picks (follow refused begin picks).1.2 -> start_legal x.
Proof.
  intros Hp. rewrite siblings_prefix. intros (y & -> & Hy)%list_elem_of_fmap.
  eapply siblings_valid; [apply begin_offers|done..].
Qed.

Lemma start_long picks : long {| startPicks := picks; made := [] |} 0.
Proof. split; [done|]. destruct budget.(Depth); [by left|right; lia]. Qed.

Lemma wf_pstart o picks c c' :
  takes begin picks (Begun o) -> wf c -> c.(p_stack) = [] -> pstart budget props o picks c = (c', None) -> wf c'.
Proof.
  intros Ho W Es. assert (Hs : scheduled {| startPicks := picks; made := [] |} o) by by constructor.
  unfold pstart. destruct o as [s|e]; [|by apply wf_pfailed; [|apply start_long|]].
  assert (F : found {| here := s; via := {| startPicks := picks; made := [] |} |} 0) by (split; [done|apply start_long]).
  assert (Hn : forall n, n ∈ [] -> said c n) by by intros n ?%elem_of_nil.
  destruct (terminal s) eqn:Ht.
  - intros [= <-]. destruct (pcomplete_spec budget props {| here := s; via := {| startPicks := picks; made := [] |} |} 0 [] c)
      as (S & G & _); [done|apply W..|done|]. eapply wf_stack; [done|done|by apply base_pcomplete; try apply W|done].
  - destruct (penter _ _ _ _ _ _) as [c1 child] eqn:Ep.
    destruct (penter_spec budget props {| here := s; via := {| startPicks := picks; made := [] |} |} 0 [] c c1 child Hn) as (V & M & X); [apply W..|done|done|].
    assert (W1 : wf c1) by (eapply wf_stack; [apply V|apply V|by eapply base_penter; try apply W|done]).
    destruct child as [g|]; [|by intros [= <-]]. intros [= <-]. apply wf_ppush; [|done].
    destruct X as (l & -> & Hl & Hd & _). apply fresh_ok; [done|by eapply depth_at_visited|done|done].
Qed.

Definition starting (starts : list (list nat)) c : Prop :=
  wf c /\ c.(p_stack) = [] /\ Forall start_legal starts.

Lemma starting_pfrom fuel picks starts c c' more :
  starting (picks :: starts) c -> pfrom budget budgets props fuel picks c = Some (c', None, more) -> starting (starts ++ more) c'.
Proof.
  intros (W & Es & L) E. inversion L as [|? ? Lp Ls]; subst. destruct (pfrom_inv _ _ _ _ _ E) as [-> Hc].
  enough (H : wf c' /\ c'.(p_stack) = []).
  { destruct H. split_and!; [done..|]. apply Forall_app. split; [done|]. apply Forall_forall. intros x. by apply start_siblings. }
  pose proof (follow_takes (NotSetUp refusal) begin picks begin_offers Lp) as Ht.
  destruct Hc as [(e & Eo & ->)|(o & c1 & Eo & E1 & E2)]; rewrite Eo in Ht.
  - pose proof (same_stack_pviolate {| p_kind := ViolationFailure; p_name := []; p_err := Some e; p_vdepth := 0;
       p_witness := failing {| startPicks := picks; made := [] |} e |} c) as (S & _). split; [|by rewrite S].
    apply wf_pviolate; [|done]. split; [apply start_long|right]. exists e. by split_and!; [constructor|..].
  - eapply (ploop_inv wf); [|by eapply wf_pstart|exact E2]. intros. by eapply wf_pstep.
Qed.

Lemma wf_new : wf new_plain.
Proof.
  constructor; [constructor|constructor|cbn; lia]; cbn; unfold all_marked, seen_said, finals_ok, marks_at; cbn.
  - intros s [x Hx]. by rewrite lookup_empty in Hx.
  - intros s mk _ H. by rewrite lookup_empty in H.
  - intros s x n H. by rewrite lookup_empty in H.
  - split; [|constructor]. intros i. rewrite lookup_empty. split; [by intros [? ?]|by intros (g & ?%elem_of_nil & _)].
  - by intros v ?%elem_of_nil.
  - by intros v ?%elem_of_nil.
  - rewrite map_size_empty. lia.
Qed.

Lemma pcheck_wf fuel c : pcheck_loop budget budgets props fuel fuel [[]] new_plain = Some (c, None) -> wf c.
Proof.
  intros E. eapply (pcheck_loop_inv starting) in E; [apply E|apply starting_pfrom|].
  split_and!; [apply wf_new|done|]. constructor; [|constructor]. unfold start_legal. by rewrite sub_at_nil.
Qed.
End Invariant.
