(* ===== verification/CheckerSample.v ===== *)
(** * A small invocation to check

    An instance of [Invoked] for the witnesses of the theorems: states are numbers, and a
    state's moves lead where a table says, each resolving one choice point among several
    ends. A state with no move completes with its number as the value of [x]. On it, what
    a check does that its documentation says otherwise of: a violation within the depth
    bound that the search misses, a property's violation reported by a longer schedule
    than one the search followed, and a start that exhausts a budget. *)
From Stdlib Require Import Floats.SpecFloat.
From stdpp Require Import gmap.
From S2P Require Import Prelude Bytes Integer Explore Checker CheckerSpec.
Local Open Scope nat_scope.

Definition ends : Type := ending nat sentinel.

Definition point (n : nat) : ChoicePoint :=
  {| Kind := ChoiceDecisionBranch; Step := 0; Where := []; Alternatives := replicate n []; Weights := [];
     Drew := S754_zero false; Drawn := false |}.

Definition alternatives_of (l : list ends) : choices ends :=
  match l with
  | [] => Ends (Raised ErrCheckRefused)
  | [o] => Ends o
  | o :: _ => Draws (point (length l)) (fun i => Ends (nth i l o))
  end.

Section Sample.
Variables (start : choices (beginning nat sentinel)) (edges : nat -> list (list ends)).

#[local] Instance sample : Invoked nat unit nat sentinel := {|
  begin := start;
  enabledMoves := fun s => imap (fun i _ =>
    {| moved := {| Owner := tt; Token := 0%Z; MNode := i; MKind := movePlain |}; Picks := [];
       Label := decimal_text (Z.of_nat i) |}) (edges s);
  executorName := fun _ _ => bs "run";
  tokenName := fun _ _ _ => [];
  make := fun s u => alternatives_of (default [] (edges s !! u.(MNode)));
  refusal := ErrCheckRefused;
  Is := fun e t => bool_decide (e = t);
  spellFinalVariants := fun s =>
    ([{| sf_values := {[bs "x" := decimal_text (Z.of_nat s)]}; sf_spelled := decimal_text (Z.of_nat s);
         sf_identity := decimal_text (Z.of_nat s); sf_scope := [] |}], false) |}.

Lemma alternatives_of_offers l : offers (alternatives_of l).
Proof.
  destruct l as [|o [|o' l]]; [constructor..|]. cbn. constructor; cbn; [lia|]. constructor.
Qed.

Lemma sample_offering : offers start -> Offering sample.
Proof.
  intros Hs. split; [done|intros s u; apply alternatives_of_offers|].
  intros s m. cbn. intros Hm. apply elem_of_lookup_imap in Hm as (i & x & -> & Hi). cbn. by rewrite sub_at_nil.
Qed.
End Sample.

Definition at_once : choices (beginning nat sentinel) := Ends (Begun (Settled 0)).
Lemma at_once_offers : offers at_once.
Proof. constructor. Qed.

Definition unbounded : CheckBudget := {| Depth := 0; States := 0 |}.
Definition unlimited : Budgets := {| MaxActionSteps := 0; MaxStateEvents := 0; MaxDoSteps := 0 |}.

(** The state the property named is false at. *)
Definition avoids (bad : nat) : CheckProperty nat sentinel :=
  {| pName := bs "avoids"; Holds := fun s => (negb (s =? bad), None) |}.

(** The check ends with a report of which [P] holds. *)
Definition reports {Executor Node Error} (o : option (CheckReport Executor Node Error + Error))
    (P : CheckReport Executor Node Error -> Prop) : Prop :=
  match o with Some (inl r) => P r | _ => False end.

Lemma reports_report {Executor Node Error} (o : option (CheckReport Executor Node Error + Error)) P :
  reports o P -> exists r, o = Some (inl r) /\ P r.
Proof. destruct o as [[r|e]|]; [|done..]. intros H. by exists r. Qed.

Lemma alternatives_of_takes l ps o : l <> [] -> takes (alternatives_of l) ps o -> o ∈ l.
Proof.
  destruct l as [|a [|b l]]; [done|..]; intros _ [n H].
  - inversion H; subst. by left.
  - cbn in H. inversion H as [|c k i qs x Hi R]; subst. inversion R; subst. cbn [length Alternatives point] in Hi.
    rewrite length_replicate in Hi. apply list_elem_of_lookup. exists i.
    destruct (lookup_lt_is_Some_2 (a :: b :: l) i Hi) as [y Hy]. rewrite Hy. f_equal. symmetry. exact (nth_lookup_Some _ _ a _ Hy).
Qed.

(** A move of the sample ends where its table says. *)
Lemma sample_end edges s (a : enabledMove unit nat) qs (o : ends) :
  a ∈ enabledMoves (Invoked := sample at_once edges) s ->
  resolves (make (Invoked := sample at_once edges) s a.(moved)) (a.(Picks) ++ qs) o ->
  exists l, l ∈ edges s /\ (l <> [] -> o ∈ l).
Proof.
  intros Ha R. cbn in Ha. apply elem_of_lookup_imap in Ha as (i & l & -> & Hi). cbn in R. rewrite Hi in R. cbn in R.
  exists l. split; [by eapply list_elem_of_lookup_2|]. intros Hl. apply (alternatives_of_takes l qs); [done|].
  exists 0. cbn [replicate]. by rewrite app_nil_r.
Qed.

(** A schedule of the sample, by the ends its moves take. *)
Lemma sample_move edges w s i (o : ends) :
  scheduled (Inv := sample at_once edges) w (Settled s) -> edges s !! i = Some [o] ->
  exists w', scheduled (Inv := sample at_once edges) w' o /\ length w'.(made) = S (length w.(made)).
Proof.
  intros Hw Hi. eexists. split.
  - eapply (scheduled_move w s {| moved := {| Owner := tt; Token := 0%Z; MNode := i; MKind := movePlain |}; Picks := [];
       Label := decimal_text (Z.of_nat i) |} []); [exact Hw| |].
    + cbn. apply elem_of_lookup_imap. by exists i, [o].
    + change (takes (alternatives_of (default [] (edges s !! i))) [] o). rewrite Hi. exists 0. constructor.
  - cbn. rewrite length_app. cbn. lia.
Qed.

Lemma sample_start edges : exists w, scheduled (Inv := sample at_once edges) w (Settled 0) /\ length w.(made) = 0.
Proof. eexists. split; [apply (scheduled_start []); exists 0; constructor|done]. Qed.

(** The states a table leads to from the first. *)
Lemma sample_within edges (U : gset nat) s :
  0 ∈ U -> (forall s l, s ∈ U -> l ∈ edges s -> l <> [] /\ forall t, Settled t ∈ l -> t ∈ U) ->
  reachable (Inv := sample at_once edges) s -> s ∈ U.
Proof.
  intros H0 H [w Hw]. remember (Settled s) as o eqn:Eo. revert s Eo.
  induction Hw as [ps o [n T]|ps e [n T]|w s m ps o _ IH Hm T]; intros t Et; [| |subst o]; cbn in *.
  - subst o. inversion T; subst. done.
  - done.
  - apply elem_of_lookup_imap in Hm as (i & l & -> & Hi). cbn in T. rewrite Hi in T. cbn in T.
    destruct (H s l (IH s eq_refl)) as [Hl Hs]; [by eapply list_elem_of_lookup_2|]. by eapply Hs, alternatives_of_takes.
Qed.

(** A choice of two ends, and a cycle back from one of them. *)
Definition fork_edges (s : nat) : list (list ends) := match s with 0 => [[Settled 1; Settled 2]] | _ => [] end.
Definition cycle_edges (s : nat) : list (list ends) :=
  match s with 0 => [[Settled 1; Settled 2]] | 1 => [[Settled 0]; [Settled 3]] | 2 => [[Settled 3]] | _ => [] end.

(** ** What the depth bound cuts *)

(** State 3 is reached the long way by three moves, and by the short one through 4, which
    leads back to it; what lies beyond 3 is cut the long way. *)
Definition detour_edges (s : nat) : list (list ends) :=
  match s with
  | 0 => [[Settled 1]; [Settled 4]] | 1 => [[Settled 2]] | 2 => [[Settled 3]]
  | 3 => [[Settled 4]; [Settled 5]] | 4 => [[Settled 3]] | 5 => [[Settled 6]] | 6 => [[Settled 7]]
  | 7 => [[Settled 8]] | _ => []
  end.

(** A check with the depth bound 6 finds no violation, though a schedule of six moves
    reaches a state where the property is false: when the short way reaches 4, which the
    long way left with every move explored and not cut, the search does not go on. *)
Lemma depth_bound_misses :
  reports (Check (Inv := sample at_once detour_edges) {| Depth := 6; States := 0 |} unlimited [avoids 8] 100)
    (fun r => r.(Verdict) = CheckWithinBounds /\ r.(RBoundsHit) = [bs "depth"] /\ r.(Violations) = []) /\
  exists w, scheduled (Inv := sample at_once detour_edges) w (Settled 8) /\ length w.(made) = 6 /\
    (avoids 8).(Holds) 8 = (false, None).
Proof.
  split; [vm_compute; split_and!; reflexivity|].
  destruct (sample_start detour_edges) as (w0 & H0 & L0).
  destruct (sample_move detour_edges w0 0 1 (Settled 4) H0 eq_refl) as (w1 & H1 & L1).
  destruct (sample_move detour_edges w1 4 0 (Settled 3) H1 eq_refl) as (w2 & H2 & L2).
  destruct (sample_move detour_edges w2 3 1 (Settled 5) H2 eq_refl) as (w3 & H3 & L3).
  destruct (sample_move detour_edges w3 5 0 (Settled 6) H3 eq_refl) as (w4 & H4 & L4).
  destruct (sample_move detour_edges w4 6 0 (Settled 7) H4 eq_refl) as (w5 & H5 & L5).
  destruct (sample_move detour_edges w5 7 0 (Settled 8) H5 eq_refl) as (w6 & H6 & L6).
  exists w6. split_and!; [done|lia|done].
Qed.

(** State 2 is reached by two moves, then by one: the search follows both schedules, and
    reports the violation by the longer. *)
Definition shortcut_edges (s : nat) : list (list ends) :=
  match s with 0 => [[Settled 1]; [Settled 2]] | 1 => [[Settled 2]] | _ => [] end.

Lemma longer_schedule_reported :
  reports (Check (Inv := sample at_once shortcut_edges) unbounded unlimited [avoids 2] 100)
    (fun r => map VDepth r.(Violations) = [2] /\ r.(RMoves) = 3 /\ r.(RBoundsHit) = []) /\
  exists w, scheduled (Inv := sample at_once shortcut_edges) w (Settled 2) /\ length w.(made) = 1.
Proof.
  split; [vm_compute; split_and!; reflexivity|].
  destruct (sample_start shortcut_edges) as (w0 & H0 & L0).
  destruct (sample_move shortcut_edges w0 0 1 (Settled 2) H0 eq_refl) as (w1 & H1 & L1).
  exists w1. split; [done|lia].
Qed.

(** An executor budget exhausted by the start is a violation, not a bound hit. *)
Lemma start_budget_is_violation :
  reports (Check (Inv := sample (Ends (NotStarted ErrStepLimitExceeded)) (fun _ => [])) unbounded unlimited [] 10)
    (fun r => r.(Verdict) = CheckViolation /\ r.(RBoundsHit) = []) /\
  boundOf (Inv := sample (Ends (NotStarted ErrStepLimitExceeded)) (fun _ => [])) ErrStepLimitExceeded = Some BoundSteps.
Proof. split; [vm_compute; split_and!; reflexivity|reflexivity]. Qed.
