(* ===== verification/CheckerSound.v ===== *)
(** * What a check reports, some schedule does

    The divergences of a report, and the soundness of the report: each violation, final
    and diverging value comes with a schedule of the invocation that does what is said. *)
From Stdlib Require Import Floats.SpecFloat.
From stdpp Require Import gmap.
From S2P Require Import Prelude Bytes Integer Explore ExploreQueue Checker CheckerPlain CheckerStrip CheckerSpec.
From S2P Require Import CheckerSteps CheckerInvariant CheckerSample.
Local Open Scope nat_scope.

(** ** Divergences *)

Section Divergences.
Context {Executor Node Error : Type}.
Implicit Types (g : CheckFinal Executor Node Error) (acc : gmap bytes (gmap bytes (Witness Executor Node Error))).

Definition value_at acc (n v : bytes) : option (Witness Executor Node Error) := default ∅ (acc !! n) !! v.

Definition add_values acc g : gmap bytes (gmap bytes (Witness Executor Node Error)) :=
  union_with (fun old new => Some (old ∪ new)) acc ((fun v => {[v := g.(fWitness)]}) <$> g.(fValues)).

Lemma value_at_add acc g n v :
  value_at (add_values acc g) n v
  = match value_at acc n v with
    | Some w => Some w
    | None => if bool_decide (g.(fValues) !! n = Some v) then Some g.(fWitness) else None
    end.
Proof.
  unfold value_at, add_values. rewrite lookup_union_with, lookup_fmap.
  destruct (acc !! n) as [M|], (fValues g !! n) as [u|]; cbn.
  - rewrite lookup_union. destruct (M !! v) as [w|] eqn:Ev; rewrite ?Ev; cbn.
    + by destruct ({[u := _]} !! v).
    + case_bool_decide as E; [injection E as ->; by rewrite lookup_singleton_eq|].
      rewrite lookup_singleton_ne; [done|congruence].
  - rewrite bool_decide_false by done. by destruct (M !! v).
  - rewrite lookup_empty. case_bool_decide as E; [injection E as ->; by rewrite lookup_singleton_eq|].
    rewrite lookup_singleton_ne; [done|congruence].
  - by rewrite lookup_empty, bool_decide_false.
Qed.

(** The values found of each feature, each with the witness of a final reaching it. *)
Lemma value_witnesses_at fs n v :
  (is_Some (value_at (value_witnesses fs) n v) <-> exists g, g ∈ fs /\ g.(fValues) !! n = Some v) /\
  (forall w, value_at (value_witnesses fs) n v = Some w -> exists g, g ∈ fs /\ g.(fValues) !! n = Some v /\ g.(fWitness) = w).
Proof.
  enough (H : forall acc, (is_Some (value_at (fold_left add_values fs acc) n v) <->
      is_Some (value_at acc n v) \/ exists g, g ∈ fs /\ g.(fValues) !! n = Some v) /\
    (forall w, value_at (fold_left add_values fs acc) n v = Some w ->
      value_at acc n v = Some w \/ exists g, g ∈ fs /\ g.(fValues) !! n = Some v /\ g.(fWitness) = w)).
  { destruct (H ∅) as [H1 H2]. change (value_witnesses fs) with (fold_left add_values fs ∅).
    assert (E0 : value_at ∅ n v = None) by (unfold value_at; by rewrite lookup_empty).
    rewrite E0 in H1, H2. split; [rewrite H1; split; [intros [[? ?]|?]; done|by right]|].
    intros w Hw. by destruct (H2 w Hw). }
  induction fs as [|g fs IH]; intros acc; cbn [fold_left].
  { split; [split; [by left|intros [?|(? & ?%elem_of_nil & _)]; done]|by left]. }
  destruct (IH (add_values acc g)) as [H1 H2]. rewrite value_at_add in H1, H2. split.
  - rewrite H1. destruct (value_at acc n v) as [w|] eqn:Ev; [split; intros _; left; by eexists|].
    case_bool_decide as E.
    + split; intros _; [right; exists g; split; [left|done]|left; by eexists].
    + split; [intros [[? ?]|(x & ? & ?)]; [done|right; exists x; split; [by right|done]]|].
      intros [[? ?]|(x & [->|Hx]%elem_of_cons & ?)]; [done|done|right; by exists x].
  - intros w Hw. destruct (H2 w Hw) as [Ew|(x & ? & ? & ?)]; [|right; exists x; split_and!; [by right|done|done]].
    destruct (value_at acc n v) eqn:Ev; [by left|]. case_bool_decide as E; [|done]. injection Ew as <-.
    right. exists g. split_and!; [left|done|done].
Qed.

Lemma divergences_elem fs (d : Divergence Executor Node Error) :
  d ∈ divergences fs <->
  exists n M, value_witnesses fs !! n = Some M /\ 2 <= size M /\
    d = {| dFeature := n;
           dValues := map (fun q => {| dValue := q.1; dWitness := q.2 |}) (merge_sort (by_key fst) (map_to_list M)) |}.
Proof.
  unfold divergences. change (@map ?A ?B) with (@fmap list _ A B) at 1. rewrite list_elem_of_fmap.
  split.
  - intros ([n M] & -> & H). rewrite merge_sort_Permutation in H. apply list_elem_of_filter in H as [H1 H2].
    apply elem_of_map_to_list in H2. by exists n, M.
  - intros (n & M & H1 & H2 & ->). exists (n, M). split; [done|]. rewrite merge_sort_Permutation.
    apply list_elem_of_filter. split; [done|]. by apply elem_of_map_to_list.
Qed.

Lemma size_two {A} (M : gmap bytes A) a b : a <> b -> is_Some (M !! a) -> is_Some (M !! b) -> 2 <= size M.
Proof.
  intros N Ha Hb. rewrite <- (size_dom (D := gset bytes)).
  assert (H : {[a; b]} ⊆ dom M) by (apply union_subseteq; split; apply singleton_subseteq_l, elem_of_dom; done).
  apply subseteq_size in H. rewrite size_union, !size_singleton in H by set_solver. lia.
Qed.

(** A feature is reported divergent exactly if two finals give it different values. *)
Lemma divergences_spec fs n :
  (exists d, d ∈ divergences fs /\ d.(dFeature) = n) <->
  exists g1 g2 v1 v2, g1 ∈ fs /\ g2 ∈ fs /\ g1.(fValues) !! n = Some v1 /\ g2.(fValues) !! n = Some v2 /\ v1 <> v2.
Proof.
  split.
  - intros (d & (n' & M & E1 & E2 & ->)%divergences_elem & <-). cbn. rewrite <- length_map_to_list in E2.
    pose proof (NoDup_fst_map_to_list M) as Hnd.
    assert (Hin : forall x, x ∈ map_to_list M -> exists g, g ∈ fs /\ g.(fValues) !! n' = Some x.1).
    { intros [v w] Hx. apply elem_of_map_to_list in Hx. apply (value_witnesses_at fs n' v). unfold value_at. rewrite E1. by exists w. }
    destruct (map_to_list M) as [|x [|y l]]; cbn in E2; [lia..|].
    destruct (Hin x) as (g1 & ? & ?); [left|]. destruct (Hin y) as (g2 & ? & ?); [right; left|].
    exists g1, g2, x.1, y.1. split_and!; try done. intros Exy. cbn in Hnd. apply NoDup_cons in Hnd as [Hnd _].
    apply Hnd. rewrite Exy. left.
  - intros (g1 & g2 & v1 & v2 & H1 & H2 & E1 & E2 & N).
    assert (S1 : is_Some (value_at (value_witnesses fs) n v1)) by (apply value_witnesses_at; by exists g1).
    assert (S2 : is_Some (value_at (value_witnesses fs) n v2)) by (apply value_witnesses_at; by exists g2).
    unfold value_at in S1, S2. destruct (value_witnesses fs !! n) as [M|] eqn:EM; cbn in S1, S2; [|by destruct S1].
    eexists. split; [apply divergences_elem; exists n, M; split_and!; [done|by eapply size_two|reflexivity]|done].
Qed.

(** Each value reported of a divergent feature is that of a final, with its witness. *)
Lemma divergences_values fs d x :
  d ∈ divergences fs -> x ∈ d.(dValues) ->
  exists g, g ∈ fs /\ g.(fValues) !! d.(dFeature) = Some x.(dValue) /\ g.(fWitness) = x.(dWitness).
Proof.
  intros (n & M & E1 & E2 & ->)%divergences_elem Hx. cbn in *.
  change (@map ?A ?B) with (@fmap list _ A B) in Hx. apply list_elem_of_fmap in Hx as ([v w] & -> & Hx).
  rewrite merge_sort_Permutation in Hx. apply elem_of_map_to_list in Hx. cbn.
  apply (value_witnesses_at fs n v). unfold value_at. by rewrite E1.
Qed.

Lemma divergences_nil fs :
  divergences fs = [] <->
  forall g1 g2 n v1 v2, g1 ∈ fs -> g2 ∈ fs -> g1.(fValues) !! n = Some v1 -> g2.(fValues) !! n = Some v2 -> v1 = v2.
Proof.
  split.
  - intros E g1 g2 n v1 v2 H1 H2 E1 E2. destruct (decide (v1 = v2)) as [|N]; [done|exfalso].
    destruct (proj2 (divergences_spec fs n)) as (d & Hd & _); [by exists g1, g2, v1, v2|]. rewrite E in Hd. by apply elem_of_nil in Hd.
  - intros H. destruct (divergences fs) as [|d l] eqn:E; [done|exfalso].
    destruct (proj1 (divergences_spec fs (dFeature d))) as (g1 & g2 & v1 & v2 & ? & ? & ? & ? & N); [exists d; rewrite E; split; [left|done]|].
    apply N. by apply (H g1 g2 (dFeature d)).
Qed.
End Divergences.

(** ** Soundness *)

Section Sound.
Context {State Executor Node Error : Type}.
Context `{EqDecision State, !Countable State, EqDecision Executor, EqDecision Node}.
Context `{Inv : Invoked State Executor Node Error} `{!Offering Inv}.
Variables (budget : CheckBudget) (budgets : Budgets) (props : list (CheckProperty State Error)).

(** C5: what a check reports is so, whatever its bounds. Each violation reported is
    reached by the schedule that is its witness, in as many moves as it says and no more
    than the depth bound: a property false, or failing to evaluate, at the state the
    schedule settles in, or the error the schedule ends in. Each final is the outcome of
    a schedule that completes. Each value of a divergent feature is one a final reported
    gives it, and a feature is divergent exactly if two finals give it different values.
    No more states are counted than the states bound, nor a longer schedule than the
    depth bound. *)
Theorem Check_sound fuel (r : CheckReport Executor Node Error) :
  Check budget budgets props fuel = Some (inl r) ->
  (forall v, v ∈ r.(Violations) -> sound_violation budget props (strip_violation v)) /\
  (forall g, g ∈ r.(Finals) -> sound_final g) /\
  (forall d x, d ∈ r.(Divergent) -> x ∈ d.(dValues) ->
     exists g, g ∈ r.(Finals) /\ g.(fValues) !! d.(dFeature) = Some x.(dValue) /\ g.(fWitness) = x.(dWitness)) /\
  (forall n, (exists d, d ∈ r.(Divergent) /\ d.(dFeature) = n) <->
     exists g1 g2 v1 v2, g1 ∈ r.(Finals) /\ g2 ∈ r.(Finals) /\
       g1.(fValues) !! n = Some v1 /\ g2.(fValues) !! n = Some v2 /\ v1 <> v2) /\
  (budget.(States) = 0 \/ r.(RStates) <= budget.(States)) /\
  (budget.(Depth) = 0 \/ r.(RMaxDepth) <= budget.(Depth)).
Proof.
  intros E. destruct (Check_strip budget budgets props fuel r E) as (c & Ec & -> & _ & -> & _ & Ev & Ef & Ed & _).
  apply pcheck_wf in Ec. destruct Ec as [B _ D]. rewrite Ed. split_and!.
  - intros v Hv. apply (b_violations _ _ _ B). rewrite <- Ev. apply list_elem_of_fmap. by exists v.
  - intros g. rewrite Ef, merge_sort_Permutation. apply (b_results _ _ _ B).
  - intros d x. apply divergences_values.
  - intros n. apply divergences_spec.
  - apply (b_states _ _ _ B).
  - exact D.
Qed.
End Sound.

Lemma Check_sound_witness :
  reports (Check (Inv := sample at_once fork_edges) unbounded unlimited [avoids 2] 9)
    (fun r => r.(Verdict) = CheckViolation /\ r.(RStates) = 3 /\ length r.(Divergent) = 1 /\
       forall v, v ∈ r.(Violations) -> sound_violation (Inv := sample at_once fork_edges) unbounded [avoids 2] (strip_violation v)).
Proof.
  destruct (reports_report (Check (Inv := sample at_once fork_edges) unbounded unlimited [avoids 2] 9)
    (fun r => r.(Verdict) = CheckViolation /\ r.(RStates) = 3 /\ length r.(Divergent) = 1)) as (r & E & H1 & H2 & H3);
    [vm_compute; split_and!; reflexivity|].
  rewrite E. split_and!; [done..|].
  apply (Check_sound (Inv := sample at_once fork_edges) (Offering0 := sample_offering _ _ at_once_offers)
    unbounded unlimited [avoids 2] 9 r E).
Defined.
