(* ===== verification/CheckerComplete.v ===== *)
(** * What some schedule does, a check within its bounds reports

    A search that hit no bound leaves nothing out: what each visited state's moves lead
    to is found, or waits on the stack ([covered]). *)
From Stdlib Require Import Floats.SpecFloat.
From stdpp Require Import gmap.
From S2P Require Import Prelude Bytes Integer Explore ExploreQueue Checker CheckerPlain CheckerStrip CheckerSpec.
From S2P Require Import CheckerSteps CheckerInvariant CheckerSample CheckerSound.
Local Open Scope nat_scope.

Section Complete.
Context {State Executor Node Error : Type}.
Context `{EqDecision State, !Countable State, EqDecision Executor, EqDecision Node}.
Context `{Inv : Invoked State Executor Node Error} `{!Offering Inv}.
Variables (budget : CheckBudget) (budgets : Budgets) (props : list (CheckProperty State Error)).
Implicit Types (s : State) (c : plain State Executor Node Error) (r : Snapshot State Executor Node)
  (f : pframe State Executor Node) (m : searchMove Executor Node) (u : unitOf Executor Node)
  (a : enabledMove Executor Node) (p : CheckProperty State Error) (e : Error).

(** ** What is covered *)

(** Where a schedule ends is found. *)
Definition answered c (o : ending State Error) : Prop :=
  match o with Settled t => is_Some (c.(p_visited) !! t) | Raised e => told c [] e end.

(** A frame still has a move to make that takes the picks, so far as they go. *)
Definition waits c s u (qs : list nat) : Prop :=
  exists f, f ∈ c.(p_stack) /\ p_key f = s /\
    exists m, m ∈ drop f.(p_next) f.(p_moves) /\ unit_of m = u /\ exists x, qs = picks_of m ++ x.

(** Every end of every move of a visited state is found or waits, but those excepted. *)
Definition covered_but (X : State -> unitOf Executor Node -> list nat -> ending State Error -> Prop) c : Prop :=
  forall s a qs o, is_Some (c.(p_visited) !! s) -> a ∈ enabledMoves s ->
    resolves (make s a.(moved)) (a.(Picks) ++ qs) o ->
    answered c o \/ waits c s a.(moved) (a.(Picks) ++ qs) \/ X s a.(moved) (a.(Picks) ++ qs) o.

Definition covered : plain State Executor Node Error -> Prop := covered_but (fun _ _ _ _ => False).

Definition settled c : Prop :=
  (forall s p, is_Some (c.(p_visited) !! s) -> p ∈ props -> judged c s p) /\
  (forall s, is_Some (c.(p_visited) !! s) -> terminal s = true -> finals_at c s).

Lemma answered_grows c c' o : grows c c' -> answered c o -> answered c' o.
Proof. intros [] H. destruct o; cbn in *; auto. Qed.

Lemma covered_grows (X Y : State -> unitOf Executor Node -> list nat -> ending State Error -> Prop) c c' :
  grows c c' -> (forall s, is_Some (c'.(p_visited) !! s) -> is_Some (c.(p_visited) !! s)) ->
  (forall s u qs, waits c s u qs -> waits c' s u qs) ->
  (forall s u qs o, X s u qs o -> answered c' o \/ waits c' s u qs \/ Y s u qs o) -> covered_but X c -> covered_but Y c'.
Proof.
  intros G D W HX H s a qs o Hs Ha R. destruct (H s a qs o (D s Hs) Ha R) as [?|[?|?]]; [|by right; left; apply W|by apply HX].
  left. by eapply answered_grows.
Qed.

Lemma settled_same c c' :
  grows c c' -> (forall s, is_Some (c'.(p_visited) !! s) -> is_Some (c.(p_visited) !! s)) -> settled c -> settled c'.
Proof.
  intros G D [H1 H2]. split.
  - intros s p Hs Hp. eapply judged_grows; [exact G|]. apply H1; auto.
  - intros s Hs Ht. eapply finals_at_grows; [exact G|]. apply H2; auto.
Qed.

(** ** What waits on the stack *)

Lemma waits_stack c c' s u qs :
  (forall f, f ∈ c.(p_stack) -> exists g, g ∈ c'.(p_stack) /\ p_key g = p_key f /\
     drop f.(p_next) f.(p_moves) ⊆ drop g.(p_next) g.(p_moves)) -> waits c s u qs -> waits c' s u qs.
Proof.
  intros H (f & Hf & Ek & m & Hm & Hu). destruct (H f Hf) as (g & Hg & Eg & Hsub).
  exists g. split_and!; [done|congruence|]. exists m. split; [by apply Hsub|done].
Qed.

Lemma waits_same c c' s u qs : c'.(p_stack) = c.(p_stack) -> waits c s u qs -> waits c' s u qs.
Proof. unfold waits. by intros ->. Qed.

Lemma waits_on_ptop g c s u qs :
  (forall f l, c.(p_stack) = f :: l -> p_key (g f) = p_key f /\ drop f.(p_next) f.(p_moves) ⊆ drop (g f).(p_next) (g f).(p_moves)) ->
  waits c s u qs -> waits (on_ptop g c) s u qs.
Proof.
  intros Hg. unfold on_ptop. destruct (p_stack c) as [|f l] eqn:Es; [done|]. destruct (Hg f l eq_refl) as [Ek Hd].
  apply waits_stack. rewrite Es. cbn. intros h [->|Hh]%elem_of_cons; [exists (g f); split; [left|done]|].
  exists h. split; [by right|done].
Qed.

Lemma waits_pcut_top c s u qs : waits c s u qs -> waits (pcut_top c) s u qs.
Proof.
  unfold pcut_top. destruct (p_stack c) eqn:Es; [done|]. intros H. eapply waits_same; [reflexivity|].
  cbn. apply waits_on_ptop; [done|done].
Qed.

Lemma waits_ppush g c s u qs : waits c s u qs -> waits (ppush g c) s u qs.
Proof. apply waits_stack. intros f Hf. exists f. split; [by right|done]. Qed.

Lemma drop_insert_at {A} n (x l : list A) : n <= length l -> drop n (insert_at n x l) = x ++ drop n l.
Proof. intros H. unfold insert_at. rewrite drop_app_length'; [done|]. rewrite length_take. lia. Qed.

(** ** A move made *)

(** Each end of each move of a visited state waits, or is as [X] says. *)
Definition left_to (X : State -> unitOf Executor Node -> list nat -> ending State Error -> Prop) c : Prop :=
  forall s a qs o, is_Some (c.(p_visited) !! s) -> a ∈ enabledMoves s ->
    resolves (make s a.(moved)) (a.(Picks) ++ qs) o -> waits c s a.(moved) (a.(Picks) ++ qs) \/ X s a.(moved) (a.(Picks) ++ qs) o.

Lemma covered_left X c : covered_but X c <-> left_to (fun s u qs o => answered c o \/ X s u qs o) c.
Proof. unfold covered_but, left_to. split; intros H s a qs o Hs Ha R; specialize (H s a qs o Hs Ha R); tauto. Qed.

Definition taken_by s m : State -> unitOf Executor Node -> list nat -> ending State Error -> Prop :=
  fun s' u qs _ => s' = s /\ u = unit_of m /\ exists x, qs = picks_of m ++ x.

(** The frame has passed the move: what the move takes is left out. *)
Lemma left_advance X c f m l o k g :
  c.(p_stack) = f :: l -> f.(p_moves) !! f.(p_next) = Some m -> left_to X c ->
  left_to (fun s u qs o => taken_by (p_key f) m s u qs o \/ X s u qs o)
    (on_pseen k g (set_stack c o (frame_with f f.(p_all) f.(p_moves) (S f.(p_next)) f.(p_full) f.(p_fcut) :: l))).
Proof.
  intros Es Em H s a qs x Hs Ha R. rewrite on_pseen_dom in Hs. destruct (H s a qs x Hs Ha R) as [W|]; [|by right; right].
  destruct W as (h & Hh & Ek & m' & Hm' & Eu & y & Ey). rewrite Es in Hh. apply elem_of_cons in Hh as [->|Hh].
  - rewrite (drop_S _ _ _ Em) in Hm'. apply elem_of_cons in Hm' as [->|Hm'].
    + right; left. split_and!; [done|done|by exists y].
    + left. eexists. split; [left|]. split; [done|]. exists m'. split_and!; [done|done|by exists y].
  - left. exists h. split; [by right|]. split; [done|]. exists m'. split_and!; [done|done|by exists y].
Qed.

(** With the siblings revealed, only the end of the move itself is left out. *)
Lemma left_reveal X c f m l (refused : ending State Error) n d :
  let o := (follow refused (make (p_key f) (unit_of m)) (picks_of m)).1.1 in
  let drawn := (follow refused (make (p_key f) (unit_of m)) (picks_of m)).1.2 in
  c.(p_stack) = f :: l -> f.(p_next) <= length f.(p_moves) -> legal (p_key f) m ->
  left_to (fun s u qs o => taken_by (p_key f) m s u qs o \/ X s u qs o) c ->
  left_to (fun s u qs o' => (s = p_key f /\ o' = o) \/ X s u qs o') (on_ptop (preveal m drawn) (set_counts c n d)).
Proof.
  intros o drawn Es Hn [Hl _] H s a qs o' Hs Ha R.
  assert (D : is_Some (p_visited c !! s)) by (unfold on_ptop in Hs; cbn in Hs; by rewrite Es in Hs).
  assert (Er : exists i, preveal m drawn f = frame_with f (insert_at i (map (with_picks m) (siblings [] drawn)) f.(p_all))
     (insert_at f.(p_next) (map (with_picks m) (siblings [] drawn)) f.(p_moves)) f.(p_next) f.(p_full) f.(p_fcut)).
  { unfold preveal. destruct (revealed_cases m drawn (p_all f) (p_moves f) (p_next f)) as [i ->]. by exists i. }
  destruct Er as [i Er].
  destruct (H s a qs o' D Ha R) as [W|[(-> & Eu & x & Ex)|]]; [| |by right; right].
  - left. apply waits_on_ptop; [|done]. cbn [p_stack set_counts]. rewrite Es. intros ? ? [= <- <-]. rewrite Er. split; [done|].
    cbn [frame_with p_next p_moves]. rewrite drop_insert_at by done. set_solver.
  - rewrite Eu, Ex in R. destruct (siblings_cover refused _ _ _ _ Hl R) as [->|(y & z & Hy & ->)]; [by right; left|].
    left. unfold on_ptop. cbn [p_stack set_counts]. rewrite Es. exists (preveal m drawn f). split; [left|]. split; [by rewrite Er|].
    exists (with_picks m y). rewrite Er. cbn [frame_with p_next p_moves]. rewrite drop_insert_at by done. split_and!.
    + apply elem_of_app. left. change (@map ?A ?B) with (@fmap list _ A B). apply list_elem_of_fmap. by exists y.
    + done.
    + exists z. rewrite Ex. cbn. by rewrite app_assoc.
Qed.

Lemma covered_advance c f m l o k g :
  c.(p_stack) = f :: l -> f.(p_moves) !! f.(p_next) = Some m -> covered c ->
  covered_but (taken_by (p_key f) m)
    (on_pseen k g (set_stack c o (frame_with f f.(p_all) f.(p_moves) (S f.(p_next)) f.(p_full) f.(p_fcut) :: l))).
Proof.
  intros Es Em H. apply covered_left in H. apply covered_left.
  pose proof (left_advance _ c f m l o k g Es Em H) as L. intros s a qs x Hs Ha R.
  destruct (L s a qs x Hs Ha R) as [|[|[A|[]]]]; [by left|by right; right|right; left].
  by destruct x; [apply on_pseen_dom|].
Qed.

Lemma covered_reveal c f m l (refused : ending State Error) n d :
  let o := (follow refused (make (p_key f) (unit_of m)) (picks_of m)).1.1 in
  let drawn := (follow refused (make (p_key f) (unit_of m)) (picks_of m)).1.2 in
  c.(p_stack) = f :: l -> f.(p_next) <= length f.(p_moves) -> legal (p_key f) m ->
  covered_but (taken_by (p_key f) m) c ->
  covered_but (fun _ _ _ o' => o' = o) (on_ptop (preveal m drawn) (set_counts c n d)).
Proof.
  intros o drawn Es Hn Hl H. apply covered_left.
  assert (H' : left_to (fun s u qs o => taken_by (p_key f) m s u qs o \/ answered c o) c).
  { apply covered_left in H. intros s a qs x Hs Ha R. destruct (H s a qs x Hs Ha R) as [|[|]]; auto. }
  pose proof (left_reveal (fun _ _ _ o => answered c o) c f m l refused n d Es Hn Hl H') as L. intros s a qs x Hs Ha R.
  destruct (L s a qs x Hs Ha R) as [|[[_ A]|A]]; [by left|by right; right|right; left].
  unfold on_ptop. cbn. rewrite Es. by destruct x.
Qed.

Lemma waits_touched c c' s u qs : touched c c' -> waits c s u qs -> waits c' s u qs.
Proof.
  intros T. apply waits_stack. intros f Hf. apply list_elem_of_lookup in Hf as [i Hi].
  destruct (Forall2_lookup_l _ _ _ _ _ (t_frames _ _ T) Hi) as (g & Hg & E1 & E2 & E3).
  exists g. split; [by eapply list_elem_of_lookup_2|]. unfold p_key. by rewrite E1, E2, E3.
Qed.

(** ** States visited *)

Lemma visited_only r c c' s :
  (forall s, s <> r.(here) -> marks_at c' s = marks_at c s) -> s <> r.(here) ->
  is_Some (c'.(p_visited) !! s) -> is_Some (c.(p_visited) !! s).
Proof. intros H N. by rewrite <- !marks_at_dom, H. Qed.

Definition ends_in (o : ending State Error) : State -> unitOf Executor Node -> list nat -> ending State Error -> Prop :=
  fun _ _ _ o' => o' = o.

(** The state reached is visited, and its own moves wait if it is new. *)
Lemma covered_arrive c c' t :
  grows c c' -> (forall s, s <> t -> is_Some (c'.(p_visited) !! s) -> is_Some (c.(p_visited) !! s)) ->
  (forall s u qs, waits c s u qs -> waits c' s u qs) -> is_Some (c'.(p_visited) !! t) ->
  (is_Some (c.(p_visited) !! t) \/ forall a qs, a ∈ enabledMoves t -> waits c' t a.(moved) (a.(Picks) ++ qs)) ->
  covered_but (ends_in (Settled t)) c -> covered c'.
Proof.
  intros G D W V N H s a qs o Hs Ha R.
  assert (Hc : is_Some (c.(p_visited) !! s) \/ waits c' s a.(moved) (a.(Picks) ++ qs)).
  { destruct (decide (s = t)) as [->|Ns]; [destruct N; auto|left; auto]. }
  destruct Hc as [Hc|Hc]; [|by right; left].
  destruct (H s a qs o Hc Ha R) as [A|[A|A]]; [left; by eapply answered_grows|right; left; auto|left].
  unfold ends_in in A. by subst o.
Qed.

Lemma waits_fresh c r d vs sp g a qs :
  a ∈ enabledMoves r.(here) -> g = fresh r d vs ->
  waits (ppush (respent sp g) c) r.(here) a.(moved) (a.(Picks) ++ qs).
Proof.
  intros Ha ->. eexists. split; [left|]. split; [done|]. exists (named (here r) a). split_and!.
  - cbn. rewrite drop_0. apply movesOf_elem. by exists a.
  - done.
  - by exists qs.
Qed.

Lemma parrive_complete r d vs sp c :
  wf budget props c -> found budget r d -> (forall n, n ∈ vs -> said c n) -> settled c ->
  grows c (parrive budget props r d vs sp c) /\ settled (parrive budget props r d vs sp c) /\
  ((parrive budget props r d vs sp c).(p_bounds) = [] ->
   covered_but (ends_in (Settled r.(here))) c -> covered (parrive budget props r d vs sp c)).
Proof.
  intros W F Hvs S. destruct (terminal (here r)) eqn:Ht.
  - unfold parrive. rewrite Ht.
    destruct (pcomplete_spec budget props r d vs c) as (St & G & _ & _ & _ & _ & _ & M & X); [done|apply W..|done|].
    set (c' := pcomplete _ _ _ _ _ _) in *. split; [done|].
    assert (Hnew : is_Some (p_visited c !! here r) \/ c'.(p_bounds) <> [] /\ c'.(p_visited) = c.(p_visited) \/
              finals_at c' (here r) /\ depth_at c' (here r) = Some d /\ forall p, p ∈ props -> judged c' (here r) p).
    { destruct X as [?|(Y & [(_ & _ & ? & ?)|(n & ? & _)] & _)]; [tauto|tauto|left; by eapply depth_at_visited]. }
    split.
    + destruct S as [S1 S2]. split.
      * intros s p Hs Hp. destruct (decide (s = here r)) as [->|N].
        -- destruct Hnew as [Hv|[[? E]|(_ & _ & H)]]; [eapply judged_grows; [done|auto]| |auto].
           eapply judged_grows; [done|]. apply S1; [by rewrite <- E|done].
        -- eapply judged_grows; [done|]. apply S1; [by eapply visited_only|done].
      * intros s Hs Hst. destruct (decide (s = here r)) as [->|N].
        -- destruct X as [[_ E]|[? _]]; [|done]. eapply finals_at_grows; [done|]. apply S2; [by rewrite <- E|done].
        -- eapply finals_at_grows; [done|]. apply S2; [by eapply visited_only|done].
    + intros Eb. apply covered_arrive; [done|intros s; by apply visited_only|intros s u qs; apply waits_same; apply St| |].
      * destruct X as [[[? _] _]|(_ & [(_ & _ & H & _)|(n & _ & H)] & _)]; [done|by eapply depth_at_visited..].
      * right. intros a qs Ha. unfold terminal in Ht. apply is_nil_nil in Ht. rewrite Ht in Ha. by apply elem_of_nil in Ha.
  - destruct (parrive_enters budget props r d vs sp c W F Hvs Ht) as (c1 & child & c3 & V & X & T & -> & _).
    set (c' := match child with Some g => _ | None => c3 end).
    assert (G3 : grows c c3) by (etrans; [apply V|apply T]).
    assert (G : grows c c') by (subst c'; destruct child; [etrans; [exact G3|apply grows_set_stack]|done]).
    assert (G1 : grows c1 c') by (subst c'; destruct child; [etrans; [apply T|apply grows_set_stack]|apply T]).
    assert (D : forall s, is_Some (p_visited c' !! s) <-> is_Some (p_visited c1 !! s))
      by (intros s; subst c'; destruct child; exact (touched_dom _ _ s T)).
    assert (D1 : forall s, s <> here r -> is_Some (p_visited c' !! s) -> is_Some (p_visited c !! s)).
    { intros s N. rewrite D. apply (visited_only r); [apply V|done]. }
    split; [done|]. split.
    + destruct S as [S1 S2]. split.
      * intros s p Hs Hp. destruct (decide (s = here r)) as [->|N]; [|eapply judged_grows; [exact G|]; auto].
        destruct child as [g|].
        -- destruct X as (l & _ & _ & _ & [(_ & _ & J)|(n & E & _)] & _); [eapply judged_grows; [exact G1|auto]|].
           eapply judged_grows; [exact G|]. apply S1; [by eapply depth_at_visited|done].
        -- destruct X as [(E & E' & _)|(n & E & _)]; [rewrite D, E, E' in Hs; by destruct Hs|].
           eapply judged_grows; [exact G|]. apply S1; [by eapply depth_at_visited|done].
      * intros s Hs Hst. destruct (decide (s = here r)) as [->|N]; [congruence|].
        eapply finals_at_grows; [exact G|]. apply S2; auto.
    + intros Eb. apply covered_arrive; [done|done| | |].
      * intros s u qs H. assert (H3 : waits c3 s u qs).
        { eapply waits_touched; [exact T|]. eapply waits_same; [apply V|done]. }
        subst c'. destruct child; [by apply waits_ppush|done].
      * rewrite D. destruct child as [g|]; [destruct X as (_ & _ & _ & E & _); by eapply depth_at_visited|].
        destruct X as [(_ & _ & E & _)|(n & _ & E & _)]; [|by eapply depth_at_visited]. destruct E. by apply G1.
      * destruct child as [g|]; [right|].
        -- intros a qs Ha. destruct X as (l & Eg & _). by eapply waits_fresh.
        -- left. destruct X as [(_ & _ & E & _)|(n & E & _)]; [|by eapply depth_at_visited]. destruct E. by apply G1.
Qed.

(** ** The steps *)

Record complete_inv c : Prop := {
  ci_wf : wf budget props c; ci_settled : settled c; ci_covered : c.(p_bounds) = [] -> covered c }.

Lemma settled_touched c c' : touched c c' -> settled c -> settled c'.
Proof. intros T. apply settled_same; [apply T|]. intros s. by rewrite (touched_dom _ _ _ T). Qed.

Lemma bounded_settled b c :
  settled c -> grows c (pcut_top (phit b c)) /\ settled (pcut_top (phit b c)) /\ (pcut_top (phit b c)).(p_bounds) <> [].
Proof.
  intros S. split_and!; [etrans; [apply grows_phit|apply grows_pcut_top]| |].
  - eapply settled_touched; [apply touched_pcut_top|]. eapply settled_same; [apply grows_phit| |done].
    intros s. by rewrite phit_visited.
  - intros E. apply (phit_bounds b c). by apply (grows_pcut_top (phit b c)).
Qed.

Lemma pfailed_complete e w d c c' :
  pfailed e w d c = (c', None) -> settled c ->
  grows c c' /\ settled c' /\ (c'.(p_bounds) = [] -> covered_but (ends_in (Raised e)) c -> covered c').
Proof.
  unfold pfailed. destruct (boundOf e) as [b|].
  - intros [= <-] S. split_and!; [apply grows_phit| |intros E; by destruct (phit_bounds b c)].
    eapply settled_same; [apply grows_phit| |done]. intros s. by rewrite phit_visited.
  - destruct (Is e ErrCheckRefused); [done|]. intros [= <-] S. set (v := {| p_kind := failure_kind e |}).
    pose proof (pviolate_fields v c) as (E1 & E2 & _). split_and!; [apply grows_pviolate| |].
    + eapply settled_same; [apply grows_pviolate| |done]. intros s. by rewrite E1.
    + intros _. apply covered_grows; [apply grows_pviolate|intros s; by rewrite E1|intros s u qs; by apply waits_same|].
      intros s u qs o ->. left. apply (pviolate_told v); [|done]. subst v. cbn. unfold failure_kind. by destruct (_ || _).
Qed.

Lemma ptake_complete f m c l c' :
  c.(p_stack) = f :: l -> legal (p_key f) m -> wf budget props c -> settled c ->
  ptake budget budgets props f m c = (c', None) ->
  grows c c' /\ settled c' /\ (c'.(p_bounds) = [] ->
    (c.(p_bounds) = [] -> covered_but (taken_by (p_key f) m) c) -> covered c').
Proof.
  intros Es Hm W Hst. pose proof (wf_frames _ _ _ W) as Hf. rewrite Es in Hf. apply Forall_cons_1 in Hf as [Hf _].
  destruct (fo_found _ _ _ Hf) as [Fs Fl]. unfold ptake.
  destruct (_ && _) eqn:Eb; [intros [= <-]; destruct (bounded_settled (bs "depth") c Hst) as (? & ? & ?); by split_and!|]. apply depth_open in Eb.
  destruct (spend _ _ _) as [[sp b] [|]]; [intros [= <-]; destruct (bounded_settled b c Hst) as (? & ? & ?); by split_and!|].
  pose proof (longer_scheduled _ _ _ (Raised refusal) Fs Hm) as Hs. fold (p_key f) in Hs.
  pose proof (preveal_ok _ c f m (Raised refusal) Hf Hm) as Hr.
  pose proof (covered_reveal c f m l (Raised refusal) (S (p_nMoves c)) (max (p_maxDepth c) (S (p_d f))) Es (fo_next _ _ _ Hf) Hm) as Hc.
  cbv zeta in Hc. destruct (follow _ _ _) as [[o drawn] faced]. cbn [fst snd] in *. fold (ends_in o) in Hc.
  set (c1 := on_ptop (preveal m drawn) _) in *.
  assert (E1 : c1.(p_visited) = c.(p_visited) /\ c1.(p_bounds) = c.(p_bounds) /\ grows c c1).
  { split_and!; [..|subst c1; etrans; [apply (grows_set_counts c)|apply grows_on_ptop]]; subst c1; unfold on_ptop; cbn; by rewrite Es. }
  destruct E1 as (E1 & E2 & G1).
  assert (S1 : settled c1) by (eapply settled_same; [exact G1|intros s; by rewrite E1|done]).
  assert (W1 : wf budget props c1).
  { subst c1. unfold on_ptop. cbn. rewrite Es. destruct W as [B F D]. constructor; [by eapply base_same; [..|exact B]| |cbn; lia].
    cbn. rewrite Es in F. apply Forall_cons_1 in F as [_ F].
    constructor; [apply (frame_ok_grows _ c); [by apply grows_same|done]|]. apply (frames_grow _ c); [by apply grows_same|done]. }
  destruct o as [t|e].
  - intros [= <-]. destruct (parrive_complete {| here := t; via := longer (p_snap f).(via) m |} (S (p_d f)) (p_fviolated f) sp c1)
      as (G & S' & C'); [done|split; [done|by apply longer_long]| |done|].
    { intros n Hn. apply G1. by apply (fo_said _ _ _ Hf). }
    split_and!; [by etrans|done|]. intros Eb' Hcov. apply C'; [done|]. apply Hc, Hcov. rewrite <- E2. by apply G.
  - intros E. destruct (pfailed_complete _ _ _ _ _ E S1) as (G & S' & C'). split_and!; [by etrans|done|]. intros Eb' Hcov.
    apply C'; [done|]. apply Hc, Hcov. rewrite <- E2. by apply G.
Qed.

Lemma pstep_complete c c' :
  complete_inv c -> pstep budget budgets props c = (c', None) -> grows c c' /\ complete_inv c'.
Proof.
  intros [W Hst C] E. assert (W' : wf budget props c') by by eapply wf_pstep.
  enough (H : grows c c' /\ settled c' /\ (p_bounds c' = [] -> covered c')) by (destruct H as (? & ? & ?); by split; [|constructor]).
  revert E. clear W'.
  unfold pstep. pose proof (wf_frames _ _ _ W) as F. destruct c.(p_stack) as [|f l] eqn:Es; [by intros [= <-]|].
  apply Forall_cons_1 in F as [Hf F]. destruct (p_moves f !! p_next f) as [m|] eqn:Em.
  - assert (Hn : S (p_next f) <= length (p_moves f)) by (apply lookup_lt_Some in Em; lia).
    set (f' := frame_with f _ _ _ _ _). set (c0 := on_pseen _ _ _).
    assert (W0 : wf budget props c0).
    { apply wf_on_pseen; [intros x; cbn; set_solver|]. constructor; [by eapply base_same; [..|apply W]| |apply W].
      constructor; [|by apply (frames_grow _ c); [apply grows_set_stack|]].
      apply (frame_ok_grows _ c); [apply grows_set_stack|by apply frame_ok_next]. }
    assert (S0 : settled c0).
    { eapply settled_same; [| |exact Hst]; [etrans; [apply grows_set_stack|apply grows_on_pseen]|]. intros s Hs. by apply on_pseen_dom in Hs. }
    intros E. destruct (ptake_complete f' m c0 l c' eq_refl) as (G' & S' & C'); [|done|done|done|].
    { apply (fo_moves _ _ _ Hf). by eapply list_elem_of_lookup_2. }
    split_and!; [|done|]; [etrans; [|exact G']; etrans; [apply grows_set_stack|apply grows_on_pseen]|].
    intros Eb. apply C'; [done|]. intros Eb0. apply (covered_advance c f m l _ _ _ Es Em). by apply C.
  - intros [= <-]. unfold ppop.
    set (c0 := set_stack c _ l).
    assert (C0 : p_bounds c0 = [] -> covered c0).
    { intros Eb s a qs o Hs Ha R. destruct (C Eb s a qs o Hs Ha R) as [A|[A|[]]]; [left; by destruct o|right; left].
      destruct A as (g & Hg & Ek & y & Hy & A). rewrite Es in Hg. apply elem_of_cons in Hg as [->|Hg]; [|by exists g; eauto].
      apply lookup_ge_None_1 in Em. rewrite drop_ge in Hy by lia. by apply elem_of_nil in Hy. }
    assert (S0 : settled c0) by (eapply settled_same; [apply grows_set_stack|done|done]).
    destruct (p_fcut f); [|by split_and!; [apply grows_set_stack|..]].
    split_and!; [etrans; [apply grows_set_stack|apply grows_pcut_top]|eapply settled_touched; [apply touched_pcut_top|done]|].
    intros Eb. eapply covered_grows; [apply grows_pcut_top| | | |apply C0].
    + intros s. by rewrite (touched_dom _ _ _ (touched_pcut_top c0)).
    + intros s u qs. apply waits_pcut_top.
    + done.
    + by apply (grows_pcut_top c0).
Qed.

(** ** The starts *)

Lemma pstart_parrive s picks c :
  wf budget props c -> c.(p_stack) = [] ->
  pstart budget props (Settled s) picks c
  = (parrive budget props {| here := s; via := {| startPicks := picks; made := [] |} |} 0 [] unspent c, None).
Proof.
  intros W Es. unfold pstart, parrive. cbn [here]. destruct (terminal s) eqn:Ht; [done|].
  destruct (penter _ _ _ _ _ c) as [c1 child] eqn:Ep.
  destruct (penter_spec budget props {| here := s; via := {| startPicks := picks; made := [] |} |} 0 [] c c1 child)
    as (V & _ & X); [by intros n ?%elem_of_nil|apply W..|done|done|].
  assert (Es1 : p_stack c1 = []) by (rewrite <- Es; apply V).
  assert (E1 : pcut_top c1 = c1) by (unfold pcut_top; by rewrite Es1).
  assert (E2 : on_ptop pexpand c1 = c1) by (unfold on_ptop; by rewrite Es1).
  replace (match p_visited c1 !! s with Some _ => _ | None => c1 end) with c1
    by (destruct (p_visited c1 !! s) as [x|]; [|done]; rewrite E1; by destruct (p_cut x)).
  rewrite E2. replace (if _ <? _ then c1 else c1) with c1 by (by destruct (_ <? _)).
  destruct child as [g|]; [|done]. destruct X as (l & -> & _). done.
Qed.

Definition answered_start c (b : beginning State Error) : Prop :=
  match b with NotSetUp _ => False | NotStarted e => told c [] e | Begun o => answered c o end.

Record complete_starts (starts : list (list nat)) c : Prop := {
  cs_inv : complete_inv c; cs_stack : c.(p_stack) = []; cs_legal : Forall start_legal starts;
  cs_starts : c.(p_bounds) = [] -> forall qs b, resolves begin qs b ->
    answered_start c b \/ exists picks x, picks ∈ starts /\ qs = picks ++ x }.

Lemma answered_start_grows c c' b : grows c c' -> answered_start c b -> answered_start c' b.
Proof. intros G. destruct b; cbn; [done|by apply G|by apply answered_grows]. Qed.

Lemma pstart_complete o picks c c' :
  takes begin picks (Begun o) -> complete_inv c -> c.(p_stack) = [] -> pstart budget props o picks c = (c', None) ->
  grows c c' /\ complete_inv c' /\ (p_bounds c' = [] -> answered c' o).
Proof.
  intros Ho [W Hst C] Es E. assert (W' : wf budget props c') by by eapply wf_pstart.
  assert (Hs : scheduled {| startPicks := picks; made := [] |} o) by by constructor.
  destruct o as [s|e].
  - rewrite pstart_parrive in E by done. injection E as <-.
    set (r := {| here := s; via := _ |}) in *.
    destruct (parrive_complete r 0 [] unspent c W) as (G & S' & C');
      [split; [done|apply start_long]|by intros n ?%elem_of_nil|done|].
    split_and!; [done|constructor; [done..|]|].
    + intros Eb. apply C'; [done|]. intros s' a qs o Hs' Ha R.
      destruct (C ltac:(by apply G) s' a qs o Hs' Ha R) as [?|[?|[]]]; [by left|by right; left].
    + intros Eb. cbn. unfold parrive in *. change (here r) with s in *. destruct (terminal s) eqn:Ht.
      * destruct (pcomplete_spec budget props r 0 [] c) as (_ & _ & _ & _ & _ & _ & _ & _ & X);
          [by intros n ?%elem_of_nil|apply W..|done|].
        destruct X as [[[? _] _]|(_ & [(_ & _ & H & _)|(n & _ & H)] & _)]; [done|by eapply (depth_at_visited _ s)..].
      * destruct (parrive_enters budget props r 0 [] unspent c W) as (c1 & child & c3 & V & X & T & Er & _);
          [split; [done|apply start_long]|by intros n ?%elem_of_nil|done|].
        unfold parrive in Er. change (here r) with s in Er. rewrite Ht in Er. rewrite Er in Eb |- *.
        assert (Hv : is_Some (p_visited c1 !! s)).
        { destruct child as [g|]; [destruct X as (_ & _ & _ & H & _); by eapply (depth_at_visited _ s)|].
          destruct X as [(_ & _ & N & _)|(n & _ & H & _)]; [|by eapply (depth_at_visited _ s)]. destruct N. by apply T. }
        destruct child; by apply (touched_dom _ _ _ T).
  - cbn in E. destruct (pfailed_complete _ _ _ _ _ E Hst) as (G & S' & C').
    assert (C0 : p_bounds c = [] -> covered_but (ends_in (Raised e)) c).
    { intros Eb s' a qs o Hs' Ha R. destruct (C Eb s' a qs o Hs' Ha R) as [?|[?|[]]]; [by left|by right; left]. }
    split_and!; [done|constructor; [done..|]|].
    + intros Eb. apply C'; [done|]. apply C0. by apply G.
    + intros Eb. unfold pfailed in E. destruct (boundOf e) as [b|]; [injection E as <-; by destruct (phit_bounds b c)|].
      destruct (Is e ErrCheckRefused); [done|]. injection E as <-. apply (pviolate_told (Build_pviolation _ _ _ _ _ _ _ _)); [|done].
      cbn. unfold failure_kind. by destruct (_ || _).
Qed.

(** A start that failed adds a violation, and nothing else. *)
Lemma complete_unstarted picks e c :
  takes begin picks (NotStarted e) -> complete_inv c ->
  complete_inv (pviolate {| p_kind := ViolationFailure; p_name := []; p_err := Some e; p_vdepth := 0;
                            p_witness := failing {| startPicks := picks; made := [] |} e |} c).
Proof.
  intros Ht [W Hst C]. set (v := {| p_kind := ViolationFailure |}). pose proof (pviolate_fields v c) as (F1 & F2 & _ & F3 & _).
  constructor.
  - apply wf_pviolate; [|done]. split; [apply start_long|right]. exists e. by split_and!; [constructor|..].
  - eapply settled_same; [apply grows_pviolate| |done]. intros s. by rewrite F1.
  - intros Eb. apply (covered_grows (fun _ _ _ _ => False) _ c);
      [apply grows_pviolate|intros s; by rewrite F1|intros s u qs; by apply waits_same|done|].
    apply C. by rewrite <- F3.
Qed.

Lemma pfrom_complete fuel picks starts c c' more :
  complete_starts (picks :: starts) c -> pfrom budget budgets props fuel picks c = Some (c', None, more) ->
  complete_starts (starts ++ more) c'.
Proof.
  intros [I Es L A] E. inversion L as [|? ? Lp Ls]; subst. destruct (pfrom_inv _ _ _ _ _ _ _ _ E) as [-> Hc].
  pose proof (follow_takes (NotSetUp refusal) begin picks begin_offers Lp) as Ht.
  set (b0 := (follow (NotSetUp refusal) begin picks).1.1) in *.
  enough (H : grows c c' /\ complete_inv c' /\ c'.(p_stack) = [] /\ (p_bounds c' = [] -> answered_start c' b0)).
  { destruct H as (G & I' & Es' & A'). constructor; [done..| |].
    - apply Forall_app. split; [done|]. apply Forall_forall. intros x. by apply start_siblings.
    - intros Eb qs b R. destruct (A ltac:(by apply G) qs b R) as [?|(q & x & Hq & ->)]; [left; by eapply answered_start_grows|].
      apply elem_of_cons in Hq as [->|Hq]; [|right; exists q, x; split; [apply elem_of_app; by left|done]].
      destruct (siblings_cover (NotSetUp refusal) _ _ _ _ Lp R) as [->|(y & z & Hy & ->)]; [left; auto|right].
      exists (picks ++ y), z. rewrite app_assoc. split; [|done]. apply elem_of_app. right. rewrite siblings_prefix.
      change (@map ?A ?B) with (@fmap list _ A B). apply list_elem_of_fmap. by exists y. }
  destruct Hc as [(e & Eo & ->)|(o & c1 & Eo & E1 & E2)]; rewrite Eo in Ht |- *.
  - set (v := {| p_kind := ViolationFailure |}). pose proof (pviolate_fields v c) as (F1 & F2 & _ & F3 & _).
    split_and!; [apply grows_pviolate| |by rewrite F2|intros _; by apply (pviolate_told v)].
    by apply complete_unstarted.
  - destruct (pstart_complete _ _ _ _ Ht I Es E1) as (G1 & I1 & A1).
    destruct (ploop_inv budget budgets props (fun c => grows c1 c /\ complete_inv c) fuel c1 c') as [[G2 I2] Es2].
    { intros x y [Gx Ix] Ey. destruct (pstep_complete _ _ Ix Ey). split; [by etrans|done]. }
    { by split. }
    { done. }
    split_and!; [by etrans|done|done|]. intros Eb. eapply answered_grows; [exact G2|]. apply A1. by apply G2.
Qed.

Lemma complete_new : complete_starts [[]] new_plain.
Proof.
  constructor; [constructor|done| |].
  - apply wf_new.
  - split; [intros s p [x Hx]; cbn in Hx; by rewrite lookup_empty in Hx|intros s [x Hx]; cbn in Hx; by rewrite lookup_empty in Hx].
  - intros _ s a qs o [x Hx]. cbn in Hx. by rewrite lookup_empty in Hx.
  - constructor; [|constructor]. unfold start_legal. by rewrite sub_at_nil.
  - intros _ qs b _. right. exists [], qs. split; [left|done].
Qed.

(** A search that hit no bound has found where every schedule ends. *)
Lemma pcheck_complete fuel c :
  pcheck_loop budget budgets props fuel fuel [[]] new_plain = Some (c, None) ->
  settled c /\ (c.(p_bounds) = [] -> forall w o, scheduled w o -> answered c o).
Proof.
  intros E. eapply (pcheck_loop_inv budget budgets props complete_starts) in E; [|apply pfrom_complete|apply complete_new].
  destruct E as [[W Hst C] Es _ A]. split; [done|]. intros Eb w o. induction 1 as [ps o T|ps e T|w s a ps o _ IH Ha T].
  - destruct T as [n R]. destruct (A Eb _ _ R) as [?|(? & ? & ?%elem_of_nil & _)]; done.
  - destruct T as [n R]. destruct (A Eb _ _ R) as [?|(? & ? & ?%elem_of_nil & _)]; done.
  - destruct T as [n R]. rewrite <- app_assoc in R. destruct (C Eb s a _ o IH Ha R) as [?|[(f & Hf & _)|[]]]; [done|].
    rewrite Es in Hf. by apply elem_of_nil in Hf.
Qed.

(** ** The report *)

Lemma report_complete fuel (r : CheckReport Executor Node Error) :
  Check budget budgets props fuel = Some (inl r) -> r.(RBoundsHit) = [] ->
  exists c, r.(RStates) = size c.(p_visited) /\ map strip_violation r.(Violations) = c.(p_violations) /\
    r.(Finals) ≡ₚ c.(p_results) /\ (forall s, is_Some (c.(p_visited) !! s) <-> reachable s) /\
    (forall e, raised e -> told c [] e) /\ (forall s p, reachable s -> p ∈ props -> judged c s p) /\
    (forall s, reachable s -> terminal s = true -> finals_at c s) /\ c.(p_bounds) = [].
Proof.
  intros E Eb. destruct (Check_strip budget budgets props fuel r E) as (c & Ec & -> & _ & _ & Eb' & Ev & Ef & _).
  rewrite Eb in Eb'. symmetry in Eb'. destruct (pcheck_complete fuel c Ec) as [[S1 S2] A].
  apply pcheck_wf in Ec. specialize (A Eb').
  assert (R : forall s, is_Some (c.(p_visited) !! s) <-> reachable s).
  { intros s. split; [apply Ec|]. intros [w Hw]. apply (A w (Settled s) Hw). }
  exists c. split_and!; try done.
  - rewrite Ef. apply merge_sort_Permutation.
  - intros e [w Hw]. apply (A w (Raised e) Hw).
  - intros s p Hs. apply S1. by apply R.
  - intros s Hs. apply S2. by apply R.
Qed.

(** C9: a check that hit no bound has left nothing out. Its states are those the
    schedules of the invocation reach, each counted once. Every error a schedule ends in
    is a violation reported. At every state a schedule reaches each property holds, or
    its violation is reported: the property's, where it is false, and the failure, where
    it cannot be evaluated. Every outcome of a schedule that completes is among the
    finals. *)
Theorem Check_complete fuel (r : CheckReport Executor Node Error) :
  Check budget budgets props fuel = Some (inl r) -> r.(RBoundsHit) = [] ->
  (exists X : gset State, size X = r.(RStates) /\ forall s, s ∈ X <-> reachable s) /\
  (forall e, raised e -> exists v, v ∈ r.(Violations) /\ v.(Err) = Some e) /\
  (forall s p, reachable s -> p ∈ props ->
     match p.(Holds) s with
     | (true, None) => True
     | (false, None) => exists v, v ∈ r.(Violations) /\ v.(VKind) = ViolationProperty /\ v.(VName) = p.(pName)
     | (_, Some e) => exists v, v ∈ r.(Violations) /\ v.(VName) = p.(pName) /\ v.(Err) = Some e
     end) /\
  (forall s x, reachable s -> terminal s = true -> x ∈ (spellFinalVariants s).1 ->
     exists g, g ∈ r.(Finals) /\ g.(fIdentity) = x.(sf_identity)).
Proof.
  intros E Eb. destruct (report_complete fuel r E Eb) as (c & Es & Ev & Ef & R & T & J & F & Ec).
  assert (V : forall v, v ∈ c.(p_violations) -> exists w, w ∈ r.(Violations) /\ strip_violation w = v).
  { intros v. rewrite <- Ev. change (@map ?A ?B) with (@fmap list _ A B).
    intros (w & -> & Hw)%list_elem_of_fmap. by exists w. }
  split_and!.
  - exists (dom c.(p_visited)). rewrite Es, size_dom. split; [done|]. intros s. by rewrite elem_of_dom.
  - intros e He. destruct (T e He) as (v & Hv & _ & _ & Hve). destruct (V v Hv) as (w & Hw & <-). by exists w.
  - intros s p Hs Hp. specialize (J s p Hs Hp). unfold judged in J. destruct (Holds p s) as [[|] [e|]]; [| |..|].
    1, 3: destruct (Is e _); [by destruct J|]; destruct J as (v & Hv & _ & Hn & Hve); destruct (V v Hv) as (w & Hw & <-); by exists w.
    + done.
    + destruct J as (v & Hv & Hk & Hn). destruct (V v Hv) as (w & Hw & <-). by exists w.
  - intros s x Hs Ht Hx. destruct (F s Hs Ht x Hx) as (g & Hg & Eg). exists g. by rewrite Ef.
Qed.

(** C1: the verdict "no violation, exhaustive" is a proof. Every schedule of the
    invocation settles: none ends in an error. At every state a schedule reaches every
    property holds. And, where the identity of an outcome tells its values apart, any two
    schedules that complete leave every feature they both report with the same value. *)
Theorem Check_exhaustive fuel (r : CheckReport Executor Node Error) :
  Check budget budgets props fuel = Some (inl r) -> r.(Verdict) = CheckExhaustive ->
  (forall w o, scheduled w o -> exists s, o = Settled s /\ forall p, p ∈ props -> p.(Holds) s = (true, None)) /\
  ((forall s1 s2 x1 x2, x1 ∈ (spellFinalVariants s1).1 -> x2 ∈ (spellFinalVariants s2).1 ->
      x1.(sf_identity) = x2.(sf_identity) -> x1.(sf_values) = x2.(sf_values)) ->
   forall s1 s2 x1 x2 n v1 v2, reachable s1 -> reachable s2 -> terminal s1 = true -> terminal s2 = true ->
     x1 ∈ (spellFinalVariants s1).1 -> x2 ∈ (spellFinalVariants s2).1 ->
     x1.(sf_values) !! n = Some v1 -> x2.(sf_values) !! n = Some v2 -> v1 = v2).
Proof.
  intros E Ever. destruct (Check_strip budget budgets props fuel r E) as (c' & Ec' & _ & _ & _ & Eb & Ev' & Ef' & Ed & Ever').
  rewrite Ever in Ever'. destruct (is_nil (p_violations c')) eqn:N1; [|done].
  destruct (is_nil (Divergent r)) eqn:N2; [|done]. destruct (is_nil (p_bounds c')) eqn:N3; [|done].
  apply is_nil_nil in N1, N2, N3. rewrite N3 in Eb. rewrite N1 in Ev'.
  destruct (report_complete fuel r E Eb) as (c & Es & Ev & Ef & R & T & J & F & Ec). rewrite Ev' in Ev.
  assert (NV : forall v : pviolation Executor Node Error, v ∈ c.(p_violations) -> False) by (intros v; rewrite <- Ev; apply elem_of_nil).
  assert (HR : forall s x, reachable s -> terminal s = true -> x ∈ (spellFinalVariants s).1 ->
     exists g, g ∈ r.(Finals) /\ g.(fIdentity) = x.(sf_identity)).
  { intros s x Hs Ht Hx. destruct (F s Hs Ht x Hx) as (g & Hg & Eg). exists g. by rewrite Ef. }
  split.
  - intros w o Hw. destruct o as [s|e]; [exists s; split; [done|]|destruct (T e) as (v & Hv & _); [by exists w|by destruct (NV v)]].
    intros p Hp. specialize (J s p ltac:(by exists w) Hp). unfold judged in J.
    destruct (Holds p s) as [[|] [e|]]; try (destruct (Is e _); [by destruct J|]); try (destruct J as (v & Hv & _); by destruct (NV v)). done.
  - intros Hid s1 s2 x1 x2 n v1 v2 H1 H2 T1 T2 X1 X2 E1 E2.
    destruct (HR s1 x1 H1 T1 X1) as (g1 & G1 & I1). destruct (HR s2 x2 H2 T2 X2) as (g2 & G2 & I2).
    assert (Hg : forall g x s, g ∈ r.(Finals) -> x ∈ (spellFinalVariants s).1 -> g.(fIdentity) = x.(sf_identity) ->
       g.(fValues) = x.(sf_values)).
    { intros g x s Hg Hx Eg. rewrite Ef', merge_sort_Permutation in Hg.
      destruct (b_results _ _ _ (wf_base _ _ _ (pcheck_wf budget budgets props fuel c' Ec')) g Hg) as (s' & x' & _ & _ & Hx' & _ & -> & Eg').
      apply (Hid s' s x' x Hx' Hx). by rewrite <- Eg', Eg. }
    rewrite <- (Hg g1 x1 s1 G1 X1 I1) in E1. rewrite <- (Hg g2 x2 s2 G2 X2 I2) in E2.
    rewrite Ed in N2. by eapply (proj1 (divergences_nil (Finals r)) N2 g1 g2 n).
Qed.
End Complete.

Lemma Check_complete_witness :
  reports (Check (Inv := sample at_once fork_edges) unbounded unlimited [avoids 2] 9)
    (fun r => r.(RBoundsHit) = [] /\ exists X : gset nat, size X = 3 /\
       forall s, s ∈ X <-> reachable (Inv := sample at_once fork_edges) s).
Proof.
  destruct (reports_report (Check (Inv := sample at_once fork_edges) unbounded unlimited [avoids 2] 9)
    (fun r => r.(RBoundsHit) = [] /\ r.(RStates) = 3)) as (r & E & H1 & H2); [vm_compute; split_and!; reflexivity|].
  rewrite E. cbn [reports]. rewrite <- H2. split; [exact H1|].
  apply (Check_complete (Inv := sample at_once fork_edges) (Offering0 := sample_offering _ _ at_once_offers)
    unbounded unlimited [avoids 2] 9 r E H1).
Defined.

(** A search over a cycle that meets each state again, and is exhaustive. *)
Lemma Check_exhaustive_witness :
  reports (Check (Inv := sample at_once cycle_edges) unbounded unlimited [avoids 4] 30)
    (fun r => r.(Verdict) = CheckExhaustive /\
      (forall w o, scheduled (Inv := sample at_once cycle_edges) w o -> exists s, o = Settled s /\ s <> 4) /\
      forall s1 s2, reachable (Inv := sample at_once cycle_edges) s1 -> reachable (Inv := sample at_once cycle_edges) s2 ->
        terminal (Inv := sample at_once cycle_edges) s1 = true -> terminal (Inv := sample at_once cycle_edges) s2 = true ->
        decimal_text (Z.of_nat s1) = decimal_text (Z.of_nat s2)).
Proof.
  destruct (reports_report (Check (Inv := sample at_once cycle_edges) unbounded unlimited [avoids 4] 30)
    (fun r => r.(Verdict) = CheckExhaustive)) as (r & E & H); [vm_compute; reflexivity|].
  rewrite E. split; [done|].
  destruct (Check_exhaustive (Inv := sample at_once cycle_edges) (Offering0 := sample_offering _ _ at_once_offers)
    unbounded unlimited [avoids 4] 30 r E H) as [H1 H2]. split.
  - intros w o Hw. destruct (H1 w o Hw) as (s & Es & Hs). exists s. split; [done|]. intros ->.
    specialize (Hs (avoids 4) ltac:(left)). discriminate Hs.
  - intros s1 s2 R1 R2 T1 T2. eapply (H2 ltac:(cbn; intros ? ? ? ? ->%list_elem_of_singleton ->%list_elem_of_singleton; cbn; by intros ->)
      s1 s2 _ _ (bs "x") _ _ R1 R2 T1 T2); [cbn; left|cbn; left|cbn; apply lookup_insert_eq..].
Defined.
