(* ===== verification/CheckerTerminates.v ===== *)
(** * A check of finitely many states ends

    With finitely many reachable states the search ends whatever its bounds. A turn of
    the loop visits a new state, or reaches a visited one by a shorter schedule, or has
    less left to make on the stack: a lexicographic order on the three decreases. *)
From Stdlib Require Import Floats.SpecFloat Wellfounded.Lexicographic_Product Wellfounded.Inverse_Image Wellfounded.Inclusion Relations.Relation_Operators.
From stdpp Require Import gmap.
From S2P Require Import Prelude Bytes Integer Explore ExploreQueue Checker CheckerPlain CheckerStrip CheckerSpec.
From S2P Require Import CheckerSteps CheckerInvariant CheckerSample CheckerSound CheckerComplete.
Local Open Scope nat_scope.

Section Terminates.
Context {State Executor Node Error : Type}.
Context `{EqDecision State, !Countable State, EqDecision Executor, EqDecision Node}.
Context `{Inv : Invoked State Executor Node Error} `{!Offering Inv}.
Variables (budget : CheckBudget) (budgets : Budgets) (props : list (CheckProperty State Error)).
Implicit Types (s : State) (c : plain State Executor Node Error) (r : Snapshot State Executor Node)
  (f : pframe State Executor Node) (m : searchMove Executor Node).

(** The states a schedule reaches are among finitely many. *)
Variable U : gset State.
Hypothesis reachable_U : forall s, reachable s -> s ∈ U.

(** ** The measure *)

Definition unseen c : nat := size (U ∖ dom c.(p_visited)).
Definition depths c : nat := sum_list_with (fun s => default 0 (depth_at c s)) (elements U).
Definition move_work s m : nat := left_at (make s (unit_of m)) (picks_of m).
Definition moves_work s (l : list (searchMove Executor Node)) : nat := sum_list_with (move_work s) l.
Definition frame_work f : nat := S (moves_work (p_key f) (drop f.(p_next) f.(p_moves))).
Definition work c : nat := sum_list_with frame_work c.(p_stack).

Definition measure c : nat * (nat * nat) := (unseen c, (depths c, work c)).
Definition smaller (x y : nat * (nat * nat)) : Prop :=
  x.1 < y.1 \/ x.1 = y.1 /\ (x.2.1 < y.2.1 \/ x.2.1 = y.2.1 /\ x.2.2 < y.2.2).

Lemma smaller_wf : well_founded (fun c c' => smaller (measure c) (measure c')).
Proof.
  apply wf_inverse_image, (wf_incl _ _ (slexprod _ _ lt (slexprod _ _ lt lt))).
  - intros [a [b k]] [a' [b' k']]. unfold smaller. cbn.
    intros [?|[-> [?|[-> ?]]]]; [by apply left_slex|by apply right_slex, left_slex|by apply right_slex, right_slex].
  - apply wf_slexprod; [apply lt_wf|apply wf_slexprod; apply lt_wf].
Qed.

Lemma smaller_work c c' :
  (forall s, depth_at c' s = depth_at c s) -> work c' < work c -> smaller (measure c') (measure c).
Proof.
  intros D W. unfold measure.
  assert (E1 : unseen c' = unseen c).
  { unfold unseen. f_equal. apply set_eq. intros s. rewrite !elem_of_difference, !elem_of_dom.
    pose proof (D s) as Ds. unfold depth_at in Ds. by rewrite <- !(fmap_is_Some p_depth), Ds. }
  assert (E2 : depths c' = depths c).
  { unfold depths. induction (elements U) as [|s l IH]; [done|]. cbn. by rewrite IH, D. }
  unfold smaller. cbn. lia.
Qed.

Lemma sum_list_lt {A} (g h : A -> nat) l x :
  (forall y, y ∈ l -> g y <= h y) -> x ∈ l -> g x < h x -> sum_list_with g l < sum_list_with h l.
Proof.
  intros H Hx Hlt. induction l as [|y l IH]; [by apply elem_of_nil in Hx|]. cbn.
  assert (Hl : sum_list_with g l <= sum_list_with h l).
  { clear IH Hx. induction l as [|z l IH]; [done|]. cbn. pose proof (H z ltac:(set_solver)).
    specialize (IH ltac:(intros; apply H; set_solver)). lia. }
  apply elem_of_cons in Hx as [->|Hx]; [lia|]. pose proof (H y ltac:(left)).
  specialize (IH ltac:(intros; apply H; by right) Hx). lia.
Qed.

(** Reaching a state: new, at a smaller depth, or as it was. *)
Lemma smaller_reach c c' t d :
  t ∈ U -> (forall s, s <> t -> depth_at c' s = depth_at c s) -> depth_at c' t = Some d ->
  (depth_at c t = None \/ exists n, depth_at c t = Some n /\ d < n) -> smaller (measure c') (measure c).
Proof.
  intros Ht Dn Dt H. unfold measure.
  assert (Hdom : forall s, s ∈ dom c'.(p_visited) <-> s = t \/ s ∈ dom c.(p_visited)).
  { intros s. rewrite !elem_of_dom, <- !(fmap_is_Some p_depth). destruct (decide (s = t)) as [->|N].
    - split; [by left|]. intros _. unfold depth_at in Dt. by rewrite Dt.
    - pose proof (Dn s N) as E. unfold depth_at in E. rewrite E. tauto. }
  destruct H as [E|(n & E & Hlt)].
  - left. cbn. unfold unseen. apply subset_size. split; [set_solver|]. intros Hsub.
    assert (Hnot : t ∉ dom c.(p_visited)).
    { rewrite elem_of_dom, <- (fmap_is_Some p_depth). unfold depth_at in E. rewrite E. by intros [? ?]. }
    specialize (Hsub t). rewrite !elem_of_difference, Hdom in Hsub. tauto.
  - assert (E1 : unseen c' = unseen c).
    { unfold unseen. f_equal. apply set_eq. intros s. rewrite !elem_of_difference, Hdom.
      assert (t ∈ dom c.(p_visited)).
      { rewrite elem_of_dom, <- (fmap_is_Some p_depth). unfold depth_at in E. by rewrite E. }
      destruct (decide (s = t)) as [->|]; tauto. }
    right. split; [done|]. left. cbn. unfold depths. apply (sum_list_lt _ _ _ t); [|by apply elem_of_elements|].
    + intros s _. destruct (decide (s = t)) as [->|N]; [rewrite Dt, E; cbn; lia|by rewrite Dn].
    + by rewrite Dt, E.
Qed.

Lemma smaller_trans_work c c1 c' :
  (forall s, depth_at c1 s = depth_at c s) -> work c1 < work c ->
  (forall s, depth_at c' s = depth_at c1 s) /\ work c' <= work c1 \/ smaller (measure c') (measure c1) ->
  smaller (measure c') (measure c).
Proof.
  intros D W [[D' W']|H].
  - apply smaller_work; [intros s; by rewrite D', D|lia].
  - pose proof (smaller_work c c1 D W) as H1. unfold smaller, measure in *. cbn in *. lia.
Qed.

(** ** The work of the steps *)

Lemma work_touched c c' : touched c c' -> work c' = work c.
Proof.
  intros T. unfold work. induction (t_frames _ _ T) as [|f g l k (E1 & E2 & E3) F IH]; [done|]. cbn.
  rewrite IH. f_equal. unfold frame_work, p_key. by rewrite E1, E2, E3.
Qed.

Lemma legal_work s m : legal s m -> 1 <= move_work s m.
Proof.
  intros [[t E] _]. unfold move_work, left_at. rewrite E. apply leaves_pos. eapply sub_at_offers; [apply make_offers|exact E].
Qed.

(** The siblings revealed are one less to make than the move was. *)
Lemma sibling_work s m (refused : ending State Error) :
  legal s m ->
  move_work s m = S (moves_work s (map (with_picks m) (siblings [] (follow refused (make s (unit_of m)) (picks_of m)).1.2))).
Proof.
  intros [Hs _]. unfold move_work. rewrite (siblings_leaves refused) by (apply make_offers || done). f_equal.
  unfold moves_work. induction (siblings [] _) as [|x l IH]; [done|]. cbn. by rewrite IH.
Qed.

Lemma visits_depth r d c c' s : visits props r d c c' -> s <> r.(here) -> depth_at c' s = depth_at c s.
Proof. intros V N. rewrite !depth_at_marks. by rewrite (vi_marks _ _ _ _ _ V). Qed.

Lemma work_same_stack c c' : same_stack c c' -> work c' = work c.
Proof. intros (E & _). unfold work. by rewrite E. Qed.

(** A state visited: nothing changes, or a state is new or nearer. *)
Lemma reach_cases c c' t d :
  t ∈ U -> (forall s, s <> t -> depth_at c' s = depth_at c s) ->
  (depth_at c' t = depth_at c t \/ depth_at c t = None /\ depth_at c' t = Some d \/
   exists n, depth_at c t = Some n /\ depth_at c' t = Some (min d n)) ->
  (forall s, depth_at c' s = depth_at c s) \/ smaller (measure c') (measure c).
Proof.
  intros Ht D [E|[[E1 E2]|(n & E1 & E2)]].
  - left. intros s. by destruct (decide (s = t)) as [->|N]; [|apply D].
  - right. eapply smaller_reach; [done..|by left].
  - destruct (decide (n <= d)) as [Hn|Hn].
    + left. intros s. destruct (decide (s = t)) as [->|N]; [|auto]. rewrite E1, E2. f_equal. lia.
    + right. eapply smaller_reach; [done..|]. right. exists n. split; [done|lia].
Qed.

Lemma parrive_smaller r d vs sp c :
  wf budget props c -> found budget r d -> (forall n, n ∈ vs -> said c n) ->
  let c' := parrive budget props r d vs sp c in
  (forall s, depth_at c' s = depth_at c s) /\ work c' <= work c \/ smaller (measure c') (measure c).
Proof.
  intros W F Hvs c'. assert (Ht : here r ∈ U) by (eapply reachable_U, reachable_found, F).
  subst c'. destruct (terminal (here r)) eqn:Hterm.
  - unfold parrive. rewrite Hterm.
    destruct (pcomplete_spec budget props r d vs c) as (S & _ & _ & _ & _ & _ & _ & M & X); [done|apply W..|done|].
    destruct (reach_cases c (pcomplete budget props r d vs c) (here r) d) as [D|L]; [done| | |left|by right].
    + intros s N. by rewrite !depth_at_marks, M.
    + destruct X as [[_ X]|(_ & [(X1 & _ & X2 & _)|X] & _)]; [left; unfold depth_at; by rewrite X|right; left|by right; right].
      split; [unfold depth_at; by rewrite X1|done].
    + split; [done|]. by rewrite (work_same_stack _ _ S).
  - destruct (parrive_enters budget props r d vs sp c W F Hvs Hterm) as (c1 & child & c3 & V & X & T & -> & _).
    assert (D3 : forall s, s <> here r -> depth_at c3 s = depth_at c s).
    { intros s N. rewrite (t_depth _ _ T). by eapply visits_depth. }
    destruct child as [g|].
    + right. destruct X as (l & _ & _ & E & X & _). eapply (smaller_reach _ _ (here r) d); [done|done| |].
      * change (depth_at c3 (here r) = Some d). by rewrite (t_depth _ _ T).
      * destruct X as [(X & _)|(n & X1 & X2 & _)]; [left; unfold depth_at; by rewrite X|right; by exists n].
    + destruct (reach_cases c c3 (here r) d) as [D|L]; [done|done| |left|by right].
      * destruct X as [(X1 & X2 & _)|(n & X1 & X2 & _)]; [left|right; right; exists n; by rewrite (t_depth _ _ T)].
        rewrite (t_depth _ _ T). unfold depth_at. by rewrite X1.
      * split; [done|]. rewrite (work_touched _ _ T). by rewrite (work_same_stack _ _ (vi_stack _ _ _ _ _ V)).
Qed.

Lemma touched_phit b c : touched c (phit b c).
Proof.
  split; [|intros s; unfold depth_at; by rewrite phit_visited|apply grows_phit].
  destruct (same_stack_phit b c) as [-> _]. induction (p_stack c); constructor; done.
Qed.

Lemma touched_smaller c c' : touched c c' -> (forall s, depth_at c' s = depth_at c s) /\ work c' <= work c.
Proof. intros T. split; [apply T|]. by rewrite (work_touched _ _ T). Qed.

Lemma ptake_smaller f m c l c' :
  c.(p_stack) = f :: l -> legal (p_key f) m -> wf budget props c -> ptake budget budgets props f m c = (c', None) ->
  exists c1, (forall s, depth_at c1 s = depth_at c s) /\ work c1 < work c + move_work (p_key f) m /\
    ((forall s, depth_at c' s = depth_at c1 s) /\ work c' <= work c1 \/ smaller (measure c') (measure c1)).
Proof.
  intros Es Hm W. pose proof (wf_frames _ _ _ W) as Hf. rewrite Es in Hf. apply Forall_cons_1 in Hf as [Hf _].
  pose proof (legal_work _ _ Hm) as Hpos.
  assert (Hbound : forall b, exists c1, (forall s, depth_at c1 s = depth_at c s) /\ work c1 < work c + move_work (p_key f) m /\
    ((forall s, depth_at (pcut_top (phit b c)) s = depth_at c1 s) /\ work (pcut_top (phit b c)) <= work c1 \/
     smaller (measure (pcut_top (phit b c))) (measure c1))).
  { intros b. exists c. split_and!; [done|lia|left]. apply touched_smaller. etrans; [apply touched_phit|apply touched_pcut_top]. }
  destruct (fo_found _ _ _ Hf) as [Fs Fl]. unfold ptake. destruct (_ && _) eqn:Eb; [by intros [= <-]|]. apply depth_open in Eb.
  destruct (spend _ _ _) as [[sp b] [|]]; [by intros [= <-]|].
  pose proof (longer_scheduled _ _ _ (Raised refusal) Fs Hm) as Hs. fold (p_key f) in Hs.
  pose proof (preveal_ok _ c f m (Raised refusal) Hf Hm) as Hr.
  pose proof (sibling_work _ _ (Raised refusal) Hm) as Hw.
  destruct (follow _ _ _) as [[o drawn] faced]. cbn [fst snd] in *.
  set (c1 := on_ptop (preveal m drawn) _).
  assert (E1 : p_visited c1 = p_visited c /\ p_stack c1 = preveal m drawn f :: l /\ grows c c1).
  { split_and!; [..|subst c1; etrans; [apply (grows_set_counts c)|apply grows_on_ptop]]; subst c1; unfold on_ptop; cbn [p_stack set_counts];
      by rewrite Es. }
  destruct E1 as (E1 & E2 & G1).
  assert (W1 : wf budget props c1).
  { subst c1. unfold on_ptop. cbn. rewrite Es. destruct W as [B F D]. constructor; [by eapply base_same; [..|exact B]| |cbn; lia].
    cbn. rewrite Es in F. apply Forall_cons_1 in F as [_ F].
    constructor; [apply (frame_ok_grows _ c); [by apply grows_same|done]|]. apply (frames_grow _ c); [by apply grows_same|done]. }
  assert (L1 : work c1 < work c + move_work (p_key f) m).
  { unfold work. rewrite E2, Es. cbn [sum_list_with]. unfold frame_work, preveal.
    destruct (revealed_cases m drawn (p_all f) (p_moves f) (p_next f)) as [i ->].
    cbn [frame_with p_moves p_next fst snd p_key p_snap]. rewrite drop_insert_at by apply Hf.
    unfold moves_work in *. rewrite sum_list_with_app. change (p_key (frame_with f _ _ _ _ _)) with (p_key f). lia. }
  intros Ec. exists c1. split_and!; [intros s; unfold depth_at; by rewrite E1|done|].
  destruct o as [t|e].
  - injection Ec as <-. apply parrive_smaller; [done|split; [done|by apply longer_long]|].
    intros n Hn. apply G1. by apply (fo_said _ _ _ Hf).
  - left. unfold pfailed in Ec. destruct (boundOf e); [injection Ec as <-; apply touched_smaller, touched_phit|].
    destruct (Is e ErrCheckRefused); [done|]. injection Ec as <-.
    split; [intros s; unfold depth_at; by rewrite (proj1 (pviolate_fields _ _))|].
    rewrite (work_same_stack c1); [done|apply same_stack_pviolate].
Qed.

Lemma pstep_smaller c c' :
  wf budget props c -> c.(p_stack) <> [] -> pstep budget budgets props c = (c', None) -> smaller (measure c') (measure c).
Proof.
  intros W Hne. unfold pstep. pose proof (wf_frames _ _ _ W) as F. destruct c.(p_stack) as [|f l] eqn:Es; [done|].
  apply Forall_cons_1 in F as [Hf F]. destruct (p_moves f !! p_next f) as [m|] eqn:Em.
  - assert (Hn : S (p_next f) <= length (p_moves f)) by (apply lookup_lt_Some in Em; lia).
    set (f' := frame_with f _ _ _ _ _). set (c0 := on_pseen _ _ _).
    assert (W0 : wf budget props c0).
    { apply wf_on_pseen; [intros x; cbn; set_solver|]. constructor; [by eapply base_same; [..|apply W]| |apply W].
      constructor; [|by apply (frames_grow _ c); [apply grows_set_stack|]].
      apply (frame_ok_grows _ c); [apply grows_set_stack|by apply frame_ok_next]. }
    assert (D0 : forall s, depth_at c0 s = depth_at c s).
    { apply (touched_on_pseen _ _ (set_stack c (p_onStack c) (f' :: l))). done. }
    assert (Wk : work c = work c0 + move_work (p_key f) m).
    { unfold work. rewrite Es. cbn [sum_list_with p_stack c0 on_pseen set_visited set_stack].
      unfold frame_work. rewrite (drop_S _ _ _ Em). cbn. unfold moves_work, p_key. cbn. lia. }
    intros E. destruct (ptake_smaller f' m c0 l c' eq_refl) as (c1 & D1 & L1 & H); [|done|done|].
    { apply (fo_moves _ _ _ Hf). by eapply list_elem_of_lookup_2. }
    apply (smaller_trans_work c c1); [intros s; by rewrite D1|rewrite Wk; exact L1|done].
  - intros [= <-]. unfold ppop. set (c0 := set_stack c _ l).
    assert (T : touched c0 (if p_fcut f then pcut_top c0 else c0)) by (destruct (p_fcut f); [apply touched_pcut_top|done]).
    apply smaller_work; [apply T|]. rewrite (work_touched _ _ T). unfold work. rewrite Es. cbn. lia.
Qed.

(** ** The errors that end a check *)

(** The invocation is not set up, or a move is refused. *)
Definition stops (e : Error) : Prop :=
  (exists ps, takes begin ps (NotSetUp e)) \/ (raised e /\ Is e ErrCheckRefused = true).

Lemma pfailed_stops e w d c c' e' :
  scheduled w (Raised e) -> pfailed e w d c = (c', Some e') -> stops e'.
Proof.
  intros Hw. unfold pfailed. destruct (boundOf e); [done|]. destruct (Is e ErrCheckRefused) eqn:E; [|done].
  intros [= _ <-]. right. split; [by exists w|done].
Qed.

Lemma pstep_stops c c' e : wf budget props c -> pstep budget budgets props c = (c', Some e) -> stops e.
Proof.
  intros W. unfold pstep. pose proof (wf_frames _ _ _ W) as F. destruct c.(p_stack) as [|f l] eqn:Es; [done|].
  apply Forall_cons_1 in F as [Hf F]. destruct (p_moves f !! p_next f) as [m|] eqn:Em; [|done].
  assert (Hm : legal (p_key f) m) by (apply (fo_moves _ _ _ Hf); by eapply list_elem_of_lookup_2).
  unfold ptake. destruct (_ && _); [done|]. destruct (spend _ _ _) as [[sp b] [|]]; [done|].
  destruct (fo_found _ _ _ Hf) as [Fs _].
  pose proof (longer_scheduled _ _ _ (Raised refusal) Fs Hm) as Hs. fold (p_key f) in Hs. change (p_key (frame_with f _ _ _ _ _)) with (p_key f).
  destruct (follow _ _ _) as [[o drawn] faced]. cbn [fst snd] in Hs.
  destruct o as [t|e0]; [done|]. by apply pfailed_stops.
Qed.

(** ** The loops end *)

Lemma ploop_ends c :
  wf budget props c -> exists n res, (forall e, res.2 = Some e -> stops e) /\
    forall fuel, n <= fuel -> ploop budget budgets props fuel c = Some res.
Proof.
  induction c as [c IH] using (well_founded_induction smaller_wf). intros W.
  destruct (p_stack c) as [|f l] eqn:Es.
  - exists 0, (c, None). split; [done|]. intros fuel _. destruct fuel; cbn; by rewrite Es.
  - destruct (pstep budget budgets props c) as [c' [e|]] eqn:E.
    + exists 1, (set_stack c' (p_onStack c') [], Some e). split; [intros e0 [= <-]; by eapply pstep_stops|].
      intros [|fuel] H; [lia|]. cbn. by rewrite Es, E.
    + destruct (IH c') as (n & res & Hres & Hn); [apply pstep_smaller; [done|by rewrite Es|done]|by eapply wf_pstep|].
      exists (S n), res. split; [done|]. intros [|fuel] H; [lia|]. cbn. rewrite Es, E. apply Hn. lia.
Qed.

Lemma pfrom_ends picks starts c :
  starting budget props (picks :: starts) c ->
  exists n res, (forall e, res.1.2 = Some e -> stops e) /\
    forall fuel, n <= fuel -> pfrom budget budgets props fuel picks c = Some res.
Proof.
  intros (W & Es & L). inversion L as [|? ? Lp Ls]; subst.
  pose proof (follow_takes (NotSetUp refusal) begin picks begin_offers Lp) as Ht. unfold pfrom.
  destruct (follow _ begin picks) as [[b drawn] faced]. cbn [fst snd] in Ht. destruct b as [e|e|o].
  - eexists 0, _. split; [|done]. intros e0 [= <-]. left. by exists picks.
  - eexists 0, _. split; [|done]. done.
  - destruct (pstart budget props o picks c) as [c1 [e|]] eqn:E1.
    + eexists 0, _. split; [|done]. intros e0 [= <-]. destruct o as [s|e1].
      * unfold pstart in E1. destruct (terminal s); [done|]. by destruct (penter _ _ _ _ _ _) as [? [?|]].
      * eapply pfailed_stops; [by apply scheduled_start|exact E1].
    + destruct (ploop_ends c1) as (n & [c2 oe] & Hres & Hn); [by eapply wf_pstart|].
      exists n, (match oe with Some e => (c2, Some e, []) | None => (c2, None, siblings picks drawn) end).
      split; [destruct oe; cbn; [|done]; intros e0 [= <-]; by apply Hres|].
      intros fuel Hf. rewrite Hn by done. by destruct oe.
Qed.

Definition start_work (picks : list nat) : nat := left_at (begin : choices (beginning State Error)) picks.

Lemma pcheck_ends starts c :
  starting budget props starts c ->
  exists n res, (forall e, res.2 = Some e -> stops e) /\
    forall fuel k, n <= fuel -> n <= k -> pcheck_loop budget budgets props fuel k starts c = Some res.
Proof.
  remember (sum_list_with start_work starts) as w eqn:Ew. revert starts c Ew.
  induction w as [w IH] using lt_wf_ind. intros [|picks starts] c -> H.
  - exists 0, (c, None). split; [done|]. intros fuel [|k] _ _; done.
  - destruct (pfrom_ends _ _ _ H) as (n & [[c1 oe] more] & Hres & Hn). destruct oe as [e|].
    + exists (S n), (c1, Some e). split; [intros e0 [= <-]; by apply Hres|]. intros fuel [|k] Hf Hk; [lia|].
      cbn [pcheck_loop]. by rewrite Hn by lia.
    + pose proof (starting_pfrom budget budgets props n picks starts c c1 more H (Hn n ltac:(lia))) as H1.
      destruct (pfrom_inv _ _ _ _ _ _ _ _ (Hn n ltac:(lia))) as [-> _].
      destruct H as (_ & _ & L). inversion L as [|? ? Lp Ls]; subst.
      pose proof (siblings_leaves (NotSetUp refusal) _ _ begin_offers Lp) as Hw.
      destruct (IH (sum_list_with start_work (starts ++ siblings picks (follow (NotSetUp refusal) begin picks).1.2)))
        with (starts := starts ++ siblings picks (follow (NotSetUp refusal) begin picks).1.2) (c := c1) as (n1 & res & Hres1 & Hn1);
        [|done|done|].
      { rewrite sum_list_with_app. cbn [sum_list_with]. unfold start_work at 3. rewrite Hw, siblings_prefix.
        enough (E : sum_list_with start_work (map (app picks) (siblings [] (follow (NotSetUp refusal) begin picks).1.2))
          = sum_list (map (fun x => left_at (begin : choices (beginning State Error)) (picks ++ x)) (siblings [] (follow (NotSetUp refusal) begin picks).1.2)))
          by (rewrite E; lia).
        clear. induction (siblings [] _) as [|x l IHl]; [done|]. cbn. by rewrite IHl. }
      exists (S (max n n1)), res. split; [done|]. intros fuel [|k] Hf Hk; [lia|]. cbn [pcheck_loop].
      rewrite Hn by lia. apply Hn1; lia.
Qed.

(** C10: with finitely many reachable states a check ends, cycles and bounds or not:
    enough fuel gives an outcome, and more fuel the same one. It is a report unless the
    invocation cannot be set up or some schedule raises the error of a refused move; the
    moves the search selects itself are never refused. *)
Theorem Check_terminates :
  exists n res, (forall fuel, n <= fuel -> Check budget budgets props fuel = Some res) /\
    match res with
    | inl _ => True
    | inr e => (exists ps, takes begin ps (NotSetUp e)) \/ (raised e /\ Is e ErrCheckRefused = true)
    end.
Proof.
  destruct (pcheck_ends [[]] new_plain) as (n & [c oe] & Hres & Hn).
  { split_and!; [apply wf_new|done|]. constructor; [|constructor]. unfold start_legal. by rewrite sub_at_nil. }
  pose proof (fun fuel => strip_check_loop budget budgets props fuel fuel [[]] new_checker) as E.
  assert (E0 : @strip State Executor Node Error _ _ new_checker = new_plain).
  { unfold strip, new_plain. cbn. by rewrite fmap_empty. }
  rewrite E0 in E.
  destruct (check_loop budget budgets props n n [[]] new_checker) as [[c0 oe0]|] eqn:E1;
    [|specialize (E n); rewrite E1, (Hn n n) in E by lia; done].
  assert (Eo : oe0 = oe) by (specialize (E n); rewrite E1, (Hn n n) in E by lia; by injection E).
  subst oe0. exists n, (match oe with Some e => inr e | None => inl (result c0) end). split.
  - intros fuel Hf. unfold Check. rewrite (check_loop_more budget budgets props n fuel n fuel _ _ _ E1) by done. by destruct oe.
  - destruct oe as [e|]; [|done]. by apply (Hres e).
Qed.
End Terminates.

Lemma Check_terminates_witness :
  exists n r, forall fuel, n <= fuel ->
    Check (Inv := sample at_once cycle_edges) unbounded unlimited [avoids 4] fuel = Some (inl r) /\ r.(RStates) = 4.
Proof.
  destruct (Check_terminates (Inv := sample at_once cycle_edges) (Offering0 := sample_offering _ _ at_once_offers)
    unbounded unlimited [avoids 4] (list_to_set [0; 1; 2; 3])) as (n & res & Hn & _).
  - intros s. apply sample_within; [vm_compute; reflexivity|]. intros t l Ht Hl.
    apply elem_of_list_to_set in Ht. repeat (apply elem_of_cons in Ht as [->|Ht]; [|]); [..|by apply elem_of_nil in Ht];
      cbn in Hl; repeat (apply elem_of_cons in Hl as [->|Hl]; [|]); try (by apply elem_of_nil in Hl); (split; [done|]);
      intros u Hu; repeat (apply elem_of_cons in Hu as [Hu|Hu]; [injection Hu as ->; vm_compute; reflexivity|]); by apply elem_of_nil in Hu.
  - destruct (reports_report (Check (Inv := sample at_once cycle_edges) unbounded unlimited [avoids 4] 30)
      (fun r => r.(RStates) = 4)) as (r & E & Hr); [vm_compute; reflexivity|].
    exists (max n 30), r. intros fuel Hf. split; [|done].
    assert (E30 : Check (Inv := sample at_once cycle_edges) unbounded unlimited [avoids 4] (max n 30) = Some (inl r)).
    { apply (Check_more (Inv := sample at_once cycle_edges) _ _ _ 30); [exact E|lia]. }
    rewrite (Hn (max n 30) ltac:(lia)) in E30. rewrite (Hn fuel ltac:(lia)). exact E30.
Defined.
