(* ===== verification/CheckerBounds.v ===== *)
(** * A bound that is not hit does not steer the search

    Bounds are only ever added to those a search hit. A search that hit neither the bound
    on states nor a budget of an executor is the search without them ([spared_loop]): what
    holds of a check without those bounds holds of every check that stayed below them. *)
From stdpp Require Import gmap.
From S2P Require Import Prelude Bytes Explore Checker CheckerPlain CheckerSpec CheckerSteps.
Local Open Scope nat_scope.

(** The bounds whose search is the one without them, unless they are hit. *)
Definition counted : list bytes := [bs "states"; BoundActionSteps; BoundEvents; BoundDoSteps].
Definition uncounted : Budgets := {| MaxActionSteps := 0; MaxStateEvents := 0; MaxDoSteps := 0 |}.
Definition depth_only (budget : CheckBudget) : CheckBudget := {| Depth := budget.(Depth); States := 0 |}.

Lemma spend_counted sp k budgets : (spend sp k budgets).1.2 ∈ counted.
Proof. unfold counted. destruct k; cbn [spend fst snd]; set_solver. Qed.

Lemma spend_uncounted sp k budgets :
  spend sp k uncounted = ((spend sp k budgets).1.1, (spend sp k budgets).1.2, false).
Proof. by destruct k. Qed.

Section Bounds.
Context {State Executor Node Error : Type}.
Context `{EqDecision State, !Countable State, EqDecision Executor, EqDecision Node}.
Context `{Inv : Invoked State Executor Node Error}.
Variables (budget : CheckBudget) (budgets : Budgets) (props : list (CheckProperty State Error)).
Implicit Types (s : State) (c : plain State Executor Node Error) (r : Snapshot State Executor Node)
  (f : pframe State Executor Node) (m : searchMove Executor Node).

Local Abbreviation Plain := (plain State Executor Node Error).
Local Abbreviation open := (depth_only budget).

(** No counted bound was hit. *)
Definition spared c : Prop := forall b, b ∈ c.(p_bounds) -> b ∉ counted.

(** [c'] has the bounds hit that [c] has. *)
Definition widens c c' : Prop := c.(p_bounds) ⊆ c'.(p_bounds).
#[local] Instance widens_preorder : PreOrder widens.
Proof. split; [by intros c b|intros c1 c2 c3 H1 H2 b Hb; by apply H2, H1]. Qed.

Lemma spared_back c c' : widens c c' -> spared c' -> spared c.
Proof. intros W S b Hb. by apply S, W. Qed.

Lemma widens_same c c' : c'.(p_bounds) = c.(p_bounds) -> widens c c'.
Proof. intros E. unfold widens. by rewrite E. Qed.

Lemma phit_said b c : b ∈ (phit b c).(p_bounds).
Proof. unfold phit. case_bool_decide; [done|]. cbn. apply elem_of_app. right. left. Qed.

Lemma widens_phit b c : widens c (phit b c).
Proof. unfold phit. case_bool_decide; [done|]. intros x Hx. cbn. apply elem_of_app. by left. Qed.

Lemma widens_pviolate v c : widens c (pviolate v c).
Proof.
  apply widens_same. unfold pviolate. destruct (if bool_decide _ then _ else _) as [i|]; [|done].
  destruct (p_violations c !! i); [|done]. by destruct (_ <? _).
Qed.

Lemma widens_on_ptop g c : widens c (on_ptop g c).
Proof. apply widens_same. unfold on_ptop. by destruct (p_stack c). Qed.

Lemma widens_pcut_top c : widens c (pcut_top c).
Proof.
  unfold pcut_top. destruct (p_stack c); [done|].
  apply (widens_same c), (eq_trans (y := (on_ptop (fun f => frame_with f f.(p_all) f.(p_moves) f.(p_next) f.(p_full) true) c).(p_bounds))); [done|].
  unfold on_ptop. by destruct (p_stack c).
Qed.

(** A hit on a counted bound is no hit of a search spared. *)
Lemma hit_counted b c c' : b ∈ counted -> widens (phit b c) c' -> ~ spared c'.
Proof. intros Hb W S. exact (S b (W b (phit_said b c)) Hb). Qed.

Lemma widens_fold {A} (g : Plain -> A -> Plain) l c : (forall c x, widens c (g c x)) -> widens c (fold_left g l c).
Proof. intros Hg. revert c. induction l as [|x l IH]; intros c; [done|]. cbn. etrans; [apply Hg|apply IH]. Qed.

Lemma widens_pproperty r d vs c p : widens c (pproperty r d vs c p).
Proof.
  unfold pproperty. destruct (Holds p (here r)) as [holds err].
  set (early := match err with Some e => Is e errStatementOrderSweepLimit | None => false end).
  set (c1 := if early then _ else c).
  assert (W : widens c c1) by (unfold c1; destruct early; [apply widens_phit|done]).
  etrans; [exact W|]. destruct (if early then None else err); [apply widens_pviolate|]. destruct holds; [done|].
  destruct (bool_decide _); [by apply widens_same|]. etrans; [|apply widens_pviolate]. by apply widens_same.
Qed.

Lemma widens_pfinal r c : widens c (pfinal r c).
Proof.
  unfold pfinal. destruct (spellFinalVariants (here r)) as [fs early].
  etrans; [|apply widens_fold]; [by destruct early; [apply widens_phit|]|].
  intros c' x. apply widens_same. unfold pfinal_one. by destruct (_ !! _).
Qed.

Lemma widens_pvisit b r d vs c : widens c (pvisit b props r d vs c).1.
Proof.
  unfold pvisit. destruct (p_visited c !! here r) as [x|]; [destruct (d <? _); by apply widens_same|].
  destruct (_ && _); [apply widens_phit|]. cbn [fst]. unfold pproperties.
  etrans; [|apply widens_fold, widens_pproperty]. by apply widens_same.
Qed.

Lemma widens_pcomplete b r d vs c : widens c (pcomplete b props r d vs c).
Proof.
  pose proof (widens_pvisit b r d vs c) as W. unfold pcomplete. destruct (pvisit b props r d vs c) as [c1 [x|]]; [|done].
  etrans; [exact W|apply widens_pfinal].
Qed.

Lemma widens_penter b r d vs c : widens c (penter b props r d vs c).1.
Proof.
  pose proof (widens_pvisit b r d vs c) as W. unfold penter. destruct (pvisit b props r d vs c) as [c1 [x|]]; [|done].
  cbn [fst] in W. destruct (p_visited c1 !! here r) as [y|]; [|done]. destruct (_ && _); [done|]. etrans; [exact W|]. by apply widens_same.
Qed.

(** What follows the entry into a state. *)
Definition entered r (sp : spending) (x : Plain * option (pframe State Executor Node)) : Plain :=
  let '(c, child) := x in
  let c := match c.(p_visited) !! r.(here) with Some seen => if seen.(p_cut) then pcut_top c else c | None => c end in
  let c := if 0 <? default 0 (c.(p_onStack) !! r.(here)) then on_ptop pexpand c else c in
  match child with
  | Some g => ppush {| p_snap := g.(p_snap); p_d := g.(p_d); p_spent := sp; p_all := g.(p_all);
                       p_moves := g.(p_moves); p_next := g.(p_next); p_full := g.(p_full);
                       p_fcut := g.(p_fcut); p_fviolated := g.(p_fviolated) |} c
  | None => c
  end.

Lemma parrive_entered b r d vs sp c :
  parrive b props r d vs sp c =
    if terminal r.(here) then pcomplete b props r d vs c else entered r sp (penter b props r d vs c).
Proof. done. Qed.

Lemma widens_entered r sp x : widens x.1 (entered r sp x).
Proof.
  destruct x as [c child]. cbn [fst]. unfold entered.
  set (c1 := match p_visited c !! here r with Some _ => _ | None => c end).
  assert (W1 : widens c c1) by (unfold c1; destruct (p_visited c !! here r) as [y|]; [destruct (p_cut y); [apply widens_pcut_top|done]|done]).
  set (again := 0 <? _). set (c2 := if again then on_ptop pexpand c1 else c1).
  assert (W2 : widens c1 c2) by (unfold c2; destruct again; [apply widens_on_ptop|done]).
  etrans; [exact W1|]. etrans; [exact W2|]. destruct child; by apply widens_same.
Qed.

Lemma widens_parrive b r d vs sp c : widens c (parrive b props r d vs sp c).
Proof.
  rewrite parrive_entered. destruct (terminal (here r)); [apply widens_pcomplete|].
  etrans; [apply widens_penter|apply widens_entered].
Qed.

Lemma widens_pfailed e w d c : widens c (pfailed e w d c).1.
Proof. unfold pfailed. destruct (boundOf e); [apply widens_phit|]. destruct (Is e ErrCheckRefused); [done|apply widens_pviolate]. Qed.

(** ** The same search *)

Lemma spared_pvisit r d vs c :
  spared (pvisit budget props r d vs c).1 -> pvisit open props r d vs c = pvisit budget props r d vs c.
Proof.
  unfold pvisit. destruct (p_visited c !! here r); [done|].
  destruct ((0 <? States budget) && (States budget <=? size (p_visited c))) eqn:E; [|done].
  intros S. by destruct (hit_counted (bs "states") c _ ltac:(left) (reflexivity _) S).
Qed.

Lemma spared_pcomplete r d vs c :
  spared (pcomplete budget props r d vs c) -> pcomplete open props r d vs c = pcomplete budget props r d vs c.
Proof.
  intros S. unfold pcomplete. rewrite spared_pvisit; [done|]. eapply spared_back, S. unfold pcomplete.
  destruct (pvisit budget props r d vs c) as [c1 [x|]]; [apply widens_pfinal|done].
Qed.

Lemma spared_penter r d vs c :
  spared (penter budget props r d vs c).1 -> penter open props r d vs c = penter budget props r d vs c.
Proof.
  intros S. unfold penter. rewrite spared_pvisit; [done|]. eapply spared_back, S. unfold penter.
  destruct (pvisit budget props r d vs c) as [c1 [x|]]; [|done]. cbn [fst].
  destruct (p_visited c1 !! here r); [|done]. destruct (_ && _); by apply widens_same.
Qed.

Lemma spared_parrive r d vs sp c :
  spared (parrive budget props r d vs sp c) -> parrive open props r d vs sp c = parrive budget props r d vs sp c.
Proof.
  rewrite !parrive_entered. destruct (terminal (here r)); [apply spared_pcomplete|].
  intros S. rewrite spared_penter; [done|]. eapply spared_back, S. apply widens_entered.
Qed.

Lemma ptake_spared f m c :
  widens c (ptake budget budgets props f m c).1 /\
  (spared (ptake budget budgets props f m c).1 -> ptake open uncounted props f m c = ptake budget budgets props f m c).
Proof.
  unfold ptake. cbn [depth_only Depth]. rewrite (spend_uncounted _ _ budgets).
  destruct (_ && _); [by split; [etrans; [apply widens_phit|apply widens_pcut_top]|]|].
  pose proof (spend_counted (p_spent f) (MKind (unit_of m)) budgets) as Hb.
  destruct (spend (p_spent f) (MKind (unit_of m)) budgets) as [[sp bound] [|]]; cbn [fst snd] in Hb |- *.
  { split; [etrans; [apply widens_phit|apply widens_pcut_top]|]. intros S. destruct (hit_counted bound c _ Hb (widens_pcut_top _) S). }
  destruct (follow _ _ _) as [[o drawn] faced]. set (c1 := on_ptop _ _).
  assert (W1 : widens c c1) by (unfold c1; etrans; [|apply widens_on_ptop]; by apply widens_same).
  destruct o as [t|e]; cbn [fst].
  - split; [etrans; [exact W1|apply widens_parrive]|]. intros S. by rewrite spared_parrive.
  - split; [etrans; [exact W1|apply widens_pfailed]|done].
Qed.

Lemma pstep_spared c :
  widens c (pstep budget budgets props c).1 /\
  (spared (pstep budget budgets props c).1 -> pstep open uncounted props c = pstep budget budgets props c).
Proof.
  unfold pstep. destruct (p_stack c) as [|f l]; [done|]. destruct (p_moves f !! p_next f) as [m|].
  - set (c0 := on_pseen _ _ _). assert (W0 : widens c c0) by by apply widens_same. destruct (ptake_spared (frame_with f (p_all f) (p_moves f) (S (p_next f)) (p_full f) (p_fcut f)) m c0) as [W S].
    split; [by etrans|exact S].
  - split; [|done]. cbn [fst]. unfold ppop. destruct (p_fcut f); [|by apply widens_same]. etrans; [|apply widens_pcut_top]. by apply widens_same.
Qed.

Lemma spared_ploop fuel c c' :
  ploop budget budgets props fuel c = Some (c', None) ->
  widens c c' /\ (spared c' -> ploop open uncounted props fuel c = Some (c', None)).
Proof.
  revert c. induction fuel as [|fuel IH]; intros c; cbn [ploop]; (destruct (p_stack c) as [|f l] eqn:Es; [by intros [= ->]|]); [done|].
  destruct (pstep_spared c) as [W S]. destruct (pstep budget budgets props c) as [c1 [e|]] eqn:E1; [done|].
  intros E. destruct (IH c1 E) as [W1 S1]. split; [etrans; [exact W|exact W1]|].
  intros Sp. rewrite S; [by apply S1|]. by eapply spared_back.
Qed.

Lemma pstart_spared o picks c :
  widens c (pstart budget props o picks c).1 /\
  (spared (pstart budget props o picks c).1 -> pstart open props o picks c = pstart budget props o picks c).
Proof.
  unfold pstart. destruct o as [s|e]; [|split; [apply widens_pfailed|done]].
  set (r := {| here := s; via := _ |}). destruct (terminal s).
  - split; [apply widens_pcomplete|]. cbn [fst]. intros S. by rewrite spared_pcomplete.
  - pose proof (widens_penter budget r 0 [] c) as W.
    assert (H : spared (penter budget props r 0 [] c).1 -> penter open props r 0 [] c = penter budget props r 0 [] c) by apply spared_penter.
    destruct (penter budget props r 0 [] c) as [c1 [f|]]; cbn [fst] in *; (split; [exact W|]); intros S; by rewrite H.
Qed.

Lemma spared_pfrom fuel picks c c' more :
  pfrom budget budgets props fuel picks c = Some (c', None, more) ->
  widens c c' /\ (spared c' -> pfrom open uncounted props fuel picks c = Some (c', None, more)).
Proof.
  unfold pfrom. destruct (follow (NotSetUp refusal) begin picks) as [[o drawn] faced].
  destruct o as [e|e|o]; [done|by intros [= <- <-]; split; [apply widens_pviolate|]|].
  destruct (pstart_spared o picks c) as [W S]. destruct (pstart budget props o picks c) as [c1 [e|]]; [done|].
  destruct (ploop budget budgets props fuel c1) as [[c2 [e|]]|] eqn:E; [done| |done].
  intros [= -> <-]. destruct (spared_ploop _ _ _ E) as [W1 S1]. split; [etrans; [exact W|exact W1]|].
  intros Sp. rewrite S by (by eapply spared_back). by rewrite S1.
Qed.

(** A check that hit no counted bound is the one without those bounds. *)
Lemma spared_loop fuel n starts c c' :
  pcheck_loop budget budgets props fuel n starts c = Some (c', None) ->
  widens c c' /\ (spared c' -> pcheck_loop open uncounted props fuel n starts c = Some (c', None)).
Proof.
  revert starts c. induction n as [|n IH]; intros [|picks starts] c; cbn [pcheck_loop]; [by intros [= ->]|done|by intros [= ->]|].
  destruct (pfrom budget budgets props fuel picks c) as [[[c1 [e|]] more]|] eqn:E; [done| |done].
  intros E1. destruct (spared_pfrom _ _ _ _ _ E) as [W S]. destruct (IH _ _ E1) as [W1 S1].
  split; [etrans; [exact W|exact W1]|]. intros Sp. rewrite S by (by eapply spared_back). by apply S1.
Qed.
End Bounds.
