(* ===== verification/CheckerAcyclic.v ===== *)
(** * What the depth bound leaves, where no schedule meets a state again

    Where no move leads back to a state ([rank] falls with every move) a check with a
    depth bound finds all that the schedules within the bound reach: a state the bound
    cut is searched again when a shorter schedule reaches it. The search is first that of
    the depth bound alone ([acyclic_depth]), which by [CheckerBounds] is the search of
    every check that hit no other bound. [CheckerSample] shows that this fails with a cycle. *)
From Stdlib Require Import Floats.SpecFloat.
From stdpp Require Import gmap.
From S2P Require Import Prelude Bytes Integer Explore ExploreQueue Checker CheckerPlain CheckerStrip CheckerSpec.
From S2P Require Import CheckerSteps CheckerInvariant CheckerSample CheckerSound CheckerComplete CheckerTerminates CheckerBounds.
Local Open Scope nat_scope.

Section Acyclic.
Context {State Executor Node Error : Type}.
Context `{EqDecision State, !Countable State, EqDecision Executor, EqDecision Node}.
Context `{Inv : Invoked State Executor Node Error} `{!Offering Inv}.
Variables (budget : CheckBudget) (budgets : Budgets) (props : list (CheckProperty State Error)).
Implicit Types (s t : State) (c : plain State Executor Node Error) (r : Snapshot State Executor Node)
  (f g : pframe State Executor Node) (m : searchMove Executor Node) (a : enabledMove Executor Node) (e : Error).

(** Every move leads to a state of lower rank; only the depth bounds the search. *)
Variable rank : State -> nat.
Hypothesis rank_move : forall s a qs t,
  reachable s -> a ∈ enabledMoves s -> resolves (make s a.(moved)) (a.(Picks) ++ qs) (Settled t) -> rank t < rank s.
Hypothesis no_states_bound : budget.(States) = 0.
Hypothesis no_budgets : (budgets.(MaxActionSteps) <= 0 /\ budgets.(MaxStateEvents) <= 0 /\ budgets.(MaxDoSteps) <= 0)%Z.

(** ** What is done with the end of a move *)

Definition keys c : list State := map p_key c.(p_stack).
Definition above c s t : Prop := exists l k, keys c = l ++ t :: s :: k.

(** The search is through with the state, and cut nothing below it. *)
Definition finished_at c t : Prop := cut_at c t = Some false /\ t ∉ keys c.

(** The state a move of [s] leads to: not cut unless [s] is, once the search is through
    with it, and no deeper than a move from [s], unless nothing was cut below it. *)
Definition linked c s t : Prop :=
  (cut_at c s = Some false -> finished_at c t \/ above c s t) /\
  exists n k, depth_at c s = Some n /\ depth_at c t = Some k /\ (k <= S n \/ finished_at c t).

(** The bound keeps the search from the moves of the state. *)
Definition deep c s : Prop :=
  cut_at c s = Some true /\ exists n, depth_at c s = Some n /\ 0 < budget.(Depth) /\ budget.(Depth) <= n.

Definition done_at c s (o : ending State Error) : Prop :=
  deep c s \/ match o with Settled t => linked c s t | Raised e => told c [] e \/ boundOf e <> None end.

(** ** The stack *)

Definition lower f g : Prop := rank (p_key f) < rank (p_key g).

Record chain c : Prop := {
  ch_rank : Sorted.StronglySorted lower c.(p_stack);
  ch_marks f : f ∈ c.(p_stack) -> depth_at c (p_key f) = Some f.(p_d) /\ cut_at c (p_key f) = Some f.(p_fcut);
  ch_terminal s : terminal s = true -> cut_at c s <> Some true }.

Lemma on_above c s t : above c s t -> t ∈ keys c.
Proof. intros (l & k & ->). apply elem_of_app. right. left. Qed.

Lemma chain_lowest c f l t : chain c -> c.(p_stack) = f :: l -> t ∈ keys c -> rank (p_key f) <= rank t.
Proof.
  intros [S _ _] Es. unfold keys. rewrite Es in S |- *. apply Sorted.StronglySorted_inv in S as [_ H].
  cbn. intros [->|Ht]%elem_of_cons; [done|]. change (@map ?A ?B) with (@fmap list _ A B) in Ht.
  apply list_elem_of_fmap in Ht as (g & -> & Hg). rewrite List.Forall_forall in H.
  apply Nat.lt_le_incl, (H g). by apply list_elem_of_In.
Qed.

(** The top of the stack is there once. *)
Lemma chain_top c f l : chain c -> c.(p_stack) = f :: l -> p_key f ∉ map p_key l.
Proof.
  intros [S _ _] Es. rewrite Es in S. apply Sorted.StronglySorted_inv in S as [_ H].
  change (@map ?A ?B) with (@fmap list _ A B). intros (g & Eg & Hg)%list_elem_of_fmap. rewrite List.Forall_forall in H.
  specialize (H g ltac:(by apply list_elem_of_In)). unfold lower in H. rewrite Eg in H. lia.
Qed.

(** ** Steps that change neither keys, nor depths, nor cuts *)

Record alike c c' : Prop := {
  al_frames : Forall2 (fun f g => p_key g = p_key f /\ p_d g = p_d f /\ p_fcut g = p_fcut f) c.(p_stack) c'.(p_stack);
  al_depth s : depth_at c' s = depth_at c s;
  al_cut s : cut_at c' s = cut_at c s;
  al_grows : grows c c' }.

Lemma frames_alike (l : list (pframe State Executor Node)) :
  Forall2 (fun f g => p_key g = p_key f /\ p_d g = p_d f /\ p_fcut g = p_fcut f) l l.
Proof. induction l as [|f l IH]; [apply Forall2_nil|apply Forall2_cons]; done. Qed.

#[local] Instance alike_trans : Transitive alike.
Proof.
  intros c1 c2 c3 [F1 D1 C1 G1] [F2 D2 C2 G2]. split; [|intros s; by rewrite D2|intros s; by rewrite C2|by etrans].
  clear -F1 F2. revert F2. generalize (p_stack c3). induction F1 as [|f g l k (?&?&?) F IH]; intros k' F2; inversion F2 as [|? h ? ? (?&?&?)]; subst;
    constructor; [split_and!; congruence|auto].
Qed.

Lemma alike_keys c c' : alike c c' -> keys c' = keys c.
Proof. intros [F _ _ _]. unfold keys. induction F as [|f g l k (E & _) F IH]; [done|]. cbn. by rewrite IH, E. Qed.

Lemma alike_done c c' s o : alike c c' -> done_at c s o -> done_at c' s o.
Proof.
  intros A. pose proof (alike_keys _ _ A) as K. destruct A as [_ D C G].
  unfold done_at, deep, linked, finished_at, above. rewrite K, !C, !D.
  intros [?|H]; [by left|right]. destruct o as [t|e]; [by rewrite C, D|]. destruct H; [left; by apply G|by right].
Qed.

Lemma alike_chain c c' : alike c c' -> chain c -> chain c'.
Proof.
  intros A [S M T]. constructor.
  - destruct A as [F _ _ _]. clear -F S. induction F as [|f g l k (E & _) F IH]; [constructor|].
    apply Sorted.StronglySorted_inv in S as [S H]. constructor; [auto|].
    clear -F H E. induction F as [|f' g' l k (E' & _) F IH]; [constructor|]. inversion H; subst.
    constructor; [unfold lower in *; congruence|auto].
  - intros g Hg. apply list_elem_of_lookup in Hg as [i Hi].
    destruct (Forall2_lookup_r _ _ _ _ _ (al_frames _ _ A) Hi) as (f & Hf & -> & -> & ->).
    rewrite (al_depth _ _ A), (al_cut _ _ A). apply M. by eapply list_elem_of_lookup_2.
  - intros s. rewrite (al_cut _ _ A). apply T.
Qed.

Lemma alike_phit b c : alike c (phit b c).
Proof.
  destruct (same_stack_phit b c) as [E _]. split; [rewrite E|intros s; unfold depth_at, cut_at; by rewrite phit_visited..|apply grows_phit].
  apply frames_alike.
Qed.

Lemma alike_pviolate v c : alike c (pviolate v c).
Proof.
  pose proof (pviolate_fields v c) as (E1 & E2 & _). split; [rewrite E2|intros s; unfold depth_at, cut_at; by rewrite E1..|apply grows_pviolate].
  apply frames_alike.
Qed.

Lemma alike_on_pseen (h : pseen -> pseen) s c :
  (forall x, (h x).(p_depth) = x.(p_depth) /\ (h x).(p_cut) = x.(p_cut)) -> alike c (on_pseen s h c).
Proof.
  intros Hg. split; [|intros t..|apply grows_on_pseen].
  - apply frames_alike.
  - rewrite !depth_at_marks, marks_at_on_pseen. unfold marks_at. case_decide; [|done]. destruct (_ !! t); cbn; [|done]. by rewrite (proj1 (Hg _)).
  - rewrite !cut_at_marks, marks_at_on_pseen. unfold marks_at. case_decide; [|done]. destruct (_ !! t); cbn; [|done]. by rewrite (proj2 (Hg _)).
Qed.

Lemma alike_on_ptop h c :
  (forall f l, c.(p_stack) = f :: l -> p_key (h f) = p_key f /\ p_d (h f) = p_d f /\ p_fcut (h f) = p_fcut f) ->
  alike c (on_ptop h c).
Proof.
  intros Hh. split; [|intros s; unfold on_ptop; by destruct (p_stack c)..|apply grows_on_ptop].
  unfold on_ptop. destruct (p_stack c) as [|f l] eqn:Es; [rewrite Es; constructor|]. cbn. constructor; [by eapply Hh|apply frames_alike].
Qed.

Lemma alike_pexpand c : wf budget props c -> alike c (on_ptop pexpand c).
Proof.
  intros W. apply alike_on_ptop. intros f l Es. pose proof (wf_frames _ _ _ W) as F. rewrite Es in F.
  apply Forall_cons_1 in F as [F _]. by rewrite (pexpand_ok _ _ _ F).
Qed.

Lemma alike_grown c c' :
  p_stack c' = p_stack c -> (forall s, marks_at c' s = marks_at c s) -> grows c c' -> alike c c'.
Proof.
  intros E M G. split; [rewrite E|intros s; rewrite ?depth_at_marks, ?cut_at_marks; by rewrite M..|done].
  apply frames_alike.
Qed.

(** ** The mark of a cut *)

Lemma pcut_top_marks c f l :
  c.(p_stack) = f :: l -> is_Some (c.(p_visited) !! p_key f) ->
  keys (pcut_top c) = keys c /\ (forall s, depth_at (pcut_top c) s = depth_at c s) /\
  cut_at (pcut_top c) (p_key f) = Some true /\ (forall s, s <> p_key f -> cut_at (pcut_top c) s = cut_at c s).
Proof.
  intros Es [x Ex]. unfold pcut_top, on_ptop. rewrite Es. split_and!.
  - unfold keys. cbn. by rewrite Es.
  - intros s. pose proof (touched_pcut_top c) as T. unfold pcut_top, on_ptop in T. rewrite Es in T. apply (t_depth _ _ T).
  - rewrite cut_at_marks, marks_at_on_pseen, decide_True by done. cbn. by rewrite Ex.
  - intros s N. rewrite cut_at_marks, marks_at_on_pseen, decide_False by done. by rewrite cut_at_marks.
Qed.

Lemma finished_pcut_top c f l t :
  c.(p_stack) = f :: l -> is_Some (c.(p_visited) !! p_key f) -> finished_at c t -> finished_at (pcut_top c) t.
Proof.
  intros Es Hv [H1 H2]. destruct (pcut_top_marks c f l Es Hv) as (K & D & C & N). unfold finished_at. rewrite K.
  split; [|done]. rewrite N; [done|]. intros ->. apply H2. unfold keys. rewrite Es. left.
Qed.

Lemma done_pcut_top c f l s o :
  c.(p_stack) = f :: l -> is_Some (c.(p_visited) !! p_key f) -> done_at c s o -> done_at (pcut_top c) s o.
Proof.
  intros Es Hv. destruct (pcut_top_marks c f l Es Hv) as (K & D & C & N).
  assert (C' : cut_at (pcut_top c) s = Some false -> cut_at c s = Some false).
  { destruct (decide (s = p_key f)) as [->|Ns]; [by rewrite C|by rewrite N]. }
  intros [[H1 H2]|H]; [left|right].
  - unfold deep. rewrite D. split; [|done]. destruct (decide (s = p_key f)) as [->|Ns]; [done|by rewrite N].
  - destruct o as [t|e]; [|destruct H; [left; by apply grows_pcut_top|by right]]. destruct H as [H1 (n & k & E1 & E2 & H2)]. split.
    + intros Hc. destruct (H1 (C' Hc)) as [Hf|Ha]; [left; by eapply finished_pcut_top|right]. unfold above. by rewrite K.
    + exists n, k. rewrite !D. split_and!; [done|done|]. destruct H2; [by left|right; by eapply finished_pcut_top].
Qed.

Lemma chain_pcut_top c f l :
  c.(p_stack) = f :: l -> is_Some (c.(p_visited) !! p_key f) -> terminal (p_key f) = false -> chain c -> chain (pcut_top c).
Proof.
  intros Es Hv Ht Ch. destruct (pcut_top_marks c f l Es Hv) as (K & D & C & N). pose proof (chain_top _ _ _ Ch Es) as Hn.
  destruct Ch as [S M T].
  assert (Est : p_stack (pcut_top c) = frame_with f (p_all f) (p_moves f) (p_next f) (p_full f) true :: l).
  { unfold pcut_top, on_ptop. by rewrite Es. }
  constructor.
  - rewrite Est. rewrite Es in S. apply Sorted.StronglySorted_inv in S as [S H]. by constructor.
  - rewrite Est. intros g [->|Hg]%elem_of_cons.
    + change (p_key (frame_with f _ _ _ _ _)) with (p_key f). rewrite D, C. split; [|done]. apply (M f). rewrite Es. left.
    + rewrite D, N; [apply (M g); rewrite Es; by right|]. intros Eg. apply Hn. change (@map ?A ?B) with (@fmap list _ A B).
      apply list_elem_of_fmap. by exists g.
  - intros s Hs. rewrite N; [auto|]. intros ->. congruence.
Qed.

(** ** A state reached *)

(** What reaching the state [t] by a move from the state on top of the stack, or by a
    start, changes. *)
Record reached c c' t : Prop := {
  r_grows : grows c c'; r_off : t ∉ keys c;
  r_depths s : s <> t -> depth_at c' s = depth_at c s;
  r_cuts s : s <> t -> cut_at c' s = cut_at c s \/ cut_at c' s = Some true /\ head (keys c) = Some s;
  r_depth : exists k, depth_at c' t = Some k /\ (forall i, depth_at c t = Some i -> k <= i) /\
    match head (keys c) with Some s0 => forall n, depth_at c s0 = Some n -> k <= S n | None => k = 0 end;
  r_how : (keys c' = keys c /\ cut_at c' t = Some false /\ cut_at c t <> Some true) \/
          (keys c' = keys c /\ cut_at c' t = Some true /\ cut_at c t = Some true /\ depth_at c' t = depth_at c t /\
            forall s0, head (keys c) = Some s0 -> cut_at c' s0 = Some true) \/
          (keys c' = t :: keys c /\ cut_at c' t = Some false /\ cut_at c t <> Some false) }.

Lemma head_keys c s : head (keys c) = Some s -> s ∈ keys c.
Proof. destruct (keys c); [done|]. intros [= ->]. left. Qed.

Lemma reached_cut c c' t s : reached c c' t -> s <> t -> cut_at c' s = Some false -> cut_at c s = Some false.
Proof. intros R N. destruct (r_cuts _ _ _ R s N) as [->|[-> _]]; done. Qed.

(** A state the search was through with stays so. *)
Lemma reached_finished c c' t u : reached c c' t -> finished_at c u -> finished_at c' u.
Proof.
  intros R [H1 H2]. destruct (decide (u = t)) as [->|N].
  - destruct (r_how _ _ _ R) as [(K & C & _)|[(_ & _ & C & _)|(_ & _ & C)]]; [|congruence|done]. split; [done|by rewrite K].
  - split; [destruct (r_cuts _ _ _ R u N) as [->|[_ ?%head_keys]]; done|].
    destruct (r_how _ _ _ R) as [(-> & _)|[(-> & _)|(-> & _)]]; [done..|]. by apply not_elem_of_cons.
Qed.

Lemma reached_above c c' t s u : reached c c' t -> above c s u -> above c' s u.
Proof.
  intros R (l & k & E). unfold above. destruct (r_how _ _ _ R) as [(-> & _)|[(-> & _)|(-> & _)]]; [by exists l, k..|].
  exists (t :: l), k. by rewrite E.
Qed.

(** A state no deeper than it was, or that the search was through with. *)
Lemma reached_near c c' t u k n :
  reached c c' t -> depth_at c u = Some k -> k <= n \/ finished_at c u ->
  exists j, depth_at c' u = Some j /\ (j <= n \/ finished_at c' u).
Proof.
  intros R E H. destruct (decide (u = t)) as [->|N].
  - destruct (r_depth _ _ _ R) as (j & E' & L & _). exists j. split; [done|]. specialize (L k E).
    destruct H; [left; lia|right; by eapply reached_finished].
  - exists k. rewrite (r_depths _ _ _ R) by done. split; [done|]. destruct H; [by left|right; by eapply reached_finished].
Qed.

(** What was done with the ends of the other states' moves stays done. *)
Lemma reached_done c c' t s o : reached c c' t -> s <> t -> done_at c s o -> done_at c' s o.
Proof.
  intros R N [[H1 H2]|H]; [left|right].
  - split; [|by rewrite (r_depths _ _ _ R)]. by destruct (r_cuts _ _ _ R s N) as [->|[-> _]].
  - destruct o as [u|e]; [|destruct H; [left; by apply (r_grows _ _ _ R)|by right]].
    destruct H as [H1 (n & k & E1 & E2 & H2)]. split.
    + intros Hc. destruct (H1 (reached_cut _ _ _ _ R N Hc)); [left; by eapply reached_finished|right; by eapply reached_above].
    + destruct (reached_near _ _ _ _ _ _ R E2 H2) as (j & Ej & Hj). exists n, j. by rewrite (r_depths _ _ _ R).
Qed.

(** The move just made is done with. *)
Lemma reached_new c c' t s0 n : reached c c' t -> head (keys c) = Some s0 -> depth_at c s0 = Some n -> done_at c' s0 (Settled t).
Proof.
  intros R E0 E1. assert (N : s0 <> t) by (intros ->; by apply (r_off _ _ _ R), head_keys).
  destruct (r_depth _ _ _ R) as (k & E2 & _ & L). rewrite E0 in L. right. split.
  - intros Hc. destruct (r_how _ _ _ R) as [(K & C & _)|[(_ & _ & _ & _ & C)|(K & _ & _)]]; [left| |right].
    + split; [done|]. rewrite K. apply (r_off _ _ _ R).
    + rewrite (C s0 E0) in Hc. done.
    + destruct (keys c) as [|x l] eqn:Ek; [done|]. injection E0 as ->. exists [], l. by rewrite K.
  - exists n, k. rewrite (r_depths _ _ _ R) by done. split_and!; [done|done|left; auto].
Qed.

(** What was done with the ends of the state's own moves, if it is not searched again. *)
Lemma reached_self c c' t o : reached c c' t -> keys c' = keys c -> done_at c t o -> done_at c' t o.
Proof.
  intros R K. destruct (r_how _ _ _ R) as [(_ & C & C0)|[(_ & C & C0 & D & _)|(K' & _)]].
  - intros [[H _]|H]; [done|right]. destruct o as [u|e]; [|destruct H; [left; by apply (r_grows _ _ _ R)|by right]].
    destruct H as [H1 (n & k & E1 & E2 & H2)].
    assert (Ec : cut_at c t = Some false).
    { unfold cut_at, depth_at in *. destruct (p_visited c !! t) as [x|]; [|done]. cbn in *. by destruct (p_cut x). }
    destruct (H1 Ec) as [F|A].
    + apply (reached_finished _ _ _ _ R) in F. split; [by left|]. destruct (r_depth _ _ _ R) as (j & E3 & _).
      destruct (decide (u = t)) as [->|Nu]; [exists j, j|exists j, k; rewrite (r_depths _ _ _ R u Nu)]; split_and!; try done; by right.
    + exfalso. apply (r_off _ _ _ R). destruct A as (l & l' & ->). apply elem_of_app. right. right. left.
  - intros [[H1 H2]|H]; [left; split; [done|by rewrite D]|right].
    destruct o as [u|e]; [|destruct H; [left; by apply (r_grows _ _ _ R)|by right]]. destruct H as [H1 (n & k & E1 & E2 & H2)].
    split; [congruence|]. destruct (reached_near _ _ _ _ _ _ R E2 H2) as (j & Ej & Hj). exists n, j. by rewrite D.
  - exfalso. rewrite K' in K. apply (f_equal length) in K. cbn in K. lia.
Qed.

(** Steps that change no mark do not change what a state reached left. *)
Lemma reached_alike c c1 c' t : reached c c1 t -> alike c1 c' -> reached c c' t.
Proof.
  intros [G O D C Dt H] A. pose proof (alike_keys _ _ A) as K. destruct A as [_ Da Ca Ga].
  constructor; [by etrans|done|intros s; rewrite Da; auto|intros s; rewrite Ca; auto| |].
  - by rewrite Da.
  - rewrite K, Ca, Da. destruct H as [H|[(H1 & H2 & H3 & H4 & H5)|H]]; [by left|right; left|by right; right].
    split_and!; try done. intros s0. rewrite Ca. auto.
Qed.

(** ** Arriving at a state *)

(** A move from the top of the stack, or a start, leads to the state [t] at the depth [d]. *)
Definition arriving c t d : Prop :=
  match c.(p_stack) with f :: _ => rank t < rank (p_key f) /\ d = S f.(p_d) | [] => d = 0 end.

Lemma arriving_off c t d : chain c -> arriving c t d -> t ∉ keys c.
Proof.
  intros Ch. unfold arriving. destruct (p_stack c) as [|f l] eqn:Es; intros H Ht.
  - unfold keys in Ht. rewrite Es in Ht. by apply elem_of_nil in Ht.
  - pose proof (chain_lowest _ _ _ _ Ch Es Ht). lia.
Qed.

Lemma arriving_depth c t d k :
  chain c -> arriving c t d -> k <= d ->
  match head (keys c) with Some s0 => forall n, depth_at c s0 = Some n -> k <= S n | None => k = 0 end.
Proof.
  intros [_ M _]. unfold arriving, keys. destruct (p_stack c) as [|f l] eqn:Es; cbn; [lia|].
  intros [_ ->] L n. rewrite (proj1 (M f ltac:(left))). intros [= <-]. done.
Qed.

Lemma chain_visited c c' t :
  c'.(p_stack) = c.(p_stack) -> (forall s, s <> t -> marks_at c' s = marks_at c s) -> t ∉ keys c ->
  (terminal t = true -> cut_at c' t <> Some true) -> chain c -> chain c'.
Proof.
  intros Es M Ht Hc [S Mk T]. constructor; rewrite ?Es; [done| |].
  - intros f Hf. assert (N : p_key f <> t).
    { intros <-. apply Ht. unfold keys. change (@map ?A ?B) with (@fmap list _ A B). apply list_elem_of_fmap. by exists f. }
    rewrite depth_at_marks, cut_at_marks, M by done. rewrite <- depth_at_marks, <- cut_at_marks. auto.
  - intros s Hs. destruct (decide (s = t)) as [->|N]; [auto|]. rewrite cut_at_marks, M by done. rewrite <- cut_at_marks. auto.
Qed.

Lemma chain_push c g :
  chain c -> arriving c (p_key g) g.(p_d) -> depth_at c (p_key g) = Some g.(p_d) -> cut_at c (p_key g) = Some g.(p_fcut) ->
  chain (ppush g c).
Proof.
  intros [S M T] A D C. constructor; cbn; [|intros f [->|Hf]%elem_of_cons; [by split|by apply M]|exact T].
  constructor; [done|]. unfold arriving in A. destruct (p_stack c) as [|f l]; [constructor|]. destruct A as [A _].
  apply Sorted.StronglySorted_inv in S as [_ H]. constructor; [done|].
  rewrite List.Forall_forall in H |- *. intros h Hh. specialize (H h Hh). unfold lower in *. lia.
Qed.

(** Where nothing but the state's marks differ, and its depth is no greater. *)
Lemma reached_visited c c' t d k :
  chain c -> arriving c t d -> grows c c' -> c'.(p_stack) = c.(p_stack) -> (forall s, s <> t -> marks_at c' s = marks_at c s) ->
  depth_at c' t = Some k -> k <= d -> (forall i, depth_at c t = Some i -> k <= i) -> cut_at c' t = Some false ->
  cut_at c t <> Some true -> reached c c' t.
Proof.
  intros Ch A G Es M Dt L Li C Cn. constructor.
  - done.
  - by eapply arriving_off.
  - intros s N. by rewrite !depth_at_marks, M.
  - intros s N. left. by rewrite !cut_at_marks, M.
  - exists k. split_and!; [done|done|by eapply arriving_depth].
  - left. unfold keys. by rewrite Es.
Qed.

(** ... or the state is not searched again, its cut that of the state above it. *)
Lemma reached_cut_again c c1 t d f l :
  chain c -> wf budget props c1 -> arriving c t d -> grows c c1 -> c.(p_stack) = f :: l -> c1.(p_stack) = c.(p_stack) ->
  (forall s, s <> t -> marks_at c1 s = marks_at c s) -> depth_at c1 t = depth_at c t -> cut_at c1 t = cut_at c t ->
  cut_at c t = Some true -> (forall i, depth_at c t = Some i -> i <= d) -> reached c (pcut_top c1) t /\ chain (pcut_top c1).
Proof.
  intros Ch W A G Es Es1 M Dt Ct C Li. pose proof (arriving_off _ _ _ Ch A) as Off. rewrite Es in Es1.
  pose proof (wf_frames _ _ _ W) as F. rewrite Es1 in F. apply Forall_cons_1 in F as [[_ Hv Hl _ _ _ _] _].
  destruct (pcut_top_marks c1 f l Es1 Hv) as (K & D & Cf & Cn).
  assert (K1 : keys c1 = keys c) by (unfold keys; by rewrite Es, Es1).
  assert (Hh : head (keys c) = Some (p_key f)) by (unfold keys; by rewrite Es).
  assert (N : t <> p_key f) by (intros ->; by apply Off, head_keys).
  split.
  - constructor.
    + etrans; [exact G|apply grows_pcut_top].
    + done.
    + intros s Hs. by rewrite D, !depth_at_marks, M.
    + intros s Hs. destruct (decide (s = p_key f)) as [->|Ns]; [by right|left]. rewrite Cn by done. by rewrite !cut_at_marks, M.
    + destruct (depth_at c t) as [i|] eqn:Ei.
      2: { unfold cut_at, depth_at in *. by destruct (p_visited c !! t). }
      exists i. rewrite D, Dt. split_and!; [done|by intros ? [= <-]|]. eapply arriving_depth; [done|done|auto].
    + right; left. rewrite K, D, Dt, Cn, Ct by done. split_and!; try done. intros s0. rewrite Hh. by intros [= <-].
  - eapply chain_pcut_top; [exact Es1|done|done|]. apply (chain_visited c c1 t); [by rewrite Es1, Es|done|done| |done].
    intros Ht. rewrite Ct. by apply Ch.
Qed.

(** What arriving at a state leaves to do: its own moves wait, if they are not made. *)
Record arrives c c' t : Prop := {
  ar_reached : reached c c' t; ar_chain : chain c';
  ar_waits s u qs : waits c s u qs -> waits c' s u qs;
  ar_moves : is_Some (c.(p_visited) !! t) /\ keys c' = keys c \/
    forall a qs, a ∈ enabledMoves t -> waits c' t a.(moved) (a.(Picks) ++ qs) }.

Lemma arrives_completed r d vs c :
  wf budget props c -> chain c -> (forall n, n ∈ vs -> said c n) -> arriving c r.(here) d -> terminal r.(here) = true ->
  arrives c (pcomplete budget props r d vs c) r.(here).
Proof.
  intros W Ch Hvs A Ht. destruct (pcomplete_spec budget props r d vs c) as (S & G & _ & _ & _ & _ & _ & M & X); [done|apply W..|done|].
  set (c' := pcomplete _ _ _ _ _ _) in *. destruct X as [[[_ X] _]|(_ & X & Xc)]; [lia|].
  specialize (Xc (ch_terminal _ Ch _ Ht)).
  assert (R : reached c c' (here r)).
  { destruct X as [(X1 & _ & X2 & _)|(n & X1 & X2)].
    - eapply (reached_visited _ _ _ d d); [done|done|done|apply S|done|done|done| |done|by apply Ch].
      intros i. unfold depth_at. by rewrite X1.
    - eapply (reached_visited _ _ _ d (min d n)); [done|done|done|apply S|done|done|lia| |done|by apply Ch].
      rewrite X1. intros i [= <-]. lia. }
  split; [done| | |].
  - eapply (chain_visited c c' (here r)); [apply S|done|by eapply arriving_off| |done]. by rewrite Xc.
  - intros s u qs. apply waits_same, S.
  - right. intros a qs Ha. unfold terminal in Ht. apply is_nil_nil in Ht. rewrite Ht in Ha. by apply elem_of_nil in Ha.
Qed.

Lemma alike_full c (b : bool) : wf budget props c -> alike c (if b then on_ptop pexpand c else c).
Proof. intros W. destruct b; [by apply alike_pexpand|]. by apply alike_grown. Qed.

(** The frame of a state entered, pushed. *)
Lemma reached_push c c3 g t :
  chain c -> arriving c t g.(p_d) -> p_key g = t -> grows c c3 -> keys c3 = keys c ->
  (forall s, s <> t -> depth_at c3 s = depth_at c s /\ cut_at c3 s = cut_at c s) ->
  depth_at c3 t = Some g.(p_d) -> cut_at c3 t = Some false ->
  (c.(p_visited) !! t = None \/ exists n, depth_at c t = Some n /\ g.(p_d) < n /\ cut_at c t = Some true) ->
  reached c (ppush g c3) t.
Proof.
  intros Ch A Eg G K M D C H. constructor.
  - etrans; [exact G|apply grows_set_stack].
  - by eapply arriving_off.
  - intros s N. change (depth_at c3 s = depth_at c s). by apply M.
  - intros s N. left. change (cut_at c3 s = cut_at c s). by apply M.
  - exists g.(p_d). split_and!; [done| |by eapply arriving_depth]. intros i Ei. unfold depth_at in *.
    destruct H as [E|(n & E & L & _)]; [by rewrite E in Ei|]. rewrite E in Ei. injection Ei as ->. lia.
  - right; right. split_and!; [unfold keys in *; cbn; by rewrite K, Eg|done|]. unfold cut_at.
    destruct H as [->|(n & _ & _ & E)]; [done|]. unfold cut_at in E. by rewrite E.
Qed.

Lemma arrives_entered r d vs sp c :
  wf budget props c -> chain c -> found budget r d -> (forall n, n ∈ vs -> said c n) -> arriving c r.(here) d ->
  terminal r.(here) = false -> arrives c (parrive budget props r d vs sp c) r.(here).
Proof.
  intros W Ch F Hvs A Ht.
  destruct (parrive_enters budget props r d vs sp c W F Hvs Ht) as (c1 & child & c3 & V & X & T & -> & W1 & b & E3).
  pose proof (arriving_off _ _ _ Ch A) as Off. pose proof (vi_stack _ _ _ _ _ V) as [Es1 _].
  assert (Ch1 : chain c1) by (eapply (chain_visited c c1 (here r)); [done|apply V|done|congruence|done]).
  assert (Wt : forall s u qs, waits c s u qs -> waits c3 s u qs).
  { intros s u qs H. eapply waits_touched; [exact T|]. by eapply waits_same. }
  destruct child as [g|].
  - destruct X as (l & -> & _ & D & X & Xc). rewrite Xc in E3. cbn in E3.
    assert (A3 : alike c1 c3) by (subst c3; by apply alike_full).
    pose proof (alike_keys _ _ A3) as K3.
    assert (D3 : depth_at c3 (here r) = Some d) by by rewrite (al_depth _ _ A3).
    assert (C3 : cut_at c3 (here r) = Some false) by by rewrite (al_cut _ _ A3).
    split.
    + apply reached_push; [done|done|done|etrans; [apply V|apply A3]|rewrite K3; unfold keys; by rewrite Es1| |done|done|].
      * intros s N. rewrite (al_depth _ _ A3), (al_cut _ _ A3), !depth_at_marks, !cut_at_marks. by rewrite (vi_marks _ _ _ _ _ V).
      * destruct X as [(X & _)|(n & X1 & X2 & X3)]; [by left|right; by exists n].
    + apply chain_push; [by eapply alike_chain| |done|done].
      unfold arriving in *. pose proof (al_frames _ _ A3) as Fr. rewrite <- Es1 in A.
      destruct Fr as [|f h l1 l2 (E1 & E2 & _) _]; [done|]. cbn. rewrite E1, E2. done.
    + intros s u qs H. by apply waits_ppush, Wt.
    + right. intros a qs Ha. by eapply waits_fresh.
  - destruct X as [(_ & _ & _ & X)|(n & X1 & X2 & X3 & X4)]; [lia|].
    assert (Hv : is_Some (p_visited c !! here r)) by by eapply depth_at_visited.
    assert (G1 : grows c c1) by apply V. assert (M1 := vi_marks _ _ _ _ _ V).
    assert (H : exists c2, c3 = (if b then on_ptop pexpand c2 else c2) /\ wf budget props c2 /\ reached c c2 (here r) /\
        chain c2 /\ keys c2 = keys c).
    { assert (K1 : keys c1 = keys c) by (unfold keys; by rewrite Es1).
      assert (Ld : forall i, depth_at c (here r) = Some i -> min d n <= i) by (rewrite X1; intros i [= <-]; lia).
      destruct (cut_at c1 (here r)) as [[|]|] eqn:Ec; cbn in E3; symmetry in X3.
      - specialize (X4 X3). rewrite Nat.min_r in X2, Ld by done. destruct (p_stack c) as [|f l] eqn:Es.
        + exists c1. assert (E1 : pcut_top c1 = c1) by (unfold pcut_top; by rewrite Es1). rewrite E1 in E3.
          split_and!; [done|done| |done|done]. constructor; [done|done| | | |].
          * intros s N. by rewrite !depth_at_marks, M1.
          * intros s N. left. by rewrite !cut_at_marks, M1.
          * exists n. split_and!; [done|done|by eapply arriving_depth].
          * right; left. split_and!; [done|done|done|congruence|]. unfold keys. by rewrite Es.
        + exists (pcut_top c1). pose proof (wf_frames _ _ _ W1) as Fr. rewrite Es1 in Fr.
          apply Forall_cons_1 in Fr as [Fr _]. destruct (pcut_top_marks c1 f l Es1 (fo_visited _ _ _ Fr)) as (K & _).
          destruct (reached_cut_again c c1 (here r) d f l) as [R R']; try done; try congruence.
          split_and!; [done|by apply wf_pcut_top|done|done|congruence].
      - exists c1. split_and!; [done|done| |done|done].
        eapply (reached_visited _ _ _ d (min d n)); [done|done|done|by rewrite Es1|done|done|lia|done|done|congruence].
      - unfold cut_at, depth_at in *. by destruct (p_visited c !! here r). }
    destruct H as (c2 & -> & W2 & R & Ch2 & K2). pose proof (alike_full c2 b W2) as A2. split.
    + by eapply reached_alike.
    + by eapply alike_chain.
    + exact Wt.
    + left. split; [done|]. by rewrite (alike_keys _ _ A2).
Qed.

(** ** The steps *)

(** Every end of every move of a visited state waits on the stack or is done with. *)
Definition left_done c : Prop := left_to (fun s _ _ o => done_at c s o) c.

(** The starts found stay found: a state at depth zero stays so. *)
Definition onward c c' : Prop := grows c c' /\ forall s, depth_at c s = Some 0 -> depth_at c' s = Some 0.
#[local] Instance onward_preorder : PreOrder onward.
Proof. split; [by split|]. intros c1 c2 c3 [G1 H1] [G2 H2]. split; [by etrans|auto]. Qed.

Lemma left_weaken (X Y : State -> unitOf Executor Node -> list nat -> ending State Error -> Prop) c c' :
  (forall s, is_Some (c'.(p_visited) !! s) -> is_Some (c.(p_visited) !! s)) ->
  (forall s u qs, waits c s u qs -> waits c' s u qs) -> (forall s u qs o, X s u qs o -> Y s u qs o) -> left_to X c -> left_to Y c'.
Proof. intros D W XY H s a qs o Hs Ha R. destruct (H s a qs o (D s Hs) Ha R); [left; auto|right; auto]. Qed.

Lemma onward_alike c c' : alike c c' -> onward c c'.
Proof. intros A. split; [apply A|]. intros s. by rewrite (al_depth _ _ A). Qed.

Lemma onward_reached c c' t : reached c c' t -> onward c c'.
Proof.
  intros R. split; [apply R|]. intros s E. destruct (decide (s = t)) as [->|N]; [|by rewrite (r_depths _ _ _ R)].
  destruct (r_depth _ _ _ R) as (k & -> & L & _). specialize (L 0 E). f_equal. lia.
Qed.

Lemma onward_pcut_top c : onward c (pcut_top c).
Proof. split; [apply grows_pcut_top|]. intros s. by rewrite (t_depth _ _ (touched_pcut_top c)). Qed.

Lemma left_arrives c c' t :
  arrives c c' t -> (forall s0, head (keys c) = Some s0 -> is_Some (depth_at c s0)) ->
  left_to (fun s u qs o => (head (keys c) = Some s /\ o = Settled t) \/ done_at c s o) c -> left_done c'.
Proof.
  intros [R _ Wt M] Dt H s a qs o Hs Ha Ro. destruct (decide (s = t)) as [->|N].
  - destruct M as [[Hv K]|M]; [|left; auto]. destruct (H t a qs o Hv Ha Ro) as [|[[Hh _]|Hd]]; [left; auto| |right].
    + exfalso. by apply (r_off _ _ _ R), head_keys.
    + by eapply reached_self.
  - assert (Hv : is_Some (p_visited c !! s)).
    { rewrite <- (fmap_is_Some p_depth) in Hs |- *. pose proof (r_depths _ _ _ R s N) as E. unfold depth_at in E. by rewrite <- E. }
    destruct (H s a qs o Hv Ha Ro) as [|[[Hh ->]|Hd]]; [left; auto|right|right].
    + destruct (Dt s Hh) as [n En]. by eapply reached_new.
    + by eapply reached_done.
Qed.

Lemma spend_never sp k : (spend sp k budgets).2 = false.
Proof.
  destruct no_budgets as (H1 & H2 & H3). unfold spend, over. destruct k; cbn [snd]; apply andb_false_iff; left; by apply Z.ltb_ge.
Qed.

Lemma legal_rank s m refused t :
  reachable s -> legal s m -> (follow refused (make s (unit_of m)) (picks_of m)).1.1 = Settled t -> rank t < rank s.
Proof.
  intros Hs [Hp (a & Ha & Eu & x & Ex)] Ht. destruct (follow_takes refused _ _ (make_offers s (unit_of m)) Hp) as [n R].
  rewrite Ht, Eu, Ex, <- app_assoc in R. by eapply rank_move.
Qed.

(** A bound reached on top of the stack: the state is too deep for its moves. *)
Lemma left_deep c f l m b :
  c.(p_stack) = f :: l -> wf budget props c -> chain c -> 0 < budget.(Depth) -> budget.(Depth) < S f.(p_d) ->
  left_to (fun s u qs o => taken_by (p_key f) m s u qs o \/ done_at c s o) c ->
  onward c (pcut_top (phit b c)) /\ chain (pcut_top (phit b c)) /\ left_done (pcut_top (phit b c)).
Proof.
  intros Es W Ch B1 B2 H. pose proof (alike_phit b c) as A. set (c0 := phit b c) in *.
  assert (Es0 : p_stack c0 = f :: l) by (rewrite <- Es; apply same_stack_phit).
  pose proof (wf_frames _ _ _ W) as F. rewrite Es in F. apply Forall_cons_1 in F as [F _].
  assert (Hv : is_Some (p_visited c0 !! p_key f)) by (apply A; apply F).
  destruct (pcut_top_marks c0 f l Es0 Hv) as (K & D & C & N).
  split_and!; [etrans; [by apply onward_alike|apply onward_pcut_top]|eapply chain_pcut_top; [done|done|apply F|by eapply alike_chain]|].
  eapply left_weaken; [| | |exact H].
  - intros s. rewrite (touched_dom _ _ _ (touched_pcut_top c0)). assert (p_visited c0 = p_visited c) as -> by apply phit_visited. done.
  - intros s u qs Hw. apply waits_pcut_top. eapply waits_same; [|done]. apply same_stack_phit.
  - intros s u qs o [(-> & _)|Hd].
    + left. split; [done|]. exists f.(p_d). rewrite D, (al_depth _ _ A), (proj1 (ch_marks _ Ch f ltac:(rewrite Es; left))). split_and!; [done|done|lia].
    + eapply done_pcut_top; [done|done|]. by eapply alike_done.
Qed.

Lemma ptake_acyclic f m c l c' :
  c.(p_stack) = f :: l -> legal (p_key f) m -> wf budget props c -> chain c ->
  left_to (fun s u qs o => taken_by (p_key f) m s u qs o \/ done_at c s o) c ->
  ptake budget budgets props f m c = (c', None) -> onward c c' /\ chain c' /\ left_done c'.
Proof.
  intros Es Hm W Ch H. pose proof (wf_frames _ _ _ W) as Hf. rewrite Es in Hf. apply Forall_cons_1 in Hf as [Hf _].
  destruct (fo_found _ _ _ Hf) as [Fs Fl]. unfold ptake. destruct (_ && _) eqn:Eb.
  { intros [= <-]. apply andb_true_iff in Eb as [B1%Nat.ltb_lt B2%Nat.ltb_lt]. by eapply left_deep. }
  apply depth_open in Eb. pose proof (spend_never (p_spent f) (MKind (unit_of m))) as Hsp.
  destruct (spend _ _ _) as [[sp b] exceeded]. cbn in Hsp. subst exceeded.
  pose proof (longer_scheduled _ _ _ (Raised refusal) Fs Hm) as Hs. fold (p_key f) in Hs.
  pose proof (preveal_ok _ c f m (Raised refusal) Hf Hm) as Hr.
  pose proof (fun t => legal_rank (p_key f) m (Raised refusal) t ltac:(by eapply reachable_found, Hf) Hm) as Hrank.
  pose proof (left_reveal (fun s _ _ o => done_at c s o) c f m l (Raised refusal) (S (p_nMoves c)) (max (p_maxDepth c) (S (p_d f)))
    Es (fo_next _ _ _ Hf) Hm H) as Hc.
  cbv zeta in Hc. destruct (follow _ _ _) as [[o drawn] faced]. cbn [fst snd] in *.
  set (c1 := on_ptop (preveal m drawn) _) in *.
  assert (A1 : alike c c1).
  { etrans; [apply (alike_grown c (set_counts c (S (p_nMoves c)) (max (p_maxDepth c) (S (p_d f))))); [done|done|apply grows_set_counts]|].
    apply alike_on_ptop. intros f' l' _. done. }
  assert (Es1 : c1.(p_stack) = preveal m drawn f :: l) by (subst c1; unfold on_ptop; cbn; by rewrite Es).
  assert (W1 : wf budget props c1).
  { destruct W as [B F D]. rewrite Es in F. apply Forall_cons_1 in F as [_ F]. constructor.
    - eapply base_same; [..|exact B]; subst c1; unfold on_ptop; cbn; by rewrite Es.
    - rewrite Es1. constructor; [by apply (frame_ok_grows _ c); [apply A1|]|by apply (frames_grow _ c); [apply A1|]].
    - subst c1. unfold on_ptop. cbn. rewrite Es. cbn. lia. }
  pose proof (alike_chain _ _ A1 Ch) as Ch1.
  destruct o as [t|e].
  - intros [= <-]. set (r := {| here := t; via := longer (p_snap f).(via) m |}).
    assert (A : arriving c1 t (S (p_d f))) by (unfold arriving; rewrite Es1; split; [by apply Hrank|done]).
    assert (Ar : arrives c1 (parrive budget props r (S (p_d f)) (p_fviolated f) sp c1) t).
    { assert (Hsaid : forall n, n ∈ p_fviolated f -> said c1 n) by (intros n Hn; apply A1; by apply (fo_said _ _ _ Hf)).
      destruct (terminal t) eqn:Ht.
      - unfold parrive. change (here r) with t. rewrite Ht. by apply (arrives_completed r).
      - apply (arrives_entered r); try done. split; [done|by apply longer_long]. }
    split_and!; [etrans; [by apply onward_alike|eapply onward_reached, Ar]|apply Ar|].
    assert (Hh : head (keys c1) = Some (p_key f)) by (unfold keys; by rewrite Es1).
    eapply left_arrives; [exact Ar| |].
    + rewrite Hh. intros s0 [= <-]. rewrite (al_depth _ _ A1), (proj1 (ch_marks _ Ch f ltac:(rewrite Es; left))). by eexists.
    + eapply left_weaken; [| | |exact Hc]; [done|done|]. intros s u qs o [[-> ->]|Hd]; [by left|right]. by eapply alike_done.
  - intros E. unfold pfailed in E.
    assert (Hd : forall c2, alike c1 c2 -> c2.(p_stack) = c1.(p_stack) -> c2.(p_visited) = c1.(p_visited) ->
      told c2 [] e \/ boundOf e <> None -> onward c c2 /\ chain c2 /\ left_done c2).
    { intros c2 A2 Es2 Ev2 He. assert (A : alike c c2) by by etrans.
      split_and!; [by apply onward_alike|by eapply alike_chain|]. eapply left_weaken; [| | |exact Hc].
      - intros s. by rewrite Ev2.
      - intros s u qs. by apply waits_same.
      - intros s u qs o [[-> ->]|Hx]; [by right|]. by eapply alike_done. }
    destruct (boundOf e) as [b0|] eqn:Ebo.
    + injection E as <-. apply Hd; [apply alike_phit|apply same_stack_phit|apply phit_visited|by right].
    + destruct (Is e ErrCheckRefused); [done|]. injection E as <-.
      apply Hd; [apply alike_pviolate|apply pviolate_fields|apply pviolate_fields|left].
      apply (pviolate_told (Build_pviolation _ _ _ _ _ _ _ _)); [|done]. cbn. unfold failure_kind. by destruct (_ || _).
Qed.

(** ** A state finished *)

Lemma done_popped c c' f l s o :
  c.(p_stack) = f :: l -> chain c -> grows c c' -> keys c' = map p_key l -> (forall t, depth_at c' t = depth_at c t) ->
  (forall t, cut_at c' t = cut_at c t \/ cut_at c' t = Some true /\ head (keys c') = Some t) ->
  (f.(p_fcut) = true -> forall t, head (keys c') = Some t -> cut_at c' t = Some true) -> done_at c s o -> done_at c' s o.
Proof.
  intros Es Ch G K D C Cf. pose proof (chain_top _ _ _ Ch Es) as Hn. rewrite <- K in Hn.
  assert (K0 : keys c = p_key f :: keys c') by (rewrite K; unfold keys; by rewrite Es).
  assert (Fin : forall t, finished_at c t -> finished_at c' t).
  { intros t [H1 H2]. rewrite K0, not_elem_of_cons in H2. destruct H2 as [_ H2]. split; [|done].
    destruct (C t) as [->|[_ ?%head_keys]]; done. }
  intros [[H1 H2]|H]; [left|right].
  - split; [|by rewrite D]. by destruct (C s) as [->|[-> _]].
  - destruct o as [t|e]; [|destruct H; [left; by apply G|by right]]. destruct H as [H1 (n & k & E1 & E2 & H2)]. split.
    + intros Hc. assert (Hc0 : cut_at c s = Some false) by (destruct (C s) as [<-|[? _]]; congruence).
      destruct (H1 Hc0) as [|(l1 & k1 & Ek)]; [left; auto|]. rewrite K0 in Ek. destruct l1 as [|x l1]; injection Ek as Ef Ek.
      * left. subst t. split; [|done]. destruct (p_fcut f) eqn:Ecf.
        { specialize (Cf eq_refl s ltac:(by rewrite Ek)). congruence. }
        destruct (C (p_key f)) as [->|[_ ?%head_keys]]; [|done].
        rewrite (proj2 (ch_marks _ Ch f ltac:(rewrite Es; left))). by rewrite Ecf.
      * right. by exists l1, k1.
    + exists n, k. rewrite !D. split_and!; [done|done|]. destruct H2; [by left|right; auto].
Qed.

Lemma ppop_acyclic f l c :
  c.(p_stack) = f :: l -> f.(p_moves) !! f.(p_next) = None -> wf budget props c -> chain c -> left_done c ->
  onward c (ppop f l c) /\ chain (ppop f l c) /\ left_done (ppop f l c).
Proof.
  intros Es Em W Ch H. unfold ppop. set (c0 := set_stack c _ l).
  pose proof (wf_frames _ _ _ W) as F. rewrite Es in F. apply Forall_cons_1 in F as [_ F].
  assert (Ch0 : chain c0).
  { destruct Ch as [S M T]. rewrite Es in S, M. apply Sorted.StronglySorted_inv in S as [S _].
    constructor; [exact S|intros g Hg; apply M; by right|exact T]. }
  assert (On0 : onward c c0) by (split; [apply grows_set_stack|done]).
  assert (Wt : forall s u qs, waits c s u qs -> waits c0 s u qs).
  { intros s u qs (g & Hg & Ek & y & Hy & A). rewrite Es in Hg. apply elem_of_cons in Hg as [->|Hg]; [|exists g; eauto].
    apply lookup_ge_None_1 in Em. rewrite drop_ge in Hy by lia. by apply elem_of_nil in Hy. }
  assert (Hend : forall c', onward c0 c' -> chain c' -> keys c' = map p_key l ->
     (forall s u qs, waits c0 s u qs -> waits c' s u qs) -> (forall t, depth_at c' t = depth_at c t) ->
     (forall t, cut_at c' t = cut_at c t \/ cut_at c' t = Some true /\ head (keys c') = Some t) ->
     (f.(p_fcut) = true -> forall t, head (keys c') = Some t -> cut_at c' t = Some true) -> 
     onward c c' /\ chain c' /\ left_done c').
  { intros c' On Ch' K Wt' D C Cf. assert (On' : onward c c') by by etrans. split_and!; [done|done|].
    eapply left_weaken; [|intros s u qs Hw; by apply Wt', Wt| |exact H].
    - intros s. rewrite <- !(fmap_is_Some p_depth). specialize (D s). unfold depth_at in D. by rewrite D.
    - intros s u qs o. eapply done_popped; [done|done|apply On'|done|done|done|done]. }
  destruct (p_fcut f) eqn:Ecf; [|by apply Hend; [..|left|]]. destruct l as [|g l].
  - change (pcut_top c0) with c0. apply Hend; try done. by left.
  - destruct (pcut_top_marks c0 g l eq_refl) as (K & D & C & N).
    { apply Forall_cons_1 in F as [F _]. apply F. }
    apply Hend; [apply onward_pcut_top| |done|intros s u qs; apply waits_pcut_top|done| |].
    + apply (chain_pcut_top c0 g l eq_refl); [by apply Forall_cons_1 in F as [F _]; apply F|by apply Forall_cons_1 in F as [F _]; apply F|done].
    + intros t. rewrite K. destruct (decide (t = p_key g)) as [->|Nt]; [by right|left; by rewrite N].
    + intros _ t. rewrite K. intros [= <-]. done.
Qed.

(** ** The loops *)

Record acyclic_inv c : Prop := {
  ac_complete : complete_inv budget props c; ac_chain : chain c; ac_left : left_done c }.

Lemma pstep_acyclic c c' :
  acyclic_inv c -> pstep budget budgets props c = (c', None) -> onward c c' /\ acyclic_inv c'.
Proof.
  intros [I Ch H] E. destruct (pstep_complete _ _ _ _ _ I E) as [_ I']. pose proof (ci_wf _ _ _ I) as W.
  enough (Hc : onward c c' /\ chain c' /\ left_done c') by (destruct Hc as (? & ? & ?); by split). revert E. unfold pstep.
  pose proof (wf_frames _ _ _ W) as F. destruct c.(p_stack) as [|f l] eqn:Es; [by intros [= <-]|].
  apply Forall_cons_1 in F as [Hf F]. destruct (p_moves f !! p_next f) as [m|] eqn:Em.
  - assert (Hn : S (p_next f) <= length (p_moves f)) by (apply lookup_lt_Some in Em; lia).
    set (f' := frame_with f _ _ _ _ _). set (g := fun v : pseen => _). set (c0 := on_pseen _ _ _).
    assert (W0 : wf budget props c0).
    { apply wf_on_pseen; [intros x; cbn; set_solver|]. constructor; [by eapply base_same; [..|apply W]| |apply W].
      constructor; [|by apply (frames_grow _ c); [apply grows_set_stack|]].
      apply (frame_ok_grows _ c); [apply grows_set_stack|by apply frame_ok_next]. }
    assert (A0 : alike c c0).
    { transitivity (set_stack c (p_onStack c) (f' :: l)); [|by apply alike_on_pseen].
      split; [|done|done|apply grows_set_stack]. rewrite Es. constructor; [done|apply frames_alike]. }
    intros E. destruct (ptake_acyclic f' m c0 l c' eq_refl) as (On & Ch' & L'); [|done|by eapply alike_chain| |done|].
    { apply (fo_moves _ _ _ Hf). by eapply list_elem_of_lookup_2. }
    { eapply left_weaken; [done|done| |exact (left_advance _ c f m l (p_onStack c) (p_key f') g Es Em H)].
      intros s u qs o [Ht|Hd]; [by left|right]. by eapply alike_done. }
    split_and!; [etrans; [by apply onward_alike|done]|done..].
  - intros [= <-]. by apply ppop_acyclic.
Qed.

(** A start that settles is found at depth zero. *)
Definition begun c (b : beginning State Error) : Prop :=
  match b with
  | NotSetUp _ => False
  | NotStarted e => told c [] e
  | Begun (Settled s) => depth_at c s = Some 0
  | Begun (Raised e) => told c [] e \/ boundOf e <> None
  end.

Lemma begun_onward c c' b : onward c c' -> begun c b -> begun c' b.
Proof. intros [G H]. destruct b as [| |[]]; cbn; [done|apply G|auto|]. intros [?|?]; [left; by apply G|by right]. Qed.

Lemma pstart_acyclic o picks c c' :
  takes begin picks (Begun o) -> acyclic_inv c -> c.(p_stack) = [] -> pstart budget props o picks c = (c', None) ->
  onward c c' /\ acyclic_inv c' /\ begun c' (Begun o).
Proof.
  intros Ho [I Ch H] Es E. destruct (pstart_complete _ _ _ _ _ _ Ho I Es E) as (_ & I' & _). pose proof (ci_wf _ _ _ I) as W.
  enough (Hc : onward c c' /\ (chain c' /\ left_done c') /\ begun c' (Begun o)) by (destruct Hc as (? & [? ?] & ?); by split_and!).
  clear I'. assert (Hs : scheduled {| startPicks := picks; made := [] |} o) by by constructor.
  destruct o as [s|e].
  - rewrite pstart_parrive in E by done. injection E as <-. set (r := {| here := s; via := _ |}) in *.
    assert (F : found budget r 0) by (split; [done|apply start_long]).
    assert (Hn : forall n, n ∈ [] -> said c n) by by intros n ?%elem_of_nil.
    assert (A : arriving c s 0) by (unfold arriving; by rewrite Es).
    assert (K : keys c = []) by (unfold keys; by rewrite Es).
    assert (Ar : arrives c (parrive budget props r 0 [] unspent c) s).
    { destruct (terminal s) eqn:Ht; [|by apply (arrives_entered r)].
      unfold parrive. change (here r) with s. rewrite Ht. by apply (arrives_completed r). }
    split_and!; [eapply onward_reached, Ar|apply Ar| |].
    + eapply left_arrives; [exact Ar|by rewrite K|]. eapply left_weaken; [done|done| |exact H]. intros; by right.
    + destruct (r_depth _ _ _ (ar_reached _ _ _ Ar)) as (k & E & _ & L). rewrite K in L. cbn. by rewrite E, L.
  - cbn in E. unfold pfailed in E.
    assert (Hd : forall c2, alike c c2 -> c2.(p_stack) = c.(p_stack) -> c2.(p_visited) = c.(p_visited) ->
      told c2 [] e \/ boundOf e <> None -> onward c c2 /\ (chain c2 /\ left_done c2) /\ begun c2 (Begun (Raised e))).
    { intros c2 A2 Es2 Ev2 He. split_and!; [by apply onward_alike|by eapply alike_chain| |done].
      eapply left_weaken; [| | |exact H].
      - intros s. by rewrite Ev2.
      - intros s u qs. by apply waits_same.
      - intros s u qs o. by eapply alike_done. }
    destruct (boundOf e) as [b0|] eqn:Ebo.
    + injection E as <-. apply Hd; [apply alike_phit|apply same_stack_phit|apply phit_visited|by right].
    + destruct (Is e ErrCheckRefused); [done|]. injection E as <-.
      apply Hd; [apply alike_pviolate|apply pviolate_fields|apply pviolate_fields|left].
      apply (pviolate_told (Build_pviolation _ _ _ _ _ _ _ _)); [|done]. cbn. unfold failure_kind. by destruct (_ || _).
Qed.

Record acyclic_starts (starts : list (list nat)) c : Prop := {
  as_inv : acyclic_inv c; as_stack : c.(p_stack) = []; as_legal : Forall start_legal starts;
  as_starts qs b : resolves begin qs b -> begun c b \/ exists picks x, picks ∈ starts /\ qs = picks ++ x }.

Lemma pfrom_acyclic fuel picks starts c c' more :
  acyclic_starts (picks :: starts) c -> pfrom budget budgets props fuel picks c = Some (c', None, more) ->
  acyclic_starts (starts ++ more) c'.
Proof.
  intros [I Es L A] E. inversion L as [|? ? Lp Ls]; subst. destruct (pfrom_inv _ _ _ _ _ _ _ _ E) as [-> Hc].
  pose proof (follow_takes (NotSetUp refusal) begin picks begin_offers Lp) as Ht.
  set (b0 := (follow (NotSetUp refusal) begin picks).1.1) in *.
  enough (H : onward c c' /\ acyclic_inv c' /\ c'.(p_stack) = [] /\ begun c' b0).
  { destruct H as (On & I' & Es' & A'). constructor; [done..| |].
    - apply Forall_app. split; [done|]. apply Forall_forall. intros x. by apply start_siblings.
    - intros qs b R. destruct (A qs b R) as [?|(q & x & Hq & ->)]; [left; by eapply begun_onward|].
      apply elem_of_cons in Hq as [->|Hq]; [|right; exists q, x; split; [apply elem_of_app; by left|done]].
      destruct (siblings_cover (NotSetUp refusal) _ _ _ _ Lp R) as [->|(y & z & Hy & ->)]; [by left|right].
      exists (picks ++ y), z. rewrite app_assoc. split; [|done]. apply elem_of_app. right. rewrite siblings_prefix.
      change (@map ?A ?B) with (@fmap list _ A B). apply list_elem_of_fmap. by exists y. }
  destruct Hc as [(e & Eo & ->)|(o & c1 & Eo & E1 & E2)]; rewrite Eo in Ht |- *.
  - destruct I as [I Ch H]. set (v := {| p_kind := ViolationFailure |}).
    pose proof (pviolate_fields v c) as (F1 & F2 & _). pose proof (alike_pviolate v c) as Av.
    split_and!; [by apply onward_alike| |by rewrite F2|by apply (pviolate_told v)].
    constructor; [|by eapply alike_chain|].
    + by apply complete_unstarted.
    + eapply left_weaken; [intros s; by rewrite F1|intros s u qs; by apply waits_same| |exact H].
      intros s u qs o. by eapply alike_done.
  - destruct (pstart_acyclic _ _ _ _ Ht I Es E1) as (O1 & I1 & A1).
    destruct (ploop_inv budget budgets props (fun c => onward c1 c /\ acyclic_inv c) fuel c1 c') as [[O2 I2] Es2].
    { intros x y [Ox Ix] Ey. destruct (pstep_acyclic _ _ Ix Ey). split; [by etrans|done]. }
    { by split. }
    { done. }
    split_and!; [by etrans|done|done|]. by eapply begun_onward.
Qed.

Lemma acyclic_new : acyclic_starts [[]] new_plain.
Proof.
  constructor; [constructor|done| |].
  - apply complete_new.
  - constructor; [constructor|by intros f ?%elem_of_nil|]. intros s _. unfold cut_at. cbn. by rewrite lookup_empty.
  - intros s a qs o [x Hx]. cbn in Hx. by rewrite lookup_empty in Hx.
  - constructor; [|constructor]. unfold start_legal. by rewrite sub_at_nil.
  - intros qs b _. right. exists [], qs. split; [left|done].
Qed.

(** ** The schedules within the bound *)

(** Where a schedule within the bound ends: a state no deeper, or with nothing cut below it. *)
Lemma acyclic_found c w o :
  acyclic_starts [] c -> scheduled w o -> budget.(Depth) = 0 \/ length w.(made) <= budget.(Depth) ->
  match o with
  | Settled s => exists n, depth_at c s = Some n /\ (n <= length w.(made) \/ cut_at c s = Some false)
  | Raised e => told c [] e \/ boundOf e <> None
  end.
Proof.
  intros [[I Ch H] Es _ A] Hw. induction Hw as [ps o [n R]|ps e [n R]|w s a ps o Hw IH Ha [n R]]; cbn [made]; intros Hd.
  - destruct (A _ _ R) as [Hb|(? & ? & ?%elem_of_nil & _)]; [|done]. destruct o as [s|e]; [|done].
    exists 0. split; [done|left; lia].
  - destruct (A _ _ R) as [Hb|(? & ? & ?%elem_of_nil & _)]; [by left|done].
  - rewrite length_app in Hd |- *. cbn in Hd |- *. destruct IH as (i & Ei & Hi); [lia|].
    rewrite <- app_assoc in R. destruct (H s a _ o ltac:(by eapply depth_at_visited) Ha R) as [(f & Hf & _)|Hx].
    { rewrite Es in Hf. by apply elem_of_nil in Hf. }
    destruct Hx as [(Hc & j & Ej & B1 & B2)|Hx].
    + destruct Hi as [Hi|Hi]; [|congruence]. rewrite Ei in Ej. injection Ej as <-. lia.
    + destruct o as [t|e]; [|done]. destruct Hx as [H1 (j & k & Ej & Ek & H2)]. exists k. split; [done|].
      rewrite Ei in Ej. injection Ej as <-. destruct H2 as [H2|[H2 _]]; [|by right].
      destruct Hi as [Hi|Hi]; [left; lia|]. destruct (H1 Hi) as [[? _]|(l1 & k1 & E1)]; [by right|].
      unfold keys in E1. rewrite Es in E1. by destruct l1.
Qed.

(** What the plain search finds of a schedule within the bound. *)
Lemma acyclic_depth fuel n c w o :
  pcheck_loop budget budgets props fuel n [[]] new_plain = Some (c, None) -> scheduled w o ->
  budget.(Depth) = 0 \/ length w.(made) <= budget.(Depth) ->
  match o with
  | Settled s => (forall p, p ∈ props -> judged c s p) /\ (terminal s = true -> finals_at c s)
  | Raised e => told c [] e \/ boundOf e <> None
  end.
Proof.
  intros E Hw Hd. eapply (pcheck_loop_inv budget budgets props acyclic_starts) in E; [|apply pfrom_acyclic|apply acyclic_new].
  pose proof (acyclic_found c w o E Hw Hd) as Ho. destruct E as [[I _ _] _ _ _]. destruct (ci_settled _ _ _ I) as [S1 S2].
  destruct o as [s|e]; [|done]. destruct Ho as (i & Ei & _). apply depth_at_visited in Ei. auto.
Qed.
End Acyclic.

Section Within.
Context {State Executor Node Error : Type}.
Context `{EqDecision State, !Countable State, EqDecision Executor, EqDecision Node}.
Context `{Inv : Invoked State Executor Node Error} `{!Offering Inv}.
Variables (budget : CheckBudget) (budgets : Budgets) (props : list (CheckProperty State Error)).

(** The search of a check that hit no counted bound is the one bounded in depth alone. *)
Lemma Check_spared fuel (r : CheckReport Executor Node Error) :
  Check budget budgets props fuel = Some (inl r) -> (forall b, b ∈ r.(RBoundsHit) -> b ∉ counted) ->
  exists c : plain State Executor Node Error,
    pcheck_loop (depth_only budget) uncounted props fuel fuel [[]] new_plain = Some (c, None) /\
    map strip_violation r.(Violations) = c.(p_violations) /\ r.(Finals) = merge_sort (by_key fIdentity) c.(p_results).
Proof.
  intros E Hb. destruct (Check_strip budget budgets props fuel r E) as (c & Ec & _ & _ & _ & Eb & Ev & Ef & _).
  exists c. split_and!; [|done..]. apply (spared_loop budget budgets props _ _ _ _ _ Ec). intros b. rewrite <- Eb. apply Hb.
Qed.

(** C7: where no move leads back to a state ([rank] falls with every move), a check with a
    depth bound that hit neither the bound on states nor a budget of an executor leaves
    out nothing the schedules within the depth bound reach, though each state is searched
    once and a longer schedule may have reached it first. The error such a schedule ends
    in is reported, or is a bound the executor hit; at the state it reaches a property
    that is false is reported, and one that cannot be evaluated, unless its evaluation
    ran into the limit on statement orders; and the outcomes of a state with no move are
    among the finals. *)
Theorem Check_within_depth (rank : State -> nat) (fuel : nat) (r : CheckReport Executor Node Error)
    (w : Schedule Executor Node) (o : ending State Error) :
  (forall s a qs t, reachable s -> a ∈ enabledMoves s -> resolves (make s a.(moved)) (a.(Picks) ++ qs) (Settled t) ->
     rank t < rank s) ->
  Check budget budgets props fuel = Some (inl r) -> (forall b, b ∈ r.(RBoundsHit) -> b ∉ counted) ->
  scheduled w o -> budget.(Depth) = 0 \/ length w.(made) <= budget.(Depth) ->
  match o with
  | Raised e => boundOf e <> None \/ exists v, v ∈ r.(Violations) /\ v.(Err) = Some e
  | Settled s =>
      (forall p, p ∈ props ->
         match p.(Holds) s with
         | (true, None) => True
         | (false, None) => exists v, v ∈ r.(Violations) /\ v.(VKind) = ViolationProperty /\ v.(VName) = p.(pName)
         | (_, Some e) => Is e errStatementOrderSweepLimit = true \/
             exists v, v ∈ r.(Violations) /\ v.(VName) = p.(pName) /\ v.(Err) = Some e
         end) /\
      (terminal s = true -> forall x, x ∈ (spellFinalVariants s).1 ->
         exists y, y ∈ r.(Finals) /\ y.(fIdentity) = x.(sf_identity))
  end.
Proof.
  intros Hr E Hb Hw Hd. destruct (Check_spared fuel r E Hb) as (c & Ec & Ev & Ef).
  pose proof (acyclic_depth (depth_only budget) uncounted props rank Hr eq_refl ltac:(by cbn) _ _ c w o Ec Hw Hd) as Ho.
  assert (V : forall v, v ∈ c.(p_violations) -> exists u, u ∈ r.(Violations) /\ strip_violation u = v).
  { intros v. rewrite <- Ev. change (@map ?A ?B) with (@fmap list _ A B). intros (u & -> & Hu)%list_elem_of_fmap. by exists u. }
  destruct o as [s|e].
  - destruct Ho as [S1 S2]. split.
    + intros p Hp. specialize (S1 p Hp). unfold judged in S1. destruct (Holds p s) as [[|] [e|]]; [| |..|].
      1, 3: destruct (Is e _); [by left|right]; destruct S1 as (v & Hv & _ & Hn & Hve); destruct (V v Hv) as (u & Hu & <-); by exists u.
      * done.
      * destruct S1 as (v & Hv & Hk & Hn). destruct (V v Hv) as (u & Hu & <-). by exists u.
    + intros Ht x Hx. destruct (S2 Ht x Hx) as (y & Hy & Eg). exists y. by rewrite Ef, merge_sort_Permutation.
  - destruct Ho as [(v & Hv & _ & _ & Hve)|]; [right|by left]. destruct (V v Hv) as (u & Hu & <-). by exists u.
Qed.
End Within.

(** State 3 is reached the long way by three moves, where the bound cuts it, and the short
    way by one: 5 is three moves away. *)
Definition ladder_edges (s : nat) : list (list ends) :=
  match s with
  | 0 => [[Settled 1]; [Settled 3]] | 1 => [[Settled 2]] | 2 => [[Settled 3]] | 3 => [[Settled 4]] | 4 => [[Settled 5]] | _ => []
  end.

Lemma ladder_falls s l t : l ∈ ladder_edges s -> (l <> [] -> Settled t ∈ l) -> 5 - t < 5 - s.
Proof.
  intros Hl Ht. assert (s < t <= 5); [|lia].
  do 5 (destruct s as [|s]; [cbn in Hl; repeat (apply elem_of_cons in Hl as [->|Hl];
    [specialize (Ht ltac:(done)); apply list_elem_of_singleton in Ht; injection Ht as ->; lia|]); by apply elem_of_nil in Hl|]).
  cbn in Hl. by apply elem_of_nil in Hl.
Qed.

(** Bounds that are on, but for the depth not reached. *)
Definition ladder_budget : CheckBudget := {| Depth := 3; States := 50 |}.
Definition ladder_budgets : Budgets := {| MaxActionSteps := 10; MaxStateEvents := 10; MaxDoSteps := 10 |}.

Lemma Check_within_depth_witness :
  reports (Check (Inv := sample at_once ladder_edges) ladder_budget ladder_budgets [avoids 5] 30)
    (fun r => r.(RBoundsHit) = [bs "depth"] /\
      exists v, v ∈ r.(Violations) /\ v.(VKind) = ViolationProperty /\ v.(VName) = bs "avoids").
Proof.
  destruct (reports_report (Check (Inv := sample at_once ladder_edges) ladder_budget ladder_budgets [avoids 5] 30)
    (fun r => r.(RBoundsHit) = [bs "depth"])) as (r & E & H); [vm_compute; reflexivity|].
  rewrite E. split; [exact H|].
  destruct (sample_start ladder_edges) as (w0 & H0 & L0).
  destruct (sample_move ladder_edges w0 0 1 (Settled 3) H0 eq_refl) as (w1 & H1 & L1).
  destruct (sample_move ladder_edges w1 3 0 (Settled 4) H1 eq_refl) as (w2 & H2 & L2).
  destruct (sample_move ladder_edges w2 4 0 (Settled 5) H2 eq_refl) as (w3 & H3 & L3).
  refine (proj1 (Check_within_depth (Inv := sample at_once ladder_edges) (Offering0 := sample_offering _ _ at_once_offers)
    ladder_budget ladder_budgets [avoids 5] (fun s => 5 - s) 30 r w3 (Settled 5) _ E _ H3 _) (avoids 5) ltac:(left)).
  - intros s a qs t _ Ha R. destruct (sample_end ladder_edges s a qs (Settled t) Ha R) as (l & Hl & Ht).
    exact (ladder_falls s l t Hl Ht).
  - rewrite H. intros b Hb. apply list_elem_of_singleton in Hb as ->. vm_compute. intros Hc.
    repeat (apply elem_of_cons in Hc as [?|Hc]; [discriminate|]). by apply elem_of_nil in Hc.
  - right. rewrite L3, L2, L1, L0. apply Nat.le_refl.
Defined.
