(* ===== verification/Footprint.v ===== *)
(** * Footprints

    Models the independence relation of [internal/ir/lower/footprint.go]: what one move
    may touch, and when two moves may not commute. How lowering derives a footprint
    from a node is not modelled. Symbols, states, nodes, references and scopes are
    compared by identity only; the class [Named] holds them with the two tests the code
    makes of a symbol's declaration. *)
From stdpp Require Import list.
From S2P Require Import Prelude Bytes.
Local Open Scope nat_scope.

Class Named := {
  Symbol : Type; StateNode : Type; GraphNode : Type; TypeRef : Type; NameScope : Type;
  Symbol_eq_dec : EqDecision Symbol; StateNode_eq_dec : EqDecision StateNode; GraphNode_eq_dec : EqDecision GraphNode;
  TypeRef_eq_dec : EqDecision TypeRef; NameScope_eq_dec : EqDecision NameScope;
  (** [isFeatureSymbol]: the symbol declares a usage. *)
  isFeatureSymbol : Symbol -> bool;
  (** The symbol is that of an attribute usage. *)
  isAttributeUsage : Symbol -> bool }.
#[export] Existing Instance Symbol_eq_dec.
#[export] Existing Instance StateNode_eq_dec.
#[export] Existing Instance GraphNode_eq_dec.
#[export] Existing Instance TypeRef_eq_dec.
#[export] Existing Instance NameScope_eq_dec.

Section Footprints.
Context `{N : Named}.

(** ** Places and channels *)

Record Place := {
  Sym : option Symbol; PName : bytes; Local_ : bool; State : option StateNode; Direct : bool;
  Via : option Symbol; PNode : option GraphNode }.

#[export] Instance Place_eq_dec : EqDecision Place.
Proof. solve_decision. Defined.

Definition Conflicts (p q : Place) : bool :=
  if bool_decide (p.(State) <> None) || bool_decide (q.(State) <> None) then bool_decide (p.(State) = q.(State))
  else
    let apart := match p.(PNode), q.(PNode) with Some n, Some k => bool_decide (n <> k) | _, _ => false end in
    if apart then false
    else
      match p.(Sym), q.(Sym) with
      | Some x, Some y =>
          if bool_decide (x = y) then true
          else if p.(Local_) || q.(Local_) then false
          else bool_decide (p.(PName) = q.(PName))
      | _, _ => bool_decide (p.(PName) = q.(PName))
      end.

Record Channel := {
  Signal : bytes; Port : bytes; CType : option TypeRef; Message : option GraphNode; CScope : option NameScope;
  CVia : bool; Drops : bool; Own : bool }.

(** ** Footprints *)

(** One statement's data flow. *)
Record Flow := { FlowReads : list Place; FlowWrites : list Place }.

Record Footprint := {
  Reads : list Place; Writes : list Place; Sends : list Channel; Accepts : list Channel;
  Control : list GraphNode; Completion : bool; Dynamic : bool; Creates : bool; Routes : bool; Flows : list Flow }.

#[export] Instance Channel_eq_dec : EqDecision Channel.
Proof. solve_decision. Defined.
#[export] Instance Flow_eq_dec : EqDecision Flow.
Proof. solve_decision. Defined.
#[export] Instance Footprint_eq_dec : EqDecision Footprint.
Proof. solve_decision. Defined.

(** The zero footprint, and the one that depends on everything. *)
Definition nothing : Footprint :=
  {| Reads := []; Writes := []; Sends := []; Accepts := []; Control := []; Completion := false; Dynamic := false;
     Creates := false; Routes := false; Flows := [] |}.
Definition anything : Footprint :=
  {| Reads := []; Writes := []; Sends := []; Accepts := []; Control := []; Completion := false; Dynamic := true;
     Creates := false; Routes := false; Flows := [] |}.

Definition unionFootprints (f g : Footprint) : Footprint :=
  {| Reads := f.(Reads) ++ g.(Reads); Writes := f.(Writes) ++ g.(Writes); Sends := f.(Sends) ++ g.(Sends);
     Accepts := f.(Accepts) ++ g.(Accepts); Control := f.(Control) ++ g.(Control);
     Completion := f.(Completion) || g.(Completion); Dynamic := f.(Dynamic) || g.(Dynamic);
     Creates := f.(Creates) || g.(Creates); Routes := f.(Routes) || g.(Routes); Flows := f.(Flows) ++ g.(Flows) |}.

(** ** Dependence *)

(** Whether a message operation of one move may not commute with one of another: each
    channel with whether it sends. *)
Definition ChannelsMeet : Type := Channel -> bool -> Channel -> bool -> bool.

(** What is known of the executors of two moves; [None] is Go's [nil]. *)
Record Relation := { Channels : option ChannelsMeet; Apart : bool; Objects : bool; Held : option (Place -> Place -> bool) }.
Definition unrelated : Relation := {| Channels := None; Apart := false; Objects := false; Held := None |}.

Definition held (rel : Relation) (p q : Place) : bool :=
  if negb rel.(Objects) then false
  else if p.(Local_) || q.(Local_) || bool_decide (p.(State) <> None) || bool_decide (q.(State) <> None) then true
  else p.(Direct) && q.(Direct) && match rel.(Held) with Some h => h p q | None => false end.

Definition PlaceMeet (rel : Relation) (p q : Place) : bool := Conflicts p q && negb (held rel p q).

Definition placesMeet (rel : Relation) (ps qs : list Place) : bool := existsb (fun a => existsb (PlaceMeet rel a) qs) ps.

Definition readsExtent (reads : list Place) : bool :=
  existsb (fun p => bool_decide (p.(State) = None) && negb p.(Local_) &&
                    match p.(Sym) with Some x => negb (isFeatureSymbol x) | None => true end) reads.

Definition writesStructure (rel : Relation) (writes : list Place) : bool :=
  existsb (fun p =>
    if bool_decide (p.(State) <> None) || p.(Local_) && rel.(Objects) then false
    else match p.(Sym) with Some x => negb (isAttributeUsage x) | None => true end) writes.

Definition is_empty {A} (l : list A) : bool := match l with [] => true | _ => false end.
Definition messages (f : Footprint) : bool := negb (is_empty f.(Sends)) || negb (is_empty f.(Accepts)).

Definition channelsMeet (cs : list Channel) (sends : bool) (ds : list Channel) (sends' : bool) (meet : ChannelsMeet) : bool :=
  existsb (fun a => existsb (fun b => meet a sends b sends') ds) cs.

Definition messagesMeet (f g : Footprint) (meet : option ChannelsMeet) : bool :=
  if negb (messages f) || negb (messages g) then false
  else match meet with
       | None => true
       | Some meet =>
           channelsMeet f.(Sends) true g.(Sends) true meet || channelsMeet f.(Sends) true g.(Accepts) false meet ||
           channelsMeet f.(Accepts) false g.(Sends) true meet || channelsMeet f.(Accepts) false g.(Accepts) false meet
       end.

Definition DependentBy (f g : Footprint) (rel : Relation) : bool :=
  if f.(Dynamic) || g.(Dynamic) then true
  else if placesMeet rel f.(Writes) g.(Reads) || placesMeet rel f.(Writes) g.(Writes) || placesMeet rel f.(Reads) g.(Writes) then true
  else if messagesMeet f g rel.(Channels) then true
  else if f.(Completion) && g.(Completion) then true
  else if f.(Creates) && (g.(Creates) || readsExtent g.(Reads)) || g.(Creates) && readsExtent f.(Reads) then true
  else if f.(Routes) && writesStructure rel g.(Writes) || g.(Routes) && writesStructure rel f.(Writes) then true
  else if rel.(Apart) then false
  else existsb (fun n => existsb (fun k => bool_decide (n = k)) g.(Control)) f.(Control).

Definition Dependent (f g : Footprint) : bool := DependentBy f g unrelated.

(** ** A footprint indexed by its flows *)

Record flowIndex := { freads : list nat; fwrites : list nat }.

(** [Standing], but for the scratch of a query. *)
Record Standing := {
  SReads : list Place; SWrites : list Place; reads : list Place; inReads : list bool; others : list Place;
  written : list Place; flows : list flowIndex }.

(** The move's write of the place a flow names, as the move holds it. *)
Definition writeOf (f : Footprint) (p : Place) : Place :=
  match list_find (fun w => w.(Sym) = p.(Sym) /\ w.(PName) = p.(PName)) f.(Writes) with Some (_, w) => w | None => p end.

Definition index_of (p : Place) (l : list Place) : option nat := fst <$> list_find (fun q => q = p) l.

(** The index of a place in the list of the distinct ones, entered at its end if new:
    the maps [readAt] and [writtenAt] index these lists. *)
Definition enlist (st : list Place * list nat) (p : Place) : list Place * list nat :=
  match index_of p st.1 with
  | Some i => (st.1, st.2 ++ [i])
  | None => (st.1 ++ [p], st.2 ++ [length st.1])
  end.

Definition index_flow (f : Footprint) (s : Standing) (flow : Flow) : Standing :=
  let rs := fold_left enlist flow.(FlowReads) (s.(reads), []) in
  let ws := fold_left (fun st p => if is_empty p.(PName) then st else enlist st (writeOf f p))
              flow.(FlowWrites) (s.(written), []) in
  {| SReads := s.(SReads); SWrites := s.(SWrites); reads := rs.1; inReads := s.(inReads); others := s.(others);
     written := ws.1; flows := s.(flows) ++ [{| freads := rs.2; fwrites := ws.2 |}] |}.

Definition note_read (reads : list Place) (st : list bool * list Place) (p : Place) : list bool * list Place :=
  match index_of p reads with Some i => (<[i := true]> st.1, st.2) | None => (st.1, st.2 ++ [p]) end.

Definition StandingOf (f : Footprint) : Standing :=
  let s := fold_left (index_flow f) f.(Flows)
             {| SReads := f.(Reads); SWrites := f.(Writes); reads := []; inReads := []; others := []; written := [];
                flows := [] |} in
  let r := fold_left (note_read s.(reads)) f.(Reads) (replicate (length s.(reads)) false, []) in
  {| SReads := s.(SReads); SWrites := s.(SWrites); reads := s.(reads); inReads := r.1; others := r.2;
     written := s.(written); flows := s.(flows) |}.

(** The two footprints read and write the same places by the same statements. *)
Definition PlacesEqual (f g : Footprint) : bool :=
  bool_decide (f.(Reads) = g.(Reads)) && bool_decide (f.(Writes) = g.(Writes)) &&
  (length f.(Flows) =? length g.(Flows)) &&
  forallb (fun fg => bool_decide (fg.1.(FlowReads) = fg.2.(FlowReads)) && bool_decide (fg.1.(FlowWrites) = fg.2.(FlowWrites)))
    (zip f.(Flows) g.(Flows)).

Definition set_at (l : list bool) (i : nat) : bool := default false (l !! i).

(** The writes of a flow not collected yet. *)
Definition collect (written : list Place) (st : list bool * list Place) (i : nat) : list bool * list Place :=
  if set_at st.1 i then st
  else (<[i := true]> st.1, st.2 ++ match written !! i with Some w => [w] | None => [] end).

Definition collect_flow (met : list bool) (written : list Place) (st : list bool * list Place) (flow : flowIndex)
    : list bool * list Place :=
  if existsb (set_at met) flow.(freads) then fold_left (collect written) flow.(fwrites) st else st.

Definition WritesReading (s : Standing) (meets : Place -> bool) : list Place * bool :=
  let met := map meets s.(reads) in
  let inFlow := existsb id met in
  let found := existsb (fun x => x.1 && x.2) (zip met s.(inReads)) in
  let found := if found then true else existsb meets s.(others) in
  if negb found then ([], false)
  else if negb inFlow then (s.(SWrites), true)
  else ((fold_left (collect_flow met s.(written)) s.(flows) (replicate (length s.(written)) false, [])).2, true).
End Footprints.
