(* ===== verification/FootprintFacts.v ===== *)
(** * What the independence relation promises

    Dependence is symmetric ([DependentBy_flip]), that of a union is that of a part
    ([DependentBy_union]), and the index of a footprint answers what its flows say
    ([WritesReading_spec]). *)
From stdpp Require Import list.
From S2P Require Import Prelude Bytes Footprint.
Local Open Scope nat_scope.

Section Facts.
Context `{N : Named}.
Implicit Types (p q w : Place) (f g : Footprint) (rel : Relation).

(** ** Symmetry *)

(** What is known of two executors, the other one named first. *)
Definition flip_relation rel : Relation :=
  {| Channels := (fun meet a sa b sb => meet b sb a sa) <$> rel.(Channels); Apart := rel.(Apart); Objects := rel.(Objects);
     Held := (fun h p q => h q p) <$> rel.(Held) |}.

Lemma Conflicts_sym p q : Conflicts p q = Conflicts q p.
Proof.
  unfold Conflicts. destruct (State p), (State q), (PNode p), (PNode q), (Sym p), (Sym q);
    cbn; repeat case_bool_decide; destruct (Local_ p), (Local_ q); cbn; congruence.
Qed.

Lemma held_flip rel p q : held (flip_relation rel) p q = held rel q p.
Proof.
  unfold held. cbn. destruct (Objects rel); [|done]. cbn. rewrite (orb_comm (Local_ p)), !(orb_comm (_ || _)).
  destruct (Local_ p), (Local_ q), (bool_decide (State p <> None)), (bool_decide (State q <> None)); try done.
  cbn. rewrite (andb_comm (Direct p)). by destruct (Held rel).
Qed.

Lemma PlaceMeet_flip rel p q : PlaceMeet (flip_relation rel) p q = PlaceMeet rel q p.
Proof. unfold PlaceMeet. by rewrite held_flip, Conflicts_sym. Qed.

Lemma existsb_ext {A} (h k : A -> bool) l : (forall x, h x = k x) -> existsb h l = existsb k l.
Proof. intros H. induction l as [|x l IH]; [done|]. cbn. by rewrite H, IH. Qed.

Lemma existsb_swap {A B} (h : A -> B -> bool) l k :
  existsb (fun a => existsb (h a) k) l = existsb (fun b => existsb (fun a => h a b) l) k.
Proof.
  apply eq_true_iff_eq. rewrite !existsb_exists. setoid_rewrite existsb_exists. naive_solver.
Qed.

Lemma placesMeet_flip rel ps qs : placesMeet (flip_relation rel) ps qs = placesMeet rel qs ps.
Proof.
  unfold placesMeet. rewrite existsb_swap. apply existsb_ext. intros p. apply existsb_ext. intros q. apply PlaceMeet_flip.
Qed.

Lemma writesStructure_flip rel qs : writesStructure (flip_relation rel) qs = writesStructure rel qs.
Proof. done. Qed.

Lemma messagesMeet_flip f g rel : messagesMeet f g (flip_relation rel).(Channels) = messagesMeet g f rel.(Channels).
Proof.
  unfold messagesMeet. rewrite (orb_comm (negb (messages f))). case_match; [done|]. cbn. destruct (Channels rel) as [meet|]; [|done].
  cbn. unfold channelsMeet. rewrite !(existsb_swap (fun a b => meet b _ a _)).
  destruct (existsb _ _), (existsb _ _), (existsb _ _), (existsb _ _); done.
Qed.

(** Dependence does not depend on the order of the moves. *)
Lemma DependentBy_flip f g rel : DependentBy f g (flip_relation rel) = DependentBy g f rel.
Proof.
  unfold DependentBy. rewrite !placesMeet_flip, messagesMeet_flip, !writesStructure_flip.
  rewrite (orb_comm (Dynamic f)), (andb_comm (Completion f)), (existsb_swap _ (Control f)). cbn [Apart flip_relation].
  replace (existsb (fun b => existsb (fun a => bool_decide (a = b)) (Control f)) (Control g))
    with (existsb (fun n => existsb (fun k => bool_decide (n = k)) (Control f)) (Control g))
    by (apply existsb_ext; intros n; apply existsb_ext; intros k; by apply bool_decide_ext).
  destruct (Dynamic g || Dynamic f), (placesMeet rel (Reads g) (Writes f)), (placesMeet rel (Writes g) (Writes f)),
    (placesMeet rel (Writes g) (Reads f)), (messagesMeet g f (Channels rel)), (Completion g && Completion f); try done.
  destruct (Creates f), (Creates g), (readsExtent (Reads f)), (readsExtent (Reads g)); try done; cbn;
    by rewrite (orb_comm (Routes f && _)).
Qed.

(** ** Unions *)

Lemma if_true_orb (b c : bool) : (if b then true else c) = b || c.
Proof. by destruct b. Qed.
Lemma if_false_andb (b c : bool) : (if b then false else c) = negb b && c.
Proof. by destruct b. Qed.


Lemma is_empty_app {A} (l k : list A) : negb (is_empty (l ++ k)) = negb (is_empty l) || negb (is_empty k).
Proof. by destruct l. Qed.

Lemma messages_union f g : messages (unionFootprints f g) = messages f || messages g.
Proof. unfold messages. cbn. rewrite !is_empty_app. by destruct (is_empty _), (is_empty _), (is_empty _), (is_empty _). Qed.

Lemma existsb_empty {A} (h : A -> bool) l : is_empty l = true -> existsb h l = false.
Proof. by destruct l. Qed.

Definition operations_meet f g meet : bool :=
  channelsMeet f.(Sends) true g.(Sends) true meet || channelsMeet f.(Sends) true g.(Accepts) false meet ||
  channelsMeet f.(Accepts) false g.(Sends) true meet || channelsMeet f.(Accepts) false g.(Accepts) false meet.

(** A move without messages meets none. *)
Lemma messagesMeet_Some f g meet : messagesMeet f g (Some meet) = messages g && operations_meet f g meet.
Proof.
  unfold messagesMeet. destruct (messages g); [|by rewrite orb_true_r]. rewrite orb_false_r. cbn.
  destruct (messages f) eqn:E; [done|]. unfold messages in E. apply orb_false_iff in E as [H1 H2]. apply negb_false_iff in H1, H2.
  unfold operations_meet, channelsMeet. cbn. by rewrite !existsb_empty.
Qed.

Lemma messagesMeet_union f f' g meet :
  messagesMeet (unionFootprints f f') g meet = messagesMeet f g meet || messagesMeet f' g meet.
Proof.
  destruct meet as [meet|].
  - rewrite !messagesMeet_Some, <- andb_orb_distrib_r. f_equal.
    unfold operations_meet, channelsMeet. cbn [Sends Accepts unionFootprints]. rewrite !existsb_app.
    repeat match goal with |- context [existsb ?h ?l] => destruct (existsb h l) end; reflexivity.
  - unfold messagesMeet. rewrite messages_union. by destruct (messages f), (messages f'), (messages g).
Qed.

(** Dependence, one reason after the other. *)
Lemma DependentBy_reasons f g rel :
  DependentBy f g rel = (f.(Dynamic) || g.(Dynamic)) ||
    ((placesMeet rel f.(Writes) g.(Reads) || placesMeet rel f.(Writes) g.(Writes) || placesMeet rel f.(Reads) g.(Writes)) ||
     (messagesMeet f g rel.(Channels) || ((f.(Completion) && g.(Completion)) ||
      ((f.(Creates) && (g.(Creates) || readsExtent g.(Reads)) || g.(Creates) && readsExtent f.(Reads)) ||
       ((f.(Routes) && writesStructure rel g.(Writes) || g.(Routes) && writesStructure rel f.(Writes)) ||
        (negb rel.(Apart) && existsb (fun n => existsb (fun k => bool_decide (n = k)) g.(Control)) f.(Control))))))).
Proof. unfold DependentBy. by rewrite !if_true_orb, if_false_andb. Qed.

Lemma orb_parts (a b x y z w : bool) : a = x || y -> b = z || w -> a || b = (x || z) || (y || w).
Proof. intros -> ->. by destruct x, y, z, w. Qed.

(** A union depends on what one of its parts depends on, and on nothing else. *)
Lemma DependentBy_union f f' g rel :
  DependentBy (unionFootprints f f') g rel = DependentBy f g rel || DependentBy f' g rel.
Proof.
  rewrite !DependentBy_reasons, messagesMeet_union. cbn [Reads Writes Control Completion Dynamic Creates Routes unionFootprints].
  unfold placesMeet, readsExtent, writesStructure. rewrite !existsb_app. repeat apply orb_parts; try done.
  all: repeat match goal with |- context [existsb ?h ?l] => destruct (existsb h l) end.
  all: try (destruct (Dynamic f), (Dynamic f'), (Dynamic g); done).
  all: repeat match goal with |- context [?h ?x && _] => is_var x; destruct (h x) | |- context [_ && ?h ?x] => is_var x; destruct (h x) end.
  all: try done; try (by destruct (Creates g)); by destruct (Apart rel).
Qed.

(** ** The index of a footprint *)

Lemma index_of_Some p l i : index_of p l = Some i -> l !! i = Some p.
Proof. unfold index_of. intros ([j x] & E & ->)%fmap_Some. apply list_find_Some in E as (E & -> & _). done. Qed.

Lemma index_of_None p l : index_of p l = None -> p ∉ l.
Proof.
  unfold index_of. intros E%fmap_None. apply list_find_None in E. rewrite List.Forall_forall in E.
  intros H%list_elem_of_In. by apply (E p).
Qed.

(** Indices of a list that stand for places, in the order of the places. *)
Definition stands_for (l : list Place) (ix : list nat) (ps : list Place) : Prop := Forall2 (fun i p => l !! i = Some p) ix ps.

Lemma stands_for_app l k ix ps : stands_for l ix ps -> stands_for (l ++ k) ix ps.
Proof. intros H. eapply Forall2_impl; [exact H|]. intros i p E. by apply lookup_app_l_Some. Qed.

Lemma enlist_spec (l : list Place) (ix : list nat) (ps : list Place) p :
  NoDup l -> stands_for l ix ps ->
  NoDup (enlist (l, ix) p).1 /\ stands_for (enlist (l, ix) p).1 (enlist (l, ix) p).2 (ps ++ [p]) /\
  (exists k, (enlist (l, ix) p).1 = l ++ k) /\ (forall q, q ∈ (enlist (l, ix) p).1 <-> q ∈ l \/ q = p).
Proof.
  intros Hl Hs. unfold enlist. cbn [fst snd]. destruct (index_of p l) as [i|] eqn:E; cbn [fst snd].
  - apply index_of_Some in E. split_and!; [done|apply Forall2_app; [exact Hs|by constructor]|exists []; by rewrite app_nil_r|].
    intros q. split; [by left|]. intros [?| ->]; [done|by eapply list_elem_of_lookup_2].
  - apply index_of_None in E. split_and!; [|apply Forall2_app; [by apply stands_for_app|constructor; [|done]]|by eexists|].
    + apply NoDup_app. split_and!; [done| |apply NoDup_singleton]. intros q Hq ->%list_elem_of_singleton. done.
    + by rewrite lookup_app_r, Nat.sub_diag.
    + intros q. by rewrite elem_of_app, list_elem_of_singleton.
Qed.

(** Entering a list of places, those [h] keeps as [g] holds them. *)
Lemma enlist_all (h : Place -> bool) (g : Place -> Place) qs : forall l ix ps,
  NoDup l -> stands_for l ix ps ->
  let st := fold_left (fun st p => if h p then st else enlist st (g p)) qs (l, ix) in
  let kept := map g (filter (fun p => h p = false) qs) in
  NoDup st.1 /\ stands_for st.1 st.2 (ps ++ kept) /\ (exists k, st.1 = l ++ k) /\ (forall q, q ∈ st.1 <-> q ∈ l \/ q ∈ kept).
Proof.
  induction qs as [|p qs IH]; intros l ix ps Hl Hs; cbn [fold_left].
  - cbn. rewrite app_nil_r. split_and!; [done|done|exists []; by rewrite app_nil_r|]. intros q. rewrite elem_of_nil. tauto.
  - rewrite filter_cons. destruct (h p) eqn:E.
    + rewrite decide_False by done. by apply IH.
    + rewrite decide_True by done. destruct (enlist_spec l ix ps (g p) Hl Hs) as (H1 & H2 & [k1 H3] & H4).
      destruct (enlist (l, ix) (g p)) as [l1 ix1] eqn:E1. cbn [fst snd] in *.
      destruct (IH l1 ix1 (ps ++ [g p]) H1 H2) as (K1 & K2 & [k2 K3] & K4). cbv zeta in *. cbn [map].
      rewrite <- app_assoc in K2. split_and!; [done|done|exists (k1 ++ k2); by rewrite K3, H3, app_assoc|].
      intros q. rewrite K4, H4, elem_of_cons. tauto.
Qed.

Lemma enlist_plain qs (l : list Place) :
  NoDup l ->
  let st := fold_left enlist qs (l, []) in
  NoDup st.1 /\ stands_for st.1 st.2 qs /\ (exists k, st.1 = l ++ k) /\ (forall q, q ∈ st.1 <-> q ∈ l \/ q ∈ qs).
Proof.
  intros Hl. destruct (enlist_all (fun _ => false) id qs l [] [] Hl ltac:(constructor)) as (A & B & C & D).
  assert (Ef : map id (filter (fun _ => false = false) qs) = qs).
  { rewrite map_id. apply filter_all, Forall_forall. done. }
  rewrite Ef in B, D. exact (conj A (conj B (conj C D))).
Qed.

(** ** What a query answers *)

(** The first occurrences of a list, in order. *)
Definition first_of (l : list Place) : list Place := fold_left (fun l p => if bool_decide (p ∈ l) then l else l ++ [p]) l [].

(** The places of a flow's writes, as the move holds them. *)
Definition held_writes f (flow : Flow) : list Place := map (writeOf f) (filter (fun p => is_empty p.(PName) = false) flow.(FlowWrites)).

Definition reads_met (meets : Place -> bool) (flow : Flow) : bool := existsb meets flow.(FlowReads).

(** [WritesReading] by the flows themselves. *)
Definition writes_reading f (meets : Place -> bool) : list Place * bool :=
  if negb (existsb meets f.(Reads)) then ([], false)
  else if negb (existsb (reads_met meets) f.(Flows)) then (f.(Writes), true)
  else (first_of (concat (map (held_writes f) (filter (fun flow => reads_met meets flow = true) f.(Flows)))), true).

(** ** The index *)

(** The flows indexed so far. *)
Record indexed f (s : Standing) (fl : list Flow) : Prop := {
  ix_reads : NoDup s.(reads); ix_written : NoDup s.(written);
  ix_all : s.(SReads) = f.(Reads) /\ s.(SWrites) = f.(Writes);
  ix_flows : Forall2 (fun ix flow => stands_for s.(reads) ix.(freads) flow.(FlowReads) /\
                                     stands_for s.(written) ix.(fwrites) (held_writes f flow)) s.(flows) fl;
  ix_elem q : q ∈ s.(reads) <-> exists flow, flow ∈ fl /\ q ∈ flow.(FlowReads) }.

Lemma index_flow_spec f (s : Standing) fl flow : indexed f s fl -> indexed f (index_flow f s flow) (fl ++ [flow]).
Proof.
  intros [R W A F E].
  destruct (enlist_plain flow.(FlowReads) s.(reads) R) as (R1 & R2 & [k R3] & R4).
  destruct (enlist_all (fun p => is_empty p.(PName)) (writeOf f) flow.(FlowWrites) s.(written) [] [] W ltac:(constructor))
    as (W1 & W2 & [k' W3] & _).
  constructor; cbn [index_flow reads written SReads SWrites flows]; [exact R1|exact W1|exact A| |].
  - apply Forall2_app; [|constructor; [by split|constructor]]. eapply Forall2_impl; [exact F|].
    intros ix fw [H1 H2]. split; [rewrite R3|rewrite W3]; by apply stands_for_app.
  - intros q. rewrite R4, E. setoid_rewrite elem_of_app. setoid_rewrite list_elem_of_singleton. naive_solver.
Qed.

Lemma index_flows f (s : Standing) fl k : indexed f s fl -> indexed f (fold_left (index_flow f) k s) (fl ++ k).
Proof.
  revert s fl. induction k as [|flow k IH]; intros s fl H; cbn [fold_left]; [by rewrite app_nil_r|].
  replace (fl ++ flow :: k) with ((fl ++ [flow]) ++ k) by (by rewrite <- app_assoc). by apply IH, index_flow_spec.
Qed.

Lemma index_of_lookup (l : list Place) i p : NoDup l -> l !! i = Some p -> index_of p l = Some i.
Proof.
  intros Hl E. destruct (index_of p l) as [j|] eqn:Ej.
  - apply index_of_Some in Ej. f_equal. by eapply NoDup_lookup.
  - apply index_of_None in Ej. by apply list_elem_of_lookup_2 in E.
Qed.

Lemma note_every_read (l : list Place) qs : forall b o,
  NoDup l -> length b = length l ->
  let r := fold_left (note_read l) qs (b, o) in
  length r.1 = length l /\ r.2 = o ++ filter (fun p => p ∉ l) qs /\
  forall i p, l !! i = Some p -> set_at r.1 i = set_at b i || bool_decide (p ∈ qs).
Proof.
  induction qs as [|q qs IH]; intros b o Hl Hb; cbn [fold_left].
  - cbn. split_and!; [done|by rewrite app_nil_r|]. intros i p _. rewrite bool_decide_false by apply not_elem_of_nil. by rewrite orb_false_r.
  - rewrite filter_cons. destruct (index_of q l) as [j|] eqn:Ej.
    + replace (note_read l (b, o) q) with (<[j:=true]> b, o) by (unfold note_read; by rewrite Ej). apply index_of_Some in Ej. rewrite decide_False by (intros Hno; apply Hno; by eapply list_elem_of_lookup_2).
      destruct (IH (<[j:=true]> b) o Hl ltac:(by rewrite length_insert)) as (H1 & H2 & H3). split_and!; [done|done|].
      intros i p E. rewrite (H3 i p E). unfold set_at. destruct (decide (i = j)) as [->|Hne].
      * rewrite list_lookup_insert_eq by (rewrite Hb; by eapply lookup_lt_Some). rewrite E in Ej. injection Ej as ->. cbn.
        rewrite bool_decide_true by left. by rewrite orb_true_r.
      * rewrite list_lookup_insert_ne by done. f_equal. apply bool_decide_ext. rewrite elem_of_cons. split; [by right|].
        intros [->|?]; [|done]. exfalso. apply Hne. by eapply NoDup_lookup.
    + replace (note_read l (b, o) q) with (b, o ++ [q]) by (unfold note_read; by rewrite Ej).
      apply index_of_None in Ej. rewrite decide_True by done.
      destruct (IH b (o ++ [q]) Hl Hb) as (H1 & H2 & H3). split_and!; [done|by rewrite H2, <- app_assoc|].
      intros i p E. rewrite (H3 i p E). f_equal. apply bool_decide_ext. rewrite elem_of_cons. split; [by right|].
      intros [->|?]; [|done]. by apply list_elem_of_lookup_2 in E.
Qed.

(** ** What a query collects *)

Definition add_place (l : list Place) p : list Place := if bool_decide (p ∈ l) then l else l ++ [p].

(** The places collected are those marked. *)
Definition collected (l : list Place) (st : list bool * list Place) : Prop :=
  length st.1 = length l /\ forall i p, l !! i = Some p -> set_at st.1 i = bool_decide (p ∈ st.2).

Lemma collect_spec (l : list Place) st i p :
  NoDup l -> l !! i = Some p -> collected l st ->
  (collect l st i).2 = add_place st.2 p /\ collected l (collect l st i).
Proof.
  intros Hl E [Hb H]. unfold collect, add_place. rewrite (H i p E). case_bool_decide as Hp; [done|]. rewrite E.
  split; [done|]. split; cbn [fst snd]; [by rewrite length_insert|]. intros j q Ej. unfold set_at. destruct (decide (j = i)) as [->|Hne].
  - rewrite list_lookup_insert_eq by (rewrite Hb; by eapply lookup_lt_Some). rewrite E in Ej. injection Ej as ->. cbn.
    symmetry. apply bool_decide_eq_true. apply elem_of_app. right. by apply list_elem_of_singleton.
  - rewrite list_lookup_insert_ne by done. fold (set_at st.1 j). rewrite (H j q Ej). apply bool_decide_ext.
    rewrite elem_of_app, list_elem_of_singleton. split; [by left|]. intros [?| ->]; [done|]. exfalso. apply Hne. by eapply NoDup_lookup.
Qed.

Lemma collect_all (l : list Place) ix ps : forall st,
  NoDup l -> stands_for l ix ps -> collected l st ->
  (fold_left (collect l) ix st).2 = fold_left add_place ps st.2 /\ collected l (fold_left (collect l) ix st).
Proof.
  intros st Hl Hs. revert st. induction Hs as [|i p ix ps E Hs IH]; intros st Hc; [done|]. cbn [fold_left].
  destruct (collect_spec l st i p Hl E Hc) as [E1 Hc1]. destruct (IH _ Hc1) as [E2 Hc2]. by rewrite E2, E1.
Qed.

Lemma met_reads (l : list Place) meets ix ps :
  stands_for l ix ps -> existsb (set_at (map meets l)) ix = existsb meets ps.
Proof.
  induction 1 as [|i p ix ps E H IH]; [done|]. cbn. rewrite IH. f_equal. unfold set_at.
  change (map meets l) with (meets <$> l). by rewrite list_lookup_fmap, E.
Qed.

Lemma indexed_nothing f :
  indexed f {| SReads := f.(Reads); SWrites := f.(Writes); reads := []; inReads := []; others := []; written := [];
               flows := [] |} [].
Proof.
  split; cbn; [apply NoDup_nil_2|apply NoDup_nil_2|done|constructor|]. intros q. split; [by intros ?%elem_of_nil|].
  by intros (? & ?%elem_of_nil & _).
Qed.

(** A read of the move is met: one a flow reads, or one no flow does. *)
Lemma found_reads meets (l : list Place) qs (b : list bool) (o : list Place) :
  length b = length l -> (forall i p, l !! i = Some p -> set_at b i = bool_decide (p ∈ qs)) -> o = filter (fun p => p ∉ l) qs ->
  (if existsb (fun x => x.1 && x.2) (zip (map meets l) b) then true else existsb meets o) = existsb meets qs.
Proof.
  intros Hb H ->. rewrite if_true_orb. apply eq_true_iff_eq. rewrite orb_true_iff, !existsb_exists. split.
  - intros [([x y] & Hx & E)|(p & Hp & E)].
    + apply list_elem_of_In, list_elem_of_lookup in Hx as [i Hi]. apply lookup_zip_Some in Hi as [H1 H2]. cbn in *.
      change (map meets l) with (meets <$> l) in H1. apply list_lookup_fmap_Some in H1 as (p & -> & Hp).
      apply andb_true_iff in E as [E1 ->]. specialize (H i p Hp). unfold set_at in H. rewrite H2 in H. cbn in H.
      symmetry in H. apply bool_decide_eq_true in H. exists p. by rewrite <- list_elem_of_In.
    + apply list_elem_of_In, list_elem_of_filter in Hp as [_ Hp]. exists p. by rewrite <- list_elem_of_In.
  - intros (p & Hp%list_elem_of_In & E). destruct (decide (p ∈ l)) as [Hl|Hl].
    + left. apply list_elem_of_lookup in Hl as [i Hi]. exists (meets p, true). rewrite <- list_elem_of_In, E. split; [|done].
      apply list_elem_of_lookup. exists i. apply lookup_zip_Some. cbn. change (map meets l) with (meets <$> l).
      rewrite list_lookup_fmap, Hi. cbn. split; [by rewrite E|]. specialize (H i p Hi). rewrite bool_decide_true in H by done.
      unfold set_at in H. destruct (b !! i) as [[|]|]; done.
    + right. exists p. by rewrite <- list_elem_of_In, list_elem_of_filter.
Qed.

(** The flows met, each adding the places of its writes. *)
Lemma collect_flows (l w : list Place) meets f ixs fl : forall st,
  NoDup w -> collected w st ->
  Forall2 (fun ix flow => stands_for l ix.(freads) flow.(FlowReads) /\ stands_for w ix.(fwrites) (held_writes f flow)) ixs fl ->
  (fold_left (collect_flow (map meets l) w) ixs st).2 =
    fold_left add_place (concat (map (held_writes f) (filter (fun flow => reads_met meets flow = true) fl))) st.2.
Proof.
  intros st Hw Hc H. revert st Hc. induction H as [|ix flow ixs fl [H1 H2] H IH]; intros st Hc; [done|].
  cbn [fold_left]. unfold collect_flow at 2. rewrite (met_reads _ meets _ _ H1). fold (reads_met meets flow).
  rewrite filter_cons. destruct (reads_met meets flow) eqn:E.
  - rewrite decide_True by done. destruct (collect_all w _ _ st Hw H2 Hc) as [E1 Hc1].
    rewrite IH by done. cbn [map concat]. by rewrite fold_left_app, E1.
  - rewrite decide_False by done. by apply IH.
Qed.

(** Footprints of the same places by the same statements share one index. *)
Lemma PlacesEqual_Standing f g : PlacesEqual f g = true -> StandingOf f = StandingOf g.
Proof.
  unfold PlacesEqual. rewrite !andb_true_iff, !bool_decide_eq_true, Nat.eqb_eq. intros [[[ER EW] EL] EF].
  assert (E : f.(Flows) = g.(Flows)).
  { revert EL EF. generalize (Flows f) (Flows g). induction l as [|[r w] l IH]; intros [|[r' w'] k]; try done.
    cbn. rewrite !andb_true_iff, !bool_decide_eq_true. intros [= EL] [[-> ->] EF]. f_equal. by apply IH. }
  unfold StandingOf. rewrite ER, EW, E.
  assert (EI : forall l s, fold_left (index_flow f) l s = fold_left (index_flow g) l s).
  { induction l as [|flow l IH]; intros s; [done|]. cbn [fold_left]. rewrite IH. unfold index_flow, writeOf. by rewrite EW. }
  by rewrite EI.
Qed.

(** C33: the index of a footprint answers what its flows say: the places the move writes
    standing on a read of a place met are the writes of the statements that read one,
    each once and in their order; every write of the move, where only a read outside its
    statements is met or the move is described whole; and none where no read of the move
    is met. *)
Theorem WritesReading_spec f (meets : Place -> bool) : WritesReading (StandingOf f) meets = writes_reading f meets.
Proof.
  unfold StandingOf. set (s := fold_left (index_flow f) _ _).
  destruct (index_flows f _ [] f.(Flows) (indexed_nothing f)) as [R W [E1 E2] F E].
  fold s in R, W, E1, E2, F, E. rewrite app_nil_l in F, E. clearbody s.
  destruct (note_every_read s.(reads) f.(Reads) (replicate (length s.(reads)) false) [] R ltac:(by rewrite length_replicate)) as (N1 & N2 & N3).
  set (r := fold_left (note_read _) _ _) in *. unfold WritesReading, writes_reading. cbn [reads inReads others SWrites written flows].
  assert (Hmet : (if existsb (fun x => x.1 && x.2) (zip (map meets s.(reads)) r.1) then true else existsb meets r.2) = existsb meets f.(Reads)).
  { apply found_reads; [done| |done]. intros i p Ep. rewrite (N3 i p Ep). unfold set_at. rewrite lookup_replicate_2; [done|].
    by eapply lookup_lt_Some. }
  rewrite Hmet. destruct (existsb meets f.(Reads)); [|done]. cbn [negb].
  assert (Hin : existsb id (map meets s.(reads)) = existsb (reads_met meets) f.(Flows)).
  { apply eq_true_iff_eq. rewrite !existsb_exists. unfold reads_met. setoid_rewrite existsb_exists.
    setoid_rewrite in_map_iff. setoid_rewrite <- list_elem_of_In. setoid_rewrite E. unfold id. naive_solver. }
  rewrite Hin. destruct (existsb (reads_met meets) f.(Flows)); [|by rewrite E2]. cbn [negb]. f_equal.
  rewrite (collect_flows _ _ meets f _ f.(Flows)); [done|done| |done]. split; cbn [fst snd]; [by rewrite length_replicate|].
  intros i p Ep. unfold set_at. rewrite lookup_replicate_2 by (by eapply lookup_lt_Some).
  rewrite bool_decide_false; [done|]. apply not_elem_of_nil.
Qed.
End Facts.
