(* ===== verification/Reduce.v ===== *)
(** * Partial-order reduction

    Models [internal/exec/runtime/check_reduce.go]: the persistent set of the moves to
    explore from a state, less the moves asleep, and the sleep set of the state a move
    reaches. What a unit may touch next and at all, and what is known of two executors,
    is the class [Touching] ([standing], [tokenFuture], [machineFuture] and [relation]
    of the runtime). *)
From stdpp Require Import gmap.
From S2P Require Import Prelude Bytes Checker Footprint.
Local Open Scope nat_scope.

(** A move of the search with its footprint, and whether making it raises an error. *)
Record reducedMove {Executor Node : Type} `{Named} := { plain_move : searchMove Executor Node; footprint : Footprint; Fails : bool }.
Arguments reducedMove Executor Node {_}.

#[export] Instance enabledMove_eq_dec {Executor Node} `{EqDecision Executor, EqDecision Node} : EqDecision (enabledMove Executor Node).
Proof. solve_decision. Defined.
#[export] Instance searchMove_eq_dec {Executor Node} `{EqDecision Executor, EqDecision Node} : EqDecision (searchMove Executor Node).
Proof. solve_decision. Defined.
#[export] Instance reducedMove_eq_dec {Executor Node} `{Named, EqDecision Executor, EqDecision Node} : EqDecision (reducedMove Executor Node).
Proof. solve_decision. Defined.

(** A unit: an action's token, or a state machine, which has token 0. *)
Definition tokenKey (Executor : Type) : Type := Executor * Z.

Class Touching (State Executor : Type) `{Named} := {
  (** The units of the executors, in order. *)
  units_at : State -> list (tokenKey Executor);
  standing : State -> tokenKey Executor -> Footprint;
  future : State -> tokenKey Executor -> Footprint;
  relation : State -> Executor -> Executor -> Relation }.

Section Reduce.
Context {State Executor Node Error : Type}.
Context `{EqDecision Executor, !Countable Executor, EqDecision Node}.
Context `{T : Touching State Executor}.
Variables (Reduce : bool) (props : list (CheckProperty State Error)).

Local Abbreviation Move := (reducedMove Executor Node).
Local Abbreviation Unit := (tokenKey Executor).

Definition owner_of (m : Move) : Executor := (unit_of m.(plain_move)).(Owner).
Definition token_unit (m : Move) : Unit := (owner_of m, (unit_of m.(plain_move)).(Token)).
Definition same_move (m o : Move) : bool := same m.(plain_move) o.(plain_move).

(** [dependent]: the moves of one unit are, otherwise their footprints decide. *)
Definition dependent (s : State) (a b : Move) : bool :=
  bool_decide (token_unit a = token_unit b) || DependentBy a.(footprint) b.(footprint) (relation s (owner_of a) (owner_of b)).

(** A persistent set under construction: what does not change of it. The footprints of
    a unit whose move fails are everything, of a unit the state has not nothing. *)
Record persistentClosure := {
  c_all : list Move; c_units : list Unit; c_standing : Unit -> Footprint; c_future : Unit -> Footprint }.

Definition fails_at (l : list Move) (u : Unit) : bool := existsb (fun m => m.(Fails) && bool_decide (token_unit m = u)) l.

Definition newPersistentClosure (s : State) (l : list Move) : persistentClosure :=
  let at_unit (g : State -> Unit -> Footprint) u :=
    if fails_at l u then anything else if bool_decide (u ∈ units_at s) then g s u else nothing in
  {| c_all := l; c_units := units_at s; c_standing := at_unit standing; c_future := at_unit future |}.

(** Whether the future of [o] may let [u] go on, or meet a move it may make next. *)
Definition affects (s : State) (p : persistentClosure) (o u : Unit) : bool :=
  DependentBy (p.(c_future) o) (p.(c_standing) u) (relation s o.1 u.1).

(** [include]; a call for each unit there is suffices as fuel. *)
Fixpoint include (s : State) (p : persistentClosure) (fuel : nat) (within : gset Unit) (u : Unit) : gset Unit :=
  match fuel with
  | 0 => within
  | S fuel =>
      if bool_decide (u ∈ within) then within
      else fold_left (fun within o => if negb (bool_decide (o ∈ within)) && affects s p o u then include s p fuel within o else within)
             p.(c_units) ({[u]} ∪ within)
  end.
Definition include_all (s : State) (p : persistentClosure) : gset Unit -> Unit -> gset Unit := include s p (S (length p.(c_units))).

Definition futureDependsOnSet (s : State) (p : persistentClosure) (within : gset Unit) (u : Unit) : bool :=
  existsb (fun m => bool_decide (token_unit m ∈ within) && DependentBy (p.(c_future) u) m.(footprint) (relation s u.1 (owner_of m)))
    p.(c_all).

(** One pass over the units, with whether the set grew. *)
Definition grow_pass (s : State) (p : persistentClosure) (within : gset Unit) : gset Unit * bool :=
  fold_left (fun st u =>
      if bool_decide (u ∈ st.1) then st
      else if futureDependsOnSet s p st.1 u then (include_all s p st.1 u, true) else st)
    p.(c_units) (within, false).

Fixpoint grow (s : State) (p : persistentClosure) (fuel : nat) (within : gset Unit) : gset Unit :=
  match fuel with
  | 0 => within
  | S fuel => let '(within, grew) := grow_pass s p within in if grew then grow s p fuel within else within
  end.

Definition awake (sleep : list Move) (m : Move) : bool := negb (existsb (same_move m) sleep).

(** The units of the persistent set grown from a move. *)
Definition closed_units (s : State) (l : list Move) (first : Move) : gset Unit :=
  let p := newPersistentClosure s l in
  grow s p (S (length p.(c_units))) (include_all s p ∅ (token_unit first)).

(** [persistent]: the moves to explore, less the moves asleep. *)
Definition persistent (s : State) (l sleep : list Move) : list Move :=
  if negb Reduce || negb (is_empty props) then l
  else
    match list_find (fun m => awake sleep m = true) l with
    | None => []
    | Some (_, first) =>
        let within := closed_units s l first in
        filter (fun m => token_unit m ∈ within /\ awake sleep m = true) l
    end.

(** [childSleep]: the moves asleep or explored already that commute with the move. *)
Definition childSleep (s : State) (sleep explored : list Move) (m : Move) : list Move :=
  if negb Reduce then []
  else filter (fun z => dependent s z m = false) sleep ++ filter (fun z => dependent s z m = false) explored.
End Reduce.
