(* ===== verification/ReduceSound.v ===== *)
(** * What the reduction keeps

    The schedules that persistent and sleep sets leave still reach every state without
    a move that the schedules of the invocation reach, by as many moves
    ([reduction_keeps_ends]). That footprints mean what they say is the class
    [Commuting]: moves whose footprints are independent commute, and a unit's future
    covers what it goes on to do. First, the units [persistent] takes
    the moves of are, from the first awake move's, the least set closed under what the
    units outside may let go on or meet ([closed_units_spec]). *)
From stdpp Require Import gmap.
From S2P Require Import Prelude Bytes Integer Checker Footprint FootprintFacts Reduce.
Local Open Scope nat_scope.

(** ** The persistent set is the least closed one *)

Section Closure.
Context {State Executor Node Error : Type}.
Context `{EqDecision Executor, !Countable Executor, EqDecision Node}.
Context `{T : Touching State Executor}.
Implicit Types (s : State) (m : reducedMove Executor Node) (u o x : tokenKey Executor) (w : gset (tokenKey Executor))
  (p : persistentClosure (Executor := Executor) (Node := Node)).

Definition unit_set p : gset (tokenKey Executor) := list_to_set p.(c_units).
Lemma elem_of_unit_set p u : u ∈ unit_set p <-> u ∈ p.(c_units).
Proof. apply elem_of_list_to_set. Qed.

(** What may let a unit of the set go on, or meet what it may do next, is in it. *)
Definition closed s p (Q : gset (tokenKey Executor)) : Prop :=
  forall x o, x ∈ Q -> o ∈ p.(c_units) -> affects s p o x = true -> o ∈ Q.
(** No unit outside the set may meet a move of it. *)
Definition unmet s p (Q : gset (tokenKey Executor)) : Prop :=
  forall u, u ∈ p.(c_units) -> u ∉ Q -> futureDependsOnSet s p Q u = false.

(** The units new in a set are closed in it. *)
Definition closed_new s p (w w' : gset (tokenKey Executor)) : Prop :=
  forall x o, x ∈ w' -> x ∉ w -> o ∈ p.(c_units) -> affects s p o x = true -> o ∈ w'.

Record includes s p w u w' : Prop := {
  inc_grows : w ⊆ w'; inc_unit : u ∈ w'; inc_closed : closed_new s p w w'; inc_units : w' ⊆ w ∪ unit_set p;
  inc_least Q : w ⊆ Q -> u ∈ Q -> closed s p Q -> w' ⊆ Q }.

Lemma left_over p w w' u : w ⊆ w' -> u ∈ unit_set p -> u ∉ w -> u ∈ w' -> size (unit_set p ∖ w') < size (unit_set p ∖ w).
Proof. intros Hs Hu Hn Hi. apply subset_size. split; [set_solver|]. intros Hsub. specialize (Hsub u). set_solver. Qed.

Lemma include_spec s p fuel : forall w u,
  size (unit_set p ∖ w) < fuel -> u ∈ unit_set p -> includes s p w u (include s p fuel w u).
Proof.
  induction fuel as [|fuel IH]; intros w u Hf Hu; [lia|]. cbn [include]. case_bool_decide as Hin.
  - split; [done|done|by intros x o ? ?|set_solver|done].
  - set (step := fun (within : gset (tokenKey Executor)) o => _).
    assert (Hl : forall l w1, (forall o, o ∈ l -> o ∈ p.(c_units)) -> {[u]} ∪ w ⊆ w1 -> closed_new s p ({[u]} ∪ w) w1 -> w1 ⊆ w ∪ unit_set p ->
      let w2 := fold_left step l w1 in
      w1 ⊆ w2 /\ closed_new s p ({[u]} ∪ w) w2 /\ w2 ⊆ w ∪ unit_set p /\
      (forall o, o ∈ l -> affects s p o u = true -> o ∈ w2) /\
      forall Q, w1 ⊆ Q -> u ∈ Q -> closed s p Q -> w2 ⊆ Q).
    { induction l as [|o l IHl]; intros w1 Hl Hs Hc Hsub; cbn [fold_left].
      - split_and!; [done|done|done|by intros ? ?%elem_of_nil|done].
      - assert (Ho : w1 ⊆ step w1 o /\ closed_new s p ({[u]} ∪ w) (step w1 o) /\ step w1 o ⊆ w ∪ unit_set p /\
          (affects s p o u = true -> o ∈ step w1 o) /\ forall Q, w1 ⊆ Q -> u ∈ Q -> closed s p Q -> step w1 o ⊆ Q).
        { unfold step. destruct (negb _ && _) eqn:E.
          - apply andb_true_iff in E as [E1 E2]. apply negb_true_iff, bool_decide_eq_false in E1.
            assert (Hou : o ∈ unit_set p) by (apply elem_of_unit_set, Hl; left).
            destruct (IH w1 o) as [I1 I2 I3 I4 I5]; [|done|].
            + pose proof (left_over p w w1 u ltac:(clear -Hs; set_solver) Hu Hin ltac:(clear -Hs; set_solver)). lia.
            + split_and!; [done| |clear -I4 Hsub; set_solver|done|].
              * intros x y Hx Hn Hy Ha. destruct (decide (x ∈ w1)) as [Hx1|Hx1]; [apply I1; by eapply Hc|by eapply I3].
              * intros Q HQ HuQ Hcl. apply I5; [done| |done]. eapply Hcl; [exact HuQ|by apply Hl; left|done].
          - split_and!; [done|done|done| |done]. intros Ha. rewrite Ha, andb_true_r in E. apply negb_false_iff in E.
            by apply bool_decide_eq_true in E. }
        destruct Ho as (O1 & O2 & O3 & O4 & O5).
        destruct (IHl (step w1 o)) as (L1 & L2 & L3 & L4 & L5); [intros y Hy; apply Hl; by right|by transitivity w1|done|done|].
        split_and!; [by transitivity (step w1 o)|done|done| |].
        + intros y [->|Hy]%elem_of_cons Ha; [by apply L1, O4|by apply L4].
        + intros Q HQ HuQ Hcl. apply L5; [by apply O5|done|done]. }
    destruct (Hl p.(c_units) ({[u]} ∪ w)) as (L1 & L2 & L3 & L4 & L5); [done|done|by intros x o ? ?|clear -Hu; set_solver|].
    split; [clear -L1; set_solver|clear -L1; set_solver| |done|].
    + intros x o Hx Hn Ho Ha. destruct (decide (x = u)) as [->|Hxu]; [by apply L4|]. eapply L2; [exact Hx|clear -Hn Hxu; set_solver|done|done].
    + intros Q HQ HuQ Hcl. apply L5; [clear -HQ HuQ; set_solver|done|done].
Qed.

Lemma size_unit_set p : size (unit_set p) <= length p.(c_units).
Proof.
  unfold unit_set. induction (c_units p) as [|u l IH]; [done|]. cbn [list_to_set length].
  rewrite size_union_alt, size_singleton. pose proof (subseteq_size (list_to_set l ∖ {[u]}) (list_to_set (C := gset (tokenKey Executor)) l)). set_solver by lia.
Qed.

Lemma include_all_spec s p w u : u ∈ unit_set p -> includes s p w u (include_all s p w u).
Proof.
  intros Hu. apply include_spec; [|done]. pose proof (size_unit_set p).
  pose proof (subseteq_size (unit_set p ∖ w) (unit_set p)). set_solver by lia.
Qed.

Lemma closed_grown s p w w' : closed s p w -> w ⊆ w' -> closed_new s p w w' -> closed s p w'.
Proof. intros C S N x o Hx Ho Ha. destruct (decide (x ∈ w)); [apply S; by eapply C|by eapply N]. Qed.

(** ** Growing the set *)

Record grown s p w w' : Prop := {
  gr_grows : w ⊆ w'; gr_closed : closed s p w'; gr_units : w' ⊆ unit_set p;
  gr_least Q : w ⊆ Q -> closed s p Q -> unmet s p Q -> w' ⊆ Q }.

(** A unit that meets a move of a part of the set meets one of the set. *)
Lemma futureDependsOnSet_mono s p w Q u : w ⊆ Q -> futureDependsOnSet s p w u = true -> futureDependsOnSet s p Q u = true.
Proof.
  unfold futureDependsOnSet. rewrite !existsb_exists. intros Hw (m & Hm & E). exists m. split; [done|].
  apply andb_true_iff in E as [E1%bool_decide_eq_true ->]. rewrite bool_decide_true; [done|set_solver].
Qed.

Lemma grow_pass_spec s p w :
  closed s p w -> w ⊆ unit_set p ->
  let st := grow_pass s p w in
  grown s p w st.1 /\
  if st.2 then size (unit_set p ∖ st.1) < size (unit_set p ∖ w) else st.1 = w /\ unmet s p w.
Proof.
  intros C U. unfold grow_pass.
  match goal with |- context [fold_left ?h _ _] => set (step := h) end.
  assert (Hl : forall (l : list (tokenKey Executor)) (st : gset (tokenKey Executor) * bool), (forall o, o ∈ l -> o ∈ p.(c_units)) -> grown s p w st.1 ->
    (if st.2 then size (unit_set p ∖ st.1) < size (unit_set p ∖ w) else st.1 = w) ->
    let st' := fold_left step l st in
    grown s p w st'.1 /\
    if st'.2 then size (unit_set p ∖ st'.1) < size (unit_set p ∖ w)
    else st'.1 = w /\ st.2 = false /\ forall u, u ∈ l -> u ∉ w -> futureDependsOnSet s p w u = false).
  { induction l as [|u l IH]; intros st Hl G Hst; cbn [fold_left].
    { split; [done|]. destruct st.2; [done|]. split_and!; [done|done|by intros ? ?%elem_of_nil]. }
    assert (Hu : grown s p w (step st u).1 /\ if (step st u).2 then size (unit_set p ∖ (step st u).1) < size (unit_set p ∖ w)
      else (step st u).1 = w /\ st.2 = false /\ (u ∉ w -> futureDependsOnSet s p w u = false)).
    { unfold step. case_bool_decide as Hin.
      - split; [done|]. destruct st.2; [done|]. rewrite Hst in Hin |- *. done.
      - destruct (futureDependsOnSet s p st.1 u) eqn:E; [|split; [done|]; destruct st.2; [done|]; rewrite Hst in E |- *; done].
        cbn [fst snd]. assert (Hu : u ∈ unit_set p) by (apply elem_of_unit_set, Hl; left).
        destruct (include_all_spec s p st.1 u Hu) as [I1 I2 I3 I4 I5]. destruct G as [G1 G2 G3 G4]. split.
        + split; [by transitivity st.1|by eapply closed_grown|clear -G3 I4; set_solver|].
          intros Q HQ HC HU. apply I5; [by apply G4| |done]. destruct (decide (u ∈ Q)) as [|Hn]; [done|].
          assert (futureDependsOnSet s p Q u = true) by (eapply futureDependsOnSet_mono; [by apply G4|done]).
          rewrite (HU u ltac:(apply Hl; left) Hn) in *. done.
        + pose proof (left_over p st.1 _ u I1 Hu Hin I2). destruct st.2; [lia|]. rewrite Hst in *. lia. }
    destruct Hu as [G' Hu]. destruct (IH (step st u)) as [G2 H2]; [intros y Hy; apply Hl; by right|done|by destruct (step st u).2; [|destruct Hu]|].
    split; [done|]. destruct (fold_left step l (step st u)).2; [done|]. destruct H2 as (E1 & E2 & E3). rewrite E2 in Hu.
    destruct Hu as (_ & Es & Hd). split_and!; [done|done|]. intros y [->|Hy]%elem_of_cons; auto. }
  destruct (Hl p.(c_units) (w, false)) as [G Hr]; [done|split; [done|done|done|done]|done|].
  split; [done|]. destruct (fold_left step _ _).2; [done|]. destruct Hr as (E1 & _ & E3). split; [done|]. intros u Hu Hn. auto.
Qed.

Lemma grow_spec s p fuel : forall w,
  size (unit_set p ∖ w) < fuel -> closed s p w -> w ⊆ unit_set p ->
  grown s p w (grow s p fuel w) /\ unmet s p (grow s p fuel w).
Proof.
  induction fuel as [|fuel IH]; intros w Hf C U; [lia|]. cbn [grow].
  pose proof (grow_pass_spec s p w C U) as [G Hr]. destruct (grow_pass s p w) as [w1 [|]]; cbn [fst snd] in *.
  - destruct G as [G1 G2 G3 G4]. destruct (IH w1) as [[K1 K2 K3 K4] K5]; [lia|done|done|]. split; [|done].
    split; [set_solver|done|done|]. intros Q HQ HC HU. apply K4; [by apply G4|done|done].
  - destruct Hr as [-> Hu]. done.
Qed.

(** The units of the persistent set grown from a move: the least closed and unmet set. *)
Record persistent_units s (l : list (reducedMove Executor Node)) u (P : gset (tokenKey Executor)) : Prop := {
  pu_first : u ∈ P; pu_units : P ⊆ unit_set (newPersistentClosure s l);
  pu_closed : closed s (newPersistentClosure s l) P; pu_unmet : unmet s (newPersistentClosure s l) P;
  pu_least Q : u ∈ Q -> closed s (newPersistentClosure s l) Q -> unmet s (newPersistentClosure s l) Q -> P ⊆ Q }.

Lemma closed_units_spec s l m : token_unit m ∈ units_at s -> persistent_units s l (token_unit m) (closed_units s l m).
Proof.
  intros Hm. unfold closed_units. set (p := newPersistentClosure s l).
  assert (Hu : token_unit m ∈ unit_set p) by (by apply elem_of_unit_set).
  destruct (include_all_spec s p ∅ (token_unit m) Hu) as [I1 I2 I3 I4 I5]. set (w := include_all s p ∅ (token_unit m)) in *.
  assert (C : closed s p w) by (eapply closed_grown; [|exact I1|exact I3]; by intros x o ?%elem_of_empty).
  destruct (grow_spec s p (S (length p.(c_units))) w) as [[G1 G2 G3 G4] G5]; [|done|set_solver|].
  { pose proof (size_unit_set p). pose proof (subseteq_size (unit_set p ∖ w) (unit_set p)). set_solver by lia. }
  split; [set_solver|done|done|done|]. intros Q HQ HC HU. apply G4; [apply I5; [set_solver|done|done]|done|done].
Qed.

(** The moves [persistent] answers are the awake moves of the units of one set: the
    least that holds the unit of the first awake move and is closed under "a unit whose
    future may let a unit of the set go on, or meet what it may do next, or meet a move
    of it, is in the set". *)
Lemma persistent_least s (l sleep : list (reducedMove Executor Node)) :
  (forall m, m ∈ l -> token_unit m ∈ units_at s) ->
  (exists m, m ∈ l /\ awake sleep m = true) ->
  exists first P, first ∈ l /\ awake sleep first = true /\ persistent_units s l (token_unit first) P /\
    persistent (Error := Error) true [] s l sleep = filter (fun m => token_unit m ∈ P /\ awake sleep m = true) l.
Proof.
  intros Hl (m0 & Hm0 & E0). unfold persistent. cbn.
  destruct (list_find (fun m => awake sleep m = true) l) as [[i m]|] eqn:E.
  - apply list_find_Some in E as (E & Ea & _). apply list_elem_of_lookup_2 in E. exists m, (closed_units s l m).
    split_and!; [done|done|by apply closed_units_spec; auto|done].
  - apply list_find_None in E. rewrite List.Forall_forall in E. exfalso. apply (E m0); [by apply list_elem_of_In|done].
Qed.
End Closure.

(** The moves of a state, with their footprints, and the states one leads to. *)
Class Moving (State Executor Node : Type) `{Named} := {
  enabled : State -> list (reducedMove Executor Node);
  after : State -> reducedMove Executor Node -> list State }.

Section Laws.
Context {State Executor Node : Type}.
Context `{Nm : Named, EqDecision Executor, !Countable Executor, EqDecision Node, EqDecision State}.
Context `{Mv : !Moving State Executor Node, T : !Touching State Executor}.

(** A move of [u], in one state, may not commute with what has the footprint [f] of an
    executor [x]. *)
Definition meets_at (s : State) (u : tokenKey Executor) (f g : Footprint) (x : Executor) : bool :=
  DependentBy f g (relation s u.1 x).

Class Commuting : Prop := {
  unit_there s (a : reducedMove Executor Node) : a ∈ enabled s -> token_unit a ∈ units_at s;
  same_enabled s (a b : reducedMove Executor Node) : a ∈ enabled s -> b ∈ enabled s -> same_move a b = true -> a = b;
  after_enabled s a (t : State) : t ∈ after s a -> a ∈ enabled s;
  (** The relation of two executors is that of the two, the other one first. *)
  relation_flip s (x y : Executor) f g : DependentBy f g (relation s y x) = DependentBy f g (flip_relation (relation s x y));
  (** A move's footprint is part of its unit's future. *)
  future_covers s (a : reducedMove Executor Node) g (x : Executor) : a ∈ enabled s ->
    meets_at s (token_unit a) a.(footprint) g x = true -> meets_at s (token_unit a) (future s (token_unit a)) g x = true;
  (** What a unit may still do once a move is made it could do before, or the unit that
      moved could: a unit new in the state is of that one's making. *)
  future_shrinks s (a : reducedMove Executor Node) t w : t ∈ after s a -> w ∈ units_at t ->
    exists u, u ∈ units_at s /\ (u = w \/ u = token_unit a) /\
      forall g x, meets_at t w (future t w) g x = true -> meets_at s u (future s u) g x = true;
  (** A move independent of what a unit may do next neither lets it go on, nor stops it,
      nor changes its moves. *)
  standing_kept s (a : reducedMove Executor Node) t u : t ∈ after s a -> u ∈ units_at s -> u <> token_unit a ->
    meets_at s (token_unit a) a.(footprint) (standing s u) u.1 = false ->
    u ∈ units_at t /\ standing t u = standing s u /\ forall m, token_unit m = u -> m ∈ enabled t <-> m ∈ enabled s;
  (** Independent moves do not disable each other, and commute. *)
  enabled_kept s (a b : reducedMove Executor Node) t : t ∈ after s a -> b ∈ enabled s -> dependent s a b = false -> b ∈ enabled t;
  independent_commute s (a b : reducedMove Executor Node) t r : t ∈ after s a -> b ∈ enabled s -> r ∈ after t b ->
    dependent s a b = false -> exists s', s' ∈ after s b /\ r ∈ after s' a }.
End Laws.
Arguments Commuting State Executor Node {_ _ _ _ _}.

Section Sound.
Context {State Executor Node Error : Type}.
Context `{Nm : Named, EqDecision Executor, !Countable Executor, EqDecision Node, EqDecision State}.
Context `{Mv : !Moving State Executor Node, T : !Touching State Executor, C : !Commuting State Executor Node}.
Implicit Types (s t r : State) (a b m z : reducedMove Executor Node) (u w : tokenKey Executor) (P : gset (tokenKey Executor))
  (Z : list (reducedMove Executor Node)).

(** A schedule of so many moves leads from the one state to the other. *)
Fixpoint reaches (n : nat) s t : bool :=
  match n with
  | 0 => bool_decide (s = t)
  | S n => existsb (fun m => existsb (fun s' => reaches n s' t) (after s m)) (enabled s)
  end.

(** A schedule the reduction leaves does: each move in the persistent set of its state
    less the moves asleep there. *)
Fixpoint reduced (n : nat) s (sleep : list (reducedMove Executor Node)) t : bool :=
  match n with
  | 0 => bool_decide (s = t)
  | S n =>
      let l := persistent (Error := Error) true [] s (enabled s) sleep in
      existsb (fun i => match l !! i with
                        | Some m => existsb (fun s' => reduced n s' (childSleep true s sleep (take i l) m) t) (after s m)
                        | None => false
                        end) (seq 0 (length l))
  end.

Lemma reaches_S n s t : reaches (S n) s t = true <-> exists m s', m ∈ enabled s /\ s' ∈ after s m /\ reaches n s' t = true.
Proof.
  cbn [reaches]. rewrite existsb_exists. setoid_rewrite existsb_exists. setoid_rewrite <- list_elem_of_In. naive_solver.
Qed.

(** The move can be the first of as many moves to the state. *)
Definition leads (n : nat) s t m : bool := existsb (fun s' => reaches n s' t) (after s m).
Lemma leads_true n s t m : leads n s t m = true <-> exists s', s' ∈ after s m /\ reaches n s' t = true.
Proof. unfold leads. rewrite existsb_exists. setoid_rewrite <- list_elem_of_In. done. Qed.

Lemma dependent_sym s a b : dependent s a b = dependent s b a.
Proof.
  unfold dependent. rewrite (bool_decide_ext (token_unit a = token_unit b) (token_unit b = token_unit a)) by done.
  f_equal. by rewrite (relation_flip s (owner_of a) (owner_of b) (footprint b)), DependentBy_flip.
Qed.

Lemma dependent_false s a b :
  token_unit a <> token_unit b -> meets_at s (token_unit a) a.(footprint) b.(footprint) (owner_of b) = false -> dependent s a b = false.
Proof. intros N E. unfold dependent. rewrite bool_decide_false by done. exact E. Qed.

(** ** Schedules outside the persistent set *)

(** The state, reached from [s] by moves of units outside the set: the units of the set
    stand as they did, and what the others may do meets neither what those may do next
    nor a move of theirs. *)
Record outside s P t : Prop := {
  out_units u : u ∈ P -> u ∈ units_at t;
  out_standing u : u ∈ P -> standing t u = standing s u;
  out_moves m : token_unit m ∈ P -> m ∈ enabled t <-> m ∈ enabled s;
  out_future w u : w ∈ units_at t -> w ∉ P -> u ∈ P -> meets_at t w (future t w) (standing s u) u.1 = false;
  out_unmet w m : w ∈ units_at t -> w ∉ P -> m ∈ enabled s -> token_unit m ∈ P ->
    meets_at t w (future t w) m.(footprint) (owner_of m) = false }.

Lemma meets_not s t u f g x : (meets_at s u f g x = true -> meets_at t u f g x = true) -> meets_at t u f g x = false -> meets_at s u f g x = false.
Proof. destruct (meets_at s u f g x); [|done]. intros E ?. rewrite E in *; done. Qed.

Lemma outside_step s P t a r :
  outside s P t -> r ∈ after t a -> token_unit a ∉ P -> outside s P r.
Proof.
  intros [O1 O2 O3 O4 O5] Hr Ha. pose proof (after_enabled _ _ _ Hr) as He. pose proof (unit_there _ _ He) as Hu.
  assert (K : forall u, u ∈ P -> u ∈ units_at r /\ standing r u = standing t u /\ forall m, token_unit m = u -> m ∈ enabled r <-> m ∈ enabled t).
  { intros u HuP. apply (standing_kept t a r u Hr); [auto|set_solver|]. rewrite O2 by done.
    destruct (meets_at t _ (footprint a) _ _) eqn:E; [|done]. apply future_covers in E; [|done]. by rewrite O4 in E. }
  assert (F : forall w, w ∈ units_at r -> w ∉ P -> exists u, u ∈ units_at t /\ u ∉ P /\
      forall g x, meets_at r w (future r w) g x = true -> meets_at t u (future t u) g x = true).
  { intros w Hw HwP. destruct (future_shrinks t a r w Hr Hw) as (u & Hut & [->| ->] & Hf); eauto. }
  split.
  - intros u HuP. by apply K.
  - intros u HuP. destruct (K u HuP) as (_ & -> & _). by apply O2.
  - intros m Hm. destruct (K _ Hm) as (_ & _ & E). rewrite (E m eq_refl). by apply O3.
  - intros w u Hw HwP HuP. destruct (F w Hw HwP) as (v & Hv & HvP & Hf).
    destruct (meets_at r _ _ _ _) eqn:E; [|done]. apply Hf in E. by rewrite O4 in E.
  - intros w m Hw HwP Hm HmP. destruct (F w Hw HwP) as (v & Hv & HvP & Hf).
    destruct (meets_at r _ _ _ _) eqn:E; [|done]. apply Hf in E. by rewrite O5 in E.
Qed.

(** A schedule to a state without moves makes a move of the set, which might as well be
    its first. *)
Lemma member_first s P n : forall t r,
  outside s P t -> (exists m, m ∈ enabled s /\ token_unit m ∈ P) -> enabled r = [] -> reaches n t r = true ->
  exists m k, n = S k /\ m ∈ enabled s /\ token_unit m ∈ P /\ leads k t r m = true.
Proof.
  induction n as [|n IH]; intros t r O (m0 & Hm0 & HP0) Hr Hn.
  - cbn in Hn. apply bool_decide_eq_true in Hn as ->. apply (out_moves _ _ _ O) in Hm0; [|done].
    rewrite Hr in Hm0. by apply elem_of_nil in Hm0.
  - apply reaches_S in Hn as (a & t' & Ha & Ht' & Hn). destruct (decide (token_unit a ∈ P)) as [HaP|HaP].
    + exists a, n. split_and!; [done|by apply (out_moves _ _ _ O)|done|]. apply leads_true. by exists t'.
    + destruct (IH t' r) as (m & k & -> & Hm & HmP & Hk); [by eapply outside_step|by exists m0|done|done|].
      exists m, (S k). split_and!; [done|done|done|]. apply leads_true in Hk as (r1 & Hr1 & Hk).
      destruct (independent_commute t a m t' r1) as (s' & Hs' & Hr'); [done|by apply (out_moves _ _ _ O)|done| |].
      * apply dependent_false; [congruence|]. destruct (meets_at t _ (footprint a) _ _) eqn:E; [|done].
        apply future_covers in E; [|done]. rewrite (out_unmet _ _ _ O) in E; [done|by apply unit_there|done..].
      * apply leads_true. exists s'. split; [done|]. apply reaches_S. exists a, r1.
        split_and!; [by eapply after_enabled|done|done].
Qed.

Lemma DependentBy_anything f rel : DependentBy f anything rel = true.
Proof. unfold DependentBy. cbn. by rewrite orb_true_r. Qed.

(** The units of a persistent set, and the state itself. *)
Lemma persistent_outside s u P : persistent_units s (enabled s) u P -> outside s P s.
Proof.
  intros [_ U Cl Um _]. assert (HU : forall w, w ∈ P -> w ∈ units_at s) by (intros w Hw; exact (proj1 (elem_of_unit_set _ _) (U w Hw))).
  assert (Hc : forall w v, w ∈ units_at s -> w ∉ P -> v ∈ P -> affects s (newPersistentClosure s (enabled s)) w v = false).
  { intros w v Hw Hn Hv. destruct (affects _ _ w v) eqn:E; [|done]. exfalso. by apply Hn, (Cl v w). }
  assert (Hf : forall w v, w ∈ units_at s -> w ∉ P -> v ∈ P -> fails_at (enabled s) w = false).
  { intros w v Hw Hn Hv. specialize (Hc w v Hw Hn Hv). unfold affects in Hc. cbn in Hc. by destruct (fails_at (enabled s) w). }
  split; [done|done|done| |].
  - intros w v Hw Hn Hv. specialize (Hc w v Hw Hn Hv). unfold affects in Hc. cbn in Hc. rewrite (Hf w v) in Hc by done.
    destruct (fails_at (enabled s) v); [by rewrite DependentBy_anything in Hc|]. by rewrite !bool_decide_true in Hc by auto.
  - intros w m Hw Hn Hm HP. specialize (Um w Hw Hn). unfold futureDependsOnSet in Um. cbn in Um. rewrite (Hf w _ Hw Hn HP) in Um.
    rewrite bool_decide_true in Um by done. destruct (meets_at s w _ _ _) eqn:E; [|done]. exfalso.
    apply not_true_iff_false in Um. apply Um, existsb_exists. exists m. split; [by apply list_elem_of_In|].
    rewrite bool_decide_true by done. exact E.
Qed.

(** ** Schedules of moves awake *)

(** No move asleep leads to the state. *)
Definition sleeps_well (n : nat) s t Z : Prop := forall z, z ∈ Z -> z ∈ enabled s /\ forall k, n = S k -> leads k s t z = false.

Lemma awake_leads n s t Z m :
  sleeps_well (S n) s t Z -> m ∈ enabled s -> leads n s t m = true -> awake Z m = true.
Proof.
  intros Hz Hm Hl. unfold awake. apply negb_true_iff, not_true_iff_false. intros E. apply existsb_exists in E as (z & Hin & E).
  apply list_elem_of_In in Hin. destruct (Hz z Hin) as [He Hk]. pose proof (same_enabled _ _ _ Hm He E) as <-. by rewrite Hk in Hl.
Qed.

Lemma child_sleeps_well n s t Z l i m s' :
  sleeps_well (S n) s t Z -> (forall z, z ∈ l -> z ∈ enabled s) -> l !! i = Some m ->
  (forall j z, j < i -> l !! j = Some z -> leads n s t z = false) -> s' ∈ after s m ->
  sleeps_well n s' t (childSleep true s Z (take i l) m).
Proof.
  intros Hz Hl Hi Hfirst Hs' z Hin.
  assert (Hk : (z ∈ enabled s /\ leads n s t z = false) /\ dependent s z m = false).
  { unfold childSleep in Hin. apply elem_of_app in Hin as [Hin|Hin]; apply list_elem_of_filter in Hin as [E Hin]; (split; [|done]).
    - destruct (Hz z Hin) as [He Hk]. split; [done|by apply Hk].
    - apply list_elem_of_lookup in Hin as [j Hj]. apply lookup_take_Some in Hj as [Hj Hlt].
      split; [apply Hl; by eapply list_elem_of_lookup_2|by eapply Hfirst]. }
  destruct Hk as [[He Hk] Hd]. rewrite dependent_sym in Hd. split; [by eapply enabled_kept|].
  intros k ->. destruct (leads k s' t z) eqn:E; [|done]. apply leads_true in E as (r & Hr & E).
  destruct (independent_commute s m z s' r) as (r' & Hr' & Hm); [done..|].
  rewrite <- Hk. symmetry. apply leads_true. exists r'. split; [done|]. apply reaches_S. exists m, r.
  split_and!; [by eapply after_enabled|done|done].
Qed.

Lemma reduced_keeps n : forall s Z t,
  enabled t = [] -> sleeps_well n s t Z -> reaches n s t = true -> reduced n s Z t = true.
Proof.
  induction n as [|n IH]; intros s Z t Ht Hz Hn; [done|].
  pose proof Hn as (m0 & s0 & Hm0 & Hs0 & Hn0)%reaches_S.
  assert (L0 : leads n s t m0 = true) by (apply leads_true; by exists s0).
  destruct (persistent_least (Error := Error) s (enabled s) Z) as (first & P & Hfirst & _ & HP & El);
    [intros m; apply unit_there|exists m0; split; [done|by eapply awake_leads]|].
  destruct (member_first s P (S n) s t) as (m & k & [= <-] & Hm & HmP & Hk);
    [by eapply persistent_outside|exists first; split; [done|apply HP]|done|done|].
  cbn [reduced]. set (l := persistent true [] s (enabled s) Z) in *.
  assert (Hml : m ∈ l) by (rewrite El; apply list_elem_of_filter; split; [split; [done|by eapply awake_leads]|done]).
  assert (Hsub : forall z, z ∈ l -> z ∈ enabled s) by (intros z; rewrite El; by intros [_ ?]%list_elem_of_filter).
  destruct (list_find (fun z => leads n s t z = true) l) as [[i a]|] eqn:E.
  2: { apply list_find_None in E. rewrite List.Forall_forall in E. exfalso. apply (E m); [by apply list_elem_of_In|done]. }
  apply list_find_Some in E as (Ei & Ea & Efirst). apply leads_true in Ea as (s' & Hs' & Hn').
  apply existsb_exists. exists i. split; [apply in_seq; split; [lia|by eapply lookup_lt_Some]|]. rewrite Ei.
  apply existsb_exists. exists s'. split; [by apply list_elem_of_In|]. apply IH; [done| |done].
  eapply child_sleeps_well; [done|done|done| |done]. intros j z Hj Ez. apply not_true_iff_false. by eapply Efirst.
Qed.

Lemma reduced_reaches n : forall s Z t, reduced n s Z t = true -> reaches n s t = true.
Proof.
  induction n as [|n IH]; intros s Z t; [done|]. cbn [reduced]. intros (i & _ & E)%existsb_exists.
  destruct (persistent true [] s (enabled s) Z !! i) as [m|] eqn:Ei; [|done]. apply existsb_exists in E as (s' & Hs' & E).
  apply reaches_S. exists m, s'. apply list_elem_of_In in Hs'. split_and!; [by eapply after_enabled|done|by eapply IH].
Qed.

(** C11: the reduction loses no end. A state without moves is reached, by as many moves,
    by a schedule whose every move is in the persistent set of its state less the moves
    asleep there, exactly if it is reached by some schedule. *)
Theorem reduction_keeps_ends n s t : enabled t = [] -> reduced n s [] t = reaches n s t.
Proof.
  intros Ht. apply eq_true_iff_eq. split; [apply reduced_reaches|]. apply reduced_keeps; [done|]. by intros z ?%elem_of_nil.
Qed.
End Sound.

(** ** A small invocation *)

(** Three tokens with a move each: the first and the third write one feature, the second
    another. A state is what tokens moved and whether the third wrote the feature last. *)
Record shared := { moved1 : bool; moved2 : bool; moved3 : bool; last3 : bool }.
#[local] Instance shared_eq_dec : EqDecision shared.
Proof. solve_decision. Defined.

#[local] Instance plain_names : Named := {|
  Symbol := unit; StateNode := unit; GraphNode := unit; TypeRef := unit; NameScope := unit;
  isFeatureSymbol := fun _ => true; isAttributeUsage := fun _ => true |}.

Definition writes_one (n : bytes) : Footprint :=
  {| Reads := []; Writes := [{| Sym := None; PName := n; Local_ := false; State := None; Direct := true; Via := None; PNode := None |}];
     Sends := []; Accepts := []; Control := []; Completion := false; Dynamic := false; Creates := false; Routes := false; Flows := [] |}.

Definition token_footprint (k : Z) : Footprint := if decide (k = 2%Z) then writes_one (bs "b") else writes_one (bs "a").
Definition token_move (k : Z) : reducedMove unit unit :=
  {| plain_move := {| move_ := {| moved := {| Owner := tt; Token := k; MNode := tt; MKind := movePlain |}; Picks := []; Label := [] |};
                      name := decimal_text k |};
     footprint := token_footprint k; Fails := false |}.

Definition done_by (s : shared) (k : Z) : bool :=
  if decide (k = 1%Z) then s.(moved1) else if decide (k = 2%Z) then s.(moved2) else s.(moved3).
Definition moved_by (s : shared) (k : Z) : shared :=
  if decide (k = 1%Z) then {| moved1 := true; moved2 := s.(moved2); moved3 := s.(moved3); last3 := false |}
  else if decide (k = 2%Z) then {| moved1 := s.(moved1); moved2 := true; moved3 := s.(moved3); last3 := s.(last3) |}
  else {| moved1 := s.(moved1); moved2 := s.(moved2); moved3 := true; last3 := true |}.
Definition token_list : list Z := [1; 2; 3]%Z.

#[local] Instance shared_moving : Moving shared unit unit := {|
  enabled := fun s => map token_move (filter (fun k => done_by s k = false) token_list);
  after := fun s m =>
    if decide (m ∈ map token_move (filter (fun k => done_by s k = false) token_list))
    then [moved_by s (unit_of m.(plain_move)).(Token)] else [] |}.

#[local] Instance shared_touching : Touching shared unit := {|
  units_at := fun _ => map (pair tt) token_list;
  standing := fun s u => if done_by s u.2 then nothing else token_footprint u.2;
  future := fun s u => if done_by s u.2 then nothing else token_footprint u.2;
  relation := fun _ _ _ => unrelated |}.

Lemma shared_enabled s (a : reducedMove unit unit) :
  a ∈ enabled s <-> exists k, k ∈ token_list /\ a = token_move k /\ done_by s k = false.
Proof.
  cbn [enabled shared_moving]. change (@map ?A ?B) with (@fmap list _ A B). rewrite list_elem_of_fmap.
  setoid_rewrite list_elem_of_filter. naive_solver.
Qed.

Lemma shared_after s (a : reducedMove unit unit) t :
  t ∈ after s a <-> exists k, k ∈ token_list /\ a = token_move k /\ done_by s k = false /\ t = moved_by s k.
Proof.
  pose proof (shared_enabled s a) as E. cbn [enabled after shared_moving] in *. case_decide as D.
  - rewrite list_elem_of_singleton. rewrite E in D. destruct D as (k & Hk & -> & Hd). cbn. split.
    + intros ->. by exists k.
    + intros (j & _ & [= <-] & _ & ->). done.
  - rewrite elem_of_nil. split; [done|]. intros (k & Hk & -> & Hd & _). apply D, E. by exists k.
Qed.

Lemma done_moved s k j : k ∈ token_list -> j ∈ token_list -> done_by (moved_by s k) j = if decide (j = k) then true else done_by s j.
Proof. intros Hk Hj. unfold token_list in *. set_unfold in Hk. set_unfold in Hj. naive_solver. Qed.

Lemma DependentBy_nothing f g rel : DependentBy nothing g rel = true -> DependentBy f g rel = true.
Proof.
  intros E. replace f with (unionFootprints nothing f) by (by destruct f). by rewrite DependentBy_union, E.
Qed.

#[local] Instance shared_commuting : Commuting shared unit unit.
Proof.
  split.
  - intros s a (k & Hk & -> & _)%shared_enabled. change ((tt, k) ∈ pair tt <$> token_list). apply list_elem_of_fmap. by exists k.
  - intros s a b (k & _ & -> & _)%shared_enabled (j & _ & -> & _)%shared_enabled. unfold same_move, same.
    intros [E _]%andb_true_iff. apply bool_decide_eq_true in E. by injection E as ->.
  - intros s a t (k & Hk & -> & Hd & _)%shared_after. apply shared_enabled. by exists k.
  - done.
  - intros s a g x (k & _ & -> & Hd)%shared_enabled. unfold meets_at. cbn. by rewrite Hd.
  - intros s a t w (k & Hk & -> & Hd & ->)%shared_after Hw. exists w. split_and!; [done|by left|]. intros g x. unfold meets_at. cbn.
    change (w ∈ pair tt <$> token_list) in Hw. apply list_elem_of_fmap in Hw as (j & -> & Hj). cbn. rewrite done_moved by done.
    case_decide as Ej; [apply DependentBy_nothing|done].
  - intros s a t u (k & Hk & -> & Hd & ->)%shared_after Hu Hn _. split; [done|]. change (u ∈ pair tt <$> token_list) in Hu.
    apply list_elem_of_fmap in Hu as (j & -> & Hj). assert (Hjk : j <> k) by (intros ->; done).
    cbn [standing shared_touching snd]. rewrite done_moved, decide_False by done. split; [done|].
    intros m Em. rewrite !shared_enabled. f_equiv. intros i. split; intros (Hi & -> & Ei); injection Em as ->;
      rewrite done_moved, decide_False in * by done; done.
  - intros s a b t (k & Hk & -> & Hd & ->)%shared_after (j & Hj & -> & Hdj)%shared_enabled Hi. apply shared_enabled. exists j.
    rewrite done_moved by done. case_decide as Ej; [|done]. exfalso. subst j. unfold dependent in Hi.
    by rewrite bool_decide_true in Hi.
  - intros s a b t r (k & Hk & -> & Hd & ->)%shared_after (j & Hj & -> & Hdj)%shared_enabled (i & Hi & [= <-] & _ & ->)%shared_after Hind.
    exists (moved_by s j). rewrite !shared_after. split; [by exists j|]. exists k. rewrite done_moved by done.
    unfold token_list in Hk, Hj. set_unfold in Hk. set_unfold in Hj.
    destruct Hk as [->|[->|[->|[]]]], Hj as [->|[->|[->|[]]]]; try (by vm_compute in Hind); (split_and!; [by unfold token_list; set_solver|done|done|done]).
Qed.

(** Of the schedules of the three tokens the reduction leaves two: it does not tell where
    among the others' moves the second token's is made. *)
Lemma reduction_keeps_ends_witness :
  let s := {| moved1 := false; moved2 := false; moved3 := false; last3 := false |} in
  let t := {| moved1 := true; moved2 := true; moved3 := true; last3 := true |} in
  enabled t = [] /\ map token_unit (persistent (Error := unit) true [] s (enabled s) []) = [(tt, 1%Z); (tt, 3%Z)] /\
  reduced (Error := unit) 3 s [] t = true /\ reaches 3 s t = true.
Proof.
  intros s t. assert (E : reaches 3 s t = true) by (vm_compute; reflexivity). assert (Ht : enabled t = []) by (vm_compute; reflexivity).
  split; [exact Ht|split; [vm_compute; reflexivity|split; [|exact E]]].
  rewrite (reduction_keeps_ends (Error := unit) 3 s t Ht). exact E.
Defined.
